(* ===== verification/_CoqProject ===== *)
-Q . S2P
Prelude.v
JitTypes.v
Clutch.v
IR.v
IRVerify.v
Float64.v
IRInterp.v
Aot.v
AotModule.v
Feedback.v
Profiler.v
FrameAbi.v
Osr.v
Spool.v
ParallelMoves.v
BytecodeToIR.v
Deopt.v
TaggedIR.v
CallableSpecialize.v
X64.v
OsrLoop.v
SSA.v
SSADom.v
SSAMem.v
SSAOpt.v
SSACorrect.v
SSABuild.v
LinearScan.v
ScanCorrect.v
ScanSafe.v
ScanSound.v
Pipeline.v
Vault.v
VaultTable.v
VaultIndex.v
VaultInv.v
VaultOps.v
VaultStore.v
VaultRefine.v
VaultRetract.v
VaultCode.v
EngineOpcodes.v
BytecodeCfg.v
CfgLayout.v
CfgSound.v
RegionState.v
PropertyFeedback.v
EngineToIR.v
EngineScan.v
EngineEmit.v
EngineCorrect.v
BaselineX64.v
BaselineNative.v
BaselineAsm.v
BaselineRun.v
BaselineBlocks.v
BaselineLayout.v
BaselineCorrect.v
BaselineLive.v
PipelineNative.v
EngineNative.v
Helpers.v
Tiered.v
NativeTiers.v
HelpersCorrect.v
