(* ===== verification/Prelude.v ===== *)
(** * The TurboJS JIT: a verification library

    TurboJS is a JavaScript engine with its own just-in-time compiler.  This
    library models the compiler and its runtime, the C code under
    src/src/jit/ with the data types of src/include/turbojs/jit.h, and proves
    what makes its parts correct.  Paths below are relative to src/src/.

    ** The program and its files

    A function reaches the JIT as numeric or tagged IR, a list of register
    instructions.  It is verified, interpreted, and profiled; a hot function
    is compiled to machine code and kept in a code cache, the Vault; a
    function with stable feedback goes through an SSA optimizer and a register
    allocator; a hot loop is entered by on-stack replacement; native code that
    meets a case it does not handle bails out and the interpreter continues.
    Native functions call each other through Clutch call sites that hold
    entry handles with generations.  IR can be stored ahead of time as images
    and modules.

    - [JitTypes]: the enumerations, structs and limits of jit.h, and [Heap],
      the objects the code reaches through addresses stored in the IR.
    - [Clutch]: jit/runtime/code_cache.c (entry handles, call sites) and
      jit/runtime/callable_reference.c.
    - [IR]: jit/ir/ir.c.  [IRVerify]: jit/ir/ir_verify.c.  [IRInterp]:
      jit/ir/ir_interpreter.c, with [Float64] for its doubles.
    - [TaggedIR]: jit/ir/tagged_ir.c.  [CallableSpecialize]:
      jit/ir/callable_specialize.c.  [Deopt]: jit/ir/deopt_boxing.c.
    - [Aot], [AotModule]: jit/aot/portable_ir.c and module.c.
    - [Feedback]: jit/runtime/type_feedback.c and call_feedback.c.
      [Profiler]: jit/optimization_api.c.
    - [FrameAbi]: jit/runtime/js_frame_abi.c.  [Osr]: jit/runtime/osr.c,
      osr_frame.c, osr_entry.c.  [X64], [OsrLoop]: jit/runtime/osr_loop.c with
      the machine that runs the bytes it emits.
    - [Spool]: jit/frontend/spool_frame_state.c.  [BytecodeToIR]:
      jit/frontend/bytecode_to_ir.c.
    - [EngineOpcodes], [BytecodeCfg]: internal/bytecode_opcodes.h and
      jit/frontend/engine_bytecode_cfg.c, engine_bytecode_analysis.c,
      engine_bytecode_region.c; [CfgLayout], [CfgSound]: the control-flow
      graph against a machine that steps through the bytecode.
    - [EngineToIR]: jit/frontend/engine_bytecode_to_ir.c; [EngineScan],
      [EngineEmit], [EngineCorrect]: its depth analysis, what its steps emit,
      and its correctness.
    - [BaselineX64], [BaselineNative]: jit/backend/x64/baseline_x64.c (the
      code generator with its liveness, metadata and stack maps; invocation,
      bailout records, deoptimization frames, safepoints).  [BaselineAsm]: the
      instructions the emitted bytes are; [BaselineRun], [BaselineBlocks]: what
      they do on the machine of [X64]; [BaselineLayout]: where branch patching
      leaves them; [BaselineCorrect]: the compiler against the IR;
      [BaselineLive]: its liveness analysis; [EngineNative]: engine bytecode
      down to machine code.
    - [Helpers], [HelpersCorrect]: jit/runtime/helpers (invocation,
      continuations, their cache and their native segments).
    - [PropertyFeedback]: jit/frontend/property_feedback.c.
    - [ParallelMoves]: jit/optimizing/parallel_moves.c.
    - [SSA], [SSADom], [SSAMem], [SSAOpt]: jit/optimizing/ssa.c (construction,
      dominators, memory passes, optimizer); [SSACorrect], [SSABuild]: that
      the passes and the construction preserve meaning.
    - [LinearScan]: jit/optimizing/linear_scan.c; [ScanCorrect], [ScanSafe],
      [ScanSound]: its soundness.
    - [Pipeline]: jit/optimizing/pipeline.c.
    - [Vault]: jit/runtime/code_cache.c (the cache); [VaultTable],
      [VaultIndex], [VaultInv], [VaultOps], [VaultStore], [VaultRefine],
      [VaultRetract], [VaultCode]: its invariant, its refinement of a map, the
      retraction of handles, and what it keeps of stored code.
    - [Tiered]: jit/runtime/tiered_execution.c, the composition of the above
      over interfaces; [PipelineNative]: optimized code as input of the
      baseline compiler; [NativeTiers]: the tiers with the real compilers and
      the machine.

    ** How C becomes Rocq

    Integers are [Z]; a definition wraps them ([uwrap], [swrap]) wherever the
    C expression can leave its type.  A struct is a record whose fields keep
    the C names behind a prefix; an array is a list.  A pointer the code only
    stores, compares or follows through [Heap] is its address, 0 for NULL; an
    object the code owns is in the record of its owner.  Undefined behaviour
    (an access out of bounds, a dangling address) is a value of its own,
    [None], [Undef], [TUndef] or the like, never a default, so that "the
    result is not undefined" is a memory-safety theorem.  The allocator's
    answers are boolean arguments, or a record of them where a function asks
    several times.  Calls of embedder hooks are logged as events.  Machine
    code is a list of bytes that [X64] decodes and runs in a memory and
    register file given by the caller.  The clients of native code (the Vault,
    the tiers, the continuations) take running it as an argument; what they
    rely on is a class ([NativeCode], [SoundBaseline] and [SoundSpecializer]
    in [Tiered], [FaithfulNative] in [HelpersCorrect]).

    ** What is proved

    - Composition.  [Tiered.tiering_transparent]: whatever tier runs a
      function without control flow, an OK answer is the interpreter's.  It
      rests on [Pipeline.optimizing_compile_preserves_results] (SSA
      construction, speculation, optimization and lowering), on the Vault's
      invariant and on the promises of the compilers.  The compilers keep
      them: [NativeTiers.tiers_on_machine] is the same for the bytes the
      baseline compiler emits, run on the machine of [X64].
    - The Vault.  Every history of cache operations refines a finite map with
      evictions, gives every function object back, makes room for code that
      fits, and leaves no call site with a retracted handle.
    - Frontends.  The depths of the control-flow graph hold however the
      bytecode runs; the IR of a numeric function ends as the operand-stack
      machine of its bytecode does, through loops and merges
      ([EngineCorrect.engine_lowering_correct]).
    - Continuations.  After a runtime-helper bailout, native continuation
      segments and their cache do not change the result.
    - Property feedback.  The inline-cache cases of loads and stores are the
      first eligible shapes, each once.
    - Register allocation.  On every well-formed graph no two live values
      share a place, except a loop phi updated in place.
    - Generated code.  The bytes of a counted loop compute the loop.  The
      bytes of the baseline compiler, on both calling conventions, end as the
      IR does from the same registers and locals: with the result, or with the
      bailout's reason, position and frame ([BaselineCorrect.baseline_correct]);
      with the translation of engine bytecode this gives the machine code of a
      bytecode function ([EngineNative.engine_native_correct]).  The frame is
      not cleared, so the registers and locals start with the stack's contents;
      that does not matter to functions that write before they read, which the
      liveness masks decide ([BaselineLive.liveness_exact]).
    - Execution.  Verified IR is memory safe in both interpreters; checked
      arithmetic is exact; resuming a bailout continues the run; the step
      budget does not cut forward code; specialization preserves results.
    - Encodings.  Images and modules round-trip; corruption is detected; the
      loaders read nothing outside their input and enforce their limits.
    - State.  Builder invariants, Spool frames as a stack machine, OSR entry
      as a transaction and its life cycle, frame layout, feedback and
      profiler as functions of the history of events, root balance, stale
      call sites refused, dominators.
    - Behaviour that is not what the code means is stated the way the code
      behaves: the missing bound on locals, addresses loaded from images, the
      immediate-dominator search, the map of the lowering, the counted loop
      that wraps, the ignored registration failure, cyclic parallel moves.

    ** Bounds and fuel

    The interpreters use the step budget of the C code, so their loops are
    total.  The fuel of the dominator sweeps, of the scans, of the translation
    of bytecode and of the eviction loop is a size of the data (blocks,
    values, entries) and theorems show that it is enough; where no theorem does, running out is a result of its
    own ([None]); type inference takes its number of sweeps
    from the caller, two of which settle a graph without phis; the machine of
    [X64] runs for a number of steps computed from the loop bounds, and the
    invocation of compiled code takes the number of steps as an argument: the
    theorems give one that is enough.

    ** Not modelled

    The QuickJS-derived engine (parser, bytecode interpreter, object model,
    modules, regular expressions) and its bridge to the JIT (vm/jit_bridge.c);
    generated units; the region code generators and vector kernels
    (jit/backend/x64/region_x64.c, region_x64_stack.c, simd_kernels.c), the
    arm64 backend, and the symbolic states and SSA graph of bytecode regions
    that only the region compiler uses (jit/frontend/engine_bytecode_state.c,
    engine_bytecode_ssa.c); executable memory (system calls); statistics of
    the pipeline that nothing reads; diagnostics' texts where only the status
    is used.

    ** This file

    Machine integers, little-endian byte strings, bounded loops, and the proof
    automation the component files share. *)

From stdpp Require Export base list numbers option strings relations.
From Stdlib Require Export ZArith Lia.

Declare Scope jit_scope.
Delimit Scope jit_scope with jit.
Global Open Scope Z_scope.

(** ** Machine integers

    A C integer of width [w] is a [Z]; the unsigned conversion is [uwrap w],
    the two's complement reinterpretation is [swrap w]. *)

Definition uwrap (w z : Z) : Z := z mod 2 ^ w.
Definition swrap (w z : Z) : Z := (z + 2 ^ (w - 1)) mod 2 ^ w - 2 ^ (w - 1).

Definition INT32_MIN : Z := -2147483648.
Definition INT32_MAX : Z := 2147483647.
Definition INT64_MIN : Z := -9223372036854775808.
Definition INT64_MAX : Z := 9223372036854775807.
Definition UINT16_MAX : Z := 65535.
Definition UINT32_MAX : Z := 4294967295.
Definition UINT64_MAX : Z := 18446744073709551615.
(** [size_t] of the 64-bit targets the JIT supports. *)
Definition SIZE_MAX : Z := UINT64_MAX.

Definition is_u (w z : Z) : Prop := 0 <= z < 2 ^ w.
Definition in_i32 (z : Z) : bool := (INT32_MIN <=? z) && (z <=? INT32_MAX).
Definition in_i64 (z : Z) : bool := (INT64_MIN <=? z) && (z <=? INT64_MAX).

Notation "'i64!' z" := (in_i64 z = true) (at level 10, z at level 9) : jit_scope.

(** A C expression whose evaluation may be undefined behaviour has type
    [option Z]; [None] stands for the undefined case. *)
Definition c_i64 (z : Z) : option Z := if in_i64 z then Some z else None.

(** Saturating counters ([value == MAX ? value : value + 1]). *)
Definition sat_incr (max z : Z) : Z := if z =? max then z else z + 1.

Lemma uwrap_small w z : is_u w z -> uwrap w z = z.
Proof. unfold uwrap, is_u. apply Z.mod_small. Qed.

Lemma uwrap_is_u w z : 0 <= w -> is_u w (uwrap w z).
Proof. intros. unfold uwrap, is_u. apply Z.mod_pos_bound. lia. Qed.

Lemma in_i64_spec z : in_i64 z = true <-> INT64_MIN <= z <= INT64_MAX.
Proof. unfold in_i64. rewrite andb_true_iff, !Z.leb_le. tauto. Qed.

Lemma in_i32_spec z : in_i32 z = true <-> INT32_MIN <= z <= INT32_MAX.
Proof. unfold in_i32. rewrite andb_true_iff, !Z.leb_le. tauto. Qed.

Lemma swrap_uwrap_i64 z : in_i64 z = true -> swrap 64 (uwrap 64 z) = z.
Proof.
  rewrite in_i64_spec. unfold INT64_MIN, INT64_MAX, swrap, uwrap.
  change (2 ^ 64) with 18446744073709551616.
  change (2 ^ (64 - 1)) with 9223372036854775808.
  intros. rewrite Zplus_mod_idemp_l, Z.mod_small; lia.
Qed.

Lemma in_i32_i64 z : in_i32 z = true -> in_i64 z = true.
Proof. rewrite in_i32_spec, in_i64_spec. unfold INT32_MIN, INT32_MAX, INT64_MIN, INT64_MAX. lia. Qed.

Lemma c_i64_Some z r : c_i64 z = Some r -> r = z /\ in_i64 z = true.
Proof. unfold c_i64. case_match; naive_solver. Qed.

Lemma sat_incr_bounds max z : 0 <= z <= max -> z <= sat_incr max z <= max.
Proof. unfold sat_incr. destruct (Z.eqb_spec z max); lia. Qed.

(** ** Little-endian byte strings *)

Fixpoint le_bytes (n : nat) (v : Z) : list Z :=
  match n with
  | O => []
  | S n => v mod 256 :: le_bytes n (v / 256)
  end.

Fixpoint le_value (bs : list Z) : Z :=
  match bs with
  | [] => 0
  | b :: bs => b + 256 * le_value bs
  end.

Definition is_byte (b : Z) : Prop := 0 <= b < 256.

Lemma length_le_bytes n v : length (le_bytes n v) = n.
Proof. revert v. induction n; intros; simpl; auto. Qed.

Lemma le_bytes_are_bytes n v : Forall is_byte (le_bytes n v).
Proof.
  revert v. induction n; intros; simpl; constructor; auto.
  unfold is_byte. apply Z.mod_pos_bound. lia.
Qed.

Lemma le_value_bytes n v : le_value (le_bytes n v) = v mod 256 ^ Z.of_nat n.
Proof.
  revert v. induction n; intros v; simpl le_bytes; simpl le_value.
  - rewrite Z.pow_0_r, Z.mod_1_r. reflexivity.
  - rewrite IHn. rewrite Nat2Z.inj_succ, Z.pow_succ_r by lia.
    rewrite Z.rem_mul_r by lia. lia.
Qed.

Lemma le_value_bound bs :
  Forall is_byte bs -> 0 <= le_value bs < 256 ^ Z.of_nat (length bs).
Proof.
  induction 1 as [|b bs Hb _ IH]; simpl le_value; simpl length.
  - simpl. lia.
  - rewrite Nat2Z.inj_succ, Z.pow_succ_r by lia. unfold is_byte in Hb. lia.
Qed.

Lemma le_bytes_value bs :
  Forall is_byte bs -> le_bytes (length bs) (le_value bs) = bs.
Proof.
  induction 1 as [|b bs Hb _ IH]; simpl; auto.
  unfold is_byte in Hb. f_equal.
  - rewrite Z.mul_comm, Z.mod_add by lia. apply Z.mod_small. lia.
  - rewrite Z.mul_comm, Z.div_add by lia. rewrite Z.div_small, Z.add_0_l by lia. exact IH.
Qed.

(** ** Bounded loops

    [for_range n body s] is [for (i = 0; i < n; ++i) s = body(i, s)]. *)

Definition for_range {S : Type} (n : nat) (body : nat -> S -> S) (s : S) : S :=
  foldl (fun s i => body i s) s (seq 0 n).

Lemma for_range_S {S : Type} n (body : nat -> S -> S) s :
  for_range (Datatypes.S n) body s = body n (for_range n body s).
Proof. unfold for_range. rewrite seq_S, foldl_app. reflexivity. Qed.

(** The loop rule: an invariant indexed by the iteration count. *)
Lemma for_range_ind {S : Type} (P : nat -> S -> Prop) n (body : nat -> S -> S) s :
  P O s ->
  (forall i s, (i < n)%nat -> P i s -> P (Datatypes.S i) (body i s)) ->
  P n (for_range n body s).
Proof.
  intros H0 Hstep.
  assert (forall m, (m <= n)%nat -> P m (for_range m body s)) as H.
  { induction m; intros Hm; [exact H0|].
    rewrite for_range_S. apply Hstep; [lia|]. apply IHm. lia. }
  apply H. lia.
Qed.

Lemma for_range_id {S : Type} n (body : nat -> S -> S) s :
  (forall i, (i < n)%nat -> body i s = s) -> for_range n body s = s.
Proof.
  intros H. apply (for_range_ind (fun _ s' => s' = s)); [reflexivity|].
  intros i s' Hi ->. auto.
Qed.

Lemma for_range_ext {S : Type} n (b1 b2 : nat -> S -> S) s :
  (forall i s, (i < n)%nat -> b1 i s = b2 i s) -> for_range n b1 s = for_range n b2 s.
Proof.
  intros H. apply (for_range_ind (fun m s' => (m <= n)%nat -> s' = for_range m b2 s)); [done| |lia].
  intros i s' Hi IH Hm. rewrite for_range_S, <-IH by lia. auto.
Qed.

(** The rule for a left fold. *)
Lemma foldl_inv {A B : Type} (P : A -> Prop) (f : A -> B -> A) l a :
  P a -> (forall a b, P a -> P (f a b)) -> P (foldl f a l).
Proof. intros Ha Hf. revert a Ha. induction l as [|b l IH]; intros a Ha; simpl; auto. Qed.

(** ** Option monad notation for C code that may be undefined *)

Notation "'let?' x ':=' c 'in' k" :=
  (match c with Some x => k | None => None end)
  (at level 10, x pattern, c at level 100, k at level 200) : jit_scope.
Global Open Scope jit_scope.

(** ** Lists *)

Lemma lookup_lt_is_Some_Z {A} (l : list A) (z : Z) :
  0 <= z < Z.of_nat (length l) -> is_Some (l !! Z.to_nat z).
Proof. intros. apply lookup_lt_is_Some. lia. Qed.

Lemma Forall_lookup_insert {A} (P : A -> Prop) (l : list A) i x :
  Forall P l -> P x -> Forall P (<[i:=x]> l).
Proof. intros. by apply Forall_insert. Qed.

Lemma lookup_of_drop {A : Type} (l : list A) n : l !! n = head (drop n l).
Proof. rewrite <-(Nat.add_0_r n) at 1. rewrite <-lookup_drop. by destruct (drop n l). Qed.

(** ** Automation *)

Create HintDb jit.
Create Rewrite HintDb jit.
#[export] Hint Resolve Forall_lookup_insert in_i32_i64 le_bytes_are_bytes : jit.
#[export] Hint Rewrite @length_insert length_le_bytes @length_replicate @length_app
  @length_fmap : jit.

(** Turn boolean comparisons in the context and goal into propositions. *)
Ltac b2p :=
  repeat match goal with
  | H : (_ && _) = true |- _ => apply andb_true_iff in H; destruct H
  | H : (_ || _) = false |- _ => apply orb_false_iff in H; destruct H
  | H : negb _ = true |- _ => apply negb_true_iff in H
  | H : negb _ = false |- _ => apply negb_false_iff in H
  | H : (_ <? _) = true |- _ => apply Z.ltb_lt in H
  | H : (_ <? _) = false |- _ => apply Z.ltb_ge in H
  | H : (_ <=? _) = true |- _ => apply Z.leb_le in H
  | H : (_ <=? _) = false |- _ => apply Z.leb_gt in H
  | H : (_ =? _) = true |- _ => apply Z.eqb_eq in H
  | H : (_ =? _) = false |- _ => apply Z.eqb_neq in H
  | H : bool_decide _ = true |- _ => apply bool_decide_eq_true in H
  | H : bool_decide _ = false |- _ => apply bool_decide_eq_false in H
  end.

(** Case analysis on the scrutinee of a match or an [if], keeping equations. *)
Ltac split_match :=
  match goal with
  | |- context [match ?x with _ => _ end] => destruct x eqn:?
  | H : context [match ?x with _ => _ end] |- _ => destruct x eqn:?
  end.

Ltac solve_len := autorewrite with jit in *; simpl in *; try lia.

(** ** Counting *)

Lemma filter_length_le {A} (P Q : A -> Prop) `{!forall x, Decision (P x), !forall x, Decision (Q x)} (l : list A) :
  (forall x, P x -> Q x) -> (length (filter P l) <= length (filter Q l))%nat.
Proof.
  intros HPQ. induction l as [|x l IH]; [done|]. rewrite !filter_cons.
  repeat case_decide; simpl; try lia. exfalso. auto.
Qed.

Lemma filter_length_lt {A} (P Q : A -> Prop) `{!forall x, Decision (P x), !forall x, Decision (Q x)} (l : list A) y :
  (forall x, P x -> Q x) -> y ∈ l -> Q y -> ~ P y -> (length (filter P l) < length (filter Q l))%nat.
Proof.
  intros HPQ Hy HQ HP. induction l as [|x l IH]; [set_solver|]. rewrite !filter_cons.
  pose proof (filter_length_le P Q l HPQ). apply elem_of_cons in Hy as [<-|Hy].
  - rewrite decide_False, decide_True by done. simpl. lia.
  - specialize (IH Hy). repeat case_decide; simpl; try lia. exfalso. auto.
Qed.
