(* ===== verification/JitTypes.v ===== *)
(** * Data types of the JIT (include/turbojs/jit.h)

    The enumerations become inductive types with the source's enumerators;
    the structs become records whose fields keep the C names behind a short
    prefix.  A pointer is an address ([Z], [0] for NULL) when the code only
    stores or compares it, and the pointed-to object when the code owns it. *)

From S2P Require Import Prelude.

Definition TURBOJS_IR_MAX_REGISTERS : Z := 64.
Definition TURBOJS_IR_NO_REGISTER : Z := UINT16_MAX.
Definition TURBOJS_CLUTCH_MAX_ARGUMENTS : Z := 4.

(** ** IR opcodes

    [TURBOJS_IR_UNNAMED c] is an enum object holding a value [c] that names
    no enumerator, as produced by casting a 16-bit field of an image. *)
Inductive TurboJSIROpcode :=
  | TURBOJS_IR_NOP | TURBOJS_IR_ARGUMENT | TURBOJS_IR_CONSTANT_I64 | TURBOJS_IR_CONSTANT_F64
  | TURBOJS_IR_ADD_I64 | TURBOJS_IR_SUB_I64 | TURBOJS_IR_MUL_I64
  | TURBOJS_IR_ADD_F64 | TURBOJS_IR_SUB_F64 | TURBOJS_IR_MUL_F64 | TURBOJS_IR_DIV_F64
  | TURBOJS_IR_LESS_THAN_F64 | TURBOJS_IR_LESS_EQUAL_F64 | TURBOJS_IR_EQUAL_F64
  | TURBOJS_IR_I64_TO_F64 | TURBOJS_IR_F64_TO_I64_TRUNC
  | TURBOJS_IR_ADD_I32_CHECKED | TURBOJS_IR_SUB_I32_CHECKED | TURBOJS_IR_MUL_I32_CHECKED
  | TURBOJS_IR_DIV_I32_CHECKED | TURBOJS_IR_REM_I32_CHECKED
  | TURBOJS_IR_RUNTIME_HELPER
  | TURBOJS_IR_VALUE_ARGUMENT | TURBOJS_IR_VALUE_UNDEFINED | TURBOJS_IR_VALUE_CONSTANT_I32
  | TURBOJS_IR_VALUE_MOVE | TURBOJS_IR_VALUE_LOCAL_GET | TURBOJS_IR_VALUE_LOCAL_SET
  | TURBOJS_IR_VALUE_TO_BOOLEAN | TURBOJS_IR_VALUE_CALLABLE_CONSTANT
  | TURBOJS_IR_VALUE_CALL_I64 | TURBOJS_IR_VALUE_CALL_F64 | TURBOJS_IR_VALUE_RETURN
  | TURBOJS_IR_LESS_THAN_I64 | TURBOJS_IR_LOCAL_GET | TURBOJS_IR_LOCAL_SET
  | TURBOJS_IR_JUMP | TURBOJS_IR_BRANCH_TRUE | TURBOJS_IR_BRANCH_FALSE
  | TURBOJS_IR_CALL_NATIVE_I64 | TURBOJS_IR_CALL_NATIVE_F64
  | TURBOJS_IR_RETURN_I64 | TURBOJS_IR_RETURN_F64
  | TURBOJS_IR_UNNAMED (code : Z).

#[export] Instance TurboJSIROpcode_eq_dec : EqDecision TurboJSIROpcode.
Proof. solve_decision. Defined.

Definition ir_opcodes : list TurboJSIROpcode :=
  [TURBOJS_IR_NOP; TURBOJS_IR_ARGUMENT; TURBOJS_IR_CONSTANT_I64; TURBOJS_IR_CONSTANT_F64;
   TURBOJS_IR_ADD_I64; TURBOJS_IR_SUB_I64; TURBOJS_IR_MUL_I64;
   TURBOJS_IR_ADD_F64; TURBOJS_IR_SUB_F64; TURBOJS_IR_MUL_F64; TURBOJS_IR_DIV_F64;
   TURBOJS_IR_LESS_THAN_F64; TURBOJS_IR_LESS_EQUAL_F64; TURBOJS_IR_EQUAL_F64;
   TURBOJS_IR_I64_TO_F64; TURBOJS_IR_F64_TO_I64_TRUNC;
   TURBOJS_IR_ADD_I32_CHECKED; TURBOJS_IR_SUB_I32_CHECKED; TURBOJS_IR_MUL_I32_CHECKED;
   TURBOJS_IR_DIV_I32_CHECKED; TURBOJS_IR_REM_I32_CHECKED;
   TURBOJS_IR_RUNTIME_HELPER;
   TURBOJS_IR_VALUE_ARGUMENT; TURBOJS_IR_VALUE_UNDEFINED; TURBOJS_IR_VALUE_CONSTANT_I32;
   TURBOJS_IR_VALUE_MOVE; TURBOJS_IR_VALUE_LOCAL_GET; TURBOJS_IR_VALUE_LOCAL_SET;
   TURBOJS_IR_VALUE_TO_BOOLEAN; TURBOJS_IR_VALUE_CALLABLE_CONSTANT;
   TURBOJS_IR_VALUE_CALL_I64; TURBOJS_IR_VALUE_CALL_F64; TURBOJS_IR_VALUE_RETURN;
   TURBOJS_IR_LESS_THAN_I64; TURBOJS_IR_LOCAL_GET; TURBOJS_IR_LOCAL_SET;
   TURBOJS_IR_JUMP; TURBOJS_IR_BRANCH_TRUE; TURBOJS_IR_BRANCH_FALSE;
   TURBOJS_IR_CALL_NATIVE_I64; TURBOJS_IR_CALL_NATIVE_F64;
   TURBOJS_IR_RETURN_I64; TURBOJS_IR_RETURN_F64].

(** The cast [(TurboJSIROpcode)code] and its inverse [(uint16_t)opcode]. *)
Definition ir_opcode_of_code (code : Z) : TurboJSIROpcode :=
  match (if code <? 0 then None else ir_opcodes !! Z.to_nat code) with
  | Some op => op
  | None => TURBOJS_IR_UNNAMED code
  end.

Definition ir_opcode_code (op : TurboJSIROpcode) : Z :=
  match op with
  | TURBOJS_IR_UNNAMED c => c
  | _ => match list_find (fun o => o = op) ir_opcodes with
         | Some (i, _) => Z.of_nat i
         | None => 0
         end
  end.

(** ** Status, bailout and value-kind enumerations *)
Inductive TurboJSIRStatus :=
  | TURBOJS_IR_OK | TURBOJS_IR_INVALID_ARGUMENT | TURBOJS_IR_OUT_OF_MEMORY
  | TURBOJS_IR_INVALID_OPCODE | TURBOJS_IR_INVALID_REGISTER | TURBOJS_IR_INVALID_TARGET
  | TURBOJS_IR_MISSING_RETURN | TURBOJS_IR_EXECUTION_LIMIT | TURBOJS_IR_BAILOUT
  | TURBOJS_IR_EXCEPTION | TURBOJS_IR_UNSUPPORTED.

#[export] Instance TurboJSIRStatus_eq_dec : EqDecision TurboJSIRStatus.
Proof. solve_decision. Defined.

Inductive TurboJSBailoutReason :=
  | TURBOJS_BAILOUT_NONE | TURBOJS_BAILOUT_INTEGER_OVERFLOW | TURBOJS_BAILOUT_DIVISION_BY_ZERO
  | TURBOJS_BAILOUT_DIVISION_OVERFLOW | TURBOJS_BAILOUT_SAFEPOINT_REQUESTED
  | TURBOJS_BAILOUT_RUNTIME_HELPER.

#[export] Instance TurboJSBailoutReason_eq_dec : EqDecision TurboJSBailoutReason.
Proof. solve_decision. Defined.

Inductive TurboJSValueKind :=
  | TURBOJS_VALUE_UNKNOWN | TURBOJS_VALUE_I64 | TURBOJS_VALUE_I32 | TURBOJS_VALUE_BOOLEAN
  | TURBOJS_VALUE_F64 | TURBOJS_VALUE_HEAP_REFERENCE | TURBOJS_VALUE_CALLABLE_REFERENCE.

#[export] Instance TurboJSValueKind_eq_dec : EqDecision TurboJSValueKind.
Proof. solve_decision. Defined.

Inductive TurboJSNativeEntryKind :=
  | TURBOJS_NATIVE_ENTRY_NONE | TURBOJS_NATIVE_ENTRY_INT32 | TURBOJS_NATIVE_ENTRY_FLOAT64.

#[export] Instance TurboJSNativeEntryKind_eq_dec : EqDecision TurboJSNativeEntryKind.
Proof. solve_decision. Defined.

(** ** Instructions *)
Record TurboJSIRInstruction := mkInstruction {
  in_opcode : TurboJSIROpcode;
  in_destination : Z;  (* uint16_t *)
  in_left : Z;         (* uint16_t *)
  in_right : Z;        (* uint16_t *)
  in_immediate : Z;    (* int64_t *)
  in_target : Z;       (* uint32_t *)
  in_bytecode_offset : Z (* uint32_t *)
}.

(** ** Deoptimization metadata *)
Record TurboJSBailoutInfo := mkBailoutInfo {
  bo_reason : TurboJSBailoutReason;
  bo_instruction_index : Z;
  bo_bytecode_offset : Z
}.

Record TurboJSDeoptFrame := mkDeoptFrame {
  df_bailout : TurboJSBailoutInfo;
  df_register_count : Z;
  df_local_count : Z;
  df_stack_count : Z;
  df_materialized_register_mask : Z;
  df_materialized_local_mask : Z;
  df_live_register_mask : Z;
  df_live_local_mask : Z;
  df_register_values : list Z;
  df_local_values : list Z;
  df_register_kinds : list TurboJSValueKind;
  df_local_kinds : list TurboJSValueKind
}.

(** ** Boxed values *)
Inductive TurboJSBoxedValueTag :=
  | TURBOJS_BOXED_UNDEFINED | TURBOJS_BOXED_INT32 | TURBOJS_BOXED_INT64 | TURBOJS_BOXED_BOOLEAN
  | TURBOJS_BOXED_FLOAT64 | TURBOJS_BOXED_HEAP_REFERENCE | TURBOJS_BOXED_CALLABLE_REFERENCE.

#[export] Instance TurboJSBoxedValueTag_eq_dec : EqDecision TurboJSBoxedValueTag.
Proof. solve_decision. Defined.

(** The 8-byte union of the C struct is kept as its signed 64-bit payload:
    [as.integer], the IEEE bits of [as.number], or an address. *)
Record TurboJSBoxedValue := mkBoxed {
  bx_tag : TurboJSBoxedValueTag;
  bx_as : Z
}.

#[export] Instance TurboJSBoxedValue_eq_dec : EqDecision TurboJSBoxedValue.
Proof. solve_decision. Defined.

(** ** Rooting hooks

    The callbacks belong to the embedder.  [retain] is the function itself,
    already applied to its opaque pointer ([None] for a NULL hook); a call of
    [release] has no result, so only its presence is kept and the calls are
    logged by the operations that make them. *)
Record TurboJSRootingHooks := mkHooks {
  rh_retain : option (Z -> Z);
  rh_release : bool
}.
Definition no_hooks : TurboJSRootingHooks := mkHooks None false.

(** ** Native entries and Clutch call sites *)
Record TurboJSNativeEntryHandle := mkHandle {
  nh_function : Z;          (* const TurboJSNativeFunction * *)
  nh_generation : Z;        (* uint64_t *)
  nh_argument_count : Z;    (* uint16_t *)
  nh_kind : TurboJSNativeEntryKind;
  nh_result_kind : TurboJSValueKind
}.

(** Safepoints of native code: where they are and what is live there. *)
Inductive TurboJSSafepointKind :=
  | TURBOJS_SAFEPOINT_BAILOUT | TURBOJS_SAFEPOINT_LOOP_BACKEDGE | TURBOJS_SAFEPOINT_RETURN
  | TURBOJS_SAFEPOINT_RUNTIME_CALL | TURBOJS_SAFEPOINT_CLUTCH_CALL.

Record TurboJSStackMap := mkStackMap {
  sm_kind : TurboJSSafepointKind;
  sm_instruction_index : Z;
  sm_native_offset : Z;
  sm_bytecode_offset : Z;
  sm_live_register_mask : Z;
  sm_live_local_mask : Z;
  sm_reference_register_mask : Z;
  sm_reference_local_mask : Z
}.

Record TurboJSClutchCallSite := mkCallSite {
  cs_target : Z;            (* const TurboJSNativeEntryHandle * *)
  cs_expected_generation : Z;
  cs_argument_count : Z;
  cs_expected_kind : TurboJSNativeEntryKind;
  cs_flags : Z;             (* uint8_t *)
  cs_continuation_bytecode_offset : Z;
  cs_closure_environment : Z;
  cs_environment_rooting : TurboJSRootingHooks;
  cs_owns_environment : bool;
  cs_target_identity : Z;
  cs_receiver_shape_identity : Z;
  cs_receiver_shape_offset : Z;
  cs_receiver_register : Z;
  cs_argument_registers : list Z   (* [TURBOJS_CLUTCH_MAX_ARGUMENTS] entries *)
}.

Record TurboJSCallableReference := mkCallable {
  cr_target_identity : Z;
  cr_target : Z;
  cr_expected_generation : Z;
  cr_closure_environment : Z;
  cr_environment_rooting : TurboJSRootingHooks;
  cr_argument_count : Z;
  cr_expected_kind : TurboJSNativeEntryKind;
  cr_flags : Z;
  cr_owns_environment : bool
}.

(** ** IR functions

    [instruction_count] is the length of [f_instructions]; a list always has
    its storage, so the "count without storage" state is not representable. *)
Record TurboJSIRFunction := mkFunction {
  f_instructions : list TurboJSIRInstruction;
  f_instruction_capacity : Z;
  f_register_count : Z;
  f_argument_count : Z;
  f_local_count : Z;
  f_source_local_count : Z;
  f_register_kind_hints : list TurboJSValueKind;
  f_local_kind_hints : list TurboJSValueKind;
  f_owned_clutch_sites : list TurboJSClutchCallSite;
  f_owned_clutch_site_capacity : Z;
  f_owned_callable_references : list TurboJSCallableReference;
  f_owned_callable_reference_capacity : Z;
  f_instance_id : Z;
  f_revision : Z
}.

Definition f_instruction_count (f : TurboJSIRFunction) : Z := Z.of_nat (length (f_instructions f)).

Record TurboJSIRDiagnostic := mkDiagnostic {
  dg_status : TurboJSIRStatus;
  dg_instruction_index : Z;
  dg_message : string
}.

(** The memory the code reaches through addresses stored in the IR. *)
Record Heap := mkHeap {
  hp_site : Z -> option TurboJSClutchCallSite;
  hp_callable : Z -> option TurboJSCallableReference;
  hp_handle : Z -> option TurboJSNativeEntryHandle
}.
Definition empty_heap : Heap := mkHeap (fun _ => None) (fun _ => None) (fun _ => None).

(** ** Facts on the opcode encoding *)

Lemma ir_opcode_of_code_code op :
  (forall c, op <> TURBOJS_IR_UNNAMED c) -> ir_opcode_of_code (ir_opcode_code op) = op.
Proof. intros H. destruct op; try reflexivity. exfalso. by eapply H. Qed.

Lemma ir_opcode_code_range op :
  (forall c, op <> TURBOJS_IR_UNNAMED c) -> 0 <= ir_opcode_code op < 43.
Proof. intros H. destruct op; try (vm_compute; split; [discriminate|reflexivity]). exfalso. by eapply H. Qed.

(** Register classes, shared by the allocator and the move resolver. *)
Inductive TurboJSRegisterClass := TURBOJS_REGISTER_CLASS_INTEGER | TURBOJS_REGISTER_CLASS_FLOAT64.

#[export] Instance TurboJSRegisterClass_eq_dec : EqDecision TurboJSRegisterClass.
Proof. solve_decision. Defined.
