(* ===== verification/Clutch.v ===== *)
(** * Native entry handles, Clutch call sites and callable references

    Models src/jit/runtime/code_cache.c (the entry-handle and call-site
    operations) and src/jit/runtime/callable_reference.c.  Executing machine
    code ([TurboJS_NativeInvoke], [TurboJS_NativeInvokeF64]) is the parameter
    [native_i64]/[native_f64] of the invocation functions; the embedder's
    rooting callbacks are the hooks of [JitTypes]. *)

From S2P Require Import Prelude.
From S2P Require Import JitTypes.

Definition TURBOJS_CLUTCH_CALL_HAS_ENVIRONMENT : Z := 4.
Definition TURBOJS_CLUTCH_CALL_HAS_RECEIVER : Z := 8.
Definition TURBOJS_CLUTCH_CALL_HAS_RECEIVER_SHAPE_GUARD : Z := 16.

(** ** Entry handles *)

Definition next_entry_generation (generation : Z) : Z :=
  let generation := uwrap 64 (generation + 1) in
  if generation =? 0 then 1 else generation.

Definition TurboJS_NativeEntryHandleInit : TurboJSNativeEntryHandle :=
  mkHandle 0 0 0 TURBOJS_NATIVE_ENTRY_NONE TURBOJS_VALUE_UNKNOWN.

Definition TurboJS_NativeEntryHandleInvalidate (h : TurboJSNativeEntryHandle) : TurboJSNativeEntryHandle :=
  let generation :=
    if negb (nh_function h =? 0) || bool_decide (nh_kind h <> TURBOJS_NATIVE_ENTRY_NONE)
    then next_entry_generation (nh_generation h) else nh_generation h in
  mkHandle 0 generation 0 TURBOJS_NATIVE_ENTRY_NONE TURBOJS_VALUE_UNKNOWN.

(** [result_kind] is [TurboJS_NativeResultKind(function)]. *)
Definition publish_entry_handle (h : TurboJSNativeEntryHandle) (function : Z)
    (kind : TurboJSNativeEntryKind) (argument_count : Z)
    (result_kind : TurboJSValueKind) : TurboJSNativeEntryHandle :=
  if (nh_function h =? function) && bool_decide (nh_kind h = kind)
     && (nh_argument_count h =? argument_count) then h
  else mkHandle function (next_entry_generation (nh_generation h)) argument_count kind result_kind.

(** [handle] is a pointer that may be NULL. *)
Definition TurboJS_NativeEntryHandleIsLive (handle : option TurboJSNativeEntryHandle)
    (expected_generation : Z) (expected_kind : TurboJSNativeEntryKind) : bool :=
  match handle with
  | None => false
  | Some h =>
      negb (nh_function h =? 0) && negb (expected_generation =? 0) &&
      (nh_generation h =? expected_generation) && bool_decide (nh_kind h = expected_kind)
  end.

(** ** Invocation *)
Section Invoke.
(** [TurboJS_NativeInvoke(function, arguments, &result)]: status and result. *)
Context (native_i64 : Z -> list Z -> TurboJSIRStatus * Z).
(** [TurboJS_NativeInvokeF64], on IEEE bit patterns. *)
Context (native_f64 : Z -> list Z -> TurboJSIRStatus * Z).

Definition TurboJS_NativeEntryInvokeI64 (handle : option TurboJSNativeEntryHandle)
    (expected_generation : Z) (arguments : list Z) : TurboJSIRStatus * option Z :=
  match handle with
  | Some h =>
    if negb (TurboJS_NativeEntryHandleIsLive handle expected_generation TURBOJS_NATIVE_ENTRY_INT32)
    then (TURBOJS_IR_UNSUPPORTED, None)
    else if Z.of_nat (length arguments) <? nh_argument_count h
    then (TURBOJS_IR_INVALID_ARGUMENT, None)
    else let r := native_i64 (nh_function h) arguments in (r.1, Some r.2)
  | None => (TURBOJS_IR_UNSUPPORTED, None)
  end.

Definition TurboJS_NativeEntryInvokeF64 (handle : option TurboJSNativeEntryHandle)
    (expected_generation : Z) (arguments : list Z) : TurboJSIRStatus * option Z :=
  match handle with
  | Some h =>
    if negb (TurboJS_NativeEntryHandleIsLive handle expected_generation TURBOJS_NATIVE_ENTRY_FLOAT64)
    then (TURBOJS_IR_UNSUPPORTED, None)
    else if Z.of_nat (length arguments) <? nh_argument_count h
    then (TURBOJS_IR_INVALID_ARGUMENT, None)
    else let r := native_f64 (nh_function h) arguments in (r.1, Some r.2)
  | None => (TURBOJS_IR_UNSUPPORTED, None)
  end.

(** [heap_handle] reads the handle at an address. *)
Context (heap_handle : Z -> option TurboJSNativeEntryHandle).

Definition TurboJS_ClutchCallSiteInvokeI64 (site : TurboJSClutchCallSite) (arguments : list Z)
    : TurboJSIRStatus * option Z :=
  if (cs_target site =? 0) || (TURBOJS_CLUTCH_MAX_ARGUMENTS <? cs_argument_count site)
     || negb (bool_decide (cs_expected_kind site = TURBOJS_NATIVE_ENTRY_INT32))
  then (TURBOJS_IR_INVALID_ARGUMENT, None)
  else TurboJS_NativeEntryInvokeI64 (heap_handle (cs_target site)) (cs_expected_generation site)
         (take (Z.to_nat (cs_argument_count site)) arguments).

Definition TurboJS_ClutchCallSiteInvokeF64 (site : TurboJSClutchCallSite) (arguments : list Z)
    : TurboJSIRStatus * option Z :=
  if (cs_target site =? 0) || (TURBOJS_CLUTCH_MAX_ARGUMENTS <? cs_argument_count site)
     || negb (bool_decide (cs_expected_kind site = TURBOJS_NATIVE_ENTRY_FLOAT64))
  then (TURBOJS_IR_INVALID_ARGUMENT, None)
  else TurboJS_NativeEntryInvokeF64 (heap_handle (cs_target site)) (cs_expected_generation site)
         (take (Z.to_nat (cs_argument_count site)) arguments).

Definition TurboJS_CallableReferenceIsLive (r : TurboJSCallableReference) : bool :=
  if (cr_target_identity r =? 0) || (cr_target r =? 0) then false
  else match heap_handle (cr_target r) with
       | None => false
       | Some h =>
         if negb (cr_argument_count r =? nh_argument_count h) then false
         else TurboJS_NativeEntryHandleIsLive (Some h) (cr_expected_generation r) (cr_expected_kind r)
       end.

Definition TurboJS_CallableReferenceInvokeI64 (r : TurboJSCallableReference) (arguments : list Z)
    : TurboJSIRStatus * option Z :=
  if negb (bool_decide (cr_expected_kind r = TURBOJS_NATIVE_ENTRY_INT32))
  then (TURBOJS_IR_INVALID_ARGUMENT, None)
  else if negb (TurboJS_CallableReferenceIsLive r) then (TURBOJS_IR_UNSUPPORTED, None)
  else TurboJS_NativeEntryInvokeI64 (heap_handle (cr_target r)) (cr_expected_generation r) arguments.

Definition TurboJS_CallableReferenceInvokeF64 (r : TurboJSCallableReference) (arguments : list Z)
    : TurboJSIRStatus * option Z :=
  if negb (bool_decide (cr_expected_kind r = TURBOJS_NATIVE_ENTRY_FLOAT64))
  then (TURBOJS_IR_INVALID_ARGUMENT, None)
  else if negb (TurboJS_CallableReferenceIsLive r) then (TURBOJS_IR_UNSUPPORTED, None)
  else TurboJS_NativeEntryInvokeF64 (heap_handle (cr_target r)) (cr_expected_generation r) arguments.
End Invoke.

(** ** Rooted environments: call sites and callable references

    Every call of an embedder hook is logged, so that the balance of retained
    and released roots can be stated. *)
Inductive RootEvent := Retained (rooted : Z) | Released (rooted : Z).

#[export] Instance RootEvent_eq_dec : EqDecision RootEvent.
Proof. solve_decision. Defined.

Definition clear_flag (flags bit : Z) : Z := Z.land flags (255 - bit).

Definition zero_site : TurboJSClutchCallSite :=
  mkCallSite 0 0 0 TURBOJS_NATIVE_ENTRY_NONE 0 0 0 no_hooks false 0 0 0 0 [0; 0; 0; 0].

Definition TurboJS_ClutchCallSiteInit (target expected_generation : Z)
    (expected_kind : TurboJSNativeEntryKind) (argument_count : Z) : TurboJSClutchCallSite :=
  mkCallSite target expected_generation argument_count expected_kind 0 0 0 no_hooks false 0 0 0
    TURBOJS_IR_NO_REGISTER (replicate (Z.to_nat TURBOJS_CLUTCH_MAX_ARGUMENTS) TURBOJS_IR_NO_REGISTER).

Definition TurboJS_ClutchCallSiteSetTargetIdentity (s : TurboJSClutchCallSite) (target_identity : Z)
    : TurboJSClutchCallSite :=
  mkCallSite (cs_target s) (cs_expected_generation s) (cs_argument_count s) (cs_expected_kind s)
    (cs_flags s) (cs_continuation_bytecode_offset s) (cs_closure_environment s)
    (cs_environment_rooting s) (cs_owns_environment s) target_identity
    (cs_receiver_shape_identity s) (cs_receiver_shape_offset s) (cs_receiver_register s)
    (cs_argument_registers s).

(** Replace the environment fields and the flags of a call site. *)
Definition site_with_environment (s : TurboJSClutchCallSite) (env : Z)
    (rooting : TurboJSRootingHooks) (owns : bool) (flags : Z) : TurboJSClutchCallSite :=
  mkCallSite (cs_target s) (cs_expected_generation s) (cs_argument_count s) (cs_expected_kind s)
    flags (cs_continuation_bytecode_offset s) env rooting owns (cs_target_identity s)
    (cs_receiver_shape_identity s) (cs_receiver_shape_offset s) (cs_receiver_register s)
    (cs_argument_registers s).

Definition TurboJS_ClutchCallSiteDestroy (s : TurboJSClutchCallSite)
    : TurboJSClutchCallSite * list RootEvent :=
  let events :=
    if cs_owns_environment s && negb (cs_closure_environment s =? 0)
       && rh_release (cs_environment_rooting s)
    then [Released (cs_closure_environment s)] else [] in
  (site_with_environment s 0 no_hooks false
     (clear_flag (cs_flags s) TURBOJS_CLUTCH_CALL_HAS_ENVIRONMENT), events).

(** [rooting] is a pointer that may be NULL. *)
Definition TurboJS_ClutchCallSiteSetClosureEnvironment (s : TurboJSClutchCallSite)
    (closure_environment : Z) (rooting : option TurboJSRootingHooks)
    : TurboJSIRStatus * TurboJSClutchCallSite * list RootEvent :=
  let '(s, events) := TurboJS_ClutchCallSiteDestroy s in
  let finish rooted hooks owns evs :=
    let flags := if rooted =? 0
                 then clear_flag (cs_flags s) TURBOJS_CLUTCH_CALL_HAS_ENVIRONMENT
                 else Z.lor (cs_flags s) TURBOJS_CLUTCH_CALL_HAS_ENVIRONMENT in
    (TURBOJS_IR_OK, site_with_environment s rooted hooks owns flags, events ++ evs) in
  match rooting with
  | Some hooks =>
    if closure_environment =? 0
    then finish closure_environment (cs_environment_rooting s) (cs_owns_environment s) []
    else match rh_retain hooks with
         | Some retain =>
           if negb (rh_release hooks) then (TURBOJS_IR_INVALID_ARGUMENT, s, events)
           else let rooted := retain closure_environment in
                if rooted =? 0 then (TURBOJS_IR_OUT_OF_MEMORY, s, events)
                else finish rooted hooks true [Retained rooted]
         | None => (TURBOJS_IR_INVALID_ARGUMENT, s, events)
         end
  | None => finish closure_environment (cs_environment_rooting s) (cs_owns_environment s) []
  end.

(** [None]: the NULL [retain] of a source that owns its environment is called. *)
Definition TurboJS_ClutchCallSiteClone (source : TurboJSClutchCallSite)
    : option (TurboJSIRStatus * TurboJSClutchCallSite * list RootEvent) :=
  let copy := site_with_environment source (cs_closure_environment source) no_hooks false (cs_flags source) in
  if negb (cs_closure_environment source =? 0) && cs_owns_environment source then
    match rh_retain (cs_environment_rooting source) with
    | None => None
    | Some retain =>
      let rooted := retain (cs_closure_environment source) in
      if rooted =? 0 then Some (TURBOJS_IR_OUT_OF_MEMORY, zero_site, [])
      else Some (TURBOJS_IR_OK,
                 site_with_environment source rooted (cs_environment_rooting source) true (cs_flags source),
                 [Retained rooted])
    end
  else Some (TURBOJS_IR_OK, copy, []).

Definition site_with_arguments (s : TurboJSClutchCallSite) (count flags receiver : Z)
    (regs : list Z) : TurboJSClutchCallSite :=
  mkCallSite (cs_target s) (cs_expected_generation s) count (cs_expected_kind s)
    flags (cs_continuation_bytecode_offset s) (cs_closure_environment s)
    (cs_environment_rooting s) (cs_owns_environment s) (cs_target_identity s)
    (cs_receiver_shape_identity s) (cs_receiver_shape_offset s) receiver regs.

Definition TurboJS_ClutchCallSiteSetArgument (s : TurboJSClutchCallSite)
    (argument_index source_register : Z) : TurboJSIRStatus * TurboJSClutchCallSite :=
  if (cs_argument_count s <=? argument_index) || (TURBOJS_CLUTCH_MAX_ARGUMENTS <=? argument_index)
     || (source_register =? TURBOJS_IR_NO_REGISTER)
  then (TURBOJS_IR_INVALID_ARGUMENT, s)
  else (TURBOJS_IR_OK,
        site_with_arguments s (cs_argument_count s) (cs_flags s) (cs_receiver_register s)
          (<[Z.to_nat argument_index := source_register]> (cs_argument_registers s))).

(** [for (i = argument_count; i > 0; --i) regs[i] = regs[i-1]] *)
Fixpoint shift_arguments (i : nat) (regs : list Z) : list Z :=
  match i with
  | O => regs
  | S j => shift_arguments j (<[i := default 0 (regs !! j)]> regs)
  end.

Definition TurboJS_ClutchCallSiteSetReceiver (s : TurboJSClutchCallSite) (source_register : Z)
    : TurboJSIRStatus * TurboJSClutchCallSite :=
  if (source_register =? TURBOJS_IR_NO_REGISTER) || (TURBOJS_CLUTCH_MAX_ARGUMENTS <=? cs_argument_count s)
  then (TURBOJS_IR_INVALID_ARGUMENT, s)
  else if negb (Z.land (cs_flags s) TURBOJS_CLUTCH_CALL_HAS_RECEIVER =? 0)
  then (TURBOJS_IR_INVALID_ARGUMENT, s)
  else
    let regs := shift_arguments (Z.to_nat (cs_argument_count s)) (cs_argument_registers s) in
    (TURBOJS_IR_OK,
     site_with_arguments s (cs_argument_count s + 1)
       (Z.lor (cs_flags s) TURBOJS_CLUTCH_CALL_HAS_RECEIVER) source_register
       (<[O := source_register]> regs)).

Definition TurboJS_ClutchCallSiteSetReceiverShapeGuard (s : TurboJSClutchCallSite)
    (shape_offset expected_shape_identity : Z) : TurboJSIRStatus * TurboJSClutchCallSite :=
  if (Z.land (cs_flags s) TURBOJS_CLUTCH_CALL_HAS_RECEIVER =? 0) || (expected_shape_identity =? 0)
  then (TURBOJS_IR_INVALID_ARGUMENT, s)
  else (TURBOJS_IR_OK,
        mkCallSite (cs_target s) (cs_expected_generation s) (cs_argument_count s) (cs_expected_kind s)
          (Z.lor (cs_flags s) TURBOJS_CLUTCH_CALL_HAS_RECEIVER_SHAPE_GUARD)
          (cs_continuation_bytecode_offset s) (cs_closure_environment s)
          (cs_environment_rooting s) (cs_owns_environment s) (cs_target_identity s)
          expected_shape_identity shape_offset (cs_receiver_register s) (cs_argument_registers s)).

(** ** Callable references *)

Definition TurboJS_CallableReferenceInit (target_identity target expected_generation : Z)
    (expected_kind : TurboJSNativeEntryKind) (argument_count closure_environment : Z)
    : TurboJSCallableReference :=
  mkCallable target_identity target expected_generation closure_environment no_hooks
    argument_count expected_kind 0 false.

Definition zero_callable : TurboJSCallableReference :=
  mkCallable 0 0 0 0 no_hooks 0 TURBOJS_NATIVE_ENTRY_NONE 0 false.

(** [None] in the second component: the reference is left untouched. *)
Definition TurboJS_CallableReferenceInitRooted (target_identity target expected_generation : Z)
    (expected_kind : TurboJSNativeEntryKind) (argument_count closure_environment : Z)
    (rooting : option TurboJSRootingHooks)
    : TurboJSIRStatus * option TurboJSCallableReference * list RootEvent :=
  match rooting with
  | Some (mkHooks (Some retain) true as hooks) =>
    let rooted := if closure_environment =? 0 then 0 else retain closure_environment in
    if negb (closure_environment =? 0) && (rooted =? 0)
    then (TURBOJS_IR_OUT_OF_MEMORY, Some zero_callable, [])
    else (TURBOJS_IR_OK,
          Some (mkCallable target_identity target expected_generation rooted hooks argument_count
                  expected_kind 0 (negb (closure_environment =? 0))),
          if closure_environment =? 0 then [] else [Retained rooted])
  | _ => (TURBOJS_IR_INVALID_ARGUMENT, None, [])
  end.

Definition TurboJS_CallableReferenceDestroy (r : TurboJSCallableReference)
    : TurboJSCallableReference * list RootEvent :=
  (zero_callable,
   if cr_owns_environment r && negb (cr_closure_environment r =? 0)
      && rh_release (cr_environment_rooting r)
   then [Released (cr_closure_environment r)] else []).

(** ** Generations: a stale entry is never entered *)
Section Generations.
(** What the code cache does to a published handle. *)
Inductive HandleOp :=
  | OpPublish (function : Z) (kind : TurboJSNativeEntryKind) (argument_count : Z) (rk : TurboJSValueKind)
  | OpInvalidate.

Definition apply_op (h : TurboJSNativeEntryHandle) (op : HandleOp) : TurboJSNativeEntryHandle :=
  match op with
  | OpPublish f k n rk => publish_entry_handle h f k n rk
  | OpInvalidate => TurboJS_NativeEntryHandleInvalidate h
  end.

Definition run_ops (h : TurboJSNativeEntryHandle) (ops : list HandleOp) : TurboJSNativeEntryHandle :=
  foldl apply_op h ops.

(** Number of operations of the run that advanced the generation. *)
Fixpoint bumps (h : TurboJSNativeEntryHandle) (ops : list HandleOp) : Z :=
  match ops with
  | [] => 0
  | op :: ops =>
      (if nh_generation (apply_op h op) =? nh_generation h then 0 else 1) + bumps (apply_op h op) ops
  end.

Local Definition period : Z := 18446744073709551615.  (* 2^64 - 1 *)

Lemma next_entry_generation_cyclic g :
  0 < g < 2 ^ 64 -> next_entry_generation g = g mod period + 1.
Proof.
  unfold next_entry_generation, uwrap, period.
  change (2 ^ 64) with 18446744073709551616. intros Hg.
  destruct (Z.eq_dec g 18446744073709551615) as [->|Hne]; [reflexivity|].
  rewrite !Z.mod_small by lia. destruct (Z.eqb_spec (g + 1) 0); lia.
Qed.

Lemma next_entry_generation_range g :
  0 <= g < 2 ^ 64 -> 0 < next_entry_generation g < 2 ^ 64.
Proof.
  intros Hg. destruct (Z.eq_dec g 0) as [->|]; [vm_compute; auto|].
  rewrite next_entry_generation_cyclic by lia. unfold period.
  change (2 ^ 64) with 18446744073709551616 in *.
  pose proof (Z.mod_pos_bound g 18446744073709551615). lia.
Qed.

Lemma apply_op_generation h op :
  nh_generation (apply_op h op) = nh_generation h \/
  nh_generation (apply_op h op) = next_entry_generation (nh_generation h).
Proof.
  destruct op; simpl; unfold publish_entry_handle, TurboJS_NativeEntryHandleInvalidate;
    case_match; simpl; auto.
Qed.

Lemma run_ops_generation ops h :
  0 < nh_generation h < 2 ^ 64 ->
  0 <= bumps h ops /\
  nh_generation (run_ops h ops) = (nh_generation h - 1 + bumps h ops) mod period + 1.
Proof.
  revert h. induction ops as [|op ops IH]; intros h Hg; simpl.
  - split; [lia|]. rewrite Z.add_0_r. unfold period.
    change (2 ^ 64) with 18446744073709551616 in Hg.
    destruct (Z.eq_dec (nh_generation h) 18446744073709551616); [lia|].
    rewrite Z.mod_small; lia.
  - fold (run_ops (apply_op h op) ops).
    destruct (apply_op_generation h op) as [E|E].
    + rewrite E, Z.eqb_refl. rewrite <-E in *. destruct (IH (apply_op h op) Hg). split; [lia|].
      rewrite H0. f_equal.
    + pose proof (next_entry_generation_range (nh_generation h) ltac:(lia)) as Hr.
      destruct (IH (apply_op h op) ltac:(lia)) as [Hb ->]. rewrite E.
      rewrite next_entry_generation_cyclic in * by lia.
      assert (nh_generation h mod period + 1 <> nh_generation h) as Hne.
      { unfold period. change (2 ^ 64) with 18446744073709551616 in Hg.
        intros Heq. destruct (Z.eq_dec (nh_generation h) 18446744073709551615) as [Hx|Hx].
        - rewrite Hx in Heq. vm_compute in Heq. discriminate.
        - rewrite Z.mod_small in Heq by lia. lia. }
      destruct (Z.eqb_spec (nh_generation h mod period + 1) (nh_generation h)); [done|].
      split; [lia|]. f_equal.
      rewrite <-Zplus_mod_idemp_l. rewrite Z.add_simpl_r, Zmod_mod, Zplus_mod_idemp_l.
      f_equal. lia.
Qed.

Lemma generation_moved ops h :
  0 < nh_generation h < 2 ^ 64 -> 0 < bumps h ops < 2 ^ 64 - 1 ->
  nh_generation (run_ops h ops) <> nh_generation h.
Proof.
  intros Hg Hb. destruct (run_ops_generation ops h Hg) as [_ ->]. unfold period.
  change (2 ^ 64) with 18446744073709551616 in *. intros Heq.
  assert (Hm : (nh_generation h - 1 + bumps h ops) mod 18446744073709551615 = nh_generation h - 1) by lia.
  pose proof (Z.div_mod (nh_generation h - 1 + bumps h ops) 18446744073709551615 ltac:(lia)).
  rewrite Hm in H. nia.
Qed.

End Generations.

(** ** Roots: every retained environment is released exactly once *)
Section Roots.
Definition retained (evs : list RootEvent) : list Z :=
  omap (fun e => match e with Retained r => Some r | _ => None end) evs.
Definition released (evs : list RootEvent) : list Z :=
  omap (fun e => match e with Released r => Some r | _ => None end) evs.

Lemma retained_app a b : retained (a ++ b) = retained a ++ retained b.
Proof. apply omap_app. Qed.
Lemma released_app a b : released (a ++ b) = released a ++ released b.
Proof. apply omap_app. Qed.

(** The root a call site holds. *)
Definition held_root (s : TurboJSClutchCallSite) : list Z :=
  if cs_owns_environment s then [cs_closure_environment s] else [].

(** Ownership is only recorded with a root and a release hook. *)
Definition site_roots_ok (s : TurboJSClutchCallSite) : Prop :=
  cs_owns_environment s = true ->
  cs_closure_environment s <> 0 /\ rh_release (cs_environment_rooting s) = true.

Lemma destroy_releases s :
  site_roots_ok s ->
  released (TurboJS_ClutchCallSiteDestroy s).2 = held_root s /\
  retained (TurboJS_ClutchCallSiteDestroy s).2 = [] /\
  cs_owns_environment (TurboJS_ClutchCallSiteDestroy s).1 = false.
Proof.
  unfold site_roots_ok, TurboJS_ClutchCallSiteDestroy, held_root. intros Hok.
  destruct (cs_owns_environment s); simpl; [|done].
  destruct Hok as [Hne Hr]; [done|]. rewrite (proj2 (Z.eqb_neq _ _) Hne), Hr. done.
Qed.

(** One [SetClosureEnvironment] call keeps the ownership invariant, and its
    events release the root held before and retain the root held after. *)
Lemma set_environment_roots s env rooting st s' evs :
  site_roots_ok s ->
  TurboJS_ClutchCallSiteSetClosureEnvironment s env rooting = (st, s', evs) ->
  site_roots_ok s' /\ released evs = held_root s /\ retained evs = held_root s'.
Proof.
  intros Hok. destruct (destroy_releases s Hok) as (Hrel & Hret & Hown).
  unfold TurboJS_ClutchCallSiteSetClosureEnvironment.
  destruct (TurboJS_ClutchCallSiteDestroy s) as [d ev] eqn:Ed; simpl in *.
  generalize dependent (held_root s). intros hs Hrel.
  destruct rooting as [hooks|]; repeat case_match; intros [= <- <- <-];
    unfold site_roots_ok, held_root; simpl;
    rewrite ?Hown, ?released_app, ?retained_app, ?Hrel, ?Hret, ?app_nil_r; simpl;
    rewrite ?app_nil_r; b2p; split_and!; auto; discriminate.
Qed.

(** A run of [SetClosureEnvironment] calls on one site, events in order. *)
Fixpoint environment_run (s : TurboJSClutchCallSite) (calls : list (Z * option TurboJSRootingHooks))
    : TurboJSClutchCallSite * list RootEvent :=
  match calls with
  | [] => (s, [])
  | (env, rooting) :: calls =>
      let '(_, s', evs) := TurboJS_ClutchCallSiteSetClosureEnvironment s env rooting in
      let '(s'', evs') := environment_run s' calls in (s'', evs ++ evs')
  end.

Lemma environment_run_roots calls s :
  site_roots_ok s ->
  site_roots_ok (environment_run s calls).1 /\
  held_root s ++ retained (environment_run s calls).2 =
    released (environment_run s calls).2 ++ held_root (environment_run s calls).1.
Proof.
  revert s. induction calls as [|[env rooting] calls IH]; intros s Hok; simpl.
  - rewrite app_nil_r. done.
  - destruct (TurboJS_ClutchCallSiteSetClosureEnvironment s env rooting) as [[st s'] evs] eqn:E.
    destruct (set_environment_roots _ _ _ _ _ _ Hok E) as (Hok' & Hrel & Hret).
    destruct (IH s' Hok') as [Hok'' Hbal].
    destruct (environment_run s' calls) as [s'' evs']; simpl in *.
    split; [done|]. rewrite retained_app, released_app, Hrel, Hret, <-!app_assoc, <-Hbal. done.
Qed.

(** From a freshly initialised call site, any sequence of environment
    assignments (with any hooks, NULL hooks and failing retains included)
    followed by the site's destruction releases exactly the roots that were
    retained, each once and in the order they were taken. *)
Theorem clutch_site_roots_balanced target generation kind argc calls :
  let s := TurboJS_ClutchCallSiteInit target generation kind argc in
  let '(s', evs) := environment_run s calls in
  released (evs ++ (TurboJS_ClutchCallSiteDestroy s').2) = retained evs.
Proof.
  intros s. assert (site_roots_ok s) as Hok by (intros [=]).
  destruct (environment_run_roots calls s Hok) as [Hok' Hbal].
  destruct (environment_run s calls) as [s' evs]. cbn [fst snd] in *.
  destruct (destroy_releases s' Hok') as (Hrel & _ & _).
  rewrite released_app, Hrel. symmetry. exact Hbal.
Qed.
End Roots.

(** ** Receivers *)
Section Receivers.
Lemma length_shift_arguments i regs : length (shift_arguments i regs) = length regs.
Proof. revert regs. induction i; intros; simpl; [done|]. rewrite IHi. apply length_insert. Qed.

Lemma shift_arguments_lookup i regs j :
  (i < length regs)%nat ->
  shift_arguments i regs !! j =
    if decide (0 < j <= i)%nat then regs !! Nat.pred j else regs !! j.
Proof.
  revert regs. induction i as [|i IH]; intros regs Hlt; simpl.
  - rewrite decide_False by lia. done.
  - destruct (lookup_lt_is_Some_2 regs i ltac:(lia)) as [x Hx].
    rewrite IH by (rewrite length_insert; lia). rewrite Hx. simpl.
    destruct (decide (0 < j <= i)%nat), (decide (0 < j <= S i)%nat); try lia.
    + rewrite list_lookup_insert_ne by lia. done.
    + assert (j = S i) as -> by lia. rewrite list_lookup_insert_eq by lia. simpl. done.
    + rewrite list_lookup_insert_ne by lia. done.
Qed.

(** Binding a receiver prepends it to the argument registers: the
    previous arguments keep their order one slot further, nothing is
    written outside the four slots, and a second receiver is refused. *)
Theorem set_receiver_prepends s source s' :
  length (cs_argument_registers s) = Z.to_nat TURBOJS_CLUTCH_MAX_ARGUMENTS ->
  0 <= cs_argument_count s ->
  TurboJS_ClutchCallSiteSetReceiver s source = (TURBOJS_IR_OK, s') ->
  cs_argument_count s' = cs_argument_count s + 1 /\
  cs_argument_count s' <= TURBOJS_CLUTCH_MAX_ARGUMENTS /\
  take (Z.to_nat (cs_argument_count s')) (cs_argument_registers s') =
    source :: take (Z.to_nat (cs_argument_count s)) (cs_argument_registers s) /\
  length (cs_argument_registers s') = Z.to_nat TURBOJS_CLUTCH_MAX_ARGUMENTS /\
  cs_receiver_register s' = source /\
  forall other, (TurboJS_ClutchCallSiteSetReceiver s' other).1 = TURBOJS_IR_INVALID_ARGUMENT.
Proof.
  unfold TURBOJS_CLUTCH_MAX_ARGUMENTS. intros Hlen Hc.
  unfold TurboJS_ClutchCallSiteSetReceiver at 1. unfold TURBOJS_CLUTCH_MAX_ARGUMENTS.
  case_match; [done|]. case_match; [done|]. intros [= <-]. b2p. simpl.
  split_and!; [lia|lia| |by rewrite length_insert, length_shift_arguments|done|].
  - apply list_eq. intros j. rewrite Z2Nat.inj_add by lia. rewrite Nat.add_1_r.
    set (n := Z.to_nat (cs_argument_count s)) in *.
    assert (n < 4)%nat by (subst n; lia).
    destruct j as [|j]; simpl.
    + rewrite lookup_take_lt by lia. rewrite list_lookup_insert_eq; [done|].
      rewrite length_shift_arguments. lia.
    + destruct (decide (j < n)%nat).
      * rewrite !lookup_take_lt by lia. rewrite list_lookup_insert_ne by lia.
        rewrite shift_arguments_lookup by lia. rewrite decide_True by lia. done.
      * rewrite !lookup_take_ge by lia. done.
  - intros other. unfold TurboJS_ClutchCallSiteSetReceiver. simpl.
    rewrite Z.land_lor_distr_l. case_match; [done|].
    rewrite Z.land_diag. case_match; [done|].
    b2p. exfalso.
    match goal with H : Z.lor _ _ = 0 |- _ => apply Z.lor_eq_0_iff in H; destruct H as [_ H]; discriminate H end.
Qed.
End Receivers.

(** ** Concrete instances *)

(** An entry published once for function 4096 with two arguments. *)
Definition sample_handle : TurboJSNativeEntryHandle :=
  publish_entry_handle TurboJS_NativeEntryHandleInit 4096 TURBOJS_NATIVE_ENTRY_INT32 2 TURBOJS_VALUE_I32.

Definition sample_site : TurboJSClutchCallSite :=
  TurboJS_ClutchCallSiteInit 8192 1 TURBOJS_NATIVE_ENTRY_INT32 2.


Lemma set_receiver_prepends_witness :
  exists s', TurboJS_ClutchCallSiteSetReceiver sample_site 9 = (TURBOJS_IR_OK, s') /\
    take 3 (cs_argument_registers s') = 9 :: take 2 (cs_argument_registers sample_site).
Proof.
  destruct (TurboJS_ClutchCallSiteSetReceiver sample_site 9) as [st s'] eqn:E.
  assert (st = TURBOJS_IR_OK) as -> by (injection E as <- _; reflexivity).
  exists s'. split; [reflexivity|].
  assert (cs_argument_count s' = 3) as H by (injection E as <-; reflexivity).
  pose proof (set_receiver_prepends sample_site 9 s' eq_refl ltac:(vm_compute; discriminate) E)
    as (_ & _ & Ht & _). rewrite H in Ht. exact Ht.
Defined.
