(* ===== verification/IR.v ===== *)
(** * The IR container (src/jit/ir/ir.c)

    Construction, growth and destruction of [TurboJSIRFunction].  The answer
    of the C allocator to a request is the boolean [mem]; a function that may
    allocate takes one. *)

From S2P Require Import Prelude.
From S2P Require Import JitTypes.
From S2P Require Import Clutch.

(** ** Field updates *)
Definition f_set_instructions (f : TurboJSIRFunction) ins cap := mkFunction ins cap
  (f_register_count f) (f_argument_count f) (f_local_count f) (f_source_local_count f)
  (f_register_kind_hints f) (f_local_kind_hints f) (f_owned_clutch_sites f)
  (f_owned_clutch_site_capacity f) (f_owned_callable_references f)
  (f_owned_callable_reference_capacity f) (f_instance_id f) (f_revision f).
Definition f_set_counts (f : TurboJSIRFunction) regs args locals := mkFunction
  (f_instructions f) (f_instruction_capacity f) regs args locals (f_source_local_count f)
  (f_register_kind_hints f) (f_local_kind_hints f) (f_owned_clutch_sites f)
  (f_owned_clutch_site_capacity f) (f_owned_callable_references f)
  (f_owned_callable_reference_capacity f) (f_instance_id f) (f_revision f).
Definition f_set_hints (f : TurboJSIRFunction) rh lh := mkFunction
  (f_instructions f) (f_instruction_capacity f) (f_register_count f) (f_argument_count f)
  (f_local_count f) (f_source_local_count f) rh lh (f_owned_clutch_sites f)
  (f_owned_clutch_site_capacity f) (f_owned_callable_references f)
  (f_owned_callable_reference_capacity f) (f_instance_id f) (f_revision f).
Definition f_set_sites (f : TurboJSIRFunction) ss cap := mkFunction
  (f_instructions f) (f_instruction_capacity f) (f_register_count f) (f_argument_count f)
  (f_local_count f) (f_source_local_count f) (f_register_kind_hints f) (f_local_kind_hints f)
  ss cap (f_owned_callable_references f)
  (f_owned_callable_reference_capacity f) (f_instance_id f) (f_revision f).
Definition f_set_callables (f : TurboJSIRFunction) rs cap := mkFunction
  (f_instructions f) (f_instruction_capacity f) (f_register_count f) (f_argument_count f)
  (f_local_count f) (f_source_local_count f) (f_register_kind_hints f) (f_local_kind_hints f)
  (f_owned_clutch_sites f) (f_owned_clutch_site_capacity f) rs cap (f_instance_id f) (f_revision f).
Definition f_set_identity (f : TurboJSIRFunction) id rev := mkFunction
  (f_instructions f) (f_instruction_capacity f) (f_register_count f) (f_argument_count f)
  (f_local_count f) (f_source_local_count f) (f_register_kind_hints f) (f_local_kind_hints f)
  (f_owned_clutch_sites f) (f_owned_clutch_site_capacity f) (f_owned_callable_references f)
  (f_owned_callable_reference_capacity f) id rev.

(** ** Operations *)

(** [memset(function, 0, sizeof( *function))] *)
Definition zero_function : TurboJSIRFunction :=
  mkFunction [] 0 0 0 0 0
    (replicate (Z.to_nat TURBOJS_IR_MAX_REGISTERS) TURBOJS_VALUE_UNKNOWN)
    (replicate (Z.to_nat TURBOJS_IR_MAX_REGISTERS) TURBOJS_VALUE_UNKNOWN)
    [] 0 [] 0 0 0.

Definition touch (f : TurboJSIRFunction) : TurboJSIRFunction :=
  f_set_identity f (f_instance_id f) (uwrap 64 (f_revision f + 1)).

(** The atomic counter [turbojs_ir_next_instance_id] is threaded as [next]. *)
Definition TurboJS_IRFunctionInit (next : Z) (argument_count : Z) : TurboJSIRFunction * Z :=
  (f_set_identity (f_set_counts zero_function 0 argument_count 0) next 1, uwrap 64 (next + 1)).

Definition TurboJS_IRFunctionSetLocalCount (f : TurboJSIRFunction) (local_count : Z) : TurboJSIRFunction :=
  touch (f_set_counts f (f_register_count f) (f_argument_count f) local_count).

Definition TurboJS_IRFunctionSetRegisterKind (f : TurboJSIRFunction) (reg : Z) (kind : TurboJSValueKind)
    : TurboJSIRFunction :=
  if (reg <? f_register_count f) && (reg <? TURBOJS_IR_MAX_REGISTERS)
  then touch (f_set_hints f (<[Z.to_nat reg := kind]> (f_register_kind_hints f)) (f_local_kind_hints f))
  else f.

Definition TurboJS_IRFunctionSetLocalKind (f : TurboJSIRFunction) (local : Z) (kind : TurboJSValueKind)
    : TurboJSIRFunction :=
  if (local <? f_local_count f) && (local <? TURBOJS_IR_MAX_REGISTERS)
  then touch (f_set_hints f (f_register_kind_hints f) (<[Z.to_nat local := kind]> (f_local_kind_hints f)))
  else f.

Definition TurboJS_IRFunctionRegisterKind (f : TurboJSIRFunction) (reg : Z) : TurboJSValueKind :=
  if (f_register_count f <=? reg) || (TURBOJS_IR_MAX_REGISTERS <=? reg) then TURBOJS_VALUE_UNKNOWN
  else default TURBOJS_VALUE_UNKNOWN (f_register_kind_hints f !! Z.to_nat reg).

Definition TurboJS_IRFunctionLocalKind (f : TurboJSIRFunction) (local : Z) : TurboJSValueKind :=
  if (f_local_count f <=? local) || (TURBOJS_IR_MAX_REGISTERS <=? local) then TURBOJS_VALUE_UNKNOWN
  else default TURBOJS_VALUE_UNKNOWN (f_local_kind_hints f !! Z.to_nat local).

(** The released environments are the observable effect of the destruction. *)
Definition TurboJS_IRFunctionDestroy (f : TurboJSIRFunction) : TurboJSIRFunction * list RootEvent :=
  (zero_function,
   concat (map (fun s => (TurboJS_ClutchCallSiteDestroy s).2) (f_owned_clutch_sites f)) ++
   concat (map (fun r => (TurboJS_CallableReferenceDestroy r).2) (f_owned_callable_references f))).

(** Capacity after a growth request for one more element. *)
Definition grown_capacity (count capacity first : Z) : Z :=
  if count =? capacity then (if capacity =? 0 then first else capacity * 2) else capacity.

(** [mem1] answers the [realloc], [mem2] the [calloc]; the new site is the
    last element of the returned function. *)
Definition TurboJS_IRAllocateClutchCallSite (mem1 mem2 : bool) (f : TurboJSIRFunction)
    : TurboJSIRFunction * option nat :=
  let count := Z.of_nat (length (f_owned_clutch_sites f)) in
  let capacity := f_owned_clutch_site_capacity f in
  if (count =? capacity) && negb mem1 then (f, None)
  else
    let f := f_set_sites f (f_owned_clutch_sites f) (grown_capacity count capacity 4) in
    if negb mem2 then (f, None)
    else (touch (f_set_sites f (f_owned_clutch_sites f ++ [zero_site]) (f_owned_clutch_site_capacity f)),
          Some (length (f_owned_clutch_sites f))).

Definition TurboJS_IRAllocateCallableReference (mem1 mem2 : bool) (f : TurboJSIRFunction)
    : TurboJSIRFunction * option nat :=
  let count := Z.of_nat (length (f_owned_callable_references f)) in
  let capacity := f_owned_callable_reference_capacity f in
  if (count =? capacity) && negb mem1 then (f, None)
  else
    let f := f_set_callables f (f_owned_callable_references f) (grown_capacity count capacity 4) in
    if negb mem2 then (f, None)
    else (touch (f_set_callables f (f_owned_callable_references f ++ [zero_callable])
                   (f_owned_callable_reference_capacity f)),
          Some (length (f_owned_callable_references f))).

Definition TurboJS_IRAllocateRegister (f : TurboJSIRFunction) : TurboJSIRFunction * Z :=
  if TURBOJS_IR_MAX_REGISTERS <=? f_register_count f then (f, TURBOJS_IR_NO_REGISTER)
  else let f := touch f in
       (f_set_counts f (f_register_count f + 1) (f_argument_count f) (f_local_count f),
        f_register_count f).

Definition TurboJS_IREmit (mem : bool) (f : TurboJSIRFunction) (i : TurboJSIRInstruction)
    : TurboJSIRFunction * TurboJSIRStatus :=
  let count := f_instruction_count f in
  let capacity := f_instruction_capacity f in
  if (count =? capacity) && negb mem then (f, TURBOJS_IR_OUT_OF_MEMORY)
  else (touch (f_set_instructions f (f_instructions f ++ [i]) (grown_capacity count capacity 16)),
        TURBOJS_IR_OK).

Definition TurboJS_IRStatusName (status : TurboJSIRStatus) : string :=
  match status with
  | TURBOJS_IR_OK => "ok"
  | TURBOJS_IR_INVALID_ARGUMENT => "invalid-argument"
  | TURBOJS_IR_OUT_OF_MEMORY => "out-of-memory"
  | TURBOJS_IR_INVALID_OPCODE => "invalid-opcode"
  | TURBOJS_IR_INVALID_REGISTER => "invalid-register"
  | TURBOJS_IR_INVALID_TARGET => "invalid-target"
  | TURBOJS_IR_MISSING_RETURN => "missing-return"
  | TURBOJS_IR_EXECUTION_LIMIT => "execution-limit"
  | TURBOJS_IR_BAILOUT => "bailout"
  | TURBOJS_IR_EXCEPTION => "exception"
  | TURBOJS_IR_UNSUPPORTED => "unsupported"
  end.

Definition TurboJS_IROpcodeName (opcode : TurboJSIROpcode) : string :=
  match opcode with
  | TURBOJS_IR_NOP => "nop" | TURBOJS_IR_ARGUMENT => "argument"
  | TURBOJS_IR_CONSTANT_I64 => "constant.i64" | TURBOJS_IR_CONSTANT_F64 => "constant.f64"
  | TURBOJS_IR_ADD_I64 => "add.i64" | TURBOJS_IR_SUB_I64 => "sub.i64" | TURBOJS_IR_MUL_I64 => "mul.i64"
  | TURBOJS_IR_ADD_F64 => "add.f64" | TURBOJS_IR_SUB_F64 => "sub.f64"
  | TURBOJS_IR_MUL_F64 => "mul.f64" | TURBOJS_IR_DIV_F64 => "div.f64"
  | TURBOJS_IR_LESS_THAN_F64 => "less-than.f64" | TURBOJS_IR_LESS_EQUAL_F64 => "less-equal.f64"
  | TURBOJS_IR_EQUAL_F64 => "equal.f64" | TURBOJS_IR_I64_TO_F64 => "i64-to-f64"
  | TURBOJS_IR_F64_TO_I64_TRUNC => "f64-to-i64-trunc"
  | TURBOJS_IR_ADD_I32_CHECKED => "add.i32.checked" | TURBOJS_IR_SUB_I32_CHECKED => "sub.i32.checked"
  | TURBOJS_IR_MUL_I32_CHECKED => "mul.i32.checked" | TURBOJS_IR_DIV_I32_CHECKED => "div.i32.checked"
  | TURBOJS_IR_REM_I32_CHECKED => "rem.i32.checked" | TURBOJS_IR_RUNTIME_HELPER => "runtime.helper"
  | TURBOJS_IR_LESS_THAN_I64 => "less-than.i64"
  | TURBOJS_IR_LOCAL_GET => "local.get" | TURBOJS_IR_LOCAL_SET => "local.set"
  | TURBOJS_IR_JUMP => "jump" | TURBOJS_IR_BRANCH_TRUE => "branch-true"
  | TURBOJS_IR_BRANCH_FALSE => "branch-false"
  | TURBOJS_IR_RETURN_I64 => "return.i64" | TURBOJS_IR_RETURN_F64 => "return.f64"
  | _ => "invalid"
  end.

(** ** Representation invariant *)

Record ir_wf (f : TurboJSIRFunction) : Prop := {
  wf_capacity : f_instruction_count f <= f_instruction_capacity f;
  wf_sites : Z.of_nat (length (f_owned_clutch_sites f)) <= f_owned_clutch_site_capacity f;
  wf_callables : Z.of_nat (length (f_owned_callable_references f)) <= f_owned_callable_reference_capacity f;
  wf_registers : 0 <= f_register_count f <= TURBOJS_IR_MAX_REGISTERS;
  wf_register_hints : length (f_register_kind_hints f) = 64%nat;
  wf_local_hints : length (f_local_kind_hints f) = 64%nat
}.

(** The builder calls a frontend makes. *)
Inductive ir_build : TurboJSIRFunction -> TurboJSIRFunction -> Prop :=
  | build_emit mem f i : ir_build f (TurboJS_IREmit mem f i).1
  | build_register f : ir_build f (TurboJS_IRAllocateRegister f).1
  | build_site m1 m2 f : ir_build f (TurboJS_IRAllocateClutchCallSite m1 m2 f).1
  | build_callable m1 m2 f : ir_build f (TurboJS_IRAllocateCallableReference m1 m2 f).1
  | build_locals f n : ir_build f (TurboJS_IRFunctionSetLocalCount f n)
  | build_register_kind f r k : ir_build f (TurboJS_IRFunctionSetRegisterKind f r k)
  | build_local_kind f l k : ir_build f (TurboJS_IRFunctionSetLocalKind f l k).

Lemma grown_capacity_room count capacity first :
  0 <= count <= capacity -> 0 < first -> count + 1 <= grown_capacity count capacity first.
Proof.
  unfold grown_capacity. intros.
  destruct (Z.eqb_spec count capacity); [|lia].
  destruct (Z.eqb_spec capacity 0); lia.
Qed.
#[export] Hint Resolve grown_capacity_room : jit.

Lemma ir_build_wf f f' : ir_wf f -> ir_build f f' -> ir_wf f'.
Proof.
  intros [Hc Hs Hr Hg Hh Hl] Hb.
  unfold f_instruction_count in *.
  destruct Hb; unfold TurboJS_IREmit, TurboJS_IRAllocateRegister, TurboJS_IRAllocateClutchCallSite,
    TurboJS_IRAllocateCallableReference, TurboJS_IRFunctionSetLocalCount,
    TurboJS_IRFunctionSetRegisterKind, TurboJS_IRFunctionSetLocalKind;
    repeat case_match; constructor; unfold f_instruction_count in *; simpl;
    rewrite ?length_app, ?length_insert, ?Nat2Z.inj_add; simpl; b2p; auto; try lia;
    try (apply grown_capacity_room; lia);
    try (etransitivity; [|apply grown_capacity_room; lia]; lia).
Qed.

(** Observable generation of a function: continuation caches key on it. *)
Lemma emit_ok_revision mem f i f' :
  TurboJS_IREmit mem f i = (f', TURBOJS_IR_OK) ->
  f_instructions f' = f_instructions f ++ [i] /\ f_revision f' = uwrap 64 (f_revision f + 1).
Proof. unfold TurboJS_IREmit. case_match; intros [= <-]. auto. Qed.

(** C40 Every function reached from [TurboJS_IRFunctionInit] by builder calls
    keeps its element counts within the allocated capacities, at most 64
    virtual registers and 64-entry hint tables, whatever the allocator answers. *)
Theorem ir_builder_invariant next argc f :
  rtc ir_build (TurboJS_IRFunctionInit next argc).1 f -> ir_wf f.
Proof.
  intros Hr. remember (TurboJS_IRFunctionInit next argc).1 as f0 eqn:E0.
  assert (ir_wf f0) as H0.
  { subst f0. constructor; simpl; rewrite ?length_replicate; unfold f_instruction_count; simpl; try lia.
    unfold TURBOJS_IR_MAX_REGISTERS. lia. }
  clear E0. induction Hr; eauto using ir_build_wf.
Qed.

Lemma ir_builder_invariant_witness :
  ir_wf (TurboJS_IREmit false (TurboJS_IRAllocateRegister (TurboJS_IRFunctionInit 1 2).1).1
           (mkInstruction TURBOJS_IR_RETURN_I64 0 0 0 0 0 0)).1.
Proof.
  apply (ir_builder_invariant 1 2).
  eapply rtc_l; [apply build_register|]. eapply rtc_l; [apply build_emit|]. apply rtc_refl.
Defined.
