(* ===== verification/IRVerify.v ===== *)
(** * The IR verifier (src/jit/ir/ir_verify.c)

    [TurboJS_IRVerify] follows the C function: the two storage checks, the
    per-instruction switch, and the final return check.  A native-call
    instruction dereferences the address in its immediate; when no call site
    lives there the C code has undefined behaviour, and the model answers
    [None]. *)

From S2P Require Import Prelude.
From S2P Require Import JitTypes.
From S2P Require Import IR.

Definition valid_register (f : TurboJSIRFunction) (reg : Z) : bool := reg <? f_register_count f.

(** Outcome of the switch on one instruction. *)
Inductive InstrCheck :=
  | CheckFail (status : TurboJSIRStatus) (message : string)
  | CheckPass (is_return : bool).

(** [for (call_index...) if (!valid_register(...)) return fail(...)] *)
Definition check_call_registers (f : TurboJSIRFunction) (s : TurboJSClutchCallSite) : bool :=
  forallb (valid_register f) (take (Z.to_nat (cs_argument_count s)) (cs_argument_registers s)).

Definition verify_instruction (hp : Heap) (f : TurboJSIRFunction) (i : TurboJSIRInstruction)
    : option InstrCheck :=
  let pass := Some (CheckPass false) in
  let fail st msg := Some (CheckFail st msg) in
  match in_opcode i with
  | TURBOJS_IR_NOP => pass
  | TURBOJS_IR_ARGUMENT | TURBOJS_IR_VALUE_ARGUMENT =>
      if negb (valid_register f (in_destination i))
      then fail TURBOJS_IR_INVALID_REGISTER "invalid destination register"
      else if (in_immediate i <? 0) || (f_argument_count f <=? in_immediate i)
      then fail TURBOJS_IR_INVALID_ARGUMENT "argument index out of range"
      else pass
  | TURBOJS_IR_CONSTANT_I64 | TURBOJS_IR_CONSTANT_F64 | TURBOJS_IR_VALUE_UNDEFINED
  | TURBOJS_IR_VALUE_CONSTANT_I32 | TURBOJS_IR_VALUE_CALLABLE_CONSTANT =>
      if negb (valid_register f (in_destination i))
      then fail TURBOJS_IR_INVALID_REGISTER "invalid destination register" else pass
  | TURBOJS_IR_ADD_I64 | TURBOJS_IR_SUB_I64 | TURBOJS_IR_MUL_I64
  | TURBOJS_IR_ADD_F64 | TURBOJS_IR_SUB_F64 | TURBOJS_IR_MUL_F64 | TURBOJS_IR_DIV_F64
  | TURBOJS_IR_LESS_THAN_F64 | TURBOJS_IR_LESS_EQUAL_F64 | TURBOJS_IR_EQUAL_F64
  | TURBOJS_IR_ADD_I32_CHECKED | TURBOJS_IR_SUB_I32_CHECKED | TURBOJS_IR_MUL_I32_CHECKED
  | TURBOJS_IR_DIV_I32_CHECKED | TURBOJS_IR_REM_I32_CHECKED | TURBOJS_IR_LESS_THAN_I64 =>
      if negb (valid_register f (in_destination i)) || negb (valid_register f (in_left i))
         || negb (valid_register f (in_right i))
      then fail TURBOJS_IR_INVALID_REGISTER "invalid arithmetic register" else pass
  | TURBOJS_IR_I64_TO_F64 | TURBOJS_IR_F64_TO_I64_TRUNC | TURBOJS_IR_VALUE_MOVE
  | TURBOJS_IR_VALUE_TO_BOOLEAN =>
      if negb (valid_register f (in_destination i)) || negb (valid_register f (in_left i))
      then fail TURBOJS_IR_INVALID_REGISTER "invalid conversion register" else pass
  | TURBOJS_IR_VALUE_CALL_I64 | TURBOJS_IR_VALUE_CALL_F64 =>
      if negb (valid_register f (in_destination i)) || negb (valid_register f (in_left i))
         || (in_immediate i <? 0) || (TURBOJS_CLUTCH_MAX_ARGUMENTS <? in_immediate i)
         || (f_register_count f <? in_right i + in_immediate i)
      then fail TURBOJS_IR_INVALID_ARGUMENT "invalid tagged callable invocation" else pass
  | TURBOJS_IR_CALL_NATIVE_I64 | TURBOJS_IR_CALL_NATIVE_F64 =>
      if negb (valid_register f (in_destination i)) || (in_immediate i =? 0)
      then fail TURBOJS_IR_INVALID_ARGUMENT "invalid Clutch native call"
      else
        let? s := hp_site hp (in_immediate i) in
        if TURBOJS_CLUTCH_MAX_ARGUMENTS <? cs_argument_count s
        then fail TURBOJS_IR_INVALID_ARGUMENT "invalid Clutch native call"
        else if negb (check_call_registers f s)
        then fail TURBOJS_IR_INVALID_REGISTER "invalid Clutch argument register" else pass
  | TURBOJS_IR_RUNTIME_HELPER =>
      if negb (valid_register f (in_destination i)) || negb (valid_register f (in_left i))
         || negb (valid_register f (in_right i)) || (in_immediate i <? 0)
      then fail TURBOJS_IR_INVALID_ARGUMENT "invalid runtime helper call" else pass
  | TURBOJS_IR_LOCAL_GET | TURBOJS_IR_VALUE_LOCAL_GET =>
      if negb (valid_register f (in_destination i)) || (in_immediate i <? 0)
         || (f_local_count f <=? in_immediate i)
      then fail TURBOJS_IR_INVALID_REGISTER "invalid local load" else pass
  | TURBOJS_IR_LOCAL_SET | TURBOJS_IR_VALUE_LOCAL_SET =>
      if negb (valid_register f (in_left i)) || (in_immediate i <? 0)
         || (f_local_count f <=? in_immediate i)
      then fail TURBOJS_IR_INVALID_REGISTER "invalid local store" else pass
  | TURBOJS_IR_JUMP =>
      if f_instruction_count f <=? in_target i
      then fail TURBOJS_IR_INVALID_TARGET "jump target out of range" else pass
  | TURBOJS_IR_BRANCH_TRUE | TURBOJS_IR_BRANCH_FALSE =>
      if negb (valid_register f (in_left i))
      then fail TURBOJS_IR_INVALID_REGISTER "invalid condition register"
      else if f_instruction_count f <=? in_target i
      then fail TURBOJS_IR_INVALID_TARGET "branch target out of range" else pass
  | TURBOJS_IR_RETURN_I64 | TURBOJS_IR_RETURN_F64 | TURBOJS_IR_VALUE_RETURN =>
      if negb (valid_register f (in_left i))
      then fail TURBOJS_IR_INVALID_REGISTER "invalid return register"
      else Some (CheckPass true)
  | TURBOJS_IR_UNNAMED _ => fail TURBOJS_IR_INVALID_OPCODE "unknown IR opcode"
  end.

(** The loop over the instructions; [index] is the position of the head. *)
Fixpoint verify_loop (hp : Heap) (f : TurboJSIRFunction) (index : Z) (has_return : bool)
    (instrs : list TurboJSIRInstruction) : option (TurboJSIRDiagnostic + bool) :=
  match instrs with
  | [] => Some (inr has_return)
  | i :: instrs =>
      let? c := verify_instruction hp f i in
      match c with
      | CheckFail st msg => Some (inl (mkDiagnostic st index msg))
      | CheckPass r => verify_loop hp f (index + 1) (has_return || r) instrs
      end
  end.

Definition ok_diagnostic : TurboJSIRDiagnostic := mkDiagnostic TURBOJS_IR_OK 0 "ok".

(** The diagnostic is the one a caller that passes a non-NULL pointer reads;
    its status is the returned status. *)
Definition TurboJS_IRVerify (hp : Heap) (f : TurboJSIRFunction) : option TurboJSIRDiagnostic :=
  if TURBOJS_IR_MAX_REGISTERS <? f_register_count f
  then Some (mkDiagnostic TURBOJS_IR_INVALID_REGISTER 0 "register limit exceeded")
  else
    let? r := verify_loop hp f 0 false (f_instructions f) in
    match r with
    | inl d => Some d
    | inr has_return =>
        if negb has_return
        then Some (mkDiagnostic TURBOJS_IR_MISSING_RETURN (f_instruction_count f) "function has no return")
        else Some ok_diagnostic
    end.

(** ** Accepted functions *)

(** The operands of an accepted instruction. *)
Definition operands_ok (hp : Heap) (f : TurboJSIRFunction) (i : TurboJSIRInstruction) : Prop :=
  exists r, verify_instruction hp f i = Some (CheckPass r).

Definition returns (i : TurboJSIRInstruction) : bool :=
  match in_opcode i with
  | TURBOJS_IR_RETURN_I64 | TURBOJS_IR_RETURN_F64 | TURBOJS_IR_VALUE_RETURN => true
  | _ => false
  end.

(** Declarative well-formedness: the verifier's specification. *)
Record ir_accepted (hp : Heap) (f : TurboJSIRFunction) : Prop := {
  acc_registers : f_register_count f <= TURBOJS_IR_MAX_REGISTERS;
  acc_operands : Forall (operands_ok hp f) (f_instructions f);
  acc_return : Exists (fun i => returns i = true) (f_instructions f)
}.

Lemma verify_instruction_returns hp f i r :
  verify_instruction hp f i = Some (CheckPass r) -> r = returns i.
Proof.
  unfold verify_instruction, returns. destruct (in_opcode i); intros H;
    repeat case_match; simplify_eq; done.
Qed.

Lemma verify_loop_ok hp f instrs index has :
  verify_loop hp f index has instrs = Some (inr true) <->
  Forall (operands_ok hp f) instrs /\ (has = true \/ Exists (fun i => returns i = true) instrs).
Proof.
  revert index has. induction instrs as [|i instrs IH]; intros index has; simpl.
  - rewrite Exists_nil. naive_solver.
  - rewrite Forall_cons, Exists_cons. unfold operands_ok at 1.
    destruct (verify_instruction hp f i) as [[st msg|r]|] eqn:E.
    + split; [done|]. intros [[[? [=]] _] _].
    + rewrite IH, orb_true_iff. rewrite <-(verify_instruction_returns _ _ _ _ E). naive_solver.
    + split; [done|]. intros [[[? [=]] _] _].
Qed.

(** The statuses a failed check is reported with. *)
Lemma verify_loop_fail hp f instrs index has d :
  verify_loop hp f index has instrs = Some (inl d) ->
  In (dg_status d) [TURBOJS_IR_INVALID_REGISTER; TURBOJS_IR_INVALID_ARGUMENT;
                    TURBOJS_IR_INVALID_TARGET; TURBOJS_IR_INVALID_OPCODE].
Proof.
  revert index has. induction instrs as [|i l IH]; intros index has; simpl; [done|].
  destruct (verify_instruction hp f i) as [[st msg|r]|] eqn:Ei; [|intros; eapply IH; eassumption|done].
  intros [= <-]. revert Ei. unfold verify_instruction. simpl.
  destruct (in_opcode i); repeat case_match; intros [= <- <-]; tauto.
Qed.

Lemma verify_loop_fail_not hp f instrs index has d st :
  verify_loop hp f index has instrs = Some (inl d) ->
  st = TURBOJS_IR_OK \/ st = TURBOJS_IR_EXECUTION_LIMIT -> dg_status d <> st.
Proof. intros H%verify_loop_fail [-> | ->]; simpl in H; intuition congruence. Qed.

Lemma ir_verify_ok_iff hp f :
  TurboJS_IRVerify hp f = Some ok_diagnostic <-> ir_accepted hp f.
Proof.
  unfold TurboJS_IRVerify. destruct (Z.ltb_spec TURBOJS_IR_MAX_REGISTERS (f_register_count f)) as [H|H].
  - split; [done|]. intros [? _ _]. lia.
  - pose proof (verify_loop_ok hp f (f_instructions f) 0 false) as L.
    destruct (verify_loop hp f 0 false (f_instructions f)) as [[d|[]]|] eqn:E; simpl.
    + split.
      * intros [= ->]. exfalso. by eapply verify_loop_fail_not in E; [|by left].
      * intros [_ Ho Hr]. destruct L as [_ L]. discriminate L. auto.
    + destruct L as [L _]. specialize (L eq_refl). destruct L as [Ho [Hr|Hr]]; [done|].
      split; [|done]. constructor; auto.
    + split; [done|]. intros [_ Ho Hr]. destruct L as [_ L]. discriminate L. auto.
    + split; [done|]. intros [_ Ho Hr]. destruct L as [_ L]. discriminate L. auto.
Qed.

Lemma ir_verify_status_ok hp f d :
  TurboJS_IRVerify hp f = Some d -> dg_status d = TURBOJS_IR_OK -> d = ok_diagnostic.
Proof.
  unfold TurboJS_IRVerify. repeat case_match; intros [= <-] Hs; try done.
  exfalso. by eapply verify_loop_fail_not; [eassumption|by left|].
Qed.


(** Reading facts for the clients of the verifier. *)
Lemma accepted_operands hp f pc i :
  ir_accepted hp f -> f_instructions f !! pc = Some i -> operands_ok hp f i.
Proof. intros [_ H _] Hl. rewrite Forall_lookup in H. eauto. Qed.

(** Verification reads no memory but the call sites: when every non-NULL
    native-call immediate of the function names a call site, the verifier
    always produces a diagnostic. *)
Theorem ir_verify_total hp f :
  Forall (fun i => match in_opcode i with
                   | TURBOJS_IR_CALL_NATIVE_I64 | TURBOJS_IR_CALL_NATIVE_F64 =>
                       in_immediate i = 0 \/ is_Some (hp_site hp (in_immediate i))
                   | _ => True end) (f_instructions f) ->
  is_Some (TurboJS_IRVerify hp f).
Proof.
  intros Hf. unfold TurboJS_IRVerify. case_match; [done|].
  assert (forall index has, is_Some (verify_loop hp f index has (f_instructions f))) as Hs.
  { induction Hf as [|i l Hi _ IH]; intros index has; simpl; [done|].
    assert (is_Some (verify_instruction hp f i)) as [[st msg|r] ->]; [|done|apply IH].
    unfold verify_instruction. destruct (in_opcode i); repeat case_match; simplify_eq; try done;
      destruct Hi as [Hi|[? Hi]]; b2p; congruence || naive_solver. }
  destruct (Hs 0 false) as [[d|r] ->]; [done|]. destruct r; done.
Qed.

Lemma ir_verify_total_witness :
  is_Some (TurboJS_IRVerify empty_heap
    (f_set_instructions zero_function [mkInstruction TURBOJS_IR_CALL_NATIVE_I64 0 0 0 0 0 0] 16)).
Proof. apply ir_verify_total. constructor; [left; reflexivity|constructor]. Defined.


#[export] Hint Resolve accepted_operands : jit.
