(* ===== verification/Float64.v ===== *)
(** * IEEE-754 binary64 values held in 64-bit registers

    The IR keeps a [double] in an [int64_t] register by [memcpy].  A pattern
    is decoded to the Standard Library's [spec_float], the operations are its
    correctly rounded ones (precision 53, exponent bound 1024), and the result
    is encoded again.  A NaN result is encoded as the quiet NaN
    [0x7ff8000000000000]: C leaves its sign and payload unspecified. *)

From Stdlib Require Import SpecFloat.
From S2P Require Import Prelude.

Local Abbreviation prec := 53.
Local Abbreviation emax := 1024.

(** Decode an unsigned 64-bit pattern. *)
Definition f64_decode (bits : Z) : spec_float :=
  let s := Z.testbit bits 63 in
  let e := bits / 2 ^ 52 mod 2 ^ 11 in
  let m := bits mod 2 ^ 52 in
  if e =? 0 then
    match m with Z.pos p => S754_finite s p (-1074) | _ => S754_zero s end
  else if e =? 2047 then (if m =? 0 then S754_infinity s else S754_nan)
  else match m + 2 ^ 52 with Z.pos p => S754_finite s p (e - 1075) | _ => S754_zero s end.

Definition f64_sign_bit (s : bool) : Z := if s then 2 ^ 63 else 0.

(** Encode to an unsigned 64-bit pattern. *)
Definition f64_encode (x : spec_float) : Z :=
  match x with
  | S754_zero s => f64_sign_bit s
  | S754_infinity s => f64_sign_bit s + 2047 * 2 ^ 52
  | S754_nan => 4095 * 2 ^ 51
  | S754_finite s m e =>
      if Z.pos m <? 2 ^ 52 then f64_sign_bit s + Z.pos m
      else f64_sign_bit s + (e + 1075) * 2 ^ 52 + (Z.pos m - 2 ^ 52)
  end.

(** [memcpy] from a register and into one. *)
Definition double_of_i64 (r : Z) : spec_float := f64_decode (uwrap 64 r).
Definition i64_of_double (x : spec_float) : Z := swrap 64 (f64_encode x).

Definition f64_add (l r : Z) : Z := i64_of_double (SFadd prec emax (double_of_i64 l) (double_of_i64 r)).
Definition f64_sub (l r : Z) : Z := i64_of_double (SFsub prec emax (double_of_i64 l) (double_of_i64 r)).
Definition f64_mul (l r : Z) : Z := i64_of_double (SFmul prec emax (double_of_i64 l) (double_of_i64 r)).
Definition f64_div (l r : Z) : Z := i64_of_double (SFdiv prec emax (double_of_i64 l) (double_of_i64 r)).
Definition f64_lt (l r : Z) : bool := SFltb (double_of_i64 l) (double_of_i64 r).
Definition f64_le (l r : Z) : bool := SFleb (double_of_i64 l) (double_of_i64 r).
Definition f64_eq (l r : Z) : bool := SFeqb (double_of_i64 l) (double_of_i64 r).

(** [(double)z] for an [int64_t]. *)
Definition f64_of_i64 (z : Z) : Z := i64_of_double (binary_normalize prec emax z 0 false).

(** [(int64_t)value]: undefined on NaN, infinities and out-of-range values. *)
Definition f64_trunc (r : Z) : option Z :=
  match double_of_i64 r with
  | S754_zero _ => Some 0
  | S754_finite s m e =>
      let v := if 0 <=? e then Z.pos m * 2 ^ e else Z.pos m / 2 ^ (- e) in
      c_i64 (if s then - v else v)
  | _ => None
  end.

(** Truthiness of a [double]: [x != 0.0 && x == x]. *)
Definition f64_truthy (r : Z) : bool :=
  negb (SFeqb (double_of_i64 r) (S754_zero false)) && SFeqb (double_of_i64 r) (double_of_i64 r).

Example f64_add_1_2 : f64_add (f64_of_i64 1) (f64_of_i64 2) = f64_of_i64 3.
Proof. vm_compute. reflexivity. Qed.
Example f64_div_1_3 : f64_div (f64_of_i64 1) (f64_of_i64 3) = 4599676419421066581.
Proof. vm_compute. reflexivity. Qed.
Example f64_trunc_neg : f64_trunc (f64_div (f64_of_i64 (-7)) (f64_of_i64 2)) = Some (-3).
Proof. vm_compute. reflexivity. Qed.

(** Decoding is the inverse of encoding on every pattern that is not a NaN. *)
Lemma f64_encode_decode bits :
  is_u 64 bits -> f64_decode bits <> S754_nan -> f64_encode (f64_decode bits) = bits.
Proof.
  unfold is_u, f64_decode. intros Hb Hn.
  set (m := bits mod 2 ^ 52) in *. set (e := bits / 2 ^ 52 mod 2 ^ 11) in *.
  assert (0 <= m < 2 ^ 52) by (subst m; apply Z.mod_pos_bound; lia).
  assert (0 <= e < 2 ^ 11) by (subst e; apply Z.mod_pos_bound; lia).
  assert (bits = f64_sign_bit (Z.testbit bits 63) + e * 2 ^ 52 + m) as Hdec.
  { assert (f64_sign_bit (Z.testbit bits 63) = bits / 2 ^ 63 * 2 ^ 63) as ->.
    { unfold f64_sign_bit. rewrite Z.testbit_odd, Z.shiftr_div_pow2 by lia.
      assert (0 <= bits / 2 ^ 63 < 2) as Hq.
      { split; [apply Z.div_pos; lia|]. apply Z.div_lt_upper_bound; lia. }
      destruct (decide (bits / 2 ^ 63 = 0)) as [->|]; [reflexivity|].
      replace (bits / 2 ^ 63) with 1 by lia. reflexivity. }
    subst e m. pose proof (Z.div_mod bits (2 ^ 52) ltac:(lia)).
    pose proof (Z.div_mod (bits / 2 ^ 52) (2 ^ 11) ltac:(lia)).
    rewrite Z.div_div in H2 by lia. change (2 ^ 52 * 2 ^ 11) with (2 ^ 63) in H2. lia. }
  generalize dependent (Z.testbit bits 63). intros s Hn Hdec.
  unfold f64_encode. change (2 ^ 11) with 2048 in *. change (2 ^ 52) with 4503599627370496 in *.
  destruct (Z.eqb_spec e 0) as [E0|E0]; [|destruct (Z.eqb_spec e 2047) as [E1|E1]].
  - rewrite E0 in Hdec. destruct m as [|p|p] eqn:Em; try lia.
    destruct (Z.ltb_spec (Z.pos p) 4503599627370496); lia.
  - destruct (Z.eqb_spec m 0); [lia|done].
  - destruct (m + 4503599627370496) as [|p|p] eqn:Em; try lia.
    destruct (Z.ltb_spec (Z.pos p) 4503599627370496); lia.
Qed.

Lemma i64_of_double_of_i64 r :
  in_i64 r = true -> double_of_i64 r <> S754_nan -> i64_of_double (double_of_i64 r) = r.
Proof.
  intros Hr Hn. unfold i64_of_double, double_of_i64 in *.
  rewrite f64_encode_decode; [by apply swrap_uwrap_i64| |done]. apply uwrap_is_u. lia.
Qed.
