(* ===== verification/IRInterp.v ===== *)
(** * The portable IR interpreter (src/jit/ir/ir_interpreter.c)

    Registers and locals are the two 64-entry arrays of the C code.  An access
    outside them, and signed arithmetic C leaves undefined, are the [Undef]
    outcomes.  The step budget [instruction_count * 1000 + 1024] is the fuel
    of the loop, so every execution returns. *)

From S2P Require Import Prelude.
From S2P Require Import JitTypes.
From S2P Require Import Clutch.
From S2P Require Import IR.
From S2P Require Import IRVerify.
From S2P Require Import Float64.

Inductive Undefined := UB_memory | UB_arithmetic.

#[export] Instance Undefined_eq_dec : EqDecision Undefined.
Proof. solve_decision. Defined.

(** [Result r] is status OK with [*result = r]; [Stop] carries the other statuses. *)
Inductive Outcome :=
  | Result (r : Z)
  | Stop (status : TurboJSIRStatus)
  | Undef (u : Undefined).

#[export] Instance Outcome_eq_dec : EqDecision Outcome.
Proof. solve_decision. Defined.

Inductive StepOut :=
  | Next (registers locals : list Z) (pc : nat)
  | Halt (o : Outcome).

(** Array accesses of the C code. *)
Definition rd (a : list Z) (i : Z) (k : Z -> StepOut) : StepOut :=
  match a !! Z.to_nat i with Some v => k v | None => Halt (Undef UB_memory) end.
Definition wr (a : list Z) (i v : Z) (k : list Z -> StepOut) : StepOut :=
  if (Z.to_nat i <? length a)%nat then k (<[Z.to_nat i := v]> a) else Halt (Undef UB_memory).
Definition arith (v : option Z) (k : Z -> StepOut) : StepOut :=
  match v with Some v => k v | None => Halt (Undef UB_arithmetic) end.

Definition b2z (b : bool) : Z := if b then 1 else 0.

(** [left / right] and [left % right] of [int64_t]s, [right] not zero. *)
Definition c_div (l r : Z) : option Z := if (l =? INT64_MIN) && (r =? -1) then None else Some (Z.quot l r).
Definition c_rem (l r : Z) : option Z := if (l =? INT64_MIN) && (r =? -1) then None else Some (Z.rem l r).

(** The checked 32-bit operations: [inl] is the bailout. *)
Definition checked_i32 (op : TurboJSIROpcode) (left right : Z) : option (unit + Z) :=
  match op with
  | TURBOJS_IR_DIV_I32_CHECKED | TURBOJS_IR_REM_I32_CHECKED =>
      if (right =? 0) || (bool_decide (op = TURBOJS_IR_DIV_I32_CHECKED) && (left =? INT32_MIN) && (right =? -1))
      then Some (inl tt)
      else match (if decide (op = TURBOJS_IR_DIV_I32_CHECKED) then c_div left right else c_rem left right) with
           | Some v => Some (inr v)
           | None => None
           end
  | _ =>
      let? value := c_i64 (if decide (op = TURBOJS_IR_ADD_I32_CHECKED) then left + right
                           else if decide (op = TURBOJS_IR_SUB_I32_CHECKED) then left - right
                           else left * right) in
      if (value <? INT32_MIN) || (INT32_MAX <? value) then Some (inl tt) else Some (inr value)
  end.

(** [for (call_index...) call_arguments[call_index] = registers[source]];
    [None] when a source register is outside the function's registers. *)
Fixpoint gather (register_count : Z) (registers : list Z) (sources : list Z) : option (list Z) :=
  match sources with
  | [] => Some []
  | s :: sources =>
      if register_count <=? s then None
      else let? rest := gather register_count registers sources in
           Some (default 0 (registers !! Z.to_nat s) :: rest)
  end.

Section Interp.
Context (hp : Heap).
Context (native_i64 native_f64 : Z -> list Z -> TurboJSIRStatus * Z).

(** The native-call case of the switch. *)
Definition call_native (f : TurboJSIRFunction) (i : TurboJSIRInstruction)
    (regs locals : list Z) (pc : nat) : StepOut :=
  if in_immediate i =? 0 then Halt (Stop TURBOJS_IR_BAILOUT)
  else match hp_site hp (in_immediate i) with
  | None => Halt (Undef UB_memory)
  | Some site =>
      if TURBOJS_CLUTCH_MAX_ARGUMENTS <? cs_argument_count site then Halt (Stop TURBOJS_IR_BAILOUT)
      else match gather (f_register_count f) regs
                   (take (Z.to_nat (cs_argument_count site)) (cs_argument_registers site)) with
      | None => Halt (Stop TURBOJS_IR_BAILOUT)
      | Some args =>
          let r := if decide (in_opcode i = TURBOJS_IR_CALL_NATIVE_F64)
                   then TurboJS_ClutchCallSiteInvokeF64 native_f64 (hp_handle hp) site args
                   else TurboJS_ClutchCallSiteInvokeI64 native_i64 (hp_handle hp) site args in
          match r with
          | (TURBOJS_IR_OK, Some v) => wr regs (in_destination i) v (fun regs => Next regs locals (S pc))
          | (TURBOJS_IR_OK, None) => Next regs locals (S pc)
          | _ => Halt (Stop TURBOJS_IR_BAILOUT)
          end
      end
  end.

(** One iteration of the [switch] in [execute_from]. *)
Definition execute_step (f : TurboJSIRFunction) (i : TurboJSIRInstruction)
    (regs locals : list Z) (pc : nat) : StepOut :=
  let set v := wr regs (in_destination i) v (fun regs => Next regs locals (S pc)) in
  let binary (k : Z -> Z -> StepOut) := rd regs (in_left i) (fun l => rd regs (in_right i) (fun r => k l r)) in
  match in_opcode i with
  | TURBOJS_IR_NOP => Next regs locals (S pc)
  | TURBOJS_IR_ARGUMENT => Halt (Stop TURBOJS_IR_INVALID_ARGUMENT)
  | TURBOJS_IR_CONSTANT_I64 | TURBOJS_IR_CONSTANT_F64 => set (in_immediate i)
  | TURBOJS_IR_ADD_I64 => binary (fun l r => arith (c_i64 (l + r)) set)
  | TURBOJS_IR_SUB_I64 => binary (fun l r => arith (c_i64 (l - r)) set)
  | TURBOJS_IR_MUL_I64 => binary (fun l r => arith (c_i64 (l * r)) set)
  | TURBOJS_IR_ADD_F64 => binary (fun l r => set (f64_add l r))
  | TURBOJS_IR_SUB_F64 => binary (fun l r => set (f64_sub l r))
  | TURBOJS_IR_MUL_F64 => binary (fun l r => set (f64_mul l r))
  | TURBOJS_IR_DIV_F64 => binary (fun l r => set (f64_div l r))
  | TURBOJS_IR_LESS_THAN_F64 => binary (fun l r => set (b2z (f64_lt l r)))
  | TURBOJS_IR_LESS_EQUAL_F64 => binary (fun l r => set (b2z (f64_le l r)))
  | TURBOJS_IR_EQUAL_F64 => binary (fun l r => set (b2z (f64_eq l r)))
  | TURBOJS_IR_I64_TO_F64 => rd regs (in_left i) (fun l => set (f64_of_i64 l))
  | TURBOJS_IR_F64_TO_I64_TRUNC => rd regs (in_left i) (fun l => arith (f64_trunc l) set)
  | TURBOJS_IR_ADD_I32_CHECKED | TURBOJS_IR_SUB_I32_CHECKED | TURBOJS_IR_MUL_I32_CHECKED
  | TURBOJS_IR_DIV_I32_CHECKED | TURBOJS_IR_REM_I32_CHECKED =>
      binary (fun l r =>
        match checked_i32 (in_opcode i) l r with
        | None => Halt (Undef UB_arithmetic)
        | Some (inl _) => Halt (Stop TURBOJS_IR_BAILOUT)
        | Some (inr v) => set v
        end)
  | TURBOJS_IR_CALL_NATIVE_I64 | TURBOJS_IR_CALL_NATIVE_F64 => call_native f i regs locals pc
  | TURBOJS_IR_RUNTIME_HELPER => Halt (Stop TURBOJS_IR_BAILOUT)
  | TURBOJS_IR_LESS_THAN_I64 => binary (fun l r => set (b2z (l <? r)))
  | TURBOJS_IR_LOCAL_GET => rd locals (in_immediate i) set
  | TURBOJS_IR_LOCAL_SET =>
      rd regs (in_left i) (fun v => wr locals (in_immediate i) v (fun locals => Next regs locals (S pc)))
  | TURBOJS_IR_JUMP => Next regs locals (Z.to_nat (in_target i))
  | TURBOJS_IR_BRANCH_TRUE =>
      rd regs (in_left i) (fun v => Next regs locals (if v =? 0 then S pc else Z.to_nat (in_target i)))
  | TURBOJS_IR_BRANCH_FALSE =>
      rd regs (in_left i) (fun v => Next regs locals (if v =? 0 then Z.to_nat (in_target i) else S pc))
  | TURBOJS_IR_RETURN_I64 | TURBOJS_IR_RETURN_F64 => rd regs (in_left i) (fun v => Halt (Result v))
  | _ => Halt (Stop TURBOJS_IR_INVALID_OPCODE)
  end.

Fixpoint execute_loop (fuel : nat) (f : TurboJSIRFunction) (regs locals : list Z) (pc : nat) : Outcome :=
  match f_instructions f !! pc with
  | None => Stop TURBOJS_IR_MISSING_RETURN
  | Some i =>
      match fuel with
      | O => Stop TURBOJS_IR_EXECUTION_LIMIT
      | S fuel =>
          match execute_step f i regs locals pc with
          | Halt o => o
          | Next regs locals pc => execute_loop fuel f regs locals pc
          end
      end
  end.

Definition step_limit (f : TurboJSIRFunction) : nat := (length (f_instructions f) * 1000 + 1024)%nat.

Definition execute_from (f : TurboJSIRFunction) (regs locals : list Z) (pc : nat) : Outcome :=
  execute_loop (step_limit f) f regs locals pc.

Definition zero_array : list Z := replicate (Z.to_nat TURBOJS_IR_MAX_REGISTERS) 0.

(** The argument prologue: the loop over [pc] of [TurboJS_IRExecute]. *)
Fixpoint argument_prologue (f : TurboJSIRFunction) (arguments regs : list Z) (pc : nat)
    (instrs : list TurboJSIRInstruction) : Outcome :=
  match instrs with
  | [] => Stop TURBOJS_IR_MISSING_RETURN
  | i :: instrs =>
      if decide (in_opcode i = TURBOJS_IR_ARGUMENT) then
        match arguments !! Z.to_nat (in_immediate i) with
        | None => Undef UB_memory
        | Some v =>
            if (Z.to_nat (in_destination i) <? length regs)%nat
            then argument_prologue f arguments (<[Z.to_nat (in_destination i) := v]> regs) (S pc) instrs
            else Undef UB_memory
        end
      else execute_from f regs zero_array pc
  end.

Definition TurboJS_IRExecute (f : TurboJSIRFunction) (arguments : list Z) : Outcome :=
  if Z.of_nat (length arguments) <? f_argument_count f then Stop TURBOJS_IR_INVALID_ARGUMENT
  else match TurboJS_IRVerify hp f with
       | None => Undef UB_memory
       | Some d =>
           if decide (dg_status d = TURBOJS_IR_OK)
           then argument_prologue f arguments zero_array 0 (f_instructions f)
           else Stop (dg_status d)
       end.

(** [registers[i] = frame->register_values[i]] for every materialized [i]. *)
Definition materialize (mask count : Z) (values : list Z) : list Z :=
  imap (fun i z => if (Z.of_nat i <? count) && Z.testbit mask (Z.of_nat i)
                   then default 0 (values !! i) else z) zero_array.

Definition TurboJS_IRResumeAfterBailout (f : TurboJSIRFunction) (frame : TurboJSDeoptFrame)
    (slow_path_result : Z) : Outcome :=
  let index := bo_instruction_index (df_bailout frame) in
  if decide (bo_reason (df_bailout frame) = TURBOJS_BAILOUT_NONE) then Stop TURBOJS_IR_INVALID_ARGUMENT
  else match f_instructions f !! Z.to_nat index with
  | None => Stop TURBOJS_IR_INVALID_ARGUMENT
  | Some failed =>
    match TurboJS_IRVerify hp f with
    | None => Undef UB_memory
    | Some d =>
      if negb (bool_decide (dg_status d = TURBOJS_IR_OK)) then Stop TURBOJS_IR_INVALID_ARGUMENT
      else if negb (df_register_count frame =? f_register_count f)
              || negb (df_local_count frame =? f_local_count f) then Stop TURBOJS_IR_INVALID_ARGUMENT
      else if TURBOJS_IR_MAX_REGISTERS <? f_local_count f then Undef UB_memory
      else
        let regs := materialize (df_materialized_register_mask frame) (f_register_count f)
                      (df_register_values frame) in
        let locals := materialize (df_materialized_local_mask frame) (f_local_count f)
                        (df_local_values frame) in
        match in_opcode failed with
        | TURBOJS_IR_ADD_I32_CHECKED | TURBOJS_IR_SUB_I32_CHECKED | TURBOJS_IR_MUL_I32_CHECKED
        | TURBOJS_IR_DIV_I32_CHECKED | TURBOJS_IR_REM_I32_CHECKED | TURBOJS_IR_RUNTIME_HELPER
        | TURBOJS_IR_CALL_NATIVE_I64 =>
            if (Z.to_nat (in_destination failed) <? length regs)%nat
            then execute_from f (<[Z.to_nat (in_destination failed) := slow_path_result]> regs) locals
                   (S (Z.to_nat index))
            else Undef UB_memory
        | _ => Stop TURBOJS_IR_UNSUPPORTED
        end
    end
  end.

(** [TurboJS_IRExecuteF64]: doubles travel as their bit patterns. *)
Definition TurboJS_IRExecuteF64 (f : TurboJSIRFunction) (arguments : list Z) : Outcome :=
  if TURBOJS_IR_MAX_REGISTERS <? Z.of_nat (length arguments) then Stop TURBOJS_IR_INVALID_ARGUMENT
  else TurboJS_IRExecute f arguments.
End Interp.

(** ** Checked 32-bit arithmetic *)

Definition i32_op (op : TurboJSIROpcode) (l r : Z) : option Z :=
  match op with
  | TURBOJS_IR_ADD_I32_CHECKED => Some (l + r)
  | TURBOJS_IR_SUB_I32_CHECKED => Some (l - r)
  | TURBOJS_IR_MUL_I32_CHECKED => Some (l * r)
  | TURBOJS_IR_DIV_I32_CHECKED => if r =? 0 then None else Some (Z.quot l r)
  | TURBOJS_IR_REM_I32_CHECKED => if r =? 0 then None else Some (Z.rem l r)
  | _ => None
  end.

Lemma quot_i32_range l r :
  INT32_MIN <= l <= INT32_MAX -> r <> 0 -> ~ (l = INT32_MIN /\ r = -1) ->
  INT32_MIN <= Z.quot l r <= INT32_MAX.
Proof.
  unfold INT32_MIN, INT32_MAX. intros Hl Hr Hn.
  pose proof (Z.quot_rem' l r). pose proof (Z.rem_bound_abs l r Hr).
  destruct (Z.eq_dec r (-1)) as [->|]; [nia|]. destruct (Z.eq_dec r 1) as [->|]; [nia|].
  assert (Z.abs (Z.quot l r) <= Z.abs l / 2) as Hq.
  { rewrite <-Z.quot_abs by done. rewrite Z.quot_div_nonneg by lia.
    apply Z.div_le_compat_l; lia. }
  assert (Z.abs l / 2 <= 1073741824) by (apply Z.div_le_upper_bound; lia). lia.
Qed.

Lemma rem_i32_range l r :
  INT32_MIN <= l <= INT32_MAX -> r <> 0 -> INT32_MIN <= Z.rem l r <= INT32_MAX.
Proof.
  intros Hl Hr. unfold INT32_MIN, INT32_MAX in *.
  destruct (Z.le_ge_cases 0 l).
  - pose proof (Z.rem_nonneg l r Hr H). pose proof (Z.rem_le l (Z.abs r) H ltac:(lia)).
    rewrite Z.rem_abs_r in * by done. lia.
  - pose proof (Z.rem_nonneg (-l) r Hr ltac:(lia)).
    pose proof (Z.rem_le (-l) (Z.abs r) ltac:(lia) ltac:(lia)).
    rewrite Z.rem_abs_r in * by done. rewrite Z.rem_opp_l in * by done. lia.
Qed.

Lemma checked_i32_value op l r :
  In op [TURBOJS_IR_ADD_I32_CHECKED; TURBOJS_IR_SUB_I32_CHECKED; TURBOJS_IR_MUL_I32_CHECKED;
         TURBOJS_IR_DIV_I32_CHECKED; TURBOJS_IR_REM_I32_CHECKED] ->
  INT32_MIN <= l <= INT32_MAX -> INT32_MIN <= r <= INT32_MAX ->
  checked_i32 op l r =
    Some (match i32_op op l r with
          | Some v => if in_i32 v then inr v else inl tt
          | None => inl tt end).
Proof.
  intros Hop Hl Hr.
  assert (Hspec : forall v, INT64_MIN <= v <= INT64_MAX ->
    (let? value := c_i64 v in if (value <? INT32_MIN) || (INT32_MAX <? value)
     then Some (inl tt) else Some (inr value)) = Some (if in_i32 v then inr v else inl tt)).
  { intros v Hv. unfold c_i64. rewrite (proj2 (in_i64_spec v) Hv). unfold in_i32.
    rewrite !Z.ltb_antisym. destruct (INT32_MIN <=? v), (v <=? INT32_MAX); reflexivity. }
  unfold INT32_MIN, INT32_MAX, INT64_MIN, INT64_MAX in *.
  simpl in Hop; destruct Hop as [<-|[<-|[<-|[<-|[<-|[]]]]]]; unfold checked_i32, i32_op; simpl.
  1-3: apply Hspec; nia.
  - destruct (Z.eqb_spec r 0); [done|]. unfold c_div, INT32_MIN, INT64_MIN.
    destruct (Z.eqb_spec l (-2147483648)), (Z.eqb_spec r (-1)); simpl.
    { subst. reflexivity. }
    all: rewrite (proj2 (Z.eqb_neq l _)) by lia; simpl;
      rewrite (proj2 (in_i32_spec (Z.quot l r))); [done|apply quot_i32_range; unfold INT32_MIN, INT32_MAX; lia].
  - destruct (Z.eqb_spec r 0); [done|]. unfold c_rem, INT64_MIN.
    rewrite (proj2 (Z.eqb_neq l _)) by lia. simpl.
    rewrite (proj2 (in_i32_spec (Z.rem l r))); [done|apply rem_i32_range; unfold INT32_MIN, INT32_MAX; lia].
Qed.

(** C31 On 32-bit operands a checked operation is always defined: it yields
    the exact mathematical result when that fits in 32 bits, and bails out
    exactly when it does not or when dividing by zero. *)
Theorem checked_i32_exact op l r :
  In op [TURBOJS_IR_ADD_I32_CHECKED; TURBOJS_IR_SUB_I32_CHECKED; TURBOJS_IR_MUL_I32_CHECKED;
         TURBOJS_IR_DIV_I32_CHECKED; TURBOJS_IR_REM_I32_CHECKED] ->
  in_i32 l = true -> in_i32 r = true ->
  checked_i32 op l r =
    Some (match i32_op op l r with
          | Some v => if in_i32 v then inr v else inl tt
          | None => inl tt end).
Proof. rewrite !in_i32_spec. apply checked_i32_value. Qed.

(** ** Memory safety *)

Definition arrays_ok (regs locals : list Z) : Prop := length regs = 64%nat /\ length locals = 64%nat.

Definition step_safe (s : StepOut) : Prop :=
  match s with
  | Next regs locals _ => arrays_ok regs locals
  | Halt o => o <> Undef UB_memory
  end.

Lemma rd_safe a i k :
  (Z.to_nat i < length a)%nat -> (forall v, a !! Z.to_nat i = Some v -> step_safe (k v)) -> step_safe (rd a i k).
Proof. intros Hi Hk. unfold rd. destruct (lookup_lt_is_Some_2 _ _ Hi) as [v Hv]. rewrite Hv. auto. Qed.

Lemma wr_safe a i v k :
  (Z.to_nat i < length a)%nat -> step_safe (k (<[Z.to_nat i := v]> a)) -> step_safe (wr a i v k).
Proof. intros Hi Hk. unfold wr. rewrite (proj2 (Nat.ltb_lt _ _) Hi). done. Qed.

Lemma arith_safe v k : (forall z, v = Some z -> step_safe (k z)) -> step_safe (arith v k).
Proof. unfold arith. destruct v; simpl; auto. Qed.

Lemma valid_register_bound hp f r (regs : list Z) :
  ir_accepted hp f -> length regs = 64%nat -> valid_register f r = true -> (Z.to_nat r < length regs)%nat.
Proof.
  intros [Hr _ _] Hl. unfold valid_register, TURBOJS_IR_MAX_REGISTERS in *. rewrite Z.ltb_lt. lia.
Qed.

Lemma local_bound f (locals : list Z) imm :
  f_local_count f <= TURBOJS_IR_MAX_REGISTERS -> length locals = 64%nat ->
  imm < f_local_count f -> (Z.to_nat imm < length locals)%nat.
Proof. unfold TURBOJS_IR_MAX_REGISTERS. lia. Qed.

Section Safety.
Context (hp : Heap) (native_i64 native_f64 : Z -> list Z -> TurboJSIRStatus * Z).
Context (f : TurboJSIRFunction) (Hacc : ir_accepted hp f).
Context (Hlocals : f_local_count f <= TURBOJS_IR_MAX_REGISTERS).

Local Ltac regs_bound :=
  first [ eapply valid_register_bound; [exact Hacc|eassumption|assumption]
        | eapply local_bound; [exact Hlocals|eassumption|assumption] ].

Lemma call_native_safe i regs locals pc :
  in_immediate i <> 0 -> is_Some (hp_site hp (in_immediate i)) ->
  valid_register f (in_destination i) = true -> arrays_ok regs locals ->
  step_safe (call_native hp native_i64 native_f64 f i regs locals pc).
Proof.
  intros Hi [site Hs] Hd [Hr Hl]. unfold call_native.
  rewrite (proj2 (Z.eqb_neq _ _) Hi), Hs.
  repeat (case_match; try done); apply wr_safe; try regs_bound; split; rewrite ?length_insert; done.
Qed.

Lemma execute_step_safe i regs locals pc :
  operands_ok hp f i -> arrays_ok regs locals ->
  step_safe (execute_step hp native_i64 native_f64 f i regs locals pc).
Proof.
  intros [ret Hop] [Hr Hl]. unfold verify_instruction in Hop. unfold execute_step.
  destruct (in_opcode i) eqn:Eop; simpl;
    repeat match type of Hop with
           | (if ?b then _ else _) = _ => destruct b eqn:?; [discriminate|]
           end; b2p;
    try done;
    try solve [repeat (first [apply rd_safe; [regs_bound|intros ? ?]
                             |apply wr_safe; [regs_bound|]
                             |apply arith_safe; intros ? ?
                             |split; rewrite ?length_insert; done
                             |done
                             |case_match])].
  all: apply call_native_safe; try done; case_match; done.
Qed.

Lemma execute_loop_safe fuel regs locals pc :
  arrays_ok regs locals ->
  execute_loop hp native_i64 native_f64 fuel f regs locals pc <> Undef UB_memory.
Proof.
  revert regs locals pc. induction fuel as [|fuel IH]; intros regs locals pc Ha; simpl.
  - case_match; done.
  - destruct (f_instructions f !! pc) as [i|] eqn:Ei; [|done].
    pose proof (execute_step_safe i regs locals pc (accepted_operands _ _ _ _ Hacc Ei) Ha) as Hs.
    destruct (execute_step hp native_i64 native_f64 f i regs locals pc); simpl in Hs; auto.
Qed.

Lemma argument_prologue_safe arguments regs pc instrs :
  f_argument_count f <= Z.of_nat (length arguments) ->
  Forall (operands_ok hp f) instrs -> length regs = 64%nat ->
  argument_prologue hp native_i64 native_f64 f arguments regs pc instrs <> Undef UB_memory.
Proof.
  intros Hargs Hf. revert regs pc. induction Hf as [|i l [ret Hop] _ IH]; intros regs pc Hl; simpl; [done|].
  case_decide as Eop.
  - unfold verify_instruction in Hop. rewrite Eop in Hop.
    repeat match type of Hop with (if ?b then _ else _) = _ => destruct b eqn:?; [discriminate|] end. b2p.
    destruct (lookup_lt_is_Some_2 arguments (Z.to_nat (in_immediate i))) as [v Hv]; [lia|]. rewrite Hv.
    rewrite (proj2 (Nat.ltb_lt _ _)).
    + apply IH. by rewrite length_insert.
    + eapply valid_register_bound; eauto.
  - apply execute_loop_safe. split; [done|]. reflexivity.
Qed.
End Safety.

Lemma ir_execute_no_memory_ub hp native_i64 native_f64 f arguments :
  is_Some (TurboJS_IRVerify hp f) -> f_local_count f <= TURBOJS_IR_MAX_REGISTERS ->
  TurboJS_IRExecute hp native_i64 native_f64 f arguments <> Undef UB_memory.
Proof.
  intros [d Hd] Hl. unfold TurboJS_IRExecute. case_match eqn:E; [done|]. b2p. rewrite Hd.
  case_decide as Hst; [|done].
  assert (ir_accepted hp f) as Hacc.
  { apply ir_verify_ok_iff. rewrite Hd. f_equal. eauto using ir_verify_status_ok. }
  apply argument_prologue_safe; auto. destruct Hacc; auto.
Qed.


(** ** Execution depends only on the code

    Kind hints, owned call sites, capacities and the identity of a function
    are invisible to the verifier and to the interpreter. *)
Record same_code (f g : TurboJSIRFunction) : Prop := {
  sc_instructions : f_instructions f = f_instructions g;
  sc_registers : f_register_count f = f_register_count g;
  sc_arguments : f_argument_count f = f_argument_count g;
  sc_locals : f_local_count f = f_local_count g
}.

#[export] Instance same_code_equivalence : Equivalence same_code.
Proof.
  split.
  - by intros f.
  - intros f g []. by split.
  - intros f g h [] []. split; congruence.
Qed.

#[export] Instance verify_instruction_proper hp :
  Proper (same_code ==> eq ==> eq) (verify_instruction hp).
Proof.
  intros f g [Hi Hr Ha Hl] i ? <-. unfold verify_instruction, check_call_registers, valid_register,
    f_instruction_count. by rewrite Hi, Hr, Ha, Hl.
Qed.

#[export] Instance verify_proper hp : Proper (same_code ==> eq) (TurboJS_IRVerify hp).
Proof.
  intros f g Hs. unfold TurboJS_IRVerify, f_instruction_count.
  rewrite (sc_registers _ _ Hs), (sc_instructions _ _ Hs). case_match; [done|].
  assert (forall l n b, verify_loop hp f n b l = verify_loop hp g n b l) as ->; [|done].
  induction l as [|i l IH]; intros n b; simpl; [done|]. rewrite Hs. by repeat case_match.
Qed.

Lemma execute_loop_same_code hp ni nf f g fuel regs locals pc :
  same_code f g -> execute_loop hp ni nf fuel f regs locals pc = execute_loop hp ni nf fuel g regs locals pc.
Proof.
  intros [Hi Hr _ _]. revert regs locals pc. induction fuel as [|fuel IH]; intros; simpl; rewrite Hi; [done|].
  case_match; [|done].
  assert (execute_step hp ni nf f t regs locals pc = execute_step hp ni nf g t regs locals pc) as ->.
  { unfold execute_step, call_native. by rewrite Hr. }
  by case_match.
Qed.

#[export] Instance execute_proper hp ni nf : Proper (same_code ==> eq ==> eq) (TurboJS_IRExecute hp ni nf).
Proof.
  intros f g Hs args ? <-. unfold TurboJS_IRExecute.
  rewrite (verify_proper hp f g Hs), (sc_arguments _ _ Hs), (sc_instructions _ _ Hs).
  repeat (case_match; [done|]). case_match; [|done]. case_match; [|done].
  assert (forall l regs pc, argument_prologue hp ni nf f args regs pc l =
                            argument_prologue hp ni nf g args regs pc l) as Hp; [|apply Hp].
  induction l as [|i l IH]; intros regs pc; simpl; [done|]. case_match.
  - case_match; [|done]. case_match; [apply IH|done].
  - unfold execute_from, step_limit. rewrite (sc_instructions _ _ Hs). by apply execute_loop_same_code.
Qed.

(** ** The missing limit on locals *)

Definition instr (op : TurboJSIROpcode) (d l r imm target : Z) : TurboJSIRInstruction :=
  mkInstruction op d l r imm target 0.

(** A function built with the public builder: 65 locals, a store to local 64. *)
Definition sixty_five_locals : TurboJSIRFunction :=
  let f := (TurboJS_IRFunctionInit 1 0).1 in
  let f := TurboJS_IRFunctionSetLocalCount f 65 in
  let f := (TurboJS_IRAllocateRegister f).1 in
  let f := (TurboJS_IREmit true f (instr TURBOJS_IR_CONSTANT_I64 0 0 0 7 0)).1 in
  let f := (TurboJS_IREmit true f (instr TURBOJS_IR_LOCAL_SET 0 0 0 64 0)).1 in
  (TurboJS_IREmit true f (instr TURBOJS_IR_RETURN_I64 0 0 0 0 0)).1.

(** The verifier does not bound the local count: it accepts a builder-made
    function with 65 locals whose execution writes past the 64-entry local
    array of the interpreter. *)
Theorem verified_locals_overflow hp native_i64 native_f64 :
  TurboJS_IRVerify hp sixty_five_locals = Some ok_diagnostic /\
  TurboJS_IRExecute hp native_i64 native_f64 sixty_five_locals [] = Undef UB_memory.
Proof. split; reflexivity. Qed.

(** ** Resuming after a bailout *)
Section Resume.
Context (hp : Heap) (native_i64 native_f64 : Z -> list Z -> TurboJSIRStatus * Z).
Context (f : TurboJSIRFunction).

Record Config := mkConfig { cf_regs : list Z; cf_locals : list Z; cf_pc : nat }.

(** One step of the interpreter between configurations. *)
Inductive ir_step : Config -> Config -> Prop :=
  | ir_step_intro regs locals pc i regs' locals' pc' :
      f_instructions f !! pc = Some i ->
      execute_step hp native_i64 native_f64 f i regs locals pc = Next regs' locals' pc' ->
      ir_step (mkConfig regs locals pc) (mkConfig regs' locals' pc').

(** The configuration after the argument prologue. *)
Inductive ir_initial (arguments : list Z) : list Z -> nat -> Prop :=
  | initial_zero : ir_initial arguments zero_array 0
  | initial_argument regs pc i v :
      ir_initial arguments regs pc -> f_instructions f !! pc = Some i ->
      in_opcode i = TURBOJS_IR_ARGUMENT -> arguments !! Z.to_nat (in_immediate i) = Some v ->
      ir_initial arguments (<[Z.to_nat (in_destination i) := v]> regs) (S pc).

(** What the interpreter's arrays hold outside the declared counts. *)
Definition clean (regs locals : list Z) : Prop :=
  arrays_ok regs locals /\
  (forall j, f_register_count f <= Z.of_nat j < 64 -> regs !! j = Some 0) /\
  (forall j, f_local_count f <= Z.of_nat j < 64 -> locals !! j = Some 0).

Definition dest_typed (i : TurboJSIRInstruction) : Prop := 0 <= in_destination i.

Context (Hacc : ir_accepted hp f) (Htyped : Forall dest_typed (f_instructions f)).

Lemma clean_write_reg regs locals d v :
  clean regs locals -> 0 <= d -> valid_register f d = true -> clean (<[Z.to_nat d := v]> regs) locals.
Proof.
  intros [[Hr Hl] [Cr Cl]] Hd Hv. unfold valid_register in Hv. b2p.
  split_and!; [split; rewrite ?length_insert; done| |done].
  intros j Hj. rewrite list_lookup_insert_ne by lia. auto.
Qed.

Lemma clean_write_local regs locals l v :
  clean regs locals -> 0 <= l -> l < f_local_count f -> clean regs (<[Z.to_nat l := v]> locals).
Proof.
  intros [[Hr Hl] [Cr Cl]] Hd Hv.
  split_and!; [split; rewrite ?length_insert; done|done|].
  intros j Hj. rewrite list_lookup_insert_ne by lia. auto.
Qed.

Lemma execute_step_clean i regs locals pc regs' locals' pc' :
  operands_ok hp f i -> dest_typed i -> clean regs locals ->
  execute_step hp native_i64 native_f64 f i regs locals pc = Next regs' locals' pc' ->
  clean regs' locals'.
Proof.
  intros [ret Hop] Hd Hc. unfold verify_instruction in Hop. unfold execute_step, call_native, rd, wr, arith.
  destruct (in_opcode i) eqn:Eop; intros Hs;
    repeat match type of Hop with (if ?b then _ else _) = _ => destruct b eqn:?; [discriminate|] end; b2p;
    repeat (case_match; try discriminate);
    simplify_eq; auto using clean_write_reg, clean_write_local.
Qed.

Lemma ir_initial_clean arguments regs pc :
  ir_initial arguments regs pc -> clean regs zero_array.
Proof.
  induction 1 as [|regs pc i v _ IH Hi Hop Hv].
  - split_and!; [done| |]; intros j Hj; apply lookup_replicate_2; unfold TURBOJS_IR_MAX_REGISTERS; lia.
  - pose proof (proj1 (Forall_lookup _ _) Htyped _ _ Hi) as Hd.
    destruct (accepted_operands _ _ _ _ Hacc Hi) as [ret Hok].
    unfold verify_instruction in Hok. rewrite Hop in Hok.
    destruct (negb (valid_register f (in_destination i))) eqn:E; [discriminate|]. b2p.
    by apply clean_write_reg.
Qed.

Lemma ir_steps_clean c c' :
  rtc ir_step c c' -> clean (cf_regs c) (cf_locals c) -> clean (cf_regs c') (cf_locals c').
Proof.
  induction 1 as [|c1 c2 c3 Hs _ IH]; [done|]. intros Hc. apply IH. clear IH.
  destruct Hs as [regs locals pc i regs' locals' pc' Hi He]. simpl in *.
  eapply execute_step_clean; eauto using accepted_operands.
  by apply (proj1 (Forall_lookup _ _) Htyped _ _ Hi).
Qed.

(** A frame that materializes every declared register and local. *)
Definition captures (frame : TurboJSDeoptFrame) (c : Config) : Prop :=
  bo_reason (df_bailout frame) <> TURBOJS_BAILOUT_NONE /\
  bo_instruction_index (df_bailout frame) = Z.of_nat (cf_pc c) /\
  df_register_count frame = f_register_count f /\ df_local_count frame = f_local_count f /\
  (forall j, 0 <= j < f_register_count f -> Z.testbit (df_materialized_register_mask frame) j = true) /\
  (forall j, 0 <= j < f_local_count f -> Z.testbit (df_materialized_local_mask frame) j = true) /\
  (forall j, Z.of_nat j < f_register_count f -> df_register_values frame !! j = cf_regs c !! j) /\
  (forall j, Z.of_nat j < f_local_count f -> df_local_values frame !! j = cf_locals c !! j).

Lemma materialize_all mask count values regs :
  length regs = 64%nat ->
  (forall j, 0 <= j < count -> Z.testbit mask j = true) ->
  (forall j, Z.of_nat j < count -> values !! j = regs !! j) ->
  (forall j, count <= Z.of_nat j < 64 -> regs !! j = Some 0) ->
  materialize mask count values = regs.
Proof.
  intros Hl Hm Hv Hz. apply list_eq. intros j. unfold materialize. rewrite list_lookup_imap.
  destruct (decide (j < 64)%nat).
  - unfold zero_array. rewrite lookup_replicate_2 by (unfold TURBOJS_IR_MAX_REGISTERS; lia). simpl.
    destruct (Z.ltb_spec (Z.of_nat j) count); simpl.
    + rewrite Hm, Hv by lia. destruct (lookup_lt_is_Some_2 regs j ltac:(lia)) as [x ->]. done.
    + symmetry. apply Hz. lia.
  - assert (zero_array !! j = None) as ->.
    { apply lookup_ge_None. unfold zero_array, TURBOJS_IR_MAX_REGISTERS. rewrite length_replicate. lia. }
    symmetry. apply lookup_ge_None. lia.
Qed.
End Resume.

Definition resumable (op : TurboJSIROpcode) : bool :=
  match op with
  | TURBOJS_IR_ADD_I32_CHECKED | TURBOJS_IR_SUB_I32_CHECKED | TURBOJS_IR_MUL_I32_CHECKED
  | TURBOJS_IR_DIV_I32_CHECKED | TURBOJS_IR_REM_I32_CHECKED | TURBOJS_IR_RUNTIME_HELPER
  | TURBOJS_IR_CALL_NATIVE_I64 => true
  | _ => false
  end.

Lemma resume_continues hp native_i64 native_f64 f arguments regs0 pc0 c frame i v :
  ir_accepted hp f -> Forall dest_typed (f_instructions f) ->
  f_local_count f <= TURBOJS_IR_MAX_REGISTERS ->
  ir_initial f arguments regs0 pc0 ->
  rtc (ir_step hp native_i64 native_f64 f) (mkConfig regs0 zero_array pc0) c ->
  f_instructions f !! cf_pc c = Some i -> resumable (in_opcode i) = true ->
  captures f frame c ->
  TurboJS_IRResumeAfterBailout hp native_i64 native_f64 f frame v =
    execute_from hp native_i64 native_f64 f (<[Z.to_nat (in_destination i) := v]> (cf_regs c))
      (cf_locals c) (S (cf_pc c)).
Proof.
  intros Hacc Htyped Hloc Hinit Hsteps Hi Hres (Hreason & Hidx & Hrc & Hlc & Hrm & Hlm & Hrv & Hlv).
  destruct (ir_steps_clean _ _ _ _ Hacc Htyped _ _ Hsteps) as [[Hlr Hll] [Cr Cl]].
  { eapply ir_initial_clean; eauto. }
  unfold TurboJS_IRResumeAfterBailout.
  rewrite decide_False, Hidx, Nat2Z.id, Hi by done.
  rewrite (proj2 (ir_verify_ok_iff hp f) Hacc). simpl.
  rewrite Hrc, Hlc, !Z.eqb_refl. simpl.
  rewrite (proj2 (Z.ltb_ge _ _) Hloc).
  rewrite (materialize_all _ _ _ (cf_regs c)), (materialize_all _ _ _ (cf_locals c)) by done.
  destruct (accepted_operands _ _ _ _ Hacc Hi) as [ret Hok]. unfold verify_instruction in Hok.
  assert (valid_register f (in_destination i) = true) as Hv.
  { destruct (in_opcode i); try discriminate Hres; repeat (case_match; try discriminate); b2p; done. }
  pose proof (valid_register_bound _ _ _ _ Hacc Hlr Hv) as Hb. rewrite Hlr in *.
  rewrite (proj2 (Nat.ltb_lt _ _) Hb). destruct (in_opcode i); done.
Qed.

(** C20 Deoptimization is transparent: when a run of a verified function
    reaches a resumable instruction, resuming from a frame that captured its
    registers and locals there, with a slow-path result [v], is exactly the
    continuation of that run with [v] in the instruction's destination. *)
Theorem resume_after_bailout_continues hp native_i64 native_f64 f arguments regs0 pc0 c frame i v :
  ir_accepted hp f -> Forall dest_typed (f_instructions f) ->
  f_local_count f <= TURBOJS_IR_MAX_REGISTERS ->
  ir_initial f arguments regs0 pc0 ->
  rtc (ir_step hp native_i64 native_f64 f) (mkConfig regs0 zero_array pc0) c ->
  f_instructions f !! cf_pc c = Some i -> resumable (in_opcode i) = true ->
  captures f frame c ->
  TurboJS_IRResumeAfterBailout hp native_i64 native_f64 f frame v =
    execute_from hp native_i64 native_f64 f (<[Z.to_nat (in_destination i) := v]> (cf_regs c))
      (cf_locals c) (S (cf_pc c)).
Proof. apply resume_continues. Qed.

(** ** The step budget *)

(** Every control transfer of the function goes forward. *)
Definition forward_only (f : TurboJSIRFunction) : Prop :=
  forall pc i, f_instructions f !! pc = Some i ->
    match in_opcode i with
    | TURBOJS_IR_JUMP | TURBOJS_IR_BRANCH_TRUE | TURBOJS_IR_BRANCH_FALSE => Z.of_nat pc < in_target i
    | _ => True
    end.

Lemma execute_step_forward hp ni nf f i regs locals pc regs' locals' pc' :
  forward_only f -> f_instructions f !! pc = Some i ->
  execute_step hp ni nf f i regs locals pc = Next regs' locals' pc' -> (pc < pc')%nat.
Proof.
  intros Hf Hi. specialize (Hf _ _ Hi).
  unfold execute_step, call_native, rd, wr, arith.
  destruct (in_opcode i); intros Hs; repeat (case_match; try discriminate); simplify_eq; lia.
Qed.

Lemma execute_step_halt_status hp ni nf f i regs locals pc :
  execute_step hp ni nf f i regs locals pc <> Halt (Stop TURBOJS_IR_EXECUTION_LIMIT).
Proof.
  unfold execute_step, call_native, rd, wr, arith.
  destruct (in_opcode i); repeat (case_match; try discriminate); discriminate.
Qed.

Lemma execute_loop_forward hp ni nf f fuel regs locals pc :
  forward_only f -> (length (f_instructions f) <= fuel + pc)%nat ->
  execute_loop hp ni nf fuel f regs locals pc <> Stop TURBOJS_IR_EXECUTION_LIMIT.
Proof.
  intros Hf. revert regs locals pc. induction fuel as [|fuel IH]; intros regs locals pc Hle; simpl.
  - rewrite (proj2 (lookup_ge_None _ _)) by lia. done.
  - destruct (f_instructions f !! pc) as [i|] eqn:Hi; [|done].
    destruct (execute_step hp ni nf f i regs locals pc) as [regs' locals' pc'|o] eqn:Hs.
    + apply IH. pose proof (execute_step_forward _ _ _ _ _ _ _ _ _ _ _ Hf Hi Hs). lia.
    + intros ->. by apply (execute_step_halt_status _ _ _ _ _ _ _ _ Hs).
Qed.

(** C32 The budget of 1000 steps per instruction never cuts off a function
    without backward transfers: such a function never reports
    EXECUTION_LIMIT. *)
Theorem forward_execution_within_budget hp native_i64 native_f64 f arguments :
  forward_only f ->
  TurboJS_IRExecute hp native_i64 native_f64 f arguments <> Stop TURBOJS_IR_EXECUTION_LIMIT.
Proof.
  intros Hf. unfold TurboJS_IRExecute. case_match; [done|].
  destruct (TurboJS_IRVerify hp f) as [d|] eqn:Hd; [|done]. case_decide.
  - assert (forall regs pc l, argument_prologue hp native_i64 native_f64 f arguments regs pc l
              <> Stop TURBOJS_IR_EXECUTION_LIMIT) as Hp; [|apply Hp].
    intros regs pc l. revert regs pc. induction l as [|i l IH]; intros regs pc; simpl; [done|].
    case_decide; [repeat case_match; auto; done|].
    apply execute_loop_forward; [done|]. unfold step_limit. lia.
  - intros [= E]. revert Hd. unfold TurboJS_IRVerify. repeat case_match; intros [= <-]; simpl in *; try done.
    match goal with H : verify_loop _ _ _ _ _ = Some (inl _) |- _ =>
      eapply verify_loop_fail_not in H; [|by right]; congruence end.
Qed.

(** [Stop] never carries the status OK. *)
Lemma execute_loop_status hp ni nf f : forall fuel regs locals pc,
  execute_loop hp ni nf fuel f regs locals pc <> Stop TURBOJS_IR_OK.
Proof.
  induction fuel as [|fuel IH]; intros regs locals pc; simpl; (destruct (f_instructions f !! pc) as [i|]; [|done]); [done|].
  destruct (execute_step hp ni nf f i regs locals pc) as [regs' locals' pc'|o] eqn:Hs; [apply IH|]. intros ->. revert Hs.
  unfold execute_step, call_native, rd, wr, arith. destruct (in_opcode i); repeat (case_match; try discriminate); discriminate.
Qed.

Lemma execute_status hp native_i64 native_f64 f arguments :
  TurboJS_IRExecute hp native_i64 native_f64 f arguments <> Stop TURBOJS_IR_OK.
Proof.
  unfold TurboJS_IRExecute. case_match; [done|]. destruct (TurboJS_IRVerify hp f) as [d|]; [|done]. case_decide; [|congruence].
  generalize zero_array as regs, O as pc. generalize (f_instructions f) as l. induction l as [|i l IH]; intros regs pc; simpl; [done|].
  case_decide; [repeat case_match; auto; done|]. apply execute_loop_status.
Qed.

(** ** Concrete instances *)

Definition no_native (_ : Z) (_ : list Z) : TurboJSIRStatus * Z := (TURBOJS_IR_UNSUPPORTED, 0).

(** [function (a, b) { return a + b }] with a checked addition. *)
Definition checked_add : TurboJSIRFunction :=
  f_set_instructions (f_set_counts zero_function 3 2 0)
    [instr TURBOJS_IR_ARGUMENT 0 0 0 0 0; instr TURBOJS_IR_ARGUMENT 1 0 0 1 0;
     instr TURBOJS_IR_ADD_I32_CHECKED 2 0 1 0 0; instr TURBOJS_IR_RETURN_I64 0 2 0 0 0] 16.

Example checked_add_runs : TurboJS_IRExecute empty_heap no_native no_native checked_add [20; 22] = Result 42.
Proof. vm_compute. reflexivity. Qed.
Example checked_add_bails :
  TurboJS_IRExecute empty_heap no_native no_native checked_add [INT32_MAX; 1] = Stop TURBOJS_IR_BAILOUT.
Proof. vm_compute. reflexivity. Qed.


Lemma forward_execution_within_budget_witness :
  TurboJS_IRExecute empty_heap no_native no_native checked_add [1; 2] <> Stop TURBOJS_IR_EXECUTION_LIMIT.
Proof.
  apply forward_execution_within_budget. intros pc i Hi.
  do 4 (destruct pc as [|pc]; [simpl in Hi; injection Hi as <-; exact I|]). discriminate Hi.
Defined.

Lemma checked_i32_exact_witness :
  checked_i32 TURBOJS_IR_MUL_I32_CHECKED 65536 65536 = Some (inl tt).
Proof. rewrite checked_i32_exact; [reflexivity|right; right; left; reflexivity|reflexivity|reflexivity]. Defined.

(** The frame a bailout of [checked_add] on [INT32_MAX + 1] leaves. *)
Definition overflow_frame : TurboJSDeoptFrame :=
  mkDeoptFrame (mkBailoutInfo TURBOJS_BAILOUT_INTEGER_OVERFLOW 2 0) 3 0 0 7 0 7 0
    [INT32_MAX; 1; 0] [] [] [].

Lemma overflow_initial :
  ir_initial checked_add [INT32_MAX; 1] (<[1%nat := 1]> (<[0%nat := INT32_MAX]> zero_array)) 2.
Proof.
  eapply (initial_argument checked_add _ _ 1 (instr TURBOJS_IR_ARGUMENT 1 0 0 1 0) 1);
    [eapply (initial_argument checked_add _ _ 0 (instr TURBOJS_IR_ARGUMENT 0 0 0 0 0) INT32_MAX);
     [constructor|..]|..]; reflexivity.
Qed.

Lemma overflow_captures :
  captures checked_add overflow_frame
    (mkConfig (<[1%nat := 1]> (<[0%nat := INT32_MAX]> zero_array)) zero_array 2).
Proof.
  repeat split; try discriminate.
  - intros j Hj. simpl in Hj. assert (j = 0 \/ j = 1 \/ j = 2) as [->|[->| ->]] by lia; reflexivity.
  - intros j Hj. simpl in Hj. lia.
  - intros j Hj. simpl in Hj. assert (j = 0 \/ j = 1 \/ j = 2)%nat as [->|[->| ->]] by lia; reflexivity.
  - intros j Hj. simpl in Hj. lia.
Qed.

Lemma resume_after_bailout_continues_witness :
  TurboJS_IRResumeAfterBailout empty_heap no_native no_native checked_add overflow_frame 2147483648 =
    Result 2147483648.
Proof.
  rewrite (resume_after_bailout_continues empty_heap no_native no_native checked_add [INT32_MAX; 1]
    (<[1%nat := 1]> (<[0%nat := INT32_MAX]> zero_array)) 2
    (mkConfig (<[1%nat := 1]> (<[0%nat := INT32_MAX]> zero_array)) zero_array 2)
    overflow_frame (instr TURBOJS_IR_ADD_I32_CHECKED 2 0 1 0 0) 2147483648).
  - reflexivity.
  - apply ir_verify_ok_iff. reflexivity.
  - repeat constructor; vm_compute; discriminate.
  - vm_compute. discriminate.
  - apply overflow_initial.
  - apply rtc_refl.
  - reflexivity.
  - reflexivity.
  - apply overflow_captures.
Defined.
