(* ===== verification/Aot.v ===== *)
(** * Portable IR images (src/jit/aot/portable_ir.c)

    An image is a byte list.  The C code fills a [calloc]ed buffer through
    pointers and reads the input through pointers; here every store and every
    load is bounds-checked against the buffer and answers [None] outside it,
    so a theorem that a function answers [Some] is a memory-safety theorem. *)

From S2P Require Import Prelude.
From S2P Require Import JitTypes.
From S2P Require Import IR.
From S2P Require Import IRVerify.
From S2P Require Import IRInterp.

(** ** Byte buffers *)

Fixpoint overwrite (buf bs : list Z) {struct bs} : option (list Z) :=
  match bs, buf with
  | [], _ => Some buf
  | b :: bs, _ :: buf => let? r := overwrite buf bs in Some (b :: r)
  | _ :: _, [] => None
  end.

(** [memcpy(buf + off, bs, length bs)] *)
Fixpoint write (buf : list Z) (off : nat) (bs : list Z) {struct off} : option (list Z) :=
  match off, buf with
  | O, _ => overwrite buf bs
  | S off, x :: buf => let? r := write buf off bs in Some (x :: r)
  | S _, [] => None
  end.

(** The [n] bytes at [buf + off]. *)
Definition slice (buf : list Z) (off n : nat) : option (list Z) :=
  if (off + n <=? length buf)%nat then Some (take n (drop off buf)) else None.

Definition put16 (p : list Z) (off : nat) (v : Z) : option (list Z) := write p off (le_bytes 2 v).
Definition put32 (p : list Z) (off : nat) (v : Z) : option (list Z) := write p off (le_bytes 4 v).
Definition put64 (p : list Z) (off : nat) (v : Z) : option (list Z) := write p off (le_bytes 8 v).

(** [v |= p[i] << (8 * i)] *)
Fixpoint or_bytes (bs : list Z) : Z :=
  match bs with
  | [] => 0
  | b :: bs => Z.lor b (Z.shiftl (or_bytes bs) 8)
  end.

Definition get_n (n : nat) (p : list Z) (off : nat) : option Z :=
  let? bs := slice p off n in Some (or_bytes bs).
Definition get16 := get_n 2.
Definition get32 := get_n 4.
Definition get64 := get_n 8.

(** 32-bit FNV-1a *)
Definition checksum_step (h b : Z) : Z := uwrap 32 (Z.lxor h b * 16777619).
Definition checksum (bs : list Z) : Z := foldl checksum_step 2166136261 bs.

(** ** Images *)

Definition HEADER_SIZE : Z := 32.
Definition INSTRUCTION_SIZE : Z := 32.
Definition TURBOJS_AOT_FORMAT_VERSION : Z := 2.

(** ["TJIR"] *)
Definition TJIR_magic : list Z := [84; 74; 73; 82].

Definition fail (st : TurboJSIRStatus) (i : Z) (m : string) : TurboJSIRDiagnostic := mkDiagnostic st i m.

(** The body of the serialization loop: one instruction record at [q]. *)
Definition put_instruction (p : list Z) (q : nat) (i : TurboJSIRInstruction) : option (list Z) :=
  let? p := put16 p q (uwrap 16 (ir_opcode_code (in_opcode i))) in
  let? p := put16 p (q + 2) (in_destination i) in
  let? p := put16 p (q + 4) (in_left i) in
  let? p := put16 p (q + 6) (in_right i) in
  let? p := put64 p (q + 8) (uwrap 64 (in_immediate i)) in
  let? p := put32 p (q + 16) (in_target i) in
  put32 p (q + 20) (in_bytecode_offset i).

(** The loop, [k] being the index of the head of [instrs]. *)
Fixpoint put_instructions (p : list Z) (k : nat) (instrs : list TurboJSIRInstruction) : option (list Z) :=
  match instrs with
  | [] => Some p
  | i :: instrs =>
      let? p := put_instruction p (Z.to_nat HEADER_SIZE + k * Z.to_nat INSTRUCTION_SIZE) i in
      put_instructions p (S k) instrs
  end.

(** [mem] answers the [calloc].  The outer [None] is undefined behaviour (a
    wild call-site address in the verifier, or a store outside the buffer). *)
Definition TurboJS_AOTSerializeIR (hp : Heap) (mem : bool) (f : TurboJSIRFunction)
    : option (TurboJSIRDiagnostic + list Z) :=
  let? d := TurboJS_IRVerify hp f in
  if negb (bool_decide (dg_status d = TURBOJS_IR_OK)) then Some (inl d)
  else if (SIZE_MAX - HEADER_SIZE) / INSTRUCTION_SIZE <? f_instruction_count f
  then Some (inl (fail TURBOJS_IR_OUT_OF_MEMORY 0 "AOT image too large"))
  else if negb mem then Some (inl (fail TURBOJS_IR_OUT_OF_MEMORY 0 "AOT allocation failed"))
  else
    let total := HEADER_SIZE + f_instruction_count f * INSTRUCTION_SIZE in
    let p := replicate (Z.to_nat total) 0 in
    let? p := write p 0 TJIR_magic in
    let? p := put16 p 4 TURBOJS_AOT_FORMAT_VERSION in
    let? p := put16 p 6 HEADER_SIZE in
    let? p := put32 p 8 (uwrap 32 (f_instruction_count f)) in
    let? p := put16 p 12 (f_register_count f) in
    let? p := put16 p 14 (f_argument_count f) in
    let? p := put16 p 16 (f_local_count f) in
    let? p := put16 p 18 INSTRUCTION_SIZE in
    let? p := put_instructions p 0 (f_instructions f) in
    let? p := put32 p 20 (checksum (drop (Z.to_nat HEADER_SIZE) p)) in
    let? p := put64 p 24 total in
    Some (inr p).

Definition get_instruction (data : list Z) (q : nat) : option TurboJSIRInstruction :=
  let? opcode := get16 data q in
  let? destination := get16 data (q + 2) in
  let? l := get16 data (q + 4) in
  let? r := get16 data (q + 6) in
  let? immediate := get64 data (q + 8) in
  let? target := get32 data (q + 16) in
  let? bytecode_offset := get32 data (q + 20) in
  Some (mkInstruction (ir_opcode_of_code opcode) destination l r (swrap 64 immediate)
          target bytecode_offset).

(** The deserialization loop: [mem k] answers the growth request of the
    [k]-th emission. *)
Fixpoint get_instructions (mem : nat -> bool) (data : list Z) (out : TurboJSIRFunction) (k n : nat)
    : option (TurboJSIRDiagnostic + TurboJSIRFunction) :=
  match n with
  | O => Some (inr out)
  | S n =>
      let? i := get_instruction data (Z.to_nat HEADER_SIZE + k * Z.to_nat INSTRUCTION_SIZE) in
      match TurboJS_IREmit (mem k) out i with
      | (out, TURBOJS_IR_OK) => get_instructions mem data out (S k) n
      | (_, st) => Some (inl (fail st (Z.of_nat k) "AOT instruction allocation failed"))
      end
  end.

(** [next] is the instance-id counter read by [TurboJS_IRFunctionInit]. *)
Definition TurboJS_AOTDeserializeIR (hp : Heap) (mem : nat -> bool) (next : Z) (data : list Z)
    : option (TurboJSIRDiagnostic + TurboJSIRFunction) :=
  let size := Z.of_nat (length data) in
  let bad st m := Some (inl (fail st 0 m)) in
  if (size <? HEADER_SIZE) || negb (bool_decide (take 4 data = TJIR_magic))
  then bad TURBOJS_IR_INVALID_ARGUMENT "invalid AOT magic"
  else
  let? version := get16 data 4 in
  if negb (version =? TURBOJS_AOT_FORMAT_VERSION)
  then bad TURBOJS_IR_UNSUPPORTED "unsupported AOT version"
  else
  let? hs := get16 data 6 in
  let? count := get32 data 8 in
  let? isz := get16 data 18 in
  let? declared := get64 data 24 in
  if negb (hs =? HEADER_SIZE) || negb (isz =? INSTRUCTION_SIZE) || negb (declared =? size)
  then bad TURBOJS_IR_INVALID_ARGUMENT "invalid AOT layout"
  else if negb (HEADER_SIZE + count * INSTRUCTION_SIZE =? size)
  then bad TURBOJS_IR_INVALID_ARGUMENT "truncated AOT image"
  else
  let? stored := get32 data 20 in
  if negb (stored =? checksum (drop (Z.to_nat HEADER_SIZE) data))
  then bad TURBOJS_IR_INVALID_ARGUMENT "AOT checksum mismatch"
  else
  let? argument_count := get16 data 14 in
  let? register_count := get16 data 12 in
  let? local_count := get16 data 16 in
  let out := (TurboJS_IRFunctionInit next argument_count).1 in
  let out := f_set_counts out register_count (f_argument_count out) local_count in
  if (TURBOJS_IR_MAX_REGISTERS <? f_register_count out) || (TURBOJS_IR_MAX_REGISTERS <? f_local_count out)
  then bad TURBOJS_IR_INVALID_REGISTER "AOT register/local limit exceeded"
  else
  let? r := get_instructions mem data out 0 (Z.to_nat count) in
  match r with
  | inl d => Some (inl d)
  | inr out =>
      let? d := TurboJS_IRVerify hp out in
      if bool_decide (dg_status d = TURBOJS_IR_OK) then Some (inr out) else Some (inl d)
  end.

(** ** Buffer lemmas *)

Lemma overwrite_app a b bs a' : overwrite a bs = Some a' -> overwrite (a ++ b) bs = Some (a' ++ b).
Proof.
  revert a a'. induction bs as [|x bs IH]; intros a a'; simpl; [by intros [= ->]|].
  destruct a as [|y a]; [done|]. simpl.
  destruct (overwrite a bs) as [r|] eqn:E; [|done]. intros [= <-]. apply IH in E. by rewrite E.
Qed.

Lemma overwrite_all old bs rest :
  length old = length bs -> overwrite (old ++ rest) bs = Some (bs ++ rest).
Proof.
  revert old. induction bs as [|b bs IH]; intros [|o old]; simpl; try done.
  intros [= H]. by rewrite IH.
Qed.

Lemma write_app_r pre b off bs :
  write (pre ++ b) (length pre + off) bs = (let? r := write b off bs in Some (pre ++ r)).
Proof.
  induction pre as [|x pre IH]; simpl; [by case_match|]. rewrite IH. by case_match.
Qed.

Lemma write_at pre old rest off bs :
  off = length pre -> length old = length bs ->
  write (pre ++ old ++ rest) off bs = Some (pre ++ bs ++ rest).
Proof.
  intros -> Hl. rewrite <-(Nat.add_0_r (length pre)), write_app_r. simpl.
  by rewrite overwrite_all.
Qed.

Lemma slice_app pre b off n : slice (pre ++ b) (length pre + off) n = slice b off n.
Proof.
  unfold slice. rewrite length_app, drop_app_add.
  destruct (Nat.leb_spec (off + n) (length b)), (Nat.leb_spec (length pre + off + n) (length pre + length b));
    lia || done.
Qed.

Lemma slice_at pre bs rest off n :
  off = length pre -> n = length bs -> slice (pre ++ bs ++ rest) off n = Some bs.
Proof.
  intros -> ->. rewrite <-(Nat.add_0_r (length pre)), slice_app. unfold slice.
  rewrite (proj2 (Nat.leb_le _ _)) by (rewrite length_app; lia). by rewrite drop_0, take_app_length.
Qed.

Lemma slice_Some buf off n : (off + n <= length buf)%nat -> is_Some (slice buf off n).
Proof. intros H. unfold slice. rewrite (proj2 (Nat.leb_le _ _) H). done. Qed.

Lemma or_bytes_value bs : Forall is_byte bs -> or_bytes bs = le_value bs.
Proof.
  induction 1 as [|b bs Hb _ IH]; simpl; [done|]. rewrite IH.
  rewrite Z.shiftl_mul_pow2 by lia.
  assert (Z.land b (le_value bs * 2 ^ 8) = 0) as Hland.
  { apply Z.bits_inj'. intros k Hk. rewrite Z.land_spec, Z.bits_0.
    destruct (Z.lt_ge_cases k 8).
    - rewrite Z.mul_pow2_bits_low by lia. apply andb_false_r.
    - unfold is_byte in Hb. destruct (Z.eq_dec b 0) as [->|]; [by rewrite Z.bits_0|].
      rewrite (Z.bits_above_log2 b k), andb_false_l; [done|lia|].
      apply Z.log2_lt_pow2; [lia|]. apply Z.lt_le_trans with (2 ^ 8); [lia|].
      apply Z.pow_le_mono_r; lia. }
  rewrite <-Z.add_nocarry_lor by exact Hland. change (2 ^ 8) with 256. lia.
Qed.

(** Reading back a stored field. *)
Lemma get_n_at n pre v rest off :
  off = length pre -> 0 <= v < 256 ^ Z.of_nat n ->
  get_n n (pre ++ le_bytes n v ++ rest) off = Some v.
Proof.
  intros -> Hv. unfold get_n. rewrite slice_at by (rewrite ?length_le_bytes; done).
  rewrite or_bytes_value, le_value_bytes, Z.mod_small by auto using le_bytes_are_bytes. done.
Qed.

Lemma get_n_Some n buf off : (off + n <= length buf)%nat -> is_Some (get_n n buf off).
Proof. intros H. unfold get_n. destruct (slice_Some buf off n H) as [bs ->]. done. Qed.

(** ** The image of a function *)

Definition encode_instruction (i : TurboJSIRInstruction) : list Z :=
  le_bytes 2 (uwrap 16 (ir_opcode_code (in_opcode i))) ++ le_bytes 2 (in_destination i) ++
  le_bytes 2 (in_left i) ++ le_bytes 2 (in_right i) ++ le_bytes 8 (uwrap 64 (in_immediate i)) ++
  le_bytes 4 (in_target i) ++ le_bytes 4 (in_bytecode_offset i) ++ replicate 8 0.

Definition encode_instructions (l : list TurboJSIRInstruction) : list Z := concat (map encode_instruction l).

Definition encode_header (f : TurboJSIRFunction) (cks total : Z) : list Z :=
  TJIR_magic ++ le_bytes 2 TURBOJS_AOT_FORMAT_VERSION ++ le_bytes 2 HEADER_SIZE ++
  le_bytes 4 (uwrap 32 (f_instruction_count f)) ++ le_bytes 2 (f_register_count f) ++
  le_bytes 2 (f_argument_count f) ++ le_bytes 2 (f_local_count f) ++ le_bytes 2 INSTRUCTION_SIZE ++
  le_bytes 4 cks ++ le_bytes 8 total.

Definition ir_image (f : TurboJSIRFunction) : list Z :=
  let body := encode_instructions (f_instructions f) in
  encode_header f (checksum body) (HEADER_SIZE + f_instruction_count f * INSTRUCTION_SIZE) ++ body.

Lemma length_encode_header f c t : length (encode_header f c t) = 32%nat.
Proof. reflexivity. Qed.
Lemma length_encode_instruction i : length (encode_instruction i) = 32%nat.
Proof. reflexivity. Qed.
Lemma length_encode_instructions l : length (encode_instructions l) = (length l * 32)%nat.
Proof.
  unfold encode_instructions. induction l as [|i l IH]; cbn [map concat length Nat.mul]; [done|].
  rewrite length_app, IH, length_encode_instruction. lia.
Qed.
#[export] Hint Rewrite length_encode_header length_encode_instruction length_encode_instructions : jit.

Lemma put_instruction_zeros pre rest i :
  put_instruction (pre ++ replicate 32 0 ++ rest) (length pre) i =
    Some (pre ++ encode_instruction i ++ rest).
Proof.
  unfold put_instruction, put16, put32, put64. rewrite <-(Nat.add_0_r (length pre)) at 1.
  cbn [replicate app]. rewrite write_app_r. cbn [write overwrite le_bytes].
  do 6 (rewrite write_app_r; cbn [write overwrite le_bytes]). reflexivity.
Qed.

Lemma put_instructions_zeros hdr k done instrs :
  length hdr = 32%nat -> length done = k ->
  put_instructions (hdr ++ encode_instructions done ++ replicate (length instrs * 32) 0) k instrs =
    Some (hdr ++ encode_instructions (done ++ instrs)).
Proof.
  intros Hh. revert k done. induction instrs as [|i instrs IH]; intros k done Hk; cbn [put_instructions length].
  - by rewrite !app_nil_r.
  - cbn [Nat.mul]. rewrite replicate_add, !app_assoc.
    replace (Z.to_nat HEADER_SIZE + k * Z.to_nat INSTRUCTION_SIZE)%nat
      with (length (hdr ++ encode_instructions done))
      by (rewrite length_app, Hh, length_encode_instructions, Hk; change (Z.to_nat INSTRUCTION_SIZE) with 32%nat;
          change (Z.to_nat HEADER_SIZE) with 32%nat; lia).
    rewrite <-(app_assoc _ (replicate 32 0)), put_instruction_zeros. rewrite <-!app_assoc.
    replace (encode_instructions done ++ encode_instruction i ++ replicate (length instrs * 32) 0)
      with (encode_instructions (done ++ [i]) ++ replicate (length instrs * 32) 0)
      by (unfold encode_instructions; rewrite map_app, concat_app; cbn [map concat]; by rewrite app_nil_r, <-app_assoc).
    rewrite IH by (rewrite length_app; simpl; lia). by rewrite <-app_assoc.
Qed.

Definition image_fits (f : TurboJSIRFunction) : Prop :=
  f_instruction_count f <= (SIZE_MAX - HEADER_SIZE) / INSTRUCTION_SIZE.

Lemma serialize_image hp f :
  ir_accepted hp f -> image_fits f ->
  TurboJS_AOTSerializeIR hp true f = Some (inr (ir_image f)).
Proof.
  intros Hacc Hfit. unfold TurboJS_AOTSerializeIR.
  rewrite (proj2 (ir_verify_ok_iff hp f) Hacc). cbn [dg_status ok_diagnostic].
  rewrite bool_decide_eq_true_2 by done. cbn [negb].
  rewrite (proj2 (Z.ltb_ge _ _) Hfit).
  replace (Z.to_nat (HEADER_SIZE + f_instruction_count f * INSTRUCTION_SIZE))
    with (32 + length (f_instructions f) * 32)%nat
    by (unfold HEADER_SIZE, INSTRUCTION_SIZE, f_instruction_count; lia).
  rewrite replicate_add. unfold put16, put32, put64.
  cbn [replicate app write overwrite le_bytes TJIR_magic].
  match goal with |- context [put_instructions ?p 0 _] =>
    replace p with ((take 32 p) ++ encode_instructions [] ++ replicate (length (f_instructions f) * 32) 0)
      by reflexivity end.
  rewrite put_instructions_zeros by reflexivity. reflexivity.
Qed.

(** ** Reading an image back *)

(** The C types of the fields of an instruction. *)
Record instruction_typed (i : TurboJSIRInstruction) : Prop := {
  it_opcode : forall c, in_opcode i <> TURBOJS_IR_UNNAMED c;
  it_destination : is_u 16 (in_destination i);
  it_left : is_u 16 (in_left i);
  it_right : is_u 16 (in_right i);
  it_immediate : in_i64 (in_immediate i) = true;
  it_target : is_u 32 (in_target i);
  it_offset : is_u 32 (in_bytecode_offset i)
}.

Lemma get_n_app n pre b off : get_n n (pre ++ b) (length pre + off) = get_n n b off.
Proof. unfold get_n. by rewrite slice_app. Qed.

(** Read the field [v] of [n] bytes at the literal offset [off] of [b]. *)
Ltac read_field b off n v :=
  let H := fresh in
  assert (H : get_n n b off = Some v);
    [ change b with (take off b ++ le_bytes n v ++ drop (off + n) b); apply get_n_at; [reflexivity|]
    | rewrite H; clear H ].

Lemma get_encoded_instruction pre rest i :
  instruction_typed i ->
  get_instruction (pre ++ encode_instruction i ++ rest) (length pre) = Some i.
Proof.
  intros [Hop Hd Hl Hr Hi Ht Ho]. unfold get_instruction, get16, get32, get64.
  rewrite <-(Nat.add_0_r (length pre)) at 1. rewrite !get_n_app. set (b := encode_instruction i ++ rest).
  pose proof (ir_opcode_code_range _ Hop). unfold is_u in *.
  read_field b 0%nat 2%nat (uwrap 16 (ir_opcode_code (in_opcode i))); [apply (uwrap_is_u 16); lia|].
  read_field b 2%nat 2%nat (in_destination i); [done|].
  read_field b 4%nat 2%nat (in_left i); [done|].
  read_field b 6%nat 2%nat (in_right i); [done|].
  read_field b 8%nat 8%nat (uwrap 64 (in_immediate i)); [apply (uwrap_is_u 64); lia|].
  read_field b 16%nat 4%nat (in_target i); [done|].
  read_field b 20%nat 4%nat (in_bytecode_offset i); [done|].
  rewrite swrap_uwrap_i64, uwrap_small, ir_opcode_of_code_code by (done || unfold is_u; lia).
  by destruct i.
Qed.

Lemma get_encoded_instructions hdr out k done instrs :
  length hdr = 32%nat -> length done = k -> Forall instruction_typed instrs ->
  exists out', get_instructions (fun _ => true) (hdr ++ encode_instructions (done ++ instrs)) out k
                 (length instrs) = Some (inr out') /\
    f_instructions out' = f_instructions out ++ instrs /\
    f_register_count out' = f_register_count out /\ f_argument_count out' = f_argument_count out /\
    f_local_count out' = f_local_count out.
Proof.
  intros Hh Hk Ht. revert out k done Hk. induction Ht as [|i instrs Hi _ IH]; intros out k done Hk;
    cbn [get_instructions length].
  - exists out. by rewrite app_nil_r.
  - replace (get_instruction _ _) with (Some i).
    2:{ unfold encode_instructions. rewrite map_app, concat_app. cbn [map concat]. rewrite app_assoc.
        symmetry. rewrite <-(get_encoded_instruction (hdr ++ encode_instructions done)
          (encode_instructions instrs) i Hi).
        f_equal. rewrite length_app, Hh, length_encode_instructions, Hk. reflexivity. }
    unfold TurboJS_IREmit. rewrite andb_false_r.
    replace (done ++ i :: instrs) with ((done ++ [i]) ++ instrs) by (by rewrite <-app_assoc).
    match goal with |- context [get_instructions _ _ ?o _ _] =>
      destruct (IH o (S k) (done ++ [i])) as (out' & -> & Hi' & Hr & Ha & Hl) end.
    { rewrite length_app. simpl. lia. }
    exists out'. rewrite Hi', Hr, Ha, Hl. simpl. by rewrite <-app_assoc.
Qed.

(** What fits the 16- and 32-bit header fields. *)
Record function_typed (f : TurboJSIRFunction) : Prop := {
  ft_instructions : Forall instruction_typed (f_instructions f);
  ft_count : f_instruction_count f < 2 ^ 32;
  ft_registers : is_u 16 (f_register_count f);
  ft_arguments : is_u 16 (f_argument_count f);
  ft_locals : 0 <= f_local_count f <= TURBOJS_IR_MAX_REGISTERS
}.

Lemma function_typed_fits f : function_typed f -> image_fits f.
Proof.
  intros [_ H _ _ _]. unfold image_fits, SIZE_MAX, UINT64_MAX, HEADER_SIZE, INSTRUCTION_SIZE.
  change ((18446744073709551615 - 32) / 32) with 576460752303423486. lia.
Qed.

Lemma checksum_range bs : is_u 32 (checksum bs).
Proof.
  unfold checksum. destruct bs as [|b bs] using rev_ind; [by vm_compute|].
  rewrite foldl_snoc. apply uwrap_is_u. lia.
Qed.

Lemma deserialize_image hp next f :
  ir_accepted hp f -> function_typed f ->
  exists g, TurboJS_AOTDeserializeIR hp (fun _ => true) next (ir_image f) = Some (inr g) /\ same_code f g.
Proof.
  intros Hacc [Hti Hn Hr Ha Hl]. unfold TurboJS_AOTDeserializeIR, get16, get32, get64.
  assert (Hlen : Z.of_nat (length (ir_image f)) = HEADER_SIZE + f_instruction_count f * INSTRUCTION_SIZE).
  { unfold ir_image. rewrite length_app, length_encode_header, length_encode_instructions.
    unfold HEADER_SIZE, INSTRUCTION_SIZE, f_instruction_count. lia. }
  rewrite Hlen. unfold ir_image.
  set (body := encode_instructions (f_instructions f)).
  set (total := HEADER_SIZE + f_instruction_count f * INSTRUCTION_SIZE) in *.
  assert (Htot : 32 <= total < 2 ^ 64).
  { subst total. unfold HEADER_SIZE, INSTRUCTION_SIZE, f_instruction_count in *. lia. }
  set (b := encode_header f (checksum body) total ++ body).
  rewrite (proj2 (Z.ltb_ge _ _)) by (unfold HEADER_SIZE; lia).
  rewrite (bool_decide_eq_true_2 (take 4 b = TJIR_magic)) by reflexivity.
  pose proof (checksum_range body). unfold is_u in *.
  assert (0 <= f_instruction_count f < 2 ^ 32) by (unfold f_instruction_count in *; lia).
  read_field b 4%nat 2%nat TURBOJS_AOT_FORMAT_VERSION; [by vm_compute|].
  read_field b 6%nat 2%nat HEADER_SIZE; [by vm_compute|].
  read_field b 8%nat 4%nat (uwrap 32 (f_instruction_count f)); [apply (uwrap_is_u 32); lia|].
  read_field b 18%nat 2%nat INSTRUCTION_SIZE; [by vm_compute|].
  read_field b 24%nat 8%nat total; [change (256 ^ Z.of_nat 8) with (2 ^ 64); lia|].
  rewrite (uwrap_small 32) by (unfold is_u; lia).
  rewrite !Z.eqb_refl. cbn [negb orb].
  change (drop (Z.to_nat HEADER_SIZE) b) with body.
  read_field b 20%nat 4%nat (checksum body); [done|].
  read_field b 14%nat 2%nat (f_argument_count f); [done|].
  read_field b 12%nat 2%nat (f_register_count f); [done|].
  read_field b 16%nat 2%nat (f_local_count f); [unfold TURBOJS_IR_MAX_REGISTERS in *; change (256 ^ Z.of_nat 2) with 65536; lia|].
  rewrite Z.eqb_refl. cbn [negb f_register_count f_local_count f_set_counts].
  rewrite (proj2 (Z.ltb_ge _ (f_register_count f))) by (destruct Hacc; done).
  rewrite (proj2 (Z.ltb_ge _ (f_local_count f))) by lia. cbn [orb].
  unfold f_instruction_count. rewrite Nat2Z.id.
  match goal with |- context [get_instructions _ b ?o _ _] =>
    destruct (get_encoded_instructions (encode_header f (checksum body) total) o 0 [] (f_instructions f))
      as (out & Hout & Hi' & Hr' & Ha' & Hl'); [done|done|done|] end.
  change (encode_header f (checksum body) total ++ encode_instructions ([] ++ f_instructions f)) with b in Hout.
  rewrite Hout.
  assert (same_code f out) as Hsc by (by split).
  rewrite <-(verify_proper hp f out Hsc), (proj2 (ir_verify_ok_iff hp f) Hacc).
  exists out. by rewrite bool_decide_eq_true_2.
Qed.


(** ** Loading arbitrary bytes *)

Lemma emit_ok_counts mem f i f' :
  TurboJS_IREmit mem f i = (f', TURBOJS_IR_OK) ->
  f_instructions f' = f_instructions f ++ [i] /\ f_register_count f' = f_register_count f /\
  f_argument_count f' = f_argument_count f /\ f_local_count f' = f_local_count f.
Proof. unfold TurboJS_IREmit. case_match; intros [= <-]. done. Qed.

Lemma get_instruction_in_bounds data q :
  (q + 32 <= length data)%nat -> is_Some (get_instruction data q).
Proof.
  intros H. unfold get_instruction, get16, get32, get64.
  repeat match goal with |- context [get_n ?n data ?o] =>
    destruct (get_n_Some n data o) as [? ->]; [lia|] end. done.
Qed.

(** The loop stays inside the image and appends what it decodes. *)
Lemma get_instructions_in_bounds mem data out k n :
  (32 + (k + n) * 32 <= length data)%nat ->
  exists r, get_instructions mem data out k n = Some r /\
    forall out', r = inr out' ->
      f_register_count out' = f_register_count out /\ f_local_count out' = f_local_count out /\
      exists l, f_instructions out' = f_instructions out ++ l /\
        forall i, i ∈ l -> exists q, get_instruction data q = Some i.
Proof.
  revert out k. induction n as [|n IH]; intros out k Hb; cbn [get_instructions].
  - eexists. split; [done|]. intros ? [= <-]. split_and!; [done|done|].
    exists []. rewrite app_nil_r. split; [done|]. intros i Hi. by apply not_elem_of_nil in Hi.
  - change (Z.to_nat HEADER_SIZE) with 32%nat. change (Z.to_nat INSTRUCTION_SIZE) with 32%nat.
    destruct (get_instruction_in_bounds data (32 + k * 32)) as [i Hi]; [lia|]. rewrite Hi.
    destruct (TurboJS_IREmit (mem k) out i) as [o st] eqn:E.
    destruct st; try (eexists; split; [done|]; intros ? [=]).
    destruct (emit_ok_counts _ _ _ _ E) as (Ei & Er & _ & El).
    destruct (IH o (S k)) as (r & Hr & Hok); [lia|]. exists r. split; [done|].
    intros out' Hout. destruct (Hok _ Hout) as (Hr' & Hl' & l & Hi' & Hdec).
    split_and!; [congruence|congruence|]. exists (i :: l). rewrite Hi', Ei, <-app_assoc. split; [done|].
    intros j [->|Hj]%elem_of_cons; eauto.
Qed.

(** A stored native call whose call-site address leads nowhere. *)
Definition wild_native_call (hp : Heap) (i : TurboJSIRInstruction) : Prop :=
  (in_opcode i = TURBOJS_IR_CALL_NATIVE_I64 \/ in_opcode i = TURBOJS_IR_CALL_NATIVE_F64) /\
  in_immediate i <> 0 /\ hp_site hp (in_immediate i) = None.

Lemma verify_undefined hp f :
  TurboJS_IRVerify hp f = None -> exists i, i ∈ f_instructions f /\ wild_native_call hp i.
Proof.
  unfold TurboJS_IRVerify. case_match; [done|].
  assert (forall l n b, verify_loop hp f n b l = None -> exists i, i ∈ l /\ wild_native_call hp i) as Hl.
  { induction l as [|i l IH]; intros n b; simpl; [done|].
    destruct (verify_instruction hp f i) as [[]|] eqn:E; [done| |].
    - intros (j & Hj & Hw)%IH. exists j. split; [by right|done].
    - intros _. exists i. split; [by left|]. unfold wild_native_call.
      unfold verify_instruction in E. destruct (in_opcode i); repeat case_match; simplify_eq; b2p;
        (split_and!; [auto|congruence|done]). }
  destruct (verify_loop hp f 0 false (f_instructions f)) as [[]|] eqn:E.
  - done.
  - case_match; done.
  - eauto.
Qed.

Ltac read_header :=
  repeat match goal with |- context [get_n ?n ?d ?o] =>
    let v := fresh "v" in let H := fresh "Hget" in
    destruct (get_n_Some n d o) as [v H]; [lia|]; rewrite H end.

(** Go past an early return. *)
Ltac pass_guard := match goal with |- context [if ?b then _ else _] => destruct b eqn:?; [done|] end.

(** Every way out of the loader, for arbitrary input. *)
Lemma deserialize_cases hp mem next data :
  match TurboJS_AOTDeserializeIR hp mem next data with
  | None => exists q i, get_instruction data q = Some i /\ wild_native_call hp i
  | Some (inl _) => True
  | Some (inr g) => TurboJS_IRVerify hp g = Some ok_diagnostic /\
      f_local_count g <= TURBOJS_IR_MAX_REGISTERS
  end.
Proof.
  unfold TurboJS_AOTDeserializeIR, get16, get32, get64.
  pass_guard. assert (32 <= length data)%nat by (b2p; unfold HEADER_SIZE in *; lia).
  read_header. repeat pass_guard. b2p.
  match goal with |- context [get_instructions _ _ ?out _ ?n] =>
    destruct (get_instructions_in_bounds mem data out 0 n) as (r & -> & Hr);
      [unfold HEADER_SIZE, INSTRUCTION_SIZE in *; lia|] end.
  destruct r as [d|g]; [done|]. destruct (Hr _ eq_refl) as (Hregs & Hlocs & l & Hi & Hdec).
  destruct (TurboJS_IRVerify hp g) as [d|] eqn:Hv.
  - case_bool_decide as Hs; [|done]. rewrite Hlocs. split; [|done].
    rewrite Hv. f_equal. by apply (ir_verify_status_ok hp g).
  - destruct (verify_undefined _ _ Hv) as (i & Hin & Hw). rewrite Hi in Hin.
    destruct (Hdec i Hin) as [q Hq]. eauto.
Qed.

(** Loading untrusted bytes: whatever the image holds, the loader reads no
    byte outside it, and a function it delivers passed verification with at
    most 64 locals, so that executing it never leaves the interpreter's
    arrays.  The one escape is a stored native call, whose call-site address
    the verifier follows. *)
Theorem aot_loader_safe hp mem next data native_i64 native_f64 :
  match TurboJS_AOTDeserializeIR hp mem next data with
  | None => exists q i, get_instruction data q = Some i /\ wild_native_call hp i
  | Some (inl _) => True
  | Some (inr g) => forall arguments,
      TurboJS_IRExecute hp native_i64 native_f64 g arguments <> Undef UB_memory
  end.
Proof.
  pose proof (deserialize_cases hp mem next data) as H. repeat case_match; try done.
  destruct H as [Hv Hl]. intros args. apply ir_execute_no_memory_ub; [by rewrite Hv|done].
Qed.

(** A function whose single native call names address 57005. *)
Definition native_call_function : TurboJSIRFunction :=
  f_set_instructions (f_set_counts zero_function 1 0 0)
    [instr TURBOJS_IR_CALL_NATIVE_I64 0 0 0 57005 0; instr TURBOJS_IR_RETURN_I64 0 0 0 0 0] 16.

(** A well-formed image (magic, version, layout and checksum all valid)
    that holds a native call makes the loader dereference the 64-bit address
    stored in the image. *)
Theorem aot_loader_follows_stored_address mem next :
  TurboJS_AOTDeserializeIR empty_heap (fun _ => mem) next (ir_image native_call_function) =
    if mem then None else Some (inl (fail TURBOJS_IR_OUT_OF_MEMORY 0 "AOT instruction allocation failed")).
Proof. destruct mem; vm_compute; reflexivity. Qed.

(** ** Corruption *)

Lemma checksum_step_inj h h' b b' :
  is_u 32 h -> is_u 32 h' -> is_byte b -> is_byte b' ->
  checksum_step h b = checksum_step h' b' -> Z.lxor h b = Z.lxor h' b'.
Proof.
  intros Hh Hh' Hb Hb' E.
  assert (forall x y, 0 <= x < 2 ^ 32 -> is_byte y -> 0 <= Z.lxor x y < 2 ^ 32) as Hx.
  { intros x y Hx Hy. unfold is_byte in Hy.
    assert (0 <= Z.lxor x y) by (apply Z.lxor_nonneg; lia). split; [done|].
    destruct (Z.eq_dec (Z.lxor x y) 0) as [->|]; [lia|]. apply Z.log2_lt_pow2; [lia|].
    eapply Z.le_lt_trans; [apply Z.log2_lxor; lia|].
    apply Z.max_lub_lt.
    - destruct (Z.eq_dec x 0) as [->|]; [simpl; lia|]. apply Z.log2_lt_pow2; lia.
    - destruct (Z.eq_dec y 0) as [->|]; [simpl; lia|]. apply Z.log2_lt_pow2; lia. }
  unfold checksum_step, uwrap in E.
  assert (forall x, 0 <= x < 2 ^ 32 -> x * 16777619 mod 2 ^ 32 * 899433627 mod 2 ^ 32 = x) as Hinv.
  { intros x Hx'. rewrite Zmult_mod_idemp_l. rewrite <-Z.mul_assoc.
    change (16777619 * 899433627) with (1 + 3513497 * 2 ^ 32).
    rewrite Z.mul_add_distr_l, Z.mul_1_r, Z.mul_assoc, Z.mod_add by lia. by apply Z.mod_small. }
  rewrite <-(Hinv (Z.lxor h b)), E, Hinv by auto. done.
Qed.

Lemma checksum_step_range h b : is_u 32 (checksum_step h b).
Proof. apply uwrap_is_u. lia. Qed.

Lemma checksum_fold_inj bs h h' :
  is_u 32 h -> is_u 32 h' -> Forall is_byte bs ->
  foldl checksum_step h bs = foldl checksum_step h' bs -> h = h'.
Proof.
  intros Hh Hh' Hbs. revert h h' Hh Hh'. induction Hbs as [|b bs Hb _ IH]; intros h h' Hh Hh' E; [done|].
  simpl in E. apply IH in E; auto using checksum_step_range.
  apply checksum_step_inj in E; auto.
  rewrite <-(Z.lxor_0_r h), <-(Z.lxor_0_r h'), <-(Z.lxor_nilpotent b), <-!Z.lxor_assoc, E. done.
Qed.

Lemma checksum_single_byte bs i b :
  Forall is_byte bs -> is_byte b -> (i < length bs)%nat -> bs !! i <> Some b ->
  checksum (<[i := b]> bs) <> checksum bs.
Proof.
  intros Hbs Hb Hi Hne E. destruct (lookup_lt_is_Some_2 bs i Hi) as [a Ha].
  rewrite insert_take_drop in E by done.
  rewrite <-(take_drop_middle bs i a Ha) in E at 3. unfold checksum in E.
  rewrite !foldl_app in E. simpl in E.
  set (h := foldl checksum_step 2166136261 (take i bs)) in E.
  assert (is_u 32 h) as Hh by apply (checksum_range (take i bs)).
  apply checksum_fold_inj in E; auto using checksum_step_range, Forall_drop.
  assert (is_byte a) as Hba by (eapply Forall_lookup_1; eauto).
  apply checksum_step_inj in E; auto.
  assert (b = a) as ->; [|done].
  rewrite <-(Z.lxor_0_l b), <-(Z.lxor_0_l a), <-(Z.lxor_nilpotent h), !Z.lxor_assoc, E. done.
Qed.

Lemma get_n_prefix n hdr body off :
  (off + n <= length hdr)%nat -> get_n n (hdr ++ body) off = get_n n hdr off.
Proof.
  intros H. unfold get_n, slice. rewrite length_app.
  rewrite !(proj2 (Nat.leb_le _ _)) by lia.
  rewrite drop_app_le, take_app_le by (rewrite ?length_drop; lia). done.
Qed.

(** C39 Integrity: changing any single byte of the instruction area of a
    loadable image is detected; the loader answers a checksum mismatch. *)
Theorem aot_single_byte_corruption_detected hp mem next hdr body i b g :
  length hdr = 32%nat -> Forall is_byte body -> is_byte b ->
  (i < length body)%nat -> body !! i <> Some b ->
  TurboJS_AOTDeserializeIR hp mem next (hdr ++ body) = Some (inr g) ->
  TurboJS_AOTDeserializeIR hp mem next (hdr ++ <[i := b]> body) =
    Some (inl (fail TURBOJS_IR_INVALID_ARGUMENT 0 "AOT checksum mismatch")).
Proof.
  intros Hh Hbody Hb Hi Hne. unfold TurboJS_AOTDeserializeIR, get16, get32, get64.
  rewrite !get_n_prefix by lia. rewrite !length_app, length_insert, Hh.
  rewrite !take_app_le by lia.
  assert (forall x, drop (Z.to_nat HEADER_SIZE) (hdr ++ x) = x) as Hdrop.
  { intros x. change (Z.to_nat HEADER_SIZE) with 32%nat. rewrite <-Hh. apply drop_app_length. }
  rewrite !Hdrop.
  pass_guard. read_header. do 3 pass_guard.
  destruct (negb (_ =? checksum body)) eqn:E; [done|]. intros _. b2p.
  rewrite (proj2 (Z.eqb_neq _ _)); [done|]. rewrite E. apply not_eq_sym. by apply checksum_single_byte.
Qed.

(** ** Concrete instances *)

Lemma checked_add_typed : function_typed checked_add.
Proof.
  split; [|reflexivity|..]; [|vm_compute; split; (reflexivity || discriminate)..].
  repeat (apply Forall_cons; split; [split; try discriminate; try reflexivity;
    vm_compute; split; (reflexivity || discriminate)|]). by apply Forall_nil.
Qed.


Lemma aot_single_byte_corruption_detected_witness :
  TurboJS_AOTDeserializeIR empty_heap (fun _ => true) 1
    (take 32 (ir_image checked_add) ++ <[2%nat := 1]> (drop 32 (ir_image checked_add))) =
    Some (inl (fail TURBOJS_IR_INVALID_ARGUMENT 0 "AOT checksum mismatch")).
Proof.
  destruct (TurboJS_AOTDeserializeIR empty_heap (fun _ => true) 1
    (take 32 (ir_image checked_add) ++ drop 32 (ir_image checked_add))) as [[d|g]|] eqn:E;
    [vm_compute in E; discriminate E| |vm_compute in E; discriminate E].
  apply (aot_single_byte_corruption_detected empty_heap (fun _ => true) 1
    (take 32 (ir_image checked_add)) (drop 32 (ir_image checked_add)) 2 1 g).
  - reflexivity.
  - vm_compute. repeat (apply Forall_cons; split; [split; congruence|]). by apply Forall_nil.
  - split; [discriminate|reflexivity].
  - vm_compute. lia.
  - vm_compute. discriminate.
  - exact E.
Defined.
