(* ===== verification/AotModule.v ===== *)
(** * Ahead-of-time modules (src/jit/aot/module.c)

    A TJM image is a table of named portable-IR images.  As in [Aot], loads
    and stores are bounds-checked and [None] stands for undefined behaviour.
    A C string is the list of its bytes before the terminating NUL. *)

From S2P Require Import Prelude.
From S2P Require Import JitTypes.
From S2P Require Import IR.
From S2P Require Import IRVerify.
From S2P Require Import IRInterp.
From S2P Require Import Aot.

Definition TJM_HEADER : Z := 32.
Definition TJM_ENTRY : Z := 24.
Definition TJM_DEFAULT_MAX_IMAGE_BYTES : Z := 64 * 1024 * 1024.
Definition TJM_DEFAULT_MAX_NAME_BYTES : Z := 4096.
Definition TJM_DEFAULT_MAX_TOTAL_INSTRUCTIONS : Z := 4 * 1024 * 1024.
Definition TJM_DEFAULT_MAX_INSTRUCTIONS_PER_FUNCTION : Z := 1024 * 1024.
Definition TURBOJS_AOT_MODULE_VERSION : Z := 1.
Definition TURBOJS_AOT_MAX_FUNCTIONS : Z := 1024.

(** ["TJM1"] *)
Definition TJM1_magic : list Z := [84; 74; 77; 49].

(** The two pointers of a module function may be NULL. *)
Record TurboJSAOTModuleFunction := mkModuleFunction {
  mf_name : option (list Z);
  mf_ir : option TurboJSIRFunction
}.

Record TurboJSAOTLoadedFunction := mkLoaded {
  lf_name : list Z;
  lf_ir : TurboJSIRFunction
}.

Definition TurboJSAOTModule := list TurboJSAOTLoadedFunction.

Record TurboJSAOTModuleInfo := mkModuleInfo {
  mi_version : Z;
  mi_function_count : Z;
  mi_image_size : Z;
  mi_checksum : Z
}.

Record TurboJSAOTLoadLimits := mkLimits {
  max_image_bytes : Z;
  max_function_count : Z;
  max_name_bytes : Z;
  max_total_instructions : Z;
  max_instructions_per_function : Z
}.

Definition TurboJS_AOTLoadLimitsDefault : TurboJSAOTLoadLimits :=
  mkLimits TJM_DEFAULT_MAX_IMAGE_BYTES TURBOJS_AOT_MAX_FUNCTIONS TJM_DEFAULT_MAX_NAME_BYTES
    TJM_DEFAULT_MAX_TOTAL_INSTRUCTIONS TJM_DEFAULT_MAX_INSTRUCTIONS_PER_FUNCTION.

Definition bad {A} (st : TurboJSIRStatus) (i : Z) (m : string) : option (TurboJSIRDiagnostic + A) :=
  Some (inl (mkDiagnostic st i m)).

(** ** Serialization *)

(** First loop: serialize each function and accumulate the total size. *)
Fixpoint collect_images (hp : Heap) (mem : nat -> bool) (i : nat) (total : Z)
    (fs : list TurboJSAOTModuleFunction)
    : option (TurboJSIRDiagnostic + (Z * list (list Z * list Z))) :=
  match fs with
  | [] => Some (inr (total, []))
  | f :: fs =>
      match mf_name f, mf_ir f with
      | Some name, Some ir =>
          let nl := Z.of_nat (length name) in
          if (nl =? 0) || (UINT32_MAX <? nl)
          then bad TURBOJS_IR_INVALID_ARGUMENT (Z.of_nat i) "invalid module function name"
          else
          let? r := TurboJS_AOTSerializeIR hp (mem i) ir in
          match r with
          | inl d => Some (inl d)
          | inr image =>
              let size := Z.of_nat (length image) in
              if (SIZE_MAX - size <? nl) || (SIZE_MAX - nl - size <? total)
              then bad TURBOJS_IR_OUT_OF_MEMORY (Z.of_nat i) "module too large"
              else
              let? r := collect_images hp mem (S i) (total + nl + size) fs in
              match r with
              | inl d => Some (inl d)
              | inr (total, images) => Some (inr (total, (name, image) :: images))
              end
          end
      | _, _ => bad TURBOJS_IR_INVALID_ARGUMENT (Z.of_nat i) "module function missing name or IR"
      end
  end.

(** Second loop: fill the table and the payload. *)
Fixpoint put_entries (p : list Z) (i : nat) (off : Z) (images : list (list Z * list Z))
    : option (TurboJSIRDiagnostic + list Z) :=
  match images with
  | [] => Some (inr p)
  | (name, image) :: images =>
      let e := (Z.to_nat TJM_HEADER + i * Z.to_nat TJM_ENTRY)%nat in
      let nl := Z.of_nat (length name) in
      if UINT32_MAX <? off
      then bad TURBOJS_IR_OUT_OF_MEMORY (Z.of_nat i) "module name offset exceeds format limit"
      else
      let? p := put32 p e (uwrap 32 off) in
      let? p := put32 p (e + 4) (uwrap 32 nl) in
      let? p := write p (Z.to_nat off) name in
      let off := off + nl in
      let? p := put64 p (e + 8) off in
      let? p := put64 p (e + 16) (Z.of_nat (length image)) in
      let? p := write p (Z.to_nat off) image in
      put_entries p (S i) (off + Z.of_nat (length image)) images
  end.

(** [mem_images] and [mem_total] answer the two [calloc]s of the function,
    [mem i] the one of the [i]-th image. *)
Definition TurboJS_AOTSerializeModule (hp : Heap) (mem_images mem_total : bool) (mem : nat -> bool)
    (fs : list TurboJSAOTModuleFunction) : option (TurboJSIRDiagnostic + list Z) :=
  let n := Z.of_nat (length fs) in
  if (n =? 0) || (TURBOJS_AOT_MAX_FUNCTIONS <? n)
  then bad TURBOJS_IR_INVALID_ARGUMENT 0 "invalid AOT module arguments"
  else if negb mem_images then bad TURBOJS_IR_OUT_OF_MEMORY 0 "module image allocation failed"
  else if (SIZE_MAX - TJM_HEADER) / TJM_ENTRY <? n
  then bad TURBOJS_IR_OUT_OF_MEMORY 0 "module table too large"
  else
  let? r := collect_images hp mem 0 (TJM_HEADER + n * TJM_ENTRY) fs in
  match r with
  | inl d => Some (inl d)
  | inr (total, images) =>
      if UINT64_MAX <? total then bad TURBOJS_IR_OUT_OF_MEMORY 0 "module exceeds format limit"
      else if negb mem_total then bad TURBOJS_IR_OUT_OF_MEMORY 0 "module allocation failed"
      else
      let p := replicate (Z.to_nat total) 0 in
      let? p := write p 0 TJM1_magic in
      let? p := put16 p 4 TURBOJS_AOT_MODULE_VERSION in
      let? p := put16 p 6 TJM_HEADER in
      let? p := put32 p 8 (uwrap 32 n) in
      let? p := put64 p 16 total in
      let? r := put_entries p 0 (TJM_HEADER + n * TJM_ENTRY) images in
      match r with
      | inl d => Some (inl d)
      | inr p =>
          let? p := put32 p 12 (checksum (drop (Z.to_nat TJM_HEADER) p)) in
          Some (inr p)
      end
  end.

(** ** Loading *)

(** The loop over the function table; [n] entries remain from entry [i]. *)
Fixpoint get_entries (hp : Heap) (mem_name : nat -> bool) (mem_ir : nat -> nat -> bool)
    (next : nat -> Z) (limits : TurboJSAOTLoadLimits) (data : list Z) (i n : nat)
    (total_instructions : Z) (out : TurboJSAOTModule)
    : option (TurboJSIRDiagnostic + TurboJSAOTModule) :=
  match n with
  | O => Some (inr out)
  | S n =>
      let size := Z.of_nat (length data) in
      let invalid := bad TURBOJS_IR_INVALID_ARGUMENT (Z.of_nat i) in
      let e := (Z.to_nat TJM_HEADER + i * Z.to_nat TJM_ENTRY)%nat in
      let? no := get32 data e in
      let? nl := get32 data (e + 4) in
      let? io := get64 data (e + 8) in
      let? isz := get64 data (e + 16) in
      if (nl =? 0) || (max_name_bytes limits <? nl) || (size <? no) || (size - no <? nl)
         || (size <? io) || (size - io <? isz)
      then invalid "invalid TJM function entry"
      else
      let? name := slice data (Z.to_nat no) (Z.to_nat nl) in
      if existsb (Z.eqb 0) name then invalid "embedded NUL in TJM export name"
      else if negb (mem_name i)
      then bad TURBOJS_IR_OUT_OF_MEMORY (Z.of_nat i) "module name allocation failed"
      else if bool_decide (name ∈ map lf_name out) then invalid "duplicate TJM export name"
      else
      let? image := slice data (Z.to_nat io) (Z.to_nat isz) in
      let? r := TurboJS_AOTDeserializeIR hp (mem_ir i) (next i) image in
      match r with
      | inl d => Some (inl d)
      | inr ir =>
          let count := f_instruction_count ir in
          if (max_instructions_per_function limits <? count)
             || (max_total_instructions limits - total_instructions <? count)
          then invalid "TJM instruction budget exceeded"
          else get_entries hp mem_name mem_ir next limits data (S i) n (total_instructions + count)
                 (out ++ [mkLoaded name ir])
      end
  end.

(** [requested] is the NULL-able limits pointer. *)
Definition TurboJS_AOTDeserializeModuleWithLimits (hp : Heap) (mem_functions : bool)
    (mem_name : nat -> bool) (mem_ir : nat -> nat -> bool) (next : nat -> Z)
    (requested : option TurboJSAOTLoadLimits) (data : list Z)
    : option (TurboJSIRDiagnostic + TurboJSAOTModule) :=
  let limits := default TurboJS_AOTLoadLimitsDefault requested in
  let size := Z.of_nat (length data) in
  let invalid := bad TURBOJS_IR_INVALID_ARGUMENT 0 in
  if (max_image_bytes limits =? 0) || (max_function_count limits =? 0) || (max_name_bytes limits =? 0)
     || (max_total_instructions limits =? 0) || (max_instructions_per_function limits =? 0)
  then invalid "invalid AOT load limits"
  else if max_image_bytes limits <? size then invalid "TJM image exceeds configured byte limit"
  else if size <? TJM_HEADER then invalid "invalid TJM header"
  else
  let? version := get16 data 4 in
  let? header := get16 data 6 in
  let? declared := get64 data 16 in
  if negb (bool_decide (take 4 data = TJM1_magic)) || negb (version =? TURBOJS_AOT_MODULE_VERSION)
     || negb (header =? TJM_HEADER) || negb (declared =? size)
  then invalid "invalid TJM header"
  else
  let? n := get32 data 8 in
  if (n =? 0) || (TURBOJS_AOT_MAX_FUNCTIONS <? n) || (max_function_count limits <? n)
     || ((size - TJM_HEADER) / TJM_ENTRY <? n)
  then invalid "invalid TJM function table"
  else
  let? stored := get32 data 12 in
  if negb (stored =? checksum (drop (Z.to_nat TJM_HEADER) data)) then invalid "TJM checksum mismatch"
  else if negb mem_functions
  then bad TURBOJS_IR_OUT_OF_MEMORY 0 "module function allocation failed"
  else get_entries hp mem_name mem_ir next limits data 0 (Z.to_nat n) 0 [].

Definition TurboJS_AOTDeserializeModule (hp : Heap) (mem_functions : bool)
    (mem_name : nat -> bool) (mem_ir : nat -> nat -> bool) (next : nat -> Z) (data : list Z)
    : option (TurboJSIRDiagnostic + TurboJSAOTModule) :=
  TurboJS_AOTDeserializeModuleWithLimits hp mem_functions mem_name mem_ir next
    (Some TurboJS_AOTLoadLimitsDefault) data.

Definition TurboJS_AOTFindFunction (m : TurboJSAOTModule) (name : list Z) : option TurboJSAOTLoadedFunction :=
  match list_find (fun f => lf_name f = name) m with
  | Some (_, f) => Some f
  | None => None
  end.

Definition TurboJS_AOTInspectModule (data : list Z) : option (TurboJSIRDiagnostic + TurboJSAOTModuleInfo) :=
  let size := Z.of_nat (length data) in
  let invalid := bad TURBOJS_IR_INVALID_ARGUMENT 0 in
  if (size <? TJM_HEADER) || negb (bool_decide (take 4 data = TJM1_magic))
  then invalid "invalid TJM module magic"
  else
  let? version := get16 data 4 in
  let? header := get16 data 6 in
  let? declared := get64 data 16 in
  if negb (version =? TURBOJS_AOT_MODULE_VERSION) || negb (header =? TJM_HEADER) || negb (declared =? size)
  then invalid "invalid TJM module header"
  else
  let? function_count := get32 data 8 in
  if (function_count =? 0) || (TURBOJS_AOT_MAX_FUNCTIONS <? function_count)
     || (size <? TJM_HEADER + function_count * TJM_ENTRY)
  then invalid "invalid TJM function table"
  else
  let? stored := get32 data 12 in
  if negb (stored =? checksum (drop (Z.to_nat TJM_HEADER) data)) then invalid "TJM checksum mismatch"
  else Some (inr (mkModuleInfo version function_count size stored)).

(** ** What a loaded module satisfies *)

Definition module_instructions (m : TurboJSAOTModule) : Z :=
  foldr (fun f acc => f_instruction_count (lf_ir f) + acc) 0 m.

Record loaded_ok (hp : Heap) (limits : TurboJSAOTLoadLimits) (f : TurboJSAOTLoadedFunction) : Prop := {
  lo_name_length : 0 < Z.of_nat (length (lf_name f)) <= max_name_bytes limits;
  lo_name_bytes : 0 ∉ lf_name f;
  lo_verified : TurboJS_IRVerify hp (lf_ir f) = Some ok_diagnostic;
  lo_locals : f_local_count (lf_ir f) <= TURBOJS_IR_MAX_REGISTERS;
  lo_budget : f_instruction_count (lf_ir f) <= max_instructions_per_function limits
}.

Record module_ok (hp : Heap) (limits : TurboJSAOTLoadLimits) (m : TurboJSAOTModule) : Prop := {
  mo_functions : Forall (loaded_ok hp limits) m;
  mo_names : NoDup (map lf_name m);
  mo_total : module_instructions m <= max_total_instructions limits
}.

Lemma module_instructions_app m f :
  module_instructions (m ++ [f]) = module_instructions m + f_instruction_count (lf_ir f).
Proof. unfold module_instructions. induction m as [|g m IH]; simpl; lia. Qed.

Lemma module_ok_snoc hp limits m f :
  module_ok hp limits m -> loaded_ok hp limits f -> lf_name f ∉ map lf_name m ->
  module_instructions m + f_instruction_count (lf_ir f) <= max_total_instructions limits ->
  module_ok hp limits (m ++ [f]).
Proof.
  intros [Hf Hn Ht] Hl Hname Htot. split.
  - apply Forall_app. auto.
  - rewrite map_app. apply NoDup_app. split; [done|]. simpl. split; [|apply NoDup_singleton].
    intros x Hx ->%list_elem_of_singleton. done.
  - by rewrite module_instructions_app.
Qed.

Lemma no_nul_spec name : existsb (Z.eqb 0) name = false -> 0 ∉ name.
Proof.
  intros H Hin. apply not_true_iff_false in H. apply H, existsb_exists. exists 0.
  split; [by apply list_elem_of_In|done].
Qed.

Lemma slice_length buf off n bs : slice buf off n = Some bs -> length bs = n.
Proof.
  unfold slice. destruct (Nat.leb_spec (off + n) (length buf)); [|done]. intros [= <-].
  rewrite length_take, length_drop. lia.
Qed.

(** The module reaches an image whose loading is undefined. *)
Definition wild_image (hp : Heap) (data : list Z) : Prop :=
  exists off n image q i, slice data off n = Some image /\
    get_instruction image q = Some i /\ wild_native_call hp i.

Lemma get_entries_ok hp mn mi next limits data i n total out :
  Forall is_byte data -> (32 + (i + n) * 24 <= length data)%nat ->
  module_ok hp limits out -> total = module_instructions out ->
  match get_entries hp mn mi next limits data i n total out with
  | None => wild_image hp data
  | Some (inl _) => True
  | Some (inr m) => module_ok hp limits m /\ length m = (length out + n)%nat
  end.
Proof.
  intros Hbytes. revert i total out. induction n as [|n IH]; intros i total out Hb Hout Ht;
    cbn [get_entries]; [split; [done|lia]|].
  change (Z.to_nat TJM_HEADER) with 32%nat. change (Z.to_nat TJM_ENTRY) with 24%nat.
  unfold get32, get64. read_header.
  assert (forall n' o x, get_n n' data o = Some x -> 0 <= x) as Hpos.
  { intros n' o x. unfold get_n. destruct (slice data o n') as [bs|] eqn:E; [|done]. intros [= <-].
    unfold slice in E. case_match; [|done]. injection E as <-.
    rewrite or_bytes_value by auto using Forall_take, Forall_drop.
    apply le_value_bound. auto using Forall_take, Forall_drop. }
  pose proof (Hpos _ _ _ Hget). pose proof (Hpos _ _ _ Hget0). pose proof (Hpos _ _ _ Hget1).
  pose proof (Hpos _ _ _ Hget2). pass_guard. b2p.
  destruct (slice_Some data (Z.to_nat v) (Z.to_nat v0)) as [name Hname]; [lia|]. rewrite Hname.
  do 2 pass_guard. destruct (bool_decide (name ∈ map lf_name out)) eqn:?; [done|].
  destruct (slice_Some data (Z.to_nat v1) (Z.to_nat v2)) as [image Himage]; [lia|]. rewrite Himage.
  pose proof (deserialize_cases hp (mi i) (next i) image) as Hd.
  destruct (TurboJS_AOTDeserializeIR hp (mi i) (next i) image) as [[d|ir]|]; [done| |].
  2:{ destruct Hd as (q & j & Hq & Hj). do 5 eexists. eauto. }
  destruct Hd as [Hv Hl]. pass_guard. b2p.
  apply slice_length in Hname.
  specialize (IH (S i) (total + f_instruction_count ir) (out ++ [mkLoaded name ir])).
  rewrite length_app in IH. replace (length out + S n)%nat with (length out + 1 + n)%nat by lia.
  apply IH; [lia| |].
  - apply module_ok_snoc; simpl; auto; [|lia]. split; simpl; auto using no_nul_spec. lia.
  - rewrite module_instructions_app. simpl. lia.
Qed.

(** The shape of every load. *)
Lemma load_module_cases hp mf mn mi next requested data :
  Forall is_byte data ->
  let limits := default TurboJS_AOTLoadLimitsDefault requested in
  0 <= max_total_instructions limits ->
  match TurboJS_AOTDeserializeModuleWithLimits hp mf mn mi next requested data with
  | None => wild_image hp data
  | Some (inl _) => True
  | Some (inr m) => module_ok hp limits m /\
      0 < Z.of_nat (length m) <= Z.min TURBOJS_AOT_MAX_FUNCTIONS (max_function_count limits) /\
      Z.of_nat (length data) <= max_image_bytes limits /\
      exists info, TurboJS_AOTInspectModule data = Some (inr info) /\
        mi_function_count info = Z.of_nat (length m)
  end.
Proof.
  intros Hbytes limits Hmax. unfold TurboJS_AOTDeserializeModuleWithLimits. fold limits.
  unfold get16, get32, get64.
  do 3 pass_guard. assert (32 <= length data)%nat by (b2p; unfold TJM_HEADER in *; lia).
  unfold TurboJS_AOTInspectModule, get16, get32, get64. read_header.
  assert (0 <= v2) as Hv2.
  { unfold get_n in Hget2. destruct (slice data 8 4) as [bs|] eqn:E; [|done]. injection Hget2 as <-.
    unfold slice in E. case_match; [|done]. injection E as <-.
    rewrite or_bytes_value by auto using Forall_take, Forall_drop.
    apply le_value_bound. auto using Forall_take, Forall_drop. }
  do 4 pass_guard.
  pose proof (get_entries_ok hp mn mi next limits data 0 (Z.to_nat v2) 0 [] Hbytes) as He.
  assert (Hfit : v2 <= (Z.of_nat (length data) - TJM_HEADER) / TJM_ENTRY) by (b2p; lia).
  unfold TJM_HEADER, TJM_ENTRY in Hfit.
  pose proof (Z.mul_div_le (Z.of_nat (length data) - 32) 24 ltac:(lia)).
  specialize (He ltac:(lia) ltac:(split; [done|constructor|done]) eq_refl).
  destruct (get_entries hp mn mi next limits data 0 (Z.to_nat v2) 0 []) as [[d|m]|]; [done| |done].
  destruct He as [Hm Hlen]. b2p. simpl in Hlen.
  rewrite (proj2 (Z.ltb_ge _ TJM_HEADER)), bool_decide_eq_true_2 by (done || lia). cbn [orb negb].
  rewrite !(proj2 (Z.eqb_eq _ _)) by done. cbn [orb negb].
  rewrite (proj2 (Z.eqb_neq v2 0)), !(proj2 (Z.ltb_ge _ _)) by (unfold TJM_HEADER, TJM_ENTRY; lia).
  split_and!; [done|lia|lia|done|]. eexists. split; [done|]. simpl. lia.
Qed.


(** ** The image of a module *)

Notation Export := (list Z * TurboJSIRFunction)%type.
Definition exported (f : Export) : TurboJSAOTModuleFunction := mkModuleFunction (Some f.1) (Some f.2).
Definition export_image (f : Export) : list Z * list Z := (f.1, ir_image f.2).

Fixpoint encode_table (off : Z) (images : list (list Z * list Z)) : list Z :=
  match images with
  | [] => []
  | (name, image) :: images =>
      let io := off + Z.of_nat (length name) in
      (le_bytes 4 off ++ le_bytes 4 (Z.of_nat (length name)) ++ le_bytes 8 io ++
       le_bytes 8 (Z.of_nat (length image))) ++
      encode_table (io + Z.of_nat (length image)) images
  end.

Definition encode_payload (images : list (list Z * list Z)) : list Z :=
  concat (map (fun p => p.1 ++ p.2) images).

Definition table_end (n : nat) : Z := TJM_HEADER + Z.of_nat n * TJM_ENTRY.

Definition encode_module_header (n total cks : Z) : list Z :=
  TJM1_magic ++ le_bytes 2 TURBOJS_AOT_MODULE_VERSION ++ le_bytes 2 TJM_HEADER ++ le_bytes 4 n ++
  le_bytes 4 cks ++ le_bytes 8 total ++ replicate 8 0.

Definition module_size (images : list (list Z * list Z)) : Z :=
  table_end (length images) + Z.of_nat (length (encode_payload images)).

Definition module_image (images : list (list Z * list Z)) : list Z :=
  let body := encode_table (table_end (length images)) images ++ encode_payload images in
  encode_module_header (Z.of_nat (length images)) (module_size images) (checksum body) ++ body.

Lemma length_encode_table off images : length (encode_table off images) = (length images * 24)%nat.
Proof.
  revert off. induction images as [|[n im] images IH]; intros off; [done|].
  cbn [encode_table length Nat.mul]. rewrite length_app, IH. reflexivity.
Qed.

Lemma encode_payload_cons name image images :
  encode_payload ((name, image) :: images) = name ++ image ++ encode_payload images.
Proof. unfold encode_payload. simpl. by rewrite <-app_assoc. Qed.

(** Store [bs] over [old] in a buffer split around it. *)
Lemma write_split p pre old rest off bs :
  p = pre ++ old ++ rest -> off = length pre -> length old = length bs ->
  write p off bs = Some (pre ++ bs ++ rest).
Proof. intros -> -> ?. by apply write_at. Qed.

Ltac write_over pre old rest :=
  rewrite (write_split _ pre old rest);
  [ | by (rewrite <-?app_assoc) | | ].

Lemma put_entry_splits pre mid rest off (name image : list Z) k :
  0 <= off < 2 ^ 32 -> Z.of_nat (length name) < 2 ^ 32 ->
  off = Z.of_nat (length (pre ++ replicate 24 0 ++ replicate k 0 ++ mid)) ->
  let p := pre ++ replicate 24 0 ++ replicate k 0 ++ mid ++
             (replicate (length name) 0 ++ replicate (length image) 0) ++ rest in
  (let? p := put32 p (length pre) (uwrap 32 off) in
   let? p := put32 p (length pre + 4) (uwrap 32 (Z.of_nat (length name))) in
   let? p := write p (Z.to_nat off) name in
   let? p := put64 p (length pre + 8) (off + Z.of_nat (length name)) in
   let? p := put64 p (length pre + 16) (Z.of_nat (length image)) in
   write p (Z.to_nat (off + Z.of_nat (length name))) image) =
  Some (pre ++ (le_bytes 4 off ++ le_bytes 4 (Z.of_nat (length name)) ++
          le_bytes 8 (off + Z.of_nat (length name)) ++ le_bytes 8 (Z.of_nat (length image))) ++
        replicate k 0 ++ mid ++ (name ++ image) ++ rest).
Proof.
  intros Hoff Hnl Heq p. unfold put32, put64. rewrite !uwrap_small by (unfold is_u; lia).
  assert (Hoff' : Z.to_nat off = (length pre + 24 + k + length mid)%nat).
  { rewrite Heq, !length_app, !length_replicate. lia. }
  clear Heq. subst p. change (replicate 24 0) with (replicate 4 0 ++ replicate 4 0 ++ replicate 8 0 ++ replicate 8 0).
  rewrite <-!app_assoc.
  set (fa := le_bytes 4 off). set (fb := le_bytes 4 _). set (fc := le_bytes 8 _). set (fd := le_bytes 8 _).
  set (z4 := replicate 4 0). set (z8 := replicate 8 0). set (zk := replicate k 0).
  set (zn := replicate (length name) 0). set (zi := replicate (length image) 0).
  write_over pre z4 (z4 ++ z8 ++ z8 ++ zk ++ mid ++ zn ++ zi ++ rest); [|done|done].
  write_over (pre ++ fa) z4 (z8 ++ z8 ++ zk ++ mid ++ zn ++ zi ++ rest); [|by rewrite length_app|done].
  write_over (pre ++ fa ++ fb ++ z8 ++ z8 ++ zk ++ mid) zn (zi ++ rest);
    [|rewrite Hoff', !length_app; unfold zk; rewrite length_replicate; simpl; lia|apply length_replicate].
  write_over (pre ++ fa ++ fb) z8 (z8 ++ zk ++ mid ++ name ++ zi ++ rest);
    [|rewrite !length_app; simpl; lia|done].
  write_over (pre ++ fa ++ fb ++ fc) z8 (zk ++ mid ++ name ++ zi ++ rest);
    [|rewrite !length_app; simpl; lia|done].
  write_over (pre ++ fa ++ fb ++ fc ++ fd ++ zk ++ mid ++ name) zi rest;
    [|rewrite Z2Nat.inj_add, Nat2Z.id, Hoff', !length_app by lia; unfold zk;
       rewrite length_replicate; simpl; lia|apply length_replicate].
  by rewrite <-!app_assoc.
Qed.

Lemma put_entries_zeros pre mid i off images :
  length pre = (32 + i * 24)%nat ->
  off = Z.of_nat (length pre + length images * 24 + length mid)%nat ->
  off + Z.of_nat (length (encode_payload images)) < 2 ^ 32 ->
  put_entries (pre ++ replicate (length images * 24) 0 ++ mid ++
                 replicate (length (encode_payload images)) 0) i off images =
    Some (inr (pre ++ encode_table off images ++ mid ++ encode_payload images)).
Proof.
  revert pre mid i off. induction images as [|[name image] images IH]; intros pre mid i off Hpre Hoff Hfit.
  - simpl. rewrite !app_nil_r. done.
  - rewrite encode_payload_cons in Hfit |- *. rewrite !length_app in Hfit. cbn [put_entries].
    rewrite (proj2 (Z.ltb_ge _ off)) by (unfold UINT32_MAX; lia).
    replace (Z.to_nat TJM_HEADER + i * Z.to_nat TJM_ENTRY)%nat with (length pre) by (by rewrite Hpre).
    cbn [length Nat.mul] in Hoff |- *.
    rewrite !length_app, !replicate_add.
    replace (pre ++ (replicate 24 0 ++ replicate (length images * 24) 0) ++ mid ++
               replicate (length name) 0 ++ replicate (length image) 0 ++
               replicate (length (encode_payload images)) 0)
      with (pre ++ replicate 24 0 ++ replicate (length images * 24) 0 ++ mid ++
             (replicate (length name) 0 ++ replicate (length image) 0) ++
             replicate (length (encode_payload images)) 0) by (by rewrite <-!app_assoc).
    pose proof (put_entry_splits pre mid (replicate (length (encode_payload images)) 0) off name image
      (length images * 24) ltac:(lia) ltac:(lia)
      ltac:(rewrite Hoff, !length_app, !length_replicate; f_equal; lia)) as Hp.
    cbn zeta in Hp. set (e1 := put32 _ (length pre) _) in *.
    destruct e1 as [p1|]; [|done]. destruct (put32 p1 _ _) as [p2|]; [|done].
    destruct (write p2 _ _) as [p3|]; [|done]. destruct (put64 p3 _ _) as [p4|]; [|done].
    destruct (put64 p4 _ _) as [p5|]; [|done]. rewrite Hp. clear Hp.
    set (entry := le_bytes 4 off ++ _).
    replace (pre ++ entry ++ replicate (length images * 24) 0 ++ mid ++ (name ++ image) ++
               replicate (length (encode_payload images)) 0)
      with ((pre ++ entry) ++ replicate (length images * 24) 0 ++ (mid ++ name ++ image) ++
             replicate (length (encode_payload images)) 0) by (by rewrite <-!app_assoc).
    rewrite IH; [| | |lia].
    + f_equal. f_equal. rewrite <-!app_assoc. done.
    + rewrite length_app, Hpre. change (length entry) with 24%nat. lia.
    + rewrite !length_app. change (length entry) with 24%nat. lia.
Qed.

(** ** Modules that can be exported and loaded with the default limits *)

Definition total_instructions (fs : list Export) : Z :=
  foldr (fun f acc => f_instruction_count f.2 + acc) 0 fs.

Record export_ok (hp : Heap) (f : Export) : Prop := {
  eo_name : 0 < Z.of_nat (length f.1) <= TJM_DEFAULT_MAX_NAME_BYTES;
  eo_no_nul : 0 ∉ f.1;
  eo_accepted : ir_accepted hp f.2;
  eo_typed : function_typed f.2;
  eo_budget : f_instruction_count f.2 <= TJM_DEFAULT_MAX_INSTRUCTIONS_PER_FUNCTION
}.

Record exportable (hp : Heap) (fs : list Export) : Prop := {
  ex_count : 0 < Z.of_nat (length fs) <= TURBOJS_AOT_MAX_FUNCTIONS;
  ex_functions : Forall (export_ok hp) fs;
  ex_names : NoDup (map fst fs);
  ex_total : total_instructions fs <= TJM_DEFAULT_MAX_TOTAL_INSTRUCTIONS;
  ex_size : module_size (map export_image fs) <= TJM_DEFAULT_MAX_IMAGE_BYTES
}.

Lemma collect_exported hp i total fs :
  Forall (export_ok hp) fs -> 0 <= total ->
  total + Z.of_nat (length (encode_payload (map export_image fs))) <= TJM_DEFAULT_MAX_IMAGE_BYTES ->
  collect_images hp (fun _ => true) i total (map exported fs) =
    Some (inr (total + Z.of_nat (length (encode_payload (map export_image fs))), map export_image fs)).
Proof.
  intros Hfs. revert i total. induction Hfs as [|[name f] fs Hf _ IH]; intros i total Ht Hsize.
  - simpl. by rewrite Z.add_0_r.
  - destruct Hf as [Hname _ Hacc Htyped _]. cbn [map collect_images exported mf_name mf_ir fst snd] in *.
    change (export_image (name, f)) with (name, ir_image f) in *.
    rewrite encode_payload_cons, !length_app in Hsize |- *.
    unfold TJM_DEFAULT_MAX_IMAGE_BYTES, TJM_DEFAULT_MAX_NAME_BYTES in *.
    rewrite (proj2 (Z.eqb_neq _ 0)) by lia. rewrite (proj2 (Z.ltb_ge UINT32_MAX _)) by (unfold UINT32_MAX; lia).
    cbn [orb]. rewrite serialize_image by auto using function_typed_fits.
    rewrite !(proj2 (Z.ltb_ge _ _)) by (unfold SIZE_MAX, UINT64_MAX; lia). cbn [orb].
    rewrite IH by lia. do 3 f_equal. lia.
Qed.

Lemma serialize_module_image hp fs :
  exportable hp fs ->
  TurboJS_AOTSerializeModule hp true true (fun _ => true) (map exported fs) =
    Some (inr (module_image (map export_image fs))).
Proof.
  intros [Hn Hfs _ _ Hsize]. unfold TurboJS_AOTSerializeModule. rewrite length_map.
  unfold module_size, table_end in Hsize. rewrite length_map in Hsize.
  unfold TURBOJS_AOT_MAX_FUNCTIONS in *.
  rewrite (proj2 (Z.eqb_neq _ 0)), (proj2 (Z.ltb_ge 1024 _)) by lia. cbn [orb negb].
  rewrite (proj2 (Z.ltb_ge _ _)) by (change ((SIZE_MAX - TJM_HEADER) / TJM_ENTRY) with 768614336404564649; lia).
  rewrite collect_exported by (done || unfold TJM_HEADER, TJM_ENTRY; lia).
  set (images := map export_image fs) in *. set (total := TJM_HEADER + _ + _).
  assert (Htot : total = module_size images).
  { unfold total, module_size, table_end, images. by rewrite length_map. }
  unfold TJM_DEFAULT_MAX_IMAGE_BYTES in Hsize.
  rewrite (proj2 (Z.ltb_ge UINT64_MAX _)) by (unfold UINT64_MAX, total; lia). cbn [negb].
  replace (Z.to_nat total) with (32 + (length images * 24 + length (encode_payload images)))%nat
    by (unfold total, TJM_HEADER, TJM_ENTRY, images; rewrite length_map; lia).
  rewrite !replicate_add, (uwrap_small 32) by (unfold is_u; lia). unfold put16, put32, put64.
  cbn [replicate app write overwrite le_bytes TJM1_magic].
  match goal with |- context [put_entries ?p 0 _ _] =>
    replace p with (take 32 p ++ replicate (length images * 24) 0 ++ [] ++
                      replicate (length (encode_payload images)) 0) by reflexivity end.
  replace (Z.of_nat (length fs)) with (Z.of_nat (length images)) in * by (unfold images; by rewrite length_map).
  rewrite put_entries_zeros; [|reflexivity| |].
  - unfold module_image. rewrite <-Htot. reflexivity.
  - rewrite length_take_le by (simpl; lia). simpl. unfold TJM_HEADER, TJM_ENTRY. lia.
  - unfold TJM_HEADER, TJM_ENTRY in *. lia.
Qed.

Definition loads (f : Export) (lf : TurboJSAOTLoadedFunction) : Prop :=
  lf_name lf = f.1 /\ same_code f.2 (lf_ir lf).

Lemma no_nul_check name : 0 ∉ name -> existsb (Z.eqb 0) name = false.
Proof.
  intros H. apply not_true_iff_false. intros (x & Hx & E)%existsb_exists. b2p. subst.
  by apply H, list_elem_of_In.
Qed.

Lemma same_code_count f g : same_code f g -> f_instruction_count g = f_instruction_count f.
Proof. intros []. unfold f_instruction_count. congruence. Qed.

(** The four words of a table entry. *)
Lemma get_entry_fields pre rest off nl io isz :
  0 <= off < 2 ^ 32 -> 0 <= nl < 2 ^ 32 -> 0 <= io < 2 ^ 64 -> 0 <= isz < 2 ^ 64 ->
  let data := pre ++ (le_bytes 4 off ++ le_bytes 4 nl ++ le_bytes 8 io ++ le_bytes 8 isz) ++ rest in
  get32 data (length pre) = Some off /\ get32 data (length pre + 4) = Some nl /\
  get64 data (length pre + 8) = Some io /\ get64 data (length pre + 16) = Some isz.
Proof.
  intros Ho Hn Hi Hs data. unfold get32, get64.
  assert (forall n o, get_n n data (length pre + o) = get_n n ((le_bytes 4 off ++ le_bytes 4 nl ++
    le_bytes 8 io ++ le_bytes 8 isz) ++ rest) o) as Hd by (intros; apply get_n_app).
  rewrite <-(Nat.add_0_r (length pre)) at 1. rewrite !Hd. clear Hd data.
  set (b := (le_bytes 4 off ++ _) ++ rest).
  read_field b 0%nat 4%nat off; [done|]. read_field b 4%nat 4%nat nl; [done|].
  read_field b 8%nat 8%nat io; [done|]. read_field b 16%nat 8%nat isz; [done|]. done.
Qed.

Definition encode_entry (off : Z) (name image : list Z) : list Z :=
  le_bytes 4 off ++ le_bytes 4 (Z.of_nat (length name)) ++
  le_bytes 8 (off + Z.of_nat (length name)) ++ le_bytes 8 (Z.of_nat (length image)).

(** Everything the loader reads of one entry, in a laid-out image. *)
Lemma entry_reads pre tab mid name image tl off data :
  data = pre ++ encode_entry off name image ++ tab ++ mid ++ name ++ image ++ tl ->
  off = Z.of_nat (length (pre ++ encode_entry off name image ++ tab ++ mid)) ->
  Z.of_nat (length data) < 2 ^ 32 ->
  Z.of_nat (length data) = off + Z.of_nat (length name) + Z.of_nat (length image) + Z.of_nat (length tl) /\
  get32 data (length pre) = Some off /\
  get32 data (length pre + 4) = Some (Z.of_nat (length name)) /\
  get64 data (length pre + 8) = Some (off + Z.of_nat (length name)) /\
  get64 data (length pre + 16) = Some (Z.of_nat (length image)) /\
  slice data (Z.to_nat off) (length name) = Some name /\
  slice data (Z.to_nat (off + Z.of_nat (length name))) (length image) = Some image.
Proof.
  intros Hd Hoff Hlen.
  assert (Hsize : Z.of_nat (length data) =
    off + Z.of_nat (length name) + Z.of_nat (length image) + Z.of_nat (length tl)).
  { rewrite Hd, Hoff, !length_app. change (length (encode_entry off name image)) with 24%nat.
    change (length (encode_entry _ name image)) with 24%nat. lia. }
  assert (0 <= off) by (rewrite Hoff; lia). split; [done|].
  destruct (get_entry_fields pre (tab ++ mid ++ name ++ image ++ tl) off (Z.of_nat (length name))
    (off + Z.of_nat (length name)) (Z.of_nat (length image))) as (E1 & E2 & E3 & E4); [lia..|].
  rewrite Hd. split_and!; [exact E1|exact E2|exact E3|exact E4| |].
  - transitivity (slice ((pre ++ encode_entry off name image ++ tab ++ mid) ++ name ++ (image ++ tl))
      (Z.to_nat off) (length name)); [by rewrite <-!app_assoc|].
    apply slice_at; [|done]. rewrite Hoff at 1. by rewrite Nat2Z.id.
  - transitivity (slice ((pre ++ encode_entry off name image ++ tab ++ mid ++ name) ++ image ++ tl)
      (Z.to_nat (off + Z.of_nat (length name))) (length image)); [by rewrite <-!app_assoc|].
    apply slice_at; [|done]. rewrite Hoff at 1. rewrite !length_app. lia.
Qed.

Lemma total_instructions_nonneg fs : 0 <= total_instructions fs.
Proof. unfold total_instructions, f_instruction_count. induction fs; simpl; lia. Qed.

Lemma get_exported_entries hp next data pre mid i off total out fs :
  Forall (export_ok hp) fs -> NoDup (map fst fs) ->
  (forall f, f ∈ fs -> f.1 ∉ map lf_name out) ->
  data = pre ++ encode_table off (map export_image fs) ++ mid ++ encode_payload (map export_image fs) ->
  length pre = (32 + i * 24)%nat ->
  off = Z.of_nat (length pre + length fs * 24 + length mid)%nat ->
  Z.of_nat (length data) < 2 ^ 32 -> 0 <= total ->
  total + total_instructions fs <= TJM_DEFAULT_MAX_TOTAL_INSTRUCTIONS ->
  exists m, get_entries hp (fun _ => true) (fun _ _ => true) next TurboJS_AOTLoadLimitsDefault data i
              (length fs) total out = Some (inr (out ++ m)) /\ Forall2 loads fs m.
Proof.
  intros Hfs. revert pre mid i off total out.
  induction Hfs as [|[name f] fs Hf _ IH]; intros pre mid i off total out Hnd Hfresh Hdata Hpre Hoff Hlen Ht0 Ht.
  { exists []. rewrite app_nil_r. by split. }
  destruct Hf as [Hname Hnul Hacc Htyped Hbud]. cbn [fst snd] in *.
  cbn [map encode_table] in Hdata. change (export_image (name, f)) with (name, ir_image f) in Hdata.
  rewrite encode_payload_cons in Hdata. cbn [encode_table] in Hdata.
  fold (encode_entry off name (ir_image f)) in Hdata. set (tab := encode_table (_ + _ + _) _) in *.
  cbn [length Nat.mul] in Hoff. cbn [total_instructions foldr snd] in Ht. fold (total_instructions fs) in Ht.
  pose proof (total_instructions_nonneg fs).
  rewrite <-!app_assoc in Hdata.
  destruct (entry_reads pre tab mid name (ir_image f) (encode_payload (map export_image fs)) off data Hdata)
    as (Hsize & E1 & E2 & E3 & E4 & E5 & E6); [|done|].
  { rewrite Hoff, !length_app. unfold tab. rewrite length_encode_table, length_map.
    change (length (encode_entry _ name (ir_image f))) with 24%nat. f_equal. lia. }
  cbn [get_entries length].
  replace (Z.to_nat TJM_HEADER + i * Z.to_nat TJM_ENTRY)%nat with (length pre) by (by rewrite Hpre).
  rewrite E1, E2, E3, E4, (proj2 (Z.eqb_neq _ 0)), !(proj2 (Z.ltb_ge _ _))
    by (cbn [max_name_bytes TurboJS_AOTLoadLimitsDefault]; lia). cbn [orb].
  rewrite !Nat2Z.id, E5, no_nul_check by done. cbn [negb].
  rewrite bool_decide_eq_false_2, E6 by (apply (Hfresh (name, f)); by left).
  destruct (deserialize_image hp (next i) f Hacc Htyped) as (g & -> & Hsc).
  rewrite (same_code_count _ _ Hsc).
  cbn [max_instructions_per_function max_total_instructions TurboJS_AOTLoadLimitsDefault].
  rewrite !(proj2 (Z.ltb_ge _ _)) by lia. cbn [orb].
  apply NoDup_cons in Hnd as [Hnin Hnd].
  edestruct (IH (pre ++ encode_entry off name (ir_image f)) (mid ++ name ++ ir_image f) (S i)
    (off + Z.of_nat (length name) + Z.of_nat (length (ir_image f)))
    (total + f_instruction_count f) (out ++ [mkLoaded name g])) as (m & Hm & Hall);
    rewrite ?length_app; change (length (encode_entry off name (ir_image f))) with 24%nat; try done || lia.
  - intros h Hh. rewrite map_app, not_elem_of_app. split; [apply Hfresh; by right|].
    simpl. intros E%list_elem_of_singleton. apply Hnin. rewrite <-E. 
    apply list_elem_of_In. apply (in_map fst fs h). by apply list_elem_of_In.
  - fold tab. rewrite Hdata, <-!app_assoc. done.
  - unfold f_instruction_count. lia.
  - exists (mkLoaded name g :: m). rewrite Hm, <-app_assoc. split; [done|]. by constructor.
Qed.

Lemma deserialize_module_image hp next fs :
  exportable hp fs ->
  exists m, TurboJS_AOTDeserializeModule hp true (fun _ => true) (fun _ _ => true) next
              (module_image (map export_image fs)) = Some (inr m) /\ Forall2 loads fs m.
Proof.
  intros [Hn Hfs Hnd Htot Hsize]. unfold TurboJS_AOTDeserializeModule, TurboJS_AOTDeserializeModuleWithLimits.
  change (default _ (Some _)) with TurboJS_AOTLoadLimitsDefault. unfold get16, get32, get64.
  unfold TURBOJS_AOT_MAX_FUNCTIONS, TJM_DEFAULT_MAX_IMAGE_BYTES in *.
  set (images := map export_image fs) in *.
  assert (Hni : length images = length fs) by apply length_map.
  assert (Hlen : Z.of_nat (length (module_image images)) = module_size images).
  { unfold module_image. rewrite !length_app, length_encode_table.
    change (length (encode_module_header _ _ _)) with 32%nat.
    unfold module_size, table_end, TJM_HEADER, TJM_ENTRY. lia. }
  rewrite Hlen. unfold module_image.
  set (body := encode_table _ _ ++ encode_payload images).
  set (b := encode_module_header _ _ _ ++ body).
  assert (Hsz : 32 + Z.of_nat (length fs) * 24 <= module_size images).
  { unfold module_size, table_end, TJM_HEADER, TJM_ENTRY. lia. }
  cbn [max_image_bytes max_function_count max_name_bytes max_total_instructions
       max_instructions_per_function TurboJS_AOTLoadLimitsDefault].
  change (_ || _) with false at 1. cbn iota.
  rewrite !(proj2 (Z.ltb_ge _ (module_size images))) by (unfold TJM_DEFAULT_MAX_IMAGE_BYTES; lia).
  rewrite (proj2 (Z.ltb_ge _ TJM_HEADER)) by (unfold TJM_HEADER; lia).
  pose proof (checksum_range body). unfold is_u in *.
  read_field b 4%nat 2%nat TURBOJS_AOT_MODULE_VERSION; [by vm_compute|].
  read_field b 6%nat 2%nat TJM_HEADER; [by vm_compute|].
  read_field b 16%nat 8%nat (module_size images); [change (256 ^ Z.of_nat 8) with (2 ^ 64); lia|].
  read_field b 8%nat 4%nat (Z.of_nat (length images)); [change (256 ^ Z.of_nat 4) with (2 ^ 32); lia|].
  read_field b 12%nat 4%nat (checksum body); [done|].
  rewrite (bool_decide_eq_true_2 (take 4 b = TJM1_magic)) by reflexivity.
  rewrite !Z.eqb_refl. cbn [negb orb].
  rewrite (proj2 (Z.eqb_neq _ 0)), !(proj2 (Z.ltb_ge _ _)); [cbn [orb]| |unfold TURBOJS_AOT_MAX_FUNCTIONS; lia..|lia].
  2:{ apply Z.div_le_lower_bound; unfold TJM_HEADER, TJM_ENTRY; lia. }
  rewrite Nat2Z.id, Hni.
  apply (get_exported_entries hp next b (encode_module_header (Z.of_nat (length images)) (module_size images)
    (checksum body)) [] 0 (table_end (length images)) 0 [] fs); try done.
  - intros f _ Hin. by apply not_elem_of_nil in Hin.
  - unfold table_end, TJM_HEADER, TJM_ENTRY. rewrite Hni. change (length (encode_module_header _ _ _)) with 32%nat.
    simpl. lia.
  - change (Z.of_nat (length b)) with (Z.of_nat (length (module_image images))). lia.
Qed.

Lemma find_loaded fs m f :
  Forall2 loads fs m -> NoDup (map fst fs) -> f ∈ fs ->
  exists lf, TurboJS_AOTFindFunction m f.1 = Some lf /\ loads f lf.
Proof.
  unfold TurboJS_AOTFindFunction. induction 1 as [|g lg fs m Hg Hm IH]; intros Hnd Hin.
  - by apply not_elem_of_nil in Hin.
  - apply NoDup_cons in Hnd as [Hnin Hnd]. simpl. destruct Hg as [Hname Hsc].
    apply elem_of_cons in Hin as [->|Hin].
    + rewrite decide_True by done. exists lg. by split.
    + rewrite decide_False.
      * destruct IH as (lf & Hf & Hl); [done|done|].
        destruct (list_find _ m) as [[k x]|]; simplify_eq/=; eauto.
      * rewrite Hname. intros E. apply Hnin. rewrite E. apply list_elem_of_In.
        apply (in_map fst fs f). by apply list_elem_of_In.
Qed.


(** ** Concrete instances *)

(** A module exporting [checked_add] as ["add"] and as ["sum"]. *)
Definition sample_exports : list Export := [([97; 100; 100], checked_add); ([115; 117; 109], checked_add)].

Lemma sample_exportable : exportable empty_heap sample_exports.
Proof.
  assert (ir_accepted empty_heap checked_add) by (apply ir_verify_ok_iff; reflexivity).
  split.
  - vm_compute. split; congruence.
  - assert (forall name, 0 < Z.of_nat (length name) <= 3 -> 0 ∉ name -> export_ok empty_heap (name, checked_add)).
    { intros name Hl Hn. split; try done; [|apply checked_add_typed].
      simpl. unfold TJM_DEFAULT_MAX_NAME_BYTES. lia. }
    apply Forall_cons; split; [|apply Forall_cons; split; [|by apply Forall_nil]];
      (apply H0; [simpl; lia|]); intros Hin%list_elem_of_In; simpl in Hin; intuition lia.
  - apply NoDup_cons. split; [|apply NoDup_singleton]. intros Hin%list_elem_of_In; simpl in Hin. intuition congruence.
  - vm_compute. congruence.
  - vm_compute. congruence.
Qed.


