(* ===== verification/Feedback.v ===== *)
(** * Type and call feedback (src/jit/runtime/type_feedback.c, call_feedback.c)

    The interpreter records what it sees in saturating counters and small
    bit sets; the optimizing tier reads a decision out of them.  The theorems
    relate the recorded state to the history of events that produced it. *)

From S2P Require Import Prelude.
From S2P Require Import JitTypes.

(** ** Type feedback *)

Definition TURBOJS_FEEDBACK_MAX_ARGUMENTS : Z := 16.
Definition TURBOJS_FEEDBACK_NONE : Z := 0.
Definition TURBOJS_FEEDBACK_INT32 : Z := 1.
Definition TURBOJS_FEEDBACK_INT64 : Z := 2.

Record TurboJSFeedbackSlot := mkSlot {
  observed_types : Z;
  observations : Z;
  transitions : Z
}.

Record TurboJSFeedbackVector := mkVector {
  fv_arguments : list TurboJSFeedbackSlot;
  fv_result : TurboJSFeedbackSlot;
  fv_argument_count : Z;
  fv_execution_count : Z;
  fv_bailout_count : Z;
  fv_exception_count : Z
}.

Definition observe (slot : TurboJSFeedbackSlot) (type : Z) : TurboJSFeedbackSlot :=
  if type =? TURBOJS_FEEDBACK_NONE then slot
  else
    let before := observed_types slot in
    let after := Z.lor before type in
    mkSlot after (sat_incr UINT32_MAX (observations slot))
      (if negb (before =? 0) && negb (before =? after) then sat_incr UINT32_MAX (transitions slot)
       else transitions slot).

Definition TurboJS_FeedbackClassifyInteger (value : Z) : Z :=
  if in_i32 value then TURBOJS_FEEDBACK_INT32 else TURBOJS_FEEDBACK_INT64.

Definition empty_slot : TurboJSFeedbackSlot := mkSlot 0 0 0.

Definition TurboJS_FeedbackVectorInit (argument_count : Z) : TurboJSFeedbackVector :=
  mkVector (replicate (Z.to_nat TURBOJS_FEEDBACK_MAX_ARGUMENTS) empty_slot) empty_slot
    (if TURBOJS_FEEDBACK_MAX_ARGUMENTS <? argument_count then TURBOJS_FEEDBACK_MAX_ARGUMENTS else argument_count)
    0 0 0.

(** [observe(&vector->arguments[i], classify(arguments[i]))] *)
Definition observe_argument (arguments : list Z) (i : nat) (slots : list TurboJSFeedbackSlot)
    : list TurboJSFeedbackSlot :=
  match slots !! i, arguments !! i with
  | Some s, Some a => <[i := observe s (TurboJS_FeedbackClassifyInteger a)]> slots
  | _, _ => slots
  end.

(** [arguments] is a NULL-able array with its length. *)
Definition TurboJS_FeedbackObserveCall (v : TurboJSFeedbackVector) (arguments : option (list Z))
    : TurboJSFeedbackVector :=
  let executions := sat_incr UINT32_MAX (fv_execution_count v) in
  let slots :=
    match arguments with
    | None => fv_arguments v
    | Some a =>
        let count := if Z.of_nat (length a) <? fv_argument_count v
                     then Z.of_nat (length a) else fv_argument_count v in
        for_range (Z.to_nat count) (observe_argument a) (fv_arguments v)
    end in
  mkVector slots (fv_result v) (fv_argument_count v) executions (fv_bailout_count v) (fv_exception_count v).

Definition TurboJS_FeedbackObserveResult (v : TurboJSFeedbackVector) (result : Z) : TurboJSFeedbackVector :=
  mkVector (fv_arguments v) (observe (fv_result v) (TurboJS_FeedbackClassifyInteger result))
    (fv_argument_count v) (fv_execution_count v) (fv_bailout_count v) (fv_exception_count v).

Definition TurboJS_FeedbackObserveBailout (v : TurboJSFeedbackVector) : TurboJSFeedbackVector :=
  mkVector (fv_arguments v) (fv_result v) (fv_argument_count v) (fv_execution_count v)
    (sat_incr UINT32_MAX (fv_bailout_count v)) (fv_exception_count v).

Definition TurboJS_FeedbackObserveException (v : TurboJSFeedbackVector) : TurboJSFeedbackVector :=
  mkVector (fv_arguments v) (fv_result v) (fv_argument_count v) (fv_execution_count v)
    (fv_bailout_count v) (sat_incr UINT32_MAX (fv_exception_count v)).

Definition TurboJS_FeedbackSlotIsStable (slot : TurboJSFeedbackSlot) : bool :=
  if observations slot =? 0 then false
  else Z.land (observed_types slot) (uwrap 32 (observed_types slot - 1)) =? 0.

(** ** Optimization decisions *)

Inductive TurboJSOptimizationDecision :=
  | TURBOJS_OPTIMIZATION_ELIGIBLE | TURBOJS_OPTIMIZATION_TOO_COLD
  | TURBOJS_OPTIMIZATION_UNSTABLE_ARGUMENTS | TURBOJS_OPTIMIZATION_UNSTABLE_RESULT
  | TURBOJS_OPTIMIZATION_TOO_MANY_BAILOUTS | TURBOJS_OPTIMIZATION_TOO_MANY_EXCEPTIONS
  | TURBOJS_OPTIMIZATION_ARGUMENT_LIMIT.

#[export] Instance TurboJSOptimizationDecision_eq_dec : EqDecision TurboJSOptimizationDecision.
Proof. solve_decision. Defined.

Record TurboJSOptimizationPolicy := mkPolicy {
  minimum_executions : Z;
  maximum_bailouts : Z;
  maximum_exceptions : Z;
  require_stable_arguments : bool;
  require_stable_result : bool
}.

Record TurboJSOptimizationReport := mkReport {
  rp_decision : TurboJSOptimizationDecision;
  rp_unstable_argument : Z;
  rp_executions : Z;
  rp_bailouts : Z;
  rp_exceptions : Z
}.

Definition TurboJS_OptimizationPolicyDefault : TurboJSOptimizationPolicy := mkPolicy 1000 3 1 true true.

(** The loop over the argument slots: index of the first unstable one. *)
Definition first_unstable (count : nat) (slots : list TurboJSFeedbackSlot) : option nat :=
  match list_find (fun s => TurboJS_FeedbackSlotIsStable s = false) (take count slots) with
  | Some (i, _) => Some i
  | None => None
  end.

(** [vector] and [policy] are pointers that may be NULL. *)
Definition TurboJS_EvaluateOptimization (vector : option TurboJSFeedbackVector)
    (policy : option TurboJSOptimizationPolicy) : TurboJSOptimizationReport :=
  match vector with
  | None => mkReport TURBOJS_OPTIMIZATION_TOO_COLD UINT16_MAX 0 0 0
  | Some v =>
      let p := default TurboJS_OptimizationPolicyDefault policy in
      let '(decision, unstable) :=
        if TURBOJS_FEEDBACK_MAX_ARGUMENTS <? fv_argument_count v
        then (TURBOJS_OPTIMIZATION_ARGUMENT_LIMIT, UINT16_MAX)
        else if fv_execution_count v <? minimum_executions p
        then (TURBOJS_OPTIMIZATION_TOO_COLD, UINT16_MAX)
        else if maximum_bailouts p <? fv_bailout_count v
        then (TURBOJS_OPTIMIZATION_TOO_MANY_BAILOUTS, UINT16_MAX)
        else if maximum_exceptions p <? fv_exception_count v
        then (TURBOJS_OPTIMIZATION_TOO_MANY_EXCEPTIONS, UINT16_MAX)
        else if require_stable_arguments p
        then match first_unstable (Z.to_nat (fv_argument_count v)) (fv_arguments v) with
             | Some i => (TURBOJS_OPTIMIZATION_UNSTABLE_ARGUMENTS, Z.of_nat i)
             | None => (TURBOJS_OPTIMIZATION_ELIGIBLE, UINT16_MAX)
             end
        else (TURBOJS_OPTIMIZATION_ELIGIBLE, UINT16_MAX) in
      let decision :=
        if bool_decide (decision = TURBOJS_OPTIMIZATION_ELIGIBLE) && require_stable_result p
           && negb (TurboJS_FeedbackSlotIsStable (fv_result v))
        then TURBOJS_OPTIMIZATION_UNSTABLE_RESULT else decision in
      mkReport decision unstable (fv_execution_count v) (fv_bailout_count v) (fv_exception_count v)
  end.

Definition TurboJS_OptimizationDecisionName (decision : TurboJSOptimizationDecision) : string :=
  match decision with
  | TURBOJS_OPTIMIZATION_ELIGIBLE => "eligible"
  | TURBOJS_OPTIMIZATION_TOO_COLD => "too-cold"
  | TURBOJS_OPTIMIZATION_UNSTABLE_ARGUMENTS => "unstable-arguments"
  | TURBOJS_OPTIMIZATION_UNSTABLE_RESULT => "unstable-result"
  | TURBOJS_OPTIMIZATION_TOO_MANY_BAILOUTS => "too-many-bailouts"
  | TURBOJS_OPTIMIZATION_TOO_MANY_EXCEPTIONS => "too-many-exceptions"
  | TURBOJS_OPTIMIZATION_ARGUMENT_LIMIT => "argument-limit"
  end.

(** ** Call feedback *)

Definition TURBOJS_CALL_FEEDBACK_MAX_TARGETS : Z := 4.

Inductive TurboJSCallFeedbackState :=
  | TURBOJS_CALL_FEEDBACK_UNINITIALIZED | TURBOJS_CALL_FEEDBACK_MONOMORPHIC
  | TURBOJS_CALL_FEEDBACK_POLYMORPHIC | TURBOJS_CALL_FEEDBACK_MEGAMORPHIC.

#[export] Instance TurboJSCallFeedbackState_eq_dec : EqDecision TurboJSCallFeedbackState.
Proof. solve_decision. Defined.

Record TurboJSCallFeedbackTarget := mkTarget { ct_identity : Z; ct_hits : Z }.

Record TurboJSCallFeedbackSlot := mkCallSlot {
  cf_targets : list TurboJSCallFeedbackTarget;
  cf_observations : Z;
  cf_misses : Z;
  cf_generation : Z;
  cf_state : TurboJSCallFeedbackState;
  cf_target_count : Z
}.

Definition TurboJS_CallFeedbackInit : TurboJSCallFeedbackSlot :=
  mkCallSlot (replicate (Z.to_nat TURBOJS_CALL_FEEDBACK_MAX_TARGETS) (mkTarget 0 0)) 0 0 0
    TURBOJS_CALL_FEEDBACK_UNINITIALIZED 0.

Definition TurboJS_CallFeedbackObserve (s : TurboJSCallFeedbackSlot) (target_identity : Z)
    : TurboJSCallFeedbackSlot :=
  let observations := sat_incr UINT64_MAX (cf_observations s) in
  if target_identity =? 0 then
    mkCallSlot (cf_targets s) observations (sat_incr UINT32_MAX (cf_misses s)) (cf_generation s)
      (cf_state s) (cf_target_count s)
  else
    match list_find (fun t => ct_identity t = target_identity)
            (take (Z.to_nat (cf_target_count s)) (cf_targets s)) with
    | Some (i, t) =>
        mkCallSlot (<[i := mkTarget (ct_identity t) (sat_incr UINT32_MAX (ct_hits t))]> (cf_targets s))
          observations (cf_misses s) (cf_generation s) (cf_state s) (cf_target_count s)
    | None =>
        let misses := sat_incr UINT32_MAX (cf_misses s) in
        if decide (cf_state s = TURBOJS_CALL_FEEDBACK_MEGAMORPHIC) then
          mkCallSlot (cf_targets s) observations misses (cf_generation s) (cf_state s) (cf_target_count s)
        else
          let '(targets, count, state) :=
            if cf_target_count s <? TURBOJS_CALL_FEEDBACK_MAX_TARGETS then
              (<[Z.to_nat (cf_target_count s) := mkTarget target_identity 1]> (cf_targets s),
               cf_target_count s + 1,
               if cf_target_count s + 1 =? 1 then TURBOJS_CALL_FEEDBACK_MONOMORPHIC
               else TURBOJS_CALL_FEEDBACK_POLYMORPHIC)
            else (cf_targets s, cf_target_count s, TURBOJS_CALL_FEEDBACK_MEGAMORPHIC) in
          mkCallSlot targets observations misses
            (if decide (state = cf_state s) then cf_generation s else sat_incr UINT32_MAX (cf_generation s))
            state count
    end.

Definition TurboJS_CallFeedbackGetState (slot : option TurboJSCallFeedbackSlot) : TurboJSCallFeedbackState :=
  match slot with None => TURBOJS_CALL_FEEDBACK_UNINITIALIZED | Some s => cf_state s end.

Definition TurboJS_CallFeedbackStateName (state : TurboJSCallFeedbackState) : string :=
  match state with
  | TURBOJS_CALL_FEEDBACK_UNINITIALIZED => "uninitialized"
  | TURBOJS_CALL_FEEDBACK_MONOMORPHIC => "monomorphic"
  | TURBOJS_CALL_FEEDBACK_POLYMORPHIC => "polymorphic"
  | TURBOJS_CALL_FEEDBACK_MEGAMORPHIC => "megamorphic"
  end.

Definition TurboJS_CallFeedbackMonomorphicTarget (s : TurboJSCallFeedbackSlot) (minimum_hits : Z) : option Z :=
  match cf_targets s !! O with
  | Some t =>
      if bool_decide (cf_state s <> TURBOJS_CALL_FEEDBACK_MONOMORPHIC) || negb (cf_target_count s =? 1)
         || (ct_hits t <? minimum_hits)
      then None else Some (ct_identity t)
  | None => None
  end.

(** ** Histories of type feedback *)

Inductive FeedbackEvent :=
  | EvCall (arguments : option (list Z))
  | EvResult (result : Z)
  | EvBailout
  | EvException.

Definition record_event (v : TurboJSFeedbackVector) (e : FeedbackEvent) : TurboJSFeedbackVector :=
  match e with
  | EvCall a => TurboJS_FeedbackObserveCall v a
  | EvResult r => TurboJS_FeedbackObserveResult v r
  | EvBailout => TurboJS_FeedbackObserveBailout v
  | EvException => TurboJS_FeedbackObserveException v
  end.

Definition record_events (argc : Z) (evs : list FeedbackEvent) : TurboJSFeedbackVector :=
  foldl record_event (TurboJS_FeedbackVectorInit argc) evs.

(** What the history says of argument [i], of the results and of the counters. *)
Definition arguments_at (i : nat) (evs : list FeedbackEvent) : list Z :=
  omap (fun e => match e with EvCall (Some a) => a !! i | _ => None end) evs.
Definition results_of (evs : list FeedbackEvent) : list Z :=
  omap (fun e => match e with EvResult r => Some r | _ => None end) evs.
Definition occurrences (P : FeedbackEvent -> bool) (evs : list FeedbackEvent) : Z :=
  Z.of_nat (length (filter (fun e => P e = true) evs)).
Definition is_call (e : FeedbackEvent) : bool := match e with EvCall _ => true | _ => false end.
Definition is_bailout (e : FeedbackEvent) : bool := match e with EvBailout => true | _ => false end.
Definition is_exception (e : FeedbackEvent) : bool := match e with EvException => true | _ => false end.

(** All values seen, at least one, on the same side of the 32-bit boundary. *)
Definition uniform (l : list Z) : Prop :=
  l <> [] /\ (Forall (fun a => in_i32 a = true) l \/ Forall (fun a => in_i32 a = false) l).

Definition types_of (l : list Z) : Z :=
  Z.lor (if existsb in_i32 l then 1 else 0) (if existsb (fun a => negb (in_i32 a)) l then 2 else 0).

Definition reflects (s : TurboJSFeedbackSlot) (l : list Z) : Prop :=
  observed_types s = types_of l /\ observations s = Z.min (Z.of_nat (length l)) UINT32_MAX.

Lemma sat_incr_min n max : 0 <= n -> sat_incr max (Z.min n max) = Z.min (n + 1) max.
Proof. intros H. unfold sat_incr. destruct (Z.eqb_spec (Z.min n max) max); lia. Qed.

Lemma observe_reflects s l a :
  reflects s l -> reflects (observe s (TurboJS_FeedbackClassifyInteger a)) (l ++ [a]).
Proof.
  intros [Ht Ho]. unfold observe, TurboJS_FeedbackClassifyInteger.
  assert ((if in_i32 a then TURBOJS_FEEDBACK_INT32 else TURBOJS_FEEDBACK_INT64) =? TURBOJS_FEEDBACK_NONE = false)
    as -> by (by destruct (in_i32 a)).
  split; simpl.
  - rewrite Ht. unfold types_of. rewrite !existsb_app. simpl.
    by destruct (existsb in_i32 l), (existsb (fun a => negb (in_i32 a)) l), (in_i32 a).
  - rewrite Ho, length_app, Nat2Z.inj_add. apply sat_incr_min. lia.
Qed.

Lemma existsb_false {A} (P : A -> bool) l : existsb P l = false <-> Forall (fun a => P a = false) l.
Proof. induction l; simpl; [done|]. rewrite orb_false_iff, Forall_cons, IHl. done. Qed.

Lemma reflects_stable s l : reflects s l -> TurboJS_FeedbackSlotIsStable s = true <-> uniform l.
Proof.
  intros [Ht Ho]. unfold TurboJS_FeedbackSlotIsStable, uniform. rewrite Ht, Ho.
  destruct l as [|a l]; [simpl; naive_solver|].
  rewrite (proj2 (Z.eqb_neq _ _)) by (simpl; unfold UINT32_MAX; lia).
  set (l' := a :: l) in *. unfold types_of.
  assert (Forall (fun a => in_i32 a = true) l' <-> existsb (fun a => negb (in_i32 a)) l' = false) as ->.
  { rewrite existsb_false. apply Forall_iff. intros x. by rewrite negb_false_iff. }
  rewrite <-existsb_false.
  destruct (existsb in_i32 l') eqn:E1, (existsb (fun a => negb (in_i32 a)) l') eqn:E2; simpl.
  - split; [by intros ?|]. intros [_ [|]]; done.
  - split; [|done]. intros _. split; [done|auto].
  - split; [|done]. intros _. split; [done|auto].
  - exfalso. revert E1 E2. unfold l'. simpl. by destruct (in_i32 a).
Qed.

Lemma observe_arguments_lookup a n slots j :
  for_range n (observe_argument a) slots !! j =
    match slots !! j, a !! j with
    | Some s, Some x => Some (if (j <? n)%nat then observe s (TurboJS_FeedbackClassifyInteger x) else s)
    | o, _ => o
    end.
Proof.
  apply (for_range_ind (fun n slots' => slots' !! j = match slots !! j, a !! j with
    | Some s, Some x => Some (if (j <? n)%nat then observe s (TurboJS_FeedbackClassifyInteger x) else s)
    | o, _ => o end)).
  - by destruct (slots !! j), (a !! j).
  - intros i slots' Hi IH. unfold observe_argument.
    destruct (decide (i = j)) as [->|Hne].
    + rewrite IH, Nat.ltb_irrefl, (proj2 (Nat.ltb_lt j (S j))) by lia.
      destruct (slots !! j) as [s|], (a !! j); simpl; try done.
      apply list_lookup_insert_eq. apply lookup_lt_is_Some. by rewrite IH.
    + assert (match slots' !! i, a !! i with
        | Some s, Some x => <[i := observe s (TurboJS_FeedbackClassifyInteger x)]> slots'
        | _, _ => slots' end !! j = slots' !! j) as ->.
      { repeat case_match; rewrite ?list_lookup_insert_ne by done; done. }
      rewrite IH. destruct (slots !! j), (a !! j); try done.
      destruct (Nat.ltb_spec j i), (Nat.ltb_spec j (S i)); done || lia.
Qed.

(** The vector agrees with the history. *)
Record agrees (argc : Z) (v : TurboJSFeedbackVector) (evs : list FeedbackEvent) : Prop := {
  ag_count : fv_argument_count v = Z.min argc TURBOJS_FEEDBACK_MAX_ARGUMENTS;
  ag_length : length (fv_arguments v) = 16%nat;
  ag_arguments : forall i s, Z.of_nat i < fv_argument_count v -> fv_arguments v !! i = Some s ->
                 reflects s (arguments_at i evs);
  ag_result : reflects (fv_result v) (results_of evs);
  ag_executions : fv_execution_count v = Z.min (occurrences is_call evs) UINT32_MAX;
  ag_bailouts : fv_bailout_count v = Z.min (occurrences is_bailout evs) UINT32_MAX;
  ag_exceptions : fv_exception_count v = Z.min (occurrences is_exception evs) UINT32_MAX
}.

Lemma occurrences_snoc P evs e :
  occurrences P (evs ++ [e]) = occurrences P evs + (if P e then 1 else 0).
Proof.
  unfold occurrences. rewrite filter_app, length_app, Nat2Z.inj_add. f_equal.
  rewrite filter_cons, filter_nil. destruct (P e) eqn:E.
  - by rewrite decide_True.
  - by rewrite decide_False by congruence.
Qed.

Lemma occurrences_nonneg P evs : 0 <= occurrences P evs.
Proof. unfold occurrences. lia. Qed.
#[local] Hint Resolve occurrences_nonneg : jit.

Lemma record_event_agrees argc v evs e :
  agrees argc v evs -> agrees argc (record_event v e) (evs ++ [e]).
Proof.
  intros [Hc Hl Ha Hr He Hb Hx].
  destruct e as [[a|]|r| |]; split; simpl; unfold arguments_at, results_of in *;
    rewrite ?omap_app, ?occurrences_snoc, ?He, ?Hb, ?Hx, ?app_nil_r; simpl; rewrite ?Z.add_0_r, ?app_nil_r;
    auto using sat_incr_min, occurrences_nonneg, observe_reflects.
  - apply (for_range_ind (fun _ s => length s = 16%nat)); [done|].
    intros i s _ Hs. unfold observe_argument. repeat case_match; by rewrite ?length_insert.
  - intros i s Hi. rewrite omap_app, observe_arguments_lookup. simpl.
    destruct (fv_arguments v !! i) as [s0|] eqn:E; [|by destruct (a !! i)].
    specialize (Ha i s0 Hi E). destruct (a !! i) as [x|] eqn:Ex; intros [= <-]; [|by rewrite app_nil_r].
    apply lookup_lt_Some in Ex.
    rewrite (proj2 (Nat.ltb_lt _ _)) by (case_match; lia).
    by apply observe_reflects.
  - intros i s Hi E. rewrite omap_app. simpl. rewrite app_nil_r. auto.
  - intros i s Hi E. rewrite omap_app. simpl. rewrite app_nil_r. auto.
  - intros i s Hi E. rewrite omap_app. simpl. rewrite app_nil_r. auto.
  - intros i s Hi E. rewrite omap_app. simpl. rewrite app_nil_r. auto.
Qed.

Lemma record_events_agrees argc evs : agrees argc (record_events argc evs) evs.
Proof.
  unfold record_events. induction evs as [|e evs IH] using rev_ind.
  - split; try done; simpl.
    + destruct (Z.ltb_spec TURBOJS_FEEDBACK_MAX_ARGUMENTS argc); lia.
    + intros i s _ Hs. apply (lookup_replicate 16 empty_slot s i) in Hs as [-> _]. done.
  - rewrite foldl_snoc. by apply record_event_agrees.
Qed.

Lemma first_unstable_None n slots :
  first_unstable n slots = None <->
  forall i s, (i < n)%nat -> slots !! i = Some s -> TurboJS_FeedbackSlotIsStable s = true.
Proof.
  unfold first_unstable. split.
  - destruct (list_find _ _) as [[]|] eqn:E; [done|]. intros _ i s Hi Hs.
    apply list_find_None in E. rewrite Forall_lookup in E.
    specialize (E i s). rewrite lookup_take_lt in E by done. specialize (E Hs).
    by destruct (TurboJS_FeedbackSlotIsStable s).
  - intros H. destruct (list_find _ _) as [[i s]|] eqn:E; [|done].
    apply list_find_Some in E as (Hl & Hs & _). apply lookup_take_Some in Hl as [Hl Hi].
    rewrite (H i s) in Hs by done. done.
Qed.

(** C33 What eligibility means: after any history of calls, results, bailouts
    and exceptions, a function is declared ELIGIBLE exactly when the history
    has enough calls, few enough bailouts and exceptions (32-bit saturation
    included), and, where the policy asks, every tracked argument position
    and the results have been seen and stayed on one side of the 32-bit
    integer boundary. *)
Theorem optimization_eligible_iff argc evs p :
  rp_decision (TurboJS_EvaluateOptimization (Some (record_events argc evs)) (Some p)) =
    TURBOJS_OPTIMIZATION_ELIGIBLE <->
  minimum_executions p <= Z.min (occurrences is_call evs) UINT32_MAX /\
  Z.min (occurrences is_bailout evs) UINT32_MAX <= maximum_bailouts p /\
  Z.min (occurrences is_exception evs) UINT32_MAX <= maximum_exceptions p /\
  (require_stable_arguments p = true ->
     forall i, Z.of_nat i < Z.min argc TURBOJS_FEEDBACK_MAX_ARGUMENTS -> uniform (arguments_at i evs)) /\
  (require_stable_result p = true -> uniform (results_of evs)).
Proof.
  pose proof (record_events_agrees argc evs) as [Hc Hl Ha Hr He Hb Hx].
  set (v := record_events argc evs) in *. unfold TurboJS_EvaluateOptimization. simpl.
  rewrite <-He, <-Hb, <-Hx, <-Hc, <-(reflects_stable _ _ Hr).
  assert ((forall i, Z.of_nat i < fv_argument_count v -> uniform (arguments_at i evs)) <->
          first_unstable (Z.to_nat (fv_argument_count v)) (fv_arguments v) = None) as ->.
  { rewrite first_unstable_None. split.
    - intros H i s Hi Hs. apply (reflects_stable s (arguments_at i evs)); [apply Ha|apply H]; auto; lia.
    - intros H i Hi. destruct (lookup_lt_is_Some_2 (fv_arguments v) i) as [s Hs].
      { rewrite Hl. unfold TURBOJS_FEEDBACK_MAX_ARGUMENTS in Hc. lia. }
      apply (reflects_stable s); [by apply Ha|]. apply (H i); auto; lia. }
  rewrite (proj2 (Z.ltb_ge TURBOJS_FEEDBACK_MAX_ARGUMENTS _)) by lia.
  destruct (Z.ltb_spec (fv_execution_count v) (minimum_executions p)); simpl; [split; [done|lia]|].
  destruct (Z.ltb_spec (maximum_bailouts p) (fv_bailout_count v)); simpl; [split; [done|lia]|].
  destruct (Z.ltb_spec (maximum_exceptions p) (fv_exception_count v)); simpl; [split; [done|lia]|].
  destruct (require_stable_arguments p), (require_stable_result p),
    (first_unstable _ _), (TurboJS_FeedbackSlotIsStable (fv_result v)); simpl; naive_solver.
Qed.

(** ** Histories of call feedback *)

(** Distinct callees in the order of their first call; identity 0 is unknown. *)
Definition add_callee (seen : list Z) (id : Z) : list Z :=
  if bool_decide (id = 0) || bool_decide (id ∈ seen) then seen else seen ++ [id].
Definition callees (history : list Z) : list Z := foldl add_callee [] history.

Definition calls_of (id : Z) (history : list Z) : Z := Z.of_nat (length (filter (fun x => x = id) history)).

Definition state_of_count (n : nat) : TurboJSCallFeedbackState :=
  match n with
  | O => TURBOJS_CALL_FEEDBACK_UNINITIALIZED
  | 1%nat => TURBOJS_CALL_FEEDBACK_MONOMORPHIC
  | 2%nat | 3%nat | 4%nat => TURBOJS_CALL_FEEDBACK_POLYMORPHIC
  | _ => TURBOJS_CALL_FEEDBACK_MEGAMORPHIC
  end.

Definition observe_calls (history : list Z) : TurboJSCallFeedbackSlot :=
  foldl TurboJS_CallFeedbackObserve TurboJS_CallFeedbackInit history.

Definition target_of (history : list Z) (id : Z) : TurboJSCallFeedbackTarget :=
  mkTarget id (Z.min (calls_of id history) UINT32_MAX).

Record call_agrees (s : TurboJSCallFeedbackSlot) (history : list Z) : Prop := {
  ca_length : length (cf_targets s) = 4%nat;
  ca_count : cf_target_count s = Z.of_nat (length (take 4 (callees history)));
  ca_targets : take (length (take 4 (callees history))) (cf_targets s) =
               map (target_of history) (take 4 (callees history));
  ca_state : cf_state s = state_of_count (length (callees history));
  ca_observations : cf_observations s = Z.min (Z.of_nat (length history)) UINT64_MAX
}.

Lemma callees_snoc h id : callees (h ++ [id]) = add_callee (callees h) id.
Proof. unfold callees. by rewrite foldl_snoc. Qed.

Lemma callees_elem h id : id ∈ callees h <-> id <> 0 /\ id ∈ h.
Proof.
  revert id. induction h as [|x h IH] using rev_ind; intros id.
  - split; [intros H; by apply not_elem_of_nil in H|intros [_ H]; by apply not_elem_of_nil in H].
  - rewrite callees_snoc, elem_of_app, list_elem_of_singleton. unfold add_callee.
    destruct (decide (x = 0)) as [->|Hx].
    + rewrite bool_decide_eq_true_2 by done. simpl. rewrite IH. naive_solver.
    + rewrite bool_decide_eq_false_2 by done. simpl. case_bool_decide as Hin.
      * rewrite IH. apply IH in Hin. naive_solver.
      * rewrite elem_of_app, list_elem_of_singleton, IH. naive_solver.
Qed.

Lemma callees_NoDup h : NoDup (callees h).
Proof.
  induction h as [|x h IH] using rev_ind; [constructor|]. rewrite callees_snoc. unfold add_callee.
  destruct (bool_decide (x = 0)); [done|]. case_bool_decide; [done|]. simpl.
  apply NoDup_app. split; [done|]. split; [|apply NoDup_singleton].
  intros y Hy ->%list_elem_of_singleton. done.
Qed.

Lemma calls_of_snoc h id x : calls_of id (h ++ [x]) = calls_of id h + (if decide (x = id) then 1 else 0).
Proof.
  unfold calls_of. rewrite filter_app, length_app, Nat2Z.inj_add. f_equal.
  rewrite filter_cons, filter_nil. by case_decide.
Qed.

Lemma target_of_other h id x : x <> id -> target_of (h ++ [x]) id = target_of h id.
Proof. intros H. unfold target_of. rewrite calls_of_snoc, decide_False by done. f_equal. lia. Qed.

Lemma target_of_hit h id :
  target_of (h ++ [id]) id = mkTarget id (sat_incr UINT32_MAX (ct_hits (target_of h id))).
Proof.
  unfold target_of. rewrite calls_of_snoc, decide_True by done. simpl.
  rewrite sat_incr_min by (unfold calls_of; lia). done.
Qed.

Lemma target_of_fresh h id : id ∉ h -> target_of (h ++ [id]) id = mkTarget id 1.
Proof.
  intros H. unfold target_of. rewrite calls_of_snoc, decide_True by done.
  assert (calls_of id h = 0) as ->; [|done].
  unfold calls_of. assert (filter (fun x => x = id) h = []) as ->; [|done].
  clear -H. induction h as [|y h IH]; [done|]. rewrite filter_cons. rewrite not_elem_of_cons in H.
  rewrite decide_False by naive_solver. apply IH. naive_solver.
Qed.

Lemma map_targets_other h x l : x ∉ l -> map (target_of (h ++ [x])) l = map (target_of h) l.
Proof.
  intros H. apply map_ext_in. intros a Ha%list_elem_of_In. apply target_of_other. intros ->. done.
Qed.

(** Looking a callee up among the recorded targets. *)
Lemma find_target h l id :
  NoDup l ->
  match list_find (fun t => ct_identity t = id) (map (target_of h) l) with
  | Some (i, t) => l !! i = Some id /\ t = target_of h id
  | None => id ∉ l
  end.
Proof.
  intros Hnd. induction l as [|x l IH]; simpl; [apply not_elem_of_nil|].
  apply NoDup_cons in Hnd as [Hx Hnd]. case_decide as E; [by subst|].
  specialize (IH Hnd). destruct (list_find _ _) as [[i t]|]; simpl; [done|].
  rewrite not_elem_of_cons. auto.
Qed.

Lemma take_insert_lt {A} (l : list A) i n (x : A) :
  (i < n)%nat -> take n (<[i := x]> l) = <[i := x]> (take n l).
Proof. intros H. apply list_eq. intros j. destruct (decide (j < n)%nat).
  - rewrite lookup_take_lt by done. destruct (decide (i = j)) as [->|].
    + destruct (decide (j < length l)%nat).
      * rewrite !list_lookup_insert_eq by (rewrite ?length_take; lia). done.
      * rewrite !list_insert_ge by (rewrite ?length_take; lia). by rewrite lookup_take_lt.
    + rewrite !list_lookup_insert_ne by done. by rewrite lookup_take_lt.
  - rewrite lookup_take_ge by lia. symmetry. apply lookup_ge_None. rewrite length_insert, length_take. lia.
Qed.

Lemma map_targets_hit h l i id :
  NoDup l -> l !! i = Some id ->
  <[i := target_of (h ++ [id]) id]> (map (target_of h) l) = map (target_of (h ++ [id])) l.
Proof.
  intros Hnd Hi. apply list_eq. intros j. rewrite list_lookup_fmap.
  destruct (decide (i = j)) as [->|Hne].
  - rewrite list_lookup_insert_eq by (rewrite length_map; by eapply lookup_lt_Some). by rewrite Hi.
  - rewrite list_lookup_insert_ne, list_lookup_fmap by done.
    destruct (l !! j) as [y|] eqn:Hj; [|done]. simpl. f_equal. symmetry. apply target_of_other.
    intros ->. apply Hne. by eapply NoDup_lookup.
Qed.

Lemma state_of_count_mega n : state_of_count n = TURBOJS_CALL_FEEDBACK_MEGAMORPHIC <-> (4 < n)%nat.
Proof. do 5 (destruct n as [|n]; [simpl; split; [done|lia]|]). simpl. split; [lia|done]. Qed.

Lemma callees_same h x : x = 0 \/ x ∈ callees h -> callees (h ++ [x]) = callees h.
Proof.
  intros H. rewrite callees_snoc. unfold add_callee.
  destruct H; [rewrite bool_decide_eq_true_2 by done|rewrite (bool_decide_eq_true_2 (x ∈ _)), orb_true_r by done]; done.
Qed.

Lemma callees_new h x : x <> 0 -> x ∉ callees h -> callees (h ++ [x]) = callees h ++ [x].
Proof.
  intros Hx Hin. rewrite callees_snoc. unfold add_callee. by rewrite !bool_decide_eq_false_2.
Qed.

Lemma elem_take {A} n (l : list A) x : x ∈ take n l -> x ∈ l.
Proof. intros (i & Hi & _)%elem_of_take. by eapply list_elem_of_lookup_2. Qed.

(** A new callee while fewer than four are recorded. *)
Lemma new_target_agrees s h x obs misses gen :
  call_agrees s h -> x <> 0 -> x ∉ callees h -> (length (callees h) < 4)%nat ->
  obs = Z.min (Z.of_nat (length (h ++ [x]))) UINT64_MAX ->
  call_agrees (mkCallSlot (<[length (callees h) := mkTarget x 1]> (cf_targets s)) obs misses gen
    (if Z.of_nat (length (callees h)) + 1 =? 1 then TURBOJS_CALL_FEEDBACK_MONOMORPHIC
     else TURBOJS_CALL_FEEDBACK_POLYMORPHIC) (Z.of_nat (length (callees h)) + 1)) (h ++ [x]).
Proof.
  intros [Hl Hc Ht Hs Ho] Hx Hin Hlt Hobs.
  rewrite (take_ge (callees h)) in * by lia.
  assert (Enew : callees (h ++ [x]) = callees h ++ [x]) by (by apply callees_new).
  assert (x ∉ h) as Hxh by (rewrite callees_elem in Hin; naive_solver).
  assert (Et : take 4 (callees (h ++ [x])) = callees h ++ [x]).
  { rewrite Enew. apply take_ge. rewrite length_app. simpl. lia. }
  split; rewrite ?Et; simpl; auto; rewrite ?length_insert, ?length_app; simpl; auto; try lia.
  - rewrite Nat.add_1_r, (take_S_r _ _ (mkTarget x 1)) by (apply list_lookup_insert_eq; lia).
    rewrite take_insert_ge, Ht, map_app by lia. simpl.
    rewrite map_targets_other, target_of_fresh by done. done.
  - rewrite Enew, length_app. simpl. rewrite Nat.add_1_r.
    destruct (Z.eqb_spec (Z.of_nat (length (callees h)) + 1) 1).
    + by replace (length (callees h)) with 0%nat by lia.
    + destruct (length (callees h)) as [|[|[|[|]]]]; done || lia.
Qed.

(** A callee that is not recorded and will not be. *)
Lemma missed_target_agrees s h x obs misses gen :
  call_agrees s h -> x <> 0 -> x ∉ take 4 (callees h) -> (4 <= length (callees h))%nat ->
  (length (callees h) = 4%nat -> x ∉ callees h) ->
  obs = Z.min (Z.of_nat (length (h ++ [x]))) UINT64_MAX ->
  call_agrees (mkCallSlot (cf_targets s) obs misses gen TURBOJS_CALL_FEEDBACK_MEGAMORPHIC
    (cf_target_count s)) (h ++ [x]).
Proof.
  intros [Hl Hc Ht Hs Ho] Hx Hnin Hlen Hfour Hobs.
  assert (take 4 (callees (h ++ [x])) = take 4 (callees h) /\
          state_of_count (length (callees (h ++ [x]))) = TURBOJS_CALL_FEEDBACK_MEGAMORPHIC) as [Et Est].
  { destruct (decide (x ∈ callees h)).
    - rewrite callees_same by auto. split; [done|]. apply state_of_count_mega.
      destruct (decide (length (callees h) = 4%nat)) as [E|]; [by apply Hfour in E|lia].
    - rewrite callees_new, take_app_le by (done || lia). split; [done|].
      apply state_of_count_mega. rewrite length_app. simpl. lia. }
  split; rewrite ?Et, ?Est; simpl; auto. by rewrite map_targets_other.
Qed.

Lemma call_observe_agrees s h x :
  call_agrees s h -> call_agrees (TurboJS_CallFeedbackObserve s x) (h ++ [x]).
Proof.
  intros Hag. pose proof Hag as [Hl Hc Ht Hs Ho].
  assert (Hobs : sat_incr UINT64_MAX (cf_observations s) = Z.min (Z.of_nat (length (h ++ [x]))) UINT64_MAX).
  { rewrite Ho, length_app, Nat2Z.inj_add. apply sat_incr_min. lia. }
  unfold TurboJS_CallFeedbackObserve. destruct (Z.eqb_spec x 0) as [->|Hx].
  { assert (0 ∉ callees h) as H0 by (rewrite callees_elem; naive_solver).
    split; rewrite ?callees_same by auto; simpl; auto.
    rewrite map_targets_other; [done|]. eauto using elem_take. }
  rewrite Hc, Nat2Z.id, Ht.
  assert (NoDup (take 4 (callees h))) as Hnd
    by (eapply sublist_NoDup; [apply (callees_NoDup h)|apply sublist_take]).
  pose proof (find_target h (take 4 (callees h)) x Hnd) as Hf.
  destruct (list_find _ _) as [[i t]|] eqn:E.
  - destruct Hf as [Hi ->]. assert (x ∈ callees h) as Hin by eauto using elem_take, list_elem_of_lookup_2.
    split; rewrite ?callees_same by auto; simpl; auto; [by rewrite length_insert|].
    apply lookup_lt_Some in Hi as Hlt.
    rewrite take_insert_lt, Ht, <-(map_targets_hit h _ i) by done.
    f_equal. symmetry. apply target_of_hit.
  - rewrite Hs. rewrite <-Hc. case_decide as Hm.
    + rewrite Hm. apply state_of_count_mega in Hm. apply missed_target_agrees; auto; lia.
    + assert (length (callees h) <= 4)%nat as Hle by (rewrite state_of_count_mega in Hm; lia).
      rewrite (take_ge (callees h)) in Hc, Hf |- * by done.
      unfold TURBOJS_CALL_FEEDBACK_MAX_TARGETS.
      destruct (Z.ltb_spec (cf_target_count s) 4) as [Hlt|Hge].
      * rewrite Hc. apply new_target_agrees; auto. lia.
      * apply missed_target_agrees; auto; [eauto using elem_take|lia].
Qed.

Lemma observe_calls_agrees history : call_agrees (observe_calls history) history.
Proof.
  unfold observe_calls. induction history as [|x h IH] using rev_ind; [by split|].
  rewrite foldl_snoc. by apply call_observe_agrees.
Qed.

(** C34 Call feedback is exact: after any history of calls the site's state is
    UNINITIALIZED, MONOMORPHIC, POLYMORPHIC or MEGAMORPHIC according to the
    number (0, 1, 2 to 4, more) of distinct callees, and its table holds the
    first four of them in the order they appeared with their saturated call
    counts. *)
Theorem call_feedback_classifies history :
  let s := observe_calls history in
  cf_state s = state_of_count (length (callees history)) /\
  NoDup (callees history) /\ (forall id, id ∈ callees history <-> id <> 0 /\ id ∈ history) /\
  take (Z.to_nat (cf_target_count s)) (cf_targets s) = map (target_of history) (take 4 (callees history)) /\
  cf_observations s = Z.min (Z.of_nat (length history)) UINT64_MAX.
Proof.
  intros s. destruct (observe_calls_agrees history) as [Hl Hc Ht Hs Ho]. fold s in Hl, Hc, Ht, Hs, Ho.
  split_and!; auto using callees_NoDup; [apply callees_elem|]. by rewrite Hc, Nat2Z.id.
Qed.

Lemma state_of_count_mono n : state_of_count n = TURBOJS_CALL_FEEDBACK_MONOMORPHIC <-> n = 1%nat.
Proof. do 5 (destruct n as [|n]; [done|]). done. Qed.

Lemma callees_single history id :
  callees history = [id] <-> id <> 0 /\ Forall (fun x => x = 0 \/ x = id) history /\ id ∈ history.
Proof.
  pose proof (callees_elem history) as He. split.
  - intros E. rewrite E in He. split_and!.
    + apply (He id). by left.
    + apply Forall_forall. intros x Hx. destruct (decide (x = 0)); [by left|right].
      by apply list_elem_of_singleton, He.
    + apply (He id). by left.
  - intros (Hid & Hf & Hin). pose proof (callees_NoDup history) as Hnd. rewrite Forall_forall in Hf.
    assert (forall x, x ∈ callees history <-> x = id) as Hx.
    { intros x. rewrite He. split; [|by intros ->]. intros [Hx0 Hx]. by destruct (Hf x Hx). }
    destruct (callees history) as [|a [|b l]].
    + exfalso. apply (not_elem_of_nil id). by apply Hx.
    + f_equal. apply Hx. by left.
    + exfalso. apply NoDup_cons in Hnd as [Hn _]. apply Hn.
      assert (a = id) as -> by (apply Hx; by left). assert (b = id) as -> by (apply Hx; right; by left). by left.
Qed.

Lemma calls_of_elem id history : 0 < calls_of id history -> id ∈ history.
Proof.
  unfold calls_of. destruct (filter (fun x => x = id) history) as [|y l] eqn:E; [simpl; lia|]. intros _.
  assert (y ∈ filter (fun x => x = id) history) as [-> ?]%list_elem_of_filter by (rewrite E; by left). done.
Qed.

(** The first table entry of a site with a single callee. *)
Lemma single_callee_target s history id :
  call_agrees s history -> callees history = [id] ->
  cf_state s = TURBOJS_CALL_FEEDBACK_MONOMORPHIC /\ cf_target_count s = 1 /\
  cf_targets s !! 0%nat = Some (target_of history id).
Proof.
  intros [Hl Hc Ht Hs _] E. rewrite E in Hc, Ht, Hs. split_and!; [done|done|].
  destruct (cf_targets s) as [|t ts]; [done|]. by injection Ht as ->.
Qed.

(** The monomorphic target offered to the inline cache is [id] exactly when
    every known callee of the history is [id] and it was called at least
    [minimum_hits] times. *)
Theorem monomorphic_target_iff history minimum_hits id :
  0 < minimum_hits <= UINT32_MAX ->
  TurboJS_CallFeedbackMonomorphicTarget (observe_calls history) minimum_hits = Some id <->
  id <> 0 /\ Forall (fun x => x = 0 \/ x = id) history /\ minimum_hits <= calls_of id history.
Proof.
  intros Hmin. pose proof (observe_calls_agrees history) as Hag.
  unfold TurboJS_CallFeedbackMonomorphicTarget. split.
  - intros H. destruct (cf_targets _ !! 0%nat) as [t|] eqn:E0; [|done].
    case_match eqn:Eb; [done|]. injection H as <-. b2p. apply dec_stable in H.
    rewrite (ca_state _ _ Hag), state_of_count_mono in H.
    destruct (callees history) as [|a [|]] eqn:Ec; try done.
    destruct (single_callee_target _ _ _ Hag Ec) as (_ & _ & Et).
    rewrite E0 in Et. injection Et as ->. cbn [ct_identity ct_hits target_of] in *.
    destruct (proj1 (callees_single history a) Ec) as (Ha & Hf & Hin). split_and!; auto. lia.
  - intros (Hid & Hf & Hle).
    assert (callees history = [id]) as Ec by (apply callees_single; split_and!; auto; apply calls_of_elem; lia).
    destruct (single_callee_target _ _ _ Hag Ec) as (-> & -> & ->).
    rewrite bool_decide_eq_false_2 by naive_solver.
    rewrite (proj2 (Z.ltb_ge _ _)) by (cbn [ct_hits target_of]; lia). done.
Qed.

(** ** Concrete instances *)

Example eligible_after_1000_calls :
  rp_decision (TurboJS_EvaluateOptimization
    (Some (record_events 1 (concat (replicate 1000 [EvCall (Some [7]); EvResult 8])))) None) =
    TURBOJS_OPTIMIZATION_ELIGIBLE.
Proof. vm_compute. reflexivity. Qed.

Lemma monomorphic_target_iff_witness :
  TurboJS_CallFeedbackMonomorphicTarget (observe_calls [5; 0; 5; 5]) 3 = Some 5.
Proof.
  apply (monomorphic_target_iff [5; 0; 5; 5] 3 5); [unfold UINT32_MAX; lia|].
  split; [lia|]. split; [|vm_compute; discriminate].
  repeat (apply Forall_cons; split; [lia|]). by apply Forall_nil.
Defined.
