(* ===== verification/Profiler.v ===== *)
(** * The call profiler (src/jit/optimization_api.c)

    A growable array of per-function counters that requests a tier once a
    threshold is reached.  The build-time switches of the default
    configuration ([#if] on the architecture, [TURBOJS_ENABLE_*]) are boolean
    arguments. *)

From S2P Require Import Prelude.
From S2P Require Import IR.
From S2P Require Import Feedback.

Inductive TurboJSOptimizationTier :=
  | TURBOJS_TIER_INTERPRETER | TURBOJS_TIER_BASELINE | TURBOJS_TIER_OPTIMIZING | TURBOJS_TIER_AOT.

#[export] Instance TurboJSOptimizationTier_eq_dec : EqDecision TurboJSOptimizationTier.
Proof. solve_decision. Defined.

Record TurboJSOptimizationConfig := mkConfig {
  baseline_threshold : Z;
  optimizing_threshold : Z;
  osr_threshold : Z;
  enable_profiling : bool;
  enable_jit : bool;
  enable_optimizing_jit : bool;
  enable_osr : bool;
  enable_aot : bool
}.

Record TurboJSOptimizationCapabilities := mkCapabilities {
  cap_profiling : bool;
  cap_portable_bytecode_aot : bool;
  cap_baseline_jit : bool;
  cap_optimizing_jit : bool
}.

Record TurboJSProfileEntry := mkEntry {
  pe_function_id : Z;
  pe_call_count : Z;
  pe_requested_tier : TurboJSOptimizationTier
}.

Record TurboJSProfiler := mkProfiler {
  pr_config : TurboJSOptimizationConfig;
  pr_entries : list TurboJSProfileEntry;
  pr_capacity : Z
}.

(** [jit_target] is the architecture test, [optimizing_build] the macro
    [TURBOJS_ENABLE_OPTIMIZING_JIT]. *)
Definition TurboJS_DefaultOptimizationConfig (jit_target optimizing_build : bool) : TurboJSOptimizationConfig :=
  mkConfig 64 384 96 true jit_target
    (if optimizing_build then jit_target else false)
    (if optimizing_build then jit_target else false) true.

Definition TurboJS_GetOptimizationCapabilities (baseline_build optimizing_build : bool)
    : TurboJSOptimizationCapabilities :=
  mkCapabilities true true baseline_build optimizing_build.

Definition TurboJS_OptimizationTierName (tier : TurboJSOptimizationTier) : string :=
  match tier with
  | TURBOJS_TIER_INTERPRETER => "interpreter"
  | TURBOJS_TIER_BASELINE => "baseline"
  | TURBOJS_TIER_OPTIMIZING => "optimizing"
  | TURBOJS_TIER_AOT => "aot"
  end.

(** [None] is a failed [calloc]; the defaults are those of the build. *)
Definition TurboJS_ProfilerCreate (jit_target optimizing_build mem : bool)
    (config : option TurboJSOptimizationConfig) : option TurboJSProfiler :=
  if negb mem then None
  else
    let c := default (TurboJS_DefaultOptimizationConfig jit_target optimizing_build) config in
    let c := if optimizing_threshold c <? baseline_threshold c
             then mkConfig (baseline_threshold c) (baseline_threshold c) (osr_threshold c) (enable_profiling c)
                    (enable_jit c) (enable_optimizing_jit c) (enable_osr c) (enable_aot c)
             else c in
    Some (mkProfiler c [] 0).

Definition find_entry (p : TurboJSProfiler) (function_id : Z) : option nat :=
  match list_find (fun e => pe_function_id e = function_id) (pr_entries p) with
  | Some (i, _) => Some i
  | None => None
  end.

(** [mem] answers the [realloc]; the new entry is the last one. *)
Definition append_entry (mem : bool) (p : TurboJSProfiler) (function_id : Z) : option (TurboJSProfiler * nat) :=
  let count := Z.of_nat (length (pr_entries p)) in
  if (count =? pr_capacity p) && negb mem then None
  else Some (mkProfiler (pr_config p)
               (pr_entries p ++ [mkEntry function_id 0 TURBOJS_TIER_INTERPRETER])
               (grown_capacity count (pr_capacity p) 32),
             length (pr_entries p)).

(** The tier update of an entry that has just been counted. *)
Definition update_tier (c : TurboJSOptimizationConfig) (e : TurboJSProfileEntry) : TurboJSOptimizationTier :=
  if enable_jit c && enable_optimizing_jit c && (optimizing_threshold c <=? pe_call_count e)
  then TURBOJS_TIER_OPTIMIZING
  else if enable_jit c && (baseline_threshold c <=? pe_call_count e)
  then TURBOJS_TIER_BASELINE
  else pe_requested_tier e.

Definition TurboJS_ProfilerRecordCall (mem : bool) (p : TurboJSProfiler) (function_id : Z)
    : TurboJSProfiler * TurboJSOptimizationTier :=
  if negb (enable_profiling (pr_config p)) then (p, TURBOJS_TIER_INTERPRETER)
  else
    let found := match find_entry p function_id with
                 | Some i => Some (p, i)
                 | None => append_entry mem p function_id
                 end in
    match found with
    | None => (p, TURBOJS_TIER_INTERPRETER)
    | Some (p, i) =>
        match pr_entries p !! i with
        | None => (p, TURBOJS_TIER_INTERPRETER)
        | Some e =>
            let e := mkEntry (pe_function_id e) (uwrap 64 (pe_call_count e + 1)) (pe_requested_tier e) in
            let tier := update_tier (pr_config p) e in
            (mkProfiler (pr_config p)
               (<[i := mkEntry (pe_function_id e) (pe_call_count e) tier]> (pr_entries p)) (pr_capacity p),
             tier)
        end
    end.

Definition TurboJS_ProfilerQuery (p : TurboJSProfiler) (function_id : Z)
    : option (Z * TurboJSOptimizationTier) :=
  match list_find (fun e => pe_function_id e = function_id) (pr_entries p) with
  | Some (_, e) => Some (pe_call_count e, pe_requested_tier e)
  | None => None
  end.

Definition TurboJS_ProfilerFunctionCount (p : option TurboJSProfiler) : Z :=
  match p with Some p => Z.of_nat (length (pr_entries p)) | None => 0 end.

(** ** Specification: counters indexed by function *)

(** The tier a call count deserves. *)
Definition tier_for (c : TurboJSOptimizationConfig) (n : Z) : TurboJSOptimizationTier :=
  if enable_jit c && enable_optimizing_jit c && (optimizing_threshold c <=? n) then TURBOJS_TIER_OPTIMIZING
  else if enable_jit c && (baseline_threshold c <=? n) then TURBOJS_TIER_BASELINE
  else TURBOJS_TIER_INTERPRETER.

(** An abstract profiler: a partial map from functions to call counts. *)
Definition Counts := Z -> option Z.
Definition count_call (m : Counts) (id : Z) : Counts :=
  fun x => if decide (x = id) then Some (default 0 (m id) + 1) else m x.

(** The array refines the map: lookups agree, ids are unique, every entry
    carries the tier its count deserves, and the array has room. *)
Record refines (p : TurboJSProfiler) (m : Counts) : Prop := {
  re_lookup : forall id, TurboJS_ProfilerQuery p id = (fun n => (n, tier_for (pr_config p) n)) <$> m id;
  re_range : forall id n, m id = Some n -> 0 < n;
  re_capacity : Z.of_nat (length (pr_entries p)) <= pr_capacity p
}.

Lemma list_find_insert_same (l : list TurboJSProfileEntry) i e e' id :
  list_find (fun x => pe_function_id x = id) l = Some (i, e) -> pe_function_id e' = id ->
  list_find (fun x => pe_function_id x = id) (<[i := e']> l) = Some (i, e').
Proof.
  revert i. induction l as [|a l IH]; intros i; simpl; [done|]. case_decide as Ha.
  - intros [= <- <-] He. simpl. by rewrite decide_True.
  - destruct (list_find _ l) as [[j x]|] eqn:E; [|done]. intros [= <- <-] He. simpl.
    rewrite decide_False by done. by rewrite (IH j eq_refl He).
Qed.

Lemma list_find_insert_other (l : list TurboJSProfileEntry) i e e' id :
  l !! i = Some e -> pe_function_id e' = pe_function_id e -> pe_function_id e <> id ->
  snd <$> list_find (fun x => pe_function_id x = id) (<[i := e']> l) =
  snd <$> list_find (fun x => pe_function_id x = id) l.
Proof.
  revert i. induction l as [|a l IH]; intros [|i]; simpl; try done.
  - intros [= ->] He Hne. rewrite !decide_False by congruence. by destruct (list_find _ l) as [[]|].
  - intros Hi He Hne. case_decide; [done|]. specialize (IH i Hi He Hne).
    destruct (list_find _ l) as [[]|], (list_find _ (<[i:=e']> l)) as [[]|]; simpl in *; congruence.
Qed.

Lemma query_find p id :
  TurboJS_ProfilerQuery p id =
  (fun e => (pe_call_count e, pe_requested_tier e)) <$> (snd <$> list_find (fun e => pe_function_id e = id) (pr_entries p)).
Proof. unfold TurboJS_ProfilerQuery. by destruct (list_find _ _) as [[]|]. Qed.

Lemma update_tier_correct c id n tier :
  tier = tier_for c (n - 1) -> update_tier c (mkEntry id n tier) = tier_for c n.
Proof.
  intros ->. unfold update_tier, tier_for. simpl.
  destruct (enable_jit c), (enable_optimizing_jit c); simpl;
    destruct (Z.leb_spec (optimizing_threshold c) n), (Z.leb_spec (optimizing_threshold c) (n - 1)),
      (Z.leb_spec (baseline_threshold c) n), (Z.leb_spec (baseline_threshold c) (n - 1)); done || lia.
Qed.

(** One recorded call is one step of the abstract profiler. *)
Lemma record_call_refines mem p m id :
  enable_profiling (pr_config p) = true -> refines p m -> default 0 (m id) < 2 ^ 64 - 1 ->
  0 < baseline_threshold (pr_config p) -> 0 < optimizing_threshold (pr_config p) ->
  mem = true \/ is_Some (m id) ->
  let '(p', tier) := TurboJS_ProfilerRecordCall mem p id in
  refines p' (count_call m id) /\ pr_config p' = pr_config p /\
  tier = tier_for (pr_config p) (default 0 (m id) + 1).
Proof.
  intros Hprof [Hl Hr Hc] Hlt Hbase Hopt Hmem. unfold TurboJS_ProfilerRecordCall. rewrite Hprof. cbn [negb].
  pose proof (Hl id) as Hid. rewrite query_find in Hid. unfold find_entry.
  destruct (list_find (fun e => pe_function_id e = id) (pr_entries p)) as [[i e]|] eqn:E; simpl in Hid.
  - destruct (m id) as [n|] eqn:Hm; [|done]. simpl in Hid. injection Hid as Hn Ht.
    apply list_find_Some in E as Hi. destruct Hi as (Hi & He & _). rewrite Hi. simpl in *.
    pose proof (Hr id n Hm).
    rewrite uwrap_small by (unfold is_u; lia). rewrite update_tier_correct by (rewrite Ht; f_equal; lia).
    split_and!; [|done|by rewrite Hn]. split; simpl.
    + intros x. rewrite query_find. simpl. unfold count_call. case_decide as Hx.
      * subst x. rewrite (list_find_insert_same _ _ e _ _ E) by done. simpl. rewrite Hm. simpl. by rewrite Hn.
      * rewrite (list_find_insert_other _ _ e _ _ Hi) by (simpl; congruence). rewrite <-query_find. apply Hl.
    + intros x k. unfold count_call. case_decide; [|apply Hr]. intros [= <-]. rewrite Hm. simpl. lia.
    + by rewrite length_insert.
  - assert (m id = None) as Hm by (by destruct (m id)). rewrite Hm in *.
    destruct Hmem as [->|[? [=]]]. unfold append_entry. rewrite andb_false_r. simpl.
    rewrite lookup_app_r, Nat.sub_diag by done. simpl.
    rewrite (uwrap_small 64) by (unfold is_u; lia). rewrite update_tier_correct.
    2:{ unfold tier_for. rewrite !(proj2 (Z.leb_gt _ _)) by lia. by rewrite !andb_false_r. }
    split_and!; [|done|done]. split; simpl.
    + intros x. rewrite query_find. simpl. rewrite insert_app_r_alt, Nat.sub_diag by done. simpl.
      unfold count_call. case_decide as Hx.
      * subst x. rewrite list_find_app_r by done. simpl. rewrite decide_True by done. simpl. by rewrite Hm.
      * pose proof (Hl x) as Hlx. rewrite query_find in Hlx.
        destruct (list_find (fun e => pe_function_id e = x) (pr_entries p)) as [[j f]|] eqn:Ex.
        -- rewrite (list_find_app_l _ _ _ _ _ Ex). exact Hlx.
        -- rewrite list_find_app_r by done. simpl. rewrite decide_False by congruence. exact Hlx.
    + intros x k. unfold count_call. case_decide; [|apply Hr]. intros [= <-]. rewrite Hm. simpl. lia.
    + rewrite length_insert, length_app. simpl.
      pose proof (grown_capacity_room (Z.of_nat (length (pr_entries p))) (pr_capacity p) 32). lia.
Qed.

Definition record_calls (p : TurboJSProfiler) (history : list Z) : TurboJSProfiler :=
  foldl (fun p id => (TurboJS_ProfilerRecordCall true p id).1) p history.

(** The abstract profiler after a history. *)
Definition history_counts (history : list Z) : Counts :=
  fun id => if decide (id ∈ history) then Some (calls_of id history) else None.

Lemma calls_of_bound id h : 0 <= calls_of id h <= Z.of_nat (length h).
Proof. unfold calls_of. pose proof (length_filter (fun x => x = id) h). lia. Qed.

Lemma calls_of_absent id h : id ∉ h -> calls_of id h = 0.
Proof. intros H. destruct (decide (0 < calls_of id h)) as [E|]; [by apply calls_of_elem in E|].
  pose proof (calls_of_bound id h). lia. Qed.

Lemma refines_ext p m m' : (forall x, m x = m' x) -> refines p m -> refines p m'.
Proof.
  intros Hm [Hl Hr Hc]. split; [| |done].
  - intros x. rewrite <-Hm. apply Hl.
  - intros x n. rewrite <-Hm. apply Hr.
Qed.

Lemma record_calls_refines p history :
  enable_profiling (pr_config p) = true -> pr_entries p = [] -> 0 <= pr_capacity p ->
  0 < baseline_threshold (pr_config p) -> 0 < optimizing_threshold (pr_config p) ->
  Z.of_nat (length history) < 2 ^ 64 ->
  refines (record_calls p history) (history_counts history) /\
  pr_config (record_calls p history) = pr_config p.
Proof.
  intros Hprof He Hc Hb Ho. unfold record_calls.
  induction history as [|id h IH] using rev_ind; intros Hlen.
  - split; [|done]. split; simpl.
    + intros id. unfold TurboJS_ProfilerQuery, history_counts. by rewrite He.
    + intros id n. unfold history_counts. done.
    + by rewrite He.
  - rewrite length_app in Hlen. simpl in Hlen. destruct IH as [IH Hcfg]; [lia|]. rewrite foldl_snoc.
    set (q := foldl _ p h) in *.
    assert (Hdef : default 0 (history_counts h id) = calls_of id h).
    { unfold history_counts. case_decide; [done|]. by rewrite calls_of_absent. }
    pose proof (record_call_refines true q (history_counts h) id) as Hr.
    rewrite Hcfg, Hdef in Hr. pose proof (calls_of_bound id h).
    specialize (Hr Hprof IH ltac:(lia) Hb Ho (or_introl eq_refl)).
    destruct (TurboJS_ProfilerRecordCall true q id) as [q' tier]. destruct Hr as (Hr & Hcfg' & _).
    split; [|simpl; congruence]. eapply refines_ext; [|exact Hr]. intros x.
    unfold count_call. rewrite Hdef. unfold history_counts at 2. case_decide as Hx.
    + subst x. rewrite decide_True by (apply elem_of_app; right; by left).
      rewrite calls_of_snoc, decide_True by done. done.
    + unfold history_counts. rewrite calls_of_snoc, (decide_False (P := id = x)), Z.add_0_r by done.
      destruct (decide (x ∈ h)).
      * rewrite decide_True by (apply elem_of_app; by left). done.
      * rewrite decide_False; [done|]. rewrite elem_of_app, list_elem_of_singleton. naive_solver.
Qed.


