(* ===== verification/FrameAbi.v ===== *)
(** * The JavaScript frame layout (src/jit/runtime/js_frame_abi.c)

    Baseline frames, OSR snapshots and deoptimization metadata share one
    layout of 8-byte slots: eight fixed slots, then arguments, locals and the
    operand stack. *)

From S2P Require Import Prelude.
From S2P Require Import JitTypes.

Definition TURBOJS_JS_FRAME_ABI_VERSION : Z := 1.
Definition TURBOJS_JS_FRAME_SLOT_SIZE : Z := 8.
Definition TURBOJS_JS_FRAME_FIXED_SLOT_COUNT : Z := 8.

Record TurboJSJSFrameLayout := mkLayout {
  fl_abi_version : Z;
  fl_slot_size : Z;
  fl_fixed_slot_count : Z;
  fl_argument_count : Z;
  fl_local_count : Z;
  fl_stack_capacity : Z;
  fl_total_slots : Z;
  fl_frame_size_bytes : Z
}.

(** [size_t] arithmetic is modulo 2^64. *)
Definition slot_offset (slot : Z) : Z :=
  if SIZE_MAX / TURBOJS_JS_FRAME_SLOT_SIZE <? slot then SIZE_MAX
  else uwrap 64 (slot * TURBOJS_JS_FRAME_SLOT_SIZE).

(** [None] is INVALID_ARGUMENT, which leaves the layout untouched. *)
Definition TurboJS_JSFrameLayoutInit (argument_count local_count stack_capacity : Z)
    : option TurboJSJSFrameLayout :=
  let total_slots := uwrap 64 (TURBOJS_JS_FRAME_FIXED_SLOT_COUNT + argument_count + local_count + stack_capacity) in
  let frame_size := uwrap 64 (total_slots * TURBOJS_JS_FRAME_SLOT_SIZE) in
  if (UINT32_MAX <? total_slots) || (UINT32_MAX <? frame_size) then None
  else Some (mkLayout TURBOJS_JS_FRAME_ABI_VERSION TURBOJS_JS_FRAME_SLOT_SIZE
               TURBOJS_JS_FRAME_FIXED_SLOT_COUNT argument_count local_count stack_capacity
               (uwrap 32 total_slots) (uwrap 32 frame_size)).

Definition TurboJS_JSFrameFixedSlotOffset (slot : Z) : Z :=
  if TURBOJS_JS_FRAME_FIXED_SLOT_COUNT <=? slot then SIZE_MAX else slot_offset slot.

Definition TurboJS_JSFrameArgumentOffset (l : TurboJSJSFrameLayout) (index : Z) : Z :=
  if negb (fl_abi_version l =? TURBOJS_JS_FRAME_ABI_VERSION) || (fl_argument_count l <=? index) then SIZE_MAX
  else slot_offset (uwrap 64 (fl_fixed_slot_count l + index)).

Definition TurboJS_JSFrameLocalOffset (l : TurboJSJSFrameLayout) (index : Z) : Z :=
  if negb (fl_abi_version l =? TURBOJS_JS_FRAME_ABI_VERSION) || (fl_local_count l <=? index) then SIZE_MAX
  else slot_offset (uwrap 64 (fl_fixed_slot_count l + fl_argument_count l + index)).

Definition TurboJS_JSFrameStackOffset (l : TurboJSJSFrameLayout) (index : Z) : Z :=
  if negb (fl_abi_version l =? TURBOJS_JS_FRAME_ABI_VERSION) || (fl_stack_capacity l <=? index) then SIZE_MAX
  else slot_offset (uwrap 64 (fl_fixed_slot_count l + fl_argument_count l + fl_local_count l + index)).

(** ** The slots of a frame *)

Inductive FrameSlot := Fixed (i : Z) | Argument (i : Z) | Local (i : Z) | Stack (i : Z).

Definition slot_in (l : TurboJSJSFrameLayout) (s : FrameSlot) : Prop :=
  match s with
  | Fixed i => 0 <= i < TURBOJS_JS_FRAME_FIXED_SLOT_COUNT
  | Argument i => 0 <= i < fl_argument_count l
  | Local i => 0 <= i < fl_local_count l
  | Stack i => 0 <= i < fl_stack_capacity l
  end.

Definition offset_of (l : TurboJSJSFrameLayout) (s : FrameSlot) : Z :=
  match s with
  | Fixed i => TurboJS_JSFrameFixedSlotOffset i
  | Argument i => TurboJS_JSFrameArgumentOffset l i
  | Local i => TurboJS_JSFrameLocalOffset l i
  | Stack i => TurboJS_JSFrameStackOffset l i
  end.

(** Position of a slot, without machine arithmetic. *)
Definition position (args locals : Z) (s : FrameSlot) : Z :=
  match s with
  | Fixed i => i
  | Argument i => 8 + i
  | Local i => 8 + args + i
  | Stack i => 8 + args + locals + i
  end.

Lemma layout_fields args locals stack l :
  is_u 32 args -> is_u 32 locals -> is_u 32 stack ->
  TurboJS_JSFrameLayoutInit args locals stack = Some l ->
  l = mkLayout 1 8 8 args locals stack (8 + args + locals + stack) (8 * (8 + args + locals + stack)) /\
  8 * (8 + args + locals + stack) <= UINT32_MAX.
Proof.
  unfold is_u, TurboJS_JSFrameLayoutInit, TURBOJS_JS_FRAME_FIXED_SLOT_COUNT, TURBOJS_JS_FRAME_SLOT_SIZE,
    UINT32_MAX. intros Ha Hl Hs. rewrite (uwrap_small 64 (8 + args + locals + stack)) by (unfold is_u; lia).
  rewrite (uwrap_small 64) by (unfold is_u; lia).
  case_match; [done|]. intros [= <-]. b2p. rewrite !uwrap_small by (unfold is_u; lia).
  split; [f_equal; lia|lia].
Qed.

Lemma offset_position args locals stack l s :
  is_u 32 args -> is_u 32 locals -> is_u 32 stack ->
  TurboJS_JSFrameLayoutInit args locals stack = Some l -> slot_in l s ->
  offset_of l s = 8 * position args locals s /\ 0 <= position args locals s < 8 + args + locals + stack.
Proof.
  intros Ha Hl Hs Hinit Hin. destruct (layout_fields _ _ _ _ Ha Hl Hs Hinit) as [-> Hmax].
  unfold is_u, UINT32_MAX in *.
  assert (forall k, 0 <= k < 2 ^ 33 -> slot_offset k = 8 * k) as Hslot.
  { intros k Hk. unfold slot_offset, TURBOJS_JS_FRAME_SLOT_SIZE.
    rewrite (proj2 (Z.ltb_ge _ _)) by (change (SIZE_MAX / 8) with 2305843009213693951; lia).
    rewrite uwrap_small by (unfold is_u; lia). lia. }
  destruct s as [i|i|i|i]; cbn [slot_in fl_argument_count fl_local_count fl_stack_capacity] in Hin;
    unfold TURBOJS_JS_FRAME_FIXED_SLOT_COUNT in Hin;
    unfold offset_of, TurboJS_JSFrameFixedSlotOffset, TurboJS_JSFrameArgumentOffset, TurboJS_JSFrameLocalOffset,
      TurboJS_JSFrameStackOffset; cbn [fl_abi_version fl_argument_count fl_local_count fl_stack_capacity
      fl_fixed_slot_count]; rewrite ?Z.eqb_refl; cbn [negb orb];
    rewrite (proj2 (Z.leb_gt _ _)) by (unfold TURBOJS_JS_FRAME_FIXED_SLOT_COUNT; lia);
    rewrite ?(uwrap_small 64) by (unfold is_u; lia); rewrite Hslot by lia; unfold position; lia.
Qed.

(** C37 The frame layout is a partition: for every accepted layout the fixed
    slots, arguments, locals and stack entries occupy pairwise disjoint
    8-byte cells that lie inside the frame and together cover it exactly;
    a layout is refused exactly when its size does not fit 32 bits. *)
Theorem frame_slots_partition args locals stack :
  is_u 32 args -> is_u 32 locals -> is_u 32 stack ->
  match TurboJS_JSFrameLayoutInit args locals stack with
  | None => UINT32_MAX < 8 * (8 + args + locals + stack)
  | Some l =>
      (forall s, slot_in l s -> 0 <= offset_of l s /\ offset_of l s + 8 <= fl_frame_size_bytes l) /\
      (forall s t, slot_in l s -> slot_in l t -> s <> t ->
         offset_of l s + 8 <= offset_of l t \/ offset_of l t + 8 <= offset_of l s) /\
      (forall b, 0 <= b < fl_frame_size_bytes l ->
         exists s, slot_in l s /\ offset_of l s <= b < offset_of l s + 8)
  end.
Proof.
  intros Ha Hl Hs. destruct (TurboJS_JSFrameLayoutInit args locals stack) as [l|] eqn:E.
  - destruct (layout_fields _ _ _ _ Ha Hl Hs E) as [El Hmax].
    pose proof (fun s => offset_position args locals stack l s Ha Hl Hs E) as Hp. split_and!.
    + intros s Hin. destruct (Hp s Hin). rewrite El at 3. cbn [fl_frame_size_bytes]. lia.
    + intros s t Hins Hint Hne. destruct (Hp s Hins) as [-> Hps], (Hp t Hint) as [-> Hpt].
      assert (position args locals s <> position args locals t); [|lia].
      intros Heq. apply Hne. rewrite El in Hins, Hint.
      unfold is_u, TURBOJS_JS_FRAME_FIXED_SLOT_COUNT in *.
      destruct s, t; simpl in *; unfold TURBOJS_JS_FRAME_FIXED_SLOT_COUNT in *; try lia; f_equal; lia.
    + intros b Hb. rewrite El in Hb. cbn [fl_frame_size_bytes] in Hb.
      pose proof (Z.mul_div_le b 8 ltac:(lia)). pose proof (Z.mul_succ_div_gt b 8 ltac:(lia)).
      set (k := b / 8) in *.
      set (s := if k <? 8 then Fixed k else if k <? 8 + args then Argument (k - 8)
                else if k <? 8 + args + locals then Local (k - 8 - args) else Stack (k - 8 - args - locals)).
      assert (slot_in l s /\ position args locals s = k) as [Hin Hk].
      { rewrite El. subst s. unfold is_u in *.
        destruct (Z.ltb_spec k 8), (Z.ltb_spec k (8 + args)), (Z.ltb_spec k (8 + args + locals));
          simpl; unfold TURBOJS_JS_FRAME_FIXED_SLOT_COUNT; lia. }
      exists s. split; [done|]. destruct (Hp s Hin) as [-> _]. lia.
  - unfold is_u, TurboJS_JSFrameLayoutInit, TURBOJS_JS_FRAME_FIXED_SLOT_COUNT, TURBOJS_JS_FRAME_SLOT_SIZE,
      UINT32_MAX in *.
    rewrite (uwrap_small 64 (8 + args + locals + stack)) in E by (unfold is_u; lia).
    rewrite (uwrap_small 64) in E by (unfold is_u; lia).
    destruct (_ || _) eqn:Eb; [|done]. apply orb_true_iff in Eb. rewrite !Z.ltb_lt in Eb. lia.
Qed.

Lemma frame_slots_partition_witness :
  exists l, TurboJS_JSFrameLayoutInit 2 3 4 = Some l /\
    exists s, slot_in l s /\ offset_of l s <= 100 < offset_of l s + 8.
Proof.
  pose proof (frame_slots_partition 2 3 4 ltac:(vm_compute; split; congruence) ltac:(vm_compute; split; congruence)
    ltac:(vm_compute; split; congruence)) as H.
  destruct (TurboJS_JSFrameLayoutInit 2 3 4) as [l|] eqn:E; [|vm_compute in E; discriminate E].
  exists l. split; [reflexivity|]. destruct H as (_ & _ & H). apply H.
  vm_compute in E. injection E as <-. vm_compute. split; congruence.
Defined.
