(* ===== verification/Osr.v ===== *)
(** * On-stack replacement: state, frames and entries
    (src/jit/runtime/osr.c, osr_frame.c, osr_entry.c)

    A frame owns two arrays of typed values.  Executing an entry clones the
    frame, runs the entry's callback on the live frame, and rolls the live
    frame back unless the callback completed.  The callback is a parameter:
    it may do anything to the frame it is given. *)

From S2P Require Import Prelude.
From S2P Require Import JitTypes.

(** ** The state of a loop *)

Inductive TurboJSOSRDecision :=
  | TURBOJS_OSR_CONTINUE_INTERPRETING | TURBOJS_OSR_REQUEST_COMPILE
  | TURBOJS_OSR_ENTER_READY_CODE | TURBOJS_OSR_DISABLED.

#[export] Instance TurboJSOSRDecision_eq_dec : EqDecision TurboJSOSRDecision.
Proof. solve_decision. Defined.

Record TurboJSOSRState := mkState {
  backedge_count : Z;
  compile_threshold : Z;
  entry_count : Z;
  bailout_count : Z;
  os_loop_header : Z;
  compilation_requested : bool;
  code_ready : bool;
  disabled : bool
}.

Definition TurboJS_OSRStateInit (header threshold : Z) : TurboJSOSRState :=
  mkState 0 (if threshold =? 0 then 1 else threshold) 0 0 header false false false.

Definition TurboJS_OSRObserveBackedge (s : TurboJSOSRState) : TurboJSOSRState * TurboJSOSRDecision :=
  if disabled s then (s, TURBOJS_OSR_DISABLED)
  else
    let count := sat_incr UINT32_MAX (backedge_count s) in
    let with_request b := mkState count (compile_threshold s) (entry_count s) (bailout_count s)
                            (os_loop_header s) b (code_ready s) (disabled s) in
    if code_ready s then (with_request (compilation_requested s), TURBOJS_OSR_ENTER_READY_CODE)
    else if negb (compilation_requested s) && (compile_threshold s <=? count)
    then (with_request true, TURBOJS_OSR_REQUEST_COMPILE)
    else (with_request (compilation_requested s), TURBOJS_OSR_CONTINUE_INTERPRETING).

Definition TurboJS_OSRMarkCodeReady (s : TurboJSOSRState) : TurboJSOSRState :=
  if disabled s then s
  else mkState (backedge_count s) (compile_threshold s) (entry_count s) (bailout_count s)
         (os_loop_header s) (compilation_requested s) true (disabled s).

Definition TurboJS_OSRRecordEntry (s : TurboJSOSRState) : TurboJSOSRState :=
  mkState (backedge_count s) (compile_threshold s) (sat_incr UINT32_MAX (entry_count s)) (bailout_count s)
    (os_loop_header s) (compilation_requested s) (code_ready s) (disabled s).

Definition TurboJS_OSRRecordBailout (s : TurboJSOSRState) (limit : Z) : TurboJSOSRState :=
  let bailouts := sat_incr UINT32_MAX (bailout_count s) in
  mkState (backedge_count s) (compile_threshold s) (entry_count s) bailouts (os_loop_header s)
    (compilation_requested s) false
    (if negb (limit =? 0) && (limit <=? bailouts) then true else disabled s).

(** ** Frames *)

(** A kind field may hold a value that is no enumerator. *)
Inductive TurboJSOSRValueKind :=
  | TURBOJS_OSR_VALUE_EMPTY | TURBOJS_OSR_VALUE_INT64 | TURBOJS_OSR_VALUE_FLOAT64
  | TURBOJS_OSR_VALUE_REFERENCE | TURBOJS_OSR_VALUE_OTHER (code : Z).

#[export] Instance TurboJSOSRValueKind_eq_dec : EqDecision TurboJSOSRValueKind.
Proof. solve_decision. Defined.

Record TurboJSOSRValue := mkOSRValue { ov_bits : Z; ov_kind : TurboJSOSRValueKind }.

(** [local_count] and [stack_count] are the lengths of the two arrays. *)
Record TurboJSOSRFrame := mkFrame {
  fr_locals : list TurboJSOSRValue;
  fr_stack : list TurboJSOSRValue;
  fr_bytecode_offset : Z;
  fr_loop_header : Z
}.

Definition valid_kind (kind : TurboJSOSRValueKind) : bool :=
  match kind with TURBOJS_OSR_VALUE_OTHER _ => false | _ => true end.

Definition zero_value : TurboJSOSRValue := mkOSRValue 0 TURBOJS_OSR_VALUE_EMPTY.
Definition zero_frame : TurboJSOSRFrame := mkFrame [] [] 0 0.

(** [mem_locals] and [mem_stack] answer the two [calloc]s. *)
Definition TurboJS_OSRFrameInit (mem_locals mem_stack : bool) (local_count stack_count : nat)
    : TurboJSIRStatus * TurboJSOSRFrame :=
  if negb (local_count =? 0)%nat && negb mem_locals then (TURBOJS_IR_OUT_OF_MEMORY, zero_frame)
  else if negb (stack_count =? 0)%nat && negb mem_stack then (TURBOJS_IR_OUT_OF_MEMORY, zero_frame)
  else (TURBOJS_IR_OK, mkFrame (replicate local_count zero_value) (replicate stack_count zero_value) 0 0).

Definition TurboJS_OSRFrameValidate (f : TurboJSOSRFrame) : TurboJSIRStatus :=
  if forallb (fun v => valid_kind (ov_kind v)) (fr_locals f)
     && forallb (fun v => valid_kind (ov_kind v)) (fr_stack f)
  then TURBOJS_IR_OK else TURBOJS_IR_INVALID_ARGUMENT.

Definition TurboJS_OSRFrameCapture (f : TurboJSOSRFrame) (locals stack : list TurboJSOSRValue)
    (bytecode_offset loop_header : Z) : TurboJSIRStatus * TurboJSOSRFrame :=
  if negb (length locals =? length (fr_locals f))%nat || negb (length stack =? length (fr_stack f))%nat
  then (TURBOJS_IR_INVALID_ARGUMENT, f)
  else
    let f := mkFrame locals stack bytecode_offset loop_header in
    (TurboJS_OSRFrameValidate f, f).

(** [memcpy] of [src] over the start of [dst]; [None] past its end. *)
Definition copy_over (dst src : list TurboJSOSRValue) : option (list TurboJSOSRValue) :=
  if (length src <=? length dst)%nat then Some (src ++ drop (length src) dst) else None.

(** The destination arrays are given with their capacities as lengths. *)
Definition TurboJS_OSRFrameRestore (f : TurboJSOSRFrame) (locals stack : list TurboJSOSRValue)
    : TurboJSIRStatus * list TurboJSOSRValue * list TurboJSOSRValue :=
  let status := TurboJS_OSRFrameValidate f in
  if negb (bool_decide (status = TURBOJS_IR_OK)) then (status, locals, stack)
  else match copy_over locals (fr_locals f), copy_over stack (fr_stack f) with
       | Some l, Some s => (TURBOJS_IR_OK, l, s)
       | _, _ => (TURBOJS_IR_INVALID_ARGUMENT, locals, stack)
       end.

(** ** Entries *)

Inductive TurboJSOSRExitKind :=
  | TURBOJS_OSR_EXIT_COMPLETED | TURBOJS_OSR_EXIT_BAILOUT | TURBOJS_OSR_EXIT_ERROR.

#[export] Instance TurboJSOSRExitKind_eq_dec : EqDecision TurboJSOSRExitKind.
Proof. solve_decision. Defined.

(** [callback] takes the live frame and the preset resume offset, and gives
    back the frame it leaves, the exit kind and the resume offset. *)
Record TurboJSOSREntry := mkOSREntry {
  en_callback : TurboJSOSRFrame -> Z -> TurboJSOSRFrame * TurboJSOSRExitKind * Z;
  en_loop_header : Z;
  en_bailout_limit : Z
}.

Record TurboJSOSRExecutionResult := mkExecution {
  ex_exit_kind : TurboJSOSRExitKind;
  ex_resume_bytecode_offset : Z;
  ex_restored_original_frame : bool
}.

Definition clone_frame (mem_locals mem_stack : bool) (src : TurboJSOSRFrame)
    : TurboJSIRStatus * TurboJSOSRFrame :=
  match TurboJS_OSRFrameValidate src with
  | TURBOJS_IR_OK =>
      match TurboJS_OSRFrameInit mem_locals mem_stack (length (fr_locals src)) (length (fr_stack src)) with
      | (TURBOJS_IR_OK, dst) =>
          match TurboJS_OSRFrameCapture dst (fr_locals src) (fr_stack src)
                  (fr_bytecode_offset src) (fr_loop_header src) with
          | (TURBOJS_IR_OK, dst) => (TURBOJS_IR_OK, dst)
          | (st, _) => (st, zero_frame)
          end
      | (st, dst) => (st, dst)
      end
  | st => (st, zero_frame)
  end.

(** The outcome of an execution: status, loop state, live frame, result. *)
Record Execution := mkExec {
  xc_status : TurboJSIRStatus;
  xc_state : TurboJSOSRState;
  xc_frame : TurboJSOSRFrame;
  xc_result : TurboJSOSRExecutionResult
}.

Definition zero_result : TurboJSOSRExecutionResult := mkExecution TURBOJS_OSR_EXIT_COMPLETED 0 false.

(** [None]: the rollback copies past arrays the callback has shortened. *)
Definition TurboJS_OSRExecuteEntry (mem_locals mem_stack : bool) (state : TurboJSOSRState)
    (entry : TurboJSOSREntry) (live : TurboJSOSRFrame) : option Execution :=
  let refuse st := Some (mkExec st state live zero_result) in
  match TurboJS_OSRFrameValidate live with
  | TURBOJS_IR_OK =>
    if disabled state || negb (code_ready state) || negb (fr_loop_header live =? en_loop_header entry)
       || negb (os_loop_header state =? en_loop_header entry)
    then refuse TURBOJS_IR_UNSUPPORTED
    else match clone_frame mem_locals mem_stack live with
    | (TURBOJS_IR_OK, backup) =>
        let '(live, exit_kind, resume) := en_callback entry live (fr_bytecode_offset live) in
        match exit_kind with
        | TURBOJS_OSR_EXIT_COMPLETED =>
            Some (mkExec TURBOJS_IR_OK (TurboJS_OSRRecordEntry state)
                    (mkFrame (fr_locals live) (fr_stack live) resume (fr_loop_header live))
                    (mkExecution exit_kind resume false))
        | _ =>
            let? locals := copy_over (fr_locals live) (fr_locals backup) in
            let? stack := copy_over (fr_stack live) (fr_stack backup) in
            Some (mkExec (if decide (exit_kind = TURBOJS_OSR_EXIT_ERROR) then TURBOJS_IR_EXCEPTION else TURBOJS_IR_OK)
                    (TurboJS_OSRRecordBailout state (en_bailout_limit entry))
                    (mkFrame locals stack (fr_bytecode_offset backup) (fr_loop_header backup))
                    (mkExecution exit_kind (fr_bytecode_offset backup) true))
        end
    | (st, _) => refuse st
    end
  | st => refuse st
  end.

(** ** Loop state machine *)

Inductive OSROp := OpBackedge | OpReady | OpEntry | OpBailout (limit : Z).

#[export] Instance OSROp_eq_dec : EqDecision OSROp.
Proof. solve_decision. Defined.

Definition osr_step (s : TurboJSOSRState) (op : OSROp) : TurboJSOSRState * option TurboJSOSRDecision :=
  match op with
  | OpBackedge => let '(s, d) := TurboJS_OSRObserveBackedge s in (s, Some d)
  | OpReady => (TurboJS_OSRMarkCodeReady s, None)
  | OpEntry => (TurboJS_OSRRecordEntry s, None)
  | OpBailout limit => (TurboJS_OSRRecordBailout s limit, None)
  end.

(** The decisions a sequence of operations produces, and the final state. *)
Fixpoint osr_run (s : TurboJSOSRState) (ops : list OSROp) : TurboJSOSRState * list TurboJSOSRDecision :=
  match ops with
  | [] => (s, [])
  | op :: ops =>
      let '(s, d) := osr_step s op in
      let '(s, ds) := osr_run s ops in
      (s, match d with Some d => d :: ds | None => ds end)
  end.

Definition requests (ds : list TurboJSOSRDecision) : nat :=
  length (filter (fun d => d = TURBOJS_OSR_REQUEST_COMPILE) ds).

Lemma osr_run_app s ops1 ops2 :
  osr_run s (ops1 ++ ops2) =
  let '(s1, d1) := osr_run s ops1 in let '(s2, d2) := osr_run s1 ops2 in (s2, d1 ++ d2).
Proof.
  revert s. induction ops1 as [|op ops1 IH]; intros s; simpl.
  - by destruct (osr_run s ops2).
  - destruct (osr_step s op) as [s' d]. rewrite IH. destruct (osr_run s' ops1) as [s1 d1].
    destruct (osr_run s1 ops2) as [s2 d2]. by destruct d.
Qed.

Definition backedges (ops : list OSROp) : Z :=
  Z.of_nat (length (filter (fun op => op = OpBackedge) ops)).

(** What a run leaves behind: requests are made once, counted backedges were
    observed, code is entered only after it was marked ready. *)
Record osr_inv (ops : list OSROp) (s : TurboJSOSRState) (ds : list TurboJSOSRDecision) (t : Z) : Prop := {
  oi_threshold : compile_threshold s = (if t =? 0 then 1 else t);
  oi_count : 0 <= backedge_count s <= backedges ops;
  oi_requests : requests ds = (if compilation_requested s then 1 else 0)%nat;
  oi_hot : compilation_requested s = true -> compile_threshold s <= backedges ops;
  oi_ready : code_ready s = true -> OpReady ∈ ops;
  oi_entered : TURBOJS_OSR_ENTER_READY_CODE ∈ ds -> OpReady ∈ ops
}.

Lemma backedges_snoc ops op :
  backedges (ops ++ [op]) = backedges ops + (if decide (op = OpBackedge) then 1 else 0).
Proof.
  unfold backedges. rewrite filter_app, length_app, Nat2Z.inj_add. f_equal.
  rewrite filter_cons, filter_nil. by case_decide.
Qed.

Lemma requests_snoc ds d :
  requests (ds ++ [d]) = (requests ds + (if decide (d = TURBOJS_OSR_REQUEST_COMPILE) then 1 else 0))%nat.
Proof.
  unfold requests. rewrite filter_app, length_app. f_equal. rewrite filter_cons, filter_nil. by case_decide.
Qed.

Lemma elem_snoc_ne {A} (x y : A) l : x ∈ l ++ [y] -> x <> y -> x ∈ l.
Proof. rewrite elem_of_app, list_elem_of_singleton. naive_solver. Qed.

Lemma osr_backedge_inv ops s ds t :
  osr_inv ops s ds t ->
  let '(s', d) := TurboJS_OSRObserveBackedge s in osr_inv (ops ++ [OpBackedge]) s' (ds ++ [d]) t.
Proof.
  intros [Ht Hc Hr Hh Hrd He]. pose proof (backedges_snoc ops OpBackedge) as Hb. simpl in Hb.
  assert (Hs : backedge_count s <= sat_incr UINT32_MAX (backedge_count s) <= backedge_count s + 1).
  { unfold sat_incr. destruct (Z.eqb_spec (backedge_count s) UINT32_MAX); lia. }
  unfold TurboJS_OSRObserveBackedge.
  destruct (disabled s) eqn:?; [|destruct (code_ready s) eqn:?; [|destruct (negb (compilation_requested s) && _) eqn:E]];
    b2p; split; simpl; rewrite ?requests_snoc, ?Hb; simpl; rewrite ?Nat.add_0_r; auto; try lia;
    try (intros; rewrite elem_of_app; left; eauto using elem_snoc_ne; fail);
    try (intros Hreq; specialize (Hh Hreq); lia).
  rewrite Hr. by destruct (compilation_requested s).
Qed.

Lemma osr_run_inv h t ops :
  let '(s, ds) := osr_run (TurboJS_OSRStateInit h t) ops in osr_inv ops s ds t.
Proof.
  induction ops as [|op ops IH] using rev_ind.
  - simpl. split; simpl; try done. intros H. by apply not_elem_of_nil in H.
  - rewrite osr_run_app. destruct (osr_run (TurboJS_OSRStateInit h t) ops) as [s ds].
    destruct op; simpl.
    + pose proof (osr_backedge_inv _ _ _ _ IH). by destruct (TurboJS_OSRObserveBackedge s).
    + rewrite app_nil_r. destruct IH as [Ht Hc Hr Hh Hrd He].
      pose proof (backedges_snoc ops OpReady) as Hb. simpl in Hb.
      unfold TurboJS_OSRMarkCodeReady. destruct (disabled s) eqn:?; split; rewrite ?Hb, ?Z.add_0_r; simpl; auto;
        try lia; intros; rewrite elem_of_app; right; by left.
    + rewrite app_nil_r. destruct IH as [Ht Hc Hr Hh Hrd He].
      pose proof (backedges_snoc ops OpEntry) as Hb. simpl in Hb.
      split; rewrite ?Hb, ?Z.add_0_r; simpl; auto; intros; rewrite elem_of_app; left; auto.
    + rewrite app_nil_r. destruct IH as [Ht Hc Hr Hh Hrd He].
      pose proof (backedges_snoc ops (OpBailout limit)) as Hb. simpl in Hb.
      split; rewrite ?Hb, ?Z.add_0_r; simpl; auto; [done|]; intros; rewrite elem_of_app; left; auto.
Qed.

Lemma osr_disabled_absorbing s ops :
  disabled s = true ->
  disabled (osr_run s ops).1 = true /\ Forall (fun d => d = TURBOJS_OSR_DISABLED) (osr_run s ops).2.
Proof.
  revert s. induction ops as [|op ops IH]; intros s Hd; simpl; [done|].
  assert (disabled (osr_step s op).1 = true /\
          forall d, (osr_step s op).2 = Some d -> d = TURBOJS_OSR_DISABLED) as [Hd' Hdec].
  { destruct op; simpl; unfold TurboJS_OSRObserveBackedge, TurboJS_OSRMarkCodeReady; rewrite ?Hd; simpl;
      try (split; [done|intros ? [=]; done]). split; [by case_match|done]. }
  destruct (osr_step s op) as [s' d]. simpl in *. specialize (IH s' Hd').
  destruct (osr_run s' ops) as [s'' ds]. simpl in *. destruct IH as [IH1 IH2]. split; [done|].
  destruct d as [d|]; [|done]. constructor; [by apply Hdec|done].
Qed.

(** C38 The life of an OSR loop: whatever the interleaving of backedges,
    readiness, entries and bailouts, compilation is requested at most once
    and only after [threshold] backedges, ready code is entered only if it
    was announced, and once a loop is disabled every later backedge answers
    DISABLED. *)
Theorem osr_lifecycle header threshold ops :
  let '(s, ds) := osr_run (TurboJS_OSRStateInit header threshold) ops in
  (requests ds <= 1)%nat /\
  (TURBOJS_OSR_REQUEST_COMPILE ∈ ds -> (if threshold =? 0 then 1 else threshold) <= backedges ops) /\
  (TURBOJS_OSR_ENTER_READY_CODE ∈ ds -> OpReady ∈ ops) /\
  (disabled s = true -> forall ops', Forall (fun d => d = TURBOJS_OSR_DISABLED) (osr_run s ops').2).
Proof.
  pose proof (osr_run_inv header threshold ops) as H.
  destruct (osr_run (TurboJS_OSRStateInit header threshold) ops) as [s ds].
  destruct H as [Ht Hc Hr Hh Hrd He]. split_and!; auto.
  - rewrite Hr. case_match; lia.
  - intros Hin. assert (compilation_requested s = true) as Hreq.
    { destruct (compilation_requested s); [done|]. exfalso. unfold requests in Hr.
      assert (TURBOJS_OSR_REQUEST_COMPILE ∈ filter (fun d => d = TURBOJS_OSR_REQUEST_COMPILE) ds) as Hf
        by (by apply list_elem_of_filter).
      destruct (filter _ ds); [by apply not_elem_of_nil in Hf|done]. }
    specialize (Hh Hreq). by rewrite <-Ht.
  - intros Hd ops'. by apply osr_disabled_absorbing.
Qed.

(** ** Snapshots and rollback *)

Lemma validate_ok f :
  TurboJS_OSRFrameValidate f = TURBOJS_IR_OK <->
  Forall (fun v => valid_kind (ov_kind v) = true) (fr_locals f ++ fr_stack f).
Proof.
  unfold TurboJS_OSRFrameValidate. rewrite Forall_app, !Forall_forall.
  split.
  - case_match; [|done]. intros _. b2p. rewrite !forallb_forall in *. setoid_rewrite list_elem_of_In. auto.
  - intros [Hl Hs]. setoid_rewrite list_elem_of_In in Hl. setoid_rewrite list_elem_of_In in Hs.
    by rewrite (proj2 (forallb_forall _ _) Hl), (proj2 (forallb_forall _ _) Hs).
Qed.

Lemma copy_over_same dst src : length dst = length src -> copy_over dst src = Some src.
Proof.
  intros H. unfold copy_over. rewrite (proj2 (Nat.leb_le _ _)) by lia.
  by rewrite <-H, drop_all, app_nil_r.
Qed.

Lemma clone_frame_exact ml ms f backup :
  clone_frame ml ms f = (TURBOJS_IR_OK, backup) -> backup = f.
Proof.
  unfold clone_frame, TurboJS_OSRFrameCapture.
  destruct (TurboJS_OSRFrameValidate f) eqn:Hv; try done.
  unfold TurboJS_OSRFrameInit. repeat (case_match; simplify_eq); simpl in *; intros; simplify_eq; by destruct f.
Qed.

(** Snapshot round trip: capturing well-kinded locals and stack into a
    freshly allocated frame of that size and restoring it into arrays that
    are large enough gives the captured values back and leaves the rest of
    the destination arrays untouched. *)
Theorem osr_snapshot_roundtrip locals stack offset header dl ds f :
  TurboJS_OSRFrameInit true true (length locals) (length stack) = (TURBOJS_IR_OK, f) ->
  Forall (fun v => valid_kind (ov_kind v) = true) (locals ++ stack) ->
  (length locals <= length dl)%nat -> (length stack <= length ds)%nat ->
  let '(st, snapshot) := TurboJS_OSRFrameCapture f locals stack offset header in
  st = TURBOJS_IR_OK /\
  TurboJS_OSRFrameRestore snapshot dl ds =
    (TURBOJS_IR_OK, locals ++ drop (length locals) dl, stack ++ drop (length stack) ds).
Proof.
  unfold TurboJS_OSRFrameInit. rewrite !andb_false_r. intros [= <-] Hk Hl Hs.
  unfold TurboJS_OSRFrameCapture. simpl. rewrite !length_replicate, !Nat.eqb_refl. simpl.
  assert (TurboJS_OSRFrameValidate (mkFrame locals stack offset header) = TURBOJS_IR_OK) as Hv by (by apply validate_ok).
  split; [done|]. unfold TurboJS_OSRFrameRestore. rewrite Hv, bool_decide_eq_true_2 by done. simpl.
  unfold copy_over. by rewrite !(proj2 (Nat.leb_le _ _)).
Qed.

(** C23 OSR entry is transactional: with a callback that keeps the sizes of
    the frame's arrays, execution never goes wrong; either the entry is
    refused and nothing changes, or the callback completed and the frame is
    the one it left with the resume offset it chose, or the frame is back
    exactly as it was, the resume offset is the original one and the loop has
    recorded a bailout and lost its ready code. *)
Theorem osr_entry_transactional ml ms state entry live :
  (forall f r, let '(f', _, _) := en_callback entry f r in
     length (fr_locals f') = length (fr_locals f) /\ length (fr_stack f') = length (fr_stack f)) ->
  exists x, TurboJS_OSRExecuteEntry ml ms state entry live = Some x /\
  ((xc_frame x = live /\ xc_state x = state /\ xc_status x <> TURBOJS_IR_OK) \/
   (exists f', en_callback entry live (fr_bytecode_offset live) =
        (f', TURBOJS_OSR_EXIT_COMPLETED, ex_resume_bytecode_offset (xc_result x)) /\
      xc_frame x = mkFrame (fr_locals f') (fr_stack f') (ex_resume_bytecode_offset (xc_result x)) (fr_loop_header f') /\
      xc_state x = TurboJS_OSRRecordEntry state /\ xc_status x = TURBOJS_IR_OK /\
      code_ready state = true /\ disabled state = false) \/
   (xc_frame x = live /\ ex_restored_original_frame (xc_result x) = true /\
      ex_resume_bytecode_offset (xc_result x) = fr_bytecode_offset live /\
      xc_state x = TurboJS_OSRRecordBailout state (en_bailout_limit entry) /\ code_ready (xc_state x) = false)).
Proof.
  intros Hcb. unfold TurboJS_OSRExecuteEntry.
  destruct (TurboJS_OSRFrameValidate live) eqn:Hv; try (eexists; split; [done|]; left; done).
  case_match eqn:Eg; [eexists; split; [done|]; left; done|]. b2p.
  destruct (clone_frame ml ms live) as [st backup] eqn:Hc.
  destruct st; try (eexists; split; [done|]; left; done).
  apply clone_frame_exact in Hc as ->.
  specialize (Hcb live (fr_bytecode_offset live)).
  destruct (en_callback entry live (fr_bytecode_offset live)) as [[f' k] r]. destruct Hcb as [Hl Hs].
  destruct k.
  - eexists. split; [done|]. right; left. exists f'. simpl. done.
  - rewrite !copy_over_same by done. eexists. split; [done|]. right; right. simpl. by destruct live.
  - rewrite !copy_over_same by done. eexists. split; [done|]. right; right. simpl. by destruct live.
Qed.

(** ** Concrete instances *)

Definition int_value (z : Z) : TurboJSOSRValue := mkOSRValue z TURBOJS_OSR_VALUE_INT64.

Lemma osr_snapshot_roundtrip_witness :
  TurboJS_OSRFrameRestore (mkFrame [int_value 1; int_value 2] [int_value 3] 10 4)
    [int_value 0; int_value 0; int_value 9] [int_value 0] =
    (TURBOJS_IR_OK, [int_value 1; int_value 2; int_value 9], [int_value 3]).
Proof.
  pose proof (osr_snapshot_roundtrip [int_value 1; int_value 2] [int_value 3] 10 4
    [int_value 0; int_value 0; int_value 9] [int_value 0] _ eq_refl) as H.
  apply H; [repeat constructor|simpl; lia|simpl; lia].
Defined.

(** An entry that scribbles on the first local and then bails out. *)
Definition scribbling_entry : TurboJSOSREntry :=
  mkOSREntry (fun f _ => (mkFrame (<[O := int_value 99]> (fr_locals f)) (fr_stack f) 1 1,
                          TURBOJS_OSR_EXIT_BAILOUT, 77)) 12 3.

Lemma osr_entry_transactional_witness :
  exists x, TurboJS_OSRExecuteEntry true true (TurboJS_OSRMarkCodeReady (TurboJS_OSRStateInit 12 1))
      scribbling_entry (mkFrame [int_value 5] [] 44 12) = Some x /\
    xc_frame x = mkFrame [int_value 5] [] 44 12.
Proof.
  destruct (osr_entry_transactional true true (TurboJS_OSRMarkCodeReady (TurboJS_OSRStateInit 12 1))
    scribbling_entry (mkFrame [int_value 5] [] 44 12)) as (x & Hx & H).
  - intros f r. simpl. rewrite length_insert. split; reflexivity.
  - exists x. split; [exact Hx|]. destruct H as [[H _]|[(f' & H & _)|[H _]]];
      [exact H|discriminate H|exact H].
Defined.
