(* ===== verification/Spool.v ===== *)
(** * Spool frame states (src/jit/frontend/spool_frame_state.c)

    The baseline lowering mirrors the interpreter's locals and operand stack
    in two heap arrays.  The stack array has [stack_capacity] cells of which
    the first [stack_count] are live; cells added by [realloc] hold the
    arbitrary value [junk]. *)

From S2P Require Import Prelude.
From S2P Require Import JitTypes.

Record TurboJSSpoolFrameState := mkSpool {
  sp_locals : list TurboJSBoxedValue;
  sp_stack : list TurboJSBoxedValue;   (* all the cells *)
  sp_stack_count : Z;
  sp_stack_capacity : Z;
  sp_bytecode_offset : Z
}.

Definition undefined_value : TurboJSBoxedValue := mkBoxed TURBOJS_BOXED_UNDEFINED 0.
Definition zero_spool : TurboJSSpoolFrameState := mkSpool [] [] 0 0 0.

(** [memset] to zero gives tag 0, which is UNDEFINED, so the initialising
    loops store the value the cells already hold. *)
Definition TurboJS_SpoolFrameStateInit (mem_locals mem_stack : bool) (local_count stack_capacity : Z)
    : TurboJSIRStatus * TurboJSSpoolFrameState :=
  if negb (local_count =? 0) && negb mem_locals then (TURBOJS_IR_OUT_OF_MEMORY, zero_spool)
  else if negb (stack_capacity =? 0) && negb mem_stack then (TURBOJS_IR_OUT_OF_MEMORY, zero_spool)
  else (TURBOJS_IR_OK,
        mkSpool (replicate (Z.to_nat local_count) undefined_value)
          (replicate (Z.to_nat stack_capacity) undefined_value) 0 stack_capacity 0).

Definition TurboJS_SpoolFrameStateDestroy (_ : TurboJSSpoolFrameState) : TurboJSSpoolFrameState := zero_spool.

(** [memcpy] of the live part of [src] over the start of [dst]. *)
Definition copy_prefix (n : nat) (src dst : list TurboJSBoxedValue) : list TurboJSBoxedValue :=
  take n src ++ drop n dst.

Definition TurboJS_SpoolFrameStateClone (mem_locals mem_stack : bool) (source : TurboJSSpoolFrameState)
    : TurboJSIRStatus * TurboJSSpoolFrameState :=
  match TurboJS_SpoolFrameStateInit mem_locals mem_stack (Z.of_nat (length (sp_locals source)))
          (sp_stack_capacity source) with
  | (TURBOJS_IR_OK, destination) =>
      (TURBOJS_IR_OK,
       mkSpool (copy_prefix (length (sp_locals source)) (sp_locals source) (sp_locals destination))
         (copy_prefix (Z.to_nat (sp_stack_count source)) (sp_stack source) (sp_stack destination))
         (sp_stack_count source) (sp_stack_capacity destination) (sp_bytecode_offset source))
  | r => r
  end.

Definition TurboJS_SpoolFrameStatePush (mem : bool) (junk : TurboJSBoxedValue)
    (s : TurboJSSpoolFrameState) (value : TurboJSBoxedValue) : TurboJSIRStatus * TurboJSSpoolFrameState :=
  let store s :=
    (TURBOJS_IR_OK,
     mkSpool (sp_locals s) (<[Z.to_nat (sp_stack_count s) := value]> (sp_stack s))
       (uwrap 32 (sp_stack_count s + 1)) (sp_stack_capacity s) (sp_bytecode_offset s)) in
  if sp_stack_count s =? sp_stack_capacity s then
    let capacity := if sp_stack_capacity s =? 0 then 8 else uwrap 32 (sp_stack_capacity s * 2) in
    if capacity <? sp_stack_capacity s then (TURBOJS_IR_OUT_OF_MEMORY, s)
    else if negb mem then (TURBOJS_IR_OUT_OF_MEMORY, s)
    else store (mkSpool (sp_locals s)
                  (sp_stack s ++ replicate (Z.to_nat (capacity - sp_stack_capacity s)) junk)
                  (sp_stack_count s) capacity (sp_bytecode_offset s))
  else store s.

Definition TurboJS_SpoolFrameStatePop (s : TurboJSSpoolFrameState)
    : TurboJSIRStatus * TurboJSSpoolFrameState * option TurboJSBoxedValue :=
  if sp_stack_count s =? 0 then (TURBOJS_IR_INVALID_REGISTER, s, None)
  else
    let count := sp_stack_count s - 1 in
    (TURBOJS_IR_OK,
     mkSpool (sp_locals s) (<[Z.to_nat count := undefined_value]> (sp_stack s)) count
       (sp_stack_capacity s) (sp_bytecode_offset s),
     sp_stack s !! Z.to_nat count).

Definition TurboJS_SpoolFrameStateSetLocal (s : TurboJSSpoolFrameState) (index : Z) (value : TurboJSBoxedValue)
    : TurboJSIRStatus * TurboJSSpoolFrameState :=
  if Z.of_nat (length (sp_locals s)) <=? index then (TURBOJS_IR_INVALID_REGISTER, s)
  else (TURBOJS_IR_OK,
        mkSpool (<[Z.to_nat index := value]> (sp_locals s)) (sp_stack s) (sp_stack_count s)
          (sp_stack_capacity s) (sp_bytecode_offset s)).

Definition TurboJS_SpoolFrameStateGetLocal (s : TurboJSSpoolFrameState) (index : Z)
    : TurboJSIRStatus * option TurboJSBoxedValue :=
  if Z.of_nat (length (sp_locals s)) <=? index then (TURBOJS_IR_INVALID_REGISTER, None)
  else (TURBOJS_IR_OK, sp_locals s !! Z.to_nat index).

Definition TurboJS_SpoolFrameStateShapeCompatible (l r : TurboJSSpoolFrameState) : bool :=
  (length (sp_locals l) =? length (sp_locals r))%nat && (sp_stack_count l =? sp_stack_count r).

(** ** Specification: locals and a stack *)

(** What an execution of the interpreter sees. *)
Record Frame := mkAbstract { ab_locals : list TurboJSBoxedValue; ab_stack : list TurboJSBoxedValue }.

Inductive SpoolOp := Push (v : TurboJSBoxedValue) | Pop | SetLocal (i : Z) (v : TurboJSBoxedValue) | GetLocal (i : Z).

Definition spec_step (f : Frame) (op : SpoolOp) : TurboJSIRStatus * Frame * option TurboJSBoxedValue :=
  match op with
  | Push v => (TURBOJS_IR_OK, mkAbstract (ab_locals f) (ab_stack f ++ [v]), None)
  | Pop => match last (ab_stack f) with
           | Some v => (TURBOJS_IR_OK, mkAbstract (ab_locals f) (removelast (ab_stack f)), Some v)
           | None => (TURBOJS_IR_INVALID_REGISTER, f, None)
           end
  | SetLocal i v =>
      if Z.of_nat (length (ab_locals f)) <=? i then (TURBOJS_IR_INVALID_REGISTER, f, None)
      else (TURBOJS_IR_OK, mkAbstract (<[Z.to_nat i := v]> (ab_locals f)) (ab_stack f), None)
  | GetLocal i =>
      if Z.of_nat (length (ab_locals f)) <=? i then (TURBOJS_IR_INVALID_REGISTER, f, None)
      else (TURBOJS_IR_OK, f, ab_locals f !! Z.to_nat i)
  end.

Definition spool_step (mem : bool) (junk : TurboJSBoxedValue) (s : TurboJSSpoolFrameState) (op : SpoolOp)
    : TurboJSIRStatus * TurboJSSpoolFrameState * option TurboJSBoxedValue :=
  match op with
  | Push v => (TurboJS_SpoolFrameStatePush mem junk s v, None)
  | Pop => TurboJS_SpoolFrameStatePop s
  | SetLocal i v => (TurboJS_SpoolFrameStateSetLocal s i v, None)
  | GetLocal i => let '(st, v) := TurboJS_SpoolFrameStateGetLocal s i in (st, s, v)
  end.

Definition abstraction (s : TurboJSSpoolFrameState) : Frame :=
  mkAbstract (sp_locals s) (take (Z.to_nat (sp_stack_count s)) (sp_stack s)).

Record spool_wf (s : TurboJSSpoolFrameState) : Prop := {
  sw_count : 0 <= sp_stack_count s <= sp_stack_capacity s;
  sw_cells : Z.of_nat (length (sp_stack s)) = sp_stack_capacity s;
  sw_capacity : sp_stack_capacity s < 2 ^ 32
}.

(** A run of operations, each with its allocator answer; the observations are
    the statuses and results.  An operation that runs out of memory is
    reported and skipped. *)
Fixpoint spool_run (s : TurboJSSpoolFrameState) (ops : list (bool * TurboJSBoxedValue * SpoolOp))
    : TurboJSSpoolFrameState * list (TurboJSIRStatus * option TurboJSBoxedValue) :=
  match ops with
  | [] => (s, [])
  | (mem, junk, op) :: ops =>
      let '(st, s, v) := spool_step mem junk s op in
      let '(s, obs) := spool_run s ops in (s, (st, v) :: obs)
  end.

(** The specification, driven by which observed pushes ran out of memory. *)
Fixpoint spec_run (f : Frame) (ops : list SpoolOp) (obs : list (TurboJSIRStatus * option TurboJSBoxedValue))
    : option Frame :=
  match ops, obs with
  | [], [] => Some f
  | op :: ops, (st, v) :: obs =>
      if decide (st = TURBOJS_IR_OUT_OF_MEMORY) then
        match op with Push _ => spec_run f ops obs | _ => None end
      else
        let '(st', f', v') := spec_step f op in
        if decide (st = st') then if decide (v = v') then spec_run f' ops obs else None else None
  | _, _ => None
  end.

Lemma take_insert_snoc {A} (l : list A) n x : (n < length l)%nat -> take (S n) (<[n := x]> l) = take n l ++ [x].
Proof.
  intros H. rewrite (take_S_r _ _ x) by (by apply list_lookup_insert_eq). by rewrite take_insert_ge by lia.
Qed.

Lemma push_refines mem junk s v :
  spool_wf s ->
  let '(st, s') := TurboJS_SpoolFrameStatePush mem junk s v in
  spool_wf s' /\
  ((st = TURBOJS_IR_OUT_OF_MEMORY /\ s' = s) \/
   (st = TURBOJS_IR_OK /\ abstraction s' = mkAbstract (sp_locals s) (ab_stack (abstraction s) ++ [v]))).
Proof.
  intros [Hc Hl Hcap]. unfold TurboJS_SpoolFrameStatePush.
  destruct (Z.eqb_spec (sp_stack_count s) (sp_stack_capacity s)) as [E|Hne].
  - destruct (Z.ltb_spec (if sp_stack_capacity s =? 0 then 8 else uwrap 32 (sp_stack_capacity s * 2))
      (sp_stack_capacity s)) as [|Hge]; [split; [done|by left]|].
    destruct mem; simpl; [|split; [done|by left]].
    set (cap := if sp_stack_capacity s =? 0 then 8 else _) in *.
    assert (Hroom : sp_stack_capacity s < cap /\ cap < 2 ^ 32).
    { unfold cap in *. destruct (Z.eqb_spec (sp_stack_capacity s) 0); [lia|].
      pose proof (uwrap_is_u 32 (sp_stack_capacity s * 2)) as Hu. unfold is_u in Hu.
      destruct (Z.lt_ge_cases (sp_stack_capacity s * 2) (2 ^ 32)).
      - rewrite uwrap_small by (unfold is_u; lia). lia.
      - unfold uwrap in *. rewrite <-(Z.mod_add _ (-1)) in Hge by lia.
        rewrite Z.mod_small in Hge by lia. lia. }
    rewrite uwrap_small by (unfold is_u; lia).
    assert (Hlen : Z.to_nat (sp_stack_count s) = length (sp_stack s)) by lia.
    split; [split; simpl; rewrite ?length_insert, ?length_app, ?length_replicate; lia|]. right. split; [done|].
    unfold abstraction. simpl. f_equal. rewrite Z2Nat.inj_add, Nat.add_1_r by lia.
    rewrite take_insert_snoc by (rewrite length_app, length_replicate; lia).
    by rewrite take_app_le by lia.
  - rewrite uwrap_small by (unfold is_u; lia).
    split; [split; simpl; rewrite ?length_insert; lia|]. right. split; [done|].
    unfold abstraction. simpl. f_equal. rewrite Z2Nat.inj_add, Nat.add_1_r by lia.
    by rewrite take_insert_snoc by lia.
Qed.

Lemma pop_refines s :
  spool_wf s ->
  let '(st, s', v) := TurboJS_SpoolFrameStatePop s in
  spool_wf s' /\ (st, abstraction s', v) = spec_step (abstraction s) Pop.
Proof.
  intros [Hc Hl Hcap]. unfold TurboJS_SpoolFrameStatePop.
  destruct (Z.eqb_spec (sp_stack_count s) 0) as [E|Hne].
  - split; [done|]. unfold abstraction. rewrite E. done.
  - split; [split; simpl; rewrite ?length_insert; lia|].
    set (n := Z.to_nat (sp_stack_count s - 1)). destruct (lookup_lt_is_Some_2 (sp_stack s) n) as [x Hx]; [lia|].
    unfold spec_step, abstraction. simpl. replace (Z.to_nat (sp_stack_count s)) with (S n) by lia.
    rewrite (take_S_r _ _ x) by done. rewrite last_snoc, removelast_last, Hx. f_equal. f_equal. f_equal.
    by rewrite take_insert_ge by lia.
Qed.

Lemma spool_step_refines mem junk s op :
  spool_wf s ->
  let '(st, s', v) := spool_step mem junk s op in
  spool_wf s' /\
  ((st = TURBOJS_IR_OUT_OF_MEMORY /\ s' = s /\ v = None /\ exists x, op = Push x) \/
   (st <> TURBOJS_IR_OUT_OF_MEMORY /\ (st, abstraction s', v) = spec_step (abstraction s) op)).
Proof.
  intros Hwf. destruct op as [x| |i x|i]; simpl spool_step.
  - pose proof (push_refines mem junk s x Hwf) as H. destruct (TurboJS_SpoolFrameStatePush mem junk s x) as [st s'].
    destruct H as [Hw [[-> ->]|[-> Ha]]]; (split; [done|]); [left; eauto|].
    right. split; [done|]. rewrite Ha. done.
  - pose proof (pop_refines s Hwf) as H. destruct (TurboJS_SpoolFrameStatePop s) as [[st s'] v] eqn:E.
    destruct H as [Hw Hs]. split; [done|]. right. split; [|done].
    unfold TurboJS_SpoolFrameStatePop in E. case_match; simplify_eq; done.
  - unfold TurboJS_SpoolFrameStateSetLocal. simpl. destruct (Z.of_nat (length (sp_locals s)) <=? i); (split; [|right; split; [discriminate|reflexivity]]); [done|destruct Hwf; by split].
  - unfold TurboJS_SpoolFrameStateGetLocal. simpl. destruct (Z.of_nat (length (sp_locals s)) <=? i); (split; [done|right; split; [discriminate|reflexivity]]).
Qed.

(** C24 The Spool frame state implements locals with a stack: every run of
    pushes, pops and local accesses from a fresh frame, whatever the
    allocator answers and whatever fresh memory holds, has exactly the
    statuses and results of the abstract machine, where only a push may
    report OUT_OF_MEMORY and then changes nothing. *)
Theorem spool_refines_stack_machine locals capacity s ops :
  is_u 32 locals -> is_u 32 capacity ->
  TurboJS_SpoolFrameStateInit true true locals capacity = (TURBOJS_IR_OK, s) ->
  let '(s', obs) := spool_run s ops in
  spec_run (mkAbstract (replicate (Z.to_nat locals) undefined_value) []) (map snd ops) obs = Some (abstraction s').
Proof.
  unfold TurboJS_SpoolFrameStateInit. rewrite !andb_false_r. intros Hl Hc [= <-]. unfold is_u in *.
  set (s := mkSpool _ _ _ _ _).
  assert (spool_wf s) as Hwf by (split; simpl; rewrite ?length_replicate; lia).
  change (mkAbstract (replicate (Z.to_nat locals) undefined_value) []) with (abstraction s).
  clearbody s. revert s Hwf. induction ops as [|[[mem junk] op] ops IH]; intros s Hwf; simpl; [done|].
  pose proof (spool_step_refines mem junk s op Hwf) as H.
  destruct (spool_step mem junk s op) as [[st s'] v]. destruct H as [Hwf' H]. specialize (IH s' Hwf').
  destruct (spool_run s' ops) as [s'' obs]. simpl.
  destruct H as [(-> & -> & -> & x & ->)|[Hne Hs]].
  - by rewrite decide_True.
  - rewrite decide_False, <-Hs by done. by rewrite !decide_True.
Qed.

Lemma spool_refines_stack_machine_witness :
  exists s obs, spool_run (mkSpool [] [] 0 0 0)
      [(false, undefined_value, Push undefined_value); (true, undefined_value, Pop)] = (s, obs) /\
    spec_run (mkAbstract [] []) [Push undefined_value; Pop] obs = Some (abstraction s).
Proof.
  pose proof (spool_refines_stack_machine 0 0 (mkSpool [] [] 0 0 0)
    [(false, undefined_value, Push undefined_value); (true, undefined_value, Pop)]
    ltac:(vm_compute; split; congruence) ltac:(vm_compute; split; congruence) eq_refl) as H.
  destruct (spool_run (mkSpool [] [] 0 0 0) _) as [s obs]. exists s, obs. split; [reflexivity|exact H].
Defined.
