(* ===== verification/ParallelMoves.v ===== *)
(** * Parallel moves (src/jit/optimizing/parallel_moves.c)

    A set of moves to be performed simultaneously is turned into a sequence.
    The two loops of the C code that need not terminate syntactically carry
    fuel; [None] is fuel exhaustion or an index outside the move array. *)

From S2P Require Import Prelude.
From S2P Require Import JitTypes.

Inductive TurboJSMoveLocationKind := TURBOJS_MOVE_REGISTER | TURBOJS_MOVE_SPILL_SLOT | TURBOJS_MOVE_SCRATCH.

#[export] Instance TurboJSMoveLocationKind_eq_dec : EqDecision TurboJSMoveLocationKind.
Proof. solve_decision. Defined.

Record TurboJSMoveLocation := mkLocation {
  ml_kind : TurboJSMoveLocationKind;
  ml_register_class : TurboJSRegisterClass;
  ml_index : Z
}.

#[export] Instance TurboJSMoveLocation_eq_dec : EqDecision TurboJSMoveLocation.
Proof. solve_decision. Defined.

Record TurboJSParallelMove := mkMove { mv_source : TurboJSMoveLocation; mv_destination : TurboJSMoveLocation }.

#[export] Instance TurboJSParallelMove_eq_dec : EqDecision TurboJSParallelMove.
Proof. solve_decision. Defined.

Definition loc_eq (a b : TurboJSMoveLocation) : bool := bool_decide (a = b).

(** A move is pending while its flag in [done] is clear. *)
Definition pending (done : list bool) (i : nat) : bool := bool_decide (done !! i = Some false).

Definition source_used (m : list TurboJSParallelMove) (done : list bool) (d : TurboJSMoveLocation) : bool :=
  existsb (fun i => match m !! i with
                    | Some x => pending done i && loc_eq (mv_source x) d
                                && negb (loc_eq (mv_source x) (mv_destination x))
                    | None => false
                    end) (seq 0 (length m)).

(** The local variables of the resolver. *)
Record Resolver := mkResolver {
  rs_done : list bool;
  rs_out : list TurboJSParallelMove;
  rs_left : Z;          (* size_t *)
  rs_progress : bool
}.

(** [for (i...) if (!done[i] && !source_used(...)) { r[o++] = m[i]; ... }] *)
Definition sweep_step (m : list TurboJSParallelMove) (i : nat) (s : Resolver) : Resolver :=
  match m !! i with
  | Some x =>
      if pending (rs_done s) i && negb (source_used m (rs_done s) (mv_destination x))
      then mkResolver (<[i := true]> (rs_done s)) (rs_out s ++ [x]) (uwrap 64 (rs_left s - 1)) true
      else s
  | None => s
  end.

Definition sweep (m : list TurboJSParallelMove) (s : Resolver) : Resolver :=
  for_range (length m) (sweep_step m) (mkResolver (rs_done s) (rs_out s) (rs_left s) false).

(** The index of the first pending move with the given destination. *)
Definition find_destination (m : list TurboJSParallelMove) (done : list bool) (want : TurboJSMoveLocation)
    : option nat :=
  List.find (fun k => match m !! k with
                      | Some x => pending done k && loc_eq (mv_destination x) want
                      | None => false
                      end) (seq 0 (length m)).

(** The [for (;;)] that follows a cycle from move [i]. *)
Fixpoint follow_cycle (fuel : nat) (m : list TurboJSParallelMove) (i : nat) (scratch : TurboJSMoveLocation)
    (j : nat) (s : Resolver) : option Resolver :=
  match fuel with
  | O => None
  | S fuel =>
      let? mi := m !! i in
      let? mj := m !! j in
      match find_destination m (rs_done s) (mv_source mj) with
      | None =>
          Some (mkResolver (<[j := true]> (rs_done s))
                  (rs_out s ++ [mkMove scratch (mv_destination mj)]) (uwrap 64 (rs_left s - 1)) (rs_progress s))
      | Some k =>
          let? mk := m !! k in
          let done := <[k := true]> (rs_done s) in
          let left := uwrap 64 (rs_left s - 1) in
          if loc_eq (mv_source mk) (mv_destination mi)
          then Some (mkResolver done (rs_out s ++ [mkMove scratch (mv_destination mk)]) left (rs_progress s))
          else follow_cycle fuel m i scratch k (mkResolver done (rs_out s ++ [mk]) left (rs_progress s))
      end
  end.

Inductive Resolution :=
  | Resolved (moves : list TurboJSParallelMove)
  | Refused (status : TurboJSIRStatus).

(** [while (left)] *)
Fixpoint resolve_loop (fuel : nat) (m : list TurboJSParallelMove) (iscratch fscratch : TurboJSMoveLocation) (s : Resolver)
    : option Resolution :=
  if rs_left s =? 0 then Some (Resolved (rs_out s))
  else
  match fuel with
  | O => None
  | S fuel =>
      let s := sweep m s in
      if rs_progress s then resolve_loop fuel m iscratch fscratch s
      else
        match List.find (pending (rs_done s)) (seq 0 (length m)) with
        | None => Some (Resolved (rs_out s))
        | Some i =>
            let? mi := m !! i in
            let scratch := if decide (ml_register_class (mv_source mi) = TURBOJS_REGISTER_CLASS_FLOAT64)
                           then fscratch else iscratch in
            if negb (bool_decide (ml_kind scratch = TURBOJS_MOVE_SCRATCH))
            then Some (Refused TURBOJS_IR_INVALID_ARGUMENT)
            else
              let s := mkResolver (rs_done s) (rs_out s ++ [mkMove (mv_source mi) scratch])
                         (rs_left s) (rs_progress s) in
              let? s := follow_cycle (S (length m)) m i scratch i s in
              resolve_loop fuel m iscratch fscratch s
        end
  end.

Definition trivial_move (x : TurboJSParallelMove) : bool := loc_eq (mv_source x) (mv_destination x).

(** [mem_done] and [mem_moves] answer the two [calloc]s. *)
Definition TurboJS_ResolveParallelMoves (mem_done mem_moves : bool) (m : list TurboJSParallelMove)
    (iscratch fscratch : TurboJSMoveLocation) : option Resolution :=
  if (length m =? 0)%nat then Some (Resolved [])
  else if negb mem_done || negb mem_moves then Some (Refused TURBOJS_IR_OUT_OF_MEMORY)
  else
    resolve_loop (S (length m)) m iscratch fscratch
      (mkResolver (map trivial_move m) []
         (Z.of_nat (length (filter (fun x => trivial_move x = false) m))) false).

(** ** Meaning of moves *)

Definition Env := TurboJSMoveLocation -> Z.
Definition move_env (e : Env) (x : TurboJSParallelMove) : Env :=
  fun l => if decide (l = mv_destination x) then e (mv_source x) else e l.

(** Sequential execution. *)
Definition run_moves (e : Env) (ms : list TurboJSParallelMove) : Env := foldl move_env e ms.

(** Simultaneous execution: every destination gets the old value of its source. *)
Definition parallel (m : list TurboJSParallelMove) (e e' : Env) : Prop :=
  (forall x, x ∈ m -> e' (mv_destination x) = e (mv_source x)) /\
  (forall l, (forall x, x ∈ m -> mv_destination x <> l) -> e' l = e l).

(** A swap of two integer registers with an integer scratch register. *)
Definition int_register (i : Z) : TurboJSMoveLocation :=
  mkLocation TURBOJS_MOVE_REGISTER TURBOJS_REGISTER_CLASS_INTEGER i.
Definition int_scratch : TurboJSMoveLocation :=
  mkLocation TURBOJS_MOVE_SCRATCH TURBOJS_REGISTER_CLASS_INTEGER 0.
Definition float_scratch : TurboJSMoveLocation :=
  mkLocation TURBOJS_MOVE_SCRATCH TURBOJS_REGISTER_CLASS_FLOAT64 0.
Definition swap_moves : list TurboJSParallelMove :=
  [mkMove (int_register 0) (int_register 1); mkMove (int_register 1) (int_register 0)].

(** Cycles are resolved wrongly: for the swap of two registers the
    resolver answers OK with a sequence that leaves the first register
    unchanged, for every initial content of the registers. *)
Theorem parallel_swap_miscompiled e :
  exists ms, TurboJS_ResolveParallelMoves true true swap_moves int_scratch float_scratch = Some (Resolved ms) /\
    run_moves e ms (int_register 0) = e (int_register 0) /\
    run_moves e ms (int_register 1) = e (int_register 0) /\
    (e (int_register 0) <> e (int_register 1) -> ~ parallel swap_moves e (run_moves e ms)).
Proof.
  eexists. split; [vm_compute; reflexivity|]. split; [reflexivity|]. split; [reflexivity|].
  intros Hne [Hp _]. apply Hne.
  specialize (Hp (mkMove (int_register 1) (int_register 0))). simpl in Hp. rewrite <-Hp; [reflexivity|].
  right. left.
Qed.

(** ** Acyclic sets of moves *)
Section Acyclic.
Context (m : list TurboJSParallelMove) (iscratch fscratch : TurboJSMoveLocation) (e0 : Env).

(** Destinations are distinct, and a rank orders every move after the moves
    that read its destination. *)
Definition distinct_destinations : Prop := NoDup (map mv_destination m).
Definition ranked (rank : nat -> nat) : Prop :=
  forall i j x y, m !! i = Some x -> m !! j = Some y -> trivial_move x = false -> trivial_move y = false ->
    mv_source y = mv_destination x -> (rank j < rank i)%nat.

Context (Hdist : distinct_destinations).

Lemma destination_inj i j x y :
  m !! i = Some x -> m !! j = Some y -> mv_destination x = mv_destination y -> i = j.
Proof.
  intros Hi Hj E. eapply (NoDup_lookup (map mv_destination m)); [done| |].
  - rewrite list_lookup_fmap, Hi. done.
  - rewrite list_lookup_fmap, Hj. simpl. congruence.
Qed.

(** The state of the resolver as long as it has used no scratch location. *)
Record resolving (s : Resolver) : Prop := {
  rv_length : length (rs_done s) = length m;
  rv_left : rs_left s = Z.of_nat (length (filter (fun b => b = false) (rs_done s)));
  rv_bound : Z.of_nat (length m) < 2 ^ 64;
  rv_trivial : forall i x, m !! i = Some x -> pending (rs_done s) i = true -> trivial_move x = false;
  rv_done : forall i x, m !! i = Some x -> pending (rs_done s) i = false ->
              run_moves e0 (rs_out s) (mv_destination x) = e0 (mv_source x);
  rv_pending : forall i x, m !! i = Some x -> pending (rs_done s) i = true ->
              run_moves e0 (rs_out s) (mv_source x) = e0 (mv_source x);
  rv_other : forall l, (forall x, x ∈ m -> mv_destination x <> l) -> run_moves e0 (rs_out s) l = e0 l
}.

Lemma pending_insert done i j : (i < length done)%nat ->
  pending (<[i := true]> done) j = if decide (i = j) then false else pending done j.
Proof.
  intros H. unfold pending. case_decide as E.
  - subst. rewrite list_lookup_insert_eq by done. by apply bool_decide_eq_false.
  - by rewrite list_lookup_insert_ne.
Qed.

Lemma count_false_insert done i : done !! i = Some false ->
  length (filter (fun b => b = false) done) = S (length (filter (fun b => b = false) (<[i := true]> done))).
Proof.
  intros H. rewrite <-(take_drop_middle _ _ _ H), filter_app, filter_cons, decide_True, length_app by done.
  assert (i < length done)%nat by (by eapply lookup_lt_Some).
  rewrite insert_app_r_alt by (rewrite length_take; lia).
  rewrite length_take, Nat.min_l, Nat.sub_diag by lia. simpl.
  rewrite filter_app, filter_cons, decide_False, length_app by done. simpl. lia.
Qed.

Lemma source_used_false done d :
  source_used m done d = false <->
  forall i x, m !! i = Some x -> pending done i = true -> trivial_move x = false -> mv_source x <> d.
Proof.
  unfold source_used. split.
  - intros H i x Hi Hp Ht E. apply not_true_iff_false in H. apply H. apply existsb_exists.
    exists i. split; [apply in_seq; apply lookup_lt_Some in Hi; lia|].
    unfold trivial_move in Ht. rewrite Hi, Hp, Ht. unfold loc_eq. by rewrite bool_decide_eq_true_2.
  - intros H. apply not_true_iff_false. intros (i & _ & Hi)%existsb_exists.
    destruct (m !! i) as [x|] eqn:E; [|done]. b2p. unfold loc_eq in *. b2p. eapply H; eauto.
    unfold trivial_move, loc_eq. by apply bool_decide_eq_false_2.
Qed.

Lemma run_moves_snoc ms x l : run_moves e0 (ms ++ [x]) l = move_env (run_moves e0 ms) x l.
Proof. unfold run_moves. by rewrite foldl_snoc. Qed.

(** Emitting an unblocked move keeps the invariant. *)
Lemma sweep_step_resolving i s : resolving s -> resolving (sweep_step m i s).
Proof.
  intros Hs. unfold sweep_step. destruct (m !! i) as [x|] eqn:Hi; [|done].
  destruct (pending (rs_done s) i) eqn:Hp; [|done]. destruct (source_used _ _ _) eqn:Hu; [done|]. simpl.
  rewrite source_used_false in Hu. destruct Hs as [Hl Hleft Hb Ht Hd Hpe Ho].
  assert (Hlt : (i < length (rs_done s))%nat) by (rewrite Hl; by eapply lookup_lt_Some).
  assert (Hf : rs_done s !! i = Some false) by (unfold pending in Hp; by b2p).
  pose proof (count_false_insert _ _ Hf) as Hcount.
  assert (length (filter (fun b => b = false) (rs_done s)) <= length m)%nat.
  { rewrite <-Hl. apply length_filter. }
  split; simpl; try done.
  - by rewrite length_insert.
  - rewrite uwrap_small; unfold is_u; lia.
  - intros j y Hj. rewrite pending_insert by done. case_decide; [done|]. eauto.
  - intros j y Hj. rewrite pending_insert by done. rewrite run_moves_snoc. unfold move_env. case_decide as E.
    + subst j. rewrite Hi in Hj. injection Hj as <-. intros _. rewrite decide_True by done. eauto.
    + intros Hnp. rewrite decide_False; [eauto|]. intros Eq. apply E. symmetry. by eapply destination_inj.
  - intros j y Hj. rewrite pending_insert by done. case_decide; [done|]. intros Hpj.
    rewrite run_moves_snoc. unfold move_env. rewrite decide_False; [eauto|]. eauto.
  - intros l Hnl. rewrite run_moves_snoc. unfold move_env. rewrite decide_False; [auto|].
    intros ->. apply (Hnl x); [|done]. by eapply list_elem_of_lookup_2.
Qed.

(** What a sweep guarantees besides the invariant. *)
Lemma sweep_effect s i x rank :
  resolving s -> ranked rank -> m !! i = Some x -> pending (rs_done s) i = true ->
  (forall j y, m !! j = Some y -> pending (rs_done s) j = true -> (rank i <= rank j)%nat) ->
  resolving (sweep m s) /\ rs_progress (sweep m s) = true /\
  (length (filter (fun b => b = false) (rs_done (sweep m s))) <
   length (filter (fun b => b = false) (rs_done s)))%nat.
Proof.
  intros Hs Hrank Hi Hp Hmin.
  assert (Hs0 : resolving (mkResolver (rs_done s) (rs_out s) (rs_left s) false)) by (destruct Hs; by split).
  set (P := fun (n : nat) (t : Resolver) => resolving t /\
    (forall j, pending (rs_done t) j = true -> pending (rs_done s) j = true) /\
    (length (filter (fun b => b = false) (rs_done t)) <= length (filter (fun b => b = false) (rs_done s)))%nat /\
    (rs_progress t = true -> length (filter (fun b => b = false) (rs_done t)) <
                            length (filter (fun b => b = false) (rs_done s)))%nat /\
    (rs_progress t = false -> rs_done t = rs_done s) /\
    ((i < n)%nat -> pending (rs_done t) i = false)).
  assert (P (length m) (sweep m s)) as (Hr & Hmono & _ & Hlt & Hsame & Hdone).
  { unfold sweep. apply (for_range_ind P).
    - split_and!; simpl; auto; [done|lia].
    - intros k t Hk (Hr & Hmono & Hle & Hlt & Hsame & Hdone).
      split; [by apply sweep_step_resolving|].
      unfold sweep_step. destruct (lookup_lt_is_Some_2 m k Hk) as [y Hy]. rewrite Hy.
      destruct (pending (rs_done t) k) eqn:Hpk; simpl.
      2:{ split_and!; auto. intros Hik. destruct (decide (i = k)) as [->|]; [done|]. apply Hdone. lia. }
      assert (Hk' : (k < length (rs_done t))%nat) by (rewrite (rv_length _ Hr); done).
      destruct (source_used m (rs_done t) (mv_destination y)) eqn:Hu; simpl.
      + split_and!; auto. intros Hik. destruct (decide (i = k)) as [->|]; [|apply Hdone; lia].
        rewrite Hi in Hy. injection Hy as <-.
        assert (source_used m (rs_done t) (mv_destination x) = false) as Hno; [|congruence].
        apply source_used_false. intros j z Hj Hpj Htz E.
        pose proof (Hrank _ _ _ _ Hi Hj (rv_trivial _ Hs _ _ Hi Hp) Htz E).
        specialize (Hmin _ _ Hj (Hmono _ Hpj)). lia.
      + assert (Hf : rs_done t !! k = Some false) by (unfold pending in Hpk; by b2p).
        pose proof (count_false_insert _ _ Hf). split_and!; auto; try lia.
        * intros j. rewrite pending_insert by done. case_decide; [done|]. auto.
        * intros Hik. rewrite pending_insert by done. case_decide; [done|]. apply Hdone. lia. }
  assert (Hi' : (i < length m)%nat) by (by eapply lookup_lt_Some).
  destruct (rs_progress (sweep m s)) eqn:Hprog; [by auto|].
  specialize (Hdone Hi'). rewrite Hsame in Hdone by done. congruence.
Qed.

(** A pending move of least rank exists while moves are left. *)
Lemma least_pending s (rank : nat -> nat) :
  resolving s -> rs_left s <> 0 ->
  exists i x, m !! i = Some x /\ pending (rs_done s) i = true /\
    forall j y, m !! j = Some y -> pending (rs_done s) j = true -> (rank i <= rank j)%nat.
Proof.
  intros [Hl Hleft _ _ _ _ _] Hne.
  assert (exists i, pending (rs_done s) i = true) as [i0 Hi0].
  { destruct (filter (fun b => b = false) (rs_done s)) as [|b l] eqn:E; [simpl in Hleft; lia|].
    assert (b ∈ filter (fun b => b = false) (rs_done s)) as [-> Hin]%list_elem_of_filter by (rewrite E; by left).
    apply list_elem_of_lookup in Hin as [i Hi]. exists i. by apply bool_decide_eq_true_2. }
  assert (forall n i, (rank i <= n)%nat -> pending (rs_done s) i = true ->
    exists k, pending (rs_done s) k = true /\
      forall j, pending (rs_done s) j = true -> (rank k <= rank j)%nat) as Hmin.
  { induction n as [|n IH]; intros i Hn Hp.
    - exists i. split; [done|]. intros. lia.
    - destruct (decide (Exists (fun j => pending (rs_done s) j = true /\ (rank j < rank i)%nat)
                          (seq 0 (length m)))) as [(j & _ & Hj & Hlt)%Exists_exists|Hno];
        [apply (IH j); [lia|done]|].
      exists i. split; [done|]. intros j Hj. destruct (decide (rank i <= rank j)%nat); [done|].
      exfalso. apply Hno. apply Exists_exists. exists j. split; [|split; [done|lia]].
      unfold pending in Hj. b2p. apply lookup_lt_Some in Hj. apply elem_of_seq. lia. }
  destruct (Hmin (rank i0) i0) as (k & Hk & Hleast); [lia|done|].
  assert (is_Some (m !! k)) as [x Hx].
  { apply lookup_lt_is_Some. unfold pending in Hk. b2p. apply lookup_lt_Some in Hk. lia. }
  exists k, x. split_and!; [done|done|]. intros j y _ Hj. by apply Hleast.
Qed.

Lemma resolve_loop_acyclic rank fuel s :
  resolving s -> ranked rank -> (length (filter (fun b => b = false) (rs_done s)) <= fuel)%nat ->
  exists ms, resolve_loop fuel m iscratch fscratch s = Some (Resolved ms) /\ parallel m e0 (run_moves e0 ms).
Proof.
  intros Hs Hrank. revert s Hs. induction fuel as [|fuel IH]; intros s Hs Hf; simpl.
  - assert (rs_left s = 0) as -> by (destruct Hs; lia). simpl.
    exists (rs_out s). split; [done|]. split; [|apply Hs].
    intros x [i Hi]%list_elem_of_lookup. apply (rv_done _ Hs i x Hi).
    destruct (pending (rs_done s) i) eqn:Hp; [|done]. exfalso. unfold pending in Hp. b2p.
    apply count_false_insert in Hp. lia.
  - destruct (Z.eqb_spec (rs_left s) 0) as [Hz|Hz].
    + exists (rs_out s). split; [done|]. split; [|apply Hs].
      intros x [i Hi]%list_elem_of_lookup. apply (rv_done _ Hs i x Hi).
      destruct (pending (rs_done s) i) eqn:Hp; [|done]. exfalso. unfold pending in Hp. b2p.
      apply count_false_insert in Hp. destruct Hs; lia.
    + destruct (least_pending s rank Hs Hz) as (i & x & Hi & Hp & Hmin).
      destruct (sweep_effect s i x rank Hs Hrank Hi Hp Hmin) as (Hs' & Hprog & Hlt).
      rewrite Hprog. apply IH; [done|lia].
Qed.
End Acyclic.

Lemma initial_resolving m e0 :
  Z.of_nat (length m) < 2 ^ 64 ->
  resolving m e0 (mkResolver (map trivial_move m) []
    (Z.of_nat (length (filter (fun x => trivial_move x = false) m))) false).
Proof.
  intros Hb.
  assert (forall i x, m !! i = Some x -> pending (map trivial_move m) i = negb (trivial_move x)) as Hpend.
  { intros i x Hi. unfold pending. rewrite list_lookup_fmap, Hi. simpl.
    destruct (trivial_move x); [by apply bool_decide_eq_false_2|by apply bool_decide_eq_true_2]. }
  split; simpl; try done.
  - apply length_map.
  - f_equal. clear. induction m as [|x m IH]; [done|]. rewrite filter_cons. simpl. rewrite filter_cons.
    destruct (trivial_move x); simpl; [done|]. by rewrite IH.
  - intros i x Hi. rewrite (Hpend i x Hi). by destruct (trivial_move x).
  - intros i x Hi. rewrite (Hpend i x Hi). destruct (trivial_move x) eqn:E; [|done]. intros _.
    unfold trivial_move, loc_eq in E. b2p. congruence.
Qed.

(** C28 Acyclic parallel moves are compiled correctly: when the destinations
    are distinct and some order of the moves puts every reader of a location
    before its writer, the resolver terminates with a sequence whose
    execution is the simultaneous execution of the moves. *)
Theorem parallel_moves_acyclic_correct m iscratch fscratch rank e :
  distinct_destinations m -> ranked m rank -> Z.of_nat (length m) < 2 ^ 64 ->
  exists ms, TurboJS_ResolveParallelMoves true true m iscratch fscratch = Some (Resolved ms) /\
    parallel m e (run_moves e ms).
Proof.
  intros Hd Hr Hb. unfold TurboJS_ResolveParallelMoves.
  destruct (Nat.eqb_spec (length m) 0) as [E|Hne].
  - exists []. split; [done|]. apply length_zero_iff_nil in E as ->. split; [|done].
    intros x H. by apply not_elem_of_nil in H.
  - simpl negb. cbn [orb]. eapply resolve_loop_acyclic; [done|by apply initial_resolving|done|].
    simpl. etransitivity; [apply length_filter|]. rewrite length_map. lia.
Qed.

(** A shift of three registers: r0 -> r1 -> r2. *)
Lemma parallel_moves_acyclic_correct_witness :
  let m := [mkMove (int_register 0) (int_register 1); mkMove (int_register 1) (int_register 2)] in
  exists ms, TurboJS_ResolveParallelMoves true true m int_scratch float_scratch = Some (Resolved ms) /\
    parallel m ml_index (run_moves ml_index ms).
Proof.
  intros m. apply (parallel_moves_acyclic_correct m int_scratch float_scratch (fun i => (2 - i)%nat) ml_index).
  - apply NoDup_cons. split; [|apply NoDup_singleton]. intros H%list_elem_of_singleton. discriminate H.
  - intros [|[|i]] [|[|j]] x y; simpl; intros Hi Hj; simplify_eq; simpl; intros _ _ E; try discriminate E; lia.
  - reflexivity.
Defined.
