(* ===== verification/BytecodeToIR.v ===== *)
(** * Compact bytecode to IR (src/jit/frontend/bytecode_to_ir.c) *)

From S2P Require Import Prelude.
From S2P Require Import JitTypes.
From S2P Require Import IR.
From S2P Require Import IRVerify.
From S2P Require Import IRInterp.
From S2P Require Import Aot.

(** [TURBOJS_BC_OTHER c] is an opcode field that names no enumerator. *)
Inductive TurboJSBytecodeOpcode :=
  | TURBOJS_BC_ARGUMENT | TURBOJS_BC_CONSTANT_I64 | TURBOJS_BC_ADD_I64 | TURBOJS_BC_SUB_I64
  | TURBOJS_BC_MUL_I64 | TURBOJS_BC_LESS_THAN_I64 | TURBOJS_BC_JUMP | TURBOJS_BC_BRANCH_TRUE
  | TURBOJS_BC_RETURN_I64 | TURBOJS_BC_OTHER (code : Z).

Record TurboJSBytecodeInstruction := mkBytecode {
  bc_opcode : TurboJSBytecodeOpcode;
  bc_destination : Z;
  bc_left : Z;
  bc_right : Z;
  bc_immediate : Z;
  bc_target : Z
}.

Record TurboJSBytecodeFunction := mkBytecodeFunction {
  bf_instructions : list TurboJSBytecodeInstruction;
  bf_register_count : Z;
  bf_argument_count : Z
}.

(** The switch on the opcode; [None] is its default case. *)
Definition translate_opcode (op : TurboJSBytecodeOpcode) : option TurboJSIROpcode :=
  match op with
  | TURBOJS_BC_ARGUMENT => Some TURBOJS_IR_ARGUMENT
  | TURBOJS_BC_CONSTANT_I64 => Some TURBOJS_IR_CONSTANT_I64
  | TURBOJS_BC_ADD_I64 => Some TURBOJS_IR_ADD_I64
  | TURBOJS_BC_SUB_I64 => Some TURBOJS_IR_SUB_I64
  | TURBOJS_BC_MUL_I64 => Some TURBOJS_IR_MUL_I64
  | TURBOJS_BC_LESS_THAN_I64 => Some TURBOJS_IR_LESS_THAN_I64
  | TURBOJS_BC_JUMP => Some TURBOJS_IR_JUMP
  | TURBOJS_BC_BRANCH_TRUE => Some TURBOJS_IR_BRANCH_TRUE
  | TURBOJS_BC_RETURN_I64 => Some TURBOJS_IR_RETURN_I64
  | TURBOJS_BC_OTHER _ => None
  end.

Definition translate (src : TurboJSBytecodeInstruction) : option TurboJSIRInstruction :=
  let? op := translate_opcode (bc_opcode src) in
  Some (mkInstruction op (bc_destination src) (bc_left src) (bc_right src) (bc_immediate src) (bc_target src) 0).

(** The translation loop; [mem i] answers the growth request of emission [i]. *)
Fixpoint translate_loop (mem : nat -> bool) (out : TurboJSIRFunction) (i : nat)
    (src : list TurboJSBytecodeInstruction) : TurboJSIRDiagnostic + TurboJSIRFunction :=
  match src with
  | [] => inr out
  | b :: src =>
      match translate b with
      | None => inl (mkDiagnostic TURBOJS_IR_INVALID_OPCODE (Z.of_nat i) "unknown bytecode opcode")
      | Some dst =>
          match TurboJS_IREmit (mem i) out dst with
          | (out, TURBOJS_IR_OK) => translate_loop mem out (S i) src
          | _ => inl (mkDiagnostic TURBOJS_IR_OUT_OF_MEMORY (Z.of_nat i) "unable to append IR instruction")
          end
      end
  end.

(** The outer [None] is the verifier following a wild call-site address. *)
Definition TurboJS_BytecodeToIR (hp : Heap) (mem : nat -> bool) (next : Z) (bc : TurboJSBytecodeFunction)
    : option (TurboJSIRDiagnostic + TurboJSIRFunction) :=
  if TURBOJS_IR_MAX_REGISTERS <? bf_register_count bc
  then Some (inl (mkDiagnostic TURBOJS_IR_INVALID_REGISTER 0 "bytecode register limit exceeded"))
  else
    let out := (TurboJS_IRFunctionInit next (bf_argument_count bc)).1 in
    let out := f_set_counts out (bf_register_count bc) (f_argument_count out) (f_local_count out) in
    match translate_loop mem out 0 (bf_instructions bc) with
    | inl d => Some (inl d)
    | inr out =>
        let? d := TurboJS_IRVerify hp out in
        if bool_decide (dg_status d = TURBOJS_IR_OK) then Some (inr out) else Some (inl d)
    end.

(** ** Correctness *)

Lemma translate_loop_ok mem out i src g :
  translate_loop mem out i src = inr g ->
  exists l, mapM translate src = Some l /\ f_instructions g = f_instructions out ++ l /\
    f_register_count g = f_register_count out /\ f_argument_count g = f_argument_count out /\
    f_local_count g = f_local_count out.
Proof.
  revert out i. induction src as [|b src IH]; intros out i; simpl.
  - intros [= <-]. exists []. by rewrite app_nil_r.
  - destruct (translate b) as [dst|]; [|done].
    destruct (TurboJS_IREmit (mem i) out dst) as [o []] eqn:E; try done.
    intros (l & Hl & Hi & Hr & Ha & Hlo)%IH. apply emit_ok_counts in E as (Ei & Er & Ea & El).
    exists (dst :: l). simpl. rewrite Hl, Hi, Ei, <-app_assoc. split_and!; [done|done|congruence..].
Qed.

Lemma translate_loop_total out i src l :
  mapM translate src = Some l -> exists g, translate_loop (fun _ => true) out i src = inr g.
Proof.
  revert out i l. induction src as [|b src IH]; intros out i l; simpl; [eauto|].
  destruct (translate b) as [dst|]; [|done]. simpl. destruct (mapM translate src) as [l'|]; [|done].
  intros _. unfold TurboJS_IREmit. rewrite andb_false_r. eapply IH. done.
Qed.

Lemma translated_no_native src l i :
  mapM translate src = Some l -> i ∈ l ->
  in_opcode i <> TURBOJS_IR_CALL_NATIVE_I64 /\ in_opcode i <> TURBOJS_IR_CALL_NATIVE_F64.
Proof.
  intros H Hin. apply mapM_Some in H. apply list_elem_of_lookup in Hin as [k Hk].
  destruct (Forall2_lookup_r _ _ _ _ _ H Hk) as (b & _ & Hb).
  unfold translate in Hb. destruct (bc_opcode b); simpl in Hb; simplify_eq; done.
Qed.

(** The bytecode frontend is sound and never goes wrong: it always
    produces a status; a function it delivers is the instruction-by-
    instruction translation of the bytecode, passed verification, has no
    locals and can be executed without leaving the interpreter's arrays; and
    with enough memory it delivers exactly when every opcode is known, the
    register count is at most 64 and the translation passes verification. *)
Theorem bytecode_to_ir_correct hp mem next bc :
  exists r, TurboJS_BytecodeToIR hp mem next bc = Some r /\
  (forall g, r = inr g ->
     mapM translate (bf_instructions bc) = Some (f_instructions g) /\ ir_accepted hp g /\
     f_register_count g = bf_register_count bc /\ f_argument_count g = bf_argument_count bc /\
     forall native_i64 native_f64 arguments,
       TurboJS_IRExecute hp native_i64 native_f64 g arguments <> Undef UB_memory) /\
  (forall l, mapM translate (bf_instructions bc) = Some l -> (forall k, mem k = true) ->
     ir_accepted hp (f_set_instructions (f_set_counts zero_function (bf_register_count bc) (bf_argument_count bc) 0) l 0) ->
     exists g, r = inr g).
Proof.
  unfold TurboJS_BytecodeToIR. destruct (Z.ltb_spec TURBOJS_IR_MAX_REGISTERS (bf_register_count bc)) as [Hgt|Hle].
  { eexists. split; [done|]. split; [done|]. intros l _ _ [Hr _ _]. simpl in Hr. lia. }
  set (out := f_set_counts _ _ _ _).
  destruct (translate_loop mem out 0 (bf_instructions bc)) as [d|g] eqn:E.
  { eexists. split; [done|]. split; [done|]. intros l Hl Hmem _. exfalso.
    destruct (translate_loop_total out 0 (bf_instructions bc) l Hl) as [g Hg].
    assert (forall o k s, translate_loop mem o k s = translate_loop (fun _ => true) o k s) as Heq.
    { intros o k s. revert o k. induction s as [|b s IH]; intros o k; simpl; [done|]. rewrite Hmem.
      repeat case_match; auto. }
    rewrite Heq in E. congruence. }
  apply translate_loop_ok in E as (l & Hl & Hi & Hr & Ha & Hlo). simpl in Hi.
  destruct (TurboJS_IRVerify hp g) as [d|] eqn:Hv.
  2:{ exfalso. destruct (verify_undefined _ _ Hv) as (i & Hin & [[Hop|Hop] _]); rewrite Hi in Hin;
        destruct (translated_no_native _ _ _ Hl Hin); done. }
  case_bool_decide as Hs.
  - exists (inr g). split; [done|]. split; [|eauto]. intros g' [= <-].
    apply (ir_verify_status_ok hp g) in Hs as ->; [|done].
    split_and!; [congruence|by apply ir_verify_ok_iff|done|done|].
    intros. apply ir_execute_no_memory_ub; [by rewrite Hv|]. rewrite Hlo. simpl. unfold TURBOJS_IR_MAX_REGISTERS. lia.
  - exists (inl d). split; [done|]. split; [done|]. intros l' Hl' _ Hacc. exfalso. apply Hs.
    rewrite Hl in Hl'. injection Hl' as <-.
    assert (same_code (f_set_instructions (f_set_counts zero_function (bf_register_count bc)
      (bf_argument_count bc) 0) l 0) g) as Hsc by (split; simpl; [done|by rewrite Hr|by rewrite Ha|by rewrite Hlo]).
    apply ir_verify_ok_iff in Hacc. rewrite Hsc, Hv in Hacc. by injection Hacc as ->.
Qed.
