(* ===== verification/Deopt.v ===== *)
(** * Boxing of deoptimization frames (src/jit/ir/deopt_boxing.c)

    A native frame that bailed out is turned into boxed values for the slow
    path; heap references are rooted through the embedder's hooks, and the
    roots are released when the boxed frame is destroyed.  Hook calls are
    logged.  The C arrays of a native frame have 64 entries. *)

From S2P Require Import Prelude.
From S2P Require Import JitTypes.
From S2P Require Import Clutch.
From S2P Require Import IR.
From S2P Require Import IRVerify.
From S2P Require Import IRInterp.
From S2P Require Import Spool.

Record TurboJSBoxedDeoptFrame := mkBoxedFrame {
  bf_bailout : TurboJSBailoutInfo;
  bf_register_count : Z;
  bf_local_count : Z;
  bf_stack_count : Z;
  bf_live_register_mask : Z;
  bf_live_local_mask : Z;
  bf_registers : list TurboJSBoxedValue;
  bf_locals : list TurboJSBoxedValue;
  bf_stack : list TurboJSBoxedValue;
  bf_reference_register_mask : Z;
  bf_reference_local_mask : Z;
  bf_rooting : TurboJSRootingHooks
}.

(** The boxed value and whether it was rooted. *)
Definition box_value (value : Z) (kind : TurboJSValueKind) (rooting : option TurboJSRootingHooks)
    : TurboJSBoxedValue * bool :=
  match kind with
  | TURBOJS_VALUE_I32 => (mkBoxed TURBOJS_BOXED_INT32 (swrap 32 value), false)
  | TURBOJS_VALUE_BOOLEAN => (mkBoxed TURBOJS_BOXED_BOOLEAN (if value =? 0 then 0 else 1), false)
  | TURBOJS_VALUE_I64 => (mkBoxed TURBOJS_BOXED_INT64 value, false)
  | TURBOJS_VALUE_F64 => (mkBoxed TURBOJS_BOXED_FLOAT64 value, false)
  | TURBOJS_VALUE_CALLABLE_REFERENCE => (mkBoxed TURBOJS_BOXED_CALLABLE_REFERENCE value, false)
  | TURBOJS_VALUE_HEAP_REFERENCE =>
      if value =? 0 then (mkBoxed TURBOJS_BOXED_HEAP_REFERENCE 0, false)
      else match rooting with
           | Some (mkHooks (Some retain) true) =>
               let rooted := retain value in
               if rooted =? 0 then (mkBoxed TURBOJS_BOXED_UNDEFINED 0, false)
               else (mkBoxed TURBOJS_BOXED_HEAP_REFERENCE rooted, true)
           | _ => (mkBoxed TURBOJS_BOXED_UNDEFINED 0, false)
           end
  | TURBOJS_VALUE_UNKNOWN => (mkBoxed TURBOJS_BOXED_UNDEFINED 0, false)
  end.

(** One of the two boxing loops: cells, reference mask and hook calls. *)
Definition BoxLoop := (list TurboJSBoxedValue * Z * list RootEvent)%type.

Definition box_step (mask : Z) (values : list Z) (kinds : list TurboJSValueKind)
    (rooting : option TurboJSRootingHooks) (i : nat) (s : BoxLoop) : BoxLoop :=
  let '(cells, refs, events) := s in
  if Z.testbit mask (Z.of_nat i) then
    let '(b, rooted) := box_value (default 0 (values !! i)) (default TURBOJS_VALUE_UNKNOWN (kinds !! i)) rooting in
    (<[i := b]> cells,
     if rooted then Z.lor refs (Z.shiftl 1 (Z.of_nat i)) else refs,
     if rooted then events ++ [Retained (bx_as b)] else events)
  else s.

Definition box_loop (count : nat) (mask : Z) (values : list Z) (kinds : list TurboJSValueKind)
    (rooting : option TurboJSRootingHooks) : BoxLoop :=
  for_range count (box_step mask values kinds rooting) (replicate count undefined_value, 0, []).

(** The release loop of the destructor. *)
Definition release_loop (count : nat) (refs : Z) (cells : list TurboJSBoxedValue) : list RootEvent :=
  for_range count (fun i events =>
    if Z.testbit refs (Z.of_nat i)
    then events ++ [Released (bx_as (default undefined_value (cells !! i)))] else events) [].

Definition TurboJS_BoxedDeoptFrameDestroy (f : TurboJSBoxedDeoptFrame) : list RootEvent :=
  if rh_release (bf_rooting f)
  then release_loop (Z.to_nat (bf_register_count f)) (bf_reference_register_mask f) (bf_registers f) ++
       release_loop (Z.to_nat (bf_local_count f)) (bf_reference_local_mask f) (bf_locals f)
  else [].

(** [mem] answers the three [calloc]s in order; the log holds the hook calls. *)
Definition TurboJS_BoxDeoptFrameRooted (mem : nat -> bool) (n : TurboJSDeoptFrame)
    (rooting : option TurboJSRootingHooks)
    : TurboJSIRStatus * option TurboJSBoxedDeoptFrame * list RootEvent :=
  let mismatched := match rooting with
                    | Some h => negb (Bool.eqb (bool_decide (is_Some (rh_retain h))) (rh_release h))
                    | None => false
                    end in
  if mismatched then (TURBOJS_IR_INVALID_ARGUMENT, None, [])
  else if (negb (df_register_count n =? 0) && negb (mem 0%nat))
       || (negb (df_local_count n =? 0) && negb (mem 1%nat))
       || (negb (df_stack_count n =? 0) && negb (mem 2%nat))
  then (TURBOJS_IR_OUT_OF_MEMORY, None, [])
  else
    let '(registers, rmask, revents) :=
      box_loop (Z.to_nat (df_register_count n)) (df_materialized_register_mask n)
        (df_register_values n) (df_register_kinds n) rooting in
    let '(locals, lmask, levents) :=
      box_loop (Z.to_nat (df_local_count n)) (df_materialized_local_mask n)
        (df_local_values n) (df_local_kinds n) rooting in
    (TURBOJS_IR_OK,
     Some (mkBoxedFrame (df_bailout n) (df_register_count n) (df_local_count n) (df_stack_count n)
             (df_live_register_mask n) (df_live_local_mask n) registers locals
             (replicate (Z.to_nat (df_stack_count n)) undefined_value) rmask lmask
             (default no_hooks rooting)),
     revents ++ levents).

Definition TurboJS_BoxDeoptFrame (mem : nat -> bool) (n : TurboJSDeoptFrame)
    : TurboJSIRStatus * option TurboJSBoxedDeoptFrame * list RootEvent :=
  TurboJS_BoxDeoptFrameRooted mem n None.

(** [slow_path] is the embedder's callback: the boxed frame and the failed
    instruction to a status and a result. *)
Definition TurboJS_IRResumeWithSlowPath (hp : Heap)
    (native_i64 native_f64 : Z -> list Z -> TurboJSIRStatus * Z) (mem : nat -> bool)
    (f : TurboJSIRFunction) (n : TurboJSDeoptFrame)
    (slow_path : TurboJSBoxedDeoptFrame -> TurboJSIRInstruction -> TurboJSIRStatus * TurboJSBoxedValue)
    : Outcome :=
  match f_instructions f !! Z.to_nat (bo_instruction_index (df_bailout n)) with
  | None => Stop TURBOJS_IR_INVALID_ARGUMENT
  | Some failed =>
      match TurboJS_BoxDeoptFrame mem n with
      | (TURBOJS_IR_OK, Some boxed, _) =>
          match slow_path boxed failed with
          | (TURBOJS_IR_OK, r) =>
              match bx_tag r with
              | TURBOJS_BOXED_INT32 | TURBOJS_BOXED_INT64 | TURBOJS_BOXED_BOOLEAN =>
                  TurboJS_IRResumeAfterBailout hp native_i64 native_f64 f n (bx_as r)
              | _ => Stop TURBOJS_IR_UNSUPPORTED
              end
          | (st, _) => Stop st
          end
      | (st, _, _) => Stop st
      end
  end.

(** ** Boxing and releasing *)

Lemma box_rooted value kind rooting b :
  box_value value kind rooting = (b, true) ->
  exists retain, rooting = Some (mkHooks (Some retain) true) /\ kind = TURBOJS_VALUE_HEAP_REFERENCE /\
    bx_tag b = TURBOJS_BOXED_HEAP_REFERENCE /\ bx_as b = retain value /\ retain value <> 0.
Proof.
  unfold box_value. destruct kind; try (intros [= ]; fail).
  destruct (value =? 0); [done|]. destruct rooting as [[[retain|] []]|]; try done.
  destruct (Z.eqb_spec (retain value) 0); [done|]. intros [= <-]. eauto 10.
Qed.

(** The log of the boxing loop read off its cells and mask. *)
Definition rooted_cells (n : nat) (refs : Z) (cells : list TurboJSBoxedValue) : list Z :=
  omap (fun i => if Z.testbit refs (Z.of_nat i)
                 then Some (bx_as (default undefined_value (cells !! i))) else None) (seq 0 n).

Lemma release_loop_cells n refs cells : release_loop n refs cells = map Released (rooted_cells n refs cells).
Proof.
  unfold release_loop, rooted_cells.
  apply (for_range_ind (fun n e => e = map Released (omap (fun i => if Z.testbit refs (Z.of_nat i)
    then Some (bx_as (default undefined_value (cells !! i))) else None) (seq 0 n)))); [done|].
  intros i e _ ->. rewrite seq_S, omap_app, map_app. simpl. case_match; by rewrite ?app_nil_r.
Qed.

Lemma rooted_cells_ext n refs refs' cells cells' :
  (forall i, (i < n)%nat -> Z.testbit refs (Z.of_nat i) = Z.testbit refs' (Z.of_nat i) /\ cells !! i = cells' !! i) ->
  rooted_cells n refs cells = rooted_cells n refs' cells'.
Proof.
  intros H. unfold rooted_cells.
  assert (forall l : list nat, (forall i, i ∈ l -> (i < n)%nat) ->
    omap (fun i => if Z.testbit refs (Z.of_nat i) then Some (bx_as (default undefined_value (cells !! i))) else None) l =
    omap (fun i => if Z.testbit refs' (Z.of_nat i) then Some (bx_as (default undefined_value (cells' !! i))) else None) l)
    as Hl.
  { induction l as [|i l IH]; intros Hi; [done|]. unfold omap. cbn [list_omap].
    destruct (H i) as [-> ->]; [apply Hi; by left|]. assert (forall j, j ∈ l -> (j < n)%nat) as Hj
      by (intros j Hj; apply Hi; by right). specialize (IH Hj). unfold omap in IH |- *. by rewrite IH. }
  apply Hl. intros i [_ ?]%elem_of_seq. lia.
Qed.

(** The boxing loop retains exactly the references its mask records. *)
Lemma box_loop_roots n mask values kinds rooting :
  let '(cells, refs, events) := box_loop n mask values kinds rooting in
  length cells = n /\ events = map Retained (rooted_cells n refs cells) /\
  (forall i, (n <= i)%nat -> Z.testbit refs (Z.of_nat i) = false) /\
  (rooted_cells n refs cells <> [] -> exists h, rooting = Some h /\ rh_release h = true).
Proof.
  unfold box_loop.
  set (P := fun (k : nat) (s : BoxLoop) => let '(cells, refs, events) := s in
    length cells = n /\ events = map Retained (rooted_cells k refs cells) /\
    (forall i, (k <= i)%nat -> Z.testbit refs (Z.of_nat i) = false) /\
    (rooted_cells k refs cells <> [] -> exists h, rooting = Some h /\ rh_release h = true)).
  enough (P n (for_range n (box_step mask values kinds rooting) (replicate n undefined_value, 0, []))) as H.
  { by destruct (for_range _ _ _) as [[cells refs] events]. }
  apply for_range_ind.
  - simpl. split_and!; [apply length_replicate|done| |done]. intros. apply Z.bits_0.
  - intros i [[cells refs] events] Hi (Hl & Hev & Hrefs & Hroot). unfold box_step.
    destruct (Z.testbit mask (Z.of_nat i)).
    2:{ assert (rooted_cells (S i) refs cells = rooted_cells i refs cells) as E.
        { unfold rooted_cells. rewrite seq_S, omap_app. simpl. rewrite Hrefs by lia. by rewrite app_nil_r. }
        split_and!; [done|by rewrite E|intros; apply Hrefs; lia|by rewrite E]. }
    destruct (box_value _ _ _) as [b rooted] eqn:Eb.
    assert (Hsame : rooted_cells i (if rooted then Z.lor refs (Z.shiftl 1 (Z.of_nat i)) else refs)
        (<[i := b]> cells) = rooted_cells i refs cells).
    { apply rooted_cells_ext. intros j Hj. rewrite list_lookup_insert_ne by lia. split; [|done].
      destruct rooted; [|done]. rewrite Z.lor_spec, Z.shiftl_spec by lia.
      rewrite (Z.testbit_neg_r 1) by lia. apply orb_false_r. }
    assert (Hstep : rooted_cells (S i) (if rooted then Z.lor refs (Z.shiftl 1 (Z.of_nat i)) else refs)
        (<[i := b]> cells) = rooted_cells i refs cells ++ (if rooted then [bx_as b] else [])).
    { unfold rooted_cells at 1. rewrite seq_S, omap_app. fold (rooted_cells i
        (if rooted then Z.lor refs (Z.shiftl 1 (Z.of_nat i)) else refs) (<[i:=b]> cells)). rewrite Hsame. f_equal.
      simpl. rewrite list_lookup_insert_eq by lia. destruct rooted.
      - rewrite Z.lor_spec, Z.shiftl_spec, Z.sub_diag, orb_true_r by lia. done.
      - rewrite Hrefs by lia. done. }
    split_and!.
    + by rewrite length_insert.
    + rewrite Hstep, Hev, map_app. by destruct rooted; rewrite ?app_nil_r.
    + intros j Hj. destruct rooted; [|apply Hrefs; lia]. rewrite Z.lor_spec, Hrefs, Z.shiftl_spec by lia.
      simpl. destruct (Z.of_nat j - Z.of_nat i) eqn:Ed; try lia. done.
    + rewrite Hstep. destruct rooted; [|by rewrite app_nil_r].
      intros _. apply box_rooted in Eb as (retain & -> & _). eauto.
Qed.

(** C26 Roots are balanced across deoptimization: whatever the frame, the hooks
    and the allocator answers, destroying the boxed frame releases exactly
    the references that boxing retained, in the same order; and when boxing
    reports a failure it has retained nothing. *)
Theorem deopt_roots_balanced mem n rooting :
  df_register_count n <= 64 -> df_local_count n <= 64 ->
  match TurboJS_BoxDeoptFrameRooted mem n rooting with
  | (st, None, events) => st <> TURBOJS_IR_OK /\ events = []
  | (st, Some boxed, events) =>
      st = TURBOJS_IR_OK /\ released (TurboJS_BoxedDeoptFrameDestroy boxed) = retained events /\
      (forall i b, bf_registers boxed !! i = Some b ->
         bx_tag b = TURBOJS_BOXED_HEAP_REFERENCE -> bx_as b <> 0 ->
         Z.testbit (bf_reference_register_mask boxed) (Z.of_nat i) = true -> bx_as b ∈ retained events)
  end.
Proof.
  intros _ _. unfold TurboJS_BoxDeoptFrameRooted. destruct (match rooting with Some h => _ | None => _ end) eqn:Em;
    [split; [discriminate|reflexivity]|].
  match goal with |- context [if ?b then _ else _] => destruct b end; [split; [discriminate|reflexivity]|].
  pose proof (box_loop_roots (Z.to_nat (df_register_count n)) (df_materialized_register_mask n)
    (df_register_values n) (df_register_kinds n) rooting) as Hr.
  destruct (box_loop _ _ (df_register_values n) _ _) as [[regs rmask] revents]. destruct Hr as (Hlr & -> & Hbr & Hr).
  pose proof (box_loop_roots (Z.to_nat (df_local_count n)) (df_materialized_local_mask n)
    (df_local_values n) (df_local_kinds n) rooting) as Hl.
  destruct (box_loop _ _ (df_local_values n) _ _) as [[locs lmask] levents]. destruct Hl as (Hll & -> & Hbl & Hl).
  assert (Hret : forall l, retained (map Retained l) = l) by (induction l; simpl; congruence).
  assert (Hrel : forall l, released (map Released l) = l) by (induction l; simpl; congruence).
  split; [done|]. rewrite retained_app, !Hret. split.
  - unfold TurboJS_BoxedDeoptFrameDestroy. simpl. rewrite !release_loop_cells.
    destruct (rh_release (default no_hooks rooting)) eqn:Eh.
    + by rewrite released_app, !Hrel.
    + assert (forall l : list Z, (l <> [] -> exists h, rooting = Some h /\ rh_release h = true) -> l = []) as Hnil.
      { intros [|x l] Hx; [done|]. destruct Hx as (h & -> & Hh); [done|]. simpl in Eh. congruence. }
      by rewrite (Hnil _ Hr), (Hnil _ Hl).
  - simpl. intros i b Hi _ _ Hbit. apply elem_of_app. left. unfold rooted_cells.
    apply list_elem_of_omap. exists i. assert (i < Z.to_nat (df_register_count n))%nat
      by (apply lookup_lt_Some in Hi; lia).
    split; [apply elem_of_seq; lia|]. by rewrite Hbit, Hi.
Qed.

(** What the slow path finds in the cells. *)
Lemma box_loop_cells n mask values kinds rooting i :
  (i < n)%nat ->
  (box_loop n mask values kinds rooting).1.1 !! i =
    Some (if Z.testbit mask (Z.of_nat i)
          then (box_value (default 0 (values !! i)) (default TURBOJS_VALUE_UNKNOWN (kinds !! i)) rooting).1
          else undefined_value).
Proof.
  intros Hi. unfold box_loop.
  set (cell := if Z.testbit mask (Z.of_nat i) then _ else _).
  set (P := fun (k : nat) (s : BoxLoop) => length s.1.1 = n /\
    s.1.1 !! i = Some (if (i <? k)%nat then cell else undefined_value)).
  assert (P n (for_range n (box_step mask values kinds rooting) (replicate n undefined_value, 0, []))) as [_ H].
  { apply for_range_ind.
    - split; simpl; [apply length_replicate|by apply lookup_replicate_2].
    - intros k [[cells refs] events] Hk [Hl Hc]. simpl in *. unfold box_step.
      destruct (decide (k = i)) as [->|Hne].
      + rewrite Nat.ltb_irrefl in Hc. unfold P, cell. rewrite (proj2 (Nat.ltb_lt i (S i))) by lia.
        destruct (Z.testbit mask (Z.of_nat i)); [|done]. destruct (box_value _ _ _) as [b rooted]. cbn [fst snd].
        rewrite length_insert, list_lookup_insert_eq by lia. done.
      + assert ((i <? S k)%nat = (i <? k)%nat) as E.
        { destruct (Nat.ltb_spec i (S k)), (Nat.ltb_spec i k); lia || done. }
        unfold P. rewrite E. destruct (Z.testbit mask (Z.of_nat k)); [|done].
        destruct (box_value (default 0 (values !! k)) _ _) as [b rooted]. cbn [fst snd].
        rewrite length_insert, list_lookup_insert_ne by done. done. }
  by rewrite H, (proj2 (Nat.ltb_lt i n)).
Qed.

(** C25 The slow path takes over transparently: when a verified run reaches a
    resumable instruction and bails out with a faithful frame, the callback
    is shown the materialized registers boxed according to their kinds, and
    if it answers the integer [v], execution continues exactly as the run
    with [v] in the instruction's destination. *)
Theorem deopt_slow_path_transparent hp native_i64 native_f64 f arguments regs0 pc0 c n i v slow_path :
  ir_accepted hp f -> Forall dest_typed (f_instructions f) ->
  f_local_count f <= TURBOJS_IR_MAX_REGISTERS ->
  ir_initial f arguments regs0 pc0 ->
  rtc (ir_step hp native_i64 native_f64 f) (mkConfig regs0 zero_array pc0) c ->
  f_instructions f !! cf_pc c = Some i -> resumable (in_opcode i) = true ->
  captures f n c ->
  exists boxed, TurboJS_BoxDeoptFrame (fun _ => true) n = (TURBOJS_IR_OK, Some boxed, []) /\
    (forall j, Z.of_nat j < f_register_count f ->
       bf_registers boxed !! j =
         Some (box_value (default 0 (cf_regs c !! j)) (default TURBOJS_VALUE_UNKNOWN (df_register_kinds n !! j)) None).1) /\
    (slow_path boxed i = (TURBOJS_IR_OK, mkBoxed TURBOJS_BOXED_INT64 v) ->
     TurboJS_IRResumeWithSlowPath hp native_i64 native_f64 (fun _ => true) f n slow_path =
       execute_from hp native_i64 native_f64 f (<[Z.to_nat (in_destination i) := v]> (cf_regs c))
         (cf_locals c) (S (cf_pc c))).
Proof.
  intros Hacc Htyped Hloc Hinit Hsteps Hi Hres Hcap.
  pose proof (resume_continues _ _ _ _ _ _ _ _ _ _ v Hacc Htyped Hloc Hinit Hsteps Hi Hres Hcap) as Hresume.
  destruct Hcap as (Hreason & Hidx & Hrc & Hlc & Hrm & Hlm & Hrv & Hlv).
  assert (exists boxed, TurboJS_BoxDeoptFrame (fun _ => true) n = (TURBOJS_IR_OK, Some boxed, []) /\
    bf_registers boxed = (box_loop (Z.to_nat (df_register_count n)) (df_materialized_register_mask n)
        (df_register_values n) (df_register_kinds n) None).1.1) as (boxed & Hbox & Hregs).
  { unfold TurboJS_BoxDeoptFrame, TurboJS_BoxDeoptFrameRooted. cbn [negb]. rewrite !andb_false_r. cbn [orb].
    pose proof (box_loop_roots (Z.to_nat (df_register_count n)) (df_materialized_register_mask n)
      (df_register_values n) (df_register_kinds n) None) as Hr.
    pose proof (box_loop_roots (Z.to_nat (df_local_count n)) (df_materialized_local_mask n)
      (df_local_values n) (df_local_kinds n) None) as Hl.
    destruct (box_loop _ _ (df_register_values n) _ _) as [[regs rmask] revents].
    destruct (box_loop _ _ (df_local_values n) _ _) as [[locs lmask] levents].
    destruct Hr as (_ & -> & _ & Hr), Hl as (_ & -> & _ & Hl).
    assert (forall l : list Z, (l <> [] -> exists h : TurboJSRootingHooks, None = Some h /\ rh_release h = true) -> l = [])
      as Hnil by (intros [|x l] Hx; [done|]; destruct Hx as (h & [=] & _); done).
    rewrite (Hnil _ Hr), (Hnil _ Hl). eexists. split; done. }
  exists boxed. split; [done|]. split.
  - intros j Hj. rewrite Hregs, box_loop_cells by lia. by rewrite Hrm, <-Hrv by lia.
  - intros Hslow. unfold TurboJS_IRResumeWithSlowPath. rewrite Hidx, Nat2Z.id, Hi, Hbox, Hslow. exact Hresume.
Qed.

(** ** Concrete instances *)

Lemma deopt_roots_balanced_witness :
  let n := mkDeoptFrame (mkBailoutInfo TURBOJS_BAILOUT_RUNTIME_HELPER 0 0) 2 0 0 3 0 3 0
             [4096; 7] [] [TURBOJS_VALUE_HEAP_REFERENCE; TURBOJS_VALUE_I32] [] in
  match TurboJS_BoxDeoptFrameRooted (fun _ => true) n (Some (mkHooks (Some (fun r => r + 1)) true)) with
  | (_, Some boxed, events) => released (TurboJS_BoxedDeoptFrameDestroy boxed) = [4097]
  | _ => False
  end.
Proof.
  intros n. pose proof (deopt_roots_balanced (fun _ => true) n (Some (mkHooks (Some (fun r => r + 1)) true))
    ltac:(vm_compute; discriminate) ltac:(vm_compute; discriminate)) as H.
  destruct (TurboJS_BoxDeoptFrameRooted (fun _ => true) n _) as [[st [boxed|]] events] eqn:E; [|discriminate E].
  destruct H as (_ & -> & _). injection E as _ _ <-. reflexivity.
Defined.

Lemma deopt_slow_path_transparent_witness :
  exists boxed, TurboJS_BoxDeoptFrame (fun _ => true) overflow_frame = (TURBOJS_IR_OK, Some boxed, []) /\
    TurboJS_IRResumeWithSlowPath empty_heap no_native no_native (fun _ => true) checked_add overflow_frame
      (fun _ _ => (TURBOJS_IR_OK, mkBoxed TURBOJS_BOXED_INT64 2147483648)) = Result 2147483648.
Proof.
  destruct (deopt_slow_path_transparent empty_heap no_native no_native checked_add [INT32_MAX; 1]
    (<[1%nat := 1]> (<[0%nat := INT32_MAX]> zero_array)) 2
    (mkConfig (<[1%nat := 1]> (<[0%nat := INT32_MAX]> zero_array)) zero_array 2)
    overflow_frame (instr TURBOJS_IR_ADD_I32_CHECKED 2 0 1 0 0) 2147483648
    (fun _ _ => (TURBOJS_IR_OK, mkBoxed TURBOJS_BOXED_INT64 2147483648))) as (boxed & Hb & _ & Hrun).
  - apply ir_verify_ok_iff. reflexivity.
  - repeat constructor; vm_compute; discriminate.
  - vm_compute. discriminate.
  - apply overflow_initial.
  - apply rtc_refl.
  - reflexivity.
  - reflexivity.
  - apply overflow_captures.
  - exists boxed. split; [exact Hb|]. rewrite Hrun; reflexivity.
Defined.
