(* ===== verification/TaggedIR.v ===== *)
(** * The tagged IR interpreter (src/jit/ir/tagged_ir.c)

    The semantic oracle of the tagged lowering.  Registers and locals are two
    heap arrays of boxed values sized by the function.  A callable value is
    the address of a callable reference; the model reads it through the heap
    and [TUndef] is a read of an address where none lives, or an array access
    out of bounds. *)

From S2P Require Import Prelude.
From S2P Require Import JitTypes.
From S2P Require Import Clutch.
From S2P Require Import IR.
From S2P Require Import IRVerify.
From S2P Require Import Float64.
From S2P Require Import IRInterp.
From S2P Require Import Spool.

Inductive TOutcome :=
  | TResult (v : TurboJSBoxedValue)
  | TStop (status : TurboJSIRStatus)
  | TUndef.

Inductive TStep :=
  | TNext (registers locals : list TurboJSBoxedValue) (pc : nat)
  | THalt (o : TOutcome).

Section Tagged.
Context (hp : Heap).
Context (native_i64 native_f64 : Z -> list Z -> TurboJSIRStatus * Z).

(** [None] is a read of a callable reference that is not there. *)
Definition tagged_truthy (v : TurboJSBoxedValue) : option bool :=
  match bx_tag v with
  | TURBOJS_BOXED_UNDEFINED => Some false
  | TURBOJS_BOXED_BOOLEAN | TURBOJS_BOXED_INT32 | TURBOJS_BOXED_INT64 => Some (negb (bx_as v =? 0))
  | TURBOJS_BOXED_FLOAT64 => Some (f64_truthy (bx_as v))
  | TURBOJS_BOXED_HEAP_REFERENCE => Some (negb (bx_as v =? 0))
  | TURBOJS_BOXED_CALLABLE_REFERENCE =>
      if bx_as v =? 0 then Some false
      else let? r := hp_callable hp (bx_as v) in Some (TurboJS_CallableReferenceIsLive (hp_handle hp) r)
  end.

Definition trd (a : list TurboJSBoxedValue) (i : Z) (k : TurboJSBoxedValue -> TStep) : TStep :=
  match a !! Z.to_nat i with Some v => k v | None => THalt TUndef end.
Definition twr (a : list TurboJSBoxedValue) (i : Z) (v : TurboJSBoxedValue)
    (k : list TurboJSBoxedValue -> TStep) : TStep :=
  if (Z.to_nat i <? length a)%nat then k (<[Z.to_nat i := v]> a) else THalt TUndef.

(** The argument loops of the two calls: [None] is an unsupported tag. *)
Definition int_argument (v : TurboJSBoxedValue) : option Z :=
  match bx_tag v with
  | TURBOJS_BOXED_INT32 | TURBOJS_BOXED_INT64 | TURBOJS_BOXED_BOOLEAN => Some (bx_as v)
  | _ => None
  end.
Definition float_argument (v : TurboJSBoxedValue) : option Z :=
  match bx_tag v with
  | TURBOJS_BOXED_FLOAT64 => Some (bx_as v)
  | TURBOJS_BOXED_INT32 | TURBOJS_BOXED_INT64 => Some (f64_of_i64 (bx_as v))
  | _ => None
  end.

(** The two call cases, sharing their guards. *)
Definition tagged_call (f : TurboJSIRFunction) (i : TurboJSIRInstruction)
    (regs locals : list TurboJSBoxedValue) (pc : nat) (is_float : bool) : TStep :=
  trd regs (in_left i) (fun callee =>
    if negb (bool_decide (bx_tag callee = TURBOJS_BOXED_CALLABLE_REFERENCE)) || (bx_as callee =? 0)
       || (TURBOJS_CLUTCH_MAX_ARGUMENTS <? in_immediate i)
       || (f_register_count f <? in_right i + in_immediate i)
    then THalt (TStop TURBOJS_IR_UNSUPPORTED)
    else
      let cells := take (Z.to_nat (in_immediate i)) (drop (Z.to_nat (in_right i)) regs) in
      match mapM (if is_float then float_argument else int_argument) cells with
      | None => THalt (TStop TURBOJS_IR_UNSUPPORTED)
      | Some arguments =>
          match hp_callable hp (bx_as callee) with
          | None => THalt TUndef
          | Some r =>
              let res := if is_float
                         then TurboJS_CallableReferenceInvokeF64 native_f64 (hp_handle hp) r arguments
                         else TurboJS_CallableReferenceInvokeI64 native_i64 (hp_handle hp) r arguments in
              match res with
              | (TURBOJS_IR_OK, v) =>
                  twr regs (in_destination i)
                    (mkBoxed (if is_float then TURBOJS_BOXED_FLOAT64 else TURBOJS_BOXED_INT64) (default 0 v))
                    (fun regs => TNext regs locals (S pc))
              | (st, _) => THalt (TStop st)
              end
          end
      end).

(** One iteration of the [switch]. *)
Definition tagged_step (f : TurboJSIRFunction) (arguments : list TurboJSBoxedValue)
    (i : TurboJSIRInstruction) (regs locals : list TurboJSBoxedValue) (pc : nat) : TStep :=
  let set v := twr regs (in_destination i) v (fun regs => TNext regs locals (S pc)) in
  match in_opcode i with
  | TURBOJS_IR_NOP => TNext regs locals (S pc)
  | TURBOJS_IR_VALUE_ARGUMENT => trd arguments (in_immediate i) set
  | TURBOJS_IR_VALUE_UNDEFINED => set undefined_value
  | TURBOJS_IR_VALUE_CONSTANT_I32 => set (mkBoxed TURBOJS_BOXED_INT32 (swrap 32 (in_immediate i)))
  | TURBOJS_IR_VALUE_MOVE => trd regs (in_left i) set
  | TURBOJS_IR_VALUE_LOCAL_GET => trd locals (in_immediate i) set
  | TURBOJS_IR_VALUE_LOCAL_SET =>
      trd regs (in_left i) (fun v => twr locals (in_immediate i) v (fun locals => TNext regs locals (S pc)))
  | TURBOJS_IR_VALUE_TO_BOOLEAN =>
      (* the destination's tag is stored before the operand is tested *)
      trd regs (in_destination i) (fun old =>
      twr regs (in_destination i) (mkBoxed TURBOJS_BOXED_BOOLEAN (bx_as old)) (fun regs =>
      trd regs (in_left i) (fun v =>
        match tagged_truthy v with
        | None => THalt TUndef
        | Some b => twr regs (in_destination i) (mkBoxed TURBOJS_BOXED_BOOLEAN (b2z b))
                      (fun regs => TNext regs locals (S pc))
        end)))
  | TURBOJS_IR_VALUE_CALLABLE_CONSTANT => set (mkBoxed TURBOJS_BOXED_CALLABLE_REFERENCE (in_immediate i))
  | TURBOJS_IR_VALUE_CALL_I64 => tagged_call f i regs locals pc false
  | TURBOJS_IR_VALUE_CALL_F64 => tagged_call f i regs locals pc true
  | TURBOJS_IR_JUMP => TNext regs locals (Z.to_nat (in_target i))
  | TURBOJS_IR_BRANCH_TRUE =>
      trd regs (in_left i) (fun v =>
        match tagged_truthy v with
        | None => THalt TUndef
        | Some b => TNext regs locals (if b then Z.to_nat (in_target i) else S pc)
        end)
  | TURBOJS_IR_BRANCH_FALSE =>
      trd regs (in_left i) (fun v =>
        match tagged_truthy v with
        | None => THalt TUndef
        | Some b => TNext regs locals (if b then S pc else Z.to_nat (in_target i))
        end)
  | TURBOJS_IR_VALUE_RETURN => trd regs (in_left i) (fun v => THalt (TResult v))
  | _ => THalt (TStop TURBOJS_IR_UNSUPPORTED)
  end.

Fixpoint tagged_loop (fuel : nat) (f : TurboJSIRFunction) (arguments regs locals : list TurboJSBoxedValue)
    (pc : nat) : TOutcome :=
  match f_instructions f !! pc with
  | None => TStop TURBOJS_IR_MISSING_RETURN
  | Some i =>
      match fuel with
      | O => TStop TURBOJS_IR_EXECUTION_LIMIT
      | S fuel =>
          match tagged_step f arguments i regs locals pc with
          | THalt o => o
          | TNext regs locals pc => tagged_loop fuel f arguments regs locals pc
          end
      end
  end.

(** [calloc(count ? count : 1)], every cell initialised to undefined. *)
Definition value_array (count : Z) : list TurboJSBoxedValue :=
  replicate (Z.to_nat (if count =? 0 then 1 else count)) undefined_value.

(** [mem] answers the two allocations together. *)
Definition TurboJS_IRExecuteTagged (mem : bool) (f : TurboJSIRFunction) (arguments : list TurboJSBoxedValue)
    : TOutcome :=
  if negb (Z.of_nat (length arguments) =? f_argument_count f) then TStop TURBOJS_IR_INVALID_ARGUMENT
  else match TurboJS_IRVerify hp f with
       | None => TUndef
       | Some d =>
           if negb (bool_decide (dg_status d = TURBOJS_IR_OK)) then TStop (dg_status d)
           else if negb mem then TStop TURBOJS_IR_OUT_OF_MEMORY
           else tagged_loop (step_limit f) f arguments (value_array (f_register_count f))
                  (value_array (f_local_count f)) 0
       end.
End Tagged.

(** ** Safety *)
Section TaggedSafety.
Context (hp : Heap) (native_i64 native_f64 : Z -> list Z -> TurboJSIRStatus * Z) (f : TurboJSIRFunction).

(** A callable value is NULL or points to a callable reference. *)
Definition callable_ok (v : TurboJSBoxedValue) : Prop :=
  bx_tag v = TURBOJS_BOXED_CALLABLE_REFERENCE -> bx_as v = 0 \/ is_Some (hp_callable hp (bx_as v)).

Definition constants_ok : Prop :=
  Forall (fun i => in_opcode i = TURBOJS_IR_VALUE_CALLABLE_CONSTANT ->
            in_immediate i = 0 \/ is_Some (hp_callable hp (in_immediate i))) (f_instructions f).

(** The arrays of a run. *)
Record tagged_state (regs locals : list TurboJSBoxedValue) : Prop := {
  ts_regs : f_register_count f <= Z.of_nat (length regs) /\ (0 < length regs)%nat;
  ts_locals : f_local_count f <= Z.of_nat (length locals);
  ts_regs_ok : Forall callable_ok regs;
  ts_locals_ok : Forall callable_ok locals
}.

Lemma truthy_defined v : callable_ok v -> is_Some (tagged_truthy hp v).
Proof.
  intros H. unfold tagged_truthy. destruct (bx_tag v) eqn:E; try done.
  destruct (Z.eqb_spec (bx_as v) 0); [done|]. destruct (H E) as [|[r ->]]; done.
Qed.

Lemma untagged_ok t a : t <> TURBOJS_BOXED_CALLABLE_REFERENCE -> callable_ok (mkBoxed t a).
Proof. intros H. unfold callable_ok. simpl. congruence. Qed.

Lemma register_lookup regs locals r :
  tagged_state regs locals -> valid_register f r = true -> exists v, regs !! Z.to_nat r = Some v /\ callable_ok v.
Proof.
  intros [[Hr Hr'] _ Hok _] Hv. unfold valid_register in Hv. b2p.
  destruct (lookup_lt_is_Some_2 regs (Z.to_nat r)) as [v Hl]; [lia|].
  exists v. split; [done|]. by eapply Forall_lookup_1.
Qed.

Lemma register_write regs locals r v :
  tagged_state regs locals -> valid_register f r = true -> callable_ok v ->
  (Z.to_nat r <? length regs)%nat = true /\ tagged_state (<[Z.to_nat r := v]> regs) locals.
Proof.
  intros [[Hr Hr'] Hl Hok Hlok] Hv Hc. unfold valid_register in Hv. b2p.
  split; [apply Nat.ltb_lt; lia|]. split; rewrite ?length_insert; auto using Forall_lookup_insert.
Qed.

(** Good outcomes: no undefined behaviour, and a good state to go on from. *)
Definition good_step (s : TStep) : Prop :=
  match s with TNext regs locals _ => tagged_state regs locals | THalt o => o <> TUndef end.

Lemma good_read regs locals r k :
  tagged_state regs locals -> valid_register f r = true ->
  (forall v, callable_ok v -> good_step (k v)) -> good_step (trd regs r k).
Proof.
  intros Hs Hv Hk. unfold trd. destruct (register_lookup _ _ _ Hs Hv) as (v & -> & Hc). auto.
Qed.

Lemma good_write regs locals r v pc :
  tagged_state regs locals -> valid_register f r = true -> callable_ok v ->
  good_step (twr regs r v (fun regs => TNext regs locals pc)).
Proof.
  intros Hs Hv Hc. unfold twr. destruct (register_write _ _ _ _ Hs Hv Hc) as [-> Hs']. done.
Qed.

Lemma good_call i regs locals pc fl :
  tagged_state regs locals -> valid_register f (in_destination i) = true -> valid_register f (in_left i) = true ->
  good_step (tagged_call hp native_i64 native_f64 f i regs locals pc fl).
Proof.
  intros Hs Hd Hl. unfold tagged_call. eapply good_read; [done|done|]. intros v Hv.
  case_match eqn:Eg; [done|]. b2p. destruct (mapM _ _) as [args|]; [|done].
  destruct (Hv ltac:(done)) as [|[r ->]]; [done|].
  set (res := if fl then TurboJS_CallableReferenceInvokeF64 _ _ _ _ else _).
  destruct res as [st o].
  destruct st; try done. apply good_write; [done|done|]. apply untagged_ok. by destruct fl.
Qed.

Lemma good_to_boolean i regs locals pc :
  tagged_state regs locals -> valid_register f (in_destination i) = true -> valid_register f (in_left i) = true ->
  good_step
    (trd regs (in_destination i) (fun old =>
     twr regs (in_destination i) (mkBoxed TURBOJS_BOXED_BOOLEAN (bx_as old)) (fun regs =>
     trd regs (in_left i) (fun v =>
       match tagged_truthy hp v with
       | None => THalt TUndef
       | Some b => twr regs (in_destination i) (mkBoxed TURBOJS_BOXED_BOOLEAN (b2z b))
                     (fun regs => TNext regs locals (S pc))
       end)))).
Proof.
  intros Hs Hd Hl. eapply good_read; [done|done|]. intros old _. unfold twr at 1.
  destruct (register_write _ _ _ (mkBoxed TURBOJS_BOXED_BOOLEAN (bx_as old)) Hs Hd) as [-> Hs'];
    [by apply untagged_ok|].
  eapply good_read; [done|done|]. intros v Hv. destruct (truthy_defined v Hv) as [b ->].
  apply good_write; [done|done|]. by apply untagged_ok.
Qed.

Lemma tagged_step_good arguments i regs locals pc :
  operands_ok hp f i -> i ∈ f_instructions f -> constants_ok ->
  Forall callable_ok arguments -> Z.of_nat (length arguments) = f_argument_count f ->
  tagged_state regs locals ->
  good_step (tagged_step hp native_i64 native_f64 f arguments i regs locals pc).
Proof.
  intros [ret Hop] Hin Hconst Hargs Hlen Hs. unfold constants_ok in Hconst. rewrite Forall_forall in Hconst.
  specialize (Hconst i Hin). unfold verify_instruction in Hop. unfold tagged_step.
  destruct (in_opcode i) eqn:Eop; try done;
    repeat match type of Hop with (if ?b then _ else _) = _ => destruct b eqn:?; [discriminate|] end; b2p;
    auto using good_call, good_to_boolean.
  - unfold trd. destruct (lookup_lt_is_Some_2 arguments (Z.to_nat (in_immediate i))) as [v Hv]; [lia|].
    rewrite Hv. apply good_write; auto. by eapply Forall_lookup_1.
  - apply good_write; auto. by apply untagged_ok.
  - apply good_write; auto. by apply untagged_ok.
  - eapply good_read; eauto. intros. by apply good_write.
  - unfold trd. pose proof (ts_locals _ _ Hs).
    destruct (lookup_lt_is_Some_2 locals (Z.to_nat (in_immediate i))) as [v Hv]; [lia|].
    rewrite Hv. apply good_write; auto. eapply (Forall_lookup_1 _ locals); [apply Hs|done].
  - eapply good_read; eauto. intros v Hv. unfold twr. destruct Hs as [Hr Hl Hok Hlok].
    rewrite (proj2 (Nat.ltb_lt _ _)) by lia. split; rewrite ?length_insert; auto using Forall_lookup_insert.
  - apply good_write; auto. intros _. simpl. by apply Hconst.
  - eapply good_read; eauto. done.
  - eapply good_read; eauto. intros v Hv. by destruct (truthy_defined v Hv) as [b ->].
  - eapply good_read; eauto. intros v Hv. by destruct (truthy_defined v Hv) as [b ->].
Qed.

Lemma tagged_loop_safe fuel arguments regs locals pc :
  ir_accepted hp f -> constants_ok -> Forall callable_ok arguments ->
  Z.of_nat (length arguments) = f_argument_count f -> tagged_state regs locals ->
  tagged_loop hp native_i64 native_f64 fuel f arguments regs locals pc <> TUndef.
Proof.
  intros Hacc Hconst Hargs Hlen. revert regs locals pc. induction fuel as [|fuel IH]; intros regs locals pc Hs; simpl.
  - by destruct (f_instructions f !! pc).
  - destruct (f_instructions f !! pc) as [i|] eqn:Hi; [|done].
    pose proof (tagged_step_good arguments i regs locals pc (accepted_operands _ _ _ _ Hacc Hi)
      (list_elem_of_lookup_2 _ _ _ Hi) Hconst Hargs Hlen Hs) as Hg.
    destruct (tagged_step _ _ _ _ _ _ _ _ _) as [regs' locals' pc'|o]; [by apply IH|done].
Qed.
End TaggedSafety.


(** ** Conversion to boolean *)

Definition nan_bits : Z := 9221120237041090560. (* 0x7ff8000000000000 *)

(** [return !!argument], converting from register 0 into register [d]. *)
Definition to_boolean_function (d : Z) : TurboJSIRFunction :=
  f_set_instructions (f_set_counts zero_function 2 1 0)
    [instr TURBOJS_IR_VALUE_ARGUMENT 0 0 0 0 0; instr TURBOJS_IR_VALUE_TO_BOOLEAN d 0 0 0 0;
     instr TURBOJS_IR_VALUE_RETURN 0 d 0 0 0] 16.

(** Converting in place is wrong: for every value the conversion into a
    different register answers its truthiness, but with the same register as
    operand and destination the tag is overwritten before the operand is
    tested, and NaN (a falsy value) converts to true. *)
Theorem to_boolean_in_place_wrong hp native_i64 native_f64 :
  (forall v b, tagged_truthy hp v = Some b ->
     TurboJS_IRExecuteTagged hp native_i64 native_f64 true (to_boolean_function 1) [v] =
       TResult (mkBoxed TURBOJS_BOXED_BOOLEAN (b2z b))) /\
  tagged_truthy hp (mkBoxed TURBOJS_BOXED_FLOAT64 nan_bits) = Some false /\
  TurboJS_IRExecuteTagged hp native_i64 native_f64 true (to_boolean_function 0)
    [mkBoxed TURBOJS_BOXED_FLOAT64 nan_bits] = TResult (mkBoxed TURBOJS_BOXED_BOOLEAN 1).
Proof.
  split_and!; [|reflexivity|reflexivity].
  intros v b Hb. unfold TurboJS_IRExecuteTagged.
  change (TurboJS_IRVerify hp (to_boolean_function 1)) with (Some ok_diagnostic).
  change (step_limit (to_boolean_function 1)) with (S (S (S 4021))). generalize 4021%nat. intros n.
  transitivity (tagged_loop hp native_i64 native_f64 (S (S n)) (to_boolean_function 1) [v]
    [v; undefined_value] [undefined_value] 1); [reflexivity|].
  cbn [tagged_loop]. change (f_instructions (to_boolean_function 1) !! 1%nat)
    with (Some (instr TURBOJS_IR_VALUE_TO_BOOLEAN 1 0 0 0 0)). cbn iota.
  unfold tagged_step at 1. cbn [in_opcode in_destination in_left instr].
  unfold trd at 1 2, twr at 1. cbn [lookup list_lookup].
  change (Z.to_nat 1) with 1%nat. change (Z.to_nat 0) with 0%nat. simpl. rewrite Hb. reflexivity.
Qed.

