(* ===== verification/CallableSpecialize.v ===== *)
(** * Callable specialization (src/jit/ir/callable_specialize.c)

    A tagged wrapper that calls known callable references is rewritten into
    numeric IR: callable constants disappear, tagged calls become native calls
    through call sites the new function owns.

    The call sites are heap objects: [address k] is where the allocator puts
    the [k]-th site of the new function.  Retained and released roots are
    logged.  [None] is undefined behaviour: an access outside the two 64-entry
    tables, or a callable address where no reference lives. *)

From S2P Require Import Prelude.
From S2P Require Import JitTypes.
From S2P Require Import Clutch.
From S2P Require Import IR.
From S2P Require Import IRVerify.
From S2P Require Import Float64.
From S2P Require Import IRInterp.
From S2P Require Import Spool.
From S2P Require Import TaggedIR.

(** ** Data *)

Inductive KnownKind := KNOWN_NONE | KNOWN_NUMERIC | KNOWN_CALLABLE.

#[export] Instance KnownKind_eq_dec : EqDecision KnownKind.
Proof. solve_decision. Defined.

Record KnownValue := mkKnown { kv_callable : Z; kv_kind : KnownKind }.

(** The allocator's answers: emitting into a function of some length, and the
    two requests for one more call site. *)
Record SpecializeMemory := mkSpecializeMemory {
  spm_emit : Z -> bool;
  spm_array : Z -> bool;
  spm_site : Z -> bool
}.

Record SpecializeState := mkSpecialize {
  ss_output : TurboJSIRFunction;
  ss_regs : list KnownValue;
  ss_locals : list KnownValue;
  ss_events : list RootEvent
}.

(** [break], [goto unsupported], [goto oom], [goto failed]. *)
Inductive SpecializeStep :=
  | SpecializeNext (s : SpecializeState)
  | SpecializeUnsupported (s : SpecializeState)
  | SpecializeOom (s : SpecializeState)
  | SpecializeFailed (st : TurboJSIRStatus) (s : SpecializeState).

Definition unknown : KnownValue := mkKnown 0 KNOWN_NONE.
Definition known_table : list KnownValue := replicate (Z.to_nat TURBOJS_IR_MAX_REGISTERS) unknown.

Definition ss_set_output (f : TurboJSIRFunction) (s : SpecializeState) : SpecializeState :=
  mkSpecialize f (ss_regs s) (ss_locals s) (ss_events s).
Definition ss_log (e : list RootEvent) (s : SpecializeState) : SpecializeState :=
  mkSpecialize (ss_output s) (ss_regs s) (ss_locals s) (ss_events s ++ e).

(** Accesses to the tables. *)
Definition known (l : list KnownValue) (i : Z) : option KnownValue := l !! Z.to_nat i.
Definition set_reg (i : Z) (v : KnownValue) (s : SpecializeState) : option SpecializeState :=
  if (Z.to_nat i <? length (ss_regs s))%nat
  then Some (mkSpecialize (ss_output s) (<[Z.to_nat i := v]> (ss_regs s)) (ss_locals s) (ss_events s)) else None.
Definition set_local (i : Z) (v : KnownValue) (s : SpecializeState) : option SpecializeState :=
  if (Z.to_nat i <? length (ss_locals s))%nat
  then Some (mkSpecialize (ss_output s) (ss_regs s) (<[Z.to_nat i := v]> (ss_locals s)) (ss_events s)) else None.
(** [regs[i].kind = KNOWN_NUMERIC] *)
Definition set_numeric (i : Z) (s : SpecializeState) : option SpecializeState :=
  let? v := known (ss_regs s) i in set_reg i (mkKnown (kv_callable v) KNOWN_NUMERIC) s.

Definition in_set_opcode (op : TurboJSIROpcode) (i : TurboJSIRInstruction) : TurboJSIRInstruction :=
  mkInstruction op (in_destination i) (in_left i) (in_right i) (in_immediate i) (in_target i) (in_bytecode_offset i).

(** The sites of a function at their addresses. *)
Definition with_sites (hp : Heap) (address : nat -> Z) (sites : list TurboJSClutchCallSite) : Heap :=
  mkHeap (fun a => match list_find (fun k => address k = a) (seq 0 (length sites)) with
                   | Some (_, k) => sites !! k
                   | None => hp_site hp a
                   end) (hp_callable hp) (hp_handle hp).

Definition put_site (k : nat) (site : TurboJSClutchCallSite) (s : SpecializeState) : SpecializeState :=
  let f := ss_output s in
  ss_set_output (f_set_sites f (<[k := site]> (f_owned_clutch_sites f)) (f_owned_clutch_site_capacity f)) s.

Section Specialize.
Context (mem : SpecializeMemory) (hp : Heap) (address : nat -> Z).

Definition emit_copy (s : SpecializeState) (i : TurboJSIRInstruction) : SpecializeStep :=
  match TurboJS_IREmit (spm_emit mem (f_instruction_count (ss_output s))) (ss_output s) i with
  | (f, TURBOJS_IR_OK) => SpecializeNext (ss_set_output f s)
  | (f, st) => SpecializeFailed st (ss_set_output f s)
  end.

(** [while (output->register_count < input->register_count)]: [None] when the
    function has no register left. *)
Fixpoint allocate_registers (turns : nat) (count : Z) (f : TurboJSIRFunction) : TurboJSIRFunction + TurboJSIRFunction :=
  match turns with
  | O => inr f
  | S turns =>
      if f_register_count f <? count then
        let '(f, r) := TurboJS_IRAllocateRegister f in
        if r =? TURBOJS_IR_NO_REGISTER then inl f else allocate_registers turns count f
      else inr f
  end.

(** The closure environment of a new site. *)
Definition bind_environment (r : TurboJSCallableReference) (site : TurboJSClutchCallSite)
    : TurboJSIRStatus * TurboJSClutchCallSite * list RootEvent :=
  if cr_closure_environment r =? 0 then (TURBOJS_IR_OK, site, [])
  else TurboJS_ClutchCallSiteSetClosureEnvironment site (cr_closure_environment r)
         (if cr_owns_environment r then Some (cr_environment_rooting r) else None).

(** The argument loop: [inl] is [goto unsupported]. *)
Fixpoint bind_arguments (input : TurboJSIRFunction) (regs : list KnownValue) (right : Z) (ai : Z) (count : nat)
    (site : TurboJSClutchCallSite) : TurboJSClutchCallSite + TurboJSClutchCallSite :=
  match count with
  | O => inr site
  | S count =>
      let source := uwrap 16 (right + ai) in
      if f_register_count input <=? source then inl site
      else match known regs source with
           | Some v =>
               if negb (bool_decide (kv_kind v = KNOWN_NUMERIC)) then inl site
               else match TurboJS_ClutchCallSiteSetArgument site ai source with
                    | (TURBOJS_IR_OK, site) => bind_arguments input regs right (ai + 1) count site
                    | (_, site) => inl site
                    end
           | None => inl site
           end
  end.

(** Creating and filling the site of a call. *)
Definition specialize_site (input : TurboJSIRFunction) (i : TurboJSIRInstruction) (r : TurboJSCallableReference)
    (s : SpecializeState) : SpecializeStep + (SpecializeState * nat) :=
  let n := Z.of_nat (length (f_owned_clutch_sites (ss_output s))) in
  let '(f, site) := TurboJS_IRAllocateClutchCallSite (spm_array mem n) (spm_site mem n) (ss_output s) in
  let s := ss_set_output f s in
  match site with
  | None => inl (SpecializeOom s)
  | Some k =>
      let site := TurboJS_ClutchCallSiteSetTargetIdentity
                    (TurboJS_ClutchCallSiteInit (cr_target r) (cr_expected_generation r) (cr_expected_kind r)
                       (uwrap 16 (uwrap 64 (in_immediate i)))) (cr_target_identity r) in
      let '(st, site, events) := bind_environment r site in
      let s := ss_log events (put_site k site s) in
      match st with
      | TURBOJS_IR_OK =>
          match bind_arguments input (ss_regs s) (in_right i) 0 (Z.to_nat (uwrap 64 (in_immediate i))) site with
          | inl site => inl (SpecializeUnsupported (put_site k site s))
          | inr site => inr (put_site k site s, k)
          end
      | st => inl (SpecializeFailed st s)
      end
  end.

Definition specialize_call (input : TurboJSIRFunction) (i : TurboJSIRInstruction) (s : SpecializeState)
    : option SpecializeStep :=
  let argc := uwrap 64 (in_immediate i) in
  let? callee := known (ss_regs s) (in_left i) in
  if negb (bool_decide (kv_kind callee = KNOWN_CALLABLE)) || (kv_callable callee =? 0) || (TURBOJS_CLUTCH_MAX_ARGUMENTS <? argc)
  then Some (SpecializeUnsupported s)
  else
    let? r := hp_callable hp (kv_callable callee) in
    if negb (cr_argument_count r =? argc) || negb (TurboJS_CallableReferenceIsLive (hp_handle hp) r)
    then Some (SpecializeUnsupported s)
    else
      match specialize_site input i r s with
      | inl e => Some e
      | inr (s, k) =>
          let op := if decide (in_opcode i = TURBOJS_IR_VALUE_CALL_I64) then TURBOJS_IR_CALL_NATIVE_I64
                    else TURBOJS_IR_CALL_NATIVE_F64 in
          let? s := set_numeric (in_destination i) s in
          Some (emit_copy s (mkInstruction op (in_destination i) 0 0 (address k) (in_target i) (in_bytecode_offset i)))
      end.

(** One iteration of the loop. *)
Definition specialize_instruction (input : TurboJSIRFunction) (i : TurboJSIRInstruction) (s : SpecializeState)
    : option SpecializeStep :=
  match in_opcode i with
  | TURBOJS_IR_VALUE_CALLABLE_CONSTANT =>
      let? s := set_reg (in_destination i) (mkKnown (in_immediate i) KNOWN_CALLABLE) s in Some (SpecializeNext s)
  | TURBOJS_IR_VALUE_CONSTANT_I32 =>
      let? s := set_numeric (in_destination i) s in Some (emit_copy s (in_set_opcode TURBOJS_IR_CONSTANT_I64 i))
  | TURBOJS_IR_VALUE_ARGUMENT =>
      let? s := set_numeric (in_destination i) s in Some (emit_copy s (in_set_opcode TURBOJS_IR_ARGUMENT i))
  | TURBOJS_IR_VALUE_MOVE =>
      let? v := known (ss_regs s) (in_left i) in
      let? s := set_reg (in_destination i) v s in
      (* the operand is read again after the assignment *)
      let? v := known (ss_regs s) (in_left i) in
      if decide (kv_kind v = KNOWN_NUMERIC) then Some (SpecializeUnsupported s) else Some (SpecializeNext s)
  | TURBOJS_IR_VALUE_LOCAL_SET =>
      if f_local_count input <=? uwrap 64 (in_immediate i) then Some (SpecializeUnsupported s)
      else
        let? v := known (ss_regs s) (in_left i) in
        let? s := set_local (in_immediate i) v s in
        if decide (kv_kind v = KNOWN_NUMERIC) then Some (emit_copy s (in_set_opcode TURBOJS_IR_LOCAL_SET i))
        else Some (SpecializeNext s)
  | TURBOJS_IR_VALUE_LOCAL_GET =>
      if f_local_count input <=? uwrap 64 (in_immediate i) then Some (SpecializeUnsupported s)
      else
        let? v := known (ss_locals s) (in_immediate i) in
        let? s := set_reg (in_destination i) v s in
        if decide (kv_kind v = KNOWN_NUMERIC) then Some (emit_copy s (in_set_opcode TURBOJS_IR_LOCAL_GET i))
        else Some (SpecializeNext s)
  | TURBOJS_IR_VALUE_CALL_I64 | TURBOJS_IR_VALUE_CALL_F64 => specialize_call input i s
  | TURBOJS_IR_VALUE_RETURN =>
      let? v := known (ss_regs s) (in_left i) in
      if decide (kv_kind v = KNOWN_NUMERIC) then Some (emit_copy s (in_set_opcode TURBOJS_IR_RETURN_I64 i))
      else Some (SpecializeUnsupported s)
  | TURBOJS_IR_RETURN_I64 | TURBOJS_IR_RETURN_F64 | TURBOJS_IR_ARGUMENT | TURBOJS_IR_CONSTANT_I64 | TURBOJS_IR_CONSTANT_F64
  | TURBOJS_IR_ADD_I64 | TURBOJS_IR_SUB_I64 | TURBOJS_IR_MUL_I64 | TURBOJS_IR_CALL_NATIVE_I64 | TURBOJS_IR_CALL_NATIVE_F64 =>
      match emit_copy s i with
      | SpecializeNext s =>
          if in_destination i <? f_register_count input
          then let? s := set_numeric (in_destination i) s in Some (SpecializeNext s)
          else Some (SpecializeNext s)
      | e => Some e
      end
  | _ => Some (SpecializeUnsupported s)
  end.

Fixpoint specialize_loop (input : TurboJSIRFunction) (instrs : list TurboJSIRInstruction) (s : SpecializeState)
    : option SpecializeStep :=
  match instrs with
  | [] => Some (SpecializeNext s)
  | i :: instrs =>
      let? r := specialize_instruction input i s in
      match r with
      | SpecializeNext s => specialize_loop input instrs s
      | e => Some e
      end
  end.

(** The exits destroy the output. *)
Definition abandon (st : TurboJSIRStatus) (s : SpecializeState) : TurboJSIRStatus * TurboJSIRFunction * list RootEvent :=
  let '(f, events) := TurboJS_IRFunctionDestroy (ss_output s) in (st, f, ss_events s ++ events).

(** The status, the output and the root events. *)
Definition TurboJS_IRSpecializeCallableReferences (next : Z) (input : TurboJSIRFunction)
    : option (TurboJSIRStatus * TurboJSIRFunction * list RootEvent) :=
  let '(f, _) := TurboJS_IRFunctionInit next (f_argument_count input) in
  let f := TurboJS_IRFunctionSetLocalCount f (f_local_count input) in
  let f := mkFunction (f_instructions f) (f_instruction_capacity f) (f_register_count f) (f_argument_count f) (f_local_count f)
             (f_source_local_count input) (f_register_kind_hints f) (f_local_kind_hints f) (f_owned_clutch_sites f)
             (f_owned_clutch_site_capacity f) (f_owned_callable_references f) (f_owned_callable_reference_capacity f)
             (f_instance_id f) (f_revision f) in
  match allocate_registers (Z.to_nat (f_register_count input)) (f_register_count input) f with
  | inl f => Some (abandon TURBOJS_IR_UNSUPPORTED (mkSpecialize f known_table known_table []))
  | inr f =>
      let? r := specialize_loop input (f_instructions input) (mkSpecialize f known_table known_table []) in
      match r with
      | SpecializeUnsupported s => Some (abandon TURBOJS_IR_UNSUPPORTED s)
      | SpecializeOom s => Some (abandon TURBOJS_IR_OUT_OF_MEMORY s)
      | SpecializeFailed st s => Some (abandon st s)
      | SpecializeNext s =>
          let? d := TurboJS_IRVerify (with_sites hp address (f_owned_clutch_sites (ss_output s))) (ss_output s) in
          match dg_status d with
          | TURBOJS_IR_OK => Some (TURBOJS_IR_OK, ss_output s, ss_events s)
          | _ => Some (abandon TURBOJS_IR_UNSUPPORTED s)
          end
      end
  end.
End Specialize.

(** ** What the loop builds *)

(** The output grows: instructions and call sites are added at the end. *)
Record extends (f f' : TurboJSIRFunction) : Prop := {
  ex_instructions : exists e, f_instructions f' = f_instructions f ++ e;
  ex_sites : exists l, f_owned_clutch_sites f' = f_owned_clutch_sites f ++ l;
  ex_registers : f_register_count f' = f_register_count f;
  ex_arguments : f_argument_count f' = f_argument_count f;
  ex_locals : f_local_count f' = f_local_count f
}.

#[export] Instance extends_preorder : PreOrder extends.
Proof.
  split.
  - intros f. split; try done; exists []; by rewrite app_nil_r.
  - intros f g h [[e He] [l Hl] H3 H4 H5] [[e' He'] [l' Hl'] H3' H4' H5']. split; try congruence.
    + exists (e ++ e'). by rewrite He', He, app_assoc.
    + exists (l ++ l'). by rewrite Hl', Hl, app_assoc.
Qed.

Section Loop.
Context (mem : SpecializeMemory) (hp : Heap) (address : nat -> Z) (input : TurboJSIRFunction).

Lemma emit_copy_next s i s' : emit_copy mem s i = SpecializeNext s' ->
  extends (ss_output s) (ss_output s') /\ f_instructions (ss_output s') = f_instructions (ss_output s) ++ [i] /\
  f_owned_clutch_sites (ss_output s') = f_owned_clutch_sites (ss_output s) /\
  ss_regs s' = ss_regs s /\ ss_locals s' = ss_locals s /\ ss_events s' = ss_events s.
Proof.
  unfold emit_copy, TurboJS_IREmit. destruct (_ && _); [done|]. intros [= <-]. cbn. split_and!; try done.
  split; try done; [by exists [i]|exists []; by rewrite app_nil_r].
Qed.

Lemma set_reg_some d v s s' : set_reg d v s = Some s' ->
  (Z.to_nat d < length (ss_regs s))%nat /\
  s' = mkSpecialize (ss_output s) (<[Z.to_nat d := v]> (ss_regs s)) (ss_locals s) (ss_events s).
Proof. unfold set_reg. destruct (Nat.ltb_spec (Z.to_nat d) (length (ss_regs s))); [|done]. by intros [= <-]. Qed.

Lemma set_local_some d v s s' : set_local d v s = Some s' ->
  (Z.to_nat d < length (ss_locals s))%nat /\
  s' = mkSpecialize (ss_output s) (ss_regs s) (<[Z.to_nat d := v]> (ss_locals s)) (ss_events s).
Proof. unfold set_local. destruct (Nat.ltb_spec (Z.to_nat d) (length (ss_locals s))); [|done]. by intros [= <-]. Qed.

Lemma set_numeric_some d s s' : set_numeric d s = Some s' ->
  exists c, (Z.to_nat d < length (ss_regs s))%nat /\
    s' = mkSpecialize (ss_output s) (<[Z.to_nat d := mkKnown c KNOWN_NUMERIC]> (ss_regs s)) (ss_locals s) (ss_events s).
Proof.
  unfold set_numeric. destruct (known _ _) as [v|]; [|done]. intros H%set_reg_some. by exists (kv_callable v).
Qed.

(** The argument registers of a bound site. *)
Lemma bind_arguments_some regs right : forall count ai site site',
  0 <= ai -> bind_arguments input regs right ai count site = inr site' ->
  site' = site_with_arguments site (cs_argument_count site) (cs_flags site) (cs_receiver_register site) (cs_argument_registers site') /\
  length (cs_argument_registers site') = length (cs_argument_registers site) /\
  (forall j, (j < Z.to_nat ai)%nat -> cs_argument_registers site' !! j = cs_argument_registers site !! j) /\
  (forall j, (Z.to_nat ai <= j < Z.to_nat ai + count)%nat -> (j < length (cs_argument_registers site))%nat ->
     cs_argument_registers site' !! j = Some (uwrap 16 (right + Z.of_nat j)) /\
     uwrap 16 (right + Z.of_nat j) < f_register_count input /\
     exists c, known regs (uwrap 16 (right + Z.of_nat j)) = Some (mkKnown c KNOWN_NUMERIC)).
Proof.
  induction count as [|count IH]; intros ai site site' Hai Hb; simpl in Hb.
  { injection Hb as <-. split_and!; [by destruct site|done|done|]. intros j Hj. lia. }
  destruct (Z.leb_spec (f_register_count input) (uwrap 16 (right + ai))) as [|Hlt]; [done|].
  destruct (known regs (uwrap 16 (right + ai))) as [[c kind]|] eqn:Hk; [|done]. simpl in Hb.
  case_bool_decide as Hn; [|done]. subst kind. simpl in Hb. unfold TurboJS_ClutchCallSiteSetArgument in Hb.
  destruct (_ || _) eqn:Hg; [done|]. apply orb_false_iff in Hg as [[_ _]%orb_false_iff _].
  destruct (IH (ai + 1) _ site' ltac:(lia) Hb) as (E & El & Ebefore & Eat). cbn in *. rewrite length_insert in *.
  split_and!; [done|done| |].
  - intros j Hj. rewrite Ebefore by lia. by rewrite list_lookup_insert_ne by lia.
  - intros j Hj Hlen. destruct (decide (j = Z.to_nat ai)) as [->|Hne].
    + rewrite Z2Nat.id by lia. rewrite Ebefore by lia. rewrite list_lookup_insert_eq by done. split_and!; [done..|]. by exists c.
    + apply Eat; lia.
Qed.

(** The environment does not change what a site calls. *)
Definition same_call (s s' : TurboJSClutchCallSite) : Prop :=
  cs_target s' = cs_target s /\ cs_expected_generation s' = cs_expected_generation s /\
  cs_argument_count s' = cs_argument_count s /\ cs_expected_kind s' = cs_expected_kind s /\
  cs_argument_registers s' = cs_argument_registers s.

Lemma bind_environment_call r site st site' events : bind_environment r site = (st, site', events) -> same_call site site'.
Proof.
  unfold bind_environment. destruct (_ =? 0); [by intros [= _ <- _]|].
  unfold TurboJS_ClutchCallSiteSetClosureEnvironment, TurboJS_ClutchCallSiteDestroy. cbn.
  repeat case_match; by intros [= _ <- _].
Qed.

(** The site a call gets. *)
Definition bound_site (i : TurboJSIRInstruction) (r : TurboJSCallableReference) (regs : list KnownValue)
    (site : TurboJSClutchCallSite) : Prop :=
  let argc := uwrap 64 (in_immediate i) in
  cs_target site = cr_target r /\ cs_expected_generation site = cr_expected_generation r /\
  cs_expected_kind site = cr_expected_kind r /\ cs_argument_count site = uwrap 16 argc /\
  length (cs_argument_registers site) = 4%nat /\
  forall j, (j < Z.to_nat argc)%nat -> (j < 4)%nat ->
    cs_argument_registers site !! j = Some (uwrap 16 (in_right i + Z.of_nat j)) /\
    uwrap 16 (in_right i + Z.of_nat j) < f_register_count input /\
    exists c, known regs (uwrap 16 (in_right i + Z.of_nat j)) = Some (mkKnown c KNOWN_NUMERIC).

Lemma specialize_site_some i r s s' k : specialize_site mem input i r s = inr (s', k) ->
  ss_regs s' = ss_regs s /\ ss_locals s' = ss_locals s /\ extends (ss_output s) (ss_output s') /\
  f_instructions (ss_output s') = f_instructions (ss_output s) /\
  k = length (f_owned_clutch_sites (ss_output s)) /\
  exists site, f_owned_clutch_sites (ss_output s') = f_owned_clutch_sites (ss_output s) ++ [site] /\ bound_site i r (ss_regs s) site.
Proof.
  unfold specialize_site, TurboJS_IRAllocateClutchCallSite. destruct (_ && _); [done|]. destruct (negb _); [done|]. cbn.
  destruct (bind_environment r _) as [[st site] events] eqn:He. apply bind_environment_call in He as (T1 & T2 & T3 & T4 & T5).
  destruct st; try done. cbn. destruct (bind_arguments _ _ _ _ _ _) as [site'|site'] eqn:Hb; [done|]. intros [= <- <-].
  apply bind_arguments_some in Hb as (E & El & _ & Eat); [|done]. cbn in *.
  split_and!; try done.
  - split; try done; [exists []; by rewrite app_nil_r|]. cbn. exists [site']. rewrite list_insert_insert_eq.
    rewrite insert_app_r_alt, Nat.sub_diag by lia. done.
  - exists site'. split.
    + cbn. rewrite list_insert_insert_eq. rewrite insert_app_r_alt, Nat.sub_diag by lia. done.
    + rewrite T5 in *. cbn in *. split_and!; [by rewrite E..|done|]. intros j Hj Hj4. apply Eat; [lia|]. exact Hj4.
Qed.

Lemma specialize_call_next i s s' : specialize_call mem hp address input i s = Some (SpecializeNext s') ->
  exists callee r c site,
    known (ss_regs s) (in_left i) = Some callee /\ kv_kind callee = KNOWN_CALLABLE /\ kv_callable callee <> 0 /\
    hp_callable hp (kv_callable callee) = Some r /\ uwrap 64 (in_immediate i) <= TURBOJS_CLUTCH_MAX_ARGUMENTS /\
    cr_argument_count r = uwrap 64 (in_immediate i) /\ TurboJS_CallableReferenceIsLive (hp_handle hp) r = true /\
    (Z.to_nat (in_destination i) < length (ss_regs s))%nat /\
    ss_regs s' = <[Z.to_nat (in_destination i) := mkKnown c KNOWN_NUMERIC]> (ss_regs s) /\ ss_locals s' = ss_locals s /\
    extends (ss_output s) (ss_output s') /\ bound_site i r (ss_regs s) site /\
    f_owned_clutch_sites (ss_output s') = f_owned_clutch_sites (ss_output s) ++ [site] /\
    f_instructions (ss_output s') = f_instructions (ss_output s) ++
      [mkInstruction (if decide (in_opcode i = TURBOJS_IR_VALUE_CALL_I64) then TURBOJS_IR_CALL_NATIVE_I64 else TURBOJS_IR_CALL_NATIVE_F64)
         (in_destination i) 0 0 (address (length (f_owned_clutch_sites (ss_output s)))) (in_target i) (in_bytecode_offset i)].
Proof.
  unfold specialize_call. destruct (known (ss_regs s) (in_left i)) as [callee|] eqn:Hk; [|done]. simpl.
  destruct (_ || _) eqn:Hg; [done|]. apply orb_false_iff in Hg as [[Hkind Hnull]%orb_false_iff Hargc].
  destruct (hp_callable hp _) as [r|] eqn:Hr; [|done]. simpl. destruct (_ || _) eqn:Hg; [done|].
  apply orb_false_iff in Hg as [Hcount Hlive]. destruct (specialize_site _ _ _ _ _) as [e|[s1 k]] eqn:Hs.
  { revert Hs. unfold specialize_site. repeat case_match; intros [= <-]; done. }
  apply specialize_site_some in Hs as (R1 & R2 & R3 & R4 & -> & site & R5 & R6).
  destruct (set_numeric _ s1) as [s2|] eqn:Hn; [|done]. apply set_numeric_some in Hn as (c & Hlt & ->). simpl. rewrite R1 in Hlt.
  destruct (emit_copy _ _ _) as [s3| | |] eqn:He; try done. intros [= <-].
  apply emit_copy_next in He as (E1 & E2 & E3 & E4 & E5 & _). cbn in *. rewrite R1 in E4. rewrite R2 in E5. rewrite R4 in E2. rewrite R5 in E3. b2p.
  exists callee, r, c, site. split_and!; try done. by etransitivity.
Qed.

Lemma specialize_instruction_extends i s s' :
  specialize_instruction mem hp address input i s = Some (SpecializeNext s') -> extends (ss_output s) (ss_output s').
Proof.
  intros H. unfold specialize_instruction in H.
  assert (Hemit : forall s0 i0 s1, emit_copy mem s0 i0 = SpecializeNext s1 -> extends (ss_output s0) (ss_output s1)).
  { intros s0 i0 s1 He. by apply emit_copy_next in He as [? _]. }
  destruct (in_opcode i); try done;
    repeat match type of H with
    | context [let? _ := set_numeric ?d ?t in _] =>
        let Hn := fresh in destruct (set_numeric d t) eqn:Hn; [|done]; apply set_numeric_some in Hn as (? & ? & ->)
    | context [let? _ := set_reg ?d ?v ?t in _] =>
        let Hn := fresh in destruct (set_reg d v t) eqn:Hn; [|done]; apply set_reg_some in Hn as (? & ->)
    | context [let? _ := set_local ?d ?v ?t in _] =>
        let Hn := fresh in destruct (set_local d v t) eqn:Hn; [|done]; apply set_local_some in Hn as (? & ->)
    | context [let? _ := known ?l ?x in _] => destruct (known l x); [|done]
    | (if ?b then _ else _) = _ => destruct b; try done
    | match emit_copy ?m ?t ?x with _ => _ end = _ => destruct (emit_copy m t x) eqn:?; try done
    end; simpl in H;
    try (by apply specialize_call_next in H as (? & ? & ? & ? & _ & _ & _ & _ & _ & _ & _ & _ & _ & _ & He & _));
    try (by injection H as <-); try (injection H as H; by apply Hemit in H);
    try (injection H as <-; match goal with He : emit_copy _ _ _ = _ |- _ => exact (Hemit _ _ _ He) end).
Qed.

Lemma specialize_loop_extends : forall instrs s s',
  specialize_loop mem hp address input instrs s = Some (SpecializeNext s') -> extends (ss_output s) (ss_output s').
Proof.
  induction instrs as [|i instrs IH]; intros s s'; simpl; [by intros [= <-]|].
  destruct (specialize_instruction _ _ _ _ _ _) as [[s1| | |]|] eqn:Hi; try done. intros Hl.
  etransitivity; [by eapply specialize_instruction_extends|by apply IH].
Qed.
End Loop.

(** ** The numeric code simulates the tagged code *)

(** What is known of a cell: a numeric cell holds the integer of the boxed
    value, a callable cell is not represented at all. *)
Definition agree (k : KnownValue) (t : TurboJSBoxedValue) (n : Z) : Prop :=
  match kv_kind k with
  | KNOWN_NUMERIC => int_argument t = Some n
  | KNOWN_CALLABLE => t = mkBoxed TURBOJS_BOXED_CALLABLE_REFERENCE (kv_callable k)
  | KNOWN_NONE => True
  end.

Definition table_agrees (ks : list KnownValue) (ts : list TurboJSBoxedValue) (ns : list Z) : Prop :=
  length ks = 64%nat /\ length ns = 64%nat /\
  forall r k t n, ks !! r = Some k -> ts !! r = Some t -> ns !! r = Some n -> agree k t n.

Lemma agrees_insert ks ts ns r k t n :
  table_agrees ks ts ns -> agree k t n -> table_agrees (<[r := k]> ks) (<[r := t]> ts) (<[r := n]> ns).
Proof.
  intros (H1 & H2 & H3) Ha. split_and!; [by rewrite length_insert..|]. intros r' k' t' n' Hk Ht Hn.
  destruct (decide (r' = r)) as [->|Hne].
  - apply list_lookup_insert_Some in Hk as [(_ & <- & _)|[? _]]; [|done].
    apply list_lookup_insert_Some in Ht as [(_ & <- & _)|[? _]]; [|done].
    by apply list_lookup_insert_Some in Hn as [(_ & <- & _)|[? _]].
  - rewrite list_lookup_insert_ne in Hk by done. rewrite list_lookup_insert_ne in Ht by done.
    rewrite list_lookup_insert_ne in Hn by done. by eapply H3.
Qed.

(** A cell whose number does not matter. *)
Lemma agrees_symbolic ks ts ns r k t :
  table_agrees ks ts ns -> kv_kind k <> KNOWN_NUMERIC -> agree k t 0 -> table_agrees (<[r := k]> ks) (<[r := t]> ts) ns.
Proof.
  intros Hs Hk Ha. destruct (ns !! r) as [n|] eqn:Hn.
  - rewrite <-(list_insert_id ns r n Hn). apply agrees_insert; [done|]. unfold agree in *. by destruct (kv_kind k).
  - destruct Hs as (H1 & H2 & H3). rewrite list_insert_ge by (apply lookup_ge_None in Hn; lia). split_and!; [done..|].
    intros r' k' t' n' Hk' Ht' Hn'. destruct (decide (r' = r)) as [->|Hne]; [congruence|].
    rewrite list_lookup_insert_ne in Ht' by done. by eapply H3.
Qed.

Record simulates (s : SpecializeState) (tregs tlocals : list TurboJSBoxedValue) (regs locals : list Z) : Prop := {
  si_regs : table_agrees (ss_regs s) tregs regs;
  si_locals : table_agrees (ss_locals s) tlocals locals
}.

(** Reading a numeric cell. *)
Lemma numeric_read ks ts ns r c t :
  table_agrees ks ts ns -> ks !! r = Some (mkKnown c KNOWN_NUMERIC) -> ts !! r = Some t ->
  exists n, ns !! r = Some n /\ int_argument t = Some n.
Proof.
  intros (H1 & H2 & H3) Hk Ht. destruct (lookup_lt_is_Some_2 ns r) as [n Hn].
  { apply lookup_lt_Some in Hk. lia. }
  exists n. split; [done|]. exact (H3 r _ t n Hk Ht Hn).
Qed.

Lemma symbolic_read ks ts ns r k t :
  table_agrees ks ts ns -> ks !! r = Some k -> kv_kind k <> KNOWN_NUMERIC -> ts !! r = Some t -> agree k t 0.
Proof.
  intros (H1 & H2 & H3) Hk Hn Ht. destruct (lookup_lt_is_Some_2 ns r) as [n Hr]; [apply lookup_lt_Some in Hk; lia|].
  pose proof (H3 r k t n Hk Ht Hr) as Ha. unfold agree in *. by destruct (kv_kind k).
Qed.

(** Wrappers the theorem speaks of: arguments are loaded before anything is
    computed, calls return integers, and constants are 32-bit. *)
Definition loads_only (i : TurboJSIRInstruction) : Prop :=
  in_opcode i = TURBOJS_IR_VALUE_ARGUMENT \/ in_opcode i = TURBOJS_IR_VALUE_CALLABLE_CONSTANT.
Definition integer_body (i : TurboJSIRInstruction) : Prop :=
  in_opcode i <> TURBOJS_IR_VALUE_ARGUMENT /\ in_opcode i <> TURBOJS_IR_ARGUMENT /\ in_opcode i <> TURBOJS_IR_VALUE_CALL_F64 /\
  (in_opcode i = TURBOJS_IR_VALUE_CONSTANT_I32 -> in_i32 (in_immediate i) = true) /\ 0 <= in_right i.
Definition integer_wrapper (f : TurboJSIRFunction) : Prop :=
  exists loads body, f_instructions f = loads ++ body /\ Forall loads_only loads /\ Forall integer_body body.

Section Simulation.
Context (mem : SpecializeMemory) (hp : Heap) (address : nat -> Z) (input output : TurboJSIRFunction).
Context (native_i64 native_f64 : Z -> list Z -> TurboJSIRStatus * Z) (targs : list TurboJSBoxedValue).
(** Distinct call sites have distinct addresses, none of them NULL. *)
Context (Haddress : forall k, address k <> 0) (Hdistinct : forall j k, address j = address k -> j = k).
Notation heap := (with_sites hp address (f_owned_clutch_sites output)).
Notation specialize := (specialize_instruction mem hp address input).

Lemma site_at f site : extends f output -> last (f_owned_clutch_sites f) = Some site ->
  hp_site heap (address (pred (length (f_owned_clutch_sites f)))) = Some site.
Proof.
  intros [_ [l Hl] _ _ _] Hlast. cbn. apply last_Some in Hlast as [l0 E]. rewrite Hl, E, !length_app. cbn.
  replace (pred (length l0 + 1))%nat with (length l0) by lia.
  destruct (list_find _ _) as [[a k]|] eqn:Hf.
  - apply list_find_Some in Hf as (_ & Hk & _). apply Hdistinct in Hk as ->. rewrite <-app_assoc.
    by rewrite lookup_app_r, Nat.sub_diag by lia.
  - exfalso. apply list_find_None in Hf. rewrite Forall_forall in Hf. apply (Hf (length l0)); [|done].
    apply elem_of_seq. lia.
Qed.

(** The numbers a bound site passes are the integers of the tagged cells. *)
Lemma gather_arguments ks tregs regs right argc sources cells :
  table_agrees ks tregs regs -> f_register_count output = f_register_count input ->
  0 <= right -> right + Z.of_nat argc <= 64 ->
  length sources = argc -> length cells = argc ->
  (forall j, (j < argc)%nat -> sources !! j = Some (uwrap 16 (right + Z.of_nat j)) /\
     uwrap 16 (right + Z.of_nat j) < f_register_count input /\
     exists c, known ks (uwrap 16 (right + Z.of_nat j)) = Some (mkKnown c KNOWN_NUMERIC)) ->
  (forall j, (j < argc)%nat -> cells !! j = tregs !! Z.to_nat (right + Z.of_nat j)) ->
  exists args, mapM int_argument cells = Some args /\ gather (f_register_count output) regs sources = Some args.
Proof.
  intros Hs Hcount. revert right sources cells. induction argc as [|argc IH]; intros right sources cells Hr Hb Hl Hl' Hsrc Hcell.
  { destruct sources; [|done]. destruct cells; [|done]. by exists []. }
  destruct sources as [|src sources]; [done|]. destruct cells as [|t cells]; [done|]. simpl in Hl, Hl'.
  destruct (Hsrc O ltac:(lia)) as (E & Hlt & c & Hk). simpl in E. injection E as ->. rewrite Z.add_0_r in *.
  assert (Eu : uwrap 16 right = right) by (apply uwrap_small; unfold is_u; lia). rewrite Eu in *.
  pose proof (Hcell O ltac:(lia)) as Ht. simpl in Ht. rewrite Z.add_0_r in Ht. unfold known in Hk.
  destruct (numeric_read _ _ _ _ _ _ Hs Hk (eq_sym Ht)) as (n & Hn & Hint).
  destruct (IH (right + 1) sources cells) as (args & Hm & Hg); [lia..| | |].
  - intros j Hj. specialize (Hsrc (S j) ltac:(lia)). simpl in Hsrc.
    by replace (right + 1 + Z.of_nat j) with (right + Z.of_nat (S j)) by lia.
  - intros j Hj. specialize (Hcell (S j) ltac:(lia)). simpl in Hcell.
    by replace (right + 1 + Z.of_nat j) with (right + Z.of_nat (S j)) by lia.
  - exists (n :: args). simpl. rewrite Hint, Hm. rewrite Hcount in *.
    rewrite (proj2 (Z.leb_gt _ _) Hlt), Hg, Hn. done.
Qed.

(** A call through the site is a call through the reference. *)
Lemma site_calls_reference r site argc args :
  cs_target site = cr_target r -> cs_expected_generation site = cr_expected_generation r ->
  cs_expected_kind site = cr_expected_kind r -> cs_argument_count site = argc -> argc <= TURBOJS_CLUTCH_MAX_ARGUMENTS ->
  Z.of_nat (length args) = argc -> TurboJS_CallableReferenceIsLive (hp_handle hp) r = true ->
  cr_expected_kind r = TURBOJS_NATIVE_ENTRY_INT32 ->
  TurboJS_ClutchCallSiteInvokeI64 native_i64 (hp_handle hp) site args = TurboJS_CallableReferenceInvokeI64 native_i64 (hp_handle hp) r args.
Proof.
  intros E1 E2 E3 E4 Hmax Hlen Hlive Hkind. unfold TurboJS_ClutchCallSiteInvokeI64, TurboJS_CallableReferenceInvokeI64.
  rewrite Hlive, E1, E2, E3, E4, Hkind, bool_decide_eq_true_2 by done. cbn [negb].
  rewrite (proj2 (Z.ltb_ge _ _) Hmax). unfold TurboJS_CallableReferenceIsLive in Hlive.
  destruct (cr_target r =? 0); [by rewrite orb_true_r in Hlive|]. cbn. rewrite take_ge by lia. done.
Qed.

Lemma sim_call i s s' tregs tlocals regs locals tregs' tlocals' pc pc' n :
  in_opcode i = TURBOJS_IR_VALUE_CALL_I64 -> 0 <= in_right i -> f_register_count input <= 64 ->
  operands_ok hp input i -> f_register_count output = f_register_count input ->
  f_register_count input <= Z.of_nat (length tregs) ->
  simulates s tregs tlocals regs locals -> specialize_call mem hp address input i s = Some (SpecializeNext s') ->
  extends (ss_output s') output ->
  tagged_call hp native_i64 native_f64 input i tregs tlocals pc false = TNext tregs' tlocals' pc' ->
  pc' = S pc /\ exists e regs', f_instructions (ss_output s') = f_instructions (ss_output s) ++ [e] /\ in_opcode e <> TURBOJS_IR_ARGUMENT /\
    execute_step heap native_i64 native_f64 output e regs locals n = Next regs' locals (S n) /\
    simulates s' tregs' tlocals' regs' locals /\ length tregs' = length tregs.
Proof.
  intros Hop Hright H64 [ret Hok] Hcount Htl [Hsr Hsl] Hs Hext Ht.
  unfold verify_instruction in Hok. rewrite Hop in Hok. destruct (_ || _) eqn:Hg in Hok; [done|]. b2p.
  apply specialize_call_next in Hs as (callee & r & c & site & Hk & Hkind & Hnull & Hr & Hargc & Hcnt & Hlive & Hdst & Er & El & _ & Hbound & Hsites & Hins).
  assert (Eimm : uwrap 64 (in_immediate i) = in_immediate i) by (apply uwrap_small; unfold is_u, TURBOJS_CLUTCH_MAX_ARGUMENTS in *; lia).
  unfold bound_site in Hbound. rewrite Eimm in *. destruct Hbound as (B1 & B2 & B3 & B4 & B5 & B6).
  assert (E16 : uwrap 16 (in_immediate i) = in_immediate i) by (apply uwrap_small; unfold is_u, TURBOJS_CLUTCH_MAX_ARGUMENTS in *; lia). rewrite E16 in B4.
  unfold tagged_call, trd in Ht. unfold known in Hk. destruct (tregs !! Z.to_nat (in_left i)) as [tc|] eqn:Htc; [|done].
  destruct Hsr as (R1 & R2 & R3). destruct (lookup_lt_is_Some_2 regs (Z.to_nat (in_left i))) as [nc Hnc]; [apply lookup_lt_Some in Hk; lia|].
  pose proof (R3 _ _ _ _ Hk Htc Hnc) as Hag. unfold agree in Hag. rewrite Hkind in Hag. subst tc. cbn in Ht.
  destruct (_ || _) in Ht; [done|].
  destruct (gather_arguments (ss_regs s) tregs regs (in_right i) (Z.to_nat (in_immediate i))
    (take (Z.to_nat (in_immediate i)) (cs_argument_registers site)) (take (Z.to_nat (in_immediate i)) (drop (Z.to_nat (in_right i)) tregs)))
    as (args & Hm & Hgather); [by split_and!|done|done|lia| | | | |].
  { rewrite length_take, B5. unfold TURBOJS_CLUTCH_MAX_ARGUMENTS in *. lia. }
  { rewrite length_take, length_drop. lia. }
  { intros j Hj. rewrite lookup_take_lt by done. apply B6; [done|]. unfold TURBOJS_CLUTCH_MAX_ARGUMENTS in *. lia. }
  { intros j Hj. rewrite lookup_take_lt, lookup_drop by done. f_equal. lia. }
  rewrite Hm, Hr in Ht. assert (Hlen : length args = Z.to_nat (in_immediate i)).
  { apply length_mapM in Hm. rewrite <-Hm, length_take, length_drop. lia. }
  destruct (TurboJS_CallableReferenceInvokeI64 _ _ _ _) as [st v] eqn:Hinv. destruct st; try done. unfold twr in Ht.
  destruct (_ <? _)%nat eqn:Hw in Ht; [|done]. injection Ht as <- <- <-. split; [done|].
  assert (Hki : cr_expected_kind r = TURBOJS_NATIVE_ENTRY_INT32).
  { unfold TurboJS_CallableReferenceInvokeI64 in Hinv. case_bool_decide; [done|]. done. }
  assert (Hv : exists w, v = Some w).
  { revert Hinv. unfold TurboJS_CallableReferenceInvokeI64, TurboJS_NativeEntryInvokeI64. repeat case_match; intros [= ]; subst; eauto. }
  destruct Hv as [w ->].
  eexists _, (<[Z.to_nat (in_destination i) := w]> regs). split; [exact Hins|].
  rewrite decide_True by done. split; [done|]. split; [|split; [split; cbn|by rewrite length_insert]].
  - unfold execute_step. cbn [in_opcode]. unfold call_native. cbn [in_immediate in_opcode].
    rewrite (proj2 (Z.eqb_neq _ _) (Haddress _)).
    assert (Hsite : hp_site heap (address (length (f_owned_clutch_sites (ss_output s)))) = Some site).
    { pose proof (site_at (ss_output s') site Hext) as Hsa. rewrite Hsites, last_snoc, length_app in Hsa. cbn [length] in Hsa.
      rewrite Nat.add_1_r in Hsa. by apply Hsa. }
    rewrite Hsite. rewrite B4, (proj2 (Z.ltb_ge _ _)) by lia. rewrite Hgather. rewrite decide_False by done.
    change (hp_handle heap) with (hp_handle hp).
    rewrite (site_calls_reference r site (in_immediate i) args); [|done..|lia|done|done]. rewrite Hinv.
    unfold wr. cbn [in_destination]. rewrite (proj2 (Nat.ltb_lt _ _)) by lia. done.
  - rewrite Er. apply agrees_insert; [by split_and!|done].
  - by rewrite El.
Qed.

(** What one instruction does to the numeric run: nothing, or one step. *)
Definition follows (s s' : SpecializeState) (tregs' tlocals' : list TurboJSBoxedValue) (regs locals : list Z) (n : nat) : Prop :=
  (f_instructions (ss_output s') = f_instructions (ss_output s) /\ simulates s' tregs' tlocals' regs locals) \/
  (exists e regs' locals', f_instructions (ss_output s') = f_instructions (ss_output s) ++ [e] /\ in_opcode e <> TURBOJS_IR_ARGUMENT /\
     execute_step heap native_i64 native_f64 output e regs locals n = Next regs' locals' (S n) /\
     simulates s' tregs' tlocals' regs' locals').

Lemma swrap_i32 z : in_i32 z = true -> swrap 32 z = z.
Proof.
  rewrite in_i32_spec. unfold INT32_MIN, INT32_MAX, swrap. change (2 ^ (32 - 1)) with 2147483648. change (2 ^ 32) with 4294967296.
  intros Hz. rewrite Z.mod_small by lia. lia.
Qed.

(** Writing a tagged register. *)
Lemma twr_next a d v locals pc regs' locals' pc' :
  twr a d v (fun a => TNext a locals pc) = TNext regs' locals' pc' ->
  regs' = <[Z.to_nat d := v]> a /\ locals' = locals /\ pc' = pc.
Proof. unfold twr. destruct (_ <? _)%nat; [|done]. by intros [= <- <- <-]. Qed.

Lemma sim_constant i s s' tregs tlocals regs locals tregs' tlocals' pc pc' n :
  in_opcode i = TURBOJS_IR_VALUE_CONSTANT_I32 -> in_i32 (in_immediate i) = true ->
  simulates s tregs tlocals regs locals -> specialize i s = Some (SpecializeNext s') ->
  tagged_step hp native_i64 native_f64 input targs i tregs tlocals pc = TNext tregs' tlocals' pc' ->
  pc' = S pc /\ length tregs' = length tregs /\ follows s s' tregs' tlocals' regs locals n.
Proof.
  intros Hop H32 [Hsr Hsl] Hs Ht. unfold specialize_instruction in Hs. unfold tagged_step in Ht. rewrite Hop in Hs, Ht.
  apply twr_next in Ht as (-> & -> & ->). destruct (set_numeric _ s) as [s1|] eqn:Hn; [|done]. simpl in Hs.
  apply set_numeric_some in Hn as (c & Hlt & ->). injection Hs as Hs. apply emit_copy_next in Hs as (_ & E2 & _ & E4 & E5 & _). cbn in *.
  pose proof Hsr as (R1 & R2 & _). split; [done|]. split; [by rewrite length_insert|]. right. eexists _, _, _.
  split; [exact E2|]. split; [done|]. split.
  - unfold execute_step. cbn. unfold wr. by rewrite (proj2 (Nat.ltb_lt _ _)) by lia.
  - split; rewrite ?E4, ?E5; [|done]. apply agrees_insert; [done|]. cbn. unfold agree. cbn. by rewrite swrap_i32.
Qed.

Lemma sim_callable i s s' tregs tlocals regs locals tregs' tlocals' pc pc' :
  in_opcode i = TURBOJS_IR_VALUE_CALLABLE_CONSTANT ->
  simulates s tregs tlocals regs locals -> specialize i s = Some (SpecializeNext s') ->
  tagged_step hp native_i64 native_f64 input targs i tregs tlocals pc = TNext tregs' tlocals' pc' ->
  pc' = S pc /\ length tregs' = length tregs /\ f_instructions (ss_output s') = f_instructions (ss_output s) /\
  simulates s' tregs' tlocals' regs locals.
Proof.
  intros Hop [Hsr Hsl] Hs Ht. unfold specialize_instruction in Hs. unfold tagged_step in Ht. rewrite Hop in Hs, Ht.
  apply twr_next in Ht as (-> & -> & ->). destruct (set_reg _ _ s) as [s1|] eqn:Hn; [|done]. simpl in Hs.
  apply set_reg_some in Hn as (Hlt & ->). injection Hs as <-. split_and!; [done|by rewrite length_insert|done|].
  split; cbn; [|done]. by apply agrees_symbolic.
Qed.

Lemma sim_move i s s' tregs tlocals regs locals tregs' tlocals' pc pc' n :
  in_opcode i = TURBOJS_IR_VALUE_MOVE ->
  simulates s tregs tlocals regs locals -> specialize i s = Some (SpecializeNext s') ->
  tagged_step hp native_i64 native_f64 input targs i tregs tlocals pc = TNext tregs' tlocals' pc' ->
  pc' = S pc /\ length tregs' = length tregs /\ follows s s' tregs' tlocals' regs locals n.
Proof.
  intros Hop [Hsr Hsl] Hs Ht. unfold specialize_instruction in Hs. unfold tagged_step in Ht. rewrite Hop in Hs, Ht.
  unfold trd in Ht. destruct (tregs !! Z.to_nat (in_left i)) as [t|] eqn:Htl; [|done]. apply twr_next in Ht as (-> & -> & ->).
  destruct (known (ss_regs s) (in_left i)) as [v|] eqn:Hk; [|done]. simpl in Hs. destruct (set_reg _ _ s) as [s1|] eqn:Hn; [|done].
  apply set_reg_some in Hn as (Hlt & ->). cbn in Hs. unfold known in *.
  assert (Hv : <[Z.to_nat (in_destination i) := v]> (ss_regs s) !! Z.to_nat (in_left i) = Some v).
  { destruct (decide (Z.to_nat (in_left i) = Z.to_nat (in_destination i))) as [->|]; [by apply list_lookup_insert_eq|by rewrite list_lookup_insert_ne]. }
  rewrite Hv in Hs. cbn in Hs. destruct (decide (kv_kind v = KNOWN_NUMERIC)) as [|Hnn]; [done|]. injection Hs as <-.
  split_and!; [done|by rewrite length_insert|]. left. split; [done|]. split; cbn; [|done].
  apply agrees_symbolic; [done..|]. by eapply (symbolic_read _ _ regs).
Qed.

Lemma sim_local_set i s s' tregs tlocals regs locals tregs' tlocals' pc pc' n :
  in_opcode i = TURBOJS_IR_VALUE_LOCAL_SET ->
  simulates s tregs tlocals regs locals -> specialize i s = Some (SpecializeNext s') ->
  tagged_step hp native_i64 native_f64 input targs i tregs tlocals pc = TNext tregs' tlocals' pc' ->
  pc' = S pc /\ length tregs' = length tregs /\ follows s s' tregs' tlocals' regs locals n.
Proof.
  intros Hop [Hsr Hsl] Hs Ht. unfold specialize_instruction in Hs. unfold tagged_step in Ht. rewrite Hop in Hs, Ht.
  unfold trd in Ht. destruct (tregs !! Z.to_nat (in_left i)) as [t|] eqn:Htl; [|done].
  unfold twr in Ht. destruct (_ <? _)%nat eqn:Hw in Ht; [|done]. injection Ht as <- <- <-.
  destruct (_ <=? _); [done|]. destruct (known (ss_regs s) (in_left i)) as [[c kind]|] eqn:Hk; [|done]. simpl in Hs.
  destruct (set_local _ _ s) as [s1|] eqn:Hn; [|done]. apply set_local_some in Hn as (Hlt & ->). cbn in Hs.
  split_and!; [done..|]. pose proof Hsl as (L1 & L2 & _). unfold known in Hk. destruct (decide (kind = KNOWN_NUMERIC)) as [->|Hnn].
  - injection Hs as Hs. apply emit_copy_next in Hs as (_ & E2 & _ & E4 & E5 & _). cbn in *.
    destruct (numeric_read _ _ _ _ _ _ Hsr Hk Htl) as (m & Hm & Hint). right. eexists _, _, _. split; [exact E2|]. split; [done|]. split.
    + unfold execute_step. cbn. unfold rd. rewrite Hm. unfold wr. by rewrite (proj2 (Nat.ltb_lt _ _)) by lia.
    + split; rewrite ?E4, ?E5; [done|]. apply agrees_insert; [done|]. exact Hint.
  - injection Hs as <-. left. split; [done|]. split; cbn; [done|]. apply agrees_symbolic; [done..|].
    by eapply (symbolic_read _ _ regs).
Qed.

Lemma sim_local_get i s s' tregs tlocals regs locals tregs' tlocals' pc pc' n :
  in_opcode i = TURBOJS_IR_VALUE_LOCAL_GET ->
  simulates s tregs tlocals regs locals -> specialize i s = Some (SpecializeNext s') ->
  tagged_step hp native_i64 native_f64 input targs i tregs tlocals pc = TNext tregs' tlocals' pc' ->
  pc' = S pc /\ length tregs' = length tregs /\ follows s s' tregs' tlocals' regs locals n.
Proof.
  intros Hop [Hsr Hsl] Hs Ht. unfold specialize_instruction in Hs. unfold tagged_step in Ht. rewrite Hop in Hs, Ht.
  unfold trd in Ht. destruct (tlocals !! Z.to_nat (in_immediate i)) as [t|] eqn:Htl; [|done]. apply twr_next in Ht as (-> & -> & ->).
  destruct (_ <=? _); [done|]. destruct (known (ss_locals s) (in_immediate i)) as [[c kind]|] eqn:Hk; [|done]. simpl in Hs.
  destruct (set_reg _ _ s) as [s1|] eqn:Hn; [|done]. apply set_reg_some in Hn as (Hlt & ->). cbn in Hs.
  split_and!; [done|by rewrite length_insert|]. pose proof Hsr as (R1 & R2 & _). unfold known in Hk. destruct (decide (kind = KNOWN_NUMERIC)) as [->|Hnn].
  - injection Hs as Hs. apply emit_copy_next in Hs as (_ & E2 & _ & E4 & E5 & _). cbn in *.
    destruct (numeric_read _ _ _ _ _ _ Hsl Hk Htl) as (m & Hm & Hint). right. eexists _, _, _. split; [exact E2|]. split; [done|]. split.
    + unfold execute_step. cbn. unfold rd. rewrite Hm. unfold wr. by rewrite (proj2 (Nat.ltb_lt _ _)) by lia.
    + split; rewrite ?E4, ?E5; [|done]. apply agrees_insert; [done|]. exact Hint.
  - injection Hs as <-. left. split; [done|]. split; cbn; [|done]. apply agrees_symbolic; [done..|].
    by eapply (symbolic_read _ _ locals).
Qed.

Context (Haccepted : ir_accepted hp input) (Hcount : f_register_count output = f_register_count input).

Lemma sim_step i s s' tregs tlocals regs locals tregs' tlocals' pc pc' n :
  i ∈ f_instructions input -> integer_body i -> f_register_count input <= Z.of_nat (length tregs) ->
  simulates s tregs tlocals regs locals -> specialize i s = Some (SpecializeNext s') -> extends (ss_output s') output ->
  tagged_step hp native_i64 native_f64 input targs i tregs tlocals pc = TNext tregs' tlocals' pc' ->
  pc' = S pc /\ length tregs' = length tregs /\ follows s s' tregs' tlocals' regs locals n.
Proof.
  intros Hin (B1 & B2 & B3 & B4 & B5) Hlen Hsim Hs Hext Ht. destruct (in_opcode i) eqn:Hop; try done;
    try (by unfold specialize_instruction in Hs; rewrite Hop in Hs);
    try (by unfold tagged_step in Ht; rewrite Hop in Ht).
  - eapply sim_constant; eauto.
  - by eapply sim_move.
  - by eapply sim_local_get.
  - by eapply sim_local_set.
  - destruct (sim_callable i s s' tregs tlocals regs locals tregs' tlocals' pc pc') as (E1 & E2 & E3 & E4); [done..|].
    split_and!; [done..|]. by left.
  - unfold specialize_instruction in Hs. unfold tagged_step in Ht. rewrite Hop in Hs, Ht.
    destruct (sim_call i s s' tregs tlocals regs locals tregs' tlocals' pc pc' n) as (E1 & e & regs' & E2 & E3 & E4 & E5 & E6); try done.
    + exact (acc_registers _ _ Haccepted).
    + apply list_elem_of_lookup in Hin as [k Hk]. by eapply accepted_operands.
    + split_and!; [done..|]. right. by exists e, regs', locals.
  - unfold tagged_step, trd in Ht. rewrite Hop in Ht. by destruct (tregs !! _).
Qed.

(** A run of the body that returns. *)
Lemma sim_body : forall instrs s s' tregs tlocals regs locals pc tfuel fuel v,
  drop pc (f_instructions input) = instrs -> Forall integer_body instrs -> f_register_count input <= Z.of_nat (length tregs) ->
  simulates s tregs tlocals regs locals ->
  specialize_loop mem hp address input instrs s = Some (SpecializeNext s') -> output = ss_output s' ->
  (length (f_instructions output) - length (f_instructions (ss_output s)) <= fuel)%nat ->
  tagged_loop hp native_i64 native_f64 tfuel input targs tregs tlocals pc = TResult v ->
  execute_loop heap native_i64 native_f64 fuel output regs locals (length (f_instructions (ss_output s))) = Result (bx_as v).
Proof.
  induction instrs as [|i instrs IH]; intros s s' tregs tlocals regs locals pc tfuel fuel v Hd Hbody Hlen Hsim Hs Ho Hfuel Ht.
  { assert (Hnone : f_instructions input !! pc = None).
    { by rewrite lookup_of_drop, Hd. }
    destruct tfuel; simpl in Ht; by rewrite Hnone in Ht. }
  assert (Hi : f_instructions input !! pc = Some i).
  { by rewrite lookup_of_drop, Hd. }
  assert (Hd' : drop (S pc) (f_instructions input) = instrs).
  { by rewrite <-Nat.add_1_r, <-drop_drop, Hd. }
  apply Forall_cons in Hbody as [Hib Hbody]. destruct tfuel as [|tfuel]; simpl in Ht; rewrite Hi in Ht; [done|].
  simpl in Hs. destruct (specialize i s) as [[s1| | |]|] eqn:Hs1; try done. simpl in Hs.
  pose proof (specialize_loop_extends mem hp address input instrs s1 s' Hs) as Hext. rewrite <-Ho in Hext.
  destruct (tagged_step _ _ _ _ _ _ _ _ _) as [tregs' tlocals' pc'|o] eqn:Hstep.
  - destruct (sim_step i s s1 tregs tlocals regs locals tregs' tlocals' pc pc' (length (f_instructions (ss_output s)))) as (-> & Hl & [[E1 Hsim']|(e & regs' & locals' & E1 & _ & Hx & Hsim')]); try done.
    { by eapply list_elem_of_lookup_2. }
    + rewrite <-E1. eapply (IH s1 s' tregs' tlocals' regs locals (S pc) tfuel); try done; [by rewrite Hl|by rewrite E1].
    + destruct Hext as [[rest Hrest] _ _ _ _].
      assert (He : f_instructions output !! length (f_instructions (ss_output s)) = Some e).
      { rewrite Hrest, E1, <-app_assoc. by rewrite lookup_app_r, Nat.sub_diag by lia. }
      assert (Hmore : (length (f_instructions (ss_output s)) < length (f_instructions output))%nat) by (by eapply lookup_lt_Some).
      destruct fuel as [|fuel]; [lia|]. simpl. rewrite He, Hx.
      replace (S (length (f_instructions (ss_output s)))) with (length (f_instructions (ss_output s1))) by (rewrite E1, length_app; simpl; lia).
      eapply (IH s1 s' tregs' tlocals' regs' locals' (S pc) tfuel); try done; [by rewrite Hl|]. rewrite E1, length_app. simpl. lia.
  - subst o. assert (Hop : in_opcode i = TURBOJS_IR_VALUE_RETURN).
    { unfold tagged_step, tagged_call, twr, trd in Hstep. destruct (in_opcode i); try done; repeat case_match; done. }
    unfold tagged_step, trd in Hstep. unfold specialize_instruction in Hs1. rewrite Hop in Hstep, Hs1.
    destruct (tregs !! Z.to_nat (in_left i)) as [t|] eqn:Htl; [|done]. injection Hstep as <-.
    destruct (known (ss_regs s) (in_left i)) as [[c kind]|] eqn:Hk; [|done]. simpl in Hs1. destruct (decide (kind = KNOWN_NUMERIC)) as [->|]; [|done].
    injection Hs1 as Hs1. apply emit_copy_next in Hs1 as (_ & E2 & _). destruct Hext as [[rest Hrest] _ _ _ _].
    destruct (numeric_read _ _ _ _ _ _ (si_regs _ _ _ _ _ Hsim) Hk Htl) as (m & Hm & Hint).
    assert (He : f_instructions output !! length (f_instructions (ss_output s)) = Some (in_set_opcode TURBOJS_IR_RETURN_I64 i)).
    { rewrite Hrest, E2, <-app_assoc. by rewrite lookup_app_r, Nat.sub_diag by lia. }
    assert (Hmore : (length (f_instructions (ss_output s)) < length (f_instructions output))%nat) by (by eapply lookup_lt_Some).
    destruct fuel as [|fuel]; [lia|]. simpl. rewrite He. unfold execute_step. cbn. unfold rd. rewrite Hm. f_equal.
    unfold int_argument in Hint. by destruct (bx_tag t); simplify_eq.
Qed.

Context (Hargs : Forall (fun t => is_Some (int_argument t)) targs).

Lemma integer_payload t n : int_argument t = Some n -> n = bx_as t.
Proof. unfold int_argument. destruct (bx_tag t); by intros [= <-]. Qed.

(** Code that runs to a result does not start with an argument load. *)
Lemma prologue_done regs n r :
  execute_from heap native_i64 native_f64 output regs zero_array n = Result r ->
  argument_prologue heap native_i64 native_f64 output (map bx_as targs) regs n (drop n (f_instructions output)) = Result r.
Proof.
  intros Hrun. pose proof (lookup_of_drop (f_instructions output) n) as He.
  destruct (drop n (f_instructions output)) as [|e rest]; simpl in *.
  - unfold execute_from, step_limit in Hrun. rewrite Nat.add_comm in Hrun. cbn [execute_loop Nat.add] in Hrun. by rewrite He in Hrun.
  - destruct (decide (in_opcode e = TURBOJS_IR_ARGUMENT)) as [Hop|]; [|exact Hrun].
    unfold execute_from, step_limit in Hrun. rewrite Nat.add_comm in Hrun. cbn [execute_loop Nat.add] in Hrun.
    rewrite He in Hrun. unfold execute_step in Hrun. by rewrite Hop in Hrun.
Qed.

(** The argument loads come first: the prologue of [TurboJS_IRExecute]. *)
Lemma sim_loads body : forall loads s s' tregs tlocals regs pc tfuel v,
  drop pc (f_instructions input) = loads ++ body -> Forall loads_only loads -> Forall integer_body body ->
  f_register_count input <= Z.of_nat (length tregs) -> simulates s tregs tlocals regs zero_array ->
  specialize_loop mem hp address input (loads ++ body) s = Some (SpecializeNext s') -> output = ss_output s' ->
  tagged_loop hp native_i64 native_f64 tfuel input targs tregs tlocals pc = TResult v ->
  argument_prologue heap native_i64 native_f64 output (map bx_as targs) regs (length (f_instructions (ss_output s)))
    (drop (length (f_instructions (ss_output s))) (f_instructions output)) = Result (bx_as v).
Proof.
  induction loads as [|i loads IH]; intros s s' tregs tlocals regs pc tfuel v Hd Hl Hb Hlen Hsim Hs Ho Ht; simpl in Hd, Hs.
  - assert (Hrun : execute_from heap native_i64 native_f64 output regs zero_array (length (f_instructions (ss_output s))) = Result (bx_as v)).
    { unfold execute_from. eapply (sim_body body s s' tregs tlocals); try done. unfold step_limit. lia. }
    by apply prologue_done.
  - apply Forall_cons in Hl as [Hi Hl].
    assert (Hpc : f_instructions input !! pc = Some i).
    { by rewrite lookup_of_drop, Hd. }
    assert (Hd' : drop (S pc) (f_instructions input) = loads ++ body) by (by rewrite <-Nat.add_1_r, <-drop_drop, Hd).
    destruct tfuel as [|tfuel]; simpl in Ht; rewrite Hpc in Ht; [done|].
    destruct (specialize i s) as [[s1| | |]|] eqn:Hs1; try done. simpl in Hs.
    pose proof (specialize_loop_extends mem hp address input _ s1 s' Hs) as [[rest Hrest] _ _ _ _]. rewrite <-Ho in Hrest.
    destruct (tagged_step _ _ _ _ _ _ _ _ _) as [tregs' tlocals' pc'|o] eqn:Hstep.
    2: { subst o. exfalso. unfold tagged_step, trd, twr in Hstep. destruct Hi as [Hop|Hop]; rewrite Hop in Hstep; repeat case_match; done. }
    destruct Hi as [Hop|Hop].
    + unfold tagged_step, trd in Hstep. unfold specialize_instruction in Hs1. rewrite Hop in Hstep, Hs1.
      destruct (targs !! Z.to_nat (in_immediate i)) as [t|] eqn:Hta; [|done]. apply twr_next in Hstep as (-> & -> & ->).
      destruct (set_numeric _ s) as [s2|] eqn:Hn; [|done]. apply set_numeric_some in Hn as (c & Hlt & ->). simpl in Hs1. injection Hs1 as Hs1.
      apply emit_copy_next in Hs1 as (_ & E2 & _ & E4 & E5 & _). cbn in *. destruct Hsim as [Hsr Hsl]. pose proof Hsr as (R1 & R2 & _).
      destruct (Forall_lookup_1 _ _ _ _ Hargs Hta) as [n Hn]. pose proof (integer_payload t n Hn) as ->.
      rewrite Hrest, E2, <-app_assoc, drop_app_length. simpl. rewrite list_lookup_fmap, Hta. simpl.
      rewrite (proj2 (Nat.ltb_lt _ _)) by lia.
      assert (Hpos : length (f_instructions (ss_output s1)) = S (length (f_instructions (ss_output s)))) by (rewrite E2, length_app; simpl; lia).
      assert (Hrest' : drop (length (f_instructions (ss_output s1))) (f_instructions output) = rest) by (by rewrite Hrest, drop_app_length).
      rewrite <-Hpos, <-Hrest'. eapply (IH s1 s' _ tlocals _ (S pc) tfuel); [done|done|done| | |done|done|exact Ht]; [by rewrite length_insert|].
      split; rewrite ?E4, ?E5; [|done]. by apply agrees_insert.
    + destruct (sim_callable i s s1 tregs tlocals regs zero_array tregs' tlocals' pc pc') as (-> & E2 & E3 & E4); [done..|].
      rewrite <-E3. eapply (IH s1 s' tregs' tlocals' regs (S pc) tfuel); try done. by rewrite E2.
Qed.
End Simulation.

(** ** The theorem *)

Lemma allocate_registers_ok : forall turns count f f',
  allocate_registers turns count f = inr f' -> (Z.to_nat (count - f_register_count f) <= turns)%nat -> f_register_count f <= count ->
  f_register_count f' = count /\ f_instructions f' = f_instructions f /\ f_owned_clutch_sites f' = f_owned_clutch_sites f /\
  f_argument_count f' = f_argument_count f /\ f_local_count f' = f_local_count f.
Proof.
  induction turns as [|turns IH]; intros count f f' Ha Ht Hc; simpl in Ha.
  { injection Ha as <-. split_and!; try done. lia. }
  destruct (Z.ltb_spec (f_register_count f) count) as [Hlt|Hge]; [|injection Ha as <-; split_and!; try done; lia].
  unfold TurboJS_IRAllocateRegister in Ha. destruct (TURBOJS_IR_MAX_REGISTERS <=? f_register_count f) eqn:Hm; [done|].
  destruct (_ =? TURBOJS_IR_NO_REGISTER); [done|]. apply IH in Ha; [done|cbn; lia|cbn; lia].
Qed.

(** A failed step carries an error. *)
Definition step_failed (r : option SpecializeStep) : Prop :=
  match r with Some (SpecializeFailed st _) => st <> TURBOJS_IR_OK | _ => True end.

Lemma emit_copy_failed mem s i : step_failed (Some (emit_copy mem s i)).
Proof. unfold emit_copy. by destruct (TurboJS_IREmit _ _ _) as [f []]. Qed.

Lemma specialize_site_failed mem input i r s e : specialize_site mem input i r s = inl e -> step_failed (Some e).
Proof.
  unfold specialize_site. destruct (TurboJS_IRAllocateClutchCallSite _ _ _) as [f [k|]]; [|by intros [= <-]].
  destruct (bind_environment _ _) as [[st site] events].
  destruct st; try (by intros [= <-]). destruct (bind_arguments _ _ _ _ _ _); by intros [= <-].
Qed.

Lemma specialize_instruction_failed mem hp address input i s : step_failed (specialize_instruction mem hp address input i s).
Proof.
  unfold specialize_instruction, specialize_call.
  repeat (case_match || unfold mbind, option_bind); simpl in *; simplify_eq; try done;
    try (by apply emit_copy_failed); try (by eapply specialize_site_failed).
  all: match goal with H : emit_copy ?m ?s ?i = SpecializeFailed _ _ |- _ => pose proof (emit_copy_failed m s i) as Hf; by rewrite H in Hf end.
Qed.

Lemma specialize_loop_failed mem hp address input instrs : forall s, step_failed (specialize_loop mem hp address input instrs s).
Proof.
  induction instrs as [|i instrs IH]; intros s; simpl; [done|].
  pose proof (specialize_instruction_failed mem hp address input i s) as Hi.
  destruct (specialize_instruction _ _ _ _ _ _) as [[s1| | |]|]; simpl in *; auto.
Qed.

Lemma table_fresh ts : table_agrees known_table ts zero_array.
Proof. split_and!; [done..|]. intros r k t n Hk _ _. apply lookup_replicate in Hk as [-> _]. done. Qed.

(** C9 Specialization preserves results.  Where a tagged wrapper that loads its
    arguments first and makes integer calls returns a value on integer
    arguments, the numeric function [TurboJS_IRSpecializeCallableReferences]
    delivers returns the integer of that value: calls through its own call
    sites reach the same native code with the same arguments, and the callable
    constants, moves and locals it drops are not missed. *)
Theorem specialization_preserves_results mem hp address next input output events native_i64 native_f64 arguments v :
  integer_wrapper input -> 0 <= f_register_count input ->
  (forall k, address k <> 0) -> (forall j k, address j = address k -> j = k) ->
  Forall (fun t => is_Some (int_argument t)) arguments ->
  TurboJS_IRSpecializeCallableReferences mem hp address next input = Some (TURBOJS_IR_OK, output, events) ->
  TurboJS_IRExecuteTagged hp native_i64 native_f64 true input arguments = TResult v ->
  TurboJS_IRExecute (with_sites hp address (f_owned_clutch_sites output)) native_i64 native_f64 output (map bx_as arguments)
    = Result (bx_as v).
Proof.
  intros (loads & body & Hin & Hloads & Hbody) Hpos Haddr Hdist Hargs Hspec Hexec.
  unfold TurboJS_IRSpecializeCallableReferences in Hspec. cbn [TurboJS_IRFunctionInit] in Hspec.
  destruct (allocate_registers _ _ _) as [f|f] eqn:Ha; [done|].
  apply allocate_registers_ok in Ha as (A1 & A2 & A3 & A4 & A5); [|cbn; lia|cbn; lia]. cbn in A2, A3, A4, A5.
  pose proof (specialize_loop_failed mem hp address input (f_instructions input) (mkSpecialize f known_table known_table [])) as Hfail.
  destruct (specialize_loop _ _ _ _ _ _) as [[s| | |]|] eqn:Hl; try done; cbn in Hspec.
  2: { by injection Hspec as ->. }
  pose proof (specialize_loop_extends _ _ _ _ _ _ _ Hl) as [_ _ X3 X4 X5]. cbn in X3, X4, X5.
  destruct (TurboJS_IRVerify _ (ss_output s)) as [d|] eqn:Hv; [|done]. cbn in Hspec.
  destruct (dg_status d) eqn:Hst; try done. injection Hspec as <- <-.
  unfold TurboJS_IRExecuteTagged in Hexec. destruct (_ =? _) eqn:Hn; [|done]. cbn [negb] in Hexec.
  destruct (TurboJS_IRVerify hp input) as [di|] eqn:Hvi; [|done]. case_bool_decide as Hok; [|done]. cbn [negb] in Hexec.
  assert (Hacc : ir_accepted hp input) by (apply ir_verify_ok_iff; rewrite Hvi; f_equal; by eapply ir_verify_status_ok).
  unfold TurboJS_IRExecute. rewrite length_map, X4, A4. apply Z.eqb_eq in Hn. rewrite (proj2 (Z.ltb_ge _ _)) by lia.
  rewrite Hv, decide_True by done.
  pose proof (sim_loads mem hp address input (ss_output s) native_i64 native_f64 arguments Haddr Hdist Hacc (eq_trans X3 A1) Hargs body loads
    (mkSpecialize f known_table known_table []) s (value_array (f_register_count input)) (value_array (f_local_count input)) zero_array 0 (step_limit input) v) as Hsim.
  cbn [ss_output] in Hsim. rewrite A2 in Hsim. apply Hsim; try done.
  - unfold value_array. rewrite length_replicate. destruct (Z.eqb_spec (f_register_count input) 0); lia.
  - split; apply table_fresh.
  - by rewrite Hin in Hl.
Qed.

(** ** Numeric code is copied *)

Definition numeric_opcode (op : TurboJSIROpcode) : bool :=
  match op with
  | TURBOJS_IR_VALUE_CALLABLE_CONSTANT | TURBOJS_IR_VALUE_CONSTANT_I32 | TURBOJS_IR_VALUE_ARGUMENT | TURBOJS_IR_VALUE_MOVE
  | TURBOJS_IR_VALUE_LOCAL_SET | TURBOJS_IR_VALUE_LOCAL_GET | TURBOJS_IR_VALUE_CALL_I64 | TURBOJS_IR_VALUE_CALL_F64
  | TURBOJS_IR_VALUE_RETURN => false
  | _ => true
  end.

Lemma specialize_numeric_step mem hp address input i s s' : numeric_opcode (in_opcode i) = true ->
  specialize_instruction mem hp address input i s = Some (SpecializeNext s') ->
  f_instructions (ss_output s') = f_instructions (ss_output s) ++ [i] /\
  f_owned_clutch_sites (ss_output s') = f_owned_clutch_sites (ss_output s).
Proof.
  intros Hn. unfold specialize_instruction. destruct (in_opcode i); try done.
  all: destruct (emit_copy mem s i) as [s1| | |] eqn:He; try done; apply emit_copy_next in He as (_ & E1 & E2 & _).
  all: case_match; [|by (intros Hs; injection Hs as <-)]; destruct (set_numeric _ s1) as [s2|] eqn:Hs2; [|done]; intros Hs; injection Hs as <-.
  all: by apply set_numeric_some in Hs2 as (c & _ & ->).
Qed.

Lemma specialize_numeric_loop mem hp address input : forall instrs s s',
  Forall (fun i => numeric_opcode (in_opcode i) = true) instrs ->
  specialize_loop mem hp address input instrs s = Some (SpecializeNext s') ->
  f_instructions (ss_output s') = f_instructions (ss_output s) ++ instrs /\
  f_owned_clutch_sites (ss_output s') = f_owned_clutch_sites (ss_output s).
Proof.
  induction instrs as [|i instrs IH]; intros s s' Hn Hl; simpl in Hl.
  { injection Hl as <-. by rewrite app_nil_r. }
  apply Forall_cons in Hn as [Hi Hn].
  destruct (specialize_instruction _ _ _ _ _ _) as [[s1| | |]|] eqn:Hs1; try done.
  apply specialize_numeric_step in Hs1 as [E1 E2]; [|done]. apply IH in Hl as [E3 E4]; [|done].
  rewrite E3, E4, E1, E2, <-app_assoc. done.
Qed.

(** What specialization delivers for code without tagged instructions is the
    same code, with no call sites of its own. *)
Lemma specialization_copies mem hp address next input output events :
  0 <= f_register_count input -> Forall (fun i => numeric_opcode (in_opcode i) = true) (f_instructions input) ->
  TurboJS_IRSpecializeCallableReferences mem hp address next input = Some (TURBOJS_IR_OK, output, events) ->
  same_code output input /\ f_owned_clutch_sites output = [].
Proof.
  intros Hpos Hn Hspec. unfold TurboJS_IRSpecializeCallableReferences in Hspec. cbn [TurboJS_IRFunctionInit] in Hspec.
  destruct (allocate_registers _ _ _) as [f|f] eqn:Ha; [done|].
  apply allocate_registers_ok in Ha as (A1 & A2 & A3 & A4 & A5); [|cbn; lia|cbn; lia]. cbn in A2, A3, A4, A5.
  pose proof (specialize_loop_failed mem hp address input (f_instructions input) (mkSpecialize f known_table known_table [])) as Hfail.
  destruct (specialize_loop _ _ _ _ _ _) as [[s| | |]|] eqn:Hl; try done; cbn in Hspec.
  2: { by injection Hspec as ->. }
  pose proof (specialize_loop_extends _ _ _ _ _ _ _ Hl) as [_ _ X3 X4 X5]. cbn in X3, X4, X5.
  apply specialize_numeric_loop in Hl as [E1 E2]; [|done]. cbn in E1, E2.
  destruct (TurboJS_IRVerify _ (ss_output s)) as [d|]; [|done]. cbn in Hspec.
  destruct (dg_status d); try done. injection Hspec as <- <-. rewrite A2 in E1.
  split; [|by rewrite E2]. rewrite app_nil_l in E1. by split; rewrite ?E1, ?X3, ?X4, ?X5.
Qed.

(** ** A concrete wrapper

    It calls a native addition (handle 500, reference 600) on its two
    arguments and returns the sum. *)
Definition adder_handle : TurboJSNativeEntryHandle := mkHandle 77 3 2 TURBOJS_NATIVE_ENTRY_INT32 TURBOJS_VALUE_I32.
Definition adder_reference : TurboJSCallableReference :=
  TurboJS_CallableReferenceInit 9 500 3 TURBOJS_NATIVE_ENTRY_INT32 2 0.
Definition adder_heap : Heap :=
  mkHeap (fun _ => None) (fun a => if a =? 600 then Some adder_reference else None)
    (fun a => if a =? 500 then Some adder_handle else None).
Definition native_add (_ : Z) (arguments : list Z) : TurboJSIRStatus * Z := (TURBOJS_IR_OK, foldr Z.add 0 arguments).
Definition wrapper_loads : list TurboJSIRInstruction :=
  [instr TURBOJS_IR_VALUE_CALLABLE_CONSTANT 0 0 0 600 0; instr TURBOJS_IR_VALUE_ARGUMENT 1 0 0 0 0;
   instr TURBOJS_IR_VALUE_ARGUMENT 2 0 0 1 0].
Definition wrapper_body : list TurboJSIRInstruction :=
  [instr TURBOJS_IR_VALUE_CALL_I64 3 0 1 2 0; instr TURBOJS_IR_VALUE_RETURN 0 3 0 0 0].
Definition adder_wrapper : TurboJSIRFunction := f_set_instructions (f_set_counts zero_function 4 2 0) (wrapper_loads ++ wrapper_body) 16.
Definition site_address (k : nat) : Z := Z.of_nat k + 1000.
Definition generous_memory : SpecializeMemory := mkSpecializeMemory (fun _ => true) (fun _ => true) (fun _ => true).
Definition numeric_adder : TurboJSIRFunction :=
  match TurboJS_IRSpecializeCallableReferences generous_memory adder_heap site_address 1 adder_wrapper with
  | Some (_, f, _) => f
  | None => adder_wrapper
  end.

Lemma specialization_preserves_results_witness :
  map in_opcode (f_instructions numeric_adder) =
    [TURBOJS_IR_ARGUMENT; TURBOJS_IR_ARGUMENT; TURBOJS_IR_CALL_NATIVE_I64; TURBOJS_IR_RETURN_I64] /\
  TurboJS_IRExecute (with_sites adder_heap site_address (f_owned_clutch_sites numeric_adder)) native_add no_native
    numeric_adder [20; 22] = Result 42.
Proof.
  split; [by vm_compute|].
  apply (specialization_preserves_results generous_memory adder_heap site_address 1 adder_wrapper numeric_adder []
           native_add no_native [mkBoxed TURBOJS_BOXED_INT32 20; mkBoxed TURBOJS_BOXED_INT32 22] (mkBoxed TURBOJS_BOXED_INT64 42)).
  - exists wrapper_loads, wrapper_body. split_and!; [done| |].
    + repeat (apply Forall_cons; split; [by (left + right)|]). by apply Forall_nil.
    + repeat (apply Forall_cons; split; [by split_and!|]). by apply Forall_nil.
  - discriminate.
  - intros k. unfold site_address. lia.
  - intros j k. unfold site_address. lia.
  - repeat constructor; by eexists.
  - by vm_compute.
  - by vm_compute.
Defined.
