(* ===== verification/X64.v ===== *)
(** * A subset of the x86-64 instruction set

    The target of the baseline compiler and of the OSR loop compiler: the
    encodings they emit (REX-prefixed moves, loads and stores with a 32-bit
    displacement, immediates, integer and scalar double arithmetic, compares
    and tests, relative jumps, the frame instructions and return), decoded
    from bytes, with their architectural semantics.  The encodings of calls
    are not decoded.

    General registers and the low halves of the vector registers hold 64-bit
    patterns in [0, 2^64).  Memory is a map from addresses to the 64-bit word
    stored there; the code modelled only makes aligned 8-byte accesses to
    cells that do not overlap, and reads the low half of a word.  A flag an
    instruction leaves undefined keeps its value.  The divide fault continues
    at offset -1, where there is no code.  Doubles are those of [Float64], with
    one NaN.  Reference: Intel SDM, volume 2. *)

From S2P Require Import Prelude.
From S2P Require Import Float64.

(** ** Instructions *)

Inductive Cond := CondGE | CondG | CondLE | CondL | CondE | CondNE.

#[export] Instance Cond_eq_dec : EqDecision Cond.
Proof. solve_decision. Defined.

Inductive Instr :=
  | I_mov (dst src : nat)
  | I_load (dst base : nat) (disp : Z)
  | I_store (base : nat) (disp : Z) (src : nat)
  | I_add (dst src : nat)
  | I_add_imm (dst : nat) (imm : Z)
  | I_cmp (l r : nat)
  | I_xor32 (dst src : nat)
  | I_jcc (c : Cond) (rel : Z)
  | I_jmp (rel : Z)
  | I_ret
  | I_movq_load (xmm base : nat) (disp : Z)
  | I_movq_store (base : nat) (disp : Z) (xmm : nat)
  | I_cvtsi2sd (xmm reg : nat)
  | I_addsd (dst src : nat)
  | I_nop
  | I_push (src : nat)
  | I_leave
  | I_mov_imm64 (dst : nat) (imm : Z)
  | I_mov_imm32 (dst : nat) (imm : Z)
  | I_store_at (base src : nat)
  | I_sub (dst src : nat)
  | I_sub_imm (dst : nat) (imm : Z)
  | I_imul (dst src : nat)
  | I_movsxd (dst src : nat)
  | I_test (l r : nat)
  | I_cqo
  | I_idiv (src : nat)
  | I_and32_imm (dst : nat) (imm : Z)
  | I_cmp32_at (base : nat) (imm : Z)
  | I_setl (dst : nat)
  | I_movzx8 (dst src : nat)
  | I_movq_to_xmm (xmm src : nat)
  | I_movq_from_xmm (dst xmm : nat)
  | I_subsd (dst src : nat)
  | I_mulsd (dst src : nat)
  | I_divsd (dst src : nat)
  | I_cmpsd (dst src : nat) (predicate : Z)
  | I_cvttsd2si (dst xmm : nat).

(** ** Decoding *)

(** REX fields W, R, B (the index extension X is unused without a SIB byte). *)
Record Rex := mkRex { rex_w : bool; rex_r : bool; rex_b : bool }.
Definition no_rex : Rex := mkRex false false false.

Definition decode_rex (bs : list Z) : Rex * nat * list Z :=
  match bs with
  | b :: t =>
      if (64 <=? b) && (b <=? 79)
      then (mkRex (Z.testbit b 3) (Z.testbit b 2) (Z.testbit b 0), 1%nat, t)
      else (no_rex, 0%nat, bs)
  | [] => (no_rex, 0%nat, bs)
  end.

Definition extend (e : bool) (low : Z) : nat := (Z.to_nat low + (if e then 8 else 0))%nat.

(** ModRM: mode, reg field, r/m field. *)
Definition modrm_mod (m : Z) : Z := m / 64.
Definition modrm_reg (r : Rex) (m : Z) : nat := extend (rex_r r) (m / 8 mod 8).
Definition modrm_rm (r : Rex) (m : Z) : nat := extend (rex_b r) (m mod 8).

(** A signed 32-bit immediate. *)
Definition imm32 (bs : list Z) : option Z :=
  match bs with
  | b0 :: b1 :: b2 :: b3 :: _ => Some (swrap 32 (le_value [b0; b1; b2; b3]))
  | _ => None
  end.

(** Operand forms: register direct, and base plus 32-bit displacement (no SIB). *)
Definition direct (r : Rex) (m : Z) (k : nat -> nat -> Instr) : option Instr :=
  if modrm_mod m =? 3 then Some (k (modrm_reg r m) (modrm_rm r m)) else None.
Definition based (r : Rex) (m : Z) (rest : list Z) (k : nat -> nat -> Z -> Instr) : option Instr :=
  if (modrm_mod m =? 2) && negb (m mod 8 =? 4)
  then let? d := imm32 rest in Some (k (modrm_reg r m) (modrm_rm r m) d) else None.

(** Base without displacement (no SIB, not rip-relative). *)
Definition at_base (r : Rex) (m : Z) (k : nat -> nat -> Instr) : option Instr :=
  if (modrm_mod m =? 0) && negb (m mod 8 =? 4) && negb (m mod 8 =? 5) then Some (k (modrm_reg r m) (modrm_rm r m)) else None.

Definition imm64 (bs : list Z) : option Z :=
  match bs with
  | b0 :: b1 :: b2 :: b3 :: b4 :: b5 :: b6 :: b7 :: _ => Some (le_value [b0; b1; b2; b3; b4; b5; b6; b7])
  | _ => None
  end.

(** A sign-extended 8-bit immediate. *)
Definition imm8 (bs : list Z) : option Z := match bs with b :: _ => Some (swrap 8 b) | [] => None end.

(** Opcodes without a ModRM byte, after the prefixes. *)
Definition decode_plain (rex : Rex) (op : Z) (bs : list Z) : option (Instr * nat) :=
  if op =? 144 then Some (I_nop, 1%nat)
  else if op =? 201 then Some (I_leave, 1%nat)
  else if (80 <=? op) && (op <=? 87) then Some (I_push (extend (rex_b rex) (op - 80)), 1%nat)
  else if (op =? 153) && rex_w rex then Some (I_cqo, 1%nat)
  else if (184 <=? op) && (op <=? 191) then
    if rex_w rex then let? v := imm64 bs in Some (I_mov_imm64 (extend (rex_b rex) (op - 184)) v, 9%nat)
    else let? v := imm32 bs in Some (I_mov_imm32 (extend (rex_b rex) (op - 184)) (uwrap 32 v), 5%nat)
  else None.

(** One-byte opcodes with a ModRM byte [m]. *)
Definition decode_modrm (rex : Rex) (op m : Z) (rest : list Z) : option (Instr * nat) :=
  if (op =? 137) && rex_w rex then let? i := at_base rex m (fun reg rm => I_store_at rm reg) in Some (i, 2%nat)
  else if (op =? 41) && rex_w rex then let? i := direct rex m (fun reg rm => I_sub rm reg) in Some (i, 2%nat)
  else if (op =? 129) && rex_w rex && (m / 8 mod 8 =? 5) then
    let? d := imm32 rest in let? i := direct rex m (fun _ rm => I_sub_imm rm d) in Some (i, 6%nat)
  else if (op =? 99) && rex_w rex then let? i := direct rex m I_movsxd in Some (i, 2%nat)
  else if (op =? 133) && rex_w rex then let? i := direct rex m (fun reg rm => I_test rm reg) in Some (i, 2%nat)
  else if (op =? 247) && rex_w rex && (m / 8 mod 8 =? 7) then let? i := direct rex m (fun _ rm => I_idiv rm) in Some (i, 2%nat)
  else if (op =? 131) && negb (rex_w rex) && (m / 8 mod 8 =? 4) then
    let? d := imm8 rest in let? i := direct rex m (fun _ rm => I_and32_imm rm d) in Some (i, 3%nat)
  else if (op =? 131) && negb (rex_w rex) && (m / 8 mod 8 =? 7) then
    let? d := imm8 rest in let? i := at_base rex m (fun _ rm => I_cmp32_at rm d) in Some (i, 3%nat)
  else None.

(** Two-byte opcodes [15, op2] with a ModRM byte [m]. *)
Definition decode_two (prefix : Z) (rex : Rex) (op2 m : Z) (rest : list Z) : option (Instr * nat) :=
  if (prefix =? 0) && (op2 =? 175) && rex_w rex then let? i := direct rex m I_imul in Some (i, 3%nat)
  else if (prefix =? 0) && (op2 =? 156) then let? i := direct rex m (fun _ rm => I_setl rm) in Some (i, 3%nat)
  else if (prefix =? 0) && (op2 =? 182) && rex_w rex then let? i := direct rex m I_movzx8 in Some (i, 3%nat)
  else if (prefix =? 102) && (op2 =? 110) && rex_w rex then let? i := direct rex m I_movq_to_xmm in Some (i, 3%nat)
  else if (prefix =? 102) && (op2 =? 126) && rex_w rex then
    let? i := direct rex m (fun reg rm => I_movq_from_xmm rm reg) in Some (i, 3%nat)
  else if (prefix =? 242) && (op2 =? 92) then let? i := direct rex m I_subsd in Some (i, 3%nat)
  else if (prefix =? 242) && (op2 =? 89) then let? i := direct rex m I_mulsd in Some (i, 3%nat)
  else if (prefix =? 242) && (op2 =? 94) then let? i := direct rex m I_divsd in Some (i, 3%nat)
  else if (prefix =? 242) && (op2 =? 194) then
    match rest with
    | predicate :: _ => let? i := direct rex m (fun reg rm => I_cmpsd reg rm predicate) in Some (i, 4%nat)
    | [] => None
    end
  else if (prefix =? 242) && (op2 =? 44) && rex_w rex then let? i := direct rex m I_cvttsd2si in Some (i, 3%nat)
  else None.

(** Behind [n] prefix bytes. *)
Definition after (n : nat) (r : option (Instr * nat)) : option (Instr * nat) :=
  let? (i, k) := r in Some (i, n + k)%nat.

(** The instruction at the head of [bs] and its length. *)
Definition decode (bs : list Z) : option (Instr * nat) :=
  let '(prefix, np, bs) :=
    match bs with
    | b :: t => if (b =? 102) || (b =? 242) || (b =? 243) then (b, 1%nat, t) else (0, 0%nat, bs)
    | [] => (0, 0%nat, bs)
    end in
  let '(rex, nr, bs) := decode_rex bs in
  let n := (np + nr)%nat in
  match bs with
  | op :: bs =>
      if (prefix =? 0) && (op =? 195) then Some (I_ret, n + 1)%nat
      else if (prefix =? 0) && (op =? 233) then let? d := imm32 bs in Some (I_jmp d, n + 5)%nat
      else match (if prefix =? 0 then decode_plain rex op bs else None) with
      | Some (i, k) => Some (i, n + k)%nat
      | None =>
      match bs with
      | m :: rest =>
          if (prefix =? 0) && (op =? 137) && rex_w rex && negb (modrm_mod m =? 0) then
            match direct rex m (fun reg rm => I_mov rm reg) with
            | Some i => Some (i, n + 2)%nat
            | None => let? i := based rex m rest (fun reg rm d => I_store rm d reg) in Some (i, n + 6)%nat
            end
          else if (prefix =? 0) && (op =? 139) && rex_w rex then
            let? i := based rex m rest I_load in Some (i, n + 6)%nat
          else if (prefix =? 0) && (op =? 1) && rex_w rex then
            let? i := direct rex m (fun reg rm => I_add rm reg) in Some (i, n + 2)%nat
          else if (prefix =? 0) && (op =? 57) && rex_w rex then
            let? i := direct rex m (fun reg rm => I_cmp rm reg) in Some (i, n + 2)%nat
          else if (prefix =? 0) && (op =? 49) && negb (rex_w rex) then
            let? i := direct rex m (fun reg rm => I_xor32 rm reg) in Some (i, n + 2)%nat
          else if (prefix =? 0) && (op =? 129) && rex_w rex && (m / 8 mod 8 =? 0) then
            let? d := imm32 rest in
            let? i := direct rex m (fun _ rm => I_add_imm rm d) in Some (i, n + 6)%nat
          else if op =? 15 then
            (* two-byte opcodes: m is the second opcode byte *)
            if (prefix =? 0) && (128 <=? m) && (m <=? 143) then
              let? c := (if m =? 141 then Some CondGE else if m =? 143 then Some CondG
                         else if m =? 142 then Some CondLE else if m =? 140 then Some CondL
                         else if m =? 132 then Some CondE else if m =? 133 then Some CondNE else None) in
              let? d := imm32 rest in Some (I_jcc c d, n + 6)%nat
            else match rest with
            | mm :: rest =>
                if (prefix =? 243) && (m =? 126) then
                  let? i := based rex mm rest I_movq_load in Some (i, n + 7)%nat
                else if (prefix =? 102) && (m =? 214) then
                  let? i := based rex mm rest (fun reg rm d => I_movq_store rm d reg) in Some (i, n + 7)%nat
                else if (prefix =? 242) && (m =? 42) && rex_w rex then
                  let? i := direct rex mm I_cvtsi2sd in Some (i, n + 3)%nat
                else if (prefix =? 242) && (m =? 88) then
                  let? i := direct rex mm I_addsd in Some (i, n + 3)%nat
                else after n (decode_two prefix rex m mm rest)
            | [] => None
            end
          else if prefix =? 0 then after n (decode_modrm rex op m rest)
          else None
      | [] => None
      end
      end
  | [] => None
  end.

(** ** Execution *)

Record Flags := mkFlags { fl_zf : bool; fl_sf : bool; fl_of : bool }.

Record State := mkMachine {
  st_gpr : list Z;          (* 16 registers *)
  st_xmm : list Z;          (* 16 registers, low 64 bits *)
  st_flags : Flags;
  st_mem : Z -> Z;
  st_pc : Z                 (* offset from the start of the code *)
}.

Definition gpr (s : State) (r : nat) : Z := default 0 (st_gpr s !! r).
Definition xmm (s : State) (r : nat) : Z := default 0 (st_xmm s !! r).

(** Flags of [l - r] on 64 bits. *)
Definition compare_flags (l r : Z) : Flags :=
  let d := swrap 64 l - swrap 64 r in
  mkFlags (l =? r) (swrap 64 d <? 0) (negb (in_i64 d)).

Definition cond_holds (c : Cond) (f : Flags) : bool :=
  match c with
  | CondGE => Bool.eqb (fl_sf f) (fl_of f)
  | CondL => negb (Bool.eqb (fl_sf f) (fl_of f))
  | CondG => negb (fl_zf f) && Bool.eqb (fl_sf f) (fl_of f)
  | CondLE => fl_zf f || negb (Bool.eqb (fl_sf f) (fl_of f))
  | CondE => fl_zf f
  | CondNE => negb (fl_zf f)
  end.

(** Flags of a result of [w] bits without overflow, and of an addition. *)
Definition result_flags (w v : Z) : Flags := mkFlags (v =? 0) (swrap w v <? 0) false.
Definition add_flags (l r : Z) : Flags :=
  mkFlags (uwrap 64 (l + r) =? 0) (swrap 64 (l + r) <? 0) (negb (in_i64 (swrap 64 l + swrap 64 r))).
Definition with_overflow (f : Flags) (o : bool) : Flags := mkFlags (fl_zf f) (fl_sf f) o.

(** The three comparison predicates of [cmpsd] the code uses. *)
Definition double_predicate (p : Z) (l r : Z) : bool :=
  if p =? 0 then f64_eq l r else if p =? 1 then f64_lt l r else if p =? 2 then f64_le l r else false.

Definition address (s : State) (base : nat) (disp : Z) : Z := uwrap 64 (gpr s base + disp).
Definition mem_update (m : Z -> Z) (a v : Z) : Z -> Z := fun x => if x =? a then v else m x.

(** [next] is the offset of the following instruction; [inl] is the return. *)
Definition exec (i : Instr) (next : Z) (s : State) : State + State :=
  let go gprs xmms flags mem pc := inr (mkMachine gprs xmms flags mem pc) in
  let set_gpr r v := go (<[r := v]> (st_gpr s)) (st_xmm s) (st_flags s) (st_mem s) next in
  let set_xmm r v := go (st_gpr s) (<[r := v]> (st_xmm s)) (st_flags s) (st_mem s) next in
  let set_mem a v := go (st_gpr s) (st_xmm s) (st_flags s) (mem_update (st_mem s) a v) next in
  let jump pc := go (st_gpr s) (st_xmm s) (st_flags s) (st_mem s) pc in
  let alu r v flags := go (<[r := v]> (st_gpr s)) (st_xmm s) flags (st_mem s) next in
  let set_flags flags := go (st_gpr s) (st_xmm s) flags (st_mem s) next in
  match i with
  | I_mov d r => set_gpr d (gpr s r)
  | I_load d b disp => set_gpr d (st_mem s (address s b disp))
  | I_store b disp r => set_mem (address s b disp) (gpr s r)
  | I_add d r => alu d (uwrap 64 (gpr s d + gpr s r)) (add_flags (gpr s d) (gpr s r))
  | I_add_imm d imm => alu d (uwrap 64 (gpr s d + imm)) (add_flags (gpr s d) imm)
  | I_cmp l r => go (st_gpr s) (st_xmm s) (compare_flags (gpr s l) (gpr s r)) (st_mem s) next
  | I_xor32 d r => let v := uwrap 32 (Z.lxor (gpr s d) (gpr s r)) in alu d v (result_flags 32 v)
  | I_jcc c rel => jump (if cond_holds c (st_flags s) then next + rel else next)
  | I_jmp rel => jump (next + rel)
  | I_ret => inl s
  | I_movq_load x b disp => set_xmm x (st_mem s (address s b disp))
  | I_movq_store b disp x => set_mem (address s b disp) (xmm s x)
  | I_cvtsi2sd x r => set_xmm x (uwrap 64 (f64_of_i64 (swrap 64 (gpr s r))))
  | I_addsd d x => set_xmm d (uwrap 64 (f64_add (xmm s d) (xmm s x)))
  | I_nop => jump next
  | I_push r =>
      let sp := uwrap 64 (gpr s 4 - 8) in
      go (<[4%nat := sp]> (st_gpr s)) (st_xmm s) (st_flags s) (mem_update (st_mem s) sp (gpr s r)) next
  | I_leave =>
      let bp := gpr s 5 in
      go (<[4%nat := uwrap 64 (bp + 8)]> (<[5%nat := st_mem s bp]> (st_gpr s))) (st_xmm s) (st_flags s) (st_mem s) next
  | I_mov_imm64 d v => set_gpr d v
  | I_mov_imm32 d v => set_gpr d v
  | I_store_at b r => set_mem (gpr s b) (gpr s r)
  | I_sub d r => alu d (uwrap 64 (gpr s d - gpr s r)) (compare_flags (gpr s d) (gpr s r))
  | I_sub_imm d imm => alu d (uwrap 64 (gpr s d - imm)) (compare_flags (gpr s d) (uwrap 64 imm))
  | I_imul d r =>
      let p := swrap 64 (gpr s d) * swrap 64 (gpr s r) in
      alu d (uwrap 64 p) (with_overflow (st_flags s) (negb (in_i64 p)))
  | I_movsxd d r => set_gpr d (uwrap 64 (swrap 32 (gpr s r)))
  | I_test l r => set_flags (result_flags 64 (Z.land (gpr s l) (gpr s r)))
  | I_cqo => set_gpr 2%nat (if swrap 64 (gpr s 0) <? 0 then UINT64_MAX else 0)
  | I_idiv r =>
      let n := swrap 128 (gpr s 2 * 2 ^ 64 + gpr s 0) in
      let d := swrap 64 (gpr s r) in
      if (d =? 0) || negb (in_i64 (Z.quot n d)) then jump (-1)
      else go (<[2%nat := uwrap 64 (Z.rem n d)]> (<[0%nat := uwrap 64 (Z.quot n d)]> (st_gpr s))) (st_xmm s) (st_flags s) (st_mem s) next
  | I_and32_imm d imm => let v := Z.land (uwrap 32 (gpr s d)) (uwrap 32 imm) in alu d v (result_flags 32 v)
  | I_cmp32_at b imm =>
      let l := swrap 32 (st_mem s (gpr s b)) in
      set_flags (mkFlags (l =? imm) (swrap 32 (l - imm) <? 0) (negb (in_i32 (l - imm))))
  | I_setl d => set_gpr d (gpr s d - gpr s d mod 256 + (if cond_holds CondL (st_flags s) then 1 else 0))
  | I_movzx8 d r => set_gpr d (gpr s r mod 256)
  | I_movq_to_xmm x r => set_xmm x (gpr s r)
  | I_movq_from_xmm d x => set_gpr d (xmm s x)
  | I_subsd d x => set_xmm d (uwrap 64 (f64_sub (xmm s d) (xmm s x)))
  | I_mulsd d x => set_xmm d (uwrap 64 (f64_mul (xmm s d) (xmm s x)))
  | I_divsd d x => set_xmm d (uwrap 64 (f64_div (xmm s d) (xmm s x)))
  | I_cmpsd d x p => set_xmm d (if double_predicate p (xmm s d) (xmm s x) then UINT64_MAX else 0)
  | I_cvttsd2si d x => set_gpr d (match f64_trunc (xmm s x) with Some v => uwrap 64 v | None => 2 ^ 63 end)
  end.

Inductive Run := Returned (s : State) | Running (s : State) | Stuck.

(** Fetch, decode and execute up to [fuel] instructions. *)
Fixpoint run (fuel : nat) (code : list Z) (s : State) : Run :=
  match fuel with
  | O => Running s
  | S fuel =>
      if st_pc s <? 0 then Stuck
      else match decode (drop (Z.to_nat (st_pc s)) code) with
           | None => Stuck
           | Some (i, n) =>
               match exec i (st_pc s + Z.of_nat n) s with
               | inl s => Returned s
               | inr s => run fuel code s
               end
           end
  end.

(** ** Facts *)

(** The conditions after a compare are the signed comparisons. *)
Lemma cond_after_compare c l r :
  is_u 64 l -> is_u 64 r ->
  cond_holds c (compare_flags l r) =
    match c with
    | CondGE => swrap 64 r <=? swrap 64 l
    | CondG => swrap 64 r <? swrap 64 l
    | CondLE => swrap 64 l <=? swrap 64 r
    | CondL => swrap 64 l <? swrap 64 r
    | CondE => l =? r
    | CondNE => negb (l =? r)
    end.
Proof.
  intros Hl Hr. destruct (decide (c = CondE)) as [->|]; [done|]. destruct (decide (c = CondNE)) as [->|]; [done|].
  unfold is_u in *. unfold compare_flags.
  assert (Hs : forall x, 0 <= x < 2 ^ 64 -> swrap 64 x = (if x <? 2 ^ 63 then x else x - 2 ^ 64)).
  { intros x Hx. unfold swrap. change (2 ^ (64 - 1)) with (2 ^ 63).
    destruct (Z.ltb_spec x (2 ^ 63)).
    - rewrite Z.mod_small; lia.
    - rewrite <-(Z.mod_add _ (-1)) by lia. rewrite Z.mod_small; lia. }
  set (a := swrap 64 l). set (b := swrap 64 r).
  assert (Ha : - 2 ^ 63 <= a < 2 ^ 63) by (unfold a; rewrite Hs by done; destruct (Z.ltb_spec l (2 ^ 63)); lia).
  assert (Hb : - 2 ^ 63 <= b < 2 ^ 63) by (unfold b; rewrite Hs by done; destruct (Z.ltb_spec r (2 ^ 63)); lia).
  assert (Hz : (l =? r) = (a =? b)).
  { unfold a, b. rewrite !Hs by done.
    destruct (Z.ltb_spec l (2 ^ 63)), (Z.ltb_spec r (2 ^ 63)); lia. }
  assert (Hsub : Bool.eqb (swrap 64 (a - b) <? 0) (negb (in_i64 (a - b))) = (b <=? a)).
  { unfold swrap, in_i64, INT64_MIN, INT64_MAX. change (2 ^ (64 - 1)) with (2 ^ 63).
    change (2 ^ 64) with 18446744073709551616 in *. change (2 ^ 63) with 9223372036854775808 in *.
    destruct (Z.lt_ge_cases (a - b) (-9223372036854775808)); [|destruct (Z.lt_ge_cases (a - b) 9223372036854775808)].
    - rewrite <-(Z.mod_add _ 1), Z.mod_small by lia.
      rewrite (proj2 (Z.ltb_ge _ _)), (proj2 (Z.leb_gt (-9223372036854775808) _)), (proj2 (Z.leb_gt b _)) by lia. done.
    - rewrite Z.mod_small by lia.
      rewrite (proj2 (Z.leb_le (-9223372036854775808) _)), (proj2 (Z.leb_le (a - b) _)) by lia. simpl.
      destruct (Z.leb_spec b a); [rewrite (proj2 (Z.ltb_ge _ _))|rewrite (proj2 (Z.ltb_lt _ _))]; done || lia.
    - rewrite <-(Z.mod_add _ (-1)), Z.mod_small by lia.
      rewrite (proj2 (Z.ltb_lt _ _)), (proj2 (Z.leb_gt (a - b) _)), andb_false_r, (proj2 (Z.leb_le b _)) by lia. done. }
  unfold cond_holds. cbn [fl_sf fl_of fl_zf]. fold a b. rewrite Hsub, Hz.
  destruct c; destruct (Z.leb_spec b a), (Z.eqb_spec a b); simpl; symmetry;
    try (apply Z.ltb_lt; lia); try (apply Z.ltb_ge; lia); try (apply Z.leb_le; lia); try (apply Z.leb_gt; lia); done.
Qed.

Lemma swrap_range z : in_i64 (swrap 64 z) = true.
Proof.
  apply in_i64_spec. unfold swrap, INT64_MIN, INT64_MAX. change (2 ^ (64 - 1)) with 9223372036854775808.
  pose proof (Z.mod_pos_bound (z + 9223372036854775808) (2 ^ 64) ltac:(lia)). lia.
Qed.

Lemma uwrap_swrap z : uwrap 64 (swrap 64 z) = uwrap 64 z.
Proof.
  unfold uwrap, swrap. rewrite Zminus_mod_idemp_l. f_equal. lia.
Qed.

Lemma uwrap_add_l a b : uwrap 64 (uwrap 64 a + b) = uwrap 64 (a + b).
Proof. unfold uwrap. apply Zplus_mod_idemp_l. Qed.

Lemma uwrap_add_r a b : uwrap 64 (a + uwrap 64 b) = uwrap 64 (a + b).
Proof. unfold uwrap. apply Zplus_mod_idemp_r. Qed.

(** Running [m + n] instructions. *)
Lemma run_add m n code s :
  run (m + n) code s = match run m code s with Running s => run n code s | r => r end.
Proof.
  revert s. induction m as [|m IH]; intros s; simpl; [done|].
  case_match; [done|]. case_match; [|done]. case_match. case_match; [done|]. apply IH.
Qed.

Lemma le_bytes_4 v : exists d0 d1 d2 d3, le_bytes 4 v = [d0; d1; d2; d3].
Proof. simpl. eauto. Qed.

(** The 32-bit field of the bytes of [v], sign extended. *)
Lemma imm32_bytes v rest :
  - 2 ^ 31 <= v < 2 ^ 31 -> imm32 (le_bytes 4 (uwrap 32 v) ++ rest) = Some v.
Proof.
  intros Hv. pose proof (le_value_bytes 4 (uwrap 32 v)) as Hle.
  destruct (le_bytes_4 (uwrap 32 v)) as (d0 & d1 & d2 & d3 & Hd). rewrite Hd in *. simpl app.
  unfold imm32. rewrite Hle. f_equal. unfold swrap, uwrap. change (256 ^ Z.of_nat 4) with (2 ^ 32).
  change (2 ^ (32 - 1)) with (2 ^ 31). rewrite Z.mod_mod by lia.
  rewrite Zplus_mod_idemp_l, Z.mod_small; lia.
Qed.

Lemma imm32_cons v d0 d1 d2 d3 rest :
  le_bytes 4 (uwrap 32 v) = [d0; d1; d2; d3] -> - 2 ^ 31 <= v < 2 ^ 31 ->
  imm32 (d0 :: d1 :: d2 :: d3 :: rest) = Some v.
Proof. intros Hd Hv. rewrite <-(imm32_bytes v rest Hv), Hd. done. Qed.

(** The 64-bit immediate of the bytes of [v]. *)
Lemma imm64_bytes v rest : imm64 (le_bytes 8 (uwrap 64 v) ++ rest) = Some (uwrap 64 v).
Proof.
  pose proof (le_value_bytes 8 (uwrap 64 v)) as Hle. simpl in *. unfold imm64. rewrite Hle. f_equal.
  unfold uwrap. change (256 ^ Z.of_nat 8) with (2 ^ 64). apply Z.mod_mod. lia.
Qed.

(** A [w]-bit pattern and the integer it stands for. *)
Lemma swrap_uwrap z : swrap 64 (uwrap 64 z) = swrap 64 z.
Proof. unfold swrap, uwrap. by rewrite Zplus_mod_idemp_l. Qed.
