(* ===== verification/OsrLoop.v ===== *)
(** * The counted-loop OSR compiler (src/jit/runtime/osr_loop.c)

    The emitter writes x86-64 bytes into a 256-byte buffer; the model writes
    the same bytes and [None] is the full buffer ([goto oom]).  The generated
    kernels are run on the machine of [X64].  [windows] selects the register
    of the first argument. *)

From S2P Require Import Prelude.
From S2P Require Import JitTypes.
From S2P Require Import Float64.
From S2P Require Import Osr.
From S2P Require Import X64.

Inductive TurboJSOSRLoopComparison :=
  | TURBOJS_OSR_LOOP_LT | TURBOJS_OSR_LOOP_LTE | TURBOJS_OSR_LOOP_GT | TURBOJS_OSR_LOOP_GTE
  | TURBOJS_OSR_LOOP_OTHER (code : Z).

#[export] Instance TurboJSOSRLoopComparison_eq_dec : EqDecision TurboJSOSRLoopComparison.
Proof. solve_decision. Defined.

Record TurboJSOSRCountedLoopSpec := mkLoopSpec {
  induction_local : Z;        (* uint16_t *)
  limit_local : Z;            (* uint16_t *)
  accumulator_local : Z;      (* uint16_t *)
  loop_step : Z;              (* int32_t *)
  spec_loop_header : Z;
  resume_bytecode_offset : Z;
  maximum_iterations : Z;     (* uint64_t *)
  comparison : TurboJSOSRLoopComparison
}.

Record TurboJSOSRLoopProgram := mkProgram {
  pg_spec : TurboJSOSRCountedLoopSpec;
  pg_code : list Z;
  pg_float_code : list Z;
  pg_allocation_size : Z;
  pg_float_allocation_size : Z
}.

(** ** The emitter *)

Definition CODE_BUFFER_SIZE : nat := 256.

Definition emit8 (b : list Z) (v : Z) : option (list Z) :=
  if (CODE_BUFFER_SIZE <=? length b)%nat then None else Some (b ++ [v mod 256]).

Definition emit32 (b : list Z) (v : Z) : option (list Z) :=
  let? b := emit8 b v in
  let? b := emit8 b (v / 256) in
  let? b := emit8 b (v / 256 / 256) in
  emit8 b (v / 256 / 256 / 256).

(** [patch32(b, off, value)]: the four bytes of [(uint32_t)value] at [off]. *)
Definition patch32 (b : list Z) (off : nat) (value : Z) : list Z :=
  take off b ++ le_bytes 4 (uwrap 32 value) ++ drop (off + 4) b.

Definition rex (b : list Z) (w : bool) (r x m : Z) : option (list Z) :=
  emit8 b (Z.lor 64 (Z.lor (if w then 8 else 0) (Z.lor (if Z.land r 8 =? 0 then 0 else 4)
             (Z.lor (if Z.land x 8 =? 0 then 0 else 2) (if Z.land m 8 =? 0 then 0 else 1))))).

(** The ModRM byte [mod | (reg & 7) << 3 | (rm & 7)]. *)
Definition modrm (md reg rm : Z) : Z := Z.lor md (Z.lor (Z.shiftl (Z.land reg 7) 3) (Z.land rm 7)).

Definition mov_rr (b : list Z) (dst src : Z) : option (list Z) :=
  let? b := rex b true src 0 dst in let? b := emit8 b 137 in emit8 b (modrm 192 src dst).
Definition load_base_disp32 (b : list Z) (dst base disp : Z) : option (list Z) :=
  let? b := rex b true dst 0 base in let? b := emit8 b 139 in
  let? b := emit8 b (modrm 128 dst base) in emit32 b disp.
Definition store_base_disp32 (b : list Z) (base src disp : Z) : option (list Z) :=
  let? b := rex b true src 0 base in let? b := emit8 b 137 in
  let? b := emit8 b (modrm 128 src base) in emit32 b disp.
Definition add_rr (b : list Z) (dst src : Z) : option (list Z) :=
  let? b := rex b true src 0 dst in let? b := emit8 b 1 in emit8 b (modrm 192 src dst).
Definition add_imm32 (b : list Z) (reg imm : Z) : option (list Z) :=
  let? b := rex b true 0 0 reg in let? b := emit8 b 129 in
  let? b := emit8 b (Z.lor 192 (Z.land reg 7)) in emit32 b (uwrap 32 imm).
Definition movq_xmm_mem (b : list Z) (xmm base disp : Z) : option (list Z) :=
  let? b := emit8 b 243 in let? b := rex b false xmm 0 base in
  let? b := emit8 b 15 in let? b := emit8 b 126 in
  let? b := emit8 b (modrm 128 xmm base) in emit32 b disp.
Definition movq_mem_xmm (b : list Z) (base xmm disp : Z) : option (list Z) :=
  let? b := emit8 b 102 in let? b := rex b false xmm 0 base in
  let? b := emit8 b 15 in let? b := emit8 b 214 in
  let? b := emit8 b (modrm 128 xmm base) in emit32 b disp.
Definition cvtsi2sd_xmm_reg (b : list Z) (xmm reg : Z) : option (list Z) :=
  let? b := emit8 b 242 in let? b := rex b true xmm 0 reg in
  let? b := emit8 b 15 in let? b := emit8 b 42 in emit8 b (modrm 192 xmm reg).
Definition addsd_xmm_xmm (b : list Z) (dst src : Z) : option (list Z) :=
  let? b := emit8 b 242 in let? b := rex b false dst 0 src in
  let? b := emit8 b 15 in let? b := emit8 b 88 in emit8 b (modrm 192 dst src).
Definition cmp_rr (b : list Z) (l r : Z) : option (list Z) :=
  let? b := rex b true r 0 l in let? b := emit8 b 57 in emit8 b (modrm 192 r l).

(** The second opcode byte of the exit jump. *)
Definition exit_opcode (c : TurboJSOSRLoopComparison) : option Z :=
  match c with
  | TURBOJS_OSR_LOOP_LT => Some 141   (* jge *)
  | TURBOJS_OSR_LOOP_LTE => Some 143  (* jg *)
  | TURBOJS_OSR_LOOP_GT => Some 142   (* jle *)
  | TURBOJS_OSR_LOOP_GTE => Some 140  (* jl *)
  | TURBOJS_OSR_LOOP_OTHER _ => None
  end.

(** [sizeof(TurboJSOSRValue)] and [offsetof(TurboJSOSRFrame, locals)]. *)
Definition value_size : Z := 16.
Definition locals_offset : Z := 0.

Definition local_disp (local : Z) : Z := uwrap 32 (local * value_size).

(** Fill the two relative jumps: back to [loop_offset], out to the current end. *)
Definition patch_jumps (b : list Z) (loop_offset done_patch jump_patch : nat) : list Z :=
  let b := patch32 b jump_patch (Z.of_nat loop_offset - Z.of_nat (jump_patch + 4)) in
  patch32 b done_patch (Z.of_nat (length b) - Z.of_nat (done_patch + 4)).

(** The integer kernel. *)
Definition emit_int_kernel (windows : bool) (spec : TurboJSOSRCountedLoopSpec) : option (list Z) :=
  let i_disp := local_disp (induction_local spec) in
  let limit_disp := local_disp (limit_local spec) in
  let acc_disp := local_disp (accumulator_local spec) in
  let? b := mov_rr [] 8 (if windows then 1 else 7) in
  let? b := load_base_disp32 b 9 8 locals_offset in
  let? b := load_base_disp32 b 0 9 i_disp in
  let? b := load_base_disp32 b 1 9 limit_disp in
  let? b := load_base_disp32 b 2 9 acc_disp in
  let loop_offset := length b in
  let? b := cmp_rr b 0 1 in
  let? b := emit8 b 15 in
  let? op := exit_opcode (comparison spec) in
  let? b := emit8 b op in
  let done_patch := length b in
  let? b := emit32 b 0 in
  let? b := add_rr b 2 0 in
  let? b := add_imm32 b 0 (loop_step spec) in
  let? b := emit8 b 233 in
  let jump_patch := length b in
  let? b := emit32 b 0 in
  let b := patch_jumps b loop_offset done_patch jump_patch in
  let? b := store_base_disp32 b 9 0 i_disp in
  let? b := store_base_disp32 b 9 2 acc_disp in
  let? b := emit8 b 49 in
  let? b := emit8 b 192 in
  emit8 b 195.

(** The kernel for a double accumulator. *)
Definition emit_float_kernel (windows : bool) (spec : TurboJSOSRCountedLoopSpec) : option (list Z) :=
  let i_disp := local_disp (induction_local spec) in
  let limit_disp := local_disp (limit_local spec) in
  let acc_disp := local_disp (accumulator_local spec) in
  let? b := mov_rr [] 8 (if windows then 1 else 7) in
  let? b := load_base_disp32 b 9 8 locals_offset in
  let? b := load_base_disp32 b 0 9 i_disp in
  let? b := load_base_disp32 b 1 9 limit_disp in
  let? b := movq_xmm_mem b 0 9 acc_disp in
  let loop_offset := length b in
  let? b := cmp_rr b 0 1 in
  let? b := emit8 b 15 in
  let? op := exit_opcode (comparison spec) in
  let? b := emit8 b op in
  let done_patch := length b in
  let? b := emit32 b 0 in
  let? b := cvtsi2sd_xmm_reg b 1 0 in
  let? b := addsd_xmm_xmm b 0 1 in
  let? b := add_imm32 b 0 (loop_step spec) in
  let? b := emit8 b 233 in
  let jump_patch := length b in
  let? b := emit32 b 0 in
  let b := patch_jumps b loop_offset done_patch jump_patch in
  let? b := store_base_disp32 b 9 0 i_disp in
  let? b := movq_mem_xmm b 9 0 acc_disp in
  let? b := emit8 b 49 in
  let? b := emit8 b 192 in
  emit8 b 195.

(** [(count + 4095) & ~4095], at least one page. *)
Definition page_round (count : Z) : Z :=
  let size := Z.land (count + 4095) (Z.lnot 4095) in if size =? 0 then 4096 else size.

(** [mem] answers, in order: the program's [calloc], the executable
    allocation and the seal of the integer kernel, those of the float kernel.
    The x64 build of the function; other targets answer UNSUPPORTED. *)
Definition TurboJS_OSRCompileCountedI64Loop (x64 windows : bool) (mem : nat -> bool)
    (spec : TurboJSOSRCountedLoopSpec) : TurboJSIRDiagnostic + TurboJSOSRLoopProgram :=
  let oom := inl (mkDiagnostic TURBOJS_IR_OUT_OF_MEMORY 0 "unable to emit native counted-loop OSR code") in
  if negb x64 then inl (mkDiagnostic TURBOJS_IR_UNSUPPORTED 0 "x64 OSR loop compiler unavailable")
  else if (loop_step spec =? 0) || (maximum_iterations spec =? 0)
     || bool_decide (exit_opcode (comparison spec) = None)
  then inl (mkDiagnostic TURBOJS_IR_INVALID_ARGUMENT 0 "invalid counted-loop specification")
  else
    match emit_int_kernel windows spec with
    | None => oom
    | Some code =>
        if negb (mem 0%nat && mem 1%nat && mem 2%nat) then oom
        else match emit_float_kernel windows spec with
        | None => oom
        | Some float_code =>
            if negb (mem 3%nat && mem 4%nat) then oom
            else inr (mkProgram spec code float_code (page_round (Z.of_nat (length code)))
                        (page_round (Z.of_nat (length float_code))))
        end
    end.

Definition TurboJS_OSRLoopProgramCodeSize (p : option TurboJSOSRLoopProgram) : Z :=
  match p with
  | Some p => Z.of_nat (length (pg_code p)) + Z.of_nat (length (pg_float_code p))
  | None => 0
  end.

(** ** Running a program *)

(** Where the frame object and its locals array live. *)
Record Layout := mkLayout { frame_at : Z; locals_at : Z }.

(** The words the kernel can reach: the [locals] field of the frame and the
    [bits] field of every local. *)
Definition frame_memory (lay : Layout) (f : TurboJSOSRFrame) (a : Z) : Z :=
  if a =? frame_at lay then locals_at lay
  else if (locals_at lay <=? a) && ((a - locals_at lay) mod value_size =? 0)
  then match fr_locals f !! Z.to_nat ((a - locals_at lay) / value_size) with
       | Some v => ov_bits v | None => 0 end
  else 0.

(** The frame after the kernel ran: the [bits] words read back. *)
Definition frame_of_memory (lay : Layout) (mem : Z -> Z) (f : TurboJSOSRFrame) : TurboJSOSRFrame :=
  mkFrame (imap (fun k v => mkOSRValue (mem (locals_at lay + Z.of_nat k * value_size)) (ov_kind v)) (fr_locals f))
    (fr_stack f) (fr_bytecode_offset f) (fr_loop_header f).

(** What calling generated code may do: the callback returned, a signed
    subtraction overflowed or the code is not executable, or [fuel] machine
    instructions were not enough. *)
Inductive NativeLoop :=
  | LoopExit (f : TurboJSOSRFrame) (k : TurboJSOSRExitKind) (resume : Z)
  | LoopUndefined
  | LoopRunning.

(** The iteration count computed before the kernel is entered: [None] when a
    signed subtraction overflows, [Some None] for the bailout branches. *)
Definition loop_iterations (s : TurboJSOSRCountedLoopSpec) (induction limit : Z) : option (option Z) :=
  let ceil distance step := uwrap 64 (distance + step - 1) / step in
  let floor1 distance step := uwrap 64 (distance / step + 1) in
  if 0 <? loop_step s then
    let step := loop_step s in
    match comparison s with
    | TURBOJS_OSR_LOOP_LT =>
        if limit <=? induction then Some (Some 0)
        else let? d := c_i64 (limit - induction) in Some (Some (ceil d step))
    | TURBOJS_OSR_LOOP_LTE =>
        if limit <? induction then Some (Some 0)
        else let? d := c_i64 (limit - induction) in Some (Some (floor1 d step))
    | _ => Some None
    end
  else
    let step := uwrap 32 (- loop_step s) in
    match comparison s with
    | TURBOJS_OSR_LOOP_GT =>
        if induction <=? limit then Some (Some 0)
        else let? d := c_i64 (induction - limit) in Some (Some (ceil d step))
    | TURBOJS_OSR_LOOP_GTE =>
        if induction <? limit then Some (Some 0)
        else let? d := c_i64 (induction - limit) in Some (Some (floor1 d step))
    | _ => Some None
    end.

(** Call a kernel on the frame: the first argument register holds its address. *)
Definition call_kernel (windows : bool) (fuel : nat) (lay : Layout) (gprs xmms : list Z)
    (code : list Z) (f : TurboJSOSRFrame) : Run :=
  run fuel code
    (mkMachine (<[(if windows then 1 else 7)%nat := frame_at lay]> gprs) xmms (mkFlags false false false)
       (frame_memory lay f) 0).

Definition run_native_loop (windows : bool) (fuel : nat) (lay : Layout) (gprs xmms : list Z)
    (program : TurboJSOSRLoopProgram) (frame : TurboJSOSRFrame) (resume : Z) : NativeLoop :=
  let s := pg_spec program in
  let bailout := LoopExit frame TURBOJS_OSR_EXIT_BAILOUT resume in
  match fr_locals frame !! Z.to_nat (induction_local s), fr_locals frame !! Z.to_nat (limit_local s),
        fr_locals frame !! Z.to_nat (accumulator_local s) with
  | Some vi, Some vl, Some va =>
      if negb (bool_decide (ov_kind vi = TURBOJS_OSR_VALUE_INT64))
         || negb (bool_decide (ov_kind vl = TURBOJS_OSR_VALUE_INT64))
         || (negb (bool_decide (ov_kind va = TURBOJS_OSR_VALUE_INT64))
             && negb (bool_decide (ov_kind va = TURBOJS_OSR_VALUE_FLOAT64)))
         || (loop_step s =? 0) || bool_decide (exit_opcode (comparison s) = None)
      then bailout
      else match loop_iterations s (swrap 64 (ov_bits vi)) (swrap 64 (ov_bits vl)) with
      | None => LoopUndefined
      | Some None => bailout
      | Some (Some iterations) =>
          if maximum_iterations s <? iterations then bailout
          else
            let code := if bool_decide (ov_kind va = TURBOJS_OSR_VALUE_FLOAT64)
                        then pg_float_code program else pg_code program in
            match call_kernel windows fuel lay gprs xmms code frame with
            | Returned st =>
                let frame := frame_of_memory lay (st_mem st) frame in
                if uwrap 32 (gpr st 0) =? 0
                then LoopExit frame TURBOJS_OSR_EXIT_COMPLETED (resume_bytecode_offset s)
                else LoopExit frame TURBOJS_OSR_EXIT_ERROR resume
            | Running _ => LoopRunning
            | Stuck => LoopUndefined
            end
      end
  | _, _, _ => bailout
  end.

(** The entry of a program, given its callback's behaviour. *)
Definition TurboJS_OSRLoopProgramEntry
    (callback : TurboJSOSRLoopProgram -> TurboJSOSRFrame -> Z -> TurboJSOSRFrame * TurboJSOSRExitKind * Z)
    (program : TurboJSOSRLoopProgram) : TurboJSOSREntry :=
  mkOSREntry (callback program) (spec_loop_header (pg_spec program)) 3.

Example int_kernel_bytes :
  emit_int_kernel false (mkLoopSpec 1 2 3 1 0 0 100 TURBOJS_OSR_LOOP_LT) =
  Some [73;137;248; 77;139;136;0;0;0;0; 73;139;129;16;0;0;0; 73;139;137;32;0;0;0; 73;139;145;48;0;0;0;
        72;57;200; 15;141;15;0;0;0; 72;1;194; 72;129;192;1;0;0;0; 233;232;255;255;255;
        73;137;129;16;0;0;0; 73;137;145;48;0;0;0; 49;192; 195].
Proof. vm_compute. reflexivity. Qed.

(** ** The emitted bytes *)

Lemma emit32_bytes b v d0 d1 d2 d3 :
  le_bytes 4 v = [d0; d1; d2; d3] -> (length b <= 252)%nat ->
  emit32 b v = Some (b ++ [d0; d1; d2; d3]).
Proof.
  intros [= <- <- <- <-] Hb. unfold emit32, emit8, CODE_BUFFER_SIZE.
  repeat (rewrite (proj2 (Nat.leb_gt _ _)) by (rewrite ?length_app; simpl; lia)).
  by rewrite <-!app_assoc.
Qed.

Definition jcc_of (c : TurboJSOSRLoopComparison) : Cond :=
  match c with
  | TURBOJS_OSR_LOOP_LT => CondGE | TURBOJS_OSR_LOOP_LTE => CondG
  | TURBOJS_OSR_LOOP_GT => CondLE | _ => CondL
  end.

Definition argument_register (windows : bool) : nat := if windows then 1%nat else 7%nat.

(** A program listing: instructions with their offsets and lengths. *)
Definition listing (code : list Z) (l : list (nat * Instr * nat)) : Prop :=
  Forall (fun '(pc, i, n) => decode (drop pc code) = Some (i, n)) l.

Definition int_listing (windows : bool) (c : TurboJSOSRLoopComparison) (di dl da step : Z) : list (nat * Instr * nat) :=
  [ (0, I_mov 8 (argument_register windows), 3); (3, I_load 9 8 0, 7); (10, I_load 0 9 di, 7);
    (17, I_load 1 9 dl, 7); (24, I_load 2 9 da, 7);
    (31, I_cmp 0 1, 3); (34, I_jcc (jcc_of c) 15, 6); (40, I_add 2 0, 3); (43, I_add_imm 0 step, 7);
    (50, I_jmp (-24), 5);
    (55, I_store 9 di 0, 7); (62, I_store 9 da 2, 7); (69, I_xor32 0 0, 2); (71, I_ret, 1) ]%nat.

Definition float_listing (windows : bool) (c : TurboJSOSRLoopComparison) (di dl da step : Z) : list (nat * Instr * nat) :=
  [ (0, I_mov 8 (argument_register windows), 3); (3, I_load 9 8 0, 7); (10, I_load 0 9 di, 7);
    (17, I_load 1 9 dl, 7); (24, I_movq_load 0 9 da, 9);
    (33, I_cmp 0 1, 3); (36, I_jcc (jcc_of c) 22, 6); (42, I_cvtsi2sd 1 0, 5); (47, I_addsd 0 1, 5);
    (52, I_add_imm 0 step, 7); (59, I_jmp (-31), 5);
    (64, I_store 9 di 0, 7); (71, I_movq_store 9 da 0, 9); (80, I_xor32 0 0, 2); (82, I_ret, 1) ]%nat.

Lemma emit_bind {A B} (x : option A) (k : A -> option B) c r :
  x = Some c -> k c = r -> (match x with Some b => k b | None => None end) = r.
Proof. by intros -> ->. Qed.

(** Run the emitter one byte or one named 32-bit field at a time. *)
Ltac emit_all :=
  lazymatch goal with
  | |- emit32 ?b 0 = _ => rewrite (emit32_bytes b 0 0 0 0 0 eq_refl) by (simpl; lia); cbn [app]; reflexivity
  | H : le_bytes 4 ?v = [?d0; ?d1; ?d2; ?d3] |- emit32 ?b ?v = _ =>
      rewrite (emit32_bytes b v d0 d1 d2 d3 H) by (simpl; lia); cbn [app]; reflexivity
  | |- emit8 _ _ = _ => cbv; reflexivity
  | |- rex _ _ _ _ _ = _ => cbv; reflexivity
  | |- exit_opcode _ = _ => reflexivity
  | |- match _ with Some _ => _ | None => None end = _ =>
      eapply emit_bind; [emit_all|cbv beta zeta; emit_all]
  | |- context [patch_jumps ?b ?l ?d ?j] =>
      let c := eval cbv in (patch_jumps b l d j) in change (patch_jumps b l d j) with c; emit_all
  end.

Ltac open_emitters :=
  unfold mov_rr, load_base_disp32, store_base_disp32, add_rr, add_imm32, cmp_rr, movq_xmm_mem,
    movq_mem_xmm, cvtsi2sd_xmm_reg, addsd_xmm_xmm, locals_offset, local_disp.

Ltac read_listing :=
  repeat constructor; cbv -[imm32];
  repeat match goal with H : forall r, imm32 _ = Some _ |- _ => rewrite H end; reflexivity.

Ltac name_field v :=
  let bytes := fresh "B" in let imm := fresh "M" in
  let d0 := fresh "d" in let d1 := fresh "d" in let d2 := fresh "d" in let d3 := fresh "d" in
  destruct (le_bytes_4 (uwrap 32 v)) as (d0 & d1 & d2 & d3 & bytes);
  pose proof (fun r => imm32_cons v d0 d1 d2 d3 r bytes ltac:(lia)) as imm;
  revert bytes imm; generalize (uwrap 32 v); intros ? bytes imm.

Section Emission.
Context (windows : bool) (spec : TurboJSOSRCountedLoopSpec).
Hypothesis locals_u16 : is_u 16 (induction_local spec) /\ is_u 16 (limit_local spec) /\ is_u 16 (accumulator_local spec).
Hypothesis step_i32 : in_i32 (loop_step spec) = true.
Hypothesis known_comparison : exit_opcode (comparison spec) <> None.

Let di := induction_local spec * value_size.
Let dl := limit_local spec * value_size.
Let da := accumulator_local spec * value_size.

Lemma displacement_range x : is_u 16 x -> - 2 ^ 31 <= x * value_size < 2 ^ 31.
Proof. unfold is_u, value_size. lia. Qed.

Ltac kernel_listing :=
  destruct locals_u16 as (Hi%displacement_range & Hl%displacement_range & Ha%displacement_range);
  apply in_i32_spec in step_i32 as Hs; unfold INT32_MIN, INT32_MAX in Hs;
  open_emitters; fold di dl da in Hi, Hl, Ha |- *; clearbody di dl da;
  name_field di; name_field dl; name_field da; name_field (loop_step spec);
  destruct windows, (comparison spec); try done; eexists;
    (split; [emit_all|split; [reflexivity|read_listing]]).

Lemma int_kernel_listing :
  exists code, emit_int_kernel windows spec = Some code /\ length code = 72%nat /\
    listing code (int_listing windows (comparison spec) di dl da (loop_step spec)).
Proof. unfold emit_int_kernel. kernel_listing. Qed.

Lemma float_kernel_listing :
  exists code, emit_float_kernel windows spec = Some code /\ length code = 83%nat /\
    listing code (float_listing windows (comparison spec) di dl da (loop_step spec)).
Proof. unfold emit_float_kernel. kernel_listing. Qed.
End Emission.

(** ** Running a listing *)

Fixpoint run_listing (fuel : nat) (l : list (nat * Instr * nat)) (s : State) : Run :=
  match fuel with
  | O => Running s
  | S fuel =>
      match find (fun e => Z.of_nat (fst (fst e)) =? st_pc s) l with
      | Some (_, i, n) =>
          match exec i (st_pc s + Z.of_nat n) s with
          | inl s => Returned s
          | inr s => run_listing fuel l s
          end
      | None => Stuck
      end
  end.

Lemma run_listing_sound code l fuel s r :
  listing code l -> run_listing fuel l s = r -> r <> Stuck -> run fuel code s = r.
Proof.
  intros Hl. revert s. induction fuel as [|fuel IH]; intros s Hr Hns; simpl in *; [done|].
  destruct (find _ l) as [[[pc i] n]|] eqn:Hf; [|congruence].
  apply find_some in Hf as [Hin Hpc%Z.eqb_eq]. simpl in Hpc. apply list_elem_of_In in Hin.
  eapply Forall_forall in Hin; [|exact Hl]. simpl in Hin.
  rewrite <-Hpc in *. rewrite (proj2 (Z.ltb_ge _ _)), Nat2Z.id, Hin by lia.
  destruct (exec _ _ _); [done|]. by apply IH.
Qed.

Lemma run_listing_go fuel l s p i n s' :
  find (fun e => Z.of_nat (fst (fst e)) =? st_pc s) l = Some (p, i, n) ->
  exec i (st_pc s + Z.of_nat n) s = inr s' ->
  run_listing (S fuel) l s = run_listing fuel l s'.
Proof. intros Hf Hs. simpl. by rewrite Hf, Hs. Qed.

Lemma run_listing_ret l s p n :
  find (fun e => Z.of_nat (fst (fst e)) =? st_pc s) l = Some (p, I_ret, n) ->
  run_listing 1 l s = Returned s.
Proof. intros Hf. simpl. by rewrite Hf. Qed.

Lemma run_listing_add m n l s :
  run_listing (m + n) l s = match run_listing m l s with Running s => run_listing n l s | r => r end.
Proof.
  revert s. induction m as [|m IH]; intros s; simpl; [done|].
  case_match; [|done]. case_match. case_match. case_match; [done|]. apply IH.
Qed.

Lemma run_listing_prefix m k l s s' :
  run_listing m l s = Running s' -> (k <= m)%nat -> exists s'', run_listing k l s = Running s''.
Proof.
  intros Hm Hk. replace m with (k + (m - k))%nat in Hm by lia. rewrite run_listing_add in Hm.
  destruct (run_listing k l s); naive_solver.
Qed.

(** Execute the instruction at the program counter symbolically. *)
Ltac step :=
  erewrite run_listing_go; [|reflexivity|reflexivity];
  cbv [gpr xmm address st_gpr st_xmm st_flags st_mem st_pc default from_option id lookup list_lookup
       insert list_insert argument_register].

(** The source-level exit test, on signed values. *)
Definition loop_continues (c : TurboJSOSRLoopComparison) (i limit : Z) : bool :=
  match c with
  | TURBOJS_OSR_LOOP_LT => i <? limit
  | TURBOJS_OSR_LOOP_LTE => i <=? limit
  | TURBOJS_OSR_LOOP_GT => limit <? i
  | TURBOJS_OSR_LOOP_GTE => limit <=? i
  | TURBOJS_OSR_LOOP_OTHER _ => false
  end.

Lemma jcc_exits c i limit :
  exit_opcode c <> None -> is_u 64 i -> is_u 64 limit ->
  cond_holds (jcc_of c) (compare_flags i limit) = negb (loop_continues c (swrap 64 i) (swrap 64 limit)).
Proof.
  intros Hc Hi Hl. rewrite cond_after_compare by done.
  destruct c; simpl; try done; rewrite ?Z.leb_antisym, ?Z.ltb_antisym, ?negb_involutive; done.
Qed.

(** ** The kernels *)

(** One loop turn on machine words: the accumulator update, then the step. *)
Definition int_add (acc i : Z) : Z := uwrap 64 (acc + i).
Definition float_add (acc i : Z) : Z := uwrap 64 (f64_add acc (uwrap 64 (f64_of_i64 (swrap 64 i)))).

Fixpoint iterate_loop (add : Z -> Z -> Z) (step : Z) (n : nat) (i acc : Z) : Z * Z :=
  match n with
  | O => (i, acc)
  | S n => iterate_loop add step n (uwrap 64 (i + step)) (add acc i)
  end.

(** The exit test fails for the first time after [n] turns. *)
Fixpoint stops_after (c : TurboJSOSRLoopComparison) (step : Z) (n : nat) (i lim : Z) : Prop :=
  match n with
  | O => loop_continues c (swrap 64 i) (swrap 64 lim) = false
  | S n => loop_continues c (swrap 64 i) (swrap 64 lim) = true /\ stops_after c step n (uwrap 64 (i + step)) lim
  end.

Section Kernels.
Context (windows : bool) (c : TurboJSOSRLoopComparison) (di dl da step F L : Z) (mem : Z -> Z).
Context (g3 g4 g5 g6 g7 g10 g11 g12 g13 g14 g15 : Z).
Hypothesis known : exit_opcode c <> None.
Let ints := int_listing windows c di dl da step.
Let floats := float_listing windows c di dl da step.

(** The machine at the loop head. *)
Definition at_head (i lim acc : Z) (xmms : list Z) (fl : Flags) (pc : Z) : State :=
  mkMachine [i; lim; acc; g3; g4; g5; g6; g7; F; L; g10; g11; g12; g13; g14; g15] xmms fl mem pc.

(** What the kernel leaves: two words stored, zero returned, and every
    register outside rax, rcx, rdx, r8 and r9 as it was. *)
Definition kernel_result (st : State) (i acc : Z) : Prop :=
  st_mem st = mem_update (mem_update mem (uwrap 64 (L + di)) i) (uwrap 64 (L + da)) acc /\
  gpr st 0 = 0 /\
  drop 3 (st_gpr st) = [g3; g4; g5; g6; g7; F; L; g10; g11; g12; g13; g14; g15].

Lemma int_turn i lim acc x fl :
  is_u 64 i -> is_u 64 lim -> loop_continues c (swrap 64 i) (swrap 64 lim) = true ->
  exists fl', run_listing 5 ints (at_head i lim acc x fl 31) =
    Running (at_head (uwrap 64 (i + step)) lim (int_add acc i) x fl' 31).
Proof.
  intros Hi Hl Hc. eexists. unfold at_head, ints. do 2 step. rewrite jcc_exits, Hc by done.
  do 3 step. reflexivity.
Qed.

Lemma int_exit i lim acc x fl :
  is_u 64 i -> is_u 64 lim -> loop_continues c (swrap 64 i) (swrap 64 lim) = false ->
  exists st, run_listing 6 ints (at_head i lim acc x fl 31) = Returned st /\ kernel_result st i acc.
Proof.
  intros Hi Hl Hc. unfold at_head, ints. do 2 step. rewrite jcc_exits, Hc by done. do 3 step.
  rewrite Z.lxor_nilpotent. erewrite run_listing_ret by reflexivity. eexists. by split.
Qed.

Lemma float_turn i lim g2 acc x1 x fl :
  is_u 64 i -> is_u 64 lim -> loop_continues c (swrap 64 i) (swrap 64 lim) = true ->
  exists fl' x1', run_listing 6 floats (at_head i lim g2 (acc :: x1 :: x) fl 33) =
    Running (at_head (uwrap 64 (i + step)) lim g2 (float_add acc i :: x1' :: x) fl' 33).
Proof.
  intros Hi Hl Hc. do 2 eexists. unfold at_head, floats. do 2 step. rewrite jcc_exits, Hc by done.
  do 4 step. reflexivity.
Qed.

Lemma float_exit i lim g2 acc x fl :
  is_u 64 i -> is_u 64 lim -> loop_continues c (swrap 64 i) (swrap 64 lim) = false ->
  exists st, run_listing 6 floats (at_head i lim g2 (acc :: x) fl 33) = Returned st /\ kernel_result st i acc.
Proof.
  intros Hi Hl Hc. unfold at_head, floats. do 2 step. rewrite jcc_exits, Hc by done. do 3 step.
  rewrite Z.lxor_nilpotent. erewrite run_listing_ret by reflexivity. eexists. by split.
Qed.

Lemma int_loop n i lim acc x fl :
  is_u 64 i -> is_u 64 lim -> stops_after c step n i lim ->
  exists st, run_listing (n * 5 + 6) ints (at_head i lim acc x fl 31) = Returned st /\
    kernel_result st (iterate_loop int_add step n i acc).1 (iterate_loop int_add step n i acc).2.
Proof.
  revert i acc fl. induction n as [|n IH]; intros i acc fl Hi Hl; [by apply int_exit|]. intros [Hc Hn].
  destruct (int_turn i lim acc x fl Hi Hl Hc) as [fl' Ht].
  change (S n * 5 + 6)%nat with (5 + (n * 5 + 6))%nat. rewrite run_listing_add, Ht.
  apply IH; [by apply uwrap_is_u|done|done].
Qed.

Lemma float_loop n i lim g2 acc x1 x fl :
  is_u 64 i -> is_u 64 lim -> stops_after c step n i lim ->
  exists st, run_listing (n * 6 + 6) floats (at_head i lim g2 (acc :: x1 :: x) fl 33) = Returned st /\
    kernel_result st (iterate_loop float_add step n i acc).1 (iterate_loop float_add step n i acc).2.
Proof.
  revert i acc x1 fl. induction n as [|n IH]; intros i acc x1 fl Hi Hl; [by apply float_exit|]. intros [Hc Hn].
  destruct (float_turn i lim g2 acc x1 x fl Hi Hl Hc) as (fl' & x1' & Ht).
  change (S n * 6 + 6)%nat with (6 + (n * 6 + 6))%nat. rewrite run_listing_add, Ht.
  apply IH; [by apply uwrap_is_u|done|done].
Qed.

(** A loop whose exit test never fails keeps the machine running. *)
Lemma int_diverges lim acc x fl fuel i :
  is_u 64 i -> is_u 64 lim -> (forall j, loop_continues c (swrap 64 j) (swrap 64 lim) = true) ->
  exists s, run_listing fuel ints (at_head i lim acc x fl 31) = Running s.
Proof.
  intros Hi Hl Hc. revert i acc fl Hi. induction (lt_wf fuel) as [fuel _ IH]; intros i acc fl Hi.
  destruct (int_turn i lim acc x fl Hi Hl (Hc i)) as [fl' Ht].
  destruct (decide (fuel <= 5)%nat) as [Hk|Hk]; [by eapply run_listing_prefix|].
  replace fuel with (5 + (fuel - 5))%nat by lia. rewrite run_listing_add, Ht.
  apply IH; [lia|]. by apply uwrap_is_u.
Qed.
End Kernels.

(** ** From the call to the loop head *)

Definition preserved (gprs : list Z) (st : State) : Prop :=
  forall r, r ∉ [0; 1; 2; 8; 9]%nat -> gpr st r = default 0 (gprs !! r).

Lemma sixteen (l : list Z) :
  length l = 16%nat ->
  exists g0 g1 g2 g3 g4 g5 g6 g7 g8 g9 g10 g11 g12 g13 g14 g15,
    l = [g0; g1; g2; g3; g4; g5; g6; g7; g8; g9; g10; g11; g12; g13; g14; g15].
Proof. intros Hl. do 17 (destruct l as [|? l]; try discriminate). repeat eexists. Qed.

Ltac open_registers H :=
  destruct (sixteen _ H) as
    (g0 & g1 & g2 & g3 & g4 & g5 & g6 & g7 & g8 & g9 & g10 & g11 & g12 & g13 & g14 & g15 & ->).

Section Calls.
Context (windows : bool) (c : TurboJSOSRLoopComparison) (di dl da step F L : Z) (mem : Z -> Z).
Context (gprs xmms : list Z) (fl : Flags) (code : list Z).
Hypothesis known : exit_opcode c <> None.
Hypothesis gprs_16 : length gprs = 16%nat.
Hypothesis xmms_16 : length xmms = 16%nat.
Hypothesis argument : gprs !! argument_register windows = Some F.
Hypothesis frame_address : is_u 64 F.
Hypothesis locals_word : mem F = L.
Let i := mem (uwrap 64 (L + di)).
Let lim := mem (uwrap 64 (L + dl)).
Let acc := mem (uwrap 64 (L + da)).
Hypothesis i_word : is_u 64 i.
Hypothesis lim_word : is_u 64 lim.

Lemma address_zero : uwrap 64 (F + 0) = F.
Proof. rewrite Z.add_0_r. by apply uwrap_small. Qed.

Lemma int_prologue :
  exists g3 g4 g5 g6 g7 g10 g11 g12 g13 g14 g15,
    run_listing 5 (int_listing windows c di dl da step) (mkMachine gprs xmms fl mem 0) =
      Running (at_head F L mem g3 g4 g5 g6 g7 g10 g11 g12 g13 g14 g15 i lim acc xmms fl 31) /\
    forall r, r ∉ [0; 1; 2; 8; 9]%nat ->
      default 0 ([0; 0; 0; g3; g4; g5; g6; g7; F; L; g10; g11; g12; g13; g14; g15] !! r) = default 0 (gprs !! r).
Proof.
  subst i lim acc. revert argument. open_registers gprs_16. intros Harg. destruct windows; injection Harg as ->.
  all: do 11 eexists; (split; [do 5 step; rewrite address_zero, locals_word; reflexivity|]).
  all: intros r Hr; do 16 (destruct r as [|r]; [first [done|exfalso; set_solver]|]); done.
Qed.

Lemma float_prologue :
  exists g2 g3 g4 g5 g6 g7 g10 g11 g12 g13 g14 g15 x1 x,
    run_listing 5 (float_listing windows c di dl da step) (mkMachine gprs xmms fl mem 0) =
      Running (at_head F L mem g3 g4 g5 g6 g7 g10 g11 g12 g13 g14 g15 i lim g2 (acc :: x1 :: x) fl 33) /\
    forall r, r ∉ [0; 1; 2; 8; 9]%nat ->
      default 0 ([0; 0; 0; g3; g4; g5; g6; g7; F; L; g10; g11; g12; g13; g14; g15] !! r) = default 0 (gprs !! r).
Proof.
  subst i lim acc. revert argument xmms_16. destruct xmms as [|x0 [|x1 x]]; try discriminate.
  open_registers gprs_16. intros Harg _. destruct windows; injection Harg as ->.
  all: do 14 eexists; (split; [do 5 step; rewrite address_zero, locals_word; reflexivity|]).
  all: intros r Hr; do 16 (destruct r as [|r]; [first [done|exfalso; set_solver]|]); done.
Qed.

(** The effect of a call: the two words, the answer, the preserved registers. *)
Definition call_result (r : Run) (i' acc' : Z) : Prop :=
  exists st, r = Returned st /\ gpr st 0 = 0 /\ preserved gprs st /\
    st_mem st = mem_update (mem_update mem (uwrap 64 (L + di)) i') (uwrap 64 (L + da)) acc'.

Lemma kernel_result_call g3 g4 g5 g6 g7 g10 g11 g12 g13 g14 g15 l fuel st i' acc' :
  listing code l -> run_listing fuel l (mkMachine gprs xmms fl mem 0) = Returned st ->
  kernel_result di da F L mem g3 g4 g5 g6 g7 g10 g11 g12 g13 g14 g15 st i' acc' ->
  (forall r, r ∉ [0; 1; 2; 8; 9]%nat ->
      default 0 ([0; 0; 0; g3; g4; g5; g6; g7; F; L; g10; g11; g12; g13; g14; g15] !! r) = default 0 (gprs !! r)) ->
  call_result (run fuel code (mkMachine gprs xmms fl mem 0)) i' acc'.
Proof.
  intros Hl Hr (Hm & Ha & Hg) Hp. exists st.
  split; [by eapply run_listing_sound|]. split; [done|]. split; [|done].
  intros r Hr'. rewrite <-Hp by done. unfold gpr.
  do 3 (destruct r as [|r]; [exfalso; set_solver|]). f_equal.
  change (S (S (S r))) with (3 + r)%nat. rewrite <-lookup_drop, Hg. done.
Qed.

Lemma int_call n :
  listing code (int_listing windows c di dl da step) -> stops_after c step n i lim ->
  call_result (run (5 + (n * 5 + 6)) code (mkMachine gprs xmms fl mem 0))
    (iterate_loop int_add step n i acc).1 (iterate_loop int_add step n i acc).2.
Proof.
  intros Hl Hn. destruct int_prologue as (g3 & g4 & g5 & g6 & g7 & g10 & g11 & g12 & g13 & g14 & g15 & Hr & Hp).
  edestruct (int_loop windows c di dl da step F L mem) as (st & Hst & Hres); [done|exact i_word|exact lim_word|exact Hn|].
  eapply kernel_result_call; [exact Hl| |exact Hres|exact Hp].
  rewrite run_listing_add, Hr. exact Hst.
Qed.

Lemma float_call n :
  listing code (float_listing windows c di dl da step) -> stops_after c step n i lim ->
  call_result (run (5 + (n * 6 + 6)) code (mkMachine gprs xmms fl mem 0))
    (iterate_loop float_add step n i acc).1 (iterate_loop float_add step n i acc).2.
Proof.
  intros Hl Hn.
  destruct float_prologue as (g2 & g3 & g4 & g5 & g6 & g7 & g10 & g11 & g12 & g13 & g14 & g15 & x1 & x & Hr & Hp).
  edestruct (float_loop windows c di dl da step F L mem) as (st & Hst & Hres); [done|exact i_word|exact lim_word|exact Hn|].
  eapply kernel_result_call; [exact Hl| |exact Hres|exact Hp].
  rewrite run_listing_add, Hr. exact Hst.
Qed.

Lemma int_call_diverges fuel :
  listing code (int_listing windows c di dl da step) ->
  (forall j, loop_continues c (swrap 64 j) (swrap 64 lim) = true) ->
  exists s, run fuel code (mkMachine gprs xmms fl mem 0) = Running s.
Proof.
  intros Hl Hc. destruct int_prologue as (g3 & g4 & g5 & g6 & g7 & g10 & g11 & g12 & g13 & g14 & g15 & Hr & Hp).
  destruct (decide (fuel <= 5)%nat) as [Hk|Hk].
  - eapply run_listing_prefix in Hr as [s Hs]; [|exact Hk]. exists s. by eapply run_listing_sound.
  - edestruct (int_diverges windows c di dl da step F L mem) as [s Hs]; [done|exact i_word|exact lim_word|exact Hc|].
    exists s. eapply run_listing_sound; [exact Hl| |done].
    replace fuel with (5 + (fuel - 5))%nat by lia. rewrite run_listing_add, Hr. exact Hs.
Qed.
End Calls.

(** ** Counting the turns *)

Lemma step_multiple_le (k n step : Z) : 0 < step -> k < n -> k * step <= n * step - step.
Proof. nia. Qed.

Lemma ceil_turns d step :
  0 < d <= INT64_MAX -> 0 < step <= 2 ^ 31 ->
  let n := uwrap 64 (d + step - 1) / step in
  0 <= n /\ (forall k, k < n -> k * step < d) /\ d <= n * step.
Proof.
  unfold INT64_MAX. intros Hd Hs. cbv zeta. match goal with |- 0 <= ?e /\ _ => set (n := e) end.
  assert (Hn : n = (d + step - 1) / step) by (unfold n, uwrap; rewrite Z.mod_small; lia).
  pose proof (Z.div_mod (d + step - 1) step ltac:(lia)). pose proof (Z.mod_pos_bound (d + step - 1) step ltac:(lia)).
  assert (0 <= (d + step - 1) / step) by (apply Z.div_pos; lia). rewrite Hn. clear Hn n.
  repeat split; [done| |nia]. intros k Hk. pose proof (step_multiple_le k _ step ltac:(lia) Hk). nia.
Qed.

Lemma floor_turns d step :
  0 <= d <= INT64_MAX -> 0 < step <= 2 ^ 31 ->
  let n := uwrap 64 (d / step + 1) in
  0 <= n /\ (forall k, k < n -> k * step <= d) /\ d < n * step.
Proof.
  unfold INT64_MAX. intros Hd Hs. cbv zeta. match goal with |- 0 <= ?e /\ _ => set (n := e) end.
  assert (0 <= d / step <= d) by (split; [apply Z.div_pos; lia|apply Z.div_le_upper_bound; nia]).
  assert (Hn : n = d / step + 1) by (unfold n, uwrap; rewrite Z.mod_small; lia).
  pose proof (Z.div_mod d step ltac:(lia)). pose proof (Z.mod_pos_bound d step ltac:(lia)).
  rewrite Hn. clear Hn n. repeat split; [lia| |nia].
  intros k Hk. pose proof (step_multiple_le k _ step ltac:(lia) Hk). nia.
Qed.

(** The count is exact: the test succeeds on every turn before it, and fails at it. *)
Lemma loop_iterations_exact s i lim n :
  in_i32 (loop_step s) = true -> loop_step s <> 0 ->
  loop_iterations s i lim = Some (Some n) ->
  0 <= n /\ (forall k, 0 <= k < n -> loop_continues (comparison s) (i + k * loop_step s) lim = true) /\
  loop_continues (comparison s) (i + n * loop_step s) lim = false.
Proof.
  rewrite in_i32_spec. unfold INT32_MIN, INT32_MAX. intros Hs H0. unfold loop_iterations.
  assert (Hneg : loop_step s < 0 -> uwrap 32 (- loop_step s) = - loop_step s)
    by (intros; apply uwrap_small; unfold is_u; lia).
  destruct (Z.ltb_spec 0 (loop_step s)) as [Hpos|Hle]; [|rewrite Hneg by lia].
  all: destruct (comparison s); try done; simpl.
  all: match goal with |- context [if ?b then _ else _] => destruct b eqn:Htest end;
    [intros [= <-]; rewrite Z.mul_0_l, Z.add_0_r; b2p; repeat split; lia|].
  all: destruct (c_i64 _) as [d|] eqn:Hd; [|done]; apply c_i64_Some in Hd as [-> Hd%in_i64_spec]; intros [= <-]; b2p.
  all: match goal with
       | |- context [uwrap 64 (?d + ?st - 1) / ?st] => destruct (ceil_turns d st) as (Hn & Hk & Hend)
       | |- context [uwrap 64 (?d / ?st + 1)] => destruct (floor_turns d st) as (Hn & Hk & Hend)
       end; try lia; (split; [exact Hn|]).
  all: split; [intros k Hr; specialize (Hk k)|]; lia.
Qed.

Lemma stops_after_exact c step n i lim :
  in_i64 i = true -> in_i64 lim = true -> in_i64 (i + Z.of_nat n * step) = true ->
  (forall k, 0 <= k < Z.of_nat n -> loop_continues c (i + k * step) lim = true) ->
  loop_continues c (i + Z.of_nat n * step) lim = false ->
  stops_after c step n (uwrap 64 i) (uwrap 64 lim).
Proof.
  intros Hi Hl. revert i Hi. induction n as [|n IH]; intros i Hi Hn Hk Hend; simpl;
    rewrite !swrap_uwrap_i64 by done.
  - by rewrite Z.add_0_r in Hend.
  - split; [rewrite <-(Hk 0) by lia; f_equal; lia|]. rewrite uwrap_add_l.
    assert (Hnext : i + step + Z.of_nat n * step = i + Z.of_nat (S n) * step) by lia.
    apply IH; rewrite ?Hnext; try done.
    + apply in_i64_spec in Hi, Hn. apply in_i64_spec. split; nia.
    + intros k Hr. rewrite <-(Hk (k + 1)) by lia. f_equal. lia.
Qed.

(** The accumulator after [n] turns from induction value [i]. *)
Fixpoint accumulate (add : Z -> Z -> Z) (step : Z) (n : nat) (i acc : Z) : Z :=
  match n with
  | O => acc
  | S n => add (accumulate add step n i acc) (uwrap 64 (i + Z.of_nat n * step))
  end.

Lemma accumulate_first add step n i acc :
  accumulate add step n (i + step) (add acc (uwrap 64 i)) = accumulate add step (S n) i acc.
Proof.
  induction n as [|n IH]; cbn [accumulate].
  - by rewrite Z.mul_0_l, Z.add_0_r.
  - rewrite IH. cbn [accumulate]. do 2 f_equal. lia.
Qed.

Lemma iterate_loop_closed add step n i acc :
  iterate_loop add step n (uwrap 64 i) acc =
    (uwrap 64 (i + Z.of_nat n * step), accumulate add step n i acc).
Proof.
  revert i acc. induction n as [|n IH]; intros i acc; cbn [iterate_loop].
  - by rewrite Z.mul_0_l, Z.add_0_r.
  - rewrite uwrap_add_l, IH, accumulate_first. do 2 f_equal. lia.
Qed.

(** For integers the fold is the arithmetic series modulo 2^64. *)
Lemma int_accumulate_sum step n i acc :
  is_u 64 acc ->
  accumulate int_add step n i acc =
    uwrap 64 (acc + Z.of_nat n * i + step * (Z.of_nat n * (Z.of_nat n - 1) / 2)).
Proof.
  intros Ha. induction n as [|n IH]; cbn [accumulate].
  - rewrite !Z.mul_0_l, Z.div_0_l, Z.mul_0_r, !Z.add_0_r by done. symmetry. by apply uwrap_small.
  - rewrite IH. unfold int_add. rewrite uwrap_add_l, uwrap_add_r. f_equal.
    replace (Z.of_nat (S n) * (Z.of_nat (S n) - 1)) with (Z.of_nat n * (Z.of_nat n - 1) + Z.of_nat n * 2) by lia.
    rewrite Z.div_add by done. lia.
Qed.

(** ** Frames in memory *)

Definition layout_ok (lay : Layout) (f : TurboJSOSRFrame) : Prop :=
  is_u 64 (frame_at lay) /\ 0 <= locals_at lay /\
  locals_at lay + Z.of_nat (length (fr_locals f)) * value_size <= 2 ^ 64 /\
  forall k, (k < length (fr_locals f))%nat -> locals_at lay + Z.of_nat k * value_size <> frame_at lay.

Lemma cell_address lay f k :
  layout_ok lay f -> (k < length (fr_locals f))%nat ->
  uwrap 64 (locals_at lay + Z.of_nat k * value_size) = locals_at lay + Z.of_nat k * value_size.
Proof. unfold layout_ok, value_size. intros (_ & H0 & H1 & _) Hk. apply uwrap_small. unfold is_u. lia. Qed.

Lemma frame_memory_cell lay f k v :
  layout_ok lay f -> fr_locals f !! k = Some v ->
  frame_memory lay f (locals_at lay + Z.of_nat k * value_size) = ov_bits v.
Proof.
  intros (_ & _ & _ & Hsep) Hv. apply lookup_lt_Some in Hv as Hk. specialize (Hsep k Hk).
  unfold frame_memory. rewrite (proj2 (Z.eqb_neq _ _) Hsep).
  rewrite Z.add_simpl_l. unfold value_size in *. rewrite Z.mod_mul, Z.div_mul, Nat2Z.id, Hv by done.
  by rewrite (proj2 (Z.leb_le _ _)) by lia.
Qed.

Definition set_bits (bits : Z) (v : TurboJSOSRValue) : TurboJSOSRValue := mkOSRValue bits (ov_kind v).

(** The frame with the bits of local [k] replaced. *)
Definition update_local (f : TurboJSOSRFrame) (k : nat) (bits : Z) : TurboJSOSRFrame :=
  mkFrame (alter (set_bits bits) k (fr_locals f)) (fr_stack f) (fr_bytecode_offset f) (fr_loop_header f).

(** Reading back the two stored words updates exactly those two locals. *)
Lemma frame_read_back lay f ki ka i acc :
  layout_ok lay f -> (ki < length (fr_locals f))%nat -> (ka < length (fr_locals f))%nat ->
  frame_of_memory lay
    (mem_update (mem_update (frame_memory lay f) (locals_at lay + Z.of_nat ki * value_size) i)
       (locals_at lay + Z.of_nat ka * value_size) acc) f =
  update_local (update_local f ki i) ka acc.
Proof.
  intros Hlay Hki Hka. unfold frame_of_memory, update_local. simpl. f_equal.
  apply list_eq. intros k. rewrite list_lookup_imap, !list_lookup_alter.
  destruct (fr_locals f !! k) as [v|] eqn:Hv; simpl.
  - unfold mem_update. pose proof (frame_memory_cell lay f k v Hlay Hv) as Hc. unfold value_size in *.
    repeat case_decide; subst; rewrite ?Hv; simpl; unfold set_bits; simpl;
      rewrite ?Z.eqb_refl, ?(proj2 (Z.eqb_neq _ _)) by lia; try done.
    rewrite Hc. by destruct v.
  - repeat case_decide; subst; by rewrite ?Hv.
Qed.

(** ** Correctness of a compiled loop *)

Lemma run_more_fuel m n code s st :
  run m code s = Returned st -> (m <= n)%nat -> run n code s = Returned st.
Proof. intros Hr Hle. replace n with (m + (n - m))%nat by lia. by rewrite run_add, Hr. Qed.

(** Specifications with the widths of the C structure. *)
Definition spec_ok (s : TurboJSOSRCountedLoopSpec) : Prop :=
  is_u 16 (induction_local s) /\ is_u 16 (limit_local s) /\ is_u 16 (accumulator_local s) /\
  in_i32 (loop_step s) = true.

Lemma compiled_program windows mem spec program :
  spec_ok spec -> TurboJS_OSRCompileCountedI64Loop true windows mem spec = inr program ->
  let listing_of l := l windows (comparison spec) (induction_local spec * value_size)
    (limit_local spec * value_size) (accumulator_local spec * value_size) (loop_step spec) in
  pg_spec program = spec /\ loop_step spec <> 0 /\ exit_opcode (comparison spec) <> None /\
  listing (pg_code program) (listing_of int_listing) /\
  listing (pg_float_code program) (listing_of float_listing).
Proof.
  intros (Hi & Hl & Ha & Hs) Hc. unfold TurboJS_OSRCompileCountedI64Loop in Hc. simpl in Hc.
  destruct (_ || _) eqn:Hg in Hc; [done|]. b2p.
  destruct (int_kernel_listing windows spec) as (code & He & _ & Hcode); [done..|].
  destruct (float_kernel_listing windows spec) as (fcode & Hfe & _ & Hfcode); [done..|].
  rewrite He, Hfe in Hc. repeat case_match; try done. injection Hc as <-. done.
Qed.

(** The words a call sees, by local index. *)
Lemma local_word lay f k v :
  layout_ok lay f -> 0 <= k -> fr_locals f !! Z.to_nat k = Some v ->
  frame_memory lay f (uwrap 64 (locals_at lay + k * value_size)) = ov_bits v.
Proof.
  intros Hlay Hk Hv. rewrite <-(Z2Nat.id k) at 1 by done.
  rewrite (cell_address lay f) by (try done; by eapply lookup_lt_Some). by apply frame_memory_cell.
Qed.

Section Loop.
Context (windows : bool) (lay : Layout) (gprs xmms : list Z) (mem : nat -> bool).
Context (spec : TurboJSOSRCountedLoopSpec) (program : TurboJSOSRLoopProgram).
Context (f : TurboJSOSRFrame) (vi vl va : TurboJSOSRValue).
Hypothesis wf_spec : spec_ok spec.
Hypothesis compiled : TurboJS_OSRCompileCountedI64Loop true windows mem spec = inr program.
Hypothesis wf_layout : layout_ok lay f.
Hypothesis registers : length gprs = 16%nat /\ length xmms = 16%nat.
Hypothesis induction_at : fr_locals f !! Z.to_nat (induction_local spec) = Some vi.
Hypothesis limit_at : fr_locals f !! Z.to_nat (limit_local spec) = Some vl.
Hypothesis accumulator_at : fr_locals f !! Z.to_nat (accumulator_local spec) = Some va.
Hypothesis words : is_u 64 (ov_bits vi) /\ is_u 64 (ov_bits vl).
Let i := swrap 64 (ov_bits vi).
Let lim := swrap 64 (ov_bits vl).

(** The kernel the accumulator's kind selects, as an addition. *)
Definition kind_add (k : TurboJSOSRValueKind) : Z -> Z -> Z :=
  if decide (k = TURBOJS_OSR_VALUE_FLOAT64) then float_add else int_add.
Definition kind_code : list Z :=
  if bool_decide (ov_kind va = TURBOJS_OSR_VALUE_FLOAT64) then pg_float_code program else pg_code program.

Let word (local : Z) : Z := frame_memory lay f (uwrap 64 (locals_at lay + local * value_size)).

Lemma local_words :
  word (induction_local spec) = ov_bits vi /\ word (limit_local spec) = ov_bits vl /\
  word (accumulator_local spec) = ov_bits va.
Proof. destruct wf_spec as ([? _] & [? _] & [? _] & _). unfold word. repeat split; by apply local_word. Qed.

Lemma kernel_call_result n :
  stops_after (comparison spec) (loop_step spec) n (ov_bits vi) (ov_bits vl) ->
  let gs := <[argument_register windows := frame_at lay]> gprs in
  let per_turn := (if decide (ov_kind va = TURBOJS_OSR_VALUE_FLOAT64) then 6 else 5)%nat in
  let r := iterate_loop (kind_add (ov_kind va)) (loop_step spec) n (ov_bits vi) (ov_bits va) in
  call_result (induction_local spec * value_size) (accumulator_local spec * value_size)
    (locals_at lay) (frame_memory lay f) gs
    (call_kernel windows (5 + (n * per_turn + 6)) lay gprs xmms kind_code f) r.1 r.2.
Proof.
  intros Hn gs per_turn.
  destruct (compiled_program _ _ _ _ wf_spec compiled) as (_ & _ & Hknown & Hint & Hfloat).
  destruct local_words as (Wi & Wl & Wa). unfold word in Wi, Wl, Wa.
  assert (Hgs : length gs = 16%nat) by (unfold gs; rewrite length_insert; apply registers).
  assert (Harg : gs !! argument_register windows = Some (frame_at lay))
    by (apply list_lookup_insert_eq; rewrite (proj1 registers); destruct windows; simpl; lia).
  assert (Hloc : frame_memory lay f (frame_at lay) = locals_at lay) by (unfold frame_memory; by rewrite Z.eqb_refl).
  destruct words as [Hwi Hwl], registers as [_ Hx], wf_layout as [Hf _].
  unfold per_turn, kind_add, kind_code. rewrite <-Wi in Hn, Hwi |- *. rewrite <-Wl in Hn, Hwl. rewrite <-Wa.
  case_decide; [rewrite bool_decide_true by done|rewrite bool_decide_false by done].
  - by eapply float_call.
  - by eapply int_call.
Qed.

Lemma kernel_call n fuel :
  stops_after (comparison spec) (loop_step spec) n (ov_bits vi) (ov_bits vl) -> (6 * n + 11 <= fuel)%nat ->
  exists st, call_kernel windows fuel lay gprs xmms kind_code f = Returned st /\ gpr st 0 = 0 /\
    preserved (<[argument_register windows := frame_at lay]> gprs) st /\
    let r := iterate_loop (kind_add (ov_kind va)) (loop_step spec) n (ov_bits vi) (ov_bits va) in
    frame_of_memory lay (st_mem st) f =
      update_local (update_local f (Z.to_nat (induction_local spec)) r.1) (Z.to_nat (accumulator_local spec)) r.2.
Proof.
  intros Hn Hfuel. destruct (kernel_call_result n Hn) as (st & Hr & H0 & Hp & Hm).
  destruct wf_spec as ([Hi _] & _ & [Ha _] & _).
  exists st. repeat split; [|done|done|].
  - eapply run_more_fuel; [exact Hr|]. case_decide; lia.
  - rewrite Hm, <-(Z2Nat.id (induction_local spec) Hi), <-(Z2Nat.id (accumulator_local spec) Ha), !Nat2Z.id.
    rewrite !(cell_address lay f) by (try done; by eapply lookup_lt_Some).
    apply frame_read_back; try done; by eapply lookup_lt_Some.
Qed.

(** The compiled loop run to completion. *)
Lemma native_loop_completes n fuel resume :
  ov_kind vi = TURBOJS_OSR_VALUE_INT64 -> ov_kind vl = TURBOJS_OSR_VALUE_INT64 ->
  ov_kind va = TURBOJS_OSR_VALUE_INT64 \/ ov_kind va = TURBOJS_OSR_VALUE_FLOAT64 ->
  loop_iterations spec i lim = Some (Some n) -> n <= maximum_iterations spec ->
  in_i64 (i + n * loop_step spec) = true -> (6 * Z.to_nat n + 11 <= fuel)%nat ->
  run_native_loop windows fuel lay gprs xmms program f resume =
    LoopExit
      (update_local (update_local f (Z.to_nat (induction_local spec)) (uwrap 64 (i + n * loop_step spec)))
         (Z.to_nat (accumulator_local spec))
         (accumulate (kind_add (ov_kind va)) (loop_step spec) (Z.to_nat n) i (ov_bits va)))
      TURBOJS_OSR_EXIT_COMPLETED (resume_bytecode_offset spec).
Proof.
  intros Ki Kl Ka Hit Hmax Hin Hfuel.
  destruct (compiled_program _ _ _ _ wf_spec compiled) as (Hspec & H0 & Hknown & _).
  destruct (loop_iterations_exact spec i lim n) as (Hn & Hk & Hend); [apply wf_spec|done|done|].
  destruct words as [Hwi Hwl].
  assert (Ui : uwrap 64 i = ov_bits vi) by (unfold i; rewrite uwrap_swrap; by apply uwrap_small).
  assert (Ul : uwrap 64 lim = ov_bits vl) by (unfold lim; rewrite uwrap_swrap; by apply uwrap_small).
  assert (Hstop : stops_after (comparison spec) (loop_step spec) (Z.to_nat n) (ov_bits vi) (ov_bits vl)).
  { rewrite <-Ui, <-Ul. apply stops_after_exact; rewrite ?Z2Nat.id by done; try done; apply swrap_range. }
  destruct (kernel_call _ _ Hstop Hfuel) as (st & Hr & Hzero & _ & Hframe).
  cbv zeta in Hframe. rewrite <-Ui, iterate_loop_closed, Z2Nat.id in Hframe by done. simpl in Hframe.
  unfold run_native_loop. rewrite Hspec, induction_at, limit_at, accumulator_at.
  rewrite (bool_decide_true _ Ki), (bool_decide_true _ Kl), (proj2 (Z.eqb_neq _ _) H0), (bool_decide_false _ Hknown).
  assert ((negb (bool_decide (ov_kind va = TURBOJS_OSR_VALUE_INT64)) &&
           negb (bool_decide (ov_kind va = TURBOJS_OSR_VALUE_FLOAT64))) = false) as ->
    by (destruct Ka as [->| ->]; reflexivity).
  simpl. fold i lim. rewrite Hit, (proj2 (Z.ltb_ge _ _)) by done.
  fold kind_code. rewrite Hr, Hzero. simpl. by rewrite Hframe.
Qed.
End Loop.

(** C7: The machine code emitted for a counted loop implements the loop.  On
    a frame with integer induction and limit locals and an integer or double
    accumulator, let [n] be the iteration count the guard computes, within
    the allowed maximum, with [i + n * step] representable.  Then [n] is
    exactly the number of turns of the source loop, and executing the emitted
    bytes on the x86-64 machine with any fuel of at least [6n + 11]
    instructions completes, resumes at the specified offset, and changes
    nothing of the frame but the induction local, now [i + n * step], and the
    accumulator, now the fold of the machine addition over the turns. *)
Theorem counted_loop_correct windows lay gprs xmms mem spec program f vi vl va n fuel resume :
  spec_ok spec -> TurboJS_OSRCompileCountedI64Loop true windows mem spec = inr program ->
  layout_ok lay f -> length gprs = 16%nat -> length xmms = 16%nat ->
  fr_locals f !! Z.to_nat (induction_local spec) = Some vi ->
  fr_locals f !! Z.to_nat (limit_local spec) = Some vl ->
  fr_locals f !! Z.to_nat (accumulator_local spec) = Some va ->
  is_u 64 (ov_bits vi) -> is_u 64 (ov_bits vl) ->
  ov_kind vi = TURBOJS_OSR_VALUE_INT64 -> ov_kind vl = TURBOJS_OSR_VALUE_INT64 ->
  ov_kind va = TURBOJS_OSR_VALUE_INT64 \/ ov_kind va = TURBOJS_OSR_VALUE_FLOAT64 ->
  let i := swrap 64 (ov_bits vi) in
  let lim := swrap 64 (ov_bits vl) in
  loop_iterations spec i lim = Some (Some n) -> n <= maximum_iterations spec ->
  in_i64 (i + n * loop_step spec) = true -> (6 * Z.to_nat n + 11 <= fuel)%nat ->
  (forall k, 0 <= k < n -> loop_continues (comparison spec) (i + k * loop_step spec) lim = true) /\
  loop_continues (comparison spec) (i + n * loop_step spec) lim = false /\
  run_native_loop windows fuel lay gprs xmms program f resume =
    LoopExit
      (update_local (update_local f (Z.to_nat (induction_local spec)) (uwrap 64 (i + n * loop_step spec)))
         (Z.to_nat (accumulator_local spec))
         (accumulate (kind_add (ov_kind va)) (loop_step spec) (Z.to_nat n) i (ov_bits va)))
      TURBOJS_OSR_EXIT_COMPLETED (resume_bytecode_offset spec).
Proof.
  intros Hs Hc Hlay Hg Hx Hi Hl Ha Wi Wl Ki Kl Ka i lim Hit Hmax Hin Hfuel.
  destruct (compiled_program _ _ _ _ Hs Hc) as (_ & H0 & _).
  destruct (loop_iterations_exact spec i lim n) as (_ & Hk & Hend); [apply Hs|done|done|].
  split; [exact Hk|]. split; [exact Hend|]. by eapply native_loop_completes.
Qed.

(** A concrete loop: [for (i = 3; i < 10; i += 2) acc += i], limit in local 1. *)
Definition sample_spec : TurboJSOSRCountedLoopSpec := mkLoopSpec 0 1 2 2 40 64 1000 TURBOJS_OSR_LOOP_LT.
Definition sample_frame : TurboJSOSRFrame :=
  mkFrame [mkOSRValue 3 TURBOJS_OSR_VALUE_INT64; mkOSRValue 10 TURBOJS_OSR_VALUE_INT64;
           mkOSRValue 100 TURBOJS_OSR_VALUE_INT64] [] 40 40.
Definition sample_layout : Layout := mkLayout 4096 8192.
Definition sample_program : TurboJSOSRLoopProgram :=
  match TurboJS_OSRCompileCountedI64Loop true false (fun _ => true) sample_spec with
  | inr p => p
  | inl _ => mkProgram sample_spec [] [] 0 0
  end.

Lemma sample_layout_ok : layout_ok sample_layout sample_frame.
Proof.
  unfold layout_ok, is_u, value_size, sample_layout. simpl. repeat split; try lia.
Qed.

Lemma counted_loop_correct_witness :
  run_native_loop false 35 sample_layout (replicate 16 0) (replicate 16 0) sample_program sample_frame 0 =
    LoopExit
      (mkFrame [mkOSRValue 11 TURBOJS_OSR_VALUE_INT64; mkOSRValue 10 TURBOJS_OSR_VALUE_INT64;
                mkOSRValue 124 TURBOJS_OSR_VALUE_INT64] [] 40 40) TURBOJS_OSR_EXIT_COMPLETED 64.
Proof.
  refine (proj2 (proj2 (counted_loop_correct false sample_layout (replicate 16 0) (replicate 16 0)
    (fun _ => true) sample_spec sample_program sample_frame _ _ _ 4 35 0
    _ _ sample_layout_ok _ _ eq_refl eq_refl eq_refl _ _ _ _ _ _ _ _ _)));
    try (vm_compute; reflexivity); try (vm_compute; split; congruence); try (left; reflexivity); try (vm_compute; congruence).
  unfold spec_ok, is_u. simpl. repeat split; lia.
Defined.

(** A loop up to the largest integer is entered and never left.  With
    [i = limit = INT64_MAX], [i <= limit] and step 1, the guard computes one
    turn, within the maximum of 1000; but the kernel's induction register
    wraps around, its exit test never succeeds, and the generated code is
    still running after any number of instructions. *)
Theorem counted_loop_wraps_forever fuel :
  let spec := mkLoopSpec 0 0 1 1 40 64 1000 TURBOJS_OSR_LOOP_LTE in
  let frame := mkFrame [mkOSRValue INT64_MAX TURBOJS_OSR_VALUE_INT64;
                        mkOSRValue 0 TURBOJS_OSR_VALUE_INT64] [] 40 40 in
  exists program,
    TurboJS_OSRCompileCountedI64Loop true false (fun _ => true) spec = inr program /\
    loop_iterations spec INT64_MAX INT64_MAX = Some (Some 1) /\
    run_native_loop false fuel sample_layout (replicate 16 0) (replicate 16 0) program frame 0 = LoopRunning.
Proof.
  intros spec frame.
  destruct (int_kernel_listing false spec) as (code & He & _ & Hl);
    [unfold is_u; simpl; lia|reflexivity|done|].
  destruct (float_kernel_listing false spec) as (fcode & Hfe & _ & _); [unfold is_u; simpl; lia|reflexivity|done|].
  assert (Hc : exists s, call_kernel false fuel sample_layout (replicate 16 0) (replicate 16 0) code frame = Running s).
  { eapply int_call_diverges with (F := 4096) (L := 8192). 9: exact Hl.
    1-8: first [split; vm_compute; congruence | vm_compute; done].
    intros j. pose proof (swrap_range j) as Hj%in_i64_spec. apply Z.leb_le. apply Hj. }
  destruct Hc as [s Hs]. exists (mkProgram spec code fcode
    (page_round (Z.of_nat (length code))) (page_round (Z.of_nat (length fcode)))).
  split; [unfold TurboJS_OSRCompileCountedI64Loop; rewrite He, Hfe; reflexivity|].
  split; [reflexivity|]. unfold run_native_loop. cbn [pg_spec pg_code pg_float_code].
  change (fr_locals frame !! _) with (Some (mkOSRValue INT64_MAX TURBOJS_OSR_VALUE_INT64)) at 1 2.
  change (fr_locals frame !! _) with (Some (mkOSRValue 0 TURBOJS_OSR_VALUE_INT64)).
  cbn [ov_kind ov_bits]. change (loop_iterations _ _ _) with (Some (Some 1)).
  change (if bool_decide (TURBOJS_OSR_VALUE_INT64 = TURBOJS_OSR_VALUE_FLOAT64) then fcode else code) with code.
  rewrite Hs. reflexivity.
Qed.
