(* ===== verification/SSA.v ===== *)
(** * SSA graphs and their construction from IR (src/jit/optimizing/ssa.c)

    The value and block arrays are lists; [value_count] and [block_count] are
    their lengths.  The allocator's answer to a request for [n] elements is
    [mem n].  Reference counts are kept as integers: the sum of all of them
    never exceeds twice the number of values, far below the 32-bit range. *)

From S2P Require Import Prelude.
From S2P Require Import JitTypes.

(** ** Data *)

Inductive TurboJSSSAType :=
  | TURBOJS_SSA_TYPE_UNKNOWN | TURBOJS_SSA_TYPE_INT32 | TURBOJS_SSA_TYPE_INT64
  | TURBOJS_SSA_TYPE_BOOLEAN | TURBOJS_SSA_TYPE_FLOAT64 | TURBOJS_SSA_TYPE_REFERENCE.

#[export] Instance TurboJSSSAType_eq_dec : EqDecision TurboJSSSAType.
Proof. solve_decision. Defined.

Inductive TurboJSSSAOpcode :=
  | TURBOJS_SSA_NOP | TURBOJS_SSA_ARGUMENT | TURBOJS_SSA_CONSTANT_I64
  | TURBOJS_SSA_ADD_I64 | TURBOJS_SSA_SUB_I64 | TURBOJS_SSA_MUL_I64
  | TURBOJS_SSA_AND_I64 | TURBOJS_SSA_OR_I64 | TURBOJS_SSA_XOR_I64
  | TURBOJS_SSA_SHL_I64 | TURBOJS_SSA_SAR_I64 | TURBOJS_SSA_SHR_I64
  | TURBOJS_SSA_MIN_F64 | TURBOJS_SSA_MAX_F64
  | TURBOJS_SSA_LESS_THAN_I64 | TURBOJS_SSA_LESS_EQUAL_I64
  | TURBOJS_SSA_GREATER_THAN_I64 | TURBOJS_SSA_GREATER_EQUAL_I64 | TURBOJS_SSA_EQUAL_I64
  | TURBOJS_SSA_PHI | TURBOJS_SSA_GUARD_INT32
  | TURBOJS_SSA_PROPERTY_LOAD | TURBOJS_SSA_PROPERTY_STORE
  | TURBOJS_SSA_VIRTUAL_OBJECT | TURBOJS_SSA_VIRTUAL_FIELD_STORE
  | TURBOJS_SSA_ELEMENT_LOAD | TURBOJS_SSA_ELEMENT_STORE
  | TURBOJS_SSA_JUMP | TURBOJS_SSA_BRANCH_TRUE | TURBOJS_SSA_BRANCH_FALSE | TURBOJS_SSA_RETURN.

#[export] Instance TurboJSSSAOpcode_eq_dec : EqDecision TurboJSSSAOpcode.
Proof. solve_decision. Defined.

Definition TURBOJS_SSA_MAX_BLOCK_EDGES : Z := 8.
Definition TURBOJS_SSA_NO_BLOCK : Z := UINT32_MAX.
Definition TURBOJS_SSA_NO_VALUE : Z := UINT32_MAX.
Definition TURBOJS_PROPERTY_PIC_MAX_CASES : Z := 4.

(** The inline-cache fields of a value, grouped. *)
Record PropertyInfo := mkProperty {
  pi_metadata : Z;
  pi_guard_shape : Z;
  pi_index : Z;
  pi_flags : Z;
  pi_feedback_generation : Z;
  pi_case_count : Z;
  pi_reserved : list Z;          (* [3] *)
  pi_state_receiver : Z;
  pi_shapes : list Z;            (* [TURBOJS_PROPERTY_PIC_MAX_CASES] *)
  pi_indices : list Z;
  pi_generations : list Z;
  pi_case_flags : list Z
}.

(** The element-access fields, grouped. *)
Record ElementInfo := mkElement {
  ei_kind : Z;
  ei_flags : Z;
  ei_generation : Z;
  ei_length_value : Z;
  ei_range_min : Z;
  ei_range_max : Z;
  ei_induction_step : Z;
  ei_bounds_proven : bool;
  ei_length_hoisted : bool;
  ei_base_hoisted : bool
}.

Record TurboJSSSAValue := mkValue {
  v_opcode : TurboJSSSAOpcode;
  v_type : TurboJSSSAType;
  v_id : Z;
  v_block : Z;
  v_left : Z;
  v_right : Z;
  v_immediate : Z;
  v_use_count : Z;
  v_source_instruction : Z;
  v_deopt_id : Z;
  v_removed : bool;
  v_has_deopt_edge : bool;
  v_property : PropertyInfo;
  v_element : ElementInfo
}.

Record TurboJSSSABlock := mkBlock {
  b_id : Z;
  b_first_value : Z;
  b_value_count : Z;
  b_first_instruction : Z;
  b_instruction_count : Z;
  b_predecessors : list Z;       (* the first predecessor_count entries *)
  b_successors : list Z;
  b_immediate_dominator : Z;
  b_loop_header : Z;
  b_dominance_frontier_mask : Z;
  b_loop_depth : Z;
  b_reachable : bool;
  b_removed : bool
}.

Record TurboJSSSAGraph := mkGraph {
  g_values : list TurboJSSSAValue;
  g_value_capacity : Z;
  g_blocks : list TurboJSSSABlock;
  g_block_capacity : Z;
  g_entry_block : Z;
  g_deopt_exit_count : Z
}.

Definition value_count (g : TurboJSSSAGraph) : Z := Z.of_nat (length (g_values g)).
Definition block_count (g : TurboJSSSAGraph) : Z := Z.of_nat (length (g_blocks g)).
(** The bound keeps the evaluation of [values[NO_VALUE]] from building the number in unary. *)
Definition get_value (g : TurboJSSSAGraph) (id : Z) : option TurboJSSSAValue :=
  if id <? value_count g then g_values g !! Z.to_nat id else None.
Definition get_block (g : TurboJSSSAGraph) (id : Z) : option TurboJSSSABlock :=
  if id <? block_count g then g_blocks g !! Z.to_nat id else None.

Lemma get_value_lookup g id : get_value g id = g_values g !! Z.to_nat id.
Proof.
  unfold get_value, value_count. destruct (Z.ltb_spec id (Z.of_nat (length (g_values g)))); [done|].
  symmetry. apply lookup_ge_None_2. lia.
Qed.
Lemma get_block_lookup g id : get_block g id = g_blocks g !! Z.to_nat id.
Proof.
  unfold get_block, block_count. destruct (Z.ltb_spec id (Z.of_nat (length (g_blocks g)))); [done|].
  symmetry. apply lookup_ge_None_2. lia.
Qed.

(** *** Field updates *)

Definition v_set_opcode (op : TurboJSSSAOpcode) (v : TurboJSSSAValue) : TurboJSSSAValue :=
  mkValue op (v_type v) (v_id v) (v_block v) (v_left v) (v_right v) (v_immediate v) (v_use_count v)
    (v_source_instruction v) (v_deopt_id v) (v_removed v) (v_has_deopt_edge v) (v_property v) (v_element v).
Definition v_set_type (t : TurboJSSSAType) (v : TurboJSSSAValue) : TurboJSSSAValue :=
  mkValue (v_opcode v) t (v_id v) (v_block v) (v_left v) (v_right v) (v_immediate v) (v_use_count v)
    (v_source_instruction v) (v_deopt_id v) (v_removed v) (v_has_deopt_edge v) (v_property v) (v_element v).
Definition v_set_operands (l r : Z) (v : TurboJSSSAValue) : TurboJSSSAValue :=
  mkValue (v_opcode v) (v_type v) (v_id v) (v_block v) l r (v_immediate v) (v_use_count v)
    (v_source_instruction v) (v_deopt_id v) (v_removed v) (v_has_deopt_edge v) (v_property v) (v_element v).
Definition v_set_immediate (imm : Z) (v : TurboJSSSAValue) : TurboJSSSAValue :=
  mkValue (v_opcode v) (v_type v) (v_id v) (v_block v) (v_left v) (v_right v) imm (v_use_count v)
    (v_source_instruction v) (v_deopt_id v) (v_removed v) (v_has_deopt_edge v) (v_property v) (v_element v).
Definition v_set_uses (n : Z) (v : TurboJSSSAValue) : TurboJSSSAValue :=
  mkValue (v_opcode v) (v_type v) (v_id v) (v_block v) (v_left v) (v_right v) (v_immediate v) n
    (v_source_instruction v) (v_deopt_id v) (v_removed v) (v_has_deopt_edge v) (v_property v) (v_element v).
Definition v_set_deopt (id : Z) (v : TurboJSSSAValue) : TurboJSSSAValue :=
  mkValue (v_opcode v) (v_type v) (v_id v) (v_block v) (v_left v) (v_right v) (v_immediate v) (v_use_count v)
    (v_source_instruction v) id (v_removed v) true (v_property v) (v_element v).
Definition v_remove (v : TurboJSSSAValue) : TurboJSSSAValue :=
  mkValue (v_opcode v) (v_type v) (v_id v) (v_block v) (v_left v) (v_right v) (v_immediate v) (v_use_count v)
    (v_source_instruction v) (v_deopt_id v) true (v_has_deopt_edge v) (v_property v) (v_element v).
Definition v_set_property (p : PropertyInfo) (v : TurboJSSSAValue) : TurboJSSSAValue :=
  mkValue (v_opcode v) (v_type v) (v_id v) (v_block v) (v_left v) (v_right v) (v_immediate v) (v_use_count v)
    (v_source_instruction v) (v_deopt_id v) (v_removed v) (v_has_deopt_edge v) p (v_element v).
Definition v_set_element (e : ElementInfo) (v : TurboJSSSAValue) : TurboJSSSAValue :=
  mkValue (v_opcode v) (v_type v) (v_id v) (v_block v) (v_left v) (v_right v) (v_immediate v) (v_use_count v)
    (v_source_instruction v) (v_deopt_id v) (v_removed v) (v_has_deopt_edge v) (v_property v) e.

Definition b_set_range (first count : Z) (b : TurboJSSSABlock) : TurboJSSSABlock :=
  mkBlock (b_id b) first count (b_first_instruction b) (b_instruction_count b) (b_predecessors b) (b_successors b)
    (b_immediate_dominator b) (b_loop_header b) (b_dominance_frontier_mask b) (b_loop_depth b) (b_reachable b) (b_removed b).
Definition b_set_instruction_count (n : Z) (b : TurboJSSSABlock) : TurboJSSSABlock :=
  mkBlock (b_id b) (b_first_value b) (b_value_count b) (b_first_instruction b) n (b_predecessors b) (b_successors b)
    (b_immediate_dominator b) (b_loop_header b) (b_dominance_frontier_mask b) (b_loop_depth b) (b_reachable b) (b_removed b).
Definition b_set_edges (preds succs : list Z) (b : TurboJSSSABlock) : TurboJSSSABlock :=
  mkBlock (b_id b) (b_first_value b) (b_value_count b) (b_first_instruction b) (b_instruction_count b) preds succs
    (b_immediate_dominator b) (b_loop_header b) (b_dominance_frontier_mask b) (b_loop_depth b) (b_reachable b) (b_removed b).
Definition b_set_idom (d : Z) (b : TurboJSSSABlock) : TurboJSSSABlock :=
  mkBlock (b_id b) (b_first_value b) (b_value_count b) (b_first_instruction b) (b_instruction_count b)
    (b_predecessors b) (b_successors b) d (b_loop_header b) (b_dominance_frontier_mask b) (b_loop_depth b)
    (b_reachable b) (b_removed b).
Definition b_set_frontier (m : Z) (b : TurboJSSSABlock) : TurboJSSSABlock :=
  mkBlock (b_id b) (b_first_value b) (b_value_count b) (b_first_instruction b) (b_instruction_count b)
    (b_predecessors b) (b_successors b) (b_immediate_dominator b) (b_loop_header b) m (b_loop_depth b)
    (b_reachable b) (b_removed b).
Definition b_set_loop (header depth : Z) (b : TurboJSSSABlock) : TurboJSSSABlock :=
  mkBlock (b_id b) (b_first_value b) (b_value_count b) (b_first_instruction b) (b_instruction_count b)
    (b_predecessors b) (b_successors b) (b_immediate_dominator b) header (b_dominance_frontier_mask b) depth
    (b_reachable b) (b_removed b).
Definition b_set_reachable (r : bool) (b : TurboJSSSABlock) : TurboJSSSABlock :=
  mkBlock (b_id b) (b_first_value b) (b_value_count b) (b_first_instruction b) (b_instruction_count b)
    (b_predecessors b) (b_successors b) (b_immediate_dominator b) (b_loop_header b) (b_dominance_frontier_mask b)
    (b_loop_depth b) r (b_removed b).
Definition b_remove (b : TurboJSSSABlock) : TurboJSSSABlock :=
  mkBlock (b_id b) (b_first_value b) (b_value_count b) (b_first_instruction b) (b_instruction_count b)
    (b_predecessors b) (b_successors b) (b_immediate_dominator b) (b_loop_header b) (b_dominance_frontier_mask b)
    (b_loop_depth b) (b_reachable b) true.

Definition g_set_values (g : TurboJSSSAGraph) (vs : list TurboJSSSAValue) : TurboJSSSAGraph :=
  mkGraph vs (g_value_capacity g) (g_blocks g) (g_block_capacity g) (g_entry_block g) (g_deopt_exit_count g).
Definition g_set_blocks (g : TurboJSSSAGraph) (bs : list TurboJSSSABlock) : TurboJSSSAGraph :=
  mkGraph (g_values g) (g_value_capacity g) bs (g_block_capacity g) (g_entry_block g) (g_deopt_exit_count g).
(** [f(&g->values[id])] and [f(&g->blocks[id])]. *)
Definition update_value (g : TurboJSSSAGraph) (id : Z) (f : TurboJSSSAValue -> TurboJSSSAValue) : TurboJSSSAGraph :=
  g_set_values g (alter f (Z.to_nat id) (g_values g)).
Definition update_block (g : TurboJSSSAGraph) (id : Z) (f : TurboJSSSABlock -> TurboJSSSABlock) : TurboJSSSAGraph :=
  g_set_blocks g (alter f (Z.to_nat id) (g_blocks g)).

(** ** Storage *)

(** The doubling loop; 64 doublings reach any [size_t]. *)
Fixpoint double_to (fuel : nat) (next required : Z) : option Z :=
  match fuel with
  | O => None
  | S fuel =>
      if required <=? next then Some next
      else if SIZE_MAX / 2 <? next then None
      else double_to fuel (next * 2) required
  end.

(** The new capacity, or [None] when the request is refused. *)
Definition grow_array (mem : Z -> bool) (capacity required minimum element_size : Z) : option Z :=
  if required <=? capacity then Some capacity
  else let? next := double_to 65 (if capacity =? 0 then minimum else capacity) required in
       if (SIZE_MAX / element_size <? next) || negb (mem next) then None else Some next.

(** [sizeof(TurboJSSSAValue)] and [sizeof(TurboJSSSABlock)] of the 64-bit targets. *)
Definition value_size : Z := 176.
Definition block_size : Z := 120.

Definition reserve_values (mem : Z -> bool) (g : TurboJSSSAGraph) (required : Z) : option TurboJSSSAGraph :=
  let? cap := grow_array mem (g_value_capacity g) required 32 value_size in
  Some (mkGraph (g_values g) cap (g_blocks g) (g_block_capacity g) (g_entry_block g) (g_deopt_exit_count g)).
Definition reserve_blocks (mem : Z -> bool) (g : TurboJSSSAGraph) (required : Z) : option TurboJSSSAGraph :=
  let? cap := grow_array mem (g_block_capacity g) required 8 block_size in
  Some (mkGraph (g_values g) (g_value_capacity g) (g_blocks g) cap (g_entry_block g) (g_deopt_exit_count g)).

Definition TurboJS_SSAGraphInit : TurboJSSSAGraph := mkGraph [] 0 [] 0 TURBOJS_SSA_NO_BLOCK 0.
Definition TurboJS_SSAGraphDestroy (g : TurboJSSSAGraph) : TurboJSSSAGraph := TurboJS_SSAGraphInit.

Definition zero_property : PropertyInfo :=
  mkProperty 0 0 0 0 0 0 [0; 0; 0] 0 [0; 0; 0; 0] [0; 0; 0; 0] [0; 0; 0; 0] [0; 0; 0; 0].
Definition zero_element : ElementInfo := mkElement 0 0 0 0 0 0 0 false false false.

(** ** Blocks *)

Definition type_for (op : TurboJSIROpcode) : TurboJSSSAType :=
  if decide (op = TURBOJS_IR_LESS_THAN_I64) then TURBOJS_SSA_TYPE_BOOLEAN else TURBOJS_SSA_TYPE_INT64.

Definition map_op (op : TurboJSIROpcode) : TurboJSSSAOpcode :=
  match op with
  | TURBOJS_IR_ARGUMENT => TURBOJS_SSA_ARGUMENT
  | TURBOJS_IR_CONSTANT_I64 => TURBOJS_SSA_CONSTANT_I64
  | TURBOJS_IR_ADD_I64 | TURBOJS_IR_ADD_I32_CHECKED => TURBOJS_SSA_ADD_I64
  | TURBOJS_IR_SUB_I64 | TURBOJS_IR_SUB_I32_CHECKED => TURBOJS_SSA_SUB_I64
  | TURBOJS_IR_MUL_I64 | TURBOJS_IR_MUL_I32_CHECKED => TURBOJS_SSA_MUL_I64
  | TURBOJS_IR_LESS_THAN_I64 => TURBOJS_SSA_LESS_THAN_I64
  | TURBOJS_IR_JUMP => TURBOJS_SSA_JUMP
  | TURBOJS_IR_BRANCH_TRUE => TURBOJS_SSA_BRANCH_TRUE
  | TURBOJS_IR_BRANCH_FALSE => TURBOJS_SSA_BRANCH_FALSE
  | TURBOJS_IR_RETURN_I64 => TURBOJS_SSA_RETURN
  | _ => TURBOJS_SSA_NOP
  end.

Definition block_add_successor (g : TurboJSSSAGraph) (from to : Z) : option TurboJSSSAGraph :=
  if (block_count g <=? from) || (block_count g <=? to) then None
  else
    let? a := get_block g from in
    let? b := get_block g to in
    if existsb (Z.eqb to) (b_successors a) then Some g
    else if (TURBOJS_SSA_MAX_BLOCK_EDGES <=? Z.of_nat (length (b_successors a)))
         || (TURBOJS_SSA_MAX_BLOCK_EDGES <=? Z.of_nat (length (b_predecessors b)))
    then None
    else
      let g := update_block g from (fun a => b_set_edges (b_predecessors a) (b_successors a ++ [to]) a) in
      Some (update_block g to (fun b => b_set_edges (b_predecessors b ++ [from]) (b_successors b) b)).

Definition block_for_instruction (g : TurboJSSSAGraph) (insn : Z) : Z :=
  match list_find (fun b => b_first_instruction b <= insn < b_first_instruction b + b_instruction_count b) (g_blocks g) with
  | Some (i, _) => Z.of_nat i
  | None => TURBOJS_SSA_NO_BLOCK
  end.

Definition is_branch (op : TurboJSIROpcode) : bool :=
  match op with
  | TURBOJS_IR_JUMP | TURBOJS_IR_BRANCH_TRUE | TURBOJS_IR_BRANCH_FALSE => true
  | _ => false
  end.

(** The leaders an instruction introduces: its target and its successor. *)
Definition mark_leader (leader : list bool) (e : nat * TurboJSIRInstruction) : list bool :=
  let '(i, ins) := e in
  if is_branch (in_opcode ins)
  then <[S i := true]> (<[Z.to_nat (in_target ins) := true]> leader)
  else if decide (in_opcode ins = TURBOJS_IR_RETURN_I64) then <[S i := true]> leader
  else leader.

(** The leader flags. *)
Definition find_leaders (instrs : list TurboJSIRInstruction) : list bool :=
  foldl mark_leader (<[O := true]> (replicate (length instrs) false)) (imap pair instrs).

Definition new_block (id first_instruction first_value : Z) : TurboJSSSABlock :=
  mkBlock id first_value 0 first_instruction 0 [] [] TURBOJS_SSA_NO_BLOCK TURBOJS_SSA_NO_BLOCK 0 0 false false.

(** One block per leader, in instruction order. *)
Fixpoint create_blocks (mem : Z -> bool) (g : TurboJSSSAGraph) (i : Z) (leader : list bool) : option TurboJSSSAGraph :=
  match leader with
  | [] => Some g
  | false :: leader => create_blocks mem g (i + 1) leader
  | true :: leader =>
      let? g := reserve_blocks mem g (block_count g + 1) in
      create_blocks mem (g_set_blocks g (g_blocks g ++ [new_block (block_count g) i (value_count g)])) (i + 1) leader
  end.

(** [next - first_instruction] for every block. *)
Definition size_blocks (g : TurboJSSSAGraph) (instruction_count : Z) : TurboJSSSAGraph :=
  g_set_blocks g
    (imap (fun i b =>
       let next := match g_blocks g !! S i with Some b' => b_first_instruction b' | None => instruction_count end in
       b_set_instruction_count (next - b_first_instruction b) b) (g_blocks g)).

(** The edges leaving block [i]. *)
Definition connect_block (f : TurboJSIRFunction) (g : TurboJSSSAGraph) (i : nat) : option TurboJSSSAGraph :=
  let? b := g_blocks g !! i in
  let? ins := f_instructions f !! Z.to_nat (b_first_instruction b + b_instruction_count b - 1) in
  let fallthrough g := if (S i <? length (g_blocks g))%nat
                       then block_add_successor g (Z.of_nat i) (Z.of_nat (S i)) else Some g in
  let jump :=
    let target := block_for_instruction g (in_target ins) in
    if target =? TURBOJS_SSA_NO_BLOCK then None else block_add_successor g (Z.of_nat i) target in
  match in_opcode ins with
  | TURBOJS_IR_JUMP => jump
  | TURBOJS_IR_BRANCH_TRUE | TURBOJS_IR_BRANCH_FALSE => let? g := jump in fallthrough g
  | TURBOJS_IR_RETURN_I64 => Some g
  | _ => fallthrough g
  end.

Fixpoint connect_blocks (f : TurboJSIRFunction) (g : TurboJSSSAGraph) (i n : nat) : option TurboJSSSAGraph :=
  match n with
  | O => Some g
  | S n => let? g := connect_block f g i in connect_blocks f g (S i) n
  end.

(** [mem_leader] answers the [calloc] of the leader flags. *)
Definition build_blocks (mem_leader : bool) (mem : Z -> bool) (f : TurboJSIRFunction) (g : TurboJSSSAGraph)
    : option TurboJSSSAGraph :=
  if f_instruction_count f =? 0 then None
  else if negb mem_leader then None
  else
    let? g := create_blocks mem g 0 (find_leaders (f_instructions f)) in
    let g := size_blocks g (f_instruction_count f) in
    let g := mkGraph (g_values g) (g_value_capacity g) (g_blocks g) (g_block_capacity g) 0 (g_deopt_exit_count g) in
    let g := update_block g 0 (b_set_reachable true) in
    connect_blocks f g 0 (length (g_blocks g)).

(** ** Values *)

Definition incr_uses (g : TurboJSSSAGraph) (id : Z) : TurboJSSSAGraph :=
  if id =? TURBOJS_SSA_NO_VALUE then g else update_value g id (fun v => v_set_uses (v_use_count v + 1) v).

Definition new_value (id block : Z) (op : TurboJSSSAOpcode) (type : TurboJSSSAType) (left right imm src : Z)
    : TurboJSSSAValue :=
  mkValue op type id block left right imm 0 src 0 false false zero_property zero_element.

(** The graph and the new id; [TURBOJS_SSA_NO_VALUE] when storage is refused. *)
Definition emit_value (mem : Z -> bool) (g : TurboJSSSAGraph) (block : Z) (op : TurboJSSSAOpcode)
    (type : TurboJSSSAType) (left right imm src : Z) : TurboJSSSAGraph * Z :=
  match reserve_values mem g (value_count g + 1) with
  | None => (g, TURBOJS_SSA_NO_VALUE)
  | Some g =>
      let id := value_count g in
      let g' := incr_uses (incr_uses g left) right in
      let g' := g_set_values g' (g_values g' ++ [new_value id block op type left right imm src]) in
      (update_block g' block (fun b => b_set_range (b_first_value b) (b_value_count b + 1) b), id)
  end.

(** ** Reachability *)

(** The successors of one dequeued block. *)
Fixpoint visit_successors (blocks : list TurboJSSSABlock) (succs : list Z) (queued : nat)
    : list TurboJSSSABlock * list Z * nat :=
  match succs with
  | [] => (blocks, [], queued)
  | s :: succs =>
      match blocks !! Z.to_nat s with
      | Some b =>
          if b_reachable b then visit_successors blocks succs queued
          else
            let blocks := <[Z.to_nat s := b_set_reachable true b]> blocks in
            if (queued <? 1024)%nat
            then let '(blocks, q, queued) := visit_successors blocks succs (S queued) in (blocks, s :: q, queued)
            else visit_successors blocks succs queued
      | None => visit_successors blocks succs queued
      end
  end.

(** At most 1024 blocks are ever queued, so 1024 rounds empty the queue. *)
Fixpoint reach_loop (fuel : nat) (blocks : list TurboJSSSABlock) (queue : list Z) (queued : nat) : list TurboJSSSABlock :=
  match fuel, queue with
  | S fuel, b :: queue =>
      let succs := match blocks !! Z.to_nat b with Some b => b_successors b | None => [] end in
      let '(blocks, added, queued) := visit_successors blocks succs queued in
      reach_loop fuel blocks (queue ++ added) queued
  | _, _ => blocks
  end.

Definition mark_reachable (g : TurboJSSSAGraph) : TurboJSSSAGraph :=
  if block_count g =? 0 then g
  else
    let blocks := alter (b_set_reachable true) (Z.to_nat (g_entry_block g))
                    (map (b_set_reachable false) (g_blocks g)) in
    g_set_blocks g (reach_loop 1024 blocks [g_entry_block g] 1).

(** ** Verification *)

Definition verify_block (g : TurboJSSSAGraph) (i : nat) (b : TurboJSSSABlock) : bool :=
  (b_id b =? Z.of_nat i)
  && (Z.of_nat (length (b_predecessors b)) <=? TURBOJS_SSA_MAX_BLOCK_EDGES)
  && (Z.of_nat (length (b_successors b)) <=? TURBOJS_SSA_MAX_BLOCK_EDGES)
  && forallb (fun s => s <? block_count g) (b_successors b).

Definition verify_value (g : TurboJSSSAGraph) (i : nat) (v : TurboJSSSAValue) : bool :=
  let earlier o := (o =? TURBOJS_SSA_NO_VALUE) || (o <? Z.of_nat i) in
  (v_id v =? Z.of_nat i) && (v_block v <? block_count g)
  && (if decide (v_opcode v = TURBOJS_SSA_PHI)
      then (v_left v <? value_count g) && (v_right v <? value_count g)
      else earlier (v_left v) && earlier (v_right v))
  && (if decide (v_opcode v = TURBOJS_SSA_GUARD_INT32)
      then v_has_deopt_edge v && negb (v_left v =? TURBOJS_SSA_NO_VALUE) else true).

Definition TurboJS_SSAVerify (g : TurboJSSSAGraph) : bool :=
  negb (block_count g =? 0) && (g_entry_block g <? block_count g)
  && forallb (fun '(i, b) => verify_block g i b) (imap pair (g_blocks g))
  && forallb (fun '(i, v) => verify_value g i v) (imap pair (g_values g)).

(** ** Dominators *)

Definition dom_all (n : nat) : Z := if (n =? 64)%nat then UINT64_MAX else Z.shiftl 1 (Z.of_nat n) - 1.

Definition dom_get (dom : list Z) (i : Z) : Z := default 0 (dom !! Z.to_nat i).

Definition dom_initial (n : nat) (entry : Z) : list Z :=
  map (fun i => if Z.of_nat i =? entry then Z.shiftl 1 (Z.of_nat i) else dom_all n) (seq 0 n).

(** The new set of block [i]. *)
Definition dom_next (n : nat) (b : TurboJSSSABlock) (i : nat) (dom : list Z) : Z :=
  Z.lor (match b_predecessors b with
         | [] => 0
         | preds => foldl (fun next p => Z.land next (dom_get dom p)) (dom_all n) preds
         end) (Z.shiftl 1 (Z.of_nat i)).

(** One block of the sweep, in place. *)
Definition dom_step (g : TurboJSSSAGraph) (acc : list Z * bool) (e : nat * TurboJSSSABlock) : list Z * bool :=
  let '(dom, changed) := acc in
  let '(i, b) := e in
  if (Z.of_nat i =? g_entry_block g) || negb (b_reachable b) then (dom, changed)
  else let next := dom_next (length (g_blocks g)) b i dom in
       if next =? dom_get dom (Z.of_nat i) then (dom, changed) else (<[i := next]> dom, true).

(** One sweep over the blocks in order; whether anything changed. *)
Definition dom_sweep (g : TurboJSSSAGraph) (dom : list Z) : list Z * bool :=
  foldl (dom_step g) (dom, false) (imap pair (g_blocks g)).

Fixpoint dom_loop (fuel : nat) (g : TurboJSSSAGraph) (dom : list Z) : option (list Z) :=
  match fuel with
  | O => None
  | S fuel => let '(dom, changed) := dom_sweep g dom in if changed then dom_loop fuel g dom else Some dom
  end.

(** Every changing sweep clears a bit of one of at most 64 sets of 64 bits. *)
Definition dom_fuel (g : TurboJSSSAGraph) : nat := S (length (g_blocks g) * length (g_blocks g)).

(** The candidate search: [j] dominates [i], and no third block dominates both. *)
Definition idom_candidate (dom : list Z) (n : nat) (i j : nat) : bool :=
  let di := dom_get dom (Z.of_nat i) in
  let dj := dom_get dom (Z.of_nat j) in
  negb (j =? i)%nat && Z.testbit di (Z.of_nat j)
  && negb (existsb (fun k => negb (k =? i)%nat && negb (k =? j)%nat
                       && Z.testbit di (Z.of_nat k) && Z.testbit dj (Z.of_nat k)) (seq 0 n)).

Definition idom_of (entry : Z) (dom : list Z) (n i : nat) : Z :=
  if Z.of_nat i =? entry then TURBOJS_SSA_NO_BLOCK
  else match find (idom_candidate dom n i) (seq 0 n) with
       | Some j => Z.of_nat j
       | None => TURBOJS_SSA_NO_BLOCK
       end.

Definition dominator_sets (g : TurboJSSSAGraph) : option (list Z) :=
  dom_loop (dom_fuel g) g (dom_initial (length (g_blocks g)) (g_entry_block g)).

(** [None] would be a sweep loop that never settles. *)
Definition TurboJS_SSAComputeDominators (mem : bool) (g : TurboJSSSAGraph) : option (TurboJSIRStatus * TurboJSSSAGraph) :=
  let n := length (g_blocks g) in
  if (block_count g =? 0) || (64 <? block_count g) then Some (TURBOJS_IR_INVALID_ARGUMENT, g)
  else if negb mem then Some (TURBOJS_IR_OUT_OF_MEMORY, g)
  else
    let? dom := dominator_sets g in
    Some (TURBOJS_IR_OK,
      g_set_blocks g (imap (fun i b => b_set_idom (idom_of (g_entry_block g) dom n i) b) (g_blocks g))).

(** ** Dominance frontiers *)

(** The walk up the dominator tree from one predecessor; [None]: it did not end. *)
Fixpoint frontier_walk (fuel : nat) (blocks : list TurboJSSSABlock) (runner stop : Z) (i : nat)
    : option (list TurboJSSSABlock) :=
  match fuel with
  | O => None
  | S fuel =>
      if (runner =? TURBOJS_SSA_NO_BLOCK) || (runner =? stop) then Some blocks
      else
        let? r := blocks !! Z.to_nat runner in
        let blocks := <[Z.to_nat runner :=
          b_set_frontier (Z.lor (b_dominance_frontier_mask r) (Z.shiftl 1 (Z.of_nat i))) r]> blocks in
        frontier_walk fuel blocks (b_immediate_dominator r) stop i
  end.

Fixpoint frontier_preds (fuel : nat) (blocks : list TurboJSSSABlock) (preds : list Z) (stop : Z) (i : nat)
    : option (list TurboJSSSABlock) :=
  match preds with
  | [] => Some blocks
  | p :: preds => let? blocks := frontier_walk fuel blocks p stop i in frontier_preds fuel blocks preds stop i
  end.

Fixpoint frontier_blocks (fuel : nat) (blocks : list TurboJSSSABlock) (ids : list nat) : option (list TurboJSSSABlock) :=
  match ids with
  | [] => Some blocks
  | i :: ids =>
      let? b := blocks !! i in
      if negb (b_reachable b) || (length (b_predecessors b) <? 2)%nat then frontier_blocks fuel blocks ids
      else let? blocks := frontier_preds fuel blocks (b_predecessors b) (b_immediate_dominator b) i in
           frontier_blocks fuel blocks ids
  end.

Definition TurboJS_SSAComputeDominanceFrontiers (g : TurboJSSSAGraph) : option (TurboJSIRStatus * TurboJSSSAGraph) :=
  if (block_count g =? 0) || (64 <? block_count g) then Some (TURBOJS_IR_INVALID_ARGUMENT, g)
  else
    let? blocks := frontier_blocks (S (S (length (g_blocks g)))) (map (b_set_frontier 0) (g_blocks g))
                     (seq 0 (length (g_blocks g))) in
    Some (TURBOJS_IR_OK, g_set_blocks g blocks).

(** ** Natural loops *)

(** Queue the unseen predecessors. *)
Fixpoint loop_preds (seen : list bool) (work_count : nat) (preds : list Z) : list bool * nat * list Z :=
  match preds with
  | [] => (seen, work_count, [])
  | p :: preds =>
      if negb (default true (seen !! Z.to_nat p)) && (work_count <? 64)%nat
      then let '(seen, count, added) := loop_preds (<[Z.to_nat p := true]> seen) (S work_count) preds in
           (seen, count, p :: added)
      else loop_preds seen work_count preds
  end.

Definition enter_loop (header : Z) (b : TurboJSSSABlock) : TurboJSSSABlock :=
  b_set_loop header (uwrap 16 (b_loop_depth b + 1)) b.

(** The body walk; at most 64 blocks are queued. *)
Fixpoint loop_body (fuel : nat) (blocks : list TurboJSSSABlock) (header : Z) (seen : list bool) (queue : list Z)
    (work_count : nat) : list TurboJSSSABlock :=
  match fuel, queue with
  | S fuel, b :: queue =>
      let preds := match blocks !! Z.to_nat b with Some b => b_predecessors b | None => [] end in
      let blocks := alter (enter_loop header) (Z.to_nat b) blocks in
      let '(seen, work_count, added) := loop_preds seen work_count preds in
      loop_body fuel blocks header seen (queue ++ added) work_count
  | _, _ => blocks
  end.

Definition loop_edge (n : nat) (i : nat) (blocks : list TurboJSSSABlock) (header : Z) : list TurboJSSSABlock :=
  if (Z.of_nat i <? header) || (Z.of_nat n <=? header) || (64 <? n)%nat then blocks
  else
    let seen := <[i := true]> (<[Z.to_nat header := true]> (replicate 64 false)) in
    let blocks := loop_body 64 blocks header seen [Z.of_nat i] 1 in
    alter (enter_loop header) (Z.to_nat header) blocks.

Definition TurboJS_SSADetectLoops (g : TurboJSSSAGraph) : TurboJSSSAGraph :=
  let blocks := map (b_set_loop TURBOJS_SSA_NO_BLOCK 0) (g_blocks g) in
  g_set_blocks g
    (foldl (fun blocks i =>
              let succs := match blocks !! i with Some b => b_successors b | None => [] end in
              foldl (loop_edge (length (g_blocks g)) i) blocks succs)
           blocks (seq 0 (length (g_blocks g)))).

(** ** Construction *)

Definition registers : nat := Z.to_nat TURBOJS_IR_MAX_REGISTERS.

(** [out[pred][ri]] *)
Definition out_register (out : list (list Z)) (pred : Z) (ri : nat) : Z :=
  default TURBOJS_SSA_NO_VALUE (default [] (out !! Z.to_nat pred) !! ri).

Definition merge_pred (out : list (list Z)) (ri : nat) (acc : Z * bool) (pred : Z) : Z * bool :=
  let '(merged, conflict) := acc in
  let v := out_register out pred ri in
  if v =? TURBOJS_SSA_NO_VALUE then (merged, conflict)
  else if merged =? TURBOJS_SSA_NO_VALUE then (v, conflict)
  else (merged, conflict || negb (merged =? v)).

(** The value of register [ri] on entry to block [bi]; may emit a phi. *)
Definition merge_register (mem : Z -> bool) (out : list (list Z)) (bi : nat) (preds : list Z) (first_instruction : Z)
    (g : TurboJSSSAGraph) (ri : nat) : TurboJSSSAGraph * Z :=
  let '(merged, conflict) := foldl (merge_pred out ri) (TURBOJS_SSA_NO_VALUE, false) preds in
  match preds with
  | p0 :: p1 :: _ =>
      let a := out_register out p0 ri in
      let c := out_register out p1 ri in
      if conflict && negb (a =? TURBOJS_SSA_NO_VALUE) && negb (c =? TURBOJS_SSA_NO_VALUE)
      then emit_value mem g (Z.of_nat bi) TURBOJS_SSA_PHI
             (match get_value g a with Some v => v_type v | None => TURBOJS_SSA_TYPE_UNKNOWN end)
             a c 0 first_instruction
      else (g, merged)
  | _ => (g, merged)
  end.

Definition merge_registers (mem : Z -> bool) (out : list (list Z)) (bi : nat) (preds : list Z) (first_instruction : Z)
    (g : TurboJSSSAGraph) : TurboJSSSAGraph * list Z :=
  foldl (fun '(g, reg) ri =>
           let '(g, v) := merge_register mem out bi preds first_instruction g ri in (g, reg ++ [v]))
        (g, []) (seq 0 registers).

(** [(in->left < MAX) ? reg[in->left] : NO_VALUE] *)
Definition read_register (reg : list Z) (r : Z) : Z :=
  if r <? TURBOJS_IR_MAX_REGISTERS then default TURBOJS_SSA_NO_VALUE (reg !! Z.to_nat r) else TURBOJS_SSA_NO_VALUE.

(** One instruction; [None] is an allocation failure. *)
Definition build_instruction (mem : Z -> bool) (bi : nat) (ii : Z) (ins : TurboJSIRInstruction)
    (g : TurboJSSSAGraph) (reg : list Z) : option (TurboJSSSAGraph * list Z) :=
  let op := map_op (in_opcode ins) in
  if decide (op = TURBOJS_SSA_NOP) then Some (g, reg)
  else
    let '(l, r) :=
      match op with
      | TURBOJS_SSA_ARGUMENT | TURBOJS_SSA_CONSTANT_I64 | TURBOJS_SSA_JUMP => (TURBOJS_SSA_NO_VALUE, TURBOJS_SSA_NO_VALUE)
      | TURBOJS_SSA_BRANCH_TRUE | TURBOJS_SSA_BRANCH_FALSE | TURBOJS_SSA_RETURN =>
          (read_register reg (in_left ins), TURBOJS_SSA_NO_VALUE)
      | _ => (read_register reg (in_left ins), read_register reg (in_right ins))
      end in
    let imm := if is_branch (in_opcode ins) then block_for_instruction g (in_target ins) else in_immediate ins in
    let '(g, id) := emit_value mem g (Z.of_nat bi) op (type_for (in_opcode ins)) l r imm ii in
    if id =? TURBOJS_SSA_NO_VALUE then None
    else
      let sets := match op with
                  | TURBOJS_SSA_RETURN | TURBOJS_SSA_JUMP | TURBOJS_SSA_BRANCH_TRUE | TURBOJS_SSA_BRANCH_FALSE => false
                  | _ => true end in
      Some (g, if (in_destination ins <? TURBOJS_IR_MAX_REGISTERS) && sets
               then <[Z.to_nat (in_destination ins) := id]> reg else reg).

Fixpoint build_instructions (mem : Z -> bool) (bi : nat) (ii : Z) (instrs : list TurboJSIRInstruction)
    (g : TurboJSSSAGraph) (reg : list Z) : option (TurboJSSSAGraph * list Z) :=
  match instrs with
  | [] => Some (g, reg)
  | ins :: instrs =>
      let? (g, reg) := build_instruction mem bi ii ins g reg in
      build_instructions mem bi (ii + 1) instrs g reg
  end.

Fixpoint build_values (mem : Z -> bool) (f : TurboJSIRFunction) (bis : list nat) (g : TurboJSSSAGraph)
    (out : list (list Z)) : option TurboJSSSAGraph :=
  match bis with
  | [] => Some g
  | bi :: bis =>
      let? b := g_blocks g !! bi in
      let '(g, reg) := merge_registers mem out bi (b_predecessors b) (b_first_instruction b) g in
      let g := update_block g (Z.of_nat bi) (fun b => b_set_range (value_count g - b_value_count b) (b_value_count b) b) in
      let instrs := take (Z.to_nat (b_instruction_count b)) (drop (Z.to_nat (b_first_instruction b)) (f_instructions f)) in
      let? (g, reg) := build_instructions mem bi (b_first_instruction b) instrs g reg in
      build_values mem f bis g (<[bi := reg]> out)
  end.

(** Allocator answers: the leader flags, the array growth, the register
    tables and the dominator sets. *)
Record BuildMemory := mkBuildMemory {
  bm_leader : bool;
  bm_grow : Z -> bool;
  bm_out : bool;
  bm_dom : bool
}.

(** The outer [option] is the dominator computation not settling.  After an
    allocation failure the callers only destroy the graph, so its partial
    contents are not tracked. *)
Definition TurboJS_SSABuildFromIR (mem : BuildMemory) (f : TurboJSIRFunction)
    : option (TurboJSIRStatus * TurboJSSSAGraph) :=
  match build_blocks (bm_leader mem) (bm_grow mem) f TurboJS_SSAGraphInit with
  | None => Some (TURBOJS_IR_OUT_OF_MEMORY, TurboJS_SSAGraphInit)
  | Some g =>
      if negb (bm_out mem) then Some (TURBOJS_IR_OUT_OF_MEMORY, g)
      else
        let n := length (g_blocks g) in
        match build_values (bm_grow mem) f (seq 0 n) g
                (replicate n (replicate registers TURBOJS_SSA_NO_VALUE)) with
        | None => Some (TURBOJS_IR_OUT_OF_MEMORY, g)
        | Some g =>
            let g := mark_reachable g in
            let? (_, g) := TurboJS_SSAComputeDominators (bm_dom mem) g in
            let? (_, g) := TurboJS_SSAComputeDominanceFrontiers g in
            let g := TurboJS_SSADetectLoops g in
            Some (if TurboJS_SSAVerify g then TURBOJS_IR_OK else TURBOJS_IR_INVALID_TARGET, g)
        end
  end.

Definition TurboJS_SSAAddPhi (mem : Z -> bool) (g : TurboJSSSAGraph) (block left right : Z) (type : TurboJSSSAType)
    : TurboJSIRStatus * TurboJSSSAGraph * Z :=
  if (block_count g <=? block) || (value_count g <=? left) || (value_count g <=? right)
  then (TURBOJS_IR_INVALID_ARGUMENT, g, TURBOJS_SSA_NO_VALUE)
  else
    let src := match get_block g block with Some b => b_first_instruction b | None => 0 end in
    let '(g, id) := emit_value mem g block TURBOJS_SSA_PHI type left right 0 src in
    (if id =? TURBOJS_SSA_NO_VALUE then TURBOJS_IR_OUT_OF_MEMORY else TURBOJS_IR_OK, g, id).
