(* ===== verification/SSADom.v ===== *)
(** * Dominators of the SSA control-flow graph

    Correctness of the bit-set fixpoint of [TurboJS_SSAComputeDominators]
    (src/jit/optimizing/ssa.c): the sweep loop settles within its fuel, the
    sets it settles on are the dominance relation, and the search for the
    immediate dominator that follows always selects the entry block. *)

From S2P Require Import Prelude.
From S2P Require Import JitTypes.
From S2P Require Import SSA.

(** ** Bit sets *)

Definition has (dom : list Z) (i j : nat) : bool := Z.testbit (dom_get dom (Z.of_nat i)) (Z.of_nat j).

Lemma dom_get_nat dom i : dom_get dom (Z.of_nat i) = default 0 (dom !! i).
Proof. unfold dom_get. by rewrite Nat2Z.id. Qed.

Lemma dom_all_ones n : (n <= 64)%nat -> dom_all n = Z.ones (Z.of_nat n).
Proof.
  intros Hn. unfold dom_all. destruct (Nat.eqb_spec n 64) as [->|]; [reflexivity|].
  unfold Z.ones. rewrite !Z.shiftl_1_l. lia.
Qed.

Lemma dom_all_bit n j : (n <= 64)%nat -> Z.testbit (dom_all n) (Z.of_nat j) = (j <? n)%nat.
Proof.
  intros Hn. rewrite dom_all_ones by done. destruct (Nat.ltb_spec j n).
  - apply Z.ones_spec_low. lia.
  - apply Z.ones_spec_high. lia.
Qed.

Lemma single_bit i j : Z.testbit (Z.shiftl 1 (Z.of_nat i)) (Z.of_nat j) = (i =? j)%nat.
Proof.
  rewrite Z.shiftl_1_l. destruct (Nat.eqb_spec i j) as [->|].
  - by rewrite Z.pow2_bits_true by lia.
  - apply Z.pow2_bits_false. lia.
Qed.

Lemma fold_land_bit dom preds x j :
  Z.testbit (foldl (fun next p => Z.land next (dom_get dom p)) x preds) j =
  Z.testbit x j && forallb (fun p => Z.testbit (dom_get dom p) j) preds.
Proof.
  revert x. induction preds as [|p preds IH]; intros x; simpl; [by rewrite andb_true_r|].
  rewrite IH, Z.land_spec. by rewrite andb_assoc.
Qed.

(** The update, bit by bit. *)
Lemma dom_next_bit n b i dom j :
  (n <= 64)%nat ->
  Z.testbit (dom_next n b i dom) (Z.of_nat j) =
    (i =? j)%nat || (negb (bool_decide (b_predecessors b = [])) && (j <? n)%nat
                     && forallb (fun p => Z.testbit (dom_get dom p) (Z.of_nat j)) (b_predecessors b)).
Proof.
  intros Hn. unfold dom_next. rewrite Z.lor_spec, single_bit, orb_comm. f_equal.
  destruct (b_predecessors b) as [|p ps]; [by rewrite Z.bits_0|].
  rewrite fold_land_bit, dom_all_bit by done. done.
Qed.

(** Sets of blocks below [n]: nothing outside, so equal bits mean equality. *)
Definition bounded (n : nat) (x : Z) : Prop := 0 <= x < 2 ^ Z.of_nat n.

Lemma bounded_eq n x y :
  bounded n x -> bounded n y -> (forall j, (j < n)%nat -> Z.testbit x (Z.of_nat j) = Z.testbit y (Z.of_nat j)) -> x = y.
Proof.
  intros Hx Hy H. apply Z.bits_inj'. intros m Hm.
  destruct (Z.lt_ge_cases m (Z.of_nat n)) as [Hlt|Hge].
  - specialize (H (Z.to_nat m)). rewrite Z2Nat.id in H by done. apply H. lia.
  - unfold bounded in *.
    assert (Hb : forall z, 0 <= z < 2 ^ Z.of_nat n -> Z.testbit z m = false).
    { intros z Hz. destruct (Z.eq_dec z 0) as [->|]; [apply Z.bits_0|].
      apply Z.bits_above_log2; [lia|]. apply Z.log2_lt_pow2; [lia|].
      eapply Z.lt_le_trans; [apply Hz|]. apply Z.pow_le_mono_r; lia. }
    by rewrite !Hb.
Qed.

Lemma bounded_of_bits n x :
  0 <= x -> (forall m, Z.of_nat n <= m -> Z.testbit x m = false) -> bounded n x.
Proof.
  intros H0 Hb. split; [done|]. destruct (Z.eq_dec x 0) as [->|]; [apply Z.pow_pos_nonneg; lia|].
  apply Z.log2_lt_pow2; [lia|]. destruct (Z.lt_ge_cases (Z.log2 x) (Z.of_nat n)); [done|].
  specialize (Hb (Z.log2 x)). rewrite Z.bit_log2 in Hb by lia. discriminate Hb. lia.
Qed.

(** ** Walks and dominance *)

Section Graph.
Context (g : TurboJSSSAGraph).
Let n := length (g_blocks g).
Let entry := Z.to_nat (g_entry_block g).

(** [walk i l]: [l] lists, last first, the blocks of a walk from the entry to [i]. *)
Inductive walk : nat -> list nat -> Prop :=
  | walk_entry : walk entry [entry]
  | walk_step p l i b :
      walk p l -> g_blocks g !! i = Some b -> Z.of_nat p ∈ b_predecessors b -> walk i (i :: l).

Definition dominates (j i : nat) : Prop := forall l, walk i l -> j ∈ l.

(** Edges stay inside the graph and the reachable marks are closed under them. *)
Record cfg_ok : Prop := {
  cfg_size : (0 < n <= 64)%nat;
  cfg_entry : 0 <= g_entry_block g < Z.of_nat n;
  cfg_preds : forall i b p, g_blocks g !! i = Some b -> p ∈ b_predecessors b -> 0 <= p < Z.of_nat n;
  cfg_reach : forall i b p bp, g_blocks g !! i = Some b -> Z.of_nat p ∈ b_predecessors b ->
                g_blocks g !! p = Some bp -> p = entry \/ b_reachable bp = true -> b_reachable b = true;
  cfg_preds_some : forall i b, g_blocks g !! i = Some b -> b_reachable b = true -> i <> entry ->
                b_predecessors b <> []
}.
Hypothesis cfg : cfg_ok.

Lemma walk_lt i l : walk i l -> (i < n)%nat.
Proof.
  destruct 1 as [|p l i b _ Hb _].
  - pose proof (cfg_entry cfg). unfold entry. lia.
  - by apply lookup_lt_Some in Hb.
Qed.

Lemma walk_reachable i l b : walk i l -> g_blocks g !! i = Some b -> i = entry \/ b_reachable b = true.
Proof.
  intros Hw. revert b. induction Hw as [|p l i b Hw IH Hb Hp]; intros b' Hb'; [by left|right].
  simplify_eq. destruct (lookup_lt_is_Some_2 (g_blocks g) p) as [bp Hbp]; [by eapply walk_lt|].
  eapply cfg_reach; eauto.
Qed.

(** ** The invariant of the sweeps *)

Record dom_inv (dom : list Z) : Prop := {
  di_length : length dom = n;
  di_bounded : Forall (bounded n) dom;
  di_entry : dom_get dom (g_entry_block g) = Z.shiftl 1 (g_entry_block g);
  (* no block is lost: dominators stay in the sets *)
  di_complete : forall i j, (i < n)%nat -> (j < n)%nat -> dominates j i -> has dom i j = true;
  (* recomputing a set never adds to it *)
  di_descending : forall i b j, g_blocks g !! i = Some b -> b_reachable b = true -> i <> entry ->
    Z.testbit (dom_next n b i dom) (Z.of_nat j) = true -> has dom i j = true
}.

Lemma dom_next_nonneg b i dom : 0 <= dom_next n b i dom.
Proof.
  unfold dom_next. apply Z.lor_nonneg. split; [|apply Z.shiftl_nonneg; lia].
  destruct (b_predecessors b) as [|p ps]; [lia|].
  assert (H : forall l x, 0 <= x -> 0 <= foldl (fun next p => Z.land next (dom_get dom p)) x l).
  { induction l as [|q l IH]; intros x Hx; simpl; [done|]. apply IH, Z.land_nonneg. by left. }
  apply H. rewrite dom_all_ones by apply cfg. unfold Z.ones. rewrite Z.shiftl_1_l.
  pose proof (Z.pow_pos_nonneg 2 (Z.of_nat n)). lia.
Qed.

Lemma dom_next_bounded b i dom : (i < n)%nat -> bounded n (dom_next n b i dom).
Proof.
  intros Hi. apply bounded_of_bits; [apply dom_next_nonneg|]. intros m Hm.
  rewrite <-(Z2Nat.id m) by lia. rewrite dom_next_bit by apply cfg.
  rewrite (proj2 (Nat.eqb_neq _ _)), (proj2 (Nat.ltb_ge _ _)) by lia.
  by rewrite andb_false_r.
Qed.

(** Smaller sets give smaller updates. *)
Lemma dom_next_mono dom dom' b i j :
  g_blocks g !! i = Some b -> (forall k j, has dom' k j = true -> has dom k j = true) ->
  Z.testbit (dom_next n b i dom') (Z.of_nat j) = true -> Z.testbit (dom_next n b i dom) (Z.of_nat j) = true.
Proof.
  intros Hb Hsub. rewrite !dom_next_bit by apply cfg. rewrite !orb_true_iff, !andb_true_iff.
  intros [H|[H1 H2]]; [by left|right]. split; [done|].
  apply forallb_forall. intros p Hp. eapply forallb_forall in H2; [|exact Hp].
  apply list_elem_of_In in Hp. destruct (cfg_preds cfg _ _ _ Hb Hp) as [H0 _].
  specialize (Hsub (Z.to_nat p) j). unfold has in Hsub. rewrite Z2Nat.id in Hsub by done. auto.
Qed.

Lemma dom_get_insert dom i x k :
  (i < length dom)%nat -> dom_get (<[i := x]> dom) (Z.of_nat k) = if decide (i = k) then x else dom_get dom (Z.of_nat k).
Proof.
  intros Hi. rewrite !dom_get_nat. rewrite list_lookup_insert. repeat case_decide; naive_solver.
Qed.

(** A strict dominator of a block dominates its predecessors. *)
Lemma dominates_pred i b p j :
  g_blocks g !! i = Some b -> Z.of_nat p ∈ b_predecessors b -> dominates j i -> i <> j -> dominates j p.
Proof.
  intros Hb Hp Hd Hij l Hl. specialize (Hd (i :: l)).
  assert (Hin : j ∈ i :: l) by (apply Hd; by eapply walk_step). set_solver.
Qed.

Lemma dom_update_inv dom i b :
  dom_inv dom -> g_blocks g !! i = Some b -> b_reachable b = true -> i <> entry ->
  dom_inv (<[i := dom_next n b i dom]> dom).
Proof.
  intros [Hlen Hbd Hent Hcomp Hdesc] Hb Hr Hi. apply lookup_lt_Some in Hb as Hlt. fold n in Hlt.
  assert (Hent0 : Z.of_nat entry = g_entry_block g) by (pose proof (cfg_entry cfg); unfold entry; lia).
  assert (Hsub : forall k j, has (<[i := dom_next n b i dom]> dom) k j = true -> has dom k j = true).
  { intros k j. unfold has. rewrite dom_get_insert by lia. case_decide; subst; [|done]. by apply Hdesc. }
  split.
  - by rewrite length_insert.
  - apply Forall_insert; [done|]. by apply dom_next_bounded.
  - rewrite <-Hent0, dom_get_insert by lia. rewrite decide_False by done. by rewrite Hent0.
  - intros k j Hk Hj Hd. unfold has. rewrite dom_get_insert by lia. case_decide; subst; [|by apply Hcomp].
    rewrite dom_next_bit by apply cfg. destruct (Nat.eqb_spec k j) as [|Hne]; [done|]. simpl.
    rewrite bool_decide_false by (by eapply cfg_preds_some). rewrite (proj2 (Nat.ltb_lt _ _) Hj). simpl.
    apply forallb_forall. intros p Hp%list_elem_of_In. destruct (cfg_preds cfg _ _ _ Hb Hp) as [Hp0 Hpn].
    rewrite <-(Z2Nat.id p) in Hp |- * by done. apply Hcomp; [lia|done|]. by eapply dominates_pred.
  - intros k bk j Hbk Hrk Hk Hbit.
    assert (Hbit' : Z.testbit (dom_next n bk k dom) (Z.of_nat j) = true) by (by eapply dom_next_mono).
    unfold has. rewrite dom_get_insert by lia. case_decide; subst; [|by eapply Hdesc].
    simplify_eq. done.
Qed.

Lemma dom_initial_get i :
  (i < n)%nat ->
  dom_get (dom_initial n (g_entry_block g)) (Z.of_nat i) =
    if Z.of_nat i =? g_entry_block g then Z.shiftl 1 (Z.of_nat i) else dom_all n.
Proof.
  intros Hi. rewrite dom_get_nat. unfold dom_initial. rewrite list_lookup_fmap, lookup_seq_lt by done. done.
Qed.

Lemma dom_initial_inv : dom_inv (dom_initial n (g_entry_block g)).
Proof.
  pose proof (cfg_entry cfg) as Hent. pose proof (cfg_size cfg) as Hn.
  assert (Hent0 : Z.of_nat entry = g_entry_block g) by (unfold entry; lia).
  split.
  - unfold dom_initial. by rewrite length_fmap, length_seq.
  - apply Forall_fmap, Forall_forall. intros i Hi%elem_of_seq. simpl.
    apply bounded_of_bits.
    + case_match; [apply Z.shiftl_nonneg; lia|]. rewrite dom_all_ones by lia. unfold Z.ones.
      rewrite Z.shiftl_1_l. pose proof (Z.pow_pos_nonneg 2 (Z.of_nat n)). lia.
    + intros m Hm. rewrite <-(Z2Nat.id m) by lia. case_match.
      * rewrite single_bit. apply Nat.eqb_neq. lia.
      * rewrite dom_all_bit by lia. apply Nat.ltb_ge. lia.
  - pose proof (dom_initial_get entry ltac:(lia)) as He. rewrite Hent0, Z.eqb_refl in He. exact He.
  - intros i j Hi Hj Hd. unfold has. rewrite dom_initial_get by done. destruct (Z.eqb_spec (Z.of_nat i) (g_entry_block g)).
    + rewrite single_bit. assert (i = entry) as -> by lia. specialize (Hd [entry] (walk_entry)).
      apply Nat.eqb_eq. set_solver.
    + rewrite dom_all_bit by lia. by apply Nat.ltb_lt.
  - intros i b j Hb Hr Hi Hbit. apply lookup_lt_Some in Hb as Hlt. fold n in Hlt.
    unfold has. rewrite dom_initial_get by done. rewrite (proj2 (Z.eqb_neq _ _)) by lia.
    rewrite dom_all_bit by lia. rewrite dom_next_bit in Hbit by lia.
    apply orb_true_iff in Hbit as [Hij%Nat.eqb_eq|Hb']; [subst; by apply Nat.ltb_lt|].
    apply andb_true_iff in Hb' as [Hb' _]. by apply andb_true_iff in Hb' as [_ Hb'].
Qed.

(** ** Progress of a sweep *)

Definition weight (x : Z) : nat := length (filter (fun j => Z.testbit x (Z.of_nat j) = true) (seq 0 n)).
Definition total (dom : list Z) : nat := sum_list_with weight dom.

Lemma weight_lt x y :
  bounded n x -> bounded n y -> x <> y ->
  (forall j, Z.testbit x (Z.of_nat j) = true -> Z.testbit y (Z.of_nat j) = true) -> (weight x < weight y)%nat.
Proof.
  intros Hx Hy Hne Hsub. unfold weight.
  assert (Hex : exists j, (j < n)%nat /\ Z.testbit x (Z.of_nat j) = false /\ Z.testbit y (Z.of_nat j) = true).
  { destruct (decide (Exists (fun j => Z.testbit x (Z.of_nat j) = false /\ Z.testbit y (Z.of_nat j) = true) (seq 0 n)))
      as [H|H].
    - apply Exists_exists in H as (j & Hj%elem_of_seq & Hb). exists j. split; [lia|done].
    - exfalso. apply Hne. apply (bounded_eq n); [done..|]. intros j Hj.
      rewrite <-Forall_Exists_neg, Forall_forall in H. specialize (H j). rewrite elem_of_seq in H.
      specialize (Hsub j). destruct (Z.testbit x (Z.of_nat j)), (Z.testbit y (Z.of_nat j)); try done; naive_solver lia. }
  destruct Hex as (j & Hj & Hxj & Hyj). eapply filter_length_lt; [done|apply elem_of_seq|..]; [|done|congruence]. lia.
Qed.

Lemma total_insert dom i x y :
  dom !! i = Some y -> (total (<[i := x]> dom) + weight y = total dom + weight x)%nat.
Proof.
  unfold total. revert i. induction dom as [|z dom IH]; intros [|i] Hy; simpl in *; simplify_eq; [lia|].
  specialize (IH _ Hy). lia.
Qed.

(** One step keeps the invariant; it either changes nothing or loses weight. *)
Lemma dom_step_spec dom changed i b dom' changed' :
  dom_inv dom -> g_blocks g !! i = Some b -> dom_step g (dom, changed) (i, b) = (dom', changed') ->
  dom_inv dom' /\ (dom_step g (dom, false) (i, b) = (dom, false) /\ dom' = dom /\ changed' = changed
                 \/ changed' = true /\ (total dom' < total dom)%nat).
Proof.
  intros Hinv Hb. unfold dom_step. fold n.
  destruct ((_ =? _) || _) eqn:Hskip; [intros [= <- <-]; auto|]. b2p.
  assert (Hi : i <> entry) by (pose proof (cfg_entry cfg); unfold entry; lia).
  destruct (Z.eqb_spec (dom_next n b i dom) (dom_get dom (Z.of_nat i))) as [|Hne]; [intros [= <- <-]; auto|].
  intros [= <- <-]. split; [by apply dom_update_inv|right; split; [done|]].
  apply lookup_lt_Some in Hb as Hlt. fold n in Hlt.
  destruct (lookup_lt_is_Some_2 dom i) as [y Hy]; [by rewrite (di_length dom Hinv)|].
  rewrite dom_get_nat, Hy in Hne. simpl in Hne.
  enough (weight (dom_next n b i dom) < weight y)%nat by (pose proof (total_insert dom i (dom_next n b i dom) y Hy); lia).
  apply weight_lt; [by apply dom_next_bounded|by eapply Forall_lookup_1; [apply Hinv|]|done|].
  intros j Hj. apply (di_descending dom Hinv i b) in Hj; [|done..].
  unfold has in Hj. by rewrite dom_get_nat, Hy in Hj.
Qed.

(** A sweep over any blocks of the graph. *)
Lemma dom_steps_spec es dom changed dom' changed' :
  dom_inv dom -> Forall (fun e => g_blocks g !! e.1 = Some e.2) es ->
  foldl (dom_step g) (dom, changed) es = (dom', changed') ->
  dom_inv dom' /\ (total dom' <= total dom)%nat /\
  (dom' = dom /\ changed' = changed /\ Forall (fun e => dom_step g (dom, false) e = (dom, false)) es
   \/ changed' = true /\ (total dom' < total dom)%nat).
Proof.
  intros Hinv Hes. revert dom changed Hinv. induction Hes as [|[i b] es Hb _ IH]; intros dom changed Hinv; cbn [foldl].
  - intros [= <- <-]. naive_solver.
  - destruct (dom_step g (dom, changed) (i, b)) as [d c] eqn:Hstep. simpl in Hb.
    destruct (dom_step_spec _ _ _ _ _ _ Hinv Hb Hstep) as [Hinv' Hch]. intros Hfold.
    destruct (IH _ _ Hinv' Hfold) as (Hinv'' & Hle & Hrest).
    split; [done|]. destruct Hch as [(Hsame & -> & ->)|[-> Hlt]].
    + split; [done|]. destruct Hrest as [(-> & -> & Hall)|[-> Hlt]]; [left|right; auto].
      split; [done|split; [done|by constructor]].
    + split; [lia|right]. destruct Hrest as [(-> & -> & _)|[-> ?]]; split; (done || lia).
Qed.

Lemma blocks_indexed : Forall (fun e => g_blocks g !! e.1 = Some e.2) (imap pair (g_blocks g)).
Proof.
  apply Forall_lookup. intros i [k b]. rewrite list_lookup_imap. intros H.
  destruct (g_blocks g !! i) eqn:E; simplify_eq/=. done.
Qed.

(** Sets stable under every block's update. *)
Definition stable (dom : list Z) : Prop :=
  forall i b, g_blocks g !! i = Some b -> b_reachable b = true -> i <> entry ->
    dom_get dom (Z.of_nat i) = dom_next n b i dom.

Lemma unchanged_stable dom :
  Forall (fun e => dom_step g (dom, false) e = (dom, false)) (imap pair (g_blocks g)) -> stable dom.
Proof.
  intros Hall i b Hb Hr Hi. rewrite Forall_lookup in Hall. specialize (Hall i (i, b)).
  rewrite list_lookup_imap, Hb in Hall. specialize (Hall eq_refl). unfold dom_step in Hall. fold n in Hall.
  rewrite Hr, orb_false_r, (proj2 (Z.eqb_neq _ _)) in Hall by (pose proof (cfg_entry cfg); unfold entry in Hi; lia).
  destruct (Z.eqb_spec (dom_next n b i dom) (dom_get dom (Z.of_nat i))); congruence.
Qed.

Lemma dom_loop_settles fuel dom :
  dom_inv dom -> (total dom < fuel)%nat -> exists dom', dom_loop fuel g dom = Some dom' /\ dom_inv dom' /\ stable dom'.
Proof.
  revert dom. induction fuel as [|fuel IH]; intros dom Hinv Hf; [lia|]. simpl.
  destruct (dom_sweep g dom) as [d c] eqn:Hs.
  destruct (dom_steps_spec _ _ _ _ _ Hinv blocks_indexed Hs) as (Hinv' & Hle & [(-> & -> & Hall)|[-> Hlt]]).
  - exists dom. eauto using unchanged_stable.
  - apply IH; [done|lia].
Qed.

Lemma total_bound dom : length dom = n -> (total dom <= n * n)%nat.
Proof.
  intros Hl. assert (Hw : forall x, (weight x <= n)%nat).
  { intros x. unfold weight. etrans; [apply length_filter|]. by rewrite length_seq. }
  rewrite <-Hl at 1. unfold total. clear Hl. induction dom as [|x dom IH]; simpl; [lia|]. specialize (Hw x). lia.
Qed.

Lemma dominator_sets_settle : exists dom, dominator_sets g = Some dom /\ dom_inv dom /\ stable dom.
Proof.
  unfold dominator_sets, dom_fuel. fold n. apply dom_loop_settles; [apply dom_initial_inv|].
  pose proof (total_bound (dom_initial n (g_entry_block g)) (di_length _ dom_initial_inv)). lia.
Qed.

(** ** The settled sets are dominance *)

Lemma entry_alone dom j : dom_inv dom -> has dom entry j = true -> j = entry.
Proof.
  intros Hinv Hj. unfold has in Hj.
  assert (Hent0 : Z.of_nat entry = g_entry_block g) by (pose proof (cfg_entry cfg); unfold entry; lia).
  rewrite Hent0, (di_entry dom Hinv), <-Hent0, single_bit in Hj. by apply Nat.eqb_eq in Hj.
Qed.

Lemma stable_sound dom i l j :
  dom_inv dom -> stable dom -> walk i l -> has dom i j = true -> j ∈ l.
Proof.
  intros Hinv Hst Hw. revert j. induction Hw as [|p l i b Hw IH Hb Hp]; intros j Hj.
  - apply entry_alone in Hj; [set_solver|done].
  - destruct (decide (i = entry)) as [->|Hi]; [apply entry_alone in Hj; [set_solver|done]|].
    destruct (walk_reachable i (i :: l) b (walk_step _ _ _ _ Hw Hb Hp) Hb) as [|Hr]; [done|].
    unfold has in Hj. rewrite (Hst i b Hb Hr Hi), dom_next_bit in Hj by apply cfg.
    apply orb_true_iff in Hj as [->%Nat.eqb_eq|Hj]; [set_solver|].
    apply andb_true_iff in Hj as [_ Hj]. apply list_elem_of_In in Hp.
    eapply forallb_forall in Hj; [|exact Hp]. apply list_elem_of_further. by apply IH.
Qed.

(** ** The selected immediate dominator *)

Lemma entry_in_every_set dom i : dom_inv dom -> (i < n)%nat -> has dom i entry = true.
Proof.
  intros Hinv Hi. apply (di_complete dom Hinv); [done|pose proof (cfg_entry cfg); unfold entry; lia|].
  intros l Hw. clear Hi. induction Hw; [apply list_elem_of_here|by apply list_elem_of_further].
Qed.

Lemma idom_is_entry dom i :
  dom_inv dom -> (i < n)%nat -> i <> entry -> idom_of (g_entry_block g) dom n i = g_entry_block g.
Proof.
  intros Hinv Hi Hne. pose proof (cfg_entry cfg) as Hent.
  assert (Hent0 : Z.of_nat entry = g_entry_block g) by (unfold entry; lia).
  unfold idom_of. rewrite (proj2 (Z.eqb_neq _ _)) by lia.
  assert (Hcand : forall j, (j < n)%nat -> idom_candidate dom n i j = (j =? entry)%nat).
  { intros j Hj. unfold idom_candidate. destruct (Nat.eqb_spec j entry) as [->|Hje].
    - rewrite (proj2 (Nat.eqb_neq entry i)) by done. fold (has dom i entry). rewrite entry_in_every_set by done. simpl.
      apply negb_true_iff, not_true_iff_false. intros (k & Hk & Hb)%existsb_exists.
      fold (has dom entry k) in Hb. apply andb_true_iff in Hb as [Hb Hk']. apply entry_alone in Hk'; [|done]. subst k.
      by rewrite Nat.eqb_refl, andb_false_r in Hb.
    - apply andb_false_iff. right. apply negb_false_iff, existsb_exists. exists entry. split; [apply in_seq; lia|].
      rewrite !(proj2 (Nat.eqb_neq entry _)) by done. fold (has dom i entry) (has dom j entry).
      by rewrite !entry_in_every_set. }
  destruct (find (idom_candidate dom n i) (seq 0 n)) as [j|] eqn:Hf.
  - apply find_some in Hf as [Hj Hc]. apply in_seq in Hj. rewrite Hcand in Hc by lia.
    apply Nat.eqb_eq in Hc. by subst.
  - eapply find_none in Hf; [|apply in_seq; split; [apply Nat.le_0_l|]].
    + rewrite Hcand in Hf by (instantiate (1 := entry); lia). by rewrite Nat.eqb_refl in Hf.
    + simpl. lia.
Qed.
End Graph.

(** An executable test of the conditions above. *)
Definition cfg_check (g : TurboJSSSAGraph) : bool :=
  let n := length (g_blocks g) in
  let entry := Z.to_nat (g_entry_block g) in
  (1 <=? n)%nat && (n <=? 64)%nat && (0 <=? g_entry_block g) && (g_entry_block g <? Z.of_nat n)
  && forallb (fun '(i, b) =>
       forallb (fun p => (0 <=? p) && (p <? Z.of_nat n)
                  && (b_reachable b
                      || (negb (Z.to_nat p =? entry)%nat
                          && match g_blocks g !! Z.to_nat p with Some bp => negb (b_reachable bp) | None => true end)))
               (b_predecessors b)
       && ((i =? entry)%nat || negb (b_reachable b) || negb (bool_decide (b_predecessors b = []))))
     (imap pair (g_blocks g)).

Lemma cfg_check_ok g : cfg_check g = true -> cfg_ok g.
Proof.
  unfold cfg_check. rewrite !andb_true_iff. intros [[[[Hn1 Hn2] He1] He2] Hall].
  apply Nat.leb_le in Hn1, Hn2. b2p.
  assert (Hblock : forall i b, g_blocks g !! i = Some b -> _) by
    (intros i b Hb; eapply forallb_forall in Hall; [exact Hall|];
     apply list_elem_of_In, list_elem_of_lookup; exists i; by rewrite list_lookup_imap, Hb).
  split; [lia|lia|..].
  - intros i b p Hb Hp. specialize (Hblock i b Hb). apply andb_true_iff in Hblock as [Hps _].
    apply list_elem_of_In in Hp. eapply forallb_forall in Hps; [|exact Hp]. b2p. lia.
  - intros i b p bp Hb Hp Hbp Hr. specialize (Hblock i b Hb). apply andb_true_iff in Hblock as [Hps _].
    apply list_elem_of_In in Hp. eapply forallb_forall in Hps; [|exact Hp].
    apply andb_true_iff in Hps as [_ Hps]. rewrite Nat2Z.id, Hbp in Hps. apply orb_true_iff in Hps as [|Hps]; [done|].
    apply andb_true_iff in Hps as [Hpe Hpr]. apply negb_true_iff, Nat.eqb_neq in Hpe.
    destruct Hr as [|Hr]; [done|]. by rewrite Hr in Hpr.
  - intros i b Hb Hr Hi. specialize (Hblock i b Hb). apply andb_true_iff in Hblock as [_ Hp].
    rewrite Hr, (proj2 (Nat.eqb_neq _ _) Hi) in Hp. simpl in Hp. b2p. done.
Qed.

(** C14: The dominator computation is correct.  On a control-flow graph of at
    most 64 blocks with in-range edges and closed reachability marks, the
    sweep loop settles within its fuel, and for every block some walk from
    the entry reaches, bit [j] of its set is set exactly when [j] lies on
    every such walk. *)
Theorem dominator_sets_correct g :
  cfg_ok g ->
  exists dom, dominator_sets g = Some dom /\
    forall i j l, (j < length (g_blocks g))%nat -> walk g i l -> (has dom i j = true <-> dominates g j i).
Proof.
  intros Hcfg. destruct (dominator_sets_settle g Hcfg) as (dom & Hd & Hinv & Hst).
  exists dom. split; [exact Hd|]. intros i j l Hj Hw. split.
  - intros Hb l' Hl'. by eapply stable_sound.
  - intros Hdom. apply (di_complete g dom Hinv); [by eapply walk_lt|done|done].
Qed.

(** The immediate dominator is always the entry block.  The candidate
    search rejects a block [j] as soon as some third block dominates both [j]
    and [i]; the entry block is such a block for every other candidate, so on
    every well-formed graph the search selects the entry, whatever the real
    dominator tree. *)
Theorem immediate_dominator_is_entry g g' i b :
  cfg_ok g -> TurboJS_SSAComputeDominators true g = Some (TURBOJS_IR_OK, g') ->
  g_blocks g' !! i = Some b ->
  b_immediate_dominator b = if Z.of_nat i =? g_entry_block g then TURBOJS_SSA_NO_BLOCK else g_entry_block g.
Proof.
  intros Hcfg Hc Hb. destruct (dominator_sets_settle g Hcfg) as (dom & Hd & Hinv & _).
  unfold TurboJS_SSAComputeDominators in Hc. rewrite Hd in Hc. case_match; [done|]. simpl in Hc.
  injection Hc as <-. simpl in Hb. rewrite list_lookup_imap in Hb.
  destruct (g_blocks g !! i) as [b0|] eqn:Hb0; simplify_eq/=. apply lookup_lt_Some in Hb0.
  destruct (Z.eqb_spec (Z.of_nat i) (g_entry_block g)) as [He|He].
  - unfold idom_of. by rewrite He, Z.eqb_refl.
  - apply idom_is_entry; [done|done|done|]. pose proof (cfg_entry g Hcfg). lia.
Qed.

(** ** A graph whose dominator tree is deeper than one level

    [if (a) goto L; goto M; M: r1 = 1; goto N; L: nop; N: return a]: block 2
    (at M) is dominated by block 1, which is not the entry. *)
Definition sample_ir : TurboJSIRFunction :=
  mkFunction
    [ mkInstruction TURBOJS_IR_ARGUMENT 0 0 0 0 0 0; mkInstruction TURBOJS_IR_BRANCH_TRUE 0 0 0 0 5 0;
      mkInstruction TURBOJS_IR_JUMP 0 0 0 0 3 0; mkInstruction TURBOJS_IR_CONSTANT_I64 1 0 0 1 0 0;
      mkInstruction TURBOJS_IR_JUMP 0 0 0 0 6 0; mkInstruction TURBOJS_IR_NOP 0 0 0 0 0 0;
      mkInstruction TURBOJS_IR_RETURN_I64 0 0 0 0 0 0 ]
    16 2 1 0 0 (replicate 64 TURBOJS_VALUE_UNKNOWN) (replicate 64 TURBOJS_VALUE_UNKNOWN) [] 0 [] 0 1 1.

Definition all_memory : BuildMemory := mkBuildMemory true (fun _ => true) true true.

Definition sample_graph : TurboJSSSAGraph :=
  match TurboJS_SSABuildFromIR all_memory sample_ir with
  | Some (_, g) => g
  | None => TurboJS_SSAGraphInit
  end.

Example sample_graph_edges :
  map b_predecessors (g_blocks sample_graph) = [[]; [0]; [1]; [0]; [2; 3]].
Proof. vm_compute. reflexivity. Qed.

Example sample_graph_frontiers :
  map b_dominance_frontier_mask (g_blocks sample_graph) = [0; 0; 16; 16; 0].
Proof. vm_compute. reflexivity. Qed.

Lemma lookup_map {A B} (f : A -> B) (l : list A) (fl : list B) i x :
  map f l = fl -> fl !! i = Some x -> exists b, l !! i = Some b /\ f b = x.
Proof. intros <- Hx. apply list_lookup_fmap_Some in Hx as (b & -> & Hb). by exists b. Qed.

Lemma sample_cfg : cfg_ok sample_graph.
Proof. apply cfg_check_ok. vm_compute. reflexivity. Qed.

Lemma dominator_sets_correct_witness :
  exists dom, dominator_sets sample_graph = Some dom /\
    forall i j l, (j < 5)%nat -> walk sample_graph i l -> (has dom i j = true <-> dominates sample_graph j i).
Proof. exact (dominator_sets_correct sample_graph sample_cfg). Defined.

Definition second_block : TurboJSSSABlock :=
  Eval vm_compute in default (new_block 0 0 0) (g_blocks sample_graph !! 2%nat).

Lemma immediate_dominator_is_entry_witness : b_immediate_dominator second_block = 0.
Proof.
  refine (immediate_dominator_is_entry sample_graph sample_graph 2 second_block sample_cfg _ _);
    vm_compute; reflexivity.
Defined.

Lemma off_walk : 1%nat ∉ [4; 3; 0]%nat.
Proof. set_solver. Qed.

(** Dominance frontiers are incomplete.  In the graph built for
    [sample_ir], block 1 dominates block 2, a predecessor of the join block
    4, and does not dominate block 4 itself, so 4 belongs to the frontier of
    1; the computed mask of block 1 is empty. *)
Theorem dominance_frontier_incomplete :
  TurboJS_SSABuildFromIR all_memory sample_ir = Some (TURBOJS_IR_OK, sample_graph) /\
  dominates sample_graph 1 2 /\ ~ dominates sample_graph 1 4 /\
  (exists b, g_blocks sample_graph !! 4%nat = Some b /\ 2 ∈ b_predecessors b) /\
  (exists b, g_blocks sample_graph !! 1%nat = Some b /\ b_dominance_frontier_mask b = 0).
Proof.
  split; [vm_compute; reflexivity|].
  destruct (dominator_sets_settle sample_graph sample_cfg) as (dom & Hd & Hinv & Hst).
  assert (Hset : has dom 2 1 = true) by (vm_compute in Hd; injection Hd as <-; reflexivity).
  split; [intros l Hl; exact (stable_sound sample_graph sample_cfg dom 2 l 1 Hinv Hst Hl Hset)|]. split.
  - intros Hdom. apply off_walk, Hdom.
    destruct (lookup_map _ _ _ 4 _ sample_graph_edges eq_refl) as (b4 & Hb4 & Hp4).
    destruct (lookup_map _ _ _ 3 _ sample_graph_edges eq_refl) as (b3 & Hb3 & Hp3).
    eapply walk_step; [eapply walk_step; [apply walk_entry|exact Hb3|]|exact Hb4|].
    + rewrite Hp3. apply list_elem_of_here.
    + rewrite Hp4. apply list_elem_of_further, list_elem_of_here.
  - split; [|exact (lookup_map _ _ _ 1 _ sample_graph_frontiers eq_refl)].
    destruct (lookup_map _ _ _ 4 _ sample_graph_edges eq_refl) as (b4 & Hb4 & Hp4).
    exists b4. split; [exact Hb4|]. rewrite Hp4. apply list_elem_of_here.
Qed.
