(* ===== verification/SSAMem.v ===== *)
(** * Memory optimizations on SSA graphs (src/jit/optimizing/ssa.c)

    Alias queries between property accesses, and the passes that remove
    redundant property and element accesses.  A loop [for (i = 0; i <
    value_count; ++i)] over the values is a fold over their positions, which
    no pass changes in number.  A backward search [for (j = i; j-- > 0;)] is
    a recursion on [j]. *)

From S2P Require Import Prelude.
From S2P Require Import JitTypes.
From S2P Require Import SSA.

Definition TURBOJS_PROPERTY_FEEDBACK_LOAD : Z := 1.
Definition TURBOJS_PROPERTY_FEEDBACK_STORE : Z := 2.
Definition TURBOJS_PROPERTY_FEEDBACK_WRITABLE : Z := 4.
Definition TURBOJS_PROPERTY_FEEDBACK_OWN_DATA : Z := 8.

(** ** Uses *)

Definition replaced (from to : Z) (v : TurboJSSSAValue) : TurboJSSSAValue :=
  if v_removed v then v
  else v_set_operands (if v_left v =? from then to else v_left v) (if v_right v =? from then to else v_right v) v.

Definition replacements (from : Z) (v : TurboJSSSAValue) : Z :=
  if v_removed v then 0
  else (if v_left v =? from then 1 else 0) + (if v_right v =? from then 1 else 0).

Definition replace_value_uses (g : TurboJSSSAGraph) (from to : Z) : TurboJSSSAGraph :=
  let count := foldr Z.add 0 (map (replacements from) (g_values g)) in
  let g := g_set_values g (map (replaced from to) (g_values g)) in
  let g := update_value g to (fun v => v_set_uses (v_use_count v + count) v) in
  update_value g from (v_set_uses 0).

(** [if (values[id].use_count) values[id].use_count--] for an id in range. *)
Definition drop_use (g : TurboJSSSAGraph) (id : Z) : TurboJSSSAGraph :=
  if id <? value_count g
  then update_value g id (fun v => if v_use_count v =? 0 then v else v_set_uses (v_use_count v - 1) v) else g.

Definition add_use (g : TurboJSSSAGraph) (id : Z) : TurboJSSSAGraph :=
  update_value g id (fun v => v_set_uses (v_use_count v + 1) v).

Definition is_opcode (op : TurboJSSSAOpcode) (v : TurboJSSSAValue) : bool := bool_decide (v_opcode v = op).

(** A live value of the given opcode. *)
Definition live (op : TurboJSSSAOpcode) (v : TurboJSSSAValue) : bool := negb (v_removed v) && is_opcode op v.

(** ** Alias queries *)

Definition nth_case (l : list Z) (i : nat) : Z := default 0 (l !! i).

(** [for (i = 0; i < a->property_case_count; ++i)] with all cases passing. *)
Definition all_cases (a : PropertyInfo) (test : nat -> bool) : bool :=
  forallb test (seq 0 (Z.to_nat (pi_case_count a))).
Definition some_case (a : PropertyInfo) (test : nat -> bool) : bool :=
  existsb test (seq 0 (Z.to_nat (pi_case_count a))).

Definition same_slot (a b : PropertyInfo) (i : nat) : bool :=
  (nth_case (pi_shapes a) i =? nth_case (pi_shapes b) i)
  && (nth_case (pi_indices a) i =? nth_case (pi_indices b) i)
  && (nth_case (pi_generations a) i =? nth_case (pi_generations b) i).

Definition same_header (a b : PropertyInfo) : bool :=
  (pi_case_count a =? pi_case_count b) && (pi_metadata a =? pi_metadata b).

Definition same_property_cases (a b : TurboJSSSAValue) : bool :=
  let a := v_property a in let b := v_property b in
  same_header a b
  && all_cases a (fun i => same_slot a b i && (nth_case (pi_case_flags a) i =? nth_case (pi_case_flags b) i)).

Definition same_property_slot_identity (a b : TurboJSSSAValue) : bool :=
  let a := v_property a in let b := v_property b in
  same_header a b && all_cases a (same_slot a b).

Definition flag_set (flags mask : Z) : bool := negb (Z.land flags mask =? 0).

Definition same_property_location (a b : TurboJSSSAValue) : bool :=
  let a := v_property a in let b := v_property b in
  same_header a b
  && all_cases a (fun i => same_slot a b i
       && flag_set (nth_case (pi_case_flags a) i) TURBOJS_PROPERTY_FEEDBACK_WRITABLE
       && flag_set (nth_case (pi_case_flags b) i) TURBOJS_PROPERTY_FEEDBACK_LOAD).

Definition property_alias_class_known (v : TurboJSSSAValue) : bool :=
  negb (pi_metadata (v_property v) =? 0) && negb (pi_case_count (v_property v) =? 0).

Definition same_property_alias_class (a b : TurboJSSSAValue) : bool :=
  (* the search over the cases changes nothing: both outcomes answer 1 *)
  property_alias_class_known a && property_alias_class_known b
  && (pi_metadata (v_property a) =? pi_metadata (v_property b)).

Definition property_store_may_alias (store load : TurboJSSSAValue) : bool :=
  let s := v_property store in let l := v_property load in
  if negb (is_opcode TURBOJS_SSA_PROPERTY_STORE store) then false
  else if property_alias_class_known store && property_alias_class_known load
          && negb (pi_metadata s =? pi_metadata l) then false
  else if v_left store =? v_left load then true
  else if (pi_case_count s =? 0) || (pi_case_count l =? 0) then true
  else some_case s (fun i => some_case l (fun j => nth_case (pi_shapes s) i =? nth_case (pi_shapes l) j)).

(** A live store other than [load] itself (values are told apart by their id,
    which is their position) that may write what it reads. *)
Definition blocking_store (load : TurboJSSSAValue) (v : TurboJSSSAValue) : bool :=
  live TURBOJS_SSA_PROPERTY_STORE v && negb (v_id v =? v_id load) && property_store_may_alias v load.

(** The values at positions [first <= i < last]. *)
Definition values_between (g : TurboJSSSAGraph) (first last : Z) : list TurboJSSSAValue :=
  take (Z.to_nat (last - first)) (drop (Z.to_nat first) (g_values g)).

Definition property_count_non_aliasing_stores (g : TurboJSSSAGraph) (first last : Z) (load : TurboJSSSAValue) : Z :=
  if value_count g <=? first then 0
  else Z.of_nat (length (filter (fun v => live TURBOJS_SSA_PROPERTY_STORE v && property_alias_class_known v
                                   && property_alias_class_known load && negb (property_store_may_alias v load) = true)
                           (values_between g first (Z.min last (value_count g))))).

(** The walk up the immediate dominators.  They are all the entry block,
    whose own is [NO_BLOCK], so the walk takes at most two steps. *)
Fixpoint dominates_from (fuel : nat) (g : TurboJSSSAGraph) (dominator cursor : Z) : bool :=
  match fuel with
  | O => false
  | S fuel =>
      if cursor =? TURBOJS_SSA_NO_BLOCK then false
      else if cursor =? dominator then true
      else match get_block g cursor with
           | Some b => dominates_from fuel g dominator (b_immediate_dominator b)
           | None => false
           end
  end.

Definition block_dominates (g : TurboJSSSAGraph) (dominator block : Z) : bool :=
  if (block_count g <=? dominator) || (block_count g <=? block) then false
  else dominates_from (S (S (length (g_blocks g)))) g dominator block.

(** Values of a block up to [stop_value], as the loops bound them. *)
Definition block_values (g : TurboJSSSAGraph) (b : TurboJSSSABlock) (stop : Z) : list TurboJSSSAValue :=
  values_between g (b_first_value b) (Z.min stop (Z.min (value_count g) (b_first_value b + b_value_count b))).

(** Up the single predecessors; a walk longer than the graph is on a cycle of
    single-predecessor blocks, which the entry does not reach. *)
Fixpoint unique_path_from (fuel : nat) (g : TurboJSSSAGraph) (prior cursor : Z) (load : TurboJSSSAValue)
    (load_block : Z) : bool :=
  if cursor =? prior then true
  else match fuel with
  | O => false
  | S fuel =>
      match (if cursor =? TURBOJS_SSA_NO_BLOCK then None else get_block g cursor) with
      | None => false
      | Some b =>
          match b_predecessors b with
          | [p] =>
              if existsb (blocking_store load)
                   (block_values g b (if cursor =? load_block then v_id load else value_count g)) then false
              else unique_path_from fuel g prior p load load_block
          | _ => false
          end
      end
  end.

Definition property_unique_path_clear (g : TurboJSSSAGraph) (prior load_block : Z) (load : TurboJSSSAValue) : bool :=
  unique_path_from (length (g_blocks g)) g prior load_block load load_block.

Definition property_block_prefix_clear (g : TurboJSSSAGraph) (block : Z) (load : TurboJSSSAValue) (stop : Z) : bool :=
  match get_block g block with
  | None => false
  | Some b => negb (existsb (blocking_store load) (block_values g b stop))
  end.

(** The memoized search.  Every call marks an unmarked block or answers at
    once, so the recursion is no deeper than the graph. *)
Fixpoint all_paths_rec (fuel : nat) (g : TurboJSSSAGraph) (prior : Z) (load : TurboJSSSAValue)
    (cursor : Z) (visiting : list bool) (memo : list (option bool)) : bool * list (option bool) :=
  if cursor =? prior then (true, memo)
  else match get_block g cursor with
  | None => (false, memo)
  | Some b =>
      match default None (memo !! Z.to_nat cursor) with
      | Some r => (r, memo)
      | None =>
          if default false (visiting !! Z.to_nat cursor) then (false, memo)
          else match fuel with
          | O => (false, memo)
          | S fuel =>
              let visiting := <[Z.to_nat cursor := true]> visiting in
              let stop := if cursor =? v_block load then v_id load else UINT32_MAX in
              if negb (property_block_prefix_clear g cursor load stop) || bool_decide (b_predecessors b = [])
              then (false, <[Z.to_nat cursor := Some false]> memo)
              else
                let '(ok, memo) :=
                  foldl (fun '(ok, memo) p =>
                           if (ok : bool) then all_paths_rec fuel g prior load p visiting memo else (ok, memo))
                        (true, memo) (b_predecessors b) in
                (ok, <[Z.to_nat cursor := Some ok]> memo)
          end
      end
  end.

(** [mem] answers the two allocations. *)
Definition property_all_paths_clear (mem : bool) (g : TurboJSSSAGraph) (prior : Z) (load : TurboJSSSAValue) : bool :=
  if (block_count g <=? prior) || (block_count g <=? v_block load) then false
  else if negb mem then false
  else (all_paths_rec (S (length (g_blocks g))) g prior load (v_block load)
          (replicate (length (g_blocks g)) false) (replicate (length (g_blocks g)) None)).1.

Definition property_loop_store_free (g : TurboJSSSAGraph) (header : Z) (load : TurboJSSSAValue) : bool :=
  if block_count g <=? header then false
  else forallb (fun '(i, b) =>
         (negb (Z.of_nat i =? header) && negb (b_loop_header b =? header))
         || negb (existsb (blocking_store load) (block_values g b (value_count g))))
       (imap pair (g_blocks g)).

(** ** Passes over property accesses

    [for_values g body] runs [body i v] for every position, on the value as
    the earlier iterations left it; the counter is the pass's result. *)
Definition for_values (g : TurboJSSSAGraph)
    (body : TurboJSSSAGraph -> Z -> TurboJSSSAValue -> TurboJSSSAGraph * Z) : TurboJSSSAGraph * Z :=
  foldl (fun '(g, n) i =>
           match g_values g !! i with
           | Some v => let '(g, k) := body g (Z.of_nat i) v in (g, n + k)
           | None => (g, n)
           end) (g, 0) (seq 0 (length (g_values g))).

(** [replace_value_uses(g, id, by); value->removed = 1]. *)
Definition replace_and_remove (g : TurboJSSSAGraph) (id by_ : Z) : TurboJSSSAGraph :=
  update_value (replace_value_uses g id by_) id v_remove.

(** The backward scan of a block for the value a load reads from it. *)
Fixpoint scan_reaching (candidates : list TurboJSSSAValue) (load : TurboJSSSAValue) : option Z :=
  match candidates with
  | [] => None
  | c :: rest =>
      if v_removed c then scan_reaching rest load
      else if is_opcode TURBOJS_SSA_PHI c && negb (pi_case_count (v_property c) =? 0)
              && (pi_state_receiver (v_property c) =? v_left load) && same_property_slot_identity c load
      then Some (v_id c)
      else if negb (is_opcode TURBOJS_SSA_PROPERTY_STORE c) then scan_reaching rest load
      else if (v_left c =? v_left load) && negb (v_right c =? TURBOJS_SSA_NO_VALUE) && same_property_location c load
      then Some (v_right c)
      else if property_store_may_alias c load then None
      else scan_reaching rest load
  end.

Definition property_find_reaching_store (g : TurboJSSSAGraph) (block : Z) (load : TurboJSSSAValue) : option Z :=
  let? b := get_block g block in
  scan_reaching (reverse (block_values g b (value_count g))) load.

Definition set_receiver (receiver : Z) (p : PropertyInfo) : PropertyInfo :=
  mkProperty (pi_metadata p) (pi_guard_shape p) (pi_index p) (pi_flags p) (pi_feedback_generation p) (pi_case_count p)
    (pi_reserved p) receiver (pi_shapes p) (pi_indices p) (pi_generations p) (pi_case_flags p).

Definition value_type (g : TurboJSSSAGraph) (id : Z) : TurboJSSSAType :=
  match get_value g id with Some v => v_type v | None => TURBOJS_SSA_TYPE_UNKNOWN end.

Definition create_property_store_phis (g : TurboJSSSAGraph) : TurboJSSSAGraph * Z :=
  for_values g (fun g i load =>
    if negb (live TURBOJS_SSA_PROPERTY_LOAD load) || (block_count g <=? v_block load)
       || (pi_case_count (v_property load) =? 0) then (g, 0)
    else match get_block g (v_block load) with
    | Some b =>
        match b_predecessors b with
        | [p0; p1] =>
            if negb (property_block_prefix_clear g (v_block load) load (v_id load)) then (g, 0)
            else match property_find_reaching_store g p0 load, property_find_reaching_store g p1 load with
            | Some l, Some r =>
                if (value_count g <=? l) || (value_count g <=? r) then (g, 0)
                else if l =? r then (update_value (replace_value_uses g (v_id load) l) i v_remove, 1)
                else
                  let lt := value_type g l in let rt := value_type g r in
                  let g := add_use (add_use (drop_use g (v_left load)) l) r in
                  (update_value g i (fun v =>
                     v_set_operands l r
                       (v_set_type (if decide (lt = rt) then lt else TURBOJS_SSA_TYPE_UNKNOWN)
                          (v_set_opcode TURBOJS_SSA_PHI (v_set_property (set_receiver (v_left v) (v_property v)) v)))), 1)
            | _, _ => (g, 0)
            end
        | _ => (g, 0)
        end
    | None => (g, 0)
    end).

Definition property_store_is_plain_writable (store : TurboJSSSAValue) : bool :=
  let p := v_property store in
  is_opcode TURBOJS_SSA_PROPERTY_STORE store && negb (pi_case_count p =? 0)
  && all_cases p (fun i => let flags := nth_case (pi_case_flags p) i in
       flag_set flags TURBOJS_PROPERTY_FEEDBACK_OWN_DATA && flag_set flags TURBOJS_PROPERTY_FEEDBACK_WRITABLE
       && flag_set flags TURBOJS_PROPERTY_FEEDBACK_STORE).

(** An access between two stores that keeps the first one alive. *)
Definition keeps_store (store between : TurboJSSSAValue) : bool :=
  negb (v_removed between)
  && ((is_opcode TURBOJS_SSA_PROPERTY_LOAD between && property_store_may_alias store between)
      || (is_opcode TURBOJS_SSA_PROPERTY_STORE between && property_store_may_alias between store
          && negb (same_property_location between store))).

(** The forward scan for a later store to the same slot: whether [store] is dead.
    [passed] holds the values already scanned, in order. *)
Fixpoint overwritten (store : TurboJSSSAValue) (passed rest : list TurboJSSSAValue) : bool :=
  match rest with
  | [] => false
  | later :: rest =>
      if v_removed later then overwritten store (passed ++ [later]) rest
      else if negb (v_block later =? v_block store) then false
      else if is_opcode TURBOJS_SSA_PROPERTY_LOAD later && property_store_may_alias store later then false
      else if negb (is_opcode TURBOJS_SSA_PROPERTY_STORE later) then overwritten store (passed ++ [later]) rest
      else if (v_left later =? v_left store) && same_property_slot_identity store later
              && property_store_is_plain_writable later
      then negb (existsb (keeps_store store) passed)
      else if property_store_may_alias later store then false
      else overwritten store (passed ++ [later]) rest
  end.

Definition eliminate_overwritten_property_stores (g : TurboJSSSAGraph) : TurboJSSSAGraph * Z :=
  for_values g (fun g i store =>
    if negb (live TURBOJS_SSA_PROPERTY_STORE store) || negb (property_store_is_plain_writable store) then (g, 0)
    else if overwritten store [] (drop (Z.to_nat (i + 1)) (g_values g))
    then (update_value (drop_use (drop_use g (v_left store)) (v_right store)) i v_remove, 1)
    else (g, 0)).

(** The value a load can take from an earlier store: [j] counts down. *)
Fixpoint forwarded_store (g : TurboJSSSAGraph) (i : Z) (load : TurboJSSSAValue) (j : nat) : option Z :=
  match j with
  | O => None
  | S j =>
      match g_values g !! j with
      | None => None
      | Some store =>
          if v_removed store then forwarded_store g i load j
          else if negb (v_block store =? v_block load)
                  && (negb (block_dominates g (v_block store) (v_block load))
                      || negb (property_unique_path_clear g (v_block store) (v_block load) load))
          then forwarded_store g i load j
          else if negb (is_opcode TURBOJS_SSA_PROPERTY_STORE store) then forwarded_store g i load j
          else if negb (v_left store =? v_left load) || (v_right store =? TURBOJS_SSA_NO_VALUE)
                  || negb (same_property_location store load)
          then if property_store_may_alias store load then None else forwarded_store g i load j
          else if existsb (fun v => live TURBOJS_SSA_PROPERTY_STORE v && property_store_may_alias v load)
                    (values_between g (Z.of_nat j + 1) i)
          then None else Some (v_right store)
      end
  end.

Definition forward_property_stores_to_loads (g : TurboJSSSAGraph) : TurboJSSSAGraph * Z :=
  for_values g (fun g i load =>
    if negb (live TURBOJS_SSA_PROPERTY_LOAD load) || (pi_case_count (v_property load) =? 0) then (g, 0)
    else match forwarded_store g i load (Z.to_nat i) with
         | Some v => (replace_and_remove g i v, 1)
         | None => (g, 0)
         end).

(** Why a load of another block may be reused; the counters the pass keeps. *)
Record LoadCounts := mkLoadCounts {
  lc_eliminated : Z; lc_reused : Z; lc_cross_block : Z; lc_unique_path : Z; lc_loop_body : Z; lc_join : Z;
  lc_versions : Z; lc_loop_invariant : Z; lc_phis : Z; lc_alias_classes : Z; lc_ignored_stores : Z
}.
Definition no_counts : LoadCounts := mkLoadCounts 0 0 0 0 0 0 0 0 0 0 0.
Definition add_counts (a b : LoadCounts) : LoadCounts :=
  mkLoadCounts (lc_eliminated a + lc_eliminated b) (lc_reused a + lc_reused b) (lc_cross_block a + lc_cross_block b)
    (lc_unique_path a + lc_unique_path b) (lc_loop_body a + lc_loop_body b) (lc_join a + lc_join b)
    (lc_versions a + lc_versions b) (lc_loop_invariant a + lc_loop_invariant b) (lc_phis a + lc_phis b)
    (lc_alias_classes a + lc_alias_classes b) (lc_ignored_stores a + lc_ignored_stores b).

(** The path proof for a prior value in another block: unique path, all
    paths, or a loop without interfering stores. *)
Definition path_proof (mem : bool) (g : TurboJSSSAGraph) (prior load : TurboJSSSAValue) : option (bool * bool * bool) :=
  let header := match get_block g (v_block load) with Some b => b_loop_header b | None => TURBOJS_SSA_NO_BLOCK end in
  if negb (block_dominates g (v_block prior) (v_block load)) then None
  else if property_unique_path_clear g (v_block prior) (v_block load) load then Some (true, false, false)
  else if property_all_paths_clear mem g (v_block prior) load then Some (false, true, false)
  else if negb (header =? TURBOJS_SSA_NO_BLOCK) && block_dominates g (v_block prior) header
          && property_loop_store_free g header load
  then Some (false, false, true)
  else None.

(** The backward search for a load to reuse, with the last path proof found.
    [property_reserved] of the load is the pass's scratch: it is read only in
    the iteration that has just written it. *)
Fixpoint reusable_load (mem : bool) (g : TurboJSSSAGraph) (i : Z) (load : TurboJSSSAValue) (proof : bool * bool * bool)
    (j : nat) : option (nat * TurboJSSSAValue * (bool * bool * bool)) :=
  match j with
  | O => None
  | S j =>
      match g_values g !! j with
      | None => None
      | Some prior =>
          if v_removed prior then reusable_load mem g i load proof j
          else match (if v_block prior =? v_block load then Some proof else path_proof mem g prior load) with
          | None => reusable_load mem g i load proof j
          | Some proof =>
              if is_opcode TURBOJS_SSA_PROPERTY_STORE prior && property_store_may_alias prior load then None
              else if negb (is_opcode TURBOJS_SSA_PROPERTY_LOAD prior) || negb (v_left prior =? v_left load)
                      || negb (same_property_cases prior load)
              then reusable_load mem g i load proof j
              else if existsb (fun v => ((v_block v =? v_block prior) || (v_block v =? v_block load))
                                  && live TURBOJS_SSA_PROPERTY_STORE v && property_store_may_alias v load)
                        (values_between g (Z.of_nat j + 1) i)
              then None else Some (j, prior, proof)
          end
      end
  end.

Definition b2n (b : bool) : Z := if b then 1 else 0.

(** The counters of one elimination. *)
Definition reuse_counts (g : TurboJSSSAGraph) (i : Z) (j : nat) (prior load : TurboJSSSAValue) (proof : bool * bool * bool)
    : LoadCounts :=
  let '(unique, join, invariant) := proof in
  let cross := negb (v_block prior =? v_block load) in
  let lb := get_block g (v_block load) in
  let pb := get_block g (v_block prior) in
  let preds := match lb with Some b => Z.of_nat (length (b_predecessors b)) | None => 0 end in
  let lh := match lb with Some b => b_loop_header b | None => TURBOJS_SSA_NO_BLOCK end in
  let ph := match pb with Some b => b_loop_header b | None => TURBOJS_SSA_NO_BLOCK end in
  let pd := match pb with Some b => b_loop_depth b | None => 0 end in
  mkLoadCounts 1
    (b2n (negb (pi_feedback_generation (v_property load) =? 0) || negb (pi_feedback_generation (v_property prior) =? 0)))
    (b2n cross) (b2n (cross && unique))
    (b2n (cross && negb (pd =? 0)
          && ((lh =? v_block prior) || (negb (lh =? TURBOJS_SSA_NO_BLOCK) && (lh =? ph)))))
    (b2n (cross && join)) (b2n cross) (b2n (cross && invariant))
    (b2n (cross && join && (1 <? preds)))
    (b2n (same_property_alias_class prior load))
    (property_count_non_aliasing_stores g (Z.of_nat j + 1) i load).

Definition reserved_proof (v : TurboJSSSAValue) : bool * bool * bool :=
  let r i := negb (nth_case (pi_reserved (v_property v)) i =? 0) in (r 0%nat, r 1%nat, r 2%nat).

Definition eliminate_redundant_property_loads (mem : bool) (g : TurboJSSSAGraph) : TurboJSSSAGraph * LoadCounts :=
  foldl (fun '(g, counts) i =>
           match g_values g !! i with
           | Some load =>
               if negb (live TURBOJS_SSA_PROPERTY_LOAD load) || (pi_case_count (v_property load) =? 0) then (g, counts)
               else match reusable_load mem g (Z.of_nat i) load (reserved_proof load) i with
                    | Some (j, prior, proof) =>
                        (replace_and_remove g (Z.of_nat i) (Z.of_nat j),
                         add_counts counts (reuse_counts g (Z.of_nat i) j prior load proof))
                    | None => (g, counts)
                    end
           | None => (g, counts)
           end) (g, no_counts) (seq 0 (length (g_values g))).

(** ** Elements *)

Definition same_element_access (a b : TurboJSSSAValue) : bool :=
  (v_block a =? v_block b) && (v_left a =? v_left b) && (v_right a =? v_right b)
  && (ei_kind (v_element a) =? ei_kind (v_element b))
  && (ei_generation (v_element a) =? ei_generation (v_element b))
  && (ei_flags (v_element a) =? ei_flags (v_element b)).

(** The first [j < i] passing the test, scanning forward. *)
Definition first_before (g : TurboJSSSAGraph) (i : Z) (test : nat -> TurboJSSSAValue -> bool) : option Z :=
  match list_find (fun e : nat * TurboJSSSAValue => test e.1 e.2 = true) (imap pair (take (Z.to_nat i) (g_values g))) with
  | Some (j, _) => Some (Z.of_nat j)
  | None => None
  end.

Definition eliminate_redundant_element_loads (g : TurboJSSSAGraph) : TurboJSSSAGraph * Z :=
  for_values g (fun g i load =>
    if negb (live TURBOJS_SSA_ELEMENT_LOAD load) then (g, 0)
    else match first_before g i (fun j prior =>
           live TURBOJS_SSA_ELEMENT_LOAD prior && same_element_access prior load
           && negb (existsb (fun v => live TURBOJS_SSA_ELEMENT_STORE v && (v_left v =? v_left load))
                      (values_between g (Z.of_nat j + 1) i))) with
         | Some j => (replace_and_remove g i j, 1)
         | None => (g, 0)
         end).

Definition value_const_i64 (g : TurboJSSSAGraph) (id expected : Z) : bool :=
  match get_value g id with
  | Some v => live TURBOJS_SSA_CONSTANT_I64 v && (v_immediate v =? expected)
  | None => false
  end.

(** The limit of a canonical unit induction [phi(0, phi + 1)] compared by [<] in its block. *)
Definition canonical_unit_induction (g : TurboJSSSAGraph) (id : Z) : option Z :=
  let? phi := get_value g id in
  let? b := get_block g (v_block phi) in
  if negb (live TURBOJS_SSA_PHI phi) || (b_loop_depth b =? 0) then None
  else
    let? back := (if value_const_i64 g (v_left phi) 0 then Some (v_right phi)
                  else if value_const_i64 g (v_right phi) 0 then Some (v_left phi) else None) in
    let? update := get_value g back in
    if negb (live TURBOJS_SSA_ADD_I64 update) then None
    else if negb (((v_left update =? id) && value_const_i64 g (v_right update) 1)
                  || ((v_right update =? id) && value_const_i64 g (v_left update) 1)) then None
    else match list_find (fun cmp => live TURBOJS_SSA_LESS_THAN_I64 cmp && (v_block cmp =? v_block phi)
                                      && (v_left cmp =? id) = true) (g_values g) with
         | Some (_, cmp) => Some (v_right cmp)
         | None => None
         end.

Definition proven_range (limit : Z) (e : ElementInfo) : ElementInfo :=
  mkElement (ei_kind e) (ei_flags e) (ei_generation e) limit 0 INT32_MAX 1 true true true.

(** Counters: induction indexes, loop range proofs, canonical inductions. *)
Definition recognize_element_loop_ranges (g : TurboJSSSAGraph) : TurboJSSSAGraph * (Z * Z * Z) :=
  foldl (fun '(g, (induction, proofs, canonical)) i =>
           match g_values g !! i with
           | None => (g, (induction, proofs, canonical))
           | Some v =>
               if v_removed v || (negb (is_opcode TURBOJS_SSA_ELEMENT_LOAD v) && negb (is_opcode TURBOJS_SSA_ELEMENT_STORE v))
               then (g, (induction, proofs, canonical))
               else match get_value g (v_right v) with
               | None => (g, (induction, proofs, canonical))
               | Some idx =>
                   let indexed := bool_decide (v_type idx = TURBOJS_SSA_TYPE_INT32)
                                  || is_opcode TURBOJS_SSA_GUARD_INT32 idx || is_opcode TURBOJS_SSA_PHI idx in
                   let in_loop := match get_block g (v_block v) with Some b => 0 <? b_loop_depth b | None => false end in
                   let induction := induction + b2n indexed in
                   let proofs := proofs + b2n (indexed && in_loop) in
                   match canonical_unit_induction g (v_right v) with
                   | None => (g, (induction, proofs, canonical))
                   | Some limit =>
                       if negb (ei_length_value (v_element v) =? TURBOJS_SSA_NO_VALUE)
                          && negb (ei_length_value (v_element v) =? limit)
                       then (g, (induction, proofs, canonical))
                       else (update_value g (Z.of_nat i) (fun v => v_set_element (proven_range limit (v_element v)) v),
                             (induction, proofs, canonical + 1))
                   end
               end
           end) (g, (0, 0, 0)) (seq 0 (length (g_values g))).

(** ** Guards and common expressions *)

Definition eliminate_redundant_guards (g : TurboJSSSAGraph) : TurboJSSSAGraph * Z :=
  for_values g (fun g i guard =>
    if negb (live TURBOJS_SSA_GUARD_INT32 guard) then (g, 0)
    else match first_before g i (fun _ prior =>
           live TURBOJS_SSA_GUARD_INT32 prior && (v_block prior =? v_block guard) && (v_left prior =? v_left guard)) with
         | Some j => (replace_and_remove g i j, 1)
         | None => (g, 0)
         end).

Definition cse_candidate (v : TurboJSSSAValue) : bool :=
  match v_opcode v with
  | TURBOJS_SSA_CONSTANT_I64 | TURBOJS_SSA_ADD_I64 | TURBOJS_SSA_SUB_I64 | TURBOJS_SSA_MUL_I64
  | TURBOJS_SSA_AND_I64 | TURBOJS_SSA_OR_I64 | TURBOJS_SSA_XOR_I64
  | TURBOJS_SSA_SHL_I64 | TURBOJS_SSA_SAR_I64 | TURBOJS_SSA_SHR_I64
  | TURBOJS_SSA_LESS_THAN_I64 | TURBOJS_SSA_LESS_EQUAL_I64
  | TURBOJS_SSA_GREATER_THAN_I64 | TURBOJS_SSA_GREATER_EQUAL_I64 | TURBOJS_SSA_EQUAL_I64 => true
  | _ => false
  end.

Definition same_expression (a b : TurboJSSSAValue) : bool :=
  bool_decide (v_opcode a = v_opcode b) && bool_decide (v_type a = v_type b)
  && (v_left a =? v_left b) && (v_right a =? v_right b)
  && (v_immediate a =? v_immediate b) && (v_block a =? v_block b).

Definition eliminate_local_common_expressions (g : TurboJSSSAGraph) : TurboJSSSAGraph * Z :=
  for_values g (fun g i v =>
    if v_removed v || negb (cse_candidate v) then (g, 0)
    else match first_before g i (fun _ prior =>
           negb (v_removed prior) && cse_candidate prior && same_expression prior v) with
         | Some j => (replace_and_remove g i j, 1)
         | None => (g, 0)
         end).

(** ** Virtual objects *)

(** Down the chain of field stores: the value last stored in the field.
    Operands precede their users, so the chain is no longer than the graph. *)
Fixpoint virtual_field (fuel : nat) (g : TurboJSSSAGraph) (state field : Z) : option Z :=
  match fuel with
  | O => None
  | S fuel =>
      let? v := get_value g state in
      if v_removed v then None
      else if is_opcode TURBOJS_SSA_VIRTUAL_FIELD_STORE v
      then if uwrap 32 (v_immediate v) =? uwrap 32 field then Some (v_right v)
           else virtual_field fuel g (v_left v) field
      else None
  end.

(** The positions of the chain, field stores first and the object last. *)
Fixpoint virtual_chain (fuel : nat) (g : TurboJSSSAGraph) (state : Z) : list Z :=
  match fuel with
  | O => []
  | S fuel =>
      match get_value g state with
      | None => []
      | Some v =>
          if is_opcode TURBOJS_SSA_VIRTUAL_FIELD_STORE v then state :: virtual_chain fuel g (v_left v)
          else if is_opcode TURBOJS_SSA_VIRTUAL_OBJECT v then [state] else []
      end
  end.

(** Forwarded loads and scalarized objects; [mem] answers the allocation. *)
Definition scalarize_virtual_object_loads (mem : bool) (g : TurboJSSSAGraph) : TurboJSSSAGraph * (Z * Z) :=
  if (value_count g =? 0) || negb mem then (g, (0, 0))
  else
    let n := length (g_values g) in
    let '(g, forwarded, touched) :=
      foldl (fun '(g, forwarded, touched) i =>
               match g_values g !! i with
               | Some load =>
                   if negb (live TURBOJS_SSA_PROPERTY_LOAD load) then (g, forwarded, touched)
                   else match virtual_field (S n) g (v_left load) (v_immediate load) with
                   | Some r =>
                       if value_count g <=? r then (g, forwarded, touched)
                       else
                         let g' := replace_and_remove g (Z.of_nat i) r in
                         let g' := update_value g' r (fun v =>
                           if v_use_count v <? UINT32_MAX then v_set_uses (v_use_count v + 1) v else v) in
                         (g', forwarded + 1, virtual_chain (S n) g' (v_left load) ++ touched)
                   | None => (g, forwarded, touched)
                   end
               | None => (g, forwarded, touched)
               end) (g, 0, []) (seq 0 n) in
    let objects := Z.of_nat (length (filter (fun i =>
      bool_decide (Z.of_nat i ∈ touched) && match g_values g !! i with
                                   | Some v => is_opcode TURBOJS_SSA_VIRTUAL_OBJECT v
                                   | None => false end = true) (seq 0 n))) in
    (g, (forwarded, objects)).
