(* ===== verification/SSAOpt.v ===== *)
(** * The SSA optimizer (src/jit/optimizing/ssa.c)

    Type inference, speculation from feedback, constant and branch folding,
    the sequence of passes of [TurboJS_SSAOptimize], and dead-value removal.
    Two fuels bound loops of the C code: the sweeps of type inference, where
    running out is the result [None] (two sweeps settle a graph without
    phis), and the worklist of dead-value removal, which never holds more
    entries than the graph has values. *)

From S2P Require Import Prelude.
From S2P Require Import JitTypes.
From S2P Require Import Feedback.
From S2P Require Import SSA.
From S2P Require Import SSAMem.

(** ** Type inference *)

Definition merge_numeric_type (l r : TurboJSSSAType) : TurboJSSSAType :=
  if bool_decide (l = TURBOJS_SSA_TYPE_UNKNOWN) || bool_decide (r = TURBOJS_SSA_TYPE_UNKNOWN) then TURBOJS_SSA_TYPE_UNKNOWN
  else if bool_decide (l = TURBOJS_SSA_TYPE_FLOAT64) || bool_decide (r = TURBOJS_SSA_TYPE_FLOAT64) then TURBOJS_SSA_TYPE_FLOAT64
  else if bool_decide (l = TURBOJS_SSA_TYPE_INT64) || bool_decide (r = TURBOJS_SSA_TYPE_INT64) then TURBOJS_SSA_TYPE_INT64
  else if bool_decide (l = TURBOJS_SSA_TYPE_INT32) && bool_decide (r = TURBOJS_SSA_TYPE_INT32) then TURBOJS_SSA_TYPE_INT32
  else TURBOJS_SSA_TYPE_UNKNOWN.

(** [inferred] of one live value. *)
Definition infer_value (g : TurboJSSSAGraph) (v : TurboJSSSAValue) : TurboJSSSAType :=
  match v_opcode v with
  | TURBOJS_SSA_CONSTANT_I64 =>
      if in_i32 (v_immediate v) then TURBOJS_SSA_TYPE_INT32 else TURBOJS_SSA_TYPE_INT64
  | TURBOJS_SSA_LESS_THAN_I64 | TURBOJS_SSA_LESS_EQUAL_I64 | TURBOJS_SSA_GREATER_THAN_I64
  | TURBOJS_SSA_GREATER_EQUAL_I64 | TURBOJS_SSA_EQUAL_I64
  | TURBOJS_SSA_BRANCH_TRUE | TURBOJS_SSA_BRANCH_FALSE => TURBOJS_SSA_TYPE_BOOLEAN
  | TURBOJS_SSA_GUARD_INT32 => TURBOJS_SSA_TYPE_INT32
  | TURBOJS_SSA_VIRTUAL_OBJECT | TURBOJS_SSA_VIRTUAL_FIELD_STORE => TURBOJS_SSA_TYPE_REFERENCE
  | TURBOJS_SSA_ADD_I64 | TURBOJS_SSA_SUB_I64 | TURBOJS_SSA_MUL_I64
  | TURBOJS_SSA_AND_I64 | TURBOJS_SSA_OR_I64 | TURBOJS_SSA_XOR_I64
  | TURBOJS_SSA_SHL_I64 | TURBOJS_SSA_SAR_I64 | TURBOJS_SSA_SHR_I64 =>
      match get_value g (v_left v), get_value g (v_right v) with
      | Some l, Some r => merge_numeric_type (v_type l) (v_type r)
      | _, _ => v_type v
      end
  | TURBOJS_SSA_PHI =>
      match get_value g (v_left v), get_value g (v_right v) with
      | Some l, Some r => if decide (v_type l = v_type r) then v_type l else merge_numeric_type (v_type l) (v_type r)
      | _, _ => v_type v
      end
  | _ => v_type v
  end.

(** One sweep; the counter is the number of changed types. *)
Definition infer_sweep (g : TurboJSSSAGraph) : TurboJSSSAGraph * Z :=
  for_values g (fun g i v =>
    if v_removed v then (g, 0)
    else let t := infer_value g v in
         if bool_decide (t = TURBOJS_SSA_TYPE_UNKNOWN) || bool_decide (t = v_type v) then (g, 0)
         else (update_value g i (v_set_type t), 1)).

Fixpoint infer_loop (fuel : nat) (g : TurboJSSSAGraph) (total : Z) : option (TurboJSSSAGraph * Z) :=
  match fuel with
  | O => None
  | S fuel =>
      let '(g, changed) := infer_sweep g in
      if changed =? 0 then Some (g, total) else infer_loop fuel g (total + changed)
  end.

Definition TurboJS_SSAInferTypes (fuel : nat) (g : TurboJSSSAGraph) : option (TurboJSSSAGraph * Z) :=
  infer_loop fuel g 0.

(** ** Speculation *)

(** The loop over the values; new guards are appended behind it and are no
    arguments, so the loop runs over the values present at the start. *)
Fixpoint specialize_values (mem : Z -> bool) (fv : TurboJSFeedbackVector) (ids : list nat) (g : TurboJSSSAGraph)
    (guards : Z) : TurboJSIRStatus * TurboJSSSAGraph * Z :=
  match ids with
  | [] => (TURBOJS_IR_OK, g, guards)
  | i :: ids =>
      match g_values g !! i with
      | None => specialize_values mem fv ids g guards
      | Some a =>
          if negb (live TURBOJS_SSA_ARGUMENT a) then specialize_values mem fv ids g guards
          else if (v_immediate a <? 0) || (fv_argument_count fv <=? v_immediate a)
          then specialize_values mem fv ids g guards
          else match fv_arguments fv !! Z.to_nat (v_immediate a) with
          | None => specialize_values mem fv ids g guards
          | Some slot =>
              if negb (observed_types slot =? TURBOJS_FEEDBACK_INT32) || negb (TurboJS_FeedbackSlotIsStable slot)
              then specialize_values mem fv ids g guards
              else
                let g := update_value g (Z.of_nat i) (v_set_type TURBOJS_SSA_TYPE_INT32) in
                let '(g, id) := emit_value mem g (v_block a) TURBOJS_SSA_GUARD_INT32 TURBOJS_SSA_TYPE_INT32 (v_id a)
                                  TURBOJS_SSA_NO_VALUE (v_immediate a) (v_source_instruction a) in
                if id =? TURBOJS_SSA_NO_VALUE then (TURBOJS_IR_OUT_OF_MEMORY, g, guards)
                else
                  let g := update_value g id (v_set_deopt (g_deopt_exit_count g)) in
                  specialize_values mem fv ids
                    (mkGraph (g_values g) (g_value_capacity g) (g_blocks g) (g_block_capacity g) (g_entry_block g)
                       (g_deopt_exit_count g + 1)) (guards + 1)
          end
      end
  end.

Definition TurboJS_SSASpecializeFromFeedback (mem : Z -> bool) (g : TurboJSSSAGraph) (fv : TurboJSFeedbackVector)
    : TurboJSIRStatus * TurboJSSSAGraph * Z :=
  if block_count g =? 0 then (TURBOJS_IR_INVALID_ARGUMENT, g, 0)
  else specialize_values mem fv (seq 0 (length (g_values g))) g 0.

(** ** Folding *)

Definition is_const (v : TurboJSSSAValue) : bool := live TURBOJS_SSA_CONSTANT_I64 v.

(** The folded value of a binary operation, unless it overflows. *)
Definition fold_binary (op : TurboJSSSAOpcode) (l r : Z) : option Z :=
  let shift := Z.land r 63 in
  match op with
  | TURBOJS_SSA_LESS_THAN_I64 => Some (b2n (l <? r))
  | TURBOJS_SSA_LESS_EQUAL_I64 => Some (b2n (l <=? r))
  | TURBOJS_SSA_GREATER_THAN_I64 => Some (b2n (r <? l))
  | TURBOJS_SSA_GREATER_EQUAL_I64 => Some (b2n (r <=? l))
  | TURBOJS_SSA_EQUAL_I64 => Some (b2n (l =? r))
  | TURBOJS_SSA_ADD_I64 => c_i64 (l + r)
  | TURBOJS_SSA_SUB_I64 => c_i64 (l - r)
  | TURBOJS_SSA_AND_I64 => Some (Z.land l r)
  | TURBOJS_SSA_OR_I64 => Some (Z.lor l r)
  | TURBOJS_SSA_XOR_I64 => Some (Z.lxor l r)
  | TURBOJS_SSA_SHL_I64 => Some (swrap 64 (Z.shiftl (uwrap 64 l) shift))
  | TURBOJS_SSA_SAR_I64 => Some (Z.shiftr l shift)
  | TURBOJS_SSA_SHR_I64 => Some (swrap 64 (Z.shiftr (uwrap 64 l) shift))
  | TURBOJS_SSA_MUL_I64 => c_i64 (l * r)
  | _ => None
  end.

Definition foldable (op : TurboJSSSAOpcode) : bool :=
  match op with
  | TURBOJS_SSA_ADD_I64 | TURBOJS_SSA_SUB_I64 | TURBOJS_SSA_MUL_I64 | TURBOJS_SSA_AND_I64 | TURBOJS_SSA_OR_I64
  | TURBOJS_SSA_XOR_I64 | TURBOJS_SSA_SHL_I64 | TURBOJS_SSA_SAR_I64 | TURBOJS_SSA_SHR_I64
  | TURBOJS_SSA_LESS_THAN_I64 | TURBOJS_SSA_LESS_EQUAL_I64 | TURBOJS_SSA_GREATER_THAN_I64
  | TURBOJS_SSA_GREATER_EQUAL_I64 | TURBOJS_SSA_EQUAL_I64 => true
  | _ => false
  end.

(** The immediate of a live constant. *)
Definition const_of (g : TurboJSSSAGraph) (id : Z) : option Z :=
  match get_value g id with
  | Some v => if is_const v then Some (v_immediate v) else None
  | None => None
  end.

Definition fold_constant (g : TurboJSSSAGraph) (i : Z) (v : TurboJSSSAValue) : TurboJSSSAGraph * Z :=
  if negb (foldable (v_opcode v)) then (g, 0)
  else match const_of g (v_left v), const_of g (v_right v) with
  | Some l, Some r =>
      match fold_binary (v_opcode v) l r with
      | Some folded =>
          let g := drop_use (drop_use g (v_left v)) (v_right v) in
          (update_value g i (fun v =>
             v_set_operands TURBOJS_SSA_NO_VALUE TURBOJS_SSA_NO_VALUE
               (v_set_immediate folded (v_set_opcode TURBOJS_SSA_CONSTANT_I64 v))), 1)
      | None => (g, 0)
      end
  | _, _ => (g, 0)
  end.

Definition fold_branch (g : TurboJSSSAGraph) (i : Z) (v : TurboJSSSAValue) : TurboJSSSAGraph * Z :=
  if negb (is_opcode TURBOJS_SSA_BRANCH_TRUE v) && negb (is_opcode TURBOJS_SSA_BRANCH_FALSE v) then (g, 0)
  else match const_of g (v_left v), get_block g (v_block v) with
  | Some c, Some b =>
      let take := xorb (negb (c =? 0)) (is_opcode TURBOJS_SSA_BRANCH_FALSE v) in
      let chosen := if take then uwrap 32 (v_immediate v)
                    else match b_successors b with _ :: s :: _ => s | _ => TURBOJS_SSA_NO_BLOCK end in
      if chosen <? block_count g then
        let g := drop_use g (v_left v) in
        let g := update_value g i (fun v =>
          v_set_immediate chosen
            (v_set_operands TURBOJS_SSA_NO_VALUE TURBOJS_SSA_NO_VALUE (v_set_opcode TURBOJS_SSA_JUMP v))) in
        (update_block g (v_block v) (fun b => b_set_edges (b_predecessors b) [chosen] b), 1)
      else (g, 0)
  | _, _ => (g, 0)
  end.

(** The folding loop: constants, then branches, value by value. *)
Definition fold_loop (g : TurboJSSSAGraph) : TurboJSSSAGraph * (Z * Z) :=
  foldl (fun '(g, (constants, branches)) i =>
           match g_values g !! i with
           | Some v =>
               if v_removed v then (g, (constants, branches))
               else
                 let '(g, c) := fold_constant g (Z.of_nat i) v in
                 match g_values g !! i with
                 | Some v => let '(g, b) := fold_branch g (Z.of_nat i) v in (g, (constants + c, branches + b))
                 | None => (g, (constants + c, branches))
                 end
           | None => (g, (constants, branches))
           end) (g, (0, 0)) (seq 0 (length (g_values g))).

(** ** Dead values *)

Definition removable_value (v : TurboJSSSAValue) : bool :=
  match v_opcode v with
  | TURBOJS_SSA_RETURN | TURBOJS_SSA_ARGUMENT | TURBOJS_SSA_JUMP | TURBOJS_SSA_BRANCH_TRUE | TURBOJS_SSA_BRANCH_FALSE
  | TURBOJS_SSA_GUARD_INT32 | TURBOJS_SSA_PROPERTY_STORE | TURBOJS_SSA_ELEMENT_STORE => false
  | _ => true
  end.

Definition dead (v : TurboJSSSAValue) : bool := negb (v_removed v) && (v_use_count v =? 0) && removable_value v.

(** The initial worklist, top of the stack first. *)
Definition dead_values (g : TurboJSSSAGraph) : list Z :=
  reverse (map Z.of_nat (filter (fun i => match g_values g !! i with Some v => dead v | None => false end = true)
                           (seq 0 (length (g_values g))))).

(** One operand of a removed value: it loses a use, and may die. *)
Definition release_input (g : TurboJSSSAGraph) (work : list Z) (input : Z) : TurboJSSSAGraph * list Z :=
  match get_value g input with
  | Some v =>
      if v_use_count v =? 0 then (g, work)
      else
        let v := v_set_uses (v_use_count v - 1) v in
        (update_value g input (fun _ => v), if dead v then input :: work else work)
  | None => (g, work)
  end.

(** [None]: the worklist would outgrow the array of [value_count] entries, or
    the fuel ran out. *)
Fixpoint dce_loop (fuel : nat) (g : TurboJSSSAGraph) (work : list Z) (removed : Z) : option (TurboJSSSAGraph * Z) :=
  match work with
  | [] => Some (g, removed)
  | id :: work =>
      match fuel, get_value g id with
      | S fuel, Some v =>
          if dead v then
            let g := update_value g id v_remove in
            let '(g, work) := release_input g work (v_left v) in
            let '(g, work) := release_input g work (v_right v) in
            if (length (g_values g) <? length work)%nat then None else dce_loop fuel g work (removed + 1)
          else dce_loop fuel g work removed
      | _, _ => None
      end
  end.

(** [mem] answers the worklist's allocation. *)
Definition eliminate_dead_values (mem : bool) (g : TurboJSSSAGraph) : option (TurboJSSSAGraph * Z) :=
  if negb mem then Some (g, 0) else dce_loop (length (g_values g)) g (dead_values g) 0.

Definition remove_unreachable_blocks (g : TurboJSSSAGraph) : TurboJSSSAGraph * Z :=
  (g_set_blocks g (map (fun b => if b_reachable b then b else b_remove b) (g_blocks g)),
   Z.of_nat (length (filter (fun b => negb (b_reachable b) && negb (b_removed b) = true) (g_blocks g)))).

(** ** The optimizer *)

Record TurboJSSSAOptimizationStats := mkSSAStats {
  st_constants_folded : Z;
  st_values_removed : Z;
  st_branches_folded : Z;
  st_blocks_removed : Z;
  st_types_inferred : Z;
  st_expressions_eliminated : Z;
  st_guards_eliminated : Z;
  st_property_store_forwardings : Z;
  st_property_store_phis : Z;
  st_property_dead_stores_eliminated : Z;
  st_virtual : Z * Z;                (* forwarded field loads, scalarized objects *)
  st_property_loads : LoadCounts;
  st_element_bounds_checks_eliminated : Z;
  st_element_ranges : Z * Z * Z
}.

(** Allocator answers of the optimizer: the virtual-object flags, the path
    searches, the worklist. *)
Record OptMemory := mkOptMemory { om_virtual : bool; om_paths : bool; om_worklist : bool }.

(** The passes between folding and reachability. *)
Definition memory_passes (mem : OptMemory) (g : TurboJSSSAGraph) : TurboJSSSAGraph * TurboJSSSAOptimizationStats :=
  let '(g, expressions) := eliminate_local_common_expressions g in
  let '(g, virtual) := scalarize_virtual_object_loads (om_virtual mem) g in
  let '(g, dead_stores) := eliminate_overwritten_property_stores g in
  let '(g, phis) := create_property_store_phis g in
  let '(g, forwardings) := forward_property_stores_to_loads g in
  let '(g, loads) := eliminate_redundant_property_loads (om_paths mem) g in
  let '(g, elements) := eliminate_redundant_element_loads g in
  let '(g, ranges) := recognize_element_loop_ranges g in
  let '(g, guards) := eliminate_redundant_guards g in
  (g, mkSSAStats 0 (expressions + lc_eliminated loads + forwardings + phis + dead_stores + virtual.1 + elements + guards)
        0 0 0 expressions guards forwardings phis dead_stores virtual loads elements ranges).

Definition TurboJS_SSAOptimize (fuel : nat) (mem : OptMemory) (g : TurboJSSSAGraph)
    : option (TurboJSSSAGraph * TurboJSSSAOptimizationStats) :=
  let? (g, types1) := TurboJS_SSAInferTypes fuel g in
  let '(g, (constants, branches)) := fold_loop g in
  let? (g, types2) := TurboJS_SSAInferTypes fuel g in
  let '(g, s) := memory_passes mem g in
  let g := mark_reachable g in
  let '(g, blocks) := remove_unreachable_blocks g in
  let? (g, removed) := eliminate_dead_values (om_worklist mem) g in
  Some (g, mkSSAStats constants (st_values_removed s + removed) branches blocks (types1 + types2)
             (st_expressions_eliminated s) (st_guards_eliminated s) (st_property_store_forwardings s)
             (st_property_store_phis s) (st_property_dead_stores_eliminated s) (st_virtual s) (st_property_loads s)
             (st_element_bounds_checks_eliminated s) (st_element_ranges s)).
