(* ===== verification/SSACorrect.v ===== *)
(** * Correctness of the SSA optimizer on straight-line graphs

    A valuation [rho] gives every value id the number it computes, with 0 for
    [TURBOJS_SSA_NO_VALUE] (an unwritten register).  A graph is explained by
    [rho] when every live value is consistent with it: constants carry it,
    operations compute it from their operands, and returns deliver the
    result.  Each pass of [TurboJS_SSAOptimize] keeps the graph explained by
    the same valuation, so the optimized graph delivers the same result. *)

From S2P Require Import Prelude.
From S2P Require Import JitTypes.
From S2P Require Import SSA.
From S2P Require Import SSAMem.
From S2P Require Import SSAOpt.

(** ** Counting uses *)

Definition uses (u : Z) (vs : list TurboJSSSAValue) : Z := foldr Z.add 0 (map (replacements u) vs).

Lemma replacements_bounds u v : 0 <= replacements u v <= 2.
Proof. unfold replacements. repeat case_match; lia. Qed.

Lemma uses_nonneg u vs : 0 <= uses u vs.
Proof. unfold uses. induction vs as [|v vs IH]; simpl; [done|]. pose proof (replacements_bounds u v). lia. Qed.

Lemma uses_app u vs ws : uses u (vs ++ ws) = uses u vs + uses u ws.
Proof. unfold uses. induction vs as [|v vs IH]; simpl; [done|]. lia. Qed.

Lemma uses_cons u v vs : uses u (v :: vs) = replacements u v + uses u vs.
Proof. done. Qed.

Lemma uses_member u vs i v : vs !! i = Some v -> replacements u v <= uses u vs.
Proof.
  revert i. induction vs as [|w vs IH]; intros [|i] Hi; simpl in *; simplify_eq; rewrite uses_cons.
  - pose proof (uses_nonneg u vs). lia.
  - specialize (IH _ Hi). pose proof (replacements_bounds u w). lia.
Qed.

Lemma uses_alter u f vs i v :
  vs !! i = Some v -> uses u (alter f i vs) = uses u vs - replacements u v + replacements u (f v).
Proof.
  revert i. induction vs as [|w vs IH]; intros [|i] Hi; try discriminate.
  - injection Hi as ->. change (alter f 0%nat (v :: vs)) with (f v :: vs). rewrite !uses_cons. lia.
  - change (alter f (S i) (w :: vs)) with (w :: alter f i vs). rewrite !uses_cons, (IH i) by exact Hi. lia.
Qed.

Lemma list_alter_out {A} (f : A -> A) (l : list A) i : l !! i = None -> alter f i l = l.
Proof.
  intros Hi. apply list_eq. intros k. rewrite list_lookup_alter. case_decide; [|done]. subst. by rewrite Hi.
Qed.

(** Updates that keep operands and liveness keep the counts. *)
Definition keeps_uses (f : TurboJSSSAValue -> TurboJSSSAValue) : Prop :=
  forall v, v_left (f v) = v_left v /\ v_right (f v) = v_right v /\ v_removed (f v) = v_removed v.

Lemma uses_alter_keep u f vs i : keeps_uses f -> uses u (alter f i vs) = uses u vs.
Proof.
  intros Hf. destruct (vs !! i) as [v|] eqn:Hi.
  - rewrite (uses_alter u f vs i v Hi). destruct (Hf v) as (Hl & Hr & Hm). unfold replacements. rewrite Hl, Hr, Hm. lia.
  - by rewrite list_alter_out.
Qed.

(** ** Explained graphs *)

Section Explained.
Context (arguments : list Z) (result : Z).

Definition explains (rho : Z -> Z) (v : TurboJSSSAValue) : Prop :=
  match v_opcode v with
  | TURBOJS_SSA_ARGUMENT => 0 <= v_immediate v /\ arguments !! Z.to_nat (v_immediate v) = Some (rho (v_id v))
  | TURBOJS_SSA_CONSTANT_I64 => rho (v_id v) = v_immediate v
  | TURBOJS_SSA_GUARD_INT32 => rho (v_id v) = rho (v_left v)
  | TURBOJS_SSA_RETURN => rho (v_left v) = result
  | op => foldable op = true /\ fold_binary op (rho (v_left v)) (rho (v_right v)) = Some (rho (v_id v))
  end.

(** An operand of the value at position [i]: absent, or an earlier live value
    that computes a number. *)
Definition operand_ok (vs : list TurboJSSSAValue) (i : nat) (o : Z) : Prop :=
  o = TURBOJS_SSA_NO_VALUE \/
  (0 <= o < Z.of_nat i /\
   exists w, vs !! Z.to_nat o = Some w /\ v_removed w = false /\ v_opcode w <> TURBOJS_SSA_RETURN
             /\ v_opcode w <> TURBOJS_SSA_GUARD_INT32).

(** Operations without operands leave the operand fields empty. *)
Definition nullary (op : TurboJSSSAOpcode) : bool :=
  match op with TURBOJS_SSA_ARGUMENT | TURBOJS_SSA_CONSTANT_I64 => true | _ => false end.

Record straight (rho : Z -> Z) (vs : list TurboJSSSAValue) : Prop := {
  s_size : Z.of_nat (length vs) < TURBOJS_SSA_NO_VALUE;
  s_zero : rho TURBOJS_SSA_NO_VALUE = 0;
  s_ids : forall i v, vs !! i = Some v -> v_id v = Z.of_nat i;
  s_explained : forall i v, vs !! i = Some v -> v_removed v = false -> explains rho v;
  s_operands : forall i v, vs !! i = Some v -> v_removed v = false ->
    operand_ok vs i (v_left v) /\ operand_ok vs i (v_right v);
  s_nullary : forall i v, vs !! i = Some v -> nullary (v_opcode v) = true ->
    v_left v = TURBOJS_SSA_NO_VALUE /\ v_right v = TURBOJS_SSA_NO_VALUE;
  s_arguments_first : forall i j vi vj, (i < j)%nat -> vs !! i = Some vi -> vs !! j = Some vj ->
    v_opcode vj = TURBOJS_SSA_ARGUMENT -> v_opcode vi = TURBOJS_SSA_ARGUMENT;
  s_arguments_live : forall i v, vs !! i = Some v -> v_opcode v = TURBOJS_SSA_ARGUMENT -> v_removed v = false
}.

(** Reference counts cover the live uses, with [extra] to spare. *)
Definition covered (extra : Z -> Z) (vs : list TurboJSSSAValue) : Prop :=
  forall i v, vs !! i = Some v -> uses (Z.of_nat i) vs + extra (Z.of_nat i) <= v_use_count v.

Definition has_return (vs : list TurboJSSSAValue) : Prop :=
  exists i v, vs !! i = Some v /\ v_removed v = false /\ v_opcode v = TURBOJS_SSA_RETURN.

(** Live values of an explained graph have one of these opcodes. *)
Lemma explains_opcode rho v :
  explains rho v ->
  v_opcode v ∈ [TURBOJS_SSA_ARGUMENT; TURBOJS_SSA_CONSTANT_I64; TURBOJS_SSA_GUARD_INT32; TURBOJS_SSA_RETURN]
  \/ foldable (v_opcode v) = true.
Proof. unfold explains. destruct (v_opcode v); intros H; try (by right); try (left; set_solver); by destruct H. Qed.

Lemma operand_mono vs ws i o :
  (forall k w, (k < i)%nat -> vs !! k = Some w -> v_removed w = false -> v_opcode w <> TURBOJS_SSA_RETURN ->
     v_opcode w <> TURBOJS_SSA_GUARD_INT32 ->
     exists w', ws !! k = Some w' /\ v_removed w' = false /\ v_opcode w' <> TURBOJS_SSA_RETURN /\ v_opcode w' <> TURBOJS_SSA_GUARD_INT32) ->
  operand_ok vs i o -> operand_ok ws i o.
Proof.
  intros H [->|(Ho & w & Hw & Hr & Ho1 & Ho2)]; [by left|right]. split; [done|]. eapply H; eauto. lia.
Qed.

(** ** Updates that keep a graph explained *)

(** Types, use counts and guard data do not matter. *)
Record same_meaning (v w : TurboJSSSAValue) : Prop := {
  sm_opcode : v_opcode w = v_opcode v;
  sm_id : v_id w = v_id v;
  sm_left : v_left w = v_left v;
  sm_right : v_right w = v_right v;
  sm_immediate : v_immediate w = v_immediate v;
  sm_removed : v_removed w = v_removed v
}.

Lemma same_meaning_refl v : same_meaning v v.
Proof. done. Qed.

Lemma same_meaning_explains rho v w : same_meaning v w -> explains rho v -> explains rho w.
Proof. intros [Ho Hi Hl Hr Hm _]. unfold explains. by rewrite Ho, Hi, Hl, Hr, Hm. Qed.

Lemma straight_same rho vs f i :
  (forall v, vs !! i = Some v -> same_meaning v (f v)) -> straight rho vs -> straight rho (alter f i vs).
Proof.
  intros Hf [Hsz Hz Hid Hex Hop Hnull Hargs Hlive].
  assert (Hget : forall k w, alter f i vs !! k = Some w -> exists v, vs !! k = Some v /\ same_meaning v w).
  { intros k w. rewrite list_lookup_alter. case_decide; [subst|eauto using same_meaning_refl].
    destruct (vs !! k) as [v|] eqn:Hv; simpl; intros; simplify_eq. eauto. }
  assert (Hput : forall k v, vs !! k = Some v -> exists w, alter f i vs !! k = Some w /\ same_meaning v w).
  { intros k v Hv. rewrite list_lookup_alter. case_decide; [subst|eauto using same_meaning_refl].
    rewrite Hv. simpl. eauto. }
  split; try done.
  - by rewrite length_alter.
  - intros k w (v & Hv & Hm)%Hget. rewrite (sm_id _ _ Hm). eauto.
  - intros k w (v & Hv & Hm)%Hget Hr. rewrite (sm_removed _ _ Hm) in Hr. eapply same_meaning_explains; eauto.
  - intros k w (v & Hv & Hm)%Hget Hr. rewrite (sm_removed _ _ Hm) in Hr.
    rewrite (sm_left _ _ Hm), (sm_right _ _ Hm). destruct (Hop k v Hv Hr).
    split; (eapply operand_mono; [|eassumption]); intros j x _ (y & Hy & Hxy)%Hput Hx1 Hx2 Hx3;
      exists y; rewrite (sm_removed _ _ Hxy), (sm_opcode _ _ Hxy); done.
  - intros k w (v & Hv & Hm)%Hget Hn. rewrite (sm_left _ _ Hm), (sm_right _ _ Hm).
    rewrite (sm_opcode _ _ Hm) in Hn. eauto.
  - intros j k vj vk Hjk (x & Hx & Hxm)%Hget (y & Hy & Hym)%Hget Ha.
    rewrite (sm_opcode _ _ Hym) in Ha. rewrite (sm_opcode _ _ Hxm). eauto.
  - intros k w (v & Hv & Hm)%Hget Ha. rewrite (sm_opcode _ _ Hm) in Ha. rewrite (sm_removed _ _ Hm). eauto.
Qed.

Lemma has_return_same vs f i :
  (forall v, vs !! i = Some v -> same_meaning v (f v)) -> has_return vs -> has_return (alter f i vs).
Proof.
  intros Hf (k & v & Hv & Hr & Ho). exists k. rewrite list_lookup_alter. case_decide; [subst|eauto].
  exists (f v). rewrite Hv. destruct (Hf v Hv) as [Hop _ _ _ _ Hrm]. by rewrite Hop, Hrm.
Qed.

Lemma covered_same extra vs f i :
  (forall v, vs !! i = Some v -> same_meaning v (f v) /\ v_use_count v <= v_use_count (f v)) ->
  covered extra vs -> covered extra (alter f i vs).
Proof.
  intros Hf Hc k w Hw.
  assert (Hu : uses (Z.of_nat k) (alter f i vs) = uses (Z.of_nat k) vs).
  { destruct (vs !! i) as [v|] eqn:Hv; [|by rewrite list_alter_out].
    rewrite (uses_alter _ _ _ _ _ Hv). destruct (Hf v eq_refl) as [[_ _ Hl Hr _ Hm] _].
    unfold replacements. rewrite Hl, Hr, Hm. lia. }
  rewrite Hu. rewrite list_lookup_alter in Hw. case_decide; [subst|by apply Hc].
  destruct (vs !! k) as [v|] eqn:Hv; simplify_eq/=. specialize (Hc k v Hv). destruct (Hf v eq_refl). lia.
Qed.

(** *** Replacing one value *)

Definition produces (v : TurboJSSSAValue) : Prop :=
  v_removed v = false /\ v_opcode v <> TURBOJS_SSA_RETURN /\ v_opcode v <> TURBOJS_SSA_GUARD_INT32.

Lemma unused_operand vs i k v :
  uses (Z.of_nat i) vs = 0 -> vs !! k = Some v -> v_removed v = false ->
  v_left v <> Z.of_nat i /\ v_right v <> Z.of_nat i.
Proof.
  intros Hu Hv Hr. pose proof (uses_member (Z.of_nat i) vs k v Hv) as Hm.
  unfold replacements in Hm. rewrite Hr, Hu in Hm.
  destruct (Z.eqb_spec (v_left v) (Z.of_nat i)), (Z.eqb_spec (v_right v) (Z.of_nat i)); lia || done.
Qed.

Lemma straight_replace rho vs i v w :
  vs !! i = Some v -> straight rho vs -> v_id w = v_id v ->
  (v_removed w = false -> explains rho w /\ operand_ok vs i (v_left w) /\ operand_ok vs i (v_right w)) ->
  (nullary (v_opcode w) = true -> v_left w = TURBOJS_SSA_NO_VALUE /\ v_right w = TURBOJS_SSA_NO_VALUE) ->
  (v_opcode w = TURBOJS_SSA_ARGUMENT <-> v_opcode v = TURBOJS_SSA_ARGUMENT) ->
  (v_opcode w = TURBOJS_SSA_ARGUMENT -> v_removed w = false) ->
  (produces v -> produces w) \/ uses (Z.of_nat i) vs = 0 ->
  straight rho (<[i := w]> vs).
Proof.
  intros Hv [Hsz Hz Hid Hex Hop Hnull Hargs Hlive] Hwid Hw Hwn Hwa Hwl Hprod.
  assert (Hlt : (i < length vs)%nat) by (by eapply lookup_lt_Some).
  assert (Hget : forall k x, <[i := w]> vs !! k = Some x -> k = i /\ x = w \/ k <> i /\ vs !! k = Some x).
  { intros k x. rewrite list_lookup_insert. case_decide as Hd; [|intros; right; split; [|done]; naive_solver].
    destruct Hd as [-> _]. intros [= ->]. by left. }
  assert (Hopk : forall k x o, vs !! k = Some x -> v_removed x = false -> o = v_left x \/ o = v_right x ->
            operand_ok vs k o -> operand_ok (<[i := w]> vs) k o).
  { intros k x o Hx Hr Ho [->|(Hlo & y & Hy & Hpy)]; [by left|right]. split; [done|].
    destruct (decide (Z.to_nat o = i)) as [Heq|Hne].
    - destruct Hprod as [Hp|Hu].
      + exists w. rewrite Heq, list_lookup_insert_eq by done. split; [done|]. apply Hp.
        rewrite Heq in Hy. simplify_eq. exact Hpy.
      + exfalso. destruct (unused_operand vs i k x Hu Hx Hr). lia.
    - exists y. by rewrite list_lookup_insert_ne. }
  split; try done.
  - by rewrite length_insert.
  - intros k x [[-> ->]|[Hk Hx]]%Hget; [rewrite Hwid|]; eauto.
  - intros k x [[-> ->]|[Hk Hx]]%Hget Hr; [by apply Hw|eauto].
  - intros k x [[-> ->]|[Hk Hx]]%Hget Hr.
    + destruct (Hw Hr) as (_ & Hl & Hr').
      assert (Hm : forall o, operand_ok vs i o -> operand_ok (<[i := w]> vs) i o).
      { intros o. apply operand_mono. intros j y Hj Hy ? ? ?. exists y. rewrite list_lookup_insert_ne by lia. done. }
      split; by apply Hm.
    + destruct (Hop k x Hx Hr). split; eapply Hopk; eauto.
  - intros k x [[-> ->]|[Hk Hx]]%Hget Hn; eauto.
  - intros j k vj vk Hjk [[-> ->]|[Hj Hxj]]%Hget [[-> ->]|[Hk Hxk]]%Hget Ha; try lia; rewrite ?Hwa in *; eauto.
  - intros k x [[-> ->]|[Hk Hx]]%Hget Ha; eauto.
Qed.

(** Dropping one use of [u]. *)
Definition decr (v : TurboJSSSAValue) : TurboJSSSAValue :=
  if v_use_count v =? 0 then v else v_set_uses (v_use_count v - 1) v.

Lemma decr_same v : same_meaning v (decr v).
Proof. unfold decr. by case_match. Qed.

Lemma drop_use_values g id : g_values (drop_use g id) = alter decr (Z.to_nat id) (g_values g).
Proof.
  unfold drop_use. destruct (Z.ltb_spec id (value_count g)) as [Hlt|Hge]; [done|].
  symmetry. apply list_alter_out, lookup_ge_None_2. unfold value_count in Hge. lia.
Qed.

Lemma covered_drop extra vs u :
  (forall k, 0 <= extra k) -> 0 <= u -> covered (fun k => (if u =? k then 1 else 0) + extra k) vs ->
  covered extra (alter decr (Z.to_nat u) vs).
Proof.
  intros He Hu Hc k w Hw.
  assert (Heq : uses (Z.of_nat k) (alter decr (Z.to_nat u) vs) = uses (Z.of_nat k) vs).
  { apply uses_alter_keep. intros v. unfold decr. by case_match. }
  rewrite Heq. rewrite list_lookup_alter in Hw. case_decide as Hd.
  - destruct (vs !! Z.to_nat u) as [v|] eqn:Hv; simplify_eq/=.
    specialize (Hc _ _ Hv). rewrite Z2Nat.id, Z.eqb_refl in * by done.
    pose proof (uses_nonneg u vs). specialize (He u). unfold decr. destruct (Z.eqb_spec (v_use_count v) 0); simpl; lia.
  - specialize (Hc _ _ Hw). simpl in Hc. rewrite (proj2 (Z.eqb_neq u _)) in Hc by lia. lia.
Qed.

(** Taking a value's operands away leaves their uses to spare. *)
Lemma covered_detach vs i v w :
  vs !! i = Some v -> v_use_count v <= v_use_count w ->
  (forall k, (k < length vs)%nat -> replacements (Z.of_nat k) w = 0) ->
  covered (fun _ => 0) vs -> covered (fun k => replacements k v) (<[i := w]> vs).
Proof.
  intros Hv Huc Hw Hc k x Hx. apply lookup_lt_Some in Hx as Hk. rewrite length_insert in Hk.
  rewrite list_insert_alter, (uses_alter _ _ _ _ _ Hv), Hw by done.
  rewrite list_lookup_insert in Hx. case_decide as Hd.
  - destruct Hd as [-> _]. simplify_eq. specialize (Hc _ _ Hv). cbv beta in *. lia.
  - specialize (Hc _ _ Hx). cbv beta in *. lia.
Qed.

(** Detaching the value at [i] and releasing its two operands. *)
Lemma covered_release vs i v w :
  vs !! i = Some v -> v_removed v = false -> v_use_count v <= v_use_count w -> 0 <= v_left v -> 0 <= v_right v ->
  (forall k, (k < length vs)%nat -> replacements (Z.of_nat k) w = 0) ->
  covered (fun _ => 0) vs ->
  covered (fun _ => 0) (alter decr (Z.to_nat (v_right v)) (alter decr (Z.to_nat (v_left v)) (<[i := w]> vs))).
Proof.
  intros Hv Hr Huc Hl0 Hr0 Hw Hc. apply covered_drop; [done|done|]. apply covered_drop; [intros; case_match; lia|done|].
  intros k x Hx. pose proof (covered_detach vs i v w Hv Huc Hw Hc k x Hx) as H.
  cbv beta in *. unfold replacements in H. rewrite Hr in H. lia.
Qed.

Lemma has_return_insert vs i v w :
  vs !! i = Some v -> v_opcode v <> TURBOJS_SSA_RETURN -> has_return vs -> has_return (<[i := w]> vs).
Proof.
  intros Hv Ho (k & x & Hx & Hr & Hop). exists k, x. split; [|done].
  rewrite list_lookup_insert_ne; [done|]. intros ->. congruence.
Qed.

Lemma has_return_decr vs u : has_return vs -> has_return (alter decr u vs).
Proof. apply has_return_same. auto using decr_same. Qed.
Lemma straight_decr rho vs u : straight rho vs -> straight rho (alter decr u vs).
Proof. apply straight_same. auto using decr_same. Qed.

(** The graphs the optimizer keeps: explained, covered, with a return. *)
Record sound (rho : Z -> Z) (g : TurboJSSSAGraph) : Prop := {
  snd_straight : straight rho (g_values g);
  snd_covered : covered (fun _ => 0) (g_values g);
  snd_return : has_return (g_values g)
}.

Lemma operand_nonneg vs i o : operand_ok vs i o -> 0 <= o.
Proof. intros [->|[? _]]; [done|lia]. Qed.

(** An operand that is in range is a live earlier value. *)
Lemma operand_get rho vs i o w :
  straight rho vs -> operand_ok vs i o -> vs !! Z.to_nat o = Some w ->
  0 <= o < Z.of_nat i /\ v_removed w = false /\ v_id w = o.
Proof.
  intros Hs [->|(Ho & x & Hx & Hr & _)] Hw.
  - apply lookup_lt_Some in Hw. pose proof (s_size _ _ Hs). unfold TURBOJS_SSA_NO_VALUE, UINT32_MAX in *. lia.
  - assert (x = w) as -> by congruence. split; [done|]. split; [done|]. rewrite (s_ids _ _ Hs _ _ Hw). lia.
Qed.

Lemma const_operand rho g i o c :
  straight rho (g_values g) -> operand_ok (g_values g) i o -> const_of g o = Some c ->
  rho o = c /\ 0 <= o < Z.of_nat i.
Proof.
  intros Hs Ho Hc. unfold const_of in Hc. rewrite get_value_lookup in Hc. destruct (g_values g !! Z.to_nat o) as [w|] eqn:Hw; [|done].
  destruct (operand_get rho _ _ _ _ Hs Ho Hw) as (Hr & Hm & Hid).
  unfold is_const, live, is_opcode in Hc. rewrite Hm in Hc. simpl in Hc. case_bool_decide as Hop; simplify_eq.
  split; [|done]. pose proof (s_explained _ _ Hs _ _ Hw Hm) as Hex. unfold explains in Hex. rewrite Hop in Hex. congruence.
Qed.

Definition to_constant (folded : Z) (v : TurboJSSSAValue) : TurboJSSSAValue :=
  v_set_operands TURBOJS_SSA_NO_VALUE TURBOJS_SSA_NO_VALUE (v_set_immediate folded (v_set_opcode TURBOJS_SSA_CONSTANT_I64 v)).

Lemma list_alter_at {A} (f : A -> A) (l : list A) i x : l !! i = Some x -> alter f i l = <[i := f x]> l.
Proof. intros Hx. rewrite list_insert_alter. eapply list_alter_ext; [|done]. intros y. congruence. Qed.

Lemma no_operand_uses v n k :
  v_left v = TURBOJS_SSA_NO_VALUE -> v_right v = TURBOJS_SSA_NO_VALUE -> n < TURBOJS_SSA_NO_VALUE ->
  Z.of_nat k < n -> replacements (Z.of_nat k) v = 0.
Proof. intros Hl Hr Hn Hk. unfold replacements. rewrite Hl, Hr. case_match; [done|]. rewrite (proj2 (Z.eqb_neq _ _)) by lia. done. Qed.

Lemma fold_constant_sound rho g i v :
  sound rho g -> g_values g !! i = Some v -> v_removed v = false -> sound rho (fold_constant g (Z.of_nat i) v).1.
Proof.
  intros [Hs Hc Hret] Hv Hr. unfold fold_constant. destruct (foldable (v_opcode v)) eqn:Hf; simpl; [|done].
  destruct (s_operands _ _ Hs _ _ Hv Hr) as [Hol Hor].
  destruct (const_of g (v_left v)) as [l|] eqn:Hl; [|done]. destruct (const_of g (v_right v)) as [r|] eqn:Hrr; [|done].
  destruct (const_operand rho g i _ _ Hs Hol Hl) as [Hrl Hll]. destruct (const_operand rho g i _ _ Hs Hor Hrr) as [Hrr' Hlr].
  assert (Hval : fold_binary (v_opcode v) l r = Some (rho (v_id v))).
  { pose proof (s_explained _ _ Hs _ _ Hv Hr) as Hex. unfold explains in Hex. rewrite Hrl, Hrr' in Hex.
    destruct (v_opcode v); try discriminate; apply Hex. }
  rewrite Hval. simpl.
  set (w := to_constant (rho (v_id v)) v).
  assert (Hgv : alter (to_constant (rho (v_id v))) (Z.to_nat (Z.of_nat i)) (g_values (drop_use (drop_use g (v_left v)) (v_right v)))
     = alter decr (Z.to_nat (v_right v)) (alter decr (Z.to_nat (v_left v)) (<[i := w]> (g_values g)))).
  { rewrite !drop_use_values, Nat2Z.id. rewrite list_alter_alter_ne by lia. f_equal.
    rewrite list_alter_alter_ne by lia. f_equal. by apply list_alter_at. }
  assert (Hlen : Z.of_nat (length (g_values g)) < TURBOJS_SSA_NO_VALUE) by apply Hs.
  assert (Hne : v_opcode v <> TURBOJS_SSA_RETURN /\ v_opcode v <> TURBOJS_SSA_ARGUMENT) by (destruct (v_opcode v); done).
  split; cbn [g_values update_value g_set_values]; fold (to_constant (rho (v_id v))); rewrite Hgv.
  - do 2 apply straight_decr. apply (straight_replace rho _ i v); try done.
    + intros _. split; [done|]. split; by left.
    + split; [done|]. intros. by destruct Hne.
    + left. intros (? & _ & _). done.
  - apply covered_release; [done|done|unfold w; simpl; lia|by eapply operand_nonneg|by eapply operand_nonneg| |done].
    intros k Hk. eapply no_operand_uses; [done|done|exact Hlen|lia].
  - do 2 apply has_return_decr. eapply has_return_insert; [done|apply Hne|done].
Qed.

(** ** Folding *)

Lemma alter_removed f j (vs : list TurboJSSSAValue) k w :
  (forall x, v_removed (f x) = v_removed x) -> alter f j vs !! k = Some w ->
  exists x, vs !! k = Some x /\ v_removed w = v_removed x.
Proof.
  intros Hf. rewrite list_lookup_alter. case_decide; [subst|eauto].
  destruct (vs !! k) as [x|]; simpl; intros; simplify_eq. eauto.
Qed.

Lemma fold_constant_removed g i v k w :
  g_values (fold_constant g i v).1 !! k = Some w -> exists x, g_values g !! k = Some x /\ v_removed w = v_removed x.
Proof.
  unfold fold_constant. repeat case_match; simpl; eauto.
  rewrite !drop_use_values. assert (Hd : forall x, v_removed (decr x) = v_removed x) by (intros x; apply decr_same).
  intros (x1 & Hx1 & ->)%alter_removed; [|done]. apply alter_removed in Hx1 as (x2 & Hx2 & ->); [|done].
  apply alter_removed in Hx2 as (x3 & Hx3 & ->); [|done]. eauto.
Qed.

Lemma fold_loop_sound rho g : sound rho g -> sound rho (fold_loop g).1.
Proof.
  intros Hs. unfold fold_loop. apply (foldl_inv (fun a => sound rho a.1)); [done|].
  intros [g' [c b]] i Hg. simpl in Hg. destruct (g_values g' !! i) as [v|] eqn:Hv; [|done].
  destruct (v_removed v) eqn:Hr; [done|].
  pose proof (fold_constant_sound rho g' i v Hg Hv Hr) as Hg'.
  destruct (fold_constant g' (Z.of_nat i) v) as [g1 k] eqn:Hfc. simpl in Hg'.
  destruct (g_values g1 !! i) as [w|] eqn:Hw; [|done].
  assert (Hwr : v_removed w = false).
  { pose proof (fold_constant_removed g' (Z.of_nat i) v i w) as Hk. rewrite Hfc in Hk.
    destruct (Hk Hw) as (x & Hx & ->). congruence. }
  destruct (explains_opcode rho w (s_explained _ _ (snd_straight _ _ Hg') _ _ Hw Hwr)) as [Ho|Ho];
    unfold fold_branch, is_opcode; rewrite !bool_decide_false; try done.
  1-2: intros Hb; rewrite Hb in Ho; set_solver.
  1-2: intros Hb; by rewrite Hb in Ho.
Qed.

(** ** Type inference *)

Lemma for_values_sound rho g body :
  (forall g i v, sound rho g -> g_values g !! i = Some v -> sound rho (body g (Z.of_nat i) v).1) ->
  sound rho g -> sound rho (for_values g body).1.
Proof.
  intros Hb Hs. unfold for_values. apply (foldl_inv (fun a => sound rho a.1)); [done|].
  intros [g' n] i Hg. simpl in Hg. destruct (g_values g' !! i) as [v|] eqn:Hv; [|done].
  specialize (Hb g' i v Hg Hv). by destruct (body g' (Z.of_nat i) v).
Qed.

Lemma set_type_sound rho g i t : sound rho g -> sound rho (update_value g i (v_set_type t)).
Proof.
  intros [Hs Hc Hr]. split; simpl.
  - by apply straight_same.
  - apply covered_same; [|done]. intros v _. split; [done|]. simpl. lia.
  - by apply has_return_same.
Qed.

Lemma infer_sweep_sound rho g : sound rho g -> sound rho (infer_sweep g).1.
Proof.
  apply for_values_sound. intros g' i v Hg Hv. destruct (v_removed v); [done|]. cbv zeta.
  destruct (_ || _); [done|]. by apply set_type_sound.
Qed.

Lemma infer_types_sound rho fuel g g' n :
  sound rho g -> TurboJS_SSAInferTypes fuel g = Some (g', n) -> sound rho g'.
Proof.
  unfold TurboJS_SSAInferTypes. generalize 0. revert g. induction fuel as [|fuel IH]; intros g t Hs; simpl; [done|].
  pose proof (infer_sweep_sound rho g Hs) as Hs'. destruct (infer_sweep g) as [g1 c]. case_match.
  - intros [= <- _]. done.
  - by apply IH.
Qed.

(** ** Common expressions *)

Lemma replaced_uses u from to v :
  from <> to ->
  replacements u (replaced from to v) =
    if u =? from then 0 else if u =? to then replacements u v + replacements from v else replacements u v.
Proof.
  intros Hne. unfold replacements, replaced. destruct (v_removed v) eqn:Hr; simpl; rewrite Hr; [repeat case_match; done|].
  destruct (Z.eqb_spec (v_left v) from), (Z.eqb_spec (v_right v) from), (Z.eqb_spec u from), (Z.eqb_spec u to);
    repeat match goal with |- context [?a =? ?b] => destruct (Z.eqb_spec a b) end; lia.
Qed.

Lemma uses_replaced u from to vs :
  from <> to ->
  uses u (map (replaced from to) vs) =
    if u =? from then 0 else if u =? to then uses u vs + uses from vs else uses u vs.
Proof.
  intros Hne. induction vs as [|v vs IH]; [by repeat case_match|]. simpl map. rewrite !uses_cons, replaced_uses, IH by done.
  repeat case_match; lia.
Qed.

(** The value list after [replace_value_uses] and the removal. *)
Lemma replace_and_remove_values g i j :
  g_values (replace_and_remove g i j) =
    alter v_remove (Z.to_nat i)
      (alter (v_set_uses 0) (Z.to_nat i)
         (alter (fun v => v_set_uses (v_use_count v + uses i (g_values g)) v) (Z.to_nat j)
            (map (replaced i j) (g_values g)))).
Proof. done. Qed.

Lemma replace_and_remove_lookup g i j k w :
  (i <> j)%nat -> g_values (replace_and_remove g (Z.of_nat i) (Z.of_nat j)) !! k = Some w ->
  exists v, g_values g !! k = Some v /\
    w = if decide (k = i) then v_remove (v_set_uses 0 (replaced (Z.of_nat i) (Z.of_nat j) v))
        else if decide (k = j) then v_set_uses (v_use_count v + uses (Z.of_nat i) (g_values g)) (replaced (Z.of_nat i) (Z.of_nat j) v)
        else replaced (Z.of_nat i) (Z.of_nat j) v.
Proof.
  intros Hij. rewrite replace_and_remove_values, !Nat2Z.id.
  destruct (decide (k = i)) as [->|Hki].
  - rewrite !list_lookup_alter_eq, list_lookup_alter_ne, list_lookup_fmap by done.
    destruct (g_values g !! i) as [v|]; simpl; intros; simplify_eq. eauto.
  - rewrite !(list_lookup_alter_ne _ _ i) by done. destruct (decide (k = j)) as [->|Hkj].
    + rewrite list_lookup_alter_eq, list_lookup_fmap. destruct (g_values g !! j) as [v|]; simpl; intros; simplify_eq.
      exists v. split; [done|]. unfold replaced. by case_match.
    + rewrite list_lookup_alter_ne, list_lookup_fmap by done.
      destruct (g_values g !! k) as [v|]; simpl; intros; simplify_eq. eauto.
Qed.

Definition renamed (i j o : Z) : Z := if o =? i then j else o.

(** What the replacement does to each value. *)
Lemma replace_and_remove_facts g i j k w :
  (i <> j)%nat -> g_values (replace_and_remove g (Z.of_nat i) (Z.of_nat j)) !! k = Some w ->
  exists v, g_values g !! k = Some v /\
    v_opcode w = v_opcode v /\ v_id w = v_id v /\ v_immediate w = v_immediate v /\
    v_removed w = bool_decide (k = i) || v_removed v /\
    (if v_removed v then v_left w = v_left v /\ v_right w = v_right v
     else v_left w = renamed (Z.of_nat i) (Z.of_nat j) (v_left v) /\
          v_right w = renamed (Z.of_nat i) (Z.of_nat j) (v_right v)).
Proof.
  intros Hij Hw. destruct (replace_and_remove_lookup g i j k w Hij Hw) as (v & Hv & ->).
  exists v. split; [done|]. unfold replaced, renamed.
  destruct (v_removed v) eqn:Hr; destruct (decide (k = i)), (decide (k = j)); simpl; rewrite ?Hr;
    repeat case_bool_decide; try done; by subst.
Qed.

Lemma replace_and_remove_lookup_Some g i j k v :
  (i <> j)%nat -> g_values g !! k = Some v ->
  exists w, g_values (replace_and_remove g (Z.of_nat i) (Z.of_nat j)) !! k = Some w /\
    v_opcode w = v_opcode v /\ v_removed w = bool_decide (k = i) || v_removed v.
Proof.
  intros Hij Hv. destruct (lookup_lt_is_Some_2 (g_values (replace_and_remove g (Z.of_nat i) (Z.of_nat j))) k) as [w Hw].
  { rewrite replace_and_remove_values, !length_alter, length_fmap. by eapply lookup_lt_Some. }
  destruct (replace_and_remove_facts g i j k w Hij Hw) as (v' & Hv' & Ho & _ & _ & Hr & _). simplify_eq. eauto.
Qed.

Lemma renamed_value (rho : Z -> Z) i j o : rho i = rho j -> rho (renamed i j o) = rho o.
Proof. unfold renamed. intros Hij. destruct (Z.eqb_spec o i); [by subst|done]. Qed.

Lemma renamed_operand rho g i j k vi vj o :
  straight rho (g_values g) -> g_values g !! i = Some vi -> g_values g !! j = Some vj -> (j < i)%nat ->
  (produces vi -> produces vj) ->
  operand_ok (g_values g) k o ->
  operand_ok (g_values (replace_and_remove g (Z.of_nat i) (Z.of_nat j))) k (renamed (Z.of_nat i) (Z.of_nat j) o).
Proof.
  intros Hs Hi Hj Hlt Hp Hop. pose proof (s_size _ _ Hs) as Hsz. apply lookup_lt_Some in Hi as Hil. unfold renamed.
  assert (Hput : forall m y, g_values g !! m = Some y -> m <> i -> produces y ->
     exists w, g_values (replace_and_remove g (Z.of_nat i) (Z.of_nat j)) !! m = Some w /\ produces w).
  { intros m y Hy Hm (Hy1 & Hy2 & Hy3). destruct (replace_and_remove_lookup_Some g i j m y) as (w & Hw & Hwo & Hwr); [lia|done|].
    exists w. split; [done|]. unfold produces. rewrite Hwo, Hwr, bool_decide_false, Hy1 by done. done. }
  destruct Hop as [->|(Hb & y & Hy & Hpy)].
  - left. rewrite (proj2 (Z.eqb_neq _ _)) by lia. done.
  - right. destruct (Z.eqb_spec o (Z.of_nat i)) as [->|Hne].
    + split; [lia|]. rewrite Nat2Z.id in *. simplify_eq. apply (Hput j vj Hj); [lia|]. by apply Hp.
    + split; [done|]. apply (Hput (Z.to_nat o) y); [done|lia|exact Hpy].
Qed.

Lemma replace_and_remove_straight rho g i j vi vj :
  straight rho (g_values g) -> g_values g !! i = Some vi -> g_values g !! j = Some vj -> (j < i)%nat ->
  (produces vi -> produces vj) -> rho (Z.of_nat i) = rho (Z.of_nat j) -> v_opcode vi <> TURBOJS_SSA_ARGUMENT ->
  straight rho (g_values (replace_and_remove g (Z.of_nat i) (Z.of_nat j))).
Proof.
  intros Hs Hi Hj Hlt Hpj Hrho Hna. pose proof (s_size _ _ Hs) as Hsz. apply lookup_lt_Some in Hi as Hil.
  pose proof (fun k w => replace_and_remove_facts g i j k w ltac:(lia)) as Hget.
  split.
  - rewrite replace_and_remove_values, !length_alter, length_fmap. done.
  - apply Hs.
  - intros k w (v & Hv & _ & -> & _)%Hget. by apply (s_ids _ _ Hs).
  - intros k w (v & Hv & Ho & Hid & Him & Hrm & Hops)%Hget Hr. rewrite Hr in Hrm. symmetry in Hrm.
    apply orb_false_iff in Hrm as [_ Hrv]. rewrite Hrv in Hops. destruct Hops as [Hl Hrr].
    pose proof (s_explained _ _ Hs _ _ Hv Hrv) as Hex. unfold explains in *.
    rewrite Ho, Hid, Him, Hl, Hrr, !renamed_value by done. done.
  - intros k w (v & Hv & Ho & Hid & Him & Hrm & Hops)%Hget Hr. rewrite Hr in Hrm. symmetry in Hrm.
    apply orb_false_iff in Hrm as [_ Hrv]. rewrite Hrv in Hops. destruct Hops as [-> ->].
    destruct (s_operands _ _ Hs _ _ Hv Hrv). split; by eapply renamed_operand.
  - intros k w (v & Hv & Ho & Hid & Him & Hrm & Hops)%Hget Hn. rewrite Ho in Hn.
    destruct (s_nullary _ _ Hs _ _ Hv Hn) as [Hl Hr]. unfold renamed in Hops. rewrite Hl, Hr in Hops.
    rewrite (proj2 (Z.eqb_neq _ _)) in Hops by lia. by case_match.
  - intros k m vk vm Hkm (x & Hx & -> & _)%Hget (y & Hy & -> & _)%Hget. by eapply (s_arguments_first _ _ Hs).
  - intros k w (v & Hv & Ho & _ & _ & -> & _)%Hget Ha. rewrite Ho in Ha.
    rewrite (s_arguments_live _ _ Hs _ _ Hv Ha), bool_decide_false; [done|]. intros ->. congruence.
Qed.

Lemma replace_and_remove_covered g i j :
  (j < i)%nat -> covered (fun _ => 0) (g_values g) ->
  covered (fun _ => 0) (g_values (replace_and_remove g (Z.of_nat i) (Z.of_nat j))).
Proof.
  intros Hlt Hc k w Hw. destruct (replace_and_remove_lookup g i j k w ltac:(lia) Hw) as (v & Hv & ->).
  assert (Hu : uses (Z.of_nat k) (g_values (replace_and_remove g (Z.of_nat i) (Z.of_nat j))) <=
    uses (Z.of_nat k) (map (replaced (Z.of_nat i) (Z.of_nat j)) (g_values g))).
  { rewrite replace_and_remove_values. set (vs := map _ _).
    set (vs2 := alter (v_set_uses 0) _ _).
    assert (Heq : uses (Z.of_nat k) vs2 = uses (Z.of_nat k) vs) by (unfold vs2; by rewrite !uses_alter_keep).
    rewrite <-Heq. destruct (vs2 !! Z.to_nat (Z.of_nat i)) as [x|] eqn:Hx; [|by rewrite list_alter_out].
    rewrite (uses_alter _ _ _ _ _ Hx). pose proof (replacements_bounds (Z.of_nat k) x). unfold replacements at 2. simpl. lia. }
  rewrite uses_replaced in Hu by lia. specialize (Hc k v Hv). cbv beta in *.
  pose proof (uses_nonneg (Z.of_nat i) (g_values g)).
  destruct (decide (k = i)) as [->|Hki]; [rewrite Z.eqb_refl in Hu; cbn [v_use_count v_remove v_set_uses]; lia|].
  rewrite (proj2 (Z.eqb_neq _ _)) in Hu by lia.
  assert (Huc : v_use_count (replaced (Z.of_nat i) (Z.of_nat j) v) = v_use_count v)
    by (unfold replaced; destruct (v_removed v); reflexivity).
  destruct (decide (k = j)) as [->|Hkj]; [rewrite Z.eqb_refl in Hu; cbn [v_use_count v_remove v_set_uses]; lia|].
  rewrite (proj2 (Z.eqb_neq _ _)) in Hu by lia. rewrite Huc. lia.
Qed.

(** A value that computes the same number as an earlier live value can be
    replaced by it. *)
Lemma replace_and_remove_sound rho g i j vi vj :
  sound rho g -> g_values g !! i = Some vi -> g_values g !! j = Some vj -> (j < i)%nat ->
  (produces vi -> produces vj) -> rho (Z.of_nat i) = rho (Z.of_nat j) ->
  v_opcode vi <> TURBOJS_SSA_ARGUMENT -> v_opcode vi <> TURBOJS_SSA_RETURN ->
  sound rho (replace_and_remove g (Z.of_nat i) (Z.of_nat j)).
Proof.
  intros [Hs Hc (k & v & Hv & Hr & Ho)] Hi Hj Hlt Hpj Hrho Hna Hnr. split.
  - by eapply replace_and_remove_straight.
  - by apply replace_and_remove_covered.
  - destruct (replace_and_remove_lookup_Some g i j k v) as (w & Hw & Hwo & Hwr); [lia|done|].
    exists k, w. rewrite Hwo, Hwr, Hr, bool_decide_false; [done|]. intros ->. congruence.
Qed.

Lemma first_before_spec g i test j :
  first_before g (Z.of_nat i) test = Some j ->
  exists k w, j = Z.of_nat k /\ (k < i)%nat /\ g_values g !! k = Some w /\ test k w = true.
Proof.
  unfold first_before. destruct (list_find _ _) as [[k [k' w]]|] eqn:Hf; [|done]. intros [= <-].
  apply list_find_Some in Hf as (Hl & Ht & _). rewrite list_lookup_imap in Hl.
  destruct (take _ _ !! k) as [x|] eqn:Hx; simplify_eq/=. apply lookup_take_Some in Hx as [Hx Hk].
  exists k', w. rewrite Nat2Z.id in Hk. done.
Qed.

Lemma same_expression_value rho a b :
  cse_candidate a = true -> same_expression a b = true -> explains rho a -> explains rho b ->
  rho (v_id a) = rho (v_id b).
Proof.
  intros Hc Hs Ha Hb. unfold same_expression in Hs. b2p.
  unfold explains, cse_candidate in *.
  repeat match goal with H : v_opcode a = _ |- _ => rewrite H in * | H : v_left a = _ |- _ => rewrite H in *
    | H : v_right a = _ |- _ => rewrite H in * | H : v_immediate a = _ |- _ => rewrite H in * end.
  destruct (v_opcode b); try discriminate; destruct Ha, Hb; congruence.
Qed.

Lemma cse_producing v : cse_candidate v = true ->
  v_opcode v <> TURBOJS_SSA_ARGUMENT /\ v_opcode v <> TURBOJS_SSA_RETURN /\ v_opcode v <> TURBOJS_SSA_GUARD_INT32.
Proof. unfold cse_candidate. by destruct (v_opcode v). Qed.

Lemma common_expressions_sound rho g : sound rho g -> sound rho (eliminate_local_common_expressions g).1.
Proof.
  apply for_values_sound. intros g' i v Hg Hv.
  destruct (v_removed v) eqn:Hr; [done|]. destruct (cse_candidate v) eqn:Hcand; [|done]. simpl.
  destruct (first_before _ _ _) as [j|] eqn:Hf; [|done].
  apply first_before_spec in Hf as (k & w & -> & Hk & Hw & Ht). b2p. simpl.
  destruct (cse_producing v Hcand) as (Hv1 & Hv2 & Hv3). destruct (cse_producing w) as (Hw1 & Hw2 & Hw3); [done|].
  pose proof (snd_straight _ _ Hg) as Hs.
  eapply replace_and_remove_sound; try done.
  rewrite <-(s_ids _ _ Hs _ _ Hv), <-(s_ids _ _ Hs _ _ Hw). symmetry.
  apply same_expression_value; try done; by eapply s_explained.
Qed.

Lemma redundant_guards_sound rho g : sound rho g -> sound rho (eliminate_redundant_guards g).1.
Proof.
  apply for_values_sound. intros g' i v Hg Hv. unfold live.
  destruct (negb (v_removed v) && _) eqn:Hlive; [|done]. simpl. b2p. unfold is_opcode in *. b2p.
  destruct (first_before _ _ _) as [j|] eqn:Hf; [|done].
  apply first_before_spec in Hf as (k & w & -> & Hk & Hw & Ht). b2p. simpl. unfold live, is_opcode in *. b2p.
  pose proof (snd_straight _ _ Hg) as Hs.
  assert (Hex : forall m x, g_values g' !! m = Some x -> v_removed x = false -> v_opcode x = TURBOJS_SSA_GUARD_INT32 ->
            rho (Z.of_nat m) = rho (v_left x)).
  { intros m x Hx Hxr Hxo. pose proof (s_explained _ _ Hs _ _ Hx Hxr) as He. unfold explains in He.
    rewrite Hxo in He. by rewrite <-(s_ids _ _ Hs _ _ Hx). }
  eapply replace_and_remove_sound; try done.
  - intros (_ & _ & ?). congruence.
  - rewrite (Hex _ _ Hv), (Hex _ _ Hw) by done. congruence.
  - congruence.
  - congruence.
Qed.

(** ** Passes that find nothing to do *)

Definition accesses_memory (op : TurboJSSSAOpcode) : bool :=
  match op with
  | TURBOJS_SSA_PROPERTY_LOAD | TURBOJS_SSA_PROPERTY_STORE | TURBOJS_SSA_ELEMENT_LOAD | TURBOJS_SSA_ELEMENT_STORE => true
  | _ => false
  end.

Lemma no_memory_access rho g i v op :
  sound rho g -> g_values g !! i = Some v -> accesses_memory op = true -> live op v = false.
Proof.
  intros Hg Hv Hop. unfold live, is_opcode. destruct (v_removed v) eqn:Hr; [done|]. simpl.
  apply bool_decide_false. intros <-.
  pose proof (s_explained _ _ (snd_straight _ _ Hg) _ _ Hv Hr) as He. unfold explains in He.
  destruct (v_opcode v); try discriminate; by destruct He.
Qed.

Lemma for_values_id g body :
  (forall i v, g_values g !! i = Some v -> body g (Z.of_nat i) v = (g, 0)) -> for_values g body = (g, 0).
Proof.
  intros Hb. unfold for_values. apply (foldl_inv (fun a => a = (g, 0))); [done|]. intros a i ->.
  destruct (g_values g !! i) as [v|] eqn:Hv; [|done]. by rewrite (Hb i v Hv).
Qed.

Section Idle.
Context (rho : Z -> Z) (g : TurboJSSSAGraph) (Hg : sound rho g).

Lemma idle_scalarize mem : scalarize_virtual_object_loads mem g = (g, (0, 0)) \/
  exists n, scalarize_virtual_object_loads mem g = (g, (0, n)).
Proof.
  unfold scalarize_virtual_object_loads. destruct (_ || _); [by left|right]. cbv zeta.
  match goal with |- context [foldl ?step (g, 0, []) ?l] => assert (Hfold : foldl step (g, 0, []) l = (g, 0, [])) end.
  { apply (foldl_inv (fun a => a = (g, 0, []))); [done|]. intros a i ->.
    destruct (g_values g !! i) as [v|] eqn:Hv; [|done].
    by rewrite (no_memory_access rho g i v TURBOJS_SSA_PROPERTY_LOAD Hg Hv) by done. }
  rewrite Hfold. eauto.
Qed.

Lemma idle_overwritten : eliminate_overwritten_property_stores g = (g, 0).
Proof.
  apply for_values_id. intros i v Hv.
  by rewrite (no_memory_access rho g i v TURBOJS_SSA_PROPERTY_STORE Hg Hv) by done.
Qed.
Lemma idle_phis : create_property_store_phis g = (g, 0).
Proof.
  apply for_values_id. intros i v Hv.
  by rewrite (no_memory_access rho g i v TURBOJS_SSA_PROPERTY_LOAD Hg Hv) by done.
Qed.
Lemma idle_forward : forward_property_stores_to_loads g = (g, 0).
Proof.
  apply for_values_id. intros i v Hv.
  by rewrite (no_memory_access rho g i v TURBOJS_SSA_PROPERTY_LOAD Hg Hv) by done.
Qed.
Lemma idle_elements : eliminate_redundant_element_loads g = (g, 0).
Proof.
  apply for_values_id. intros i v Hv.
  by rewrite (no_memory_access rho g i v TURBOJS_SSA_ELEMENT_LOAD Hg Hv) by done.
Qed.
Lemma idle_loads mem : (eliminate_redundant_property_loads mem g).1 = g.
Proof.
  unfold eliminate_redundant_property_loads. apply (foldl_inv (fun a => a.1 = g)); [done|]. intros [g' c] i Hi.
  simpl in Hi. subst g'. destruct (g_values g !! i) as [v|] eqn:Hv; [|done].
  by rewrite (no_memory_access rho g i v TURBOJS_SSA_PROPERTY_LOAD Hg Hv) by done.
Qed.
Lemma idle_ranges : (recognize_element_loop_ranges g).1 = g.
Proof.
  unfold recognize_element_loop_ranges. apply (foldl_inv (fun a => a.1 = g)); [done|]. intros [g' [[a b] c]] i Hi.
  simpl in Hi. subst g'. destruct (g_values g !! i) as [v|] eqn:Hv; [|done].
  pose proof (no_memory_access rho g i v TURBOJS_SSA_ELEMENT_LOAD Hg Hv eq_refl) as H1.
  pose proof (no_memory_access rho g i v TURBOJS_SSA_ELEMENT_STORE Hg Hv eq_refl) as H2.
  unfold live in H1, H2. destruct (v_removed v); [done|]. simpl in *. by rewrite H1, H2.
Qed.
End Idle.

Lemma memory_passes_sound rho mem g : sound rho g -> sound rho (memory_passes mem g).1.
Proof.
  intros Hg. unfold memory_passes.
  pose proof (common_expressions_sound rho g Hg) as H1. destruct (eliminate_local_common_expressions g) as [g1 n1].
  simpl in H1. assert (Hsc : exists n, scalarize_virtual_object_loads (om_virtual mem) g1 = (g1, (0, n))).
  { destruct (idle_scalarize rho g1 H1 (om_virtual mem)) as [->|]; eauto. }
  destruct Hsc as [n ->]. rewrite (idle_overwritten rho g1 H1), (idle_phis rho g1 H1), (idle_forward rho g1 H1).
  pose proof (idle_loads rho g1 H1 (om_paths mem)) as H2.
  destruct (eliminate_redundant_property_loads (om_paths mem) g1) as [g2 c2]. simpl in H2. subst g2.
  rewrite (idle_elements rho g1 H1). pose proof (idle_ranges rho g1 H1) as H3.
  destruct (recognize_element_loop_ranges g1) as [g3 c3]. simpl in H3. subst g3.
  pose proof (redundant_guards_sound rho g1 H1) as H4. by destruct (eliminate_redundant_guards g1).
Qed.

(** ** Dead values *)

Definition counted (v : TurboJSSSAValue) : nat := if v_use_count v =? 0 then 0 else 1.
Definition nonzero (vs : list TurboJSSSAValue) : nat := sum_list_with counted vs.

Lemma nonzero_insert vs k v w :
  vs !! k = Some v -> (nonzero (<[k := w]> vs) + counted v = nonzero vs + counted w)%nat.
Proof.
  unfold nonzero. revert k. induction vs as [|x vs IH]; intros [|k] Hv; simpl in *; simplify_eq; [lia|].
  specialize (IH _ Hv). lia.
Qed.

Lemma release_input_spec g work u :
  let r := release_input g work u in
  g_values r.1 = alter decr (Z.to_nat u) (g_values g) /\
  (length r.2 + nonzero (g_values r.1) <= length work + nonzero (g_values g))%nat /\
  (Forall (fun id => (Z.to_nat id < length (g_values g))%nat) work ->
   Forall (fun id => (Z.to_nat id < length (g_values g))%nat) r.2).
Proof.
  unfold release_input. rewrite get_value_lookup. destruct (g_values g !! Z.to_nat u) as [v|] eqn:Hv; simpl.
  - rewrite (list_alter_at decr _ _ _ Hv). unfold decr. destruct (Z.eqb_spec (v_use_count v) 0) as [H0|H0]; simpl.
    { rewrite list_insert_id by done. auto. }
    rewrite (list_alter_at _ _ _ _ Hv). split; [done|]. set (w := v_set_uses (v_use_count v - 1) v).
    pose proof (nonzero_insert _ _ _ w Hv) as Hn. unfold counted in Hn at 1. rewrite (proj2 (Z.eqb_neq _ _) H0) in Hn.
    destruct (dead w) eqn:Hd; simpl.
    + unfold dead in Hd. b2p. unfold counted in Hn. rewrite (proj2 (Z.eqb_eq _ _)) in Hn by done.
      split; [lia|]. intros Hf. constructor; [by eapply lookup_lt_Some|done].
    + split; [|done]. unfold counted in Hn. case_match; lia.
  - rewrite list_alter_out by done. auto.
Qed.

Lemma dead_unused rho g i v :
  sound rho g -> g_values g !! i = Some v -> dead v = true -> uses (Z.of_nat i) (g_values g) = 0.
Proof.
  intros Hg Hv Hd. unfold dead in Hd. b2p. pose proof (snd_covered _ _ Hg _ _ Hv) as Hc. cbv beta in Hc.
  pose proof (uses_nonneg (Z.of_nat i) (g_values g)). lia.
Qed.

Lemma remove_dead_sound rho g i v :
  sound rho g -> g_values g !! i = Some v -> dead v = true ->
  let vs := alter decr (Z.to_nat (v_right v)) (alter decr (Z.to_nat (v_left v)) (<[i := v_remove v]> (g_values g))) in
  straight rho vs /\ covered (fun _ => 0) vs /\ has_return vs.
Proof.
  intros Hg Hv Hd vs. pose proof (dead_unused rho g i v Hg Hv Hd) as Hu. destruct Hg as [Hs Hc Hr].
  unfold dead in Hd. b2p.
  assert (Hno : v_opcode v <> TURBOJS_SSA_RETURN /\ v_opcode v <> TURBOJS_SSA_ARGUMENT)
    by (unfold removable_value in *; destruct (v_opcode v); done).
  destruct (s_operands _ _ Hs _ _ Hv ltac:(done)) as [Hl Hrr]. split; [|split].
  - do 2 apply straight_decr. apply (straight_replace rho _ i v); try done.
    + simpl. intros Hnl. exact (s_nullary _ _ Hs i v Hv Hnl).
    + simpl. intros. by destruct Hno.
    + by right.
  - apply covered_release; [done|done|simpl; lia|by eapply operand_nonneg|by eapply operand_nonneg|done|done].
  - do 2 apply has_return_decr. eapply has_return_insert; [done|apply Hno|done].
Qed.

(** The worklist never outgrows its array, the loop ends, and the graph stays sound. *)
Lemma dce_loop_sound rho fuel g work removed :
  sound rho g -> (length work + nonzero (g_values g) <= fuel)%nat -> (fuel <= length (g_values g))%nat ->
  Forall (fun id => (Z.to_nat id < length (g_values g))%nat) work ->
  exists g' n, dce_loop fuel g work removed = Some (g', n) /\ sound rho g' /\ g_blocks g' = g_blocks g.
Proof.
  revert g work removed. induction fuel as [|fuel IH]; intros g work removed Hg Hf Hn Hw.
  - destruct work as [|id work]; [|simpl in Hf; lia]. simpl. eauto.
  - destruct work as [|id work]; [simpl; eauto|]. apply Forall_cons in Hw as [Hid Hw]. simpl in Hf |- *.
    rewrite get_value_lookup. destruct (lookup_lt_is_Some_2 _ _ Hid) as [v Hv]. rewrite Hv.
    destruct (dead v) eqn:Hd; [|apply IH; [done|lia|lia|done]].
    destruct (remove_dead_sound rho g (Z.to_nat id) v Hg Hv Hd) as (Hs & Hc & Hr).
    set (g0 := update_value g id v_remove).
    assert (Hg0 : g_values g0 = <[Z.to_nat id := v_remove v]> (g_values g)) by (simpl; by apply list_alter_at).
    assert (Hnz0 : nonzero (g_values g0) = nonzero (g_values g)).
    { rewrite Hg0. pose proof (nonzero_insert _ _ _ (v_remove v) Hv) as H. unfold counted in H. simpl in H. lia. }
    assert (Hl0 : length (g_values g0) = length (g_values g)) by (rewrite Hg0; apply length_insert).
    destruct (release_input_spec g0 work (v_left v)) as (Hv1 & Hn1 & Hw1).
    destruct (release_input g0 work (v_left v)) as [g1 work1] eqn:Hr1. cbn [fst snd] in Hv1, Hn1, Hw1.
    assert (Hl1 : length (g_values g1) = length (g_values g)) by (by rewrite Hv1, length_alter).
    destruct (release_input_spec g1 work1 (v_right v)) as (Hv2 & Hn2 & Hw2).
    destruct (release_input g1 work1 (v_right v)) as [g2 work2] eqn:Hr2. cbn [fst snd] in Hv2, Hn2, Hw2.
    assert (Hl2 : length (g_values g2) = length (g_values g)) by (by rewrite Hv2, length_alter).
    assert (Hb2 : g_blocks g2 = g_blocks g).
    { unfold release_input in Hr1, Hr2. repeat case_match; simplify_eq; done. }
    rewrite Hl2. rewrite (proj2 (Nat.ltb_ge _ _)) by lia. rewrite <-Hb2. apply IH; [|lia|lia|].
    + rewrite Hv1, Hg0 in Hv2. split; by rewrite Hv2.
    + rewrite Hl2. rewrite Hl1 in Hw2. rewrite Hl0 in Hw1. auto.
Qed.

Lemma dead_values_bound g :
  (length (dead_values g) + nonzero (g_values g) <= length (g_values g))%nat /\
  Forall (fun id => (Z.to_nat id < length (g_values g))%nat) (dead_values g).
Proof.
  unfold dead_values. split.
  - rewrite length_reverse, length_fmap.
    assert (H : forall vs ws, (length (filter (fun i => match (ws ++ vs) !! i with Some v => dead v | None => false end = true)
                                     (seq (length ws) (length vs))) + nonzero vs <= length vs)%nat).
    { induction vs as [|v vs IH]; intros ws; simpl; [done|]. rewrite filter_cons.
      rewrite list_lookup_middle by done. specialize (IH (ws ++ [v])). rewrite <-app_assoc, length_app in IH. simpl in IH.
      rewrite Nat.add_1_r in IH. unfold nonzero in *. simpl. case_decide as Hd; simpl.
      - unfold dead in Hd. b2p. assert (counted v = 0%nat) by (unfold counted; by rewrite (proj2 (Z.eqb_eq _ _))). lia.
      - assert (counted v <= 1)%nat by (unfold counted; case_match; lia). lia. }
    apply (H (g_values g) []).
  - apply Forall_reverse, Forall_fmap, Forall_forall. intros i Hi. simpl.
    apply list_elem_of_filter in Hi as [_ Hi%elem_of_seq]. rewrite Nat2Z.id. lia.
Qed.

Lemma eliminate_dead_values_sound rho mem g :
  sound rho g -> exists g' n, eliminate_dead_values mem g = Some (g', n) /\ sound rho g' /\ g_blocks g' = g_blocks g.
Proof.
  intros Hg. unfold eliminate_dead_values. destruct mem; simpl; [|eauto].
  destruct (dead_values_bound g) as [Hb Hf]. by apply dce_loop_sound.
Qed.

(** ** Type inference settles *)

Definition settled (g : TurboJSSSAGraph) (k : nat) : Prop :=
  forall v, g_values g !! k = Some v -> v_removed v = false ->
    infer_value g v = TURBOJS_SSA_TYPE_UNKNOWN \/ infer_value g v = v_type v.

(** The type of a value depends only on the types of earlier values. *)
Lemma infer_value_update rho g i t k w :
  straight rho (g_values g) -> (k <= i)%nat -> g_values (update_value g (Z.of_nat i) (v_set_type t)) !! k = Some w ->
  v_removed w = false ->
  exists v, g_values g !! k = Some v /\ v_removed v = false /\
    (k <> i -> w = v /\ infer_value (update_value g (Z.of_nat i) (v_set_type t)) w = infer_value g v) /\
    (k = i -> w = v_set_type t v /\
       (infer_value g v <> v_type v -> infer_value (update_value g (Z.of_nat i) (v_set_type t)) w = infer_value g v)).
Proof.
  intros Hs Hk Hw Hr. simpl in Hw. rewrite Nat2Z.id, list_lookup_alter in Hw.
  assert (Hv : exists v, g_values g !! k = Some v /\ w = if decide (i = k) then v_set_type t v else v).
  { case_decide; [subst|eauto]. destruct (g_values g !! k) as [v|]; simplify_eq/=. eauto. }
  destruct Hv as (v & Hv & Hwv). assert (Hrv : v_removed v = false) by (subst w; by case_decide).
  destruct (s_operands _ _ Hs _ _ Hv Hrv) as [Hl Hrr].
  assert (Hsame : forall o, operand_ok (g_values g) k o ->
     get_value (update_value g (Z.of_nat i) (v_set_type t)) o = get_value g o).
  { intros o Ho. rewrite !get_value_lookup. simpl. rewrite Nat2Z.id.
    destruct (decide (i = Z.to_nat o)) as [Hio|Hio]; [|by rewrite list_lookup_alter_ne].
    destruct Ho as [->|[Ho _]]; [|lia]. rewrite Hio, list_lookup_alter_eq.
    rewrite (lookup_ge_None_2 (g_values g) (Z.to_nat TURBOJS_SSA_NO_VALUE)); [done|]. pose proof (s_size _ _ Hs). lia. }
  assert (Hop : v_opcode v <> TURBOJS_SSA_PHI).
  { intros Hp. pose proof (s_explained _ _ Hs _ _ Hv Hrv) as He. unfold explains in He. rewrite Hp in He. by destruct He. }
  exists v. split; [done|]. split; [done|]. split; intros Hki.
  - rewrite decide_False in Hwv by done. subst w. split; [done|]. unfold infer_value. by rewrite (Hsame _ Hl), (Hsame _ Hrr).
  - rewrite decide_True in Hwv by done. subst w. split; [done|]. unfold infer_value. simpl.
    rewrite (Hsame _ Hl), (Hsame _ Hrr). destruct (v_opcode v); try done; repeat case_match; done.
Qed.

Lemma infer_sweep_settles rho g :
  sound rho g -> let g' := (infer_sweep g).1 in
  length (g_values g') = length (g_values g) /\ forall k, (k < length (g_values g))%nat -> settled g' k.
Proof.
  intros Hg. unfold infer_sweep, for_values.
  apply (for_range_ind (fun m a => sound rho a.1 /\ length (g_values a.1) = length (g_values g) /\
    forall k, (k < m)%nat -> settled a.1 k)
    (length (g_values g)) (fun i a => _ a i) (g, 0)); [split; [done|split; [done|lia]]|].
  intros i [g1 n] Hi (Hg1 & Hlen & Hset). simpl in *. clear Hg.
  destruct (g_values g1 !! i) as [v|] eqn:Hv; [|exfalso; apply lookup_ge_None in Hv; lia].
  assert (Hstay : (v_removed v = true \/ infer_value g1 v = TURBOJS_SSA_TYPE_UNKNOWN \/ infer_value g1 v = v_type v) ->
    forall k, (k < S i)%nat -> settled g1 k).
  { intros H k Hk. destruct (decide (k = i)) as [->|]; [|apply Hset; lia]. intros v' Hv' Hr'. simplify_eq.
    destruct H as [H|H]; [congruence|done]. }
  destruct (v_removed v) eqn:Hr; [split; [done|split; [done|]]; apply Hstay; by left|].
  destruct (_ || _) eqn:Hb.
  { apply orb_true_iff in Hb. rewrite !bool_decide_eq_true in Hb. split; [done|split; [done|]]. apply Hstay. by right. }
  b2p. cbn [fst]. split; [by apply set_type_sound|]. split; [simpl; by rewrite length_alter|].
  intros k Hk w Hw Hwr.
  destruct (infer_value_update rho g1 i (infer_value g1 v) k w) as (x & Hx & Hxr & Hne & Heq); [apply Hg1|lia|done|done|].
  destruct (decide (k = i)) as [->|Hki].
  - destruct (Heq eq_refl) as [-> Hinf]. simplify_eq. right. simpl. by rewrite Hinf.
  - destruct (Hne Hki) as [-> ->]. apply (Hset k); [lia|done|done].
Qed.

Lemma settled_sweep g : (forall k, (k < length (g_values g))%nat -> settled g k) -> infer_sweep g = (g, 0).
Proof.
  intros Hset. apply for_values_id. intros i v Hv. destruct (v_removed v) eqn:Hr; [done|].
  destruct (Hset i (lookup_lt_Some _ _ _ Hv) v Hv Hr) as [H|H]; cbv zeta; rewrite H; [done|].
  destruct (bool_decide _); [done|]. simpl. by rewrite bool_decide_true.
Qed.

(** Two sweeps settle a graph without phis. *)
Lemma infer_types_total rho fuel g :
  sound rho g -> exists g' n, TurboJS_SSAInferTypes (S (S fuel)) g = Some (g', n) /\ sound rho g'.
Proof.
  intros Hg. enough (exists g' n, TurboJS_SSAInferTypes (S (S fuel)) g = Some (g', n)) as (g' & n & H)
    by (eauto using infer_types_sound).
  unfold TurboJS_SSAInferTypes. simpl. destruct (infer_sweep_settles rho g Hg) as [Hlen Hset].
  destruct (infer_sweep g) as [g1 c]. simpl in Hlen, Hset. case_match; [eauto|].
  rewrite settled_sweep by (by rewrite Hlen). simpl. eauto.
Qed.

(** ** The whole optimizer *)

Lemma sound_blocks rho g bs : sound rho g -> sound rho (g_set_blocks g bs).
Proof. intros [? ? ?]. by split. Qed.

Lemma optimize_sound rho fuel mem g :
  sound rho g -> exists g' s, TurboJS_SSAOptimize (S (S fuel)) mem g = Some (g', s) /\ sound rho g'.
Proof.
  intros Hg. unfold TurboJS_SSAOptimize.
  destruct (infer_types_total rho fuel g Hg) as (g1 & n1 & -> & H1).
  pose proof (fold_loop_sound rho g1 H1) as H2. destruct (fold_loop g1) as [g2 [c b]]. simpl in H2.
  destruct (infer_types_total rho fuel g2 H2) as (g3 & n3 & -> & H3).
  pose proof (memory_passes_sound rho mem g3 H3) as H4. destruct (memory_passes mem g3) as [g4 s4]. simpl in H4.
  assert (H5 : sound rho (mark_reachable g4)) by (unfold mark_reachable; case_match; [done|by apply sound_blocks]).
  assert (H6 : sound rho (remove_unreachable_blocks (mark_reachable g4)).1) by (by apply sound_blocks).
  destruct (remove_unreachable_blocks (mark_reachable g4)) as [g5 n5]. simpl in H6.
  destruct (eliminate_dead_values_sound rho (om_worklist mem) g5 H6) as (g6 & n6 & -> & H7 & _). eauto.
Qed.
End Explained.
