(* ===== verification/SSABuild.v ===== *)
(** * The SSA graph of a straight-line function

    The graph [TurboJS_SSABuildFromIR] builds for a function without control
    flow is explained (see [SSACorrect]) by the numbers the interpreter
    computes, and stays so under speculation from feedback. *)

From S2P Require Import Prelude.
From S2P Require Import JitTypes.
From S2P Require Import IR.
From S2P Require Import IRVerify.
From S2P Require Import Float64.
From S2P Require Import IRInterp.
From S2P Require Import Feedback.
From S2P Require Import SSA.
From S2P Require Import SSAMem.
From S2P Require Import SSAOpt.
From S2P Require Import SSACorrect.

(** ** Appending a value *)

Definition extended (rho : Z -> Z) (id x : Z) : Z -> Z := fun k => if k =? id then x else rho k.

Section Append.
Context (arguments : list Z) (result : Z).
Notation straight := (straight arguments result).
Notation explains := (explains arguments result).

Lemma extended_operand rho vs i o x :
  straight rho vs -> (i <= length vs)%nat -> operand_ok vs i o ->
  extended rho (Z.of_nat (length vs)) x o = rho o.
Proof.
  intros Hs Hi Ho. pose proof (s_size _ _ _ _ Hs). unfold extended.
  destruct Ho as [->|[Ho _]]; rewrite (proj2 (Z.eqb_neq _ _)); done || lia.
Qed.

Lemma explains_extended rho vs i v x :
  straight rho vs -> vs !! i = Some v -> v_removed v = false -> explains (extended rho (Z.of_nat (length vs)) x) v.
Proof.
  intros Hs Hv Hr. pose proof (s_explained _ _ _ _ Hs _ _ Hv Hr) as He. apply lookup_lt_Some in Hv as Hi.
  destruct (s_operands _ _ _ _ Hs _ _ Hv Hr) as [Hl Hrr].
  assert (Hid : extended rho (Z.of_nat (length vs)) x (v_id v) = rho (v_id v)).
  { unfold extended. rewrite (s_ids _ _ _ _ Hs _ _ Hv), (proj2 (Z.eqb_neq _ _)); [done|lia]. }
  unfold SSACorrect.explains in *.
  rewrite Hid, (extended_operand rho vs i _ x Hs ltac:(lia) Hl), (extended_operand rho vs i _ x Hs ltac:(lia) Hrr). done.
Qed.

Lemma operand_app vs ws i o : operand_ok vs i o -> (i <= length vs)%nat -> operand_ok (vs ++ ws) i o.
Proof.
  intros [->|(Ho & w & Hw & Hp)] Hi; [by left|right]. split; [done|]. exists w. split; [|done].
  rewrite lookup_app_l; [done|]. by eapply lookup_lt_Some.
Qed.

Lemma straight_snoc rho vs v x :
  straight rho vs -> Z.of_nat (S (length vs)) < TURBOJS_SSA_NO_VALUE ->
  v_id v = Z.of_nat (length vs) -> v_removed v = false -> explains (extended rho (Z.of_nat (length vs)) x) v ->
  operand_ok vs (length vs) (v_left v) -> operand_ok vs (length vs) (v_right v) ->
  (nullary (v_opcode v) = true -> v_left v = TURBOJS_SSA_NO_VALUE /\ v_right v = TURBOJS_SSA_NO_VALUE) ->
  (v_opcode v = TURBOJS_SSA_ARGUMENT -> Forall (fun w => v_opcode w = TURBOJS_SSA_ARGUMENT) vs) ->
  straight (extended rho (Z.of_nat (length vs)) x) (vs ++ [v]).
Proof.
  intros Hs Hsz Hid Hr Hex Hl Hrr Hn Ha.
  assert (Hget : forall i w, (vs ++ [v]) !! i = Some w -> vs !! i = Some w \/ i = length vs /\ w = v).
  { intros i w Hw. destruct (decide (i < length vs)%nat) as [Hi|Hi].
    - left. by rewrite lookup_app_l in Hw.
    - right. rewrite lookup_app_r in Hw by lia. apply list_lookup_singleton_Some in Hw as [H ->]. split; [lia|done]. }
  split.
  - rewrite length_app. simpl. lia.
  - unfold extended. rewrite (proj2 (Z.eqb_neq _ _)); [apply Hs|lia].
  - intros i w [Hw|[-> ->]]%Hget; [by apply (s_ids _ _ _ _ Hs)|done].
  - intros i w [Hw|[-> ->]]%Hget Hwr; [by eapply explains_extended|done].
  - intros i w [Hw|[-> ->]]%Hget Hwr.
    + destruct (s_operands _ _ _ _ Hs _ _ Hw Hwr). apply lookup_lt_Some in Hw. split; apply operand_app; (done || lia).
    + split; by apply operand_app.
  - intros i w [Hw|[-> ->]]%Hget; [by apply (s_nullary _ _ _ _ Hs i)|done].
  - intros i j vi vj Hij Hvi Hvj Harg. apply Hget in Hvj as [Hvj|[-> ->]].
    + apply lookup_lt_Some in Hvj as Hj. rewrite lookup_app_l in Hvi by lia.
      exact (s_arguments_first _ _ _ _ Hs i j vi vj Hij Hvi Hvj Harg).
    + rewrite lookup_app_l in Hvi by done. specialize (Ha Harg). by eapply Forall_lookup_1 in Ha.
  - intros i w [Hw|[-> ->]]%Hget Harg; [by apply (s_arguments_live _ _ _ _ Hs i)|done].
Qed.

Definition incr (v : TurboJSSSAValue) : TurboJSSSAValue := v_set_uses (v_use_count v + 1) v.

Lemma incr_uses_values rho g o :
  straight rho (g_values g) -> operand_ok (g_values g) (length (g_values g)) o ->
  g_values (incr_uses g o) = alter incr (Z.to_nat o) (g_values g).
Proof.
  intros Hs Ho. unfold incr_uses. destruct (Z.eqb_spec o TURBOJS_SSA_NO_VALUE) as [->|]; [|done].
  symmetry. apply list_alter_out, lookup_ge_None_2. pose proof (s_size _ _ _ _ Hs). lia.
Qed.

Lemma straight_incr rho vs k : straight rho vs -> straight rho (alter incr k vs).
Proof. apply straight_same. done. Qed.
Lemma operand_incr vs k i o : operand_ok vs i o -> operand_ok (alter incr k vs) i o.
Proof.
  apply operand_mono. intros j w _ Hw H1 H2 H3. rewrite list_lookup_alter. case_decide; [subst|eauto].
  rewrite Hw. simpl. eauto.
Qed.

(** An unused id: no live value of the graph refers past its end. *)
Lemma uses_past_end rho vs : straight rho vs -> uses (Z.of_nat (length vs)) vs = 0.
Proof.
  intros Hs. assert (H : forall ws, (forall k w, ws !! k = Some w -> replacements (Z.of_nat (length vs)) w = 0) ->
    uses (Z.of_nat (length vs)) ws = 0).
  { induction ws as [|w ws IH]; intros Hw; [done|]. rewrite uses_cons, (Hw O w eq_refl), IH; [done|].
    intros k. apply (Hw (S k)). }
  apply H. intros k w Hw. unfold replacements. destruct (v_removed w) eqn:Hr; [done|].
  destruct (s_operands _ _ _ _ Hs _ _ Hw Hr) as [Hl Hrr]. apply lookup_lt_Some in Hw.
  pose proof (s_size _ _ _ _ Hs).
  assert (Hne : forall o, operand_ok vs k o -> o <> Z.of_nat (length vs)) by (intros o [->|[Ho _]]; lia).
  by rewrite !(proj2 (Z.eqb_neq _ _)) by (by apply Hne).
Qed.

Lemma covered_incr extra vs u :
  0 <= u -> covered extra vs -> covered (fun k => (if u =? k then 1 else 0) + extra k) (alter incr (Z.to_nat u) vs).
Proof.
  intros Hu Hc k w Hw. rewrite uses_alter_keep by done. rewrite list_lookup_alter in Hw.
  destruct (decide (Z.to_nat u = k)) as [Hk|Hk].
  - subst k. destruct (vs !! Z.to_nat u) as [v|] eqn:Hv; simplify_eq/=. specialize (Hc _ _ Hv).
    rewrite Z2Nat.id in * by done. rewrite Z.eqb_refl. lia.
  - specialize (Hc _ _ Hw). rewrite (proj2 (Z.eqb_neq u _)) by lia. lia.
Qed.

Lemma covered_snoc rho vs v :
  straight rho vs -> covered (fun _ => 0) vs -> v_removed v = false -> v_use_count v = 0 ->
  operand_ok vs (length vs) (v_left v) -> operand_ok vs (length vs) (v_right v) ->
  covered (fun _ => 0) (alter incr (Z.to_nat (v_right v)) (alter incr (Z.to_nat (v_left v)) vs) ++ [v]).
Proof.
  intros Hs Hc Hr Hu Hl Hrr. pose proof (s_size _ _ _ _ Hs) as Hsz.
  pose proof (covered_incr _ _ _ (operand_nonneg _ _ _ Hrr) (covered_incr _ _ _ (operand_nonneg _ _ _ Hl) Hc)) as Hc'.
  set (vs' := alter incr _ _) in *.
  assert (Hlen : length vs' = length vs) by (unfold vs'; by rewrite !length_alter).
  intros k w Hw. rewrite uses_app, uses_cons. change (uses (Z.of_nat k) []) with 0. unfold replacements. rewrite Hr.
  destruct (decide (k < length vs)%nat) as [Hk|Hk].
  - rewrite lookup_app_l in Hw by lia. specialize (Hc' k w Hw). cbv beta in Hc'. lia.
  - rewrite lookup_app_r in Hw by lia. apply list_lookup_singleton_Some in Hw as [Hkl ->].
    assert (k = length vs) as -> by lia.
    assert (Hu0 : uses (Z.of_nat (length vs)) vs' = 0)
      by (unfold vs'; rewrite !uses_alter_keep by done; by eapply uses_past_end).
    assert (Hne : forall o, operand_ok vs (length vs) o -> o <> Z.of_nat (length vs)) by (intros o [->|[Ho _]]; lia).
    rewrite !(proj2 (Z.eqb_neq _ _)) by (by apply Hne). lia.
Qed.

(** The effect of [emit_value] on the values. *)
Lemma emit_value_values rho mem g block op type l r imm src g' id :
  straight rho (g_values g) -> operand_ok (g_values g) (length (g_values g)) l ->
  operand_ok (g_values g) (length (g_values g)) r ->
  emit_value mem g block op type l r imm src = (g', id) -> id <> TURBOJS_SSA_NO_VALUE ->
  id = Z.of_nat (length (g_values g)) /\
  g_values g' = alter incr (Z.to_nat r) (alter incr (Z.to_nat l) (g_values g)) ++ [new_value id block op type l r imm src].
Proof.
  intros Hs Hl Hr. unfold emit_value. destruct (reserve_values mem g (value_count g + 1)) as [g1|] eqn:Hres.
  - assert (Hv : g_values g1 = g_values g).
    { unfold reserve_values in Hres. destruct (grow_array _ _ _ _ _); simplify_eq. done. }
    unfold value_count. rewrite Hv. intros [= <- <-] _. split; [done|]. simpl.
    assert (Hs1 : straight rho (g_values g1)) by (by rewrite Hv).
    assert (Hv1 : g_values (incr_uses g1 l) = alter incr (Z.to_nat l) (g_values g)).
    { rewrite (incr_uses_values rho) by (rewrite ?Hv; done). by rewrite Hv. }
    rewrite (incr_uses_values rho), Hv1.
    + done.
    + rewrite Hv1. by apply straight_incr.
    + rewrite Hv1, length_alter. by apply operand_incr.
  - intros [= <- <-]. done.
Qed.

(** ** The state of the construction

    [reg] names the value each register holds; [R] is the interpreter's
    register array at the same point; [V] holds of all numbers computed. *)
Context (V : Z -> Prop) (HV : forall x, in_i64 x = true -> V x).

Record building (rho : Z -> Z) (g : TurboJSSSAGraph) (reg R : list Z) : Prop := {
  bd_range : forall id, V (rho id);
  bd_straight : straight rho (g_values g);
  bd_covered : covered (fun _ => 0) (g_values g);
  bd_reg : length reg = 64%nat;
  bd_R : length R = 64%nat;
  bd_agree : forall r id, reg !! r = Some id ->
    operand_ok (g_values g) (length (g_values g)) id /\ R !! r = Some (rho id)
}.

Lemma read_register_ok rho g reg R r x :
  building rho g reg R -> R !! Z.to_nat r = Some x ->
  operand_ok (g_values g) (length (g_values g)) (read_register reg r) /\ rho (read_register reg r) = x.
Proof.
  intros Hb Hx. apply lookup_lt_Some in Hx as Hr. rewrite (bd_R _ _ _ _ Hb) in Hr.
  unfold read_register. rewrite (proj2 (Z.ltb_lt _ _)) by (unfold TURBOJS_IR_MAX_REGISTERS; lia).
  destruct (lookup_lt_is_Some_2 reg (Z.to_nat r)) as [id Hid]; [by rewrite (bd_reg _ _ _ _ Hb)|].
  rewrite Hid. simpl. destruct (bd_agree _ _ _ _ Hb _ _ Hid) as [Ho HR]. split; [done|]. congruence.
Qed.

(** Emitting one value keeps the values explained; the new one computes [x]. *)
Lemma emit_explained rho mem g block op type l r imm src g' id x :
  straight rho (g_values g) -> covered (fun _ => 0) (g_values g) ->
  operand_ok (g_values g) (length (g_values g)) l -> operand_ok (g_values g) (length (g_values g)) r ->
  emit_value mem g block op type l r imm src = (g', id) -> id <> TURBOJS_SSA_NO_VALUE ->
  Z.of_nat (S (length (g_values g))) < TURBOJS_SSA_NO_VALUE ->
  let rho' := extended rho (Z.of_nat (length (g_values g))) x in
  explains rho' (new_value id block op type l r imm src) ->
  (nullary op = true -> l = TURBOJS_SSA_NO_VALUE /\ r = TURBOJS_SSA_NO_VALUE) ->
  (op = TURBOJS_SSA_ARGUMENT -> Forall (fun w => v_opcode w = TURBOJS_SSA_ARGUMENT) (g_values g)) ->
  id = Z.of_nat (length (g_values g)) /\ length (g_values g') = S (length (g_values g)) /\
  straight rho' (g_values g') /\ covered (fun _ => 0) (g_values g') /\
  (exists w, g_values g' !! length (g_values g) = Some w /\ w = new_value id block op type l r imm src) /\
  (forall i o, (i <= length (g_values g))%nat -> operand_ok (g_values g) i o -> operand_ok (g_values g') i o) /\
  (Forall (fun w => v_opcode w = TURBOJS_SSA_ARGUMENT) (g_values g) -> op = TURBOJS_SSA_ARGUMENT ->
   Forall (fun w => v_opcode w = TURBOJS_SSA_ARGUMENT) (g_values g')).
Proof.
  intros Hs Hc Hl Hr He Hid Hsz rho' Hex Hn Ha.
  destruct (emit_value_values rho mem g block op type l r imm src g' id Hs Hl Hr He Hid) as [Hid' Hv].
  set (v := new_value id block op type l r imm src) in *.
  set (vs := alter incr (Z.to_nat r) (alter incr (Z.to_nat l) (g_values g))) in *.
  assert (Hlen : length vs = length (g_values g)) by (unfold vs; by rewrite !length_alter).
  assert (Hop : forall i o, operand_ok (g_values g) i o -> operand_ok vs i o) by (intros; by do 2 apply operand_incr).
  assert (Hargs : Forall (fun w => v_opcode w = TURBOJS_SSA_ARGUMENT) (g_values g) ->
                  Forall (fun w => v_opcode w = TURBOJS_SSA_ARGUMENT) vs).
  { intros HF. unfold vs. apply Forall_alter; [apply Forall_alter|]; done. }
  rewrite Hv.
  assert (Hs' : straight rho' (vs ++ [v])).
  { unfold rho'. rewrite <-Hlen. apply straight_snoc; rewrite ?Hlen; auto. by do 2 apply straight_incr. }
  split; [done|]. split; [rewrite length_app, Hlen; simpl; lia|]. split; [done|].
  split; [by apply (covered_snoc rho (g_values g) v)|].
  split; [exists v; split; [|done]; rewrite <-Hlen; by apply list_lookup_middle|].
  split; [intros i o Hi Ho; apply operand_app; [by apply Hop|lia]|].
  intros HF ->. apply Forall_app. split; [by apply Hargs|]. by constructor.
Qed.

Lemma building_define rho mem g reg R block op type l r imm src g' id x d :
  building rho g reg R ->
  operand_ok (g_values g) (length (g_values g)) l -> operand_ok (g_values g) (length (g_values g)) r ->
  emit_value mem g block op type l r imm src = (g', id) -> id <> TURBOJS_SSA_NO_VALUE ->
  Z.of_nat (S (length (g_values g))) < TURBOJS_SSA_NO_VALUE ->
  explains (extended rho (Z.of_nat (length (g_values g))) x) (new_value id block op type l r imm src) ->
  (nullary op = true -> l = TURBOJS_SSA_NO_VALUE /\ r = TURBOJS_SSA_NO_VALUE) ->
  (op = TURBOJS_SSA_ARGUMENT -> Forall (fun w => v_opcode w = TURBOJS_SSA_ARGUMENT) (g_values g)) ->
  op <> TURBOJS_SSA_RETURN -> op <> TURBOJS_SSA_GUARD_INT32 -> (d < 64)%nat -> V x ->
  building (extended rho (Z.of_nat (length (g_values g))) x) g' (<[d := id]> reg) (<[d := x]> R) /\
  length (g_values g') = S (length (g_values g)).
Proof.
  intros [HVr Hs Hc Hreg HR Hag] Hl Hr He Hid Hsz Hex Hn Ha Ho1 Ho2 Hd HVx.
  destruct (emit_explained rho mem g block op type l r imm src g' id x) as (Hid' & Hlen & Hs' & Hc' & (w & Hw & Hwv) & Hmono & _);
    try done.
  split; [|done]. split; try done; rewrite ?length_insert; try done.
  { intros k. unfold extended. by case_match. }
  intros k id' Hk. rewrite Hlen. rewrite list_lookup_insert in Hk. case_decide as Hdk.
  - destruct Hdk as [-> _]. simplify_eq. rewrite list_lookup_insert_eq by lia. split.
    + right. split; [lia|]. exists (new_value (Z.of_nat (length (g_values g))) block op type l r imm src).
      rewrite Nat2Z.id. done.
    + unfold extended. by rewrite Z.eqb_refl.
  - destruct (Hag k id' Hk) as [Hok HRk]. split.
    + destruct (Hmono _ _ (le_n _) Hok) as [->|(Hb & y & Hy)]; [by left|right]. split; [lia|]. eauto.
    + rewrite (extended_operand rho (g_values g) (length (g_values g)) id' x) by done.
      rewrite list_lookup_insert_ne; [done|]. intros ->. apply lookup_lt_Some in Hk. naive_solver lia.
Qed.

(** ** The instructions of the straight-line fragment *)

Definition faithful (op : TurboJSIROpcode) : bool :=
  match op with
  | TURBOJS_IR_NOP | TURBOJS_IR_ARGUMENT | TURBOJS_IR_CONSTANT_I64 | TURBOJS_IR_ADD_I64 | TURBOJS_IR_SUB_I64
  | TURBOJS_IR_MUL_I64 | TURBOJS_IR_LESS_THAN_I64 => true
  | _ => false
  end.

Section Execution.
Context (hp : Heap) (native_i64 native_f64 : Z -> list Z -> TurboJSIRStatus * Z) (f : TurboJSIRFunction).

(** The graph after an emission that defines a register. *)
Lemma build_define rho mem bi ii ins g reg g' reg' R op l r x :
  building rho g reg R -> Z.of_nat (S (length (g_values g))) < TURBOJS_SSA_NO_VALUE ->
  operand_ok (g_values g) (length (g_values g)) l -> operand_ok (g_values g) (length (g_values g)) r ->
  (let '(g1, id) := emit_value mem g (Z.of_nat bi) op (type_for (in_opcode ins)) l r (in_immediate ins) ii in
   if id =? TURBOJS_SSA_NO_VALUE then None
   else Some (g1, if (in_destination ins <? TURBOJS_IR_MAX_REGISTERS) && true
                  then <[Z.to_nat (in_destination ins) := id]> reg else reg)) = Some (g', reg') ->
  (Z.to_nat (in_destination ins) < 64)%nat ->
  (forall id, id = Z.of_nat (length (g_values g)) ->
     explains (extended rho id x) (new_value id (Z.of_nat bi) op (type_for (in_opcode ins)) l r (in_immediate ins) ii)) ->
  (nullary op = true -> l = TURBOJS_SSA_NO_VALUE /\ r = TURBOJS_SSA_NO_VALUE) ->
  (op = TURBOJS_SSA_ARGUMENT -> Forall (fun w => v_opcode w = TURBOJS_SSA_ARGUMENT) (g_values g)) ->
  op <> TURBOJS_SSA_RETURN -> op <> TURBOJS_SSA_GUARD_INT32 -> V x ->
  exists rho', building rho' g' reg' (<[Z.to_nat (in_destination ins) := x]> R) /\
    (length (g_values g') <= S (length (g_values g)))%nat /\
    (op = TURBOJS_SSA_ARGUMENT -> Forall (fun w => v_opcode w = TURBOJS_SSA_ARGUMENT) (g_values g')).
Proof.
  intros Hb Hsz Hl Hr He Hd Hex Hn Ha Ho1 Ho2 HVx. destruct (emit_value _ _ _ _ _ _ _ _ _) as [g1 id] eqn:Hem.
  destruct (Z.eqb_spec id TURBOJS_SSA_NO_VALUE) as [|Hid]; [done|].
  rewrite andb_true_r, (proj2 (Z.ltb_lt _ _)) in He by (unfold TURBOJS_IR_MAX_REGISTERS; lia). injection He as <- <-.
  destruct (emit_value_values rho _ _ _ _ _ _ _ _ _ _ _ (bd_straight _ _ _ _ Hb) Hl Hr Hem Hid) as [Hid' _].
  specialize (Hex id Hid').
  destruct (building_define rho mem g reg R _ _ _ _ _ _ _ g1 id x (Z.to_nat (in_destination ins)) Hb Hl Hr Hem Hid Hsz)
    as [Hb' Hlen]; try done; [by rewrite <-Hid'|].
  eexists. split; [exact Hb'|]. split; [lia|]. intros ->.
  edestruct (emit_explained rho) as (_ & _ & _ & _ & _ & _ & Hargs);
    [apply Hb|apply Hb|exact Hl|exact Hr|exact Hem|exact Hid|exact Hsz| |exact Hn|exact Ha|].
  - rewrite <-Hid'. exact Hex.
  - apply Hargs; [by apply Ha|done].
Qed.

(** A binary operation: interpreter and construction side by side. *)
Lemma build_binary rho mem bi ii ins g reg g' reg' R locals pc R' locals' pc' op k :
  building rho g reg R -> Z.of_nat (S (length (g_values g))) < TURBOJS_SSA_NO_VALUE ->
  map_op (in_opcode ins) = op -> foldable op = true -> is_branch (in_opcode ins) = false ->
  (forall l r x, fold_binary op l r = Some x -> in_i64 x = true) ->
  rd R (in_left ins) (fun l => rd R (in_right ins) (fun r => k l r)) = Next R' locals' pc' ->
  (forall l r, k l r = arith (fold_binary op l r) (fun v => wr R (in_destination ins) v (fun regs => Next regs locals (S pc)))) ->
  build_instruction mem bi ii ins g reg = Some (g', reg') ->
  exists rho', building rho' g' reg' R' /\ pc' = S pc /\ (length (g_values g') <= S (length (g_values g)))%nat.
Proof.
  intros Hb Hsz Hop Hfold Hbr Hi64 Hrd Hk Hbuild. unfold rd in Hrd.
  destruct (R !! Z.to_nat (in_left ins)) as [l|] eqn:Hl; [|done].
  destruct (R !! Z.to_nat (in_right ins)) as [r|] eqn:Hr; [|done].
  rewrite Hk in Hrd. unfold arith in Hrd. destruct (fold_binary op l r) as [x|] eqn:Hx; [|done].
  unfold wr in Hrd. destruct (_ <? _)%nat eqn:Hd; [|done]. injection Hrd as <- <- <-.
  apply Nat.ltb_lt in Hd. rewrite (bd_R _ _ _ _ Hb) in Hd.
  destruct (read_register_ok rho g reg R _ _ Hb Hl) as [Hol Hvl]. destruct (read_register_ok rho g reg R _ _ Hb Hr) as [Hor Hvr].
  unfold build_instruction in Hbuild. rewrite Hop, Hbr in Hbuild.
  destruct (build_define rho mem bi ii ins g reg g' reg' R op _ _ x Hb Hsz Hol Hor) as (rho' & Hb' & Hlen & _).
  - by destruct op.
  - done.
  - intros id ->. unfold SSACorrect.explains. cbn [v_opcode v_left v_right v_id new_value].
    rewrite !(extended_operand rho (g_values g) (length (g_values g))) by (done || apply Hb).
    rewrite Hvl, Hvr. unfold extended. rewrite Z.eqb_refl. by destruct op.
  - by destruct op.
  - by destruct op.
  - by destruct op.
  - by destruct op.
  - apply HV. by eapply Hi64.
  - eauto.
Qed.

Ltac binary_case op :=
  match goal with
  | Hb : building ?rho ?g ?reg ?R, Hsz : _ < TURBOJS_SSA_NO_VALUE, Eop : in_opcode ?ins = _,
    Hex : rd _ _ _ = _, Hbuild : build_instruction _ _ _ _ _ _ = _ |- _ =>
      eapply (build_binary rho _ _ _ _ _ _ _ _ _ _ _ _ _ _ op);
        [exact Hb|exact Hsz|by rewrite Eop|reflexivity|by rewrite Eop|
         cbn [fold_binary]; unfold c_i64, b2n; intros; repeat case_match; by simplify_eq|exact Hex|intros; reflexivity|exact Hbuild]
  end.

Lemma build_body_step rho mem bi ii ins g reg g' reg' R locals pc R' locals' pc' :
  building rho g reg R -> Z.of_nat (S (length (g_values g))) < TURBOJS_SSA_NO_VALUE ->
  faithful (in_opcode ins) = true -> V (in_immediate ins) ->
  execute_step hp native_i64 native_f64 f ins R locals pc = Next R' locals' pc' ->
  build_instruction mem bi ii ins g reg = Some (g', reg') ->
  exists rho', building rho' g' reg' R' /\ pc' = S pc /\ (length (g_values g') <= S (length (g_values g)))%nat.
Proof.
  intros Hb Hsz Hf HVi Hex Hbuild. unfold execute_step in Hex.
  destruct (in_opcode ins) eqn:Eop; try discriminate; simpl in Hf; try discriminate.
  - injection Hex as <- <- <-. unfold build_instruction in Hbuild. rewrite Eop in Hbuild. simpl in Hbuild.
    injection Hbuild as <- <-. eauto.
  - unfold wr in Hex. destruct (_ <? _)%nat eqn:Hd; [|done]. injection Hex as <- <- <-.
    apply Nat.ltb_lt in Hd. rewrite (bd_R _ _ _ _ Hb) in Hd.
    unfold build_instruction in Hbuild. rewrite Eop in Hbuild. simpl in Hbuild.
    destruct (build_define rho mem bi ii ins g reg g' reg' R TURBOJS_SSA_CONSTANT_I64
                TURBOJS_SSA_NO_VALUE TURBOJS_SSA_NO_VALUE (in_immediate ins) Hb Hsz) as (rho' & Hb' & Hlen & _);
      try done; [by left|by left|by rewrite Eop| |eauto].
    intros id ->. unfold SSACorrect.explains. simpl. unfold extended. by rewrite Z.eqb_refl.
  - binary_case TURBOJS_SSA_ADD_I64.
  - binary_case TURBOJS_SSA_SUB_I64.
  - binary_case TURBOJS_SSA_MUL_I64.
  - binary_case TURBOJS_SSA_LESS_THAN_I64.
Qed.

(** The final return. *)
Lemma build_return rho mem bi ii ins g reg g' reg' R locals pc :
  building rho g reg R -> Z.of_nat (S (length (g_values g))) < TURBOJS_SSA_NO_VALUE ->
  in_opcode ins = TURBOJS_IR_RETURN_I64 ->
  execute_step hp native_i64 native_f64 f ins R locals pc = Halt (Result result) ->
  build_instruction mem bi ii ins g reg = Some (g', reg') ->
  exists rho', sound arguments result rho' g' /\ (forall id, V (rho' id)) /\ (length (g_values g') <= S (length (g_values g)))%nat.
Proof.
  intros Hb Hsz Eop Hex Hbuild. unfold execute_step in Hex. rewrite Eop in Hex. unfold rd in Hex.
  destruct (R !! Z.to_nat (in_left ins)) as [x|] eqn:Hl; [|done]. injection Hex as ->.
  destruct (read_register_ok rho g reg R _ _ Hb Hl) as [Hol Hvl].
  unfold build_instruction in Hbuild. rewrite Eop in Hbuild. simpl in Hbuild.
  destruct (emit_value _ _ _ _ _ _ _ _ _) as [g1 id] eqn:Hem. destruct (Z.eqb_spec id TURBOJS_SSA_NO_VALUE) as [|Hid]; [done|].
  injection Hbuild as <- _.
  edestruct (emit_explained rho) as (Hid' & Hlen & Hs' & Hc' & (w & Hw & Hwv) & _);
    [apply Hb|apply Hb|exact Hol|by left|exact Hem|exact Hid|exact Hsz| |done|done|].
  - instantiate (1 := 0). unfold SSACorrect.explains. simpl.
    rewrite (extended_operand rho (g_values g) (length (g_values g))) by (done || apply Hb). done.
  - eexists. split; [split; [exact Hs'|exact Hc'|]; exists (length (g_values g)), w; by subst w|].
    split; [|by rewrite Hlen]. intros k. unfold extended. destruct (_ =? _); [by apply HV|apply Hb].
Qed.

Lemma build_body body ret : forall fuel rho mem bi ii g reg g' reg' R locals pc,
  Forall (fun i => faithful (in_opcode i) = true) body -> Forall (fun i => V (in_immediate i)) body ->
  in_opcode ret = TURBOJS_IR_RETURN_I64 ->
  drop pc (f_instructions f) = body ++ [ret] -> building rho g reg R ->
  Z.of_nat (length (g_values g) + S (length body)) < TURBOJS_SSA_NO_VALUE ->
  execute_loop hp native_i64 native_f64 fuel f R locals pc = Result result ->
  build_instructions mem bi ii (body ++ [ret]) g reg = Some (g', reg') ->
  exists rho', sound arguments result rho' g' /\ (forall id, V (rho' id)) /\
    (length (g_values g') <= length (g_values g) + S (length body))%nat.
Proof.
  induction body as [|ins body IH]; intros fuel rho mem bi ii g reg g' reg' R locals pc Hbody HVb Hret Hdrop Hb Hsz Hex Hbuild.
  - assert (Hpc : f_instructions f !! pc = Some ret) by (rewrite <-(Nat.add_0_r pc), <-lookup_drop, Hdrop; done).
    destruct fuel as [|fuel]; simpl in Hex; rewrite Hpc in Hex; [done|]. simpl in Hbuild.
    destruct (build_instruction mem bi ii ret g reg) as [[g1 reg1]|] eqn:Hi; [|done]. injection Hbuild as <- <-.
    assert (Hstep : execute_step hp native_i64 native_f64 f ret R locals pc = Halt (Result result)).
    { revert Hex. unfold execute_step. rewrite Hret. unfold rd. destruct (R !! Z.to_nat (in_left ret)); congruence. }
    destruct (build_return rho mem bi ii ret g reg g1 reg1 R locals pc) as (rho' & Hs & HVr & Hl); try done.
    + simpl in Hsz. lia.
    + exists rho'. split; [done|]. split; [done|]. simpl. lia.
  - apply Forall_cons in Hbody as [Hf Hbody]. apply Forall_cons in HVb as [HVi HVb].
    assert (Hpc : f_instructions f !! pc = Some ins) by (rewrite <-(Nat.add_0_r pc), <-lookup_drop, Hdrop; done).
    destruct fuel as [|fuel]; simpl in Hex; rewrite Hpc in Hex; [done|]. simpl in Hbuild.
    destruct (build_instruction mem bi ii ins g reg) as [[g1 reg1]|] eqn:Hi; [|done].
    destruct (execute_step hp native_i64 native_f64 f ins R locals pc) as [R1 locals1 pc1|o] eqn:Hst.
    + destruct (build_body_step rho mem bi ii ins g reg g1 reg1 R locals pc R1 locals1 pc1) as (rho1 & Hb1 & -> & Hl1); try done.
      { simpl in Hsz. lia. }
      assert (Hd1 : drop (S pc) (f_instructions f) = body ++ [ret]).
      { rewrite <-Nat.add_1_r, <-drop_drop, Hdrop. done. }
      destruct (IH fuel rho1 mem bi (ii + 1) g1 reg1 g' reg' R1 locals1 (S pc)) as (rho' & Hs & HVr & Hl); try done.
      { simpl in Hsz. lia. }
      exists rho'. split; [done|]. split; [done|]. simpl. lia.
    + exfalso. subst o. revert Hst. unfold execute_step, wr, rd, arith.
      destruct (in_opcode ins); try done; repeat case_match; congruence.
Qed.

Lemma build_argument rho mem bi ii ins g reg g' reg' R x :
  building rho g reg R -> Z.of_nat (S (length (g_values g))) < TURBOJS_SSA_NO_VALUE ->
  in_opcode ins = TURBOJS_IR_ARGUMENT -> operands_ok hp f ins ->
  Forall (fun w => v_opcode w = TURBOJS_SSA_ARGUMENT) (g_values g) ->
  arguments !! Z.to_nat (in_immediate ins) = Some x -> V x -> (Z.to_nat (in_destination ins) < 64)%nat ->
  build_instruction mem bi ii ins g reg = Some (g', reg') ->
  exists rho', building rho' g' reg' (<[Z.to_nat (in_destination ins) := x]> R) /\
    (length (g_values g') <= S (length (g_values g)))%nat /\
    Forall (fun w => v_opcode w = TURBOJS_SSA_ARGUMENT) (g_values g').
Proof.
  intros Hb Hsz Eop [ret Hop] Hargs Hx HVx Hd Hbuild.
  assert (Himm : 0 <= in_immediate ins).
  { unfold verify_instruction in Hop. rewrite Eop in Hop. do 2 (case_match; [done|]). b2p. done. }
  unfold build_instruction in Hbuild. rewrite Eop in Hbuild. simpl in Hbuild.
  destruct (build_define rho mem bi ii ins g reg g' reg' R TURBOJS_SSA_ARGUMENT
              TURBOJS_SSA_NO_VALUE TURBOJS_SSA_NO_VALUE x Hb Hsz) as (rho' & Hb' & Hlen & Ha);
    try done; [by left|by left|by rewrite Eop| |eauto 10].
  intros id ->. unfold SSACorrect.explains. simpl. unfold extended. rewrite Z.eqb_refl. done.
Qed.

Context (HVa : Forall V arguments).

Lemma build_prologue body ret : forall rho mem bi ii g reg g' reg' R pc,
  Forall (fun i => faithful (in_opcode i) = true) body -> Forall (fun i => V (in_immediate i)) body ->
  in_opcode ret = TURBOJS_IR_RETURN_I64 -> Forall (operands_ok hp f) body ->
  drop pc (f_instructions f) = body ++ [ret] -> building rho g reg R ->
  Forall (fun w => v_opcode w = TURBOJS_SSA_ARGUMENT) (g_values g) ->
  Z.of_nat (length (g_values g) + S (length body)) < TURBOJS_SSA_NO_VALUE ->
  argument_prologue hp native_i64 native_f64 f arguments R pc (body ++ [ret]) = Result result ->
  build_instructions mem bi ii (body ++ [ret]) g reg = Some (g', reg') ->
  exists rho', sound arguments result rho' g' /\ (forall id, V (rho' id)) /\
    (length (g_values g') <= length (g_values g) + S (length body))%nat.
Proof.
  induction body as [|ins body IH]; intros rho mem bi ii g reg g' reg' R pc Hbody HVb Hret Hops Hdrop Hb Hargs Hsz Hex Hbuild.
  - simpl in Hex. rewrite decide_False in Hex by (by rewrite Hret). by eapply (build_body [] ret).
  - simpl in Hex. destruct (decide (in_opcode ins = TURBOJS_IR_ARGUMENT)) as [Eop|]; [|by eapply (build_body (ins :: body) ret)].
    apply Forall_cons in Hbody as [Hf Hbody]. apply Forall_cons in HVb as [HVi HVb]. apply Forall_cons in Hops as [Hop Hops].
    destruct (arguments !! Z.to_nat (in_immediate ins)) as [x|] eqn:Hx; [|done].
    destruct (_ <? _)%nat eqn:Hd in Hex; [|done]. apply Nat.ltb_lt in Hd. rewrite (bd_R _ _ _ _ Hb) in Hd.
    simpl in Hbuild. destruct (build_instruction mem bi ii ins g reg) as [[g1 reg1]|] eqn:Hi; [|done].
    destruct (build_argument rho mem bi ii ins g reg g1 reg1 R x) as (rho1 & Hb1 & Hl1 & Ha1); try done.
    { simpl in Hsz. lia. }
    { by eapply Forall_lookup_1 in HVa. }
    assert (Hd1 : drop (S pc) (f_instructions f) = body ++ [ret]).
    { rewrite <-Nat.add_1_r, <-drop_drop, Hdrop. done. }
    destruct (IH rho1 mem bi (ii + 1) g1 reg1 g' reg' (<[Z.to_nat (in_destination ins) := x]> R) (S pc)) as (rho' & Hs & HVr & Hl); try done.
    { simpl in Hsz. lia. }
    exists rho'. split; [done|]. split; [done|]. simpl. lia.
Qed.
End Execution.
End Append.

(** ** Construction *)

(** A function without control flow: faithful instructions and a final return. *)
Definition straight_line (f : TurboJSIRFunction) : Prop :=
  exists body ret, f_instructions f = body ++ [ret] /\ in_opcode ret = TURBOJS_IR_RETURN_I64 /\
    Forall (fun i => faithful (in_opcode i) = true) body.

Lemma faithful_no_leader : forall l init,
  Forall (fun e : nat * TurboJSIRInstruction => faithful (in_opcode e.2) = true) l -> foldl mark_leader init l = init.
Proof.
  intros l init HF. induction HF as [|[i ins] l Hi _ IH]; [done|]. simpl. simpl in Hi.
  destruct (in_opcode ins); try discriminate; apply IH.
Qed.

Lemma straight_line_leaders body ret :
  in_opcode ret = TURBOJS_IR_RETURN_I64 -> Forall (fun i => faithful (in_opcode i) = true) body ->
  find_leaders (body ++ [ret]) = true :: replicate (length body) false.
Proof.
  intros Hret Hbody. unfold find_leaders.
  assert (Hinit : <[O := true]> (replicate (length (body ++ [ret])) false) = true :: replicate (length body) false).
  { rewrite length_app, Nat.add_comm. done. }
  rewrite Hinit, imap_app, foldl_app, (faithful_no_leader (imap pair body)).
  - simpl. unfold mark_leader. rewrite Hret. simpl. rewrite Nat.add_0_r.
    rewrite list_insert_ge; [done|]. by rewrite length_replicate.
  - apply Forall_lookup. intros k [j ins] Hk. rewrite list_lookup_imap in Hk.
    destruct (body !! k) eqn:Hbk; simplify_eq/=. by eapply Forall_lookup_1 in Hbody.
Qed.

Lemma create_blocks_plain mem : forall n g i, create_blocks mem g i (replicate n false) = Some g.
Proof. induction n as [|n IH]; intros g i; [done|]. apply IH. Qed.

(** One block, over all the instructions, without edges. *)
Lemma straight_line_blocks leader mem f g :
  straight_line f -> build_blocks leader mem f TurboJS_SSAGraphInit = Some g ->
  exists b, g_blocks g = [b] /\ b_predecessors b = [] /\ b_first_instruction b = 0 /\
    b_instruction_count b = f_instruction_count f /\ g_values g = [].
Proof.
  intros (body & ret & Hf & Hret & Hbody). unfold build_blocks.
  destruct (f_instruction_count f =? 0); [done|]. destruct leader; cbn [negb]; [|done].
  rewrite Hf, straight_line_leaders by done. simpl create_blocks.
  destruct (reserve_blocks mem TurboJS_SSAGraphInit _) as [g0|] eqn:Hres; [|done].
  assert (g_blocks g0 = [] /\ g_values g0 = []) as [Hb0 Hv0].
  { unfold reserve_blocks in Hres. destruct (grow_array _ _ _ _ _); simplify_eq. done. }
  simpl. rewrite create_blocks_plain. simpl. rewrite Hb0. simpl. unfold connect_block. simpl.
  rewrite Z.add_0_l. destruct (f_instructions f !! _) as [ins|] eqn:Hins; [|done].
  assert (ins = ret) as ->.
  { unfold f_instruction_count in Hins. rewrite Hf, length_app in Hins. simpl in Hins.
    replace (Z.to_nat _) with (length body) in Hins by lia. rewrite list_lookup_middle in Hins by done. congruence. }
  rewrite Hret. intros [= <-]. simpl. eexists. split; [done|]. simpl. rewrite Z.sub_0_r, Hv0. done.
Qed.

Lemma merge_registers_entry mem out bi first g :
  merge_registers mem out bi [] first g = (g, replicate registers TURBOJS_SSA_NO_VALUE).
Proof. reflexivity. Qed.

Lemma building_initial arguments result (V : Z -> Prop) g :
  V 0 -> g_values g = [] -> building arguments result V (fun _ => 0) g (replicate registers TURBOJS_SSA_NO_VALUE) zero_array.
Proof.
  intros HV0 Hv. split; rewrite ?Hv; try done.
  intros r id [-> Hr]%lookup_replicate. split; [by left|].
  unfold zero_array. apply lookup_replicate. done.
Qed.

(** The analyses after construction leave the values alone. *)
Lemma build_from_ir_values mem f g :
  TurboJS_SSABuildFromIR mem f = Some (TURBOJS_IR_OK, g) ->
  exists g0 g1, build_blocks (bm_leader mem) (bm_grow mem) f TurboJS_SSAGraphInit = Some g0 /\
    build_values (bm_grow mem) f (seq 0 (length (g_blocks g0))) g0
      (replicate (length (g_blocks g0)) (replicate registers TURBOJS_SSA_NO_VALUE)) = Some g1 /\
    g_values g = g_values g1.
Proof.
  unfold TurboJS_SSABuildFromIR. destruct (build_blocks _ _ _ _) as [g0|] eqn:Hb; [|done].
  destruct (bm_out mem); [|done]. cbn [negb]. destruct (build_values _ _ _ _ _) as [g1|] eqn:Hv; [|done].
  intros H. exists g0, g1. split; [done|]. split; [done|].
  destruct (TurboJS_SSAComputeDominators _ _) as [[st g2]|] eqn:Hd; [|done].
  destruct (TurboJS_SSAComputeDominanceFrontiers g2) as [[st' g3]|] eqn:Hf; [|done]. injection H as _ <-.
  transitivity (g_values g3); [done|]. transitivity (g_values g2).
  - revert Hf. unfold TurboJS_SSAComputeDominanceFrontiers. destruct (_ || _); [by intros [= _ <-]|].
    destruct (frontier_blocks _ _ _); [by intros [= _ <-]|done].
  - revert Hd. unfold TurboJS_SSAComputeDominators.
    assert (Hm : g_values (mark_reachable g1) = g_values g1) by (unfold mark_reachable; by case_match).
    destruct (_ || _); [by intros [= _ <-]|]. destruct (bm_dom mem); [|by intros [= _ <-]]. cbn [negb].
    destruct (dominator_sets _); [by intros [= _ <-]|done].
Qed.

(** The graph of a straight-line function is explained by its run; what holds
    of 64-bit numbers, arguments and immediates holds of the numbers. *)
Lemma build_ranged (V : Z -> Prop) hp native_i64 native_f64 mem f arguments result g :
  (forall x, in_i64 x = true -> V x) -> Forall V arguments -> Forall (fun i => V (in_immediate i)) (f_instructions f) ->
  straight_line f -> f_instruction_count f < UINT32_MAX ->
  TurboJS_IRExecute hp native_i64 native_f64 f arguments = Result result ->
  TurboJS_SSABuildFromIR mem f = Some (TURBOJS_IR_OK, g) ->
  exists rho, sound arguments result rho g /\ (forall id, V (rho id)) /\ Z.of_nat (length (g_values g)) <= f_instruction_count f.
Proof.
  intros HV HVa HVi Hsl Hn Hex Hbuild. destruct (build_from_ir_values mem f g Hbuild) as (g0 & g1 & Hb & Hv & Heq).
  destruct (straight_line_blocks _ _ f g0 Hsl Hb) as (b & Hbs & Hpreds & Hfirst & Hcount & Hv0).
  destruct Hsl as (body & ret & Hf & Hret & Hbody).
  unfold TurboJS_IRExecute in Hex. destruct (_ <? _); [done|].
  destruct (TurboJS_IRVerify hp f) as [d|] eqn:Hd; [|done]. case_decide as Hok; [|done].
  assert (Hacc : ir_accepted hp f).
  { apply ir_verify_ok_iff. rewrite Hd. f_equal. eauto using ir_verify_status_ok. }
  rewrite Hbs in Hv. simpl in Hv. rewrite Hbs in Hv. simpl in Hv.
  rewrite Hpreds, Hfirst, Hcount, merge_registers_entry in Hv. unfold f_instruction_count in Hv, Hn |- *.
  rewrite drop_0, Nat2Z.id, take_ge in Hv by done. rewrite Hf in Hv.
  match type of Hv with context [build_instructions ?m ?bi ?ii ?l ?ga ?ra] =>
    destruct (build_instructions m bi ii l ga ra) as [[g2 reg2]|] eqn:Hi; [|done]; set (g0' := ga) in * end.
  injection Hv as ->. rewrite Hf in Hn |- *. rewrite Hf in Hex.
  destruct (build_prologue arguments result V HV hp native_i64 native_f64 f HVa body ret (fun _ => 0) (bm_grow mem) 0 0 g0'
              (replicate registers TURBOJS_SSA_NO_VALUE) g1 reg2 zero_array 0) as (rho & Hs & HVr & Hl); try done.
  - rewrite Hf in HVi. by apply Forall_app in HVi as [HVi _].
  - pose proof (acc_operands _ _ Hacc) as Ho. rewrite Hf in Ho. by apply Forall_app in Ho as [Ho _].
  - apply building_initial; [by apply HV|done].
  - unfold g0'. simpl. by rewrite Hv0.
  - rewrite length_app in Hn. simpl in Hn. unfold g0'. simpl. rewrite Hv0. simpl. done || (unfold TURBOJS_SSA_NO_VALUE; lia).
  - exists rho. split; [|split; [done|]].
    + destruct Hs as [H1 H2 H3]. split; by rewrite Heq.
    + rewrite Heq, length_app. unfold g0' in Hl. simpl in Hl. rewrite Hv0 in Hl. simpl in Hl |- *. lia.
Qed.

Lemma build_sound hp native_i64 native_f64 mem f arguments result g :
  straight_line f -> f_instruction_count f < UINT32_MAX ->
  TurboJS_IRExecute hp native_i64 native_f64 f arguments = Result result ->
  TurboJS_SSABuildFromIR mem f = Some (TURBOJS_IR_OK, g) ->
  exists rho, sound arguments result rho g /\ Z.of_nat (length (g_values g)) <= f_instruction_count f.
Proof.
  intros Hsl Hn Hex Hb.
  destruct (build_ranged (fun _ => True) hp native_i64 native_f64 mem f arguments result g) as (rho & Hs & _ & Hl);
    try done; [by apply Forall_true..|]. eauto.
Qed.

(** ** Speculation from feedback *)

Section Speculation.
Context (arguments : list Z) (result : Z).
Notation sound := (sound arguments result).

Lemma sound_update rho g i f :
  (forall v, same_meaning v (f v) /\ v_use_count v <= v_use_count (f v)) ->
  sound rho g -> sound rho (update_value g i f).
Proof.
  intros Hf [Hs Hc Hr]. split; simpl.
  - apply straight_same; [|done]. intros. apply Hf.
  - apply covered_same; [|done]. intros. apply Hf.
  - apply has_return_same; [|done]. intros. apply Hf.
Qed.

(** A guard of a live argument computes the argument. *)
Lemma emit_guard_sound rho mem g a i block type imm src g' id :
  sound rho g -> g_values g !! i = Some a -> v_removed a = false -> v_opcode a = TURBOJS_SSA_ARGUMENT ->
  Z.of_nat (S (length (g_values g))) < TURBOJS_SSA_NO_VALUE ->
  emit_value mem g block TURBOJS_SSA_GUARD_INT32 type (v_id a) TURBOJS_SSA_NO_VALUE imm src = (g', id) ->
  id <> TURBOJS_SSA_NO_VALUE ->
  exists rho', sound rho' g' /\ (forall k, exists k', rho' k = rho k') /\ length (g_values g') = S (length (g_values g)).
Proof.
  intros [Hs Hc Hr] Ha Hrm Hop Hsz Hem Hid. apply lookup_lt_Some in Ha as Hi.
  pose proof (s_ids _ _ _ _ Hs _ _ Ha) as Hida.
  assert (Hl : operand_ok (g_values g) (length (g_values g)) (v_id a)).
  { right. split; [lia|]. exists a. rewrite Hida, Nat2Z.id, Hop. done. }
  destruct (emit_value_values arguments result rho _ _ _ _ _ _ _ _ _ _ _ Hs Hl ltac:(by left) Hem Hid) as [Hid' Hv].
  edestruct (emit_explained arguments result rho) with (x := rho (v_id a)) as (_ & Hlen & Hs' & Hc' & _);
    [exact Hs|exact Hc|exact Hl|by left|exact Hem|exact Hid|exact Hsz| |done|done|].
  - unfold SSACorrect.explains. simpl.
    rewrite (extended_operand arguments result rho (g_values g) (length (g_values g)) (v_id a)) by done.
    unfold extended. by rewrite Hid', Z.eqb_refl.
  - eexists. split; [split; [exact Hs'|exact Hc'|]|].
    + rewrite Hv. apply (has_return_same _ incr (Z.to_nat (v_id a))) in Hr; [|done].
      apply (has_return_same _ incr (Z.to_nat TURBOJS_SSA_NO_VALUE)) in Hr; [|done].
      destruct Hr as (k & w & Hw & Hwr). exists k, w. split; [|done]. by apply lookup_app_l_Some.
    + split; [|exact Hlen]. intros k. unfold extended. destruct (_ =? _); eauto.
Qed.

Lemma specialize_values_sound mem fv : forall ids rho g n g' n',
  sound rho g -> Z.of_nat (length (g_values g) + length ids) < TURBOJS_SSA_NO_VALUE ->
  specialize_values mem fv ids g n = (TURBOJS_IR_OK, g', n') ->
  exists rho', sound rho' g' /\ forall k, exists k', rho' k = rho k'.
Proof.
  induction ids as [|i ids IH]; intros rho g n g' n' Hs Hsz H; simpl in H; [simplify_eq; eauto|].
  simpl in Hsz. assert (Hskip : specialize_values mem fv ids g n = (TURBOJS_IR_OK, g', n') ->
    exists rho', sound rho' g' /\ forall k, exists k', rho' k = rho k').
  { intros H'. eapply (IH rho g); [done|lia|done]. }
  destruct (g_values g !! i) as [a|] eqn:Ha; [|auto].
  destruct (live TURBOJS_SSA_ARGUMENT a) eqn:Hlive; cbn [negb] in H; [|auto].
  destruct (_ || _) in H; [auto|]. destruct (fv_arguments fv !! _) as [slot|]; [|auto].
  destruct (_ || _) in H; [auto|].
  apply andb_prop in Hlive as [Hrm Hop]. apply negb_true_iff in Hrm. apply bool_decide_eq_true in Hop.
  assert (Hs1 : sound rho (update_value g (Z.of_nat i) (v_set_type TURBOJS_SSA_TYPE_INT32))).
  { by apply sound_update. }
  set (g1 := update_value g (Z.of_nat i) _) in *.
  assert (Ha1 : g_values g1 !! i = Some (v_set_type TURBOJS_SSA_TYPE_INT32 a)).
  { unfold g1. simpl. rewrite Nat2Z.id, list_lookup_alter_eq, Ha. done. }
  assert (Hl1 : length (g_values g1) = length (g_values g)) by (unfold g1; simpl; by rewrite length_alter).
  destruct (emit_value mem g1 _ _ _ _ _ _ _) as [g2 id] eqn:Hem.
  destruct (Z.eqb_spec id TURBOJS_SSA_NO_VALUE) as [|Hid]; [done|].
  destruct (emit_guard_sound rho mem g1 (v_set_type TURBOJS_SSA_TYPE_INT32 a) i (v_block a) TURBOJS_SSA_TYPE_INT32
              (v_immediate a) (v_source_instruction a) g2 id) as (rho2 & Hs2 & Hk2 & Hl2); try done; [lia|].
  set (g3 := update_value g2 id (v_set_deopt (g_deopt_exit_count g2))) in *.
  assert (Hs3 : sound rho2 g3) by (by apply sound_update).
  destruct (fun Ha Hb => IH rho2 _ _ _ _ Ha Hb H) as (rho3 & Hs4 & Hk3); [by destruct Hs3|simpl; rewrite length_alter, Hl2, Hl1; lia|].
  exists rho3. split; [done|]. intros k. destruct (Hk3 k) as [k1 ->]. apply Hk2.
Qed.
End Speculation.

(** The optimizer's input: the graph of a straight-line function, speculated
    on or not. *)
Lemma specialize_sound arguments result mem fv rho g g' n :
  sound arguments result rho g -> 2 * Z.of_nat (length (g_values g)) < TURBOJS_SSA_NO_VALUE ->
  TurboJS_SSASpecializeFromFeedback mem g fv = (TURBOJS_IR_OK, g', n) ->
  exists rho', sound arguments result rho' g' /\ forall k, exists k', rho' k = rho k'.
Proof.
  intros Hs Hsz. unfold TurboJS_SSASpecializeFromFeedback. destruct (block_count g =? 0); [done|].
  intros H. eapply specialize_values_sound; [exact Hs| |exact H]. rewrite length_seq. lia.
Qed.
