(* ===== verification/LinearScan.v ===== *)
(** * Linear-scan register allocation (src/jit/optimizing/linear_scan.c)

    Positions are numbered along the reverse postorder of the control-flow
    graph; every value gets a live interval; the intervals are visited in the
    order of their starts and given a register, a spill slot, or the register
    of a less useful interval, which is split there.

    The C arrays are lists.  [active] holds pointers into the interval array;
    here it holds their indices.  An attempt has three outcomes: a result, a
    failed allocation ([goto oom]), and undefined behaviour (an access outside
    an array). *)

From stdpp Require Import sorting.
From S2P Require Import Prelude.
From S2P Require Import JitTypes.
From S2P Require Import SSA.

(** ** Attempts *)

Inductive Attempt (A : Type) :=
  | Got (a : A)
  | Oom
  | Ub.
Arguments Got {A} a.
Arguments Oom {A}.
Arguments Ub {A}.

Definition attempt_bind {A B : Type} (m : Attempt A) (k : A -> Attempt B) : Attempt B :=
  match m with Got a => k a | Oom => Oom | Ub => Ub end.
Notation "'let!' x ':=' c 'in' k" := (attempt_bind c (fun x => k))
  (at level 200, x pattern, k at level 200, right associativity) : jit_scope.

(** An array access. *)
Definition reading {A : Type} (o : option A) : Attempt A := match o with Some a => Got a | None => Ub end.
Definition writing {A : Type} (i : Z) (a : A) (l : list A) : Attempt (list A) :=
  if (0 <=? i) && (i <? Z.of_nat (length l)) then Got (<[Z.to_nat i := a]> l) else Ub.
Definition at_index {A : Type} (l : list A) (i : Z) : Attempt A :=
  if (0 <=? i) && (i <? Z.of_nat (length l)) then reading (l !! Z.to_nat i) else Ub.
(** An allocation. *)
Definition granted (b : bool) : Attempt unit := if b then Got tt else Oom.

Fixpoint fold_attempt {S A : Type} (body : S -> A -> Attempt S) (s : S) (l : list A) : Attempt S :=
  match l with
  | [] => Got s
  | a :: l => match body s a with Got s => fold_attempt body s l | Oom => Oom | Ub => Ub end
  end.

(** ** Data *)

Record TurboJSLiveInterval := mkInterval {
  li_value_id : Z;
  li_start : Z;
  li_end : Z;
  li_first_use : Z;
  li_use_count : Z;
  li_loop_depth : Z;
  li_is_phi : bool;
  li_crosses_backedge : bool;
  li_register_class : TurboJSRegisterClass;
  li_physical_register : Z;
  li_spill_slot : Z
}.

Record TurboJSLiveIntervalFragment := mkFragment {
  fr_value_id : Z;
  fr_start : Z;
  fr_end : Z;
  fr_physical_register : Z;
  fr_spill_slot : Z
}.

Record TurboJSLinearScanResult := mkScanResult {
  sr_intervals : list TurboJSLiveInterval;
  sr_fragments : list TurboJSLiveIntervalFragment;
  sr_use_positions : list Z;
  sr_value_positions : list Z;
  sr_block_start_positions : list Z;
  sr_block_end_positions : list Z;
  sr_integer_register_count : Z;
  sr_float_register_count : Z;
  sr_spill_slot_count : Z;
  sr_split_count : Z;
  sr_phi_coalesce_candidates : Z;
  sr_phi_coalesce_successes : Z;
  sr_phi_coalesce_rejected : Z
}.

Record UseVec := mkUses { uv_p : list Z; uv_c : Z }.
Record SplitRec := mkSplit { sp_value_id : Z; sp_position : Z; sp_reg : Z; sp_spill : Z }.

(** What the allocator answers: the ten arrays, the growth of the use vector
    of a value to a capacity, the flat use array, the growth of the split
    array, the fragments. *)
Record ScanMemory := mkScanMemory {
  sm_arrays : bool;
  sm_use : Z -> Z -> bool;
  sm_flat : bool;
  sm_split : Z -> bool;
  sm_fragments : bool
}.

Definition li_set_uses (first count : Z) (x : TurboJSLiveInterval) : TurboJSLiveInterval :=
  mkInterval (li_value_id x) (li_start x) (li_end x) first count (li_loop_depth x) (li_is_phi x)
    (li_crosses_backedge x) (li_register_class x) (li_physical_register x) (li_spill_slot x).
Definition li_set_end (e : Z) (x : TurboJSLiveInterval) : TurboJSLiveInterval :=
  mkInterval (li_value_id x) (li_start x) e (li_first_use x) (li_use_count x) (li_loop_depth x) (li_is_phi x)
    (li_crosses_backedge x) (li_register_class x) (li_physical_register x) (li_spill_slot x).
Definition li_set_depth (d : Z) (x : TurboJSLiveInterval) : TurboJSLiveInterval :=
  mkInterval (li_value_id x) (li_start x) (li_end x) (li_first_use x) (li_use_count x) d (li_is_phi x)
    (li_crosses_backedge x) (li_register_class x) (li_physical_register x) (li_spill_slot x).
Definition li_set_crosses (x : TurboJSLiveInterval) : TurboJSLiveInterval :=
  mkInterval (li_value_id x) (li_start x) (li_end x) (li_first_use x) (li_use_count x) (li_loop_depth x) (li_is_phi x)
    true (li_register_class x) (li_physical_register x) (li_spill_slot x).
Definition li_set_register (r : Z) (x : TurboJSLiveInterval) : TurboJSLiveInterval :=
  mkInterval (li_value_id x) (li_start x) (li_end x) (li_first_use x) (li_use_count x) (li_loop_depth x) (li_is_phi x)
    (li_crosses_backedge x) (li_register_class x) r (li_spill_slot x).
Definition li_set_slot (s : Z) (x : TurboJSLiveInterval) : TurboJSLiveInterval :=
  mkInterval (li_value_id x) (li_start x) (li_end x) (li_first_use x) (li_use_count x) (li_loop_depth x) (li_is_phi x)
    (li_crosses_backedge x) (li_register_class x) (li_physical_register x) s.

(** ** Helpers *)

Definition push_use (mem : Z -> bool) (v : UseVec) (p : Z) : Attempt UseVec :=
  if Z.of_nat (length (uv_p v)) =? uv_c v then
    let c := if negb (uv_c v =? 0) then uv_c v * 2 else 4 in
    (let! _ := granted (mem c) in Got (mkUses (uv_p v ++ [p]) c))%jit
  else Got (mkUses (uv_p v ++ [p]) (uv_c v)).

(** [interval_compare], as the order it tests. *)
Definition interval_le (x y : TurboJSLiveInterval) : bool :=
  if negb (li_start x =? li_start y) then li_start x <? li_start y
  else if negb (eqb (li_is_phi x) (li_is_phi y)) then li_is_phi x
  else if negb (li_loop_depth x =? li_loop_depth y) then li_loop_depth y <? li_loop_depth x
  else if negb (li_end x =? li_end y) then li_end y <? li_end x
  else li_value_id x <=? li_value_id y.

Definition class_for (type : TurboJSSSAType) : TurboJSRegisterClass :=
  match type with
  | TURBOJS_SSA_TYPE_FLOAT64 => TURBOJS_REGISTER_CLASS_FLOAT64
  | _ => TURBOJS_REGISTER_CLASS_INTEGER
  end.

(** The recursion visits a new block at every level; see [dfs_rpo_total]. *)
Fixpoint dfs_rpo (fuel : nat) (g : TurboJSSSAGraph) (s : list bool * list Z) (b : Z) : Attempt (list bool * list Z) :=
  match fuel with
  | O => Ub
  | S fuel =>
      let '(seen, post) := s in
      if block_count g <=? b then Got s
      else
        match at_index seen b, at_index (g_blocks g) b with
        | Got true, Got _ => Got s
        | Got false, Got blk =>
            if b_removed blk || negb (b_reachable blk) then Got s
            else
              match fold_attempt (dfs_rpo fuel g) (<[Z.to_nat b := true]> seen, post) (b_successors blk) with
              | Got (seen, post) => Got (seen, post ++ [b])
              | Oom => Oom
              | Ub => Ub
              end
        | _, _ => Ub
        end
  end.

(** [guard++ <= block_count] allows [block_count + 1] steps. *)
Fixpoint dominates_within (guard : nat) (g : TurboJSSSAGraph) (dom b : Z) : bool :=
  match guard with
  | O => false
  | S guard =>
      if (b <? TURBOJS_SSA_NO_BLOCK) && (b <? block_count g) then
        match g_blocks g !! Z.to_nat b with
        | Some blk => if b_immediate_dominator blk =? dom then true else dominates_within guard g dom (b_immediate_dominator blk)
        | None => false
        end
      else false
  end.

Definition block_dominates (g : TurboJSSSAGraph) (dom b : Z) : bool :=
  if dom =? b then true else dominates_within (S (length (g_blocks g))) g dom b.

Fixpoint next_use_from (count : nat) (uses : list Z) (i pos : Z) : Attempt Z :=
  match count with
  | O => Got UINT32_MAX
  | S count =>
      match at_index uses i with
      | Got u => if pos <=? u then Got u else next_use_from count uses (i + 1) pos
      | Oom => Oom
      | Ub => Ub
      end
  end.

Definition next_use (x : TurboJSLiveInterval) (uses : list Z) (pos : Z) : Attempt Z :=
  next_use_from (Z.to_nat (li_use_count x)) uses (li_first_use x) pos.

Open Scope jit_scope.

(** The depth is a [uint16_t]: the sums stay below [2^51]. *)
Definition keep_score (x : TurboJSLiveInterval) (uses : list Z) (pos : Z) : Attempt Z :=
  let! n := next_use x uses pos in
  let distance := if n =? UINT32_MAX then UINT32_MAX else n - pos in
  let bias := Z.shiftl (li_loop_depth x) 34 in
  let bias := if li_is_phi x then bias + Z.shiftl 1 38 else bias in
  let bias := if li_crosses_backedge x then bias + Z.shiftl 1 40 else bias in
  Got (bias + Z.shiftl 1 32 - (if UINT32_MAX <? distance then UINT32_MAX else distance)).

(** ** Positions *)

Record Numbering := mkNumbering { nb_pos : Z; nb_bstart : list Z; nb_bend : list Z; nb_vpos : list Z }.

Definition number_value (g : TurboJSSSAGraph) (s : Z * list Z) (j : Z) : Attempt (Z * list Z) :=
  let '(pos, vpos) := s in
  let! v := at_index (g_values g) j in
  if v_removed v then Got s
  else let! vpos := writing j pos vpos in Got (uwrap 32 (pos + 2), vpos).

Definition number_block (g : TurboJSSSAGraph) (s : Numbering) (id : Z) : Attempt Numbering :=
  let! b := at_index (g_blocks g) id in
  let! bstart := writing (b_id b) (nb_pos s) (nb_bstart s) in
  let! (pos, vpos) := fold_attempt (number_value g) (nb_pos s, nb_vpos s) (seqZ (b_first_value b) (b_value_count b)) in
  let! bend := writing (b_id b) pos (nb_bend s) in
  Got (mkNumbering (uwrap 32 (pos + 2)) bstart bend vpos).

Definition number_blocks (g : TurboJSSSAGraph) (rpo : list Z) : Attempt Numbering :=
  let zeros := replicate (length (g_blocks g)) 0 in
  fold_attempt (number_block g) (mkNumbering 2 zeros zeros (replicate (length (g_values g)) 0)) rpo.

(** ** Intervals and uses *)

Definition new_interval (g : TurboJSSSAGraph) (vpos : list Z) (i : nat) (v : TurboJSSSAValue) : TurboJSLiveInterval :=
  let p := default 0 (vpos !! i) in
  mkInterval (Z.of_nat i) p p 0 0
    (match get_block g (v_block v) with Some b => b_loop_depth b | None => 0 end)
    (bool_decide (v_opcode v = TURBOJS_SSA_PHI)) false (class_for (v_type v)) (-1) (-1).

Definition Liveness : Type := list UseVec * list TurboJSLiveInterval.

(** A use of value [s] at position [p]. *)
Definition record_use (mem : ScanMemory) (g : TurboJSSSAGraph) (l : Liveness) (s p : Z) : Attempt Liveness :=
  let '(uv, ivs) := l in
  if negb (s =? TURBOJS_SSA_NO_VALUE) && (s <? value_count g) then
    let! v := at_index uv s in
    let! v := push_use (sm_use mem s) v p in
    let! uv := writing s v uv in
    let! x := at_index ivs s in
    let! ivs := (if li_end x <? p then writing s (li_set_end p x) ivs else Got ivs) in
    Got (uv, ivs)
  else Got l.

(** The phi's inputs are used at the end of the predecessors. *)
Definition add_phi_uses (mem : ScanMemory) (g : TurboJSSSAGraph) (bend : list Z) (b : TurboJSSSABlock)
    (v : TurboJSSSAValue) (l : Liveness) : Attempt Liveness :=
  fold_attempt (fun l '(pred, s) => let! up := at_index bend pred in record_use mem g l s up) l
    (zip (b_predecessors b) [v_left v; v_right v]).

Definition add_value_uses (mem : ScanMemory) (g : TurboJSSSAGraph) (bend vpos : list Z) (l : Liveness)
    (iv : nat * TurboJSSSAValue) : Attempt Liveness :=
  let '(i, v) := iv in
  if v_removed v then Got l
  else
    match (if decide (v_opcode v = TURBOJS_SSA_PHI) then get_block g (v_block v) else None) with
    | Some b => add_phi_uses mem g bend b v l
    | None =>
        let p := default 0 (vpos !! i) in
        let! l := record_use mem g l (v_left v) p in
        record_use mem g l (v_right v) p
    end.

Definition collect_uses (mem : ScanMemory) (g : TurboJSSSAGraph) (bend vpos : list Z) : Attempt Liveness :=
  fold_attempt (add_value_uses mem g bend vpos)
    (replicate (length (g_values g)) (mkUses [] 0), imap (new_interval g vpos) (g_values g))
    (imap pair (g_values g)).

(** ** Coalescing hints *)

Definition updates_phi (upd : TurboJSSSAValue) (phi : Z) : bool :=
  (bool_decide (v_opcode upd = TURBOJS_SSA_ADD_I64) || bool_decide (v_opcode upd = TURBOJS_SSA_SUB_I64))
  && ((v_left upd =? phi) || (v_right upd =? phi)).

Definition hint_input (g : TurboJSSSAGraph) (phi : Z) (s : list Z * Z) (u : Z) : list Z * Z :=
  let '(preferred, candidates) := s in
  if u =? TURBOJS_SSA_NO_VALUE then s
  else match get_value g u with
       | Some upd =>
           if negb (v_removed upd) && updates_phi upd phi
           then (<[Z.to_nat u := phi]> preferred, uwrap 32 (candidates + 1)) else s
       | None => s
       end.

Definition hint_phi (g : TurboJSSSAGraph) (s : list Z * Z) (phi : TurboJSSSAValue) : list Z * Z :=
  if v_removed phi || negb (bool_decide (v_opcode phi = TURBOJS_SSA_PHI)) then s
  else foldl (hint_input g (v_id phi)) s [v_left phi; v_right phi].

Definition phi_hints (g : TurboJSSSAGraph) : list Z * Z :=
  foldl (hint_phi g) (replicate (length (g_values g)) TURBOJS_SSA_NO_VALUE, 0) (g_values g).

(** ** Back edges *)

(** Values live at the header of a loop stay live to the end of the edge. *)
Definition extend_interval (g : TurboJSSSAGraph) (hp lp depth : Z) (k : nat) (x : TurboJSLiveInterval)
    : TurboJSLiveInterval :=
  match g_values g !! k with
  | Some v =>
      if negb (v_removed v) && (li_start x <=? hp) && (hp <=? li_end x) then
        let x := li_set_crosses (if li_end x <? lp then li_set_end lp x else x) in
        if li_loop_depth x <? depth then li_set_depth depth x else x
      else x
  | None => x
  end.

Definition extend_edge (g : TurboJSSSAGraph) (bstart bend : list Z) (i : nat) (ivs : list TurboJSLiveInterval) (h : Z)
    : list TurboJSLiveInterval :=
  match get_block g h with
  | Some header =>
      if block_dominates g h (Z.of_nat i)
      then imap (extend_interval g (default 0 (bstart !! Z.to_nat h)) (default 0 (bend !! i)) (b_loop_depth header)) ivs
      else ivs
  | None => ivs
  end.

Definition extend_backedges (g : TurboJSSSAGraph) (bstart bend : list Z) (ivs : list TurboJSLiveInterval)
    : list TurboJSLiveInterval :=
  foldl (fun ivs '(i, pred) => foldl (extend_edge g bstart bend i) ivs (b_successors pred)) ivs (imap pair (g_blocks g)).

(** ** Use positions *)

(** The uses of every value, sorted, one after the other. *)
Fixpoint flatten_uses (off : Z) (uv : list UseVec) (ivs : list TurboJSLiveInterval)
    : list Z * list TurboJSLiveInterval :=
  match uv, ivs with
  | u :: uv, x :: ivs =>
      let uses := merge_sort Z.le (uv_p u) in
      let '(flat, ivs) := flatten_uses (off + Z.of_nat (length uses)) uv ivs in
      (uses ++ flat, li_set_uses (uwrap 32 off) (uwrap 32 (Z.of_nat (length uses))) x :: ivs)
  | _, _ => ([], ivs)
  end.

(** ** The scan *)

Record ScanState := mkScan {
  sc_intervals : list TurboJSLiveInterval;   (* sorted *)
  sc_active : list nat;
  sc_splits : list SplitRec;
  sc_split_capacity : Z;
  sc_spill : Z;
  sc_split_count : Z;
  sc_successes : Z;
  sc_rejected : Z
}.

Definition sc_set_intervals (ivs : list TurboJSLiveInterval) (s : ScanState) : ScanState :=
  mkScan ivs (sc_active s) (sc_splits s) (sc_split_capacity s) (sc_spill s) (sc_split_count s) (sc_successes s) (sc_rejected s).
Definition sc_set_active (active : list nat) (s : ScanState) : ScanState :=
  mkScan (sc_intervals s) active (sc_splits s) (sc_split_capacity s) (sc_spill s) (sc_split_count s) (sc_successes s) (sc_rejected s).
Definition sc_count_phi (success : bool) (s : ScanState) : ScanState :=
  if success
  then mkScan (sc_intervals s) (sc_active s) (sc_splits s) (sc_split_capacity s) (sc_spill s) (sc_split_count s)
         (uwrap 32 (sc_successes s + 1)) (sc_rejected s)
  else mkScan (sc_intervals s) (sc_active s) (sc_splits s) (sc_split_capacity s) (sc_spill s) (sc_split_count s)
         (sc_successes s) (uwrap 32 (sc_rejected s + 1)).
(** [spill++]; the slot is [(int16_t)spill]. *)
Definition sc_take_slot (s : ScanState) : ScanState :=
  mkScan (sc_intervals s) (sc_active s) (sc_splits s) (sc_split_capacity s) (uwrap 16 (sc_spill s + 1)) (sc_split_count s)
    (sc_successes s) (sc_rejected s).
Definition sc_add_split (r : SplitRec) (capacity : Z) (s : ScanState) : ScanState :=
  mkScan (sc_intervals s) (sc_active s) (sc_splits s ++ [r]) capacity (sc_spill s) (uwrap 16 (sc_split_count s + 1))
    (sc_successes s) (sc_rejected s).

(** [active[j] = active[--active_count]]. *)
Definition swap_remove (j : nat) (active : list nat) : list nat :=
  match last active with
  | Some k => take (pred (length active)) (<[j := k]> active)
  | None => active
  end.

(** The [while] loop either shrinks [active] or moves on. *)
Fixpoint expire (turns : nat) (ivs : list TurboJSLiveInterval) (start : Z) (j : nat) (active : list nat) : list nat :=
  match turns with
  | O => active
  | S turns =>
      match active !! j ≫= (ivs !!.) with
      | Some x => if li_end x <? start then expire turns ivs start j (swap_remove j active) else expire turns ivs start (S j) active
      | None => active
      end
  end.

(** Whether an active interval holds a register of the class. *)
Definition holds_register (cls : TurboJSRegisterClass) (x : TurboJSLiveInterval) : bool :=
  bool_decide (li_register_class x = cls) && (0 <=? li_physical_register x).

Definition mark_used (ivs : list TurboJSLiveInterval) (cls : TurboJSRegisterClass) (used : list bool) (k : nat)
    : Attempt (list bool) :=
  let! x := reading (ivs !! k) in
  if holds_register cls x then writing (li_physical_register x) true used else Got used.

(** The first free register below [limit]. *)
Fixpoint first_register (limit : nat) (used : list bool) (k : Z) : Attempt (option Z) :=
  match limit with
  | O => Got None
  | S limit =>
      match at_index used k with
      | Got true => first_register limit used (k + 1)
      | Got false => Got (Some k)
      | Oom => Oom
      | Ub => Ub
      end
  end.

(** The active interval of the class with the least score, the first of them. *)
Definition consider_victim (ivs : list TurboJSLiveInterval) (uses : list Z) (cls : TurboJSRegisterClass) (pos : Z)
    (best : option (nat * Z)) (k : nat) : Attempt (option (nat * Z)) :=
  let! x := reading (ivs !! k) in
  if holds_register cls x then
    let! s := keep_score x uses pos in
    match best with
    | Some (_, least) => if s <? least then Got (Some (k, s)) else Got best
    | None => Got (Some (k, s))
    end
  else Got best.

Definition is_interval_of (value : Z) (ivs : list TurboJSLiveInterval) (k : nat) : bool :=
  match ivs !! k with Some x => li_value_id x =? value | None => false end.

(** The register of the phi [cur] updates, when the phi ends here. *)
Definition try_coalesce (preferred : Z) (i : nat) (cur : TurboJSLiveInterval) (s : ScanState) : ScanState :=
  if preferred =? TURBOJS_SSA_NO_VALUE then s
  else
    match list_find (fun k => is_interval_of preferred (sc_intervals s) k = true) (sc_active s) with
    | Some (pk, k) =>
        match sc_intervals s !! k with
        | Some pref =>
            if holds_register (li_register_class cur) pref && (li_end pref =? li_start cur)
            then sc_count_phi true (sc_set_active (swap_remove pk (sc_active s))
                   (sc_set_intervals (<[i := li_set_register (li_physical_register pref) cur]> (sc_intervals s)) s))
            else sc_count_phi false s
        | None => sc_count_phi false s
        end
    | None => sc_count_phi false s
    end.

(** A victim that entered the block of [cur] live is split at its start. *)
Definition split_position (g : TurboJSSSAGraph) (bstart : list Z) (cur victim : TurboJSLiveInterval) : Z :=
  match get_value g (li_value_id cur) with
  | Some v =>
      match get_block g (v_block v) with
      | Some _ =>
          let b := default 0 (bstart !! Z.to_nat (v_block v)) in
          if (li_start victim <? b) && (b <? li_end victim) then b else li_start cur
      | None => li_start cur
      end
  | None => li_start cur
  end.

Definition split_capacity (s : ScanState) : Z :=
  if Z.of_nat (length (sc_splits s)) =? sc_split_capacity s
  then if negb (sc_split_capacity s =? 0) then sc_split_capacity s * 2 else 8
  else sc_split_capacity s.

Section Scan.
Context (mem : ScanMemory) (g : TurboJSSSAGraph) (integer_registers float_registers : Z).
Context (preferred bstart uses : list Z).

Definition register_limit (cls : TurboJSRegisterClass) : Z :=
  match cls with TURBOJS_REGISTER_CLASS_FLOAT64 => float_registers | TURBOJS_REGISTER_CLASS_INTEGER => integer_registers end.

(** [cur] takes the victim's register. *)
Definition evict_victim (i : nat) (cur : TurboJSLiveInterval) (k : nat) (victim : TurboJSLiveInterval) (s : ScanState)
    : Attempt ScanState :=
  let slot := swrap 16 (sc_spill s) in
  let capacity := split_capacity s in
  let! _ := granted ((capacity =? sc_split_capacity s) || sm_split mem capacity) in
  let r := mkSplit (li_value_id victim) (split_position g bstart cur victim) (li_physical_register victim) slot in
  let ivs := <[i := li_set_register (li_physical_register victim) cur]> (sc_intervals s) in
  let ivs := <[k := li_set_slot slot (li_set_register (-1) victim)]> ivs in
  Got (sc_add_split r capacity (sc_take_slot (sc_set_intervals ivs s))).

Definition assign (i : nat) (cur : TurboJSLiveInterval) (used : list bool) (s : ScanState) : Attempt ScanState :=
  let! free := first_register (Z.to_nat (register_limit (li_register_class cur))) used 0 in
  match free with
  | Some k => Got (sc_set_intervals (<[i := li_set_register k cur]> (sc_intervals s)) s)
  | None =>
      let! cur_score := keep_score cur uses (li_start cur) in
      let! best := fold_attempt (consider_victim (sc_intervals s) uses (li_register_class cur) (li_start cur)) None (sc_active s) in
      let spill := Got (sc_take_slot (sc_set_intervals (<[i := li_set_slot (swrap 16 (sc_spill s)) cur]> (sc_intervals s)) s)) in
      match best with
      | Some (k, victim_score) =>
          if victim_score <? cur_score then
            let! victim := reading (sc_intervals s !! k) in evict_victim i cur k victim s
          else spill
      | None => spill
      end
  end.

Definition scan_step (s : ScanState) (i : nat) : Attempt ScanState :=
  let! cur := reading (sc_intervals s !! i) in
  match get_value g (li_value_id cur) with
  | None => Got s
  | Some v =>
      if v_removed v then Got s
      else
        let s := sc_set_active (expire (length (sc_active s)) (sc_intervals s) (li_start cur) 0 (sc_active s)) s in
        let! used := fold_attempt (mark_used (sc_intervals s) (li_register_class cur)) (replicate 64 false) (sc_active s) in
        let! p := at_index preferred (li_value_id cur) in
        let s := try_coalesce p i cur s in
        let! cur := reading (sc_intervals s !! i) in
        let! s := (if li_physical_register cur <? 0 then assign i cur used s else Got s) in
        Got (sc_set_active (sc_active s ++ [i]) s)
  end.

Definition scan (ivs : list TurboJSLiveInterval) : Attempt ScanState :=
  fold_attempt scan_step (mkScan ivs [] [] 0 0 0 0 0) (seq 0 (length ivs)).

(** ** Fragments *)

Definition fragments_of (s : ScanState) (i : nat) (v : TurboJSSSAValue) : list TurboJSLiveIntervalFragment :=
  match list_find (fun x => li_value_id x = Z.of_nat i) (sc_intervals s) with
  | Some (_, x) =>
      if v_removed v then []
      else
        let whole := [mkFragment (Z.of_nat i) (li_start x) (li_end x) (li_physical_register x) (li_spill_slot x)] in
        match list_find (fun r => sp_value_id r = Z.of_nat i) (sc_splits s) with
        | Some (_, r) =>
            if li_start x <? sp_position r
            then [mkFragment (Z.of_nat i) (li_start x) (sp_position r - 1) (sp_reg r) (-1);
                  mkFragment (Z.of_nat i) (sp_position r) (li_end x) (-1) (sp_spill r)]
            else whole
        | None => whole
        end
  | None => []
  end.

Definition build_fragments (s : ScanState) : list TurboJSLiveIntervalFragment :=
  concat (imap (fragments_of s) (g_values g)).
End Scan.

(** ** The allocator *)

Definition linear_scan (mem : ScanMemory) (g : TurboJSSSAGraph) (integer_registers float_registers : Z)
    : Attempt TurboJSLinearScanResult :=
  let! _ := granted (sm_arrays mem) in
  let! (_, post) := dfs_rpo (S (length (g_blocks g))) g (replicate (length (g_blocks g)) false, []) (g_entry_block g) in
  let! nb := number_blocks g (rev post) in
  let! (uv, ivs) := collect_uses mem g (nb_bend nb) (nb_vpos nb) in
  let '(preferred, candidates) := phi_hints g in
  let ivs := extend_backedges g (nb_bstart nb) (nb_bend nb) ivs in
  let! _ := granted (sm_flat mem) in
  let '(flat, ivs) := flatten_uses 0 uv ivs in
  let! s := scan mem g integer_registers float_registers preferred (nb_bstart nb) flat (merge_sort interval_le ivs) in
  let! _ := granted (sm_fragments mem) in
  Got (mkScanResult (sc_intervals s) (build_fragments g s) flat (nb_vpos nb) (nb_bstart nb) (nb_bend nb)
         integer_registers float_registers (sc_spill s) (sc_split_count s) candidates (sc_successes s) (sc_rejected s)).

(** The status, and the result with OK; [None]: undefined behaviour. *)
Definition TurboJS_LinearScanAllocate (mem : ScanMemory) (g : TurboJSSSAGraph) (integer_registers float_registers : Z)
    : option (TurboJSIRStatus * option TurboJSLinearScanResult) :=
  if (integer_registers =? 0) || (float_registers =? 0) then Some (TURBOJS_IR_INVALID_ARGUMENT, None)
  else match linear_scan mem g integer_registers float_registers with
       | Got r => Some (TURBOJS_IR_OK, Some r)
       | Oom => Some (TURBOJS_IR_OUT_OF_MEMORY, None)
       | Ub => None
       end.

Definition TurboJS_LinearScanResultDestroy (r : TurboJSLinearScanResult) : TurboJSLinearScanResult :=
  mkScanResult [] [] [] [] [] [] 0 0 0 0 0 0 0.

(** The result comes with OK, and only with OK. *)
Lemma linear_scan_status mem g integer_registers float_registers st o :
  TurboJS_LinearScanAllocate mem g integer_registers float_registers = Some (st, o) -> st = TURBOJS_IR_OK <-> is_Some o.
Proof.
  unfold TurboJS_LinearScanAllocate. destruct (_ || _); [intros [= <- <-]; split; [done|by intros [? ?]]|].
  destruct (linear_scan _ _ _ _); [| |done]; intros [= <- <-]; split; try done; by intros [? ?].
Qed.
