(* ===== verification/ScanCorrect.v ===== *)
(** * Correctness of the linear scan

    A small program logic for [Attempt] ([wp]) carries the invariants of the
    passes: no pass leaves its arrays, and the scan keeps the registers of
    active intervals apart.  The fragments it delivers therefore never put two
    live values in one place, except at the instruction that updates a loop
    phi in place. *)

From stdpp Require Import sorting.
From S2P Require Import Prelude.
From S2P Require Import JitTypes.
From S2P Require Import SSA.
From S2P Require Import LinearScan.

(** ** Weakest preconditions *)

(** [denied]: what is known when an allocation fails. *)
Definition wp (denied : Prop) {A : Type} (m : Attempt A) (P : A -> Prop) : Prop :=
  match m with Got a => P a | Oom => denied | Ub => False end.

Section WP.
Context (denied : Prop).
Notation wp := (wp denied).

Lemma wp_bind {A B : Type} (m : Attempt A) (k : A -> Attempt B) (P : B -> Prop) :
  wp m (fun a => wp (k a) P) -> wp (attempt_bind m k) P.
Proof. by destruct m. Qed.

Lemma wp_mono {A : Type} (m : Attempt A) (P Q : A -> Prop) : wp m P -> (forall a, P a -> Q a) -> wp m Q.
Proof. destruct m; simpl; auto. Qed.

Lemma wp_granted (b : bool) (P : unit -> Prop) : (b = false -> denied) -> P tt -> wp (granted b) P.
Proof. intros Hd Hp. destruct b; simpl; auto. Qed.

Lemma wp_reading {A : Type} (o : option A) (P : A -> Prop) a : o = Some a -> P a -> wp (reading o) P.
Proof. by intros ->. Qed.

Lemma wp_at_index {A : Type} (l : list A) i (P : A -> Prop) :
  0 <= i < Z.of_nat (length l) -> (forall a, l !! Z.to_nat i = Some a -> P a) -> wp (at_index l i) P.
Proof.
  intros Hi Hp. unfold at_index. rewrite (proj2 (Z.leb_le 0 i)), (proj2 (Z.ltb_lt i _)) by lia. simpl.
  destruct (lookup_lt_is_Some_2 l (Z.to_nat i)) as [a Ha]; [lia|]. rewrite Ha. simpl. auto.
Qed.

Lemma wp_writing {A : Type} i (a : A) l (P : list A -> Prop) :
  0 <= i < Z.of_nat (length l) -> P (<[Z.to_nat i := a]> l) -> wp (writing i a l) P.
Proof.
  intros Hi Hp. unfold writing. by rewrite (proj2 (Z.leb_le 0 i)), (proj2 (Z.ltb_lt i _)) by lia.
Qed.

Lemma wp_fold {S A : Type} (body : S -> A -> Attempt S) (I : nat -> S -> Prop) : forall l k s,
  I k s -> (forall i a s, l !! i = Some a -> I (k + i)%nat s -> wp (body s a) (I (Datatypes.S (k + i)))) ->
  wp (fold_attempt body s l) (I (k + length l)%nat).
Proof.
  induction l as [|a l IH]; intros k s Hs Hstep; simpl.
  - by rewrite Nat.add_0_r.
  - pose proof (Hstep O a s eq_refl) as H0. rewrite Nat.add_0_r in H0. specialize (H0 Hs).
    destruct (body s a) as [s'| |]; [|done..]. simpl in H0.
    replace (k + Datatypes.S (length l))%nat with (Datatypes.S k + length l)%nat by lia.
    apply IH; [done|]. intros i b s2 Hi. specialize (Hstep (Datatypes.S i) b s2 Hi).
    by rewrite <-Nat.add_succ_comm in Hstep.
Qed.

(** An invariant that does not depend on the position. *)
Lemma wp_fold_inv {S A : Type} (body : S -> A -> Attempt S) (I : S -> Prop) l s :
  I s -> (forall i a s, l !! i = Some a -> I s -> wp (body s a) I) -> wp (fold_attempt body s l) I.
Proof. intros Hs Hstep. apply (wp_fold body (fun _ => I) l 0 s Hs). intros i a s' Hi. by apply (Hstep i). Qed.
End WP.

(** ** Graphs the allocator is given *)

(** [TurboJS_SSAVerify] accepts the graph, and the fields it does not look at
    are in range too. *)
Record scannable (g : TurboJSSSAGraph) : Prop := {
  sg_verified : TurboJS_SSAVerify g = true;
  sg_entry : 0 <= g_entry_block g;
  sg_edges : Forall (fun b => Forall (fun p => 0 <= p < block_count g) (b_predecessors b) /\
                              Forall (fun s => 0 <= s) (b_successors b)) (g_blocks g);
  sg_ranges : Forall (fun b => 0 <= b_first_value b /\ 0 <= b_value_count b /\
                               b_first_value b + b_value_count b <= value_count g) (g_blocks g);
  sg_operands : Forall (fun v => 0 <= v_left v /\ 0 <= v_right v) (g_values g);
  (** every value is in the range of its block *)
  sg_grouped : Forall (fun v => 0 <= v_block v /\ exists b, g_blocks g !! Z.to_nat (v_block v) = Some b /\
                 b_first_value b <= v_id v < b_first_value b + b_value_count b) (g_values g)
}.

Lemma forallb_indexed {A : Type} (P : nat -> A -> bool) l i a :
  forallb (fun '(i, a) => P i a) (imap pair l) = true -> l !! i = Some a -> P i a = true.
Proof.
  rewrite forallb_forall. intros Hf Hi. apply (Hf (i, a)).
  apply list_elem_of_In, list_elem_of_lookup. exists i. by rewrite list_lookup_imap, Hi.
Qed.

Lemma scannable_block_id g i b : scannable g -> g_blocks g !! i = Some b -> b_id b = Z.of_nat i.
Proof.
  intros Hs Hi. pose proof (sg_verified g Hs) as Hv. unfold TurboJS_SSAVerify in Hv. b2p.
  match goal with H : forallb _ (imap pair (g_blocks g)) = true |- _ => apply (forallb_indexed _ _ _ _ H) in Hi end.
  unfold verify_block in Hi. by b2p.
Qed.

Lemma scannable_value_id g i v : scannable g -> g_values g !! i = Some v -> v_id v = Z.of_nat i.
Proof.
  intros Hs Hi. pose proof (sg_verified g Hs) as Hv. unfold TurboJS_SSAVerify in Hv. b2p.
  match goal with H : forallb _ (imap pair (g_values g)) = true |- _ => apply (forallb_indexed _ _ _ _ H) in Hi end.
  unfold verify_value in Hi. by b2p.
Qed.

(** ** Depth-first numbering *)

Definition unseen (seen : list bool) : nat := length (filter (fun b => b = false) seen).

Lemma unseen_mark seen i : seen !! i = Some false -> unseen seen = S (unseen (<[i := true]> seen)).
Proof.
  intros Hi. unfold unseen. rewrite insert_take_drop by (by eapply lookup_lt_Some).
  rewrite <-(take_drop_middle seen i false Hi) at 1. rewrite !filter_app, !length_app, !filter_cons.
  rewrite decide_True, decide_False by done. simpl. lia.
Qed.

Section Numbering.
Context (denied : Prop) (g : TurboJSSSAGraph) (Hg : scannable g).
Notation wp := (wp denied).
Notation blocks := (length (g_blocks g)).
Notation values := (length (g_values g)).

Definition dfs_inv (bound total : nat) (s : list bool * list Z) : Prop :=
  length s.1 = blocks /\ (unseen s.1 <= bound)%nat /\ (length s.2 + unseen s.1 <= total)%nat /\
  Forall (fun b => 0 <= b < block_count g) s.2.

(** The recursion reaches the bottom within one level per block. *)
Lemma dfs_rpo_total : forall fuel s b bound total,
  0 <= b -> dfs_inv bound total s -> (bound < fuel)%nat -> wp (dfs_rpo fuel g s b) (dfs_inv bound total).
Proof.
  induction fuel as [|fuel IH]; intros [seen post] b bound total Hb (Hlen & Hun & Htot & Hpost) Hfuel; [lia|]. simpl in *.
  destruct (Z.leb_spec (block_count g) b) as [Hge|Hlt]; [done|]. unfold block_count in Hlt.
  unfold at_index. rewrite Hlen, (proj2 (Z.leb_le 0 b)), (proj2 (Z.ltb_lt b _)) by lia. simpl.
  destruct (lookup_lt_is_Some_2 seen (Z.to_nat b)) as [w Hw]; [lia|]. rewrite Hw. simpl.
  destruct (lookup_lt_is_Some_2 (g_blocks g) (Z.to_nat b)) as [blk Hblk]; [lia|]. rewrite Hblk. simpl.
  destruct w; [done|]. destruct (b_removed blk || negb (b_reachable blk)); [done|].
  pose proof (unseen_mark seen _ Hw) as Hmark.
  assert (Hf : wp (fold_attempt (dfs_rpo fuel g) (<[Z.to_nat b := true]> seen, post) (b_successors blk))
                 (dfs_inv (unseen (<[Z.to_nat b := true]> seen)) (pred total))).
  { apply wp_fold_inv; [split_and!; simpl; [by rewrite length_insert|lia|lia|done]|].
    intros i a s Ha Hs. apply IH; [|done|lia].
    apply (Forall_lookup_1 _ _ _ _ (sg_edges g Hg)) in Hblk as [_ Hsucc]. by apply (Forall_lookup_1 _ _ _ _ Hsucc) in Ha. }
  destruct (fold_attempt _ _ _) as [[seen' post']| |]; [|done..]. destruct Hf as (K1 & K2 & K3 & K4). simpl in *.
  split_and!; simpl; [done|lia|rewrite length_app; simpl; lia|].
  apply Forall_app. split; [done|]. apply Forall_singleton. unfold block_count. lia.
Qed.

(** Positions grow along the numbering, so a value is not before its block. *)
Record numbered (k : nat) (s : Numbering) : Prop := {
  nu_bstart : length (nb_bstart s) = blocks;
  nu_bend : length (nb_bend s) = blocks;
  nu_vpos : length (nb_vpos s) = values;
  nu_pos : 0 <= nb_pos s <= 2 + 2 * Z.of_nat k * (Z.of_nat values + 1);
  nu_values : Forall (fun p => 0 <= p <= nb_pos s) (nb_vpos s);
  nu_blocks : Forall (fun p => 0 <= p <= nb_pos s) (nb_bstart s);
  nu_inside : forall j v p b, g_values g !! j = Some v -> v_removed v = false -> nb_vpos s !! j = Some p ->
    nb_bstart s !! Z.to_nat (v_block v) = Some b -> b <= p
}.

Section Block.
Context (first : Z) (p0 : Z) (vpos0 : list Z).

Record numbering_block (t : nat) (s : Z * list Z) : Prop := {
  ni_length : length s.2 = values;
  ni_pos : p0 <= s.1 <= p0 + 2 * Z.of_nat t;
  ni_values : Forall (fun p => 0 <= p <= s.1) s.2;
  ni_new : forall j p v, first <= Z.of_nat j < first + Z.of_nat t -> g_values g !! j = Some v -> v_removed v = false ->
    s.2 !! j = Some p -> p0 <= p;
  ni_old : forall j p, s.2 !! j = Some p -> vpos0 !! j = Some p \/ p0 <= p
}.

Lemma number_value_ok t s :
  0 <= p0 -> 0 <= first + Z.of_nat t < value_count g -> p0 + 2 * Z.of_nat (S t) < 2 ^ 32 ->
  numbering_block t s -> wp (number_value g s (first + Z.of_nat t)) (numbering_block (S t)).
Proof.
  destruct s as [pos vpos]. intros H0 Hj Hbound [H1 H2 H3 H4 H5]. unfold number_value, value_count in *. simpl in *.
  apply wp_bind, wp_at_index; [lia|]. intros v Hv. destruct (v_removed v) eqn:Hr.
  { split; simpl; auto; [lia|]. intros j p w Hj' Hw Hrw. destruct (decide (Z.of_nat j = first + Z.of_nat t)) as [He|Hne].
    - rewrite <-He, Nat2Z.id in Hv. congruence.
    - apply (H4 j p w); [lia|done..]. }
  apply wp_bind, wp_writing; [lia|]. rewrite uwrap_small by (unfold is_u; lia).
  split; simpl; rewrite ?length_insert; auto; [lia| | |].
  - apply Forall_insert; [|lia]. eapply Forall_impl; [exact H3|]. simpl. lia.
  - intros j p w Hj' Hw Hrw Hp. destruct (decide (j = Z.to_nat (first + Z.of_nat t))) as [->|Hne].
    + rewrite list_lookup_insert_eq in Hp by lia. injection Hp as <-. lia.
    + rewrite list_lookup_insert_ne in Hp by done. apply (H4 j p w); [lia|done..].
  - intros j p Hp. destruct (decide (j = Z.to_nat (first + Z.of_nat t))) as [->|Hne].
    + rewrite list_lookup_insert_eq in Hp by lia. injection Hp as <-. right. lia.
    + rewrite list_lookup_insert_ne in Hp by done. by apply H5.
Qed.
End Block.

Lemma number_block_inside k s id b pos vpos bend j v p q :
  numbered k s -> g_blocks g !! Z.to_nat id = Some b -> 0 <= id -> b_id b = id ->
  numbering_block (b_first_value b) (nb_pos s) (nb_vpos s) (Z.to_nat (b_value_count b)) (pos, vpos) ->
  g_values g !! j = Some v -> v_removed v = false -> vpos !! j = Some p ->
  nb_bstart (mkNumbering (uwrap 32 (pos + 2)) (<[Z.to_nat id := nb_pos s]> (nb_bstart s)) bend vpos)
    !! Z.to_nat (v_block v) = Some q -> q <= p.
Proof.
  intros [N1 N2 N3 N4 N5 N6 N7] Hb Hid0 Hid [B1 B2 B3 B4 B5] Hv Hr Hp Hq. simpl in *.
  destruct (Forall_lookup_1 _ _ _ _ (sg_grouped g Hg) Hv) as (Hblk & b' & Hb' & Hrange). rewrite (scannable_value_id g j v Hg Hv) in Hrange.
  destruct (decide (Z.to_nat (v_block v) = Z.to_nat id)) as [He|Hne].
  - rewrite He in Hq. rewrite list_lookup_insert_eq in Hq by (rewrite N1; by eapply lookup_lt_Some). injection Hq as <-.
    rewrite He, Hb in Hb'. injection Hb' as <-. apply (B4 j p v); [lia|done..].
  - rewrite list_lookup_insert_ne in Hq by done. destruct (B5 j p Hp) as [Hold|Hnew]; [by eapply N7|].
    apply (Forall_lookup_1 _ _ _ _ N6) in Hq. lia.
Qed.

Lemma number_block_ok k s id :
  2 + 2 * Z.of_nat (S k) * (Z.of_nat values + 1) < 2 ^ 32 ->
  numbered k s -> 0 <= id < block_count g -> wp (number_block g s id) (numbered (S k)).
Proof.
  intros Hbound Hs Hid. pose proof Hs as [N1 N2 N3 N4 N5 N6 N7]. unfold number_block, block_count in *.
  apply wp_bind, wp_at_index; [lia|]. intros b Hb. pose proof (scannable_block_id g _ b Hg Hb) as Hbid. rewrite Z2Nat.id in Hbid by lia.
  pose proof (Forall_lookup_1 _ _ _ _ (sg_ranges g Hg) Hb) as (R1 & R2 & R3). unfold value_count in R3.
  apply wp_bind, wp_writing; [lia|]. apply wp_bind.
  assert (Hlen : length (seqZ (b_first_value b) (b_value_count b)) = Z.to_nat (b_value_count b)) by apply length_seqZ.
  eapply wp_mono; [apply (wp_fold _ _ (numbering_block (b_first_value b) (nb_pos s) (nb_vpos s)) _ 0)|].
  - split; simpl; auto; lia.
  - intros t j s' Hj Hs'. apply lookup_seqZ in Hj as [-> Hj].
    apply number_value_ok; [lia|unfold value_count; lia|lia|exact Hs'].
  - rewrite Hlen, Nat.add_0_l. intros [pos vpos] Hn. pose proof Hn as [B1 B2 B3 B4 B5]. simpl in *.
    apply wp_bind, wp_writing; [lia|]. simpl. rewrite Hbid in *.
    assert (Hpos : uwrap 32 (pos + 2) = pos + 2) by (apply uwrap_small; unfold is_u; lia).
    split; simpl; rewrite ?length_insert, ?Hpos; auto; [lia| | |].
    + eapply Forall_impl; [exact B3|]. simpl. lia.
    + apply Forall_insert; [|lia]. eapply Forall_impl; [exact N6|]. simpl. lia.
    + intros j v p q Hv Hr Hp Hq.
      eapply (number_block_inside k s id b pos vpos []); [exact Hs|exact Hb|lia|exact Hbid|exact Hn|exact Hv|exact Hr|exact Hp|exact Hq].
Qed.

Lemma number_blocks_ok rpo :
  Forall (fun b => 0 <= b < block_count g) rpo -> 2 + 2 * Z.of_nat (length rpo) * (Z.of_nat values + 1) < 2 ^ 32 ->
  wp (number_blocks g rpo) (numbered (length rpo)).
Proof.
  intros Hrpo Hbound. unfold number_blocks. apply (wp_fold _ _ numbered _ 0).
  - split; simpl; rewrite ?length_replicate; try done; try (apply Forall_replicate; lia).
    intros j v p b _ _ Hp Hb. apply lookup_replicate in Hp as [-> _]. by apply lookup_replicate in Hb as [-> _].
  - intros i id s Hi Hs. apply number_block_ok; [|done|by apply (Forall_lookup_1 _ _ _ _ Hrpo) in Hi].
    apply lookup_lt_Some in Hi. nia.
Qed.
End Numbering.

(** ** Live intervals *)

(** The interval of value [k] before the scan. *)
Record fresh_interval (g : TurboJSSSAGraph) (vpos : list Z) (k : nat) (x : TurboJSLiveInterval) : Prop := {
  fi_value : li_value_id x = Z.of_nat k;
  fi_start : 0 <= li_start x <= li_end x;
  fi_position : li_start x = default 0 (vpos !! k);
  fi_class : forall v, g_values g !! k = Some v -> li_register_class x = class_for (v_type v);
  fi_register : li_physical_register x = -1;
  fi_slot : li_spill_slot x = -1
}.

Definition total_uses (uv : list UseVec) : nat := sum_list_with (fun u => length (uv_p u)) uv.

Lemma total_uses_insert uv s u u' :
  uv !! s = Some u -> (length (uv_p u') <= S (length (uv_p u)))%nat ->
  (total_uses (<[s := u']> uv) <= S (total_uses uv))%nat.
Proof.
  intros Hs Hle. unfold total_uses. rewrite insert_take_drop by (by eapply lookup_lt_Some).
  rewrite <-(take_drop_middle uv s u Hs) at 3. rewrite !sum_list_with_app. simpl. lia.
Qed.

Record live_ok (g : TurboJSSSAGraph) (vpos : list Z) (budget : nat) (l : Liveness) : Prop := {
  lo_uses : length l.1 = length (g_values g);
  lo_intervals : length l.2 = length (g_values g);
  lo_fresh : forall k x, l.2 !! k = Some x -> fresh_interval g vpos k x;
  lo_covered : forall k u x, l.1 !! k = Some u -> l.2 !! k = Some x -> Forall (fun p => p <= li_end x) (uv_p u);
  lo_total : (total_uses l.1 <= budget)%nat
}.

Lemma fresh_set_end g vpos k x p : fresh_interval g vpos k x -> li_end x <= p -> fresh_interval g vpos k (li_set_end p x).
Proof. intros [H1 H2 H3 H4 H5 H6] Hp. split; simpl; try done. lia. Qed.

(** What the allocator grants. *)
Definition all_granted_scan (mem : ScanMemory) : Prop :=
  sm_arrays mem = true /\ (forall v c, sm_use mem v c = true) /\ sm_flat mem = true /\ (forall c, sm_split mem c = true) /\
  sm_fragments mem = true.

Section Liveness.
Context (mem : ScanMemory) (g : TurboJSSSAGraph) (Hg : scannable g).
Notation wp := (wp (~ all_granted_scan mem)).

Lemma push_use_ok s v p (P : UseVec -> Prop) :
  (forall c, P (mkUses (uv_p v ++ [p]) c)) -> wp (push_use (sm_use mem s) v p) P.
Proof.
  intros HP. unfold push_use. destruct (_ =? _); [|apply HP]. apply wp_bind, wp_granted; [|apply HP].
  intros Hf (_ & Hall & _). by rewrite Hall in Hf.
Qed.

Lemma covered_extended (s : nat) p (uv : list UseVec) (ivs : list TurboJSLiveInterval) (v : UseVec) (x x' : TurboJSLiveInterval) c :
  (forall k u y, uv !! k = Some u -> ivs !! k = Some y -> Forall (fun q => q <= li_end y) (uv_p u)) ->
  uv !! s = Some v -> ivs !! s = Some x -> li_end x <= li_end x' -> p <= li_end x' ->
  forall k u y, <[s := mkUses (uv_p v ++ [p]) c]> uv !! k = Some u -> <[s := x']> ivs !! k = Some y ->
    Forall (fun q => q <= li_end y) (uv_p u).
Proof.
  intros Hcov Hv Hx Hle Hp k u y Hu Hy. destruct (decide (k = s)) as [->|Hne].
  - rewrite list_lookup_insert_eq in Hu by (by eapply lookup_lt_Some).
    rewrite list_lookup_insert_eq in Hy by (by eapply lookup_lt_Some). injection Hu as <-. injection Hy as <-. simpl.
    apply Forall_app. split; [|by apply Forall_singleton].
    eapply Forall_impl; [by eapply Hcov|]. simpl. intros. lia.
  - rewrite list_lookup_insert_ne in Hu by done. rewrite list_lookup_insert_ne in Hy by done. by eapply Hcov.
Qed.

Lemma record_use_ok vpos budget l s p : live_ok g vpos budget l -> 0 <= s -> wp (record_use mem g l s p) (live_ok g vpos (S budget)).
Proof.
  destruct l as [uv ivs]. intros [H1 H2 H3 H4 H5] Hs. simpl in *. unfold record_use.
  destruct (negb (s =? TURBOJS_SSA_NO_VALUE) && (s <? value_count g)) eqn:Hc; [|by split; auto; simpl; lia].
  apply andb_true_iff in Hc as [_ Hlt%Z.ltb_lt]. unfold value_count in Hlt.
  apply wp_bind, wp_at_index; [lia|]. intros v Hv. apply wp_bind, push_use_ok. intros c.
  apply wp_bind, wp_writing; [lia|]. apply wp_bind, wp_at_index; [lia|]. intros x Hx.
  assert (Hres : forall x', fresh_interval g vpos (Z.to_nat s) x' -> li_end x <= li_end x' -> p <= li_end x' ->
    live_ok g vpos (S budget) (<[Z.to_nat s := mkUses (uv_p v ++ [p]) c]> uv, <[Z.to_nat s := x']> ivs)).
  { intros x' Hf' Hle Hp. split; simpl; rewrite ?length_insert; try done.
    - intros k y Hy. destruct (decide (k = Z.to_nat s)) as [->|Hne].
      + rewrite list_lookup_insert_eq in Hy by (by eapply lookup_lt_Some). by injection Hy as <-.
      + rewrite list_lookup_insert_ne in Hy by done. by apply H3.
    - by eapply covered_extended.
    - pose proof (total_uses_insert uv (Z.to_nat s) v (mkUses (uv_p v ++ [p]) c) Hv) as Ht. simpl in Ht.
      rewrite length_app in Ht. simpl in Ht. lia. }
  apply wp_bind. destruct (Z.ltb_spec (li_end x) p) as [Hgt|Hle].
  - apply wp_writing; [lia|]. apply Hres; simpl; [|lia..]. apply fresh_set_end; [by apply H3|lia].
  - rewrite <-(list_insert_id ivs (Z.to_nat s) x Hx). apply Hres; [by apply H3|lia..].
Qed.

Lemma add_value_uses_ok bend vpos budget l i v :
  length bend = length (g_blocks g) -> g_values g !! i = Some v -> live_ok g vpos budget l ->
  wp (add_value_uses mem g bend vpos l (i, v)) (live_ok g vpos (2 + budget)).
Proof.
  intros Hbend Hv Hl. assert (Hmore : forall n, (budget <= n)%nat -> live_ok g vpos n l).
  { intros n Hn. destruct Hl as [H1 H2 H3 H4 H5]. split; auto. lia. }
  unfold add_value_uses. destruct (v_removed v); [apply Hmore; lia|].
  pose proof (Forall_lookup_1 _ _ _ _ (sg_operands g Hg) Hv) as [HL HR].
  destruct (if decide _ then _ else _) as [b|] eqn:Hb.
  - assert (Hblk : exists n, g_blocks g !! n = Some b).
    { destruct (decide _); [|done]. rewrite get_block_lookup in Hb. by eexists. }
    destruct Hblk as [n Hblk]. pose proof (Forall_lookup_1 _ _ _ _ (sg_edges g Hg) Hblk) as [Hpred _].
    unfold add_phi_uses.
    eapply wp_mono; [apply (wp_fold _ _ (fun k => live_ok g vpos (k + budget)) _ 0); [done|]|].
    + intros k [pred s] l' Hk Hl'. apply lookup_zip_Some in Hk as [Hk1 Hk2].
      apply (Forall_lookup_1 _ _ _ _ Hpred) in Hk1. apply wp_bind, wp_at_index; [rewrite Hbend; exact Hk1|].
      intros up _. apply record_use_ok; [exact Hl'|]. destruct k as [|[|k]]; simpl in Hk2; try done; by injection Hk2 as <-.
    + intros l' [H1 H2 H3 H4 H5]. split; auto. rewrite length_zip in H5. simpl in H5. lia.
  - apply wp_bind. eapply wp_mono; [by apply record_use_ok|]. intros l' Hl'. by apply record_use_ok.
Qed.

Lemma new_interval_fresh vpos k v :
  Forall (fun p => 0 <= p) vpos -> g_values g !! k = Some v -> fresh_interval g vpos k (new_interval g vpos k v).
Proof.
  intros Hp Hv. split; simpl; try done.
  - destruct (vpos !! k) as [p|] eqn:He; simpl; [|lia]. apply (Forall_lookup_1 _ _ _ _ Hp) in He. lia.
  - intros w Hw. congruence.
Qed.

Lemma initial_live vpos :
  Forall (fun p => 0 <= p) vpos ->
  live_ok g vpos 0 (replicate (length (g_values g)) (mkUses [] 0), imap (new_interval g vpos) (g_values g)).
Proof.
  intros Hvpos. split; simpl; rewrite ?length_replicate, ?length_imap; try done.
  - intros k x Hx. rewrite list_lookup_imap in Hx. destruct (g_values g !! k) as [v|] eqn:Hv; [|done].
    injection Hx as <-. by apply new_interval_fresh.
  - intros k u x Hu _. apply lookup_replicate in Hu as [-> _]. constructor.
  - unfold total_uses. clear. induction (length (g_values g)) as [|n IH]; simpl; lia.
Qed.
End Liveness.

(** ** Back edges and use positions *)

Section Uses.
Context (g : TurboJSSSAGraph).

Lemma extend_interval_fresh vpos hp lp depth k x : fresh_interval g vpos k x ->
  fresh_interval g vpos k (extend_interval g hp lp depth k x) /\ li_end x <= li_end (extend_interval g hp lp depth k x).
Proof.
  intros Hf. unfold extend_interval. destruct (g_values g !! k) as [v|]; [|by split].
  destruct (_ && _); [|by split].
  assert (Hx : fresh_interval g vpos k (li_set_crosses (if li_end x <? lp then li_set_end lp x else x)) /\
               li_end x <= li_end (li_set_crosses (if li_end x <? lp then li_set_end lp x else x))).
  { destruct Hf as [H1 H2 H3 H4 H5 H6]. destruct (Z.ltb_spec (li_end x) lp); split; simpl; try lia; split; simpl; auto; lia. }
  destruct (_ <? depth); [|done]. destruct Hx as [[H1 H2 H3 H4 H5 H6] He]. by split.
Qed.

Lemma extend_edge_ok vpos budget bstart bend uv i ivs h :
  live_ok g vpos budget (uv, ivs) -> live_ok g vpos budget (uv, extend_edge g bstart bend i ivs h).
Proof.
  intros [H1 H2 H3 H4 H5]. unfold extend_edge. destruct (get_block g h) as [b|]; [|done].
  destruct (block_dominates _ _ _); [|done]. simpl in *. split; simpl; auto.
  - by rewrite length_imap.
  - intros k x Hx. rewrite list_lookup_imap in Hx. destruct (ivs !! k) as [y|] eqn:Hy; [|done]. injection Hx as <-.
    by apply extend_interval_fresh, H3.
  - intros k u x Hu Hx. rewrite list_lookup_imap in Hx. destruct (ivs !! k) as [y|] eqn:Hy; [|done]. injection Hx as <-.
    eapply Forall_impl; [by eapply H4|]. simpl. intros p Hp. etransitivity; [exact Hp|]. by apply (extend_interval_fresh vpos), H3.
Qed.

Lemma extend_backedges_ok vpos budget bstart bend uv ivs :
  live_ok g vpos budget (uv, ivs) -> live_ok g vpos budget (uv, extend_backedges g bstart bend ivs).
Proof.
  unfold extend_backedges. generalize (imap pair (g_blocks g)). intros l. revert ivs.
  induction l as [|[i b] l IH]; intros ivs Hl; simpl; [done|]. apply IH. revert ivs Hl.
  induction (b_successors b) as [|h hs IHs]; intros ivs Hl; simpl; [done|]. apply IHs. by apply extend_edge_ok.
Qed.
End Uses.

(** ** Every use is covered *)

Lemma wp_and denied {A : Type} (m : Attempt A) (P Q : A -> Prop) :
  wp denied m P -> wp denied m Q -> wp denied m (fun a => P a /\ Q a).
Proof. destruct m; simpl; auto. Qed.

(** The operands of a value with the positions of their uses. *)
Definition uses_of (g : TurboJSSSAGraph) (bend vpos : list Z) (i : nat) (v : TurboJSSSAValue) : list (Z * Z) :=
  if v_removed v then []
  else
    match (if decide (v_opcode v = TURBOJS_SSA_PHI) then get_block g (v_block v) else None) with
    | Some b => zip_with (fun pred s => (s, default 0 (bend !! Z.to_nat pred))) (b_predecessors b) [v_left v; v_right v]
    | None => let p := default 0 (vpos !! i) in [(v_left v, p); (v_right v, p)]
    end.

Definition covers (ivs : list TurboJSLiveInterval) (s p : Z) : Prop :=
  exists x, ivs !! Z.to_nat s = Some x /\ p <= li_end x.

Definition grown (ivs ivs' : list TurboJSLiveInterval) : Prop := forall s p, covers ivs s p -> covers ivs' s p.

Definition used_value (g : TurboJSSSAGraph) (s : Z) : Prop := s <> TURBOJS_SSA_NO_VALUE /\ 0 <= s < value_count g.

Lemma grown_insert ivs k x x' :
  ivs !! k = Some x -> li_end x <= li_end x' -> grown ivs (<[k := x']> ivs).
Proof.
  intros Hk Hle s p (y & Hy & Hp). unfold covers. destruct (decide (Z.to_nat s = k)) as [<-|Hne].
  - exists x'. rewrite list_lookup_insert_eq by (by eapply lookup_lt_Some). split; [done|]. rewrite Hk in Hy. injection Hy as ->. lia.
  - exists y. by rewrite list_lookup_insert_ne.
Qed.

Section Covered.
Context (mem : ScanMemory) (g : TurboJSSSAGraph) (Hg : scannable g).
Notation wp := (wp (~ all_granted_scan mem)).

Lemma record_use_covers uv ivs s p :
  length uv = length (g_values g) -> length ivs = length (g_values g) -> 0 <= s ->
  wp (record_use mem g (uv, ivs) s p) (fun l => grown ivs l.2 /\ (used_value g s -> covers l.2 s p)).
Proof.
  intros Hu Hi Hs. unfold record_use, used_value. unfold value_count.
  destruct (_ && _) eqn:Hc; [|simpl; split; [by intros ? ?|]; intros [Hne Hlt]].
  - apply andb_true_iff in Hc as [_ Hlt%Z.ltb_lt].
    apply wp_bind, wp_at_index; [lia|]. intros v Hv. apply wp_bind, push_use_ok. intros c.
    apply wp_bind, wp_writing; [lia|]. apply wp_bind, wp_at_index; [lia|]. intros x Hx.
    apply wp_bind. destruct (Z.ltb_spec (li_end x) p) as [Hgt|Hle].
    + apply wp_writing; [lia|]. simpl. split; [eapply grown_insert; [exact Hx|simpl; lia]|]. intros _.
      eexists. rewrite list_lookup_insert_eq by (by eapply lookup_lt_Some). by split.
    + simpl. split; [by intros ? ?|]. intros _. by exists x.
  - apply Z.eqb_neq in Hne. apply andb_false_iff in Hc as [Hc|Hc%Z.ltb_ge]; [|lia]. by rewrite Hne in Hc.
Qed.

Lemma add_value_uses_covers bend vpos budget uv ivs i v :
  length bend = length (g_blocks g) -> g_values g !! i = Some v -> live_ok g vpos budget (uv, ivs) ->
  wp (add_value_uses mem g bend vpos (uv, ivs) (i, v))
    (fun l => grown ivs l.2 /\ forall s p, (s, p) ∈ uses_of g bend vpos i v -> used_value g s -> covers l.2 s p).
Proof.
  intros Hbend Hv Hl. unfold add_value_uses, uses_of. destruct (v_removed v).
  { simpl. split; [by intros ? ?|]. by intros s p ?%elem_of_nil. }
  pose proof (Forall_lookup_1 _ _ _ _ (sg_operands g Hg) Hv) as [HL HR].
  destruct (if decide _ then _ else _) as [b|] eqn:Hb.
  - assert (Hblk : exists n, g_blocks g !! n = Some b).
    { destruct (decide _); [|done]. rewrite get_block_lookup in Hb. by eexists. }
    destruct Hblk as [n Hblk]. pose proof (Forall_lookup_1 _ _ _ _ (sg_edges g Hg) Hblk) as [Hpred _].
    unfold add_phi_uses.
    eapply wp_mono; [apply (wp_fold _ _ (fun k l => live_ok g vpos (k + budget) l /\ grown ivs l.2 /\
      forall j pred s, (j < k)%nat -> zip (b_predecessors b) [v_left v; v_right v] !! j = Some (pred, s) -> used_value g s ->
        covers l.2 s (default 0 (bend !! Z.to_nat pred))) _ 0)|].
    + split_and!; [done|by intros ? ?|lia].
    + intros k [pred s] [uv' ivs'] Hk (Hl' & Hgr & Hcov). pose proof Hk as [Hk1 Hk2]%lookup_zip_Some.
      apply (Forall_lookup_1 _ _ _ _ Hpred) in Hk1. apply wp_bind, wp_at_index; [rewrite Hbend; exact Hk1|].
      intros up Hup. assert (Hs : 0 <= s) by (destruct k as [|[|k]]; simpl in Hk2; try done; by injection Hk2 as <-).
      eapply wp_mono; [apply wp_and; [by apply record_use_ok|apply record_use_covers; [exact (lo_uses _ _ _ _ Hl')|exact (lo_intervals _ _ _ _ Hl')|done]]|].
      intros l2 (K1 & K2 & K3). simpl in *. split_and!; [done|by intros ? ? ?%Hgr%K2|].
      intros j pred' s' Hj Hjl Hus. destruct (decide (j = k)) as [->|Hne].
      * rewrite Hk in Hjl. injection Hjl as <- <-. rewrite Hup. by apply K3.
      * apply K2. eapply Hcov; [|exact Hjl|done]. lia.
    + intros l' (_ & K2 & K3). split; [done|]. intros s p Hin Hus.
      apply list_elem_of_lookup in Hin as [j Hj]. rewrite zip_with_zip, list_lookup_fmap in Hj.
      destruct (zip _ _ !! j) as [[pred s']|] eqn:Hz; [|done]. injection Hj as <- <-. eapply K3; [|exact Hz|done].
      simpl. by eapply lookup_lt_Some.
  - apply wp_bind. eapply wp_mono; [apply wp_and; [by apply record_use_ok|apply record_use_covers; [exact (lo_uses _ _ _ _ Hl)|exact (lo_intervals _ _ _ _ Hl)|done]]|].
    intros [uv' ivs'] (Hl' & K2 & K3). simpl in *.
    eapply wp_mono; [apply record_use_covers; [exact (lo_uses _ _ _ _ Hl')|exact (lo_intervals _ _ _ _ Hl')|done]|].
    intros l2 [J2 J3]. split; [by intros ? ? ?%K2%J2|]. intros s p Hin Hus.
    apply elem_of_cons in Hin as [[= -> ->]|[[= -> ->]|?%elem_of_nil]%elem_of_cons]; [by apply J2, K3|by apply J3|done].
Qed.

Definition all_covered (bend vpos : list Z) (n : nat) (ivs : list TurboJSLiveInterval) : Prop :=
  forall i v s p, (i < n)%nat -> g_values g !! i = Some v -> (s, p) ∈ uses_of g bend vpos i v -> used_value g s -> covers ivs s p.

Lemma collect_uses_covers bend vpos :
  length bend = length (g_blocks g) -> Forall (fun p => 0 <= p) vpos ->
  wp (collect_uses mem g bend vpos) (fun l => live_ok g vpos (2 * length (g_values g)) l /\ all_covered bend vpos (length (g_values g)) l.2).
Proof.
  intros Hbend Hvpos. unfold collect_uses.
  eapply wp_mono; [apply (wp_fold _ _ (fun k l => live_ok g vpos (2 * k) l /\ all_covered bend vpos k l.2) _ 0)|].
  - split; [by apply initial_live|]. intros i v s p Hi. lia.
  - intros k [i v] [uv ivs] Hk (Hl & Hc). rewrite list_lookup_imap in Hk. destruct (g_values g !! k) as [w|] eqn:Hw; [|done].
    injection Hk as <- <-. eapply wp_mono; [apply wp_and; [by apply add_value_uses_ok|by eapply add_value_uses_covers]|].
    intros l' (K1 & K2 & K3). split; [by replace (2 * S (0 + k))%nat with (2 + 2 * (0 + k))%nat by lia|].
    intros i v s p Hi Hv Hin Hus. destruct (decide (i = k)) as [->|Hne].
    + rewrite Hw in Hv. injection Hv as ->. by apply K3.
    + apply K2. eapply Hc; [|exact Hv|done|done]. simpl in *. lia.
  - intros l Hl. by rewrite length_imap in Hl.
Qed.
End Covered.

Lemma grown_refl ivs : grown ivs ivs.
Proof. by intros s p. Qed.
Lemma grown_trans ivs1 ivs2 ivs3 : grown ivs1 ivs2 -> grown ivs2 ivs3 -> grown ivs1 ivs3.
Proof. intros H12 H23 s p Hc. by apply H23, H12. Qed.

Section Extended.
Context (g : TurboJSSSAGraph) (vpos : list Z).

Lemma extend_edge_grown budget bstart bend uv i ivs h :
  live_ok g vpos budget (uv, ivs) -> grown ivs (extend_edge g bstart bend i ivs h).
Proof.
  intros [_ _ H3 _ _]. unfold extend_edge. destruct (get_block g h) as [b|]; [|apply grown_refl].
  destruct (block_dominates _ _ _); [|apply grown_refl]. intros s p (x & Hx & Hp). unfold covers.
  rewrite list_lookup_imap, Hx. simpl. eexists. split; [done|]. etransitivity; [exact Hp|].
  by apply (extend_interval_fresh g vpos), H3.
Qed.

Lemma extend_backedges_grown budget bstart bend uv ivs :
  live_ok g vpos budget (uv, ivs) -> grown ivs (extend_backedges g bstart bend ivs).
Proof.
  unfold extend_backedges. generalize (imap pair (g_blocks g)). intros l. revert ivs.
  induction l as [|[i b] l IH]; intros ivs Hl; simpl; [apply grown_refl|].
  assert (Hs : live_ok g vpos budget (uv, foldl (extend_edge g bstart bend i) ivs (b_successors b)) /\
               grown ivs (foldl (extend_edge g bstart bend i) ivs (b_successors b))).
  { revert ivs Hl. induction (b_successors b) as [|h hs IHs]; intros ivs Hl; simpl; [by split; [|apply grown_refl]|].
    destruct (IHs (extend_edge g bstart bend i ivs h)) as [K1 K2]; [by apply extend_edge_ok|].
    split; [done|]. eapply grown_trans; [by eapply extend_edge_grown|done]. }
  eapply grown_trans; [apply Hs|]. by apply IH, Hs.
Qed.
End Extended.

(** ** The flat array of uses *)

(** The slice of an interval is inside the array. *)
Definition uses_inside (flat : list Z) (x : TurboJSLiveInterval) : Prop :=
  0 <= li_first_use x /\ 0 <= li_use_count x /\ li_first_use x + li_use_count x <= Z.of_nat (length flat).

Lemma flatten_uses_ok : forall uv ivs off flat ivs',
  length uv = length ivs -> 0 <= off -> off + Z.of_nat (total_uses uv) < 2 ^ 32 -> flatten_uses off uv ivs = (flat, ivs') ->
  length flat = total_uses uv /\
  Forall2 (fun x x' => exists f c, x' = li_set_uses f c x /\ off <= f /\ 0 <= c /\ f + c <= off + Z.of_nat (length flat)) ivs ivs'.
Proof.
  induction uv as [|u uv IH]; intros [|x ivs] off flat ivs' Hlen Hoff Hbound Hf; simpl in *; try done.
  { injection Hf as <- <-. by split. }
  assert (Hm : length (merge_sort Z.le (uv_p u)) = length (uv_p u)) by (by rewrite (merge_sort_Permutation Z.le (uv_p u))).
  unfold total_uses in Hbound. cbn [sum_list_with] in Hbound. fold (total_uses uv) in Hbound.
  destruct (flatten_uses _ uv ivs) as [fl iv] eqn:Hrec. injection Hf as <- <-.
  rewrite Hm in Hrec. destruct (IH ivs (off + Z.of_nat (length (uv_p u))) fl iv) as [K1 K2]; [lia|lia|lia|done|]. rewrite length_app, Hm, K1. split; [done|].
  constructor.
  - eexists _, _. split; [done|]. rewrite !uwrap_small by (unfold is_u; lia). lia.
  - eapply Forall2_impl; [exact K2|]. intros y y' (f & c & -> & Hy). exists f, c. split; [done|]. lia.
Qed.

(** ** The sorted intervals *)

#[export] Instance interval_le_total : Total interval_le.
Proof.
  intros x y. unfold interval_le. rewrite (Z.eqb_sym (li_start y)), (Z.eqb_sym (li_loop_depth y)), (Z.eqb_sym (li_end y)).
  destruct (Z.eqb_spec (li_start x) (li_start y)); cbn [negb].
  2: { destruct (Z.lt_total (li_start x) (li_start y)) as [?|[?|?]]; [left|done|right]; apply Is_true_eq_left, Z.ltb_lt; lia. }
  destruct (li_is_phi x), (li_is_phi y); cbn [negb eqb]; try (by left); try (by right).
  all: destruct (Z.eqb_spec (li_loop_depth x) (li_loop_depth y)); cbn [negb].
  2,4: destruct (Z.lt_total (li_loop_depth x) (li_loop_depth y)) as [?|[?|?]]; [right|done|left]; apply Is_true_eq_left, Z.ltb_lt; lia.
  all: destruct (Z.eqb_spec (li_end x) (li_end y)); cbn [negb].
  2,4: destruct (Z.lt_total (li_end x) (li_end y)) as [?|[?|?]]; [right|done|left]; apply Is_true_eq_left, Z.ltb_lt; lia.
  all: destruct (Z.le_ge_cases (li_value_id x) (li_value_id y)); [left|right]; apply Is_true_eq_left, Z.leb_le; lia.
Qed.

Lemma interval_le_start x y : interval_le x y -> li_start x <= li_start y.
Proof.
  unfold interval_le. destruct (Z.eqb_spec (li_start x) (li_start y)); cbn [negb]; [lia|].
  intros H%Is_true_eq_true%Z.ltb_lt. lia.
Qed.

Record scan_ready (g : TurboJSSSAGraph) (vpos flat : list Z) (ivs : list TurboJSLiveInterval) : Prop := {
  rd_length : length ivs = length (g_values g);
  rd_each : forall j x, ivs !! j = Some x -> exists k, fresh_interval g vpos k x /\ (k < length (g_values g))%nat /\ uses_inside flat x;
  rd_all : forall k, (k < length (g_values g))%nat -> exists j x, ivs !! j = Some x /\ li_value_id x = Z.of_nat k;
  rd_distinct : forall j j' x x', ivs !! j = Some x -> ivs !! j' = Some x' -> li_value_id x = li_value_id x' -> j = j';
  rd_sorted : forall j j' x x', (j <= j')%nat -> ivs !! j = Some x -> ivs !! j' = Some x' -> li_start x <= li_start x'
}.

Lemma sorted_starts ivs j j' x x' :
  (j <= j')%nat -> merge_sort interval_le ivs !! j = Some x -> merge_sort interval_le ivs !! j' = Some x' ->
  li_start x <= li_start x'.
Proof.
  intros Hle Hj Hj'. pose (R := fun x y => li_start x <= li_start y).
  assert (Htr : Transitive R) by (intros a b c; unfold R; lia).
  assert (Hs : StronglySorted R (merge_sort interval_le ivs)).
  { apply Sorted_StronglySorted; [exact Htr|]. pose proof (Sorted_merge_sort interval_le ivs) as Hs.
    clear Hj Hj'. induction Hs as [|a l Hl IH Ha]; constructor; [done|]. destruct Ha; constructor. by apply interval_le_start. }
  revert j j' Hle Hj Hj'. induction Hs as [|a l Hl IH Ha]; intros [|j] [|j'] Hle Hj Hj'; simpl in *; try done; try lia.
  - injection Hj as ->. injection Hj' as ->. lia.
  - injection Hj as ->. exact (Forall_lookup_1 _ _ _ _ Ha Hj').
  - eapply (IH j j'); [lia|done..].
Qed.

Lemma sort_ready g vpos flat ivs :
  length ivs = length (g_values g) ->
  (forall k x, ivs !! k = Some x -> fresh_interval g vpos k x /\ uses_inside flat x) ->
  scan_ready g vpos flat (merge_sort interval_le ivs).
Proof.
  intros Hlen Hf. pose proof (merge_sort_Permutation interval_le ivs) as Hp.
  assert (Hin : forall j x, merge_sort interval_le ivs !! j = Some x -> exists k, ivs !! k = Some x).
  { intros j x Hj. apply list_elem_of_lookup. rewrite <-Hp. by eapply list_elem_of_lookup_2. }
  split.
  - by rewrite Hp.
  - intros j x Hj. destruct (Hin j x Hj) as [k Hk]. exists k. destruct (Hf k x Hk). split_and!; [done| |done].
    rewrite <-Hlen. by eapply lookup_lt_Some.
  - intros k Hk. rewrite <-Hlen in Hk. apply lookup_lt_is_Some_2 in Hk as [x Hx].
    assert (Hx' : x ∈ merge_sort interval_le ivs) by (rewrite Hp; by eapply list_elem_of_lookup_2).
    apply list_elem_of_lookup in Hx' as [j Hj]. exists j, x. split; [done|]. by apply (fi_value g vpos k), Hf.
  - assert (Hnd : NoDup (map li_value_id (merge_sort interval_le ivs))).
    { rewrite Hp. apply NoDup_alt. intros j j' v Hj Hj'. rewrite list_lookup_fmap in Hj, Hj'.
      destruct (ivs !! j) as [x|] eqn:Hx; [|done]. destruct (ivs !! j') as [x'|] eqn:Hx'; [|done].
      injection Hj as <-. injection Hj' as Hv.
      rewrite (fi_value _ _ _ _ (proj1 (Hf j x Hx))), (fi_value _ _ _ _ (proj1 (Hf j' x' Hx'))) in Hv. lia. }
    intros j j' x x' Hj Hj' Hv. eapply (NoDup_lookup _ _ _ (li_value_id x) Hnd); rewrite list_lookup_fmap; [by rewrite Hj|].
    rewrite Hj'. simpl. by rewrite Hv.
  - intros j j' x x'. apply sorted_starts.
Qed.
