(* ===== verification/ScanSafe.v ===== *)
(** * The scan keeps values apart

    The invariant of the main loop of [TurboJS_LinearScanAllocate] and the
    soundness of the fragments it delivers. *)

From stdpp Require Import sorting.
From S2P Require Import Prelude.
From S2P Require Import JitTypes.
From S2P Require Import SSA.
From S2P Require Import LinearScan.
From S2P Require Import ScanCorrect.

(** ** The active list *)

Lemma swap_remove_perm j active k : active !! j = Some k -> active ≡ₚ k :: swap_remove j active.
Proof.
  intros Hj. unfold swap_remove. destruct (last active) as [z|] eqn:Hl.
  2: { apply last_None in Hl. by rewrite Hl in Hj. }
  apply last_Some in Hl as [l ->]. rewrite length_app. simpl. rewrite Nat.add_1_r. simpl.
  destruct (decide (j = length l)) as [->|Hne].
  - rewrite lookup_app_r, Nat.sub_diag in Hj by lia. injection Hj as <-.
    rewrite insert_app_r_alt, Nat.sub_diag by lia. simpl. rewrite take_app_length. by rewrite Permutation_app_comm.
  - assert (Hlt : (j < length l)%nat) by (apply lookup_lt_Some in Hj; rewrite length_app in Hj; simpl in Hj; lia).
    rewrite lookup_app_l in Hj by done. rewrite insert_app_l by done.
    rewrite take_app_le, take_ge by (rewrite length_insert; lia). rewrite insert_take_drop by done.
    rewrite <-(take_drop_middle l j k Hj) at 1. solve_Permutation.
Qed.

Lemma swap_remove_prefix j active k : active !! j = Some k -> take j (swap_remove j active) = take j active.
Proof.
  intros Hj. apply lookup_lt_Some in Hj as Hlt. unfold swap_remove. destruct (last active) as [z|]; [|done].
  rewrite take_take, Nat.min_l by lia. by rewrite take_insert_ge by lia.
Qed.

Lemma length_swap_remove j active k : active !! j = Some k -> S (length (swap_remove j active)) = length active.
Proof. intros Hj. pose proof (Permutation_length (swap_remove_perm j active k Hj)) as Hp. done. Qed.

(** Expiry drops exactly the intervals that have ended. *)
Lemma expire_perm ivs start : forall turns j active,
  Forall (fun k => is_Some (ivs !! k)) active ->
  (length active <= turns + j)%nat ->
  Forall (fun k => forall x, ivs !! k = Some x -> start <= li_end x) (take j active) ->
  exists gone, active ≡ₚ expire turns ivs start j active ++ gone /\
    Forall (fun k => forall x, ivs !! k = Some x -> li_end x < start) gone /\
    Forall (fun k => forall x, ivs !! k = Some x -> start <= li_end x) (expire turns ivs start j active).
Proof.
  induction turns as [|turns IH]; intros j active Hv Hlen Hpre; simpl.
  { exists []. rewrite app_nil_r. rewrite take_ge in Hpre by lia. by split_and!. }
  destruct (active !! j) as [k|] eqn:Hj; simpl.
  2: { exists []. rewrite app_nil_r. apply lookup_ge_None in Hj. rewrite take_ge in Hpre by lia. by split_and!. }
  pose proof (Forall_lookup_1 _ _ _ _ Hv Hj) as [x Hx]. rewrite Hx.
  destruct (Z.ltb_spec (li_end x) start) as [Hlt|Hge].
  - pose proof (swap_remove_perm j active k Hj) as Hp. pose proof (length_swap_remove j active k Hj).
    destruct (IH j (swap_remove j active)) as (gone & G1 & G2 & G3).
    + rewrite Forall_forall in *. intros k' Hk'. apply Hv. rewrite Hp. by right.
    + lia.
    + by rewrite (swap_remove_prefix j active k Hj).
    + exists (k :: gone). split_and!; [|constructor; [|done]|done].
      * etransitivity; [exact Hp|]. rewrite G1 at 1. solve_Permutation.
      * intros y Hy. rewrite Hx in Hy. by injection Hy as <-.
  - apply IH; [done|lia|]. rewrite (take_S_r active j k Hj). apply Forall_app. split; [done|].
    apply Forall_singleton. intros y Hy. rewrite Hx in Hy. by injection Hy as <-.
Qed.

(** ** Registers in use *)

Section Registers.
Context (denied : Prop) (ivs : list TurboJSLiveInterval).
Notation wp := (wp denied).

Lemma mark_used_ok cls active :
  (forall k x, k ∈ active -> ivs !! k = Some x -> holds_register cls x = true -> li_physical_register x < 64) ->
  Forall (fun k => is_Some (ivs !! k)) active ->
  wp (fold_attempt (mark_used ivs cls) (replicate 64 false) active) (fun used =>
    length used = 64%nat /\
    forall k x, k ∈ active -> ivs !! k = Some x -> holds_register cls x = true ->
      used !! Z.to_nat (li_physical_register x) = Some true).
Proof.
  intros Hlim Hv. eapply wp_mono; [apply (wp_fold _ _ (fun i used => length used = 64%nat /\
    forall j k x, (j < i)%nat -> active !! j = Some k -> ivs !! k = Some x -> holds_register cls x = true ->
      used !! Z.to_nat (li_physical_register x) = Some true) _ 0)|].
  - split; [done|lia].
  - intros i k used Hk [Hlen Hu]. simpl in *. pose proof (Forall_lookup_1 _ _ _ _ Hv Hk) as [x Hx].
    unfold mark_used. eapply wp_bind, wp_reading; [exact Hx|]. destruct (holds_register cls x) eqn:Hh.
    + assert (Hr : 0 <= li_physical_register x < 64).
      { split; [|eapply Hlim; [by eapply list_elem_of_lookup_2|done..]]. unfold holds_register in Hh. b2p. lia. }
      apply wp_writing; [lia|]. rewrite length_insert. split; [done|]. intros j k' y Hj Hk' Hy Hhy.
      destruct (decide (li_physical_register y = li_physical_register x)) as [->|Hne].
      * apply list_lookup_insert_eq. lia.
      * rewrite list_lookup_insert_ne.
        2: { unfold holds_register in Hhy. b2p. lia. }
        destruct (decide (j = i)) as [->|Hji]; [|by apply (Hu j k' y); [lia|..]]. congruence.
    + split; [done|]. intros j k' y Hj Hk' Hy Hhy. destruct (decide (j = i)) as [->|Hji]; [congruence|].
      by apply (Hu j k' y); [lia|..].
  - intros used [Hlen Hu]. split; [done|]. intros k x Hk Hx Hh. apply list_elem_of_lookup in Hk as [j Hj].
    apply (Hu j k x); [|done..]. by eapply lookup_lt_Some.
Qed.

Lemma first_register_ok used : forall limit k,
  0 <= k -> k + Z.of_nat limit <= Z.of_nat (length used) ->
  wp (first_register limit used k) (fun o => match o with
    | Some r => k <= r < k + Z.of_nat limit /\ used !! Z.to_nat r = Some false
    | None => True end).
Proof.
  induction limit as [|limit IH]; intros k Hk Hlen; [done|]. cbn [first_register].
  assert (Hat : exists w, used !! Z.to_nat k = Some w) by (apply lookup_lt_is_Some_2; lia). destruct Hat as [w Hw].
  unfold at_index. rewrite (proj2 (Z.leb_le 0 k)), (proj2 (Z.ltb_lt k _)) by lia. simpl. rewrite Hw. simpl. destruct w.
  - eapply wp_mono; [apply IH; lia|]. intros [r|]; [|done]. intros [Hr Hu]. split; [lia|done].
  - split; [lia|done].
Qed.

Lemma next_use_ok uses pos : forall count i,
  0 <= i -> i + Z.of_nat count <= Z.of_nat (length uses) -> wp (next_use_from count uses i pos) (fun _ => True).
Proof.
  induction count as [|count IH]; intros i Hi Hlen; [done|]. cbn [next_use_from]. unfold at_index.
  rewrite (proj2 (Z.leb_le 0 i)), (proj2 (Z.ltb_lt i _)) by lia. simpl.
  destruct (lookup_lt_is_Some_2 uses (Z.to_nat i)) as [u Hu]; [lia|]. rewrite Hu. simpl. destruct (pos <=? u); [done|].
  apply IH; lia.
Qed.

Lemma keep_score_ok x uses pos : uses_inside uses x -> wp (keep_score x uses pos) (fun _ => True).
Proof.
  intros (H1 & H2 & H3). unfold keep_score. apply wp_bind. unfold next_use.
  eapply wp_mono; [apply next_use_ok; lia|]. done.
Qed.

(** The victim is an active interval with a register of the class. *)
Lemma find_victim_ok uses cls pos active :
  (forall k x, ivs !! k = Some x -> uses_inside uses x) -> Forall (fun k => is_Some (ivs !! k)) active ->
  wp (fold_attempt (consider_victim ivs uses cls pos) None active) (fun best => match best with
    | Some (k, _) => exists x, k ∈ active /\ ivs !! k = Some x /\ holds_register cls x = true
    | None => True end).
Proof.
  intros Hu Hv. apply wp_fold_inv; [done|]. intros i k best Hk Hbest.
  pose proof (Forall_lookup_1 _ _ _ _ Hv Hk) as [x Hx]. apply list_elem_of_lookup_2 in Hk.
  unfold consider_victim. eapply wp_bind, wp_reading; [exact Hx|]. destruct (holds_register cls x) eqn:Hh; [|done].
  apply wp_bind. eapply wp_mono; [by eapply keep_score_ok, Hu|]. intros s _.
  destruct best as [[k0 least]|]; [destruct (s <? least); [|done]|]; by exists x.
Qed.
End Registers.

(** ** The invariant *)

Definition relocated (r t : Z) (x : TurboJSLiveInterval) : TurboJSLiveInterval := li_set_slot t (li_set_register r x).

Section Scanning.
Context (mem : ScanMemory) (g : TurboJSSSAGraph) (integer_registers float_registers : Z).
Context (preferred bstart uses vpos : list Z) (base : list TurboJSLiveInterval).
Context (Hready : scan_ready g vpos uses base) (Hpref : length preferred = length (g_values g)).
Context (Hint : 0 < integer_registers <= 64) (Hfloat : 0 < float_registers <= 64) (Hsmall : value_count g <= 32767).
Notation limit := (register_limit integer_registers float_registers).

Definition live (x : TurboJSLiveInterval) : Prop :=
  exists v, get_value g (li_value_id x) = Some v /\ v_removed v = false.

(** Values start inside their blocks. *)
Context (Hinside : forall j x v, base !! j = Some x -> get_value g (li_value_id x) = Some v -> v_removed v = false ->
  default 0 (bstart !! Z.to_nat (v_block v)) <= li_start x).

(** The phi [x] ends at [e], where a value updates it in place. *)
Definition coalesced (x : TurboJSLiveInterval) (e : Z) : Prop :=
  exists j z, base !! j = Some z /\ live z /\ preferred !! Z.to_nat (li_value_id z) = Some (li_value_id x) /\ li_start z = e.

(** An interval that ends at [e] is out of the way of [y]. *)
Definition clear (x : TurboJSLiveInterval) (e : Z) (y : TurboJSLiveInterval) : Prop :=
  e < li_start y \/ (e = li_start y /\ coalesced x e).

Section State.
Context (ivs : list TurboJSLiveInterval) (active : list nat) (splits : list SplitRec) (spill : Z).

(** [x] holds register [r] from its start up to [e]. *)
Definition tenure (x : TurboJSLiveInterval) (r e : Z) : Prop :=
  (0 <= li_physical_register x /\ r = li_physical_register x /\ e = li_end x) \/
  (exists sp, sp ∈ splits /\ sp_value_id sp = li_value_id x /\ li_start x < sp_position sp /\ r = sp_reg sp /\
     e = sp_position sp - 1).

Definition placed (x : TurboJSLiveInterval) : Prop :=
  (0 <= li_physical_register x < limit (li_register_class x) /\ li_spill_slot x = -1) \/
  (li_physical_register x = -1 /\ 0 <= li_spill_slot x < spill).

(** What a split record says of the interval it splits. *)
Definition split_of (i : nat) (sp : SplitRec) : Prop :=
  exists j x, (j < i)%nat /\ ivs !! j = Some x /\ live x /\ li_value_id x = sp_value_id sp /\
    li_physical_register x = -1 /\ li_spill_slot x = sp_spill sp /\
    0 <= sp_reg sp < limit (li_register_class x) /\ sp_position sp <= li_end x.

Record scan_inv (i : nat) : Prop := {
  sv_length : length ivs = length base;
  sv_same : forall j x, ivs !! j = Some x ->
    exists x0, base !! j = Some x0 /\ x = relocated (li_physical_register x) (li_spill_slot x) x0;
  sv_later : forall j, (i <= j)%nat -> ivs !! j = base !! j;
  sv_nodup : NoDup active;
  sv_active : forall k, k ∈ active -> (k < i)%nat /\ exists x, ivs !! k = Some x /\ live x;
  sv_apart : forall j k x y, j ∈ active -> k ∈ active -> ivs !! j = Some x -> ivs !! k = Some y ->
    li_register_class x = li_register_class y -> 0 <= li_physical_register x ->
    li_physical_register x = li_physical_register y -> j = k;
  sv_placed : forall j x, (j < i)%nat -> ivs !! j = Some x -> live x -> placed x;
  sv_slots : forall j k x y, ivs !! j = Some x -> ivs !! k = Some y -> 0 <= li_spill_slot x ->
    li_spill_slot x = li_spill_slot y -> j = k;
  sv_spill : 0 <= spill;
  sv_bound : forall j x, ivs !! j = Some x -> li_spill_slot x < spill;
  sv_splits : Forall (split_of i) splits;
  sv_once : NoDup (map sp_value_id splits);
  sv_frag : forall j k x y r e e', (j < k)%nat -> (k < i)%nat -> ivs !! j = Some x -> ivs !! k = Some y ->
    live x -> live y -> li_register_class x = li_register_class y -> tenure x r e -> tenure y r e' -> clear x e y;
  sv_done : forall j x r e, (j < i)%nat -> ivs !! j = Some x -> live x -> tenure x r e ->
    (j ∈ active /\ li_physical_register x = r) \/ (forall m y, (i <= m)%nat -> base !! m = Some y -> clear x e y)
}.
End State.

Lemma base_fresh j x : base !! j = Some x ->
  li_physical_register x = -1 /\ li_spill_slot x = -1 /\ 0 <= li_start x <= li_end x /\ uses_inside uses x.
Proof. intros Hj. destruct (rd_each _ _ _ _ Hready j x Hj) as (k & [H1 H2 H3 H4 H5 H6] & _ & Hu). split_and!; [done..|apply H2|apply H2|exact Hu]. Qed.

Lemma scan_inv_start : scan_inv base [] [] 0 0.
Proof.
  split.
  - done.
  - intros j x Hj. exists x. split; [done|]. by destruct x.
  - done.
  - constructor.
  - set_solver.
  - set_solver.
  - lia.
  - intros j k x y Hj _ Hs. destruct (base_fresh j x Hj) as (_ & Hslot & _). lia.
  - done.
  - intros j x Hj. destruct (base_fresh j x Hj) as (_ & -> & _). lia.
  - constructor.
  - constructor.
  - lia.
  - lia.
Qed.

Section Inv.
Context {ivs : list TurboJSLiveInterval} {active : list nat} {splits : list SplitRec} {spill : Z} {i : nat}.
Context (Hinv : scan_inv ivs active splits spill i).

(** Intervals with one value are one. *)
Lemma same_value j k x y : ivs !! j = Some x -> ivs !! k = Some y -> li_value_id x = li_value_id y -> j = k.
Proof.
  intros Hj Hk Hv. destruct (sv_same _ _ _ _ _ Hinv j x Hj) as (x0 & Hx0 & Ex). destruct (sv_same _ _ _ _ _ Hinv k y Hk) as (y0 & Hy0 & Ey).
  eapply (rd_distinct _ _ _ _ Hready); [exact Hx0|exact Hy0|]. rewrite Ex, Ey in Hv. exact Hv.
Qed.

Lemma registered_unsplit j x : ivs !! j = Some x -> 0 <= li_physical_register x ->
  forall sp, sp ∈ splits -> sp_value_id sp <> li_value_id x.
Proof.
  intros Hj Hr sp Hsp Hv. destruct (proj1 (Forall_forall _ _) (sv_splits _ _ _ _ _ Hinv) sp Hsp) as (k & y & _ & Hk & _ & Hvy & Hry & _).
  assert (k = j) as -> by (eapply same_value; [exact Hk|exact Hj|congruence]). rewrite Hj in Hk. injection Hk as ->. lia.
Qed.

Lemma tenure_end j x r e : ivs !! j = Some x -> tenure splits x r e -> e <= li_end x.
Proof.
  intros Hj [(_ & _ & ->)|(sp & Hsp & Hv & _ & _ & ->)]; [lia|].
  destruct (proj1 (Forall_forall _ _) (sv_splits _ _ _ _ _ Hinv) sp Hsp) as (k & y & _ & Hk & _ & Hvy & _ & _ & _ & Hend).
  assert (k = j) as -> by (eapply same_value; [exact Hk|exact Hj|congruence]). rewrite Hj in Hk. injection Hk as ->. lia.
Qed.

Lemma start_same j x : ivs !! j = Some x -> exists x0, base !! j = Some x0 /\ li_start x0 = li_start x /\ li_end x0 = li_end x /\
  li_value_id x0 = li_value_id x /\ li_register_class x0 = li_register_class x /\ (live x0 <-> live x) /\ uses_inside uses x.
Proof.
  intros Hj. destruct (sv_same _ _ _ _ _ Hinv j x Hj) as (x0 & Hx0 & Ex). destruct (base_fresh j x0 Hx0) as (_ & _ & _ & Hu).
  exists x0. rewrite Ex. unfold live. cbn. by split_and!.
Qed.

Lemma later_start m y cur : base !! i = Some cur -> (i <= m)%nat -> base !! m = Some y -> li_start cur <= li_start y.
Proof. intros Hc Hle Hm. by eapply (rd_sorted _ _ _ _ Hready i m). Qed.

(** *** Dropping intervals from the active list *)
Lemma inv_drop active' gone :
  active ≡ₚ active' ++ gone ->
  (forall j x r e m y, j ∈ gone -> ivs !! j = Some x -> tenure splits x r e -> (i <= m)%nat -> base !! m = Some y -> clear x e y) ->
  scan_inv ivs active' splits spill i.
Proof.
  intros Hp Hgone. destruct Hinv as [V1 V2 V3 V4 V5 V6 V7 V8 V9 VB V10 V11 V12 V13].
  assert (Hsub : forall k, k ∈ active' -> k ∈ active) by (intros k Hk; rewrite Hp; set_solver).
  split; auto.
  - rewrite Hp in V4. apply NoDup_app in V4 as [V4 _]. exact V4.
  - intros j k x y Hj Hk. apply V6; auto.
  - intros j x r e Hj Hx Hl Ht. destruct (V13 j x r e Hj Hx Hl Ht) as [[Ha Hr]|Hc]; [|by right].
    rewrite Hp in Ha. apply elem_of_app in Ha as [Ha|Hg]; [by left|]. right. intros m y Hm Hy. by eapply Hgone.
Qed.

(** *** A removed value *)
Lemma inv_skip cur : base !! i = Some cur -> ~ live cur -> scan_inv ivs active splits spill (S i).
Proof.
  intros Hc Hnl. pose proof (sv_later _ _ _ _ _ Hinv i ltac:(lia)) as Hi. rewrite Hc in Hi.
  destruct Hinv as [V1 V2 V3 V4 V5 V6 V7 V8 V9 VB V10 V11 V12 V13].
  assert (Hlt : forall j x, (j < S i)%nat -> ivs !! j = Some x -> live x -> (j < i)%nat).
  { intros j x Hj Hx Hl. destruct (decide (j = i)) as [->|]; [|lia]. rewrite Hi in Hx. by injection Hx as <-. }
  split; auto.
  - intros j Hj. apply V3. lia.
  - intros k Hk. destruct (V5 k Hk). split; [lia|done].
  - intros j x Hj Hx Hl. eapply V7; [by eapply Hlt|done..].
  - eapply Forall_impl; [exact V10|]. intros sp (j & x & Hj & Hrest). exists j, x. split; [lia|done].
  - intros j k x y r e e' Hjk Hk Hx Hy Hlx Hly. apply (V12 j k x y r e e' Hjk); [by eapply Hlt|done..].
  - intros j x r e Hj Hx Hl Ht. destruct (V13 j x r e (Hlt j x Hj Hx Hl) Hx Hl Ht) as [?|Hcl]; [by left|right].
    intros m y Hm. apply Hcl. lia.
Qed.
End Inv.

(** *** Taking a register *)

Lemma insert_later {ivs active splits spill i} (Hinv : scan_inv ivs active splits spill i) cur x :
  base !! i = Some cur ->
  length (<[i := x]> ivs) = length base /\
  (forall j, (S i <= j)%nat -> <[i := x]> ivs !! j = base !! j) /\
  <[i := x]> ivs !! i = Some x.
Proof.
  intros Hc. pose proof (sv_length _ _ _ _ _ Hinv) as Hlen. split_and!.
  - by rewrite length_insert.
  - intros j Hj. rewrite list_lookup_insert_ne by lia. apply (sv_later _ _ _ _ _ Hinv). lia.
  - apply list_lookup_insert_eq. rewrite Hlen. by eapply lookup_lt_Some.
Qed.

Lemma insert_cases {A : Type} (l : list A) i x j y :
  <[i := x]> l !! j = Some y -> (j = i /\ y = x) \/ (j <> i /\ l !! j = Some y).
Proof. intros H. apply list_lookup_insert_Some in H as [(-> & -> & _)|[? ?]]; [by left|by right]. Qed.

(** Intervals the scan has not reached are not split. *)
Lemma later_unsplit {ivs active splits spill i} (Hinv : scan_inv ivs active splits spill i) k x sp :
  (i <= k)%nat -> base !! k = Some x -> sp ∈ splits -> sp_value_id sp <> li_value_id x.
Proof.
  intros Hk Hx Hsp Hv. destruct (proj1 (Forall_forall _ _) (sv_splits _ _ _ _ _ Hinv) sp Hsp) as (j & y & Hj & Hy & _ & Hvy & _).
  rewrite <-(sv_later _ _ _ _ _ Hinv k Hk) in Hx. assert (j = k); [|lia]. eapply (same_value Hinv); [exact Hy|exact Hx|congruence].
Qed.

(** The next interval gets a register no active interval holds, or a new slot. *)
Lemma inv_place {ivs active splits spill i} cur x' spill' :
  scan_inv ivs active splits spill i -> base !! i = Some cur -> live cur ->
  x' = relocated (li_physical_register x') (li_spill_slot x') cur -> placed spill' x' ->
  (li_spill_slot x' = -1 /\ spill' = spill) \/ (li_spill_slot x' = spill /\ spill' = spill + 1) ->
  (forall k x, k ∈ active -> ivs !! k = Some x -> li_register_class x = li_register_class cur -> 0 <= li_physical_register x ->
     li_physical_register x <> li_physical_register x') ->
  scan_inv (<[i := x']> ivs) (active ++ [i]) splits spill' (S i).
Proof.
  intros Hinv Hc Hl Hx' Hplaced Hslot Hfree. destruct (insert_later Hinv cur x' Hc) as (L1 & L2 & L3).
  assert (Hsame : li_start x' = li_start cur /\ li_value_id x' = li_value_id cur /\ li_register_class x' = li_register_class cur).
  { by rewrite Hx'. }
  destruct Hsame as (Es & Ev & Ec). assert (Hlx' : live x') by (unfold live; by rewrite Ev).
  assert (Hten : forall r' e, tenure splits x' r' e -> r' = li_physical_register x' /\ 0 <= r').
  { intros r' e [(? & -> & _)|(sp & Hsp & Hv & _)]; [done|]. rewrite Ev in Hv. by destruct (later_unsplit Hinv i cur sp ltac:(lia) Hc Hsp). }
  destruct Hinv as [V1 V2 V3 V4 V5 V6 V7 V8 V9 VB V10 V11 V12 V13].
  assert (Hact : forall k x, k ∈ active -> <[i := x']> ivs !! k = Some x -> ivs !! k = Some x).
  { intros k x Hk Hx. destruct (V5 k Hk) as [Hlt _]. by rewrite list_lookup_insert_ne in Hx by lia. }
  split.
  - done.
  - intros j x [[-> ->]|[Hne Hx]]%insert_cases; [by exists cur|by apply V2].
  - done.
  - apply NoDup_app. split_and!; [done| |apply NoDup_singleton]. intros k Hk ->%list_elem_of_singleton. destruct (V5 i Hk). lia.
  - intros k [Hk| ->%list_elem_of_singleton]%elem_of_app; [|split; [lia|by exists x']].
    destruct (V5 k Hk) as (Hlt & x & Hx & Hlx). split; [lia|]. exists x. by rewrite list_lookup_insert_ne by lia.
  - intros j k x y [Hj| ->%list_elem_of_singleton]%elem_of_app [Hk| ->%list_elem_of_singleton]%elem_of_app Hx Hy Hcls Hrx Hxy; [eapply V6; eauto| | |done].
    + rewrite L3 in Hy. injection Hy as <-. destruct (Hfree j x Hj (Hact j x Hj Hx)); congruence.
    + rewrite L3 in Hx. injection Hx as <-. destruct (Hfree k y Hk (Hact k y Hk Hy)); [congruence|lia|congruence].
  - intros j x Hj [[-> ->]|[Hne Hx]]%insert_cases Hlx; [done|].
    destruct (V7 j x ltac:(lia) Hx Hlx) as [?|[? ?]]; [by left|right; lia].
  - intros j k x y [[-> ->]|[Hj Hx]]%insert_cases [[-> ->]|[Hk Hy]]%insert_cases Hs Hxy; [done| | |by eapply V8].
    + specialize (VB k y Hy). lia.
    + specialize (VB j x Hx). lia.
  - lia.
  - intros j x [[-> ->]|[_ Hx]]%insert_cases; [lia|]. specialize (VB j x Hx). lia.
  - eapply Forall_impl; [exact V10|]. intros sp (j & x & Hj & Hx & Hrest). exists j, x. split; [lia|].
    by rewrite list_lookup_insert_ne by lia.
  - done.
  - intros j k x y r' e e' Hjk Hk [[-> ->]|[Hj Hx]]%insert_cases [[-> ->]|[Hk' Hy]]%insert_cases Hlx Hly Hcls Htx Hty; try lia.
    + destruct (Hten r' e' Hty) as [Er Hr0]. destruct (V13 j x r' e Hjk Hx Hlx Htx) as [[Ha Hrx]|Hcl].
      * destruct (Hfree j x Ha Hx); [congruence|lia|congruence].
      * destruct (Hcl i cur (le_n i) Hc) as [?|[? ?]]; [left; lia|right; split; [lia|done]].
    + eapply (V12 j k); eauto. lia.
  - intros j x r' e Hj [[-> ->]|[Hne Hx]]%insert_cases Hlx Ht.
    + left. split; [set_solver|]. by destruct (Hten r' e Ht) as [-> _].
    + destruct (V13 j x r' e ltac:(lia) Hx Hlx Ht) as [[Ha Hrx]|Hcl]; [left; set_solver|right]. intros m y Hm. apply Hcl. lia.
Qed.

Lemma inv_take {ivs active splits spill i} cur r :
  scan_inv ivs active splits spill i -> base !! i = Some cur -> live cur -> 0 <= r < limit (li_register_class cur) ->
  (forall k x, k ∈ active -> ivs !! k = Some x -> li_register_class x = li_register_class cur -> 0 <= li_physical_register x ->
     li_physical_register x <> r) ->
  scan_inv (<[i := li_set_register r cur]> ivs) (active ++ [i]) splits spill (S i).
Proof.
  intros Hinv Hc Hl Hr Hfree. destruct (base_fresh i cur Hc) as (_ & Hslot & _).
  apply (inv_place (spill := spill) cur); [done..| |by left|by left|done]. by destruct cur; simpl in *; subst.
Qed.

Lemma inv_spill {ivs active splits spill i} cur :
  scan_inv ivs active splits spill i -> base !! i = Some cur -> live cur ->
  scan_inv (<[i := li_set_slot spill cur]> ivs) (active ++ [i]) splits (spill + 1) (S i).
Proof.
  intros Hinv Hc Hl. destruct (base_fresh i cur Hc) as (Hreg & _). pose proof (sv_spill _ _ _ _ _ Hinv).
  apply (inv_place (spill := spill) cur); [done..| |right; cbn; lia|by right|cbn; lia]. by destruct cur; simpl in *; subst.
Qed.

(** *** Splitting a victim *)

Lemma inv_split {ivs active splits spill i} cur k victim position :
  scan_inv ivs active splits spill i -> base !! i = Some cur -> k ∈ active -> ivs !! k = Some victim ->
  0 <= li_physical_register victim -> position <= li_start cur -> position <= li_end victim ->
  scan_inv (<[k := relocated (-1) spill victim]> ivs) active
    (splits ++ [mkSplit (li_value_id victim) position (li_physical_register victim) spill]) (spill + 1) i.
Proof.
  intros Hinv Hc Hk Hvic Hreg Hpos Hend. pose proof (registered_unsplit Hinv k victim Hvic Hreg) as Huns.
  pose proof (same_value Hinv) as Hsv. pose proof (@later_start i) as Hls.
  destruct Hinv as [V1 V2 V3 V4 V5 V6 V7 V8 V9 VB V10 V11 V12 V13].
  destruct (V5 k Hk) as (Hki & ? & E & Hlv). rewrite Hvic in E. injection E as <-.
  destruct (V7 k victim Hki Hvic Hlv) as [[Hlim Hslot]|[? _]]; [|lia].
  set (sp := mkSplit _ _ _ _).
  (* the victim keeps its register up to the split, the others as before *)
  assert (Hten : forall j x r e, <[k := relocated (-1) spill victim]> ivs !! j = Some x -> tenure (splits ++ [sp]) x r e ->
    (j = k /\ r = li_physical_register victim /\ e < li_start cur /\ e < li_end victim) \/
    (j <> k /\ ivs !! j = Some x /\ tenure splits x r e)).
  { intros j x r e [[-> ->]|[Hne Hx]]%insert_cases [(Hr & -> & ->)|(sp' & Hsp & Hv & Hst & -> & ->)].
    - cbn in Hr. lia.
    - apply elem_of_app in Hsp as [Hsp| ->%list_elem_of_singleton]; [by destruct (Huns sp' Hsp)|]. left. cbn. split_and!; [done..|lia|lia].
    - right. split_and!; [done..|]. by left.
    - right. split_and!; [done..|]. right. exists sp'. split_and!; [|done..].
      apply elem_of_app in Hsp as [Hsp| ->%list_elem_of_singleton]; [done|]. cbn in Hv. destruct Hne. by eapply Hsv. }
  assert (Hdone : forall m y e, (i <= m)%nat -> base !! m = Some y -> e < li_start cur -> clear victim e y).
  { intros m y e Hm Hy He. left. pose proof (Hls m y cur Hc Hm Hy). lia. }
  split.
  - by rewrite length_insert.
  - intros j x [[-> ->]|[_ Hx]]%insert_cases; [|by apply V2]. destruct (V2 k victim Hvic) as (x0 & Hx0 & Ex). exists x0.
    split; [done|]. by rewrite Ex.
  - intros j Hj. rewrite list_lookup_insert_ne by lia. by apply V3.
  - done.
  - intros k' Hk'. destruct (V5 k' Hk') as (Hlt & x & Hx & Hlx). split; [done|]. destruct (decide (k' = k)) as [->|Hne].
    + exists (relocated (-1) spill victim). split; [|done]. apply list_lookup_insert_eq. by eapply lookup_lt_Some.
    + exists x. by rewrite list_lookup_insert_ne.
  - intros j j' x y Hj Hj' [[-> ->]|[Hn Hx]]%insert_cases [[-> ->]|[Hn' Hy]]%insert_cases Hcls Hr Hxy; cbn in *; try lia. by eapply V6.
  - intros j x Hj [[-> ->]|[Hn Hx]]%insert_cases Hlx; [right; cbn; lia|].
    destruct (V7 j x Hj Hx Hlx) as [?|[? ?]]; [by left|right; lia].
  - intros j j' x y [[-> ->]|[Hn Hx]]%insert_cases [[-> ->]|[Hn' Hy]]%insert_cases Hs Hxy; cbn in *; [done| | |by eapply V8].
    + specialize (VB j' y Hy). lia.
    + specialize (VB j x Hx). lia.
  - lia.
  - intros j x [[-> ->]|[_ Hx]]%insert_cases; [cbn; lia|]. specialize (VB j x Hx). lia.
  - apply Forall_app. split; [|apply Forall_singleton; exists k, (relocated (-1) spill victim)].
    + eapply Forall_impl; [apply (proj2 (Forall_forall _ splits)); intros sp' Hsp; exact (conj Hsp (proj1 (Forall_forall _ _) V10 sp' Hsp))|].
      intros sp' (Hsp & j & x & Hj & Hx & Hlx & Hv & Hrest). exists j, x. split; [done|].
      rewrite list_lookup_insert_ne; [done|]. intros <-. rewrite Hvic in Hx. injection Hx as <-. by destruct (Huns sp' Hsp).
    + split; [done|]. split; [apply list_lookup_insert_eq; by eapply lookup_lt_Some|]. split; [done|]. cbn. split_and!; try done; lia.
  - rewrite map_app. apply NoDup_app. split_and!; [done| |apply NoDup_singleton].
    intros v Hv ->%list_elem_of_singleton. apply list_elem_of_fmap in Hv as (sp' & Hv & Hsp). by destruct (Huns sp' Hsp).
  - intros j j' x y r e e' Hjj Hj' Hx Hy Hlx Hly Hcls Htx Hty.
    destruct (Hten j x r e Hx Htx) as [(-> & -> & He & He')|(Hn & Hx0 & Htx0)];
      destruct (Hten j' y _ e' Hy Hty) as [(-> & Er & Hf & Hf')|(Hn' & Hy0 & Hty0)].
    + lia.
    + pose proof (insert_cases _ _ _ _ _ Hx) as [[_ ->]|[? _]]; [|done].
      destruct (V12 k j' victim y _ (li_end victim) e' Hjj Hj' Hvic Hy0 Hlv Hly Hcls (or_introl (conj Hreg (conj eq_refl eq_refl))) Hty0); left; lia.
    + pose proof (insert_cases _ _ _ _ _ Hy) as [[_ ->]|[? _]]; [|done]. subst r.
      exact (V12 j k x victim _ e (li_end victim) Hjj Hj' Hx0 Hvic Hlx Hlv Hcls Htx0 (or_introl (conj Hreg (conj eq_refl eq_refl)))).
    + by eapply (V12 j j').
  - intros j x r e Hj Hx Hlx Ht. destruct (Hten j x r e Hx Ht) as [(-> & -> & He & He')|(Hn & Hx0 & Htx0)].
    + right. intros m y Hm Hy. apply insert_cases in Hx as [[_ ->]|[? _]]; [|done]. by apply Hdone with m.
    + by eapply V13.
Qed.

(** ** The step *)

Definition scanned (i : nat) (s : ScanState) : Prop :=
  scan_inv (sc_intervals s) (sc_active s) (sc_splits s) (sc_spill s) i /\ sc_spill s <= Z.of_nat i.

Notation wp := (wp (~ all_granted_scan mem)).
Notation step := (scan_step mem g integer_registers float_registers preferred bstart uses).

Lemma limit_range cls : 0 < limit cls <= 64.
Proof. by destruct cls. Qed.

Lemma slot_small z : 0 <= z <= 32767 -> swrap 16 z = z /\ uwrap 16 (z + 1) = z + 1.
Proof.
  intros Hz. split; [|apply uwrap_small; unfold is_u; lia]. unfold swrap. change (2 ^ (16 - 1)) with 32768. change (2 ^ 16) with 65536.
  rewrite Z.mod_small by lia. lia.
Qed.

Lemma inv_visible {ivs active splits spill i} : scan_inv ivs active splits spill i -> Forall (fun k => is_Some (ivs !! k)) active.
Proof. intros Hinv. apply Forall_forall. intros k Hk. destruct (sv_active _ _ _ _ _ Hinv k Hk) as (_ & x & Hx & _). by exists x. Qed.

Lemma inv_uses {ivs active splits spill i} k x :
  scan_inv ivs active splits spill i -> ivs !! k = Some x -> uses_inside uses x.
Proof. intros Hinv Hx. by destruct (start_same Hinv k x Hx) as (x0 & _ & _ & _ & _ & _ & _ & Hu). Qed.

Lemma split_position_ok cur victim j :
  base !! j = Some cur -> live cur -> li_start cur <= li_end victim ->
  split_position g bstart cur victim <= li_start cur /\ split_position g bstart cur victim <= li_end victim.
Proof.
  intros Hc (v & Hv & Hr) Hend. unfold split_position. rewrite Hv. destruct (get_block g (v_block v)) as [b|]; [|lia].
  pose proof (Hinside j cur v Hc Hv Hr). destruct (_ && _) eqn:Hb; [|lia].
  apply andb_true_iff in Hb as [_ Hlt%Z.ltb_lt]. lia.
Qed.

Section Step.
Context (i : nat) (cur : TurboJSLiveInterval) (Hc : base !! i = Some cur) (Hl : live cur).

Lemma evict_victim_ok s k victim :
  scanned i s -> k ∈ sc_active s -> sc_intervals s !! k = Some victim -> holds_register (li_register_class cur) victim = true ->
  li_start cur <= li_end victim ->
  wp (evict_victim mem g bstart i cur k victim s) (fun s' => scanned (S i) (sc_set_active (sc_active s' ++ [i]) s')).
Proof.
  intros [Hinv Hsp] Hk Hvic Hholds Hend. unfold evict_victim. apply wp_bind, wp_granted.
  { intros Hf (_ & _ & _ & Hall & _). rewrite Hall, orb_true_r in Hf. done. }
  assert (Hlen : Z.of_nat i < 32767 + 1).
  { apply lookup_lt_Some in Hc. rewrite (rd_length _ _ _ _ Hready) in Hc. unfold value_count in Hsmall. lia. }
  pose proof (sv_spill _ _ _ _ _ Hinv) as H0. destruct (slot_small (sc_spill s)) as [Esw Eu]; [lia|].
  unfold holds_register in Hholds. apply andb_true_iff in Hholds as [Hcls%bool_decide_eq_true Hreg%Z.leb_le].
  destruct (split_position_ok cur victim i Hc Hl Hend) as [Hp1 Hp2].
  pose proof (inv_split cur k victim _ Hinv Hc Hk Hvic Hreg Hp1 Hp2) as Hs.
  destruct (sv_active _ _ _ _ _ Hinv k Hk) as (Hki & ? & E & Hlv). rewrite Hvic in E. injection E as <-.
  split; cbn; rewrite ?Esw, Eu; [|lia]. rewrite list_insert_insert_ne by lia.
  apply (inv_take cur); [exact Hs|done|done| |].
  - rewrite <-Hcls. destruct (sv_placed _ _ _ _ _ Hinv k victim Hki Hvic Hlv) as [[? _]|[? _]]; [done|lia].
  - intros k' x Hk' Hx Hc' Hr' Heq. apply insert_cases in Hx as [[-> ->]|[Hne Hx]]; [cbn in Hr'; lia|].
    destruct Hne. eapply (sv_apart _ _ _ _ _ Hinv); eauto. congruence.
Qed.

Lemma assign_ok s used :
  scanned i s -> length used = 64%nat ->
  (forall k x, k ∈ sc_active s -> sc_intervals s !! k = Some x -> li_start cur <= li_end x) ->
  (forall k x, k ∈ sc_active s -> sc_intervals s !! k = Some x -> holds_register (li_register_class cur) x = true ->
     used !! Z.to_nat (li_physical_register x) = Some true) ->
  wp (assign mem g integer_registers float_registers bstart uses i cur used s)
    (fun s' => scanned (S i) (sc_set_active (sc_active s' ++ [i]) s')).
Proof.
  intros [Hinv Hsp] Hlen Hend Hused. unfold assign. apply wp_bind. pose proof (limit_range (li_register_class cur)) as Hlim.
  eapply wp_mono; [apply first_register_ok; lia|]. intros [r|].
  { intros [Hr Hfree]. split; cbn; [|lia]. apply (inv_take cur); [done..|lia|]. intros k x Hk Hx Hcls Hr0 Heq.
    assert (Hh : holds_register (li_register_class cur) x = true).
    { unfold holds_register. rewrite bool_decide_eq_true_2 by done. by apply Z.leb_le. }
    specialize (Hused k x Hk Hx Hh). rewrite Heq in Hused. congruence. }
  intros _. apply wp_bind. destruct (base_fresh i cur Hc) as (_ & _ & _ & Hu).
  eapply wp_mono; [by apply keep_score_ok|]. intros cur_score _. apply wp_bind.
  eapply wp_mono; [apply find_victim_ok; [intros k x; exact (inv_uses k x Hinv)|exact (inv_visible Hinv)]|]. intros best Hbest.
  assert (Hspill : scanned (S i) (sc_set_active (sc_active s ++ [i])
    (sc_take_slot (sc_set_intervals (<[i := li_set_slot (swrap 16 (sc_spill s)) cur]> (sc_intervals s)) s)))).
  { assert (Hn : Z.of_nat i < 32767 + 1).
    { apply lookup_lt_Some in Hc. rewrite (rd_length _ _ _ _ Hready) in Hc. unfold value_count in Hsmall. lia. }
    pose proof (sv_spill _ _ _ _ _ Hinv) as H0. destruct (slot_small (sc_spill s)) as [Esw Eu]; [lia|].
    split; cbn; rewrite ?Esw, Eu; [by apply inv_spill|lia]. }
  destruct best as [[k victim_score]|]; [|exact Hspill]. destruct (victim_score <? cur_score); [|exact Hspill].
  destruct Hbest as (victim & Hk & Hvic & Hholds). eapply wp_bind, wp_reading; [exact Hvic|].
  apply evict_victim_ok; [done..|by eapply Hend].
Qed.

Lemma try_coalesce_cases p s :
  let s' := try_coalesce p i cur s in
  sc_splits s' = sc_splits s /\ sc_spill s' = sc_spill s /\
  ((sc_intervals s' = sc_intervals s /\ sc_active s' = sc_active s) \/
   (exists pk k pref, sc_active s !! pk = Some k /\ sc_intervals s !! k = Some pref /\ li_value_id pref = p /\
      li_register_class pref = li_register_class cur /\ 0 <= li_physical_register pref /\ li_end pref = li_start cur /\
      sc_intervals s' = <[i := li_set_register (li_physical_register pref) cur]> (sc_intervals s) /\
      sc_active s' = swap_remove pk (sc_active s))).
Proof.
  simpl. unfold try_coalesce. destruct (p =? TURBOJS_SSA_NO_VALUE); [by split_and!; [..|left]|].
  destruct (list_find _ _) as [[pk k]|] eqn:Hf; [|by split_and!; [..|left]].
  apply list_find_Some in Hf as (Hpk & Hk & _). unfold is_interval_of in Hk.
  destruct (sc_intervals s !! k) as [pref|] eqn:Hp; [|by split_and!; [..|left]]. apply Z.eqb_eq in Hk.
  destruct (_ && _) eqn:Hb; [|by split_and!; [..|left]]. unfold holds_register in Hb. b2p.
  split_and!; [done..|]. right. exists pk, k, pref. by split_and!.
Qed.

Lemma coalesce_ok s pk k pref :
  scanned i s -> preferred !! Z.to_nat (li_value_id cur) = Some (li_value_id pref) ->
  sc_active s !! pk = Some k -> sc_intervals s !! k = Some pref -> li_register_class pref = li_register_class cur ->
  0 <= li_physical_register pref -> li_end pref = li_start cur ->
  scan_inv (<[i := li_set_register (li_physical_register pref) cur]> (sc_intervals s)) (swap_remove pk (sc_active s) ++ [i])
    (sc_splits s) (sc_spill s) (S i).
Proof.
  intros [Hinv _] Hp Hpk Hk Hcls Hreg Hend. pose proof (swap_remove_perm pk _ k Hpk) as Hperm.
  assert (Hka : k ∈ sc_active s) by (by eapply list_elem_of_lookup_2).
  destruct (sv_active _ _ _ _ _ Hinv k Hka) as (Hki & ? & E & Hlp). rewrite Hk in E. injection E as <-.
  assert (Hdrop : scan_inv (sc_intervals s) (swap_remove pk (sc_active s)) (sc_splits s) (sc_spill s) i).
  { apply (inv_drop Hinv _ [k]); [by rewrite Permutation_app_comm|].
    intros j x r e m y ->%list_elem_of_singleton Hx Ht Hm Hy. rewrite Hk in Hx. injection Hx as <-.
    pose proof (tenure_end Hinv k pref r e Hk Ht). pose proof (later_start m y cur Hc Hm Hy).
    unfold clear. destruct (decide (e < li_start y)) as [|Hge]; [by left|right]. split; [lia|].
    exists i, cur. split_and!; [done..|lia]. }
  apply (inv_take cur); [exact Hdrop|done|done| |].
  - rewrite <-Hcls. destruct (sv_placed _ _ _ _ _ Hinv k pref Hki Hk Hlp) as [[? _]|[? _]]; [done|lia].
  - intros k' x Hk' Hx Hcx Hrx Heq. assert (Hk'a : k' ∈ sc_active s) by (rewrite Hperm; by right).
    assert (k' = k) as ->.
    { eapply (sv_apart _ _ _ _ _ Hinv k' k x pref); eauto. congruence. }
    pose proof (sv_nodup _ _ _ _ _ Hinv) as Hnd. rewrite Hperm in Hnd. by apply NoDup_cons in Hnd as [? _].
Qed.
End Step.

Lemma removed_not_live cur v : get_value g (li_value_id cur) = Some v -> v_removed v = true -> ~ live cur.
Proof. intros Hv Hr (w & Hw & Hrw). congruence. Qed.

Lemma expire_ok i cur s :
  base !! i = Some cur -> scanned i s ->
  let s' := sc_set_active (expire (length (sc_active s)) (sc_intervals s) (li_start cur) 0 (sc_active s)) s in
  scanned i s' /\ forall k x, k ∈ sc_active s' -> sc_intervals s' !! k = Some x -> li_start cur <= li_end x.
Proof.
  intros Hc [Hinv Hsp]. destruct (expire_perm (sc_intervals s) (li_start cur) (length (sc_active s)) 0 (sc_active s)) as (gone & G1 & G2 & G3).
  - exact (inv_visible Hinv).
  - lia.
  - constructor.
  - split; cbn.
    + split; cbn; [|done]. apply (inv_drop Hinv _ gone G1). intros j x r e m y Hj Hx Ht Hm Hy. left.
      pose proof (tenure_end Hinv j x r e Hx Ht). pose proof (later_start m y cur Hc Hm Hy).
      pose proof (proj1 (Forall_forall _ _) G2 j Hj x Hx). lia.
    + intros k x Hk. exact (proj1 (Forall_forall _ _) G3 k Hk x).
Qed.

Lemma scan_step_ok i s : (i < length base)%nat -> scanned i s -> wp (step s i) (scanned (S i)).
Proof.
  intros Hi Hs. destruct (lookup_lt_is_Some_2 base i Hi) as [cur Hc]. unfold scan_step.
  eapply wp_bind, wp_reading; [rewrite (sv_later _ _ _ _ _ (proj1 Hs) i) by lia; exact Hc|].
  destruct (rd_each _ _ _ _ Hready i cur Hc) as (k0 & Hfresh & Hk0 & _). pose proof (fi_value _ _ _ _ Hfresh) as Hid.
  destruct (lookup_lt_is_Some_2 (g_values g) k0 Hk0) as [v Hv].
  assert (Hgv : get_value g (li_value_id cur) = Some v) by (rewrite get_value_lookup, Hid, Nat2Z.id; exact Hv). rewrite Hgv.
  destruct (v_removed v) eqn:Hr.
  { destruct Hs as [Hinv Hsp]. split; [|lia]. eapply (inv_skip Hinv); [exact Hc|by eapply removed_not_live]. }
  assert (Hl : live cur) by (by exists v). destruct (expire_ok i cur s Hc Hs) as [Hs1 Hend]. cbv zeta.
  set (s1 := sc_set_active _ s) in *. pose proof Hs1 as [Hinv1 Hsp1]. apply wp_bind.
  eapply wp_mono; [apply mark_used_ok; [|exact (inv_visible Hinv1)]|].
  { intros k x Hk Hx Hh. destruct (sv_active _ _ _ _ _ Hinv1 k Hk) as (Hki & ? & E & Hlx). rewrite Hx in E. injection E as <-.
    destruct (sv_placed _ _ _ _ _ Hinv1 k x Hki Hx Hlx) as [[? _]|[? _]]; pose proof (limit_range (li_register_class x)); lia. }
  intros used [Hlen Hused]. apply wp_bind, wp_at_index; [rewrite Hid, Hpref; lia|]. intros p Hp.
  destruct (try_coalesce_cases i cur p s1) as (E1 & E2 & [[E3 E4]|(pk & k & pref & Hpk & Hk & Hvp & Hcls & Hreg & Hpe & E3 & E4)]).
  - destruct (base_fresh i cur Hc) as (Hcr & _). eapply wp_bind, wp_reading.
    { rewrite E3, (sv_later _ _ _ _ _ Hinv1 i) by lia. exact Hc. }
    rewrite Hcr. cbn [Z.ltb Z.compare]. apply wp_bind. apply (assign_ok i cur Hc Hl).
    + split; rewrite ?E1, ?E2, ?E3, ?E4; done.
    + done.
    + rewrite E3, E4. exact Hend.
    + rewrite E3, E4. exact Hused.
  - destruct (insert_later Hinv1 cur (li_set_register (li_physical_register pref) cur) Hc) as (_ & _ & L3).
    eapply wp_bind, wp_reading; [rewrite E3; exact L3|]. cbn [li_physical_register li_set_register].
    rewrite (proj2 (Z.ltb_ge _ _) Hreg). split; cbn; rewrite ?E1, ?E2, ?E3, ?E4; [|lia].
    subst p. by apply (coalesce_ok i cur Hc Hl s1 pk k pref).
Qed.

Lemma scan_ok : wp (scan mem g integer_registers float_registers preferred bstart uses base) (scanned (length base)).
Proof.
  unfold scan. eapply wp_mono; [apply (wp_fold _ _ scanned _ 0)|].
  - split; [exact scan_inv_start|done].
  - intros i a s Hi Hs. apply lookup_seq in Hi as [-> Hi]. by apply scan_step_ok.
  - intros s. by rewrite length_seq.
Qed.
End Scanning.
