(* ===== verification/ScanSound.v ===== *)
(** * Soundness of the register allocation

    What [TurboJS_LinearScanAllocate] promises its clients, independently of
    how it scans: every live value has one place at every position of its
    interval, and no two values share a place. *)

From stdpp Require Import sorting.
From S2P Require Import Prelude.
From S2P Require Import JitTypes.
From S2P Require Import SSA.
From S2P Require Import LinearScan.
From S2P Require Import ScanCorrect.
From S2P Require Import ScanSafe.

(** ** The promise *)

Definition at_position (f : TurboJSLiveIntervalFragment) (p : Z) : Prop := fr_start f <= p <= fr_end f.

(** A register of the class, or a spill slot. *)
Definition located (r : TurboJSLinearScanResult) (cls : TurboJSRegisterClass) (f : TurboJSLiveIntervalFragment) : Prop :=
  (0 <= fr_physical_register f < register_limit (sr_integer_register_count r) (sr_float_register_count r) cls /\
     fr_spill_slot f = -1) \/
  (fr_physical_register f = -1 /\ 0 <= fr_spill_slot f < sr_spill_slot_count r).

(** The instruction at [p] adds to or subtracts from the phi [u]. *)
Definition updated_in_place (g : TurboJSSSAGraph) (r : TurboJSLinearScanResult) (u p : Z) : Prop :=
  exists z v, g_values g !! z = Some v /\ v_removed v = false /\ updates_phi v u = true /\
    sr_value_positions r !! z = Some p.

(** [f] ends where [f'] starts, at an update of [f]'s value. *)
Definition handed_over (g : TurboJSSSAGraph) (r : TurboJSLinearScanResult) (f f' : TurboJSLiveIntervalFragment) (p : Z) : Prop :=
  fr_end f = p /\ fr_start f' = p /\ updated_in_place g r (fr_value_id f) p.

Definition class_of (g : TurboJSSSAGraph) (k : Z) : option TurboJSRegisterClass :=
  (fun v => class_for (v_type v)) <$> (g_values g !! Z.to_nat k).

Record allocation_sound (g : TurboJSSSAGraph) (r : TurboJSLinearScanResult) : Prop := {
  (** every live value has an interval, and a place all along it *)
  as_placed : forall k v, g_values g !! k = Some v -> v_removed v = false ->
    exists x, x ∈ sr_intervals r /\ li_value_id x = Z.of_nat k /\ sr_value_positions r !! k = Some (li_start x) /\
      forall p, li_start x <= p <= li_end x ->
        exists f, f ∈ sr_fragments r /\ fr_value_id f = Z.of_nat k /\ at_position f p /\ located r (class_for (v_type v)) f;
  (** one place at a time *)
  as_once : forall f f' p, f ∈ sr_fragments r -> f' ∈ sr_fragments r -> fr_value_id f = fr_value_id f' ->
    at_position f p -> at_position f' p -> f = f';
  (** two values are never in the same register *)
  as_registers : forall f f' p, f ∈ sr_fragments r -> f' ∈ sr_fragments r -> fr_value_id f <> fr_value_id f' ->
    class_of g (fr_value_id f) = class_of g (fr_value_id f') -> at_position f p -> at_position f' p ->
    0 <= fr_physical_register f -> fr_physical_register f = fr_physical_register f' ->
    handed_over g r f f' p \/ handed_over g r f' f p;
  (** nor in the same slot *)
  as_slots : forall f f', f ∈ sr_fragments r -> f' ∈ sr_fragments r -> fr_value_id f <> fr_value_id f' ->
    0 <= fr_spill_slot f -> fr_spill_slot f <> fr_spill_slot f';
  (** the interval of an operand reaches its uses *)
  as_uses : forall i v s p, g_values g !! i = Some v ->
    (s, p) ∈ uses_of g (sr_block_end_positions r) (sr_value_positions r) i v -> used_value g s ->
    exists x, x ∈ sr_intervals r /\ li_value_id x = s /\ p <= li_end x
}.

(** ** Coalescing hints *)

Definition hint_ok (g : TurboJSSSAGraph) (preferred : list Z) : Prop :=
  forall z u, preferred !! z = Some u -> u = TURBOJS_SSA_NO_VALUE \/
    exists v, g_values g !! z = Some v /\ v_removed v = false /\ updates_phi v u = true.

Lemma hint_input_ok g phi s u :
  length s.1 = length (g_values g) /\ hint_ok g s.1 ->
  length (hint_input g phi s u).1 = length (g_values g) /\ hint_ok g (hint_input g phi s u).1.
Proof.
  destruct s as [preferred candidates]. simpl. intros [Hlen Hok]. unfold hint_input.
  destruct (u =? TURBOJS_SSA_NO_VALUE); [done|]. destruct (get_value g u) as [upd|] eqn:Hu; [|done].
  destruct (_ && _) eqn:Hb; [|done]. simpl. rewrite length_insert. split; [done|].
  apply andb_true_iff in Hb as [Hr%negb_true_iff Hup]. rewrite get_value_lookup in Hu.
  intros z w [[-> ->]|[_ Hz]]%insert_cases; [|by apply Hok]. right. by exists upd.
Qed.

Lemma phi_hints_ok g : length (phi_hints g).1 = length (g_values g) /\ hint_ok g (phi_hints g).1.
Proof.
  unfold phi_hints. set (s0 := (replicate _ _, 0)).
  assert (H0 : length s0.1 = length (g_values g) /\ hint_ok g s0.1).
  { simpl. rewrite length_replicate. split; [done|]. intros z u Hz. apply lookup_replicate in Hz as [-> _]. by left. }
  revert H0. generalize s0, (g_values g) at 2 4. clear s0. intros s l. revert s.
  induction l as [|phi l IH]; intros s Hs; simpl; [done|]. apply IH. unfold hint_phi.
  destruct (_ || _); [done|]. simpl. by do 2 apply hint_input_ok.
Qed.

(** ** Fragments of a finished scan *)

Section Fragments.
Context (g : TurboJSSSAGraph) (Hg : scannable g) (integer_registers float_registers : Z).
Context (preferred uses vpos : list Z) (base : list TurboJSLiveInterval) (Hready : scan_ready g vpos uses base).
Context (s : ScanState) (Hs : scanned g integer_registers float_registers preferred base (length base) s).
Notation limit := (register_limit integer_registers float_registers).
Notation tenure := (tenure (sc_splits s)).

Lemma interval_of k v : g_values g !! k = Some v -> v_removed v = false ->
  exists j x, sc_intervals s !! j = Some x /\ li_value_id x = Z.of_nat k /\ live g x /\ (j < length base)%nat /\
    li_register_class x = class_for (v_type v) /\ 0 <= li_start x <= li_end x /\ li_start x = default 0 (vpos !! k).
Proof.
  intros Hv Hr. destruct (rd_all _ _ _ _ Hready k) as (j & x0 & Hj & Hid); [by eapply lookup_lt_Some|].
  destruct (rd_each _ _ _ _ Hready j x0 Hj) as (k' & [F1 F2 F3 F4 F5 F6] & _ & _). assert (k' = k) as -> by lia.
  pose proof Hs as [Hinv _]. assert (Hlt : (j < length base)%nat) by (by eapply lookup_lt_Some).
  destruct (lookup_lt_is_Some_2 (sc_intervals s) j) as [x Hx]; [by rewrite (sv_length _ _ _ _ _ _ _ _ _ _ Hinv)|].
  destruct (sv_same _ _ _ _ _ _ _ _ _ _ Hinv j x Hx) as (x1 & Hx1 & Ex). rewrite Hj in Hx1. injection Hx1 as <-.
  exists j, x. rewrite Ex. cbn. split_and!; try done; [by rewrite <-Ex| |by apply F4|apply F2|apply F2].
  exists v. split; [|done]. cbn. by rewrite get_value_lookup, Hid, Nat2Z.id.
Qed.

(** A fragment is the whole interval, or one side of its split. *)
Inductive fragment_of (x : TurboJSLiveInterval) : TurboJSLiveIntervalFragment -> Prop :=
  | whole : (forall sp, sp ∈ sc_splits s -> sp_value_id sp = li_value_id x -> sp_position sp <= li_start x) ->
      fragment_of x (mkFragment (li_value_id x) (li_start x) (li_end x) (li_physical_register x) (li_spill_slot x))
  | before sp : sp ∈ sc_splits s -> sp_value_id sp = li_value_id x -> li_start x < sp_position sp ->
      fragment_of x (mkFragment (li_value_id x) (li_start x) (sp_position sp - 1) (sp_reg sp) (-1))
  | after sp : sp ∈ sc_splits s -> sp_value_id sp = li_value_id x -> li_start x < sp_position sp ->
      fragment_of x (mkFragment (li_value_id x) (sp_position sp) (li_end x) (-1) (sp_spill sp)).

Lemma split_unique sp sp' : sp ∈ sc_splits s -> sp' ∈ sc_splits s -> sp_value_id sp = sp_value_id sp' -> sp = sp'.
Proof.
  intros H1 H2 Hv. apply list_elem_of_lookup in H1 as [a Ha]. apply list_elem_of_lookup in H2 as [b Hb].
  pose proof (sv_once _ _ _ _ _ _ _ _ _ _ (proj1 Hs)) as Hnd.
  assert (a = b) as ->; [|congruence].
  eapply (NoDup_lookup _ _ _ (sp_value_id sp) Hnd); rewrite list_lookup_fmap; [by rewrite Ha|]. rewrite Hb. simpl. by rewrite Hv.
Qed.

Lemma fragments_of_spec k v f : g_values g !! k = Some v ->
  f ∈ fragments_of s k v <->
  v_removed v = false /\ exists j x, sc_intervals s !! j = Some x /\ li_value_id x = Z.of_nat k /\ fragment_of x f.
Proof.
  intros Hv. unfold fragments_of. pose proof Hs as [Hinv _].
  destruct (v_removed v) eqn:Hr.
  { split; [|by intros [? _]]. destruct (list_find _ _) as [[? ?]|]; by intros ?%elem_of_nil. }
  destruct (interval_of k v Hv Hr) as (j & x & Hx & Hid & Hl & _).
  destruct (list_find _ (sc_intervals s)) as [[j' x']|] eqn:Hf.
  2: { exfalso. apply list_find_None in Hf. exact (Forall_lookup_1 _ _ _ _ Hf Hx Hid). }
  apply list_find_Some in Hf as (Hx' & Hid' & _).
  assert (Hone : forall j2 x2, sc_intervals s !! j2 = Some x2 -> li_value_id x2 = Z.of_nat k -> x2 = x').
  { intros j2 x2 H2 Hid2. assert (j2 = j') as -> by (eapply (same_value _ _ _ _ _ _ _ Hready Hinv); [exact H2|exact Hx'|congruence]). congruence. }
  rewrite <-Hid' in *. destruct (list_find _ (sc_splits s)) as [[a sp]|] eqn:Hfs.
  - apply list_find_Some in Hfs as (Ha & Hsv & _). apply list_elem_of_lookup_2 in Ha.
    assert (Huniq : forall sp', sp' ∈ sc_splits s -> sp_value_id sp' = li_value_id x' -> sp' = sp).
    { intros sp' Hsp' Hv'. apply split_unique; [done..|congruence]. }
    destruct (Z.ltb_spec (li_start x') (sp_position sp)) as [Hlt|Hge]; split.
    + intros [->|[->|?%elem_of_nil]%elem_of_cons]%elem_of_cons; [..|done]; (split; [done|]; exists j', x'; split_and!; [done..|]).
      * by apply before.
      * by apply after.
    + intros (_ & j2 & x2 & H2 & Hid2 & Hfr). rewrite (Hone j2 x2 H2 Hid2) in Hfr. destruct Hfr as [Hno|sp' Hsp' Hv' Hp'|sp' Hsp' Hv' Hp'].
      * specialize (Hno sp Ha Hsv). lia.
      * rewrite (Huniq sp' Hsp' Hv'). by left.
      * rewrite (Huniq sp' Hsp' Hv'). right. by left.
    + intros ->%list_elem_of_singleton. split; [done|]. exists j', x'. split_and!; [done..|]. apply whole.
      intros sp' Hsp' Hv'. by rewrite (Huniq sp' Hsp' Hv').
    + intros (_ & j2 & x2 & H2 & Hid2 & Hfr). rewrite (Hone j2 x2 H2 Hid2) in Hfr. apply list_elem_of_singleton.
      destruct Hfr as [Hno|sp' Hsp' Hv' Hp'|sp' Hsp' Hv' Hp']; [done|..]; rewrite (Huniq sp' Hsp' Hv') in Hp'; lia.
  - apply list_find_None in Hfs.
    assert (Hno : forall sp, sp ∈ sc_splits s -> sp_value_id sp <> li_value_id x') by (intros sp Hsp; exact (proj1 (Forall_forall _ _) Hfs sp Hsp)).
    split.
    + intros ->%list_elem_of_singleton. split; [done|]. exists j', x'. split_and!; [done..|]. apply whole.
      intros sp Hsp Hv'. by destruct (Hno sp Hsp).
    + intros (_ & j2 & x2 & H2 & Hid2 & Hfr). rewrite (Hone j2 x2 H2 Hid2) in Hfr. apply list_elem_of_singleton.
      destruct Hfr as [_|sp' Hsp' Hv' _|sp' Hsp' Hv' _]; [done|by destruct (Hno sp' Hsp')..].
Qed.

Lemma in_fragments f : f ∈ build_fragments g s <->
  exists k v, g_values g !! k = Some v /\ v_removed v = false /\
    exists j x, sc_intervals s !! j = Some x /\ li_value_id x = Z.of_nat k /\ fragment_of x f.
Proof.
  unfold build_fragments. rewrite list_elem_of_In, in_concat. split.
  - intros (l & Hl & Hf). apply list_elem_of_In in Hl, Hf. apply list_elem_of_lookup in Hl as [k Hk].
    rewrite list_lookup_imap in Hk. destruct (g_values g !! k) as [v|] eqn:Hv; [|done]. injection Hk as <-.
    exists k, v. split; [done|]. by apply fragments_of_spec in Hf.
  - intros (k & v & Hv & Hr & Hex). exists (fragments_of s k v). split; apply list_elem_of_In.
    + apply list_elem_of_lookup. exists k. by rewrite list_lookup_imap, Hv.
    + by apply fragments_of_spec.
Qed.

(** What the scan knows of the interval of a fragment. *)
Record fragment_facts (f : TurboJSLiveIntervalFragment) (j : nat) (x : TurboJSLiveInterval) : Prop := {
  ff_interval : sc_intervals s !! j = Some x;
  ff_index : (j < length base)%nat;
  ff_value : fr_value_id f = li_value_id x;
  ff_live : live g x;
  ff_class : class_of g (fr_value_id f) = Some (li_register_class x);
  ff_fragment : fragment_of x f
}.

Lemma fragment_known f : f ∈ build_fragments g s -> exists j x, fragment_facts f j x.
Proof.
  intros (k & v & Hv & Hr & j & x & Hx & Hid & Hf)%in_fragments. exists j, x.
  destruct (interval_of k v Hv Hr) as (j0 & x0 & Hx0 & Hid0 & Hl & Hlt & Hcls & _).
  assert (j = j0) as -> by (eapply (same_value _ _ _ _ _ _ _ Hready (proj1 Hs)); [exact Hx|exact Hx0|congruence]).
  rewrite Hx in Hx0. injection Hx0 as <-. assert (Hfv : fr_value_id f = li_value_id x) by (by destruct Hf).
  split; try done. unfold class_of. by rewrite Hfv, Hid, Nat2Z.id, Hv, Hcls.
Qed.

(** The place of a split interval is what its record says. *)
Lemma split_known sp j x : sp ∈ sc_splits s -> sc_intervals s !! j = Some x -> sp_value_id sp = li_value_id x ->
  li_physical_register x = -1 /\ li_spill_slot x = sp_spill sp /\ 0 <= sp_reg sp < limit (li_register_class x) /\
  sp_position sp <= li_end x.
Proof.
  intros Hsp Hx Hv. destruct Hs as [Hinv _].
  destruct (proj1 (Forall_forall _ _) (sv_splits _ _ _ _ _ _ _ _ _ _ Hinv) sp Hsp) as (k & y & _ & Hk & _ & Hvy & Hrest).
  assert (k = j) as -> by (eapply (same_value _ _ _ _ _ _ _ Hready Hinv); [exact Hk|exact Hx|congruence]). rewrite Hx in Hk.
  by injection Hk as <-.
Qed.

Lemma fragment_located f j x : fragment_facts f j x ->
  (0 <= fr_physical_register f < limit (li_register_class x) /\ fr_spill_slot f = -1) \/
  (fr_physical_register f = -1 /\ 0 <= fr_spill_slot f < sc_spill s).
Proof.
  intros [Hx Hlt _ Hl _ Hf]. pose proof (sv_placed _ _ _ _ _ _ _ _ _ _ (proj1 Hs) j x Hlt Hx Hl) as Hp.
  destruct Hf as [_|sp Hsp Hv _|sp Hsp Hv _]; cbn; [exact Hp|..]; destruct (split_known sp j x Hsp Hx Hv) as (H1 & H2 & H3 & _).
  - by left.
  - right. destruct Hp as [[? _]|[_ ?]]; [lia|]. by rewrite <-H2.
Qed.

Lemma fragment_tenure f j x : fragment_facts f j x -> 0 <= fr_physical_register f ->
  fr_start f = li_start x /\ tenure x (fr_physical_register f) (fr_end f).
Proof.
  intros [Hx _ _ _ _ Hf] Hr. destruct Hf as [_|sp Hsp Hv Hp|sp Hsp Hv Hp]; cbn in *.
  - split; [done|]. by left.
  - split; [done|]. right. by exists sp.
  - lia.
Qed.

Lemma fragment_slot f j x : fragment_facts f j x -> 0 <= fr_spill_slot f -> fr_spill_slot f = li_spill_slot x.
Proof.
  intros [Hx _ _ _ _ Hf] Hr. destruct Hf as [_|sp Hsp Hv Hp|sp Hsp Hv Hp]; cbn in *; [done|lia|].
  by destruct (split_known sp j x Hsp Hx Hv) as (_ & -> & _).
Qed.

Lemma fragments_apart f f' j j' x x' p :
  (j < j')%nat -> fragment_facts f j x -> fragment_facts f' j' x' -> class_of g (fr_value_id f) = class_of g (fr_value_id f') ->
  at_position f p -> at_position f' p -> 0 <= fr_physical_register f -> fr_physical_register f = fr_physical_register f' ->
  fr_end f = p /\ fr_start f' = p /\ coalesced g preferred base x p.
Proof.
  intros Hjj F F' Hcls [P1 P2] [P3 P4] Hr Heq. pose proof (fragment_tenure f j x F Hr) as [S1 T1].
  pose proof (fragment_tenure f' j' x' F' ltac:(lia)) as [S2 T2]. rewrite <-Heq in T2.
  destruct F as [Hx _ _ Hl Hc _], F' as [Hx' Hlt' _ Hl' Hc' _].
  assert (Hcc : li_register_class x = li_register_class x') by congruence.
  pose proof (sv_frag _ _ _ _ _ _ _ _ _ _ (proj1 Hs) j j' x x' _ _ _ Hjj Hlt' Hx Hx' Hl Hl' Hcc T1 T2) as Hclear.
  unfold clear in Hclear. rewrite <-S2 in Hclear. destruct Hclear as [?|[He Hco]]; [lia|].
  assert (fr_end f = p) as Hep by lia. split_and!; [done|lia|]. by rewrite <-Hep.
Qed.

Lemma fragment_once f f' j x p :
  fragment_facts f j x -> fragment_facts f' j x -> at_position f p -> at_position f' p -> f = f'.
Proof.
  intros [Hx _ _ _ _ F] [_ _ _ _ _ F'] [P1 P2] [P3 P4].
  destruct F as [Hno|sp Hsp Hv Hp|sp Hsp Hv Hp], F' as [Hno'|sp' Hsp' Hv' Hp'|sp' Hsp' Hv' Hp']; cbn in *; try done.
  all: try (specialize (Hno sp' Hsp' Hv'); lia); try (specialize (Hno' sp Hsp Hv); lia).
  all: assert (sp = sp') as <- by (apply split_unique; [done..|congruence]); try done; lia.
Qed.

Lemma fragment_covering j x p : sc_intervals s !! j = Some x -> li_start x <= p <= li_end x ->
  exists f, fragment_of x f /\ at_position f p.
Proof.
  intros Hx Hp. destruct (list_find (fun sp => sp_value_id sp = li_value_id x) (sc_splits s)) as [[a sp]|] eqn:Hf.
  - apply list_find_Some in Hf as (Ha & Hv & _). apply list_elem_of_lookup_2 in Ha.
    destruct (split_known sp j x Ha Hx Hv) as (_ & _ & _ & Hend).
    destruct (decide (li_start x < sp_position sp)) as [Hlt|Hge].
    + destruct (decide (p < sp_position sp)).
      * eexists. split; [by apply (before x sp)|]. unfold at_position. cbn. lia.
      * eexists. split; [by apply (after x sp)|]. unfold at_position. cbn. lia.
    + eexists. split; [apply whole|by unfold at_position; cbn]. intros sp' Hsp' Hv'.
      rewrite (split_unique sp' sp); [lia|done..|congruence].
  - apply list_find_None in Hf. eexists. split; [apply whole|by unfold at_position; cbn]. intros sp' Hsp' Hv'.
    by destruct (proj1 (Forall_forall _ _) Hf sp' Hsp').
Qed.
End Fragments.

(** ** The allocator *)

Section Allocator.
Context (mem : ScanMemory) (g : TurboJSSSAGraph) (integer_registers float_registers : Z).
Context (Hg : scannable g) (Hvalues : value_count g <= 32767) (Hblocks : block_count g <= 32767).
Context (Hint : 0 < integer_registers <= 64) (Hfloat : 0 < float_registers <= 64).
Notation wp := (wp (~ all_granted_scan mem)).

Lemma flatten_ready uv ivs vpos flat ivs' :
  live_ok g vpos (2 * length (g_values g)) (uv, ivs) -> flatten_uses 0 uv ivs = (flat, ivs') ->
  scan_ready g vpos flat (merge_sort interval_le ivs') /\
  forall k x, ivs !! k = Some x -> exists x', x' ∈ merge_sort interval_le ivs' /\ li_value_id x' = li_value_id x /\ li_end x' = li_end x.
Proof.
  intros [H1 H2 H3 H4 H5] Hf. simpl in *. unfold value_count in Hvalues.
  destruct (flatten_uses_ok uv ivs 0 flat ivs') as [Hlen Hall]; [congruence|done|lia|done|]. split.
  - apply sort_ready; [by rewrite <-(Forall2_length _ _ _ Hall)|]. intros k x' Hk.
    destruct (Forall2_lookup_r _ _ _ _ _ Hall Hk) as (x & Hx & f & c & -> & Hf0 & Hc0 & Hfc). destruct (H3 k x Hx) as [F1 F2 F3 F4 F5 F6].
    split; [by split|]. unfold uses_inside. cbn. lia.
  - intros k x Hx. destruct (Forall2_lookup_l _ _ _ _ _ Hall Hx) as (x' & Hx' & f & c & -> & _). exists (li_set_uses f c x). split_and!; [|done..].
    rewrite (merge_sort_Permutation interval_le ivs'). by eapply list_elem_of_lookup_2.
Qed.

(** A value starts inside its block. *)
Lemma numbered_inside k nb flat base j x v :
  numbered g k nb -> scan_ready g (nb_vpos nb) flat base -> base !! j = Some x -> get_value g (li_value_id x) = Some v ->
  v_removed v = false -> default 0 (nb_bstart nb !! Z.to_nat (v_block v)) <= li_start x.
Proof.
  intros Hn Hrd Hj Hv Hr. destruct (rd_each _ _ _ _ Hrd j x Hj) as (z & [F1 F2 F3 F4 F5 F6] & Hz & _).
  rewrite get_value_lookup, F1, Nat2Z.id in Hv. rewrite F3.
  destruct (lookup_lt_is_Some_2 (nb_vpos nb) z) as [p Hp]; [by rewrite (nu_vpos _ _ _ Hn)|]. rewrite Hp. simpl.
  destruct (nb_bstart nb !! Z.to_nat (v_block v)) as [b|] eqn:Hb; simpl; [by eapply (nu_inside _ _ _ Hn)|].
  apply (Forall_lookup_1 _ _ _ _ (nu_values _ _ _ Hn)) in Hp. lia.
Qed.

Lemma handed_ok (s : ScanState) nb fragments preferred base flat candidates f f' j j' x x' p :
  hint_ok g preferred -> scan_ready g (nb_vpos nb) flat base -> length (nb_vpos nb) = length (g_values g) ->
  fragment_facts g base s f j x -> fragment_facts g base s f' j' x' ->
  fr_end f = p /\ fr_start f' = p /\ coalesced g preferred base x p ->
  handed_over g (mkScanResult (sc_intervals s) fragments flat (nb_vpos nb) (nb_bstart nb) (nb_bend nb) integer_registers float_registers
    (sc_spill s) (sc_split_count s) candidates (sc_successes s) (sc_rejected s)) f f' p.
Proof.
  intros Hh Hrd Hlen F F' (He & Hst & m & z & Hm & Hlz & Hpz & Hsz). split_and!; [done..|].
  destruct (rd_each _ _ _ _ Hrd m z Hm) as (k & [F1 F2 F3 F4 F5 F6] & Hk & _).
  destruct F as [Hx _ Hv (w & Hw & _) _ _]. rewrite F1, Nat2Z.id in Hpz.
  destruct (Hh k _ Hpz) as [Hno|(v & Hgv & Hr & Hup)].
  - exfalso. rewrite get_value_lookup in Hw. apply lookup_lt_Some in Hw. unfold value_count in Hvalues. rewrite Hno in Hw.
    change TURBOJS_SSA_NO_VALUE with 4294967295 in Hw. lia.
  - exists k, v. rewrite Hv. split_and!; [done..|]. cbn. rewrite F3 in Hsz. rewrite <-Hsz.
    destruct (lookup_lt_is_Some_2 (nb_vpos nb) k) as [q Hq]; [by rewrite Hlen|]. by rewrite Hq.
Qed.

Section Result.
Context (k : nat) (nb : Numbering) (Hnb : numbered g k nb) (flat preferred : list Z) (Hhint : hint_ok g preferred).
Context (base : list TurboJSLiveInterval) (Hready : scan_ready g (nb_vpos nb) flat base).
Context (Huses : forall i v s p, g_values g !! i = Some v -> (s, p) ∈ uses_of g (nb_bend nb) (nb_vpos nb) i v -> used_value g s ->
  exists j x, base !! j = Some x /\ li_value_id x = s /\ p <= li_end x).
Context (s : ScanState) (Hs : scanned g integer_registers float_registers preferred base (length base) s) (candidates : Z).
Notation facts := (fragment_facts g base s).

Definition result : TurboJSLinearScanResult :=
  mkScanResult (sc_intervals s) (build_fragments g s) flat (nb_vpos nb) (nb_bstart nb) (nb_bend nb) integer_registers float_registers
    (sc_spill s) (sc_split_count s) candidates (sc_successes s) (sc_rejected s).

Lemma known f : f ∈ build_fragments g s -> exists j x, facts f j x.
Proof. apply (fragment_known g integer_registers float_registers preferred flat (nb_vpos nb) base Hready s Hs). Qed.

Lemma facts_same f f' j j' x x' : facts f j x -> facts f' j' x' -> fr_value_id f = fr_value_id f' -> j = j' /\ x = x'.
Proof.
  intros F F' Hv. assert (j = j') as ->.
  { eapply (same_value _ _ _ _ _ _ _ Hready (proj1 Hs)); [exact (ff_interval _ _ _ _ _ _ F)|exact (ff_interval _ _ _ _ _ _ F')|].
    rewrite <-(ff_value _ _ _ _ _ _ F), <-(ff_value _ _ _ _ _ _ F'). exact Hv. }
  split; [done|]. pose proof (ff_interval _ _ _ _ _ _ F). pose proof (ff_interval _ _ _ _ _ _ F'). congruence.
Qed.

Lemma result_placed z v : g_values g !! z = Some v -> v_removed v = false ->
  exists x, x ∈ sr_intervals result /\ li_value_id x = Z.of_nat z /\ sr_value_positions result !! z = Some (li_start x) /\
    forall p, li_start x <= p <= li_end x ->
      exists f, f ∈ sr_fragments result /\ fr_value_id f = Z.of_nat z /\ at_position f p /\ located result (class_for (v_type v)) f.
Proof.
  intros Hv Hr. destruct (interval_of g _ _ _ _ _ _ Hready s Hs z v Hv Hr) as (j & x & Hx & Hid & Hl & Hlt & Hcls & _ & Hpos).
  exists x. cbn. split_and!; [by eapply list_elem_of_lookup_2|done| |].
  { rewrite Hpos. destruct (lookup_lt_is_Some_2 (nb_vpos nb) z) as [q Hq]; [|by rewrite Hq].
    rewrite (nu_vpos _ _ _ Hnb). by eapply lookup_lt_Some. }
  intros p Hp. destruct (fragment_covering g _ _ _ _ _ _ Hready s Hs j x p Hx Hp) as (f & Hf & Hat).
  assert (Hin : f ∈ build_fragments g s).
  { apply (in_fragments g _ _ _ _ _ _ Hready s Hs). exists z, v. split_and!; [done..|]. by exists j, x. }
  exists f. destruct (known f Hin) as (j' & x' & F). split_and!; [done|by destruct Hf|done|].
  assert (x' = x) as ->.
  { assert (j' = j) as ->; [|pose proof (ff_interval _ _ _ _ _ _ F); congruence].
    eapply (same_value _ _ _ _ _ _ _ Hready (proj1 Hs)); [exact (ff_interval _ _ _ _ _ _ F)|exact Hx|].
    rewrite <-(ff_value _ _ _ _ _ _ F). by destruct Hf. }
  unfold located. cbn. rewrite <-Hcls. exact (fragment_located g _ _ _ _ _ _ Hready s Hs f j' x F).
Qed.

Lemma result_registers f f' p : f ∈ sr_fragments result -> f' ∈ sr_fragments result -> fr_value_id f <> fr_value_id f' ->
  class_of g (fr_value_id f) = class_of g (fr_value_id f') -> at_position f p -> at_position f' p ->
  0 <= fr_physical_register f -> fr_physical_register f = fr_physical_register f' ->
  handed_over g result f f' p \/ handed_over g result f' f p.
Proof.
  intros Hf Hf' Hne Hcls Hp Hp' Hr Heq. destruct (known f Hf) as (j & x & F). destruct (known f' Hf') as (j' & x' & F').
  pose proof (nu_vpos _ _ _ Hnb) as Hlen. destruct (Nat.lt_total j j') as [Hlt|[->|Hgt]].
  - left. eapply handed_ok; [exact Hhint|exact Hready|exact Hlen|exact F|exact F'|].
    by apply (fragments_apart g _ _ _ _ s Hs f f' j j' x x' p Hlt F F').
  - destruct Hne. rewrite (ff_value _ _ _ _ _ _ F), (ff_value _ _ _ _ _ _ F').
    pose proof (ff_interval _ _ _ _ _ _ F). pose proof (ff_interval _ _ _ _ _ _ F'). congruence.
  - right. eapply handed_ok; [exact Hhint|exact Hready|exact Hlen|exact F'|exact F|].
    apply (fragments_apart g _ _ _ _ s Hs f' f j' j x' x p Hgt F' F); [by symmetry|done|done|lia|by symmetry].
Qed.

Lemma result_sound : allocation_sound g result.
Proof.
  split.
  - exact result_placed.
  - intros f f' p Hf Hf' Hv Hp Hp'. destruct (known f Hf) as (j & x & F). destruct (known f' Hf') as (j' & x' & F').
    destruct (facts_same f f' j j' x x' F F' Hv) as [<- <-]. by eapply (fragment_once g _ _ _ _ s Hs f f' j x p).
  - exact result_registers.
  - intros f f' Hf Hf' Hne Hslot Heq. destruct (known f Hf) as (j & x & F). destruct (known f' Hf') as (j' & x' & F').
    destruct Hne. rewrite (ff_value _ _ _ _ _ _ F), (ff_value _ _ _ _ _ _ F').
    pose proof (fragment_slot g _ _ _ _ _ _ Hready s Hs f j x F Hslot) as S1.
    pose proof (fragment_slot g _ _ _ _ _ _ Hready s Hs f' j' x' F' ltac:(lia)) as S2.
    pose proof (ff_interval _ _ _ _ _ _ F) as Hx. pose proof (ff_interval _ _ _ _ _ _ F') as Hx'.
    assert (j = j') as <-; [|congruence]. eapply (sv_slots _ _ _ _ _ _ _ _ _ _ (proj1 Hs)); [exact Hx|exact Hx'|lia|congruence].
  - intros i v o p Hv Hin Hu. destruct (Huses i v o p Hv Hin Hu) as (j & x & Hx & Hid & Hend).
    destruct (lookup_lt_is_Some_2 (sc_intervals s) j) as [y Hy].
    { rewrite (sv_length _ _ _ _ _ _ _ _ _ _ (proj1 Hs)). by eapply lookup_lt_Some. }
    destruct (start_same _ _ _ _ _ _ _ Hready (proj1 Hs) j y Hy) as (x0 & Hx0 & _ & He & Hvid & _). rewrite Hx in Hx0. injection Hx0 as <-.
    exists y. cbn. split_and!; [by eapply list_elem_of_lookup_2|congruence|lia].
Qed.
End Result.

Lemma linear_scan_ok : wp (linear_scan mem g integer_registers float_registers) (allocation_sound g).
Proof.
  unfold linear_scan. apply wp_bind, wp_granted; [intros Hf (Hall & _); by rewrite Hall in Hf|].
  apply wp_bind. eapply wp_mono.
  { apply (dfs_rpo_total _ g Hg _ _ _ (length (g_blocks g)) (length (g_blocks g))); [exact (sg_entry g Hg)| |lia].
    unfold dfs_inv. simpl. rewrite length_replicate. unfold unseen. split_and!; [done| | |constructor].
    all: etransitivity; [apply length_filter|by rewrite length_replicate]. }
  intros [seen post] (_ & _ & Hpost & Hrange). simpl in *. apply wp_bind.
  eapply wp_mono; [apply (number_blocks_ok _ g Hg)|].
  { apply Forall_reverse in Hrange. unfold reverse in Hrange. rewrite rev_append_rev, app_nil_r in Hrange. exact Hrange. }
  { rewrite length_rev. unfold value_count, block_count in *. nia. }
  intros nb Hnb. apply wp_bind. eapply wp_mono; [apply (collect_uses_covers mem g Hg); [exact (nu_bend _ _ _ Hnb)|]|].
  { eapply Forall_impl; [exact (nu_values _ _ _ Hnb)|]. simpl. lia. }
  intros [uv ivs] [Hlive Hcov]. pose proof (phi_hints_ok g) as [Hplen Hhint]. destruct (phi_hints g) as [preferred candidates].
  pose proof (extend_backedges_ok g _ _ (nb_bstart nb) (nb_bend nb) uv ivs Hlive) as Hlive'.
  pose proof (extend_backedges_grown g _ _ (nb_bstart nb) (nb_bend nb) uv ivs Hlive) as Hgrown.
  apply wp_bind, wp_granted; [intros Hf (_ & _ & Hall & _); by rewrite Hall in Hf|].
  destruct (flatten_uses 0 uv _) as [flat ivs'] eqn:Hflat. destruct (flatten_ready uv _ _ flat ivs' Hlive' Hflat) as [Hready Hends].
  apply wp_bind. eapply wp_mono.
  { eapply (scan_ok mem g integer_registers float_registers preferred (nb_bstart nb) flat (nb_vpos nb)); try done.
    intros j x v. by eapply numbered_inside. }
  intros s Hs. apply wp_bind, wp_granted; [intros Hf (_ & _ & _ & _ & Hall); by rewrite Hall in Hf|].
  eapply (result_sound _ nb Hnb flat preferred Hhint _ Hready); [|exact Hs].
  intros i v o p Hv Hin Hu. assert (Hc : covers (extend_backedges g (nb_bstart nb) (nb_bend nb) ivs) o p).
  { apply Hgrown. simpl in Hcov. eapply (Hcov i v); try done. by eapply lookup_lt_Some. }
  destruct Hc as (x & Hx & Hend). destruct (Hends _ x Hx) as (x' & Hin' & Hid & He).
  apply list_elem_of_lookup in Hin' as [j Hj]. exists j, x'. split_and!; [done| |lia].
  rewrite Hid, (fi_value _ _ _ _ (lo_fresh _ _ _ _ Hlive' _ x Hx)). destruct Hu. lia.
Qed.
End Allocator.


(** *** Samples *)

(** [for (i = 0, a = 0; i < n; i = i + 1) a = a + i; return a] *)
Definition sample_value (id block : Z) (op : TurboJSSSAOpcode) (left right : Z) : TurboJSSSAValue :=
  new_value id block op TURBOJS_SSA_TYPE_INT64 left right 0 0.
Definition sample_block (id first count : Z) (preds succs : list Z) (idom depth : Z) : TurboJSSSABlock :=
  mkBlock id first count 0 0 preds succs idom TURBOJS_SSA_NO_BLOCK 0 depth true false.
Definition loop_graph : TurboJSSSAGraph :=
  let none := TURBOJS_SSA_NO_VALUE in
  mkGraph
    [sample_value 0 0 TURBOJS_SSA_CONSTANT_I64 none none; sample_value 1 0 TURBOJS_SSA_ARGUMENT none none;
     sample_value 2 0 TURBOJS_SSA_CONSTANT_I64 none none; sample_value 3 0 TURBOJS_SSA_JUMP none none;
     sample_value 4 1 TURBOJS_SSA_PHI 0 8; sample_value 5 1 TURBOJS_SSA_PHI 0 9;
     sample_value 6 1 TURBOJS_SSA_LESS_THAN_I64 5 1; sample_value 7 1 TURBOJS_SSA_BRANCH_TRUE 6 none;
     sample_value 8 2 TURBOJS_SSA_ADD_I64 4 5; sample_value 9 2 TURBOJS_SSA_ADD_I64 5 2; sample_value 10 2 TURBOJS_SSA_JUMP none none;
     sample_value 11 3 TURBOJS_SSA_RETURN 4 none] 16
    [sample_block 0 0 4 [] [1] TURBOJS_SSA_NO_BLOCK 0; sample_block 1 4 4 [0; 2] [3; 2] 0 1;
     sample_block 2 8 3 [1] [1] 1 1; sample_block 3 11 1 [1] [] 1 0] 4 0 0.
Definition scan_granted : ScanMemory := mkScanMemory true (fun _ _ => true) true (fun _ => true) true.

(** Value, start, end, register and slot of the fragments. *)
Definition places (registers : Z) : list (Z * Z * Z * Z * Z) :=
  match TurboJS_LinearScanAllocate scan_granted loop_graph registers registers with
  | Some (_, Some r) =>
      map (fun f => (fr_value_id f, fr_start f, fr_end f, fr_physical_register f, fr_spill_slot f)) (sr_fragments r)
  | _ => []
  end.

(** With registers to spare, [i + 1] takes the register of [i]; with two
    registers intervals are split and spilled. *)
Example places_8 :
  places 8 =
  [(0, 2, 10, 0, -1); (1, 4, 28, 1, -1); (2, 6, 28, 2, -1); (3, 8, 8, 3, -1); (4, 12, 30, 0, -1); (5, 14, 24, 3, -1);
   (6, 16, 18, 4, -1); (7, 18, 18, 5, -1); (8, 22, 28, 4, -1); (9, 24, 28, 3, -1); (10, 26, 26, 5, -1); (11, 30, 30, 1, -1)].
Proof. vm_compute. reflexivity. Qed.

Example places_2 :
  take 5 (places 2) = [(0, 2, 5, 0, -1); (0, 6, 10, -1, 0); (1, 4, 28, 1, -1); (2, 6, 11, 0, -1); (2, 12, 28, -1, 2)].
Proof. vm_compute. reflexivity. Qed.

Lemma loop_graph_scannable : scannable loop_graph.
Proof.
  split.
  - vm_compute. reflexivity.
  - done.
  - repeat (apply Forall_cons; split; [split; repeat (apply Forall_cons; split; [vm_compute; repeat split; discriminate|]); apply Forall_nil_2|]); apply Forall_nil_2.
  - repeat (apply Forall_cons; split; [vm_compute; repeat split; discriminate|]); apply Forall_nil_2.
  - repeat (apply Forall_cons; split; [vm_compute; split; discriminate|]); apply Forall_nil_2.
  - repeat (apply Forall_cons; split; [split; [done|eexists; split; [reflexivity|cbn; lia]]|]); apply Forall_nil_2.
Qed.

