(* ===== verification/Pipeline.v ===== *)
(** * The optimizing tier (src/jit/optimizing/pipeline.c)

    [TurboJS_OptimizingCompile] builds the SSA graph of an IR function,
    specializes it from feedback, optimizes it, allocates registers, and
    lowers it back to IR for the baseline code generator, which is a
    parameter.  On functions without control flow the optimized code is shown
    to return what the interpreter returns. *)

From S2P Require Import Prelude.
From S2P Require Import JitTypes.
From S2P Require Import Clutch.
From S2P Require Import IR.
From S2P Require Import IRVerify.
From S2P Require Import Float64.
From S2P Require Import IRInterp.
From S2P Require Import Feedback.
From S2P Require Import SSA.
From S2P Require Import SSADom.
From S2P Require Import SSAMem.
From S2P Require Import SSAOpt.
From S2P Require Import SSACorrect.
From S2P Require Import SSABuild.
From S2P Require Import LinearScan.

(** ** Lowering *)

Inductive LowerStep :=
  | LowerNext (map : list Z) (out : TurboJSIRFunction)
  | LowerOom
  | LowerUnsupported.

(** [map[id]], for an id the code has compared with the array size. *)
Definition mapped (map : list Z) (id : Z) : Z :=
  if id <? TURBOJS_IR_MAX_REGISTERS then default TURBOJS_IR_NO_REGISTER (map !! Z.to_nat id) else TURBOJS_IR_NO_REGISTER.

Definition lower_opcode (op : TurboJSSSAOpcode) : TurboJSIROpcode :=
  match op with
  | TURBOJS_SSA_ADD_I64 => TURBOJS_IR_ADD_I64
  | TURBOJS_SSA_SUB_I64 => TURBOJS_IR_SUB_I64
  | TURBOJS_SSA_MUL_I64 => TURBOJS_IR_MUL_I64
  | _ => TURBOJS_IR_LESS_THAN_I64
  end.

(** Allocate a register, record it in [map[v->id]] and emit; [None]: the
    write is outside the 64-entry array. *)
Definition lower_define (mem : Z -> bool) (v : TurboJSSSAValue) (map : list Z) (out : TurboJSIRFunction)
    (op : TurboJSIROpcode) (l r imm : Z) : option LowerStep :=
  let '(out, dst) := TurboJS_IRAllocateRegister out in
  if dst =? TURBOJS_IR_NO_REGISTER then Some LowerOom
  else if (v_id v <? 0) || (Z.of_nat (length map) <=? v_id v) then None
  else
    let map := <[Z.to_nat (v_id v) := dst]> map in
    match TurboJS_IREmit (mem (f_instruction_count out)) out
            (mkInstruction op dst l r imm 0 (v_source_instruction v)) with
    | (out, TURBOJS_IR_OK) => Some (LowerNext map out)
    | _ => Some LowerOom
    end.

Definition lower_value (mem : Z -> bool) (v : TurboJSSSAValue) (map : list Z) (out : TurboJSIRFunction)
    : option LowerStep :=
  let none := TURBOJS_IR_NO_REGISTER in
  if v_removed v || is_opcode TURBOJS_SSA_NOP v || is_opcode TURBOJS_SSA_GUARD_INT32 v then Some (LowerNext map out)
  else match v_opcode v with
  | TURBOJS_SSA_ARGUMENT => lower_define mem v map out TURBOJS_IR_ARGUMENT none none (v_immediate v)
  | TURBOJS_SSA_CONSTANT_I64 => lower_define mem v map out TURBOJS_IR_CONSTANT_I64 none none (v_immediate v)
  | TURBOJS_SSA_ADD_I64 | TURBOJS_SSA_SUB_I64 | TURBOJS_SSA_MUL_I64 | TURBOJS_SSA_LESS_THAN_I64 =>
      if (mapped map (v_left v) =? none) || (mapped map (v_right v) =? none) then Some LowerUnsupported
      else lower_define mem v map out (lower_opcode (v_opcode v)) (mapped map (v_left v)) (mapped map (v_right v)) 0
  | TURBOJS_SSA_RETURN =>
      if mapped map (v_left v) =? none then Some LowerUnsupported
      else match TurboJS_IREmit (mem (f_instruction_count out)) out
                   (mkInstruction TURBOJS_IR_RETURN_I64 none (mapped map (v_left v)) none 0 0 (v_source_instruction v)) with
           | (out, TURBOJS_IR_OK) => Some (LowerNext map out)
           | _ => Some LowerOom
           end
  | _ => Some LowerUnsupported
  end.

(** The loop over the values; [i] is the index reported with a failure. *)
Fixpoint lower_values (mem : Z -> bool) (i : Z) (vs : list TurboJSSSAValue) (map : list Z) (out : TurboJSIRFunction)
    : option (TurboJSIRDiagnostic + TurboJSIRFunction) :=
  match vs with
  | [] => Some (inr out)
  | v :: vs =>
      let? s := lower_value mem v map out in
      match s with
      | LowerNext map out => lower_values mem (i + 1) vs map out
      | LowerOom => Some (inl (mkDiagnostic TURBOJS_IR_OUT_OF_MEMORY i "optimized lowering allocation failed"))
      | LowerUnsupported =>
          Some (inl (mkDiagnostic TURBOJS_IR_UNSUPPORTED i "SSA operation requires future optimized CFG lowering"))
      end
  end.

Definition empty_map : list Z := replicate (Z.to_nat TURBOJS_IR_MAX_REGISTERS) TURBOJS_IR_NO_REGISTER.

(** [None]: a write outside [map], or a verifier read of a dangling call site.
    A failed lowering has destroyed its function. *)
Definition lower_graph (hp : Heap) (mem : Z -> bool) (next : Z) (g : TurboJSSSAGraph) (argument_count : Z)
    : option (TurboJSIRDiagnostic * TurboJSIRFunction) :=
  if negb (block_count g =? 1)
  then Some (mkDiagnostic TURBOJS_IR_UNSUPPORTED 0
               "optimizing native lowering currently requires one reachable block", zero_function)
  else
    let '(out, _) := TurboJS_IRFunctionInit next argument_count in
    let? r := lower_values mem 0 (g_values g) empty_map out in
    match r with
    | inl d => Some (d, zero_function)
    | inr out => let? d := TurboJS_IRVerify hp out in Some (d, out)
    end.

(** ** Compilation *)

Record CompileMemory := mkCompileMemory {
  cm_object : bool;
  cm_build : BuildMemory;
  cm_guards : Z -> bool;
  cm_opt : OptMemory;
  cm_scan : ScanMemory;
  cm_emit : Z -> bool
}.

Record TurboJSOptimizedFunction := mkOptimized {
  of_graph : TurboJSSSAGraph;
  of_allocation : TurboJSLinearScanResult;
  of_lowered : TurboJSIRFunction   (* what the native code was compiled from *)
}.

Section Compile.
Context (hp : Heap).
(** [TurboJS_BaselineCompile]: the status of compiling an IR function. *)
Context (baseline : TurboJSIRFunction -> TurboJSIRStatus).

(** [None]: undefined behaviour or a loop that does not settle. *)
Definition TurboJS_OptimizingCompile (fuel : nat) (mem : CompileMemory) (next : Z) (f : TurboJSIRFunction)
    (feedback : option TurboJSFeedbackVector) : option (TurboJSIRStatus * option TurboJSOptimizedFunction) :=
  if negb (cm_object mem) then Some (TURBOJS_IR_OUT_OF_MEMORY, None)
  else
    let? (st, g) := TurboJS_SSABuildFromIR (cm_build mem) f in
    match st with
    | TURBOJS_IR_OK =>
        let '(st, g) := match feedback with
                        | Some fv => let '(st, g, _) := TurboJS_SSASpecializeFromFeedback (cm_guards mem) g fv in (st, g)
                        | None => (TURBOJS_IR_OK, g)
                        end in
        match st with
        | TURBOJS_IR_OK =>
            let? (g, _) := TurboJS_SSAOptimize fuel (cm_opt mem) g in
            if negb (TurboJS_SSAVerify g) then Some (TURBOJS_IR_INVALID_OPCODE, None)
            else
              let? (st, allocation) := TurboJS_LinearScanAllocate (cm_scan mem) g 6 8 in
              match allocation with
              | None => Some (st, None)
              | Some allocation =>
                  let? (d, lowered) := lower_graph hp (cm_emit mem) next g (f_argument_count f) in
                  match dg_status d with
                  | TURBOJS_IR_OK =>
                      match baseline lowered with
                      | TURBOJS_IR_OK => Some (TURBOJS_IR_OK, Some (mkOptimized g allocation lowered))
                      | st => Some (st, None)
                      end
                  | st => Some (st, None)
                  end
              end
        | st => Some (st, None)
        end
    | st => Some (st, None)
    end.
End Compile.

(** ** Lowering preserves the computation

    [R] is the register array of the interpreter running the lowered code:
    the register [map] gives to a value holds the number the value computes. *)
Record lowering (rho : Z -> Z) (map : list Z) (out : TurboJSIRFunction) (R : list Z) : Prop := {
  lw_map : length map = 64%nat;
  lw_R : length R = 64%nat;
  lw_count : 0 <= f_register_count out <= TURBOJS_IR_MAX_REGISTERS;
  lw_agree : forall id m, map !! id = Some m -> m <> TURBOJS_IR_NO_REGISTER ->
    0 <= m < f_register_count out /\ R !! Z.to_nat m = Some (rho (Z.of_nat id))
}.

Lemma mapped_agree rho map out R id :
  lowering rho map out R -> 0 <= id -> mapped map id <> TURBOJS_IR_NO_REGISTER ->
  R !! Z.to_nat (mapped map id) = Some (rho id).
Proof.
  intros Hl Hid. unfold mapped. destruct (id <? _); [|done].
  destruct (map !! Z.to_nat id) as [m|] eqn:Hm; [|done]. simpl. intros Hne.
  destruct (lw_agree _ _ _ _ Hl _ _ Hm Hne) as [_ HR]. by rewrite Z2Nat.id in HR.
Qed.

(** The instruction [lower_define] appends. *)
Lemma lower_define_next mem v map out op l r imm map' out' :
  lower_define mem v map out op l r imm = Some (LowerNext map' out') ->
  exists dst, f_instructions out' = f_instructions out ++ [mkInstruction op dst l r imm 0 (v_source_instruction v)] /\
    f_argument_count out' = f_argument_count out /\
    dst = f_register_count out /\ dst < TURBOJS_IR_MAX_REGISTERS /\ f_register_count out' = dst + 1 /\
    0 <= v_id v < Z.of_nat (length map) /\ map' = <[Z.to_nat (v_id v) := dst]> map.
Proof.
  unfold lower_define, TurboJS_IRAllocateRegister. destruct (Z.leb_spec TURBOJS_IR_MAX_REGISTERS (f_register_count out)) as [|Hc].
  { rewrite Z.eqb_refl. done. }
  destruct (_ =? TURBOJS_IR_NO_REGISTER); [done|]. destruct (_ || _) eqn:Hb; [done|]. b2p.
  unfold TurboJS_IREmit. destruct (_ && _); [done|]. intros [= <- <-]. eexists. split_and!; done || lia.
Qed.

Lemma lowering_define rho mem v map out op l r imm map' out' R :
  lowering rho map out R -> lower_define mem v map out op l r imm = Some (LowerNext map' out') ->
  exists dst, (Z.to_nat dst < length R)%nat /\
    f_instructions out' = f_instructions out ++ [mkInstruction op dst l r imm 0 (v_source_instruction v)] /\
    lowering rho map' out' (<[Z.to_nat dst := rho (v_id v)]> R).
Proof.
  intros [Hm HR Hc Ha] (dst & Hi & _ & Hd & Hlt & Hn & Hid & ->)%lower_define_next. exists dst.
  unfold TURBOJS_IR_MAX_REGISTERS in *. split; [lia|]. split; [done|]. split.
  - by rewrite length_insert.
  - by rewrite length_insert.
  - unfold TURBOJS_IR_MAX_REGISTERS. lia.
  - intros id m Hl Hne. rewrite list_lookup_insert in Hl. case_decide as Hk.
    + destruct Hk as [<- _]. simplify_eq. split; [lia|]. rewrite list_lookup_insert_eq by lia. by rewrite Z2Nat.id by lia.
    + destruct (Ha id m Hl Hne) as [Hb Hv]. split; [lia|]. rewrite list_lookup_insert_ne by lia. done.
Qed.

(** What lowering a value may append, whatever it means. *)
Lemma lower_value_shape mem v map out map' out' :
  lower_value mem v map out = Some (LowerNext map' out') ->
  f_argument_count out' = f_argument_count out /\
  (out' = out \/ exists i, f_instructions out' = f_instructions out ++ [i] /\
                (in_opcode i = TURBOJS_IR_ARGUMENT -> v_opcode v = TURBOJS_SSA_ARGUMENT)).
Proof.
  assert (Hd : forall op l r imm, (op = TURBOJS_IR_ARGUMENT -> v_opcode v = TURBOJS_SSA_ARGUMENT) ->
    lower_define mem v map out op l r imm = Some (LowerNext map' out') ->
    f_argument_count out' = f_argument_count out /\
    (out' = out \/ exists i, f_instructions out' = f_instructions out ++ [i] /\
                (in_opcode i = TURBOJS_IR_ARGUMENT -> v_opcode v = TURBOJS_SSA_ARGUMENT))).
  { intros op l r imm Hop (dst & Hi & Ha & _)%lower_define_next. split; [done|]. right. eauto. }
  unfold lower_value. destruct (_ || _ || _); [intros [= <- <-]; eauto|].
  destruct (v_opcode v) eqn:Ev; try done; try (apply Hd; done); try (case_match; [done|apply Hd; done]).
  case_match; [done|]. unfold TurboJS_IREmit. destruct (_ && _); [done|]. intros [= <- <-].
  split; [done|]. right. eexists. done.
Qed.

Lemma lower_values_shape mem : forall vs i map out final,
  lower_values mem i vs map out = Some (inr final) ->
  f_argument_count final = f_argument_count out /\
  exists rest, f_instructions final = f_instructions out ++ rest /\
    (Forall (fun v => v_opcode v <> TURBOJS_SSA_ARGUMENT) vs -> Forall (fun i => in_opcode i <> TURBOJS_IR_ARGUMENT) rest).
Proof.
  induction vs as [|v vs IH]; intros i map out final H; simpl in H.
  - injection H as <-. split; [done|]. exists []. by rewrite app_nil_r.
  - destruct (lower_value mem v map out) as [[map1 out1| |]|] eqn:Hv; try done.
    destruct (lower_value_shape _ _ _ _ _ _ Hv) as [Ha Hs]. destruct (IH _ _ _ _ H) as (Hf & rest & Hr & Hn).
    split; [congruence|]. destruct Hs as [->|(ins & Hi & Hop)].
    + exists rest. split; [done|]. intros HF. inversion HF; subst. auto.
    + exists (ins :: rest). split; [rewrite Hr, Hi, <-app_assoc; done|].
      intros HF. inversion HF; subst. constructor; auto.
Qed.

Section Lowering.
Context (arguments : list Z) (result : Z) (rho : Z -> Z).
Context (hp : Heap) (native_i64 native_f64 : Z -> list Z -> TurboJSIRStatus * Z).
Notation step := (execute_step hp native_i64 native_f64).

(** A value the lowering may meet: if live, it is explained. *)
Definition meaningful (v : TurboJSSSAValue) : Prop :=
  v_removed v = false -> explains arguments result rho v /\ 0 <= v_left v /\ 0 <= v_right v.

Lemma lower_binary mem v map out map' out' R op :
  lowering rho map out R -> 0 <= v_left v -> 0 <= v_right v ->
  mapped map (v_left v) <> TURBOJS_IR_NO_REGISTER -> mapped map (v_right v) <> TURBOJS_IR_NO_REGISTER ->
  (forall l r R pc i, in_opcode i = op -> R !! Z.to_nat (in_left i) = Some l -> R !! Z.to_nat (in_right i) = Some r ->
     forall f, step f i R zero_array pc =
       arith (fold_binary (v_opcode v) l r) (fun x => wr R (in_destination i) x (fun regs => Next regs zero_array (S pc)))) ->
  fold_binary (v_opcode v) (rho (v_left v)) (rho (v_right v)) = Some (rho (v_id v)) ->
  lower_define mem v map out op (mapped map (v_left v)) (mapped map (v_right v)) 0 = Some (LowerNext map' out') ->
  exists i R', f_instructions out' = f_instructions out ++ [i] /\
    (forall f pc, step f i R zero_array pc = Next R' zero_array (S pc)) /\ lowering rho map' out' R'.
Proof.
  intros Hl Hl0 Hr0 Hml Hmr Hstep Hfold Hd.
  destruct (lowering_define _ _ _ _ _ _ _ _ _ _ _ _ Hl Hd) as (dst & Hdst & Hi & Hl').
  eexists _, _. split; [exact Hi|]. split; [|exact Hl']. intros f pc.
  rewrite (Hstep (rho (v_left v)) (rho (v_right v))); simpl; [|done|by eapply mapped_agree|by eapply mapped_agree].
  rewrite Hfold. simpl. unfold wr. rewrite (proj2 (Nat.ltb_lt _ _) Hdst). done.
Qed.

Ltac lower_case He op :=
  destruct (_ || _) eqn:Hb; [done|]; b2p; intros Hd; destruct He as [_ He];
  match goal with
  | Hl : lowering _ _ _ ?R, Ev : v_opcode ?v = _, Hd : lower_define ?mem ?v ?map ?out _ _ _ _ = Some (LowerNext ?map' ?out') |- _ =>
      destruct (lower_binary mem v map out map' out' R op) as (i & R' & ? & ? & ?); try done;
        [let Hop := fresh in let HL := fresh in let HR := fresh in
         intros ? ? ? ? ? Hop HL HR ?; unfold execute_step, rd; rewrite Hop, HL, HR, Ev; done
        |by rewrite Ev|eauto 10]
  end.

(** One value of the code after the arguments: nothing is emitted, or one
    instruction that stores the value's number, or the return. *)
Lemma lower_value_step mem v map out map' out' R :
  lowering rho map out R -> meaningful v -> v_opcode v <> TURBOJS_SSA_ARGUMENT ->
  lower_value mem v map out = Some (LowerNext map' out') ->
  (map' = map /\ out' = out /\ live TURBOJS_SSA_RETURN v = false) \/
  exists i, f_instructions out' = f_instructions out ++ [i] /\
    ((exists R', (forall f pc, step f i R zero_array pc = Next R' zero_array (S pc)) /\ lowering rho map' out' R' /\
                 live TURBOJS_SSA_RETURN v = false) \/
     (forall f pc, step f i R zero_array pc = Halt (Result result))).
Proof.
  intros Hl Hm Ha. unfold lower_value, meaningful, live, is_opcode in *.
  destruct (v_removed v); simpl; [intros [= <- <-]; eauto|]. destruct (Hm eq_refl) as (He & Hl0 & Hr0).
  unfold explains in He. destruct (v_opcode v) eqn:Ev; simpl; try done; try (intros [= <- <-]; by left).
  - intros Hd. destruct (lowering_define _ _ _ _ _ _ _ _ _ _ _ _ Hl Hd) as (dst & Hdst & Hi & Hl').
    right. eexists. split; [exact Hi|]. left. eexists. split_and!; [|exact Hl'|done]. intros f pc.
    unfold execute_step, wr. simpl. rewrite (proj2 (Nat.ltb_lt _ _) Hdst), He. done.
  - lower_case He TURBOJS_IR_ADD_I64.
  - lower_case He TURBOJS_IR_SUB_I64.
  - lower_case He TURBOJS_IR_MUL_I64.
  - lower_case He TURBOJS_IR_LESS_THAN_I64.
  - destruct (Z.eqb_spec (mapped map (v_left v)) TURBOJS_IR_NO_REGISTER) as [|Hne]; [done|].
    unfold TurboJS_IREmit. destruct (_ && _); [done|]. intros [= <- <-]. right. eexists. split; [done|]. right.
    intros f pc. unfold execute_step, rd. simpl. by rewrite (mapped_agree rho map out R _ Hl Hl0 Hne), He.
Qed.

(** The code after the arguments runs to the result. *)
Lemma lower_values_run mem final : forall vs i map out R fuel,
  Forall meaningful vs -> Forall (fun v => v_opcode v <> TURBOJS_SSA_ARGUMENT) vs ->
  Exists (fun v => live TURBOJS_SSA_RETURN v = true) vs -> lowering rho map out R ->
  lower_values mem i vs map out = Some (inr final) ->
  (length (f_instructions final) <= fuel + length (f_instructions out))%nat ->
  execute_loop hp native_i64 native_f64 fuel final R zero_array (length (f_instructions out)) = Result result.
Proof.
  induction vs as [|v vs IH]; intros i map out R fuel Hm Ha Hr Hl H Hf; [inversion Hr|].
  simpl in H. destruct (lower_value mem v map out) as [[map1 out1| |]|] eqn:Hv; try done.
  apply Forall_cons in Hm as [Hmv Hm]. apply Forall_cons in Ha as [Hav Ha].
  assert (Hr' : live TURBOJS_SSA_RETURN v = false -> Exists (fun v => live TURBOJS_SSA_RETURN v = true) vs).
  { intros Hn. apply Exists_cons in Hr as [Hr|Hr]; [congruence|done]. }
  destruct (lower_value_step mem v map out map1 out1 R Hl Hmv Hav Hv) as [(-> & -> & Hn)|(ins & Hins & Hstep)].
  { eapply IH; eauto. }
  destruct (lower_values_shape mem vs (i + 1) map1 out1 final H) as (_ & rest & Hrest & _).
  assert (Hpc : f_instructions final !! length (f_instructions out) = Some ins).
  { rewrite Hrest, Hins, <-app_assoc. by apply list_lookup_middle. }
  destruct fuel as [|fuel]; [apply lookup_lt_Some in Hpc; lia|]. simpl. rewrite Hpc.
  destruct Hstep as [(R' & Hs & Hl' & Hn)|Hs]; rewrite Hs; [|done].
  rewrite <-(IH (i + 1) map1 out1 R' fuel); eauto; [|rewrite Hins, length_app; simpl; lia].
  rewrite Hins, length_app. simpl. f_equal. lia.
Qed.

(** The arguments come first, and the prologue of the interpreter loads them. *)
Lemma lower_arguments_run mem final post : forall pre i map out R,
  Forall (fun v => v_opcode v = TURBOJS_SSA_ARGUMENT /\ v_removed v = false) pre -> Forall meaningful (pre ++ post) ->
  Forall (fun v => v_opcode v <> TURBOJS_SSA_ARGUMENT) post -> Exists (fun v => live TURBOJS_SSA_RETURN v = true) post ->
  lowering rho map out R -> lower_values mem i (pre ++ post) map out = Some (inr final) ->
  argument_prologue hp native_i64 native_f64 final arguments R (length (f_instructions out))
    (drop (length (f_instructions out)) (f_instructions final)) = Result result.
Proof.
  induction pre as [|v pre IH]; intros i map out R Hpre Hm Ha Hr Hl H; simpl in H.
  - destruct (lower_values_shape mem post i map out final H) as (_ & rest & Hrest & Hn).
    pose proof (lower_values_run mem final post i map out R (step_limit final) Hm Ha Hr Hl H ltac:(unfold step_limit; lia)) as Hrun.
    rewrite Hrest, drop_app_length. specialize (Hn Ha). destruct rest as [|ins rest].
    + exfalso. rewrite app_nil_r in Hrest. revert Hrun.
      destruct (step_limit final); simpl; rewrite Hrest, lookup_ge_None_2 by done; done.
    + apply Forall_cons in Hn as [Hn _]. simpl. rewrite decide_False by done. exact Hrun.
  - apply Forall_cons in Hpre as [[Hop Hrm] Hpre]. apply Forall_cons in Hm as [Hmv Hm].
    destruct (Hmv Hrm) as (He & _ & _). unfold explains in He. rewrite Hop in He. destruct He as [Himm Harg].
    destruct (lower_value mem v map out) as [[map1 out1| |]|] eqn:Hv; try done.
    unfold lower_value, is_opcode in Hv. rewrite Hrm, Hop in Hv. simpl in Hv.
    destruct (lowering_define _ _ _ _ _ _ _ _ _ _ _ _ Hl Hv) as (dst & Hdst & Hi & Hl').
    destruct (lower_values_shape mem _ _ _ _ _ H) as (_ & rest & Hrest & _).
    specialize (IH _ _ _ _ Hpre Hm Ha Hr Hl' H). rewrite Hrest, Hi in IH |- *.
    rewrite <-app_assoc, drop_app_length. rewrite drop_app_length in IH. simpl.
    rewrite Harg, (proj2 (Nat.ltb_lt _ _) Hdst). rewrite length_app, Nat.add_1_r in IH. exact IH.
Qed.
End Lowering.

(** An explained graph lists its arguments first. *)
Lemma arguments_prefix arguments result rho vs :
  straight arguments result rho vs ->
  exists pre post, vs = pre ++ post /\ Forall (fun v => v_opcode v = TURBOJS_SSA_ARGUMENT /\ v_removed v = false) pre /\
    Forall (fun v => v_opcode v <> TURBOJS_SSA_ARGUMENT) post.
Proof.
  intros Hs. pose proof (s_arguments_first _ _ _ _ Hs) as Hf. pose proof (s_arguments_live _ _ _ _ Hs) as Hl. clear Hs.
  induction vs as [|v vs IH]; [by exists [], []|].
  destruct (decide (v_opcode v = TURBOJS_SSA_ARGUMENT)) as [Hv|Hv].
  - destruct IH as (pre & post & -> & Hpre & Hpost).
    + intros i j vi vj Hij Hi Hj. apply (Hf (S i) (S j)); [lia|done|done].
    + intros i w. apply (Hl (S i)).
    + exists (v :: pre), post. split; [done|]. split; [|done]. constructor; [|done]. split; [done|]. by apply (Hl O).
  - exists [], (v :: vs). split; [done|]. split; [done|]. apply Forall_lookup. intros j vj Hj Ha.
    destruct j as [|j]; [simpl in Hj; congruence|]. apply Hv, (Hf O (S j) v vj); [lia|done|done|done].
Qed.

Lemma lower_values_error mem : forall vs i map out d,
  lower_values mem i vs map out = Some (inl d) -> dg_status d <> TURBOJS_IR_OK.
Proof.
  induction vs as [|v vs IH]; intros i map out d; simpl; [done|].
  destruct (lower_value mem v map out) as [[map1 out1| |]|]; [apply IH| | |done]; by intros [= <-].
Qed.

Lemma lower_graph_correct arguments result rho hp native_i64 native_f64 mem next g argument_count d lowered :
  sound arguments result rho g -> argument_count <= Z.of_nat (length arguments) ->
  lower_graph hp mem next g argument_count = Some (d, lowered) -> dg_status d = TURBOJS_IR_OK ->
  TurboJS_IRExecute hp native_i64 native_f64 lowered arguments = Result result.
Proof.
  intros [Hs Hc Hr] Hargs. unfold lower_graph. destruct (block_count g =? 1); cbn [negb]; [|by intros [= <- <-]].
  destruct (TurboJS_IRFunctionInit next argument_count) as [out n] eqn:Hinit.
  assert (Hout : f_argument_count out = argument_count /\ f_instructions out = [] /\ f_register_count out = 0)
    by (injection Hinit as <- _; done). destruct Hout as (Hoa & Hoi & Hor).
  destruct (lower_values mem 0 (g_values g) empty_map out) as [[d'|final]|] eqn:Hlow; [|destruct (TurboJS_IRVerify hp final) as [d'|] eqn:Hver|]; try done.
  { intros [= <- <-] Hok. by apply lower_values_error in Hlow. }
  intros [= <- <-] Hok. destruct (arguments_prefix _ _ _ _ Hs) as (pre & post & Heq & Hpre & Hpost).
  destruct (lower_values_shape mem _ _ _ _ _ Hlow) as [Hac _]. rewrite Heq in Hlow.
  unfold TurboJS_IRExecute. rewrite (proj2 (Z.ltb_ge _ _)) by (rewrite Hac, Hoa; done). rewrite Hver, decide_True by done.
  pose proof (lower_arguments_run arguments result rho hp native_i64 native_f64 mem final post pre 0 empty_map out zero_array Hpre) as Hrun.
  rewrite Hoi in Hrun. simpl in Hrun. apply Hrun; try done.
  - apply Forall_lookup. intros k v Hv Hrm. rewrite <-Heq in Hv. destruct (s_operands _ _ _ _ Hs _ _ Hv Hrm) as [Ho1 Ho2].
    split; [by eapply s_explained|]. eauto using operand_nonneg.
  - destruct Hr as (k & v & Hv & Hrm & Hop). rewrite Heq in Hv. apply lookup_app_Some in Hv as [Hv|[_ Hv]].
    + eapply Forall_lookup_1 in Hpre as [Hx _]; [|exact Hv]. congruence.
    + apply Exists_exists. exists v. split; [by eapply list_elem_of_lookup_2|]. unfold live, is_opcode. by rewrite Hrm, Hop.
  - split; [done|done|rewrite Hor; done|]. intros id m [-> _]%lookup_replicate. done.
Qed.

(** What is lowered is a graph explained by the run; [V] as in [build_ranged]. *)
Lemma optimized_explained (V : Z -> Prop) hp native_i64 native_f64 baseline fuel mem next f feedback o arguments result :
  (forall x, in_i64 x = true -> V x) -> Forall V arguments -> Forall (fun i => V (in_immediate i)) (f_instructions f) ->
  straight_line f -> 2 * f_instruction_count f < UINT32_MAX ->
  TurboJS_OptimizingCompile hp baseline (S (S fuel)) mem next f feedback = Some (TURBOJS_IR_OK, Some o) ->
  TurboJS_IRExecute hp native_i64 native_f64 f arguments = Result result ->
  exists rho g d, sound arguments result rho g /\ (forall id, V (rho id)) /\
    lower_graph hp (cm_emit mem) next g (f_argument_count f) = Some (d, of_lowered o) /\ dg_status d = TURBOJS_IR_OK.
Proof.
  intros HV HVa HVi Hsl Hn Hc Hex. unfold TurboJS_OptimizingCompile in Hc.
  assert (0 <= f_instruction_count f) by (unfold f_instruction_count; lia).
  destruct (cm_object mem); [|done]. cbn [negb] in Hc.
  destruct (TurboJS_SSABuildFromIR (cm_build mem) f) as [[st g]|] eqn:Hb; [|done]. destruct st; try done.
  destruct (build_ranged V hp native_i64 native_f64 (cm_build mem) f arguments result g HV HVa HVi Hsl ltac:(lia) Hex Hb) as (rho & Hs & HVr & Hl).
  destruct (match feedback with Some _ => _ | None => _ end) as [st g1] eqn:Hsp. destruct st; try done.
  assert (exists rho1, sound arguments result rho1 g1 /\ forall k, exists k', rho1 k = rho k') as (rho1 & Hs1 & Hk1).
  { destruct feedback as [fv|]; [|injection Hsp as <-; eauto].
    destruct (TurboJS_SSASpecializeFromFeedback _ _ _) as [[st' g2] k] eqn:Hg. injection Hsp as -> ->.
    eapply specialize_sound; [exact Hs| |exact Hg]. unfold TURBOJS_SSA_NO_VALUE. lia. }
  destruct (optimize_sound arguments result rho1 fuel (cm_opt mem) g1 Hs1) as (g' & s & Ho & Hs'). rewrite Ho in Hc.
  destruct (TurboJS_SSAVerify g'); [|done]. cbn [negb] in Hc. destruct (TurboJS_LinearScanAllocate _ _ _ _) as [[? [allocation|]]|]; [|done|done]. cbn in Hc.
  destruct (lower_graph hp (cm_emit mem) next g' (f_argument_count f)) as [[d lowered]|] eqn:Hlow; [|done].
  destruct (dg_status d) eqn:Hd; try done. destruct (baseline lowered) eqn:Hbase; try done. injection Hc as <-.
  exists rho1, g', d. split; [done|]. split; [|done]. intros k. destruct (Hk1 k) as [k' ->]. apply HVr.
Qed.

Lemma optimized_result hp native_i64 native_f64 baseline fuel mem next f feedback o arguments result :
  straight_line f -> 2 * f_instruction_count f < UINT32_MAX ->
  TurboJS_OptimizingCompile hp baseline (S (S fuel)) mem next f feedback = Some (TURBOJS_IR_OK, Some o) ->
  TurboJS_IRExecute hp native_i64 native_f64 f arguments = Result result ->
  TurboJS_IRExecute hp native_i64 native_f64 (of_lowered o) arguments = Result result.
Proof.
  intros Hsl Hn Hc Hex.
  destruct (optimized_explained (fun _ => True) hp native_i64 native_f64 baseline fuel mem next f feedback o arguments result)
    as (rho & g & d & Hs & _ & Hlow & Hd); try done; [by apply Forall_true..|].
  eapply lower_graph_correct; [exact Hs| |exact Hlow|exact Hd].
  unfold TurboJS_IRExecute in Hex. destruct (Z.ltb_spec (Z.of_nat (length arguments)) (f_argument_count f)); [done|lia].
Qed.


(** ** Examples *)

Definition all_granted : CompileMemory :=
  mkCompileMemory true all_memory (fun _ => true) (mkOptMemory true true true)
    (mkScanMemory true (fun _ _ => true) true (fun _ => true) true) (fun _ => true).
Definition accept (_ : TurboJSIRFunction) : TurboJSIRStatus := TURBOJS_IR_OK.

(** [function (a, b) { return (a + b) * (2 + 3) }], with a dead product. *)
Definition sample_function : TurboJSIRFunction :=
  f_set_instructions (f_set_counts zero_function 8 2 0)
    [instr TURBOJS_IR_ARGUMENT 0 0 0 0 0; instr TURBOJS_IR_ARGUMENT 1 0 0 1 0;
     instr TURBOJS_IR_CONSTANT_I64 2 0 0 2 0; instr TURBOJS_IR_CONSTANT_I64 3 0 0 3 0;
     instr TURBOJS_IR_ADD_I64 4 2 3 0 0; instr TURBOJS_IR_ADD_I64 5 0 1 0 0;
     instr TURBOJS_IR_MUL_I64 6 0 1 0 0; instr TURBOJS_IR_MUL_I64 7 5 4 0 0;
     instr TURBOJS_IR_RETURN_I64 0 7 0 0 0] 16.

Definition sample_feedback : TurboJSFeedbackVector :=
  TurboJS_FeedbackObserveCall (TurboJS_FeedbackVectorInit 2) (Some [3; 4]).

Definition delivered (r : option (TurboJSIRStatus * option TurboJSOptimizedFunction)) : TurboJSOptimizedFunction :=
  match r with
  | Some (_, Some o) => o
  | _ => mkOptimized TurboJS_SSAGraphInit (mkScanResult [] [] [] [] [] [] 0 0 0 0 0 0 0) zero_function
  end.

Definition sample_optimized : TurboJSOptimizedFunction :=
  Eval vm_compute in delivered
    (TurboJS_OptimizingCompile empty_heap accept 2 all_granted 1 sample_function (Some sample_feedback)).
Definition checked_add_optimized : TurboJSOptimizedFunction :=
  Eval vm_compute in delivered (TurboJS_OptimizingCompile empty_heap accept 2 all_granted 1 checked_add None).

(** The dead product is gone and [2 + 3] is folded. *)
Example sample_optimized_shape :
  map in_opcode (f_instructions (of_lowered sample_optimized)) =
  [TURBOJS_IR_ARGUMENT; TURBOJS_IR_ARGUMENT; TURBOJS_IR_CONSTANT_I64; TURBOJS_IR_ADD_I64; TURBOJS_IR_MUL_I64; TURBOJS_IR_RETURN_I64].
Proof. reflexivity. Qed.


(** *** Where the pipeline goes wrong *)

(** Sixty-four dead constants in front of the returned one. *)
Definition many_constants : TurboJSIRFunction :=
  f_set_instructions (f_set_counts zero_function 1 0 0)
    (map (fun k => instr TURBOJS_IR_CONSTANT_I64 0 0 0 (Z.of_nat k) 0) (seq 0 65) ++ [instr TURBOJS_IR_RETURN_I64 0 0 0 0 0]) 128.

Definition many_constants_graph : TurboJSSSAGraph :=
  match TurboJS_SSABuildFromIR all_memory many_constants with
  | Some (_, g) => match TurboJS_SSAOptimize 2 (mkOptMemory true true true) g with Some (g, _) => g | None => g end
  | None => TurboJS_SSAGraphInit
  end.

(** The lowering writes outside its register map.  A verified function of
    66 instructions and one register, which the interpreter runs to 64, is
    optimized to a graph whose only live values are value 64, a constant, and
    the return of it; lowering that graph stores [map[64]] in the 64-entry
    array, so compilation has no defined result. *)
Theorem lowering_writes_past_map :
  TurboJS_IRExecute empty_heap no_native no_native many_constants [] = Result 64 /\
  map v_id (filter (fun v => v_removed v = false) (g_values many_constants_graph)) = [64; 65] /\
  lower_graph empty_heap (fun _ => true) 1 many_constants_graph 0 = None /\
  TurboJS_OptimizingCompile empty_heap accept 2 all_granted 1 many_constants None = None.
Proof. vm_compute. done. Qed.

(** Optimized code loses the overflow check.  The function adding its two
    arguments with a checked 32-bit addition bails out of the interpreter on
    [2^31 - 1] and [1]; the optimizing pipeline accepts it and the code it
    delivers returns [2^31]. *)
Theorem optimized_code_drops_overflow_check :
  TurboJS_IRExecute empty_heap no_native no_native checked_add [INT32_MAX; 1] = Stop TURBOJS_IR_BAILOUT /\
  TurboJS_OptimizingCompile empty_heap accept 2 all_granted 1 checked_add None
    = Some (TURBOJS_IR_OK, Some checked_add_optimized) /\
  TurboJS_IRExecute empty_heap no_native no_native (of_lowered checked_add_optimized) [INT32_MAX; 1] = Result (INT32_MAX + 1).
Proof. vm_compute. done. Qed.

(** ** Lowered code makes no calls *)

Definition callfree (f : TurboJSIRFunction) : Prop :=
  Forall (fun i => in_opcode i <> TURBOJS_IR_CALL_NATIVE_I64 /\ in_opcode i <> TURBOJS_IR_CALL_NATIVE_F64) (f_instructions f).

Lemma lower_value_callfree mem v map out map' out' :
  lower_value mem v map out = Some (LowerNext map' out') -> callfree out -> callfree out'.
Proof.
  intros Hv Hout.
  assert (Hd : forall op l r imm, op <> TURBOJS_IR_CALL_NATIVE_I64 -> op <> TURBOJS_IR_CALL_NATIVE_F64 ->
    lower_define mem v map out op l r imm = Some (LowerNext map' out') -> callfree out').
  { intros op l r imm H1 H2 Hdef. apply lower_define_next in Hdef as (dst & Hi & _). unfold callfree. rewrite Hi.
    apply Forall_app. split; [done|]. by apply Forall_singleton. }
  unfold lower_value in Hv. destruct (_ || _ || _); [by injection Hv as <- <-|].
  destruct (v_opcode v) eqn:Ev; try done; try (eapply Hd; [| |exact Hv]; done);
    try (case_match; [done|]; eapply Hd; [| |exact Hv]; done).
  case_match; [done|]. unfold TurboJS_IREmit in Hv. destruct (_ && _); [done|]. injection Hv as <- <-.
  unfold callfree. simpl. apply Forall_app. split; [done|]. by apply Forall_singleton.
Qed.

Lemma lower_values_callfree mem : forall vs i map out final,
  lower_values mem i vs map out = Some (inr final) -> callfree out -> callfree final.
Proof.
  induction vs as [|v vs IH]; intros i map out final H Hout; simpl in H; [by injection H as <-|].
  destruct (lower_value mem v map out) as [[map1 out1| |]|] eqn:Hv; try done.
  eapply IH; [exact H|]. by eapply lower_value_callfree.
Qed.

Lemma optimized_callfree hp baseline fuel mem next f feedback o :
  TurboJS_OptimizingCompile hp baseline fuel mem next f feedback = Some (TURBOJS_IR_OK, Some o) ->
  callfree (of_lowered o) /\ baseline (of_lowered o) = TURBOJS_IR_OK.
Proof.
  unfold TurboJS_OptimizingCompile. destruct (cm_object mem); [|done]. cbn [negb].
  destruct (TurboJS_SSABuildFromIR (cm_build mem) f) as [[st g]|]; [|done]. destruct st; try done.
  simpl. destruct (match feedback with Some _ => _ | None => _ end) as [st g1]. destruct st; try done.
  destruct (TurboJS_SSAOptimize fuel (cm_opt mem) g1) as [[g2 s]|]; [|done]. simpl.
  destruct (TurboJS_SSAVerify g2); [|done]. cbn [negb]. destruct (TurboJS_LinearScanAllocate _ _ _ _) as [[? [allocation|]]|]; [|done|done]. cbn.
  destruct (lower_graph hp (cm_emit mem) next g2 (f_argument_count f)) as [[d lowered]|] eqn:Hl; [|done]. simpl.
  destruct (dg_status d) eqn:Hd; try done. destruct (baseline lowered) eqn:Hb; try done. intros [= <-]. split; [|exact Hb].
  unfold lower_graph in Hl. destruct (block_count g2 =? 1); [|injection Hl as <- <-; done]. cbn in Hl.
  destruct (lower_values _ _ _ _ _) as [[d'|final]|] eqn:Hv; [|destruct (TurboJS_IRVerify hp final) as [d'|]|]; try done.
  - injection Hl as <- <-. constructor.
  - injection Hl as <- <-. eapply lower_values_callfree; [exact Hv|constructor].
Qed.

(** OK comes with a function. *)
Lemma optimized_delivered hp baseline fuel mem next f feedback o :
  TurboJS_OptimizingCompile hp baseline fuel mem next f feedback = Some (TURBOJS_IR_OK, o) -> is_Some o.
Proof.
  unfold TurboJS_OptimizingCompile. destruct (cm_object mem); [|done]. cbn [negb].
  destruct (TurboJS_SSABuildFromIR (cm_build mem) f) as [[st g]|]; [|done]. destruct st; try done.
  simpl. destruct (match feedback with Some _ => _ | None => _ end) as [st g1]. destruct st; try done.
  destruct (TurboJS_SSAOptimize fuel (cm_opt mem) g1) as [[g2 s]|]; [|done]. simpl.
  destruct (TurboJS_SSAVerify g2); [|done]. cbn [negb]. destruct (TurboJS_LinearScanAllocate _ _ _ _) as [[st o']|] eqn:Hs; [|done].
  apply linear_scan_status in Hs. destruct o' as [allocation|]; cbn; [|intros [= -> <-]; by destruct (proj1 Hs eq_refl)].
  destruct (lower_graph hp (cm_emit mem) next g2 (f_argument_count f)) as [[d lowered]|]; [|done]. simpl.
  destruct (dg_status d); try done. destruct (baseline lowered); try done. intros [= <-]. eauto.
Qed.
