(* ===== verification/Vault.v ===== *)
(** * The Vault: the native code cache (src/jit/runtime/code_cache.c)

    An open-addressing hash table of native functions with tombstones, a byte
    budget and weighted eviction, a reverse index from the entry handles (and
    target identities) that call sites use to the cached functions that own
    those sites, and the continuation entries kept in the same slots.

    A pointer is its address in [Z], 0 for NULL.  The function objects the
    cache owns are in [v_natives], the embedder's entry handles in
    [v_handles]; an entry's address is its slot number, since the array never
    moves.  Allocator answers are arguments. *)

From stdpp Require Import gmap.
From S2P Require Import Prelude.
From S2P Require Import JitTypes.
From S2P Require Import Clutch.

(** ** Native functions (src/jit/backend/x64/baseline_x64.c) *)

(** Masks of registers and of locals. *)
Definition Masks : Type := Z * Z.

(** The struct; the deoptimization buffer, the last bailout and the safepoint
    change with every call and are in [BaselineNative]. *)
Record TurboJSNativeFunction := mkNative {
  nf_code : list Z;
  nf_code_size : Z;
  nf_allocation_size : Z;
  nf_argument_count : Z;
  nf_register_count : Z;
  nf_local_count : Z;
  nf_result_kind : TurboJSValueKind;
  nf_bytecode_offsets : list Z;
  nf_materialized : list Masks;
  nf_live : list Masks;
  nf_register_kinds : list TurboJSValueKind;
  nf_local_kinds : list TurboJSValueKind;
  nf_stack_maps : list TurboJSStackMap;
  nf_owned_clutch_sites : list TurboJSClutchCallSite
}.

(** A function of which only what the cache reads matters, for samples. *)
Definition sample_native (code_size : Z) (result_kind : TurboJSValueKind) (sites : list TurboJSClutchCallSite) : TurboJSNativeFunction :=
  mkNative [] code_size 0 0 0 0 result_kind [] [] [] [] [] [] sites.

Definition site_set_target (target generation : Z) (s : TurboJSClutchCallSite) : TurboJSClutchCallSite :=
  mkCallSite target generation (cs_argument_count s) (cs_expected_kind s) (cs_flags s)
    (cs_continuation_bytecode_offset s) (cs_closure_environment s) (cs_environment_rooting s) (cs_owns_environment s)
    (cs_target_identity s) (cs_receiver_shape_identity s) (cs_receiver_shape_offset s) (cs_receiver_register s)
    (cs_argument_registers s).
Definition nf_set_sites (n : TurboJSNativeFunction) (sites : list TurboJSClutchCallSite) : TurboJSNativeFunction :=
  mkNative (nf_code n) (nf_code_size n) (nf_allocation_size n) (nf_argument_count n) (nf_register_count n) (nf_local_count n)
    (nf_result_kind n) (nf_bytecode_offsets n) (nf_materialized n) (nf_live n) (nf_register_kinds n) (nf_local_kinds n)
    (nf_stack_maps n) sites.

Definition invalidate_site (target : Z) (s : TurboJSClutchCallSite) : TurboJSClutchCallSite :=
  if cs_target s =? target then site_set_target 0 0 s else s.

(** The function and the number of sites invalidated. *)
Definition TurboJS_NativeInvalidateClutchTarget (n : TurboJSNativeFunction) (target : Z) : TurboJSNativeFunction * Z :=
  (nf_set_sites n (map (invalidate_site target) (nf_owned_clutch_sites n)),
   Z.of_nat (length (filter (fun s => cs_target s = target) (nf_owned_clutch_sites n)))).

Definition repatchable (identity : Z) (kind : TurboJSNativeEntryKind) (argument_count : Z) (s : TurboJSClutchCallSite) : bool :=
  (cs_target_identity s =? identity) && bool_decide (cs_expected_kind s = kind) && (cs_argument_count s =? argument_count).

Definition repatch_site (identity target generation : Z) (kind : TurboJSNativeEntryKind) (argument_count : Z)
    (s : TurboJSClutchCallSite) : TurboJSClutchCallSite :=
  if repatchable identity kind argument_count s then site_set_target target generation s else s.

(** The function, the number of sites patched and of incompatible ones. *)
Definition TurboJS_NativeRepatchClutchIdentity (n : TurboJSNativeFunction) (identity target generation : Z)
    (kind : TurboJSNativeEntryKind) (argument_count : Z) : TurboJSNativeFunction * Z * Z :=
  let matching := filter (fun s => cs_target_identity s = identity) (nf_owned_clutch_sites n) in
  let patched := filter (fun s => repatchable identity kind argument_count s = true) (nf_owned_clutch_sites n) in
  (nf_set_sites n (map (repatch_site identity target generation kind argument_count) (nf_owned_clutch_sites n)),
   Z.of_nat (length patched), Z.of_nat (length matching) - Z.of_nat (length patched)).

(** ** Entries and the cache *)

Record TurboJSCodeCacheEntry := mkEntry {
  e_key : Z;
  e_function : Z;
  e_entry_handle : Z;
  e_code_size : Z;
  e_stamp : Z;
  e_access_count : Z;
  e_entry_kind : TurboJSNativeEntryKind;
  e_cache_kind : Z;       (* 0 function, 1 continuation *)
  e_state : Z;            (* 0 empty, 1 live, 2 tombstone *)
  e_continuation_function_id : Z;
  e_continuation_revision : Z;
  e_target_identity : Z;
  e_continuation_start_instruction : Z;
  e_continuation_prologue_count : Z;
  e_dependencies : list Z;          (* targets, in the order of [next_owner] *)
  e_repatch_dependencies : list Z   (* identities, in the order of [next_owner] *)
}.

Definition empty_entry : TurboJSCodeCacheEntry :=
  mkEntry 0 0 0 0 0 0 TURBOJS_NATIVE_ENTRY_NONE 0 0 0 0 0 0 0 [] [].

Definition e_live (e : TurboJSCodeCacheEntry) : bool := e_state e =? 1.

(** The counters of [TurboJSCodeCacheStats] the cache updates in place. *)
Inductive Counter :=
  | hits | misses | compilations | evictions
  | dependent_call_sites_invalidated | continuation_dependency_invalidations
  | reverse_dependency_lookups | reverse_dependency_nodes_visited
  | reverse_dependency_registrations | reverse_dependency_unregistrations
  | clutch_repatch_attempts | clutch_repatch_successes | clutch_repatch_incompatible | clutch_call_sites_repatched
  | repatch_identity_lookups | repatch_identity_nodes_visited
  | repatch_identity_registrations | repatch_identity_unregistrations
  | weighted_function_evictions | weighted_continuation_evictions
  | continuation_hits | continuation_misses | continuation_compilations | continuation_evictions
  | continuation_entry_count | continuation_code_bytes.

#[export] Instance Counter_eq_dec : EqDecision Counter.
Proof. solve_decision. Defined.

Definition Stats : Type := Counter -> Z.
Definition set_counter (c : Counter) (n : Z) (s : Stats) : Stats := fun c' => if decide (c' = c) then n else s c'.
Definition bump (c : Counter) (n : Z) (s : Stats) : Stats := set_counter c (uwrap 64 (s c + n)) s.

(** The nodes of an index: a target (or identity) and the slot of the owner. *)
Notation Buckets := (list (list (Z * nat))).

Record TurboJSCodeCache := mkCache {
  c_entries : list TurboJSCodeCacheEntry;
  c_count : Z;
  c_maximum_entries : Z;
  c_maximum_code_bytes : Z;
  c_code_bytes : Z;
  c_clock : Z;
  c_last_key : Z;
  c_last_function : Z;
  c_stats : Stats;
  c_dependency_buckets : Buckets;
  c_repatch_buckets : Buckets;
  v_natives : gmap Z TurboJSNativeFunction;
  v_handles : gmap Z TurboJSNativeEntryHandle
}.

Definition slot_count (c : TurboJSCodeCache) : Z := Z.of_nat (length (c_entries c)).

Definition c_set_entries (es : list TurboJSCodeCacheEntry) (c : TurboJSCodeCache) : TurboJSCodeCache :=
  mkCache es (c_count c) (c_maximum_entries c) (c_maximum_code_bytes c) (c_code_bytes c) (c_clock c) (c_last_key c)
    (c_last_function c) (c_stats c) (c_dependency_buckets c) (c_repatch_buckets c) (v_natives c) (v_handles c).
Definition c_set_totals (count bytes : Z) (c : TurboJSCodeCache) : TurboJSCodeCache :=
  mkCache (c_entries c) count (c_maximum_entries c) (c_maximum_code_bytes c) bytes (c_clock c) (c_last_key c)
    (c_last_function c) (c_stats c) (c_dependency_buckets c) (c_repatch_buckets c) (v_natives c) (v_handles c).
Definition c_set_clock (clock : Z) (c : TurboJSCodeCache) : TurboJSCodeCache :=
  mkCache (c_entries c) (c_count c) (c_maximum_entries c) (c_maximum_code_bytes c) (c_code_bytes c) clock (c_last_key c)
    (c_last_function c) (c_stats c) (c_dependency_buckets c) (c_repatch_buckets c) (v_natives c) (v_handles c).
Definition c_set_last (key function : Z) (c : TurboJSCodeCache) : TurboJSCodeCache :=
  mkCache (c_entries c) (c_count c) (c_maximum_entries c) (c_maximum_code_bytes c) (c_code_bytes c) (c_clock c) key
    function (c_stats c) (c_dependency_buckets c) (c_repatch_buckets c) (v_natives c) (v_handles c).
Definition c_set_stats (s : Stats) (c : TurboJSCodeCache) : TurboJSCodeCache :=
  mkCache (c_entries c) (c_count c) (c_maximum_entries c) (c_maximum_code_bytes c) (c_code_bytes c) (c_clock c)
    (c_last_key c) (c_last_function c) s (c_dependency_buckets c) (c_repatch_buckets c) (v_natives c) (v_handles c).
Definition c_set_buckets (dependencies repatch : Buckets) (c : TurboJSCodeCache) : TurboJSCodeCache :=
  mkCache (c_entries c) (c_count c) (c_maximum_entries c) (c_maximum_code_bytes c) (c_code_bytes c) (c_clock c)
    (c_last_key c) (c_last_function c) (c_stats c) dependencies repatch (v_natives c) (v_handles c).
Definition c_set_natives (ns : gmap Z TurboJSNativeFunction) (c : TurboJSCodeCache) : TurboJSCodeCache :=
  mkCache (c_entries c) (c_count c) (c_maximum_entries c) (c_maximum_code_bytes c) (c_code_bytes c) (c_clock c)
    (c_last_key c) (c_last_function c) (c_stats c) (c_dependency_buckets c) (c_repatch_buckets c) ns (v_handles c).
Definition c_set_handles (hs : gmap Z TurboJSNativeEntryHandle) (c : TurboJSCodeCache) : TurboJSCodeCache :=
  mkCache (c_entries c) (c_count c) (c_maximum_entries c) (c_maximum_code_bytes c) (c_code_bytes c) (c_clock c)
    (c_last_key c) (c_last_function c) (c_stats c) (c_dependency_buckets c) (c_repatch_buckets c) (v_natives c) hs.

Definition c_bump (counter : Counter) (n : Z) (c : TurboJSCodeCache) : TurboJSCodeCache :=
  c_set_stats (bump counter n (c_stats c)) c.
Definition update_entry (slot : nat) (f : TurboJSCodeCacheEntry -> TurboJSCodeCacheEntry) (c : TurboJSCodeCache)
    : TurboJSCodeCache :=
  c_set_entries (alter f slot (c_entries c)) c.

Definition e_set_dependencies (ds : list Z) (e : TurboJSCodeCacheEntry) : TurboJSCodeCacheEntry :=
  mkEntry (e_key e) (e_function e) (e_entry_handle e) (e_code_size e) (e_stamp e) (e_access_count e) (e_entry_kind e)
    (e_cache_kind e) (e_state e) (e_continuation_function_id e) (e_continuation_revision e) (e_target_identity e)
    (e_continuation_start_instruction e) (e_continuation_prologue_count e) ds (e_repatch_dependencies e).
Definition e_set_repatch_dependencies (ds : list Z) (e : TurboJSCodeCacheEntry) : TurboJSCodeCacheEntry :=
  mkEntry (e_key e) (e_function e) (e_entry_handle e) (e_code_size e) (e_stamp e) (e_access_count e) (e_entry_kind e)
    (e_cache_kind e) (e_state e) (e_continuation_function_id e) (e_continuation_revision e) (e_target_identity e)
    (e_continuation_start_instruction e) (e_continuation_prologue_count e) (e_dependencies e) ds.

(** ** Hashing *)

Definition xor_shift (k x : Z) : Z := Z.lxor x (Z.shiftr x k).

(** The 64-bit branch of the conditional compilation. *)
Definition dependency_hash (target bucket_count : Z) : Z :=
  let x := xor_shift 33 target in
  let x := uwrap 64 (x * 18397679294719823053) in   (* 0xff51afd7ed558ccd *)
  let x := xor_shift 33 x in
  if bucket_count =? 0 then 0 else Z.land x (bucket_count - 1).

Definition identity_hash (identity bucket_count : Z) : Z :=
  let x := xor_shift 33 identity in
  let x := uwrap 64 (x * 18397679294719823053) in
  let x := xor_shift 33 x in
  let x := uwrap 64 (x * 14181476777654086739) in   (* 0xc4ceb9fe1a85ec53 *)
  let x := xor_shift 33 x in
  if bucket_count =? 0 then 0 else Z.land x (bucket_count - 1).

Definition key_hash (key : Z) : Z :=
  let x := xor_shift 33 key in
  let x := uwrap 64 (x * 18397679294719823053) in
  let x := xor_shift 33 x in
  let x := uwrap 64 (x * 14181476777654086739) in
  xor_shift 33 x.

(** ** The reverse indices

    Both are arrays of singly linked buckets, in [next_target] order. *)

Fixpoint remove_node (n : Z * nat) (l : list (Z * nat)) : list (Z * nat) :=
  match l with
  | [] => []
  | x :: l => if decide (x = n) then l else x :: remove_node n l
  end.

Definition bucket_of (hash : Z -> Z -> Z) (b : Buckets) (t : Z) : nat := Z.to_nat (hash t (Z.of_nat (length b))).
Definition link (hash : Z -> Z -> Z) (slot : nat) (t : Z) (b : Buckets) : Buckets :=
  alter (cons (t, slot)) (bucket_of hash b t) b.
Definition unlink (hash : Z -> Z -> Z) (slot : nat) (b : Buckets) (t : Z) : Buckets :=
  alter (remove_node (t, slot)) (bucket_of hash b t) b.

(** The registration loop over the sites; [own] is the owner's list. *)
Fixpoint register_nodes (hash : Z -> Z -> Z) (mem : Z -> bool) (slot : nat) (ids own : list Z) (b : Buckets) (added : Z)
    : list Z * Buckets * Z * bool :=
  match ids with
  | [] => (own, b, added, true)
  | t :: ids =>
      if (t =? 0) || bool_decide (t ∈ own) then register_nodes hash mem slot ids own b added
      else if mem t then register_nodes hash mem slot ids (t :: own) (link hash slot t b) (added + 1)
      else (own, b, added, false)
  end.

Definition unregister_entry_dependencies (slot : nat) (c : TurboJSCodeCache) : TurboJSCodeCache :=
  match c_entries c !! slot with
  | None => c
  | Some e =>
      let c := c_bump reverse_dependency_unregistrations (Z.of_nat (length (e_dependencies e))) c in
      let c := c_set_buckets (foldl (unlink dependency_hash slot) (c_dependency_buckets c) (e_dependencies e))
                 (c_repatch_buckets c) c in
      update_entry slot (e_set_dependencies []) c
  end.

Definition unregister_entry_repatch_dependencies (slot : nat) (c : TurboJSCodeCache) : TurboJSCodeCache :=
  match c_entries c !! slot with
  | None => c
  | Some e =>
      let c := c_bump repatch_identity_unregistrations (Z.of_nat (length (e_repatch_dependencies e))) c in
      let c := c_set_buckets (c_dependency_buckets c)
                 (foldl (unlink identity_hash slot) (c_repatch_buckets c) (e_repatch_dependencies e)) c in
      update_entry slot (e_set_repatch_dependencies []) c
  end.

(** Allocator answers for the nodes of one registration. *)
Record NodeMemory := mkNodeMemory { nm_target : Z -> bool; nm_identity : Z -> bool }.

Definition sites_of (c : TurboJSCodeCache) (slot : nat) : list TurboJSClutchCallSite :=
  match c_entries c !! slot with
  | Some e => match v_natives c !! e_function e with Some n => nf_owned_clutch_sites n | None => [] end
  | None => []
  end.

Definition register_entry_repatch_dependencies (mem : NodeMemory) (slot : nat) (c : TurboJSCodeCache)
    : TurboJSCodeCache * bool :=
  let c := unregister_entry_repatch_dependencies slot c in
  let '(own, b, added, ok) :=
    register_nodes identity_hash (nm_identity mem) slot (map cs_target_identity (sites_of c slot)) []
      (c_repatch_buckets c) 0 in
  let c := c_set_buckets (c_dependency_buckets c) b c in
  let c := update_entry slot (e_set_repatch_dependencies own) c in
  let c := c_bump repatch_identity_registrations added c in
  if ok then (c, true) else (unregister_entry_repatch_dependencies slot c, false).

Definition register_entry_dependencies (mem : NodeMemory) (slot : nat) (c : TurboJSCodeCache)
    : TurboJSCodeCache * bool :=
  let c := unregister_entry_dependencies slot c in
  let '(own, b, added, ok) :=
    register_nodes dependency_hash (nm_target mem) slot (map cs_target (sites_of c slot)) []
      (c_dependency_buckets c) 0 in
  let c := c_set_buckets b (c_repatch_buckets c) c in
  let c := update_entry slot (e_set_dependencies own) c in
  let c := c_bump reverse_dependency_registrations added c in
  if negb ok then (unregister_entry_dependencies slot c, false)
  else
    let '(c, ok) := register_entry_repatch_dependencies mem slot c in
    if ok then (c, true) else (unregister_entry_dependencies slot c, false).

(** One node of the bucket. *)
Definition invalidate_node (target : Z) (c : TurboJSCodeCache) (node : Z * nat) : TurboJSCodeCache :=
  match c_entries c !! node.2 with
  | Some e =>
      if (node.1 =? target) && e_live e then
        match v_natives c !! e_function e with
        | Some n =>
            let '(n, invalidated) := TurboJS_NativeInvalidateClutchTarget n target in
            let c := c_bump reverse_dependency_nodes_visited 1 c in
            let c := c_set_natives (<[e_function e := n]> (v_natives c)) c in
            let c := c_bump dependent_call_sites_invalidated invalidated c in
            if e_cache_kind e =? 1 then c_bump continuation_dependency_invalidations invalidated c else c
        | None => c
        end
      else c
  | None => c
  end.

Definition invalidate_indexed_dependents (target : Z) (c : TurboJSCodeCache) : TurboJSCodeCache :=
  if (target =? 0) || (length (c_dependency_buckets c) =? 0)%nat then c
  else
    let c := c_bump reverse_dependency_lookups 1 c in
    foldl (invalidate_node target) c
      (default [] (c_dependency_buckets c !! bucket_of dependency_hash (c_dependency_buckets c) target)).

(** ** Slots *)

(** [None] is the overflow answer 0. *)
Fixpoint next_pow2_loop (fuel : nat) (result value : Z) : option Z :=
  match fuel with
  | O => None
  | S fuel =>
      if value <=? result then Some result
      else if SIZE_MAX / 2 <? result then None
      else next_pow2_loop fuel (result * 2) value
  end.
Definition next_pow2 (value : Z) : option Z :=
  if SIZE_MAX / 2 <? value then None else next_pow2_loop 64 8 value.

Definition mask_slot (mask x : Z) : nat := Z.to_nat (Z.land x mask).

(** The probe loop; [None] is [SIZE_MAX]. *)
Fixpoint find_slot_loop (fuel : nat) (entries : list TurboJSCodeCacheEntry) (mask key : Z) (for_insert : bool)
    (slot : nat) (tombstone : option nat) : option nat :=
  match fuel with
  | O => tombstone
  | S fuel =>
      match entries !! slot with
      | None => None   (* a masked slot is in range *)
      | Some e =>
          let next := mask_slot mask (Z.of_nat slot + 1) in
          if e_state e =? 0 then
            match tombstone with Some t => Some (if for_insert then t else slot) | None => Some slot end
          else if (e_state e =? 1) && (e_key e =? key) then Some slot
          else
            let tombstone :=
              match tombstone with
              | None => if for_insert && (e_state e =? 2) then Some slot else None
              | Some t => Some t
              end in
            find_slot_loop fuel entries mask key for_insert next tombstone
      end
  end.

Definition find_slot (c : TurboJSCodeCache) (key : Z) (for_insert : bool) : option nat :=
  let mask := slot_count c - 1 in
  find_slot_loop (length (c_entries c)) (c_entries c) mask key for_insert (mask_slot mask (key_hash key)) None.

Definition e_touch (stamp : Z) (e : TurboJSCodeCacheEntry) : TurboJSCodeCacheEntry :=
  mkEntry (e_key e) (e_function e) (e_entry_handle e) (e_code_size e) stamp (sat_incr UINT32_MAX (e_access_count e))
    (e_entry_kind e) (e_cache_kind e) (e_state e) (e_continuation_function_id e) (e_continuation_revision e)
    (e_target_identity e) (e_continuation_start_instruction e) (e_continuation_prologue_count e) (e_dependencies e)
    (e_repatch_dependencies e).

Definition tick (c : TurboJSCodeCache) : TurboJSCodeCache := c_set_clock (uwrap 64 (c_clock c + 1)) c.

Definition touch_entry (slot : nat) (c : TurboJSCodeCache) : TurboJSCodeCache :=
  let c := tick c in update_entry slot (e_touch (c_clock c)) c.

Definition eviction_score (c : TurboJSCodeCache) (e : TurboJSCodeCacheEntry) : Z :=
  if negb (e_live e) then 0
  else
    let age := if e_stamp e <=? c_clock c then c_clock c - e_stamp e else 0 in
    let size_units := 1 + e_code_size e / (16 * 1024) in
    let retention :=
      if e_cache_kind e =? 1 then 4 + Z.min (e_access_count e) 12 else 1 + Z.min (e_access_count e) 3 in
    uwrap 64 (uwrap 64 (uwrap 64 (age + 1) * size_units) * 1024) / retention.

Definition handle_at (c : TurboJSCodeCache) (h : Z) : TurboJSNativeEntryHandle :=
  default TurboJS_NativeEntryHandleInit (v_handles c !! h).

(** What is left of a removed entry: a tombstone. *)
Definition tombstone_entry (e : TurboJSCodeCacheEntry) : TurboJSCodeCacheEntry :=
  mkEntry 0 0 0 0 0 0 TURBOJS_NATIVE_ENTRY_NONE 0 2 0 0 0 0 0 (e_dependencies e) (e_repatch_dependencies e).

(** The counters of a removed continuation. *)
Definition forget_continuation (eviction : bool) (size : Z) (s : Stats) : Stats :=
  let s := bump continuation_evictions (if eviction then 1 else 0) s in
  let s := if s continuation_entry_count =? 0 then s else bump continuation_entry_count (-1) s in
  set_counter continuation_code_bytes
    (if size <=? s continuation_code_bytes then s continuation_code_bytes - size else 0) s.

(** The handle published for the entry, with the sites that use it. *)
Definition retract_handle (e : TurboJSCodeCacheEntry) (c : TurboJSCodeCache) : TurboJSCodeCache :=
  if (e_cache_kind e =? 0) && negb (e_entry_handle e =? 0)
     && (nh_function (handle_at c (e_entry_handle e)) =? e_function e)
  then
    let c := invalidate_indexed_dependents (e_entry_handle e) c in
    c_set_handles (<[e_entry_handle e := TurboJS_NativeEntryHandleInvalidate (handle_at c (e_entry_handle e))]> (v_handles c)) c
  else c.

Definition remove_slot (slot : nat) (eviction : bool) (c : TurboJSCodeCache) : TurboJSCodeCache :=
  match c_entries c !! slot with
  | None => c
  | Some e =>
      if negb (e_live e) then c
      else
        let c := c_set_totals (c_count c) (uwrap 64 (c_code_bytes c - e_code_size e)) c in
        let c := if c_last_key c =? e_key e then c_set_last 0 0 c else c in
        let c := retract_handle e c in
        let c := unregister_entry_dependencies slot c in
        let c := unregister_entry_repatch_dependencies slot c in
        let c := c_set_natives (delete (e_function e) (v_natives c)) c in   (* TurboJS_NativeFunctionDestroy *)
        let c := if e_cache_kind e =? 1
                 then c_set_stats (forget_continuation eviction (e_code_size e) (c_stats c)) c else c in
        let c := update_entry slot tombstone_entry c in
        let c := c_set_totals (c_count c - 1) (c_code_bytes c) c in
        if eviction then c_bump evictions 1 c else c
  end.

(** The victim scan: highest score, the older one on a tie. *)
Definition better_victim (c : TurboJSCodeCache) (best : option (nat * TurboJSCodeCacheEntry)) (i : nat)
    (e : TurboJSCodeCacheEntry) : option (nat * TurboJSCodeCacheEntry) :=
  if negb (e_live e) then best
  else match best with
  | None => Some (i, e)
  | Some (_, w) =>
      if (eviction_score c w <? eviction_score c e)
         || ((eviction_score c e =? eviction_score c w) && (e_stamp e <? e_stamp w))
      then Some (i, e) else best
  end.

Definition find_victim (c : TurboJSCodeCache) : option (nat * TurboJSCodeCacheEntry) :=
  foldl (fun best '(i, e) => better_victim c best i e) None (imap pair (c_entries c)).

Definition evict_lru (c : TurboJSCodeCache) : TurboJSCodeCache * bool :=
  match find_victim c with
  | None => (c, false)
  | Some (victim, e) =>
      let c := c_bump (if e_cache_kind e =? 0 then weighted_function_evictions else weighted_continuation_evictions) 1 c in
      (remove_slot victim true c, true)
  end.

(** ** Public operations *)

Definition no_stats : Stats := fun _ => 0.

(** [mem] answers the four allocations together; the embedder's heap is kept. *)
Definition TurboJS_CodeCacheCreate (mem : bool) (natives : gmap Z TurboJSNativeFunction)
    (handles : gmap Z TurboJSNativeEntryHandle) (maximum_entries maximum_code_bytes : Z) : option TurboJSCodeCache :=
  let maximum_entries := if maximum_entries =? 0 then 64 else maximum_entries in
  let maximum_code_bytes := if maximum_code_bytes =? 0 then 4 * 1024 * 1024 else maximum_code_bytes in
  let? slots := next_pow2 (if maximum_entries <? SIZE_MAX / 2 then maximum_entries * 2 else 0) in
  if negb mem then None
  else Some (mkCache (replicate (Z.to_nat slots) empty_entry) 0 maximum_entries maximum_code_bytes 0 0 0 0 no_stats
               (replicate (Z.to_nat slots) []) (replicate (Z.to_nat slots) []) natives handles).

Definition live_slot (c : TurboJSCodeCache) (slot : option nat) : option (nat * TurboJSCodeCacheEntry) :=
  let? s := slot in
  let? e := c_entries c !! s in
  if e_live e then Some (s, e) else None.

(** The function pointer, 0 for NULL. *)
Definition TurboJS_CodeCacheLookup (key : Z) (c : TurboJSCodeCache) : TurboJSCodeCache * Z :=
  if key =? 0 then (c, 0)
  else if (c_last_key c =? key) && negb (c_last_function c =? 0) then
    let c := c_bump hits 1 c in
    let c := match live_slot c (find_slot c key false) with Some (s, _) => touch_entry s c | None => c end in
    (c, c_last_function c)
  else match live_slot c (find_slot c key false) with
  | None => (c_bump misses 1 c, 0)
  | Some (s, e) => (c_set_last key (e_function e) (touch_entry s (c_bump hits 1 c)), e_function e)
  end.

Definition lacks_room (c : TurboJSCodeCache) (code_size : Z) : bool :=
  (c_maximum_entries c <=? c_count c) || (uwrap 64 (c_maximum_code_bytes c - c_code_bytes c) <? code_size).

(** The eviction loop; every turn removes a live entry. *)
Fixpoint evict_until (fuel : nat) (code_size : Z) (c : TurboJSCodeCache) : TurboJSCodeCache :=
  match fuel with
  | O => c
  | S fuel =>
      if negb (c_count c =? 0) && lacks_room c code_size then
        let '(c, evicted) := evict_lru c in
        if evicted then evict_until fuel code_size c else c
      else c
  end.

(** The fields a new entry sets; the others keep what the slot held. *)
Definition fill_entry (key function code_size stamp kind : Z) (e : TurboJSCodeCacheEntry) : TurboJSCodeCacheEntry :=
  mkEntry key function (e_entry_handle e) code_size stamp 1 (e_entry_kind e) kind 1 (e_continuation_function_id e)
    (e_continuation_revision e) (e_target_identity e) (e_continuation_start_instruction e)
    (e_continuation_prologue_count e) (e_dependencies e) (e_repatch_dependencies e).

Definition destroy_native (f : Z) (c : TurboJSCodeCache) : TurboJSCodeCache := c_set_natives (delete f (v_natives c)) c.

Section Compile.
(** [TurboJS_BaselineCompile]: the status, and with OK the address of the new
    function object and its contents. *)
Context (baseline : TurboJSIRFunction -> TurboJSIRStatus * (Z * TurboJSNativeFunction)).
(** [TurboJS_IRSpecializeCallableReferences]: the specialized function, if any. *)
Context (specialize : TurboJSIRFunction -> option TurboJSIRFunction).

Definition compile_native (ir : TurboJSIRFunction) : TurboJSIRStatus * (Z * TurboJSNativeFunction) :=
  match baseline ir with
  | (TURBOJS_IR_UNSUPPORTED, n) =>
      match specialize ir with
      | Some specialized => baseline specialized
      | None => (TURBOJS_IR_UNSUPPORTED, n)
      end
  | r => r
  end.

Definition TurboJS_CodeCacheCompile (mem : NodeMemory) (key : Z) (ir : TurboJSIRFunction) (c : TurboJSCodeCache)
    : TurboJSCodeCache * TurboJSIRStatus * option Z :=
  if key =? 0 then (c, TURBOJS_IR_INVALID_ARGUMENT, None)
  else match live_slot c (find_slot c key false) with
  | Some (s, e) => (touch_entry s c, TURBOJS_IR_OK, Some (e_function e))
  | None =>
      match compile_native ir with
      | (TURBOJS_IR_OK, (native, object)) =>
          let c := c_set_natives (<[native := object]> (v_natives c)) c in
          let code_size := nf_code_size object in
          if c_maximum_code_bytes c <? code_size then (destroy_native native c, TURBOJS_IR_UNSUPPORTED, None)
          else
            let c := evict_until (S (length (c_entries c))) code_size c in
            if lacks_room c code_size then (destroy_native native c, TURBOJS_IR_UNSUPPORTED, None)
            else match find_slot c key true with
            | None => (destroy_native native c, TURBOJS_IR_OUT_OF_MEMORY, None)
            | Some slot =>
                let c := tick c in
                let c := update_entry slot (fill_entry key native code_size (c_clock c) 0) c in
                let c := c_set_totals (c_count c + 1) (uwrap 64 (c_code_bytes c + code_size)) c in
                let '(c, ok) := register_entry_dependencies mem slot c in
                if negb ok then (remove_slot slot false c, TURBOJS_IR_OUT_OF_MEMORY, None)
                else (c_set_last key native (c_bump compilations 1 c), TURBOJS_IR_OK, Some native)
            end
      | (status, _) => (c, status, None)
      end
  end.
End Compile.

(** ** Entry handles of cached functions *)

(** [owner_count == owner_capacity]: the capacities are 0, 8, 16, 32, ... *)
Definition owners_full (n : nat) : bool :=
  (n =? 0)%nat || ((8 <=? n)%nat && (Z.land (Z.of_nat n) (Z.of_nat n - 1) =? 0)).

(** The owners collected before patching; [false]: the array could not grow. *)
Fixpoint collect_owners (mem : nat -> bool) (identity : Z) (entries : list TurboJSCodeCacheEntry) (nodes : list (Z * nat))
    (owners : list nat) : list nat * bool :=
  match nodes with
  | [] => (owners, true)
  | (t, owner) :: nodes =>
      match entries !! owner with
      | Some e =>
          if negb (t =? identity) || negb (e_live e) || (e_function e =? 0)
          then collect_owners mem identity entries nodes owners
          else if negb (owners_full (length owners)) || mem (length owners) then collect_owners mem identity entries nodes (owners ++ [owner])
          else (owners, false)
      | None => collect_owners mem identity entries nodes owners
      end
  end.

Definition repatch_owner (mem : NodeMemory) (identity handle generation : Z) (kind : TurboJSNativeEntryKind)
    (argument_count : Z) (c : TurboJSCodeCache) (owner : nat) : TurboJSCodeCache :=
  match c_entries c !! owner with
  | None => c
  | Some e =>
      match v_natives c !! e_function e with
      | None => c
      | Some n =>
          let '(n, patched, incompatible) := TurboJS_NativeRepatchClutchIdentity n identity handle generation kind argument_count in
          let c := c_bump clutch_repatch_attempts 1 c in
          let c := c_set_natives (<[e_function e := n]> (v_natives c)) c in
          let c := c_bump clutch_repatch_incompatible incompatible (c_bump clutch_call_sites_repatched patched c) in
          if patched =? 0 then c
          else (register_entry_dependencies mem owner (c_bump clutch_repatch_successes 1 c)).1
      end
  end.

(** [grow k] answers the growth of the full owner array of [k] elements. *)
Definition repatch_identity_dependents (grow : nat -> bool) (mem : NodeMemory) (identity handle : Z)
    (kind : TurboJSNativeEntryKind) (argument_count : Z) (c : TurboJSCodeCache) : TurboJSCodeCache :=
  if (identity =? 0) || (handle =? 0) || (length (c_repatch_buckets c) =? 0)%nat then c
  else
    let c := c_bump repatch_identity_lookups 1 c in
    let '(owners, ok) :=
      collect_owners grow identity (c_entries c)
        (default [] (c_repatch_buckets c !! bucket_of identity_hash (c_repatch_buckets c) identity)) [] in
    let c := c_bump repatch_identity_nodes_visited (Z.of_nat (length owners) + (if ok then 0 else 1)) c in
    if negb ok then c
    else foldl (repatch_owner mem identity handle (nh_generation (handle_at c handle)) kind argument_count) c owners.

Definition e_set_handle (handle : Z) (kind : TurboJSNativeEntryKind) (identity : Z) (e : TurboJSCodeCacheEntry)
    : TurboJSCodeCacheEntry :=
  mkEntry (e_key e) (e_function e) handle (e_code_size e) (e_stamp e) (e_access_count e) kind
    (e_cache_kind e) (e_state e) (e_continuation_function_id e) (e_continuation_revision e) identity
    (e_continuation_start_instruction e) (e_continuation_prologue_count e) (e_dependencies e) (e_repatch_dependencies e).

Definition c_update_handle (h : Z) (f : TurboJSNativeEntryHandle -> TurboJSNativeEntryHandle) (c : TurboJSCodeCache)
    : TurboJSCodeCache :=
  c_set_handles (<[h := f (handle_at c h)]> (v_handles c)) c.

Definition result_kind_of (c : TurboJSCodeCache) (f : Z) : TurboJSValueKind :=
  match v_natives c !! f with Some n => nf_result_kind n | None => TURBOJS_VALUE_UNKNOWN end.

Definition TurboJS_CodeCacheAttachEntryHandleIdentity (grow : nat -> bool) (mem : NodeMemory) (key handle : Z)
    (kind : TurboJSNativeEntryKind) (argument_count identity : Z) (c : TurboJSCodeCache)
    : TurboJSCodeCache * TurboJSIRStatus :=
  if (key =? 0) || (handle =? 0)
     || (bool_decide (kind <> TURBOJS_NATIVE_ENTRY_INT32) && bool_decide (kind <> TURBOJS_NATIVE_ENTRY_FLOAT64))
  then (c, TURBOJS_IR_INVALID_ARGUMENT)
  else match live_slot c (find_slot c key false) with
  | None => (c, TURBOJS_IR_UNSUPPORTED)
  | Some (slot, e) =>
      let c := if negb (e_entry_handle e =? 0) && negb (e_entry_handle e =? handle)
                  && (nh_function (handle_at c (e_entry_handle e)) =? e_function e)
               then c_update_handle (e_entry_handle e) TurboJS_NativeEntryHandleInvalidate c else c in
      let c := update_entry slot (e_set_handle handle kind identity) c in
      let c := c_update_handle handle
                 (fun h => publish_entry_handle h (e_function e) kind argument_count (result_kind_of c (e_function e))) c in
      (repatch_identity_dependents grow mem identity handle kind argument_count c, TURBOJS_IR_OK)
  end.

Definition TurboJS_CodeCacheAttachEntryHandle (grow : nat -> bool) (mem : NodeMemory) (key handle : Z)
    (kind : TurboJSNativeEntryKind) (argument_count : Z) (c : TurboJSCodeCache) : TurboJSCodeCache * TurboJSIRStatus :=
  TurboJS_CodeCacheAttachEntryHandleIdentity grow mem key handle kind argument_count 0 c.

(** ** Invalidation *)

Definition TurboJS_CodeCacheInvalidate (key : Z) (c : TurboJSCodeCache) : TurboJSCodeCache :=
  if key =? 0 then c
  else match find_slot c key false with
  | Some slot => remove_slot slot false c
  | None => c
  end.

Definition TurboJS_CodeCacheClear (c : TurboJSCodeCache) : TurboJSCodeCache :=
  let c := for_range (length (c_entries c)) (fun i c => remove_slot i false c) c in
  let c := c_set_entries (replicate (length (c_entries c)) empty_entry) c in
  let c := c_set_buckets (replicate (length (c_dependency_buckets c)) []) (c_repatch_buckets c) c in
  c_set_last 0 0 (c_set_totals 0 0 c).

(** After [TurboJS_CodeCacheClear] the arrays are freed; only the heap is left. *)
Definition TurboJS_CodeCacheDestroy (c : TurboJSCodeCache)
    : gmap Z TurboJSNativeFunction * gmap Z TurboJSNativeEntryHandle :=
  let c := TurboJS_CodeCacheClear c in (v_natives c, v_handles c).

(** Entry count, code bytes and the counters. *)
Definition TurboJS_CodeCacheGetStats (c : TurboJSCodeCache) : Z * Z * Stats := (c_count c, c_code_bytes c, c_stats c).

(** ** Continuations *)

Definition is_continuation (id revision start : Z) (e : TurboJSCodeCacheEntry) : bool :=
  e_live e && (e_cache_kind e =? 1) && (e_continuation_function_id e =? id) && (e_continuation_revision e =? revision)
  && (e_continuation_start_instruction e =? start).

Definition find_continuation_entry (c : TurboJSCodeCache) (id revision start : Z) : option (nat * TurboJSCodeCacheEntry) :=
  list_find (fun e => is_continuation id revision start e = true) (c_entries c).

(** The function pointer and the prologue count. *)
Definition TurboJS_CodeCacheLookupContinuation (id revision start : Z) (c : TurboJSCodeCache)
    : TurboJSCodeCache * option (Z * Z) :=
  match find_continuation_entry c id revision start with
  | None => (c_bump continuation_misses 1 c, None)
  | Some (slot, e) =>
      (c_bump continuation_hits 1 (touch_entry slot c), Some (e_function e, e_continuation_prologue_count e))
  end.

Definition fill_continuation (function code_size stamp id revision start prologue : Z) (e : TurboJSCodeCacheEntry)
    : TurboJSCodeCacheEntry :=
  mkEntry 0 function (e_entry_handle e) code_size stamp 1 (e_entry_kind e) 1 1 id revision (e_target_identity e) start
    prologue (e_dependencies e) (e_repatch_dependencies e).

Definition first_free (c : TurboJSCodeCache) : option nat := fst <$> list_find (fun e => e_live e = false) (c_entries c).

(** [native] is the address of a function object the caller hands over. *)
Definition TurboJS_CodeCacheStoreContinuation (mem : NodeMemory) (id revision start prologue native : Z)
    (c : TurboJSCodeCache) : TurboJSCodeCache * TurboJSIRStatus * option Z :=
  if (native =? 0) || (id =? 0) then (c, TURBOJS_IR_INVALID_ARGUMENT, None)
  else match find_continuation_entry c id revision start with
  | Some (slot, e) => (touch_entry slot (destroy_native native c), TURBOJS_IR_OK, Some (e_function e))
  | None =>
      let code_size := match v_natives c !! native with Some n => nf_code_size n | None => 0 end in
      if c_maximum_code_bytes c <? code_size then (destroy_native native c, TURBOJS_IR_UNSUPPORTED, None)
      else
        let c := evict_until (S (length (c_entries c))) code_size c in
        if lacks_room c code_size then (destroy_native native c, TURBOJS_IR_UNSUPPORTED, None)
        else match first_free c with
        | None => (destroy_native native c, TURBOJS_IR_OUT_OF_MEMORY, None)
        | Some slot =>
            let c := tick c in
            let c := update_entry slot (fill_continuation native code_size (c_clock c) id revision start prologue) c in
            let c := c_set_totals (c_count c + 1) (uwrap 64 (c_code_bytes c + code_size)) c in
            let '(c, ok) := register_entry_dependencies mem slot c in
            if negb ok then (remove_slot slot false c, TURBOJS_IR_OUT_OF_MEMORY, None)
            else
              let c := c_bump continuation_compilations 1 c in
              let c := c_bump continuation_entry_count 1 c in
              (c_bump continuation_code_bytes code_size c, TURBOJS_IR_OK, Some native)
        end
  end.
