(* ===== verification/VaultTable.v ===== *)
(** * The hash table of the Vault

    Probing visits the slots in cyclic order from the home slot of the key.
    [find_slot] answers the live slot of the key when the slots before it are
    occupied (by live entries or tombstones), and otherwise the slot where an
    insertion keeps that property. *)

From stdpp Require Import gmap.
From S2P Require Import Prelude.
From S2P Require Import JitTypes.
From S2P Require Import Clutch.
From S2P Require Import Vault.

(** ** Masked slots *)

Definition power_of_two (n : nat) : Prop := exists k, 0 <= k /\ Z.of_nat n = 2 ^ k.

Lemma power_of_two_pos n : power_of_two n -> (0 < n)%nat.
Proof. intros (k & Hk & Hn). pose proof (Z.pow_pos_nonneg 2 k). lia. Qed.

Lemma mask_slot_mod n x : power_of_two n -> 0 <= x -> mask_slot (Z.of_nat n - 1) x = (Z.to_nat x mod n)%nat.
Proof.
  intros Hp Hx. pose proof (power_of_two_pos n Hp). destruct Hp as (k & Hk & Hn). unfold mask_slot.
  replace (Z.of_nat n - 1) with (Z.ones k) by (rewrite Z.ones_equiv; lia).
  rewrite Z.land_ones, <-Hn by done. rewrite <-(Z2Nat.id x) at 1 by done. rewrite <-Nat2Z.inj_mod, Nat2Z.id. done.
Qed.

Lemma hash_bounds x n : 0 <= x -> power_of_two n -> 0 <= Z.land x (Z.of_nat n - 1) < Z.of_nat n.
Proof.
  intros Hx Hp. destruct Hp as (k & Hk & Hn).
  replace (Z.of_nat n - 1) with (Z.ones k) by (rewrite Z.ones_equiv; lia).
  rewrite Z.land_ones, <-Hn by done. apply Z.mod_pos_bound. pose proof (Z.pow_pos_nonneg 2 k). lia.
Qed.

Lemma xor_shift_nonneg k x : 0 <= x -> 0 <= xor_shift k x.
Proof. intros. unfold xor_shift. apply Z.lxor_nonneg. rewrite Z.shiftr_nonneg. tauto. Qed.

Lemma key_hash_nonneg key : 0 <= key_hash key.
Proof. unfold key_hash. apply xor_shift_nonneg. by apply uwrap_is_u. Qed.

(** ** The probe sequence *)

Definition home (n : nat) (key : Z) : nat := (Z.to_nat (key_hash key) mod n)%nat.
Definition probe (n : nat) (key : Z) (j : nat) : nat := ((home n key + j) mod n)%nat.

Lemma probe_lt n key j : (0 < n)%nat -> (probe n key j < n)%nat.
Proof. intros. apply Nat.mod_upper_bound. lia. Qed.

Lemma probe_next n key j : (0 < n)%nat -> ((probe n key j + 1) mod n)%nat = probe n key (S j).
Proof.
  intros. unfold probe. rewrite Nat.Div0.add_mod_idemp_l. f_equal. lia.
Qed.

(** Every slot is probed. *)
Lemma probe_reaches n key s : (s < n)%nat -> exists j, (j < n)%nat /\ probe n key j = s.
Proof.
  intros Hs. assert (Hh : (home n key < n)%nat) by (apply Nat.mod_upper_bound; lia). unfold probe.
  destruct (decide (home n key <= s)%nat).
  - exists (s - home n key)%nat. split; [lia|]. rewrite Nat.mod_small; lia.
  - exists (s + n - home n key)%nat. split; [lia|].
    replace (home n key + (s + n - home n key))%nat with (s + 1 * n)%nat by lia.
    rewrite Nat.Div0.mod_add. by apply Nat.mod_small.
Qed.

Section Probing.
Context (entries : list TurboJSCodeCacheEntry) (key : Z).
Notation n := (length entries).
Notation probe := (probe n key).

Definition matches (e : TurboJSCodeCacheEntry) : Prop := e_live e = true /\ e_key e = key.
Definition passed (j : nat) : Prop := exists e, entries !! probe j = Some e /\ e_state e <> 0 /\ ~ matches e.
Definition occupied (j : nat) : Prop := exists e, entries !! probe j = Some e /\ e_state e <> 0.

(** The search met an empty slot, or all slots, without meeting the key. *)
Definition absent : Prop :=
  exists m, (forall i, (i < m)%nat -> passed i) /\
    (m = n \/ ((m < n)%nat /\ exists e, entries !! probe m = Some e /\ e_state e = 0)).

Inductive probed (for_insert : bool) : option nat -> Prop :=
  | probed_found j e : (j < n)%nat -> entries !! probe j = Some e -> matches e -> (forall i, (i < j)%nat -> passed i) ->
      probed for_insert (Some (probe j))
  | probed_free j e : (j < n)%nat -> entries !! probe j = Some e -> e_live e = false -> (forall i, (i < j)%nat -> occupied i) ->
      absent -> probed for_insert (Some (probe j))
  | probed_full : (forall i, (i < n)%nat -> passed i) ->
      (for_insert = true -> forall i e, (i < n)%nat -> entries !! probe i = Some e -> e_state e <> 2) ->
      probed for_insert None.

Definition tombstone_ok (for_insert : bool) (j : nat) (t : option nat) : Prop :=
  match t with
  | None => for_insert = true -> forall i e, (i < j)%nat -> entries !! probe i = Some e -> e_state e <> 2
  | Some s => for_insert = true /\ exists i e, (i < j)%nat /\ s = probe i /\ entries !! probe i = Some e /\ e_state e = 2
  end.

Lemma passed_occupied j : passed j -> occupied j.
Proof. intros (e & He & Hs & _). by exists e. Qed.

Lemma find_slot_loop_probed for_insert : forall fuel j t,
  power_of_two n -> (fuel + j = n)%nat -> (forall i, (i < j)%nat -> passed i) -> tombstone_ok for_insert j t ->
  probed for_insert (find_slot_loop fuel entries (Z.of_nat n - 1) key for_insert (probe j) t).
Proof.
  induction fuel as [|fuel IH]; intros j t Hp Hj Hpass Ht; pose proof (power_of_two_pos n Hp) as Hn; simpl.
  - assert (j = n) as -> by lia. destruct t as [s|].
    + destruct Ht as (_ & i & e & Hi & -> & He & Hst). eapply probed_free; eauto.
      * unfold e_live. by rewrite Hst.
      * intros. apply passed_occupied, Hpass. lia.
      * exists n. eauto.
    + apply probed_full; [done|]. intros H i e Hi. by apply Ht.
  - destruct (lookup_lt_is_Some_2 entries (probe j)) as [e He]; [by apply probe_lt|]. rewrite He.
    assert (Habs : e_state e = 0 -> absent) by (intros H; exists j; split; [done|]; right; split; [lia|eauto]).
    destruct (Z.eqb_spec (e_state e) 0) as [H0|H0].
    + destruct t as [s|].
      * destruct Ht as (-> & i & e' & Hi & -> & He' & Hst). eapply probed_free; eauto; [lia| |].
        -- unfold e_live. by rewrite Hst.
        -- intros. apply passed_occupied, Hpass. lia.
      * eapply probed_free; eauto; [lia| |].
        -- unfold e_live. by rewrite H0.
        -- intros. by apply passed_occupied, Hpass.
    + rewrite mask_slot_mod by (done || lia). rewrite Z2Nat.inj_add, Nat2Z.id, probe_next by lia.
      destruct ((e_state e =? 1) && (e_key e =? key)) eqn:Hm.
      * b2p. eapply probed_found; eauto; [lia|]. split; [|done]. unfold e_live. by apply Z.eqb_eq.
      * assert (Hpj : passed j).
        { exists e. split; [done|]. split; [done|]. intros [Hl Hk]. unfold e_live in Hl. rewrite Hl, Hk, Z.eqb_refl in Hm. done. }
        assert (Hpass' : forall i, (i < S j)%nat -> passed i).
        { intros i Hi. destruct (decide (i = j)) as [->|]; [done|]. apply Hpass. lia. }
        apply IH; [done|lia|done|]. destruct t as [s|].
        -- destruct Ht as (Hf & i & e' & Hi & Hs). split; [done|]. exists i, e'. split; [lia|done].
        -- destruct (for_insert && (e_state e =? 2)) eqn:Hf.
           ++ b2p. split; [done|]. exists j, e. split; [lia|done].
           ++ simpl. intros -> i e' Hi He'. destruct (decide (i = j)) as [->|]; [|apply (Ht eq_refl i e'); [lia|done]].
              simplify_eq. simpl in Hf. by apply Z.eqb_neq.
Qed.
End Probing.

Lemma find_slot_probed c key for_insert :
  power_of_two (length (c_entries c)) -> probed (c_entries c) key for_insert (find_slot c key for_insert).
Proof.
  intros Hp. pose proof (power_of_two_pos _ Hp). unfold find_slot, slot_count.
  rewrite mask_slot_mod by (done || apply key_hash_nonneg).
  replace (Z.to_nat (key_hash key) mod length (c_entries c))%nat with (probe (length (c_entries c)) key 0).
  - apply find_slot_loop_probed; [done|lia|intros; lia|]. simpl. intros; lia.
  - unfold probe, home. by rewrite Nat.add_0_r, Nat.Div0.mod_mod.
Qed.

(** ** Well-formed tables *)

(** Slot [s] is where probing for [key] arrives through occupied slots. *)
Definition reaches (entries : list TurboJSCodeCacheEntry) (s : nat) (key : Z) : Prop :=
  exists j, (j < length entries)%nat /\ probe (length entries) key j = s /\
    forall i, (i < j)%nat -> occupied entries key i.

Record table_ok (entries : list TurboJSCodeCacheEntry) : Prop := {
  t_size : power_of_two (length entries);
  t_state : forall s e, entries !! s = Some e -> e_state e = 0 \/ e_state e = 1 \/ e_state e = 2;
  t_kind : forall s e, entries !! s = Some e -> e_live e = true ->
    (e_cache_kind e = 0 /\ e_key e <> 0 /\ reaches entries s (e_key e)) \/ (e_cache_kind e = 1 /\ e_key e = 0);
  t_unique : forall s1 s2 e1 e2, entries !! s1 = Some e1 -> entries !! s2 = Some e2 ->
    e_live e1 = true -> e_live e2 = true -> e_key e1 = e_key e2 -> e_key e1 <> 0 -> s1 = s2
}.

Lemma find_present c key for_insert s e :
  table_ok (c_entries c) -> c_entries c !! s = Some e -> e_live e = true -> e_key e = key -> key <> 0 ->
  find_slot c key for_insert = Some s.
Proof.
  intros Ht He Hl Hk Hne. destruct (t_kind _ Ht s e He Hl) as [(_ & _ & Hr)|[_ ?]]; [|congruence].
  rewrite Hk in Hr. destruct Hr as (j0 & Hj0 & Hs & Hocc).
  assert (Hconf : forall m, (forall i, (i < m)%nat -> passed (c_entries c) key i) -> (m <= j0)%nat).
  { intros m Hm. destruct (decide (m <= j0)%nat); [done|]. destruct (Hm j0 ltac:(lia)) as (e' & He' & _ & Hnm).
    rewrite Hs in He'. simplify_eq. by destruct Hnm. }
  pose proof (find_slot_probed c key for_insert (t_size _ Ht)) as Hp.
  inversion Hp as [j e' Hj He' [Hl' Hk'] Hpass Heq|j e' Hj He' Hl' Hocc' Habs Heq|Hpass _ Heq].
  - f_equal. eapply (t_unique _ Ht); eauto; congruence.
  - exfalso. destruct Habs as (m & Hm & [->|(Hmn & e0 & He0 & H0)]).
    + specialize (Hconf _ Hm). lia.
    + specialize (Hconf _ Hm). destruct (decide (m = j0)) as [->|].
      * rewrite Hs in He0. simplify_eq. unfold e_live in Hl. rewrite H0 in Hl. done.
      * destruct (Hocc m ltac:(lia)) as (e1 & He1 & H1). congruence.
  - exfalso. specialize (Hconf _ Hpass). lia.
Qed.

(** The key is in no live entry: the slot found is free, and probing for the
    key arrives there. *)
Lemma find_absent c key for_insert s :
  table_ok (c_entries c) -> (forall s e, c_entries c !! s = Some e -> e_live e = true -> e_key e <> key) ->
  find_slot c key for_insert = Some s ->
  exists e, c_entries c !! s = Some e /\ e_live e = false /\ reaches (c_entries c) s key.
Proof.
  intros Ht Hno Hf. pose proof (find_slot_probed c key for_insert (t_size _ Ht)) as Hp. rewrite Hf in Hp.
  inversion Hp as [j e' Hj He' [Hl' Hk'] Hpass Heq|j e' Hj He' Hl' Hocc' Habs Heq|].
  - exfalso. by eapply Hno.
  - exists e'. split; [done|]. split; [done|]. exists j. done.
Qed.

(** With a free slot somewhere, an insertion finds one. *)
Lemma find_insert_some c key s e :
  table_ok (c_entries c) -> c_entries c !! s = Some e -> e_live e = false -> exists s', find_slot c key true = Some s'.
Proof.
  intros Ht He Hl. pose proof (find_slot_probed c key true (t_size _ Ht)) as Hp.
  destruct (find_slot c key true) as [s'|]; [eauto|]. inversion Hp as [| |Hpass Ht2].
  exfalso. apply lookup_lt_Some in He as Hs. destruct (probe_reaches _ key s Hs) as (j & Hj & Hpj).
  destruct (Hpass j Hj) as (e' & He' & Hne & _). rewrite Hpj, He in He'. injection He' as <-.
  specialize (Ht2 eq_refl j e Hj ltac:(by rewrite Hpj)). unfold e_live in Hl. apply Z.eqb_neq in Hl.
  pose proof (t_state _ Ht _ _ He). lia.
Qed.

(** ** Updates *)

Lemma reaches_mono es es' s key :
  length es' = length es ->
  (forall k e, es !! k = Some e -> e_state e <> 0 -> exists e', es' !! k = Some e' /\ e_state e' <> 0) ->
  reaches es s key -> reaches es' s key.
Proof.
  intros Hlen Hmono (j & Hj & Hs & Hocc). exists j. rewrite Hlen. split; [done|]. split; [done|].
  intros i Hi. destruct (Hocc i Hi) as (e & He & Hne). unfold occupied. rewrite Hlen. eauto.
Qed.

(** Replacing one entry: the rest of the table is kept, and the new entry must
    be in order. *)
Lemma table_ok_insert es s e0 e :
  table_ok es -> es !! s = Some e0 -> (e_state e0 <> 0 -> e_state e <> 0) ->
  (e_state e = 0 \/ e_state e = 1 \/ e_state e = 2) ->
  (e_live e = true ->
     ((e_cache_kind e = 0 /\ e_key e <> 0 /\ reaches es s (e_key e)) \/ (e_cache_kind e = 1 /\ e_key e = 0)) /\
     (e_key e <> 0 -> forall s' e', es !! s' = Some e' -> e_live e' = true -> e_key e' = e_key e -> s' = s)) ->
  table_ok (<[s := e]> es).
Proof.
  intros [Hsz Hst Hk Hu] He0 Hocc Hse Hl. apply lookup_lt_Some in He0 as Hs.
  assert (Hget : forall k x, <[s := e]> es !! k = Some x -> (k = s /\ x = e) \/ (k <> s /\ es !! k = Some x)).
  { intros k x Hx. rewrite list_lookup_insert in Hx. case_decide; [naive_solver|]. right. split; [naive_solver|done]. }
  assert (Hmono : forall t key, reaches es t key -> reaches (<[s := e]> es) t key).
  { intros t key. apply reaches_mono; [by rewrite length_insert|]. intros k x Hx Hne.
    destruct (decide (k = s)) as [->|]; [|rewrite list_lookup_insert_ne by done; eauto].
    rewrite list_lookup_insert_eq by done. simplify_eq. eauto. }
  split.
  - by rewrite length_insert.
  - intros k x [[-> ->]|[_ Hx]]%Hget; [done|eauto].
  - intros k x [[-> ->]|[_ Hx]]%Hget Hlx.
    + destruct (Hl Hlx) as [[(?&?&?)|?] _]; [left; eauto|by right].
    + destruct (Hk k x Hx Hlx) as [(?&?&?)|?]; [left; eauto|by right].
  - intros s1 s2 e1 e2 [[-> ->]|[Hn1 H1]]%Hget [[-> ->]|[Hn2 H2]]%Hget Hl1 Hl2 Heq Hne; [done| | |eauto].
    + destruct (Hl Hl1) as [_ Hx]. symmetry. eapply Hx; eauto.
    + destruct (Hl Hl2) as [_ Hx]. eapply Hx; eauto. congruence.
Qed.

(** ** Contents *)

Definition entry_binding (e : TurboJSCodeCacheEntry) : option (Z * Z) :=
  if e_live e && (e_cache_kind e =? 0) then Some (e_key e, e_function e) else None.

(** The abstract cache: the functions of the live function entries by key. *)
Definition contents (entries : list TurboJSCodeCacheEntry) : gmap Z Z := list_to_map (omap entry_binding entries).

Lemma bindings_nodup es : table_ok es -> NoDup (omap entry_binding es).*1.
Proof.
  intros Ht. assert (Hu := t_unique _ Ht). assert (Hk : forall s e, es !! s = Some e -> e_live e = true ->
    e_cache_kind e = 0 -> e_key e <> 0) by (intros s e He Hl Hc; destruct (t_kind _ Ht s e He Hl) as [(?&?&?)|[? ?]]; congruence).
  clear Ht. induction es as [|e es IH]; simpl; [constructor|].
  assert (IH' : NoDup (omap entry_binding es).*1).
  { apply IH; [intros s1 s2 e1 e2 H1 H2 ? ? ? ?; assert (S s1 = S s2) by eauto; lia|intros s x Hx; apply (Hk (S s) x Hx)]. }
  destruct (entry_binding e) as [[k f]|] eqn:Hb; [|done]. simpl. constructor; [|done].
  unfold entry_binding in Hb. destruct (e_live e && (e_cache_kind e =? 0)) eqn:Hl; [|done]. injection Hb as <- <-. b2p.
  intros ([k' f'] & Heq & Hin)%list_elem_of_fmap. simpl in Heq. subst k'.
  apply list_elem_of_omap in Hin as (e' & He' & Hb'). unfold entry_binding in Hb'.
  destruct (e_live e' && (e_cache_kind e' =? 0)) eqn:Hl'; [|done]. injection Hb' as Hkk <-. b2p.
  apply list_elem_of_lookup in He' as [s Hs].
  assert (O = S s) by (eapply (Hu O (S s) e e'); eauto; eapply (Hk O); eauto). lia.
Qed.

Lemma contents_spec es key f :
  table_ok es -> contents es !! key = Some f <->
  exists s e, es !! s = Some e /\ e_live e = true /\ e_cache_kind e = 0 /\ e_key e = key /\ e_function e = f.
Proof.
  intros Ht. unfold contents. rewrite <-elem_of_list_to_map by (by apply bindings_nodup). rewrite list_elem_of_omap. split.
  - intros (e & He & Hb). apply list_elem_of_lookup in He as [s Hs]. unfold entry_binding in Hb.
    destruct (e_live e && (e_cache_kind e =? 0)) eqn:Hl; [|done]. b2p. exists s, e. naive_solver.
  - intros (s & e & Hs & Hl & Hc & <- & <-). exists e. split; [by eapply list_elem_of_lookup_2|].
    unfold entry_binding. by rewrite Hl, Hc.
Qed.
