(* ===== verification/VaultIndex.v ===== *)
(** * The reverse indices of the Vault

    An index is an array of buckets of nodes (target, owner slot).  It is in
    order when its nodes are exactly the targets each owner lists, every node
    in the bucket of its target, once. *)

From S2P Require Import Prelude.
From S2P Require Import JitTypes.
From S2P Require Import Clutch.
From S2P Require Import Vault.
From S2P Require Import VaultTable.

Definition hash_ok (hash : Z -> Z -> Z) : Prop :=
  forall t n, power_of_two n -> 0 <= hash t (Z.of_nat n) < Z.of_nat n.

Lemma dependency_hash_ok : hash_ok dependency_hash.
Proof.
  intros t n Hp. pose proof (power_of_two_pos n Hp). unfold dependency_hash. rewrite (proj2 (Z.eqb_neq _ _)) by lia.
  apply hash_bounds; [|done]. apply xor_shift_nonneg. by apply uwrap_is_u.
Qed.
Lemma identity_hash_ok : hash_ok identity_hash.
Proof.
  intros t n Hp. pose proof (power_of_two_pos n Hp). unfold identity_hash. rewrite (proj2 (Z.eqb_neq _ _)) by lia.
  apply hash_bounds; [|done]. apply xor_shift_nonneg. by apply uwrap_is_u.
Qed.

(** ** Removing a node *)

Lemma elem_of_remove_node x n l : NoDup l -> x ∈ remove_node n l <-> x ∈ l /\ x <> n.
Proof.
  induction l as [|y l IH]; simpl; intros Hnd; [set_solver|]. apply NoDup_cons in Hnd as [Hy Hnd].
  case_decide; subst.
  - rewrite elem_of_cons. split; [|naive_solver]. intros Hx. split; [by right|]. by intros ->.
  - rewrite !elem_of_cons, (IH Hnd). naive_solver.
Qed.

Lemma NoDup_remove_node n l : NoDup l -> NoDup (remove_node n l).
Proof.
  induction l as [|y l IH]; simpl; intros Hnd; [done|]. apply NoDup_cons in Hnd as [Hy Hnd].
  case_decide; [done|]. constructor; [|auto]. rewrite elem_of_remove_node by done. naive_solver.
Qed.

(** ** Indices in order *)

Definition owners_upd (own : nat -> list Z) (s : nat) (l : list Z) : nat -> list Z :=
  fun s' => if decide (s' = s) then l else own s'.

Lemma owners_upd_same own s : forall k, owners_upd own s (own s) k = own k.
Proof. intros k. unfold owners_upd. case_decide; by subst. Qed.
Lemma owners_upd_twice own s l l' : forall k, owners_upd (owners_upd own s l) s l' k = owners_upd own s l' k.
Proof. intros k. unfold owners_upd. by case_decide. Qed.

Section Index.
Context (hash : Z -> Z -> Z) (Hhash : hash_ok hash).

Record index_ok (b : Buckets) (own : nat -> list Z) : Prop := {
  ix_size : power_of_two (length b);
  ix_sound : forall k bucket t s, b !! k = Some bucket -> (t, s) ∈ bucket -> k = bucket_of hash b t /\ t ∈ own s;
  ix_complete : forall s t, t ∈ own s -> exists bucket, b !! bucket_of hash b t = Some bucket /\ (t, s) ∈ bucket;
  ix_nodup : forall k bucket, b !! k = Some bucket -> NoDup bucket;
  ix_own : forall s, NoDup (own s)
}.

Lemma index_ok_ext b own own' : (forall s, own' s = own s) -> index_ok b own -> index_ok b own'.
Proof.
  intros Heq [Hsz Hs Hc Hn Ho]. split; try done.
  - intros k bucket t s. rewrite Heq. apply Hs.
  - intros s t. rewrite Heq. apply Hc.
  - intros s. rewrite Heq. apply Ho.
Qed.

Lemma bucket_of_lt b t : power_of_two (length b) -> (bucket_of hash b t < length b)%nat.
Proof. intros Hp. unfold bucket_of. pose proof (Hhash t (length b) Hp). lia. Qed.

Lemma bucket_of_alter f k b t : bucket_of hash (alter f k b : Buckets) t = bucket_of hash b t.
Proof. unfold bucket_of. by rewrite length_alter. Qed.

Lemma index_link b own s t :
  index_ok b own -> t ∉ own s -> index_ok (link hash s t b) (owners_upd own s (t :: own s)).
Proof.
  intros [Hsz Hs Hc Hn Ho] Hnew. unfold link.
  set (k0 := bucket_of hash b t). destruct (lookup_lt_is_Some_2 b k0) as [b0 Hb0]; [by apply bucket_of_lt|].
  assert (Hget : forall k bucket, alter (cons (t, s)) k0 b !! k = Some bucket ->
    (k = k0 /\ bucket = (t, s) :: b0) \/ (k <> k0 /\ b !! k = Some bucket)).
  { intros k bucket. rewrite list_lookup_alter. case_decide; [subst; rewrite Hb0|]; naive_solver. }
  split.
  - by rewrite length_alter.
  - intros k bucket t' s' [[-> ->]|[Hk Hb]]%Hget Hin; rewrite bucket_of_alter; unfold owners_upd.
    + apply elem_of_cons in Hin as [[= -> ->]|Hin].
      * split; [done|]. rewrite decide_True by done. by left.
      * destruct (Hs _ _ _ _ Hb0 Hin) as [Hk Hin']. split; [done|]. case_decide; [subst; by right|done].
    + destruct (Hs _ _ _ _ Hb Hin) as [Hk' Hin']. split; [done|]. case_decide; [subst; by right|done].
  - intros s' t' Hin. rewrite bucket_of_alter, list_lookup_alter. unfold owners_upd in Hin.
    case_decide as Hss; [subst s'; apply elem_of_cons in Hin as [->|Hin]|].
    + fold k0. rewrite decide_True, Hb0 by done. eexists. split; [done|]. by left.
    + destruct (Hc s t' Hin) as (bk & Hbk & Hx). destruct (decide (k0 = bucket_of hash b t')) as [E|]; [|eauto]. rewrite E, Hbk. eexists. split; [done|]. by right.
    + destruct (Hc s' t' Hin) as (bk & Hbk & Hx). destruct (decide (k0 = bucket_of hash b t')) as [E|]; [|eauto]. rewrite E, Hbk. eexists. split; [done|]. by right.
  - intros k bucket [[-> ->]|[_ Hb]]%Hget; [|eauto]. constructor; [|eauto]. intros Hin.
    by destruct (Hs _ _ _ _ Hb0 Hin).
  - intros s'. unfold owners_upd. case_decide; [|done]. by constructor.
Qed.

Lemma index_unlink b own s t l :
  index_ok b own -> own s = t :: l -> index_ok (unlink hash s b t) (owners_upd own s l).
Proof.
  intros [Hsz Hs Hc Hn Ho] Hown. unfold unlink. set (k0 := bucket_of hash b t).
  assert (Htl : t ∉ l) by (specialize (Ho s); rewrite Hown in Ho; by apply NoDup_cons in Ho as [? _]).
  assert (Hget : forall k bucket, alter (remove_node (t, s)) k0 b !! k = Some bucket ->
    exists old, b !! k = Some old /\ bucket = if decide (k = k0) then remove_node (t, s) old else old).
  { intros k bucket. rewrite list_lookup_alter.
    case_decide as Hk; [subst; destruct (b !! k0) eqn:Hb; simpl|]; intros; simplify_eq; eexists; (split; [done|]).
    - by rewrite decide_True.
    - by rewrite decide_False by congruence. }
  split.
  - by rewrite length_alter.
  - intros k bucket t' s' (old & Hold & ->)%Hget Hin. rewrite bucket_of_alter.
    assert (Hin' : (t', s') ∈ old /\ (k = k0 -> (t', s') <> (t, s))).
    { case_decide; [|done]. apply elem_of_remove_node in Hin; [naive_solver|eauto]. }
    destruct Hin' as [Hin' Hne]. destruct (Hs _ _ _ _ Hold Hin') as [Hk Ht]. split; [done|].
    unfold owners_upd. destruct (decide (s' = s)) as [->|]; [|done]. rewrite Hown in Ht. apply elem_of_cons in Ht as [->|]; [|done].
    by destruct (Hne Hk).
  - intros s' t' Hin. rewrite bucket_of_alter, list_lookup_alter. unfold owners_upd in Hin.
    assert (Hin' : t' ∈ own s' /\ (t', s') <> (t, s)).
    { case_decide; [subst; rewrite Hown; split; [by right|naive_solver]|naive_solver]. }
    destruct Hin' as [Hin' Hne]. destruct (Hc s' t' Hin') as (bk & Hbk & Hx).
    destruct (decide (k0 = bucket_of hash b t')) as [E|]; [|eauto]. rewrite E, Hbk. eexists. split; [done|]. apply elem_of_remove_node; eauto.
  - intros k bucket (old & Hold & ->)%Hget. case_decide; eauto using NoDup_remove_node.
  - intros s'. unfold owners_upd. case_decide; [|done]. specialize (Ho s). rewrite Hown in Ho. by apply NoDup_cons in Ho as [_ ?].
Qed.

Lemma index_unlink_all s : forall l b own,
  index_ok b own -> own s = l -> index_ok (foldl (unlink hash s) b l) (owners_upd own s []).
Proof.
  induction l as [|t l IH]; intros b own Hix Hown; simpl.
  - eapply index_ok_ext; [|exact Hix]. intros k. rewrite <-Hown. apply owners_upd_same.
  - eapply index_ok_ext; [|apply (IH _ (owners_upd own s l)); [by apply index_unlink|]].
    + intros k. symmetry. apply owners_upd_twice.
    + unfold owners_upd. by rewrite decide_True.
Qed.

Lemma index_register mem s : forall ids own0 b own added own' b' n ok,
  index_ok b own -> own s = own0 -> register_nodes hash mem s ids own0 b added = (own', b', n, ok) ->
  index_ok b' (owners_upd own s own') /\ own0 ⊆ own' /\ length b' = length b /\
  (ok = true -> forall t, t ∈ ids -> t <> 0 -> t ∈ own').
Proof.
  induction ids as [|t ids IH]; intros own0 b own added own' b' n ok Hix Hown Hr; simpl in Hr.
  - simplify_eq. split_and!; [|done|done|set_solver]. eapply index_ok_ext; [|exact Hix]. apply owners_upd_same.
  - destruct ((t =? 0) || bool_decide (t ∈ own0)) eqn:Hskip.
    + destruct (IH own0 b own added own' b' n ok Hix Hown Hr) as (H1 & H2 & H3 & H4). split_and!; try done.
      intros Hok x [->|Hx]%elem_of_cons Hne; [|by apply H4]. apply H2.
      apply orb_true_iff in Hskip as [Hz|Hin]; b2p; done.
    + b2p. destruct (mem t).
      * destruct (IH (t :: own0) (link hash s t b) (owners_upd own s (t :: own0)) (added + 1) own' b' n ok) as (H1 & H2 & H3 & H4).
        -- rewrite <-Hown. apply index_link; [done|]. by rewrite Hown.
        -- unfold owners_upd. by rewrite decide_True.
        -- done.
        -- split_and!.
           ++ eapply index_ok_ext; [|exact H1]. intros k. symmetry. apply owners_upd_twice.
           ++ set_solver.
           ++ rewrite H3. unfold link. by rewrite length_alter.
           ++ intros Hok x [->|Hx]%elem_of_cons Hne; [apply H2; by left|by apply H4].
      * simplify_eq. split_and!; try done. eapply index_ok_ext; [|exact Hix]. apply owners_upd_same.
Qed.
End Index.
