(* ===== verification/VaultInv.v ===== *)
(** * The invariant of the Vault

    [core] ties the table, the native functions it owns and the two indices
    together; [accounts] states what the totals and the last-key shortcut
    mean.  Every operation of the cache keeps both, whatever the allocator
    answers. *)

From stdpp Require Import gmap.
From S2P Require Import Prelude.
From S2P Require Import JitTypes.
From S2P Require Import Clutch.
From S2P Require Import Vault.
From S2P Require Import VaultTable.
From S2P Require Import VaultIndex.

(** ** Sums over the live entries *)

Definition weight (g : TurboJSCodeCacheEntry -> Z) (e : TurboJSCodeCacheEntry) : Z := if e_live e then g e else 0.
Definition live_sum (g : TurboJSCodeCacheEntry -> Z) (es : list TurboJSCodeCacheEntry) : Z :=
  foldr (fun e acc => weight g e + acc) 0 es.

Lemma live_sum_alter g f es s e :
  es !! s = Some e -> live_sum g (alter f s es) = live_sum g es - weight g e + weight g (f e).
Proof.
  unfold live_sum. revert s. induction es as [|x es IH]; intros [|s] Hs; try discriminate.
  - injection Hs as ->. change (alter f 0%nat (e :: es)) with (f e :: es). simpl. lia.
  - change (alter f (S s) (x :: es)) with (x :: alter f s es). simpl. rewrite (IH s) by exact Hs. lia.
Qed.

Lemma alter_missing {A} (f : A -> A) (l : list A) s : l !! s = None -> alter f s l = l.
Proof.
  intros Hs. apply list_eq. intros k. rewrite list_lookup_alter. case_decide; [|done]. subst. by rewrite Hs.
Qed.

Lemma live_sum_keep g f es s :
  (forall e, weight g (f e) = weight g e) -> live_sum g (alter f s es) = live_sum g es.
Proof.
  intros Hf. destruct (es !! s) as [e|] eqn:Hs; [rewrite (live_sum_alter g f es s e Hs), Hf; lia|by rewrite alter_missing].
Qed.

Lemma live_sum_bounds g es : (forall s e, es !! s = Some e -> e_live e = true -> 0 <= g e) -> 0 <= live_sum g es.
Proof.
  induction es as [|e es IH]; intros Hg; unfold live_sum; simpl; [done|].
  assert (0 <= live_sum g es) by (apply IH; intros s x Hx; apply (Hg (S s) x Hx)). unfold live_sum in *.
  assert (0 <= weight g e) by (unfold weight; destruct (e_live e) eqn:He; [by apply (Hg O)|done]). lia.
Qed.

Lemma live_sum_member g es s e :
  (forall s e, es !! s = Some e -> e_live e = true -> 0 <= g e) -> es !! s = Some e -> weight g e <= live_sum g es.
Proof.
  revert s. induction es as [|x es IH]; intros [|s] Hg Hs; try discriminate; unfold live_sum; simpl.
  - injection Hs as ->. pose proof (live_sum_bounds g es ltac:(intros k y Hy; apply (Hg (S k) y Hy))). unfold live_sum in *. lia.
  - assert (weight g e <= live_sum g es) by (eapply IH; [|exact Hs]; intros k y Hy; apply (Hg (S k) y Hy)).
    assert (0 <= weight g x) by (unfold weight; destruct (e_live x) eqn:He; [by apply (Hg O)|done]). unfold live_sum in *. lia.
Qed.

(** The number of live entries is below the number of slots unless all live. *)
Lemma live_count_free es :
  live_sum (fun _ => 1) es < Z.of_nat (length es) -> exists s e, es !! s = Some e /\ e_live e = false.
Proof.
  induction es as [|e es IH]; unfold live_sum; simpl; [lia|]. unfold weight at 1. intros H.
  destruct (e_live e) eqn:He; [|by exists O, e].
  destruct IH as (s & x & Hx & Hl); [unfold live_sum; lia|]. by exists (S s), x.
Qed.

Lemma live_count_le es : live_sum (fun _ => 1) es <= Z.of_nat (length es).
Proof. induction es as [|e es IH]; unfold live_sum in *; simpl; [done|]. unfold weight at 1. case_match; lia. Qed.

Lemma live_count_zero es : live_sum (fun _ => 1) es = 0 -> forall s e, es !! s = Some e -> e_live e = false.
Proof.
  intros H s e He. pose proof (live_sum_member (fun _ => 1) es s e ltac:(done) He) as Hm.
  unfold weight in Hm. destruct (e_live e); [lia|done].
Qed.

(** ** Table, heap and indices *)

Definition dependencies_of (es : list TurboJSCodeCacheEntry) (s : nat) : list Z :=
  match es !! s with Some e => e_dependencies e | None => [] end.
Definition identities_of (es : list TurboJSCodeCacheEntry) (s : nat) : list Z :=
  match es !! s with Some e => e_repatch_dependencies e | None => [] end.

(** [outside]: the function objects that do not belong to the cache. *)
Record core (outside natives : gmap Z TurboJSNativeFunction) (es : list TurboJSCodeCacheEntry) (db rb : Buckets)
    : Prop := {
  co_table : table_ok es;
  co_native : forall s e, es !! s = Some e -> e_live e = true ->
    e_function e <> 0 /\ outside !! e_function e = None /\
    exists n, natives !! e_function e = Some n /\ nf_code_size n = e_code_size e /\ 0 <= e_code_size e;
  co_owner : forall s1 s2 e1 e2, es !! s1 = Some e1 -> es !! s2 = Some e2 -> e_live e1 = true -> e_live e2 = true ->
    e_function e1 = e_function e2 -> s1 = s2;
  co_heap : forall f n, natives !! f = Some n ->
    outside !! f = Some n \/ exists s e, es !! s = Some e /\ e_live e = true /\ e_function e = f;
  co_outside : forall f n, outside !! f = Some n -> natives !! f = Some n;
  co_dependencies : index_ok dependency_hash db (dependencies_of es);
  co_identities : index_ok identity_hash rb (identities_of es);
  co_dead : forall s e, es !! s = Some e -> e_live e = false -> e_dependencies e = [] /\ e_repatch_dependencies e = []
}.

Definition cache_core (outside : gmap Z TurboJSNativeFunction) (c : TurboJSCodeCache) : Prop :=
  core outside (v_natives c) (c_entries c) (c_dependency_buckets c) (c_repatch_buckets c).

Record accounts (c : TurboJSCodeCache) : Prop := {
  ac_count : c_count c = live_sum (fun _ => 1) (c_entries c);
  ac_bytes : c_code_bytes c = live_sum e_code_size (c_entries c);
  ac_entries : 0 < c_maximum_entries c /\ c_count c <= c_maximum_entries c;
  ac_limit : c_code_bytes c <= c_maximum_code_bytes c <= SIZE_MAX;
  ac_last : c_last_key c <> 0 -> exists s e, c_entries c !! s = Some e /\ e_live e = true /\
    e_key e = c_last_key c /\ e_function e = c_last_function c
}.

Definition vault_ok (outside : gmap Z TurboJSNativeFunction) (c : TurboJSCodeCache) : Prop :=
  cache_core outside c /\ accounts c.

(** Entries that agree on everything that places them in the cache. *)
Record same_entry (e e' : TurboJSCodeCacheEntry) : Prop := {
  se_key : e_key e' = e_key e;
  se_function : e_function e' = e_function e;
  se_code_size : e_code_size e' = e_code_size e;
  se_state : e_state e' = e_state e;
  se_kind : e_cache_kind e' = e_cache_kind e;
  se_id : e_continuation_function_id e' = e_continuation_function_id e;
  se_revision : e_continuation_revision e' = e_continuation_revision e;
  se_start : e_continuation_start_instruction e' = e_continuation_start_instruction e;
  se_prologue : e_continuation_prologue_count e' = e_continuation_prologue_count e
}.

#[export] Instance same_entry_refl : Reflexive same_entry.
Proof. done. Qed.
#[export] Instance same_entry_trans : Transitive same_entry.
Proof. intros e1 e2 e3 [] []. split; congruence. Qed.
Lemma same_entry_live e e' : same_entry e e' -> e_live e' = e_live e.
Proof. intros H. unfold e_live. by rewrite (se_state _ _ H). Qed.

Definition keeps (f : TurboJSCodeCacheEntry -> TurboJSCodeCacheEntry) : Prop := forall e, same_entry e (f e).

(** Tables that differ in administrative fields only. *)
Definition same_table : list TurboJSCodeCacheEntry -> list TurboJSCodeCacheEntry -> Prop := Forall2 same_entry.

#[export] Instance same_table_refl : Reflexive same_table.
Proof. unfold same_table. apply _. Qed.
#[export] Instance same_table_trans : Transitive same_table.
Proof. unfold same_table. apply _. Qed.

Lemma same_table_alter f s es : keeps f -> same_table es (alter f s es).
Proof.
  intros Hf. apply Forall2_same_length_lookup_2; [by rewrite length_alter|]. intros k x y Hx Hy.
  rewrite list_lookup_alter in Hy. case_decide; [subst|naive_solver]. rewrite Hx in Hy. simplify_eq/=. apply Hf.
Qed.

Lemma same_table_lookup es es' s e' : same_table es es' -> es' !! s = Some e' -> exists e, es !! s = Some e /\ same_entry e e'.
Proof. intros H He. destruct (Forall2_lookup_r _ _ _ _ _ H He) as (e & He0 & Hs). eauto. Qed.
Lemma same_table_lookup_r es es' s e : same_table es es' -> es !! s = Some e -> exists e', es' !! s = Some e' /\ same_entry e e'.
Proof. intros H He. destruct (Forall2_lookup_l _ _ _ _ _ H He) as (e' & He0 & Hs). eauto. Qed.

Lemma same_table_sum es es' : same_table es es' ->
  live_sum (fun _ => 1) es' = live_sum (fun _ => 1) es /\ live_sum e_code_size es' = live_sum e_code_size es.
Proof.
  induction 1 as [|e e' es es' He _ [IH1 IH2]]; [done|]. unfold live_sum in *. simpl. unfold weight in *.
  rewrite (same_entry_live _ _ He), (se_code_size _ _ He). split; f_equal; done.
Qed.

Lemma same_table_contents es es' : same_table es es' -> contents es' = contents es.
Proof.
  intros H. unfold contents. f_equal. induction H as [|e e' es es' He _ IH]; [done|].
  assert (Hb : entry_binding e' = entry_binding e).
  { unfold entry_binding. by rewrite (same_entry_live _ _ He), (se_kind _ _ He), (se_key _ _ He), (se_function _ _ He). }
  csimpl. by rewrite Hb, IH.
Qed.

Lemma same_table_ok es es' : same_table es es' -> table_ok es -> table_ok es'.
Proof.
  intros H [Hsz Hst Hk Hu]. pose proof (Forall2_length _ _ _ H) as Hlen.
  assert (Hr : forall s key, reaches es s key -> reaches es' s key).
  { intros s key. apply reaches_mono; [done|]. intros k e He Hne.
    destruct (same_table_lookup_r _ _ _ _ H He) as (e' & He' & Hs). exists e'. by rewrite (se_state _ _ Hs). }
  split.
  - by rewrite <-Hlen.
  - intros s e' He'. destruct (same_table_lookup _ _ _ _ H He') as (e & He & Hs). rewrite (se_state _ _ Hs). eauto.
  - intros s e' He' Hl. destruct (same_table_lookup _ _ _ _ H He') as (e & He & Hs).
    rewrite (same_entry_live _ _ Hs) in Hl. rewrite (se_kind _ _ Hs), (se_key _ _ Hs).
    destruct (Hk s e He Hl) as [(?&?&?)|?]; [left; auto|by right].
  - intros s1 s2 e1' e2' H1 H2 Hl1 Hl2. destruct (same_table_lookup _ _ _ _ H H1) as (e1 & He1 & Hs1).
    destruct (same_table_lookup _ _ _ _ H H2) as (e2 & He2 & Hs2).
    rewrite (same_entry_live _ _ Hs1) in Hl1. rewrite (same_entry_live _ _ Hs2) in Hl2.
    rewrite (se_key _ _ Hs1), (se_key _ _ Hs2). eauto.
Qed.

(** The books of two caches agree: same totals, limits and shortcut, and the
    same table up to administrative fields. *)
Record same_books (c c' : TurboJSCodeCache) : Prop := {
  sb_table : same_table (c_entries c) (c_entries c');
  sb_count : c_count c' = c_count c;
  sb_bytes : c_code_bytes c' = c_code_bytes c;
  sb_max_entries : c_maximum_entries c' = c_maximum_entries c;
  sb_max_bytes : c_maximum_code_bytes c' = c_maximum_code_bytes c;
  sb_last_key : c_last_key c' = c_last_key c;
  sb_last_function : c_last_function c' = c_last_function c
}.

#[export] Instance same_books_refl : Reflexive same_books.
Proof. intros c. split; done || reflexivity. Qed.
#[export] Instance same_books_trans : Transitive same_books.
Proof. intros c1 c2 c3 [] []. split; [by etransitivity|congruence..]. Qed.

Lemma same_books_accounts c c' : same_books c c' -> accounts c -> accounts c'.
Proof.
  intros [Ht Hc Hb Hm1 Hm2 Hk Hf] [A1 A2 A3 A4 A5]. destruct (same_table_sum _ _ Ht) as [S1 S2].
  split; rewrite ?Hc, ?Hb, ?Hm1, ?Hm2, ?Hk, ?Hf, ?S1, ?S2; try done.
  intros Hne. destruct (A5 Hne) as (s & e & He & Hl & Hek & Hef).
  destruct (same_table_lookup_r _ _ _ _ Ht He) as (e' & He' & Hs). exists s, e'.
  rewrite (same_entry_live _ _ Hs), (se_key _ _ Hs), (se_function _ _ Hs). done.
Qed.

Lemma same_books_update f s c : keeps f -> same_books c (update_entry s f c).
Proof. intros Hf. split; try done. by apply same_table_alter. Qed.

Lemma alter_lookup_inv {A} (f : A -> A) (l : list A) s k x :
  alter f s l !! k = Some x -> exists y, l !! k = Some y /\ x = if decide (s = k) then f y else y.
Proof.
  rewrite list_lookup_alter. intros H. destruct (decide (s = k)) as [->|]; [|eauto].
  destruct (l !! k); simplify_eq/=. eauto.
Qed.

(** ** Steps that keep the core *)

Lemma dependencies_of_alter f s es e : es !! s = Some e -> forall k,
  dependencies_of (alter f s es) k = owners_upd (dependencies_of es) s (e_dependencies (f e)) k.
Proof.
  intros He k. unfold dependencies_of, owners_upd. rewrite list_lookup_alter.
  destruct (decide (s = k)) as [->|]; [rewrite decide_True, He by done|rewrite decide_False by done]; done.
Qed.
Lemma identities_of_alter f s es e : es !! s = Some e -> forall k,
  identities_of (alter f s es) k = owners_upd (identities_of es) s (e_repatch_dependencies (f e)) k.
Proof.
  intros He k. unfold identities_of, owners_upd. rewrite list_lookup_alter.
  destruct (decide (s = k)) as [->|]; [rewrite decide_True, He by done|rewrite decide_False by done]; done.
Qed.

Lemma core_alter outside ns es db rb db' rb' f s e :
  core outside ns es db rb -> es !! s = Some e -> keeps f ->
  index_ok dependency_hash db' (owners_upd (dependencies_of es) s (e_dependencies (f e))) ->
  index_ok identity_hash rb' (owners_upd (identities_of es) s (e_repatch_dependencies (f e))) ->
  (e_live e = false -> e_dependencies (f e) = [] /\ e_repatch_dependencies (f e) = []) ->
  core outside ns (alter f s es) db' rb'.
Proof.
  intros [Ht Hn Ho Hh Hout Hd Hr Hdead] He Hf Hd' Hr' Hnl. pose proof (same_table_alter f s es Hf) as Hst.
  split; try done.
  - by eapply same_table_ok.
  - intros k x Hx Hl. destruct (same_table_lookup _ _ _ _ Hst Hx) as (y & Hy & Hs).
    rewrite (same_entry_live _ _ Hs) in Hl. rewrite (se_function _ _ Hs), (se_code_size _ _ Hs). eauto.
  - intros s1 s2 e1 e2 H1 H2 Hl1 Hl2. destruct (same_table_lookup _ _ _ _ Hst H1) as (y1 & Hy1 & Hs1).
    destruct (same_table_lookup _ _ _ _ Hst H2) as (y2 & Hy2 & Hs2).
    rewrite (same_entry_live _ _ Hs1) in Hl1. rewrite (same_entry_live _ _ Hs2) in Hl2.
    rewrite (se_function _ _ Hs1), (se_function _ _ Hs2). eauto.
  - intros g n Hg. destruct (Hh g n Hg) as [|(k & x & Hx & Hl & Hfx)]; [by left|right].
    destruct (same_table_lookup_r _ _ _ _ Hst Hx) as (x' & Hx' & Hs). exists k, x'.
    rewrite (same_entry_live _ _ Hs), (se_function _ _ Hs). done.
  - eapply index_ok_ext; [|exact Hd']. by apply dependencies_of_alter.
  - eapply index_ok_ext; [|exact Hr']. by apply identities_of_alter.
  - intros k x (y & Hy & ->)%alter_lookup_inv Hl. case_decide; [subst|eauto]. simplify_eq.
    rewrite (same_entry_live _ _ (Hf e)) in Hl. auto.
Qed.

(** Rewriting the sites of a live function. *)
Lemma core_native outside ns es db rb s e n n' :
  core outside ns es db rb -> es !! s = Some e -> e_live e = true -> ns !! e_function e = Some n ->
  nf_code_size n' = nf_code_size n -> core outside (<[e_function e := n']> ns) es db rb.
Proof.
  intros [Ht Hn Ho Hh Hout Hd Hr Hdead] He Hl Hns Hsz. split; try done.
  - intros k x Hx Hlx. destruct (Hn k x Hx Hlx) as (H0 & H1 & m & Hm & Hms & Hm0). split; [done|]. split; [done|].
    destruct (decide (e_function x = e_function e)) as [Heq|Hne].
    + rewrite Heq, lookup_insert_eq. eexists. split; [done|]. assert (k = s) as -> by (eapply (Ho k s x e); eauto).
      simplify_eq. split; [congruence|done].
    + rewrite lookup_insert_ne by done. eauto.
  - intros f m Hf. rewrite lookup_insert in Hf. case_decide; [subst; right; eauto|eauto].
  - intros f m Hf. destruct (Hn s e He Hl) as (_ & Hout' & _). rewrite lookup_insert_ne; [eauto|congruence].
Qed.

Section Steps.
Context (outside : gmap Z TurboJSNativeFunction).
Notation cache_core := (cache_core outside).

Lemma keeps_set_dependencies l : keeps (e_set_dependencies l).
Proof. done. Qed.
Lemma keeps_set_repatch l : keeps (e_set_repatch_dependencies l).
Proof. done. Qed.
Lemma keeps_touch stamp : keeps (e_touch stamp).
Proof. done. Qed.
Lemma keeps_set_handle h k i : keeps (e_set_handle h k i).
Proof. done. Qed.

Lemma core_own_dependencies c s e : cache_core c -> c_entries c !! s = Some e ->
  index_ok dependency_hash (c_dependency_buckets c) (owners_upd (dependencies_of (c_entries c)) s (e_dependencies e)) /\
  index_ok identity_hash (c_repatch_buckets c) (owners_upd (identities_of (c_entries c)) s (e_repatch_dependencies e)).
Proof.
  intros Hc He. split.
  - eapply index_ok_ext; [|apply (co_dependencies _ _ _ _ _ Hc)]. intros k.
    assert (dependencies_of (c_entries c) s = e_dependencies e) as <- by (unfold dependencies_of; by rewrite He). apply owners_upd_same.
  - eapply index_ok_ext; [|apply (co_identities _ _ _ _ _ Hc)]. intros k.
    assert (identities_of (c_entries c) s = e_repatch_dependencies e) as <- by (unfold identities_of; by rewrite He). apply owners_upd_same.
Qed.

Lemma unregister_dependencies_step c s :
  cache_core c -> cache_core (unregister_entry_dependencies s c) /\ same_books c (unregister_entry_dependencies s c).
Proof.
  intros Hc. unfold unregister_entry_dependencies. destruct (c_entries c !! s) as [e|] eqn:He; [|by split].
  split; [|split; try done; by apply same_table_alter].
  eapply core_alter; [exact Hc|exact He|done| | |].
  - apply index_unlink_all; [apply Hc|]. unfold dependencies_of. simpl. by rewrite He.
  - exact (proj2 (core_own_dependencies c s e Hc He)).
  - intros Hl. by destruct (co_dead _ _ _ _ _ Hc s e He Hl).
Qed.

Lemma unregister_identities_step c s :
  cache_core c ->
  cache_core (unregister_entry_repatch_dependencies s c) /\ same_books c (unregister_entry_repatch_dependencies s c).
Proof.
  intros Hc. unfold unregister_entry_repatch_dependencies. destruct (c_entries c !! s) as [e|] eqn:He; [|by split].
  split; [|split; try done; by apply same_table_alter].
  eapply core_alter; [exact Hc|exact He|done| | |].
  - exact (proj1 (core_own_dependencies c s e Hc He)).
  - apply index_unlink_all; [apply Hc|]. unfold identities_of. simpl. by rewrite He.
  - intros Hl. by destruct (co_dead _ _ _ _ _ Hc s e He Hl).
Qed.

(** The slot after an unregistration. *)
Lemma unregister_dependencies_slot c s e :
  c_entries c !! s = Some e ->
  c_entries (unregister_entry_dependencies s c) = alter (e_set_dependencies []) s (c_entries c) /\
  v_natives (unregister_entry_dependencies s c) = v_natives c.
Proof. intros He. unfold unregister_entry_dependencies. by rewrite He. Qed.
Lemma unregister_identities_slot c s e :
  c_entries c !! s = Some e ->
  c_entries (unregister_entry_repatch_dependencies s c) = alter (e_set_repatch_dependencies []) s (c_entries c) /\
  v_natives (unregister_entry_repatch_dependencies s c) = v_natives c.
Proof. intros He. unfold unregister_entry_repatch_dependencies. by rewrite He. Qed.

(** What a registration leaves in its slot. *)
Definition registered (c c' : TurboJSCodeCache) (s : nat) (ok : bool) : Prop :=
  v_natives c' = v_natives c /\
  (forall k, k <> s -> c_entries c' !! k = c_entries c !! k) /\
  (ok = true -> forall e, c_entries c' !! s = Some e -> forall t, t ∈ map cs_target (sites_of c s) -> t <> 0 -> t ∈ e_dependencies e).

Lemma register_identities_step mem c s e c' ok :
  cache_core c -> c_entries c !! s = Some e -> e_live e = true ->
  register_entry_repatch_dependencies mem s c = (c', ok) ->
  cache_core c' /\ same_books c c' /\ v_natives c' = v_natives c /\
  (forall k, k <> s -> c_entries c' !! k = c_entries c !! k) /\ dependencies_of (c_entries c') s = e_dependencies e.
Proof.
  intros Hc He Hl. unfold register_entry_repatch_dependencies.
  destruct (unregister_identities_step c s Hc) as [Hc1 Hb1]. destruct (unregister_identities_slot c s e He) as [Hes1 Hns1].
  set (c1 := unregister_entry_repatch_dependencies s c) in *.
  assert (He1 : c_entries c1 !! s = Some (e_set_repatch_dependencies [] e)) by (rewrite Hes1, list_lookup_alter_eq, He; done).
  destruct (register_nodes _ _ _ _ _ _ _) as [[[own b] n] ok1] eqn:Hr.
  destruct (index_register identity_hash identity_hash_ok _ _ _ _ _ (identities_of (c_entries c1)) _ _ _ _ _
    (co_identities _ _ _ _ _ Hc1) ltac:(unfold identities_of; by rewrite He1) Hr) as (Hix & _).
  set (c2 := c_bump _ _ _).
  assert (Hc2 : cache_core c2).
  { eapply core_alter; [exact Hc1|exact He1|done| |exact Hix|intros Hx; change (e_live e = false) in Hx; congruence].
    exact (proj1 (core_own_dependencies c1 s _ Hc1 He1)). }
  assert (Hes2 : c_entries c2 = alter (e_set_repatch_dependencies own) s (c_entries c1)) by done.
  assert (Hb2 : same_books c c2) by (etransitivity; [exact Hb1|]; split; try done; by apply same_table_alter).
  assert (He2 : c_entries c2 !! s = Some (e_set_repatch_dependencies own e)).
  { rewrite Hes2, list_lookup_alter_eq, He1. done. }
  assert (Hk2 : forall k, k <> s -> c_entries c2 !! k = c_entries c !! k).
  { intros k Hk. rewrite Hes2, Hes1, !list_lookup_alter_ne by congruence. done. }
  destruct ok1; intros [= <- <-].
  - split_and!; try done. unfold dependencies_of. by rewrite He2.
  - destruct (unregister_identities_step c2 s Hc2) as [Hc3 Hb3]. destruct (unregister_identities_slot c2 s _ He2) as [Hes3 Hns3].
    split_and!; try done; [by etransitivity|etransitivity; [exact Hns3|exact Hns1]| |].
    + intros k Hk. rewrite Hes3, list_lookup_alter_ne by congruence. auto.
    + unfold dependencies_of. rewrite Hes3, list_lookup_alter_eq, He2. done.
Qed.

Lemma register_step mem c s e c' ok :
  cache_core c -> c_entries c !! s = Some e -> e_live e = true -> register_entry_dependencies mem s c = (c', ok) ->
  cache_core c' /\ same_books c c' /\ registered c c' s ok.
Proof.
  intros Hc He Hl. unfold register_entry_dependencies.
  destruct (unregister_dependencies_step c s Hc) as [Hc1 Hb1]. destruct (unregister_dependencies_slot c s e He) as [Hes1 Hns1].
  set (c1 := unregister_entry_dependencies s c) in *.
  assert (He1 : c_entries c1 !! s = Some (e_set_dependencies [] e)) by (rewrite Hes1, list_lookup_alter_eq, He; done).
  assert (Hsites : sites_of c1 s = sites_of c s) by (unfold sites_of; rewrite He1, He, Hns1; done).
  destruct (register_nodes _ _ _ _ _ _ _) as [[[own b] n] ok1] eqn:Hr.
  destruct (index_register dependency_hash dependency_hash_ok _ _ _ _ _ (dependencies_of (c_entries c1)) _ _ _ _ _
    (co_dependencies _ _ _ _ _ Hc1) ltac:(unfold dependencies_of; by rewrite He1) Hr) as (Hix & _ & _ & Hcov).
  set (c2 := c_bump _ _ _).
  assert (Hc2 : cache_core c2).
  { eapply core_alter; [exact Hc1|exact He1|done|exact Hix| |intros Hx; change (e_live e = false) in Hx; congruence].
    exact (proj2 (core_own_dependencies c1 s _ Hc1 He1)). }
  assert (Hes2 : c_entries c2 = alter (e_set_dependencies own) s (c_entries c1)) by done.
  assert (Hb2 : same_books c c2) by (etransitivity; [exact Hb1|]; split; try done; by apply same_table_alter).
  assert (He2 : c_entries c2 !! s = Some (e_set_dependencies own e)) by (rewrite Hes2, list_lookup_alter_eq, He1; done).
  assert (Hk2 : forall k, k <> s -> c_entries c2 !! k = c_entries c !! k).
  { intros k Hk. rewrite Hes2, Hes1, !list_lookup_alter_ne by congruence. done. }
  assert (Hfail : forall c3, cache_core c3 -> same_books c c3 -> v_natives c3 = v_natives c ->
    (forall k, k <> s -> c_entries c3 !! k = c_entries c !! k) -> forall e3, c_entries c3 !! s = Some e3 ->
    let c4 := unregister_entry_dependencies s c3 in cache_core c4 /\ same_books c c4 /\ registered c c4 s false).
  { intros c3 Hc3 Hb3 Hn3 Hk3 e3 He3 c4. destruct (unregister_dependencies_step c3 s Hc3) as [Hc4 Hb4].
    destruct (unregister_dependencies_slot c3 s e3 He3) as [Hes4 Hns4]. split; [done|]. split; [by etransitivity|].
    split_and!; [unfold c4; congruence| |done]. intros k Hk. unfold c4. rewrite Hes4, list_lookup_alter_ne by congruence. auto. }
  destruct ok1; cbn [negb]; [|intros [= <- <-]; by eapply Hfail].
  destruct (register_entry_repatch_dependencies mem s c2) as [c3 ok2] eqn:Hr2.
  destruct (register_identities_step mem c2 s _ c3 ok2 Hc2 He2 Hl Hr2) as (Hc3 & Hb3 & Hn3 & Hk3 & Hd3).
  assert (He3 : exists e3, c_entries c3 !! s = Some e3).
  { destruct (same_table_lookup_r _ _ _ _ (sb_table _ _ Hb3) He2) as (e3 & ? & _). eauto. }
  destruct He3 as [e3 He3]. destruct ok2; intros [= <- <-].
  - split; [done|]. split; [by etransitivity|]. split_and!; [etransitivity; [exact Hn3|exact Hns1]| |].
    + intros k Hk. rewrite Hk3 by done. auto.
    + intros _ e4 He4 t Ht Hne. unfold dependencies_of in Hd3. rewrite He4 in Hd3. rewrite Hd3. apply Hcov; [done| |done].
      by rewrite Hsites.
  - eapply Hfail; [done|by etransitivity|etransitivity; [exact Hn3|exact Hns1]| |exact He3]. intros k Hk. rewrite Hk3 by done. auto.
Qed.

(** ** Invalidating call sites *)

Definition calmed_site (t : Z) (x y : TurboJSClutchCallSite) : Prop := y = x \/ y = invalidate_site t x.
Record calmed (t : Z) (n n' : TurboJSNativeFunction) : Prop := {
  cm_code : n' = nf_set_sites n (nf_owned_clutch_sites n');
  cm_sites : Forall2 (calmed_site t) (nf_owned_clutch_sites n) (nf_owned_clutch_sites n')
}.
(** The heap, with some sites of [t] invalidated. *)
Definition calm (t : Z) (ns ns' : gmap Z TurboJSNativeFunction) : Prop :=
  forall f, option_Forall2 (calmed t) (ns !! f) (ns' !! f).

Lemma invalidate_site_target t x : t <> 0 -> cs_target (invalidate_site t x) <> t.
Proof. intros Ht. unfold invalidate_site. destruct (Z.eqb_spec (cs_target x) t); simpl; congruence. Qed.

Lemma calmed_site_trans t x y z : t <> 0 -> calmed_site t x y -> calmed_site t y z -> calmed_site t x z.
Proof.
  intros Ht [->| ->] [->| ->]; unfold calmed_site; auto. right. unfold invalidate_site at 1.
  rewrite (proj2 (Z.eqb_neq _ _)); [done|]. by apply invalidate_site_target.
Qed.

Lemma calmed_refl t n : calmed t n n.
Proof. split; [by destruct n|]. apply Forall_Forall2_diag, Forall_true. by left. Qed.

Lemma calm_refl t ns : calm t ns ns.
Proof. intros f. destruct (ns !! f); constructor. apply calmed_refl. Qed.

Lemma calm_trans t ns1 ns2 ns3 : t <> 0 -> calm t ns1 ns2 -> calm t ns2 ns3 -> calm t ns1 ns3.
Proof.
  intros Ht H1 H2 f. specialize (H1 f). specialize (H2 f).
  destruct (ns1 !! f) as [n1|], (ns2 !! f) as [n2|], (ns3 !! f) as [n3|]; inversion H1; inversion H2; constructor.
  subst. repeat match goal with H : calmed _ _ _ |- _ => destruct H end.
  split; [match goal with H2 : ?b = nf_set_sites ?a _, H3 : ?c = nf_set_sites ?b _ |- ?c = _ => rewrite H3, H2; done end|].
  eapply Forall2_trans; [|done|done]. intros. by eapply calmed_site_trans.
Qed.

Lemma calm_lookup t ns ns' f n' : calm t ns ns' -> ns' !! f = Some n' -> exists n, ns !! f = Some n /\ calmed t n n'.
Proof. intros H Hn. specialize (H f). rewrite Hn in H. inversion H. eauto. Qed.

(** Calming adds no targets and keeps [t] away. *)
Lemma calmed_targets t n n' x :
  calmed t n n' -> x ∈ nf_owned_clutch_sites n' -> cs_target x <> 0 -> exists y, y ∈ nf_owned_clutch_sites n /\ cs_target x = cs_target y.
Proof.
  intros [_ Hs] Hx Hne. apply list_elem_of_lookup in Hx as [i Hi]. destruct (Forall2_lookup_r _ _ _ _ _ Hs Hi) as (y & Hy & Hc).
  exists y. split; [by eapply list_elem_of_lookup_2|]. destruct Hc as [->| ->]; [done|].
  unfold invalidate_site in *. by destruct (_ =? _).
Qed.

Definition avoids (t : Z) (n : TurboJSNativeFunction) : Prop := Forall (fun x => cs_target x <> t) (nf_owned_clutch_sites n).

Lemma calmed_avoids t n n' : t <> 0 -> calmed t n n' -> avoids t n -> avoids t n'.
Proof.
  intros Ht [_ Hs] Ha. apply Forall_lookup. intros i x Hi. destruct (Forall2_lookup_r _ _ _ _ _ Hs Hi) as (y & Hy & Hc).
  eapply Forall_lookup_1 in Ha; [|exact Hy]. destruct Hc as [->| ->]; [done|]. by apply invalidate_site_target.
Qed.

(** Everything but the function objects, the counters and the handles. *)
Definition same_frame (c c' : TurboJSCodeCache) : Prop :=
  c_entries c' = c_entries c /\ c_dependency_buckets c' = c_dependency_buckets c /\ c_repatch_buckets c' = c_repatch_buckets c /\
  c_count c' = c_count c /\ c_code_bytes c' = c_code_bytes c /\ c_maximum_entries c' = c_maximum_entries c /\
  c_maximum_code_bytes c' = c_maximum_code_bytes c /\ c_last_key c' = c_last_key c /\ c_last_function c' = c_last_function c /\
  c_clock c' = c_clock c.

Lemma same_frame_trans c1 c2 c3 : same_frame c1 c2 -> same_frame c2 c3 -> same_frame c1 c3.
Proof. unfold same_frame. intuition congruence. Qed.

Lemma same_frame_books c c' : same_frame c c' -> same_books c c'.
Proof. intros (He & _ & _ & ? & ? & ? & ? & ? & ? & _). split; try done. by rewrite He. Qed.

Lemma invalidate_node_step t c node :
  t <> 0 -> cache_core c ->
  let c' := invalidate_node t c node in
  cache_core c' /\ same_frame c c' /\ v_handles c' = v_handles c /\ calm t (v_natives c) (v_natives c') /\
  (node.1 = t -> forall e n, c_entries c !! node.2 = Some e -> e_live e = true -> v_natives c' !! e_function e = Some n -> avoids t n).
Proof.
  intros Ht Hc c'. unfold c', invalidate_node. destruct (c_entries c !! node.2) as [e|] eqn:He.
  2: { split_and!; try done. apply calm_refl. }
  destruct ((node.1 =? t) && e_live e) eqn:Hm.
  2: { split_and!; try done; [apply calm_refl|].
       intros Hnt e' n [= <-] Hl. rewrite Hnt, Z.eqb_refl, Hl in Hm. done. }
  b2p. destruct (v_natives c !! e_function e) as [n|] eqn:Hn.
  2: { destruct (co_native _ _ _ _ _ Hc _ _ He) as (_ & _ & n & Hn' & _); [done|congruence]. }
  simpl. set (n' := nf_set_sites n _).
  assert (Hcalm : calm t (v_natives c) (<[e_function e := n']> (v_natives c))).
  { intros f. rewrite lookup_insert. case_decide; [subst; rewrite Hn; constructor|destruct (_ !! f); constructor; apply calmed_refl].
    split; try done. simpl. apply Forall2_fmap_r, Forall_Forall2_diag, Forall_true. by right. }
  assert (Hav : avoids t n').
  { apply Forall_forall. intros x (y & -> & _)%list_elem_of_fmap. by apply invalidate_site_target. }
  assert (Hcore : core outside (<[e_function e := n']> (v_natives c)) (c_entries c) (c_dependency_buckets c) (c_repatch_buckets c))
    by (by eapply core_native).
  destruct (e_cache_kind e =? 1); (split_and!; try done); intros _ e' m [= <-] _; simpl; rewrite lookup_insert_eq; by intros [= <-].
Qed.

Lemma invalidate_nodes_step t : forall nodes c,
  t <> 0 -> cache_core c ->
  let c' := foldl (invalidate_node t) c nodes in
  cache_core c' /\ same_frame c c' /\ v_handles c' = v_handles c /\ calm t (v_natives c) (v_natives c') /\
  (forall s e n, (t, s) ∈ nodes -> c_entries c !! s = Some e -> e_live e = true -> v_natives c' !! e_function e = Some n -> avoids t n).
Proof.
  induction nodes as [|node nodes IH]; intros c Ht Hc c'.
  - split_and!; try done; [apply calm_refl|]. intros s e n Hin. by apply list_elem_of_In in Hin.
  - destruct (invalidate_node_step t c node Ht Hc) as (Hc1 & Hf1 & Hh1 & Hca1 & Hav1).
    destruct (IH _ Ht Hc1) as (Hc2 & Hf2 & Hh2 & Hca2 & Hav2). unfold c'. simpl.
    split_and!; [done|by eapply same_frame_trans|congruence|by eapply calm_trans|].
    intros s e n Hin He Hl Hn. apply elem_of_cons in Hin as [Heq|Hin].
    + destruct (calm_lookup _ _ _ _ _ Hca2 Hn) as (n1 & Hn1 & Hcm). eapply calmed_avoids; [done|exact Hcm|].
      eapply Hav1; [by rewrite <-Heq| |done|exact Hn1]. by rewrite <-Heq.
    + eapply (Hav2 s e); eauto. by rewrite (proj1 Hf1).
Qed.

Lemma invalidate_indexed_step t c :
  t <> 0 -> cache_core c ->
  let c' := invalidate_indexed_dependents t c in
  cache_core c' /\ same_frame c c' /\ v_handles c' = v_handles c /\ calm t (v_natives c) (v_natives c') /\
  (forall s e n, c_entries c !! s = Some e -> e_live e = true -> t ∈ e_dependencies e ->
     v_natives c' !! e_function e = Some n -> avoids t n).
Proof.
  intros Ht Hc c'. pose proof (co_dependencies _ _ _ _ _ Hc) as Hix. pose proof (power_of_two_pos _ (ix_size _ _ _ Hix)) as Hpos.
  unfold c', invalidate_indexed_dependents. rewrite (proj2 (Z.eqb_neq t 0) Ht), (proj2 (Nat.eqb_neq _ 0)) by lia.
  cbn [orb]. destruct (invalidate_nodes_step t (default [] (c_dependency_buckets c !! bucket_of dependency_hash (c_dependency_buckets c) t))
    (c_bump reverse_dependency_lookups 1 c) Ht Hc) as (H1 & H2 & H3 & H4 & H5).
  split_and!; try done. intros s e n He Hl Hin Hn.
  destruct (ix_complete _ _ _ Hix s t) as (bk & Hbk & Hx); [unfold dependencies_of; by rewrite He|].
  eapply (H5 s e); eauto. rewrite Hbk. exact Hx.
Qed.

Lemma retract_step e c :
  cache_core c ->
  let c' := retract_handle e c in
  cache_core c' /\ same_frame c c' /\ calm (e_entry_handle e) (v_natives c) (v_natives c').
Proof.
  intros Hc c'. unfold c', retract_handle. destruct (_ && _) eqn:Hb; [|split_and!; try done; apply calm_refl]. b2p.
  destruct (invalidate_indexed_step (e_entry_handle e) c) as (K1 & K2 & K3 & K4 & _); [done|done|].
  split_and!; done.
Qed.

Lemma core_kill ns es db rb s e :
  core outside ns es db rb -> es !! s = Some e -> e_live e = true -> e_dependencies e = [] -> e_repatch_dependencies e = [] ->
  core outside (delete (e_function e) ns) (alter tombstone_entry s es) db rb.
Proof.
  intros [Ht Hn Ho Hh Hout Hd Hr Hdead] He Hl Hd0 Hr0. apply lookup_lt_Some in He as Hlt.
  assert (Hes : alter tombstone_entry s es = <[s := tombstone_entry e]> es).
  { apply list_eq. intros k. rewrite list_lookup_alter, list_lookup_insert. repeat case_decide; subst; try rewrite He; naive_solver. }
  assert (Hget : forall k x, alter tombstone_entry s es !! k = Some x -> e_live x = true -> k <> s /\ es !! k = Some x).
  { intros k x (y & Hy & ->)%alter_lookup_inv Hlx. case_decide; [done|]. split; [congruence|done]. }
  split.
  - rewrite Hes. eapply table_ok_insert; [done|exact He|done|simpl; auto|done].
  - intros k x Hx Hlx. destruct (Hget k x Hx Hlx) as [Hk Hx']. destruct (Hn k x Hx' Hlx) as (H0 & H1 & n & Hnx & Hsz).
    split; [done|]. split; [done|]. exists n. split; [|done]. rewrite lookup_delete_ne; [done|].
    intros Heq. apply Hk. eapply (Ho k s x e); eauto.
  - intros s1 s2 e1 e2 H1 H2 Hl1 Hl2. destruct (Hget _ _ H1 Hl1), (Hget _ _ H2 Hl2). eauto.
  - intros f n Hf. rewrite lookup_delete in Hf. case_decide; [done|]. destruct (Hh f n Hf) as [|(k & x & Hx & Hlx & Hfx)]; [by left|].
    right. exists k, x. split; [|done]. rewrite list_lookup_alter_ne; [done|]. intros ->. simplify_eq.
  - intros f n Hf. destruct (Hn s e He Hl) as (_ & Hno & _). rewrite lookup_delete_ne; [eauto|congruence].
  - eapply index_ok_ext; [|exact Hd]. intros k. rewrite (dependencies_of_alter _ _ _ _ He). simpl. rewrite Hd0.
    unfold owners_upd, dependencies_of. case_decide; [subst; by rewrite He|done].
  - eapply index_ok_ext; [|exact Hr]. intros k. rewrite (identities_of_alter _ _ _ _ He). simpl. rewrite Hr0.
    unfold owners_upd, identities_of. case_decide; [subst; by rewrite He|done].
  - intros k x (y & Hy & ->)%alter_lookup_inv Hlx. case_decide; [subst; simplify_eq; by simpl|eauto].
Qed.

(** The state of a slot after its removal. *)
Definition removed_table (s : nat) (es : list TurboJSCodeCacheEntry) : list TurboJSCodeCacheEntry :=
  alter tombstone_entry s (alter (e_set_repatch_dependencies []) s (alter (e_set_dependencies []) s es)).

Record removed_step (s : nat) (e : TurboJSCodeCacheEntry) (c c' : TurboJSCodeCache) : Prop := {
  rm_core : cache_core c';
  rm_entries : c_entries c' = removed_table s (c_entries c);
  rm_count : c_count c' = c_count c - 1;
  rm_bytes : c_code_bytes c' = uwrap 64 (c_code_bytes c - e_code_size e);
  rm_limits : c_maximum_entries c' = c_maximum_entries c /\ c_maximum_code_bytes c' = c_maximum_code_bytes c;
  rm_last : (c_last_key c = e_key e /\ c_last_key c' = 0 /\ c_last_function c' = 0) \/
            (c_last_key c <> e_key e /\ c_last_key c' = c_last_key c /\ c_last_function c' = c_last_function c);
  rm_natives : calm (e_entry_handle e) (delete (e_function e) (v_natives c)) (v_natives c');
  rm_clock : c_clock c' = c_clock c
}.

Lemma calm_delete t ns ns' f : calm t ns ns' -> calm t (delete f ns) (delete f ns').
Proof. intros H g. rewrite !lookup_delete. case_decide; [constructor|apply H]. Qed.

Lemma remove_slot_step s ev e c :
  cache_core c -> c_entries c !! s = Some e -> e_live e = true -> removed_step s e c (remove_slot s ev c).
Proof.
  intros Hc He Hl. unfold remove_slot. rewrite He, Hl. cbn [negb].
  set (c1 := c_set_totals _ _ c). set (c2 := if _ =? e_key e then _ else _).
  assert (Hc2 : cache_core c2) by (unfold c2; by destruct (_ =? _)).
  destruct (retract_step e c2 Hc2) as (Hc3 & Hf3 & Hca3). set (c3 := retract_handle e c2) in *.
  assert (He2 : c_entries c2 = c_entries c) by (unfold c2; by destruct (_ =? _)).
  assert (Hn2 : v_natives c2 = v_natives c) by (unfold c2; by destruct (_ =? _)).
  assert (He3 : c_entries c3 = c_entries c) by (rewrite (proj1 Hf3); exact He2).
  destruct (unregister_dependencies_step c3 s Hc3) as [Hc4 Hb4].
  destruct (unregister_dependencies_slot c3 s e ltac:(by rewrite He3)) as [Hes4 Hns4].
  set (c4 := unregister_entry_dependencies s c3) in *.
  assert (He4 : c_entries c4 !! s = Some (e_set_dependencies [] e)) by (by rewrite Hes4, list_lookup_alter_eq, He3, He).
  destruct (unregister_identities_step c4 s Hc4) as [Hc5 Hb5]. destruct (unregister_identities_slot c4 s _ He4) as [Hes5 Hns5].
  set (c5 := unregister_entry_repatch_dependencies s c4) in *.
  assert (He5 : c_entries c5 !! s = Some (e_set_repatch_dependencies [] (e_set_dependencies [] e))).
  { by rewrite Hes5, list_lookup_alter_eq, He4. }
  pose proof (core_kill _ _ _ _ _ _ Hc5 He5 Hl eq_refl eq_refl) as Hkill. simpl in Hkill.
  assert (Hb : same_books c2 c5) by (etransitivity; [by apply same_frame_books|]; by etransitivity).
  assert (Hclk : c_clock c5 = c_clock c).
  { transitivity (c_clock c4); [unfold c5, unregister_entry_repatch_dependencies; by rewrite He4|].
    transitivity (c_clock c3); [unfold c4, unregister_entry_dependencies; by rewrite He3, He|].
    destruct Hf3 as (_&_&_&_&_&_&_&_&_&->). unfold c2. by destruct (_ =? _). }
  match goal with |- removed_step _ _ _ ?c' => set (c6 := c') end.
  assert (H6 : v_natives c6 = delete (e_function e) (v_natives c5) /\ c_entries c6 = alter tombstone_entry s (c_entries c5) /\
    c_dependency_buckets c6 = c_dependency_buckets c5 /\ c_repatch_buckets c6 = c_repatch_buckets c5 /\
    c_count c6 = c_count c5 - 1 /\ c_code_bytes c6 = c_code_bytes c5 /\ c_maximum_entries c6 = c_maximum_entries c5 /\
    c_maximum_code_bytes c6 = c_maximum_code_bytes c5 /\ c_last_key c6 = c_last_key c5 /\
    c_last_function c6 = c_last_function c5 /\ c_clock c6 = c_clock c5).
  { unfold c6. destruct ev, (e_cache_kind e =? 1); split_and!; reflexivity. }
  destruct H6 as (N1 & N2 & N3 & N4 & N5 & N6 & N7 & N8 & N9 & N10 & N11). destruct Hb as [_ B1 B2 B3 B4 B5 B6].
  split.
  - unfold VaultInv.cache_core. rewrite N1, N2, N3, N4. exact Hkill.
  - by rewrite N2, Hes5, Hes4, He3.
  - rewrite N5, B1. unfold c2. by destruct (_ =? _).
  - rewrite N6, B2. unfold c2. by destruct (_ =? _).
  - rewrite N7, N8, B3, B4. unfold c2. by destruct (_ =? _).
  - rewrite N9, N10, B5, B6. unfold c2. destruct (Z.eqb_spec (c_last_key c1) (e_key e)); [left|right]; done.
  - rewrite N1, Hns5, Hns4, <-Hn2. by apply calm_delete.
  - by rewrite N11.
Qed.
End Steps.
