(* ===== verification/VaultOps.v ===== *)
(** * The operations of the Vault

    Every operation keeps the invariant of [VaultInv], and its effect on the
    abstract cache (the map from keys to functions) is the expected one up to
    evictions.  Compiling into a cache with room for the code never fails for
    lack of space. *)

From stdpp Require Import gmap.
From S2P Require Import Prelude.
From S2P Require Import JitTypes.
From S2P Require Import Clutch.
From S2P Require Import Vault.
From S2P Require Import VaultTable.
From S2P Require Import VaultIndex.
From S2P Require Import VaultInv.

(** ** Removal *)

Lemma removed_table_other s es k : k <> s -> removed_table s es !! k = es !! k.
Proof. intros Hk. unfold removed_table. rewrite !list_lookup_alter_ne by congruence. done. Qed.

Lemma removed_table_slot s es e :
  es !! s = Some e -> exists x, removed_table s es !! s = Some x /\ e_live x = false.
Proof. intros He. unfold removed_table. rewrite !list_lookup_alter_eq, He. simpl. eauto. Qed.

Lemma removed_table_length s es : length (removed_table s es) = length es.
Proof. unfold removed_table. by rewrite !length_alter. Qed.

Lemma removed_table_sum g s es e :
  (forall e, weight g (e_set_dependencies [] e) = weight g e) ->
  (forall e, weight g (e_set_repatch_dependencies [] e) = weight g e) ->
  es !! s = Some e -> live_sum g (removed_table s es) = live_sum g es - weight g e.
Proof.
  intros H1 H2 He. unfold removed_table.
  rewrite (live_sum_alter g tombstone_entry _ s (e_set_repatch_dependencies [] (e_set_dependencies [] e))).
  - rewrite !live_sum_keep by done. rewrite H2, H1. unfold weight at 2. simpl. lia.
  - by rewrite !list_lookup_alter_eq, He.
Qed.

Definition forget (e : TurboJSCodeCacheEntry) (m : gmap Z Z) : gmap Z Z :=
  if e_cache_kind e =? 0 then delete (e_key e) m else m.

Lemma removed_contents s es e :
  table_ok es -> table_ok (removed_table s es) -> es !! s = Some e -> e_live e = true ->
  contents (removed_table s es) = forget e (contents es).
Proof.
  intros Ht Ht' He Hl. destruct (removed_table_slot s es e He) as (x & Hx & Hxl).
  assert (Hkey : forall k f, contents (removed_table s es) !! k = Some f <-> contents es !! k = Some f /\ ~ (e_cache_kind e = 0 /\ k = e_key e)).
  { intros k f. rewrite !contents_spec by done. split.
    - intros (k' & y & Hy & Hly & Hky & <- & <-). assert (k' <> s) by (intros ->; congruence).
      rewrite removed_table_other in Hy by done. split; [eauto 10|]. intros [Hk0 Heq].
      assert (k' = s); [|done]. eapply (t_unique _ Ht k' s y e); eauto.
      destruct (t_kind _ Ht k' y Hy Hly) as [(_ & ? & _)|[? _]]; congruence.
    - intros [(k' & y & Hy & Hly & Hky & <- & <-) Hne]. exists k', y.
      rewrite removed_table_other; [eauto 10|]. intros ->. simplify_eq. naive_solver. }
  unfold forget. apply map_eq. intros k. apply option_eq. intros f. rewrite Hkey.
  destruct (Z.eqb_spec (e_cache_kind e) 0) as [H0|H0].
  - rewrite lookup_delete_Some. naive_solver.
  - naive_solver.
Qed.

Section Operations.
Context (outside : gmap Z TurboJSNativeFunction).

Lemma code_sizes_nonneg c : cache_core outside c -> forall s e, c_entries c !! s = Some e -> e_live e = true -> 0 <= e_code_size e.
Proof. intros Hc s e He Hl. by destruct (co_native _ _ _ _ _ Hc s e He Hl) as (_ & _ & n & _ & _ & ?). Qed.

Lemma remove_slot_ok s ev e c :
  vault_ok outside c -> c_entries c !! s = Some e -> e_live e = true ->
  vault_ok outside (remove_slot s ev c) /\ removed_step outside s e c (remove_slot s ev c) /\
  contents (c_entries (remove_slot s ev c)) = forget e (contents (c_entries c)).
Proof.
  intros [Hc Ha] He Hl. pose proof (remove_slot_step outside s ev e c Hc He Hl) as Hr. set (c' := remove_slot s ev c) in *.
  assert (Ht' : table_ok (removed_table s (c_entries c))) by (rewrite <-(rm_entries _ _ _ _ _ Hr); apply (rm_core _ _ _ _ _ Hr)).
  split; [|split; [done|]].
  2: { rewrite (rm_entries _ _ _ _ _ Hr). apply removed_contents; [apply Hc|done|done|done]. }
  split; [apply Hr|]. destruct Ha as [A1 A2 [A3 A3'] A4 A5]. destruct (rm_limits _ _ _ _ _ Hr) as [L1 L2].
  assert (Hw : weight (fun _ => 1) e = 1 /\ weight e_code_size e = e_code_size e) by (unfold weight; by rewrite Hl).
  assert (Hle : e_code_size e <= live_sum e_code_size (c_entries c)).
  { rewrite <-(proj2 Hw). apply (live_sum_member _ _ s); [by apply code_sizes_nonneg|done]. }
  pose proof (code_sizes_nonneg c Hc s e He Hl) as H0.
  assert (Hbytes : c_code_bytes c' = c_code_bytes c - e_code_size e).
  { rewrite (rm_bytes _ _ _ _ _ Hr). apply uwrap_small. unfold is_u. unfold SIZE_MAX, UINT64_MAX in A4.
    change (2 ^ 64) with 18446744073709551616. lia. }
  split.
  - rewrite (rm_count _ _ _ _ _ Hr), (rm_entries _ _ _ _ _ Hr), (removed_table_sum _ s _ e), (proj1 Hw), A1 by done. done.
  - rewrite Hbytes, (rm_entries _ _ _ _ _ Hr), (removed_table_sum _ s _ e), (proj2 Hw), A2 by done. done.
  - rewrite (rm_count _ _ _ _ _ Hr), L1. lia.
  - rewrite Hbytes, L2. lia.
  - destruct (rm_last _ _ _ _ _ Hr) as [(Hk & -> & _)|(Hk & -> & ->)]; [done|]. intros Hne.
    destruct (A5 Hne) as (k & x & Hx & Hlx & Hkx & Hfx). exists k, x. split; [|done].
    rewrite (rm_entries _ _ _ _ _ Hr), removed_table_other; [done|]. intros ->. congruence.
Qed.

Lemma books_ok c c' : vault_ok outside c -> cache_core outside c' -> same_books c c' -> vault_ok outside c'.
Proof. intros [_ Ha] Hc Hb. split; [done|by eapply same_books_accounts]. Qed.

Lemma bump_ok k n c : vault_ok outside c -> vault_ok outside (c_bump k n c).
Proof. intros Hok. eapply books_ok; [exact Hok|exact (proj1 Hok)|]. split; done. Qed.

(** ** Eviction *)

(** The victim: a live entry no other live entry should go before. *)
Definition worst (c : TurboJSCodeCache) (e : TurboJSCodeCacheEntry) : Prop :=
  forall s x, c_entries c !! s = Some x -> e_live x = true ->
    eviction_score c x < eviction_score c e \/
    (eviction_score c x = eviction_score c e /\ e_stamp e <= e_stamp x).

Lemma find_victim_spec c :
  match find_victim c with
  | Some (i, e) => c_entries c !! i = Some e /\ e_live e = true /\ worst c e
  | None => forall s x, c_entries c !! s = Some x -> e_live x = false
  end.
Proof.
  unfold find_victim, worst. generalize (c_entries c) as es. intros es. induction es as [|y es IH] using rev_ind; [done|].
  rewrite imap_app, foldl_app. simpl. rewrite Nat.add_0_r. set (best := foldl _ _ _) in *.
  assert (Hlast : (es ++ [y]) !! length es = Some y) by (by apply list_lookup_middle).
  assert (Hget : forall s x, (es ++ [y]) !! s = Some x -> es !! s = Some x \/ x = y).
  { intros s x [?|[_ Hx]]%lookup_app_Some; [by left|]. destruct (s - length es)%nat; simpl in Hx; [right; congruence|done]. }
  unfold better_victim. destruct (e_live y) eqn:Hy; cbn [negb].
  - destruct best as [[i w]|].
    + destruct IH as (Hw & Hlw & Hbest). destruct (_ || _) eqn:Hcmp.
      * split; [done|]. split; [done|]. intros s x [Hx| ->]%Hget Hlx; [|lia].
        destruct (Hbest s x Hx Hlx); apply orb_true_iff in Hcmp as [?|?]; b2p; lia.
      * apply orb_false_iff in Hcmp as [C1 C2]. apply Z.ltb_ge in C1. apply andb_false_iff in C2.
        rewrite Z.eqb_neq, Z.ltb_ge in C2. split; [by apply lookup_app_l_Some|]. split; [done|].
        intros s x [Hx| ->]%Hget Hlx; [by eapply Hbest|lia].
    + split; [done|]. split; [done|]. intros s x [Hx| ->]%Hget Hlx; [|lia]. rewrite (IH s x Hx) in Hlx. done.
  - destruct best as [[i w]|].
    + destruct IH as (Hw & Hlw & Hbest). split; [by apply lookup_app_l_Some|]. split; [done|].
      intros s x [Hx| ->]%Hget Hlx; [by eapply Hbest|congruence].
    + intros s x [Hx| ->]%Hget; [by eapply IH|done].
Qed.

(** What evictions may do: drop bindings, and nothing else. *)
Record shrinks (c c' : TurboJSCodeCache) : Prop := {
  sh_ok : vault_ok outside c';
  sh_contents : contents (c_entries c') ⊆ contents (c_entries c);
  sh_slots : length (c_entries c') = length (c_entries c);
  sh_entries : forall s e, c_entries c' !! s = Some e -> e_live e = true -> c_entries c !! s = Some e;
  sh_limits : c_maximum_entries c' = c_maximum_entries c /\ c_maximum_code_bytes c' = c_maximum_code_bytes c
}.

Lemma shrinks_refl c : vault_ok outside c -> shrinks c c.
Proof. done. Qed.

Lemma shrinks_trans c1 c2 c3 : shrinks c1 c2 -> shrinks c2 c3 -> shrinks c1 c3.
Proof.
  intros [_ H2 H3 H6 [H4 H5]] [K1 K2 K3 K6 [K4 K5]]. split; [done|by etransitivity|congruence|eauto|split; congruence].
Qed.

Lemma forget_subseteq e m : forget e m ⊆ m.
Proof. unfold forget. destruct (_ =? _); [apply delete_subseteq|done]. Qed.

Lemma evict_lru_step c :
  vault_ok outside c ->
  match evict_lru c with
  | (c', true) => shrinks c c' /\ c_count c' = c_count c - 1
  | (c', false) => c' = c /\ c_count c = 0
  end.
Proof.
  intros Hok. pose proof (find_victim_spec c) as Hv. unfold evict_lru. destruct (find_victim c) as [[i e]|].
  - destruct Hv as (He & Hl & _). set (c1 := c_bump _ _ c).
    destruct (remove_slot_ok i true e c1 (bump_ok _ _ _ Hok) He Hl) as (Hok' & Hr & Hcon). split; [|apply Hr].
    split; [done| | | |apply Hr].
    + rewrite Hcon. apply forget_subseteq.
    + rewrite (rm_entries _ _ _ _ _ Hr). apply removed_table_length.
    + rewrite (rm_entries _ _ _ _ _ Hr). intros s x Hx Hlx. destruct (decide (s = i)) as [->|].
      * destruct (removed_table_slot i (c_entries c1) e He) as (y & Hy & Hly). congruence.
      * by rewrite removed_table_other in Hx.
  - split; [done|]. rewrite (ac_count _ (proj2 Hok)). clear Hok. induction (c_entries c) as [|x es IH]; [done|].
    unfold live_sum, weight in *. simpl. rewrite (Hv O x eq_refl), IH; [done|]. intros s y Hy. apply (Hv (S s) y Hy).
Qed.

(** Evicting goes on until there is room, or the cache is empty. *)
Lemma evict_until_step code_size : forall fuel c,
  vault_ok outside c -> shrinks c (evict_until fuel code_size c) /\
  (c_count c < Z.of_nat fuel -> c_count (evict_until fuel code_size c) = 0 \/ lacks_room (evict_until fuel code_size c) code_size = false).
Proof.
  induction fuel as [|fuel IH]; intros c Hok; simpl.
  - split; [by apply shrinks_refl|]. rewrite (ac_count _ (proj2 Hok)).
    pose proof (live_sum_bounds (fun _ => 1) (c_entries c) ltac:(done)). lia.
  - destruct (negb (c_count c =? 0) && lacks_room c code_size) eqn:Hgo.
    + pose proof (evict_lru_step c Hok) as He. destruct (evict_lru c) as [c' []].
      * destruct He as [Hs Hcount]. destruct (IH c' (sh_ok _ _ Hs)) as [Hs' Hend]. split; [by eapply shrinks_trans|].
        intros Hf. apply Hend. lia.
      * destruct He as [-> H0]. split; [by apply shrinks_refl|]. auto.
    + split; [by apply shrinks_refl|]. intros _. apply andb_false_iff in Hgo as [H|H]; [left|by right].
      apply negb_false_iff, Z.eqb_eq in H. done.
Qed.

Lemma room_iff c code_size :
  vault_ok outside c ->
  lacks_room c code_size = false <-> c_count c < c_maximum_entries c /\ c_code_bytes c + code_size <= c_maximum_code_bytes c.
Proof.
  intros [Hc [A1 A2 A3 A4 A5]].
  pose proof (live_sum_bounds e_code_size (c_entries c) (code_sizes_nonneg c Hc)) as H0. unfold lacks_room.
  rewrite uwrap_small. 2: { unfold is_u. change (2 ^ 64) with (SIZE_MAX + 1). unfold SIZE_MAX, UINT64_MAX in *. lia. }
  rewrite orb_false_iff, Z.leb_gt, Z.ltb_ge. lia.
Qed.

(** An empty cache has room for code within the byte limit. *)
Lemma empty_room c code_size :
  vault_ok outside c -> c_count c = 0 -> code_size <= c_maximum_code_bytes c -> lacks_room c code_size = false.
Proof.
  intros Hok H0 Hsz. apply room_iff; [done|]. destruct Hok as [Hc [A1 A2 A3 A4 A5]]. split; [lia|].
  assert (Hz : live_sum e_code_size (c_entries c) = 0); [|lia]. rewrite H0 in A1. symmetry in A1.
  pose proof (live_count_zero _ A1) as Hd. clear - Hd. induction (c_entries c) as [|x es IH]; [done|].
  unfold live_sum, weight in *. simpl. rewrite (Hd O x eq_refl), IH; [done|]. intros s y Hy. apply (Hd (S s) y Hy).
Qed.

(** Making room always succeeds. *)
Lemma make_room c code_size :
  vault_ok outside c -> code_size <= c_maximum_code_bytes c ->
  let c' := evict_until (S (length (c_entries c))) code_size c in
  shrinks c c' /\ lacks_room c' code_size = false.
Proof.
  intros Hok Hsz c'. subst c'. destruct (evict_until_step code_size (S (length (c_entries c))) c Hok) as [Hs Hend]. split; [done|].
  destruct Hend as [H0|]; [| |done].
  - rewrite (ac_count _ (proj2 Hok)). pose proof (live_count_le (c_entries c)). lia.
  - apply empty_room; [apply Hs|done|]. by rewrite (proj2 (sh_limits _ _ Hs)).
Qed.
End Operations.

(** ** Taking over a function object *)

Lemma core_adopt outside ns es db rb f n :
  core outside ns es db rb -> ns !! f = None -> core (<[f := n]> outside) (<[f := n]> ns) es db rb.
Proof.
  intros [Ht Hn Ho Hh Hout Hd Hr Hdead] Hf. split; try done.
  - intros k x Hx Hl. destruct (Hn k x Hx Hl) as (H0 & H1 & m & Hm & Hs). assert (f <> e_function x) by congruence.
    rewrite !lookup_insert_ne by done. eauto.
  - intros g m. rewrite !lookup_insert. case_decide; [by left|eauto].
  - intros g m. rewrite !lookup_insert. case_decide; [done|eauto].
Qed.

Lemma core_release outside ns es db rb f n :
  core (<[f := n]> outside) ns es db rb -> outside !! f = None -> core outside (delete f ns) es db rb.
Proof.
  intros [Ht Hn Ho Hh Hout Hd Hr Hdead] Hf. split; try done.
  - intros k x Hx Hl. destruct (Hn k x Hx Hl) as (H0 & H1 & m & Hm & Hs). apply lookup_insert_None in H1 as [H1 H2].
    rewrite lookup_delete_ne by done. eauto.
  - intros g m. rewrite lookup_delete. case_decide; [done|]. intros Hg. destruct (Hh g m Hg) as [Hx|]; [|by right].
    rewrite lookup_insert_ne in Hx by done. by left.
  - intros g m Hg. rewrite lookup_delete_ne by congruence. apply Hout. rewrite lookup_insert_ne; congruence.
Qed.

Record fills (es : list TurboJSCodeCacheEntry) (s : nat) (f : Z) (n : TurboJSNativeFunction) (e : TurboJSCodeCacheEntry)
    : Prop := {
  fi_live : e_live e = true;
  fi_function : e_function e = f /\ f <> 0;
  fi_size : e_code_size e = nf_code_size n /\ 0 <= nf_code_size n;
  fi_kind : (e_cache_kind e = 0 /\ e_key e <> 0 /\ reaches es s (e_key e) /\ contents es !! e_key e = None) \/
            (e_cache_kind e = 1 /\ e_key e = 0)
}.

Lemma fills_unique es s f n e :
  table_ok es -> fills es s f n e -> e_key e <> 0 ->
  forall s' x, es !! s' = Some x -> e_live x = true -> e_key x <> e_key e.
Proof.
  intros Ht [_ _ _ [(_ & _ & _ & Hno)|[_ ?]]] Hne s' x Hx Hl Heq; [|done].
  destruct (t_kind _ Ht s' x Hx Hl) as [(Hk & _)|[_ ?]]; [|congruence].
  assert (contents es !! e_key e = Some (e_function x)); [|congruence]. apply contents_spec; eauto 10.
Qed.

Lemma core_fill outside ns es db rb f n s e0 g :
  core (<[f := n]> outside) ns es db rb -> outside !! f = None -> es !! s = Some e0 -> e_live e0 = false ->
  fills es s f n (g e0) -> e_dependencies (g e0) = e_dependencies e0 -> e_repatch_dependencies (g e0) = e_repatch_dependencies e0 ->
  core outside ns (alter g s es) db rb.
Proof.
  intros [Ht Hn Ho Hh Hout Hd Hr Hdead] Hf He0 Hl0 Hfi Hgd Hgr. pose proof Hfi as [Hl [Hef Hf0] [Hsz Hsz0] Hk].
  assert (Hget : forall k x, alter g s es !! k = Some x -> (k = s /\ x = g e0) \/ (k <> s /\ es !! k = Some x)).
  { intros k x (y & Hy & ->)%alter_lookup_inv. case_decide; [subst; left; naive_solver|right; naive_solver]. }
  assert (Hnf : forall k x, es !! k = Some x -> e_live x = true -> e_function x <> f).
  { intros k x Hx Hlx Hfx. destruct (Hn k x Hx Hlx) as (_ & Hno & _). by rewrite Hfx, lookup_insert_eq in Hno. }
  assert (Hes : alter g s es = <[s := g e0]> es).
  { apply list_eq. intros k. apply lookup_lt_Some in He0 as Hs. rewrite list_lookup_alter, list_lookup_insert.
    repeat case_decide; subst; try rewrite He0; naive_solver. }
  split; try done.
  - rewrite Hes. unfold e_live in Hl. apply Z.eqb_eq in Hl.
    eapply table_ok_insert; [done|exact He0|lia|auto|]. intros Hl'. split; [destruct Hk as [(?&?&?&?)|?]; [left; auto|by right]|].
    intros Hne s' x Hx Hlx Heq. by destruct (fills_unique es s f n (g e0) Ht Hfi Hne s' x Hx Hlx).
  - intros k x [[-> ->]|[Hks Hx]]%Hget Hlx.
    + rewrite Hef. split; [done|]. split; [done|]. exists n. rewrite Hsz. split; [|done]. apply Hout. by rewrite lookup_insert_eq.
    + destruct (Hn k x Hx Hlx) as (H0 & H1 & Hm). apply lookup_insert_None in H1 as [H1 _]. done.
  - intros s1 s2 e1 e2 [[-> ->]|[? H1]]%Hget [[-> ->]|[? H2]]%Hget Hl1 Hl2 Heq; [done| | |by eauto].
    + rewrite Hef in Heq. symmetry in Heq. by eapply Hnf in H2.
    + rewrite Hef in Heq. by eapply Hnf in H1.
  - intros h m Hm. destruct (Hh h m Hm) as [H|(k & x & Hx & Hlx & Hfx)].
    + rewrite lookup_insert in H. case_decide; [right|by left]. subst h. exists s, (g e0).
      by rewrite list_lookup_alter_eq, He0.
    + right. exists k, x. rewrite list_lookup_alter_ne; [done|]. intros ->. congruence.
  - intros h m Hm. apply Hout. rewrite lookup_insert_ne; congruence.
  - eapply index_ok_ext; [|exact Hd]. intros k. rewrite (dependencies_of_alter _ _ _ _ He0), Hgd.
    unfold owners_upd, dependencies_of. case_decide; [subst; by rewrite He0|done].
  - eapply index_ok_ext; [|exact Hr]. intros k. rewrite (identities_of_alter _ _ _ _ He0), Hgr.
    unfold owners_upd, identities_of. case_decide; [subst; by rewrite He0|done].
  - intros k x [[-> ->]|[Hks Hx]]%Hget Hlx; [congruence|eauto].
Qed.

(** The contents with one more entry. *)
Definition remember (e : TurboJSCodeCacheEntry) (m : gmap Z Z) : gmap Z Z :=
  if e_cache_kind e =? 0 then <[e_key e := e_function e]> m else m.

Lemma filled_contents es s e0 g f n :
  table_ok es -> table_ok (alter g s es) -> es !! s = Some e0 -> e_live e0 = false -> fills es s f n (g e0) ->
  contents (alter g s es) = remember (g e0) (contents es).
Proof.
  intros Ht Ht' He0 Hl0 Hfi. apply map_eq. intros k. apply option_eq. intros h.
  assert (Hkey : contents (alter g s es) !! k = Some h <->
    contents es !! k = Some h \/ (e_cache_kind (g e0) = 0 /\ k = e_key (g e0) /\ h = e_function (g e0))).
  { rewrite !contents_spec by done. split.
    - intros (k' & y & Hy & Hly & Hky & <- & <-). apply alter_lookup_inv in Hy as (z & Hz & ->).
      case_decide; [right; subst; naive_solver|left; eauto 10].
    - intros [(k' & y & Hy & Hly & Hky & <- & <-)|(Hk0 & -> & ->)].
      + exists k', y. rewrite list_lookup_alter_ne; [done|]. intros ->. congruence.
      + exists s, (g e0). rewrite list_lookup_alter_eq, He0. pose proof (fi_live _ _ _ _ _ Hfi). done. }
  rewrite Hkey. unfold remember. destruct (fi_kind _ _ _ _ _ Hfi) as [(H0 & _ & _ & Hno)|[H0 _]]; rewrite H0; simpl.
  - rewrite lookup_insert_Some. split.
    + intros [Hm|(_ & -> & ->)]; [right; split; [congruence|done]|by left].
    + intros [[<- <-]|[_ Hm]]; [by right|by left].
  - split; [intros [?|[? _]]; [done|congruence]|by left].
Qed.
