(* ===== verification/VaultStore.v ===== *)
(** * Storing functions and continuations in the Vault

    The insertions of [TurboJS_CodeCacheCompile] and
    [TurboJS_CodeCacheStoreContinuation], and the operations that only touch
    entries, handles and call sites. *)

From stdpp Require Import gmap.
From S2P Require Import Prelude.
From S2P Require Import JitTypes.
From S2P Require Import Clutch.
From S2P Require Import Vault.
From S2P Require Import VaultTable.
From S2P Require Import VaultIndex.
From S2P Require Import VaultInv.
From S2P Require Import VaultOps.

(** ** Filling a slot *)

Definition place (s : nat) (g : TurboJSCodeCacheEntry -> TurboJSCodeCacheEntry) (code_size : Z) (c : TurboJSCodeCache)
    : TurboJSCodeCache :=
  c_set_totals (c_count c + 1) (uwrap 64 (c_code_bytes c + code_size)) (update_entry s g (tick c)).

Section Placing.
Context (outside : gmap Z TurboJSNativeFunction) (f : Z) (n : TurboJSNativeFunction) (c : TurboJSCodeCache) (s : nat).
Context (e0 : TurboJSCodeCacheEntry) (g : TurboJSCodeCacheEntry -> TurboJSCodeCacheEntry).
Context (Hok : vault_ok (<[f := n]> outside) c) (Hnew : outside !! f = None).
Context (He0 : c_entries c !! s = Some e0) (Hl0 : e_live e0 = false).
Context (Hfi : fills (c_entries c) s f n (g e0)).
Context (Hgd : e_dependencies (g e0) = e_dependencies e0) (Hgr : e_repatch_dependencies (g e0) = e_repatch_dependencies e0).
Context (Hroom : lacks_room c (nf_code_size n) = false).

Notation placed := (place s g (nf_code_size n) c).

Lemma place_core : cache_core outside placed.
Proof. eapply core_fill; [exact (proj1 Hok)|done..]. Qed.

Lemma place_slot : c_entries placed !! s = Some (g e0).
Proof. simpl. by rewrite list_lookup_alter_eq, He0. Qed.

Lemma place_ok : vault_ok outside placed.
Proof.
  split; [apply place_core|]. apply (room_iff _ c _ Hok) in Hroom as [R1 R2]. destruct Hok as [Hc [A1 A2 [A3 A3'] A4 A5]].
  pose proof (live_sum_bounds e_code_size (c_entries c) (code_sizes_nonneg _ c Hc)) as H0.
  destruct Hfi as [F1 F2 [F3 F3'] F4].
  assert (Hw : forall h, weight h (g e0) = h (g e0) /\ weight h e0 = 0) by (intros h; unfold weight; rewrite F1, Hl0; done).
  assert (Hbytes : c_code_bytes placed = c_code_bytes c + nf_code_size n).
  { simpl. apply uwrap_small. unfold is_u. change (2 ^ 64) with (SIZE_MAX + 1). lia. }
  split.
  - simpl. rewrite (live_sum_alter _ _ _ _ _ He0). rewrite !(proj1 (Hw _)), !(proj2 (Hw _)). lia.
  - rewrite Hbytes. simpl. rewrite (live_sum_alter _ _ _ _ _ He0), (proj1 (Hw _)), (proj2 (Hw _)), F3. lia.
  - simpl. lia.
  - rewrite Hbytes. simpl. lia.
  - simpl. intros Hne. destruct (A5 Hne) as (k & x & Hx & Hlx & Hkx). exists k, x.
    rewrite list_lookup_alter_ne; [done|]. intros ->. congruence.
Qed.

Lemma place_contents : contents (c_entries placed) = remember (g e0) (contents (c_entries c)).
Proof.
  eapply filled_contents; [apply (proj1 Hok)|apply place_core|exact He0|exact Hl0|exact Hfi].
Qed.

(** The registration that follows, and the removal when it fails. *)
Lemma place_register mem c' ok :
  register_entry_dependencies mem s placed = (c', ok) ->
  vault_ok outside c' /\ contents (c_entries c') = remember (g e0) (contents (c_entries c)) /\
  same_books placed c' /\ registered placed c' s ok.
Proof.
  intros Hr. destruct (register_step outside mem placed s (g e0) c' ok place_core place_slot (fi_live _ _ _ _ _ Hfi) Hr) as (K1 & K2 & K3).
  split; [eapply books_ok; [apply place_ok|done|done]|]. split; [|done].
  rewrite (same_table_contents _ _ (sb_table _ _ K2)). apply place_contents.
Qed.

Lemma place_rollback mem c' ok :
  register_entry_dependencies mem s placed = (c', ok) ->
  vault_ok outside (remove_slot s false c') /\ contents (c_entries (remove_slot s false c')) = contents (c_entries c).
Proof.
  intros Hr. destruct (place_register mem c' ok Hr) as (K1 & K2 & K3 & _).
  destruct (same_table_lookup_r _ _ _ _ (sb_table _ _ K3) place_slot) as (e' & He' & Hs).
  assert (Hl : e_live e' = true) by (rewrite (same_entry_live _ _ Hs); apply Hfi).
  destruct (remove_slot_ok outside s false e' c' K1 He' Hl) as (L1 & _ & L2). split; [done|].
  rewrite L2, K2. unfold forget, remember. rewrite (se_kind _ _ Hs), (se_key _ _ Hs).
  destruct (fi_kind _ _ _ _ _ Hfi) as [(H0 & _ & _ & Hno)|[H0 _]]; rewrite H0; simpl; [|done].
  by rewrite delete_insert_id.
Qed.
End Placing.

(** ** Steps that leave the table alone *)

Section Quiet.
Context (outside : gmap Z TurboJSNativeFunction).

(** The abstract cache and the invariant are kept. *)
Definition quiet (c c' : TurboJSCodeCache) : Prop :=
  (vault_ok outside c -> vault_ok outside c') /\ same_books c c'.

Lemma quiet_contents c c' : quiet c c' -> contents (c_entries c') = contents (c_entries c).
Proof. intros [_ H]. apply same_table_contents, H. Qed.

Lemma quiet_trans c1 c2 c3 : quiet c1 c2 -> quiet c2 c3 -> quiet c1 c3.
Proof. intros [H1 H2] [H3 H4]. split; [auto|by etransitivity]. Qed.

Lemma quiet_bump k i c : quiet c (c_bump k i c).
Proof. split; [apply bump_ok|split; done]. Qed.

Lemma quiet_update g s c :
  keeps g -> (forall e, e_dependencies (g e) = e_dependencies e /\ e_repatch_dependencies (g e) = e_repatch_dependencies e) ->
  quiet c (update_entry s g c).
Proof.
  intros Hg Hd. split; [|by apply same_books_update]. intros Hok. eapply books_ok; [exact Hok| |by apply same_books_update].
  destruct (c_entries c !! s) as [e|] eqn:He.
  - destruct (Hd e) as [D1 D2]. destruct (core_own_dependencies outside c s e (proj1 Hok) He) as [O1 O2].
    eapply core_alter; [exact (proj1 Hok)|exact He|done|by rewrite D1|by rewrite D2|].
    rewrite D1, D2. intros Hl. by eapply (co_dead _ _ _ _ _ (proj1 Hok)).
  - unfold cache_core, update_entry. simpl. rewrite alter_missing by done. apply Hok.
Qed.

Lemma quiet_touch s c : quiet c (touch_entry s c).
Proof.
  eapply (quiet_trans _ (tick c)); [|by apply quiet_update].
  split; [|by split]. intros Hok. eapply books_ok; [exact Hok|exact (proj1 Hok)|by split].
Qed.

Lemma quiet_handles hs c : quiet c (c_set_handles hs c).
Proof. split; [|by split]. intros Hok. eapply books_ok; [exact Hok|exact (proj1 Hok)|by split]. Qed.
End Quiet.

(** ** Finding entries *)

Lemma key_absent es key :
  table_ok es -> key <> 0 -> contents es !! key = None -> forall s e, es !! s = Some e -> e_live e = true -> e_key e <> key.
Proof.
  intros Ht Hne Hf s x Hx Hlx Hkx. destruct (t_kind _ Ht s x Hx Hlx) as [(Hk & _)|[_ ?]]; [|congruence].
  assert (contents es !! key = Some (e_function x)) by (apply contents_spec; eauto 10). congruence.
Qed.

Section Public.
Context (outside : gmap Z TurboJSNativeFunction).
Notation vault_ok := (vault_ok outside).
Notation quiet := (quiet outside).

Lemma find_live c key :
  vault_ok c -> key <> 0 ->
  match live_slot c (find_slot c key false) with
  | Some (s, e) => c_entries c !! s = Some e /\ e_live e = true /\ e_cache_kind e = 0 /\ e_key e = key /\
                   contents (c_entries c) !! key = Some (e_function e)
  | None => contents (c_entries c) !! key = None
  end.
Proof.
  intros [Hc _] Hne. pose proof (co_table _ _ _ _ _ Hc) as Ht.
  destruct (contents (c_entries c) !! key) as [f|] eqn:Hf.
  - apply contents_spec in Hf as (s & e & He & Hl & Hk & Hek & Hef); [|done].
    rewrite (find_present c key false s e) by done. unfold live_slot. simpl. rewrite He. simpl. rewrite Hl. naive_solver.
  - unfold live_slot. destruct (find_slot c key false) as [s|] eqn:Hs; [|done]. simpl.
    destruct (c_entries c !! s) as [e|] eqn:He; [|done]. simpl. destruct (e_live e) eqn:Hl; [|done].
    exfalso. destruct (find_absent c key false s Ht (key_absent _ _ Ht Hne Hf) Hs) as (e' & He' & Hl' & _). congruence.
Qed.

(** ** Lookups *)

Lemma lookup_step key c c' f :
  vault_ok c -> TurboJS_CodeCacheLookup key c = (c', f) ->
  vault_ok c' /\ contents (c_entries c') = contents (c_entries c) /\
  (key <> 0 -> f = default 0 (contents (c_entries c) !! key)) /\ (key = 0 -> f = 0).
Proof.
  intros Hok. pose proof Hok as [Hc [A1 A2 A3 A4 A5]]. unfold TurboJS_CodeCacheLookup.
  destruct (Z.eqb_spec key 0) as [->|Hne]; [by intros [= <- <-]|].
  assert (Hq : forall c', quiet c c' -> vault_ok c' /\ contents (c_entries c') = contents (c_entries c)).
  { intros x Hx. split; [by apply Hx|by eapply quiet_contents]. }
  destruct (_ && _) eqn:Hlast.
  - intros [= <- <-]. b2p. set (c1 := match live_slot _ _ with Some _ => _ | None => _ end).
    assert (Hq1 : quiet c c1).
    { unfold c1. destruct (live_slot _ _) as [[s e]|]; [|apply quiet_bump].
      eapply quiet_trans; [apply quiet_bump|apply quiet_touch]. }
    destruct (Hq c1 Hq1) as [K1 K2]. split; [done|]. split; [done|]. split; [|done]. intros _.
    destruct A5 as (s & e & He & Hl & Hk & Hef); [congruence|].
    rewrite (sb_last_function _ _ (proj2 Hq1)), <-Hef.
    assert (contents (c_entries c) !! key = Some (e_function e)) as ->; [|done].
    apply contents_spec; [apply Hc|]. exists s, e. destruct (t_kind _ (co_table _ _ _ _ _ Hc) s e He Hl) as [(?&?&?)|[? ?]]; [naive_solver|congruence].
  - pose proof (find_live c key Hok Hne) as Hf. destruct (live_slot _ _) as [[s e]|].
    + destruct Hf as (He & Hl & Hk & Hek & Hm). intros [= <- <-]. set (c1 := touch_entry s (c_bump hits 1 c)).
      assert (Hq1 : quiet c c1) by (eapply quiet_trans; [apply quiet_bump|apply quiet_touch]).
      destruct (Hq c1 Hq1) as [K1 K2]. split; [|split; [done|]; split; [by rewrite Hm|done]].
      destruct K1 as [Hc1 [B1 B2 B3 B4 B5]]. split; [exact Hc1|]. split; try done. intros _.
      destruct (same_table_lookup_r _ _ _ _ (sb_table _ _ (proj2 Hq1)) He) as (e' & He' & Hs). exists s, e'. simpl.
      rewrite (same_entry_live _ _ Hs), (se_key _ _ Hs), (se_function _ _ Hs). done.
    + intros [= <- <-]. destruct (Hq _ (quiet_bump outside misses 1 c)) as [K1 K2]. split; [done|]. split; [done|].
      split; [by rewrite Hf|done].
Qed.

Lemma lookup_continuation_step id revision start c c' r :
  vault_ok c -> TurboJS_CodeCacheLookupContinuation id revision start c = (c', r) ->
  vault_ok c' /\ contents (c_entries c') = contents (c_entries c) /\
  forall f p, r = Some (f, p) -> exists s e, c_entries c !! s = Some e /\ is_continuation id revision start e = true /\
    e_function e = f /\ e_continuation_prologue_count e = p.
Proof.
  intros Hok. unfold TurboJS_CodeCacheLookupContinuation, find_continuation_entry.
  destruct (list_find _ _) as [[s e]|] eqn:Hf; intros [= <- <-].
  - apply list_find_Some in Hf as (He & Hc & _).
    assert (Hq : quiet c (c_bump continuation_hits 1 (touch_entry s c))) by (eapply quiet_trans; [apply quiet_touch|apply quiet_bump]).
    split; [by apply Hq|]. split; [by eapply quiet_contents|]. intros f p [= <- <-]. exists s, e. done.
  - split; [by apply bump_ok|]. done.
Qed.

(** ** Compilation *)

(** What the caller knows after an insertion of [f] under [key], possibly
    after evictions. *)
Definition stores (key f : Z) (m m' : gmap Z Z) : Prop := m' !! key = Some f /\ delete key m' ⊆ m.

Lemma adopt_ok f n c :
  vault_ok c -> v_natives c !! f = None ->
  VaultInv.vault_ok (<[f := n]> outside) (c_set_natives (<[f := n]> (v_natives c)) c) /\ outside !! f = None.
Proof.
  intros [Hc [A1 A2 A3 A4 A5]] Hf. split; [split; [by apply core_adopt|by split]|].
  destruct (outside !! f) as [m|] eqn:Hm; [|done]. apply (co_outside _ _ _ _ _ Hc) in Hm. congruence.
Qed.

Lemma release_ok f n c : VaultInv.vault_ok (<[f := n]> outside) c -> outside !! f = None -> vault_ok (destroy_native f c).
Proof. intros [Hc [A1 A2 A3 A4 A5]] Hf. split; [by eapply core_release|by split]. Qed.

Definition tail_compile (mem : NodeMemory) (key f : Z) (n : TurboJSNativeFunction) (c : TurboJSCodeCache)
    : TurboJSCodeCache * TurboJSIRStatus * option Z :=
  match find_slot c key true with
  | None => (destroy_native f c, TURBOJS_IR_OUT_OF_MEMORY, None)
  | Some slot =>
      let '(c, ok) := register_entry_dependencies mem slot
                        (place slot (fill_entry key f (nf_code_size n) (c_clock (tick c)) 0) (nf_code_size n) c) in
      if negb ok then (remove_slot slot false c, TURBOJS_IR_OUT_OF_MEMORY, None)
      else (c_set_last key f (c_bump compilations 1 c), TURBOJS_IR_OK, Some f)
  end.

Lemma tail_compile_step mem key f n c c' st r :
  VaultInv.vault_ok (<[f := n]> outside) c -> outside !! f = None -> f <> 0 -> key <> 0 -> 0 <= nf_code_size n ->
  contents (c_entries c) !! key = None -> lacks_room c (nf_code_size n) = false ->
  tail_compile mem key f n c = (c', st, r) ->
  vault_ok c' /\
  ((st = TURBOJS_IR_OK /\ r = Some f /\ contents (c_entries c') = <[key := f]> (contents (c_entries c))) \/
   (st = TURBOJS_IR_OUT_OF_MEMORY /\ r = None /\ contents (c_entries c') = contents (c_entries c))).
Proof.
  intros Hok Hnew Hf0 Hk0 Hsz Hno Hroom. unfold tail_compile. pose proof (co_table _ _ _ _ _ (proj1 Hok)) as Ht.
  destruct (find_slot c key true) as [s|] eqn:Hs.
  2: { intros [= <- <- <-]. split; [by eapply release_ok|]. by right. }
  destruct (find_absent c key true s Ht (key_absent _ _ Ht Hk0 Hno) Hs) as (e0 & He0 & Hl0 & Hr).
  set (g := fill_entry key f (nf_code_size n) (c_clock (tick c)) 0).
  assert (Hfi : fills (c_entries c) s f n (g e0)) by (split; try done; by left).
  destruct (register_entry_dependencies mem s _) as [c1 ok] eqn:Hreg.
  destruct ok; cbn [negb]; intros [= <- <- <-].
  - destruct (place_register outside f n c s e0 g Hok Hnew He0 Hl0 Hfi eq_refl eq_refl Hroom mem c1 true Hreg) as (K1 & K2 & K3 & _).
    split; [|left; done]. apply (bump_ok _ compilations 1) in K1. destruct K1 as [Hc1 [B1 B2 B3 B4 B5]].
    split; [exact Hc1|]. split; try done. intros _.
    destruct (same_table_lookup_r _ _ _ _ (sb_table _ _ K3) (place_slot n c s e0 g He0)) as (e' & He' & Hse).
    exists s, e'. rewrite (same_entry_live _ _ Hse), (se_key _ _ Hse), (se_function _ _ Hse). done.
  - destruct (place_rollback outside f n c s e0 g Hok Hnew He0 Hl0 Hfi eq_refl eq_refl Hroom mem c1 false Hreg) as (K1 & K2).
    split; [done|]. by right.
Qed.

(** The answers of an insertion: the function under its key, or a failure;
    evictions may have dropped other bindings. *)
Definition stored (key : Z) (m m' : gmap Z Z) (st : TurboJSIRStatus) (r : option Z) : Prop :=
  match r with
  | Some f => st = TURBOJS_IR_OK /\ stores key f m m'
  | None => st <> TURBOJS_IR_OK /\ m' ⊆ m
  end.

(** A compiler that answers a function object of its own. *)
Definition fresh_code (c : TurboJSCodeCache) (answer : TurboJSIRStatus * (Z * TurboJSNativeFunction)) : Prop :=
  answer.1 = TURBOJS_IR_OK -> answer.2.1 <> 0 /\ v_natives c !! answer.2.1 = None /\ 0 <= nf_code_size answer.2.2.

Lemma hit_stored key f m : m !! key = Some f -> stored key m m TURBOJS_IR_OK (Some f).
Proof. intros Hm. split; [done|]. split; [done|apply delete_subseteq]. Qed.

Lemma compile_step baseline specialize mem key ir c c' st r :
  vault_ok c -> fresh_code c (compile_native baseline specialize ir) ->
  TurboJS_CodeCacheCompile baseline specialize mem key ir c = (c', st, r) ->
  vault_ok c' /\ stored key (contents (c_entries c)) (contents (c_entries c')) st r.
Proof.
  intros Hok Hfresh. unfold TurboJS_CodeCacheCompile. destruct (Z.eqb_spec key 0) as [->|Hne]; [by intros [= <- <- <-]|].
  pose proof (find_live c key Hok Hne) as Hf. destruct (live_slot _ _) as [[s e]|].
  { destruct Hf as (_ & _ & _ & _ & Hm). intros [= <- <- <-]. pose proof (quiet_touch outside s c) as Hq.
    split; [by apply Hq|]. rewrite (quiet_contents _ _ _ Hq). by apply hit_stored. }
  destruct (compile_native baseline specialize ir) as [st0 [f n]]. unfold fresh_code in Hfresh. simpl in Hfresh.
  destruct (decide (st0 = TURBOJS_IR_OK)) as [->|Hst]; [|destruct st0; try done; by intros [= <- <- <-]].
  destruct (Hfresh eq_refl) as (Hf0 & Hnew & Hsz). destruct (adopt_ok f n c Hok Hnew) as [Hok1 Hout].
  set (c1 := c_set_natives _ c) in *. change (c_maximum_code_bytes c1) with (c_maximum_code_bytes c).
  destruct (Z.ltb_spec (c_maximum_code_bytes c) (nf_code_size n)).
  { intros [= <- <- <-]. split; [by eapply release_ok|done]. }
  destruct (make_room _ c1 (nf_code_size n) Hok1 ltac:(done)) as [Hs Hroom].
  set (c2 := evict_until _ _ c1) in *. rewrite Hroom. intros Htail. change (tail_compile mem key f n c2 = (c', st, r)) in Htail.
  assert (Hno : contents (c_entries c2) !! key = None).
  { eapply lookup_weaken_None; [exact Hf|apply (sh_contents _ _ _ Hs)]. }
  apply (tail_compile_step mem key f n c2 c' st r (sh_ok _ _ _ Hs)) in Htail as [K1 K2]; try done.
  split; [done|]. destruct K2 as [(-> & -> & ->)|(-> & -> & ->)].
  - split; [done|]. split; [by rewrite lookup_insert_eq|]. rewrite delete_insert_id by done. apply Hs.
  - split; [done|]. apply Hs.
Qed.

(** A slot for the key exists whenever there is room. *)
Lemma room_slot c key code_size :
  vault_ok c -> c_maximum_entries c <= slot_count c -> lacks_room c code_size = false -> is_Some (find_slot c key true).
Proof.
  intros Hok Hmax Hroom. apply (room_iff _ c _ Hok) in Hroom as [R1 _]. destruct Hok as [Hc [A1 A2 A3 A4 A5]].
  destruct (live_count_free (c_entries c)) as (s & e & He & Hl); [unfold slot_count in Hmax; lia|].
  destruct (find_insert_some c key s e) as [s' Hs]; [apply Hc|done..|by exists s'].
Qed.

(** ** Invalidation *)

Lemma invalidate_step key c :
  vault_ok c -> key <> 0 ->
  vault_ok (TurboJS_CodeCacheInvalidate key c) /\
  contents (c_entries (TurboJS_CodeCacheInvalidate key c)) = delete key (contents (c_entries c)).
Proof.
  intros Hok Hne. unfold TurboJS_CodeCacheInvalidate. rewrite (proj2 (Z.eqb_neq _ _) Hne).
  pose proof (find_live c key Hok Hne) as Hf. unfold live_slot in Hf.
  destruct (find_slot c key false) as [s|]; [|by rewrite delete_id]. simpl in Hf.
  destruct (c_entries c !! s) as [e|] eqn:He; simpl in Hf; [|unfold remove_slot; rewrite He, delete_id; done].
  destruct (e_live e) eqn:Hl; simpl in Hf.
  - destruct Hf as (_ & _ & Hk & <- & _). destruct (remove_slot_ok outside s false e c Hok He Hl) as (K1 & _ & K2).
    split; [done|]. rewrite K2. unfold forget. by rewrite Hk.
  - unfold remove_slot. rewrite He, Hl. cbn [negb]. by rewrite delete_id.
Qed.

Lemma remove_any s c :
  vault_ok c -> let c' := remove_slot s false c in
  vault_ok c' /\ contents (c_entries c') ⊆ contents (c_entries c) /\ length (c_entries c') = length (c_entries c) /\
  (forall k e, c_entries c' !! k = Some e -> e_live e = true -> k <> s /\ c_entries c !! k = Some e) /\
  c_maximum_entries c' = c_maximum_entries c /\ c_maximum_code_bytes c' = c_maximum_code_bytes c.
Proof.
  intros Hok c'. destruct (c_entries c !! s) as [e|] eqn:He; [destruct (e_live e) eqn:Hl|].
  - destruct (remove_slot_ok outside s false e c Hok He Hl) as (K1 & K2 & K3). fold c' in K1, K2, K3.
    split; [done|]. split; [rewrite K3; apply forget_subseteq|]. rewrite (rm_entries _ _ _ _ _ K2).
    split; [apply removed_table_length|]. split; [|apply (rm_limits _ _ _ _ _ K2)].
    intros k x Hx Hlx. destruct (decide (k = s)) as [->|Hk]; [|by rewrite removed_table_other in Hx].
    destruct (removed_table_slot s (c_entries c) e He) as (y & Hy & Hly). congruence.
  - assert (c' = c) as -> by (unfold c', remove_slot; by rewrite He, Hl). split_and!; try done. intros k x Hx Hlx. split; [congruence|done].
  - assert (c' = c) as -> by (unfold c', remove_slot; by rewrite He). split_and!; try done. intros k x Hx Hlx. split; [congruence|done].
Qed.

Lemma empty_table k : power_of_two k -> table_ok (replicate k empty_entry).
Proof.
  intros Hp. split.
  - by rewrite length_replicate.
  - intros s e [-> _]%lookup_replicate. by left.
  - intros s e [-> _]%lookup_replicate. done.
  - intros s1 s2 e1 e2 [-> _]%lookup_replicate _ Hl. done.
Qed.

Lemma empty_sum g k : live_sum g (replicate k empty_entry) = 0.
Proof. induction k as [|k IH]; [done|]. unfold live_sum, weight in *. simpl. by rewrite IH. Qed.

(** A cache without live entries holds nothing of the heap. *)
Lemma dead_heap c :
  cache_core outside c -> (forall s e, c_entries c !! s = Some e -> e_live e = false) -> v_natives c = outside.
Proof.
  intros Hc Hd. apply map_eq. intros f. apply option_eq. intros n. split; [|apply (co_outside _ _ _ _ _ Hc)].
  intros Hn. destruct (co_heap _ _ _ _ _ Hc f n Hn) as [|(s & e & He & Hl & _)]; [done|]. rewrite (Hd s e He) in Hl. done.
Qed.

Lemma index_empty hash k owners :
  power_of_two k -> (forall s, owners s = []) -> index_ok hash (replicate k []) owners.
Proof.
  intros Hp Ho. split.
  - by rewrite length_replicate.
  - intros i l t s [-> _]%lookup_replicate Hin. by apply not_elem_of_nil in Hin.
  - intros s t Hin. rewrite Ho in Hin. by apply not_elem_of_nil in Hin.
  - intros i l [-> _]%lookup_replicate. constructor.
  - intros s. rewrite Ho. constructor.
Qed.

Lemma empty_owners k s :
  dependencies_of (replicate k empty_entry) s = [] /\ identities_of (replicate k empty_entry) s = [].
Proof.
  unfold dependencies_of, identities_of. destruct (replicate k empty_entry !! s) as [e|] eqn:He; [|done].
  by apply lookup_replicate in He as [-> _].
Qed.

Lemma empty_core k db rb :
  power_of_two k -> index_ok dependency_hash db (fun _ => []) -> index_ok identity_hash rb (fun _ => []) ->
  core outside outside (replicate k empty_entry) db rb.
Proof.
  intros Hp Hd Hr. split.
  - by apply empty_table.
  - intros s e [-> _]%lookup_replicate. done.
  - intros s1 s2 e1 e2 [-> _]%lookup_replicate _ Hl. done.
  - by left.
  - done.
  - eapply index_ok_ext; [|exact Hd]. intros s. apply empty_owners.
  - eapply index_ok_ext; [|exact Hr]. intros s. apply empty_owners.
  - intros s e [-> _]%lookup_replicate. done.
Qed.

(** An invariant-keeping loop over all slots leaves no live entry. *)
Definition cleared (n : nat) (c c' : TurboJSCodeCache) : Prop :=
  vault_ok c' /\ length (c_entries c') = length (c_entries c) /\
  (forall k e, c_entries c' !! k = Some e -> e_live e = true -> (n <= k)%nat) /\
  c_maximum_entries c' = c_maximum_entries c /\ c_maximum_code_bytes c' = c_maximum_code_bytes c.

Lemma clear_loop c :
  vault_ok c -> cleared (length (c_entries c)) c (for_range (length (c_entries c)) (fun i c => remove_slot i false c) c).
Proof.
  intros Hok. apply (for_range_ind (fun n c' => cleared n c c')).
  - split_and!; try done. intros. lia.
  - intros i c' Hi (K1 & K2 & K3 & K4 & K5). destruct (remove_any i c' K1) as (L1 & _ & L3 & L4 & L5 & L6).
    split_and!; [done|congruence| |congruence|congruence]. intros k e He Hl. destruct (L4 k e He Hl) as [Hk He'].
    specialize (K3 k e He' Hl). lia.
Qed.

Lemma clear_step c :
  vault_ok c -> vault_ok (TurboJS_CodeCacheClear c) /\ contents (c_entries (TurboJS_CodeCacheClear c)) = ∅ /\
  v_natives (TurboJS_CodeCacheClear c) = outside.
Proof.
  intros Hok. unfold TurboJS_CodeCacheClear. destruct (clear_loop c Hok) as (K1 & K2 & K3 & K4 & K5).
  set (c' := for_range _ _ _) in *. destruct K1 as [Hc [A1 A2 A3 A4 A5]].
  assert (Hdead : forall s e, c_entries c' !! s = Some e -> e_live e = false).
  { intros s e He. destruct (e_live e) eqn:Hl; [|done]. specialize (K3 s e He Hl). apply lookup_lt_Some in He. lia. }
  pose proof (dead_heap c' Hc Hdead) as Hheap.
  assert (Hcon : contents (replicate (length (c_entries c')) empty_entry) = ∅).
  { unfold contents. replace (omap _ _) with (@nil (Z * Z)); [done|]. generalize (length (c_entries c')). induction n; done. }
  assert (Hids : forall s, identities_of (c_entries c') s = []).
  { intros s. unfold identities_of. destruct (c_entries c' !! s) as [e|] eqn:He; [|done].
    eapply (co_dead _ _ _ _ _ Hc); eauto. }
  split_and!; [|done|done]. split.
  - unfold cache_core. simpl. rewrite Hheap. apply empty_core.
    + apply (t_size _ (co_table _ _ _ _ _ Hc)).
    + apply index_empty; [apply (ix_size _ _ _ (co_dependencies _ _ _ _ _ Hc))|done].
    + eapply index_ok_ext; [|apply (co_identities _ _ _ _ _ Hc)]. intros s. by rewrite Hids.
  - pose proof (live_sum_bounds e_code_size (c_entries c') (code_sizes_nonneg _ c' Hc)) as H0.
    split; simpl; rewrite ?empty_sum; try done; lia.
Qed.

(** ** Creation *)

Lemma next_pow2_loop_power : forall fuel k r v,
  0 <= k -> 8 <= 2 ^ k -> next_pow2_loop fuel (2 ^ k) v = Some r -> (exists j, 0 <= j /\ r = 2 ^ j) /\ v <= r.
Proof.
  induction fuel as [|fuel IH]; intros k r v Hk H8; [done|]. cbn [next_pow2_loop].
  destruct (Z.leb_spec v (2 ^ k)); [intros [= <-]; eauto|]. destruct (SIZE_MAX / 2 <? 2 ^ k); [done|].
  intros Hr. replace (2 ^ k * 2) with (2 ^ (k + 1)) in Hr by (rewrite Z.pow_add_r; lia).
  apply IH in Hr; [done|lia|]. rewrite Z.pow_add_r by lia. lia.
Qed.

Lemma next_pow2_power v r : next_pow2 v = Some r -> (exists j, 0 <= j /\ r = 2 ^ j) /\ v <= r.
Proof.
  unfold next_pow2. destruct (_ <? _); [done|]. intros H. apply (next_pow2_loop_power 64 3 r v); [done|done|exact H].
Qed.

Lemma create_step mem handles entries bytes c :
  0 <= entries -> 0 <= bytes <= SIZE_MAX -> TurboJS_CodeCacheCreate mem outside handles entries bytes = Some c ->
  vault_ok c /\ contents (c_entries c) = ∅ /\ (entries < SIZE_MAX / 2 -> c_maximum_entries c <= slot_count c).
Proof.
  intros He Hb. unfold TurboJS_CodeCacheCreate.
  destruct (next_pow2 _) as [slots|] eqn:Hp; [|done]. simpl. destruct mem; [|done]. cbn [negb]. intros [= <-].
  apply next_pow2_power in Hp as [(j & Hj & Hs) Hle].
  assert (Hpow : power_of_two (Z.to_nat slots)) by (exists j; split; [done|]; pose proof (Z.pow_pos_nonneg 2 j); lia).
  split_and!.
  - split; [|split; simpl; rewrite ?empty_sum; try done].
    + unfold cache_core. simpl. apply empty_core; [done|by apply index_empty..].
    + destruct (Z.eqb_spec entries 0); lia.
    + destruct (Z.eqb_spec bytes 0); [subst|]; unfold SIZE_MAX, UINT64_MAX in *; lia.
  - unfold contents. simpl. replace (omap _ _) with (@nil (Z * Z)); [done|]. generalize (Z.to_nat slots). induction n; done.
  - intros Hlt. unfold slot_count. simpl. rewrite length_replicate.
    assert (64 < SIZE_MAX / 2) by done. destruct (Z.eqb_spec entries 0); case_match; b2p; lia.
Qed.

(** ** Continuations *)

Lemma same_entry_continuation id revision start e e' :
  same_entry e e' -> is_continuation id revision start e' = is_continuation id revision start e.
Proof.
  intros H. unfold is_continuation. rewrite (same_entry_live _ _ H).
  by rewrite (se_kind _ _ H), (se_id _ _ H), (se_revision _ _ H), (se_start _ _ H).
Qed.

Definition tail_continuation (mem : NodeMemory) (id revision start prologue f : Z) (n : TurboJSNativeFunction)
    (c : TurboJSCodeCache) : TurboJSCodeCache * TurboJSIRStatus * option Z :=
  match first_free c with
  | None => (destroy_native f c, TURBOJS_IR_OUT_OF_MEMORY, None)
  | Some slot =>
      let '(c, ok) := register_entry_dependencies mem slot
        (place slot (fill_continuation f (nf_code_size n) (c_clock (tick c)) id revision start prologue) (nf_code_size n) c) in
      if negb ok then (remove_slot slot false c, TURBOJS_IR_OUT_OF_MEMORY, None)
      else
        (c_bump continuation_code_bytes (nf_code_size n)
           (c_bump continuation_entry_count 1 (c_bump continuation_compilations 1 c)), TURBOJS_IR_OK, Some f)
  end.

(** The continuation that [LookupContinuation] would find. *)
Definition continuation_at (id revision start : Z) (c : TurboJSCodeCache) : option (Z * Z) :=
  (fun '(_, e) => (e_function e, e_continuation_prologue_count e)) <$> find_continuation_entry c id revision start.

Lemma continuation_unique id revision start s e c :
  c_entries c !! s = Some e -> is_continuation id revision start e = true ->
  (forall k x, c_entries c !! k = Some x -> is_continuation id revision start x = true -> k = s) ->
  continuation_at id revision start c = Some (e_function e, e_continuation_prologue_count e).
Proof.
  intros He Hc Hu. unfold continuation_at, find_continuation_entry.
  destruct (list_find _ _) as [[k x]|] eqn:Hf.
  - apply list_find_Some in Hf as (Hx & Hcx & _). assert (k = s) as -> by eauto. rewrite He in Hx. by injection Hx as <-.
  - exfalso. apply list_find_None, Forall_lookup_1 with (i := s) (x := e) in Hf; done.
Qed.

Lemma tail_continuation_step mem id revision start prologue f n c c' st r :
  VaultInv.vault_ok (<[f := n]> outside) c -> outside !! f = None -> f <> 0 -> 0 <= nf_code_size n ->
  lacks_room c (nf_code_size n) = false ->
  (forall k x, c_entries c !! k = Some x -> is_continuation id revision start x = true -> False) ->
  tail_continuation mem id revision start prologue f n c = (c', st, r) ->
  vault_ok c' /\ contents (c_entries c') = contents (c_entries c) /\
  ((st = TURBOJS_IR_OK /\ r = Some f /\ continuation_at id revision start c' = Some (f, prologue)) \/
   (st = TURBOJS_IR_OUT_OF_MEMORY /\ r = None)).
Proof.
  intros Hok Hnew Hf0 Hsz Hroom Hno. unfold tail_continuation, first_free.
  destruct (list_find _ _) as [[s e0]|] eqn:Hs; simpl.
  2: { intros [= <- <- <-]. split; [by eapply release_ok|]. auto. }
  apply list_find_Some in Hs as (He0 & Hl0 & _).
  set (g := fill_continuation f (nf_code_size n) _ id revision start prologue).
  assert (Hfi : fills (c_entries c) s f n (g e0)) by (split; try done; by right).
  destruct (register_entry_dependencies mem s _) as [c1 ok] eqn:Hreg.
  destruct ok; cbn [negb]; intros [= <- <- <-].
  - destruct (place_register outside f n c s e0 g Hok Hnew He0 Hl0 Hfi eq_refl eq_refl Hroom mem c1 true Hreg) as (K1 & K2 & K3 & _).
    split; [by do 3 apply bump_ok|]. split; [done|]. left. split; [done|]. split; [done|].
    destruct (same_table_lookup_r _ _ _ _ (sb_table _ _ K3) (place_slot n c s e0 g He0)) as (e' & He' & Hse).
    assert (Hce : is_continuation id revision start e' = true).
    { rewrite (same_entry_continuation _ _ _ _ _ Hse). unfold is_continuation. simpl. by rewrite !Z.eqb_refl. }
    assert (f = e_function e' /\ prologue = e_continuation_prologue_count e') as [-> ->]
      by (rewrite (se_function _ _ Hse), (se_prologue _ _ Hse); done).
    apply (continuation_unique _ _ _ s); [done|done|]. intros k x Hx Hcx.
    destruct (same_table_lookup _ _ _ _ (sb_table _ _ K3) Hx) as (y & Hy & Hsy).
    apply alter_lookup_inv in Hy as (z & Hz & ->). case_decide; [done|].
    rewrite (same_entry_continuation _ _ _ _ _ Hsy) in Hcx. by destruct (Hno k z Hz Hcx).
  - destruct (place_rollback outside f n c s e0 g Hok Hnew He0 Hl0 Hfi eq_refl eq_refl Hroom mem c1 false Hreg) as (K1 & K2).
    split; [done|]. auto.
Qed.

Lemma touch_continuation id revision start s c :
  continuation_at id revision start (touch_entry s c) = continuation_at id revision start c.
Proof.
  unfold continuation_at, find_continuation_entry, touch_entry, update_entry. simpl.
  generalize (uwrap 64 (c_clock c + 1)) as t. intros t. generalize (c_entries c) as es. clear c. intros es. revert s.
  induction es as [|e es IH]; intros s; [done|]. destruct s as [|s].
  - change (alter (e_touch t) 0%nat (e :: es)) with (e_touch t e :: es). simpl.
    assert (Hi : is_continuation id revision start (e_touch t e) = is_continuation id revision start e) by done.
    destruct (decide (is_continuation id revision start e = true)) as [H|H].
    + rewrite decide_True by done. done.
    + rewrite decide_False by done. done.
  - change (alter (e_touch t) (S s) (e :: es)) with (e :: alter (e_touch t) s es). simpl.
    case_decide; [done|]. specialize (IH s). destruct (list_find _ (alter _ _ _)) as [[? ?]|], (list_find _ es) as [[? ?]|]; simpl in *; congruence.
Qed.

Lemma store_continuation_step mem id revision start prologue f n c c' st r :
  VaultInv.vault_ok (<[f := n]> outside) c -> outside !! f = None -> f <> 0 -> id <> 0 -> 0 <= nf_code_size n ->
  TurboJS_CodeCacheStoreContinuation mem id revision start prologue f c = (c', st, r) ->
  vault_ok c' /\ contents (c_entries c') ⊆ contents (c_entries c) /\
  match r with
  | Some g => st = TURBOJS_IR_OK /\ fst <$> continuation_at id revision start c' = Some g
  | None => st <> TURBOJS_IR_OK
  end.
Proof.
  intros Hok Hnew Hf0 Hid Hsz. unfold TurboJS_CodeCacheStoreContinuation.
  rewrite (proj2 (Z.eqb_neq _ _) Hf0), (proj2 (Z.eqb_neq _ _) Hid). cbn [orb].
  destruct (find_continuation_entry c id revision start) as [[s e]|] eqn:Hf.
  - intros [= <- <- <-]. pose proof (quiet_touch outside s (destroy_native f c)) as Hq.
    split; [apply Hq; by eapply release_ok|]. split; [by rewrite (quiet_contents _ _ _ Hq)|]. split; [done|].
    rewrite touch_continuation. unfold continuation_at. change (find_continuation_entry (destroy_native f c)) with (find_continuation_entry c).
    by rewrite Hf.
  - assert (Hn : v_natives c !! f = Some n) by (apply (co_outside _ _ _ _ _ (proj1 Hok)), lookup_insert_eq).
    rewrite Hn. destruct (Z.ltb_spec (c_maximum_code_bytes c) (nf_code_size n)).
    { intros [= <- <- <-]. split; [by eapply release_ok|]. done. }
    destruct (make_room _ c (nf_code_size n) Hok ltac:(done)) as [Hs Hroom]. set (c2 := evict_until _ _ c) in *. rewrite Hroom.
    intros Htail. change (tail_continuation mem id revision start prologue f n c2 = (c', st, r)) in Htail.
    apply tail_continuation_step in Htail as (K1 & K2 & K3); try done; [|apply Hs|].
    + split; [done|]. split; [rewrite K2; apply Hs|]. destruct K3 as [(-> & -> & ->)|[-> ->]]; done.
    + intros k x Hx Hcx. apply list_find_None in Hf.
      assert (Hlx : e_live x = true) by (unfold is_continuation in Hcx; b2p; done).
      eapply Forall_lookup_1 in Hf; [|eapply (sh_entries _ _ _ Hs); eauto]. done.
Qed.

(** ** Attaching entry handles *)

(** The slots hold live entries. *)
Definition live_slots (c : TurboJSCodeCache) (owners : list nat) : Prop :=
  Forall (fun s => exists e, c_entries c !! s = Some e /\ e_live e = true) owners.

Lemma live_slots_books c c' owners : same_books c c' -> live_slots c owners -> live_slots c' owners.
Proof.
  intros Hb Ho. eapply Forall_impl; [exact Ho|]. intros s (e & He & Hl).
  destruct (same_table_lookup_r _ _ _ _ (sb_table _ _ Hb) He) as (e' & He' & Hs). exists e'.
  by rewrite (same_entry_live _ _ Hs).
Qed.

Lemma collect_owners_live grow identity es nodes owners :
  Forall (fun s => exists e, es !! s = Some e /\ e_live e = true) owners ->
  Forall (fun s => exists e, es !! s = Some e /\ e_live e = true) (collect_owners grow identity es nodes owners).1.
Proof.
  revert owners. induction nodes as [|[t s] nodes IH]; intros owners Ho; [done|]. simpl.
  destruct (es !! s) as [e|] eqn:He; [|auto]. destruct (_ || _) eqn:Hskip; [auto|]. destruct (_ || grow _); [|done].
  apply IH, Forall_app. split; [done|]. apply Forall_singleton. exists e. split; [done|].
  apply orb_false_iff in Hskip as [[_ Hl]%orb_false_iff _]. by apply negb_false_iff.
Qed.

Lemma repatch_owner_step mem identity handle generation kind arity c s :
  vault_ok c -> live_slots c [s] ->
  let c' := repatch_owner mem identity handle generation kind arity c s in vault_ok c' /\ same_books c c'.
Proof.
  intros Hok Hlive c'. apply Forall_singleton in Hlive as (e & He & Hl).
  destruct (co_native _ _ _ _ _ (proj1 Hok) s e He Hl) as (_ & _ & n & Hn & _).
  unfold c', repatch_owner. rewrite He, Hn. simpl. set (n' := nf_set_sites n _). set (c1 := c_bump clutch_repatch_incompatible _ _).
  assert (Hb1 : same_books c c1) by (split; done).
  assert (Hok1 : vault_ok c1).
  { eapply books_ok; [exact Hok| |exact Hb1]. exact (core_native _ _ _ _ _ s e n n' (proj1 Hok) He Hl Hn eq_refl). }
  destruct (_ =? 0); [done|]. set (c2 := c_bump clutch_repatch_successes 1 c1).
  destruct (register_entry_dependencies mem s c2) as [c3 ok] eqn:Hr.
  destruct (register_step outside mem c2 s e c3 ok (proj1 (bump_ok _ _ _ _ Hok1)) He Hl Hr) as (K1 & K2 & _).
  assert (Hb3 : same_books c c3) by (etransitivity; [exact Hb1|]; etransitivity; [|exact K2]; split; done).
  split; [|exact Hb3]. exact (books_ok _ _ _ Hok K1 Hb3).
Qed.

Lemma repatch_owners_step mem identity handle generation kind arity : forall owners c,
  vault_ok c -> live_slots c owners ->
  let c' := foldl (repatch_owner mem identity handle generation kind arity) c owners in vault_ok c' /\ same_books c c'.
Proof.
  induction owners as [|s owners IH]; intros c Hok Hlive; [done|]. apply Forall_cons in Hlive as [Hs Hlive]. simpl.
  destruct (repatch_owner_step mem identity handle generation kind arity c s Hok) as [K1 K2]; [by apply Forall_singleton|].
  destruct (IH _ K1) as [L1 L2]; [by eapply live_slots_books|]. split; [done|]. by etransitivity.
Qed.

Lemma repatch_dependents_step grow mem identity handle kind arity c :
  vault_ok c ->
  let c' := repatch_identity_dependents grow mem identity handle kind arity c in vault_ok c' /\ same_books c c'.
Proof.
  intros Hok c'. unfold c', repatch_identity_dependents. destruct (_ || _ || _); [done|].
  pose proof (collect_owners_live grow identity (c_entries c) (default [] (c_repatch_buckets c !! bucket_of identity_hash (c_repatch_buckets c) identity)) [] ltac:(constructor)) as Hl.
  change (c_entries (c_bump repatch_identity_lookups 1 c)) with (c_entries c).
  change (c_repatch_buckets (c_bump repatch_identity_lookups 1 c)) with (c_repatch_buckets c).
  destruct (collect_owners _ _ _ _ _) as [owners ok]. simpl in Hl.
  set (c1 := c_bump repatch_identity_nodes_visited _ _). assert (Hok1 : vault_ok c1) by (by do 2 apply bump_ok).
  assert (Hb1 : same_books c c1) by (split; done). destruct ok; cbn [negb]; [|done].
  destruct (repatch_owners_step mem identity handle (nh_generation (handle_at c1 handle)) kind arity owners c1 Hok1 Hl) as [K1 K2].
  split; [done|]. by etransitivity.
Qed.

Lemma attach_step grow mem key handle kind arity identity c c' st :
  vault_ok c -> TurboJS_CodeCacheAttachEntryHandleIdentity grow mem key handle kind arity identity c = (c', st) ->
  vault_ok c' /\ contents (c_entries c') = contents (c_entries c) /\
  (st = TURBOJS_IR_OK -> is_Some (contents (c_entries c) !! key)).
Proof.
  intros Hok. unfold TurboJS_CodeCacheAttachEntryHandleIdentity. destruct (_ || _) eqn:Hg; [by intros [= <- <-]|].
  apply orb_false_iff in Hg as [[Hk _]%orb_false_iff _]. apply Z.eqb_neq in Hk.
  pose proof (find_live c key Hok Hk) as Hf. destruct (live_slot _ _) as [[s e]|]; [|by intros [= <- <-]].
  destruct Hf as (_ & _ & _ & _ & Hm). set (c1 := if _ && _ then c_update_handle _ _ c else c). set (c2 := c_update_handle handle _ _). intros [= <- <-].
  assert (Hq : quiet c c2).
  { eapply (quiet_trans _ _ c1); [unfold c1; destruct (_ && _); [apply quiet_handles|done]|].
    eapply quiet_trans; [|apply quiet_handles]. by apply quiet_update. }
  destruct (repatch_dependents_step grow mem identity handle kind arity c2 (proj1 Hq Hok)) as [K1 K2].
  split; [done|]. split; [|by eauto]. rewrite (same_table_contents _ _ (sb_table _ _ K2)). by eapply quiet_contents.
Qed.
End Public.
