(* ===== verification/VaultRefine.v ===== *)
(** * The Vault refines a map

    The abstract cache is a finite map from keys to functions.  Lookups answer
    from it, invalidation deletes from it, compilation adds to it; an
    insertion may drop other bindings (evictions).  Every history of the
    public operations of code_cache.c follows these rules, keeps the
    invariant, and gives every function object back. *)

From stdpp Require Import gmap.
From S2P Require Import Prelude.
From S2P Require Import JitTypes.
From S2P Require Import Clutch.
From S2P Require Import IR.
From S2P Require Import Vault.
From S2P Require Import VaultTable.
From S2P Require Import VaultIndex.
From S2P Require Import VaultInv.
From S2P Require Import VaultOps.
From S2P Require Import VaultStore.

(** ** Operations and answers *)

Inductive VaultOp :=
  | DoLookup (key : Z)
  | DoCompile (mem : NodeMemory) (baseline : TurboJSIRFunction -> TurboJSIRStatus * (Z * TurboJSNativeFunction))
      (specialize : TurboJSIRFunction -> option TurboJSIRFunction) (key : Z) (ir : TurboJSIRFunction)
  | DoAttach (grow : nat -> bool) (mem : NodeMemory) (key handle : Z) (kind : TurboJSNativeEntryKind) (argument_count identity : Z)
  | DoInvalidate (key : Z)
  | DoClear
  | DoLookupContinuation (id revision start : Z)
  | DoStoreContinuation (mem : NodeMemory) (id revision start prologue native : Z) (object : TurboJSNativeFunction).

Inductive VaultAnswer :=
  | AnsFunction (f : Z)
  | AnsStatus (st : TurboJSIRStatus) (f : option Z)
  | AnsContinuation (r : option (Z * Z))
  | AnsNone.

(** One call.  A continuation is stored right after the embedder built its
    function object. *)
Definition run_op (op : VaultOp) (c : TurboJSCodeCache) : TurboJSCodeCache * VaultAnswer :=
  match op with
  | DoLookup key => let '(c, f) := TurboJS_CodeCacheLookup key c in (c, AnsFunction f)
  | DoCompile mem baseline specialize key ir =>
      let '(c, st, r) := TurboJS_CodeCacheCompile baseline specialize mem key ir c in (c, AnsStatus st r)
  | DoAttach grow mem key handle kind arity identity =>
      let '(c, st) := TurboJS_CodeCacheAttachEntryHandleIdentity grow mem key handle kind arity identity c in
      (c, AnsStatus st None)
  | DoInvalidate key => (TurboJS_CodeCacheInvalidate key c, AnsNone)
  | DoClear => (TurboJS_CodeCacheClear c, AnsNone)
  | DoLookupContinuation id revision start =>
      let '(c, r) := TurboJS_CodeCacheLookupContinuation id revision start c in (c, AnsContinuation r)
  | DoStoreContinuation mem id revision start prologue native object =>
      let c := c_set_natives (<[native := object]> (v_natives c)) c in
      let '(c, st, r) := TurboJS_CodeCacheStoreContinuation mem id revision start prologue native c in (c, AnsStatus st r)
  end.

(** What the compiler owes the cache: function objects at new addresses. *)
Definition op_fair (c : TurboJSCodeCache) (op : VaultOp) : Prop :=
  match op with
  | DoCompile _ baseline specialize _ ir => fresh_code c (compile_native baseline specialize ir)
  | DoStoreContinuation _ id _ _ _ native object =>
      id <> 0 /\ native <> 0 /\ v_natives c !! native = None /\ 0 <= nf_code_size object
  | _ => True
  end.

Inductive history : TurboJSCodeCache -> list (VaultOp * VaultAnswer) -> TurboJSCodeCache -> Prop :=
  | history_nil c : history c [] c
  | history_cons c op c1 a ops c2 :
      op_fair c op -> run_op op c = (c1, a) -> history c1 ops c2 -> history c ((op, a) :: ops) c2.

(** ** The abstract cache *)

Inductive map_step (m : gmap Z Z) : VaultOp -> VaultAnswer -> gmap Z Z -> Prop :=
  | map_lookup key :
      key <> 0 -> map_step m (DoLookup key) (AnsFunction (default 0 (m !! key))) m
  | map_lookup_null : map_step m (DoLookup 0) (AnsFunction 0) m
  | map_compile_ok mem b sp key ir f m' :
      m' !! key = Some f -> delete key m' ⊆ m -> (m !! key = None \/ (m !! key = Some f /\ m' = m)) ->
      map_step m (DoCompile mem b sp key ir) (AnsStatus TURBOJS_IR_OK (Some f)) m'
  | map_compile_fail mem b sp key ir st m' :
      st <> TURBOJS_IR_OK -> m' ⊆ m -> map_step m (DoCompile mem b sp key ir) (AnsStatus st None) m'
  | map_attach grow mem key handle kind arity identity st :
      (st = TURBOJS_IR_OK -> is_Some (m !! key)) ->
      map_step m (DoAttach grow mem key handle kind arity identity) (AnsStatus st None) m
  | map_invalidate key : key <> 0 -> map_step m (DoInvalidate key) AnsNone (delete key m)
  | map_invalidate_null : map_step m (DoInvalidate 0) AnsNone m
  | map_clear : map_step m DoClear AnsNone ∅
  | map_lookup_continuation id revision start r : map_step m (DoLookupContinuation id revision start) (AnsContinuation r) m
  | map_store_continuation mem id revision start prologue native object st r m' :
      m' ⊆ m -> map_step m (DoStoreContinuation mem id revision start prologue native object) (AnsStatus st r) m'.

Inductive map_history : gmap Z Z -> list (VaultOp * VaultAnswer) -> gmap Z Z -> Prop :=
  | map_history_nil m : map_history m [] m
  | map_history_cons m op a m1 ops m2 :
      map_step m op a m1 -> map_history m1 ops m2 -> map_history m ((op, a) :: ops) m2.

(** ** One step *)

Section Refinement.
Context (outside : gmap Z TurboJSNativeFunction).
Notation m_of c := (contents (c_entries c)).

(** A key already cached is answered from the cache. *)
Lemma compile_hit baseline specialize mem key ir c c' st r f :
  vault_ok outside c -> key <> 0 -> m_of c !! key = Some f ->
  TurboJS_CodeCacheCompile baseline specialize mem key ir c = (c', st, r) ->
  st = TURBOJS_IR_OK /\ r = Some f /\ m_of c' = m_of c.
Proof.
  intros Hok Hne Hm. unfold TurboJS_CodeCacheCompile. rewrite (proj2 (Z.eqb_neq _ _) Hne).
  pose proof (find_live outside c key Hok Hne) as Hf. destruct (live_slot _ _) as [[s e]|]; [|congruence].
  destruct Hf as (_ & _ & _ & _ & Hm'). intros [= <- <- <-]. pose proof (quiet_touch outside s c) as Hq.
  rewrite (quiet_contents _ _ _ Hq). split_and!; congruence.
Qed.

Lemma compile_refines mem baseline specialize key ir c c' st r :
  vault_ok outside c -> fresh_code c (compile_native baseline specialize ir) ->
  TurboJS_CodeCacheCompile baseline specialize mem key ir c = (c', st, r) ->
  vault_ok outside c' /\ map_step (m_of c) (DoCompile mem baseline specialize key ir) (AnsStatus st r) (m_of c').
Proof.
  intros Hok Hfresh Hrun. destruct (compile_step outside _ _ _ _ _ _ _ _ _ Hok Hfresh Hrun) as [K1 K2]. split; [done|].
  destruct r as [f|]; [destruct K2 as [-> [L1 L2]]|destruct K2 as [? ?]; by constructor]. constructor; [done|done|].
  destruct (m_of c !! key) as [g|] eqn:Hg; [right|by left]. destruct (decide (key = 0)) as [->|Hne].
  - unfold TurboJS_CodeCacheCompile in Hrun. simpl in Hrun. congruence.
  - destruct (compile_hit _ _ _ _ _ _ _ _ _ _ Hok Hne Hg Hrun) as (_ & [= ->] & ->). done.
Qed.

Lemma op_refines op c c' a :
  vault_ok outside c -> op_fair c op -> run_op op c = (c', a) ->
  vault_ok outside c' /\ map_step (m_of c) op a (m_of c').
Proof.
  intros Hok Hfair. destruct op; simpl.
  - destruct (TurboJS_CodeCacheLookup key c) as [c1 f] eqn:Hr. intros [= <- <-].
    destruct (lookup_step outside key c c1 f Hok Hr) as (K1 & -> & K3 & K4). split; [done|].
    destruct (decide (key = 0)) as [->|Hne]; [rewrite K4 by done|rewrite K3 by done]; by constructor.
  - destruct (TurboJS_CodeCacheCompile _ _ _ _ _ _) as [[c1 st] r] eqn:Hr. intros [= <- <-]. by apply compile_refines.
  - destruct (TurboJS_CodeCacheAttachEntryHandleIdentity _ _ _ _ _ _ _ _) as [c1 st] eqn:Hr. intros [= <- <-].
    destruct (attach_step outside _ _ _ _ _ _ _ _ _ _ Hok Hr) as (K1 & -> & K3). split; [done|by constructor].
  - intros [= <- <-]. destruct (decide (key = 0)) as [->|Hne]; [split; [done|]; constructor|].
    destruct (invalidate_step outside key c Hok Hne) as [K1 ->]. split; [done|by constructor].
  - intros [= <- <-]. destruct (clear_step outside c Hok) as (K1 & -> & _). split; [done|constructor].
  - destruct (TurboJS_CodeCacheLookupContinuation _ _ _ _) as [c1 r] eqn:Hr. intros [= <- <-].
    destruct (lookup_continuation_step outside _ _ _ _ _ _ Hok Hr) as (K1 & -> & _). split; [done|constructor].
  - destruct (TurboJS_CodeCacheStoreContinuation _ _ _ _ _ _ _) as [[c1 st] r] eqn:Hr. intros [= <- <-].
    destruct Hfair as (Hid & Hf0 & Hnew & Hsz). destruct (adopt_ok outside native object c Hok Hnew) as [Hok1 Hout].
    destruct (store_continuation_step outside _ _ _ _ _ _ _ _ _ _ _ Hok1 Hout Hf0 Hid Hsz Hr) as (K1 & K2 & _).
    split; [done|by constructor].
Qed.

Lemma history_refines c ops c' :
  history c ops c' -> vault_ok outside c -> vault_ok outside c' /\ map_history (m_of c) ops (m_of c').
Proof.
  induction 1 as [c|c op c1 a ops c2 Hfair Hrun _ IH]; intros Hok; [split; [done|constructor]|].
  destruct (op_refines op c c1 a Hok Hfair Hrun) as [K1 K2]. destruct (IH K1) as [L1 L2]. split; [done|]. by econstructor.
Qed.
End Refinement.

(** ** When memory is available *)

Definition plenty : NodeMemory := mkNodeMemory (fun _ => true) (fun _ => true).

Lemma register_nodes_plenty hash slot : forall ids own b added,
  (register_nodes hash (fun _ => true) slot ids own b added).2 = true.
Proof. induction ids as [|t ids IH]; intros own b added; [done|]. simpl. by destruct (_ || _). Qed.

Lemma register_identities_plenty slot c : (register_entry_repatch_dependencies plenty slot c).2 = true.
Proof.
  unfold register_entry_repatch_dependencies. destruct (register_nodes _ _ _ _ _ _ _) as [[[own b] added] ok] eqn:H.
  apply (f_equal snd) in H. rewrite register_nodes_plenty in H. simpl in H. by subst ok.
Qed.

Lemma register_plenty slot c : (register_entry_dependencies plenty slot c).2 = true.
Proof.
  unfold register_entry_dependencies. destruct (register_nodes _ _ _ _ _ _ _) as [[[own b] added] ok] eqn:H.
  apply (f_equal snd) in H. rewrite register_nodes_plenty in H. simpl in H. subst ok. cbn [negb].
  destruct (register_entry_repatch_dependencies _ _ _) as [c' ok] eqn:Hr. apply (f_equal snd) in Hr.
  rewrite register_identities_plenty in Hr. simpl in Hr. by subst ok.
Qed.

Section Fits.
Context (outside : gmap Z TurboJSNativeFunction).

Lemma tail_compile_plenty key f n c :
  is_Some (find_slot c key true) -> (tail_compile plenty key f n c).1.2 = TURBOJS_IR_OK.
Proof.
  intros [s Hs]. unfold tail_compile. rewrite Hs. destruct (register_entry_dependencies _ _ _) as [c' ok] eqn:Hr.
  apply (f_equal snd) in Hr. rewrite register_plenty in Hr. simpl in Hr. by subst ok.
Qed.

(** Room is made by evictions, and then a slot is found. *)
Lemma compile_fits baseline specialize key ir f n c :
  vault_ok outside c -> c_maximum_entries c <= slot_count c -> key <> 0 ->
  compile_native baseline specialize ir = (TURBOJS_IR_OK, (f, n)) ->
  f <> 0 -> v_natives c !! f = None -> 0 <= nf_code_size n <= c_maximum_code_bytes c ->
  contents (c_entries c) !! key = None ->
  exists c', TurboJS_CodeCacheCompile baseline specialize plenty key ir c = (c', TURBOJS_IR_OK, Some f).
Proof.
  intros Hok Hmax Hne Hcomp Hf0 Hnew [Hsz Hlim] Hno. unfold TurboJS_CodeCacheCompile. rewrite (proj2 (Z.eqb_neq _ _) Hne).
  pose proof (find_live outside c key Hok Hne) as Hf. destruct (live_slot _ _) as [[s e]|]; [destruct Hf as (_&_&_&_&?); congruence|].
  rewrite Hcomp. destruct (adopt_ok outside f n c Hok Hnew) as [Hok1 Hout].
  set (c1 := c_set_natives _ c) in *. change (c_maximum_code_bytes c1) with (c_maximum_code_bytes c).
  rewrite (proj2 (Z.ltb_ge _ _) Hlim).
  destruct (make_room _ c1 (nf_code_size n) Hok1 ltac:(done)) as [Hs Hroom].
  set (c2 := evict_until _ _ c1) in *. rewrite Hroom. change (exists c', tail_compile plenty key f n c2 = (c', TURBOJS_IR_OK, Some f)).
  assert (Hslot : is_Some (find_slot c2 key true)).
  { eapply room_slot; [apply Hs| |exact Hroom]. unfold slot_count. rewrite (proj1 (sh_limits _ _ _ Hs)), (sh_slots _ _ _ Hs). done. }
  pose proof (tail_compile_plenty key f n c2 Hslot) as Hst.
  destruct (tail_compile plenty key f n c2) as [[c' st] r] eqn:Ht. simpl in Hst. subst st.
  eapply (tail_compile_step outside plenty key f n c2) in Ht as [_ [(_ & -> & _)|(? & _)]]; try done; [by exists c'|apply Hs|].
  eapply lookup_weaken_None; [exact Hno|apply (sh_contents _ _ _ Hs)].
Qed.
End Fits.

(** ** Histories of a cache *)

(** C4 The Vault refines a finite map.  From creation on, whatever the
    allocator answers, every history of lookups, compilations, handle
    attachments, invalidations, clears and continuation stores and lookups
    keeps the invariant (table, ownership of function objects, reverse
    indices, entry and byte totals within the limits), and its answers are
    those of a map from keys to functions in which only insertions may drop
    other bindings. *)
Theorem vault_histories_refine_map mem natives handles entries bytes c0 ops c :
  0 <= entries -> 0 <= bytes <= SIZE_MAX ->
  TurboJS_CodeCacheCreate mem natives handles entries bytes = Some c0 -> history c0 ops c ->
  vault_ok natives c /\ map_history ∅ ops (contents (c_entries c)).
Proof.
  intros He Hb Hc Hh. destruct (create_step natives mem handles entries bytes c0 He Hb Hc) as (H1 & H2 & _).
  rewrite <-H2. by apply history_refines.
Qed.

(** C21 No function object is leaked or freed twice: destroying the cache
    after any history gives back exactly the function objects that were there
    before it was created. *)
Theorem vault_returns_functions mem natives handles entries bytes c0 ops c :
  0 <= entries -> 0 <= bytes <= SIZE_MAX ->
  TurboJS_CodeCacheCreate mem natives handles entries bytes = Some c0 -> history c0 ops c ->
  (TurboJS_CodeCacheDestroy c).1 = natives.
Proof.
  intros He Hb Hc Hh. destruct (create_step natives mem handles entries bytes c0 He Hb Hc) as (H1 & _ & _).
  destruct (history_refines natives c0 ops c Hh H1) as [H2 _]. apply (clear_step natives c H2).
Qed.


(** Eviction follows the score.  A cache that is not empty evicts exactly
    one live entry: none has a higher eviction score, none of the same score
    is older, and only its binding is lost. *)
Theorem eviction_takes_worst outside c :
  vault_ok outside c -> 0 < c_count c ->
  exists s e c', c_entries c !! s = Some e /\ e_live e = true /\ worst c e /\ evict_lru c = (c', true) /\
    contents (c_entries c') = forget e (contents (c_entries c)) /\ c_count c' = c_count c - 1.
Proof.
  intros Hok Hpos. pose proof (find_victim_spec c) as Hv. pose proof (evict_lru_step outside c Hok) as Hs.
  unfold evict_lru in *. destruct (find_victim c) as [[s e]|]; [|destruct Hs; lia].
  destruct Hv as (He & Hl & Hw). set (c1 := c_bump _ 1 c) in *. exists s, e, (remove_slot s true c1).
  split_and!; try done; [|apply Hs].
  by destruct (remove_slot_ok outside s true e c1 (bump_ok _ _ _ _ Hok) He Hl) as (_ & _ & ->).
Qed.

(** *** Samples *)

Definition small_code : TurboJSNativeFunction := sample_native 64 TURBOJS_VALUE_I64 [].
Definition compiler_at (f : Z) (_ : TurboJSIRFunction) : TurboJSIRStatus * (Z * TurboJSNativeFunction) :=
  (TURBOJS_IR_OK, (f, small_code)).
Definition sample_cache : TurboJSCodeCache :=
  default (mkCache [] 0 0 0 0 0 0 0 no_stats [] [] ∅ ∅) (TurboJS_CodeCacheCreate true ∅ ∅ 4 1000).
Definition sample_ops : list VaultOp :=
  [DoCompile plenty (compiler_at 100) (fun _ => None) 7 zero_function; DoLookup 7; DoInvalidate 7; DoLookup 7].

Fixpoint run_ops (ops : list VaultOp) (c : TurboJSCodeCache) : list (VaultOp * VaultAnswer) * TurboJSCodeCache :=
  match ops with
  | [] => ([], c)
  | op :: ops => let '(c, a) := run_op op c in let '(trace, c) := run_ops ops c in ((op, a) :: trace, c)
  end.

Fixpoint ops_fair (ops : list VaultOp) (c : TurboJSCodeCache) : Prop :=
  match ops with
  | [] => True
  | op :: ops => op_fair c op /\ ops_fair ops (run_op op c).1
  end.

Lemma run_ops_history : forall ops c, ops_fair ops c -> history c (run_ops ops c).1 (run_ops ops c).2.
Proof.
  induction ops as [|op ops IH]; intros c Hf; [constructor|]. destruct Hf as [H1 H2]. simpl.
  destruct (run_op op c) as [c1 a] eqn:Hr. specialize (IH c1 H2). destruct (run_ops ops c1) as [trace c2]. by econstructor.
Qed.

Lemma sample_created : TurboJS_CodeCacheCreate true ∅ ∅ 4 1000 = Some sample_cache.
Proof. reflexivity. Qed.

Lemma sample_ok : vault_ok ∅ sample_cache.
Proof. destruct (create_step ∅ true ∅ 4 1000 sample_cache) as [H _]; done. Qed.

Lemma sample_fair : ops_fair sample_ops sample_cache.
Proof. split; [intros _; split; [done|split; [reflexivity|done]]|done]. Qed.

Lemma vault_histories_refine_map_witness :
  map_history ∅ (run_ops sample_ops sample_cache).1 (contents (c_entries (run_ops sample_ops sample_cache).2)).
Proof.
  apply (vault_histories_refine_map true ∅ ∅ 4 1000 sample_cache); [done|done|exact sample_created|apply run_ops_history, sample_fair].
Defined.

Lemma vault_returns_functions_witness : (TurboJS_CodeCacheDestroy (run_ops sample_ops sample_cache).2).1 = ∅.
Proof.
  eapply (vault_returns_functions true ∅ ∅ 4 1000 sample_cache); [done|done|exact sample_created|apply run_ops_history, sample_fair].
Defined.


Definition full_ops : list VaultOp :=
  [DoCompile plenty (compiler_at 100) (fun _ => None) 7 zero_function;
   DoCompile plenty (compiler_at 101) (fun _ => None) 8 zero_function].
Definition full_cache : TurboJSCodeCache := (run_ops full_ops sample_cache).2.

Lemma full_fair : ops_fair full_ops sample_cache.
Proof.
  split; [intros _; split; [done|split; [reflexivity|done]]|]. split; [|done].
  intros _. split; [done|split; [|done]]. vm_compute. reflexivity.
Qed.

Lemma eviction_takes_worst_witness :
  exists s e c', c_entries full_cache !! s = Some e /\ e_live e = true /\ worst full_cache e /\ evict_lru full_cache = (c', true) /\
    contents (c_entries c') = forget e (contents (c_entries full_cache)) /\ c_count c' = c_count full_cache - 1.
Proof.
  apply (eviction_takes_worst ∅ full_cache); [|vm_compute; reflexivity].
  exact (proj1 (history_refines ∅ _ _ _ (run_ops_history _ _ full_fair) sample_ok)).
Defined.
