(* ===== verification/VaultRetract.v ===== *)
(** * Retracted entry handles

    The reverse index covers every call site of every cached function as long
    as the nodes can be allocated.  Invalidating, evicting or clearing a
    function therefore leaves no cached call site that still targets its
    entry handle. *)

From stdpp Require Import gmap.
From S2P Require Import Prelude.
From S2P Require Import JitTypes.
From S2P Require Import Clutch.
From S2P Require Import IR.
From S2P Require Import Vault.
From S2P Require Import VaultTable.
From S2P Require Import VaultIndex.
From S2P Require Import VaultInv.
From S2P Require Import VaultOps.
From S2P Require Import VaultStore.
From S2P Require Import VaultRefine.

(** ** Retracted handles *)

(** Every call target of a live function is in its owner's list. *)
Definition indexed (c : TurboJSCodeCache) : Prop :=
  forall s e n x, c_entries c !! s = Some e -> e_live e = true -> v_natives c !! e_function e = Some n ->
    x ∈ nf_owned_clutch_sites n -> cs_target x <> 0 -> cs_target x ∈ e_dependencies e.

Lemma unregister_heap s c :
  v_natives (unregister_entry_repatch_dependencies s (unregister_entry_dependencies s c)) = v_natives c /\
  v_handles (unregister_entry_repatch_dependencies s (unregister_entry_dependencies s c)) = v_handles c.
Proof.
  unfold unregister_entry_repatch_dependencies, unregister_entry_dependencies.
  destruct (c_entries c !! s) as [e|] eqn:He; [|by rewrite He]. case_match; done.
Qed.

(** The heap after a removal is the one after the retraction, less the
    function. *)
Lemma removed_heap s ev e c :
  c_entries c !! s = Some e -> e_live e = true ->
  exists c2, c_entries c2 = c_entries c /\ c_dependency_buckets c2 = c_dependency_buckets c /\
    c_repatch_buckets c2 = c_repatch_buckets c /\ v_natives c2 = v_natives c /\ v_handles c2 = v_handles c /\
    v_natives (remove_slot s ev c) = delete (e_function e) (v_natives (retract_handle e c2)) /\
    v_handles (remove_slot s ev c) = v_handles (retract_handle e c2).
Proof.
  intros He Hl. unfold remove_slot. rewrite He, Hl. cbn [negb].
  set (c2 := if _ =? e_key e then _ else _). exists c2. set (c3 := retract_handle e c2).
  destruct (unregister_heap s c3) as [H1 H2]. set (c5 := unregister_entry_repatch_dependencies _ _) in *.
  assert (H : c_entries c2 = c_entries c /\ c_dependency_buckets c2 = c_dependency_buckets c /\
    c_repatch_buckets c2 = c_repatch_buckets c /\ v_natives c2 = v_natives c /\ v_handles c2 = v_handles c)
    by (unfold c2; by destruct (_ =? _)).
  destruct H as (K1 & K2 & K3 & K4 & K5). split_and!; try done; rewrite <-?H1, <-?H2; by destruct ev, (e_cache_kind e =? 1).
Qed.

(** Sites of functions that do not list a target never mention it. *)
Lemma indexed_avoids c s e n t :
  indexed c -> c_entries c !! s = Some e -> e_live e = true -> v_natives c !! e_function e = Some n -> t <> 0 ->
  t ∉ e_dependencies e -> avoids t n.
Proof.
  intros Hi He Hl Hn Ht Hd. apply Forall_forall. intros x Hx Heq. apply Hd. rewrite <-Heq.
  apply (Hi s e n x); try done. congruence.
Qed.

Lemma retract_avoids outside c s e n t :
  cache_core outside c -> indexed c -> t <> 0 -> c_entries c !! s = Some e -> e_live e = true ->
  v_natives (invalidate_indexed_dependents t c) !! e_function e = Some n -> avoids t n.
Proof.
  intros Hc Hi Ht He Hl Hn. destruct (invalidate_indexed_step outside t c Ht Hc) as (_ & _ & _ & Hcalm & Hav).
  destruct (decide (t ∈ e_dependencies e)) as [Hin|Hout]; [by eapply Hav|].
  destruct (calm_lookup _ _ _ _ _ Hcalm Hn) as (n0 & Hn0 & Hcm). eapply calmed_avoids; [done|exact Hcm|].
  by eapply indexed_avoids.
Qed.

Lemma remove_avoids outside s e c :
  vault_ok outside c -> indexed c -> c_entries c !! s = Some e -> e_live e = true -> e_cache_kind e = 0 ->
  e_entry_handle e <> 0 -> nh_function (handle_at c (e_entry_handle e)) = e_function e ->
  let c' := remove_slot s false c in
  (forall k x n, c_entries c' !! k = Some x -> e_live x = true -> v_natives c' !! e_function x = Some n -> avoids (e_entry_handle e) n) /\
  handle_at c' (e_entry_handle e) = TurboJS_NativeEntryHandleInvalidate (handle_at c (e_entry_handle e)).
Proof.
  intros Hok Hi He Hl Hk Hh Hfn c'. destruct (removed_heap s false e c He Hl) as (c2 & E1 & E2 & E3 & E4 & E5 & E6 & E7).
  assert (Hc2 : cache_core outside c2) by (unfold cache_core; rewrite E1, E2, E3, E4; apply Hok).
  assert (Hi2 : indexed c2) by (unfold indexed; rewrite E1, E4; exact Hi).
  destruct (invalidate_indexed_step outside _ c2 Hh Hc2) as (_ & _ & Hhandles & _ & _).
  unfold retract_handle in E6, E7. rewrite Hk, (proj2 (Z.eqb_neq _ _) Hh) in E6, E7. unfold handle_at in *. rewrite E5, Hfn, !Z.eqb_refl in E6, E7.
  cbn in E6, E7. fold c' in E6, E7. split.
  - intros k x n Hx Hlx Hn. rewrite E6, lookup_delete in Hn. case_decide; [done|].
    destruct (remove_any outside s c Hok) as (_ & _ & _ & Hlive & _). destruct (Hlive k x Hx Hlx) as [_ Hx'].
    eapply (retract_avoids outside c2 k x n); eauto. by rewrite E1.
  - rewrite E7, lookup_insert_eq. simpl. by rewrite Hhandles, E5.
Qed.

(** ** Every operation keeps the index complete *)

Lemma indexed_keep c c' :
  v_natives c' = v_natives c ->
  (forall k e', c_entries c' !! k = Some e' -> e_live e' = true -> exists e, c_entries c !! k = Some e /\ e_live e = true /\
     e_function e' = e_function e /\ e_dependencies e' = e_dependencies e) ->
  indexed c -> indexed c'.
Proof.
  intros Hn He Hi s e' n x He' Hl Hx Hin Hne. destruct (He s e' He' Hl) as (e & He0 & Hl0 & Hf & ->).
  rewrite Hn, Hf in Hx. eauto.
Qed.

Lemma indexed_update g s c :
  keeps g -> (forall e, e_dependencies (g e) = e_dependencies e) -> indexed c -> indexed (update_entry s g c).
Proof.
  intros Hg Hd. apply indexed_keep; [done|]. intros k e' (e & He & ->)%alter_lookup_inv Hl. exists e. split; [done|].
  case_decide; [|done]. rewrite (same_entry_live _ _ (Hg e)) in Hl. by rewrite (se_function _ _ (Hg e)), Hd.
Qed.

Lemma indexed_touch s c : indexed c -> indexed (touch_entry s c).
Proof. intros Hi. by apply indexed_update. Qed.

Section Kept.
Context (outside : gmap Z TurboJSNativeFunction).
Notation vault_ok := (vault_ok outside).

Lemma indexed_remove s ev e c :
  vault_ok c -> c_entries c !! s = Some e -> e_live e = true -> indexed c -> indexed (remove_slot s ev c).
Proof.
  intros Hok He Hl Hi k x n y Hx Hlx Hn Hy Hne. pose proof (remove_slot_step outside s ev e c (proj1 Hok) He Hl) as Hr.
  rewrite (rm_entries _ _ _ _ _ Hr) in Hx. destruct (decide (k = s)) as [->|Hk].
  { destruct (removed_table_slot s (c_entries c) e He) as (z & Hz & Hlz). congruence. }
  rewrite removed_table_other in Hx by done.
  destruct (calm_lookup _ _ _ _ _ (rm_natives _ _ _ _ _ Hr) Hn) as (n0 & Hn0 & Hcm).
  destruct (calmed_targets _ _ _ _ Hcm Hy Hne) as (z & Hz & Heq). rewrite Heq. apply lookup_delete_Some in Hn0 as [_ Hn0].
  eapply (Hi k x n0 z); eauto. congruence.
Qed.

Lemma indexed_remove_any s c : vault_ok c -> indexed c -> indexed (remove_slot s false c).
Proof.
  intros Hok Hi. destruct (c_entries c !! s) as [e|] eqn:He; [destruct (e_live e) eqn:Hl|].
  - by eapply indexed_remove.
  - unfold remove_slot. by rewrite He, Hl.
  - unfold remove_slot. by rewrite He.
Qed.

Lemma indexed_evict code_size : forall fuel c, vault_ok c -> indexed c -> indexed (evict_until fuel code_size c).
Proof.
  induction fuel as [|fuel IH]; intros c Hok Hi; [done|]. simpl. destruct (_ && _); [|done].
  pose proof (evict_lru_step outside c Hok) as He. pose proof (find_victim_spec c) as Hv. unfold evict_lru in *.
  destruct (find_victim c) as [[i e]|]; [|done]. destruct Hv as (Hve & Hvl & _). destruct He as [Hs _].
  apply IH; [apply Hs|]. eapply indexed_remove; [by apply bump_ok|exact Hve|done|exact Hi].
Qed.

Lemma indexed_adopt f n c : vault_ok c -> v_natives c !! f = None -> indexed c -> indexed (c_set_natives (<[f := n]> (v_natives c)) c).
Proof.
  intros Hok Hf Hi s e m x He Hl Hm Hx Hne. eapply (Hi s e m x); eauto. simpl in Hm. rewrite lookup_insert_ne in Hm; [done|].
  intros ->. destruct (co_native _ _ _ _ _ (proj1 Hok) s e He Hl) as (_ & _ & k & Hk & _). congruence.
Qed.

Lemma indexed_release f c : indexed c -> indexed (destroy_native f c).
Proof. intros Hi s e m x He Hl Hm Hx Hne. eapply (Hi s e m x); eauto. by apply (lookup_delete_Some (v_natives c)) in Hm as [_ Hm]. Qed.

(** A registration completes its own slot. *)
Lemma indexed_register mem s e c c' :
  cache_core outside c -> c_entries c !! s = Some e -> e_live e = true ->
  (forall k x n y, k <> s -> c_entries c !! k = Some x -> e_live x = true -> v_natives c !! e_function x = Some n ->
     y ∈ nf_owned_clutch_sites n -> cs_target y <> 0 -> cs_target y ∈ e_dependencies x) ->
  register_entry_dependencies mem s c = (c', true) -> indexed c'.
Proof.
  intros Hc He Hl Hother Hr. destruct (register_step outside mem c s e c' true Hc He Hl Hr) as (_ & Hb & Hn & Hk & Hs).
  intros k x n y Hx Hlx Hnx Hy Hne. rewrite Hn in Hnx. destruct (decide (k = s)) as [->|Hks].
  - eapply Hs; [done|done| |done]. destruct (same_table_lookup _ _ _ _ (sb_table _ _ Hb) Hx) as (e1 & He1 & Hse).
    rewrite He in He1. injection He1 as <-. unfold sites_of. rewrite He, <-(se_function _ _ Hse), Hnx.
    apply list_elem_of_fmap. eauto.
  - rewrite Hk in Hx by done. eauto.
Qed.
End Kept.

Section Insertions.
Context (outside : gmap Z TurboJSNativeFunction) (f : Z) (n : TurboJSNativeFunction) (c : TurboJSCodeCache) (s : nat).
Context (e0 : TurboJSCodeCacheEntry) (g : TurboJSCodeCacheEntry -> TurboJSCodeCacheEntry).
Context (Hok : vault_ok (<[f := n]> outside) c) (Hnew : outside !! f = None).
Context (He0 : c_entries c !! s = Some e0) (Hl0 : e_live e0 = false).
Context (Hfi : fills (c_entries c) s f n (g e0)).
Context (Hgd : e_dependencies (g e0) = e_dependencies e0) (Hgr : e_repatch_dependencies (g e0) = e_repatch_dependencies e0).

Lemma indexed_place c' :
  indexed c -> register_entry_dependencies plenty s (place s g (nf_code_size n) c) = (c', true) -> indexed c'.
Proof.
  intros Hi. eapply (indexed_register outside).
  - by eapply place_core.
  - by apply place_slot.
  - apply Hfi.
  - intros k x m y Hk Hx. simpl in Hx. rewrite list_lookup_alter_ne in Hx by congruence. simpl. eauto.
Qed.
End Insertions.

(** ** Operations with memory *)

Definition op_plenty (op : VaultOp) : Prop :=
  match op with
  | DoCompile mem _ _ _ _ | DoAttach _ mem _ _ _ _ _ | DoStoreContinuation mem _ _ _ _ _ _ => mem = plenty
  | _ => True
  end.

Section Ops.
Context (outside : gmap Z TurboJSNativeFunction).
Notation vault_ok := (vault_ok outside).

Lemma indexed_lookup key c : indexed c -> indexed (TurboJS_CodeCacheLookup key c).1.
Proof.
  intros Hi. unfold TurboJS_CodeCacheLookup. destruct (key =? 0); [done|]. destruct (_ && _).
  - simpl. destruct (live_slot _ _) as [[s e]|]; [|done]. by apply indexed_touch.
  - destruct (live_slot _ _) as [[s e]|]; [|done]. by apply (indexed_touch s (c_bump hits 1 c)).
Qed.

Lemma indexed_tail_compile key f n c :
  VaultInv.vault_ok (<[f := n]> outside) c -> outside !! f = None -> f <> 0 -> key <> 0 -> 0 <= nf_code_size n ->
  contents (c_entries c) !! key = None -> indexed c -> indexed (tail_compile plenty key f n c).1.1.
Proof.
  intros Hok Hnew Hf0 Hk0 Hsz Hno Hi. unfold tail_compile. pose proof (co_table _ _ _ _ _ (proj1 Hok)) as Ht.
  destruct (find_slot c key true) as [s|] eqn:Hs; [|by apply indexed_release].
  destruct (find_absent c key true s Ht (key_absent _ _ Ht Hk0 Hno) Hs) as (e0 & He0 & Hl0 & Hr).
  set (g := fill_entry key f (nf_code_size n) (c_clock (tick c)) 0).
  assert (Hfi : fills (c_entries c) s f n (g e0)) by (split; try done; by left).
  pose proof (register_plenty s (place s g (nf_code_size n) c)) as Hp.
  destruct (register_entry_dependencies plenty s _) as [c1 ok] eqn:Hreg. simpl in Hp. subst ok. cbn [negb].
  exact (indexed_place outside f n c s e0 g Hok Hnew He0 Hl0 Hfi eq_refl eq_refl c1 Hi Hreg).
Qed.

Lemma indexed_compile baseline specialize key ir c :
  vault_ok c -> fresh_code c (compile_native baseline specialize ir) -> indexed c ->
  indexed (TurboJS_CodeCacheCompile baseline specialize plenty key ir c).1.1.
Proof.
  intros Hok Hfresh Hi. unfold TurboJS_CodeCacheCompile. destruct (Z.eqb_spec key 0) as [|Hne]; [done|].
  pose proof (find_live outside c key Hok Hne) as Hf. destruct (live_slot _ _) as [[s e]|]; [by apply indexed_touch|].
  destruct (compile_native baseline specialize ir) as [st0 [f n]]. unfold fresh_code in Hfresh. simpl in Hfresh.
  destruct (decide (st0 = TURBOJS_IR_OK)) as [->|Hst]; [|by destruct st0].
  destruct (Hfresh eq_refl) as (Hf0 & Hnew & Hsz). destruct (adopt_ok outside f n c Hok Hnew) as [Hok1 Hout].
  pose proof (indexed_adopt outside f n c Hok Hnew Hi) as Hi1. set (c1 := c_set_natives _ c) in *.
  destruct (Z.ltb_spec (c_maximum_code_bytes c1) (nf_code_size n)); [by apply indexed_release|].
  destruct (make_room _ c1 (nf_code_size n) Hok1 ltac:(done)) as [Hs Hroom].
  pose proof (indexed_evict _ (nf_code_size n) (S (length (c_entries c1))) c1 Hok1 Hi1) as Hi2.
  set (c2 := evict_until _ _ c1) in *. rewrite Hroom. change (indexed (tail_compile plenty key f n c2).1.1).
  apply indexed_tail_compile; try done; [apply Hs|]. eapply lookup_weaken_None; [exact Hf|apply (sh_contents _ _ _ Hs)].
Qed.

Lemma indexed_tail_continuation id revision start prologue f n c :
  VaultInv.vault_ok (<[f := n]> outside) c -> outside !! f = None -> f <> 0 -> 0 <= nf_code_size n -> indexed c ->
  indexed (tail_continuation plenty id revision start prologue f n c).1.1.
Proof.
  intros Hok Hnew Hf0 Hsz Hi. unfold tail_continuation, first_free.
  destruct (list_find _ _) as [[s e0]|] eqn:Hs; simpl; [|by apply indexed_release]. apply list_find_Some in Hs as (He0 & Hl0 & _).
  set (g := fill_continuation f (nf_code_size n) _ id revision start prologue).
  assert (Hfi : fills (c_entries c) s f n (g e0)) by (split; try done; by right).
  pose proof (register_plenty s (place s g (nf_code_size n) c)) as Hp.
  destruct (register_entry_dependencies plenty s _) as [c1 ok] eqn:Hreg. simpl in Hp. subst ok. cbn [negb].
  exact (indexed_place outside f n c s e0 g Hok Hnew He0 Hl0 Hfi eq_refl eq_refl c1 Hi Hreg).
Qed.

Lemma indexed_store id revision start prologue f n c :
  VaultInv.vault_ok (<[f := n]> outside) c -> outside !! f = None -> f <> 0 -> id <> 0 -> 0 <= nf_code_size n -> indexed c ->
  indexed (TurboJS_CodeCacheStoreContinuation plenty id revision start prologue f c).1.1.
Proof.
  intros Hok Hnew Hf0 Hid Hsz Hi. unfold TurboJS_CodeCacheStoreContinuation.
  rewrite (proj2 (Z.eqb_neq _ _) Hf0), (proj2 (Z.eqb_neq _ _) Hid). cbn [orb].
  destruct (find_continuation_entry c id revision start) as [[s e]|]; [by apply indexed_touch, indexed_release|].
  assert (Hn : v_natives c !! f = Some n) by (apply (co_outside _ _ _ _ _ (proj1 Hok)), lookup_insert_eq).
  rewrite Hn. destruct (Z.ltb_spec (c_maximum_code_bytes c) (nf_code_size n)); [by apply indexed_release|].
  destruct (make_room _ c (nf_code_size n) Hok ltac:(done)) as [Hs Hroom].
  pose proof (indexed_evict _ (nf_code_size n) (S (length (c_entries c))) c Hok Hi) as Hi2.
  set (c2 := evict_until _ _ c) in *. rewrite Hroom.
  change (indexed (tail_continuation plenty id revision start prologue f n c2).1.1).
  apply indexed_tail_continuation; try done. apply Hs.
Qed.

Lemma indexed_repatch_owner identity handle generation kind arity c s :
  vault_ok c -> live_slots c [s] -> indexed c -> indexed (repatch_owner plenty identity handle generation kind arity c s).
Proof.
  intros Hok Hlive Hi. apply Forall_singleton in Hlive as (e & He & Hl).
  destruct (co_native _ _ _ _ _ (proj1 Hok) s e He Hl) as (_ & _ & n & Hn & _).
  unfold repatch_owner. rewrite He, Hn. simpl. set (n' := nf_set_sites n _). set (c1 := c_bump clutch_repatch_incompatible _ _).
  destruct (Z.eqb_spec (Z.of_nat (length (filter (fun s => repatchable identity kind arity s = true) (nf_owned_clutch_sites n)))) 0) as [H0|_].
  - assert (Hsame : v_natives c1 = v_natives c); [|by apply (indexed_keep c); eauto 10].
    apply insert_id. rewrite Hn. f_equal. unfold n', nf_set_sites. destruct n as [? ? ? ? ? ? ? ? ? ? ? ? ? sites]. simpl in *. f_equal.
    clear - H0. induction sites as [|x sites IH]; [done|]. rewrite filter_cons in H0. simpl.
    destruct (repatchable identity kind arity x) eqn:Hr; [rewrite decide_True in H0 by done; simpl in H0; lia|].
    rewrite decide_False in H0 by congruence. rewrite <-(IH H0). f_equal. unfold repatch_site. by rewrite Hr.
  - set (c2 := c_bump clutch_repatch_successes 1 c1). pose proof (register_plenty s c2) as Hp.
    destruct (register_entry_dependencies plenty s c2) as [c3 ok] eqn:Hr. simpl in Hp. subst ok. simpl.
    eapply (indexed_register outside plenty s e c2); [|exact He|done| |exact Hr].
    + exact (core_native _ _ _ _ _ s e n n' (proj1 Hok) He Hl Hn eq_refl).
    + intros k x m y Hk Hx Hlx Hm. apply (Hi k x m y); try done. simpl in Hm. rewrite lookup_insert_ne in Hm; [done|].
      intros Heq. apply Hk. symmetry. eapply (co_owner _ _ _ _ _ (proj1 Hok) s k e x); eauto.
Qed.

Lemma indexed_repatch_owners identity handle generation kind arity : forall owners c,
  vault_ok c -> live_slots c owners -> indexed c ->
  indexed (foldl (repatch_owner plenty identity handle generation kind arity) c owners).
Proof.
  induction owners as [|s owners IH]; intros c Hok Hlive Hi; [done|]. apply Forall_cons in Hlive as [Hs Hlive]. simpl.
  assert (Hs1 : live_slots c [s]) by (by apply Forall_singleton).
  destruct (repatch_owner_step outside plenty identity handle generation kind arity c s Hok Hs1) as [K1 K2].
  apply IH; [done|by eapply live_slots_books|]. by apply indexed_repatch_owner.
Qed.

Lemma indexed_attach grow key handle kind arity identity c :
  vault_ok c -> indexed c -> indexed (TurboJS_CodeCacheAttachEntryHandleIdentity grow plenty key handle kind arity identity c).1.
Proof.
  intros Hok Hi. unfold TurboJS_CodeCacheAttachEntryHandleIdentity. destruct (_ || _); [done|].
  destruct (live_slot _ _) as [[s e]|]; [|done]. cbv zeta. cbn [fst].
  set (c1 := if _ && _ then c_update_handle _ _ c else c). set (c2 := c_update_handle handle _ _).
  assert (Hok2 : vault_ok c2).
  { assert (Hq : quiet outside c c2); [|by apply Hq].
    eapply (quiet_trans _ _ c1); [unfold c1; destruct (_ && _); [apply quiet_handles|done]|].
    eapply quiet_trans; [|apply quiet_handles]. by apply quiet_update. }
  assert (Hi1 : indexed c1) by (unfold c1; by destruct (_ && _)).
  assert (Hi2 : indexed c2) by (exact (indexed_update (e_set_handle handle kind identity) s c1 (keeps_set_handle _ _ _) (fun _ => eq_refl) Hi1)).
  unfold repatch_identity_dependents. destruct (_ || _ || _); [done|].
  pose proof (collect_owners_live grow identity (c_entries c2) (default [] (c_repatch_buckets c2 !! bucket_of identity_hash (c_repatch_buckets c2) identity)) [] ltac:(constructor)) as Hl.
  change (c_entries (c_bump repatch_identity_lookups 1 c2)) with (c_entries c2).
  change (c_repatch_buckets (c_bump repatch_identity_lookups 1 c2)) with (c_repatch_buckets c2).
  destruct (collect_owners _ _ _ _ _) as [owners ok]. simpl in Hl. destruct ok; cbn [negb]; [|done].
  apply indexed_repatch_owners; [by do 2 apply bump_ok|exact Hl|exact Hi2].
Qed.

Lemma indexed_clear c : indexed (TurboJS_CodeCacheClear c).
Proof. intros s e n x He Hl. simpl in He. apply lookup_replicate in He as [-> _]. done. Qed.

Lemma indexed_op op c c' a :
  vault_ok c -> op_fair c op -> op_plenty op -> run_op op c = (c', a) -> indexed c -> indexed c'.
Proof.
  intros Hok Hfair Hmem Hrun Hi. destruct op; simpl in Hmem, Hfair; subst; simpl in Hrun.
  - pose proof (indexed_lookup key c Hi). destruct (TurboJS_CodeCacheLookup key c). by injection Hrun as <- <-.
  - pose proof (indexed_compile baseline specialize key ir c Hok Hfair Hi).
    destruct (TurboJS_CodeCacheCompile _ _ _ _ _ _) as [[? ?] ?]. by injection Hrun as <- <-.
  - pose proof (indexed_attach grow key handle kind argument_count identity c Hok Hi).
    destruct (TurboJS_CodeCacheAttachEntryHandleIdentity _ _ _ _ _ _ _ _). by injection Hrun as <- <-.
  - injection Hrun as <- <-. unfold TurboJS_CodeCacheInvalidate. destruct (key =? 0); [done|].
    destruct (find_slot c key false); [by apply (indexed_remove_any outside)|done].
  - injection Hrun as <- <-. apply indexed_clear.
  - unfold TurboJS_CodeCacheLookupContinuation in Hrun. destruct (find_continuation_entry _ _ _ _) as [[s e]|]; injection Hrun as <- <-; [|done].
    by apply (indexed_touch s c).
  - destruct Hfair as (Hid & Hf0 & Hnew & Hsz). destruct (adopt_ok outside native object c Hok Hnew) as [Hok1 Hout].
    pose proof (indexed_store id revision start prologue native object _ Hok1 Hout Hf0 Hid Hsz (indexed_adopt outside native object c Hok Hnew Hi)).
    destruct (TurboJS_CodeCacheStoreContinuation _ _ _ _ _ _ _) as [[? ?] ?]. by injection Hrun as <- <-.
Qed.

Lemma indexed_history c ops c' :
  history c ops c' -> vault_ok c -> Forall (fun oa => op_plenty oa.1) ops -> indexed c -> indexed c'.
Proof.
  induction 1 as [c|c op c1 a ops c2 Hfair Hrun _ IH]; intros Hok Hp Hi; [done|]. apply Forall_cons in Hp as [Hp1 Hp2].
  apply IH; [|done|by eapply indexed_op]. by destruct (op_refines outside op c c1 a Hok Hfair Hrun).
Qed.
End Ops.

(** ** The guarantee *)

(** C16 Invalidation is complete.  In a cache that had memory for its index
    nodes, removing a function whose entry handle is published retracts the
    handle and leaves no call site in any cached function that targets it. *)
Theorem invalidation_leaves_no_call_site natives handles entries bytes c0 ops c s e :
  0 <= entries -> 0 <= bytes <= SIZE_MAX ->
  TurboJS_CodeCacheCreate true natives handles entries bytes = Some c0 -> history c0 ops c ->
  Forall (fun oa => op_plenty oa.1) ops ->
  c_entries c !! s = Some e -> e_live e = true -> e_cache_kind e = 0 ->
  e_entry_handle e <> 0 -> nh_function (handle_at c (e_entry_handle e)) = e_function e ->
  let c' := TurboJS_CodeCacheInvalidate (e_key e) c in
  nh_function (handle_at c' (e_entry_handle e)) = 0 /\
  forall k x n, c_entries c' !! k = Some x -> e_live x = true -> v_natives c' !! e_function x = Some n ->
    Forall (fun site => cs_target site <> e_entry_handle e) (nf_owned_clutch_sites n).
Proof.
  intros He Hb Hc Hh Hp Hs Hl Hk Hh0 Hfn c'. destruct (create_step natives true handles entries bytes c0 He Hb Hc) as (H1 & _ & _).
  assert (Hi0 : indexed c0).
  { intros k x n y Hx Hlx. unfold TurboJS_CodeCacheCreate in Hc. destruct (next_pow2 _) as [slots|]; [|done].
    simpl in Hc. injection Hc as <-. simpl in Hx. by apply lookup_replicate in Hx as [-> _]. }
  pose proof (indexed_history natives c0 ops c Hh H1 Hp Hi0) as Hi. destruct (history_refines natives c0 ops c Hh H1) as [Hok _].
  destruct (t_kind _ (co_table _ _ _ _ _ (proj1 Hok)) s e Hs Hl) as [(_ & Hne & _)|[? _]]; [|congruence].
  assert (Hc' : c' = remove_slot s false c).
  { unfold c', TurboJS_CodeCacheInvalidate. rewrite (proj2 (Z.eqb_neq _ _) Hne).
    by rewrite (find_present c (e_key e) false s e (co_table _ _ _ _ _ (proj1 Hok)) Hs Hl eq_refl Hne). }
  rewrite Hc'. destruct (remove_avoids natives s e c Hok Hi Hs Hl Hk Hh0 Hfn) as [K1 ->]. split; [done|exact K1].
Qed.

(** *** Samples: a caller whose site is patched to a callee's handle *)

Definition caller_site : TurboJSClutchCallSite :=
  mkCallSite 0 0 1 TURBOJS_NATIVE_ENTRY_INT32 0 0 0 no_hooks false 5 0 0 0 [0; 0; 0; 0].
Definition caller_code (_ : TurboJSIRFunction) : TurboJSIRStatus * (Z * TurboJSNativeFunction) :=
  (TURBOJS_IR_OK, (100, sample_native 64 TURBOJS_VALUE_I64 [caller_site])).
Definition linked_ops (mem : NodeMemory) : list VaultOp :=
  [DoCompile plenty caller_code (fun _ => None) 7 zero_function;
   DoCompile plenty (compiler_at 101) (fun _ => None) 8 zero_function;
   DoAttach (fun _ => true) mem 8 900 TURBOJS_NATIVE_ENTRY_INT32 1 5].
Definition linked_cache (mem : NodeMemory) : TurboJSCodeCache := (run_ops (linked_ops mem) sample_cache).2.
Definition callee_slot : nat := Eval vm_compute in default O (find_slot (linked_cache plenty) 8 false).
Definition callee_entry : TurboJSCodeCacheEntry := Eval vm_compute in default empty_entry (c_entries (linked_cache plenty) !! callee_slot).

Definition targets_of (c : TurboJSCodeCache) (f : Z) : option (list Z) := map cs_target ∘ nf_owned_clutch_sites <$> v_natives c !! f.

Lemma run_ops_plenty : forall ops c, Forall op_plenty ops -> Forall (fun oa => op_plenty oa.1) (run_ops ops c).1.
Proof.
  induction ops as [|op ops IH]; intros c Hp; [constructor|]. apply Forall_cons in Hp as [H1 H2]. cbn [run_ops].
  destruct (run_op op c) as [c1 a]. specialize (IH c1 H2). destruct (run_ops ops c1). by constructor.
Qed.

Lemma linked_fair mem : ops_fair (linked_ops mem) sample_cache.
Proof.
  split; [intros _; split; [done|split; [reflexivity|done]]|]. split; [|done].
  intros _. split; [done|split; [|done]]. vm_compute. reflexivity.
Qed.

Lemma invalidation_leaves_no_call_site_witness :
  targets_of (linked_cache plenty) 100 = Some [900] /\
  let c' := TurboJS_CodeCacheInvalidate 8 (linked_cache plenty) in
  nh_function (handle_at c' 900) = 0 /\
  forall k x n, c_entries c' !! k = Some x -> e_live x = true -> v_natives c' !! e_function x = Some n ->
    Forall (fun site => cs_target site <> 900) (nf_owned_clutch_sites n).
Proof.
  split; [vm_compute; reflexivity|].
  apply (invalidation_leaves_no_call_site ∅ ∅ 4 1000 sample_cache (run_ops (linked_ops plenty) sample_cache).1
    (linked_cache plenty) callee_slot callee_entry); try done.
  - apply run_ops_history, linked_fair.
  - apply run_ops_plenty. repeat constructor.
Defined.

(** Patching call sites ignores a failed registration: when the index
    nodes of the patched owner cannot be allocated, its call site keeps the
    new target but is in no index, and invalidating the callee leaves it
    pointing at the retracted handle. *)
Theorem failed_registration_leaves_call_site :
  let c := linked_cache (mkNodeMemory (fun _ => false) (fun _ => true)) in
  let c' := TurboJS_CodeCacheInvalidate 8 c in
  targets_of c 100 = Some [900] /\ targets_of c' 100 = Some [900] /\ nh_function (handle_at c' 900) = 0.
Proof. vm_compute. done. Qed.
