(* ===== verification/VaultCode.v ===== *)
(** * What the Vault keeps of the code it stores

    A function object in the cache is the object the compiler delivered, up
    to the targets of its call sites.  [carries] says that every live entry of
    the new state was there before with the same code; every operation
    carries all entries but the one it inserts.  A property of the code under
    a key that does not look at call sites is therefore an invariant. *)

From stdpp Require Import gmap.
From S2P Require Import Prelude.
From S2P Require Import JitTypes.
From S2P Require Import Clutch.
From S2P Require Import IR.
From S2P Require Import Vault.
From S2P Require Import VaultTable.
From S2P Require Import VaultIndex.
From S2P Require Import VaultInv.
From S2P Require Import VaultOps.
From S2P Require Import VaultStore.
From S2P Require Import VaultRefine.

(** The same code, with other call-site targets. *)
Definition resited (n n' : TurboJSNativeFunction) : Prop := exists sites, n' = nf_set_sites n sites.

#[export] Instance resited_refl : Reflexive resited.
Proof. intros n. exists (nf_owned_clutch_sites n). by destruct n. Qed.
#[export] Instance resited_trans : Transitive resited.
Proof. intros n1 n2 n3 [s1 ->] [s2 ->]. by exists s2. Qed.

Lemma calmed_resited t n n' : calmed t n n' -> resited n n'.
Proof. intros [Hc _]. by exists (nf_owned_clutch_sites n'). Qed.

(** A live entry with its function object. *)
Definition holds (c : TurboJSCodeCache) (s : nat) (e : TurboJSCodeCacheEntry) (n : TurboJSNativeFunction) : Prop :=
  c_entries c !! s = Some e /\ e_live e = true /\ v_natives c !! e_function e = Some n.

(** The entry [e'] with [n'] of a later state was [s] of [c]. *)
Definition carried (c : TurboJSCodeCache) (s : nat) (e' : TurboJSCodeCacheEntry) (n' : TurboJSNativeFunction) : Prop :=
  exists e n, holds c s e n /\ same_entry e e' /\ resited n n'.

Definition carries (c c' : TurboJSCodeCache) : Prop := forall s e' n', holds c' s e' n' -> carried c s e' n'.

#[export] Instance carries_refl : Reflexive carries.
Proof. intros c s e n H. by exists e, n. Qed.
#[export] Instance carries_trans : Transitive carries.
Proof.
  intros c1 c2 c3 H1 H2 s e n H. destruct (H2 s e n H) as (e2 & n2 & K1 & K2 & K3).
  destruct (H1 s e2 n2 K1) as (e1 & n1 & L1 & L2 & L3). exists e1, n1. split; [done|]. split; by etransitivity.
Qed.

Lemma carries_same c c' : v_natives c' = v_natives c -> same_table (c_entries c) (c_entries c') -> carries c c'.
Proof.
  intros Hn Ht s e' n' (He & Hl & Hf). destruct (same_table_lookup _ _ _ _ Ht He) as (e & He0 & Hs).
  exists e, n'. rewrite (same_entry_live _ _ Hs) in Hl. rewrite Hn, (se_function _ _ Hs) in Hf. done.
Qed.

Section Carried.
Context (outside : gmap Z TurboJSNativeFunction).
Notation vault_ok := (vault_ok outside).

Lemma carries_touch s c : carries c (touch_entry s c).
Proof. apply carries_same; [done|]. by apply same_table_alter. Qed.

Lemma carries_remove s ev e c :
  vault_ok c -> c_entries c !! s = Some e -> e_live e = true -> carries c (remove_slot s ev c).
Proof.
  intros Hok He Hl k x n (Hx & Hlx & Hn). pose proof (remove_slot_step outside s ev e c (proj1 Hok) He Hl) as Hr.
  rewrite (rm_entries _ _ _ _ _ Hr) in Hx. destruct (decide (k = s)) as [->|Hk].
  { destruct (removed_table_slot s (c_entries c) e He) as (z & Hz & Hlz). congruence. }
  rewrite removed_table_other in Hx by done.
  destruct (calm_lookup _ _ _ _ _ (rm_natives _ _ _ _ _ Hr) Hn) as (n0 & Hn0 & Hcm). apply lookup_delete_Some in Hn0 as [_ Hn0].
  exists x, n0. split; [done|]. split; [done|]. by eapply calmed_resited.
Qed.

Lemma carries_remove_any s c : vault_ok c -> carries c (remove_slot s false c).
Proof.
  intros Hok. destruct (c_entries c !! s) as [e|] eqn:He; [destruct (e_live e) eqn:Hl|].
  - by eapply carries_remove.
  - unfold remove_slot. by rewrite He, Hl.
  - unfold remove_slot. by rewrite He.
Qed.

Lemma carries_evict code_size : forall fuel c, vault_ok c -> carries c (evict_until fuel code_size c).
Proof.
  induction fuel as [|fuel IH]; intros c Hok; [done|]. simpl. destruct (_ && _); [|done].
  pose proof (evict_lru_step outside c Hok) as He. pose proof (find_victim_spec c) as Hv. unfold evict_lru in *.
  destruct (find_victim c) as [[i e]|]; [|done]. destruct Hv as (Hve & Hvl & _). destruct He as [Hs _].
  etransitivity; [|apply IH, Hs]. set (c1 := c_bump _ 1 c). transitivity c1; [by apply carries_same|].
  eapply (carries_remove i true e c1); [by apply bump_ok|done|done].
Qed.

Lemma carries_adopt f n c : vault_ok c -> v_natives c !! f = None -> carries c (c_set_natives (<[f := n]> (v_natives c)) c).
Proof.
  intros Hok Hf s e m (He & Hl & Hm). exists e, m. split; [|done]. split_and!; [done|done|]. simpl in Hm.
  rewrite lookup_insert_ne in Hm; [done|]. intros ->.
  destruct (co_native _ _ _ _ _ (proj1 Hok) s e He Hl) as (_ & _ & k & Hk & _). congruence.
Qed.

Lemma carries_release f c : carries c (destroy_native f c).
Proof.
  intros s e m (He & Hl & Hm). exists e, m. split; [|done]. split_and!; [done|done|].
  by apply (lookup_delete_Some (v_natives c)) in Hm as [_ Hm].
Qed.

(** All but the entry in slot [s], which is new. *)
Lemma carries_place mem n c s e0 g c' ok :
  c_entries c !! s = Some e0 -> cache_core outside (place s g (nf_code_size n) c) -> e_live (g e0) = true ->
  register_entry_dependencies mem s (place s g (nf_code_size n) c) = (c', ok) ->
  forall k e' n', holds c' k e' n' ->
    carried c k e' n' \/ (k = s /\ same_entry (g e0) e' /\ v_natives c !! e_function (g e0) = Some n').
Proof.
  intros He0 Hcore Hl Hr k e' n' (He' & Hl' & Hn').
  destruct (register_step outside mem _ s (g e0) c' ok Hcore (place_slot n c s e0 g He0) Hl Hr) as (_ & Hb & Hn & _).
  destruct (same_table_lookup _ _ _ _ (sb_table _ _ Hb) He') as (e & He & Hs). rewrite Hn in Hn'.
  rewrite (same_entry_live _ _ Hs) in Hl'. rewrite (se_function _ _ Hs) in Hn'.
  apply alter_lookup_inv in He as (z & Hz & ->). destruct (decide (s = k)) as [->|Hk].
  - right. assert (z = e0) as -> by (simpl in Hz; congruence). done.
  - left. by exists z, n'.
Qed.

Lemma carries_repatch_owner mem identity handle generation kind arity c s :
  vault_ok c -> live_slots c [s] -> carries c (repatch_owner mem identity handle generation kind arity c s).
Proof.
  intros Hok Hlive. apply Forall_singleton in Hlive as (e & He & Hl).
  destruct (co_native _ _ _ _ _ (proj1 Hok) s e He Hl) as (_ & _ & n & Hn & _).
  unfold repatch_owner. rewrite He, Hn. simpl. set (n' := nf_set_sites n _). set (c1 := c_bump clutch_repatch_incompatible _ _).
  assert (Hc1 : carries c c1).
  { intros k x m (Hx & Hlx & Hm). simpl in Hm. rewrite lookup_insert in Hm. case_decide as Heq.
    - injection Hm as <-. assert (k = s) as -> by (eapply (co_owner _ _ _ _ _ (proj1 Hok) k s x e); eauto).
      exists x, n. split; [split_and!; [done|done|by rewrite <-Heq]|]. split; [done|]. by eexists.
    - by exists x, m. }
  destruct (_ =? 0); [done|]. etransitivity; [exact Hc1|]. set (c2 := c_bump clutch_repatch_successes 1 c1).
  destruct (register_entry_dependencies mem s c2) as [c3 ok] eqn:Hr.
  assert (Hcore : cache_core outside c2) by exact (core_native _ _ _ _ _ s e n n' (proj1 Hok) He Hl Hn eq_refl).
  destruct (register_step outside mem c2 s e c3 ok Hcore He Hl Hr) as (_ & Hb & Hns & _).
  apply carries_same; [exact Hns|apply Hb].
Qed.

Lemma carries_repatch_owners mem identity handle generation kind arity : forall owners c,
  vault_ok c -> live_slots c owners -> carries c (foldl (repatch_owner mem identity handle generation kind arity) c owners).
Proof.
  induction owners as [|s owners IH]; intros c Hok Hlive; [done|]. apply Forall_cons in Hlive as [Hs Hlive]. simpl.
  assert (Hs1 : live_slots c [s]) by (by apply Forall_singleton).
  destruct (repatch_owner_step outside mem identity handle generation kind arity c s Hok Hs1) as [K1 K2].
  etransitivity; [by apply carries_repatch_owner|]. apply IH; [done|by eapply live_slots_books].
Qed.
End Carried.

(** The entry a stored continuation gets. *)
Record is_inserted (id revision start prologue f : Z) (n : TurboJSNativeFunction) (e : TurboJSCodeCacheEntry)
    (n' : TurboJSNativeFunction) : Prop := {
  ic_kind : e_cache_kind e = 1;
  ic_id : e_continuation_function_id e = id;
  ic_revision : e_continuation_revision e = revision;
  ic_start : e_continuation_start_instruction e = start;
  ic_prologue : e_continuation_prologue_count e = prologue;
  ic_function : e_function e = f;
  ic_native : resited n n'
}.

(** Storing a continuation carries all entries but the new one. *)
Lemma store_carries outside mem id revision start prologue f n c :
  VaultInv.vault_ok (<[f := n]> outside) c -> outside !! f = None -> f <> 0 -> id <> 0 -> 0 <= nf_code_size n ->
  forall k e' n', holds (TurboJS_CodeCacheStoreContinuation mem id revision start prologue f c).1.1 k e' n' ->
    carried c k e' n' \/ is_inserted id revision start prologue f n e' n'.
Proof.
  intros Hok Hnew Hf0 Hid Hsz. unfold TurboJS_CodeCacheStoreContinuation.
  rewrite (proj2 (Z.eqb_neq _ _) Hf0), (proj2 (Z.eqb_neq _ _) Hid). cbn [orb].
  destruct (find_continuation_entry c id revision start) as [[s e]|].
  { intros k e' n' Hh. left. revert k e' n' Hh. change (carries c (touch_entry s (destroy_native f c))).
    etransitivity; [apply carries_release|apply carries_touch]. }
  assert (Hn : v_natives c !! f = Some n) by (apply (co_outside _ _ _ _ _ (proj1 Hok)), lookup_insert_eq).
  rewrite Hn. destruct (Z.ltb_spec (c_maximum_code_bytes c) (nf_code_size n)).
  { intros k e' n' Hh. left. exact (carries_release f c k e' n' Hh). }
  destruct (make_room _ c (nf_code_size n) Hok ltac:(done)) as [Hs Hroom].
  pose proof (carries_evict _ (nf_code_size n) (S (length (c_entries c))) c Hok) as Hev.
  set (c2 := evict_until _ _ c) in *. rewrite Hroom. pose proof (sh_ok _ _ _ Hs) as Hok2.
  unfold first_free. destruct (list_find _ _) as [[s e0]|] eqn:Hfree; simpl.
  2: { intros k e' n' Hh. left. exact (carries_trans _ _ _ Hev (carries_release f c2) k e' n' Hh). }
  apply list_find_Some in Hfree as (He0 & Hl0 & _).
  set (g := fill_continuation f (nf_code_size n) (c_clock (tick c2)) id revision start prologue).
  assert (Hfi : fills (c_entries c2) s f n (g e0)) by (split; try done; by right).
  destruct (register_entry_dependencies mem s _) as [c3 ok] eqn:Hreg.
  change (register_entry_dependencies mem s (place s g (nf_code_size n) c2) = (c3, ok)) in Hreg.
  destruct (place_register outside f n c2 s e0 g Hok2 Hnew He0 Hl0 Hfi eq_refl eq_refl Hroom mem c3 ok Hreg) as (Hok3 & _).
  assert (Hc3 : forall k e' n', holds c3 k e' n' -> carried c k e' n' \/ is_inserted id revision start prologue f n e' n').
  { intros k e' n' Hh.
    destruct (carries_place outside mem n c2 s e0 g c3 ok He0 (place_core outside f n c2 s e0 g Hok2 Hnew He0 Hl0 Hfi eq_refl eq_refl) eq_refl Hreg k e' n' Hh)
      as [(e & m & Hh0 & K1 & K2)|(-> & Hse & Hn')].
    - left. destruct (Hev k e m Hh0) as (e1 & n1 & L1 & L2 & L3). exists e1, n1. split; [done|]. split; by etransitivity.
    - right. assert (Hn2 : v_natives c2 !! f = Some n) by (apply (co_outside _ _ _ _ _ (proj1 Hok2)), lookup_insert_eq).
      split; [by rewrite (se_kind _ _ Hse)|by rewrite (se_id _ _ Hse)|by rewrite (se_revision _ _ Hse)|by rewrite (se_start _ _ Hse)
        |by rewrite (se_prologue _ _ Hse)|by rewrite (se_function _ _ Hse)|]. simpl in Hn'. assert (n' = n) as -> by congruence. done. }
  destruct ok; cbn [negb]; [exact Hc3|]. intros k e' n' Hh.
  destruct (carries_remove_any outside s c3 Hok3 k e' n' Hh) as (e & m & Hh0 & K1 & K2).
  destruct (Hc3 k e m Hh0) as [(e1 & n1 & L1 & L2 & L3)|Hin].
  - left. exists e1, n1. split; [done|]. split; by etransitivity.
  - right. destruct Hin as [I1 I2 I3 I4 I5 I6 I7].
    split; [by rewrite (se_kind _ _ K1)|by rewrite (se_id _ _ K1)|by rewrite (se_revision _ _ K1)|by rewrite (se_start _ _ K1)
      |by rewrite (se_prologue _ _ K1)|by rewrite (se_function _ _ K1)|by etransitivity].
Qed.

(** ** Properties of the code under a key *)

Section CodeInvariant.
Context (outside : gmap Z TurboJSNativeFunction) (I : Z -> TurboJSNativeFunction -> Prop).
Context (I_stable : forall k n n', resited n n' -> I k n -> I k n').
Notation vault_ok := (vault_ok outside).

(** Every cached function satisfies the property of its key. *)
Definition code_ok (c : TurboJSCodeCache) : Prop :=
  forall s e n, holds c s e n -> e_cache_kind e = 0 -> I (e_key e) n.

Lemma code_carried c s e' n' : carried c s e' n' -> code_ok c -> e_cache_kind e' = 0 -> I (e_key e') n'.
Proof.
  intros (e & n & Hh & Hs & Hr) Hc Hk. eapply I_stable; [exact Hr|]. rewrite (se_key _ _ Hs). eapply Hc; [exact Hh|].
  by rewrite <-(se_kind _ _ Hs).
Qed.

Lemma code_carries c c' : carries c c' -> code_ok c -> code_ok c'.
Proof. intros H Hc s e n Hh Hk. eapply code_carried; eauto. Qed.

Lemma code_lookup key c : code_ok c -> code_ok (TurboJS_CodeCacheLookup key c).1.
Proof.
  intros Hi. unfold TurboJS_CodeCacheLookup. destruct (key =? 0); [done|]. destruct (_ && _).
  - simpl. destruct (live_slot _ _) as [[s e]|]; [|done]. exact (code_carries _ _ (carries_touch s (c_bump hits 1 c)) Hi).
  - destruct (live_slot _ _) as [[s e]|]; [|done]. exact (code_carries _ _ (carries_touch s (c_bump hits 1 c)) Hi).
Qed.

Lemma code_tail_compile mem key f n c :
  VaultInv.vault_ok (<[f := n]> outside) c -> outside !! f = None -> f <> 0 -> key <> 0 -> 0 <= nf_code_size n ->
  contents (c_entries c) !! key = None -> lacks_room c (nf_code_size n) = false -> I key n -> code_ok c ->
  code_ok (tail_compile mem key f n c).1.1.
Proof.
  intros Hok Hnew Hf0 Hk0 Hsz Hno Hroom HI Hc. unfold tail_compile. pose proof (co_table _ _ _ _ _ (proj1 Hok)) as Ht.
  destruct (find_slot c key true) as [s|] eqn:Hs; [|eapply code_carries; [apply carries_release|done]].
  destruct (find_absent c key true s Ht (key_absent _ _ Ht Hk0 Hno) Hs) as (e0 & He0 & Hl0 & Hr).
  set (g := fill_entry key f (nf_code_size n) (c_clock (tick c)) 0).
  assert (Hfi : fills (c_entries c) s f n (g e0)) by (split; try done; by left).
  destruct (register_entry_dependencies mem s _) as [c1 ok] eqn:Hreg.
  destruct (place_register outside f n c s e0 g Hok Hnew He0 Hl0 Hfi eq_refl eq_refl Hroom mem c1 ok Hreg) as (Hok1 & _).
  assert (Hc1 : code_ok c1).
  { intros k e' n' Hh Hk.
    destruct (carries_place outside mem n c s e0 g c1 ok He0 (place_core outside f n c s e0 g Hok Hnew He0 Hl0 Hfi eq_refl eq_refl) eq_refl Hreg k e' n' Hh)
      as [Hcar|(-> & Hse & Hn')]; [by eapply code_carried|].
    assert (v_natives c !! f = Some n) by (apply (co_outside _ _ _ _ _ (proj1 Hok)), lookup_insert_eq).
    assert (n' = n) as -> by (simpl in Hn'; congruence). by rewrite (se_key _ _ Hse). }
  destruct ok; cbn [negb]; [exact Hc1|]. eapply code_carries; [by eapply carries_remove_any|exact Hc1].
Qed.

Lemma code_compile mem baseline specialize key ir c :
  vault_ok c -> fresh_code c (compile_native baseline specialize ir) ->
  (forall f n, compile_native baseline specialize ir = (TURBOJS_IR_OK, (f, n)) -> I key n) -> code_ok c ->
  code_ok (TurboJS_CodeCacheCompile baseline specialize mem key ir c).1.1.
Proof.
  intros Hok Hfresh HI Hc. unfold TurboJS_CodeCacheCompile. destruct (Z.eqb_spec key 0) as [|Hne]; [done|].
  pose proof (find_live outside c key Hok Hne) as Hf.
  destruct (live_slot _ _) as [[s e]|]; [eapply code_carries; [apply carries_touch|done]|].
  destruct (compile_native baseline specialize ir) as [st0 [f n]]. unfold fresh_code in Hfresh. simpl in Hfresh.
  destruct (decide (st0 = TURBOJS_IR_OK)) as [->|Hst]; [|by destruct st0]. specialize (HI f n eq_refl).
  destruct (Hfresh eq_refl) as (Hf0 & Hnew & Hsz). destruct (adopt_ok outside f n c Hok Hnew) as [Hok1 Hout].
  pose proof (code_carries _ _ (carries_adopt outside f n c Hok Hnew) Hc) as Hc1. set (c1 := c_set_natives _ c) in *.
  destruct (Z.ltb_spec (c_maximum_code_bytes c1) (nf_code_size n)); [eapply code_carries; [apply carries_release|done]|].
  destruct (make_room _ c1 (nf_code_size n) Hok1 ltac:(done)) as [Hs Hroom].
  pose proof (code_carries _ _ (carries_evict _ (nf_code_size n) (S (length (c_entries c1))) c1 Hok1) Hc1) as Hc2.
  set (c2 := evict_until _ _ c1) in *. rewrite Hroom. change (code_ok (tail_compile mem key f n c2).1.1).
  apply code_tail_compile; try done; [apply Hs|]. eapply lookup_weaken_None; [exact Hf|apply (sh_contents _ _ _ Hs)].
Qed.

Lemma code_store mem id revision start prologue f n c :
  VaultInv.vault_ok (<[f := n]> outside) c -> outside !! f = None -> f <> 0 -> id <> 0 -> 0 <= nf_code_size n -> code_ok c ->
  code_ok (TurboJS_CodeCacheStoreContinuation mem id revision start prologue f c).1.1.
Proof.
  intros Hok Hnew Hf0 Hid Hsz Hc s e n' Hh Hk.
  destruct (store_carries outside mem id revision start prologue f n c Hok Hnew Hf0 Hid Hsz s e n' Hh) as [Hcar|Hin].
  - by eapply code_carried.
  - rewrite (ic_kind _ _ _ _ _ _ _ _ Hin) in Hk. done.
Qed.

Lemma code_attach grow mem key handle kind arity identity c :
  vault_ok c -> code_ok c -> code_ok (TurboJS_CodeCacheAttachEntryHandleIdentity grow mem key handle kind arity identity c).1.
Proof.
  intros Hok Hc. unfold TurboJS_CodeCacheAttachEntryHandleIdentity. destruct (_ || _); [done|].
  destruct (live_slot _ _) as [[s e]|]; [|done]. cbv zeta. cbn [fst].
  set (c1 := if _ && _ then c_update_handle _ _ c else c). set (c2 := c_update_handle handle _ _).
  assert (Hq : quiet outside c c2).
  { eapply (quiet_trans _ _ c1); [unfold c1; destruct (_ && _); [apply quiet_handles|done]|].
    eapply quiet_trans; [|apply quiet_handles]. by apply quiet_update. }
  assert (Hn1 : v_natives c1 = v_natives c) by (unfold c1; by destruct (_ && _)).
  assert (Hc2 : code_ok c2) by (eapply code_carries; [apply carries_same; [exact Hn1|apply (proj2 Hq)]|done]).
  unfold repatch_identity_dependents. destruct (_ || _ || _); [done|].
  pose proof (collect_owners_live grow identity (c_entries c2) (default [] (c_repatch_buckets c2 !! bucket_of identity_hash (c_repatch_buckets c2) identity)) [] ltac:(constructor)) as Hl.
  change (c_entries (c_bump repatch_identity_lookups 1 c2)) with (c_entries c2).
  change (c_repatch_buckets (c_bump repatch_identity_lookups 1 c2)) with (c_repatch_buckets c2).
  destruct (collect_owners _ _ _ _ _) as [owners ok]. simpl in Hl. destruct ok; cbn [negb]; [|exact Hc2].
  set (c3 := c_bump repatch_identity_nodes_visited _ _). assert (Hok3 : vault_ok c3) by (do 2 apply bump_ok; by apply Hq).
  eapply code_carries; [by eapply (carries_repatch_owners outside)|exact Hc2].
Qed.

(** The compilations of a history satisfy the property. *)
Definition op_code (op : VaultOp) : Prop :=
  match op with
  | DoCompile _ baseline specialize key ir =>
      forall f n, compile_native baseline specialize ir = (TURBOJS_IR_OK, (f, n)) -> I key n
  | _ => True
  end.

Lemma code_op op c c' a :
  vault_ok c -> op_fair c op -> op_code op -> run_op op c = (c', a) -> code_ok c -> code_ok c'.
Proof.
  intros Hok Hfair Hop Hrun Hc. destruct op; simpl in Hop, Hfair, Hrun.
  - pose proof (code_lookup key c Hc). destruct (TurboJS_CodeCacheLookup key c). by injection Hrun as <- <-.
  - pose proof (code_compile mem baseline specialize key ir c Hok Hfair Hop Hc).
    destruct (TurboJS_CodeCacheCompile _ _ _ _ _ _) as [[? ?] ?]. by injection Hrun as <- <-.
  - pose proof (code_attach grow mem key handle kind argument_count identity c Hok Hc).
    destruct (TurboJS_CodeCacheAttachEntryHandleIdentity _ _ _ _ _ _ _ _). by injection Hrun as <- <-.
  - injection Hrun as <- <-. unfold TurboJS_CodeCacheInvalidate. destruct (key =? 0); [done|].
    destruct (find_slot c key false); [|done]. eapply code_carries; [by eapply (carries_remove_any outside)|done].
  - injection Hrun as <- <-. intros s e n (He & Hl & _). simpl in He. by apply lookup_replicate in He as [-> _].
  - unfold TurboJS_CodeCacheLookupContinuation in Hrun. destruct (find_continuation_entry _ _ _ _) as [[s e]|]; injection Hrun as <- <-; [|done].
    exact (code_carries _ _ (carries_touch s c) Hc).
  - destruct Hfair as (Hid & Hf0 & Hnew & Hsz). destruct (adopt_ok outside native object c Hok Hnew) as [Hok1 Hout].
    pose proof (code_store mem id revision start prologue native object _ Hok1 Hout Hf0 Hid Hsz
      (code_carries _ _ (carries_adopt outside native object c Hok Hnew) Hc)).
    destruct (TurboJS_CodeCacheStoreContinuation _ _ _ _ _ _ _) as [[? ?] ?]. by injection Hrun as <- <-.
Qed.

(** A function found under a key satisfies the property of the key. *)
Lemma code_found key f c :
  vault_ok c -> code_ok c -> key <> 0 -> contents (c_entries c) !! key = Some f ->
  exists n, v_natives c !! f = Some n /\ I key n.
Proof.
  intros Hok Hc Hne Hf. apply contents_spec in Hf as (s & e & He & Hl & Hk & <- & <-); [|apply (co_table _ _ _ _ _ (proj1 Hok))].
  destruct (co_native _ _ _ _ _ (proj1 Hok) s e He Hl) as (_ & _ & n & Hn & _). exists n. split; [done|].
  eapply Hc; [split_and!; done|done].
Qed.
End CodeInvariant.

(** ** Properties of continuation code *)

Section ContinuationInvariant.
Context (outside : gmap Z TurboJSNativeFunction) (J : Z -> Z -> Z -> Z -> TurboJSNativeFunction -> Prop).
Context (J_stable : forall id revision start prologue n n', resited n n' -> J id revision start prologue n -> J id revision start prologue n').
Notation vault_ok := (vault_ok outside).

(** Every cached continuation satisfies the property of its key. *)
Definition continuations_ok (c : TurboJSCodeCache) : Prop :=
  forall s e n, holds c s e n -> e_cache_kind e = 1 ->
    J (e_continuation_function_id e) (e_continuation_revision e) (e_continuation_start_instruction e)
      (e_continuation_prologue_count e) n.

Lemma continuation_carried c s e' n' : carried c s e' n' -> continuations_ok c -> e_cache_kind e' = 1 ->
  J (e_continuation_function_id e') (e_continuation_revision e') (e_continuation_start_instruction e')
    (e_continuation_prologue_count e') n'.
Proof.
  intros (e & n & Hh & Hs & Hr) Hc Hk. eapply J_stable; [exact Hr|].
  rewrite (se_id _ _ Hs), (se_revision _ _ Hs), (se_start _ _ Hs), (se_prologue _ _ Hs). eapply Hc; [exact Hh|].
  by rewrite <-(se_kind _ _ Hs).
Qed.

Lemma continuations_carries c c' : carries c c' -> continuations_ok c -> continuations_ok c'.
Proof. intros H Hc s e n Hh Hk. eapply continuation_carried; eauto. Qed.

(** A live continuation entry has its function. *)
Lemma continuation_held id revision start s e c :
  vault_ok c -> continuations_ok c -> c_entries c !! s = Some e -> is_continuation id revision start e = true ->
  exists n, v_natives c !! e_function e = Some n /\ J id revision start (e_continuation_prologue_count e) n.
Proof.
  intros Hok Hc He Hi. unfold is_continuation in Hi. b2p. subst.
  destruct (co_native _ _ _ _ _ (proj1 Hok) s e He ltac:(done)) as (_ & _ & n & Hn & _). exists n. split; [done|].
  by apply (Hc s e n).
Qed.

Lemma continuations_lookup id revision start c c' r :
  vault_ok c -> continuations_ok c -> TurboJS_CodeCacheLookupContinuation id revision start c = (c', r) ->
  vault_ok c' /\ continuations_ok c' /\
  match r with
  | Some (f, p) => exists n, v_natives c' !! f = Some n /\ J id revision start p n
  | None => find_continuation_entry c' id revision start = None
  end.
Proof.
  intros Hok Hc Hl. destruct (lookup_continuation_step outside _ _ _ _ _ _ Hok Hl) as (Hok' & _).
  unfold TurboJS_CodeCacheLookupContinuation in Hl.
  destruct (find_continuation_entry c id revision start) as [[s e]|] eqn:Hf; injection Hl as <- <-.
  - split; [done|]. split; [exact (continuations_carries _ _ (carries_touch s c) Hc)|].
    apply list_find_Some in Hf as (He & Hi & _). exact (continuation_held _ _ _ _ _ _ Hok Hc He Hi).
  - by split.
Qed.

Lemma continuations_store mem id revision start prologue f n c c' st r :
  vault_ok c -> v_natives c !! f = None -> f <> 0 -> id <> 0 -> 0 <= nf_code_size n ->
  find_continuation_entry c id revision start = None -> continuations_ok c -> J id revision start prologue n ->
  TurboJS_CodeCacheStoreContinuation mem id revision start prologue f (c_set_natives (<[f := n]> (v_natives c)) c) = (c', st, r) ->
  vault_ok c' /\ continuations_ok c' /\
  match r with
  | Some g => st = TURBOJS_IR_OK /\ exists n', v_natives c' !! g = Some n' /\ J id revision start prologue n'
  | None => st <> TURBOJS_IR_OK
  end.
Proof.
  intros Hok Hnew Hf0 Hid Hsz Hno Hc HJ Hs. destruct (adopt_ok outside f n c Hok Hnew) as [Hok1 Hout].
  pose proof (continuations_carries _ _ (carries_adopt outside f n c Hok Hnew) Hc) as Hc1. set (c1 := c_set_natives _ c) in *.
  destruct (store_continuation_step outside _ _ _ _ _ _ _ _ _ _ _ Hok1 Hout Hf0 Hid Hsz Hs) as (Hok' & _ & Hr).
  pose proof (store_carries outside mem id revision start prologue f n c1 Hok1 Hout Hf0 Hid Hsz) as Hcar. rewrite Hs in Hcar. simpl in Hcar.
  assert (Hc' : continuations_ok c').
  { intros s e m Hh Hk. destruct (Hcar s e m Hh) as [H|[_ <- <- <- <- _ Hm]]; [by eapply continuation_carried|by eapply J_stable]. }
  split; [done|]. split; [done|]. destruct r as [g|]; [|done]. destruct Hr as [-> Hr]. split; [done|].
  unfold continuation_at in Hr. destruct (find_continuation_entry c' id revision start) as [[s e]|] eqn:Hf; [|done].
  simpl in Hr. injection Hr as <-. apply list_find_Some in Hf as (He & Hi & _).
  destruct (continuation_held _ _ _ _ _ _ Hok' Hc' He Hi) as (n' & Hn' & HJ'). exists n'. split; [done|].
  assert (Hl : e_live e = true) by (unfold is_continuation in Hi; b2p; done).
  destruct (Hcar s e n' (conj He (conj Hl Hn'))) as [(e0 & n0 & (He0 & _ & _) & Hse & _)|Hin].
  - exfalso. apply list_find_None in Hno. eapply Forall_lookup_1 in Hno; [|exact He0]. apply Hno.
    by rewrite <-(same_entry_continuation _ _ _ _ _ Hse).
  - by rewrite <-(ic_prologue _ _ _ _ _ _ _ _ Hin).
Qed.
End ContinuationInvariant.
