(* ===== verification/BytecodeCfg.v ===== *)
(** * Control flow of engine bytecode
    (src/jit/frontend/engine_bytecode_cfg.c, engine_bytecode_analysis.c, engine_bytecode_region.c)

    The bytecode of a function is a list of bytes.  The parser finds the
    instruction boundaries and the block starts; blocks, edges and operand
    stack depths follow.

    The C arrays are lists.  [opcodes], [sizes] and [instruction_offsets] are
    the fields of one list of instructions; [offset_to_instruction] and
    [offset_to_block] are lists indexed by offset.  Successor and predecessor
    arrays are lists whose length is the count.  [mem] answers the three
    groups of allocations.  Fuel bounds the parser (every instruction has a
    byte) and the worklist (a block enters it once). *)

From S2P Require Import Prelude.
From S2P Require Import JitTypes.
From S2P Require Import EngineOpcodes.

(** ** Data *)

Inductive TurboJSEngineNumericMode := TURBOJS_ENGINE_NUMERIC_INT32 | TURBOJS_ENGINE_NUMERIC_FLOAT64.

#[export] Instance TurboJSEngineNumericMode_eq_dec : EqDecision TurboJSEngineNumericMode.
Proof. solve_decision. Defined.

(** The data fields; the resolvers are arguments of the translation. *)
Record TurboJSEngineBytecodeInfo := mkBytecodeInfo {
  bc_bytecode : list Z;      (* uint8_t *)
  bc_argument_count : Z;     (* uint16_t *)
  bc_local_count : Z;        (* uint16_t *)
  bc_stack_size : Z;         (* uint16_t *)
  bc_numeric_mode : TurboJSEngineNumericMode
}.

Definition bc_length (bc : TurboJSEngineBytecodeInfo) : Z := Z.of_nat (length (bc_bytecode bc)).

Definition TURBOJS_BYTECODE_NO_BLOCK : Z := UINT32_MAX.
Definition TURBOJS_BYTECODE_MAX_BLOCK_EDGES : nat := 8.

Definition TURBOJS_BYTECODE_BLOCK_REACHABLE : Z := 1.
Definition TURBOJS_BYTECODE_BLOCK_LOOP_HEADER : Z := 2.
Definition TURBOJS_BYTECODE_BLOCK_HAS_BACKEDGE : Z := 4.
Definition TURBOJS_BYTECODE_BLOCK_HELPER_EXIT : Z := 8.

Record TurboJSBytecodeBlock := mkBlock {
  bb_start_offset : Z;
  bb_end_offset : Z;
  bb_first_instruction : nat;
  bb_instruction_count : nat;
  bb_entry_stack_depth : Z;
  bb_exit_stack_depth : Z;
  bb_successors : list nat;
  bb_predecessors : list nat;
  bb_flags : Z
}.

(** An instruction of the parsed bytecode. *)
Record CfgInstruction := mkCfgInstruction { ci_offset : Z; ci_opcode : EngineOpcode; ci_size : Z }.

Record TurboJSBytecodeCFG := mkCFG {
  cfg_blocks : list TurboJSBytecodeBlock;
  cfg_instructions : list CfgInstruction;
  cfg_offset_to_block : list Z;
  cfg_maximum_stack_depth : Z
}.

Definition bb_set_extent (end_offset : Z) (count : nat) (b : TurboJSBytecodeBlock) : TurboJSBytecodeBlock :=
  mkBlock (bb_start_offset b) end_offset (bb_first_instruction b) count (bb_entry_stack_depth b) (bb_exit_stack_depth b)
    (bb_successors b) (bb_predecessors b) (bb_flags b).
Definition bb_add_flag (flag : Z) (b : TurboJSBytecodeBlock) : TurboJSBytecodeBlock :=
  mkBlock (bb_start_offset b) (bb_end_offset b) (bb_first_instruction b) (bb_instruction_count b) (bb_entry_stack_depth b)
    (bb_exit_stack_depth b) (bb_successors b) (bb_predecessors b) (Z.lor (bb_flags b) flag).
Definition bb_add_successor (s : nat) (b : TurboJSBytecodeBlock) : TurboJSBytecodeBlock :=
  mkBlock (bb_start_offset b) (bb_end_offset b) (bb_first_instruction b) (bb_instruction_count b) (bb_entry_stack_depth b)
    (bb_exit_stack_depth b) (bb_successors b ++ [s]) (bb_predecessors b) (bb_flags b).
Definition bb_add_predecessor (p : nat) (b : TurboJSBytecodeBlock) : TurboJSBytecodeBlock :=
  mkBlock (bb_start_offset b) (bb_end_offset b) (bb_first_instruction b) (bb_instruction_count b) (bb_entry_stack_depth b)
    (bb_exit_stack_depth b) (bb_successors b) (bb_predecessors b ++ [p]) (bb_flags b).
Definition bb_set_entry (depth : Z) (b : TurboJSBytecodeBlock) : TurboJSBytecodeBlock :=
  mkBlock (bb_start_offset b) (bb_end_offset b) (bb_first_instruction b) (bb_instruction_count b) depth
    (bb_exit_stack_depth b) (bb_successors b) (bb_predecessors b) (bb_flags b).
Definition bb_set_exit (depth : Z) (b : TurboJSBytecodeBlock) : TurboJSBytecodeBlock :=
  mkBlock (bb_start_offset b) (bb_end_offset b) (bb_first_instruction b) (bb_instruction_count b) (bb_entry_stack_depth b)
    depth (bb_successors b) (bb_predecessors b) (bb_flags b).

(** A failure: the status, the offset and the message of the diagnostic. *)
Definition CfgFail := TurboJSIRDiagnostic.
Definition cfg_fail (st : TurboJSIRStatus) (offset : Z) (message : string) : CfgFail := mkDiagnostic st offset message.

Notation "'cfg!' x ':=' c 'in' k" :=
  (match c with inr x => k | inl d => inl d end) (at level 10, x pattern, c at level 100, k at level 200) : jit_scope.

(** ** Operands *)

Definition cfg_i16 (p : list Z) : Z := swrap 16 (le_value (take 2 p)).
Definition cfg_i32 (p : list Z) : Z := swrap 32 (le_value (take 4 p)).
Definition cfg_i8 (p : list Z) : Z := swrap 8 (le_value (take 1 p)).

(** The displacement and whether the branch is conditional. *)
Definition cfg_branch (op : EngineOpcode) (operand : list Z) : option (Z * bool) :=
  match op with
  | OP_goto => Some (cfg_i32 operand, false)
  | OP_goto16 => Some (cfg_i16 operand, false)
  | OP_goto8 => Some (cfg_i8 operand, false)
  | OP_if_true | OP_if_false => Some (cfg_i32 operand, true)
  | OP_if_true8 | OP_if_false8 => Some (cfg_i8 operand, true)
  | _ => None
  end.

Definition cfg_terminates (op : EngineOpcode) : bool :=
  match op with
  | OP_return | OP_return_undef | OP_return_async | OP_throw | OP_throw_error | OP_ret => true
  | _ => false
  end.

Definition cfg_helper (op : EngineOpcode) : bool :=
  match op with
  | OP_nop | OP_push_i32 | OP_undefined | OP_null
  | OP_push_false | OP_push_true | OP_drop | OP_dup
  | OP_get_arg | OP_get_arg0 | OP_get_arg1 | OP_get_arg2 | OP_get_arg3
  | OP_get_loc | OP_put_loc | OP_set_loc
  | OP_get_loc8 | OP_put_loc8 | OP_set_loc8
  | OP_get_loc0 | OP_get_loc1 | OP_get_loc2 | OP_get_loc3
  | OP_put_loc0 | OP_put_loc1 | OP_put_loc2 | OP_put_loc3
  | OP_set_loc0 | OP_set_loc1 | OP_set_loc2 | OP_set_loc3
  | OP_add | OP_sub | OP_mul | OP_div | OP_mod
  | OP_lt | OP_lte | OP_gt | OP_gte | OP_eq
  | OP_post_inc | OP_post_dec
  | OP_goto | OP_goto16 | OP_goto8
  | OP_if_true | OP_if_false | OP_if_true8 | OP_if_false8
  | OP_return => false
  | _ => true
  end.

(** ** Parsing *)

(** [starts], the instructions so far, [offset_to_instruction]. *)
Record ParseState := mkParse {
  ps_starts : list bool;
  ps_instructions : list CfgInstruction;
  ps_offset_to_instruction : list Z
}.

Definition ps_start (offset : Z) (s : ParseState) : ParseState :=
  mkParse (<[Z.to_nat offset := true]> (ps_starts s)) (ps_instructions s) (ps_offset_to_instruction s).
Definition ps_add (i : CfgInstruction) (s : ParseState) : ParseState :=
  mkParse (ps_starts s) (ps_instructions s ++ [i])
    (<[Z.to_nat (ci_offset i) := Z.of_nat (length (ps_instructions s))]> (ps_offset_to_instruction s)).

(** The instruction at an offset, decoded. *)
Definition decode_at (bc : TurboJSEngineBytecodeInfo) (pc : Z) : CfgFail + CfgInstruction :=
  let invalid := inl (cfg_fail TURBOJS_IR_INVALID_OPCODE pc "invalid engine opcode in CFG") in
  match bc_bytecode bc !! Z.to_nat pc ≫= engine_opcode with
  | None | Some OP_invalid => invalid
  | Some op =>
      if opcode_size op =? 0 then invalid
      else if bc_length bc <? pc + opcode_size op
      then inl (cfg_fail TURBOJS_IR_INVALID_OPCODE pc "truncated engine instruction in CFG")
      else inr (mkCfgInstruction pc op (opcode_size op))
  end.

Definition operand_of (bc : TurboJSEngineBytecodeInfo) (offset : Z) : list Z := drop (Z.to_nat (offset + 1)) (bc_bytecode bc).

(** One turn of the parsing loop: the instruction and its block starts. *)
Definition parse_one (bc : TurboJSEngineBytecodeInfo) (pc : Z) (s : ParseState) : CfgFail + (CfgInstruction * ParseState) :=
  cfg! i := decode_at bc pc in
  let s := ps_add i s in
  let next := pc + ci_size i in
  match cfg_branch (ci_opcode i) (operand_of bc pc) with
  | Some (disp, conditional) =>
      let target := pc + 1 + disp in
      if (target <? 0) || (bc_length bc <=? target)
      then inl (cfg_fail TURBOJS_IR_INVALID_TARGET pc "CFG branch target is out of range")
      else
        let s := ps_start target s in
        inr (i, if conditional && (next <? bc_length bc) then ps_start next s else s)
  | None => inr (i, if cfg_terminates (ci_opcode i) && (next <? bc_length bc) then ps_start next s else s)
  end.

Fixpoint parse_loop (fuel : nat) (bc : TurboJSEngineBytecodeInfo) (pc : Z) (s : ParseState) : CfgFail + ParseState :=
  match fuel with
  | O => inr s
  | S fuel =>
      if pc <? bc_length bc then
        cfg! (i, s) := parse_one bc pc s in parse_loop fuel bc (pc + ci_size i) s
      else inr s
  end.

Definition parse_initial (bc : TurboJSEngineBytecodeInfo) : ParseState :=
  let n := S (length (bc_bytecode bc)) in
  mkParse (<[O := true]> (replicate n false)) [] (replicate n UINT32_MAX).

(** ** Blocks *)

Definition new_block (offset : Z) (first : nat) : TurboJSBytecodeBlock :=
  mkBlock offset 0 first 0 UINT32_MAX UINT32_MAX [] [] 0.

Definition is_start (starts : list bool) (offset : Z) : bool := default false (starts !! Z.to_nat offset).

(** The loop over the instructions: the blocks and [offset_to_block]. *)
Fixpoint place_blocks (starts : list bool) (ii : nat) (instrs : list CfgInstruction) (blocks : list TurboJSBytecodeBlock)
    (offset_to_block : list Z) : list TurboJSBytecodeBlock * list Z :=
  match instrs with
  | [] => (blocks, offset_to_block)
  | i :: instrs =>
      let blocks := if is_start starts (ci_offset i) then blocks ++ [new_block (ci_offset i) ii] else blocks in
      place_blocks starts (S ii) instrs blocks
        (<[Z.to_nat (ci_offset i) := uwrap 32 (Z.of_nat (length blocks) - 1)]> offset_to_block)
  end.

(** [end_offset] and [instruction_count] from the block that follows. *)
Definition close_block (bc : TurboJSEngineBytecodeInfo) (instruction_count : nat) (blocks : list TurboJSBytecodeBlock) (bi : nat)
    (b : TurboJSBytecodeBlock) : TurboJSBytecodeBlock :=
  match blocks !! S bi with
  | Some next => bb_set_extent (bb_start_offset next) (bb_first_instruction next - bb_first_instruction b) b
  | None => bb_set_extent (bc_length bc) (instruction_count - bb_first_instruction b) b
  end.
Definition close_blocks (bc : TurboJSEngineBytecodeInfo) (instruction_count : nat) (blocks : list TurboJSBytecodeBlock)
    : list TurboJSBytecodeBlock :=
  imap (close_block bc instruction_count blocks) blocks.

(** ** Edges *)

Definition block_instructions (instrs : list CfgInstruction) (b : TurboJSBytecodeBlock) : list CfgInstruction :=
  take (bb_instruction_count b) (drop (bb_first_instruction b) instrs).

(** The edges of block [bi]; a block without instructions cannot occur. *)
Definition add_edges (bc : TurboJSEngineBytecodeInfo) (instrs : list CfgInstruction) (offset_to_instruction offset_to_block : list Z)
    (bi : nat) (blocks : list TurboJSBytecodeBlock) : CfgFail + list TurboJSBytecodeBlock :=
  match blocks !! bi with
  | None => inr blocks
  | Some b =>
      match last (block_instructions instrs b) with
      | None => inr blocks
      | Some i =>
          let blocks := if existsb (fun i => cfg_helper (ci_opcode i)) (block_instructions instrs b)
                        then alter (bb_add_flag TURBOJS_BYTECODE_BLOCK_HELPER_EXIT) bi blocks else blocks in
          let off := ci_offset i in
          match cfg_branch (ci_opcode i) (operand_of bc off) with
          | Some (disp, conditional) =>
              let target := uwrap 32 (off + 1 + disp) in
              if default UINT32_MAX (offset_to_instruction !! Z.to_nat target) =? UINT32_MAX
              then inl (cfg_fail TURBOJS_IR_INVALID_TARGET off "CFG branch target is not an instruction boundary")
              else
                let tb := default TURBOJS_BYTECODE_NO_BLOCK (offset_to_block !! Z.to_nat target) in
                if tb =? TURBOJS_BYTECODE_NO_BLOCK
                then inl (cfg_fail TURBOJS_IR_INVALID_TARGET off "CFG branch target has no basic block")
                else
                  let blocks := alter (bb_add_successor (Z.to_nat tb)) bi blocks in
                  let blocks := if target <=? off
                                then alter (bb_add_flag TURBOJS_BYTECODE_BLOCK_LOOP_HEADER) (Z.to_nat tb)
                                       (alter (bb_add_flag TURBOJS_BYTECODE_BLOCK_HAS_BACKEDGE) bi blocks)
                                else blocks in
                  if conditional && (off + ci_size i <? bc_length bc) then
                    let fb := default TURBOJS_BYTECODE_NO_BLOCK (offset_to_block !! Z.to_nat (off + ci_size i)) in
                    inr (if fb =? tb then blocks else alter (bb_add_successor (Z.to_nat fb)) bi blocks)
                  else inr blocks
          | None =>
              inr (if negb (cfg_terminates (ci_opcode i)) && (bb_end_offset b <? bc_length bc)
                   then alter (bb_add_successor (S bi)) bi blocks else blocks)
          end
      end
  end.

Fixpoint edges_loop (bc : TurboJSEngineBytecodeInfo) (instrs : list CfgInstruction) (offset_to_instruction offset_to_block : list Z)
    (ids : list nat) (blocks : list TurboJSBytecodeBlock) : CfgFail + list TurboJSBytecodeBlock :=
  match ids with
  | [] => inr blocks
  | bi :: ids =>
      cfg! blocks := add_edges bc instrs offset_to_instruction offset_to_block bi blocks in
      edges_loop bc instrs offset_to_instruction offset_to_block ids blocks
  end.

(** The predecessors of the successors of one block. *)
Fixpoint link_successors (bi : nat) (successors : list nat) (blocks : list TurboJSBytecodeBlock) : CfgFail + list TurboJSBytecodeBlock :=
  match successors with
  | [] => inr blocks
  | s :: successors =>
      match blocks !! s with
      | Some succ =>
          if (TURBOJS_BYTECODE_MAX_BLOCK_EDGES <=? length (bb_predecessors succ))%nat
          then inl (cfg_fail TURBOJS_IR_UNSUPPORTED (bb_start_offset succ) "CFG predecessor limit exceeded")
          else link_successors bi successors (alter (bb_add_predecessor bi) s blocks)
      | None => inr blocks
      end
  end.

Fixpoint predecessors_loop (ids : list nat) (blocks : list TurboJSBytecodeBlock) : CfgFail + list TurboJSBytecodeBlock :=
  match ids with
  | [] => inr blocks
  | bi :: ids =>
      cfg! blocks := link_successors bi (default [] (bb_successors <$> blocks !! bi)) blocks in predecessors_loop ids blocks
  end.

(** ** Stack depths *)

(** The instructions of a block from [depth]: the exit depth and the new maximum. *)
Fixpoint walk_depth (bc : TurboJSEngineBytecodeInfo) (instrs : list CfgInstruction) (depth maximum : Z) : CfgFail + (Z * Z) :=
  match instrs with
  | [] => inr (depth, maximum)
  | i :: instrs =>
      let pop := opcode_pop (ci_opcode i) in
      let push := opcode_push (ci_opcode i) in
      if 0 <=? pop then
        if depth <? pop then inl (cfg_fail TURBOJS_IR_INVALID_OPCODE (ci_offset i) "CFG stack underflow")
        else
          let depth := uwrap 32 (depth - pop + push) in
          let maximum := if maximum <? depth then depth else maximum in
          if negb (bc_stack_size bc =? 0) && (bc_stack_size bc <? depth)
          then inl (cfg_fail TURBOJS_IR_INVALID_REGISTER (ci_offset i) "CFG stack exceeds declared stack size")
          else walk_depth bc instrs depth maximum
      else walk_depth bc instrs depth maximum
  end.

(** The successors of a block that was left with [depth]. *)
Fixpoint visit_successors (depth : Z) (successors : list nat) (blocks : list TurboJSBytecodeBlock) (queue : list nat)
    : CfgFail + (list TurboJSBytecodeBlock * list nat) :=
  match successors with
  | [] => inr (blocks, queue)
  | s :: successors =>
      match blocks !! s with
      | None => inr (blocks, queue)
      | Some b =>
          if bb_entry_stack_depth b =? UINT32_MAX
          then visit_successors depth successors (alter (bb_set_entry depth) s blocks) (queue ++ [s])
          else if bb_entry_stack_depth b =? depth then visit_successors depth successors blocks queue
          else inl (cfg_fail TURBOJS_IR_INVALID_OPCODE (bb_start_offset b) "inconsistent operand stack depth at CFG merge")
      end
  end.

(** The worklist: [queue] is [work] from [wi] to [wn]. *)
Fixpoint depth_loop (fuel : nat) (bc : TurboJSEngineBytecodeInfo) (instrs : list CfgInstruction)
    (blocks : list TurboJSBytecodeBlock) (queue : list nat) (maximum : Z) : CfgFail + (list TurboJSBytecodeBlock * Z) :=
  match fuel, queue with
  | S fuel, bi :: queue =>
      match blocks !! bi with
      | None => inr (blocks, maximum)
      | Some b =>
          let blocks := alter (bb_add_flag TURBOJS_BYTECODE_BLOCK_REACHABLE) bi blocks in
          cfg! (depth, maximum) := walk_depth bc (block_instructions instrs b) (bb_entry_stack_depth b) maximum in
          let blocks := alter (bb_set_exit depth) bi blocks in
          cfg! (blocks, queue) := visit_successors depth (bb_successors b) blocks queue in
          depth_loop fuel bc instrs blocks queue maximum
      end
  | _, _ => inr (blocks, maximum)
  end.

(** ** The graph *)

Record CfgMemory := mkCfgMemory { cg_parser : bool; cg_maps : bool; cg_blocks : bool }.

Definition TurboJS_EngineBytecodeBuildCFG (mem : CfgMemory) (bc : TurboJSEngineBytecodeInfo) : CfgFail + TurboJSBytecodeCFG :=
  if bc_length bc =? 0 then inl (cfg_fail TURBOJS_IR_INVALID_ARGUMENT 0 "empty engine bytecode")
  else if negb (cg_parser mem) then inl (cfg_fail TURBOJS_IR_OUT_OF_MEMORY 0 "unable to allocate CFG parser state")
  else
    cfg! s := parse_loop (length (bc_bytecode bc)) bc 0 (parse_initial bc) in
    let instrs := ps_instructions s in
    if negb (cg_maps mem) then inl (cfg_fail TURBOJS_IR_OUT_OF_MEMORY 0 "unable to allocate CFG maps")
    else if negb (cg_blocks mem) then inl (cfg_fail TURBOJS_IR_OUT_OF_MEMORY 0 "unable to allocate CFG blocks")
    else
      let '(blocks, offset_to_block) :=
        place_blocks (ps_starts s) 0 instrs [] (replicate (S (length (bc_bytecode bc))) TURBOJS_BYTECODE_NO_BLOCK) in
      let blocks := close_blocks bc (length instrs) blocks in
      let ids := seq 0 (length blocks) in
      cfg! blocks := edges_loop bc instrs (ps_offset_to_instruction s) offset_to_block ids blocks in
      cfg! blocks := predecessors_loop ids blocks in
      let blocks := alter (bb_set_entry 0) 0%nat blocks in
      cfg! (blocks, maximum) := depth_loop (length blocks) bc instrs blocks [0%nat] 0 in
      inr (mkCFG blocks instrs offset_to_block maximum).

(** ** Capability inventory (engine_bytecode_analysis.c) *)

Record TurboJSBytecodeAnalysis := mkAnalysis {
  ba_instruction_count : Z;
  ba_basic_block_count : Z;
  ba_branch_count : Z;
  ba_backedge_count : Z;
  ba_direct_instruction_count : Z;
  ba_helper_instruction_count : Z;
  ba_invalid_instruction_count : Z;
  ba_maximum_stack_depth : Z;
  ba_has_exceptional_operations : bool;
  ba_has_calls : bool;
  ba_has_property_operations : bool;
  ba_has_indexed_operations : bool
}.

Definition analysis_zero : TurboJSBytecodeAnalysis := mkAnalysis 0 0 0 0 0 0 0 0 false false false false.
Definition ba_set_invalid (a : TurboJSBytecodeAnalysis) : TurboJSBytecodeAnalysis :=
  mkAnalysis (ba_instruction_count a) (ba_basic_block_count a) (ba_branch_count a) (ba_backedge_count a)
    (ba_direct_instruction_count a) (ba_helper_instruction_count a) 1 (ba_maximum_stack_depth a)
    (ba_has_exceptional_operations a) (ba_has_calls a) (ba_has_property_operations a) (ba_has_indexed_operations a).
Definition ba_count_branch (backedge : bool) (a : TurboJSBytecodeAnalysis) : TurboJSBytecodeAnalysis :=
  mkAnalysis (ba_instruction_count a) (ba_basic_block_count a) (uwrap 32 (ba_branch_count a + 1))
    (if backedge then uwrap 32 (ba_backedge_count a + 1) else ba_backedge_count a)
    (ba_direct_instruction_count a) (ba_helper_instruction_count a) (ba_invalid_instruction_count a) (ba_maximum_stack_depth a)
    (ba_has_exceptional_operations a) (ba_has_calls a) (ba_has_property_operations a) (ba_has_indexed_operations a).

Definition direct_opcode (op : EngineOpcode) : bool :=
  match op with
  | OP_nop | OP_push_i32 | OP_undefined | OP_null
  | OP_push_false | OP_push_true | OP_drop | OP_dup
  | OP_get_arg | OP_get_arg0 | OP_get_arg1 | OP_get_arg2 | OP_get_arg3
  | OP_get_loc | OP_put_loc | OP_set_loc
  | OP_get_loc8 | OP_put_loc8 | OP_set_loc8
  | OP_get_loc0 | OP_get_loc1 | OP_get_loc2 | OP_get_loc3
  | OP_put_loc0 | OP_put_loc1 | OP_put_loc2 | OP_put_loc3
  | OP_set_loc0 | OP_set_loc1 | OP_set_loc2 | OP_set_loc3
  | OP_add | OP_sub | OP_mul | OP_div | OP_mod
  | OP_lt | OP_lte | OP_gt | OP_gte | OP_eq
  | OP_post_inc | OP_post_dec
  | OP_goto | OP_goto16 | OP_goto8
  | OP_if_true | OP_if_false | OP_if_true8 | OP_if_false8
  | OP_return => true
  | _ => false
  end.

Definition is_call_opcode (op : EngineOpcode) : bool :=
  match op with
  | OP_call | OP_call_method | OP_tail_call | OP_tail_call_method
  | OP_call_constructor | OP_call0 | OP_call1 | OP_call2 | OP_call3 => true
  | _ => false
  end.
Definition is_property_opcode (op : EngineOpcode) : bool :=
  match op with OP_get_field | OP_get_field2 | OP_put_field | OP_get_var | OP_put_var | OP_set_name => true | _ => false end.
Definition is_indexed_opcode (op : EngineOpcode) : bool :=
  match op with OP_get_array_el | OP_get_array_el2 | OP_put_array_el => true | _ => false end.
Definition is_exceptional_opcode (op : EngineOpcode) : bool :=
  match op with OP_throw | OP_throw_error | OP_catch | OP_gosub | OP_ret => true | _ => false end.

Definition classify (op : EngineOpcode) (a : TurboJSBytecodeAnalysis) : TurboJSBytecodeAnalysis :=
  if direct_opcode op then
    mkAnalysis (ba_instruction_count a) (ba_basic_block_count a) (ba_branch_count a) (ba_backedge_count a)
      (uwrap 32 (ba_direct_instruction_count a + 1)) (ba_helper_instruction_count a) (ba_invalid_instruction_count a)
      (ba_maximum_stack_depth a) (ba_has_exceptional_operations a) (ba_has_calls a) (ba_has_property_operations a)
      (ba_has_indexed_operations a)
  else
    mkAnalysis (ba_instruction_count a) (ba_basic_block_count a) (ba_branch_count a) (ba_backedge_count a)
      (ba_direct_instruction_count a) (uwrap 32 (ba_helper_instruction_count a + 1)) (ba_invalid_instruction_count a)
      (ba_maximum_stack_depth a) (ba_has_exceptional_operations a || is_exceptional_opcode op)
      (ba_has_calls a || is_call_opcode op) (ba_has_property_operations a || is_property_opcode op)
      (ba_has_indexed_operations a || is_indexed_opcode op).

(** The loop over the bytecode; the bytes at [pc] are opcodes because the
    graph was built. *)
Fixpoint analyze_loop (fuel : nat) (bc : TurboJSEngineBytecodeInfo) (pc : Z) (a : TurboJSBytecodeAnalysis) : TurboJSBytecodeAnalysis :=
  match fuel with
  | O => a
  | S fuel =>
      if pc <? bc_length bc then
        match bc_bytecode bc !! Z.to_nat pc ≫= engine_opcode with
        | None => a
        | Some op =>
            let a := classify op a in
            let a := match cfg_branch op (operand_of bc pc) with
                     | Some (disp, _) => ba_count_branch (pc + 1 + disp <=? pc) a
                     | None => a
                     end in
            analyze_loop fuel bc (pc + opcode_size op) a
        end
      else a
  end.

(** The status is in the sum; [a] is written in both cases. *)
Definition TurboJS_EngineBytecodeAnalyze (mem : CfgMemory) (bc : TurboJSEngineBytecodeInfo)
    : option CfgFail * TurboJSBytecodeAnalysis :=
  match TurboJS_EngineBytecodeBuildCFG mem bc with
  | inl d => (Some d, ba_set_invalid analysis_zero)
  | inr cfg =>
      (None, analyze_loop (length (bc_bytecode bc)) bc 0
               (mkAnalysis (uwrap 32 (Z.of_nat (length (cfg_instructions cfg)))) (uwrap 32 (Z.of_nat (length (cfg_blocks cfg))))
                  0 0 0 0 0 (cfg_maximum_stack_depth cfg) false false false false))
  end.

(** ** Region plan (engine_bytecode_region.c) *)

Definition TURBOJS_BYTECODE_REGION_REACHABLE : Z := 1.
Definition TURBOJS_BYTECODE_REGION_LOOP_HEADER : Z := 2.
Definition TURBOJS_BYTECODE_REGION_HELPER_EXIT : Z := 4.
Definition TURBOJS_BYTECODE_REGION_MERGE : Z := 8.

Record TurboJSBytecodeRegionBlock := mkRegionBlock {
  rb_cfg_block : Z;
  rb_entry_stack_depth : Z;
  rb_local_phi_count : Z;
  rb_stack_phi_count : Z;
  rb_predecessor_count : Z;
  rb_successor_count : Z;
  rb_flags : Z
}.

Record TurboJSBytecodeRegionPlan := mkPlan {
  rp_cfg : TurboJSBytecodeCFG;
  rp_blocks : list TurboJSBytecodeRegionBlock;
  rp_reachable_block_count : Z;
  rp_helper_exit_block_count : Z;
  rp_merge_block_count : Z;
  rp_loop_header_count : Z;
  rp_estimated_local_phis : Z;
  rp_estimated_stack_phis : Z
}.

Definition has_flag (flag flags : Z) : bool := negb (Z.land flags flag =? 0).
Definition when_flag (c : bool) (flag : Z) : Z := if c then flag else 0.
Definition count_when (c : bool) (n : Z) : Z := if c then uwrap 32 (n + 1) else n.

Definition is_merge (b : TurboJSBytecodeBlock) : bool :=
  has_flag TURBOJS_BYTECODE_BLOCK_REACHABLE (bb_flags b) && (1 <? Z.of_nat (length (bb_predecessors b))).

(** [plan->blocks[i]] for the block [i] of the graph. *)
Definition region_block (bc : TurboJSEngineBytecodeInfo) (i : nat) (b : TurboJSBytecodeBlock) : TurboJSBytecodeRegionBlock :=
  mkRegionBlock (Z.of_nat i) (bb_entry_stack_depth b)
    (if is_merge b then bc_local_count bc else 0) (if is_merge b then bb_entry_stack_depth b else 0)
    (Z.of_nat (length (bb_predecessors b))) (Z.of_nat (length (bb_successors b)))
    (Z.lor (Z.lor (when_flag (has_flag TURBOJS_BYTECODE_BLOCK_REACHABLE (bb_flags b)) TURBOJS_BYTECODE_REGION_REACHABLE)
                  (when_flag (has_flag TURBOJS_BYTECODE_BLOCK_LOOP_HEADER (bb_flags b)) TURBOJS_BYTECODE_REGION_LOOP_HEADER))
           (Z.lor (when_flag (has_flag TURBOJS_BYTECODE_BLOCK_HELPER_EXIT (bb_flags b)) TURBOJS_BYTECODE_REGION_HELPER_EXIT)
                  (when_flag (is_merge b) TURBOJS_BYTECODE_REGION_MERGE))).

(** One turn of the loop over the blocks. *)
Definition plan_block (bc : TurboJSEngineBytecodeInfo) (p : TurboJSBytecodeRegionPlan) (b : TurboJSBytecodeBlock)
    : TurboJSBytecodeRegionPlan :=
  let r := region_block bc (length (rp_blocks p)) b in
  mkPlan (rp_cfg p) (rp_blocks p ++ [r])
    (count_when (has_flag TURBOJS_BYTECODE_BLOCK_REACHABLE (bb_flags b)) (rp_reachable_block_count p))
    (count_when (has_flag TURBOJS_BYTECODE_BLOCK_HELPER_EXIT (bb_flags b)) (rp_helper_exit_block_count p))
    (count_when (is_merge b) (rp_merge_block_count p))
    (count_when (has_flag TURBOJS_BYTECODE_BLOCK_LOOP_HEADER (bb_flags b)) (rp_loop_header_count p))
    (uwrap 32 (rp_estimated_local_phis p + rb_local_phi_count r))
    (uwrap 32 (rp_estimated_stack_phis p + rb_stack_phi_count r)).

Definition TurboJS_EngineBytecodeBuildRegionPlan (mem : CfgMemory) (plan_memory : bool) (bc : TurboJSEngineBytecodeInfo)
    : CfgFail + TurboJSBytecodeRegionPlan :=
  cfg! cfg := TurboJS_EngineBytecodeBuildCFG mem bc in
  if negb plan_memory then inl (cfg_fail TURBOJS_IR_OUT_OF_MEMORY 0 "unable to allocate bytecode region plan")
  else inr (foldl (plan_block bc) (mkPlan cfg [] 0 0 0 0 0 0) (cfg_blocks cfg)).
