(* ===== verification/CfgLayout.v ===== *)
(** * Layout of the control-flow graph of engine bytecode

    What the passes of [TurboJS_EngineBytecodeBuildCFG] before the worklist
    establish: the instructions tile the bytecode and the parser marks the
    starts that branches and terminators need ([tiles], [marks]); the blocks
    partition the instructions and begin at the starts ([Placed], [Layout]);
    the edges of a block are those of its last instruction ([block_edges]).
    The flow machine at the top is the reference [CfgSound] compares the
    graph with. *)

From S2P Require Import Prelude.
From S2P Require Import JitTypes.
From S2P Require Import EngineOpcodes.
From S2P Require Import BytecodeCfg.

(** ** The flow machine *)

(** Whether control can pass to the next instruction. *)
Definition falls_through (bc : TurboJSEngineBytecodeInfo) (i : CfgInstruction) : bool :=
  match cfg_branch (ci_opcode i) (operand_of bc (ci_offset i)) with
  | Some (_, conditional) => conditional
  | None => negb (cfg_terminates (ci_opcode i))
  end.

Definition depth_after (d : Z) (i : CfgInstruction) : Z := d - opcode_pop (ci_opcode i) + opcode_push (ci_opcode i).

Inductive flow_step (bc : TurboJSEngineBytecodeInfo) : Z * Z -> Z * Z -> Prop :=
  | flow_branch pc d i disp conditional :
      decode_at bc pc = inr i ->
      cfg_branch (ci_opcode i) (operand_of bc pc) = Some (disp, conditional) ->
      flow_step bc (pc, d) (pc + 1 + disp, depth_after d i)
  | flow_next pc d i :
      decode_at bc pc = inr i -> falls_through bc i = true -> flow_step bc (pc, d) (pc + ci_size i, depth_after d i).

Lemma decode_at_inr bc pc i :
  decode_at bc pc = inr i ->
  ci_offset i = pc /\ ci_size i = opcode_size (ci_opcode i) /\ 0 < ci_size i /\ pc + ci_size i <= bc_length bc.
Proof.
  unfold decode_at. destruct (_ ≫= _) as [op|]; [|done]. pose proof (opcode_info_bounds op) as (Hs&_).
  set (ok := if opcode_size op =? 0 then _ else _).
  assert (ok = inr i -> i = mkCfgInstruction pc op (opcode_size op) /\ pc + opcode_size op <= bc_length bc) as Hok.
  { unfold ok. destruct (_ =? _); [done|]. destruct (_ <? _) eqn:?; [done|]. intros [= <-]. by b2p. }
  intros H. assert (ok = inr i) as [-> Hle]%Hok by (destruct op; done). simpl. lia.
Qed.

(** ** The parser *)

Section Parser.
Context (bc : TurboJSEngineBytecodeInfo).

(** The instructions from [pc] to the end of the bytecode. *)
Fixpoint tiles (pc : Z) (instrs : list CfgInstruction) : Prop :=
  match instrs with
  | [] => pc = bc_length bc
  | i :: instrs => decode_at bc pc = inr i /\ tiles (pc + ci_size i) instrs
  end.

(** What the parser marks for an instruction. *)
Definition marks (starts : list bool) (i : CfgInstruction) : Prop :=
  let next := ci_offset i + ci_size i in
  match cfg_branch (ci_opcode i) (operand_of bc (ci_offset i)) with
  | Some (disp, conditional) =>
      0 <= ci_offset i + 1 + disp < bc_length bc /\ is_start starts (ci_offset i + 1 + disp) = true /\
      (conditional = true -> next < bc_length bc -> is_start starts next = true)
  | None => cfg_terminates (ci_opcode i) = true -> next < bc_length bc -> is_start starts next = true
  end.

Definition starts_incl (s s' : list bool) : Prop :=
  length s = length s' /\ forall pc, is_start s pc = true -> is_start s' pc = true.

(** [offset_to_instruction] knows only instruction boundaries. *)
Definition boundaries (s : ParseState) : Prop :=
  forall off v, ps_offset_to_instruction s !! off = Some v -> v <> UINT32_MAX ->
    exists i, i ∈ ps_instructions s /\ Z.to_nat (ci_offset i) = off.

Lemma starts_incl_insert s n : starts_incl s (<[n := true]> s).
Proof.
  split; [by rewrite length_insert|]. intros pc. unfold is_start.
  destruct (decide (n = Z.to_nat pc)) as [->|Hn].
  - destruct (decide (Z.to_nat pc < length s)%nat).
    + by rewrite list_lookup_insert_eq.
    + by rewrite list_insert_ge by lia.
  - by rewrite list_lookup_insert_ne.
Qed.

Lemma is_start_insert s pc : (Z.to_nat pc < length s)%nat -> is_start (<[Z.to_nat pc := true]> s) pc = true.
Proof. intros. unfold is_start. by rewrite list_lookup_insert_eq. Qed.

Lemma starts_incl_trans s1 s2 s3 : starts_incl s1 s2 -> starts_incl s2 s3 -> starts_incl s1 s3.
Proof. intros [? H1] [? H2]. split; [congruence|auto]. Qed.

Lemma marks_mono s s' i : starts_incl s s' -> marks s i -> marks s' i.
Proof.
  intros [_ H]. unfold marks. destruct (cfg_branch _ _) as [[]|]; [|auto].
  intros (?&?&?). split_and!; auto; lia.
Qed.

Lemma boundaries_add i s : boundaries s -> boundaries (ps_add i s).
Proof.
  intros H off v Hv Hne. simpl in *.
  destruct (decide (Z.to_nat (ci_offset i) = off)) as [<-|Hn]; [exists i; set_solver|].
  rewrite list_lookup_insert_ne in Hv by done.
  destruct (H _ _ Hv Hne) as (j&?&?). exists j. set_solver.
Qed.

Lemma parse_one_spec pc s i s' :
  0 <= pc -> length (ps_starts s) = S (length (bc_bytecode bc)) ->
  parse_one bc pc s = inr (i, s') ->
  decode_at bc pc = inr i /\ ps_instructions s' = ps_instructions s ++ [i] /\
  starts_incl (ps_starts s) (ps_starts s') /\ marks (ps_starts s') i /\ (boundaries s -> boundaries s').
Proof.
  intros Hpc Hlen. unfold parse_one. destruct (decode_at bc pc) as [|j] eqn:Hd; [done|].
  destruct (decode_at_inr _ _ _ Hd) as (Hoff&_&Hsize&Hend). unfold marks, bc_length in *.
  destruct (cfg_branch _ _) as [[disp c]|] eqn:Hb.
  - destruct (_ || _) eqn:Hr; [done|]. b2p. intros [= <- <-]. rewrite Hoff, Hb.
    set (t := pc + 1 + disp) in *.
    assert (starts_incl (ps_starts s) (<[Z.to_nat t := true]> (ps_starts s))) as Hi by apply starts_incl_insert.
    destruct (c && _) eqn:Hc; b2p; simpl.
    + split_and!; auto; [by eapply starts_incl_trans; [|apply starts_incl_insert]| | |by intros; apply boundaries_add].
      * apply starts_incl_insert. apply is_start_insert. lia.
      * intros _ _. apply is_start_insert. rewrite length_insert. lia.
    + split_and!; auto; [|intros ->; simpl in Hc; b2p; lia|by intros; apply boundaries_add].
      apply is_start_insert. lia.
  - intros [= <- <-]. rewrite Hoff, Hb. destruct (cfg_terminates _ && _) eqn:Hc; b2p; simpl.
    + split_and!; auto using starts_incl_insert; [|by intros; apply boundaries_add].
      intros _ _. apply is_start_insert. lia.
    + split_and!; auto; [by split| |by intros; apply boundaries_add].
      intros Ht. rewrite Ht in Hc. simpl in Hc. b2p. lia.
Qed.

Lemma parse_loop_spec fuel pc s s' :
  0 <= pc <= bc_length bc -> bc_length bc - pc <= Z.of_nat fuel -> length (ps_starts s) = S (length (bc_bytecode bc)) ->
  parse_loop fuel bc pc s = inr s' ->
  exists new, ps_instructions s' = ps_instructions s ++ new /\ tiles pc new /\
    starts_incl (ps_starts s) (ps_starts s') /\ Forall (marks (ps_starts s')) new /\ (boundaries s -> boundaries s').
Proof.
  revert pc s. induction fuel as [|fuel IH]; intros pc s Hpc Hf Hlen; simpl.
  - intros [= <-]. exists []. rewrite app_nil_r. split_and!; auto; [simpl; lia|by split].
  - destruct (pc <? bc_length bc) eqn:Hlt; b2p.
    + destruct (parse_one bc pc s) as [|[i s1]] eqn:Hone; [done|]. intros Hloop.
      destruct (parse_one_spec _ _ _ _ (proj1 Hpc) Hlen Hone) as (Hd&Hin&Hst&Hm&Hb).
      destruct (decode_at_inr _ _ _ Hd) as (_&_&Hsize&Hend).
      destruct (IH (pc + ci_size i) s1 ltac:(lia) ltac:(lia) ltac:(destruct Hst; congruence) Hloop) as (new&Hi'&Ht&Hst'&Hms&Hb').
      exists (i :: new). rewrite Hi', Hin, <-app_assoc. split_and!; auto; [by simpl|by eapply starts_incl_trans|].
      constructor; [by eapply marks_mono|done].
    + intros [= <-]. exists []. rewrite app_nil_r. split_and!; auto; [simpl; lia|by split].
Qed.

Lemma parse_spec s :
  parse_loop (length (bc_bytecode bc)) bc 0 (parse_initial bc) = inr s ->
  tiles 0 (ps_instructions s) /\ is_start (ps_starts s) 0 = true /\
  Forall (marks (ps_starts s)) (ps_instructions s) /\ boundaries s.
Proof.
  intros H. unfold bc_length in *.
  destruct (parse_loop_spec (length (bc_bytecode bc)) 0 (parse_initial bc) s ltac:(unfold bc_length; lia)
    ltac:(unfold bc_length; lia) ltac:(simpl; by rewrite length_replicate) H) as (new&Hi&Ht&[_ Hst]&Hm&Hb).
  simpl in Hi. rewrite Hi. split_and!; auto.
  apply Hb. intros off v Hv Hne. simpl in Hv.
  destruct (lookup_replicate_1 (S _) _ _ _ Hv) as [? _]. done.
Qed.
End Parser.

(** ** Consequences of the tiling *)

Section Tiling.
Context (bc : TurboJSEngineBytecodeInfo).

Lemma tiles_head pc i instrs : tiles bc pc (i :: instrs) -> ci_offset i = pc.
Proof. intros [Hd _]. by destruct (decode_at_inr _ _ _ Hd). Qed.

Lemma tiles_lookup pc instrs k i :
  tiles bc pc instrs -> instrs !! k = Some i ->
  decode_at bc (ci_offset i) = inr i /\ pc + Z.of_nat k <= ci_offset i /\ 0 < ci_size i /\
  ci_offset i + ci_size i <= bc_length bc /\
  match instrs !! S k with
  | Some j => ci_offset j = ci_offset i + ci_size i
  | None => ci_offset i + ci_size i = bc_length bc
  end.
Proof.
  revert pc k. induction instrs as [|j instrs IH]; intros pc k Ht Hk; [done|].
  pose proof (tiles_head _ _ _ Ht) as Hoff. destruct Ht as [Hd Ht]. destruct (decode_at_inr _ _ _ Hd) as (_&_&Hs&He).
  destruct k as [|k]; simplify_eq/=.
  - split_and!; auto; [lia|]. destruct instrs as [|j instrs]; [done|]. by apply tiles_head in Ht.
  - destruct (IH _ _ Ht Hk) as (?&?&?&?&?). split_and!; auto. lia.
Qed.

Lemma tiles_increasing pc instrs k k' i j :
  tiles bc pc instrs -> instrs !! k = Some i -> instrs !! k' = Some j -> (k < k')%nat -> ci_offset i < ci_offset j.
Proof.
  intros Ht Hi Hj Hk. revert j Hj Hk. induction k' as [|k' IH]; intros j Hj Hk; [lia|].
  destruct (lookup_lt_is_Some_2 instrs k') as [m Hm]; [apply lookup_lt_Some in Hj; lia|].
  destruct (tiles_lookup _ _ _ _ Ht Hm) as (_&_&Hs&_&Hnext). rewrite Hj in Hnext.
  destruct (decide (k = k')) as [->|]; [simplify_eq; lia|]. specialize (IH _ Hm ltac:(lia)). lia.
Qed.

Lemma tiles_inj pc instrs k k' i j :
  tiles bc pc instrs -> instrs !! k = Some i -> instrs !! k' = Some j -> ci_offset i = ci_offset j -> k = k'.
Proof.
  intros Ht Hi Hj He. destruct (lt_eq_lt_dec k k') as [[Hlt|?]|Hlt]; auto; exfalso.
  - pose proof (tiles_increasing _ _ _ _ _ _ Ht Hi Hj Hlt). lia.
  - pose proof (tiles_increasing _ _ _ _ _ _ Ht Hj Hi Hlt). lia.
Qed.

Lemma tiles_length pc instrs : tiles bc pc instrs -> pc <= bc_length bc -> pc + Z.of_nat (length instrs) <= bc_length bc.
Proof.
  revert pc. induction instrs as [|i instrs IH]; intros pc Ht Hpc; simpl; [lia|]. destruct Ht as [Hd Ht].
  destruct (decode_at_inr _ _ _ Hd) as (_&_&?&?). specialize (IH _ Ht). lia.
Qed.
End Tiling.

(** ** Blocks *)

Section Blocks.
Context (bc : TurboJSEngineBytecodeInfo) (starts : list bool) (instrs : list CfgInstruction).
Context (Htiles : tiles bc 0 instrs) (Hentry : is_start starts 0 = true) (Hsmall : bc_length bc < UINT32_MAX).

(** The blocks of the first [n] instructions. *)
Record Placed (n : nat) (blocks : list TurboJSBytecodeBlock) (otb : list Z) : Prop := {
  pl_block k b : blocks !! k = Some b ->
    (bb_first_instruction b < n)%nat /\ exists i, instrs !! bb_first_instruction b = Some i /\
      b = new_block (ci_offset i) (bb_first_instruction b) /\ is_start starts (ci_offset i) = true;
  pl_increasing k b b' : blocks !! k = Some b -> blocks !! S k = Some b' ->
    (bb_first_instruction b < bb_first_instruction b')%nat;
  pl_first b : blocks !! 0%nat = Some b -> bb_first_instruction b = 0%nat;
  pl_offset ii i : (ii < n)%nat -> instrs !! ii = Some i ->
    exists bi b, otb !! Z.to_nat (ci_offset i) = Some (Z.of_nat bi) /\ blocks !! bi = Some b /\
      (bb_first_instruction b <= ii)%nat /\
      (forall b', blocks !! S bi = Some b' -> (ii < bb_first_instruction b')%nat) /\
      (is_start starts (ci_offset i) = true -> bb_first_instruction b = ii);
  pl_count : (length blocks <= n)%nat;
  pl_some : (0 < n)%nat -> (0 < length blocks)%nat;
  pl_map : length otb = S (length (bc_bytecode bc))
}.

Lemma Placed_start n blocks otb i :
  Placed n blocks otb -> instrs !! n = Some i -> is_start starts (ci_offset i) = true ->
  Placed (S n) (blocks ++ [new_block (ci_offset i) n]) (<[Z.to_nat (ci_offset i) := Z.of_nat (length blocks)]> otb).
Proof.
  intros HP Hi Hst. destruct (tiles_lookup _ _ _ _ _ Htiles Hi) as (_&Hlo&Hsz&Hhi&_). unfold bc_length in Hhi.
  pose proof (pl_count _ _ _ HP). pose proof (pl_map _ _ _ HP) as Hmap. split.
  - intros k b Hb. apply lookup_app_Some in Hb as [Hb|[_ Hb]].
    + destruct (pl_block _ _ _ HP _ _ Hb) as [? ?]. split; [lia|done].
    + apply list_lookup_singleton_Some in Hb as [_ <-]. simpl. split; [lia|]. by exists i.
  - intros k b b' Hb Hb'. apply lookup_app_Some in Hb' as [Hb'|[Hge Hb']].
    + rewrite lookup_app_l in Hb by (apply lookup_lt_Some in Hb'; lia). by eapply (pl_increasing _ _ _ HP).
    + apply list_lookup_singleton_Some in Hb' as [? <-]. rewrite lookup_app_l in Hb by lia.
      by destruct (pl_block _ _ _ HP _ _ Hb).
  - intros b Hb. destruct (length blocks) eqn:Hl.
    + destruct blocks; [|done]. simplify_eq/=. destruct n; [done|].
      pose proof (pl_some _ _ _ HP ltac:(lia)). simpl in *. lia.
    + rewrite lookup_app_l in Hb by lia. by apply (pl_first _ _ _ HP).
  - intros ii j Hii Hj. destruct (decide (ii = n)) as [->|Hne].
    + assert (j = i) as -> by congruence. exists (length blocks), (new_block (ci_offset i) n).
      split_and!; [apply list_lookup_insert_eq; lia|by rewrite lookup_app_r, Nat.sub_diag by lia|simpl; lia| |done].
      intros b' Hb'. apply lookup_lt_Some in Hb'. rewrite length_app in Hb'. simpl in Hb'. lia.
    + destruct (pl_offset _ _ _ HP ii j ltac:(lia) Hj) as (bi&b&Hotb&Hb&Hle&Hnext&Hs). exists bi, b.
      split_and!; auto.
      * rewrite list_lookup_insert_ne; [done|].
        destruct (tiles_lookup _ _ _ _ _ Htiles Hj) as (_&?&_).
        pose proof (tiles_increasing _ _ _ _ _ _ _ Htiles Hj Hi ltac:(lia)). lia.
      * rewrite lookup_app_l; [done|by eapply lookup_lt_Some].
      * intros b' Hb'. apply lookup_app_Some in Hb' as [Hb'|[_ Hb']]; [by apply Hnext|].
        apply list_lookup_singleton_Some in Hb' as [_ <-]. simpl. lia.
  - rewrite length_app. simpl. lia.
  - rewrite length_app. simpl. lia.
  - by rewrite length_insert.
Qed.

Lemma Placed_inside n blocks otb i :
  Placed n blocks otb -> instrs !! n = Some i -> is_start starts (ci_offset i) = false ->
  Placed (S n) blocks (<[Z.to_nat (ci_offset i) := Z.of_nat (length blocks) - 1]> otb).
Proof.
  intros HP Hi Hst. destruct (tiles_lookup _ _ _ _ _ Htiles Hi) as (_&Hlo&Hsz&Hhi&_). unfold bc_length in Hhi.
  pose proof (pl_count _ _ _ HP). pose proof (pl_map _ _ _ HP) as Hmap.
  assert (n <> 0%nat) as Hn.
  { intros ->. destruct instrs as [|j instrs']; [done|]. simplify_eq/=. pose proof (tiles_head _ _ _ _ Htiles) as Hz.
    rewrite Hz in Hst. congruence. }
  pose proof (pl_some _ _ _ HP ltac:(lia)) as Hpos. split.
  - intros k b Hb. destruct (pl_block _ _ _ HP _ _ Hb) as [? ?]. split; [lia|done].
  - apply (pl_increasing _ _ _ HP).
  - apply (pl_first _ _ _ HP).
  - intros ii j Hii Hj. destruct (decide (ii = n)) as [->|Hne].
    + assert (j = i) as -> by congruence. destruct (lookup_lt_is_Some_2 blocks (length blocks - 1)) as [b Hb]; [lia|].
      exists (length blocks - 1)%nat, b. split_and!; auto.
      * rewrite list_lookup_insert_eq by lia. f_equal. lia.
      * destruct (pl_block _ _ _ HP _ _ Hb). lia.
      * intros b' Hb'. apply lookup_lt_Some in Hb'. lia.
      * congruence.
    + destruct (pl_offset _ _ _ HP ii j ltac:(lia) Hj) as (bi&b&Hotb&Hb&Hrest). exists bi, b.
      split_and!; auto; [|apply Hrest..]. rewrite list_lookup_insert_ne; [done|].
      destruct (tiles_lookup _ _ _ _ _ Htiles Hj) as (_&?&_).
      pose proof (tiles_increasing _ _ _ _ _ _ _ Htiles Hj Hi ltac:(lia)). lia.
  - lia.
  - lia.
  - by rewrite length_insert.
Qed.

Lemma place_blocks_spec rest n blocks otb :
  (forall k, rest !! k = instrs !! (n + k)%nat) -> Placed n blocks otb ->
  let r := place_blocks starts n rest blocks otb in Placed (n + length rest) r.1 r.2.
Proof.
  revert n blocks otb. induction rest as [|i rest IH]; intros n blocks otb Hrest HP; simpl; [by rewrite Nat.add_0_r|].
  assert (instrs !! n = Some i) as Hi by (pose proof (Hrest 0%nat) as H0; rewrite Nat.add_0_r in H0; by rewrite <-H0).
  assert (n < length instrs)%nat by by eapply lookup_lt_Some.
  pose proof (tiles_length _ _ _ Htiles ltac:(unfold bc_length; lia)). pose proof (pl_count _ _ _ HP).
  replace (n + S (length rest))%nat with (S n + length rest)%nat by lia.
  assert (forall k, rest !! k = instrs !! (S n + k)%nat) as Hrest'
    by (intros k; pose proof (Hrest (S k)) as Hk; by rewrite Nat.add_succ_r in Hk).
  unfold UINT32_MAX in *. destruct (is_start starts (ci_offset i)) eqn:Hst; apply IH; auto.
  - rewrite length_app. simpl. rewrite uwrap_small by (unfold is_u; lia).
    replace (Z.of_nat (length blocks + 1) - 1) with (Z.of_nat (length blocks)) by lia. by apply Placed_start.
  - pose proof (Placed_inside _ _ _ _ HP Hi Hst) as HP'. destruct n.
    { destruct instrs as [|j instrs']; [done|]. simplify_eq/=. pose proof (tiles_head _ _ _ _ Htiles) as Hz.
      rewrite Hz in Hst. congruence. }
    pose proof (pl_some _ _ _ HP ltac:(lia)). rewrite uwrap_small by (unfold is_u; lia). done.
Qed.

Lemma Placed_initial : Placed 0 [] (replicate (S (length (bc_bytecode bc))) TURBOJS_BYTECODE_NO_BLOCK).
Proof. split; try (intros; simpl in *; lia || done). by rewrite length_replicate. Qed.

(** The blocks with their extents: what the later passes rely on. *)
Record Layout (blocks : list TurboJSBytecodeBlock) (otb : list Z) : Prop := {
  ly_block k b : blocks !! k = Some b ->
    (0 < bb_instruction_count b)%nat /\ (bb_first_instruction b + bb_instruction_count b <= length instrs)%nat /\
    exists i, instrs !! bb_first_instruction b = Some i /\ bb_start_offset b = ci_offset i /\
      is_start starts (ci_offset i) = true;
  ly_next k b : blocks !! k = Some b ->
    match blocks !! S k with
    | Some b' => bb_first_instruction b' = (bb_first_instruction b + bb_instruction_count b)%nat /\
                 bb_end_offset b = bb_start_offset b'
    | None => (bb_first_instruction b + bb_instruction_count b)%nat = length instrs /\ bb_end_offset b = bc_length bc
    end;
  ly_member ii i : instrs !! ii = Some i ->
    exists bi b, otb !! Z.to_nat (ci_offset i) = Some (Z.of_nat bi) /\ blocks !! bi = Some b /\
      (bb_first_instruction b <= ii < bb_first_instruction b + bb_instruction_count b)%nat /\
      (is_start starts (ci_offset i) = true -> bb_first_instruction b = ii);
  ly_zero b : blocks !! 0%nat = Some b -> bb_first_instruction b = 0%nat;
  ly_small : (length blocks <= length instrs)%nat
}.

Lemma close_blocks_spec blocks otb : Placed (length instrs) blocks otb -> Layout (close_blocks bc (length instrs) blocks) otb.
Proof.
  intros HP.
  assert (forall k b', close_blocks bc (length instrs) blocks !! k = Some b' <->
    exists b, blocks !! k = Some b /\ b' = close_block bc (length instrs) blocks k b) as Hlk.
  { intros k b'. unfold close_blocks. rewrite list_lookup_imap, fmap_Some. done. }
  split.
  - intros k b' (b&Hb&->)%Hlk. destruct (pl_block _ _ _ HP _ _ Hb) as (Hlt&i&Hi&Heq&Hst).
    unfold close_block. destruct (blocks !! S k) as [nx|] eqn:Hnx; simpl.
    + pose proof (pl_increasing _ _ _ HP _ _ _ Hb Hnx). destruct (pl_block _ _ _ HP _ _ Hnx) as [? _].
      split_and!; [lia..|]. exists i. split_and!; auto. by rewrite Heq.
    + split_and!; [lia..|]. exists i. split_and!; auto. by rewrite Heq.
  - intros k b' (b&Hb&->)%Hlk. unfold close_blocks at 1. rewrite list_lookup_imap. unfold close_block at 2 3.
    destruct (pl_block _ _ _ HP _ _ Hb) as (Hlt&_).
    destruct (blocks !! S k) as [nx|] eqn:Hnx; simpl.
    + pose proof (pl_increasing _ _ _ HP _ _ _ Hb Hnx). unfold close_block. rewrite Hnx.
      destruct (blocks !! S (S k)); simpl; split; auto; lia.
    + unfold close_block. rewrite Hnx. simpl. split; [lia|done].
  - intros ii i Hi. destruct (pl_offset _ _ _ HP ii i) as (bi&b&Ho&Hb&Hle&Hnext&Hs); [by eapply lookup_lt_Some|done|].
    exists bi, (close_block bc (length instrs) blocks bi b).
    destruct (pl_block _ _ _ HP _ _ Hb) as (Hlt&_). apply lookup_lt_Some in Hi.
    split_and!; auto; [by apply Hlk; eauto| | |]; unfold close_block; destruct (blocks !! S bi) as [nx|] eqn:Hnx; simpl; auto.
    + specialize (Hnext _ eq_refl). lia.
    + lia.
  - intros b' (b&Hb&->)%Hlk. pose proof (pl_first _ _ _ HP _ Hb). unfold close_block. by destruct (blocks !! 1%nat).
  - unfold close_blocks. rewrite length_imap. apply (pl_count _ _ _ HP).
Qed.

(** Blocks are disjoint. *)
Lemma Layout_ordered blocks otb k k' b b' :
  Layout blocks otb -> blocks !! k = Some b -> blocks !! k' = Some b' -> (k < k')%nat ->
  (bb_first_instruction b + bb_instruction_count b <= bb_first_instruction b')%nat.
Proof.
  intros HL Hb Hb' Hk. revert b' Hb' Hk. induction k' as [|k' IH]; intros b' Hb' Hk; [lia|].
  destruct (lookup_lt_is_Some_2 blocks k') as [m Hm]; [apply lookup_lt_Some in Hb'; lia|].
  pose proof (ly_next _ _ HL _ _ Hm) as Hn. rewrite Hb' in Hn. destruct Hn as [Hn _].
  destruct (decide (k = k')) as [->|]; [simplify_eq; lia|]. specialize (IH _ Hm ltac:(lia)).
  destruct (ly_block _ _ HL _ _ Hm). lia.
Qed.

Lemma Layout_unique blocks otb k k' b b' ii :
  Layout blocks otb -> blocks !! k = Some b -> blocks !! k' = Some b' ->
  (bb_first_instruction b <= ii < bb_first_instruction b + bb_instruction_count b)%nat ->
  (bb_first_instruction b' <= ii < bb_first_instruction b' + bb_instruction_count b')%nat -> k = k'.
Proof.
  intros HL Hb Hb' Hi Hi'. destruct (lt_eq_lt_dec k k') as [[Hlt|?]|Hlt]; auto; exfalso.
  - pose proof (Layout_ordered _ _ _ _ _ _ HL Hb Hb' Hlt). lia.
  - pose proof (Layout_ordered _ _ _ _ _ _ HL Hb' Hb Hlt). lia.
Qed.

(** The layout depends on the extents only. *)
Definition bb_extent (b : TurboJSBytecodeBlock) : Z * Z * nat * nat :=
  (bb_start_offset b, bb_end_offset b, bb_first_instruction b, bb_instruction_count b).

Lemma extent_lookup (blocks blocks' : list TurboJSBytecodeBlock) k b :
  bb_extent <$> blocks = bb_extent <$> blocks' -> blocks' !! k = Some b ->
  exists b0, blocks !! k = Some b0 /\ bb_extent b0 = bb_extent b.
Proof.
  intros He Hb. assert ((bb_extent <$> blocks) !! k = Some (bb_extent b)) as H by (rewrite He, list_lookup_fmap, Hb; done).
  apply list_lookup_fmap_Some in H as (b0&?&?). by exists b0.
Qed.

Lemma Layout_ext blocks blocks' otb : bb_extent <$> blocks = bb_extent <$> blocks' -> Layout blocks otb -> Layout blocks' otb.
Proof.
  intros He HL. split.
  - intros k b Hb. destruct (extent_lookup _ _ _ _ He Hb) as (b0&Hb0&[= H1 H2 H3 H4]); rewrite <-?H1, <-?H2, <-?H3, <-?H4. by apply (ly_block _ _ HL _ _ Hb0).
  - intros k b Hb. destruct (extent_lookup _ _ _ _ He Hb) as (b0&Hb0&[= H1 H2 H3 H4]); rewrite <-?H1, <-?H2, <-?H3, <-?H4.
    pose proof (ly_next _ _ HL _ _ Hb0) as Hn. destruct (blocks' !! S k) as [n'|] eqn:Hn'.
    + destruct (extent_lookup _ _ _ _ He Hn') as (n0&Hn0&[= N1 N2 N3 N4]); rewrite <-?N1, <-?N3. by rewrite Hn0 in Hn.
    + destruct (blocks !! S k) as [n0|] eqn:Hn0; [|done].
      destruct (extent_lookup _ _ _ _ (eq_sym He) Hn0) as (?&?&_). congruence.
  - intros ii i Hi. destruct (ly_member _ _ HL _ _ Hi) as (bi&b0&Ho&Hb0&Hin&Hs).
    destruct (extent_lookup _ _ _ _ (eq_sym He) Hb0) as (b&Hb&[= Hx1 Hx2 Hx3 Hx4]). exists bi, b. rewrite Hx3, Hx4. auto.
  - intros b Hb. destruct (extent_lookup _ _ _ _ He Hb) as (b0&Hb0&[= H1 H2 H3 H4]); rewrite <-?H1, <-?H2, <-?H3, <-?H4. by apply (ly_zero _ _ HL).
  - pose proof (f_equal length He) as Hl. rewrite !length_fmap in Hl. rewrite <-Hl. apply (ly_small _ _ HL).
Qed.
End Blocks.

(** ** Edges *)

Lemma fmap_alter_id {A B : Type} (g : A -> B) (f : A -> A) (l : list A) i :
  (forall x, g (f x) = g x) -> g <$> alter f i l = g <$> l.
Proof.
  intros H. apply list_eq. intros k. rewrite !list_lookup_fmap, list_lookup_alter.
  case_decide; [|done]. subst. destruct (l !! k); simpl; by rewrite ?H.
Qed.

(** What the edge and predecessor passes keep of a block. *)
Definition bb_frame (b : TurboJSBytecodeBlock) : Z * Z * nat * nat * Z := (bb_extent b, bb_entry_stack_depth b).

Section Edges.
Context (bc : TurboJSEngineBytecodeInfo) (instrs : list CfgInstruction) (oti otb : list Z).

(** The successors of block [bi]. *)
Definition block_edges (bi : nat) (b : TurboJSBytecodeBlock) : CfgFail + list nat :=
  match last (block_instructions instrs b) with
  | None => inr []
  | Some i =>
      let off := ci_offset i in
      match cfg_branch (ci_opcode i) (operand_of bc off) with
      | Some (disp, conditional) =>
          let target := uwrap 32 (off + 1 + disp) in
          let tb := default TURBOJS_BYTECODE_NO_BLOCK (otb !! Z.to_nat target) in
          let fb := default TURBOJS_BYTECODE_NO_BLOCK (otb !! Z.to_nat (off + ci_size i)) in
          if default UINT32_MAX (oti !! Z.to_nat target) =? UINT32_MAX
          then inl (cfg_fail TURBOJS_IR_INVALID_TARGET off "CFG branch target is not an instruction boundary")
          else if tb =? TURBOJS_BYTECODE_NO_BLOCK
          then inl (cfg_fail TURBOJS_IR_INVALID_TARGET off "CFG branch target has no basic block")
          else inr (Z.to_nat tb :: (if conditional && (off + ci_size i <? bc_length bc) && negb (fb =? tb)
                                    then [Z.to_nat fb] else []))
      | None =>
          inr (if negb (cfg_terminates (ci_opcode i)) && (bb_end_offset b <? bc_length bc) then [S bi] else [])
      end
  end.

Lemma block_edges_ext bi b b' : bb_frame b = bb_frame b' -> block_edges bi b = block_edges bi b'.
Proof. intros [= H1 H2 H3 H4 H5]. unfold block_edges, block_instructions. by rewrite H2, H3, H4. Qed.

Lemma add_edges_spec bi b blocks blocks' :
  blocks !! bi = Some b -> add_edges bc instrs oti otb bi blocks = inr blocks' ->
  exists es, block_edges bi b = inr es /\ bb_frame <$> blocks' = bb_frame <$> blocks /\
    bb_successors <$> blocks' = alter (.++ es) bi (bb_successors <$> blocks).
Proof.
  intros Hb. unfold add_edges, block_edges. rewrite Hb.
  assert (forall l : list (list nat), l = alter (.++ []) bi l) as Hnil.
  { intros l. apply list_eq. intros k. rewrite list_lookup_alter. case_decide as Hk; [|done]. rewrite <-Hk.
    destruct (l !! bi); simpl; by rewrite ?app_nil_r. }
  assert (forall s (l : list TurboJSBytecodeBlock), bb_successors <$> alter (bb_add_successor s) bi l = alter (.++ [s]) bi (bb_successors <$> l))
    as Hadd by (intros; by apply list_fmap_alter, Forall_true).
  assert (forall s (l : list TurboJSBytecodeBlock), bb_frame <$> alter (bb_add_successor s) bi l = bb_frame <$> l) as Hadd'
    by (intros; by apply fmap_alter_id).
  assert (forall f k (l : list TurboJSBytecodeBlock), bb_successors <$> alter (bb_add_flag f) k l = bb_successors <$> l)
    as Hflag by (intros; by apply fmap_alter_id).
  assert (forall f k (l : list TurboJSBytecodeBlock), bb_frame <$> alter (bb_add_flag f) k l = bb_frame <$> l)
    as Hflag' by (intros; by apply fmap_alter_id).
  destruct (last _) as [i|]; [|intros [= <-]; exists []; auto].
  set (bs := if existsb _ _ then _ else blocks).
  assert (bb_frame <$> bs = bb_frame <$> blocks /\ bb_successors <$> bs = bb_successors <$> blocks) as [Hf Hs]
    by (unfold bs; destruct (existsb _ _); auto).
  clearbody bs. destruct (cfg_branch _ _) as [[disp c]|].
  - do 2 (destruct (_ =? _); [done|]). set (bs' := if _ <=? _ then _ else _).
    assert (bb_frame <$> bs' = bb_frame <$> blocks /\ bb_successors <$> bs' =
      alter (.++ [Z.to_nat (default TURBOJS_BYTECODE_NO_BLOCK (otb !! Z.to_nat (uwrap 32 (ci_offset i + 1 + disp))))]) bi
        (bb_successors <$> blocks)) as [Hf' Hs']
      by (unfold bs'; destruct (_ <=? _); rewrite ?Hflag, ?Hflag', ?Hadd, ?Hadd', Hf, Hs; auto).
    clearbody bs'. destruct (c && _); simpl; [|intros [= <-]; eauto].
    destruct (_ =? _); simpl; intros [= <-]; eauto. eexists. split_and!; [done|by rewrite Hadd'|].
    rewrite Hadd, Hs'. apply list_eq. intros k. rewrite !list_lookup_alter.
    destruct (decide (bi = k)) as [<-|]; [|done]. rewrite decide_True by done.
    destruct ((bb_successors <$> blocks) !! bi); simpl; by rewrite <-?app_assoc.
  - intros [= <-]. eexists. split; [done|]. destruct (_ && _); [by rewrite Hadd', Hadd, Hf, Hs|by rewrite <-Hnil].
Qed.

(** A frame determines the frames of the blocks. *)
Lemma frame_lookup (blocks blocks' : list TurboJSBytecodeBlock) k b :
  bb_frame <$> blocks = bb_frame <$> blocks' -> blocks' !! k = Some b ->
  exists b0, blocks !! k = Some b0 /\ bb_frame b0 = bb_frame b.
Proof.
  intros He Hb. assert ((bb_frame <$> blocks) !! k = Some (bb_frame b)) as H by (rewrite He, list_lookup_fmap, Hb; done).
  apply list_lookup_fmap_Some in H as (b0&?&?). by exists b0.
Qed.

Lemma edges_loop_spec ids blocks blocks' :
  NoDup ids -> Forall (fun k => (k < length blocks)%nat) ids ->
  edges_loop bc instrs oti otb ids blocks = inr blocks' ->
  bb_frame <$> blocks' = bb_frame <$> blocks /\
  forall k b b', blocks !! k = Some b -> blocks' !! k = Some b' ->
    if decide (k ∈ ids) then exists es, block_edges k b = inr es /\ bb_successors b' = bb_successors b ++ es
    else bb_successors b' = bb_successors b.
Proof.
  revert blocks. induction ids as [|bi ids IH]; intros blocks Hnd Hlt; cbn [edges_loop].
  { intros [= ->]. split; [done|]. intros k b b' ??. simplify_eq. by rewrite decide_False by apply not_elem_of_nil. }
  apply NoDup_cons in Hnd as [Hni Hnd]. apply Forall_cons in Hlt as [Hbi Hlt].
  destruct (lookup_lt_is_Some_2 blocks bi Hbi) as [b0 Hb0].
  destruct (add_edges _ _ _ _ _ _) as [|mid] eqn:Hadd; [done|]. intros Hloop.
  destruct (add_edges_spec _ _ _ _ Hb0 Hadd) as (es&Hes&Hf&Hs).
  pose proof (f_equal length Hf) as Hl. rewrite !length_fmap in Hl.
  destruct (IH mid Hnd ltac:(by rewrite Hl) Hloop) as [Hf' Hk]. split; [congruence|].
  intros k b b' Hb Hb'. destruct (frame_lookup _ _ _ _ Hf Hb) as (m&Hm&Hmf). specialize (Hk k m b' Hm Hb').
  assert (bb_successors m = if decide (k = bi) then bb_successors b ++ es else bb_successors b) as Hsm.
  { assert ((bb_successors <$> mid) !! k = Some (bb_successors m)) as H by (rewrite list_lookup_fmap, Hm; done).
    rewrite Hs, list_lookup_alter in H.
    destruct (decide (bi = k)) as [He|], (decide (k = bi)); try done; try rewrite He in H; rewrite list_lookup_fmap, Hb in H; by simplify_eq/=. }
  destruct (decide (k = bi)) as [->|Hne].
  - rewrite decide_False in Hk by done. rewrite decide_True by set_solver. simplify_eq. exists es. split; [done|congruence].
  - rewrite Hsm in Hk. rewrite (block_edges_ext _ _ _ Hmf) in Hk.
    destruct (decide (k ∈ ids)); [rewrite decide_True by set_solver|rewrite decide_False by set_solver]; done.
Qed.

(** The predecessor pass keeps frames and successors. *)
Lemma link_successors_spec bi succs blocks blocks' :
  link_successors bi succs blocks = inr blocks' ->
  bb_frame <$> blocks' = bb_frame <$> blocks /\ bb_successors <$> blocks' = bb_successors <$> blocks.
Proof.
  revert blocks. induction succs as [|s succs IH]; intros blocks; cbn [link_successors]; [by intros [= ->]|].
  destruct (blocks !! s); [|by intros [= ->]]. destruct (_ <=? _)%nat; [done|]. intros [Hf Hs]%IH.
  rewrite Hf, Hs. split; by apply fmap_alter_id.
Qed.

Lemma predecessors_loop_spec ids blocks blocks' :
  predecessors_loop ids blocks = inr blocks' ->
  bb_frame <$> blocks' = bb_frame <$> blocks /\ bb_successors <$> blocks' = bb_successors <$> blocks.
Proof.
  revert blocks. induction ids as [|bi ids IH]; intros blocks; simpl; [by intros [= ->]|].
  destruct (link_successors _ _ _) eqn:Hl; [done|]. intros [Hf Hs]%IH. apply link_successors_spec in Hl as [??]. split; congruence.
Qed.
End Edges.
