(* ===== verification/CfgSound.v ===== *)
(** * Soundness of the control-flow graph of engine bytecode

    The flow machine runs bytecode as far as control and operand stack depths
    go: a configuration is an offset and a depth.  If
    [TurboJS_EngineBytecodeBuildCFG] accepts the bytecode, and no
    unconditional jump stands in the middle of a block, every configuration
    the machine reaches is at an instruction of the graph, has the operands
    the instruction pops, and stays within the maximum depth of the graph.

    [DepthState] is the invariant of the worklist, [CfgOk] what a successful
    construction establishes, [At] the invariant of a run.  The inventory
    counts the graph's instructions.  The last section shows what the parser
    does with a jump that does stand in the middle of a block. *)

From S2P Require Import Prelude.
From S2P Require Import JitTypes.
From S2P Require Import EngineOpcodes.
From S2P Require Import BytecodeCfg.
From S2P Require Import CfgLayout.

(** ** Stack depths *)

(** Every instruction of the list finds its operands and stays in bounds. *)
Definition WalkOk (bc : TurboJSEngineBytecodeInfo) (instrs : list CfgInstruction) (depth maximum : Z) : Prop :=
  forall j i, instrs !! j = Some i ->
    let d := foldl depth_after depth (take j instrs) in
    opcode_pop (ci_opcode i) <= d /\ depth_after d i <= maximum /\
    (bc_stack_size bc <> 0 -> depth_after d i <= bc_stack_size bc).

Lemma WalkOk_mono bc instrs depth m m' : m <= m' -> WalkOk bc instrs depth m -> WalkOk bc instrs depth m'.
Proof. intros Hm H j i Hj. destruct (H j i Hj) as (?&?&?). split_and!; auto. lia. Qed.

Lemma walk_depth_spec bc instrs depth maximum d' m' :
  0 <= depth -> depth + 6 * Z.of_nat (length instrs) < 2 ^ 32 ->
  walk_depth bc instrs depth maximum = inr (d', m') ->
  d' = foldl depth_after depth instrs /\ 0 <= d' <= depth + 6 * Z.of_nat (length instrs) /\
  maximum <= m' /\ WalkOk bc instrs depth m'.
Proof.
  revert depth maximum. induction instrs as [|i instrs IH]; intros depth maximum Hd Hsmall; simpl.
  { intros [= <- <-]. split_and!; auto; try lia. by intros j i Hj. }
  simpl in Hsmall. destruct (opcode_info_bounds (ci_opcode i)) as (_&Hpop&Hpush).
  rewrite (proj2 (Z.leb_le 0 _)) by lia. destruct (_ <? opcode_pop _) eqn:Hu; [done|]. b2p.
  rewrite uwrap_small by (unfold is_u; lia). destruct (negb _ && _) eqn:Hst; [done|]. intros Hw.
  apply IH in Hw as (Hd'&Hb&Hm&Hok); [|lia..]. fold (depth_after depth i) in *.
  assert (depth_after depth i <= m' /\ maximum <= m') as [Hm1 Hm2] by (destruct (maximum <? _) eqn:?; b2p; lia).
  unfold depth_after in Hb. split_and!; auto; [lia..|].
  intros [|j] k Hk; simplify_eq/=; [|by apply Hok]. split_and!; auto.
  intros Hne. apply andb_false_iff in Hst as [Hst|Hst]; b2p; lia.
Qed.

Section Depths.
Context (bc : TurboJSEngineBytecodeInfo) (instrs : list CfgInstruction).
(** The blocks the pass starts from: extents and successors stay. *)
Context (blocks0 : list TurboJSBytecodeBlock).

Definition bb_static (b : TurboJSBytecodeBlock) : Z * Z * nat * nat * list nat := (bb_extent b, bb_successors b).

Definition entries (blocks : list TurboJSBytecodeBlock) : list Z := bb_entry_stack_depth <$> blocks.

Lemma static_lookup (blocks : list TurboJSBytecodeBlock) k b :
  bb_static <$> blocks = bb_static <$> blocks0 -> blocks !! k = Some b ->
  exists b0, blocks0 !! k = Some b0 /\ block_instructions instrs b0 = block_instructions instrs b /\
    bb_successors b0 = bb_successors b.
Proof.
  intros He Hb. assert ((bb_static <$> blocks0) !! k = Some (bb_static b)) as H by (rewrite <-He, list_lookup_fmap, Hb; done).
  apply list_lookup_fmap_Some in H as (b0&[= H1 H2 H3 H4 H5]&?). exists b0. unfold block_instructions. by rewrite H3, H4, H5.
Qed.

(** Successors that had no depth get one and enter the worklist. *)
Lemma visit_successors_spec depth succs blocks queue blocks' queue' :
  depth <> UINT32_MAX -> Forall (fun s => (s < length blocks)%nat) succs ->
  visit_successors depth succs blocks queue = inr (blocks', queue') ->
  bb_static <$> blocks' = bb_static <$> blocks /\
  exists new, queue' = queue ++ new /\ NoDup new /\
    (forall k, k ∈ new -> entries blocks !! k = Some UINT32_MAX) /\
    (forall k, k ∉ new -> entries blocks' !! k = entries blocks !! k) /\
    (forall k, k ∈ new \/ k ∈ succs -> entries blocks' !! k = Some depth).
Proof.
  intros Hne. revert blocks queue. induction succs as [|s succs IH]; intros blocks queue Hlt; simpl.
  { intros [= <- <-]. split; [done|]. exists []. rewrite app_nil_r. split_and!; auto; [constructor|set_solver|set_solver]. }
  apply Forall_cons in Hlt as [Hs Hlt]. destruct (lookup_lt_is_Some_2 blocks s Hs) as [b Hb]. rewrite Hb.
  assert (entries blocks !! s = Some (bb_entry_stack_depth b)) as Hes by (unfold entries; by rewrite list_lookup_fmap, Hb).
  destruct (_ =? UINT32_MAX) eqn:Hm; b2p.
  - assert (entries (alter (bb_set_entry depth) s blocks) = <[s := depth]> (entries blocks)) as He.
    { unfold entries. apply list_eq. intros k. rewrite list_lookup_fmap, list_lookup_alter.
      destruct (decide (s = k)) as [<-|]; [|by rewrite list_lookup_insert_ne, list_lookup_fmap by done].
      rewrite list_lookup_insert_eq by by rewrite length_fmap. by rewrite Hb. }
    intros (Hst&new&->&Hnd&Hnew&Hold&Hval)%IH; [|by rewrite length_alter].
    rewrite He in Hnew, Hold. assert (s < length (entries blocks))%nat by (unfold entries; by rewrite length_fmap).
    assert (s ∉ new) as Hsn by (intros Hin; apply Hnew in Hin; rewrite list_lookup_insert_eq in Hin by done; congruence).
    split; [rewrite Hst; by apply fmap_alter_id|]. exists (s :: new). rewrite <-app_assoc. split_and!; auto.
    + by constructor.
    + intros k [->|Hin]%elem_of_cons; [congruence|]. assert (s <> k) by (intros ->; done).
      apply Hnew in Hin. by rewrite list_lookup_insert_ne in Hin.
    + intros k Hk. rewrite Hold by set_solver. rewrite list_lookup_insert_ne; [done|set_solver].
    + intros k Hk. destruct (decide (k = s)) as [->|]; [|apply Hval; set_solver].
      rewrite Hold by done. by apply list_lookup_insert_eq.
  - destruct (_ =? depth) eqn:Heq; [|done]. b2p. intros (Hst&new&->&Hnd&Hnew&Hold&Hval)%IH; [|done].
    split; [done|]. exists new. split_and!; auto. intros k Hk.
    destruct (decide (k ∈ new \/ k ∈ succs)) as [|Hno]; [by apply Hval|].
    assert (k = s) as -> by set_solver. rewrite Hold by tauto. congruence.
Qed.

(** Instructions of the blocks in a list. *)
Definition consumed (ids : list nat) : Z :=
  Z.of_nat (sum_list_with (fun k => default 0%nat (bb_instruction_count <$> blocks0 !! k)) ids).

Lemma consumed_app l k : consumed (l ++ k) = consumed l + consumed k.
Proof. unfold consumed. rewrite sum_list_with_app. lia. Qed.

Context (Hsucc : forall k b s, blocks0 !! k = Some b -> s ∈ bb_successors b -> (s < length blocks0)%nat).
Context (Htotal : consumed (seq 0 (length blocks0)) <= Z.of_nat (length instrs)).
Context (Hsmall : 6 * Z.of_nat (length instrs) < UINT32_MAX).

Lemma consumed_bound ids :
  NoDup ids -> (forall k, k ∈ ids -> (k < length blocks0)%nat) -> consumed ids <= Z.of_nat (length instrs).
Proof.
  intros Hnd Hlt. assert (ids ⊆+ seq 0 (length blocks0)) as [r Hr]%submseteq_Permutation.
  { apply NoDup_submseteq; [done|]. intros k Hk%Hlt. apply elem_of_seq. lia. }
  assert (consumed (seq 0 (length blocks0)) = consumed (ids ++ r)) as He by (unfold consumed; by rewrite Hr).
  rewrite consumed_app in He. unfold consumed in *. lia.
Qed.

(** [finished] blocks were walked, [queue] waits; the others have no depth. *)
Record DepthState (finished queue : list nat) (E : list Z) (maximum : Z) : Prop := {
  ds_length : length E = length blocks0;
  ds_nodup : NoDup (finished ++ queue);
  ds_range k : k ∈ finished ++ queue -> (k < length blocks0)%nat;
  ds_visited k e : E !! k = Some e -> k ∈ finished ++ queue -> 0 <= e <= 6 * consumed finished;
  ds_new k e : E !! k = Some e -> k ∉ finished ++ queue -> e = UINT32_MAX;
  ds_done k b : k ∈ finished -> blocks0 !! k = Some b ->
    exists e, E !! k = Some e /\ WalkOk bc (block_instructions instrs b) e maximum /\
      let d := foldl depth_after e (block_instructions instrs b) in
      0 <= d <= 6 * consumed finished /\ forall s, s ∈ bb_successors b -> E !! s = Some d
}.

Lemma ds_bound finished queue E maximum : DepthState finished queue E maximum -> 6 * consumed finished < UINT32_MAX.
Proof.
  intros HD. pose proof (consumed_bound finished). pose proof (ds_nodup _ _ _ _ HD) as Hnd.
  apply NoDup_app in Hnd as (Hnd&_&_).
  assert (forall k, k ∈ finished -> (k < length blocks0)%nat) by (intros; apply (ds_range _ _ _ _ HD); set_solver).
  specialize (H Hnd H0). lia.
Qed.

Lemma DepthState_walk finished bi queue E maximum b e d m' :
  DepthState finished (bi :: queue) E maximum -> blocks0 !! bi = Some b -> E !! bi = Some e ->
  walk_depth bc (block_instructions instrs b) e maximum = inr (d, m') ->
  d = foldl depth_after e (block_instructions instrs b) /\ 0 <= d <= 6 * consumed (finished ++ [bi]) /\
  maximum <= m' /\ WalkOk bc (block_instructions instrs b) e m' /\
  consumed finished <= consumed (finished ++ [bi]) /\ 6 * consumed (finished ++ [bi]) < UINT32_MAX.
Proof.
  intros HD Hb He Hw. pose proof (ds_bound _ _ _ _ HD) as Hcap.
  destruct (ds_visited _ _ _ _ HD bi e He ltac:(set_solver)) as [He0 He1].
  assert (Z.of_nat (length (block_instructions instrs b)) <= consumed [bi]) as Hcnt.
  { unfold consumed, block_instructions. simpl. rewrite Hb. simpl. rewrite length_take. lia. }
  pose proof (ds_nodup _ _ _ _ HD) as Hnd. assert (NoDup (finished ++ [bi])) as Hnd1.
  { replace (finished ++ bi :: queue) with ((finished ++ [bi]) ++ queue) in Hnd by (rewrite <-app_assoc; done).
    by apply NoDup_app in Hnd as (?&_&_). }
  pose proof (consumed_bound _ Hnd1 ltac:(intros k Hk; apply (ds_range _ _ _ _ HD); set_solver)) as Htot.
  pose proof (consumed_app finished [bi]) as Hcapp. assert (0 <= consumed [bi]) by (unfold consumed; lia).
  unfold UINT32_MAX in *. apply walk_depth_spec in Hw as (Hd&Hdb&Hm&Hok); [|lia..]. split_and!; auto; lia.
Qed.

(** Walking block [bi] and visiting its successors. *)
Lemma DepthState_step finished bi queue E maximum b e d m' E' new :
  DepthState finished (bi :: queue) E maximum -> blocks0 !! bi = Some b -> E !! bi = Some e ->
  walk_depth bc (block_instructions instrs b) e maximum = inr (d, m') ->
  length E' = length E -> NoDup new ->
  (forall k, k ∈ new -> E !! k = Some UINT32_MAX) -> (forall k, k ∉ new -> E' !! k = E !! k) ->
  (forall k, k ∈ new \/ k ∈ bb_successors b -> E' !! k = Some d) ->
  DepthState (finished ++ [bi]) (queue ++ new) E' m'.
Proof.
  intros HD Hb He Hw Hlen Hndn Hnew Hold Hval.
  destruct (DepthState_walk _ _ _ _ _ _ _ _ _ HD Hb He Hw) as (Hd&Hdb&Hm&Hok&Hgrow&Hcap).
  pose proof (ds_nodup _ _ _ _ HD) as Hnd. unfold UINT32_MAX in Hcap.
  assert (forall k, k ∈ new -> k ∉ finished ++ bi :: queue) as Hfresh.
  { intros k Hk Hin. destruct (ds_visited _ _ _ _ HD k UINT32_MAX (Hnew _ Hk) Hin). unfold UINT32_MAX in *. lia. }
  assert (forall k, k ∈ (finished ++ [bi]) ++ queue ++ new <-> k ∈ finished ++ bi :: queue \/ k ∈ new) as Hset by set_solver.
  split.
  - rewrite Hlen. apply (ds_length _ _ _ _ HD).
  - replace ((finished ++ [bi]) ++ queue ++ new) with ((finished ++ bi :: queue) ++ new) by (rewrite <-!app_assoc; done).
    apply NoDup_app. split; [done|]. split; [|done]. intros k Hk Hn. by apply (Hfresh k).
  - intros k [Hk|Hk]%Hset; [by apply (ds_range _ _ _ _ HD)|].
    rewrite <-(ds_length _ _ _ _ HD). eapply lookup_lt_Some. by apply Hnew.
  - intros k e' He' [Hk|Hk]%Hset; [|rewrite Hval in He' by auto; simplify_eq; lia].
    rewrite Hold in He' by (intros Hn; by apply (Hfresh k)). destruct (ds_visited _ _ _ _ HD k e' He' Hk). lia.
  - intros k e' He' Hk. rewrite Hset in Hk. rewrite Hold in He' by tauto. apply (ds_new _ _ _ _ HD k); tauto.
  - intros k b' Hk Hb'. apply elem_of_app in Hk as [Hk|Hk%list_elem_of_singleton].
    + destruct (ds_done _ _ _ _ HD k b' Hk Hb') as (e'&He'&Hw'&[Hd0 Hd1]&Hs). exists e'.
      rewrite Hold by (intros Hn; apply (Hfresh k Hn); set_solver). cbv zeta.
      split_and!; auto; [by eapply WalkOk_mono|lia|].
      intros s Hin. rewrite Hold; [by apply Hs|]. intros Hn%Hnew. rewrite (Hs _ Hin) in Hn. injection Hn as Hn.
      unfold UINT32_MAX in *. lia.
    + subst k. simplify_eq. exists e. rewrite Hold by (intros Hn; apply (Hfresh bi Hn); set_solver).
      cbv zeta. split_and!; auto; lia.
Qed.

Lemma depth_loop_spec fuel finished blocks queue maximum blocks' m' :
  DepthState finished queue (entries blocks) maximum -> bb_static <$> blocks = bb_static <$> blocks0 ->
  (length blocks0 <= fuel + length finished)%nat ->
  depth_loop fuel bc instrs blocks queue maximum = inr (blocks', m') ->
  bb_static <$> blocks' = bb_static <$> blocks0 /\
  (exists finished', DepthState finished' [] (entries blocks') m') /\
  (forall k e, entries blocks !! k = Some e -> e <> UINT32_MAX -> entries blocks' !! k = Some e).
Proof.
  revert finished blocks queue maximum.
  induction fuel as [|fuel IH]; intros finished blocks queue maximum HD Hst Hfuel; simpl.
  { intros [= <- <-]. split_and!; auto. exists finished. destruct queue as [|q queue]; [done|]. exfalso.
    assert (finished ++ q :: queue ⊆+ seq 0 (length blocks0)) as Hl%submseteq_length.
    { apply NoDup_submseteq; [apply (ds_nodup _ _ _ _ HD)|]. intros k Hk%(ds_range _ _ _ _ HD). apply elem_of_seq. lia. }
    rewrite length_app, length_seq in Hl. simpl in Hl. lia. }
  destruct queue as [|bi queue]; [intros [= <- <-]; split_and!; eauto|].
  destruct (lookup_lt_is_Some_2 blocks bi) as [b Hb].
  { rewrite <-(length_fmap bb_static), Hst, length_fmap. apply (ds_range _ _ _ _ HD). set_solver. }
  rewrite Hb. destruct (static_lookup _ _ _ Hst Hb) as (b0&Hb0&Hbi&Hbs).
  destruct (walk_depth _ _ _ _) as [|[d m1]] eqn:Hw; [done|].
  set (mid := alter (bb_set_exit d) bi _).
  assert (bb_static <$> mid = bb_static <$> blocks0) as Hst1 by (unfold mid; rewrite !fmap_alter_id; done).
  assert (entries mid = entries blocks) as Hen by (unfold mid, entries; rewrite !fmap_alter_id; done).
  destruct (visit_successors _ _ _ _) as [|[blocks1 queue1]] eqn:Hv; [done|]. intros Hloop.
  assert (length mid = length blocks0) as Hlm by (rewrite <-(length_fmap bb_static), Hst1, length_fmap; done).
  assert (Forall (fun s => (s < length mid)%nat) (bb_successors b)) as Hrange.
  { apply Forall_forall. intros s Hs. rewrite Hlm. rewrite <-Hbs in Hs. by eapply Hsucc. }
  rewrite <-Hbi in Hw.
  assert (entries blocks !! bi = Some (bb_entry_stack_depth b)) as Heb by (unfold entries; by rewrite list_lookup_fmap, Hb).
  destruct (DepthState_walk _ _ _ _ _ _ _ _ _ HD Hb0 Heb Hw) as (_&Hdb&_&_&_&Hcap).
  destruct (visit_successors_spec d _ _ _ _ _ ltac:(lia) Hrange Hv) as (Hst2&new&->&Hnd&Hnew&Hold&Hval).
  rewrite Hen in Hnew, Hold. rewrite Hst1 in Hst2.
  assert (length (entries blocks1) = length (entries blocks)) as Hl.
  { unfold entries. rewrite !length_fmap, <-(length_fmap bb_static blocks1), Hst2, <-Hst. by rewrite length_fmap. }
  apply IH with (finished := finished ++ [bi]) in Hloop as (Hst'&Hfin&Hkeep); auto.
  - split_and!; auto. intros k e He Hne. apply Hkeep; [|done]. rewrite Hold; [done|]. intros Hn%Hnew. congruence.
  - eapply DepthState_step; eauto. by rewrite Hbs.
  - rewrite length_app. simpl. lia.
Qed.
End Depths.

(** ** The graph *)

(** What a successful construction establishes. *)
Record CfgOk (bc : TurboJSEngineBytecodeInfo) (starts : list bool) (oti : list Z) (cfg : TurboJSBytecodeCFG) : Prop := {
  co_tiles : tiles bc 0 (cfg_instructions cfg);
  co_marks : Forall (marks bc starts) (cfg_instructions cfg);
  co_layout : Layout bc starts (cfg_instructions cfg) (cfg_blocks cfg) (cfg_offset_to_block cfg);
  co_edges k b : cfg_blocks cfg !! k = Some b ->
    block_edges bc (cfg_instructions cfg) oti (cfg_offset_to_block cfg) k b = inr (bb_successors b);
  co_boundary off v : oti !! off = Some v -> v <> UINT32_MAX ->
    exists i, i ∈ cfg_instructions cfg /\ Z.to_nat (ci_offset i) = off;
  co_entry : exists b, cfg_blocks cfg !! 0%nat = Some b /\ bb_entry_stack_depth b = 0;
  co_depth k b : cfg_blocks cfg !! k = Some b -> bb_entry_stack_depth b <> UINT32_MAX ->
    WalkOk bc (block_instructions (cfg_instructions cfg) b) (bb_entry_stack_depth b) (cfg_maximum_stack_depth cfg) /\
    forall s b', s ∈ bb_successors b -> cfg_blocks cfg !! s = Some b' ->
      bb_entry_stack_depth b' = foldl depth_after (bb_entry_stack_depth b) (block_instructions (cfg_instructions cfg) b) /\
      bb_entry_stack_depth b' <> UINT32_MAX
}.

Section EdgeMeaning.
Context (bc : TurboJSEngineBytecodeInfo) (starts : list bool) (instrs : list CfgInstruction) (oti otb : list Z).
Context (blocks : list TurboJSBytecodeBlock).
Context (Htiles : tiles bc 0 instrs) (Hmarks : Forall (marks bc starts) instrs) (Hsmall : bc_length bc < UINT32_MAX).
Context (Hlayout : Layout bc starts instrs blocks otb).
Context (Hbound : forall off v, oti !! off = Some v -> v <> UINT32_MAX ->
  exists i, i ∈ instrs /\ Z.to_nat (ci_offset i) = off).

Lemma block_instructions_lookup k b j :
  blocks !! k = Some b -> (j < bb_instruction_count b)%nat ->
  block_instructions instrs b !! j = instrs !! (bb_first_instruction b + j)%nat.
Proof. intros _ Hj. unfold block_instructions. by rewrite lookup_take_lt, lookup_drop by done. Qed.

Lemma block_instructions_length k b :
  blocks !! k = Some b -> length (block_instructions instrs b) = bb_instruction_count b.
Proof.
  intros Hb. destruct (ly_block _ _ _ _ _ Hlayout _ _ Hb) as (?&?&_). unfold block_instructions.
  rewrite length_take, length_drop. lia.
Qed.

Lemma block_last k b i :
  blocks !! k = Some b -> instrs !! (bb_first_instruction b + bb_instruction_count b - 1)%nat = Some i ->
  last (block_instructions instrs b) = Some i.
Proof.
  intros Hb Hi. destruct (ly_block _ _ _ _ _ Hlayout _ _ Hb) as (?&?&_).
  rewrite last_lookup, (block_instructions_length _ _ Hb), (block_instructions_lookup _ _ _ Hb) by lia.
  rewrite <-Hi. f_equal. lia.
Qed.

(** An edge leads to a block that starts at instruction [ii]. *)
Definition leads_to (es : list nat) (ii : nat) : Prop :=
  exists s b, s ∈ es /\ blocks !! s = Some b /\ bb_first_instruction b = ii.

(** A start that is an instruction is the start of its block. *)
Lemma start_block ii i :
  instrs !! ii = Some i -> is_start starts (ci_offset i) = true ->
  exists s b, otb !! Z.to_nat (ci_offset i) = Some (Z.of_nat s) /\ blocks !! s = Some b /\ bb_first_instruction b = ii.
Proof.
  intros Hi Hs. destruct (ly_member _ _ _ _ _ Hlayout _ _ Hi) as (s&b&Ho&Hb&_&Hf). exists s, b. auto.
Qed.

Lemma block_edges_spec k b i es :
  blocks !! k = Some b -> instrs !! (bb_first_instruction b + bb_instruction_count b - 1)%nat = Some i ->
  block_edges bc instrs oti otb k b = inr es ->
  (forall disp c, cfg_branch (ci_opcode i) (operand_of bc (ci_offset i)) = Some (disp, c) ->
    exists ii t, instrs !! ii = Some t /\ ci_offset t = ci_offset i + 1 + disp /\ leads_to es ii) /\
  (falls_through bc i = true -> ci_offset i + ci_size i < bc_length bc ->
    exists n, instrs !! (bb_first_instruction b + bb_instruction_count b)%nat = Some n /\
      ci_offset n = ci_offset i + ci_size i /\ leads_to es (bb_first_instruction b + bb_instruction_count b)) /\
  (forall s, s ∈ es -> (s < length blocks)%nat).
Proof.
  intros Hb Hi. destruct (ly_block _ _ _ _ _ Hlayout _ _ Hb) as (Hpos&Hle&_).
  pose proof (tiles_lookup _ _ _ _ _ Htiles Hi) as (_&Hlo&_&_&Hnext).
  replace (S (bb_first_instruction b + bb_instruction_count b - 1))
    with (bb_first_instruction b + bb_instruction_count b)%nat in Hnext by lia.
  pose proof (proj1 (Forall_lookup _ _) Hmarks _ _ Hi) as Hm. unfold marks in Hm.
  unfold block_edges. rewrite (block_last _ _ _ Hb Hi). unfold falls_through.
  destruct (cfg_branch _ _) as [[disp c]|] eqn:Hbr.
  - destruct Hm as (Ht&Hts&Hc). unfold UINT32_MAX in Hsmall. rewrite uwrap_small by (unfold is_u; lia).
    destruct (_ =? UINT32_MAX) eqn:Hnb; [done|]. destruct (_ =? TURBOJS_BYTECODE_NO_BLOCK) eqn:Hno; [done|]. b2p.
    destruct (oti !! _) as [v|] eqn:Hv; [|done]. simpl in Hnb. destruct (Hbound _ _ Hv Hnb) as (t&Hin&Htoff).
    apply list_elem_of_lookup in Hin as [ii Hii]. pose proof (tiles_lookup _ _ _ _ _ Htiles Hii) as (_&?&_).
    assert (ci_offset t = ci_offset i + 1 + disp) as Heq by lia. rewrite <-Heq in Hts.
    destruct (start_block _ _ Hii Hts) as (s&sb&Ho&Hsb&Hfst). rewrite <-Htoff, Ho. simpl. rewrite Nat2Z.id.
    intros [= <-]. split_and!.
    + intros ?? [= <- <-]. exists ii, t. split_and!; auto. exists s, sb. set_solver.
    + intros -> Hlt. destruct (instrs !! (_ + _)%nat) as [n|] eqn:Hn; [|lia]. exists n. split_and!; auto.
      destruct (start_block _ _ Hn ltac:(rewrite Hnext; by apply Hc)) as (f&fb&Hof&Hfb&Hff). rewrite <-Hnext, Hof.
      rewrite Hnext, (proj2 (Z.ltb_lt _ _)) by lia. simpl. destruct (decide (f = s)) as [->|Hne].
      * exists s, fb. set_solver.
      * rewrite (proj2 (Z.eqb_neq _ _)) by lia. simpl. exists f, fb. rewrite Nat2Z.id. set_solver.
    + intros s' [->|Hin]%elem_of_cons; [by eapply lookup_lt_Some|].
      destruct (c && _ && _) eqn:Hcond; [|set_solver]. b2p. apply list_elem_of_singleton in Hin as ->.
      destruct (instrs !! (_ + bb_instruction_count b)%nat) as [n|] eqn:Hn; [|lia].
      destruct (ly_member _ _ _ _ _ Hlayout _ _ Hn) as (f&fb&Hof&Hfb&_). rewrite <-Hnext, Hof. simpl. rewrite Nat2Z.id.
      by eapply lookup_lt_Some.
  - pose proof (ly_next _ _ _ _ _ Hlayout _ _ Hb) as Hly. intros [= <-]. split_and!; [done| |].
    + intros Hterm Hlt. rewrite Hterm. destruct (instrs !! (_ + _)%nat) as [n|] eqn:Hn; [|lia]. exists n. split_and!; auto.
      destruct (blocks !! S k) as [nb|] eqn:Hnb.
      * destruct Hly as [Hf He]. destruct (ly_block _ _ _ _ _ Hlayout _ _ Hnb) as (_&_&n'&Hn'&Hso&_).
        rewrite Hf, Hn in Hn'. simplify_eq. rewrite He, Hso, Hnext. simpl.
        rewrite (proj2 (Z.ltb_lt _ _)) by lia. exists (S k), nb. set_solver.
      * destruct Hly as [Hf _]. apply lookup_lt_Some in Hn. lia.
    + intros s Hs. destruct (negb _ && _) eqn:Hc; [|set_solver]. b2p. apply list_elem_of_singleton in Hs as ->.
      destruct (blocks !! S k) eqn:Hnb; [by eapply lookup_lt_Some|]. destruct Hly as [_ He]. lia.
Qed.

(** The blocks have all the instructions. *)
Lemma consumed_total : consumed blocks (seq 0 (length blocks)) <= Z.of_nat (length instrs).
Proof.
  assert (forall m, (m <= length blocks)%nat ->
    match blocks !! m with
    | Some b => consumed blocks (seq 0 m) = Z.of_nat (bb_first_instruction b)
    | None => consumed blocks (seq 0 m) <= Z.of_nat (length instrs)
    end) as H.
  { induction m as [|m IH]; intros Hm.
    - destruct (blocks !! 0%nat) eqn:Hb; [|unfold consumed; simpl; lia].
      by rewrite (ly_zero _ _ _ _ _ Hlayout _ Hb).
    - destruct (lookup_lt_is_Some_2 blocks m ltac:(lia)) as [b Hb]. specialize (IH ltac:(lia)). rewrite Hb in IH.
      pose proof (ly_next _ _ _ _ _ Hlayout _ _ Hb) as Hn. rewrite seq_S, consumed_app. simpl.
      assert (consumed blocks [m] = Z.of_nat (bb_instruction_count b)) as -> by (unfold consumed; simpl; rewrite Hb; simpl; lia).
      destruct (blocks !! S m); destruct Hn; lia. }
  specialize (H (length blocks) ltac:(lia)). by rewrite (proj2 (lookup_ge_None _ _)) in H by lia.
Qed.
End EdgeMeaning.

(** The passes after the layout, from its blocks. *)
Lemma depths_ok bc starts instrs oti otb blocks blocks' maximum :
  tiles bc 0 instrs -> Forall (marks bc starts) instrs -> 6 * bc_length bc < UINT32_MAX ->
  Layout bc starts instrs blocks otb ->
  (forall off v, oti !! off = Some v -> v <> UINT32_MAX -> exists i, i ∈ instrs /\ Z.to_nat (ci_offset i) = off) ->
  (forall k b, blocks !! k = Some b -> block_edges bc instrs oti otb k b = inr (bb_successors b)) ->
  (0 < length blocks)%nat -> (forall b, b ∈ blocks -> bb_entry_stack_depth b = UINT32_MAX) ->
  depth_loop (length (alter (bb_set_entry 0) 0%nat blocks)) bc instrs (alter (bb_set_entry 0) 0%nat blocks) [0%nat] 0
    = inr (blocks', maximum) ->
  CfgOk bc starts oti (mkCFG blocks' instrs otb maximum).
Proof.
  intros Ht Hm Hsmall HL Hbound Hedges Hpos Hunset Hloop. set (b0 := alter (bb_set_entry 0) 0%nat blocks) in *.
  pose proof (tiles_length _ _ _ Ht ltac:(unfold bc_length; lia)) as Hlen.
  assert (bc_length bc < UINT32_MAX) as Hsm by (unfold bc_length in *; lia).
  assert (forall k b s, blocks !! k = Some b -> s ∈ bb_successors b -> (s < length blocks)%nat) as Hsucc.
  { intros k b s Hb. destruct (ly_block _ _ _ _ _ HL _ _ Hb) as (?&?&_).
    destruct (lookup_lt_is_Some_2 instrs (bb_first_instruction b + bb_instruction_count b - 1)) as [i Hi]; [lia|].
    eapply (block_edges_spec bc starts instrs oti otb blocks Ht Hm Hsm HL Hbound k b i); eauto. }
  assert (DepthState bc instrs blocks [] [0%nat] (entries b0) 0) as HD.
  { assert (entries b0 = <[0%nat := 0]> (entries blocks)) as -> by (destruct blocks; [simpl in Hpos; lia|done]).
    split; simpl.
    - unfold entries. by rewrite length_insert, length_fmap.
    - apply NoDup_singleton.
    - intros k ->%list_elem_of_singleton. done.
    - intros k e He ->%list_elem_of_singleton. rewrite list_lookup_insert_eq in He by (unfold entries; by rewrite length_fmap).
      simplify_eq. unfold consumed. simpl. lia.
    - intros k e He Hk. rewrite list_lookup_insert_ne in He by set_solver.
      unfold entries in He. apply list_lookup_fmap_Some in He as (b&->&Hb). apply Hunset. by eapply list_elem_of_lookup_2.
    - intros k b Hk. by apply not_elem_of_nil in Hk. }
  assert (bb_static <$> b0 = bb_static <$> blocks) as Hst by by apply fmap_alter_id.
  apply (depth_loop_spec bc instrs blocks Hsucc (consumed_total bc starts instrs otb blocks HL) ltac:(lia) _ []) in Hloop
    as (Hst'&[fin Hfin]&Hkeep); auto; [|unfold b0; rewrite length_alter; simpl; lia].
  assert (bb_extent <$> blocks = bb_extent <$> blocks') as Hext.
  { pose proof (f_equal (fmap fst) Hst') as He. rewrite <-!list_fmap_compose in He. symmetry. exact He. }
  split; simpl; auto.
  - by eapply Layout_ext.
  - intros k b Hb. destruct (static_lookup instrs blocks _ _ _ Hst' Hb) as (b1&Hb1&Hi&Hs). rewrite <-Hs, <-(Hedges _ _ Hb1).
    destruct (extent_lookup _ _ _ _ Hext Hb) as (b2&Hb2&[= H1 H2 H3 H4]). simplify_eq.
    unfold block_edges. by rewrite Hi, H2.
  - destruct (lookup_lt_is_Some_2 blocks' 0) as [b Hb].
    { rewrite <-(length_fmap bb_extent), <-Hext, length_fmap. done. }
    exists b. split; [done|]. assert (entries blocks' !! 0%nat = Some 0) as He.
    { apply Hkeep; [|done]. unfold b0. destruct blocks; [simpl in Hpos; lia|done]. }
    unfold entries in He. rewrite list_lookup_fmap, Hb in He. by simplify_eq/=.
  - intros k b Hb Hne. destruct (static_lookup instrs blocks _ _ _ Hst' Hb) as (b1&Hb1&Hi&Hs).
    assert (entries blocks' !! k = Some (bb_entry_stack_depth b)) as He by (unfold entries; by rewrite list_lookup_fmap, Hb).
    destruct (decide (k ∈ fin)) as [Hin|Hni].
    + destruct (ds_done _ _ _ _ _ _ _ Hfin k b1 Hin Hb1) as (e&He'&Hw&[Hd0 Hd1]&Hss). simplify_eq.
      rewrite <-Hi, <-Hs. split; [done|]. intros s b' Hin' Hb'. specialize (Hss s Hin').
      unfold entries in Hss. rewrite list_lookup_fmap, Hb' in Hss. simplify_eq/=. rewrite Hss. split; [done|].
      pose proof (ds_bound bc instrs blocks Hsucc (consumed_total bc starts instrs otb blocks HL) ltac:(lia) _ _ _ _ Hfin). lia.
    + exfalso. apply Hne. eapply (ds_new _ _ _ _ _ _ _ Hfin k); [done|]. by rewrite app_nil_r.
Qed.

Lemma BuildCFG_ok mem bc cfg :
  TurboJS_EngineBytecodeBuildCFG mem bc = inr cfg -> 6 * bc_length bc < UINT32_MAX ->
  exists starts oti, CfgOk bc starts oti cfg.
Proof.
  intros H Hsmall. unfold TurboJS_EngineBytecodeBuildCFG in H. destruct (bc_length bc =? 0) eqn:Hz; [done|]. b2p.
  destruct (negb _); [done|]. destruct (parse_loop _ _ _ _) as [|s] eqn:Hp; [done|].
  destruct (parse_spec _ _ Hp) as (Ht&Hs0&Hm&Hb). do 2 (destruct (negb _); [done|]).
  assert (bc_length bc < UINT32_MAX) as Hsm by (unfold bc_length in *; lia).
  set (instrs := ps_instructions s) in *.
  pose proof (place_blocks_spec bc (ps_starts s) instrs Ht Hs0 Hsm instrs 0 [] _ (fun k => eq_refl)
    (Placed_initial bc (ps_starts s) instrs)) as HP. simpl in HP.
  destruct (place_blocks _ _ _ _ _) as [blocks otb]. simpl in HP.
  pose proof (close_blocks_spec _ _ _ _ _ HP) as HL. set (cb := close_blocks bc (length instrs) blocks) in *.
  assert (length cb = length blocks) as Hlcb by (unfold cb, close_blocks; by rewrite length_imap).
  assert (forall b, b ∈ cb -> bb_entry_stack_depth b = UINT32_MAX /\ bb_successors b = []) as Hinit.
  { intros b (k&Hk)%list_elem_of_lookup. unfold cb, close_blocks in Hk. rewrite list_lookup_imap in Hk.
    apply fmap_Some in Hk as (b1&Hb1&->). destruct (pl_block _ _ _ _ _ _ HP _ _ Hb1) as (_&i&_&->&_).
    unfold close_block. by destruct (blocks !! S k). }
  destruct (edges_loop _ _ _ _ _ _) as [|eb] eqn:He; [done|].
  apply edges_loop_spec in He as [Hf Hes]; [|apply NoDup_seq|apply Forall_forall; intros k Hk%elem_of_seq; lia].
  destruct (predecessors_loop _ _) as [|pb] eqn:Hpr; [done|]. destruct (predecessors_loop_spec _ _ _ Hpr) as [Hf2 Hs2].
  destruct (depth_loop _ _ _ _ _ _) as [|[blocks' maximum]] eqn:Hd; [done|]. injection H as <-.
  exists (ps_starts s), (ps_offset_to_instruction s). rewrite <-Hf2 in Hf.
  pose proof (f_equal (fmap fst) Hf) as Hext. rewrite <-!list_fmap_compose in Hext. rewrite Hf2 in Hf.
  eapply depths_ok; [exact Ht|exact Hm|done|eapply Layout_ext; [symmetry; exact Hext|exact HL]|exact Hb| | | |exact Hd].
  - intros k b Hk. destruct (frame_lookup _ _ _ _ (eq_sym Hf2) Hk) as (b1&Hb1&Hfr1).
    destruct (frame_lookup _ _ _ _ (eq_sym Hf) Hb1) as (b2&Hb2&Hfr2). specialize (Hes k b2 b1 Hb2 Hb1).
    rewrite decide_True in Hes by (apply elem_of_seq; apply lookup_lt_Some in Hb2; lia).
    destruct Hes as (es&Hes&Hsu). rewrite (proj2 (Hinit b2 (list_elem_of_lookup_2 _ _ _ Hb2))) in Hsu. simpl in Hsu.
    rewrite <-(block_edges_ext bc instrs _ otb k b2 b) by congruence. rewrite Hes, <-Hsu. f_equal.
    assert ((bb_successors <$> eb) !! k = Some (bb_successors b)) as Hl by (rewrite <-Hs2, list_lookup_fmap, Hk; done).
    rewrite list_lookup_fmap, Hb1 in Hl. by simplify_eq/=.
  - rewrite <-(length_fmap bb_frame), Hf2, Hf, length_fmap, Hlcb. apply (pl_some _ _ _ _ _ _ HP).
    destruct instrs; [simpl in Ht; lia|simpl; lia].
  - intros b (k&Hk)%list_elem_of_lookup. destruct (frame_lookup _ _ _ _ (eq_sym Hf2) Hk) as (b1&Hb1&Hfr1).
    destruct (frame_lookup _ _ _ _ (eq_sym Hf) Hb1) as (b2&Hb2&Hfr2).
    destruct (Hinit b2 (list_elem_of_lookup_2 _ _ _ Hb2)) as [<- _]. rewrite <-Hfr2 in Hfr1. by injection Hfr1.
Qed.

(** ** Soundness *)

(** No unconditional jump but at the end of its block. *)
Definition jumps_end_blocks (bc : TurboJSEngineBytecodeInfo) (cfg : TurboJSBytecodeCFG) : bool :=
  forallb (fun b =>
    forallb (fun i => match cfg_branch (ci_opcode i) (operand_of bc (ci_offset i)) with Some (_, c) => c | None => true end)
      (take (bb_instruction_count b - 1) (block_instructions (cfg_instructions cfg) b)))
    (cfg_blocks cfg).

Section Soundness.
Context (bc : TurboJSEngineBytecodeInfo) (starts : list bool) (oti : list Z) (cfg : TurboJSBytecodeCFG).
Context (Hok : CfgOk bc starts oti cfg) (Hjumps : jumps_end_blocks bc cfg = true) (Hsmall : bc_length bc < UINT32_MAX).

Notation instrs := (cfg_instructions cfg).
Notation blocks := (cfg_blocks cfg).

(** The configuration is at instruction [ii] of a visited block. *)
Definition At (c : Z * Z) (ii : nat) (i : CfgInstruction) (bi : nat) (b : TurboJSBytecodeBlock) : Prop :=
  instrs !! ii = Some i /\ ci_offset i = c.1 /\ blocks !! bi = Some b /\
  (bb_first_instruction b <= ii < bb_first_instruction b + bb_instruction_count b)%nat /\
  bb_entry_stack_depth b <> UINT32_MAX /\
  c.2 = foldl depth_after (bb_entry_stack_depth b) (take (ii - bb_first_instruction b) (block_instructions instrs b)).

Definition Covered (c : Z * Z) : Prop := c.1 < bc_length bc -> exists ii i bi b, At c ii i bi b.

Lemma At_start s b ii i d :
  blocks !! s = Some b -> bb_first_instruction b = ii -> instrs !! ii = Some i ->
  bb_entry_stack_depth b = d -> d <> UINT32_MAX -> Covered (ci_offset i, d).
Proof.
  intros Hb Hf Hi Hd Hne _. destruct (ly_block _ _ _ _ _ (co_layout _ _ _ _ Hok) _ _ Hb) as (?&_).
  exists ii, i, s, b. unfold At. simpl. rewrite Hf, Nat.sub_diag, take_0. split_and!; auto; [lia..|congruence].
Qed.

(** The instruction in the block's own list. *)
Lemma At_lookup c ii i bi b :
  At c ii i bi b -> block_instructions instrs b !! (ii - bb_first_instruction b)%nat = Some i.
Proof.
  intros (Hi&_&Hb&Hr&_). rewrite (block_instructions_lookup _ _ _ _ _ Hb) by lia. rewrite <-Hi. f_equal. lia.
Qed.

Lemma At_depth c ii i bi b :
  At c ii i bi b ->
  foldl depth_after (bb_entry_stack_depth b) (take (S (ii - bb_first_instruction b)) (block_instructions instrs b))
    = depth_after c.2 i.
Proof.
  intros HA. rewrite (take_S_r _ _ _ (At_lookup _ _ _ _ _ HA)), foldl_app. simpl. by destruct HA as (_&_&_&_&_&->).
Qed.

(** Inside a block control passes to the next instruction only. *)
Lemma inside_falls c ii i bi b :
  At c ii i bi b -> (S ii < bb_first_instruction b + bb_instruction_count b)%nat ->
  cfg_branch (ci_opcode i) (operand_of bc (ci_offset i)) = None /\ cfg_terminates (ci_opcode i) = false.
Proof.
  intros HA Hin. pose proof HA as (Hi&_&Hb&Hr&_). pose proof (co_layout _ _ _ _ Hok) as HL.
  destruct (ly_block _ _ _ _ _ HL _ _ Hb) as (_&Hle&_).
  destruct (lookup_lt_is_Some_2 instrs (S ii)) as [n Hn]; [lia|].
  destruct (tiles_lookup _ _ _ _ _ (co_tiles _ _ _ _ Hok) Hi) as (_&_&_&_&Hnext). rewrite Hn in Hnext.
  destruct (tiles_lookup _ _ _ _ _ (co_tiles _ _ _ _ Hok) Hn) as (_&_&?&?&_).
  assert (is_start starts (ci_offset i + ci_size i) <> true) as Hns.
  { rewrite <-Hnext. intros Hst. destruct (ly_member _ _ _ _ _ HL _ _ Hn) as (bi'&b'&_&Hb'&Hr'&Hf).
    assert (bi' = bi) as -> by (eapply (Layout_unique _ _ _ _ _ _ _ _ _ (S ii) HL Hb' Hb); lia).
    simplify_eq. specialize (Hf Hst). lia. }
  pose proof (proj1 (Forall_lookup _ _) (co_marks _ _ _ _ Hok) _ _ Hi) as Hm. unfold marks in Hm.
  destruct (cfg_branch _ _) as [[disp cnd]|] eqn:Hbr.
  - exfalso. unfold jumps_end_blocks in Hjumps.
    destruct Hm as (_&_&Hc). destruct cnd; [apply Hns, Hc; [done|lia]|].
    rewrite forallb_forall in Hjumps. specialize (Hjumps b ltac:(by apply list_elem_of_In, (list_elem_of_lookup_2 _ _ _ Hb))).
    rewrite forallb_forall in Hjumps. specialize (Hjumps i). rewrite Hbr in Hjumps. apply diff_false_true, Hjumps.
    apply list_elem_of_In, (list_elem_of_lookup_2 _ (ii - bb_first_instruction b)).
    rewrite lookup_take_lt by lia. by eapply At_lookup.
  - split; [done|]. destruct (cfg_terminates _); [|done]. exfalso. apply Hns, Hm; auto; lia.
Qed.

Lemma Covered_step c c' : Covered c -> flow_step bc c c' -> Covered c'.
Proof.
  intros HC Hstep.
  assert (exists i, decode_at bc c.1 = inr i) as [i0 Hd0] by (inversion Hstep; simpl; eauto).
  destruct (decode_at_inr _ _ _ Hd0) as (_&_&?&?). destruct (HC ltac:(lia)) as (ii&i&bi&b&HA).
  pose proof HA as (Hi&Hoff&Hb&Hr&Hvis&Hd). pose proof (co_layout _ _ _ _ Hok) as HL.
  destruct (tiles_lookup _ _ _ _ _ (co_tiles _ _ _ _ Hok) Hi) as (Hdec&_&_&_&Hnext). rewrite Hoff in Hdec.
  destruct (ly_block _ _ _ _ _ HL _ _ Hb) as (_&Hle&_).
  destruct (decide (S ii < bb_first_instruction b + bb_instruction_count b)%nat) as [Hin|Hlast].
  - destruct (inside_falls _ _ _ _ _ HA Hin) as [Hbr _]. destruct (lookup_lt_is_Some_2 instrs (S ii)) as [n Hn]; [lia|].
    rewrite Hn in Hnext. destruct Hstep as [pc d i1 disp cnd Hd1 Hb1|pc d i1 Hd1 Hf1]; simpl in Hoff, Hdec, Hd;
      assert (i1 = i) as -> by congruence; [congruence|]. intros _.
    exists (S ii), n, bi, b. unfold At. simpl. split_and!; auto; [congruence|lia..|].
    replace (S ii - bb_first_instruction b)%nat with (S (ii - bb_first_instruction b)) by lia.
    symmetry. by apply (At_depth _ _ _ _ _ HA).
  - assert (ii = bb_first_instruction b + bb_instruction_count b - 1)%nat as -> by lia.
    pose proof (At_depth _ _ _ _ _ HA) as Hexit. rewrite take_ge in Hexit by (rewrite (block_instructions_length _ _ _ _ _ HL _ _ Hb); lia).
    destruct (co_depth _ _ _ _ Hok _ _ Hb Hvis) as [_ Hsucc]. rewrite Hexit in Hsucc.
    destruct (block_edges_spec bc starts instrs oti _ blocks (co_tiles _ _ _ _ Hok) (co_marks _ _ _ _ Hok) Hsmall HL
      (co_boundary _ _ _ _ Hok) _ _ _ _ Hb Hi (co_edges _ _ _ _ Hok _ _ Hb)) as (Hbranch&Hfall&_).
    destruct Hstep as [pc d i1 disp cnd Hd1 Hb1|pc d i1 Hd1 Hf1]; simpl in Hoff, Hdec, Hd, Hsucc;
      assert (i1 = i) as -> by congruence; rewrite <-Hoff in *.
    + destruct (Hbranch _ _ Hb1) as (ti&t&Ht&Hto&s&sb&Hs&Hsb&Hf). rewrite <-Hto.
      destruct (Hsucc _ _ Hs Hsb) as [He Hne]. eapply At_start; eauto. congruence.
    + intros Hlt. destruct (Hfall Hf1 Hlt) as (n&Hn&Hno&s&sb&Hs&Hsb&Hf).
      destruct (Hsucc _ _ Hs Hsb) as [He Hne]. revert Hlt. rewrite <-Hno. eapply At_start; eauto. congruence.
Qed.

Lemma Covered_reachable c : rtc (flow_step bc) (0, 0) c -> Covered c.
Proof.
  intros Hr. apply (rtc_ind_r (fun c => Covered c) (0, 0)) in Hr; [done| |by intros; eapply Covered_step].
  destruct (co_entry _ _ _ _ Hok) as (b&Hb&He). pose proof (co_layout _ _ _ _ Hok) as HL.
  destruct (ly_block _ _ _ _ _ HL _ _ Hb) as (_&_&i&Hi&_). pose proof (ly_zero _ _ _ _ _ HL _ Hb) as Hf.
  assert (ci_offset i = 0) as Hz.
  { rewrite Hf in Hi. pose proof (co_tiles _ _ _ _ Hok) as Ht. destruct instrs; [done|]. simplify_eq/=. by eapply tiles_head. }
  pose proof (At_start 0 b _ i 0 Hb eq_refl Hi He ltac:(done)) as Hc. by rewrite Hz in Hc.
Qed.
End Soundness.


(** [for (i = 0; i < arg0; i++); return i], and the graph it has. *)
Definition counting_loop : TurboJSEngineBytecodeInfo :=
  mkBytecodeInfo [187; 208; 204; 216; 166; 241; 5; 146; 0; 243; 248; 204; 40] 1 1 2 TURBOJS_ENGINE_NUMERIC_INT32.

Definition all_memory : CfgMemory := mkCfgMemory true true true.

Definition cfg_of (r : CfgFail + TurboJSBytecodeCFG) : TurboJSBytecodeCFG :=
  match r with inr cfg => cfg | inl _ => mkCFG [] [] [] 0 end.


(** ** The inventory *)

Lemma decode_at_opcode bc pc i :
  decode_at bc pc = inr i -> bc_bytecode bc !! Z.to_nat pc ≫= engine_opcode = Some (ci_opcode i).
Proof.
  unfold decode_at. destruct (_ ≫= _) as [op|]; [|done]. set (ok := if opcode_size op =? 0 then _ else _).
  assert (ok = inr i -> op = ci_opcode i) as Hok.
  { unfold ok. destruct (_ =? _); [done|]. destruct (_ <? _); [done|]. by intros [= <-]. }
  intros H. f_equal. apply Hok. destruct op; done.
Qed.

Definition analyze_one (bc : TurboJSEngineBytecodeInfo) (a : TurboJSBytecodeAnalysis) (i : CfgInstruction) : TurboJSBytecodeAnalysis :=
  match cfg_branch (ci_opcode i) (operand_of bc (ci_offset i)) with
  | Some (disp, _) => ba_count_branch (disp <? 0) (classify (ci_opcode i) a)
  | None => classify (ci_opcode i) a
  end.

(** The loop counts the instructions of the graph. *)
Lemma analyze_loop_foldl bc fuel pc instrs a :
  tiles bc pc instrs -> bc_length bc - pc <= Z.of_nat fuel ->
  analyze_loop fuel bc pc a = foldl (analyze_one bc) a instrs.
Proof.
  revert fuel pc a. induction instrs as [|i instrs IH]; intros fuel pc a Ht Hf.
  - simpl in Ht. destruct fuel; simpl; [done|]. by rewrite (proj2 (Z.ltb_ge _ _)) by lia.
  - pose proof (tiles_head _ _ _ _ Ht) as Hoff. destruct Ht as [Hd Ht]. destruct (decode_at_inr _ _ _ Hd) as (_&Hsz&?&?).
    destruct fuel as [|fuel]; [lia|]. cbn [analyze_loop]. rewrite (proj2 (Z.ltb_lt _ _)), (decode_at_opcode _ _ _ Hd) by lia.
    rewrite <-Hsz, (IH fuel _ _ Ht) by lia. simpl. f_equal. unfold analyze_one. rewrite Hoff.
    destruct (cfg_branch _ _) as [[disp c]|]; [|done]. f_equal.
    destruct (disp <? 0) eqn:Hc; b2p; [apply Z.leb_le|apply Z.leb_gt]; lia.
Qed.

Lemma analyze_one_counts bc a i :
  ba_instruction_count (analyze_one bc a i) = ba_instruction_count a /\
  (0 <= ba_direct_instruction_count a -> 0 <= ba_helper_instruction_count a ->
   ba_direct_instruction_count a + ba_helper_instruction_count a < UINT32_MAX ->
   0 <= ba_direct_instruction_count (analyze_one bc a i) /\ 0 <= ba_helper_instruction_count (analyze_one bc a i) /\
   ba_direct_instruction_count (analyze_one bc a i) + ba_helper_instruction_count (analyze_one bc a i)
     = ba_direct_instruction_count a + ba_helper_instruction_count a + 1).
Proof.
  unfold analyze_one. destruct (cfg_branch _ _) as [[disp c]|]; unfold classify;
    destruct (direct_opcode _); simpl; (split; [done|]); unfold UINT32_MAX; intros; rewrite uwrap_small by (unfold is_u; lia); lia.
Qed.

(** The direct and the helper instructions are all the instructions of the graph. *)
Lemma analysis_partitions_instructions mem bc a :
  TurboJS_EngineBytecodeAnalyze mem bc = (None, a) -> 6 * bc_length bc < UINT32_MAX ->
  ba_direct_instruction_count a + ba_helper_instruction_count a = ba_instruction_count a.
Proof.
  unfold TurboJS_EngineBytecodeAnalyze. destruct (TurboJS_EngineBytecodeBuildCFG mem bc) as [|cfg] eqn:Hb; [done|].
  intros [= <-] Hsmall. destruct (BuildCFG_ok _ _ _ Hb Hsmall) as (starts&oti&Hok). pose proof (co_tiles _ _ _ _ Hok) as Ht.
  pose proof (tiles_length _ _ _ Ht ltac:(unfold bc_length; lia)) as Hlen. unfold bc_length in *.
  rewrite (analyze_loop_foldl _ _ _ _ _ Ht) by (unfold bc_length; lia).
  set (a0 := mkAnalysis _ _ _ _ _ _ _ _ _ _ _ _).
  assert (forall l a, 0 <= ba_direct_instruction_count a -> 0 <= ba_helper_instruction_count a ->
    ba_direct_instruction_count a + ba_helper_instruction_count a + Z.of_nat (length l) < UINT32_MAX ->
    ba_instruction_count (foldl (analyze_one bc) a l) = ba_instruction_count a /\
    ba_direct_instruction_count (foldl (analyze_one bc) a l) + ba_helper_instruction_count (foldl (analyze_one bc) a l)
      = ba_direct_instruction_count a + ba_helper_instruction_count a + Z.of_nat (length l)) as H.
  { induction l as [|i l IH]; intros a ???; simpl in *; [split; [done|lia]|].
    destruct (analyze_one_counts bc a i) as [Hi Hc]. destruct (Hc ltac:(done) ltac:(done) ltac:(lia)) as (?&?&?).
    destruct (IH (analyze_one bc a i)) as [? ?]; [lia..|]. split; [congruence|lia]. }
  destruct (H (cfg_instructions cfg) a0) as [Hi Hs]; [unfold a0; simpl; lia..|].
  rewrite Hi, Hs. unfold a0. simpl. unfold UINT32_MAX in *. rewrite uwrap_small by (unfold is_u; lia). lia.
Qed.

(** ** A jump inside a block

    The parser starts a block after a conditional branch and after a
    terminator but not after an unconditional jump.  Code that follows such a
    jump and is no branch target joins the jump's block: the jump's edge is
    lost and the depth of the dead code flows into the next block. *)

(** [goto L; push_0; L: drop; return_undef]: the graph is accepted with depth
    1 at [L], where the stack is empty. *)
Definition jump_over : TurboJSEngineBytecodeInfo := mkBytecodeInfo [243; 2; 187; 14; 41] 0 0 1 TURBOJS_ENGINE_NUMERIC_INT32.

Example jump_over_underflows :
  exists cfg i, TurboJS_EngineBytecodeBuildCFG all_memory jump_over = inr cfg /\
    rtc (flow_step jump_over) (0, 0) (3, 0) /\ decode_at jump_over 3 = inr i /\ 0 < opcode_pop (ci_opcode i) /\
    bb_entry_stack_depth <$> cfg_blocks cfg = [0; 1].
Proof.
  eexists _, _. split; [vm_compute; reflexivity|]. split; [|split; [reflexivity|split; reflexivity]].
  eapply rtc_l; [eapply (flow_branch _ 0); reflexivity|]. apply rtc_refl.
Qed.
