(* ===== verification/RegionState.v ===== *)
(** * The state graph of a bytecode region (src/jit/frontend/engine_bytecode_state.c)

    Symbolic execution of engine bytecode over the blocks of its control-flow
    graph.  Every local and stack slot at the entry and the exit of a block
    holds the id of a value; where the predecessors of a block disagree, the
    slot gets a phi.  A worklist runs until the states no longer change.

    A flat C array with one slice per block ([entry_locals], [exit_locals],
    [entry_stack], [exit_stack], [phi_map]) is a list of rows; the offsets of
    the slices are kept in [TurboJSBytecodeRegionStateBlock].  The offsets and
    the keys of [phi_map] are 32-bit in C, so rows and slices agree for arrays
    of fewer than 2^32 elements.  [mem] answers the allocations: the tables,
    the values by new capacity, the state of a block by the number of visits
    so far, the worklist by new capacity, the phi inputs by new capacity.

    [Stuck] is an access outside an array, or a worklist that outlives its
    fuel; RegionSafe.v shows that neither happens. *)

From S2P Require Import Prelude.
From S2P Require Import JitTypes.
From S2P Require Import EngineOpcodes.
From S2P Require Import BytecodeCfg.

(** ** Outcomes *)

Inductive Region (A : Type) := Done (a : A) | Failed (d : CfgFail) | Stuck.
Arguments Done {A}.
Arguments Failed {A}.
Arguments Stuck {A}.

Notation "'reg!' x ':=' c 'in' k" :=
  (match c with Done x => k | Failed d => Failed d | Stuck => Stuck end)
  (at level 10, x pattern, c at level 100, k at level 200) : jit_scope.

Definition region_fail {A : Type} (st : TurboJSIRStatus) (at_ : Z) (message : string) : Region A :=
  Failed (cfg_fail st at_ message).

(** An access that must be in range. *)
Definition access {A : Type} (o : option A) : Region A := match o with Some a => Done a | None => Stuck end.

(** ** Data *)

Definition TURBOJS_REGION_NO_VALUE : Z := UINT32_MAX.

Inductive TurboJSBytecodeRegionValueKind :=
  | TURBOJS_REGION_VALUE_INITIAL_LOCAL | TURBOJS_REGION_VALUE_ARGUMENT | TURBOJS_REGION_VALUE_CONSTANT
  | TURBOJS_REGION_VALUE_OPERATION | TURBOJS_REGION_VALUE_PHI | TURBOJS_REGION_VALUE_HELPER.

#[export] Instance TurboJSBytecodeRegionValueKind_eq_dec : EqDecision TurboJSBytecodeRegionValueKind.
Proof. solve_decision. Defined.

Record TurboJSBytecodeRegionPhiInput := mkPhiInput { pi_predecessor_block : nat; pi_value : Z }.

Record TurboJSBytecodeRegionValue := mkRegionValue {
  rv_id : Z;
  rv_block : nat;
  rv_source_offset : Z;
  rv_left : Z;
  rv_right : Z;
  rv_phi_input_start : Z;
  rv_phi_input_count : Z;
  rv_local_or_stack_index : Z;
  rv_kind : TurboJSBytecodeRegionValueKind;
  rv_opcode : EngineOpcode;
  rv_is_stack_value : bool;
  rv_metadata : Z
}.

Record TurboJSBytecodeRegionStateBlock := mkStateBlock {
  sb_entry_local_offset : Z;
  sb_exit_local_offset : Z;
  sb_entry_stack_offset : Z;
  sb_exit_stack_offset : Z;
  sb_active_local_phis : Z;
  sb_active_stack_phis : Z
}.

Record TurboJSBytecodeRegionStateGraph := mkStateGraph {
  sg_plan : TurboJSBytecodeRegionPlan;
  sg_blocks : list TurboJSBytecodeRegionStateBlock;
  sg_values : list TurboJSBytecodeRegionValue;
  sg_phi_inputs : list TurboJSBytecodeRegionPhiInput;
  sg_entry_locals : list (list Z);
  sg_exit_locals : list (list Z);
  sg_entry_stack : list (list Z);
  sg_exit_stack : list (list Z);
  sg_value_capacity : Z;
  sg_phi_input_capacity : Z;
  sg_local_count : Z;
  sg_stack_stride : Z;
  sg_active_phi_count : Z
}.

Definition sg_cfg (g : TurboJSBytecodeRegionStateGraph) : TurboJSBytecodeCFG := rp_cfg (sg_plan g).

(** The graph with other values, other phi counters, other rows, other inputs. *)
Definition sg_set_values (values : list TurboJSBytecodeRegionValue) (capacity : Z) (g : TurboJSBytecodeRegionStateGraph)
    : TurboJSBytecodeRegionStateGraph :=
  mkStateGraph (sg_plan g) (sg_blocks g) values (sg_phi_inputs g) (sg_entry_locals g) (sg_exit_locals g) (sg_entry_stack g)
    (sg_exit_stack g) capacity (sg_phi_input_capacity g) (sg_local_count g) (sg_stack_stride g) (sg_active_phi_count g).
Definition sg_set_phis (blocks : list TurboJSBytecodeRegionStateBlock) (count : Z) (g : TurboJSBytecodeRegionStateGraph)
    : TurboJSBytecodeRegionStateGraph :=
  mkStateGraph (sg_plan g) blocks (sg_values g) (sg_phi_inputs g) (sg_entry_locals g) (sg_exit_locals g) (sg_entry_stack g)
    (sg_exit_stack g) (sg_value_capacity g) (sg_phi_input_capacity g) (sg_local_count g) (sg_stack_stride g) count.
Definition sg_set_entries (locals stack : list (list Z)) (g : TurboJSBytecodeRegionStateGraph) : TurboJSBytecodeRegionStateGraph :=
  mkStateGraph (sg_plan g) (sg_blocks g) (sg_values g) (sg_phi_inputs g) locals (sg_exit_locals g) stack
    (sg_exit_stack g) (sg_value_capacity g) (sg_phi_input_capacity g) (sg_local_count g) (sg_stack_stride g)
    (sg_active_phi_count g).
Definition sg_set_exits (locals stack : list (list Z)) (g : TurboJSBytecodeRegionStateGraph) : TurboJSBytecodeRegionStateGraph :=
  mkStateGraph (sg_plan g) (sg_blocks g) (sg_values g) (sg_phi_inputs g) (sg_entry_locals g) locals (sg_entry_stack g)
    stack (sg_value_capacity g) (sg_phi_input_capacity g) (sg_local_count g) (sg_stack_stride g)
    (sg_active_phi_count g).
Definition sg_set_inputs (values : list TurboJSBytecodeRegionValue) (inputs : list TurboJSBytecodeRegionPhiInput) (capacity : Z)
    (g : TurboJSBytecodeRegionStateGraph) : TurboJSBytecodeRegionStateGraph :=
  mkStateGraph (sg_plan g) (sg_blocks g) values inputs (sg_entry_locals g) (sg_exit_locals g) (sg_entry_stack g)
    (sg_exit_stack g) (sg_value_capacity g) capacity (sg_local_count g) (sg_stack_stride g) (sg_active_phi_count g).

Definition rv_set_operands (left right : Z) (v : TurboJSBytecodeRegionValue) : TurboJSBytecodeRegionValue :=
  mkRegionValue (rv_id v) (rv_block v) (rv_source_offset v) left right (rv_phi_input_start v) (rv_phi_input_count v)
    (rv_local_or_stack_index v) (rv_kind v) (rv_opcode v) (rv_is_stack_value v) (rv_metadata v).
Definition rv_set_left (left : Z) (v : TurboJSBytecodeRegionValue) : TurboJSBytecodeRegionValue :=
  rv_set_operands left (rv_right v) v.
Definition rv_set_metadata (metadata : Z) (v : TurboJSBytecodeRegionValue) : TurboJSBytecodeRegionValue :=
  mkRegionValue (rv_id v) (rv_block v) (rv_source_offset v) (rv_left v) (rv_right v) (rv_phi_input_start v)
    (rv_phi_input_count v) (rv_local_or_stack_index v) (rv_kind v) (rv_opcode v) (rv_is_stack_value v) metadata.
Definition rv_set_inputs (start count : Z) (v : TurboJSBytecodeRegionValue) : TurboJSBytecodeRegionValue :=
  mkRegionValue (rv_id v) (rv_block v) (rv_source_offset v) (rv_left v) (rv_right v) start count
    (rv_local_or_stack_index v) (rv_kind v) (rv_opcode v) (rv_is_stack_value v) (rv_metadata v).

Record RegionMemory := mkRegionMemory {
  gm_cfg : CfgMemory;
  gm_plan : bool;
  gm_tables : bool;
  gm_values : Z -> bool;
  gm_state : nat -> bool;
  gm_queue : Z -> bool;
  gm_inputs : Z -> bool
}.

(** ** Operands *)

Definition u16 (p : list Z) : Z := le_value (take 2 p).
Definition u32 (p : list Z) : Z := le_value (take 4 p).
Definition u8 (p : list Z) : Z := le_value (take 1 p).

(** The local an instruction names, whether it reads it, whether it keeps the
    stored value on the stack. *)
Definition local_index (op : EngineOpcode) (p : list Z) : option (Z * bool * bool) :=
  match op with
  | OP_get_loc | OP_get_loc_check => Some (u16 p, true, false)
  | OP_get_loc8 => Some (u8 p, true, false)
  | OP_get_loc0 => Some (0, true, false) | OP_get_loc1 => Some (1, true, false)
  | OP_get_loc2 => Some (2, true, false) | OP_get_loc3 => Some (3, true, false)
  | OP_put_loc | OP_put_loc_check => Some (u16 p, false, false)
  | OP_put_loc8 => Some (u8 p, false, false)
  | OP_put_loc0 => Some (0, false, false) | OP_put_loc1 => Some (1, false, false)
  | OP_put_loc2 => Some (2, false, false) | OP_put_loc3 => Some (3, false, false)
  | OP_set_loc => Some (u16 p, false, true)
  | OP_set_loc8 => Some (u8 p, false, true)
  | OP_set_loc0 => Some (0, false, true) | OP_set_loc1 => Some (1, false, true)
  | OP_set_loc2 => Some (2, false, true) | OP_set_loc3 => Some (3, false, true)
  | _ => None
  end.

Definition arg_index (op : EngineOpcode) (p : list Z) : option Z :=
  match op with
  | OP_get_arg => Some (u16 p)
  | OP_get_arg0 => Some 0 | OP_get_arg1 => Some 1 | OP_get_arg2 => Some 2 | OP_get_arg3 => Some 3
  | _ => None
  end.

(** The kind of the value a generic instruction pushes. *)
Definition operation_kind (op : EngineOpcode) : TurboJSBytecodeRegionValueKind :=
  match op with
  | OP_push_i32 | OP_push_0 | OP_push_1 | OP_push_2 | OP_push_3 | OP_push_true | OP_push_false | OP_undefined | OP_null =>
      TURBOJS_REGION_VALUE_CONSTANT
  | OP_add | OP_sub | OP_mul | OP_lt | OP_and | OP_or | OP_xor | OP_shl | OP_sar | OP_shr => TURBOJS_REGION_VALUE_OPERATION
  | _ => TURBOJS_REGION_VALUE_HELPER
  end.

(** ** Values *)

(** The capacity after doubling until [n] fits. *)
Fixpoint doubled (fuel : nat) (c n : Z) : option Z :=
  match fuel with
  | O => None
  | S fuel => if c <? n then if SIZE_MAX / 2 <? c then None else doubled fuel (c * 2) n else Some c
  end.

Definition reserve (answer : Z -> bool) (capacity n : Z) : option Z :=
  if n <=? capacity then Some capacity
  else match doubled 65 (if capacity =? 0 then 32 else capacity) n with
       | Some c => if answer c then Some c else None
       | None => None
       end.

Definition reserve_values (mem : RegionMemory) (g : TurboJSBytecodeRegionStateGraph) (n : Z) : option Z :=
  reserve (gm_values mem) (sg_value_capacity g) n.
Definition reserve_inputs (mem : RegionMemory) (g : TurboJSBytecodeRegionStateGraph) (n : Z) : option Z :=
  reserve (gm_inputs mem) (sg_phi_input_capacity g) n.

(** The new value's id, or no value. *)
Definition value_new (mem : RegionMemory) (kind : TurboJSBytecodeRegionValueKind) (block : nat) (off : Z) (opcode : EngineOpcode)
    (l r index : Z) (stack : bool) (g : TurboJSBytecodeRegionStateGraph) : TurboJSBytecodeRegionStateGraph * Z :=
  let count := Z.of_nat (length (sg_values g)) in
  match reserve_values mem g (count + 1) with
  | None => (g, TURBOJS_REGION_NO_VALUE)
  | Some capacity =>
      let id := uwrap 32 count in
      (sg_set_values
         (sg_values g ++
            [mkRegionValue id block off l r TURBOJS_REGION_NO_VALUE 0 (uwrap 16 index) kind opcode stack 0]) capacity g, id)
  end.

Definition find_value (g : TurboJSBytecodeRegionStateGraph) (block : nat) (off : Z) (kind : TurboJSBytecodeRegionValueKind) : Z :=
  match list_find (fun v => rv_block v = block /\ rv_source_offset v = off /\ rv_kind v = kind) (sg_values g) with
  | Some (_, v) => rv_id v
  | None => TURBOJS_REGION_NO_VALUE
  end.

(** [g->values[id]] changed by [f]. *)
Definition sg_alter (f : TurboJSBytecodeRegionValue -> TurboJSBytecodeRegionValue) (id : Z) (g : TurboJSBytecodeRegionStateGraph)
    : TurboJSBytecodeRegionStateGraph :=
  sg_set_values (alter f (Z.to_nat id) (sg_values g)) (sg_value_capacity g) g.

(** ** One instruction *)

(** The graph, the id each instruction's value has, and the phi of each slot. *)
Record RegionWork := mkWork {
  rw_graph : TurboJSBytecodeRegionStateGraph;
  rw_ins_value : list Z;
  rw_phi_map : list (list Z)
}.
Definition rw_set_graph (g : TurboJSBytecodeRegionStateGraph) (w : RegionWork) : RegionWork :=
  mkWork g (rw_ins_value w) (rw_phi_map w).

(** The symbolic state inside a block. *)
Record BlockState := mkBlockState { bs_locals : list Z; bs_stack : list Z; bs_depth : Z }.

Definition bs_push (v : Z) (s : BlockState) : Region BlockState :=
  if bs_depth s <? Z.of_nat (length (bs_stack s))
  then Done (mkBlockState (bs_locals s) (<[Z.to_nat (bs_depth s) := v]> (bs_stack s)) (bs_depth s + 1))
  else Stuck.
Definition bs_pop (n : Z) (s : BlockState) : BlockState := mkBlockState (bs_locals s) (bs_stack s) (bs_depth s - n).
(** [stack[depth - n]] *)
Definition bs_peek (n : Z) (s : BlockState) : Region Z :=
  if n <=? bs_depth s then access (bs_stack s !! Z.to_nat (bs_depth s - n)) else Stuck.
Definition bs_peek_if (c : bool) (n : Z) (s : BlockState) : Region Z := if c then bs_peek n s else Done TURBOJS_REGION_NO_VALUE.

Section Instructions.
Context (mem : RegionMemory) (bc : TurboJSEngineBytecodeInfo).

(** The value of instruction [ino]: made at the first visit ([make], with its
    metadata), changed by [again] at a later one. *)
Definition instruction_value (ino : nat)
    (make : TurboJSBytecodeRegionStateGraph -> TurboJSBytecodeRegionStateGraph * Z)
    (metadata : option Z) (again : TurboJSBytecodeRegionValue -> TurboJSBytecodeRegionValue)
    (oom : Region (RegionWork * Z)) (w : RegionWork) : Region (RegionWork * Z) :=
  reg! id := access (rw_ins_value w !! ino) in
  if id =? TURBOJS_REGION_NO_VALUE then
    let '(g, id) := make (rw_graph w) in
    if id =? TURBOJS_REGION_NO_VALUE then oom
    else
      let g := match metadata with Some m => sg_alter (rv_set_metadata m) id g | None => g end in
      Done (mkWork g (<[ino := id]> (rw_ins_value w)) (rw_phi_map w), id)
  else Done (rw_set_graph (sg_alter again id (rw_graph w)) w, id).

(** The post increment and decrement: a constant one and the new value. *)
Definition post_update (block : nat) (i : CfgInstruction) (w : RegionWork) (s : BlockState) : Region (RegionWork * BlockState) :=
  let off := ci_offset i in
  if (bs_depth s =? 0) || (sg_stack_stride (rw_graph w) <=? bs_depth s)
  then region_fail TURBOJS_IR_INVALID_OPCODE off "region post update stack error"
  else
    reg! top := bs_peek 1 s in
    let one := find_value (rw_graph w) block off TURBOJS_REGION_VALUE_CONSTANT in
    let '(g, one) :=
      if one =? TURBOJS_REGION_NO_VALUE
      then value_new mem TURBOJS_REGION_VALUE_CONSTANT block off OP_push_1 TURBOJS_REGION_NO_VALUE TURBOJS_REGION_NO_VALUE 0 true
             (rw_graph w)
      else (rw_graph w, one) in
    let calc := find_value g block off TURBOJS_REGION_VALUE_OPERATION in
    let '(g, calc) :=
      if calc =? TURBOJS_REGION_NO_VALUE
      then value_new mem TURBOJS_REGION_VALUE_OPERATION block off
             (match ci_opcode i with OP_post_inc => OP_add | _ => OP_sub end) top one 0 true g
      else (sg_alter (rv_set_operands top one) calc g, calc) in
    if (one =? TURBOJS_REGION_NO_VALUE) || (calc =? TURBOJS_REGION_NO_VALUE)
    then region_fail TURBOJS_IR_OUT_OF_MEMORY off "unable to allocate post update values"
    else
      reg! s := bs_push calc s in
      Done (rw_set_graph g w, s).

Definition region_local (i : CfgInstruction) (index : Z) (get keep : bool) (w : RegionWork) (s : BlockState)
    : Region (RegionWork * BlockState) :=
  let off := ci_offset i in
  let g := rw_graph w in
  if sg_local_count g <=? index then region_fail TURBOJS_IR_INVALID_REGISTER off "local index outside region state"
  else if get then
    if sg_stack_stride g <=? bs_depth s then region_fail TURBOJS_IR_INVALID_REGISTER off "region stack overflow"
    else
      reg! v := access (bs_locals s !! Z.to_nat index) in
      reg! s := bs_push v s in
      Done (w, s)
  else if bs_depth s =? 0 then region_fail TURBOJS_IR_INVALID_OPCODE off "region stack underflow"
  else
    reg! v := bs_peek 1 s in
    Done (w, mkBlockState (<[Z.to_nat index := v]> (bs_locals s)) (bs_stack s) (if keep then bs_depth s else bs_depth s - 1)).

(** A generic instruction, by the table of pops and pushes. *)
Definition region_generic (block ino : nat) (i : CfgInstruction) (w : RegionWork) (s : BlockState)
    : Region (RegionWork * BlockState) :=
  let off := ci_offset i in
  let pop := opcode_pop (ci_opcode i) in
  if 0 <=? pop then
    if bs_depth s <? pop then region_fail TURBOJS_IR_INVALID_OPCODE off "region operation underflow"
    else
      reg! r := bs_peek_if (0 <? pop) 1 s in
      reg! l := bs_peek_if (1 <? pop) 2 s in
      let s := bs_pop pop s in
      if 0 <? opcode_push (ci_opcode i) then
        reg! (w, v) := instruction_value ino
          (value_new mem (operation_kind (ci_opcode i)) block off (ci_opcode i) l r 0 true) None
          (rv_set_operands l r)
          (region_fail TURBOJS_IR_OUT_OF_MEMORY off "unable to allocate operation value") w in
        reg! s := bs_push v s in
        Done (w, s)
      else Done (w, s)
  else Done (w, s).

Definition region_instruction (block ino : nat) (i : CfgInstruction) (w : RegionWork) (s : BlockState)
    : Region (RegionWork * BlockState) :=
  let off := ci_offset i in
  let op := ci_opcode i in
  let p := operand_of bc off in
  match local_index op p with
  | Some (index, get, keep) => region_local i index get keep w s
  | None =>
  match arg_index op p with
  | Some index =>
      reg! (w, v) := instruction_value ino
        (value_new mem TURBOJS_REGION_VALUE_ARGUMENT block off op TURBOJS_REGION_NO_VALUE TURBOJS_REGION_NO_VALUE index true)
        None id (region_fail TURBOJS_IR_OUT_OF_MEMORY off "unable to allocate argument value") w in
      reg! s := bs_push v s in
      Done (w, s)
  | None =>
  match op with
  | OP_dup =>
      if bs_depth s =? 0 then region_fail TURBOJS_IR_INVALID_OPCODE off "region dup underflow"
      else
        reg! v := bs_peek 1 s in
        reg! s := bs_push v s in
        Done (w, s)
  | OP_drop =>
      if bs_depth s =? 0 then region_fail TURBOJS_IR_INVALID_OPCODE off "region drop underflow" else Done (w, bs_pop 1 s)
  | OP_object =>
      reg! (w, v) := instruction_value ino
        (value_new mem TURBOJS_REGION_VALUE_HELPER block off op TURBOJS_REGION_NO_VALUE TURBOJS_REGION_NO_VALUE 0 true)
        None id (region_fail TURBOJS_IR_OUT_OF_MEMORY off "unable to allocate virtual object value") w in
      reg! s := bs_push v s in
      Done (w, s)
  | OP_define_field =>
      if bs_depth s <? 2 then region_fail TURBOJS_IR_INVALID_OPCODE off "region field definition underflow"
      else
        reg! l := bs_peek 2 s in
        reg! r := bs_peek 1 s in
        reg! (w, v) := instruction_value ino
          (value_new mem TURBOJS_REGION_VALUE_HELPER block off op l r 0 true) (Some (u32 p)) (rv_set_operands l r)
          (region_fail TURBOJS_IR_OUT_OF_MEMORY off "unable to allocate virtual field definition") w in
        reg! s := bs_push v (bs_pop 2 s) in
        Done (w, s)
  | OP_get_field =>
      if bs_depth s =? 0 then region_fail TURBOJS_IR_INVALID_OPCODE off "region property load underflow"
      else
        reg! l := bs_peek 1 s in
        reg! (w, v) := instruction_value ino
          (value_new mem TURBOJS_REGION_VALUE_HELPER block off op l TURBOJS_REGION_NO_VALUE 0 true) (Some (u32 p))
          (rv_set_left l)
          (region_fail TURBOJS_IR_OUT_OF_MEMORY off "unable to allocate property load") w in
        reg! s := bs_push v (bs_pop 1 s) in
        Done (w, s)
  | OP_put_field =>
      if bs_depth s <? 2 then region_fail TURBOJS_IR_INVALID_OPCODE off "region property store underflow"
      else
        reg! l := bs_peek 2 s in
        reg! r := bs_peek 1 s in
        reg! (w, _) := instruction_value ino
          (value_new mem TURBOJS_REGION_VALUE_HELPER block off op l r 0 false) (Some (u32 p)) (rv_set_operands l r)
          (region_fail TURBOJS_IR_OUT_OF_MEMORY off "unable to allocate property store") w in
        Done (w, bs_pop 2 s)
  | OP_post_inc | OP_post_dec => post_update block i w s
  | _ => region_generic block ino i w s
  end end end.

Fixpoint region_instructions (block ino : nat) (instrs : list CfgInstruction) (w : RegionWork) (s : BlockState)
    : Region (RegionWork * BlockState) :=
  match instrs with
  | [] => Done (w, s)
  | i :: instrs =>
      reg! (w, s) := region_instruction block ino i w s in
      region_instructions block (S ino) instrs w s
  end.

(** ** Merges *)

(** A slot of a block's row. *)
Definition row_get (rows : list (list Z)) (block slot : nat) : Region Z := access (row ← rows !! block; row !! slot).
Definition row_set (rows : list (list Z)) (block slot : nat) (v : Z) : list (list Z) := alter (<[slot := v]>) block rows.

Definition count_local_phi (b : TurboJSBytecodeRegionStateBlock) : TurboJSBytecodeRegionStateBlock :=
  mkStateBlock (sb_entry_local_offset b) (sb_exit_local_offset b) (sb_entry_stack_offset b) (sb_exit_stack_offset b)
    (uwrap 32 (sb_active_local_phis b + 1)) (sb_active_stack_phis b).
Definition count_stack_phi (b : TurboJSBytecodeRegionStateBlock) : TurboJSBytecodeRegionStateBlock :=
  mkStateBlock (sb_entry_local_offset b) (sb_exit_local_offset b) (sb_entry_stack_offset b) (sb_exit_stack_offset b)
    (sb_active_local_phis b) (uwrap 32 (sb_active_stack_phis b + 1)).

Definition exit_rows (stack : bool) (g : TurboJSBytecodeRegionStateGraph) : list (list Z) :=
  if stack then sg_exit_stack g else sg_exit_locals g.
Definition entry_rows (stack : bool) (g : TurboJSBytecodeRegionStateGraph) : list (list Z) :=
  if stack then sg_entry_stack g else sg_entry_locals g.

(** The column of [phi_map] for a slot. *)
Definition phi_slot (g : TurboJSBytecodeRegionStateGraph) (slot : nat) (stack : bool) : nat :=
  if stack then (Z.to_nat (sg_local_count g) + slot)%nat else slot.

(** The phi of a slot, made at the first disagreement. *)
Definition slot_phi (block slot : nat) (stack : bool) (start : Z) (w : RegionWork) : Region (RegionWork * Z) :=
  let column := phi_slot (rw_graph w) slot stack in
  reg! v := row_get (rw_phi_map w) block column in
  if v =? TURBOJS_REGION_NO_VALUE then
    let '(g, v) := value_new mem TURBOJS_REGION_VALUE_PHI block start OP_invalid TURBOJS_REGION_NO_VALUE TURBOJS_REGION_NO_VALUE
                     (Z.of_nat slot) stack (rw_graph w) in
    if v =? TURBOJS_REGION_NO_VALUE then Done (rw_set_graph g w, v)
    else
      let g := sg_set_phis (alter (if stack then count_stack_phi else count_local_phi) block (sg_blocks g))
                 (uwrap 32 (sg_active_phi_count g + 1)) g in
      Done (mkWork g (rw_ins_value w) (row_set (rw_phi_map w) block column v), v)
  else Done (w, v).

(** The loop over the predecessors; [merged] is the value so far. *)
Fixpoint merge_values (block slot : nat) (stack : bool) (start : Z) (predecessors : list nat) (merged : Z) (w : RegionWork)
    : Region (RegionWork * Z) :=
  match predecessors with
  | [] => Done (w, merged)
  | p :: predecessors =>
      reg! v := row_get (exit_rows stack (rw_graph w)) p slot in
      if v =? TURBOJS_REGION_NO_VALUE then merge_values block slot stack start predecessors merged w
      else if merged =? TURBOJS_REGION_NO_VALUE then merge_values block slot stack start predecessors v w
      else if negb (merged =? v) then slot_phi block slot stack start w
      else merge_values block slot stack start predecessors merged w
  end.

Definition merge_slot (block slot : nat) (stack : bool) (w : RegionWork) : Region (RegionWork * Z) :=
  reg! b := access (cfg_blocks (sg_cfg (rw_graph w)) !! block) in
  merge_values block slot stack (bb_start_offset b) (bb_predecessors b) TURBOJS_REGION_NO_VALUE w.

Definition sg_set_entry (stack : bool) (block slot : nat) (v : Z) (g : TurboJSBytecodeRegionStateGraph)
    : TurboJSBytecodeRegionStateGraph :=
  if stack then sg_set_entries (sg_entry_locals g) (row_set (sg_entry_stack g) block slot v) g
  else sg_set_entries (row_set (sg_entry_locals g) block slot v) (sg_entry_stack g) g.

(** One slot of the entry of [block]: merged, written if it changed. *)
Definition update_slot (stack : bool) (block slot : nat) (w : RegionWork) : Region (RegionWork * bool) :=
  reg! (w, m) := merge_slot block slot stack w in
  reg! old := row_get (entry_rows stack (rw_graph w)) block slot in
  if negb (old =? m) then Done (rw_set_graph (sg_set_entry stack block slot m (rw_graph w)) w, true) else Done (w, false).

Fixpoint update_slots (stack : bool) (block : nat) (slots : list nat) (changed : bool) (w : RegionWork)
    : Region (RegionWork * bool) :=
  match slots with
  | [] => Done (w, changed)
  | slot :: slots =>
      reg! (w, c) := update_slot stack block slot w in
      update_slots stack block slots (changed || c) w
  end.

(** ** The worklist *)

(** [queue] is the array from [qh] to [qt]; [rq_total] is [qt]. *)
Record RegionQueue := mkQueue {
  rq_queue : list nat;
  rq_total : Z;
  rq_capacity : Z;
  rq_queued : list bool;
  rq_visits : list Z
}.

Definition enqueue (s : nat) (start : Z) (q : RegionQueue) : Region RegionQueue :=
  let push capacity :=
    Done (mkQueue (rq_queue q ++ [s]) (rq_total q + 1) capacity (<[s := true]> (rq_queued q)) (rq_visits q)) in
  if rq_total q =? rq_capacity q then
    let capacity := if rq_capacity q <? 16 then 16 else rq_capacity q * 2 in
    if gm_queue mem capacity then push capacity
    else region_fail TURBOJS_IR_OUT_OF_MEMORY start "unable to grow region worklist"
  else push (rq_capacity q).

(** The entry states of the successors of a block whose exit changed. *)
Fixpoint region_successors (successors : list nat) (w : RegionWork) (q : RegionQueue) : Region (RegionWork * RegionQueue) :=
  match successors with
  | [] => Done (w, q)
  | s :: successors =>
      reg! b := access (cfg_blocks (sg_cfg (rw_graph w)) !! s) in
      reg! (w, c) := update_slots false s (seq 0 (Z.to_nat (sg_local_count (rw_graph w)))) false w in
      reg! (w, c) := update_slots true s (seq 0 (Z.to_nat (bb_entry_stack_depth b))) c w in
      reg! queued := access (rq_queued q !! s) in
      if c && negb queued then
        reg! q := enqueue s (bb_start_offset b) q in
        region_successors successors w q
      else region_successors successors w q
  end.

(** One turn of the worklist loop, for the block [block] at its head. *)
Definition region_visit (block : nat) (w : RegionWork) (q : RegionQueue) : Region (RegionWork * RegionQueue) :=
  reg! b := access (cfg_blocks (sg_cfg (rw_graph w)) !! block) in
  reg! n := access (rq_visits q !! block) in
  let visits := <[block := n + 1]> (rq_visits q) in
  let q := mkQueue (rq_queue q) (rq_total q) (rq_capacity q) (<[block := false]> (rq_queued q)) visits in
  if 128 <? n + 1 then region_fail TURBOJS_IR_UNSUPPORTED (bb_start_offset b) "region state did not converge"
  else if negb (gm_state mem (sum_list_with Z.to_nat visits))
  then region_fail TURBOJS_IR_OUT_OF_MEMORY (bb_start_offset b) "unable to allocate region block state"
  else
    reg! locals := access (sg_entry_locals (rw_graph w) !! block) in
    reg! stack := access (sg_entry_stack (rw_graph w) !! block) in
    reg! (w, s) := region_instructions block (bb_first_instruction b)
      (block_instructions (cfg_instructions (sg_cfg (rw_graph w))) b) w
      (mkBlockState locals stack (bb_entry_stack_depth b)) in
    let g := rw_graph w in
    reg! old_locals := access (sg_exit_locals g !! block) in
    reg! old_stack := access (sg_exit_stack g !! block) in
    let changed := bool_decide (old_locals <> bs_locals s) || bool_decide (old_stack <> bs_stack s) in
    let w := rw_set_graph (sg_set_exits (<[block := bs_locals s]> (sg_exit_locals g))
                             (<[block := bs_stack s]> (sg_exit_stack g)) g) w in
    if changed then region_successors (bb_successors b) w q else Done (w, q).

Fixpoint region_loop (fuel : nat) (w : RegionWork) (q : RegionQueue) : Region RegionWork :=
  match rq_queue q with
  | [] => Done w
  | block :: queue =>
      match fuel with
      | O => Stuck
      | S fuel =>
          reg! (w, q) := region_visit block w (mkQueue queue (rq_total q) (rq_capacity q) (rq_queued q) (rq_visits q)) in
          region_loop fuel w q
      end
  end.

(** ** Phi inputs *)

Fixpoint phi_inputs_of (stack : bool) (slot : nat) (predecessors : list nat) (g : TurboJSBytecodeRegionStateGraph)
    : Region (list TurboJSBytecodeRegionPhiInput) :=
  match predecessors with
  | [] => Done []
  | p :: predecessors =>
      reg! v := row_get (exit_rows stack g) p slot in
      reg! inputs := phi_inputs_of stack slot predecessors g in
      Done (mkPhiInput p v :: inputs)
  end.

Definition fill_phi (k : nat) (g : TurboJSBytecodeRegionStateGraph) : Region TurboJSBytecodeRegionStateGraph :=
  reg! v := access (sg_values g !! k) in
  if bool_decide (rv_kind v = TURBOJS_REGION_VALUE_PHI) then
    reg! b := access (cfg_blocks (sg_cfg g) !! rv_block v) in
    let start := Z.of_nat (length (sg_phi_inputs g)) in
    match reserve_inputs mem g (start + Z.of_nat (length (bb_predecessors b))) with
    | None => region_fail TURBOJS_IR_OUT_OF_MEMORY (bb_start_offset b) "unable to allocate phi inputs"
    | Some capacity =>
        reg! inputs := phi_inputs_of (rv_is_stack_value v) (Z.to_nat (rv_local_or_stack_index v)) (bb_predecessors b) g in
        Done (sg_set_inputs
                (alter (rv_set_inputs (uwrap 32 start) (uwrap 16 (rv_phi_input_count v + Z.of_nat (length inputs)))) k (sg_values g))
                (sg_phi_inputs g ++ inputs) capacity g)
    end
  else Done g.

Fixpoint fill_phis (ids : list nat) (g : TurboJSBytecodeRegionStateGraph) : Region TurboJSBytecodeRegionStateGraph :=
  match ids with
  | [] => Done g
  | k :: ids => reg! g := fill_phi k g in fill_phis ids g
  end.

(** ** The graph *)

(** The tables, before any value. *)
Definition region_tables (plan : TurboJSBytecodeRegionPlan) : TurboJSBytecodeRegionStateGraph :=
  let n := length (rp_blocks plan) in
  let locals := bc_local_count bc in
  let maximum := cfg_maximum_stack_depth (rp_cfg plan) in
  let stride := if maximum =? 0 then 1 else maximum in
  let rows width := replicate n (replicate (Z.to_nat width) TURBOJS_REGION_NO_VALUE) in
  let offset width bi := uwrap 32 (Z.of_nat bi * width) in
  mkStateGraph plan
    ((fun bi => mkStateBlock (offset locals bi) (offset locals bi) (offset stride bi) (offset stride bi) 0 0) <$> seq 0 n)
    [] [] (rows locals) (rows locals) (rows stride) (rows stride) 0 0 locals stride 0.

(** The values of the locals at the entry of block 0. *)
Fixpoint initial_locals (slots : list nat) (g : TurboJSBytecodeRegionStateGraph) : Region TurboJSBytecodeRegionStateGraph :=
  match slots with
  | [] => Done g
  | slot :: slots =>
      let '(g, v) := value_new mem TURBOJS_REGION_VALUE_INITIAL_LOCAL 0 0 OP_invalid TURBOJS_REGION_NO_VALUE
                       TURBOJS_REGION_NO_VALUE (Z.of_nat slot) false g in
      if v =? TURBOJS_REGION_NO_VALUE
      then region_fail TURBOJS_IR_OUT_OF_MEMORY 0 "unable to allocate initial local values"
      else
        reg! _ := row_get (sg_entry_locals g) 0 slot in
        initial_locals slots (sg_set_entry false 0 slot v g)
  end.

Definition initial_queue (n : nat) : RegionQueue :=
  mkQueue [0%nat] 1 (if (n =? 0)%nat then 2 else Z.of_nat n * 2) (<[0%nat := true]> (replicate n false)) (replicate n 0).

Definition region_fuel (n : nat) : nat := (129 * n + 1)%nat.

Definition TurboJS_EngineBytecodeBuildRegionStateGraph : Region TurboJSBytecodeRegionStateGraph :=
  match TurboJS_EngineBytecodeBuildRegionPlan (gm_cfg mem) (gm_plan mem) bc with
  | inl d => Failed d
  | inr plan =>
      if negb (gm_tables mem) then region_fail TURBOJS_IR_OUT_OF_MEMORY 0 "unable to allocate region state graph"
      else
        let n := length (rp_blocks plan) in
        let g := region_tables plan in
        reg! g := initial_locals (seq 0 (Z.to_nat (sg_local_count g))) g in
        let w := mkWork g (replicate (length (cfg_instructions (rp_cfg plan))) TURBOJS_REGION_NO_VALUE)
                   (replicate n (replicate (Z.to_nat (sg_local_count g + sg_stack_stride g)) TURBOJS_REGION_NO_VALUE)) in
        reg! w := region_loop (region_fuel n) w (initial_queue n) in
        fill_phis (seq 0 (length (sg_values (rw_graph w)))) (rw_graph w)
  end.

End Instructions.
