(* ===== verification/PropertyFeedback.v ===== *)
(** * Property feedback (src/jit/frontend/property_feedback.c)

    The inline-cache cases of the property loads and stores of an SSA graph,
    taken from recorded feedback: at most four entries for the value's
    bytecode instruction and atom, one per shape, own data properties, and
    writable ones for a store.  [property_feedback_cases] describes the result
    for all graphs and all feedback.

    A null feedback pointer with a count is not represented; [feedback_slot]
    is written here, always with 0, and read nowhere, and has no field. *)

From S2P Require Import Prelude.
From S2P Require Import JitTypes.
From S2P Require Import SSA.
From S2P Require Import SSAMem.

Record TurboJSPropertyFeedback := mkFeedback {
  pf_source_instruction : Z;
  pf_atom : Z;
  pf_shape_identity : Z;
  pf_property_index : Z;
  pf_flags : Z;
  pf_generation : Z
}.

(** [required], none for values the pass leaves alone. *)
Definition required_flag (op : TurboJSSSAOpcode) : option Z :=
  match op with
  | TURBOJS_SSA_PROPERTY_LOAD => Some TURBOJS_PROPERTY_FEEDBACK_LOAD
  | TURBOJS_SSA_PROPERTY_STORE => Some TURBOJS_PROPERTY_FEEDBACK_STORE
  | _ => None
  end.

(** The entry passes the two [continue]s of the inner loop. *)
Definition entry_eligible (v : TurboJSSSAValue) (required : Z) (e : TurboJSPropertyFeedback) : bool :=
  (pf_source_instruction e =? v_source_instruction v) && (pf_atom e =? pi_metadata (v_property v))
  && flag_set (pf_flags e) required && flag_set (pf_flags e) TURBOJS_PROPERTY_FEEDBACK_OWN_DATA
  && negb (pf_shape_identity e =? 0)
  && (negb (bool_decide (v_opcode v = TURBOJS_SSA_PROPERTY_STORE)) || flag_set (pf_flags e) TURBOJS_PROPERTY_FEEDBACK_WRITABLE).

(** The memsets. *)
Definition clear_cases (p : PropertyInfo) : PropertyInfo :=
  mkProperty (pi_metadata p) (pi_guard_shape p) (pi_index p) (pi_flags p) (pi_feedback_generation p) 0 (pi_reserved p)
    (pi_state_receiver p) [0; 0; 0; 0] [0; 0; 0; 0] [0; 0; 0; 0] [0; 0; 0; 0].

Definition put_case (k : nat) (e : TurboJSPropertyFeedback) (p : PropertyInfo) : PropertyInfo :=
  mkProperty (pi_metadata p) (pi_guard_shape p) (pi_index p) (pi_flags p) (pi_feedback_generation p) (pi_case_count p)
    (pi_reserved p) (pi_state_receiver p) (<[k := pf_shape_identity e]> (pi_shapes p)) (<[k := pf_property_index e]> (pi_indices p))
    (<[k := pf_generation e]> (pi_generations p)) (<[k := pf_flags e]> (pi_case_flags p)).

(** [duplicate]: the shape is among the first [k]. *)
Definition duplicate (k : nat) (e : TurboJSPropertyFeedback) (p : PropertyInfo) : bool :=
  existsb (fun s => s =? pf_shape_identity e) (take k (pi_shapes p)).

(** The inner loop. *)
Fixpoint case_loop (v : TurboJSSSAValue) (required : Z) (feedback : list TurboJSPropertyFeedback) (case_count : nat) (p : PropertyInfo)
    : nat * PropertyInfo :=
  match feedback with
  | [] => (case_count, p)
  | e :: feedback =>
      if TURBOJS_PROPERTY_PIC_MAX_CASES <=? Z.of_nat case_count then (case_count, p)
      else if negb (entry_eligible v required e) || duplicate case_count e p then case_loop v required feedback case_count p
      else case_loop v required feedback (S case_count) (put_case case_count e p)
  end.

(** [if (case_count)]: the first case becomes the value's own. *)
Definition first_case (case_count : nat) (p : PropertyInfo) : PropertyInfo :=
  mkProperty (pi_metadata p) (nth_case (pi_shapes p) 0) (nth_case (pi_indices p) 0) (nth_case (pi_case_flags p) 0)
    (nth_case (pi_generations p) 0) (Z.of_nat case_count) (pi_reserved p) (pi_state_receiver p) (pi_shapes p) (pi_indices p)
    (pi_generations p) (pi_case_flags p).

(** One turn of the outer loop: the value, and whether feedback applied. *)
Definition apply_feedback (feedback : list TurboJSPropertyFeedback) (v : TurboJSSSAValue) : TurboJSSSAValue * bool :=
  match required_flag (v_opcode v) with
  | None => (v, false)
  | Some required =>
      let '(n, p) := case_loop v required feedback 0 (clear_cases (v_property v)) in
      if (n =? 0)%nat then (v_set_property p v, false) else (v_set_property (first_case n p) v, true)
  end.

Fixpoint feedback_loop (feedback : list TurboJSPropertyFeedback) (vs : list TurboJSSSAValue) (applied : Z)
    : list TurboJSSSAValue * Z :=
  match vs with
  | [] => ([], applied)
  | v :: vs =>
      let '(v, b) := apply_feedback feedback v in
      let '(vs, applied) := feedback_loop feedback vs (if b then uwrap 32 (applied + 1) else applied) in
      (v :: vs, applied)
  end.

Definition TurboJS_SSAApplyPropertyFeedback (g : TurboJSSSAGraph) (feedback : list TurboJSPropertyFeedback) : TurboJSSSAGraph * Z :=
  let '(vs, applied) := feedback_loop feedback (g_values g) 0 in (g_set_values g vs, applied).

(** ** The cases, declaratively *)

(** The first entry of every shape not in [seen]. *)
Fixpoint one_per_shape (seen : list Z) (l : list TurboJSPropertyFeedback) : list TurboJSPropertyFeedback :=
  match l with
  | [] => []
  | e :: l =>
      if bool_decide (pf_shape_identity e ∈ seen) then one_per_shape seen l
      else e :: one_per_shape (seen ++ [pf_shape_identity e]) l
  end.

Definition inline_cases (v : TurboJSSSAValue) (required : Z) (feedback : list TurboJSPropertyFeedback) : list TurboJSPropertyFeedback :=
  take 4 (one_per_shape [] (filter (fun e => entry_eligible v required e = true) feedback)).

(** Arrays of four, filled with zeros. *)
Definition padded (l : list Z) : list Z := l ++ replicate (4 - length l) 0.

Definition cases_info (cases : list TurboJSPropertyFeedback) (p : PropertyInfo) : PropertyInfo :=
  mkProperty (pi_metadata p) (pi_guard_shape p) (pi_index p) (pi_flags p) (pi_feedback_generation p) 0 (pi_reserved p)
    (pi_state_receiver p) (padded (pf_shape_identity <$> cases)) (padded (pf_property_index <$> cases))
    (padded (pf_generation <$> cases)) (padded (pf_flags <$> cases)).

Definition with_cases (cases : list TurboJSPropertyFeedback) (p : PropertyInfo) : PropertyInfo :=
  match cases with
  | [] => cases_info [] p
  | c :: _ =>
      mkProperty (pi_metadata p) (pf_shape_identity c) (pf_property_index c) (pf_flags c) (pf_generation c)
        (Z.of_nat (length cases)) (pi_reserved p) (pi_state_receiver p) (padded (pf_shape_identity <$> cases))
        (padded (pf_property_index <$> cases)) (padded (pf_generation <$> cases)) (padded (pf_flags <$> cases))
  end.

Lemma padded_case l x : (length l < 4)%nat -> <[length l := x]> (padded l) = padded (l ++ [x]).
Proof. destruct l as [|a [|b [|c [|d l]]]]; simpl; intros H; try done. lia. Qed.

Lemma put_case_info cases e p : (length cases < 4)%nat -> put_case (length cases) e (cases_info cases p) = cases_info (cases ++ [e]) p.
Proof.
  intros H. unfold put_case, cases_info. simpl. rewrite !fmap_app. simpl.
  rewrite <-(length_fmap pf_shape_identity cases) at 1. rewrite padded_case by (by rewrite length_fmap).
  rewrite <-(length_fmap pf_property_index cases) at 1. rewrite padded_case by (by rewrite length_fmap).
  rewrite <-(length_fmap pf_generation cases) at 1. rewrite padded_case by (by rewrite length_fmap).
  rewrite <-(length_fmap pf_flags cases) at 1. by rewrite padded_case by (by rewrite length_fmap).
Qed.

Lemma duplicate_info cases e p :
  duplicate (length cases) e (cases_info cases p) = bool_decide (pf_shape_identity e ∈ pf_shape_identity <$> cases).
Proof.
  unfold duplicate, cases_info, padded. simpl. rewrite take_app_length' by (by rewrite length_fmap).
  apply eq_true_iff_eq. rewrite existsb_exists, bool_decide_eq_true. setoid_rewrite Z.eqb_eq. setoid_rewrite <-list_elem_of_In.
  split; [by intros (s&Hs&<-)|]. intros Hs. by eexists.
Qed.

(** The inner loop collects the cases. *)
Lemma case_loop_cases v required feedback cases p :
  (length cases <= 4)%nat ->
  case_loop v required feedback (length cases) (cases_info cases p) =
    let r := cases ++ take (4 - length cases)
               (one_per_shape (pf_shape_identity <$> cases) (filter (fun e => entry_eligible v required e = true) feedback)) in
    (length r, cases_info r p).
Proof.
  revert cases. induction feedback as [|e feedback IH]; intros cases Hlen; simpl.
  - by rewrite take_nil, app_nil_r.
  - unfold TURBOJS_PROPERTY_PIC_MAX_CASES. destruct (Z.leb_spec 4 (Z.of_nat (length cases))) as [Hge|Hlt].
    + replace (4 - length cases)%nat with 0%nat by lia. by rewrite app_nil_r.
    + rewrite duplicate_info. destruct (entry_eligible v required e) eqn:He; simpl.
      * rewrite filter_cons_True by done. simpl. case_bool_decide as Hd; [by apply IH; lia|].
        rewrite put_case_info by lia. replace (S (length cases)) with (length (cases ++ [e])) by (rewrite length_app; simpl; lia).
        rewrite IH by (rewrite length_app; simpl; lia). rewrite fmap_app, length_app, <-app_assoc. simpl.
        replace (4 - length cases)%nat with (S (4 - (length cases + 1))) by lia. done.
      * rewrite filter_cons_False by (by rewrite He). apply IH. lia.
Qed.

Definition feedback_of (feedback : list TurboJSPropertyFeedback) (v : TurboJSSSAValue) : list TurboJSPropertyFeedback :=
  match required_flag (v_opcode v) with Some required => inline_cases v required feedback | None => [] end.

Lemma apply_feedback_cases feedback v :
  apply_feedback feedback v =
    (match required_flag (v_opcode v) with Some _ => v_set_property (with_cases (feedback_of feedback v) (v_property v)) v | None => v end,
     bool_decide (feedback_of feedback v <> [])).
Proof.
  unfold apply_feedback, feedback_of. destruct (required_flag (v_opcode v)) as [required|]; [|done].
  pose proof (case_loop_cases v required feedback [] (v_property v) ltac:(simpl; lia)) as H. simpl length in H.
  change (cases_info [] (v_property v)) with (clear_cases (v_property v)) in H. rewrite H. simpl app. cbv zeta. fold (inline_cases v required feedback).
  change (take (4 - 0) _) with (inline_cases v required feedback). destruct (inline_cases v required feedback) as [|c cs] eqn:Hc; [done|].
  done.
Qed.

Lemma feedback_loop_cases feedback vs applied :
  feedback_loop feedback vs applied =
    ((fun v => (apply_feedback feedback v).1) <$> vs,
     foldl (fun n v => if (apply_feedback feedback v).2 then uwrap 32 (n + 1) else n) applied vs).
Proof.
  revert applied. induction vs as [|v vs IH]; intros applied; simpl; [done|].
  destruct (apply_feedback feedback v) as [v' b]. by rewrite IH.
Qed.

Lemma one_per_shape_spec seen l :
  (forall e, e ∈ one_per_shape seen l -> e ∈ l /\ pf_shape_identity e ∉ seen) /\ NoDup (pf_shape_identity <$> one_per_shape seen l) /\
  (forall e, e ∈ l -> pf_shape_identity e ∈ seen \/ pf_shape_identity e ∈ pf_shape_identity <$> one_per_shape seen l).
Proof.
  revert seen. induction l as [|e l IH]; intros seen; simpl.
  { split_and!; [by intros e He%not_elem_of_nil|constructor|by intros e He%not_elem_of_nil]. }
  case_bool_decide as Hs.
  - destruct (IH seen) as (H1&H2&H3). split_and!; auto.
    + intros x Hx. apply H1 in Hx as [? ?]. split; [by right|done].
    + intros x [->|Hx]%elem_of_cons; [by left|by apply H3].
  - destruct (IH (seen ++ [pf_shape_identity e])) as (H1&H2&H3). split_and!.
    + intros x [->|Hx]%elem_of_cons; [split; [by left|done]|]. apply H1 in Hx as [? Hn]. split; [by right|set_solver].
    + rewrite fmap_cons. apply NoDup_cons. split; [|done]. intros (x&Hx&Hin)%list_elem_of_fmap. apply H1 in Hin as [_ Hn].
      rewrite <-Hx in Hn. set_solver.
    + intros x [->|Hx]%elem_of_cons; [set_solver|]. destruct (H3 x Hx); set_solver.
Qed.

(** What the cases of a value are. *)
Lemma inline_cases_spec v required feedback :
  let cases := inline_cases v required feedback in
  (length cases <= 4)%nat /\ NoDup (pf_shape_identity <$> cases) /\
  (forall e, e ∈ cases -> e ∈ feedback /\ entry_eligible v required e = true) /\
  ((length cases < 4)%nat -> forall e, e ∈ feedback -> entry_eligible v required e = true ->
     pf_shape_identity e ∈ pf_shape_identity <$> cases).
Proof.
  unfold inline_cases. set (l := filter _ feedback). destruct (one_per_shape_spec [] l) as (H1&H2&H3). cbv zeta.
  rewrite length_take. split_and!.
  - lia.
  - rewrite fmap_take. eapply sublist_NoDup; [done|apply sublist_take].
  - intros e He. assert (e ∈ one_per_shape [] l) as [Hl _]%H1 by (eapply elem_of_take in He as (i&Hi&_); by eapply list_elem_of_lookup_2).
    apply list_elem_of_filter in Hl as [??]. done.
  - intros Hlt e He Hel. rewrite take_ge by lia. destruct (H3 e) as [Hn|Hin]; [by apply list_elem_of_filter|by apply not_elem_of_nil in Hn|done].
Qed.

Lemma with_cases_plain_writable v cases :
  v_opcode v = TURBOJS_SSA_PROPERTY_STORE -> cases <> [] ->
  (forall e, e ∈ cases -> entry_eligible v TURBOJS_PROPERTY_FEEDBACK_STORE e = true) ->
  property_store_is_plain_writable (v_set_property (with_cases cases (v_property v)) v) = true.
Proof.
  intros Hst Hne Hel. unfold property_store_is_plain_writable, is_opcode, all_cases. simpl. rewrite bool_decide_eq_true_2 by done.
  destruct cases as [|c cs]; [done|]. set (cases := c :: cs) in *.
  change (pi_case_count (with_cases cases (v_property v))) with (Z.of_nat (length cases)).
  change (pi_case_flags (with_cases cases (v_property v))) with (padded (pf_flags <$> cases)).
  rewrite Nat2Z.id, (proj2 (Z.eqb_neq (Z.of_nat (length cases)) 0)) by (simpl; lia). cbn [negb andb].
  apply forallb_forall. intros i Hi%in_seq. destruct (lookup_lt_is_Some_2 cases i) as [e He]; [lia|].
  assert (nth_case (padded (pf_flags <$> cases)) i = pf_flags e) as ->
    by (unfold nth_case, padded; by rewrite (lookup_app_l_Some _ _ _ (pf_flags e)) by (by rewrite list_lookup_fmap, He)).
  pose proof (Hel e (list_elem_of_lookup_2 _ _ _ He)) as H. unfold entry_eligible in H. rewrite Hst in H.
  rewrite bool_decide_eq_true_2 in H by done. simpl in H. rewrite !andb_true_iff in *. tauto.
Qed.

(** C35 Applying property feedback to an SSA graph changes exactly its property
    loads and stores.  Each of them gets the inline-cache cases of the first
    eligible feedback entries of its instruction and atom: at most four, with
    distinct shapes, and when there are fewer than four, one for every eligible
    shape.  The arrays behind the cases are zero, the first case is the value's
    own guard, and a value without cases keeps its guard.  A store that gets
    cases is a plain writable store for the store passes of the optimizer. *)
Theorem property_feedback_cases g feedback i v :
  let g' := (TurboJS_SSAApplyPropertyFeedback g feedback).1 in
  g_values g !! i = Some v ->
  match required_flag (v_opcode v) with
  | None => g_values g' !! i = Some v
  | Some required =>
      exists cases v', g_values g' !! i = Some v' /\ v' = v_set_property (with_cases cases (v_property v)) v /\
        (length cases <= 4)%nat /\ NoDup (pf_shape_identity <$> cases) /\
        (forall e, e ∈ cases -> e ∈ feedback /\ entry_eligible v required e = true) /\
        ((length cases < 4)%nat -> forall e, e ∈ feedback -> entry_eligible v required e = true ->
           pf_shape_identity e ∈ pf_shape_identity <$> cases) /\
        (v_opcode v = TURBOJS_SSA_PROPERTY_STORE -> cases <> [] -> property_store_is_plain_writable v' = true)
  end.
Proof.
  intros g' Hv. subst g'. unfold TurboJS_SSAApplyPropertyFeedback. rewrite feedback_loop_cases. simpl.
  assert (((fun v => (apply_feedback feedback v).1) <$> g_values g) !! i = Some (apply_feedback feedback v).1) as Hi
    by (by rewrite list_lookup_fmap, Hv).
  rewrite Hi, apply_feedback_cases. unfold feedback_of. destruct (required_flag (v_opcode v)) as [required|] eqn:Hr; [|done].
  destruct (inline_cases_spec v required feedback) as (H1&H2&H3&H4). eexists _, _. split_and!; try done.
  intros Hst Hne. rewrite Hst in Hr. injection Hr as <-. apply with_cases_plain_writable; [done|done|]. intros e He. by apply H3.
Qed.

(** Two shapes for a store; a second entry of the first shape and a read-only
    one are left out. *)
Definition store_value : TurboJSSSAValue :=
  v_set_property (mkProperty 7 0 0 0 0 0 [0; 0; 0] 0 [0; 0; 0; 0] [0; 0; 0; 0] [0; 0; 0; 0] [0; 0; 0; 0])
    (mkValue TURBOJS_SSA_PROPERTY_STORE TURBOJS_SSA_TYPE_INT64 0 0 0 0 0 0 3 0 false false zero_property zero_element).

Definition store_feedback : list TurboJSPropertyFeedback :=
  [mkFeedback 3 7 100 1 14 1; mkFeedback 3 7 100 2 14 2; mkFeedback 3 7 300 1 10 1; mkFeedback 3 7 200 4 14 1].

Lemma property_feedback_cases_witness :
  exists v', g_values (TurboJS_SSAApplyPropertyFeedback (g_set_values TurboJS_SSAGraphInit [store_value]) store_feedback).1 !! 0%nat = Some v' /\
    property_store_is_plain_writable v' = true /\ pi_shapes (v_property v') = [100; 200; 0; 0].
Proof.
  destruct (property_feedback_cases (g_set_values TurboJS_SSAGraphInit [store_value]) store_feedback 0 store_value eq_refl)
    as (cases&v'&Hv'&Heq&_&_&_&_&Hst).
  vm_compute in Hv'. injection Hv' as Hv'. exists v'. split_and!.
  - rewrite <-Hv'. vm_compute. reflexivity.
  - apply Hst; [reflexivity|]. intros ->. rewrite Heq in Hv'. vm_compute in Hv'. discriminate Hv'.
  - rewrite <-Hv'. vm_compute. reflexivity.
Defined.
