(* ===== verification/EngineToIR.v ===== *)
(** * Engine bytecode to IR (src/jit/frontend/engine_bytecode_to_ir.c)

    The operand stack of the bytecode becomes IR registers: every push
    allocates one.  Where control flow merges, the stack travels through
    locals behind the function's own: jumps spill it, branch targets reload
    it.  A first pass computes the depth of the stack at every offset.  An
    opcode the translation does not know becomes a runtime-helper exit, and
    the rest of the bytecode is left out.

    The resolvers are arguments: the code behind them belongs to the virtual
    machine.  [site_address] and [reference_address] say where the allocator
    puts the call sites and callable references of the new function.  The
    model is a call without a statistics record ([lowering_stats] is NULL).
    Fuel bounds the two loops: an offset enters the worklist once, and every
    turn of the translation advances. *)

From S2P Require Import Prelude.
From S2P Require Import JitTypes.
From S2P Require Import Clutch.
From S2P Require Import IR.
From S2P Require Import IRVerify.
From S2P Require Import CallableSpecialize.
From S2P Require Import EngineOpcodes.
From S2P Require Import BytecodeCfg.

(** ** Operands *)

Definition read_u8 (p : list Z) : Z := le_value (take 1 p).
Definition read_u16 (p : list Z) : Z := le_value (take 2 p).
Definition read_i16 (p : list Z) : Z := swrap 16 (read_u16 p).
Definition read_i32 (p : list Z) : Z := swrap 32 (le_value (take 4 p)).

(** ** Stack effects *)

Record TurboJSEngineStackEffect := mkEffect {
  ef_pop_count : Z;
  ef_push_count : Z;
  ef_next_offset : Z;
  ef_branch_target : option Z;      (* has_branch *)
  ef_has_fallthrough : bool
}.

(** The switch of [engine_stack_effect]; [None] is TURBOJS_IR_UNSUPPORTED. *)
Definition opcode_effect (op : EngineOpcode) (offset : Z) (operand : list Z) : option TurboJSEngineStackEffect :=
  let next := offset + opcode_size op in
  let plain pop push := Some (mkEffect pop push next None true) in
  let branch pop disp fall := Some (mkEffect pop 0 next (Some (uwrap 64 (offset + 1 + disp))) fall) in
  match op with
  | OP_nop => plain 0 0
  | OP_push_i32 | OP_get_arg | OP_get_arg0 | OP_get_arg1 | OP_get_arg2 | OP_get_arg3 | OP_get_loc | OP_get_loc8
  | OP_get_loc0 | OP_get_loc1 | OP_get_loc2 | OP_get_loc3 | OP_get_var | OP_get_var_undef | OP_get_var_ref
  | OP_get_var_ref_check | OP_get_var_ref0 | OP_get_var_ref1 | OP_get_var_ref2 | OP_get_var_ref3 => plain 0 1
  | OP_put_loc | OP_put_loc8 | OP_put_loc0 | OP_put_loc1 | OP_put_loc2 | OP_put_loc3 => plain 1 0
  | OP_set_loc | OP_set_loc8 | OP_set_loc0 | OP_set_loc1 | OP_set_loc2 | OP_set_loc3 => plain 0 0
  | OP_add | OP_sub | OP_mul | OP_div | OP_mod | OP_lt => plain 2 1
  | OP_if_true | OP_if_false => branch 1 (read_i32 operand) true
  | OP_if_true8 | OP_if_false8 => branch 1 (swrap 8 (read_u8 operand)) true
  | OP_goto => branch 0 (read_i32 operand) false
  | OP_goto16 => branch 0 (read_i16 operand) false
  | OP_goto8 => branch 0 (swrap 8 (read_u8 operand)) false
  | OP_call0 => plain 1 1
  | OP_call1 => plain 2 1
  | OP_call2 => plain 3 1
  | OP_call3 => plain 4 1
  | OP_call => plain (uwrap 16 (read_u16 operand + 1)) 1
  | OP_return => Some (mkEffect 1 0 next None false)
  | _ => if (opcode_pop op <? 0) || (opcode_push op <? 0) then None else plain (opcode_pop op) (opcode_push op)
  end.

Definition engine_stack_effect (bc : TurboJSEngineBytecodeInfo) (offset : Z) : TurboJSIRStatus + TurboJSEngineStackEffect :=
  if bc_length bc <=? offset then inl TURBOJS_IR_INVALID_ARGUMENT
  else match bc_bytecode bc !! Z.to_nat offset ≫= engine_opcode with
  | None => inl TURBOJS_IR_INVALID_OPCODE
  | Some op =>
      if (opcode_size op =? 0) || (bc_length bc <? offset + opcode_size op) then inl TURBOJS_IR_INVALID_OPCODE
      else match opcode_effect op offset (operand_of bc offset) with
      | None => inl TURBOJS_IR_UNSUPPORTED
      | Some e =>
          match ef_branch_target e with
          | Some t => if bc_length bc <=? t then inl TURBOJS_IR_INVALID_TARGET else inr e
          | None => inr e
          end
      end
  end.

(** ** Stack depths of all offsets *)

Record StackScan := mkScan {
  sc_depths : list Z;         (* int32_t, -1 is unvisited *)
  sc_targets : list bool;
  sc_maximum : Z
}.

Definition depth_at (depths : list Z) (offset : Z) : Z := default (-1) (depths !! Z.to_nat offset).
Definition is_target (targets : list bool) (offset : Z) : bool := default false (targets !! Z.to_nat offset).

(** [MERGE_SUCCESSOR]; a failure carries [bad_offset]. *)
Definition merge_successor (out_depth successor : Z) (sq : StackScan * list Z) : (TurboJSIRStatus * Z) + (StackScan * list Z) :=
  let '(sc, queue) := sq in
  let d := depth_at (sc_depths sc) successor in
  if d <? 0 then inr (mkScan (<[Z.to_nat successor := out_depth]> (sc_depths sc)) (sc_targets sc) (sc_maximum sc), queue ++ [successor])
  else if d =? out_depth then inr (sc, queue)
  else inl (TURBOJS_IR_UNSUPPORTED, successor).

(** One turn of the worklist. *)
Definition scan_one (bc : TurboJSEngineBytecodeInfo) (offset : Z) (sc : StackScan) (queue : list Z)
    : (TurboJSIRStatus * Z) + (StackScan * list Z) :=
  match engine_stack_effect bc offset with
  | inl st => inl (st, offset)
  | inr e =>
      if depth_at (sc_depths sc) offset <? ef_pop_count e then inl (TURBOJS_IR_INVALID_OPCODE, offset)
      else
        let out_depth := depth_at (sc_depths sc) offset - ef_pop_count e + ef_push_count e in
        let sc := mkScan (sc_depths sc) (sc_targets sc) (if sc_maximum sc <? out_depth then out_depth else sc_maximum sc) in
        cfg! (sc, queue) :=
          match ef_branch_target e with
          | Some t => merge_successor out_depth t (mkScan (sc_depths sc) (<[Z.to_nat t := true]> (sc_targets sc)) (sc_maximum sc), queue)
          | None => inr (sc, queue)
          end in
        if ef_has_fallthrough e && (ef_next_offset e <? bc_length bc)
        then merge_successor out_depth (ef_next_offset e) (sc, queue) else inr (sc, queue)
  end.

Fixpoint scan_loop (fuel : nat) (bc : TurboJSEngineBytecodeInfo) (sc : StackScan) (queue : list Z)
    : (TurboJSIRStatus * Z) + StackScan :=
  match fuel, queue with
  | S fuel, offset :: queue => cfg! (sc, queue) := scan_one bc offset sc queue in scan_loop fuel bc sc queue
  | _, _ => inr sc
  end.

Definition scan_initial (bc : TurboJSEngineBytecodeInfo) : StackScan :=
  mkScan (0 :: replicate (length (bc_bytecode bc)) (-1)) (replicate (S (length (bc_bytecode bc))) false) 0.

Definition analyze_stack_depths (worklist_memory : bool) (bc : TurboJSEngineBytecodeInfo) : (TurboJSIRStatus * Z) + StackScan :=
  if negb worklist_memory then inl (TURBOJS_IR_OUT_OF_MEMORY, 0)
  else scan_loop (S (length (bc_bytecode bc))) bc (scan_initial bc) [0].

(** ** The translation's state *)

Record EngineMemory := mkEngineMemory {
  enm_maps : bool;
  enm_worklist : bool;
  enm_emit : Z -> bool;
  enm_site_array : Z -> bool;
  enm_site : Z -> bool;
  enm_reference_array : Z -> bool;
  enm_reference : Z -> bool
}.

(** [stack] holds registers, the top at the end; [fixups] pairs an IR index
    with a bytecode target; [shapes] is [method_shape_identity] and
    [method_shape_offset]. *)
Record EngineState := mkEngine {
  es_out : TurboJSIRFunction;
  es_stack : list Z;
  es_pc : Z;
  es_offset : Z;
  es_saw_return : bool;
  es_fallthrough_reachable : bool;
  es_bytecode_to_ir : list Z;
  es_fixups : list (nat * Z);
  es_shapes : list (Z * Z);
  es_events : list RootEvent
}.

Definition es_set_out (f : TurboJSIRFunction) (s : EngineState) : EngineState :=
  mkEngine f (es_stack s) (es_pc s) (es_offset s) (es_saw_return s) (es_fallthrough_reachable s) (es_bytecode_to_ir s)
    (es_fixups s) (es_shapes s) (es_events s).
Definition es_set_stack (stack : list Z) (s : EngineState) : EngineState :=
  mkEngine (es_out s) stack (es_pc s) (es_offset s) (es_saw_return s) (es_fallthrough_reachable s) (es_bytecode_to_ir s)
    (es_fixups s) (es_shapes s) (es_events s).
Definition es_set_pc (pc : Z) (s : EngineState) : EngineState :=
  mkEngine (es_out s) (es_stack s) pc (es_offset s) (es_saw_return s) (es_fallthrough_reachable s) (es_bytecode_to_ir s)
    (es_fixups s) (es_shapes s) (es_events s).
Definition es_set_offset (offset : Z) (s : EngineState) : EngineState :=
  mkEngine (es_out s) (es_stack s) (es_pc s) offset (es_saw_return s) (es_fallthrough_reachable s) (es_bytecode_to_ir s)
    (es_fixups s) (es_shapes s) (es_events s).
Definition es_set_reachable (b : bool) (s : EngineState) : EngineState :=
  mkEngine (es_out s) (es_stack s) (es_pc s) (es_offset s) (es_saw_return s) b (es_bytecode_to_ir s)
    (es_fixups s) (es_shapes s) (es_events s).
Definition es_set_returned (s : EngineState) : EngineState :=
  mkEngine (es_out s) (es_stack s) (es_pc s) (es_offset s) true false (es_bytecode_to_ir s)
    (es_fixups s) (es_shapes s) (es_events s).
Definition es_map_offset (offset : Z) (s : EngineState) : EngineState :=
  mkEngine (es_out s) (es_stack s) (es_pc s) (es_offset s) (es_saw_return s) (es_fallthrough_reachable s)
    (<[Z.to_nat offset := f_instruction_count (es_out s)]> (es_bytecode_to_ir s)) (es_fixups s) (es_shapes s) (es_events s).
Definition es_add_fixup (fixup : nat * Z) (s : EngineState) : EngineState :=
  mkEngine (es_out s) (es_stack s) (es_pc s) (es_offset s) (es_saw_return s) (es_fallthrough_reachable s) (es_bytecode_to_ir s)
    (es_fixups s ++ [fixup]) (es_shapes s) (es_events s).
Definition es_set_shape (reg identity offset : Z) (s : EngineState) : EngineState :=
  mkEngine (es_out s) (es_stack s) (es_pc s) (es_offset s) (es_saw_return s) (es_fallthrough_reachable s) (es_bytecode_to_ir s)
    (es_fixups s) (<[Z.to_nat reg := (identity, offset)]> (es_shapes s)) (es_events s).
Definition es_log (events : list RootEvent) (s : EngineState) : EngineState :=
  mkEngine (es_out s) (es_stack s) (es_pc s) (es_offset s) (es_saw_return s) (es_fallthrough_reachable s) (es_bytecode_to_ir s)
    (es_fixups s) (es_shapes s) (es_events s ++ events).

(** The error labels: status and message. *)
Definition EngineError : Type := TurboJSIRStatus * string.
Definition Lowered (A : Type) : Type := (EngineError * EngineState) + A.

Definition truncated : EngineError := (TURBOJS_IR_INVALID_OPCODE, "truncated engine bytecode operand").
Definition stack_underflow : EngineError := (TURBOJS_IR_INVALID_OPCODE, "engine operand stack underflow").
Definition stack_overflow : EngineError := (TURBOJS_IR_INVALID_REGISTER, "engine operand stack exceeds baseline limit").
Definition register_limit : EngineError := (TURBOJS_IR_INVALID_REGISTER, "engine bytecode requires too many IR registers").
Definition invalid_local_index : EngineError := (TURBOJS_IR_INVALID_REGISTER, "engine bytecode local index is out of range").
Definition unsupported_property_method : EngineError :=
  (TURBOJS_IR_UNSUPPORTED, "property method load lacks monomorphic shape feedback").
Definition unsupported_callable_load : EngineError :=
  (TURBOJS_IR_UNSUPPORTED, "callable load lacks stable rooted CallableRef metadata").
Definition unsupported_call : EngineError := (TURBOJS_IR_UNSUPPORTED, "call site lacks stable monomorphic Clutch metadata").
Definition unsupported_numeric_mode : EngineError :=
  (TURBOJS_IR_UNSUPPORTED, "numeric opcode is unsupported in selected specialization").
Definition invalid_argument_index : EngineError :=
  (TURBOJS_IR_INVALID_REGISTER, "engine bytecode argument index is out of range").
Definition invalid_branch_target : EngineError := (TURBOJS_IR_INVALID_TARGET, "engine branch target is invalid").
Definition incompatible_stack_state : EngineError :=
  (TURBOJS_IR_UNSUPPORTED, "control-flow predecessors disagree on operand-stack depth").
Definition out_of_memory : EngineError := (TURBOJS_IR_OUT_OF_MEMORY, "unable to allocate bytecode control-flow maps").

Inductive TurboJSEngineCallableLoadKind := TURBOJS_ENGINE_CALLABLE_GLOBAL | TURBOJS_ENGINE_CALLABLE_CLOSURE.

(** The resolvers: they fill the object they are given. *)
Record EngineResolvers := mkResolvers {
  er_call : option (Z -> Z -> TurboJSEngineNumericMode -> TurboJSClutchCallSite -> TurboJSIRStatus * TurboJSClutchCallSite);
  er_callable : option (Z -> TurboJSEngineCallableLoadKind -> Z -> TurboJSCallableReference ->
                        TurboJSIRStatus * TurboJSCallableReference);
  (** status, reference, shape offset, shape identity *)
  er_method_property : option (Z -> Z -> TurboJSCallableReference -> TurboJSIRStatus * TurboJSCallableReference * Z * Z)
}.

Definition no_resolvers : EngineResolvers := mkResolvers None None None.

(** The callable references and call sites of a function. *)
Definition f_put_site (k : nat) (site : TurboJSClutchCallSite) (f : TurboJSIRFunction) : TurboJSIRFunction :=
  f_set_sites f (<[k := site]> (f_owned_clutch_sites f)) (f_owned_clutch_site_capacity f).
Definition f_put_callable (k : nat) (r : TurboJSCallableReference) (f : TurboJSIRFunction) : TurboJSIRFunction :=
  f_set_callables f (<[k := r]> (f_owned_callable_references f)) (f_owned_callable_reference_capacity f).
(** The rollbacks: the last object leaves the array and is destroyed. *)
Definition f_drop_site (k : nat) (f : TurboJSIRFunction) : TurboJSIRFunction :=
  f_set_sites f (take k (f_owned_clutch_sites f)) (f_owned_clutch_site_capacity f).
Definition f_drop_callable (k : nat) (f : TurboJSIRFunction) : TurboJSIRFunction :=
  f_set_callables f (take k (f_owned_callable_references f)) (f_owned_callable_reference_capacity f).

Definition pop (stack : list Z) : option (list Z * Z) :=
  match rev stack with
  | [] => None
  | r :: rest => Some (rev rest, r)
  end.

(** [ins] after the memset and the assignments before the switch. *)
Definition fresh_instruction (op : TurboJSIROpcode) (destination left right immediate offset : Z) : TurboJSIRInstruction :=
  mkInstruction op destination left right immediate 0 (uwrap 32 offset).

Notation NOREG := TURBOJS_IR_NO_REGISTER.

Section Lowering.
Context (mem : EngineMemory) (resolvers : EngineResolvers) (site_address reference_address : nat -> Z).
Context (bc : TurboJSEngineBytecodeInfo).

Definition emit (s : EngineState) (i : TurboJSIRInstruction) : Lowered EngineState :=
  match TurboJS_IREmit (enm_emit mem (f_instruction_count (es_out s))) (es_out s) i with
  | (f, TURBOJS_IR_OK) => inr (es_set_out f s)
  | (f, st) => inl ((st, "unable to append engine bytecode IR"), es_set_out f s)
  end.

(** [TurboJS_IRAllocateRegister] with the error of its failure. *)
Definition new_register (e : EngineError) (s : EngineState) : Lowered (EngineState * Z) :=
  let '(f, r) := TurboJS_IRAllocateRegister (es_out s) in
  if r =? NOREG then inl (e, es_set_out f s) else inr (es_set_out f s, r).

Definition push_register (r : Z) (s : EngineState) : Lowered EngineState :=
  if TURBOJS_IR_MAX_REGISTERS <=? Z.of_nat (length (es_stack s)) then inl (stack_overflow, s)
  else inr (es_set_stack (es_stack s ++ [r]) s).

(** ** Spilling and reloading *)

Fixpoint spill_loop (i : nat) (regs : list Z) (offset : Z) (s : EngineState) : Lowered EngineState :=
  match regs with
  | [] => inr s
  | r :: regs =>
      cfg! s := emit s (fresh_instruction TURBOJS_IR_LOCAL_SET NOREG r NOREG (bc_local_count bc + Z.of_nat i) offset) in
      spill_loop (S i) regs offset s
  end.
Definition spill_stack_to_locals (s : EngineState) (offset : Z) : Lowered EngineState := spill_loop 0 (es_stack s) offset s.

Fixpoint reload_loop (count i : nat) (offset : Z) (s : EngineState) : Lowered EngineState :=
  match count with
  | O => inr s
  | S count =>
      cfg! (s, r) := new_register (TURBOJS_IR_INVALID_REGISTER, "branch stack reload exceeds IR register limit") s in
      cfg! s := emit s (fresh_instruction TURBOJS_IR_LOCAL_GET r NOREG NOREG (bc_local_count bc + Z.of_nat i) offset) in
      reload_loop count (S i) offset (es_set_stack (es_stack s ++ [r]) s)
  end.
Definition reload_stack_from_locals (s : EngineState) (sp : nat) (offset : Z) : Lowered EngineState :=
  reload_loop sp 0 offset (es_set_stack [] s).

(** ** The cases of the switch

    [es_pc] is behind the opcode. *)

Definition operand (s : EngineState) : list Z := drop (Z.to_nat (es_pc s)) (bc_bytecode bc).

(** [if (pc + n > bytecode_length) goto truncated; ... pc += n] *)
Definition take_operand (n : Z) (s : EngineState) : Lowered EngineState :=
  if bc_length bc <? es_pc s + n then inl (truncated, s) else inr (es_set_pc (es_pc s + n) s).

(** A new register defined by one instruction and pushed. *)
Definition push_instruction (op : TurboJSIROpcode) (immediate offset : Z) (s : EngineState) : Lowered EngineState :=
  cfg! (s, r) := new_register register_limit s in
  cfg! s := emit s (fresh_instruction op r NOREG NOREG immediate offset) in
  push_register r s.

Definition lower_get_arg (index offset : Z) (s : EngineState) : Lowered EngineState :=
  if bc_argument_count bc <=? index then inl (invalid_argument_index, s)
  else push_instruction TURBOJS_IR_ARGUMENT index offset s.

Definition lower_get_loc (index offset : Z) (s : EngineState) : Lowered EngineState :=
  if bc_local_count bc <=? index then inl (invalid_local_index, s)
  else push_instruction TURBOJS_IR_LOCAL_GET index offset s.

(** [put_loc] pops, [set_loc] keeps. *)
Definition lower_put_loc (keep : bool) (index offset : Z) (s : EngineState) : Lowered EngineState :=
  if bc_local_count bc <=? index then inl (invalid_local_index, s)
  else match pop (es_stack s) with
  | None => inl (stack_underflow, s)
  | Some (rest, r) =>
      cfg! s := emit s (fresh_instruction TURBOJS_IR_LOCAL_SET NOREG r NOREG index offset) in
      inr (if keep then s else es_set_stack rest s)
  end.

Definition arithmetic_opcode (mode : TurboJSEngineNumericMode) (op : EngineOpcode) : option TurboJSIROpcode :=
  match mode, op with
  | TURBOJS_ENGINE_NUMERIC_FLOAT64, OP_add => Some TURBOJS_IR_ADD_F64
  | TURBOJS_ENGINE_NUMERIC_FLOAT64, OP_sub => Some TURBOJS_IR_SUB_F64
  | TURBOJS_ENGINE_NUMERIC_FLOAT64, OP_mul => Some TURBOJS_IR_MUL_F64
  | TURBOJS_ENGINE_NUMERIC_FLOAT64, OP_div => Some TURBOJS_IR_DIV_F64
  | TURBOJS_ENGINE_NUMERIC_FLOAT64, _ => None
  | TURBOJS_ENGINE_NUMERIC_INT32, OP_add => Some TURBOJS_IR_ADD_I32_CHECKED
  | TURBOJS_ENGINE_NUMERIC_INT32, OP_sub => Some TURBOJS_IR_SUB_I32_CHECKED
  | TURBOJS_ENGINE_NUMERIC_INT32, OP_mul => Some TURBOJS_IR_MUL_I32_CHECKED
  | TURBOJS_ENGINE_NUMERIC_INT32, OP_div => Some TURBOJS_IR_DIV_I32_CHECKED
  | TURBOJS_ENGINE_NUMERIC_INT32, OP_mod => Some TURBOJS_IR_REM_I32_CHECKED
  | TURBOJS_ENGINE_NUMERIC_INT32, _ => Some TURBOJS_IR_LESS_THAN_I64
  end.

Definition lower_arithmetic (op : EngineOpcode) (offset : Z) (s : EngineState) : Lowered EngineState :=
  if Z.of_nat (length (es_stack s)) <? 2 then inl (stack_underflow, s)
  else
    cfg! (s, r) := new_register register_limit s in
    match pop (es_stack s) with
    | None => inl (stack_underflow, s)
    | Some (stack, right_reg) =>
        match pop stack with
        | None => inl (stack_underflow, s)
        | Some (stack, left_reg) =>
            let s := es_set_stack stack s in
            match arithmetic_opcode (bc_numeric_mode bc) op with
            | None => inl (unsupported_numeric_mode, s)
            | Some irop =>
                cfg! s := emit s (fresh_instruction irop r left_reg right_reg 0 offset) in
                inr (es_set_stack (es_stack s ++ [r]) s)
            end
        end
    end.

(** Displacement, operand size, and the condition: [Some b] branches on [b]. *)
Definition branch_operand (op : EngineOpcode) (p : list Z) : Z * Z * option bool :=
  match op with
  | OP_goto => (read_i32 p, 4, None)
  | OP_if_true => (read_i32 p, 4, Some true)
  | OP_if_false => (read_i32 p, 4, Some false)
  | OP_goto16 => (read_i16 p, 2, None)
  | OP_if_true8 => (swrap 8 (read_u8 p), 1, Some true)
  | OP_if_false8 => (swrap 8 (read_u8 p), 1, Some false)
  | _ => (swrap 8 (read_u8 p), 1, None)
  end.

Definition branch_opcode (condition : option bool) : TurboJSIROpcode :=
  match condition with
  | Some true => TURBOJS_IR_BRANCH_TRUE
  | Some false => TURBOJS_IR_BRANCH_FALSE
  | None => TURBOJS_IR_JUMP
  end.

Definition TURBOJS_FIXUP_LIMIT : nat := 256.      (* TURBOJS_IR_MAX_REGISTERS * 4 *)

Definition lower_branch (op : EngineOpcode) (offset : Z) (s : EngineState) : Lowered EngineState :=
  let operand_start := es_pc s in
  let '(displacement, size, condition) := branch_operand op (operand s) in
  cfg! s := take_operand size s in
  let target := operand_start + displacement in
  if (target <? 0) || (bc_length bc <=? target) then inl (invalid_branch_target, s)
  else
    cfg! (s, condition_reg) :=
      match condition with
      | Some _ => match pop (es_stack s) with
                  | None => inl (stack_underflow, s)
                  | Some (stack, r) => inr (es_set_stack stack s, r)
                  end
      | None => inr (s, NOREG)
      end in
    cfg! s := spill_stack_to_locals s offset in
    cfg! s := emit s (fresh_instruction (branch_opcode condition) NOREG condition_reg NOREG 0 offset) in
    if (TURBOJS_FIXUP_LIMIT <=? length (es_fixups s))%nat then inl (register_limit, s)
    else
      let s := es_add_fixup ((length (f_instructions (es_out s)) - 1)%nat, target) s in
      inr (match condition with None => es_set_reachable false s | Some _ => s end).

Definition return_opcode : TurboJSIROpcode :=
  match bc_numeric_mode bc with TURBOJS_ENGINE_NUMERIC_FLOAT64 => TURBOJS_IR_RETURN_F64 | _ => TURBOJS_IR_RETURN_I64 end.

Definition lower_return (offset : Z) (s : EngineState) : Lowered EngineState :=
  match pop (es_stack s) with
  | None => inl (stack_underflow, s)
  | Some (_, r) =>
      cfg! s := emit s (fresh_instruction return_opcode NOREG r NOREG 0 offset) in
      inr (es_set_returned (es_set_stack [] s))
  end.

(** The default case: the helper exit of an opcode without translation. *)
Definition lower_default (byte offset : Z) (s : EngineState) : Lowered EngineState :=
  let '(f, r1) := TurboJS_IRAllocateRegister (es_out s) in
  let '(f, r2) := TurboJS_IRAllocateRegister f in
  let '(f, r3) := TurboJS_IRAllocateRegister f in
  let s := es_set_out f s in
  if (r1 =? NOREG) || (r2 =? NOREG) || (r3 =? NOREG) then inl (register_limit, s)
  else
    cfg! s := emit s (fresh_instruction TURBOJS_IR_CONSTANT_I64 r1 0 0 0 offset) in
    cfg! s := emit s (fresh_instruction TURBOJS_IR_CONSTANT_I64 r2 0 0 0 offset) in
    cfg! s := emit s (fresh_instruction TURBOJS_IR_RUNTIME_HELPER r3 r1 r2 byte offset) in
    cfg! s := emit s (fresh_instruction TURBOJS_IR_RETURN_I64 0 r3 0 0 offset) in
    inr (es_set_pc (bc_length bc) (es_set_returned s)).

(** ** Callable loads *)

(** A new callable reference, filled by [resolve]. *)
Definition resolve_reference (e : EngineError) (resolve : TurboJSCallableReference -> TurboJSIRStatus * TurboJSCallableReference)
    (s : EngineState) : Lowered (EngineState * nat) :=
  let n := Z.of_nat (length (f_owned_callable_references (es_out s))) in
  match TurboJS_IRAllocateCallableReference (enm_reference_array mem n) (enm_reference mem n) (es_out s) with
  | (f, None) => inl (out_of_memory, es_set_out f s)
  | (f, Some k) =>
      let '(st, r) := resolve zero_callable in
      match st with
      | TURBOJS_IR_OK => inr (es_set_out (f_put_callable k r f) s, k)
      | _ => inl (e, es_log (TurboJS_CallableReferenceDestroy r).2 (es_set_out (f_drop_callable k f) s))
      end
  end.

(** A status of OK without a shape counts as a failure. *)
Definition require_shape (st : TurboJSIRStatus) (identity : Z) : TurboJSIRStatus :=
  if identity =? 0 then match st with TURBOJS_IR_OK => TURBOJS_IR_UNSUPPORTED | st => st end else st.

Definition lower_get_field2 (offset : Z) (s : EngineState) : Lowered EngineState :=
  let atom := uwrap 32 (read_i32 (operand s)) in
  cfg! s := take_operand 4 s in
  if Z.of_nat (length (es_stack s)) <? 1 then inl (stack_underflow, s)
  else match er_method_property resolvers with
  | None => inl (unsupported_property_method, s)
  | Some resolve =>
      let '(st, r, shape_offset, shape_identity) := resolve (uwrap 32 offset) atom zero_callable in
      cfg! (s, k) := resolve_reference unsupported_property_method (fun _ => (require_shape st shape_identity, r)) s in
      cfg! (s, d) := new_register register_limit s in
      cfg! s := emit s (fresh_instruction TURBOJS_IR_VALUE_CALLABLE_CONSTANT d NOREG NOREG (reference_address k) offset) in
      cfg! s := push_register d s in
      inr (es_set_shape d shape_identity shape_offset s)
  end.

(** The kind of a callable load and its operand size; the closure loads
    without operand name their variable themselves. *)
Definition callable_load (op : EngineOpcode) (p : list Z) : TurboJSEngineCallableLoadKind * Z * Z :=
  match op with
  | OP_get_var | OP_get_var_undef => (TURBOJS_ENGINE_CALLABLE_GLOBAL, uwrap 32 (read_i32 p), 4)
  | OP_get_var_ref | OP_get_var_ref_check => (TURBOJS_ENGINE_CALLABLE_CLOSURE, read_u16 p, 2)
  | OP_get_var_ref1 => (TURBOJS_ENGINE_CALLABLE_CLOSURE, 1, 0)
  | OP_get_var_ref2 => (TURBOJS_ENGINE_CALLABLE_CLOSURE, 2, 0)
  | OP_get_var_ref3 => (TURBOJS_ENGINE_CALLABLE_CLOSURE, 3, 0)
  | _ => (TURBOJS_ENGINE_CALLABLE_CLOSURE, 0, 0)
  end.

Definition lower_callable_load (op : EngineOpcode) (offset : Z) (s : EngineState) : Lowered EngineState :=
  match er_callable resolvers with
  | None => inl (unsupported_callable_load, s)
  | Some resolve =>
      let '(kind, index_or_atom, size) := callable_load op (operand s) in
      cfg! s := take_operand size s in
      cfg! (s, k) := resolve_reference unsupported_callable_load (resolve (uwrap 32 offset) kind index_or_atom) s in
      cfg! (s, d) := new_register register_limit s in
      cfg! s := emit s (fresh_instruction TURBOJS_IR_VALUE_CALLABLE_CONSTANT d NOREG NOREG (reference_address k) offset) in
      push_register d s
  end.

(** ** Calls *)

Definition es_put_site (k : nat) (site : TurboJSClutchCallSite) (s : EngineState) : EngineState :=
  es_set_out (f_put_site k site (es_out s)) s.

(** [site->continuation_bytecode_offset = pc] *)
Definition site_continues_at (pc : Z) (s : TurboJSClutchCallSite) : TurboJSClutchCallSite :=
  mkCallSite (cs_target s) (cs_expected_generation s) (cs_argument_count s) (cs_expected_kind s) (cs_flags s) pc
    (cs_closure_environment s) (cs_environment_rooting s) (cs_owns_environment s) (cs_target_identity s)
    (cs_receiver_shape_identity s) (cs_receiver_shape_offset s) (cs_receiver_register s) (cs_argument_registers s).

(** A new call site, filled by the call resolver. *)
Definition resolve_site (argc offset : Z) (s : EngineState) : Lowered (EngineState * nat * TurboJSClutchCallSite) :=
  match er_call resolvers with
  | None => inl (unsupported_call, s)
  | Some resolve =>
      let n := Z.of_nat (length (f_owned_clutch_sites (es_out s))) in
      match TurboJS_IRAllocateClutchCallSite (enm_site_array mem n) (enm_site mem n) (es_out s) with
      | (f, None) => inl (out_of_memory, es_set_out f s)
      | (f, Some k) =>
          let '(st, site) := resolve (uwrap 32 offset) argc (bc_numeric_mode bc) zero_site in
          match st with
          | TURBOJS_IR_OK =>
              let site := site_continues_at (uwrap 32 (es_pc s)) site in
              inr (es_set_out (f_put_site k site f) s, k, site)
          | _ => inl (unsupported_call, es_log (TurboJS_ClutchCallSiteDestroy site).2 (es_set_out (f_drop_site k f) s))
          end
      end
  end.

(** The loop over the arguments; [inl] stops at the failing one. *)
Fixpoint set_arguments (i : Z) (regs : list Z) (site : TurboJSClutchCallSite) : TurboJSClutchCallSite + TurboJSClutchCallSite :=
  match regs with
  | [] => inr site
  | r :: regs =>
      match TurboJS_ClutchCallSiteSetArgument site i r with
      | (TURBOJS_IR_OK, site) => set_arguments (i + 1) regs site
      | (_, site) => inl site
      end
  end.

Definition bind_call (k : nat) (regs : list Z) (site : TurboJSClutchCallSite) (s : EngineState)
    : Lowered (EngineState * TurboJSClutchCallSite) :=
  match set_arguments 0 regs site with
  | inl site => inl (unsupported_call, es_put_site k site s)
  | inr site => inr (es_put_site k site s, site)
  end.

Definition call_opcode : TurboJSIROpcode :=
  match bc_numeric_mode bc with TURBOJS_ENGINE_NUMERIC_FLOAT64 => TURBOJS_IR_CALL_NATIVE_F64 | _ => TURBOJS_IR_CALL_NATIVE_I64 end.

(** The result of a call replaces the operands above [base]. *)
Definition emit_call (k base : nat) (argument_count offset : Z) (s : EngineState) : Lowered (EngineState * Z) :=
  cfg! (s, d) := new_register register_limit s in
  cfg! s := emit s (mkInstruction call_opcode d NOREG NOREG (site_address k) argument_count (uwrap 32 offset)) in
  inr (es_set_stack (take base (es_stack s) ++ [d]) s, d).

Definition call_argc (op : EngineOpcode) (p : list Z) : Z * Z :=
  match op with
  | OP_call => (read_u16 p, 2)
  | OP_call1 => (1, 0)
  | OP_call2 => (2, 0)
  | OP_call3 => (3, 0)
  | _ => (0, 0)
  end.

Definition lower_call (op : EngineOpcode) (offset : Z) (s : EngineState) : Lowered EngineState :=
  let '(argc, size) := call_argc op (operand s) in
  cfg! s := take_operand size s in
  let sp := Z.of_nat (length (es_stack s)) in
  if (TURBOJS_CLUTCH_MAX_ARGUMENTS <? argc) || (sp <? argc + 1) then inl (unsupported_call, s)
  else
    let base := Z.to_nat (sp - (argc + 1)) in
    cfg! (s, k, site) := resolve_site argc offset s in
    cfg! (s, _) := bind_call k (drop (base + 1) (es_stack s)) site s in
    cfg! (s, _) := emit_call k base argc offset s in
    inr s.

(** The receiver and the shape guard of a method call. *)
Definition bind_receiver (k base : nat) (site : TurboJSClutchCallSite) (s : EngineState)
    : Lowered (EngineState * TurboJSClutchCallSite) :=
  match TurboJS_ClutchCallSiteSetReceiver site (default 0 (es_stack s !! base)) with
  | (TURBOJS_IR_OK, site) =>
      let s := es_put_site k site s in
      let '(identity, shape_offset) := default (0, 0) (es_shapes s !! Z.to_nat (default 0 (es_stack s !! S base))) in
      if identity =? 0 then inr (s, site)
      else match TurboJS_ClutchCallSiteSetReceiverShapeGuard site shape_offset identity with
           | (TURBOJS_IR_OK, site) => inr (es_put_site k site s, site)
           | (_, site) => inl (unsupported_call, es_put_site k site s)
           end
  | (_, site) => inl (unsupported_call, es_put_site k site s)
  end.

Definition lower_call_method (tail : bool) (offset : Z) (s : EngineState) : Lowered EngineState :=
  let argc := read_u16 (operand s) in
  cfg! s := take_operand 2 s in
  let sp := Z.of_nat (length (es_stack s)) in
  if (TURBOJS_CLUTCH_MAX_ARGUMENTS <? argc + 1) || (sp <? argc + 2) then inl (unsupported_call, s)
  else
    let base := Z.to_nat (sp - (argc + 2)) in
    cfg! (s, k, site) := resolve_site argc offset s in
    cfg! (s, site) := bind_call k (drop (base + 2) (es_stack s)) site s in
    cfg! (s, site) := bind_receiver k base site s in
    cfg! (s, d) := emit_call k base (cs_argument_count site) offset s in
    if tail then
      cfg! s := emit s (fresh_instruction return_opcode 0 d NOREG 0 offset) in
      inr (es_set_returned (es_set_stack [] s))
    else inr s.

(** ** The switch *)

Definition lower_opcode (op : EngineOpcode) (byte offset : Z) (s : EngineState) : Lowered EngineState :=
  match op with
  | OP_nop => inr s
  | OP_push_i32 =>
      let v := read_i32 (operand s) in
      cfg! s := take_operand 4 s in push_instruction TURBOJS_IR_CONSTANT_I64 v offset s
  | OP_get_arg => let i := read_u16 (operand s) in cfg! s := take_operand 2 s in lower_get_arg i offset s
  | OP_get_loc => let i := read_u16 (operand s) in cfg! s := take_operand 2 s in lower_get_loc i offset s
  | OP_put_loc => let i := read_u16 (operand s) in cfg! s := take_operand 2 s in lower_put_loc false i offset s
  | OP_set_loc => let i := read_u16 (operand s) in cfg! s := take_operand 2 s in lower_put_loc true i offset s
  | OP_get_loc8 => let i := read_u8 (operand s) in cfg! s := take_operand 1 s in lower_get_loc i offset s
  | OP_put_loc8 => let i := read_u8 (operand s) in cfg! s := take_operand 1 s in lower_put_loc false i offset s
  | OP_set_loc8 => let i := read_u8 (operand s) in cfg! s := take_operand 1 s in lower_put_loc true i offset s
  | OP_get_loc0 => lower_get_loc 0 offset s
  | OP_get_loc1 => lower_get_loc 1 offset s
  | OP_get_loc2 => lower_get_loc 2 offset s
  | OP_get_loc3 => lower_get_loc 3 offset s
  | OP_put_loc0 => lower_put_loc false 0 offset s
  | OP_put_loc1 => lower_put_loc false 1 offset s
  | OP_put_loc2 => lower_put_loc false 2 offset s
  | OP_put_loc3 => lower_put_loc false 3 offset s
  | OP_set_loc0 => lower_put_loc true 0 offset s
  | OP_set_loc1 => lower_put_loc true 1 offset s
  | OP_set_loc2 => lower_put_loc true 2 offset s
  | OP_set_loc3 => lower_put_loc true 3 offset s
  | OP_get_arg0 => lower_get_arg 0 offset s
  | OP_get_arg1 => lower_get_arg 1 offset s
  | OP_get_arg2 => lower_get_arg 2 offset s
  | OP_get_arg3 => lower_get_arg 3 offset s
  | OP_get_field2 => lower_get_field2 offset s
  | OP_get_var | OP_get_var_undef | OP_get_var_ref | OP_get_var_ref_check
  | OP_get_var_ref0 | OP_get_var_ref1 | OP_get_var_ref2 | OP_get_var_ref3 => lower_callable_load op offset s
  | OP_add | OP_sub | OP_mul | OP_div | OP_mod | OP_lt => lower_arithmetic op offset s
  | OP_goto | OP_goto16 | OP_goto8 | OP_if_true | OP_if_false | OP_if_true8 | OP_if_false8 => lower_branch op offset s
  | OP_call_method => lower_call_method false offset s
  | OP_tail_call_method => lower_call_method true offset s
  | OP_call0 | OP_call1 | OP_call2 | OP_call3 | OP_call => lower_call op offset s
  | OP_return => lower_return offset s
  | _ => lower_default byte offset s
  end.

(** ** The translation loop *)

(** What precedes the switch at a reachable offset. *)
Definition enter_offset (sc : StackScan) (offset : Z) (s : EngineState) : Lowered EngineState :=
  if is_target (sc_targets sc) offset then
    let expected_sp := Z.to_nat (depth_at (sc_depths sc) offset) in
    cfg! s :=
      if es_fallthrough_reachable s then
        if negb (length (es_stack s) =? expected_sp)%nat then inl (incompatible_stack_state, s)
        else spill_stack_to_locals s offset
      else inr s in
    let s := es_map_offset offset s in
    cfg! s := reload_stack_from_locals s expected_sp offset in
    inr (es_set_reachable true s)
  else inr (es_map_offset offset s).

(** One turn of the loop. *)
Definition lower_one (sc : StackScan) (s : EngineState) : Lowered EngineState :=
  let offset := es_pc s in
  let s := es_set_offset offset s in
  if depth_at (sc_depths sc) offset <? 0 then
    match engine_stack_effect bc offset with
    | inl _ => inl (truncated, s)
    | inr e => inr (es_set_reachable false (es_set_pc (ef_next_offset e) s))
    end
  else
    cfg! s := enter_offset sc offset s in
    let byte := default 0 (bc_bytecode bc !! Z.to_nat offset) in
    let s := es_set_pc (offset + 1) s in
    match engine_opcode byte with
    | Some op => lower_opcode op byte offset s
    | None => lower_default byte offset s
    end.

Fixpoint lower_loop (fuel : nat) (sc : StackScan) (s : EngineState) : Lowered EngineState :=
  match fuel with
  | O => inr s
  | S fuel =>
      if es_pc s <? bc_length bc then cfg! s := lower_one sc s in lower_loop fuel sc s
      else inr s
  end.

(** ** Fixups *)

Definition in_set_target (target : Z) (i : TurboJSIRInstruction) : TurboJSIRInstruction :=
  mkInstruction (in_opcode i) (in_destination i) (in_left i) (in_right i) (in_immediate i) target (in_bytecode_offset i).

Definition f_set_target (index : nat) (target : Z) (f : TurboJSIRFunction) : TurboJSIRFunction :=
  f_set_instructions f (alter (in_set_target target) index (f_instructions f)) (f_instruction_capacity f).

Fixpoint apply_fixups (fixups : list (nat * Z)) (s : EngineState) : Lowered EngineState :=
  match fixups with
  | [] => inr s
  | (index, target) :: fixups =>
      let ir := default SIZE_MAX (es_bytecode_to_ir s !! Z.to_nat target) in
      if ir =? SIZE_MAX then inl (invalid_branch_target, s)
      else apply_fixups fixups (es_set_out (f_set_target index (uwrap 32 ir) (es_out s)) s)
  end.

(** ** The function *)

Inductive EngineResult :=
  | EngineFailed (d : TurboJSIRDiagnostic) (events : list RootEvent)
  | EngineLowered (f : TurboJSIRFunction).

(** The error labels destroy the output. *)
Definition fail_lowering (e : EngineError) (offset : Z) (s : EngineState) : EngineResult :=
  EngineFailed (mkDiagnostic e.1 offset e.2) (es_events s ++ (TurboJS_IRFunctionDestroy (es_out s)).2).

Definition scan_error (st : TurboJSIRStatus) : EngineError :=
  match st with
  | TURBOJS_IR_UNSUPPORTED => incompatible_stack_state
  | TURBOJS_IR_INVALID_TARGET => invalid_branch_target
  | TURBOJS_IR_OUT_OF_MEMORY => out_of_memory
  | _ => truncated
  end.

Definition engine_initial (next : Z) : EngineState :=
  let f := (TurboJS_IRFunctionInit next (bc_argument_count bc)).1 in
  let f := TurboJS_IRFunctionSetLocalCount f (uwrap 16 (bc_local_count bc + bc_stack_size bc)) in
  let f := mkFunction (f_instructions f) (f_instruction_capacity f) (f_register_count f) (f_argument_count f) (f_local_count f)
             (bc_local_count bc) (f_register_kind_hints f) (f_local_kind_hints f) (f_owned_clutch_sites f)
             (f_owned_clutch_site_capacity f) (f_owned_callable_references f) (f_owned_callable_reference_capacity f)
             (f_instance_id f) (f_revision f) in
  mkEngine f [] 0 0 false true (replicate (S (length (bc_bytecode bc))) SIZE_MAX) []
    (replicate (Z.to_nat TURBOJS_IR_MAX_REGISTERS) (0, 0)) [].

(** Everything after the depths are known, up to the verifier. *)
Definition lower_function (sc : StackScan) (s : EngineState) : Lowered EngineState :=
  if bc_stack_size bc <? sc_maximum sc then inl (stack_overflow, s)
  else
    cfg! s := lower_loop (length (bc_bytecode bc)) sc s in
    if negb (es_saw_return s)
    then inl ((TURBOJS_IR_MISSING_RETURN, "engine bytecode has no supported return"), es_set_offset (es_pc s) s)
    else apply_fixups (es_fixups s) (es_map_offset (bc_length bc) s).

(** [None] is the verifier following a wild call-site address. *)
Definition TurboJS_EngineBytecodeToIR (hp : Heap) (next : Z) : option EngineResult :=
  if (TURBOJS_IR_MAX_REGISTERS <? bc_argument_count bc) || (TURBOJS_IR_MAX_REGISTERS <? bc_stack_size bc)
     || (TURBOJS_IR_MAX_REGISTERS <? bc_local_count bc + bc_stack_size bc)
  then Some (EngineFailed (mkDiagnostic TURBOJS_IR_INVALID_REGISTER 0 "engine bytecode exceeds baseline frame limits") [])
  else
    let s := engine_initial next in
    if negb (enm_maps mem) then Some (fail_lowering out_of_memory 0 s)
    else match analyze_stack_depths (enm_worklist mem) bc with
    | inl (st, bad_offset) => Some (fail_lowering (scan_error st) bad_offset s)
    | inr sc =>
        match lower_function sc s with
        | inl (e, s) => Some (fail_lowering e (es_offset s) s)
        | inr s =>
            let? d := TurboJS_IRVerify (with_sites hp site_address (f_owned_clutch_sites (es_out s))) (es_out s) in
            match dg_status d with
            | TURBOJS_IR_OK => Some (EngineLowered (es_out s))
            | _ => Some (EngineFailed d (es_events s ++ (TurboJS_IRFunctionDestroy (es_out s)).2))
            end
        end
    end.
End Lowering.
