(* ===== verification/EngineScan.v ===== *)
(** * Stack depths of the translation to IR

    [analyze_stack_depths] of engine_bytecode_to_ir.c finds a depth for every
    offset control can reach: [ScanOk] says that the depths are closed under
    the stack effects of the instructions, that branch targets are marked, and
    that no depth exceeds the maximum.  [ScanState] is the invariant of the
    worklist; an offset enters it once, so the fuel is enough. *)

From S2P Require Import Prelude.
From S2P Require Import JitTypes.
From S2P Require Import EngineOpcodes.
From S2P Require Import BytecodeCfg.
From S2P Require Import EngineToIR.

(** What the stack effect of a visited offset demands of the scan. *)
Definition effect_closed (bc : TurboJSEngineBytecodeInfo) (sc : StackScan) (offset : Z) : Prop :=
  exists e, engine_stack_effect bc offset = inr e /\
    let d := depth_at (sc_depths sc) offset in
    let out := d - ef_pop_count e + ef_push_count e in
    ef_pop_count e <= d /\ out <= sc_maximum sc /\
    (forall t, ef_branch_target e = Some t -> is_target (sc_targets sc) t = true /\ depth_at (sc_depths sc) t = out) /\
    (ef_has_fallthrough e = true -> ef_next_offset e < bc_length bc -> depth_at (sc_depths sc) (ef_next_offset e) = out).

Record ScanOk (bc : TurboJSEngineBytecodeInfo) (sc : StackScan) : Prop := {
  so_entry : depth_at (sc_depths sc) 0 = 0;
  so_closed offset : 0 <= offset < bc_length bc -> 0 <= depth_at (sc_depths sc) offset -> effect_closed bc sc offset;
  so_maximum offset : 0 <= offset < bc_length bc -> depth_at (sc_depths sc) offset <= sc_maximum sc
}.

(** Effects are counts, and targets are inside the bytecode. *)
Lemma opcode_effect_counts op offset p e :
  opcode_effect op offset p = Some e ->
  0 <= ef_pop_count e /\ 0 <= ef_push_count e /\ ef_next_offset e = offset + opcode_size op /\
  (forall t, ef_branch_target e = Some t -> 0 <= t).
Proof.
  pose proof (opcode_info_bounds op) as (_&Hpop&Hpush).
  assert (forall w n, 0 <= w -> 0 <= uwrap w n) as Hu by (intros w n Hw; apply (uwrap_is_u w n Hw)).
  unfold opcode_effect. rewrite (proj2 (Z.ltb_ge _ _)), (proj2 (Z.ltb_ge (opcode_push op) _)) by lia. cbn [orb].
  destruct op; intros [= <-]; cbn; (split; [first [lia|apply Hu; lia]|split; [lia|split; [reflexivity|]]]);
    intros t; first [discriminate | intros [= <-]; apply Hu; lia].
Qed.

Lemma stack_effect_inr bc offset e :
  engine_stack_effect bc offset = inr e ->
  0 <= ef_pop_count e /\ 0 <= ef_push_count e /\ offset < ef_next_offset e <= bc_length bc /\
  (forall t, ef_branch_target e = Some t -> 0 <= t < bc_length bc).
Proof.
  unfold engine_stack_effect. destruct (_ <=? offset) eqn:Hlt; [done|]. destruct (_ ≫= _) as [op|]; [|done].
  destruct (_ || _) eqn:Hs; [done|]. destruct (opcode_effect op _ _) as [e'|] eqn:He; [|done]. b2p.
  destruct (opcode_effect_counts _ _ _ _ He) as (?&?&Hnext&Hb0). pose proof (opcode_info_bounds op) as (?&_).
  destruct (ef_branch_target e') as [t|] eqn:Hb.
  - destruct (_ <=? t) eqn:Hr; [done|]. b2p. intros [= <-]. split_and!; auto; try lia. intros t' Ht'. rewrite Hb in Ht'.
    injection Ht' as <-. specialize (Hb0 t eq_refl). lia.
  - intros [= <-]. split_and!; auto; try lia. intros t' Ht'. congruence.
Qed.

(** ** The worklist *)

(** A scan grows: depths once found stay. *)
Record scan_le (sc sc' : StackScan) : Prop := {
  sl_depths o : 0 <= depth_at (sc_depths sc) o -> depth_at (sc_depths sc') o = depth_at (sc_depths sc) o;
  sl_targets o : is_target (sc_targets sc) o = true -> is_target (sc_targets sc') o = true;
  sl_maximum : sc_maximum sc <= sc_maximum sc'
}.

#[export] Instance scan_le_preorder : PreOrder scan_le.
Proof.
  split; [by intros sc; split; auto; lia|].
  intros a b c [H1 H2 H3] [K1 K2 K3]. split; [|auto|lia]. intros o Ho. rewrite K1; [by apply H1|]. by rewrite H1.
Qed.

Lemma effect_closed_mono bc sc sc' o :
  scan_le sc sc' -> 0 <= depth_at (sc_depths sc) o -> effect_closed bc sc o -> effect_closed bc sc' o.
Proof.
  intros [H1 H2 H3] Hd (e&He&Hpop&Hmax&Hb&Hf). destruct (stack_effect_inr _ _ _ He) as (?&?&_&_).
  exists e. split; [done|]. cbv zeta. rewrite (H1 o Hd). split_and!; auto; [lia| |].
  - intros t Ht. destruct (Hb t Ht) as [Htt Htd]. split; [by apply H2|]. rewrite H1; [done|]. rewrite Htd. lia.
  - intros Hft Hn. specialize (Hf Hft Hn). rewrite H1; [done|]. rewrite Hf. lia.
Qed.

Lemma depth_at_insert depths o v o' :
  0 <= o -> 0 <= o' -> (Z.to_nat o < length depths)%nat ->
  depth_at (<[Z.to_nat o := v]> depths) o' = if decide (o' = o) then v else depth_at depths o'.
Proof.
  intros Ho Ho' Hl. unfold depth_at. destruct (decide (o' = o)) as [->|Hne]; [by rewrite list_lookup_insert_eq|].
  rewrite list_lookup_insert_ne; [done|lia].
Qed.

(** Offsets below zero read as offset 0 in [depth_at]; the worklist has none. *)
Lemma merge_successor_spec out succ sc queue sc' queue' :
  0 <= out -> 0 <= succ -> (Z.to_nat succ < length (sc_depths sc))%nat ->
  merge_successor out succ (sc, queue) = inr (sc', queue') ->
  scan_le sc sc' /\ sc_targets sc' = sc_targets sc /\ sc_maximum sc' = sc_maximum sc /\
  length (sc_depths sc') = length (sc_depths sc) /\ depth_at (sc_depths sc') succ = out /\
  exists new, queue' = queue ++ new /\ (new = [] \/ new = [succ] /\ depth_at (sc_depths sc) succ < 0) /\
    forall o, 0 <= o -> o ∉ new -> depth_at (sc_depths sc') o = depth_at (sc_depths sc) o.
Proof.
  intros Hout Hs Hl. unfold merge_successor. destruct (_ <? 0) eqn:Hneg; b2p.
  - intros [= <- <-]. simpl.
    assert (forall o, 0 <= o -> o <> succ -> depth_at (<[Z.to_nat succ := out]> (sc_depths sc)) o = depth_at (sc_depths sc) o) as Hk
      by (intros o Ho Hne; rewrite depth_at_insert by done; by rewrite decide_False).
    split_and!; auto.
    + split; simpl; auto; [|lia]. intros o Ho. destruct (decide (Z.to_nat o = Z.to_nat succ)) as [He|Hne].
      * unfold depth_at in Ho, Hneg. rewrite He in Ho. lia.
      * unfold depth_at. by rewrite list_lookup_insert_ne.
    + by rewrite length_insert.
    + rewrite depth_at_insert by done. by rewrite decide_True.
    + exists [succ]. split_and!; auto. intros o Ho Hn. apply Hk; set_solver.
  - destruct (_ =? out) eqn:He; [|done]. b2p. intros [= <- <-]. split_and!; auto; [reflexivity|].
    exists []. rewrite app_nil_r. split_and!; auto.
Qed.

Section Scan.
Context (bc : TurboJSEngineBytecodeInfo).
Notation n := (length (bc_bytecode bc)).

(** [seen] are the offsets that entered the worklist. *)
Record ScanState (seen : list Z) (sc : StackScan) : Prop := {
  ss_depths : length (sc_depths sc) = S n;
  ss_targets : length (sc_targets sc) = S n;
  ss_nodup : NoDup seen;
  ss_visited o : 0 <= o -> 0 <= depth_at (sc_depths sc) o <-> o ∈ seen;
  ss_range o : o ∈ seen -> 0 <= o <= bc_length bc;
  ss_bound o : 0 <= o -> depth_at (sc_depths sc) o <= sc_maximum sc;
  ss_zero : depth_at (sc_depths sc) 0 = 0
}.

Lemma ScanState_mark seen sc t :
  ScanState seen sc -> ScanState seen (mkScan (sc_depths sc) (<[Z.to_nat t := true]> (sc_targets sc)) (sc_maximum sc)).
Proof. intros [H1 H2 H3 H4 H5 H6 H7]. split; auto. simpl. by rewrite length_insert. Qed.

Lemma ScanState_maximum seen sc m :
  ScanState seen sc -> sc_maximum sc <= m -> ScanState seen (mkScan (sc_depths sc) (sc_targets sc) m).
Proof. intros [H1 H2 H3 H4 H5 H6 H7] Hm. split; auto. simpl. intros o Ho. specialize (H6 o Ho). lia. Qed.

Lemma ScanState_merge seen sc queue out succ sc' queue' :
  ScanState seen sc -> 0 <= out <= sc_maximum sc -> 0 <= succ < bc_length bc ->
  merge_successor out succ (sc, queue) = inr (sc', queue') ->
  exists new, queue' = queue ++ new /\ ScanState (seen ++ new) sc' /\ scan_le sc sc' /\
    depth_at (sc_depths sc') succ = out /\ sc_targets sc' = sc_targets sc /\ sc_maximum sc' = sc_maximum sc.
Proof.
  intros [H1 H2 H3 H4 H5 H6 H7] Hout Hs Hm. unfold bc_length in *.
  apply merge_successor_spec in Hm as (Hle&Ht&Hmx&Hlen&Hd&new&->&Hnew&Hold); [|lia..].
  exists new. split_and!; auto. split; try congruence.
  - apply NoDup_app. split_and!; auto.
    + intros o Ho Hn. destruct Hnew as [->|[-> Hneg]]; [by apply not_elem_of_nil in Hn|].
      apply list_elem_of_singleton in Hn as ->. apply H4 in Ho; lia.
    + destruct Hnew as [->|[-> _]]; [constructor|apply NoDup_singleton].
  - intros o Ho. rewrite elem_of_app. destruct (decide (o ∈ new)) as [Hin|Hni].
    + destruct Hnew as [->|[-> _]]; [by apply not_elem_of_nil in Hin|]. pose proof Hin as ->%list_elem_of_singleton.
      rewrite Hd. split; [auto|lia].
    + rewrite (Hold o Ho Hni), (H4 o Ho). tauto.
  - intros o [Ho|Ho]%elem_of_app; [by apply H5|]. destruct Hnew as [->|[-> _]]; [by apply not_elem_of_nil in Ho|].
    apply list_elem_of_singleton in Ho as ->. unfold bc_length. lia.
  - intros o Ho. rewrite Hmx. destruct (decide (o ∈ new)) as [Hin|Hni]; [|rewrite Hold by done; auto].
    destruct Hnew as [->|[-> _]]; [by apply not_elem_of_nil in Hin|]. apply list_elem_of_singleton in Hin as ->. lia.
  - rewrite <-H7 at 2. apply (sl_depths _ _ Hle). lia.
Qed.

Lemma scan_one_spec seen sc offset queue sc' queue' :
  ScanState seen sc -> offset ∈ seen -> scan_one bc offset sc queue = inr (sc', queue') ->
  exists new, queue' = queue ++ new /\ ScanState (seen ++ new) sc' /\ scan_le sc sc' /\ effect_closed bc sc' offset.
Proof.
  intros HS Hin. unfold scan_one. destruct (engine_stack_effect bc offset) as [|e] eqn:He; [done|].
  destruct (stack_effect_inr _ _ _ He) as (Hpop&Hpush&Hnext&Htarget). pose proof (ss_range _ _ HS _ Hin) as Hr.
  assert (0 <= depth_at (sc_depths sc) offset) as Hd by (apply (ss_visited _ _ HS); [lia|done]).
  destruct (_ <? ef_pop_count e) eqn:Hu; [done|]. b2p. set (out := _ - _ + _).
  set (sc1 := mkScan (sc_depths sc) (sc_targets sc) (if sc_maximum sc <? out then out else sc_maximum sc)).
  assert (ScanState seen sc1 /\ out <= sc_maximum sc1 /\ scan_le sc sc1) as (HS1&Hout&Hle1).
  { assert (sc_maximum sc <= sc_maximum sc1 /\ out <= sc_maximum sc1) as [? ?]
      by (unfold sc1; simpl; destruct (_ <? out) eqn:?; b2p; lia).
    split_and!; [by apply ScanState_maximum|done|]. split; auto. }
  assert (0 <= out) by (unfold out; lia). clearbody sc1.
  destruct (match ef_branch_target e with Some t => _ | None => _ end) as [|[sc2 queue2]] eqn:Hbr; [done|].
  assert (exists new, queue2 = queue ++ new /\ ScanState (seen ++ new) sc2 /\ scan_le sc sc2 /\ sc_maximum sc2 = sc_maximum sc1 /\
    (forall t, ef_branch_target e = Some t -> is_target (sc_targets sc2) t = true /\ depth_at (sc_depths sc2) t = out))
    as (new1&->&HS2&Hle2&Hmax2&Hb2).
  { destruct (ef_branch_target e) as [t|] eqn:Ht.
    - specialize (Htarget t eq_refl).
      apply (ScanState_merge seen _ _ _ _ _ _ (ScanState_mark _ _ t HS1)) in Hbr as (new&->&HS2&Hle2&Hdt&Htt&Hmx); simpl; [|lia|done].
      exists new. split_and!; auto.
      + etrans; [exact Hle1|]. etrans; [|exact Hle2]. split; simpl; auto; [|lia]. intros o. unfold is_target.
        destruct (decide (Z.to_nat t = Z.to_nat o)) as [->|Hne]; [|by rewrite list_lookup_insert_ne].
        destruct (decide (Z.to_nat o < length (sc_targets sc1))%nat); [by rewrite list_lookup_insert_eq|by rewrite list_insert_ge by lia].
      + intros t' [= <-]. split; [|done]. rewrite Htt. simpl. unfold is_target.
        rewrite list_lookup_insert_eq; [done|]. rewrite (ss_targets _ _ HS1). unfold bc_length in *. lia.
    - injection Hbr as <- <-. exists []. rewrite !app_nil_r. split_and!; auto. done. }
  destruct (ef_has_fallthrough e && _) eqn:Hf.
  - b2p. intros Hm. apply (ScanState_merge _ _ _ _ _ _ _ HS2) in Hm as (new2&->&HS3&Hle3&Hdn&Htt&Hmx); [|lia|lia].
    exists (new1 ++ new2). rewrite !app_assoc. split_and!; auto; [by etrans|]. exists e. split; [done|]. cbv zeta.
    assert (scan_le sc sc') as Hle by by etrans. rewrite (sl_depths _ _ Hle _ Hd). fold out. split_and!; auto; [lia|].
    intros t Ht. destruct (Hb2 t Ht) as [Htt2 Hdt2]. split; [by rewrite Htt|]. rewrite (sl_depths _ _ Hle3); [done|lia].
  - intros [= <- <-]. exists new1. split_and!; auto. exists e. split; [done|]. cbv zeta.
    rewrite (sl_depths _ _ Hle2 _ Hd). fold out. split_and!; auto; [lia|]. intros Hft Hlt. rewrite Hft in Hf. simpl in Hf. b2p. lia.
Qed.

Lemma scan_loop_spec fuel finished queue sc sc' :
  ScanState (finished ++ queue) sc -> (forall o, o ∈ finished -> effect_closed bc sc o) ->
  (S n <= fuel + length finished)%nat -> scan_loop fuel bc sc queue = inr sc' ->
  exists seen, ScanState seen sc' /\ forall o, o ∈ seen -> effect_closed bc sc' o.
Proof.
  revert finished queue sc. induction fuel as [|fuel IH]; intros finished queue sc HS Hcl Hfuel; simpl.
  - intros [= <-]. exists finished. destruct queue as [|q queue]; [by rewrite app_nil_r in HS|]. exfalso.
    pose proof (ss_nodup _ _ HS) as Hnd.
    assert (finished ++ q :: queue ⊆+ (Z.of_nat <$> seq 0 (S n))) as Hl%submseteq_length.
    { apply NoDup_submseteq; [done|]. intros o Ho%(ss_range _ _ HS). unfold bc_length in Ho. apply list_elem_of_fmap.
      exists (Z.to_nat o). split; [lia|]. apply elem_of_seq. lia. }
    rewrite length_app, length_fmap, length_seq in Hl. simpl in Hl. lia.
  - destruct queue as [|o queue]; [intros [= <-]; exists finished; by rewrite app_nil_r in HS|].
    destruct (scan_one bc o sc queue) as [|[sc1 queue1]] eqn:H1; [done|]. intros Hloop.
    destruct (scan_one_spec _ _ o _ _ _ HS ltac:(set_solver) H1) as (new&->&HS1&Hle&Ho).
    apply (IH (finished ++ [o]) (queue ++ new) sc1); auto.
    + by rewrite <-!app_assoc in *.
    + intros o' [Hin| ->%list_elem_of_singleton]%elem_of_app; [|done].
      eapply effect_closed_mono; [exact Hle| |by apply Hcl].
      apply (ss_visited _ _ HS); [|set_solver]. apply (ss_range _ _ HS). set_solver.
    + rewrite length_app. simpl. lia.
Qed.

(** The pass establishes the closure. *)
Lemma analyze_stack_depths_ok wm sc : analyze_stack_depths wm bc = inr sc -> ScanOk bc sc.
Proof.
  unfold analyze_stack_depths. destruct wm; [|done]. intros H.
  assert (ScanState [0] (scan_initial bc)) as HS0.
  { assert (forall o, 0 <= o -> depth_at (sc_depths (scan_initial bc)) o = if decide (o = 0) then 0 else -1) as Hd.
    { intros o Ho. unfold depth_at, scan_initial. simpl. destruct (decide (o = 0)) as [->|]; [done|].
      replace (Z.to_nat o) with (S (Z.to_nat (o - 1))) by lia. simpl.
      destruct (replicate _ _ !! _) eqn:Hr; [|done]. by apply lookup_replicate_1 in Hr as [-> _]. }
    split.
    - simpl. by rewrite length_replicate.
    - simpl. by rewrite length_replicate.
    - apply NoDup_singleton.
    - intros o Ho. rewrite (Hd o Ho), list_elem_of_singleton. case_decide; lia.
    - intros o ->%list_elem_of_singleton. unfold bc_length. lia.
    - intros o Ho. rewrite (Hd o Ho). simpl. case_decide; lia.
    - by rewrite Hd. }
  apply (scan_loop_spec _ [] [0]) in H as (seen&HS&Hcl); [|done|by intros o Ho%not_elem_of_nil|simpl; lia].
  split; [apply (ss_zero _ _ HS)| |intros o Ho; apply (ss_bound _ _ HS); lia].
  intros o Ho Hd. apply Hcl, (ss_visited _ _ HS); [lia|done].
Qed.
End Scan.
