(* ===== verification/EngineEmit.v ===== *)
(** * The machines of the translation to IR, and what the translation emits

    The reference is an operand-stack machine that runs the bytecode of a
    numeric function: constants, arguments, locals, arithmetic, branches and
    returns; every other opcode leaves to the runtime.  In the INT32 mode
    numbers are 32-bit integers, division is that of integers, and a result
    outside 32 bits leaves too; in the FLOAT64 mode numbers are doubles, as
    bit patterns.  Locals start at 0.

    The IR machine is that of [IRInterp], but reads an argument anywhere, as
    compiled code does.  (The portable interpreter reads arguments at the
    start of a function only.)

    The lemmas say which instructions the steps of the translation append,
    by kind of opcode.  Without resolvers the translation has no calls. *)

From S2P Require Import Prelude.
From S2P Require Import JitTypes.
From S2P Require Import Clutch.
From S2P Require Import IR.
From S2P Require Import IRVerify.
From S2P Require Import Float64.
From S2P Require Import IRInterp.
From S2P Require Import CallableSpecialize.
From S2P Require Import EngineOpcodes.
From S2P Require Import BytecodeCfg.
From S2P Require Import EngineToIR.
From S2P Require Import EngineScan.

(** ** The operand-stack machine *)

Record EngineConf := mkConf { ec_pc : Z; ec_stack : list Z; ec_locals : list Z }.

Inductive EngineOut := ENext (c : EngineConf) | EDone (o : Outcome) | EStuck.

(** A result outside the 32-bit integers, and a division by zero, leave. *)
Definition int32_result (v : option Z) : Outcome + Z :=
  match v with
  | Some v => if in_i32 v then inr v else inl (Stop TURBOJS_IR_BAILOUT)
  | None => inl (Stop TURBOJS_IR_BAILOUT)
  end.

Definition engine_arithmetic (mode : TurboJSEngineNumericMode) (op : EngineOpcode) (l r : Z) : Outcome + Z :=
  match mode with
  | TURBOJS_ENGINE_NUMERIC_INT32 =>
      match op with
      | OP_add => int32_result (Some (l + r))
      | OP_sub => int32_result (Some (l - r))
      | OP_mul => int32_result (Some (l * r))
      | OP_div => int32_result (if r =? 0 then None else Some (Z.quot l r))
      | OP_mod => int32_result (if r =? 0 then None else Some (Z.rem l r))
      | _ => inr (b2z (l <? r))
      end
  | TURBOJS_ENGINE_NUMERIC_FLOAT64 =>
      match op with
      | OP_add => inr (f64_add l r)
      | OP_sub => inr (f64_sub l r)
      | OP_mul => inr (f64_mul l r)
      | OP_div => inr (f64_div l r)
      | _ => inl (Stop TURBOJS_IR_BAILOUT)
      end
  end.

Definition engine_constant (mode : TurboJSEngineNumericMode) (v : Z) : Z :=
  match mode with TURBOJS_ENGINE_NUMERIC_INT32 => v | TURBOJS_ENGINE_NUMERIC_FLOAT64 => f64_of_i64 v end.

Definition engine_truth (mode : TurboJSEngineNumericMode) (v : Z) : bool :=
  match mode with TURBOJS_ENGINE_NUMERIC_INT32 => negb (v =? 0) | TURBOJS_ENGINE_NUMERIC_FLOAT64 => f64_truthy v end.

Section Machine.
Context (bc : TurboJSEngineBytecodeInfo) (args : list Z) (c : EngineConf).

Definition epush (next : Z) (v : option Z) : EngineOut :=
  match v with Some v => ENext (mkConf next (ec_stack c ++ [v]) (ec_locals c)) | None => EStuck end.

Definition estore (next : Z) (keep : bool) (i : Z) : EngineOut :=
  match pop (ec_stack c) with
  | Some (rest, v) => ENext (mkConf next (if keep then ec_stack c else rest) (<[Z.to_nat i := v]> (ec_locals c)))
  | None => EStuck
  end.

Definition ebinary (next : Z) (op : EngineOpcode) : EngineOut :=
  match pop (ec_stack c) with
  | Some (stack, r) =>
      match pop stack with
      | Some (stack, l) =>
          match engine_arithmetic (bc_numeric_mode bc) op l r with
          | inl o => EDone o
          | inr v => ENext (mkConf next (stack ++ [v]) (ec_locals c))
          end
      | None => EStuck
      end
  | None => EStuck
  end.

(** [condition] is the truth value to branch on; none jumps always. *)
Definition ebranch (next target : Z) (condition : option bool) : EngineOut :=
  match condition with
  | None => ENext (mkConf target (ec_stack c) (ec_locals c))
  | Some b =>
      match pop (ec_stack c) with
      | Some (rest, v) => ENext (mkConf (if Bool.eqb (engine_truth (bc_numeric_mode bc) v) b then target else next) rest (ec_locals c))
      | None => EStuck
      end
  end.

Definition engine_step : EngineOut :=
  if bc_length bc <=? ec_pc c then EDone (Stop TURBOJS_IR_MISSING_RETURN)
  else match bc_bytecode bc !! Z.to_nat (ec_pc c) ≫= engine_opcode with
  | None => EDone (Stop TURBOJS_IR_BAILOUT)
  | Some op =>
      let p := operand_of bc (ec_pc c) in
      let next := ec_pc c + opcode_size op in
      let local i := epush next (ec_locals c !! Z.to_nat i) in
      let argument i := epush next (args !! Z.to_nat i) in
      let to d := ec_pc c + 1 + d in
      match op with
      | OP_nop => ENext (mkConf next (ec_stack c) (ec_locals c))
      | OP_push_i32 => epush next (Some (engine_constant (bc_numeric_mode bc) (read_i32 p)))
      | OP_get_arg => argument (read_u16 p)
      | OP_get_arg0 => argument 0 | OP_get_arg1 => argument 1 | OP_get_arg2 => argument 2 | OP_get_arg3 => argument 3
      | OP_get_loc => local (read_u16 p)
      | OP_get_loc8 => local (read_u8 p)
      | OP_get_loc0 => local 0 | OP_get_loc1 => local 1 | OP_get_loc2 => local 2 | OP_get_loc3 => local 3
      | OP_put_loc => estore next false (read_u16 p)
      | OP_put_loc8 => estore next false (read_u8 p)
      | OP_put_loc0 => estore next false 0 | OP_put_loc1 => estore next false 1
      | OP_put_loc2 => estore next false 2 | OP_put_loc3 => estore next false 3
      | OP_set_loc => estore next true (read_u16 p)
      | OP_set_loc8 => estore next true (read_u8 p)
      | OP_set_loc0 => estore next true 0 | OP_set_loc1 => estore next true 1
      | OP_set_loc2 => estore next true 2 | OP_set_loc3 => estore next true 3
      | OP_add | OP_sub | OP_mul | OP_div | OP_mod | OP_lt => ebinary next op
      | OP_goto => ebranch next (to (read_i32 p)) None
      | OP_goto16 => ebranch next (to (read_i16 p)) None
      | OP_goto8 => ebranch next (to (swrap 8 (read_u8 p))) None
      | OP_if_true => ebranch next (to (read_i32 p)) (Some true)
      | OP_if_false => ebranch next (to (read_i32 p)) (Some false)
      | OP_if_true8 => ebranch next (to (swrap 8 (read_u8 p))) (Some true)
      | OP_if_false8 => ebranch next (to (swrap 8 (read_u8 p))) (Some false)
      | OP_return => match pop (ec_stack c) with Some (_, v) => EDone (Result v) | None => EStuck end
      | _ => EDone (Stop TURBOJS_IR_BAILOUT)
      end
  end.
End Machine.

(** Running to the end. *)
Inductive engine_run (bc : TurboJSEngineBytecodeInfo) (args : list Z) : EngineConf -> Outcome -> Prop :=
  | engine_run_done c o : engine_step bc args c = EDone o -> engine_run bc args c o
  | engine_run_next c c' o : engine_step bc args c = ENext c' -> engine_run bc args c' o -> engine_run bc args c o.

Definition engine_start (bc : TurboJSEngineBytecodeInfo) : EngineConf :=
  mkConf 0 [] (replicate (Z.to_nat (bc_local_count bc)) 0).

(** ** The IR machine *)

Section IRMachine.
Context (hp : Heap) (native_i64 native_f64 : Z -> list Z -> TurboJSIRStatus * Z) (f : TurboJSIRFunction) (args : list Z).

Definition ir_step (i : TurboJSIRInstruction) (regs locals : list Z) (pc : nat) : StepOut :=
  if decide (in_opcode i = TURBOJS_IR_ARGUMENT)
  then rd args (in_immediate i) (fun v => wr regs (in_destination i) v (fun regs => Next regs locals (S pc)))
  else execute_step hp native_i64 native_f64 f i regs locals pc.

Definition IRState : Type := list Z * list Z * nat.

Definition ir_next (s s' : IRState) : Prop :=
  let '(regs, locals, pc) := s in
  exists i, f_instructions f !! pc = Some i /\ ir_step i regs locals pc = Next s'.1.1 s'.1.2 s'.2.

Definition ir_ends (s : IRState) (o : Outcome) : Prop :=
  let '(regs, locals, pc) := s in
  match f_instructions f !! pc with
  | None => o = Stop TURBOJS_IR_MISSING_RETURN
  | Some i => ir_step i regs locals pc = Halt o
  end.

Definition ir_run (s : IRState) (o : Outcome) : Prop := exists s', rtc ir_next s s' /\ ir_ends s' o.

Lemma ir_run_after s s' o : rtc ir_next s s' -> ir_run s' o -> ir_run s o.
Proof. intros H (s''&H'&Ho). exists s''. split; [by etrans|done]. Qed.
End IRMachine.

(** ** What the steps of the translation emit *)

Definition lcode (s : EngineState) : list TurboJSIRInstruction := f_instructions (es_out s).
Definition lregs (s : EngineState) : Z := f_register_count (es_out s).

Lemma pop_Some (l : list Z) rest r : pop l = Some (rest, r) <-> l = rest ++ [r].
Proof.
  unfold pop. split.
  - destruct (rev l) as [|x t] eqn:Hr; [done|]. intros [= <- <-]. rewrite <-(rev_involutive l), Hr. done.
  - intros ->. rewrite rev_app_distr. simpl. by rewrite rev_involutive.
Qed.

Lemma pop_None (l : list Z) : pop l = None <-> l = [].
Proof.
  unfold pop. split; [|by intros ->]. destruct (rev l) as [|x t] eqn:Hr; [|done]. intros _.
  by rewrite <-(rev_involutive l), Hr.
Qed.

Section Emission.
Context (mem : EngineMemory) (bc : TurboJSEngineBytecodeInfo).

Lemma emit_inr s i s' : emit mem s i = inr s' ->
  exists f, s' = es_set_out f s /\ f_instructions f = lcode s ++ [i] /\ f_register_count f = lregs s.
Proof.
  unfold emit, TurboJS_IREmit. destruct (_ && _); [done|]. intros [= <-]. eexists. split; [done|]. done.
Qed.

Lemma new_register_inr e s s' r : new_register e s = inr (s', r) ->
  exists f, s' = es_set_out f s /\ f_instructions f = lcode s /\ f_register_count f = lregs s + 1 /\ r = lregs s /\ lregs s < 64.
Proof.
  unfold new_register, TurboJS_IRAllocateRegister, lregs, lcode, TURBOJS_IR_MAX_REGISTERS.
  destruct (64 <=? _) eqn:Hl; [done|]. b2p. destruct (_ =? NOREG); [done|]. intros [= <- <-]. eexists. split_and!; done.
Qed.

Lemma es_set_out_out f f' s : es_set_out f (es_set_out f' s) = es_set_out f s.
Proof. done. Qed.

(** The result of an instruction is pushed in a new register. *)
Lemma push_instruction_inr op imm offset s s' : push_instruction mem op imm offset s = inr s' ->
  exists f, s' = es_set_stack (es_stack s ++ [lregs s]) (es_set_out f s) /\ lregs s < 64 /\
    f_instructions f = lcode s ++ [fresh_instruction op (lregs s) NOREG NOREG imm offset] /\ f_register_count f = lregs s + 1.
Proof.
  unfold push_instruction. destruct (new_register _ s) as [|[s1 r]] eqn:Hr; [done|].
  destruct (new_register_inr _ _ _ _ Hr) as (f&->&Hc&Hn&->&Hlt). destruct (emit _ _ _) as [|s2] eqn:He; [done|].
  destruct (emit_inr _ _ _ He) as (f2&->&Hc2&Hn2). unfold push_register. destruct (_ <=? _); [done|]. intros [= <-].
  exists f2. split_and!; auto; [|unfold lregs in *; simpl in *; congruence]. rewrite Hc2. unfold lcode at 1. simpl. by rewrite Hc.
Qed.

(** Spilling: one store per stack entry. *)
Definition spill_code (i : nat) (regs : list Z) (offset : Z) : list TurboJSIRInstruction :=
  imap (fun j r => fresh_instruction TURBOJS_IR_LOCAL_SET NOREG r NOREG (bc_local_count bc + Z.of_nat (i + j)) offset) regs.

Lemma spill_loop_inr i regs offset s s' : spill_loop mem bc i regs offset s = inr s' ->
  exists f, s' = es_set_out f s /\ f_instructions f = lcode s ++ spill_code i regs offset /\ f_register_count f = lregs s.
Proof.
  revert i s. induction regs as [|r regs IH]; intros i s; simpl.
  - intros [= <-]. exists (es_out s). split_and!; [by destruct s|by rewrite app_nil_r|done].
  - destruct (emit _ _ _) as [|s1] eqn:He; [done|]. destruct (emit_inr _ _ _ He) as (f&->&Hc&Hn).
    intros (f2&->&Hc2&Hn2)%IH. exists f2. split_and!; [done| |unfold lregs in *; simpl in *; congruence].
    rewrite Hc2. unfold lcode at 1. simpl. rewrite Hc, <-app_assoc. f_equal. unfold spill_code. simpl. rewrite Nat.add_0_r. f_equal.
    apply imap_ext. intros j x _. simpl. do 2 f_equal. lia.
Qed.

Definition reload_code (count i : nat) (reg : Z) (offset : Z) : list TurboJSIRInstruction :=
  (fun j => fresh_instruction TURBOJS_IR_LOCAL_GET (reg + Z.of_nat j) NOREG NOREG (bc_local_count bc + Z.of_nat (i + j)) offset)
    <$> seq 0 count.

Lemma reload_loop_inr count i offset s s' : reload_loop mem bc count i offset s = inr s' ->
  exists f, s' = es_set_stack (es_stack s ++ ((fun j => lregs s + Z.of_nat j) <$> seq 0 count)) (es_set_out f s) /\
    f_instructions f = lcode s ++ reload_code count i (lregs s) offset /\ f_register_count f = lregs s + Z.of_nat count /\
    (count <> 0%nat -> lregs s + Z.of_nat count <= 64).
Proof.
  revert i s. induction count as [|count IH]; intros i s; simpl.
  - intros [= <-]. exists (es_out s). rewrite !app_nil_r. split_and!; [by destruct s|done|unfold lregs; lia|done].
  - destruct (new_register _ s) as [|[s1 r]] eqn:Hr; [done|]. destruct (new_register_inr _ _ _ _ Hr) as (f&->&Hc&Hn&->&Hlt).
    destruct (emit _ _ _) as [|s2] eqn:He; [done|]. destruct (emit_inr _ _ _ He) as (f2&->&Hc2&Hn2).
    intros (f3&->&Hc3&Hn3&Hb)%IH. unfold lregs, lcode in *. simpl in *. exists f3.
    rewrite <-(fmap_S_seq 0 count), <-list_fmap_compose. rewrite Hc3, Hc2, Hc. rewrite <-!app_assoc.
    assert ((fun j => f_register_count f2 + Z.of_nat j) <$> seq 0 count =
      (fun j => f_register_count (es_out s) + Z.of_nat j) ∘ S <$> seq 0 count) as ->
      by (apply list_fmap_ext; intros k j _; unfold compose; lia).
    split_and!; [|unfold reload_code; simpl; f_equal; f_equal|lia|].
    + unfold es_set_stack, es_set_out. simpl. rewrite Z.add_0_r. reflexivity.
    + by rewrite Z.add_0_r, Nat.add_0_r.
    + rewrite <-(fmap_S_seq 0 count), <-list_fmap_compose. apply list_fmap_ext. intros k j _. unfold compose, fresh_instruction.
      f_equal; lia.
    + intros _. destruct (decide (count = 0%nat)); [lia|]. specialize (Hb ltac:(done)). lia.
Qed.
End Emission.

(** ** Opcodes by kind

    The machine and the translation treat the opcodes alike by kind. *)

Inductive NumericOp :=
  | NNop
  | NPush (v : Z)
  | NArg (i : Z)
  | NGet (i : Z)
  | NPut (keep : bool) (i : Z)
  | NArith (op : EngineOpcode)
  | NBranch (displacement : Z) (condition : option bool)
  | NReturn
  | NOther.

Definition numeric_op (op : EngineOpcode) (p : list Z) : NumericOp :=
  match op with
  | OP_nop => NNop
  | OP_push_i32 => NPush (read_i32 p)
  | OP_get_arg => NArg (read_u16 p)
  | OP_get_arg0 => NArg 0 | OP_get_arg1 => NArg 1 | OP_get_arg2 => NArg 2 | OP_get_arg3 => NArg 3
  | OP_get_loc => NGet (read_u16 p) | OP_get_loc8 => NGet (read_u8 p)
  | OP_get_loc0 => NGet 0 | OP_get_loc1 => NGet 1 | OP_get_loc2 => NGet 2 | OP_get_loc3 => NGet 3
  | OP_put_loc => NPut false (read_u16 p) | OP_put_loc8 => NPut false (read_u8 p)
  | OP_put_loc0 => NPut false 0 | OP_put_loc1 => NPut false 1 | OP_put_loc2 => NPut false 2 | OP_put_loc3 => NPut false 3
  | OP_set_loc => NPut true (read_u16 p) | OP_set_loc8 => NPut true (read_u8 p)
  | OP_set_loc0 => NPut true 0 | OP_set_loc1 => NPut true 1 | OP_set_loc2 => NPut true 2 | OP_set_loc3 => NPut true 3
  | OP_add | OP_sub | OP_mul | OP_div | OP_mod | OP_lt => NArith op
  | OP_goto => NBranch (read_i32 p) None
  | OP_goto16 => NBranch (read_i16 p) None
  | OP_goto8 => NBranch (swrap 8 (read_u8 p)) None
  | OP_if_true => NBranch (read_i32 p) (Some true)
  | OP_if_false => NBranch (read_i32 p) (Some false)
  | OP_if_true8 => NBranch (swrap 8 (read_u8 p)) (Some true)
  | OP_if_false8 => NBranch (swrap 8 (read_u8 p)) (Some false)
  | OP_return => NReturn
  | _ => NOther
  end.

Lemma engine_step_numeric bc args c op :
  ec_pc c < bc_length bc -> bc_bytecode bc !! Z.to_nat (ec_pc c) ≫= engine_opcode = Some op ->
  let next := ec_pc c + opcode_size op in
  engine_step bc args c =
    match numeric_op op (operand_of bc (ec_pc c)) with
    | NNop => ENext (mkConf next (ec_stack c) (ec_locals c))
    | NPush v => epush c next (Some (engine_constant (bc_numeric_mode bc) v))
    | NArg i => epush c next (args !! Z.to_nat i)
    | NGet i => epush c next (ec_locals c !! Z.to_nat i)
    | NPut keep i => estore c next keep i
    | NArith op => ebinary bc c next op
    | NBranch d cond => ebranch bc c next (ec_pc c + 1 + d) cond
    | NReturn => match pop (ec_stack c) with Some (_, v) => EDone (Result v) | None => EStuck end
    | NOther => EDone (Stop TURBOJS_IR_BAILOUT)
    end.
Proof.
  intros Hlt Hop. unfold engine_step. rewrite (proj2 (Z.leb_gt _ _)), Hop by done. by destruct op.
Qed.

(** The stack effect of a kind; other opcodes have one too. *)
Lemma opcode_effect_numeric op offset p :
  let next := offset + opcode_size op in
  match numeric_op op p with
  | NNop => opcode_effect op offset p = Some (mkEffect 0 0 next None true)
  | NPush _ | NArg _ | NGet _ => opcode_effect op offset p = Some (mkEffect 0 1 next None true)
  | NPut keep _ => opcode_effect op offset p = Some (mkEffect (if keep then 0 else 1) 0 next None true)
  | NArith _ => opcode_effect op offset p = Some (mkEffect 2 1 next None true)
  | NBranch d None => opcode_effect op offset p = Some (mkEffect 0 0 next (Some (uwrap 64 (offset + 1 + d))) false)
  | NBranch d (Some _) => opcode_effect op offset p = Some (mkEffect 1 0 next (Some (uwrap 64 (offset + 1 + d))) true)
  | NReturn => opcode_effect op offset p = Some (mkEffect 1 0 next None false)
  | NOther => True
  end.
Proof. by destruct op. Qed.

Section Kinds.
Context (mem : EngineMemory) (sa ra : nat -> Z) (bc : TurboJSEngineBytecodeInfo).

(** [lower_branch] behind its operand. *)
Definition lower_branch_to (displacement : Z) (condition : option bool) (offset : Z) (s : EngineState) : Lowered EngineState :=
  let target := offset + 1 + displacement in
  if (target <? 0) || (bc_length bc <=? target) then inl (invalid_branch_target, s)
  else
    cfg! (s, condition_reg) :=
      match condition with
      | Some _ => match pop (es_stack s) with
                  | None => inl (stack_underflow, s)
                  | Some (stack, r) => inr (es_set_stack stack s, r)
                  end
      | None => inr (s, NOREG)
      end in
    cfg! s := spill_stack_to_locals mem bc s offset in
    cfg! s := emit mem s (fresh_instruction (branch_opcode condition) NOREG condition_reg NOREG 0 offset) in
    if (TURBOJS_FIXUP_LIMIT <=? length (es_fixups s))%nat then inl (register_limit, s)
    else
      let s := es_add_fixup ((length (f_instructions (es_out s)) - 1)%nat, target) s in
      inr (match condition with None => es_set_reachable false s | Some _ => s end).

Definition lower_numeric (k : NumericOp) (byte offset : Z) (s : EngineState) : Lowered EngineState :=
  match k with
  | NNop => inr s
  | NPush v => push_instruction mem TURBOJS_IR_CONSTANT_I64 v offset s
  | NArg i => lower_get_arg mem bc i offset s
  | NGet i => lower_get_loc mem bc i offset s
  | NPut keep i => lower_put_loc mem bc keep i offset s
  | NArith op => lower_arithmetic mem bc op offset s
  | NBranch d condition => lower_branch_to d condition offset s
  | NReturn => lower_return mem bc offset s
  | NOther => lower_default mem bc byte offset s
  end.

Lemma es_set_pc_same s pc : es_pc s = pc -> es_set_pc pc s = s.
Proof. intros <-. by destruct s. Qed.

Lemma take_operand_inr n s s' : take_operand bc n s = inr s' -> s' = es_set_pc (es_pc s + n) s.
Proof. unfold take_operand. destruct (_ <? _); [done|]. by intros [= <-]. Qed.

(** Calls and callable loads fail without resolvers. *)
Lemma unresolved op offset s s' :
  lower_call mem no_resolvers sa bc op offset s <> inr s' /\ (forall tail, lower_call_method mem no_resolvers sa bc tail offset s <> inr s') /\
  lower_callable_load mem no_resolvers ra bc op offset s <> inr s' /\ lower_get_field2 mem no_resolvers ra bc offset s <> inr s'.
Proof.
  unfold lower_call, lower_call_method, lower_callable_load, lower_get_field2, resolve_site, no_resolvers. simpl.
  split_and!; [| |done|].
  - destruct (call_argc _ _). destruct (take_operand _ _ _); [done|]. by destruct (_ || _).
  - intros tail. destruct (take_operand _ _ _); [done|]. by destruct (_ || _).
  - destruct (take_operand _ _ _); [done|]. by destruct (_ <? _).
Qed.

Ltac operand_case Hpc :=
  match goal with
  | H : match take_operand ?b ?n ?s with inr _ => _ | inl _ => _ end = inr _ |- context [es_set_pc (?offset + opcode_size ?op)] =>
      let E := fresh in
      destruct (take_operand b n s) as [|?] eqn:E; [discriminate H|]; apply take_operand_inr in E;
      replace (es_pc s + n) with (offset + opcode_size op) in E by (rewrite Hpc; cbn; lia); subst
  end.

Lemma lower_branch_kind op offset s s' d cond :
  es_pc s = offset + 1 -> numeric_op op (operand_of bc offset) = NBranch d cond ->
  lower_branch mem bc op offset s = inr s' ->
  lower_branch_to d cond offset (es_set_pc (offset + opcode_size op) s) = inr s'.
Proof.
  intros Hpc Hop. unfold lower_branch, operand. rewrite Hpc. change (drop _ _) with (operand_of bc offset).
  intros H. destruct op; try discriminate Hop; injection Hop as <- <-; cbn [branch_operand] in H; operand_case Hpc;
    exact H.
Qed.

Lemma lower_opcode_kind op byte offset s s' :
  es_pc s = offset + 1 -> lower_opcode mem no_resolvers sa ra bc op byte offset s = inr s' ->
  match numeric_op op (operand_of bc offset) with
  | NOther => lower_default mem bc byte offset s = inr s'
  | k => lower_numeric k byte offset (es_set_pc (offset + opcode_size op) s) = inr s'
  end.
Proof.
  intros Hpc H. destruct (unresolved op offset s s') as (U1&U2&U3&U4).
  pose proof (lower_branch_kind op offset s s') as Hbr.
  assert (operand bc s = operand_of bc offset) as Hp by (unfold operand; by rewrite Hpc).
  unfold lower_opcode in H. rewrite Hp in H.
  destruct op; cbn [numeric_op] in *;
    first [ exact H | destruct (U2 _ H) | destruct (U1 H) | destruct (U3 H) | destruct (U4 H)
          | exact (Hbr _ _ Hpc eq_refl H)
          | operand_case Hpc; exact H
          | rewrite es_set_pc_same by exact Hpc; exact H ].
Qed.
End Kinds.

(** ** Growth of the output *)

(** Code, registers and fixups are added, with targets below [limit]; the map
    of offsets is kept. *)
Record Built (limit : Z) (s s' : EngineState) : Prop := {
  bu_code : lcode s `prefix_of` lcode s';
  bu_regs : lregs s <= lregs s';
  bu_map : es_bytecode_to_ir s' = es_bytecode_to_ir s;
  bu_fixups : exists l, es_fixups s' = es_fixups s ++ l /\ NoDup l.*1 /\ Forall (fun t => 0 <= t < limit) l.*2 /\
    forall k, k ∈ l.*1 -> (length (lcode s) <= k < length (lcode s'))%nat
}.

Lemma Built_code limit s s' l :
  lcode s' = lcode s ++ l -> lregs s <= lregs s' -> es_bytecode_to_ir s' = es_bytecode_to_ir s -> es_fixups s' = es_fixups s ->
  Built limit s s'.
Proof.
  intros Hc Hr Hm Hf. split; auto; [by exists l|]. exists []. rewrite app_nil_r. split_and!; auto; [constructor|].
  intros k Hk. by apply not_elem_of_nil in Hk.
Qed.

#[export] Instance Built_preorder limit : PreOrder (Built limit).
Proof.
  split.
  - intros s. apply (Built_code _ _ _ []); auto; [by rewrite app_nil_r|lia].
  - intros a b c [H1 H2 H3 (l&H4&Hn&Ht&Hr)] [K1 K2 K3 (l'&K4&Kn&Kt&Kr)].
    pose proof (prefix_length _ _ H1). pose proof (prefix_length _ _ K1).
    split; [by etrans|lia|congruence|]. exists (l ++ l'). rewrite K4, H4, app_assoc, !fmap_app. split_and!; auto.
    + apply NoDup_app. split_and!; auto. intros k Hk Hk'. apply Hr in Hk. apply Kr in Hk'. lia.
    + by apply Forall_app.
    + intros k [Hk|Hk]%elem_of_app; [apply Hr in Hk|apply Kr in Hk]; lia.
Qed.

Section Growth.
Context (mem : EngineMemory) (sa ra : nat -> Z) (bc : TurboJSEngineBytecodeInfo).

Lemma push_instruction_Built op imm offset s s' : push_instruction mem op imm offset s = inr s' -> Built (bc_length bc) s s'.
Proof.
  intros (f&->&_&Hc&Hr)%push_instruction_inr. eapply Built_code; [exact Hc| |done..]. unfold lregs in *. simpl. lia.
Qed.

Lemma put_loc_inr keep i offset s s' : lower_put_loc mem bc keep i offset s = inr s' ->
  exists rest r f, i < bc_local_count bc /\ es_stack s = rest ++ [r] /\
    s' = es_set_stack (if keep then es_stack s else rest) (es_set_out f s) /\
    f_instructions f = lcode s ++ [fresh_instruction TURBOJS_IR_LOCAL_SET NOREG r NOREG i offset] /\ f_register_count f = lregs s.
Proof.
  unfold lower_put_loc. destruct (_ <=? _) eqn:Hi; [done|]. b2p. destruct (pop _) as [[rest r]|] eqn:Hp; [|done].
  apply pop_Some in Hp. destruct (emit _ _ _) as [|s1] eqn:He; [done|]. destruct (emit_inr _ _ _ _ He) as (f&->&Hc&Hr).
  intros [= <-]. exists rest, r, f. split_and!; auto. by destruct keep, s.
Qed.

Lemma arithmetic_inr op offset s s' : lower_arithmetic mem bc op offset s = inr s' ->
  exists rest l r irop f, es_stack s = rest ++ [l; r] /\ arithmetic_opcode (bc_numeric_mode bc) op = Some irop /\ lregs s < 64 /\
    s' = es_set_stack (rest ++ [lregs s]) (es_set_out f s) /\
    f_instructions f = lcode s ++ [fresh_instruction irop (lregs s) l r 0 offset] /\ f_register_count f = lregs s + 1.
Proof.
  unfold lower_arithmetic. destruct (_ <? 2); [done|]. destruct (new_register _ s) as [|[s1 d]] eqn:Hr; [done|].
  destruct (new_register_inr _ _ _ _ Hr) as (f&->&Hc&Hn&->&Hlt). simpl.
  destruct (pop (es_stack s)) as [[st1 r]|] eqn:Hp1; [|done]. destruct (pop st1) as [[st2 l]|] eqn:Hp2; [|done].
  apply pop_Some in Hp1 as Hst, Hp2 as ->. destruct (arithmetic_opcode _ _) as [irop|]; [|done].
  destruct (emit _ _ _) as [|s2] eqn:He; [done|]. destruct (emit_inr _ _ _ _ He) as (f2&->&Hc2&Hn2). intros [= <-].
  exists st2, l, r, irop, f2. split_and!; auto; [by rewrite Hst, <-app_assoc| |unfold lregs in *; simpl in *; congruence].
  rewrite Hc2. unfold lcode at 1. simpl. by rewrite Hc.
Qed.

(** The branch pops its condition, spills and jumps. *)
Lemma branch_inr d cond offset s s' : lower_branch_to mem bc d cond offset s = inr s' ->
  exists stack reg f, 0 <= offset + 1 + d < bc_length bc /\
    match cond with Some _ => es_stack s = stack ++ [reg] | None => es_stack s = stack /\ reg = NOREG end /\
    es_stack s' = stack /\ es_pc s' = es_pc s /\ es_bytecode_to_ir s' = es_bytecode_to_ir s /\ es_out s' = f /\
    es_fallthrough_reachable s' = (match cond with Some _ => es_fallthrough_reachable s | None => false end) /\
    f_instructions f = (lcode s ++ spill_code bc 0 stack offset) ++ [fresh_instruction (branch_opcode cond) NOREG reg NOREG 0 offset] /\
    f_register_count f = lregs s /\
    es_fixups s' = es_fixups s ++ [(length (lcode s ++ spill_code bc 0 stack offset), offset + 1 + d)].
Proof.
  unfold lower_branch_to. destruct (_ || _) eqn:Hr; [done|]. b2p.
  destruct (match cond with Some _ => _ | None => _ end) as [|[s1 reg]] eqn:Hc; [done|].
  assert (exists stack, s1 = es_set_stack stack s /\
    match cond with Some _ => es_stack s = stack ++ [reg] | None => es_stack s = stack /\ reg = NOREG end) as (stack&->&Hst).
  { destruct cond as [b|].
    - destruct (pop (es_stack s)) as [[st r]|] eqn:Hp; [|done]. injection Hc as <- <-. exists st. split; [done|by apply pop_Some].
    - injection Hc as <- <-. exists (es_stack s). split; [by destruct s|done]. }
  destruct (spill_stack_to_locals _ _ _ _) as [|s2] eqn:Hs; [done|]. destruct (spill_loop_inr _ _ _ _ _ _ _ Hs) as (f&->&Hcf&Hrf).
  destruct (emit _ _ _) as [|s3] eqn:He; [done|]. destruct (emit_inr _ _ _ _ He) as (f2&->&Hc2&Hn2).
  destruct (_ <=? _)%nat; [done|]. simpl in *. unfold lcode, lregs in *. simpl in *. intros [= <-].
  exists stack, reg, f2. rewrite Hc2, Hcf. split_and!; auto; try lia; try (by destruct cond).
  rewrite length_app. simpl. replace (length _ + 1 - 1)%nat with (length (f_instructions (es_out s) ++ spill_code bc 0 stack offset)) by lia.
  by destruct cond.
Qed.

Lemma default_inr byte offset s s' : lower_default mem bc byte offset s = inr s' ->
  exists r1 r2 r3 f, s' = es_set_pc (bc_length bc) (es_set_returned (es_set_out f s)) /\
    lregs s <= r1 < 64 /\ lregs s <= r2 < 64 /\ lregs s <= r3 < 64 /\ lregs s <= f_register_count f /\
    f_instructions f = lcode s ++
      [fresh_instruction TURBOJS_IR_CONSTANT_I64 r1 0 0 0 offset; fresh_instruction TURBOJS_IR_CONSTANT_I64 r2 0 0 0 offset;
       fresh_instruction TURBOJS_IR_RUNTIME_HELPER r3 r1 r2 byte offset; fresh_instruction TURBOJS_IR_RETURN_I64 0 r3 0 0 offset].
Proof.
  assert (forall f f' r, TurboJS_IRAllocateRegister f = (f', r) -> r =? NOREG = false ->
    f_instructions f' = f_instructions f /\ f_register_count f' = f_register_count f + 1 /\ r = f_register_count f /\ r < 64) as Ha.
  { intros f f' r. unfold TurboJS_IRAllocateRegister, TURBOJS_IR_MAX_REGISTERS. destruct (64 <=? _) eqn:Hl; intros [= <- <-] Hr; [done|].
    b2p. split_and!; auto. }
  unfold lower_default. destruct (TurboJS_IRAllocateRegister (es_out s)) as [f1 r1] eqn:E1.
  destruct (TurboJS_IRAllocateRegister f1) as [f2 r2] eqn:E2. destruct (TurboJS_IRAllocateRegister f2) as [f3 r3] eqn:E3.
  destruct (_ || _) eqn:Hr; [done|]. apply orb_false_iff in Hr as [[Hr1 Hr2]%orb_false_iff Hr3].
  destruct (Ha _ _ _ E1 Hr1) as (C1&N1&->&?), (Ha _ _ _ E2 Hr2) as (C2&N2&->&?), (Ha _ _ _ E3 Hr3) as (C3&N3&->&?).
  repeat (destruct (emit _ _ _) as [|?] eqn:He; [done|];
    destruct (emit_inr _ _ _ _ He) as (?&->&?Hc&?Hn); clear He; unfold lcode, lregs in Hc, Hn; simpl in Hc, Hn).
  intros [= <-]. unfold lregs, lcode in *. simpl in *.
  eexists (f_register_count (es_out s)), (f_register_count f1), (f_register_count f2), _. split; [reflexivity|].
  split_and!; try lia.
  repeat match goal with H : f_instructions ?x = _ |- context [f_instructions ?x] => rewrite H end. by rewrite <-!app_assoc.
Qed.

Lemma lower_numeric_Built k byte offset s s' :
  lower_numeric mem bc k byte offset s = inr s' ->
  Built (bc_length bc) s s' /\ match k with NOther => es_pc s' = bc_length bc | _ => es_pc s' = es_pc s end.
Proof.
  destruct k; simpl.
  - intros [= <-]. by split.
  - intros H. split; [by eapply push_instruction_Built|]. by apply push_instruction_inr in H as (f&->&_).
  - unfold lower_get_arg. destruct (_ <=? _); [done|]. intros H. split; [by eapply push_instruction_Built|].
    by apply push_instruction_inr in H as (f&->&_).
  - unfold lower_get_loc. destruct (_ <=? _); [done|]. intros H. split; [by eapply push_instruction_Built|].
    by apply push_instruction_inr in H as (f&->&_).
  - intros (rest&r&f&_&_&->&Hc&Hr)%put_loc_inr. split; [|done]. eapply Built_code; [exact Hc| |done..].
    unfold lregs in *. simpl. lia.
  - intros (rest&l&r&irop&f&_&_&_&->&Hc&Hr)%arithmetic_inr. split; [|done]. eapply Built_code; [exact Hc| |done..].
    unfold lregs in *. simpl. lia.
  - intros (stack&reg&f&Ht&_&_&Hpc&Hm&Ho&_&Hc&Hr&Hf)%branch_inr. split; [|done]. unfold lcode, lregs in *. subst f.
    split; unfold lcode, lregs; auto; [|lia|].
    + rewrite Hc, <-app_assoc. by eexists.
    + eexists. split; [exact Hf|]. split_and!; [apply NoDup_singleton|by constructor|]. intros k ->%list_elem_of_singleton.
      rewrite Hc, !length_app. simpl. lia.
  - unfold lower_return. destruct (pop _) as [[rest r]|]; [|done]. destruct (emit _ _ _) as [|s1] eqn:He; [done|].
    intros [= <-]. apply emit_inr in He as (f&->&Hc&Hr). split; [|done]. eapply Built_code; [exact Hc| |done..].
    unfold lregs in *. simpl. lia.
  - intros (r1&r2&r3&f&->&_&_&_&Hr&Hc)%default_inr. split; [|done]. eapply Built_code; [exact Hc| |done..]. done.
Qed.

(** Entering an offset: the spill of a fallthrough, the map, the reload. *)
Definition entry_spill (sc : StackScan) (offset : Z) (s : EngineState) : list TurboJSIRInstruction :=
  if is_target (sc_targets sc) offset && es_fallthrough_reachable s then spill_code bc 0 (es_stack s) offset else [].

Lemma enter_offset_inr sc offset s s' : enter_offset mem bc sc offset s = inr s' ->
  es_pc s' = es_pc s /\ es_fixups s' = es_fixups s /\
  es_bytecode_to_ir s' = <[Z.to_nat offset := Z.of_nat (length (lcode s ++ entry_spill sc offset s))]> (es_bytecode_to_ir s) /\
  if is_target (sc_targets sc) offset then
    let n := Z.to_nat (depth_at (sc_depths sc) offset) in
    (es_fallthrough_reachable s = true -> length (es_stack s) = n) /\ es_fallthrough_reachable s' = true /\
    lcode s' = (lcode s ++ entry_spill sc offset s) ++ reload_code bc n 0 (lregs s) offset /\
    es_stack s' = (fun j => lregs s + Z.of_nat j) <$> seq 0 n /\ lregs s' = lregs s + Z.of_nat n /\
    (n <> 0%nat -> lregs s' <= 64)
  else lcode s' = lcode s /\ es_stack s' = es_stack s /\ lregs s' = lregs s /\
       es_fallthrough_reachable s' = es_fallthrough_reachable s.
Proof.
  unfold enter_offset, entry_spill. destruct (is_target _ _); simpl.
  - destruct (es_fallthrough_reachable s) eqn:Hft; simpl.
    + destruct (negb _) eqn:Hl; [done|]. b2p. apply Nat.eqb_eq in Hl.
      destruct (spill_stack_to_locals _ _ _ _) as [|s1] eqn:Hs; [done|].
      destruct (spill_loop_inr _ _ _ _ _ _ _ Hs) as (f&->&Hc&Hr).
      destruct (reload_stack_from_locals _ _ _ _ _) as [|s2] eqn:Hrl; [done|]. intros [= <-].
      apply reload_loop_inr in Hrl as (f2&->&Hc2&Hr2&Hb). unfold lcode, lregs in *. simpl in *. unfold f_instruction_count.
      rewrite Hc2, Hr2, Hc, Hr. split_and!; auto. rewrite Hr in Hb. done.
    + destruct (reload_stack_from_locals _ _ _ _ _) as [|s2] eqn:Hrl; [done|]. intros [= <-].
      apply reload_loop_inr in Hrl as (f2&->&Hc2&Hr2&Hb). unfold lcode, lregs in *. simpl in *. unfold f_instruction_count.
      rewrite Hc2, Hr2, app_nil_r. split_and!; done.
  - intros [= <-]. rewrite app_nil_r. split_and!; auto.
Qed.
End Growth.
