(* ===== verification/EngineCorrect.v ===== *)
(** * Correctness of the translation of engine bytecode to IR

    [engine_lowering_correct]: the translated function, run on registers and
    locals, ends as the operand-stack machine of the bytecode does.

    The loop of the translation is a sequence of steps; [Visited] is a state
    of that sequence, and everything it has emitted is part of the result up
    to the branch targets the fixups write.  A configuration of the machine
    corresponds to a position of the IR in two ways: control reaches the code
    of an offset by falling through, with the operand stack in registers, or
    by a jump, with the operand stack in the locals behind the function's
    own. *)

From S2P Require Import Prelude.
From S2P Require Import JitTypes.
From S2P Require Import Clutch.
From S2P Require Import IR.
From S2P Require Import IRVerify.
From S2P Require Import IRInterp.
From S2P Require Import EngineOpcodes.
From S2P Require Import BytecodeCfg.
From S2P Require Import EngineToIR.
From S2P Require Import EngineScan.
From S2P Require Import EngineEmit.

(** ** The loop as a sequence of steps *)

(** What one turn or several turns of the loop keep. *)
Record Grown (limit : Z) (s s' : EngineState) : Prop := {
  gr_code : lcode s `prefix_of` lcode s';
  gr_pc : es_pc s <= es_pc s';
  gr_regs : lregs s <= lregs s';
  gr_map o : 0 <= o < es_pc s -> es_bytecode_to_ir s' !! Z.to_nat o = es_bytecode_to_ir s !! Z.to_nat o;
  gr_fixups : exists l, es_fixups s' = es_fixups s ++ l /\ NoDup l.*1 /\ Forall (fun t => 0 <= t < limit) l.*2 /\
    forall k, k ∈ l.*1 -> (length (lcode s) <= k < length (lcode s'))%nat
}.

#[export] Instance Grown_preorder limit : PreOrder (Grown limit).
Proof.
  split.
  - intros s. split; auto; [lia..|]. exists []. rewrite app_nil_r. split_and!; auto; [constructor|].
    intros k Hk. by apply not_elem_of_nil in Hk.
  - intros a b c [H1 H2 H0 H3 (l&H4&Hn&Ht&Hr)] [K1 K2 K0 K3 (l'&K4&Kn&Kt&Kr)].
    pose proof (prefix_length _ _ H1). pose proof (prefix_length _ _ K1).
    split; [by etrans|lia|lia| |].
    + intros o Ho. rewrite K3 by lia. by apply H3.
    + exists (l ++ l'). rewrite K4, H4, app_assoc, !fmap_app. split_and!; auto.
      * apply NoDup_app. split_and!; auto. intros k Hk Hk'. apply Hr in Hk. apply Kr in Hk'. lia.
      * by apply Forall_app.
      * intros k [Hk|Hk]%elem_of_app; [apply Hr in Hk|apply Kr in Hk]; lia.
Qed.

Section Loop.
Context (mem : EngineMemory) (sa ra : nat -> Z) (bc : TurboJSEngineBytecodeInfo) (sc : StackScan).
Context (Hscan : ScanOk bc sc).

(** A turn at a reachable offset. *)
Definition lowers (s s1 : EngineState) (op : EngineOpcode) (se : EngineState) : Prop :=
  0 <= depth_at (sc_depths sc) (es_pc s) /\
  bc_bytecode bc !! Z.to_nat (es_pc s) ≫= engine_opcode = Some op /\
  enter_offset mem bc sc (es_pc s) (es_set_offset (es_pc s) s) = inr se /\
  exists byte pc', lower_numeric mem bc (numeric_op op (operand_of bc (es_pc s))) byte (es_pc s) (es_set_pc pc' se) = inr s1 /\
    (numeric_op op (operand_of bc (es_pc s)) <> NOther -> pc' = es_pc s + opcode_size op).

Lemma lowers_enter s s1 op se :
  lowers s s1 op se ->
  if is_target (sc_targets sc) (es_pc s) then
    let n := Z.to_nat (depth_at (sc_depths sc) (es_pc s)) in
    es_fallthrough_reachable se = true /\
    lcode se = (lcode s ++ entry_spill bc sc (es_pc s) s) ++ reload_code bc n 0 (lregs s) (es_pc s) /\
    es_stack se = (fun j => lregs s + Z.of_nat j) <$> seq 0 n /\ lregs se = lregs s + Z.of_nat n /\
    (n <> 0%nat -> lregs se <= 64)
  else lcode se = lcode s /\ es_stack se = es_stack s /\ lregs se = lregs s /\
       es_fallthrough_reachable se = es_fallthrough_reachable s.
Proof.
  intros (_&_&He&_). apply enter_offset_inr in He as (_&_&_&He). destruct (is_target _ _); [|exact He].
  destruct He as [_ He]. exact He.
Qed.

(** A turn at an offset the depth analysis did not reach. *)
Definition skips (s s1 : EngineState) : Prop :=
  depth_at (sc_depths sc) (es_pc s) < 0 /\ es_pc s < es_pc s1 /\ es_out s1 = es_out s /\
  es_bytecode_to_ir s1 = es_bytecode_to_ir s /\ es_fixups s1 = es_fixups s.

Definition lstep (s s1 : EngineState) : Prop :=
  0 <= es_pc s < bc_length bc /\ (skips s s1 \/ exists op se, lowers s s1 op se).

Lemma lower_one_inr s s1 :
  0 <= es_pc s < bc_length bc -> lower_one mem no_resolvers sa ra bc sc s = inr s1 -> lstep s s1.
Proof.
  intros Hpc. unfold lower_one. destruct (_ <? 0) eqn:Hd; b2p.
  - destruct (engine_stack_effect _ _) as [|e] eqn:He; [done|]. intros [= <-]. split; [done|]. left.
    destruct (stack_effect_inr _ _ _ He) as (_&_&?&_). split_and!; try done; simpl; lia.
  - destruct (enter_offset _ _ _ _ _) as [|se] eqn:He; [done|].
    destruct (so_closed _ _ Hscan _ Hpc Hd) as (e&Heff&_). unfold engine_stack_effect in Heff.
    destruct (_ <=? es_pc s); [done|]. destruct (bc_bytecode bc !! Z.to_nat (es_pc s)) as [byte|] eqn:Hb; [|done]. simpl in *.
    destruct (engine_opcode byte) as [op|] eqn:Hop; [|done]. intros Hl. split; [done|]. right. exists op, se.
    split_and!; auto; [by rewrite Hb|]. exists byte. apply lower_opcode_kind in Hl; [|done].
    destruct (numeric_op _ _); eexists; (split; [exact Hl|done]).
Qed.

Lemma opcode_size_pos op : 0 < opcode_size op.
Proof. pose proof (opcode_info_bounds op). lia. Qed.

(** What a turn does to the map of offsets. *)
Lemma lstep_map s s1 : lstep s s1 ->
  es_bytecode_to_ir s1 = es_bytecode_to_ir s \/
  (exists op se, lowers s s1 op se) /\
  es_bytecode_to_ir s1 = <[Z.to_nat (es_pc s) := Z.of_nat (length (lcode s ++ entry_spill bc sc (es_pc s) s))]> (es_bytecode_to_ir s).
Proof.
  intros [_ [(_&_&_&?&_)|(op&se&H)]]; [by left|]. right. split; [by exists op, se|].
  destruct H as (_&_&He&byte&pc'&Hl&_). apply enter_offset_inr in He as (_&_&Hm&_).
  apply lower_numeric_Built in Hl as [[_ _ Hm' _] _]. rewrite Hm'. exact Hm.
Qed.

Lemma enter_offset_code offset s se :
  enter_offset mem bc sc offset s = inr se -> lcode s `prefix_of` lcode se /\ lregs s <= lregs se.
Proof.
  intros (_&_&_&He)%enter_offset_inr. destruct (is_target _ _).
  - destruct He as (_&_&->&_&->&_). split; [|lia]. rewrite <-app_assoc. by eexists.
  - destruct He as (->&_&->&_). by split.
Qed.

Lemma lstep_Grown s s1 : lstep s s1 -> Grown (bc_length bc) s s1 /\ es_pc s < es_pc s1.
Proof.
  intros H. pose proof (lstep_map _ _ H) as Hm. destruct H as [Hpc [(_&?&Ho&_&Hf)|(op&se&H)]].
  - split; [|done]. unfold lcode in *. split; [by unfold lcode; rewrite Ho|lia|unfold lregs; rewrite Ho; lia| |].
    + destruct Hm as [->|[_ ->]]; [done|]. intros o Hr. by rewrite list_lookup_insert_ne by lia.
    + exists []. rewrite app_nil_r. split_and!; [done|constructor|constructor|]. intros k Hk. by apply not_elem_of_nil in Hk.
  - destruct H as (_&_&He&byte&pc'&Hl&Hpc'). pose proof (enter_offset_code _ _ _ He) as [Hc Hr']. apply enter_offset_inr in He as (_&Hf&_).
    apply lower_numeric_Built in Hl as [[Hc' Hr'' _ (l&Hf'&Hn&Ht&Hr)] Hp].
    assert (es_pc s < es_pc s1) as Hlt.
    { pose proof (opcode_size_pos op). destruct (numeric_op _ _) eqn:Hk; rewrite Hp; simpl; try (rewrite Hpc'; [lia|done]). lia. }
    split; [|done]. change (lcode (es_set_pc pc' se)) with (lcode se) in *. change (lcode (es_set_offset _ s)) with (lcode s) in *.
    change (lregs (es_set_pc pc' se)) with (lregs se) in *. change (lregs (es_set_offset _ s)) with (lregs s) in *.
    split; [by etrans|lia|lia| |].
    + destruct Hm as [->|[_ ->]]; [done|]. intros o Ho. by rewrite list_lookup_insert_ne by lia.
    + exists l. simpl in *. rewrite Hf', Hf. split_and!; auto. intros k Hk. apply Hr in Hk. apply prefix_length in Hc. lia.
Qed.

Lemma lsteps_Grown s s' : rtc lstep s s' -> Grown (bc_length bc) s s'.
Proof. induction 1 as [|s s1 s' H _ IH]; [done|]. etrans; [by apply lstep_Grown|done]. Qed.

Lemma lower_loop_inr fuel s s' :
  0 <= es_pc s -> bc_length bc <= es_pc s + Z.of_nat fuel -> lower_loop mem no_resolvers sa ra bc fuel sc s = inr s' ->
  rtc lstep s s' /\ bc_length bc <= es_pc s'.
Proof.
  revert s. induction fuel as [|fuel IH]; intros s Hpc Hf; simpl.
  - intros [= <-]. split; [done|lia].
  - destruct (_ <? _) eqn:Hlt; b2p; [|intros [= <-]; split; [done|lia]].
    destruct (lower_one _ _ _ _ _ _ _) as [|s1] eqn:H1; [done|]. apply lower_one_inr in H1; [|done].
    pose proof (lstep_Grown _ _ H1) as [_ ?]. intros [H2 Hend]%IH; [|lia..]. split; [by eapply rtc_l|done].
Qed.

(** The entries of the map were written by a turn at their offset. *)
Lemma map_origin s0 s o v :
  rtc lstep s0 s -> 0 <= o -> (forall w, w ∈ es_bytecode_to_ir s0 -> w = SIZE_MAX) ->
  es_bytecode_to_ir s !! Z.to_nat o = Some v -> v <> SIZE_MAX ->
  exists s' s1, rtc lstep s0 s' /\ lstep s' s1 /\ rtc lstep s1 s /\ es_pc s' = o /\ (exists op se, lowers s' s1 op se) /\
    v = Z.of_nat (length (lcode s' ++ entry_spill bc sc o s')).
Proof.
  intros Hs Ho H0 Hv Hne. revert s Hs Hv. refine (rtc_ind_r _ s0 _ _).
  - intros Hv. destruct Hne. apply H0. by eapply list_elem_of_lookup_2.
  - intros s s1 H1 H2 IH Hv. assert (es_bytecode_to_ir s !! Z.to_nat o = Some v ->
      exists s' s2, rtc lstep s0 s' /\ lstep s' s2 /\ rtc lstep s2 s1 /\ es_pc s' = o /\ (exists op se, lowers s' s2 op se) /\
        v = Z.of_nat (length (lcode s' ++ entry_spill bc sc o s'))) as Hold.
    { intros Hv'. destruct (IH Hv') as (s'&s2&?&?&?&?). exists s', s2. split_and!; try tauto. by eapply rtc_r. }
    destruct (lstep_map _ _ H2) as [Hm|[Hlow Hm]]; rewrite Hm in Hv; [auto|].
    apply list_lookup_insert_Some in Hv as [(He&<-&_)|(_&Hv)]; [|auto].
    assert (es_pc s = o) as <- by (destruct H2 as [? _]; lia). by exists s, s1.
Qed.
End Loop.

(** ** Fixups *)

(** The fixups change targets of the instructions they name. *)
Lemma apply_fixups_inr l s s' :
  apply_fixups l s = inr s' -> NoDup l.*1 ->
  (length (lcode s') = length (lcode s))%nat /\
  (forall k i, lcode s !! k = Some i -> exists t, lcode s' !! k = Some (in_set_target t i)) /\
  (forall k t i, (k, t) ∈ l -> lcode s !! k = Some i ->
     exists v, es_bytecode_to_ir s !! Z.to_nat t = Some v /\ v <> SIZE_MAX /\ lcode s' !! k = Some (in_set_target (uwrap 32 v) i)) /\
  (forall k, k ∉ l.*1 -> lcode s' !! k = lcode s !! k).
Proof.
  revert s. induction l as [|[k0 t0] l IH]; intros s; simpl.
  - intros [= <-] _. split_and!; auto.
    + intros k i Hi. exists (in_target i). by destruct i.
    + intros k t i Hk. by apply not_elem_of_nil in Hk.
  - destruct (_ =? SIZE_MAX) eqn:Hm; [done|]. b2p. intros Hf [Hk0 Hnd]%NoDup_cons.
    set (v := default SIZE_MAX _) in *. destruct (IH _ Hf Hnd) as (Hlen&Hany&Hin&Hout). unfold lcode in *. simpl in *.
    assert (forall k i, f_instructions (es_out s) !! k = Some i -> k <> k0 ->
      alter (in_set_target (uwrap 32 v)) k0 (f_instructions (es_out s)) !! k = Some i) as Hne
      by (intros k i Hi Hk; by rewrite list_lookup_alter_ne by done).
    split_and!.
    + by rewrite Hlen, length_alter.
    + intros k i Hi. destruct (decide (k = k0)) as [->|Hk].
      * rewrite Hout by done. rewrite list_lookup_alter_eq, Hi. by eexists.
      * apply Hany. by apply Hne.
    + intros k t i [[= -> ->]|Hkt]%elem_of_cons Hi.
      * exists v. rewrite Hout by done. rewrite list_lookup_alter_eq, Hi. split_and!; auto.
        unfold v in *. by destruct (es_bytecode_to_ir s !! _).
      * apply (Hin _ _ _ Hkt). apply Hne; [done|]. intros ->. apply Hk0. apply list_elem_of_fmap. by exists (k0, t).
    + intros k Hk. apply not_elem_of_cons in Hk as [Hk Hkl]. rewrite Hout by done. by rewrite list_lookup_alter_ne.
Qed.

(** ** Running the emitted code *)

Section Running.
Context (bc : TurboJSEngineBytecodeInfo).
Context (hp : Heap) (native_i64 native_f64 : Z -> list Z -> TurboJSIRStatus * Z) (F : TurboJSIRFunction) (args : list Z).
Notation next := (ir_next hp native_i64 native_f64 F args).
Notation lc := (bc_local_count bc).

(** The code of the function at [pc], up to branch targets. *)
Definition code_at (pc : nat) (l : list TurboJSIRInstruction) : Prop :=
  forall k i, l !! k = Some i -> exists t, f_instructions F !! (pc + k)%nat = Some (in_set_target t i).

Lemma code_at_app pc l l' : code_at pc (l ++ l') <-> code_at pc l /\ code_at (pc + length l) l'.
Proof.
  split.
  - intros H. split; intros k i Hk.
    + apply H. by apply lookup_app_l_Some.
    + rewrite <-Nat.add_assoc. apply H. rewrite lookup_app_r by lia. by replace (length l + k - length l)%nat with k by lia.
  - intros [H1 H2] k i Hk. apply lookup_app_Some in Hk as [Hk|[Hle Hk]]; [by apply H1|]. destruct (H2 _ _ Hk) as [t Ht]. exists t.
    by replace (pc + k)%nat with (pc + length l + (k - length l))%nat by lia.
Qed.

Lemma code_at_one pc i : code_at pc [i] -> exists t, f_instructions F !! pc = Some (in_set_target t i).
Proof. intros H. destruct (H 0%nat i eq_refl) as [t Ht]. exists t. by rewrite Nat.add_0_r in Ht. Qed.

(** Operands in registers. *)
Definition in_regs (regs : list Z) (bound : Z) (rs vs : list Z) : Prop :=
  Forall2 (fun r v => 0 <= r < bound /\ regs !! Z.to_nat r = Some v) rs vs.

Lemma in_regs_mono regs regs' bound bound' rs vs :
  bound <= bound' -> (forall j : nat, Z.of_nat j < bound -> regs' !! j = regs !! j) -> in_regs regs bound rs vs -> in_regs regs' bound' rs vs.
Proof. intros Hb Hr H. eapply Forall2_impl; [exact H|]. simpl. intros r v [? ?]. split; [lia|]. rewrite Hr by lia. done. Qed.

Lemma in_regs_write regs reg rs vs v :
  0 <= reg < 64 -> length regs = 64%nat -> in_regs regs reg rs vs ->
  in_regs (<[Z.to_nat reg := v]> regs) (reg + 1) (rs ++ [reg]) (vs ++ [v]).
Proof.
  intros Hreg Hl H. apply Forall2_app; [|constructor; [|constructor]].
  - eapply in_regs_mono; [| |exact H]; [lia|]. intros j Hj. by rewrite list_lookup_insert_ne by lia.
  - split; [lia|]. by rewrite list_lookup_insert_eq by lia.
Qed.

Lemma run_local_set pc r j offset regs locals v :
  code_at pc [fresh_instruction TURBOJS_IR_LOCAL_SET NOREG r NOREG j offset] -> regs !! Z.to_nat r = Some v ->
  (Z.to_nat j < length locals)%nat -> next (regs, locals, pc) (regs, <[Z.to_nat j := v]> locals, S pc).
Proof.
  intros [t Hc]%code_at_one Hr Hj. eexists. split; [exact Hc|]. unfold ir_step, execute_step, rd, wr. simpl. rewrite Hr.
  by rewrite (proj2 (Nat.ltb_lt _ _)) by done.
Qed.

(** An instruction that reads nothing but a value known here. *)
Lemma run_load pc op reg imm offset regs locals v :
  code_at pc [fresh_instruction op reg NOREG NOREG imm offset] ->
  match op with
  | TURBOJS_IR_CONSTANT_I64 => v = imm
  | TURBOJS_IR_LOCAL_GET => locals !! Z.to_nat imm = Some v
  | TURBOJS_IR_ARGUMENT => args !! Z.to_nat imm = Some v
  | _ => False
  end -> 0 <= reg < 64 -> length regs = 64%nat ->
  next (regs, locals, pc) (<[Z.to_nat reg := v]> regs, locals, S pc).
Proof.
  intros [t Hc]%code_at_one Hv Hreg Hl. eexists. split; [exact Hc|].
  destruct op; try done; unfold ir_step, execute_step, rd, wr; simpl; rewrite ?Hv, (proj2 (Nat.ltb_lt _ _)) by lia; done.
Qed.

(** The spill code stores the operands behind the locals. *)
Lemma run_spill pc i rs vs offset regs locals bound :
  code_at pc (spill_code bc i rs offset) -> in_regs regs bound rs vs -> 0 <= lc ->
  lc + Z.of_nat (i + length rs) <= 64 -> length locals = 64%nat ->
  exists locals', rtc next (regs, locals, pc) (regs, locals', pc + length rs)%nat /\ length locals' = 64%nat /\
    (forall j : nat, Z.of_nat j < lc + Z.of_nat i -> locals' !! j = locals !! j) /\
    (forall j v, vs !! j = Some v -> locals' !! (Z.to_nat lc + (i + j))%nat = Some v).
Proof.
  intros Hc H Hlc. revert pc i locals Hc. induction H as [|r v rs vs [_ Hr] H IH]; intros pc i locals Hc Hb Hl.
  - exists locals. rewrite Nat.add_0_r. split_and!; done.
  - simpl in Hb. change (spill_code bc i (r :: rs) offset) with
      ([fresh_instruction TURBOJS_IR_LOCAL_SET NOREG r NOREG (lc + Z.of_nat (i + 0)) offset] ++
       imap (fun j r => fresh_instruction TURBOJS_IR_LOCAL_SET NOREG r NOREG (lc + Z.of_nat (i + S j)) offset) rs) in Hc.
    apply code_at_app in Hc as [Hc1 Hc2]. rewrite Nat.add_0_r in Hc1.
    destruct (IH (S pc) (S i) (<[Z.to_nat (lc + Z.of_nat i) := v]> locals)) as (locals'&Hrun&Hl'&Hold&Hnew).
    + simpl in Hc2. rewrite Nat.add_1_r in Hc2. unfold spill_code. erewrite imap_ext; [exact Hc2|].
      intros j x _. simpl. do 2 f_equal. lia.
    + lia.
    + by rewrite length_insert.
    + exists locals'. split_and!; auto.
      * eapply rtc_l; [eapply run_local_set; [exact Hc1|exact Hr|lia]|]. simpl. by replace (pc + S (length rs))%nat with (S pc + length rs)%nat by lia.
      * intros j Hj. rewrite Hold by lia. by rewrite list_lookup_insert_ne by lia.
      * intros [|j] w Hw; simpl in Hw.
        -- injection Hw as <-. rewrite Hold by lia.
           replace (Z.to_nat lc + (i + 0))%nat with (Z.to_nat (lc + Z.of_nat i)) by lia. apply list_lookup_insert_eq. lia.
        -- replace (i + S j)%nat with (S i + j)%nat by lia. by apply Hnew.
Qed.

(** The reload code brings them back in new registers. *)
Lemma run_reload pc vs reg offset regs locals :
  code_at pc (reload_code bc (length vs) 0 reg offset) -> (forall j v, vs !! j = Some v -> locals !! (Z.to_nat lc + j)%nat = Some v) ->
  0 <= lc -> 0 <= reg -> (length vs <> 0%nat -> reg + Z.of_nat (length vs) <= 64) -> length regs = 64%nat ->
  exists regs', rtc next (regs, locals, pc) (regs', locals, pc + length vs)%nat /\ length regs' = 64%nat /\
    (forall j : nat, Z.of_nat j < reg -> regs' !! j = regs !! j) /\
    in_regs regs' (reg + Z.of_nat (length vs)) ((fun j => reg + Z.of_nat j) <$> seq 0 (length vs)) vs.
Proof.
  intros Hc Hv Hlc Hreg Hb Hl. induction vs as [|v vs IH] using rev_ind.
  - exists regs. rewrite Nat.add_0_r. split_and!; try done. constructor.
  - rewrite length_app, Nat.add_1_r in *. unfold reload_code in Hc. rewrite seq_S, fmap_app in Hc. apply code_at_app in Hc as [Hc1 Hc2].
    rewrite length_fmap, length_seq in Hc2. specialize (Hb ltac:(done)).
    destruct IH as (regs'&Hrun&Hl'&Hold&Hin); [exact Hc1| |lia|].
    { intros j w Hw. apply Hv. by apply lookup_app_l_Some. }
    exists (<[Z.to_nat (reg + Z.of_nat (length vs)) := v]> regs'). split_and!.
    + eapply rtc_r; [exact Hrun|]. simpl in Hc2. replace (pc + S (length vs))%nat with (S (pc + length vs)) by lia.
      eapply run_load; [exact Hc2| |lia|done]. simpl. replace (Z.to_nat _) with (Z.to_nat lc + length vs)%nat by lia.
      apply Hv. apply list_lookup_middle. done.
    + by rewrite length_insert.
    + intros j Hj. rewrite list_lookup_insert_ne by lia. by apply Hold.
    + rewrite seq_S, fmap_app. simpl. replace (reg + Z.of_nat (S (length vs))) with (reg + Z.of_nat (length vs) + 1) by lia.
      apply in_regs_write; [lia|done|done].
Qed.
End Running.

(** A conditional branch on an integer. *)
Lemma branch_step hp n1 n2 F args k b reg offset (target : nat) regs locals v :
  f_instructions F !! k = Some (in_set_target (Z.of_nat target) (fresh_instruction (branch_opcode (Some b)) NOREG reg NOREG 0 offset)) ->
  regs !! Z.to_nat reg = Some v ->
  ir_next hp n1 n2 F args (regs, locals, k) (regs, locals, if Bool.eqb (negb (v =? 0)) b then target else S k).
Proof.
  intros HF Hv. eexists. split; [exact HF|]. unfold ir_step, execute_step, rd.
  destruct b; simpl; rewrite Hv, Nat2Z.id; by destruct (v =? 0).
Qed.

(** ** The values of the machine *)

Definition bytes_ok (bc : TurboJSEngineBytecodeInfo) : Prop := Forall is_byte (bc_bytecode bc).

(** Integers stay in 32 bits. *)
Definition value_ok (mode : TurboJSEngineNumericMode) (v : Z) : Prop := mode = TURBOJS_ENGINE_NUMERIC_INT32 -> in_i32 v = true.

(** The IR operation computes what the machine computes. *)
Lemma arithmetic_step hp n1 n2 F args mode op irop l r a b reg offset t regs locals pc :
  arithmetic_opcode mode op = Some irop -> regs !! Z.to_nat l = Some a -> regs !! Z.to_nat r = Some b ->
  value_ok mode a -> value_ok mode b ->
  ir_step hp n1 n2 F args (in_set_target t (fresh_instruction irop reg l r 0 offset)) regs locals pc =
    match engine_arithmetic mode op a b with
    | inl o => Halt o
    | inr v => wr regs reg v (fun regs => Next regs locals (S pc))
    end.
Proof.
  intros Hop Hl Hr Ha Hb. unfold ir_step, execute_step, rd. destruct mode.
  - assert (forall iop, In iop [TURBOJS_IR_ADD_I32_CHECKED; TURBOJS_IR_SUB_I32_CHECKED; TURBOJS_IR_MUL_I32_CHECKED;
         TURBOJS_IR_DIV_I32_CHECKED; TURBOJS_IR_REM_I32_CHECKED] ->
      match checked_i32 iop a b with
      | None => Halt (Undef UB_arithmetic)
      | Some (inl _) => Halt (Stop TURBOJS_IR_BAILOUT)
      | Some (inr v) => wr regs reg v (fun regs => Next regs locals (S pc))
      end = match int32_result (i32_op iop a b) with
            | inl o => Halt o
            | inr v => wr regs reg v (fun regs => Next regs locals (S pc))
            end) as Hchk.
    { intros iop Hin. rewrite checked_i32_value; [|done|apply in_i32_spec; by apply Ha|apply in_i32_spec; by apply Hb].
      unfold int32_result. destruct (i32_op iop a b) as [v|]; [|done]. by destruct (in_i32 v). }
    destruct op; injection Hop as <-; cbn -[checked_i32 in_i32]; rewrite Hl, Hr; try done; (rewrite Hchk; [done|simpl; tauto]).
  - destruct op; try discriminate Hop; injection Hop as <-; simpl; by rewrite Hl, Hr.
Qed.

Lemma arithmetic_value mode op a b v : engine_arithmetic mode op a b = inr v -> value_ok mode v.
Proof.
  intros H ->. assert (forall o, int32_result o = inr v -> in_i32 v = true) as Hr.
  { intros [w|]; simpl; [|done]. destruct (in_i32 w) eqn:Hw; [|done]. by intros [= <-]. }
  unfold engine_arithmetic in H. destruct op; try (by eapply Hr); injection H as <-; by destruct (_ <? _).
Qed.

Lemma swrap_in_i32 z : in_i32 (swrap 32 z) = true.
Proof.
  apply in_i32_spec. unfold swrap, INT32_MIN, INT32_MAX. change (2 ^ (32 - 1)) with 2147483648. change (2 ^ 32) with 4294967296.
  pose proof (Z.mod_pos_bound (z + 2147483648) 4294967296). lia.
Qed.

(** Local indices and constants of the opcodes. *)
Lemma numeric_op_operand op p :
  Forall is_byte p ->
  match numeric_op op p with
  | NPush v => in_i32 v = true
  | NPut _ i => 0 <= i
  | _ => True
  end.
Proof.
  intros Hp. assert (forall n, 0 <= le_value (take n p)) as Hle.
  { intros n. apply le_value_bound. by apply Forall_take. }
  destruct op; simpl; try done; try apply Hle; try lia.
  unfold read_i32. generalize (le_value (take 4 p)) as z. intros z. apply swrap_in_i32.
Qed.

(** ** The simulation *)

(** Opcodes the FLOAT64 mode treats as the machine does: an integer constant
    would be used as the bits of a double, and a condition is compared with
    the bits of zero. *)
Definition double_safe (op : EngineOpcode) : bool :=
  match op with
  | OP_push_i32 | OP_if_true | OP_if_false | OP_if_true8 | OP_if_false8 => false
  | _ => true
  end.

Definition mode_ok (bc : TurboJSEngineBytecodeInfo) : Prop :=
  bc_numeric_mode bc = TURBOJS_ENGINE_NUMERIC_FLOAT64 ->
  Forall (fun b => match engine_opcode b with Some op => double_safe op = true | None => True end) (bc_bytecode bc).

Section Simulation.
Context (mem : EngineMemory) (bc : TurboJSEngineBytecodeInfo) (sc : StackScan).
Context (hp : Heap) (native_i64 native_f64 : Z -> list Z -> TurboJSIRStatus * Z) (F : TurboJSIRFunction) (args : list Z).
Context (s0 sF : EngineState).
Notation next := (ir_next hp native_i64 native_f64 F args).
Notation run := (ir_run hp native_i64 native_f64 F args).
Notation lc := (bc_local_count bc).
Notation mode := (bc_numeric_mode bc).
Notation step := (lstep mem bc sc).

Definition Turn (s s1 : EngineState) : Prop := rtc step s0 s /\ step s s1 /\ rtc step s1 sF.

(** Where the code of an offset starts for jumps. *)
Definition entry_of (s : EngineState) : nat := length (lcode s ++ entry_spill bc sc (es_pc s) s).

Lemma turn_entry s s1 op se : Turn s s1 -> lowers mem bc sc s s1 op se -> (entry_of s <= length (lcode sF))%nat.
Proof.
  intros Ht Hlow. pose proof (lsteps_Grown _ _ _ _ _ (proj2 (proj2 Ht))) as [Hc _ _ _ _].
  pose proof Hlow as (_&_&_&byte&pc'&Hl&_). apply lower_numeric_Built in Hl as [[Hc' _ _ _] _].
  apply prefix_length in Hc. apply prefix_length in Hc'. change (lcode (es_set_pc _ se)) with (lcode se) in Hc'.
  unfold entry_of. pose proof (lowers_enter _ _ _ _ _ _ _ Hlow) as He. unfold entry_spill in *. destruct (is_target _ _).
  - destruct He as (_&He&_). rewrite He, length_app in Hc'. lia.
  - destruct He as (He&_). rewrite He in Hc'. simpl. rewrite app_nil_r. lia.
Qed.

Context (Hscan : ScanOk bc sc) (Hbytes : bytes_ok bc) (Hmode : mode_ok bc).
Context (Hsize : bc_length bc <= SIZE_MAX) (Hlc : 0 <= lc) (Hframe : lc + bc_stack_size bc <= 64) (Hmax : sc_maximum sc <= bc_stack_size bc).
Context (Hargs : Forall (value_ok mode) args).
Context (Hregs0 : 0 <= lregs s0) (Hend : bc_length bc <= es_pc sF).
Context (Hlength : length (f_instructions F) = length (lcode sF)).
Context (Hcode : forall k i, lcode sF !! k = Some i -> exists t, f_instructions F !! k = Some (in_set_target t i)).
Context (Hfix : forall k t i, (k, t) ∈ es_fixups sF -> lcode sF !! k = Some i ->
  exists s s1 op se, Turn s s1 /\ lowers mem bc sc s s1 op se /\ es_pc s = t /\
    f_instructions F !! k = Some (in_set_target (Z.of_nat (entry_of s)) i)).

Record Frame (c : EngineConf) (regs locals : list Z) : Prop := {
  fr_regs : length regs = 64%nat;
  fr_locals : length locals = 64%nat;
  fr_count : length (ec_locals c) = Z.to_nat lc;
  fr_agree i v : ec_locals c !! i = Some v -> locals !! i = Some v;
  fr_pc : 0 <= ec_pc c;
  fr_depth : ec_pc c < bc_length bc -> Z.of_nat (length (ec_stack c)) = depth_at (sc_depths sc) (ec_pc c);
  fr_stack_values : Forall (value_ok mode) (ec_stack c);
  fr_local_values : Forall (value_ok mode) (ec_locals c)
}.

Inductive Sim (c : EngineConf) : IRState -> Prop :=
  | SimFall regs locals s :
      Frame c regs locals -> rtc step s0 s -> rtc step s sF -> es_pc s = ec_pc c -> es_fallthrough_reachable s = true ->
      in_regs regs (lregs s) (es_stack s) (ec_stack c) -> Sim c (regs, locals, length (lcode s))
  | SimJump regs locals s s1 op se :
      Frame c regs locals -> Turn s s1 -> lowers mem bc sc s s1 op se -> es_pc s = ec_pc c ->
      is_target (sc_targets sc) (ec_pc c) = true ->
      (forall i v, ec_stack c !! i = Some v -> locals !! (Z.to_nat lc + i)%nat = Some v) -> Sim c (regs, locals, entry_of s).

Lemma prefix_code pre l : pre ++ l `prefix_of` lcode sF -> code_at F (length pre) l.
Proof.
  intros [rest Heq] k i Hk. apply Hcode. rewrite Heq, <-app_assoc, lookup_app_r by lia.
  replace (length pre + k - length pre)%nat with k by lia. by apply lookup_app_l_Some.
Qed.

(** The code of a turn is part of the function. *)
Lemma turn_code s s1 op se : Turn s s1 -> lowers mem bc sc s s1 op se ->
  lcode se `prefix_of` lcode s1 /\ lcode s1 `prefix_of` lcode sF /\ 0 <= lregs s <= lregs se.
Proof.
  intros (H0&_&H1) (_&_&He&byte&pc'&Hl&_). apply lower_numeric_Built in Hl as [[Hc _ _ _] _]. split; [exact Hc|].
  split; [apply (gr_code _ _ _ (lsteps_Grown _ _ _ _ _ H1))|].
  pose proof (gr_regs _ _ _ (lsteps_Grown _ _ _ _ _ H0)). apply enter_offset_code in He as [_ He].
  change (lregs (es_set_offset _ s)) with (lregs s) in He. lia.
Qed.

Lemma fall_turn s : rtc step s0 s -> rtc step s sF -> es_pc s < bc_length bc -> exists s1, Turn s s1.
Proof. intros H0 H1 Hlt. inversion H1 as [|? s1 ? Hs Hr]; subst; [lia|]. by exists s1. Qed.

Lemma frame_depth c regs locals : Frame c regs locals -> ec_pc c < bc_length bc ->
  0 <= depth_at (sc_depths sc) (ec_pc c) <= bc_stack_size bc.
Proof.
  intros Hf Hlt. pose proof (fr_depth _ _ _ Hf Hlt). pose proof (fr_pc _ _ _ Hf).
  pose proof (so_maximum _ _ Hscan (ec_pc c) ltac:(lia)). lia.
Qed.

(** The reload at a branch target. *)
Lemma enter_reload c regs locals s s1 op se :
  Frame c regs locals -> Turn s s1 -> lowers mem bc sc s s1 op se -> es_pc s = ec_pc c -> ec_pc c < bc_length bc ->
  is_target (sc_targets sc) (ec_pc c) = true ->
  (forall i v, ec_stack c !! i = Some v -> locals !! (Z.to_nat lc + i)%nat = Some v) ->
  exists regs', rtc next (regs, locals, entry_of s) (regs', locals, length (lcode se)) /\ Frame c regs' locals /\
    in_regs regs' (lregs se) (es_stack se) (ec_stack c) /\ es_fallthrough_reachable se = true.
Proof.
  intros Hf Ht Hlow Hpc Hlt Htarget Hstack. destruct (turn_code _ _ _ _ Ht Hlow) as (Hc&Hc1&Hr).
  pose proof (lowers_enter _ _ _ _ _ _ _ Hlow) as He. rewrite Hpc, Htarget in He. destruct He as (Hft&Hcode'&Hst&Hrg&Hb).
  pose proof (fr_depth _ _ _ Hf Hlt) as Hd. replace (Z.to_nat (depth_at _ _)) with (length (ec_stack c)) in * by lia.
  destruct (run_reload bc hp native_i64 native_f64 F args (entry_of s) (ec_stack c) (lregs s) (es_pc s) regs locals) as (regs'&Hrun&Hl&_&Hin);
    try (done || lia).
  - rewrite Hpc. apply prefix_code. unfold entry_of in *. rewrite Hpc. rewrite Hcode' in Hc. by etrans.
  - by apply Hf.
  - exists regs'. split_and!; auto.
    + rewrite Hcode', length_app. unfold reload_code at 1. rewrite length_fmap, length_seq. unfold entry_of in *.
      rewrite Hpc in *. exact Hrun.
    + destruct Hf. by split.
    + rewrite Hst, Hrg. exact Hin.
Qed.

(** Control at an offset reaches the code of its opcode. *)
Lemma sim_enter c st : Sim c st -> ec_pc c < bc_length bc ->
  exists s s1 op se regs locals, Turn s s1 /\ lowers mem bc sc s s1 op se /\ es_pc s = ec_pc c /\
    rtc next st (regs, locals, length (lcode se)) /\ Frame c regs locals /\
    in_regs regs (lregs se) (es_stack se) (ec_stack c) /\ es_fallthrough_reachable se = true.
Proof.
  intros H Hlt. destruct H as [regs locals s Hf H0 H1 Hpc Hft Hin|regs locals s s1 op se Hf Ht Hlow Hpc Htg Hst].
  2: { destruct (enter_reload c regs locals s s1 op se) as (regs'&?&?&?&?); auto. exists s, s1, op, se, regs', locals. split_and!; auto. }
  destruct (fall_turn s H0 H1 ltac:(lia)) as [s1 Ht]. pose proof (frame_depth _ _ _ Hf Hlt) as Hd.
  destruct (proj1 (proj2 Ht)) as [_ [(Hneg&_)|(op&se&Hlow)]]; [rewrite Hpc in Hneg; lia|].
  destruct (is_target (sc_targets sc) (ec_pc c)) eqn:Htg.
  - destruct (turn_code _ _ _ _ Ht Hlow) as (Hc&Hc1&_). pose proof (lowers_enter _ _ _ _ _ _ _ Hlow) as He.
    rewrite Hpc, Htg in He. destruct He as (_&Hcode'&_).
    assert (entry_spill bc sc (es_pc s) s = spill_code bc 0 (es_stack s) (es_pc s)) as Hes
      by (unfold entry_spill; by rewrite Hpc, Htg, Hft).
    pose proof (Forall2_length _ _ _ Hin) as Hlen. pose proof (fr_depth _ _ _ Hf Hlt).
    destruct (run_spill bc hp native_i64 native_f64 F args (length (lcode s)) 0 (es_stack s) (ec_stack c) (es_pc s) regs locals (lregs s))
      as (locals'&Hrun&Hl&Hold&Hnew); auto; [|lia|by apply Hf|].
    + apply prefix_code. rewrite <-Hes, Hpc. etrans; [|exact Hc1]. etrans; [|exact Hc]. rewrite Hcode'. by eexists.
    + destruct (enter_reload c regs locals' s s1 op se) as (regs'&Hrun'&?&?&?); auto.
      * destruct Hf. split; auto. intros i v Hi. rewrite Hold; [auto|]. apply lookup_lt_Some in Hi. lia.
      * exists s, s1, op, se, regs', locals'. split_and!; auto. etrans; [exact Hrun|].
        unfold entry_of in Hrun'. rewrite length_app, Hes in Hrun'. unfold spill_code in Hrun' at 1. by rewrite length_imap in Hrun'.
  - pose proof (lowers_enter _ _ _ _ _ _ _ Hlow) as He. rewrite Hpc, Htg in He.
    destruct He as (Hcode'&Hst&Hrg&Hft'). exists s, s1, op, se, regs, locals. rewrite Hcode', Hst, Hrg, Hft'.
    split_and!; auto. constructor.
Qed.

(** *** One opcode *)

Section Opcode.
Context (c : EngineConf) (regs locals : list Z) (s s1 : EngineState) (op : EngineOpcode) (se : EngineState).
Context (Hturn : Turn s s1) (Hlow : lowers mem bc sc s s1 op se) (Hpc : es_pc s = ec_pc c) (Hlt : ec_pc c < bc_length bc).
Context (Hf : Frame c regs locals) (Hin : in_regs regs (lregs se) (es_stack se) (ec_stack c)).
Context (Hft : es_fallthrough_reachable se = true).
Notation pc' := (ec_pc c + opcode_size op).
Notation here := (regs, locals, length (lcode se)).

Lemma op_effect : exists e, opcode_effect op (ec_pc c) (operand_of bc (ec_pc c)) = Some e /\
  let out := Z.of_nat (length (ec_stack c)) - ef_pop_count e + ef_push_count e in
  (forall t, ef_branch_target e = Some t -> is_target (sc_targets sc) t = true /\ depth_at (sc_depths sc) t = out) /\
  (ef_has_fallthrough e = true -> ef_next_offset e < bc_length bc -> depth_at (sc_depths sc) (ef_next_offset e) = out).
Proof.
  pose proof (fr_pc _ _ _ Hf). pose proof (frame_depth _ _ _ Hf Hlt) as [Hd _].
  destruct (so_closed _ _ Hscan (ec_pc c) ltac:(lia) Hd) as (e&He&_&_&Hb&Hn). exists e. rewrite (fr_depth _ _ _ Hf Hlt). split; [|done].
  destruct Hlow as (_&Hop&_). rewrite Hpc in Hop. unfold engine_stack_effect in He. rewrite Hop in He.
  destruct (_ <=? ec_pc c); [done|]. destruct (_ || _); [done|]. destruct (opcode_effect op _ _) as [e'|]; [|done].
  destruct (ef_branch_target e') as [t|]; [destruct (_ <=? t); [done|]|]; by injection He as <-.
Qed.

Lemma op_lowering : exists byte,
  match numeric_op op (operand_of bc (ec_pc c)) with
  | NOther => exists pc, lower_default mem bc byte (ec_pc c) (es_set_pc pc se) = inr s1
  | k => lower_numeric mem bc k byte (ec_pc c) (es_set_pc pc' se) = inr s1
  end.
Proof.
  destruct Hlow as (_&_&_&byte&pc&Hl&Hp). rewrite Hpc in Hl, Hp. exists byte.
  destruct (numeric_op _ _); try (rewrite (Hp ltac:(done)) in Hl; exact Hl). by exists pc.
Qed.

(** The code behind that of the opcode's entry. *)
Lemma op_code l : lcode s1 = lcode se ++ l -> code_at F (length (lcode se)) l.
Proof. intros Hl. destruct (turn_code _ _ _ _ Hturn Hlow) as (_&Hc&_). apply prefix_code. by rewrite <-Hl. Qed.

(** Falling through to the next opcode. *)
Lemma op_falls regs' locals' stack elocals e :
  opcode_effect op (ec_pc c) (operand_of bc (ec_pc c)) = Some e -> ef_has_fallthrough e = true ->
  Z.of_nat (length stack) = Z.of_nat (length (ec_stack c)) - ef_pop_count e + ef_push_count e ->
  length regs' = 64%nat -> length locals' = 64%nat -> length elocals = length (ec_locals c) ->
  (forall i v, elocals !! i = Some v -> locals' !! i = Some v) -> Forall (value_ok mode) stack -> Forall (value_ok mode) elocals ->
  es_pc s1 = pc' -> es_fallthrough_reachable s1 = true -> in_regs regs' (lregs s1) (es_stack s1) stack ->
  Sim (mkConf pc' stack elocals) (regs', locals', length (lcode s1)).
Proof.
  intros He Hfall Hlen Hr Hl Hel Hagree Hv Hlv Hpc1 Hft1 Hin1. destruct Hturn as (H0&H1&H2).
  eapply SimFall; eauto; [|by eapply rtc_r]. pose proof (opcode_size_pos op). pose proof (fr_pc _ _ _ Hf).
  split; auto; simpl; [rewrite Hel; apply Hf|lia|]. intros Hn. destruct op_effect as (e'&He'&_&Hnext).
  rewrite He in He'. injection He' as <-. destruct (opcode_effect_counts _ _ _ _ He) as (_&_&Hno&_).
  rewrite Hno in Hnext. rewrite Hnext by done. done.
Qed.

Lemma op_push irop imm v :
  push_instruction mem irop imm (ec_pc c) (es_set_pc pc' se) = inr s1 ->
  match irop with
  | TURBOJS_IR_CONSTANT_I64 => v = imm
  | TURBOJS_IR_LOCAL_GET => locals !! Z.to_nat imm = Some v
  | TURBOJS_IR_ARGUMENT => args !! Z.to_nat imm = Some v
  | _ => False
  end -> value_ok mode v -> opcode_effect op (ec_pc c) (operand_of bc (ec_pc c)) = Some (mkEffect 0 1 pc' None true) ->
  exists st', rtc next here st' /\ Sim (mkConf pc' (ec_stack c ++ [v]) (ec_locals c)) st'.
Proof.
  intros (f&Hs1&Hreg&Hc&Hr)%push_instruction_inr Hv Hok He.
  change (lregs (es_set_pc _ se)) with (lregs se) in *. change (lcode (es_set_pc _ se)) with (lcode se) in *.
  destruct (turn_code _ _ _ _ Hturn Hlow) as (_&_&Hpos).
  assert (lcode s1 = lcode se ++ [fresh_instruction irop (lregs se) NOREG NOREG imm (ec_pc c)]) as Hc1 by (rewrite Hs1; exact Hc).
  pose proof (op_code _ Hc1) as Hcode1.
  eexists. split; [apply rtc_once; eapply run_load; [exact Hcode1|exact Hv|lia|apply Hf]|].
  replace (S (length (lcode se))) with (length (lcode s1)) by (rewrite Hc1, length_app; simpl; lia).
  eapply op_falls; [exact He|done|..]; simpl; auto; try apply Hf; try (rewrite Hs1; done).
  - rewrite length_app. simpl. lia.
  - rewrite length_insert. apply Hf.
  - apply Forall_app. split; [apply Hf|by constructor].
  - assert (lregs s1 = lregs se + 1 /\ es_stack s1 = es_stack se ++ [lregs se]) as [-> ->] by (rewrite Hs1; split; [exact Hr|done]).
    apply in_regs_write; [lia|apply Hf|done].
Qed.

Lemma op_store keep i :
  lower_put_loc mem bc keep i (ec_pc c) (es_set_pc pc' se) = inr s1 -> 0 <= i ->
  opcode_effect op (ec_pc c) (operand_of bc (ec_pc c)) = Some (mkEffect (if keep then 0 else 1) 0 pc' None true) ->
  match estore c pc' keep i with
  | ENext c' => exists st', rtc next here st' /\ Sim c' st'
  | _ => False
  end.
Proof.
  intros (rest&r&f&Hi&Hst&Hs1&Hc&Hr)%put_loc_inr Hpos He.
  change (lregs (es_set_pc _ se)) with (lregs se) in *. change (lcode (es_set_pc _ se)) with (lcode se) in *.
  change (es_stack (es_set_pc _ se)) with (es_stack se) in *.
  assert (lcode s1 = lcode se ++ [fresh_instruction TURBOJS_IR_LOCAL_SET NOREG r NOREG i (ec_pc c)]) as Hc1 by (rewrite Hs1; exact Hc).
  pose proof Hin as Hin'. rewrite Hst in Hin'. apply Forall2_app_inv_l in Hin' as (vs&[|v [|]]&Hrest&Hlast&Hvs);
    [by inversion Hlast| |by inversion Hlast as [|????? Ho]; inversion Ho].
  apply Forall2_cons_1 in Hlast as [[_ Hv] _]. unfold estore. rewrite (proj2 (pop_Some _ vs v) Hvs).
  pose proof (fr_stack_values _ _ _ Hf) as Hok. pose proof Hok as Hokv. rewrite Hvs in Hokv. apply Forall_app in Hokv as [Hoks Hokv].
  apply Forall_cons in Hokv as [Hokv _]. pose proof (fr_count _ _ _ Hf) as Hcount. pose proof (fr_locals _ _ _ Hf). pose proof (frame_depth _ _ _ Hf Hlt).
  eexists. split; [apply rtc_once; eapply run_local_set; [exact (op_code _ Hc1)|exact Hv|lia]|].
  replace (S (length (lcode se))) with (length (lcode s1)) by (rewrite Hc1, length_app; simpl; lia).
  assert (lregs s1 = lregs se /\ es_stack s1 = if keep then es_stack se else rest) as [Hr1 Hs1']
    by (rewrite Hs1; split; [exact Hr|done]).
  eapply op_falls; [exact He|done|..]; simpl; auto; try apply Hf; try (rewrite Hs1; done).
  - rewrite Hvs. destruct keep; rewrite ?length_app; simpl; lia.
  - by rewrite length_insert.
  - by rewrite length_insert.
  - intros j w Hw. apply list_lookup_insert_Some in Hw as [(<-&<-&?)|(Hne&Hw)]; [apply list_lookup_insert_eq; lia|].
    rewrite list_lookup_insert_ne by done. by apply Hf.
  - by destruct keep.
  - apply Forall_insert; [apply Hf|done].
  - rewrite Hr1, Hs1'. by destruct keep.
Qed.

Lemma op_arithmetic aop :
  lower_arithmetic mem bc aop (ec_pc c) (es_set_pc pc' se) = inr s1 ->
  opcode_effect op (ec_pc c) (operand_of bc (ec_pc c)) = Some (mkEffect 2 1 pc' None true) ->
  match ebinary bc c pc' aop with
  | ENext c' => exists st', rtc next here st' /\ Sim c' st'
  | EDone o => run here o
  | EStuck => False
  end.
Proof.
  intros (rest&l&r&irop&f&Hst&Hop&Hreg&Hs1&Hc&Hr)%arithmetic_inr He.
  change (lregs (es_set_pc _ se)) with (lregs se) in *. change (lcode (es_set_pc _ se)) with (lcode se) in *.
  change (es_stack (es_set_pc _ se)) with (es_stack se) in *. destruct (turn_code _ _ _ _ Hturn Hlow) as (_&_&Hpos).
  assert (lcode s1 = lcode se ++ [fresh_instruction irop (lregs se) l r 0 (ec_pc c)]) as Hc1 by (rewrite Hs1; exact Hc).
  pose proof Hin as Hin'. rewrite Hst in Hin'. apply Forall2_app_inv_l in Hin' as (vs&tl&Hrest&Hlast&Hvs).
  apply Forall2_cons_inv_l in Hlast as (a&tl2&[_ Ha]&Hlast&->). apply Forall2_cons_inv_l in Hlast as (b&tl3&[_ Hb]&Hlast&->).
  apply Forall2_nil_inv_l in Hlast as ->.
  unfold ebinary. rewrite (proj2 (pop_Some _ (vs ++ [a]) b)) by (by rewrite Hvs, <-app_assoc). rewrite (proj2 (pop_Some _ vs a)) by done.
  pose proof (fr_stack_values _ _ _ Hf) as Hok. rewrite Hvs in Hok. apply Forall_app in Hok as [Hok [Hoka [Hokb _]%Forall_cons]%Forall_cons].
  destruct (code_at_one _ _ _ (op_code _ Hc1)) as [t Ht].
  pose proof (arithmetic_step hp native_i64 native_f64 F args mode aop irop l r a b (lregs se) (ec_pc c) t regs locals
    (length (lcode se)) Hop Ha Hb Hoka Hokb) as Hstep.
  destruct (engine_arithmetic mode aop a b) as [o|v] eqn:Hv.
  - eexists. split; [constructor|]. simpl. by rewrite Ht.
  - pose proof (fr_regs _ _ _ Hf). exists (<[Z.to_nat (lregs se) := v]> regs, locals, length (lcode s1)). split.
    + apply rtc_once. eexists. split; [exact Ht|]. rewrite Hstep. unfold wr. rewrite (proj2 (Nat.ltb_lt _ _)) by lia.
      rewrite Hc1, length_app. simpl. by rewrite Nat.add_1_r.
    + assert (lregs s1 = lregs se + 1 /\ es_stack s1 = rest ++ [lregs se]) as [Hr1 Hs1'] by (rewrite Hs1; split; [exact Hr|done]).
      eapply op_falls; [exact He|done|..]; simpl; auto; try apply Hf; try (rewrite Hs1; done).
      * rewrite Hvs, !length_app. simpl. lia.
      * by rewrite length_insert.
      * apply Forall_app. split; [done|]. constructor; [|done]. by eapply arithmetic_value.
      * rewrite Hr1, Hs1'. apply in_regs_write; [lia|done|done].
Qed.

(** The FLOAT64 mode has no conditional branches and no constants. *)
Lemma op_mode : double_safe op = false -> mode = TURBOJS_ENGINE_NUMERIC_INT32.
Proof.
  intros Hds. destruct mode eqn:Hm; [done|]. exfalso. destruct Hlow as (_&Hop&_).
  destruct (bc_bytecode bc !! Z.to_nat (es_pc s)) as [byte|] eqn:Hb; [|done]. simpl in Hop.
  pose proof (Forall_lookup_1 _ _ _ _ (Hmode Hm) Hb) as H. simpl in H. rewrite Hop in H. congruence.
Qed.

(** The operand stack is spilled where control leaves. *)
Lemma op_spill stack vs offset :
  code_at F (length (lcode se)) (spill_code bc 0 stack offset) -> in_regs regs (lregs se) stack vs ->
  (length vs <= length (ec_stack c))%nat ->
  exists locals', rtc next here (regs, locals', length (lcode se ++ spill_code bc 0 stack offset)) /\ length locals' = 64%nat /\
    (forall i v, ec_locals c !! i = Some v -> locals' !! i = Some v) /\
    (forall i v, vs !! i = Some v -> locals' !! (Z.to_nat lc + i)%nat = Some v).
Proof.
  intros Hc Hst Hlen. pose proof (Forall2_length _ _ _ Hst). pose proof (frame_depth _ _ _ Hf Hlt).
  pose proof (fr_depth _ _ _ Hf Hlt).
  destruct (run_spill bc hp native_i64 native_f64 F args _ _ _ _ _ _ locals _ Hc Hst) as (locals'&Hrun&Hl&Hold&Hnew);
    [done|lia|apply Hf|].
  exists locals'. split_and!; auto.
  - rewrite length_app. unfold spill_code at 1. rewrite length_imap. exact Hrun.
  - intros i v Hi. rewrite Hold; [by apply Hf|]. pose proof (fr_count _ _ _ Hf). apply lookup_lt_Some in Hi. lia.
Qed.

(** Jumping to a branch target. *)
Lemma op_jumps e t locals' stack s' s1' op' se' :
  opcode_effect op (ec_pc c) (operand_of bc (ec_pc c)) = Some e -> ef_branch_target e = Some t -> 0 <= t ->
  Z.of_nat (length stack) = Z.of_nat (length (ec_stack c)) - ef_pop_count e + ef_push_count e ->
  length locals' = 64%nat -> (forall i v, ec_locals c !! i = Some v -> locals' !! i = Some v) -> Forall (value_ok mode) stack ->
  (forall i v, stack !! i = Some v -> locals' !! (Z.to_nat lc + i)%nat = Some v) ->
  Turn s' s1' -> lowers mem bc sc s' s1' op' se' -> es_pc s' = t ->
  Sim (mkConf t stack (ec_locals c)) (regs, locals', entry_of s').
Proof.
  intros He Ht Hpos Hlen Hl Hagree Hv Hst Hturn' Hlow' Hpc'. destruct op_effect as (e'&He'&Hb&_). rewrite He in He'.
  injection He' as <-. destruct (Hb t Ht) as [Htarget Hd]. eapply SimJump; eauto.
  split; auto; try apply Hf. intros _. simpl. by rewrite Hd.
Qed.

(** The branch instruction and its target. *)
Lemma op_branch_fixup k t i : (k, t) ∈ es_fixups s1 -> lcode s1 !! k = Some i ->
  exists s' s1' op' se', Turn s' s1' /\ lowers mem bc sc s' s1' op' se' /\ es_pc s' = t /\
    f_instructions F !! k = Some (in_set_target (Z.of_nat (entry_of s')) i).
Proof.
  intros Hk Hi. destruct Hturn as (_&_&H2). destruct (lsteps_Grown _ _ _ _ _ H2) as [Hc _ _ _ (l&Hl&_)]. apply Hfix.
  - rewrite Hl. set_solver.
  - by eapply prefix_lookup_Some.
Qed.

Lemma op_branch d cond :
  numeric_op op (operand_of bc (ec_pc c)) = NBranch d cond ->
  lower_branch_to mem bc d cond (ec_pc c) (es_set_pc pc' se) = inr s1 ->
  match ebranch bc c pc' (ec_pc c + 1 + d) cond with
  | ENext c' => exists st', rtc next here st' /\ Sim c' st'
  | _ => False
  end.
Proof.
  intros Hnum (stack&reg&f&Ht&Hst&Hstack1&Hpc1&_&Hout&Hft1&Hc&Hr&Hfx)%branch_inr.
  change (lregs (es_set_pc _ se)) with (lregs se) in *. change (lcode (es_set_pc _ se)) with (lcode se) in *.
  change (es_stack (es_set_pc _ se)) with (es_stack se) in *. change (es_fallthrough_reachable (es_set_pc _ se)) with (es_fallthrough_reachable se) in *.
  rewrite <-Hout in Hc, Hr. change (f_instructions (es_out s1)) with (lcode s1) in Hc. change (f_register_count (es_out s1)) with (lregs s1) in Hr.
  set (sp := spill_code bc 0 stack (ec_pc c)) in *. set (i := fresh_instruction (branch_opcode cond) NOREG reg NOREG 0 (ec_pc c)) in *.
  destruct (op_branch_fixup (length (lcode se ++ sp)) (ec_pc c + 1 + d) i) as (s'&s1'&op'&se'&Hturn'&Hlow'&Hpc'&HF).
  { rewrite Hfx. set_solver. }
  { rewrite Hc. by apply list_lookup_middle. }
  pose proof Hc as Hcode1. rewrite <-app_assoc in Hcode1. apply op_code, code_at_app in Hcode1 as [Hsp _].
  pose proof (opcode_effect_numeric op (ec_pc c) (operand_of bc (ec_pc c))) as He. cbv zeta in He. rewrite Hnum in He.
  unfold SIZE_MAX, UINT64_MAX in Hsize. rewrite uwrap_small in He by (unfold is_u; lia).
  pose proof (fr_stack_values _ _ _ Hf) as Hok. unfold ebranch. destruct cond as [b|].
  - assert (mode = TURBOJS_ENGINE_NUMERIC_INT32) as Hint
      by (apply op_mode; destruct op; try discriminate Hnum; done).
    pose proof Hin as Hin'. rewrite Hst in Hin'. apply Forall2_app_inv_l in Hin' as (vs&tl&Hrest&Hlast&Hvs).
    apply Forall2_cons_inv_l in Hlast as (v&tl2&[_ Hv]&Hlast&->). apply Forall2_nil_inv_l in Hlast as ->.
    rewrite (proj2 (pop_Some _ vs v) Hvs). rewrite Hvs in Hok. apply Forall_app in Hok as [Hok _].
    destruct (op_spill stack vs (ec_pc c) Hsp Hrest) as (locals'&Hrun&Hl&Hagree&Hspilled); [rewrite Hvs, length_app; lia|].
    pose proof (branch_step hp native_i64 native_f64 F args (length (lcode se ++ sp)) b reg (ec_pc c) _ regs locals' v HF Hv) as Hstep.
    rewrite Hint. simpl. eexists. split; [eapply rtc_r; [exact Hrun|exact Hstep]|]. destruct (Bool.eqb _ _).
    + eapply op_jumps; eauto; [lia|]. rewrite Hvs, length_app. simpl. lia.
    + replace (S (length (lcode se ++ sp))) with (length (lcode s1)) by (rewrite Hc, length_app; simpl; lia).
      eapply op_falls; [exact He|done|..]; simpl; auto; try apply Hf; try congruence.
      * rewrite Hvs, length_app. simpl. lia.
      * by rewrite Hr, Hstack1.
  - destruct Hst as [Hst ->]. pose proof Hin as Hin'. rewrite Hst in Hin'.
    destruct (op_spill stack (ec_stack c) (ec_pc c) Hsp Hin') as (locals'&Hrun&Hl&Hagree&Hspilled); [done|].
    eexists. split.
    + eapply rtc_r; [exact Hrun|]. instantiate (1 := (regs, locals', entry_of s')). eexists. split; [exact HF|].
      unfold ir_step, execute_step. simpl. by rewrite Nat2Z.id.
    + eapply op_jumps; eauto; [lia|]. simpl. lia.
Qed.

Lemma op_return :
  lower_return mem bc (ec_pc c) (es_set_pc pc' se) = inr s1 ->
  match pop (ec_stack c) with Some (_, v) => run here (Result v) | None => False end.
Proof.
  unfold lower_return. change (es_stack (es_set_pc _ se)) with (es_stack se). destruct (pop (es_stack se)) as [[rest r]|] eqn:Hp; [|done].
  apply pop_Some in Hp as Hst. destruct (emit _ _ _) as [|s2] eqn:Hem; [done|]. intros [= Hs1].
  apply emit_inr in Hem as (f&->&Hc&_). change (lcode (es_set_pc _ se)) with (lcode se) in Hc.
  pose proof Hin as Hin'. rewrite Hst in Hin'. apply Forall2_app_inv_l in Hin' as (vs&tl&_&Hlast&Hvs).
  apply Forall2_cons_inv_l in Hlast as (v&tl2&[_ Hv]&Hlast&->). apply Forall2_nil_inv_l in Hlast as ->.
  rewrite (proj2 (pop_Some _ vs v) Hvs). eexists. split; [constructor|].
  assert (lcode s1 = lcode se ++ [fresh_instruction (return_opcode bc) NOREG r NOREG 0 (ec_pc c)]) as Hc1 by (rewrite <-Hs1; exact Hc).
  destruct (code_at_one _ _ _ (op_code _ Hc1)) as [t Ht]. simpl. rewrite Ht. unfold ir_step, execute_step, rd, return_opcode.
  by destruct (bc_numeric_mode bc); simpl; rewrite Hv.
Qed.

Lemma op_leave byte pc :
  lower_default mem bc byte (ec_pc c) (es_set_pc pc se) = inr s1 -> run here (Stop TURBOJS_IR_BAILOUT).
Proof.
  intros (r1&r2&r3&f&Hs1&H1&H2&H3&_&Hc)%default_inr.
  change (lregs (es_set_pc _ se)) with (lregs se) in *. change (lcode (es_set_pc _ se)) with (lcode se) in *.
  assert (lcode s1 = f_instructions f) as Hc1 by by rewrite Hs1. rewrite Hc in Hc1. pose proof (op_code _ Hc1) as Hcode1.
  destruct (turn_code _ _ _ _ Hturn Hlow) as (_&_&Hpos). pose proof (fr_regs _ _ _ Hf).
  destruct (Hcode1 0%nat _ eq_refl) as [t0 F0], (Hcode1 1%nat _ eq_refl) as [t1 F1], (Hcode1 2%nat _ eq_refl) as [t2 F2].
  set (n := length (lcode se)) in *. exists (<[Z.to_nat r2 := 0]> (<[Z.to_nat r1 := 0]> regs), locals, (n + 2)%nat). split.
  - eapply rtc_l; [|apply rtc_once].
    + instantiate (1 := (<[Z.to_nat r1 := 0]> regs, locals, S n)). eexists. rewrite Nat.add_0_r in F0. split; [exact F0|].
      unfold ir_step, execute_step, wr. simpl. by rewrite (proj2 (Nat.ltb_lt _ _)) by lia.
    + eexists. rewrite Nat.add_1_r in F1. split; [exact F1|]. unfold ir_step, execute_step, wr. simpl.
      rewrite (proj2 (Nat.ltb_lt _ _)) by (rewrite length_insert; lia). by rewrite Nat.add_comm.
  - simpl. by rewrite F2.
Qed.

(** The machine's step at an opcode, on the emitted code. *)
Lemma op_step :
  match engine_step bc args c with
  | ENext c' => exists st', rtc next here st' /\ Sim c' st'
  | EDone o => run here o
  | EStuck => True
  end.
Proof.
  destruct Hlow as (_&Hop&_). rewrite Hpc in Hop. rewrite (engine_step_numeric _ _ _ _ Hlt Hop).
  destruct op_lowering as [byte Hl]. pose proof (opcode_effect_numeric op (ec_pc c) (operand_of bc (ec_pc c))) as He. cbv zeta in He.
  pose proof (numeric_op_operand op (operand_of bc (ec_pc c)) (Forall_drop _ _ _ Hbytes)) as Hopd.
  destruct (numeric_op op _) as [|v|i|i|keep i|aop|d cond| |] eqn:Hnum; simpl in Hl.
  - injection Hl as Hs1. exists here. split; [constructor|]. replace (lcode se) with (lcode s1) by by rewrite <-Hs1.
    eapply op_falls; [exact He|done|..]; try apply Hf; simpl; try (by rewrite <-Hs1); [lia|done].
  - assert (mode = TURBOJS_ENGINE_NUMERIC_INT32) as Hint by (apply op_mode; destruct op; try discriminate Hnum; done).
    rewrite Hint. simpl. eapply op_push; [exact Hl|done|by intros _|done].
  - unfold lower_get_arg in Hl. destruct (_ <=? _); [done|]. unfold epush. destruct (args !! Z.to_nat i) as [v|] eqn:Hv; [|done].
    eapply op_push; [exact Hl|done| |done]. by eapply (Forall_lookup_1 _ args).
  - unfold lower_get_loc in Hl. destruct (_ <=? _); [done|]. unfold epush. destruct (ec_locals c !! Z.to_nat i) as [v|] eqn:Hv; [|done].
    eapply op_push; [exact Hl|by apply Hf| |done]. eapply (Forall_lookup_1 _ (ec_locals c)); [apply Hf|done].
  - pose proof (op_store _ _ Hl Hopd He). by destruct (estore _ _ _ _).
  - pose proof (op_arithmetic _ Hl He). by destruct (ebinary _ _ _ _).
  - pose proof (op_branch _ _ Hnum Hl). by destruct (ebranch _ _ _ _ _).
  - pose proof (op_return Hl). by destruct (pop _) as [[]|].
  - destruct Hl as [pc Hl]. by eapply op_leave.
Qed.
End Opcode.

(** A run of the machine is a run of the IR. *)
Lemma sim_run c o : engine_run bc args c o -> forall st, Sim c st -> run st o.
Proof.
  assert (forall c st, Sim c st -> ec_pc c < bc_length bc ->
    match engine_step bc args c with
    | ENext c' => exists st', rtc next st st' /\ Sim c' st'
    | EDone o => run st o
    | EStuck => True
    end) as Hstep.
  { intros c' st HS Hlt. destruct (sim_enter _ _ HS Hlt) as (s&s1&op&se&regs&locals&Ht&Hlow&Hpc&Hrun&Hf&Hin&Hft).
    pose proof (op_step c' regs locals s s1 op se Ht Hlow Hpc Hlt Hf Hin Hft) as H. destruct (engine_step bc args c') as [c2|o'|]; [| |done].
    - destruct H as (st'&H1&H2). exists st'. split; [by etrans|done].
    - by eapply ir_run_after. }
  intros H. induction H as [c o Hs|c c' o Hs _ IH]; intros st HS; specialize (Hstep c st HS).
  - destruct (Z.lt_ge_cases (ec_pc c) (bc_length bc)) as [Hlt|Hge]; [specialize (Hstep Hlt); by rewrite Hs in Hstep|].
    unfold engine_step in Hs. rewrite (proj2 (Z.leb_le _ _) Hge) in Hs. injection Hs as <-.
    destruct HS as [regs locals s Hf H0 H1 Hpc Hft Hin|regs locals s s1 op se Hf (_&[Hr _]&_) Hlow Hpc _ _]; [|lia].
    eexists. split; [constructor|]. inversion H1 as [|? s1 ? [Hr _] _]; subst; [|lia]. simpl.
    rewrite lookup_ge_None_2; [done|]. by rewrite Hlength.
  - destruct (Z.lt_ge_cases (ec_pc c) (bc_length bc)) as [Hlt|Hge].
    + specialize (Hstep Hlt). rewrite Hs in Hstep. destruct Hstep as (st'&H1&H2). eapply ir_run_after; [exact H1|]. by apply IH.
    + unfold engine_step in Hs. by rewrite (proj2 (Z.leb_le _ _) Hge) in Hs.
Qed.
End Simulation.

(** ** The translation *)

(** The inputs the machine is about: bytes, the widths of the descriptor's
    fields, and arguments of the numeric mode. *)
Record EngineInput (bc : TurboJSEngineBytecodeInfo) (args : list Z) : Prop := {
  ei_bytes : bytes_ok bc;
  ei_length : bc_length bc <= SIZE_MAX;
  ei_locals : 0 <= bc_local_count bc;
  ei_stack : 0 <= bc_stack_size bc;
  ei_mode : mode_ok bc;
  ei_args : Forall (value_ok (bc_numeric_mode bc)) args
}.

(** Before the first opcode, with locals [l]. *)
Lemma initial_frame bc sc l regs locals :
  ScanOk bc sc -> length regs = 64%nat -> length locals = 64%nat -> length l = Z.to_nat (bc_local_count bc) ->
  (forall i v, l !! i = Some v -> locals !! i = Some v) -> Forall (value_ok (bc_numeric_mode bc)) l -> Frame bc sc (mkConf 0 [] l) regs locals.
Proof. intros Hscan Hr Hl Hn Ha Hv. split; [done|done|done|done|done|by intros _; symmetry; apply Hscan|constructor|done]. Qed.

Section Translation.
Context (mem : EngineMemory) (sa ra : nat -> Z) (bc : TurboJSEngineBytecodeInfo) (sc : StackScan) (next : Z).
Context (Hscan : ScanOk bc sc).
Notation s0 := (engine_initial bc next).

(** The loop ends, and the fixups name the code of visited offsets. *)
Lemma lower_function_inr s' :
  lower_function mem no_resolvers sa ra bc sc s0 = inr s' -> f_instruction_count (es_out s') <= UINT32_MAX ->
  sc_maximum sc <= bc_stack_size bc /\
  exists sF, rtc (lstep mem bc sc) s0 sF /\ bc_length bc <= es_pc sF /\ (length (lcode s') = length (lcode sF))%nat /\
    (forall k i, lcode sF !! k = Some i -> exists t, lcode s' !! k = Some (in_set_target t i)) /\
    (forall k t i, (k, t) ∈ es_fixups sF -> lcode sF !! k = Some i ->
       exists s s1 op se, Turn mem bc sc s0 sF s s1 /\ lowers mem bc sc s s1 op se /\ es_pc s = t /\
         lcode s' !! k = Some (in_set_target (Z.of_nat (entry_of bc sc s)) i)).
Proof.
  unfold lower_function. destruct (_ <? sc_maximum sc) eqn:Hmax; [done|]. b2p.
  destruct (lower_loop _ _ _ _ _ _ _ _) as [|sF] eqn:Hloop; [done|]. destruct (negb _); [done|]. intros Hfix Hcount. split; [lia|].
  exists sF. apply lower_loop_inr in Hloop as [Hsteps Hend]; [|done|done|simpl; unfold bc_length; lia].
  destruct (lsteps_Grown _ _ _ _ _ Hsteps) as [_ _ _ _ (l&Hl&Hnd&Htg&_)]. simpl in Hl. rewrite Hl in Hfix |- *.
  apply apply_fixups_inr in Hfix as (Hlen&Hany&Hin&_); [|done]. change (lcode (es_map_offset _ sF)) with (lcode sF) in *.
  split_and!; auto. intros k t i Hkt Hi. destruct (Hin k t i Hkt Hi) as (v&Hv&Hne&Hs').
  assert (0 <= t < bc_length bc) as Ht by (apply (proj1 (Forall_forall _ _) Htg); apply list_elem_of_fmap; by exists (k, t)).
  simpl in Hv. rewrite list_lookup_insert_ne in Hv by lia.
  destruct (map_origin mem bc sc s0 sF t v) as (s&s1&H0&H1&H2&Hpc&(op&se&Hlow)&Hval); auto; [lia| |].
  { intros w Hw. simpl in Hw. change (w ∈ replicate (S (length (bc_bytecode bc))) SIZE_MAX) in Hw. by apply elem_of_replicate in Hw as [-> _]. }
  exists s, s1, op, se. split_and!; auto; [by split|]. rewrite Hs'. unfold entry_of. rewrite Hpc, <-Hval. do 2 f_equal.
  apply uwrap_small. pose proof (turn_entry mem bc sc s0 sF s s1 op se) as Hle. unfold entry_of in Hle. rewrite Hpc in Hle.
  specialize (Hle ltac:(by split) Hlow). unfold f_instruction_count in Hcount. fold (lcode s') in Hcount. unfold is_u, UINT32_MAX in *. lia.
Qed.
End Translation.

(** From any registers, and locals the machine starts with as well. *)
Lemma engine_lowering_from mem sa ra bc hp next f n1 n2 args o l regs locals :
  EngineInput bc args -> TurboJS_EngineBytecodeToIR mem no_resolvers sa ra bc hp next = Some (EngineLowered f) ->
  f_instruction_count f <= UINT32_MAX -> length regs = 64%nat -> length locals = 64%nat -> length l = Z.to_nat (bc_local_count bc) ->
  (forall i v, l !! i = Some v -> locals !! i = Some v) -> Forall (value_ok (bc_numeric_mode bc)) l ->
  engine_run bc args (mkConf 0 [] l) o -> ir_run hp n1 n2 f args (regs, locals, 0%nat) o.
Proof.
  intros HI. unfold TurboJS_EngineBytecodeToIR. destruct (_ || _) eqn:Hlim; [done|]. b2p.
  destruct (negb _); [done|]. destruct (analyze_stack_depths _ bc) as [[]|sc] eqn:Hsc; [done|].
  pose proof (analyze_stack_depths_ok _ _ _ Hsc) as Hscan.
  destruct (lower_function _ _ _ _ _ _ _) as [[]|s'] eqn:Hlow; [done|]. destruct (TurboJS_IRVerify _ _) as [dg|]; [|done]. simpl.
  intros Hf Hcount Hr Hl Hn Ha Hv Hrun. assert (f = es_out s') as -> by (by destruct (dg_status dg); simplify_eq). clear Hf.
  destruct (lower_function_inr _ _ _ _ _ _ Hscan _ Hlow Hcount) as (Hmax&sF&Hsteps&Hend&Hlen&Hcode&Hfix).
  unfold TURBOJS_IR_MAX_REGISTERS in *.
  eapply (sim_run mem bc sc hp n1 n2 (es_out s') args (engine_initial bc next) sF); try done; try apply HI; try lia.
  exact (SimFall _ _ _ _ _ _ regs locals _ (initial_frame _ _ _ _ _ Hscan Hr Hl Hn Ha Hv) (rtc_refl _ _) Hsteps eq_refl eq_refl (Forall2_nil_2 _ _ _)).
Qed.


(** ** Examples *)

Fixpoint engine_exec (fuel : nat) (bc : TurboJSEngineBytecodeInfo) (args : list Z) (c : EngineConf) : option Outcome :=
  match fuel with
  | O => None
  | S fuel =>
      match engine_step bc args c with
      | ENext c => engine_exec fuel bc args c
      | EDone o => Some o
      | EStuck => None
      end
  end.

Lemma engine_exec_run fuel bc args c o : engine_exec fuel bc args c = Some o -> engine_run bc args c o.
Proof.
  revert c. induction fuel as [|fuel IH]; intros c; simpl; [done|]. destruct (engine_step bc args c) as [c'|o'|] eqn:Hs; [| |done].
  - intros H. eapply engine_run_next; [exact Hs|auto].
  - intros [= <-]. by apply engine_run_done.
Qed.

Definition engine_memory : EngineMemory :=
  mkEngineMemory true true (fun _ => true) (fun _ => true) (fun _ => true) (fun _ => true) (fun _ => true).

(** [i = 0; s = 0; while (i < n) { s += i; i += 1 } return s], with [i] the
    second local. *)
Definition sum_loop : TurboJSEngineBytecodeInfo :=
  mkBytecodeInfo [1; 0; 0; 0; 0; 208; 1; 0; 0; 0; 0; 209; 205; 216; 166; 241; 15; 204; 205; 157; 208; 205; 1; 1; 0; 0; 0; 157; 209;
                  243; 238; 204; 40] 1 2 2 TURBOJS_ENGINE_NUMERIC_INT32.

(** [n + (n < 5 ? n : 5)]: the left operand crosses the branches. *)
Definition clamp_sum (mode : TurboJSEngineNumericMode) : TurboJSEngineBytecodeInfo :=
  mkBytecodeInfo [216; 216; 1; 5; 0; 0; 0; 166; 241; 4; 216; 243; 6; 1; 5; 0; 0; 0; 157; 40] 1 0 3 mode.

Definition lowered (bc : TurboJSEngineBytecodeInfo) : TurboJSIRFunction :=
  match TurboJS_EngineBytecodeToIR engine_memory no_resolvers (fun _ => 0) (fun _ => 0) bc empty_heap 1 with
  | Some (EngineLowered f) => f
  | _ => zero_function
  end.

(** An integer function is an input. *)
Lemma int32_input bc args : bc_numeric_mode bc = TURBOJS_ENGINE_NUMERIC_INT32 -> forallb in_i32 args = true ->
  forallb (fun b => (0 <=? b) && (b <? 256)) (bc_bytecode bc) = true -> bc_length bc <= SIZE_MAX ->
  0 <= bc_local_count bc -> 0 <= bc_stack_size bc -> EngineInput bc args.
Proof.
  intros Hm Ha Hb ???. split; auto.
  - apply Forall_forall. intros b Hin%list_elem_of_In. rewrite forallb_forall in Hb. apply Hb in Hin. unfold is_byte. b2p. lia.
  - intros Hd. congruence.
  - apply Forall_forall. intros b Hin%list_elem_of_In _. rewrite forallb_forall in Ha. by apply Ha.
Qed.


(** The portable interpreter refuses the result: it takes arguments in the
    prologue only. *)
Example sum_loop_not_portable : TurboJS_IRExecute empty_heap no_native no_native (lowered sum_loop) [4] = Stop TURBOJS_IR_INVALID_ARGUMENT.
Proof. vm_compute. reflexivity. Qed.

(** The FLOAT64 translation of [return 5] returns the double with bits 5. *)
Definition double_constant : TurboJSEngineBytecodeInfo :=
  mkBytecodeInfo [1; 5; 0; 0; 0; 40] 0 0 1 TURBOJS_ENGINE_NUMERIC_FLOAT64.

Example double_constant_bits :
  engine_exec 10 double_constant [] (engine_start double_constant) = Some (Result 4617315517961601024) /\
  TurboJS_IRExecute empty_heap no_native no_native (lowered double_constant) [] = Result 5.
Proof. vm_compute. done. Qed.

(** A method call with one argument, [a.b(c) + (a ? b : c)]: the depth
    analysis counts the operands of [call_method] without the arguments, so
    from the merge on slot 2 stands for the top of the stack.  The sum reads
    slots 1 and 2; the result of the call is in slot 0. *)
Definition method_call : TurboJSEngineBytecodeInfo :=
  mkBytecodeInfo [216; 217; 218; 36; 1; 0; 216; 241; 4; 217; 243; 2; 218; 157; 40] 3 0 5 TURBOJS_ENGINE_NUMERIC_INT32.

Definition one_target : EngineResolvers :=
  mkResolvers (Some (fun _ argc _ s => (TURBOJS_IR_OK,
    mkCallSite 4096 1 argc (cs_expected_kind s) (cs_flags s) 0 0 (cs_environment_rooting s) false 0 0 0
      (cs_receiver_register s) (cs_argument_registers s)))) None None.

Example method_call_result_lost :
  exists f, TurboJS_EngineBytecodeToIR engine_memory one_target (fun k => 8192 + Z.of_nat k) (fun _ => 0) method_call empty_heap 1
              = Some (EngineLowered f) /\
    f_instructions f !! 8%nat = Some (fresh_instruction TURBOJS_IR_LOCAL_SET NOREG 3 NOREG 0 10) /\
    f_instructions f !! 18%nat = Some (fresh_instruction TURBOJS_IR_LOCAL_GET 10 NOREG NOREG 1 13) /\
    f_instructions f !! 19%nat = Some (fresh_instruction TURBOJS_IR_LOCAL_GET 11 NOREG NOREG 2 13) /\
    f_instructions f !! 20%nat = Some (fresh_instruction TURBOJS_IR_ADD_I32_CHECKED 12 10 11 0 13).
Proof. eexists. split; [vm_compute; reflexivity|]. vm_compute. done. Qed.
