(* ===== verification/BaselineX64.v ===== *)
(** * The baseline compiler (src/jit/backend/x64/baseline_x64.c)

    Every IR instruction becomes a fixed sequence of x86-64 instructions on
    stack slots: IR register [r] at [rbp - 8(r+1)], the locals behind the
    registers.  Failing checks store the instruction index, the registers and
    the locals into the deoptimization buffer and return a status.

    The emitters append to a growing buffer; [None] is a failed growth (the C
    functions return 0).  [mem] answers the allocator, asked with the new
    capacity.  [windows] selects the calling convention.  The [offsetof]
    constants are those of the LP64 layout of the structs. *)

From S2P Require Import Prelude.
From S2P Require Import JitTypes.
From S2P Require Import Clutch.
From S2P Require Import IR.
From S2P Require Import IRVerify.
From S2P Require Import Vault.

(** ** The code buffer *)

Record CodeBuffer := mkCode { cb_bytes : list Z; cb_capacity : Z }.

Definition cb_count (b : CodeBuffer) : Z := Z.of_nat (length (cb_bytes b)).
Definition empty_code : CodeBuffer := mkCode [] 0.

(** [while (cap < need) cap *= 2]; the growth is by one byte, so that one
    doubling is enough. *)
Fixpoint double_until (fuel : nat) (cap need : Z) : Z :=
  match fuel with
  | O => cap
  | S fuel => if cap <? need then double_until fuel (cap * 2) need else cap
  end.

Section Emitters.
Context (mem : Z -> bool).

Definition Emit : Type := CodeBuffer -> option CodeBuffer.

Definition reserve (n : Z) : Emit := fun b =>
  if cb_count b + n <=? cb_capacity b then Some b
  else
    let cap := double_until 64 (if cb_capacity b =? 0 then 256 else cb_capacity b * 2) (cb_count b + n) in
    if mem cap then Some (mkCode (cb_bytes b) cap) else None.

Definition emit8 (v : Z) : Emit := fun b =>
  let? b := reserve 1 b in Some (mkCode (cb_bytes b ++ [v mod 256]) (cb_capacity b)).

(** [e1 && e2] of two emitters. *)
Definition seq_emit (e1 e2 : Emit) : Emit := fun b => let? b := e1 b in e2 b.
Definition emit_all (l : list Emit) : Emit := foldr seq_emit Some l.
Notation "e1 +> e2" := (seq_emit e1 e2) (at level 50, left associativity).

Definition emit32 (v : Z) : Emit := emit_all ((fun i => emit8 (Z.shiftr (uwrap 32 v) (Z.of_nat i * 8))) <$> seq 0 4).
Definition emit64 (v : Z) : Emit := emit_all ((fun i => emit8 (Z.shiftr (uwrap 64 v) (Z.of_nat i * 8))) <$> seq 0 8).

Definition patch32 (off : nat) (v : Z) (b : CodeBuffer) : CodeBuffer :=
  mkCode (take off (cb_bytes b) ++ le_bytes 4 (uwrap 32 v) ++ drop (off + 4) (cb_bytes b)) (cb_capacity b).

(** A 32-bit displacement over [body]: [disp = b->count; emit32(0); body;
    patch32(disp, b->count - (disp + 4))]. *)
Definition over (body : Emit) : Emit := fun b =>
  let disp := length (cb_bytes b) in
  let? b := (emit32 0 +> body) b in
  Some (patch32 disp (cb_count b - (Z.of_nat disp + 4)) b).

(** ** Instruction encodings *)

Definition rex (w : bool) (r x m : Z) : Emit :=
  emit8 (Z.lor 64 (Z.lor (if w then 8 else 0) (Z.lor (if Z.land r 8 =? 0 then 0 else 4)
           (Z.lor (if Z.land x 8 =? 0 then 0 else 2) (if Z.land m 8 =? 0 then 0 else 1))))).
(** [mode | (reg & 7) << 3 | (rm & 7)] *)
Definition modrm (mode reg rm : Z) : Z := Z.lor mode (Z.lor (Z.shiftl (Z.land reg 7) 3) (Z.land rm 7)).

Definition mov_rr (d s : Z) : Emit := rex true s 0 d +> emit8 137 +> emit8 (modrm 192 s d).
Definition mov_imm64 (d v : Z) : Emit := rex true 0 0 d +> emit8 (184 + Z.land d 7) +> emit64 v.

Definition prologue (windows : bool) (frame : Z) : Emit :=
  emit8 85 +> rex true 5 0 4 +> emit8 137 +> emit8 229 +>
  (if frame =? 0 then Some else rex true 0 0 4 +> emit8 129 +> emit8 236 +> emit32 frame) +>
  (if windows then mov_rr 11 1 +> mov_rr 10 2 +> mov_rr 0 9 +> mov_rr 9 8 +> mov_rr 8 0
   else mov_rr 11 7 +> mov_rr 10 6 +> mov_rr 9 2 +> mov_rr 8 1).

Definition epilogue : Emit := emit8 201 +> emit8 195.

Definition return_success : Emit := rex true 0 0 10 +> emit8 137 +> emit8 2 +> emit8 49 +> emit8 192 +> epilogue.

Definition store_base_disp32 (base reg disp : Z) : Emit :=
  rex true reg 0 base +> emit8 137 +> emit8 (modrm 128 reg base) +> emit32 disp.
Definition load_base_disp32 (reg base disp : Z) : Emit :=
  rex true reg 0 base +> emit8 139 +> emit8 (modrm 128 reg base) +> emit32 disp.

Definition slot_disp (r : Z) : Z := -8 * (r + 1).
Definition local_disp (f : TurboJSIRFunction) (l : Z) : Z := -8 * (f_register_count f + l + 1).
Definition call_arg_disp (f : TurboJSIRFunction) (a : Z) : Z :=
  -8 * (f_register_count f + f_local_count f + TURBOJS_CLUTCH_MAX_ARGUMENTS - a).

Definition mem_rbp_disp32 (opcode reg disp : Z) : Emit :=
  rex true reg 0 5 +> emit8 opcode +> emit8 (modrm 128 reg 5) +> emit32 disp.
Definition load_slot (reg slot : Z) : Emit := mem_rbp_disp32 139 reg (slot_disp slot).
Definition store_slot (slot reg : Z) : Emit := mem_rbp_disp32 137 reg (slot_disp slot).
Definition lea_slot (reg slot : Z) : Emit := mem_rbp_disp32 141 reg (slot_disp slot).

Definition push_reg (reg : Z) : Emit := (if 8 <=? reg then rex false 0 0 reg else Some) +> emit8 (80 + Z.land reg 7).
Definition pop_reg (reg : Z) : Emit := (if 8 <=? reg then rex false 0 0 reg else Some) +> emit8 (88 + Z.land reg 7).
Definition call_reg (reg : Z) : Emit := rex false 0 0 reg +> emit8 255 +> emit8 (Z.lor 208 (Z.land reg 7)).
Definition load_arg (reg arg : Z) : Emit := rex true reg 0 11 +> emit8 139 +> emit8 (modrm 128 reg 3) +> emit32 (uwrap 32 (arg * 8)).
Definition binary_rr (opcode dst src : Z) : Emit := rex true src 0 dst +> emit8 opcode +> emit8 (modrm 192 src dst).
Definition imul_rr (dst src : Z) : Emit := rex true dst 0 src +> emit8 15 +> emit8 175 +> emit8 (modrm 192 dst src).
Definition movq_xmm_gpr (xmm gpr : Z) : Emit :=
  emit8 102 +> rex true xmm 0 gpr +> emit8 15 +> emit8 110 +> emit8 (modrm 192 xmm gpr).
Definition movq_gpr_xmm (gpr xmm : Z) : Emit :=
  emit8 102 +> rex true xmm 0 gpr +> emit8 15 +> emit8 126 +> emit8 (modrm 192 xmm gpr).
Definition scalar_f64_rr (opcode dst src : Z) : Emit := emit8 242 +> emit8 15 +> emit8 opcode +> emit8 (modrm 192 dst src).
Definition compare_f64_rr (predicate dst src : Z) : Emit :=
  emit8 242 +> emit8 15 +> emit8 194 +> emit8 (modrm 192 dst src) +> emit8 predicate.
Definition cvtsi2sd_xmm_gpr (xmm gpr : Z) : Emit :=
  emit8 242 +> rex true xmm 0 gpr +> emit8 15 +> emit8 42 +> emit8 (modrm 192 xmm gpr).
Definition cvttsd2si_gpr_xmm (gpr xmm : Z) : Emit :=
  emit8 242 +> rex true gpr 0 xmm +> emit8 15 +> emit8 44 +> emit8 (modrm 192 gpr xmm).

(** ** Bailouts *)

(** Registers [0 .. n) of the loops over [uint16_t i]. *)
Definition upto (n : Z) : list Z := Z.of_nat <$> seq 0 (Z.to_nat n).

Definition return_bailout_at (f : TurboJSIRFunction) (index status : Z) : Emit :=
  mov_imm64 0 index +> store_base_disp32 9 0 0 +>
  emit_all ((fun i => load_slot 0 i +> store_base_disp32 9 0 (8 + i * 8)) <$> upto (f_register_count f)) +>
  emit_all ((fun i => mem_rbp_disp32 139 0 (local_disp f i) +> store_base_disp32 9 0 (8 + (f_register_count f + i) * 8))
              <$> upto (f_local_count f)) +>
  emit8 184 +> emit32 status +> epilogue.

Definition emit_safepoint_poll (f : TurboJSIRFunction) (index : Z) : Emit :=
  emit8 65 +> emit8 131 +> emit8 56 +> emit8 0 +> emit8 15 +> emit8 132 +> over (return_bailout_at f index 4).

Definition check_i32 (f : TurboJSIRFunction) (index : Z) : Emit :=
  emit8 72 +> emit8 99 +> emit8 200 +> emit8 72 +> emit8 57 +> emit8 200 +> emit8 15 +> emit8 132 +>
  over (return_bailout_at f index 1).

(** The two special-case jumps skip the overflow exit, or the zero remainder
    and its jump. *)
Definition emit_divrem_checked (f : TurboJSIRFunction) (index : Z) (want_remainder : bool) : Emit := fun b =>
  let? b := (rex true 1 0 1 +> emit8 133 +> emit8 201 +> emit8 15 +> emit8 133 +> over (return_bailout_at f index 2) +>
             mov_imm64 2 INT32_MIN +> binary_rr 57 0 2 +> emit8 15 +> emit8 133) b in
  let not_min_disp := length (cb_bytes b) in
  let? b := (emit32 0 +> mov_imm64 2 (-1) +> binary_rr 57 1 2 +> emit8 15 +> emit8 133) b in
  let not_neg1_disp := length (cb_bytes b) in
  let? b := emit32 0 b in
  let special := if want_remainder then emit8 49 +> emit8 192 +> emit8 233 else return_bailout_at f index 3 in
  let? b := special b in
  let special_done_disp := length (cb_bytes b) in
  let? b := (if want_remainder then emit32 0 else Some) b in
  let b := patch32 not_min_disp (cb_count b - (Z.of_nat not_min_disp + 4)) b in
  let b := patch32 not_neg1_disp (cb_count b - (Z.of_nat not_neg1_disp + 4)) b in
  let? b := (emit8 72 +> emit8 153 +> rex true 0 0 1 +> emit8 247 +> emit8 249) b in
  if want_remainder then
    let? b := mov_rr 0 2 b in Some (patch32 special_done_disp (cb_count b - (Z.of_nat special_done_disp + 4)) b)
  else Some b.

(** ** Native calls *)

(** [offsetof] of the fields the generated code reads, and the size of a call
    site. *)
Definition site_target : Z := 0.
Definition site_generation : Z := 8.
Definition site_kind : Z := 18.
Definition site_size : Z := 104.
Definition handle_function : Z := 0.
Definition handle_generation : Z := 8.
Definition handle_kind : Z := 18.
Definition native_code : Z := 0.
Definition native_deopt_values : Z := 96.
Definition native_safepoint : Z := 160.

(** The guard of the receiver's shape. *)
Definition emit_shape_guard (f : TurboJSIRFunction) (index : Z) (site : TurboJSClutchCallSite) : Emit :=
  if Z.land (cs_flags site) TURBOJS_CLUTCH_CALL_HAS_RECEIVER_SHAPE_GUARD =? 0 then Some
  else
    load_slot 2 (cs_receiver_register site) +> rex true 2 0 2 +> emit8 133 +> emit8 210 +> emit8 15 +> emit8 133 +>
    over (return_bailout_at f index 5) +>
    load_base_disp32 6 2 (cs_receiver_shape_offset site) +> mov_imm64 7 (cs_receiver_shape_identity site) +>
    binary_rr 57 6 7 +> emit8 15 +> emit8 132 +> over (return_bailout_at f index 5).

(** The guards of the entry handle: target, generation, kind, function. *)
Definition emit_entry_guards (f : TurboJSIRFunction) (index address : Z) : Emit :=
  mov_imm64 0 address +> load_base_disp32 1 0 site_target +> rex true 1 0 1 +> emit8 133 +> emit8 201 +> emit8 15 +> emit8 133 +>
  over (return_bailout_at f index 5) +>
  load_base_disp32 2 0 site_generation +> load_base_disp32 6 1 handle_generation +> binary_rr 57 2 6 +> emit8 15 +> emit8 132 +>
  over (return_bailout_at f index 5) +>
  load_base_disp32 2 0 site_kind +> emit8 15 +> emit8 182 +> emit8 210 +>
  load_base_disp32 6 1 handle_kind +> emit8 64 +> emit8 15 +> emit8 182 +> emit8 246 +> binary_rr 57 2 6 +> emit8 15 +> emit8 132 +>
  over (return_bailout_at f index 5) +>
  load_base_disp32 0 1 handle_function +> rex true 0 0 0 +> emit8 133 +> emit8 192 +> emit8 15 +> emit8 133 +>
  over (return_bailout_at f index 5).

(** The arguments, the call and the check of its status. *)
Definition emit_native_call (windows : bool) (f : TurboJSIRFunction) (index destination : Z) (site : TurboJSClutchCallSite) : Emit :=
  emit_all (imap (fun k r => load_slot 2 r +> mem_rbp_disp32 137 2 (call_arg_disp f (Z.of_nat k)))
              (take (Z.to_nat (cs_argument_count site)) (cs_argument_registers site))) +>
  push_reg 8 +> push_reg 9 +> push_reg 10 +> push_reg 11 +>
  (if windows then
     rex true 0 0 4 +> emit8 131 +> emit8 236 +> emit8 32 +> mem_rbp_disp32 141 1 (call_arg_disp f 0) +> lea_slot 2 destination +>
     load_base_disp32 8 0 native_deopt_values +> load_base_disp32 9 0 native_safepoint +> load_base_disp32 0 0 native_code
   else
     mem_rbp_disp32 141 7 (call_arg_disp f 0) +> lea_slot 6 destination +>
     load_base_disp32 2 0 native_deopt_values +> load_base_disp32 1 0 native_safepoint +> load_base_disp32 0 0 native_code) +>
  call_reg 0 +>
  (if windows then rex true 0 0 4 +> emit8 131 +> emit8 196 +> emit8 32 else Some) +>
  pop_reg 11 +> pop_reg 10 +> pop_reg 9 +> pop_reg 8 +> emit8 133 +> emit8 192 +> emit8 15 +> emit8 132 +>
  over (return_bailout_at f index 5).

(** ** Instructions *)

(** The cases of the switch that only emit; [None] are jumps, calls and the
    opcodes without a case. *)
Definition emit_instruction (f : TurboJSIRFunction) (index : Z) (i : TurboJSIRInstruction) : option Emit :=
  let d := in_destination i in
  let operands := load_slot 0 (in_left i) +> load_slot 1 (in_right i) in
  let integer op := Some (operands +> op +> store_slot d 0) in
  let checked op := Some (operands +> op +> check_i32 f index +> store_slot d 0) in
  let double op := Some (operands +> movq_xmm_gpr 0 0 +> movq_xmm_gpr 1 1 +> scalar_f64_rr op 0 1 +> movq_gpr_xmm 0 0 +> store_slot d 0) in
  let compare predicate :=
    Some (operands +> movq_xmm_gpr 0 0 +> movq_xmm_gpr 1 1 +> compare_f64_rr predicate 0 1 +> movq_gpr_xmm 0 0 +>
          emit8 131 +> emit8 224 +> emit8 1 +> store_slot d 0) in
  match in_opcode i with
  | TURBOJS_IR_NOP => Some (emit8 144)
  | TURBOJS_IR_ARGUMENT => Some (load_arg 0 (in_immediate i) +> store_slot d 0)
  | TURBOJS_IR_CONSTANT_I64 | TURBOJS_IR_CONSTANT_F64 => Some (mov_imm64 0 (in_immediate i) +> store_slot d 0)
  | TURBOJS_IR_ADD_I64 => integer (binary_rr 1 0 1)
  | TURBOJS_IR_SUB_I64 => integer (binary_rr 41 0 1)
  | TURBOJS_IR_MUL_I64 => integer (imul_rr 0 1)
  | TURBOJS_IR_ADD_I32_CHECKED => checked (binary_rr 1 0 1)
  | TURBOJS_IR_SUB_I32_CHECKED => checked (binary_rr 41 0 1)
  | TURBOJS_IR_MUL_I32_CHECKED => checked (imul_rr 0 1)
  | TURBOJS_IR_ADD_F64 => double 88
  | TURBOJS_IR_SUB_F64 => double 92
  | TURBOJS_IR_MUL_F64 => double 89
  | TURBOJS_IR_DIV_F64 => double 94
  | TURBOJS_IR_EQUAL_F64 => compare 0
  | TURBOJS_IR_LESS_THAN_F64 => compare 1
  | TURBOJS_IR_LESS_EQUAL_F64 => compare 2
  | TURBOJS_IR_I64_TO_F64 => Some (load_slot 0 (in_left i) +> cvtsi2sd_xmm_gpr 0 0 +> movq_gpr_xmm 0 0 +> store_slot d 0)
  | TURBOJS_IR_F64_TO_I64_TRUNC => Some (load_slot 0 (in_left i) +> movq_xmm_gpr 0 0 +> cvttsd2si_gpr_xmm 0 0 +> store_slot d 0)
  | TURBOJS_IR_DIV_I32_CHECKED => Some (operands +> emit_divrem_checked f index false +> store_slot d 0)
  | TURBOJS_IR_REM_I32_CHECKED => Some (operands +> emit_divrem_checked f index true +> store_slot d 0)
  | TURBOJS_IR_RUNTIME_HELPER => Some (return_bailout_at f index 5)
  | TURBOJS_IR_LESS_THAN_I64 =>
      Some (operands +> binary_rr 57 0 1 +> emit8 15 +> emit8 156 +> emit8 192 +>
            rex true 0 0 0 +> emit8 15 +> emit8 182 +> emit8 192 +> store_slot d 0)
  | TURBOJS_IR_LOCAL_GET => Some (mem_rbp_disp32 139 0 (local_disp f (uwrap 16 (in_immediate i))) +> store_slot d 0)
  | TURBOJS_IR_LOCAL_SET => Some (load_slot 0 (in_left i) +> mem_rbp_disp32 137 0 (local_disp f (uwrap 16 (in_immediate i))))
  | TURBOJS_IR_RETURN_I64 | TURBOJS_IR_RETURN_F64 => Some (load_slot 0 (in_left i) +> return_success)
  | _ => None
  end.

(** A jump: what precedes its displacement. *)
Definition emit_jump (f : TurboJSIRFunction) (index : Z) (i : TurboJSIRInstruction) : option Emit :=
  let poll := if in_target i <=? index then emit_safepoint_poll f index else Some in
  let test := load_slot 0 (in_left i) +> rex true 0 0 0 +> emit8 133 +> emit8 192 in
  match in_opcode i with
  | TURBOJS_IR_JUMP => Some (poll +> emit8 233)
  | TURBOJS_IR_BRANCH_TRUE => Some (poll +> test +> emit8 15 +> emit8 133)
  | TURBOJS_IR_BRANCH_FALSE => Some (poll +> test +> emit8 15 +> emit8 132)
  | _ => None
  end.
End Emitters.

Definition is_call (i : TurboJSIRInstruction) : bool :=
  match in_opcode i with TURBOJS_IR_CALL_NATIVE_I64 | TURBOJS_IR_CALL_NATIVE_F64 => true | _ => false end.

(** ** The compile loop *)

(** [bs_patches] pairs the offset of a displacement with its target
    instruction; [bs_sites] are the call sites cloned so far. *)
Record BaselineState := mkBaseline {
  bs_code : CodeBuffer;
  bs_offsets : list Z;
  bs_patches : list (nat * Z);
  bs_sites : list TurboJSClutchCallSite;
  bs_events : list RootEvent
}.

(** A failure with the state to clean up; [None] is undefined behaviour. *)
Definition Compiling (A : Type) : Type := option ((TurboJSIRStatus * BaselineState) + A).

Section Compile.
Context (mem : Z -> bool) (windows : bool) (hp : Heap) (sites_base : Z) (f : TurboJSIRFunction).

Definition bs_set_code (c : CodeBuffer) (s : BaselineState) : BaselineState :=
  mkBaseline c (bs_offsets s) (bs_patches s) (bs_sites s) (bs_events s).

(** [if (!e) goto oom] *)
Definition emitting (e : Emit) (s : BaselineState) : Compiling BaselineState :=
  match e (bs_code s) with
  | Some c => Some (inr (bs_set_code c s))
  | None => Some (inl (TURBOJS_IR_OUT_OF_MEMORY, s))
  end.

Definition compile_call (index : Z) (i : TurboJSIRInstruction) (s : BaselineState) : Compiling BaselineState :=
  if in_immediate i =? 0 then Some (inl (TURBOJS_IR_INVALID_ARGUMENT, s))
  else
    let? source := hp_site hp (in_immediate i) in
    let? (st, site, events) := TurboJS_ClutchCallSiteClone source in
    let k := Z.of_nat (length (bs_sites s)) in
    let s := mkBaseline (bs_code s) (bs_offsets s) (bs_patches s) (bs_sites s ++ [site]) (bs_events s ++ events) in
    match st with
    | TURBOJS_IR_OK =>
        match (emit_shape_guard mem f index site (bs_code s)) ≫= emit_entry_guards mem f index (sites_base + site_size * k) with
        | None => Some (inl (TURBOJS_IR_OUT_OF_MEMORY, s))
        | Some c =>
            let s := bs_set_code c s in
            if TURBOJS_CLUTCH_MAX_ARGUMENTS <? cs_argument_count site then Some (inl (TURBOJS_IR_INVALID_ARGUMENT, s))
            else emitting (emit_native_call mem windows f index (in_destination i) site) s
        end
    | _ => Some (inl (TURBOJS_IR_OUT_OF_MEMORY, s))
    end.

Definition compile_jump (e : Emit) (target : Z) (s : BaselineState) : Compiling BaselineState :=
  match e (bs_code s) with
  | None => Some (inl (TURBOJS_IR_OUT_OF_MEMORY, s))
  | Some c =>
      emitting (emit32 mem 0) (mkBaseline c (bs_offsets s) (bs_patches s ++ [(length (cb_bytes c), target)]) (bs_sites s) (bs_events s))
  end.

(** One turn of the loop over the instructions. *)
Definition compile_one (index : Z) (i : TurboJSIRInstruction) (s : BaselineState) : Compiling BaselineState :=
  let s := mkBaseline (bs_code s) (bs_offsets s ++ [cb_count (bs_code s)]) (bs_patches s) (bs_sites s) (bs_events s) in
  if is_call i then compile_call index i s
  else match emit_jump mem f index i with
  | Some e => compile_jump e (in_target i) s
  | None =>
      match emit_instruction mem f index i with
      | Some e => emitting e s
      | None => Some (inl (TURBOJS_IR_UNSUPPORTED, s))
      end
  end.

Fixpoint compile_loop (index : Z) (l : list TurboJSIRInstruction) (s : BaselineState) : Compiling BaselineState :=
  match l with
  | [] => Some (inr s)
  | i :: l =>
      match compile_one index i s with
      | Some (inr s) => compile_loop (index + 1) l s
      | r => r
      end
  end.

(** [patches[pc]] with the offsets of all instructions and of the end. *)
Fixpoint apply_patches (offsets : list Z) (patches : list (nat * Z)) (c : CodeBuffer) : CodeBuffer :=
  match patches with
  | [] => c
  | (off, target) :: patches =>
      apply_patches offsets patches
        (patch32 off (default 0 (offsets !! Z.to_nat target) - (Z.of_nat off + 4)) c)
  end.

(** [(frame_slots * 8 + 15) & ~15], with room for call arguments if there are
    calls. *)
Definition frame_size : Z :=
  let slots := f_register_count f + f_local_count f
               + (if existsb is_call (f_instructions f) then TURBOJS_CLUTCH_MAX_ARGUMENTS else 0) in
  uwrap 32 (Z.land (slots * 8 + 15) (Z.lnot 15)).

(** The code, its instruction offsets and the call sites. *)
Definition generate : Compiling BaselineState :=
  let s := mkBaseline empty_code [] [] [] [] in
  match prologue mem windows frame_size empty_code with
  | None => Some (inl (TURBOJS_IR_OUT_OF_MEMORY, s))
  | Some c =>
      match compile_loop 0 (f_instructions f) (bs_set_code c s) with
      | Some (inr s) =>
          let offsets := bs_offsets s ++ [cb_count (bs_code s)] in
          Some (inr (mkBaseline (apply_patches offsets (bs_patches s) (bs_code s)) offsets (bs_patches s) (bs_sites s) (bs_events s)))
      | r => r
      end
  end.
End Compile.

(** ** Liveness *)

Definition reg_bit (r : Z) : Z := if r <? 64 then Z.shiftl 1 r else 0.
Definition local_bit (l : Z) : Z := if (0 <=? l) && (l <? 64) then Z.shiftl 1 (uwrap 16 l) else 0.

Record UseDef := mkUseDef { ud_use_r : Z; ud_def_r : Z; ud_use_l : Z; ud_def_l : Z }.

Definition instruction_use_def (i : TurboJSIRInstruction) : UseDef :=
  match in_opcode i with
  | TURBOJS_IR_ARGUMENT | TURBOJS_IR_CONSTANT_I64 | TURBOJS_IR_CONSTANT_F64 => mkUseDef 0 (reg_bit (in_destination i)) 0 0
  | TURBOJS_IR_ADD_I64 | TURBOJS_IR_SUB_I64 | TURBOJS_IR_MUL_I64 | TURBOJS_IR_CALL_NATIVE_I64 | TURBOJS_IR_CALL_NATIVE_F64
  | TURBOJS_IR_ADD_F64 | TURBOJS_IR_SUB_F64 | TURBOJS_IR_MUL_F64 | TURBOJS_IR_DIV_F64
  | TURBOJS_IR_LESS_THAN_F64 | TURBOJS_IR_LESS_EQUAL_F64 | TURBOJS_IR_EQUAL_F64
  | TURBOJS_IR_ADD_I32_CHECKED | TURBOJS_IR_SUB_I32_CHECKED | TURBOJS_IR_MUL_I32_CHECKED
  | TURBOJS_IR_DIV_I32_CHECKED | TURBOJS_IR_REM_I32_CHECKED | TURBOJS_IR_RUNTIME_HELPER | TURBOJS_IR_LESS_THAN_I64 =>
      mkUseDef (Z.lor (reg_bit (in_left i)) (reg_bit (in_right i))) (reg_bit (in_destination i)) 0 0
  | TURBOJS_IR_I64_TO_F64 | TURBOJS_IR_F64_TO_I64_TRUNC => mkUseDef (reg_bit (in_left i)) (reg_bit (in_destination i)) 0 0
  | TURBOJS_IR_LOCAL_GET => mkUseDef 0 (reg_bit (in_destination i)) (local_bit (in_immediate i)) 0
  | TURBOJS_IR_LOCAL_SET => mkUseDef (reg_bit (in_left i)) 0 0 (local_bit (in_immediate i))
  | TURBOJS_IR_BRANCH_TRUE | TURBOJS_IR_BRANCH_FALSE | TURBOJS_IR_RETURN_I64 | TURBOJS_IR_RETURN_F64 => mkUseDef (reg_bit (in_left i)) 0 0 0
  | _ => mkUseDef 0 0 0 0
  end.

Definition masks_at (live : list Masks) (pc : nat) : Masks := default (0, 0) (live !! pc).
Definition masks_union (a b : Masks) : Masks := (Z.lor a.1 b.1, Z.lor a.2 b.2).

(** The masks behind an instruction. *)
Definition live_out (live : list Masks) (pc : nat) (i : TurboJSIRInstruction) : Masks :=
  let target := masks_at live (Z.to_nat (in_target i)) in
  let next := if (S pc <? length live)%nat then masks_at live (S pc) else (0, 0) in
  match in_opcode i with
  | TURBOJS_IR_JUMP => target
  | TURBOJS_IR_BRANCH_TRUE | TURBOJS_IR_BRANCH_FALSE => masks_union target next
  | TURBOJS_IR_RETURN_I64 => (0, 0)
  | _ => next
  end.

Definition live_in (i : TurboJSIRInstruction) (out : Masks) : Masks :=
  let ud := instruction_use_def i in
  (Z.lor (ud_use_r ud) (Z.land out.1 (Z.lnot (ud_def_r ud))), Z.lor (ud_use_l ud) (Z.land out.2 (Z.lnot (ud_def_l ud)))).

(** A sweep from the last instruction to the first; the flag is [changed]. *)
Fixpoint live_sweep (instrs : list TurboJSIRInstruction) (pc : nat) (live : list Masks) (changed : bool) : list Masks * bool :=
  match pc with
  | O => (live, changed)
  | S pc =>
      match instrs !! pc with
      | None => (live, changed)
      | Some i =>
          let new := live_in i (live_out live pc i) in
          if decide (new = masks_at live pc) then live_sweep instrs pc live changed
          else live_sweep instrs pc (<[pc := new]> live) true
      end
  end.

Fixpoint live_loop (fuel : nat) (instrs : list TurboJSIRInstruction) (live : list Masks) (changed : bool) : list Masks * bool :=
  match fuel with
  | O => (live, changed)
  | S fuel =>
      if changed then let '(live, changed) := live_sweep instrs (length instrs) live false in live_loop fuel instrs live changed
      else (live, changed)
  end.

(** [None]: no fixed point within the bound. *)
Definition compute_liveness (f : TurboJSIRFunction) : option (list Masks) :=
  let n := length (f_instructions f) in
  match live_loop (n * 4 + 8) (f_instructions f) (replicate n (0, 0)) true with
  | (live, false) => Some live
  | _ => None
  end.

(** ** The native object *)

(** The metadata loop: what is materialized before each instruction, and the
    kinds of registers, locals and the result. *)
Record Metadata := mkMetadata {
  md_materialized : Z;
  md_materialized_locals : Z;
  md_register_kinds : list TurboJSValueKind;
  md_local_kinds : list TurboJSValueKind;
  md_result_kind : TurboJSValueKind
}.

Definition defines (op : TurboJSIROpcode) : bool :=
  match op with
  | TURBOJS_IR_ARGUMENT | TURBOJS_IR_CONSTANT_I64 | TURBOJS_IR_CONSTANT_F64 | TURBOJS_IR_ADD_I64 | TURBOJS_IR_SUB_I64
  | TURBOJS_IR_MUL_I64 | TURBOJS_IR_ADD_F64 | TURBOJS_IR_SUB_F64 | TURBOJS_IR_MUL_F64 | TURBOJS_IR_DIV_F64
  | TURBOJS_IR_ADD_I32_CHECKED | TURBOJS_IR_SUB_I32_CHECKED | TURBOJS_IR_MUL_I32_CHECKED | TURBOJS_IR_DIV_I32_CHECKED
  | TURBOJS_IR_REM_I32_CHECKED | TURBOJS_IR_RUNTIME_HELPER | TURBOJS_IR_CALL_NATIVE_I64 | TURBOJS_IR_CALL_NATIVE_F64
  | TURBOJS_IR_LESS_THAN_I64 | TURBOJS_IR_LESS_THAN_F64 | TURBOJS_IR_LESS_EQUAL_F64 | TURBOJS_IR_EQUAL_F64
  | TURBOJS_IR_I64_TO_F64 | TURBOJS_IR_F64_TO_I64_TRUNC | TURBOJS_IR_LOCAL_GET => true
  | _ => false
  end.

Definition defined_kind (op : TurboJSIROpcode) : TurboJSValueKind :=
  match op with
  | TURBOJS_IR_LESS_THAN_I64 | TURBOJS_IR_LESS_THAN_F64 | TURBOJS_IR_LESS_EQUAL_F64 | TURBOJS_IR_EQUAL_F64 => TURBOJS_VALUE_BOOLEAN
  | TURBOJS_IR_ADD_I32_CHECKED | TURBOJS_IR_SUB_I32_CHECKED | TURBOJS_IR_MUL_I32_CHECKED | TURBOJS_IR_DIV_I32_CHECKED
  | TURBOJS_IR_REM_I32_CHECKED => TURBOJS_VALUE_I32
  | TURBOJS_IR_CONSTANT_F64 | TURBOJS_IR_ADD_F64 | TURBOJS_IR_SUB_F64 | TURBOJS_IR_MUL_F64 | TURBOJS_IR_DIV_F64
  | TURBOJS_IR_I64_TO_F64 => TURBOJS_VALUE_F64
  | _ => TURBOJS_VALUE_I64
  end.

Definition metadata_step (f : TurboJSIRFunction) (i : TurboJSIRInstruction) (m : Metadata) : Metadata :=
  let kind_of r := default TURBOJS_VALUE_UNKNOWN (md_register_kinds m !! Z.to_nat r) in
  if defines (in_opcode i) then
    mkMetadata (Z.lor (md_materialized m) (reg_bit (in_destination i))) (md_materialized_locals m)
      (if in_destination i <? f_register_count f
       then <[Z.to_nat (in_destination i) := defined_kind (in_opcode i)]> (md_register_kinds m) else md_register_kinds m)
      (md_local_kinds m) (md_result_kind m)
  else match in_opcode i with
  | TURBOJS_IR_LOCAL_SET =>
      mkMetadata (md_materialized m) (Z.lor (md_materialized_locals m) (local_bit (in_immediate i))) (md_register_kinds m)
        (if (0 <=? in_immediate i) && (in_immediate i <? f_local_count f)
         then <[Z.to_nat (in_immediate i) := if in_left i <? f_register_count f then kind_of (in_left i) else TURBOJS_VALUE_UNKNOWN]>
                (md_local_kinds m)
         else md_local_kinds m)
        (md_result_kind m)
  | TURBOJS_IR_RETURN_I64 =>
      mkMetadata (md_materialized m) (md_materialized_locals m) (md_register_kinds m) (md_local_kinds m)
        (if in_left i <? f_register_count f then kind_of (in_left i) else TURBOJS_VALUE_I64)
  | TURBOJS_IR_RETURN_F64 =>
      mkMetadata (md_materialized m) (md_materialized_locals m) (md_register_kinds m) (md_local_kinds m) TURBOJS_VALUE_F64
  | _ => m
  end.

(** The masks recorded at every instruction, and the final metadata. *)
Fixpoint metadata_loop (f : TurboJSIRFunction) (l : list TurboJSIRInstruction) (m : Metadata) : list Masks * Metadata :=
  match l with
  | [] => ([], m)
  | i :: l =>
      let '(masks, m') := metadata_loop f l (metadata_step f i m) in
      ((md_materialized m, md_materialized_locals m) :: masks, m')
  end.

Definition initial_metadata (f : TurboJSIRFunction) : Metadata :=
  mkMetadata 0 0 (replicate (Z.to_nat (f_register_count f)) TURBOJS_VALUE_UNKNOWN)
    (replicate (Z.to_nat (f_local_count f)) TURBOJS_VALUE_UNKNOWN) TURBOJS_VALUE_UNKNOWN.

(** The kind of safepoint at an instruction. *)
Definition safepoint_kind (pc : Z) (i : TurboJSIRInstruction) : option TurboJSSafepointKind :=
  match in_opcode i with
  | TURBOJS_IR_ADD_I32_CHECKED | TURBOJS_IR_SUB_I32_CHECKED | TURBOJS_IR_MUL_I32_CHECKED | TURBOJS_IR_DIV_I32_CHECKED
  | TURBOJS_IR_REM_I32_CHECKED => Some TURBOJS_SAFEPOINT_BAILOUT
  | TURBOJS_IR_RUNTIME_HELPER => Some TURBOJS_SAFEPOINT_RUNTIME_CALL
  | TURBOJS_IR_CALL_NATIVE_I64 | TURBOJS_IR_CALL_NATIVE_F64 => Some TURBOJS_SAFEPOINT_CLUTCH_CALL
  | TURBOJS_IR_JUMP | TURBOJS_IR_BRANCH_TRUE | TURBOJS_IR_BRANCH_FALSE =>
      if in_target i <=? pc then Some TURBOJS_SAFEPOINT_LOOP_BACKEDGE else None
  | TURBOJS_IR_RETURN_I64 | TURBOJS_IR_RETURN_F64 => Some TURBOJS_SAFEPOINT_RETURN
  | _ => None
  end.

(** The bits of the heap references among the first 64. *)
Definition reference_mask (kinds : list TurboJSValueKind) : Z :=
  foldr Z.lor 0 (imap (fun k kind => if decide (kind = TURBOJS_VALUE_HEAP_REFERENCE) then reg_bit (Z.of_nat k) else 0) kinds).

Fixpoint stack_maps (m : Metadata) (live : list Masks) (offsets : list Z) (pc : nat) (l : list TurboJSIRInstruction)
    : list TurboJSStackMap :=
  match l with
  | [] => []
  | i :: l =>
      let rest := stack_maps m live offsets (S pc) l in
      match safepoint_kind (Z.of_nat pc) i with
      | None => rest
      | Some kind =>
          let lv := masks_at live pc in
          mkStackMap kind (Z.of_nat pc) (default 0 (offsets !! pc)) (in_bytecode_offset i) lv.1 lv.2
            (Z.land (reference_mask (md_register_kinds m)) lv.1) (Z.land (reference_mask (md_local_kinds m)) lv.2) :: rest
      end
  end.

(** The allocator's answers: the call-site array, the offset and patch arrays,
    the growth of the buffer, the object with its executable memory, the seal,
    and the metadata arrays. *)
Record BaselineMemory := mkBaselineMemory {
  bm_sites : bool;
  bm_arrays : bool;
  bm_code : Z -> bool;
  bm_object : Z -> bool;
  bm_seal : bool;
  bm_metadata : bool
}.

Inductive BaselineResult :=
  | BaselineFailed (status : TurboJSIRStatus) (events : list RootEvent)
  | BaselineCompiled (n : TurboJSNativeFunction) (events : list RootEvent).

Definition destroy_clutch_sites (sites : list TurboJSClutchCallSite) : list RootEvent :=
  concat (map (fun s => (TurboJS_ClutchCallSiteDestroy s).2) sites).

(** The x86-64 build; [None] is undefined behaviour. *)
Definition TurboJS_BaselineCompile (mem : BaselineMemory) (windows : bool) (hp : Heap) (sites_base : Z) (f : TurboJSIRFunction)
    : option BaselineResult :=
  let? d := TurboJS_IRVerify hp f in
  match dg_status d with
  | TURBOJS_IR_OK =>
      if existsb is_call (f_instructions f) && negb (bm_sites mem) then Some (BaselineFailed TURBOJS_IR_OUT_OF_MEMORY [])
      else if negb (bm_arrays mem) then Some (BaselineFailed TURBOJS_IR_OUT_OF_MEMORY [])
      else
        let? r := generate (bm_code mem) windows hp sites_base f in
        match r with
        | inl (st, s) => Some (BaselineFailed st (bs_events s ++ destroy_clutch_sites (bs_sites s)))
        | inr s =>
            let fail st := Some (BaselineFailed st (bs_events s ++ destroy_clutch_sites (bs_sites s))) in
            if negb (bm_object mem (Z.land (cb_count (bs_code s) + 4095) (Z.lnot 4095))) then fail TURBOJS_IR_OUT_OF_MEMORY
            else if negb (bm_seal mem) then fail TURBOJS_IR_UNSUPPORTED
            else if negb (bm_metadata mem) then fail TURBOJS_IR_OUT_OF_MEMORY
            else match compute_liveness f with
            | None => fail TURBOJS_IR_INVALID_TARGET
            | Some live =>
                let '(materialized, m) := metadata_loop f (f_instructions f) (initial_metadata f) in
                let count := cb_count (bs_code s) in
                Some (BaselineCompiled
                  (mkNative (cb_bytes (bs_code s)) count (Z.land (count + 4095) (Z.lnot 4095)) (f_argument_count f) (f_register_count f)
                     (f_local_count f) (md_result_kind m) (in_bytecode_offset <$> f_instructions f) materialized live
                     (md_register_kinds m) (md_local_kinds m) (stack_maps m live (bs_offsets s) 0 (f_instructions f)) (bs_sites s))
                  (bs_events s))
            end
        end
  | st => Some (BaselineFailed st [])
  end.
