(* ===== verification/BaselineNative.v ===== *)
(** * Running compiled functions (src/jit/backend/x64/baseline_x64.c)

    The native function as its callers see it: invocation on the machine of
    [X64], the bailout and the deoptimization frame it leaves, stack maps,
    safepoint controllers, and the collector's walks over a frame.

    The controller is read during the call as it was at its start. *)

From S2P Require Import Prelude.
From S2P Require Import JitTypes.
From S2P Require Import Clutch.
From S2P Require Import IR.
From S2P Require Import X64.
From S2P Require Import Vault.
From S2P Require Import BaselineX64.

(** ** Safepoint controllers *)

Record TurboJSSafepointController := mkSafepoint { sc_requested : Z; sc_epoch : Z }.

Definition TurboJS_SafepointControllerInit (c : option TurboJSSafepointController) : option TurboJSSafepointController :=
  let? _ := c in Some (mkSafepoint 0 0).
Definition TurboJS_SafepointRequest (c : option TurboJSSafepointController) : option TurboJSSafepointController :=
  let? c := c in Some (mkSafepoint 1 (uwrap 32 (sc_epoch c + 1))).
Definition TurboJS_SafepointClear (c : option TurboJSSafepointController) : option TurboJSSafepointController :=
  let? c := c in Some (mkSafepoint 0 (sc_epoch c)).

(** The controller's first word in memory: [requested] is its low half. *)
Definition safepoint_word (c : TurboJSSafepointController) : Z := uwrap 32 (sc_requested c) + 2 ^ 32 * uwrap 32 (sc_epoch c).

(** ** The function *)

(** [fn_safepoint] is the address of the controller, [fn_owned_safepoint] that
    of the function's own. *)
Record NativeFunction := mkFunction {
  fn_object : TurboJSNativeFunction;
  fn_deopt_values : list Z;
  fn_last_bailout : TurboJSBailoutInfo;
  fn_owned_safepoint : Z;
  fn_safepoint : Z
}.

(** As [calloc] and the compiler leave it. *)
Definition new_function (n : TurboJSNativeFunction) (owned : Z) : NativeFunction :=
  mkFunction n (replicate (Z.to_nat (1 + nf_register_count n + nf_local_count n)) 0) (mkBailoutInfo TURBOJS_BAILOUT_NONE 0 0) owned owned.

Definition TurboJS_NativeSetSafepointController (f : NativeFunction) (c : Z) : NativeFunction :=
  mkFunction (fn_object f) (fn_deopt_values f) (fn_last_bailout f) (fn_owned_safepoint f)
    (if c =? 0 then fn_owned_safepoint f else c).

(** ** Invocation *)

(** What the call meets: the stack pointer at the entry, the addresses of the
    arrays, and the rest of the machine. *)
Record CallSpace := mkSpace {
  sp_windows : bool;
  sp_stack : Z;
  sp_arguments : Z;
  sp_result : Z;
  sp_deopt : Z;
  sp_registers : list Z;
  sp_vectors : list Z;
  sp_flags : Flags;
  sp_memory : Z -> Z
}.

(** Consecutive words. *)
Fixpoint write_words (m : Z -> Z) (base : Z) (l : list Z) : Z -> Z :=
  match l with [] => m | v :: l => write_words (mem_update m base (uwrap 64 v)) (base + 8) l end.
Definition read_words (m : Z -> Z) (base : Z) (n : nat) : list Z :=
  (fun k => swrap 64 (m (base + 8 * Z.of_nat k))) <$> seq 0 n.

(** The memory when the code is entered: the caller's arguments, and the
    cleared deoptimization buffer. *)
Definition entry_memory (sp : CallSpace) (slots : nat) (arguments : list Z) : Z -> Z :=
  write_words (write_words (sp_memory sp) (sp_arguments sp) arguments) (sp_deopt sp) (replicate slots 0).

(** [e(a, r, f->deopt_values, f->safepoint)] in the two calling conventions. *)
Definition entry_registers (sp : CallSpace) (safepoint : Z) : list Z :=
  let '(a, r, d, s) := if sp_windows sp then (1, 2, 8, 9)%nat else (7, 6, 2, 1)%nat in
  <[4%nat := sp_stack sp]> (<[a := sp_arguments sp]> (<[r := sp_result sp]> (<[d := sp_deopt sp]> (<[s := safepoint]> (sp_registers sp))))).

Definition entry_state (sp : CallSpace) (safepoint : Z) (slots : nat) (arguments : list Z) : State :=
  mkMachine (entry_registers sp safepoint) (sp_vectors sp) (sp_flags sp) (entry_memory sp slots arguments) 0.

Definition bailout_reason (rc : Z) : TurboJSBailoutReason :=
  if rc =? 1 then TURBOJS_BAILOUT_INTEGER_OVERFLOW
  else if rc =? 2 then TURBOJS_BAILOUT_DIVISION_BY_ZERO
  else if rc =? 3 then TURBOJS_BAILOUT_DIVISION_OVERFLOW
  else if rc =? 4 then TURBOJS_BAILOUT_SAFEPOINT_REQUESTED
  else if rc =? 5 then TURBOJS_BAILOUT_RUNTIME_HELPER
  else TURBOJS_BAILOUT_NONE.

Definition last_bailout (n : TurboJSNativeFunction) (rc : Z) (deopt : list Z) : TurboJSBailoutInfo :=
  let index := if rc =? 0 then 0 else uwrap 64 (default 0 (deopt !! 0%nat)) in
  mkBailoutInfo (bailout_reason rc) index
    (if negb (rc =? 0) && (index <? Z.of_nat (length (nf_bytecode_offsets n)))
     then default 0 (nf_bytecode_offsets n !! Z.to_nat index) else 0).

(** The status, [*r] behind the call, and the function; [None]: the code has
    not returned within [fuel] instructions. *)
Definition TurboJS_NativeInvoke (fuel : nat) (sp : CallSpace) (f : NativeFunction) (arguments : list Z)
    : option (TurboJSIRStatus * Z * NativeFunction) :=
  let n := fn_object f in
  if Z.of_nat (length arguments) <? nf_argument_count n
  then Some (TURBOJS_IR_INVALID_ARGUMENT, swrap 64 (sp_memory sp (sp_result sp)), f)
  else
    let slots := Z.to_nat (1 + nf_register_count n + nf_local_count n) in
    match run fuel (nf_code n) (entry_state sp (fn_safepoint f) slots arguments) with
    | Returned s =>
        let rc := swrap 32 (gpr s 0) in
        let deopt := read_words (st_mem s) (sp_deopt sp) slots in
        Some (if rc =? 0 then TURBOJS_IR_OK else TURBOJS_IR_BAILOUT, swrap 64 (st_mem s (sp_result sp)),
              mkFunction n deopt (last_bailout n rc deopt) (fn_owned_safepoint f) (fn_safepoint f))
    | _ => None
    end.

(** The result is only written with OK; doubles travel as bit patterns. *)
Definition TurboJS_NativeInvokeF64 (fuel : nat) (sp : CallSpace) (f : NativeFunction) (arguments : list Z) (result : Z)
    : option (TurboJSIRStatus * Z * NativeFunction) :=
  if TURBOJS_IR_MAX_REGISTERS <? Z.of_nat (length arguments) then Some (TURBOJS_IR_INVALID_ARGUMENT, result, f)
  else
    let? (st, r, f) := TurboJS_NativeInvoke fuel sp f arguments in
    Some (st, if decide (st = TURBOJS_IR_OK) then r else result, f).

Definition TurboJS_NativeLastBailout (f : option NativeFunction) : TurboJSBailoutInfo :=
  match f with Some f => fn_last_bailout f | None => mkBailoutInfo TURBOJS_BAILOUT_NONE 0 0 end.

Definition TurboJS_NativeLastDeoptFrame (f : option NativeFunction) : TurboJSDeoptFrame :=
  match f with
  | None => mkDeoptFrame (mkBailoutInfo TURBOJS_BAILOUT_NONE 0 0) 0 0 0 0 0 0 0 [] [] [] []
  | Some f =>
      let n := fn_object f in
      let b := fn_last_bailout f in
      let bailed := negb (bool_decide (bo_reason b = TURBOJS_BAILOUT_NONE)) &&
                    (bo_instruction_index b <? Z.of_nat (length (nf_bytecode_offsets n))) in
      let masks l := if bailed then masks_at l (Z.to_nat (bo_instruction_index b)) else (0, 0) in
      mkDeoptFrame b (nf_register_count n) (nf_local_count n) 0 (masks (nf_materialized n)).1 (masks (nf_materialized n)).2
        (masks (nf_live n)).1 (masks (nf_live n)).2
        (take (Z.to_nat (nf_register_count n)) (drop 1 (fn_deopt_values f)))
        (drop (1 + Z.to_nat (nf_register_count n)) (fn_deopt_values f)) (nf_register_kinds n) (nf_local_kinds n)
  end.

(** ** Accessors *)

Definition TurboJS_NativeStackMapCount (f : option NativeFunction) : Z :=
  match f with Some f => Z.of_nat (length (nf_stack_maps (fn_object f))) | None => 0 end.
Definition TurboJS_NativeStackMapAt (f : option NativeFunction) (index : Z) : option TurboJSStackMap :=
  let? f := f in nf_stack_maps (fn_object f) !! Z.to_nat index.
Definition TurboJS_NativeCodeSize (f : option NativeFunction) : Z :=
  match f with Some f => nf_code_size (fn_object f) | None => 0 end.
Definition TurboJS_NativeResultKind (f : option NativeFunction) : TurboJSValueKind :=
  match f with Some f => nf_result_kind (fn_object f) | None => TURBOJS_VALUE_UNKNOWN end.
Definition TurboJS_NativeClutchSiteCount (f : option NativeFunction) : Z :=
  match f with Some f => Z.of_nat (length (nf_owned_clutch_sites (fn_object f))) | None => 0 end.
(** 0 is NULL, and the identity of no site. *)
Definition site_at (f : option NativeFunction) (index : Z) (k : TurboJSClutchCallSite -> Z) : Z :=
  match f with
  | Some f => match nf_owned_clutch_sites (fn_object f) !! Z.to_nat index with Some s => k s | None => 0 end
  | None => 0
  end.
Definition TurboJS_NativeClutchSiteTargetAt (f : option NativeFunction) (index : Z) : Z := site_at f index cs_target.
Definition TurboJS_NativeClutchSiteIdentityAt (f : option NativeFunction) (index : Z) : Z := site_at f index cs_target_identity.

(** The roots the call sites held. *)
Definition TurboJS_NativeFunctionDestroy (f : option NativeFunction) : list RootEvent :=
  match f with Some f => destroy_clutch_sites (nf_owned_clutch_sites (fn_object f)) | None => [] end.

(** ** The collector's walks *)

(** The test of both loops: live, materialized, and a heap reference. *)
Definition is_root (mask : Z) (kinds : list TurboJSValueKind) (i : nat) : bool :=
  Z.testbit mask (Z.of_nat i) && bool_decide (kinds !! i = Some TURBOJS_VALUE_HEAP_REFERENCE).

Definition roots (count mask : Z) (kinds : list TurboJSValueKind) : list nat :=
  filter (fun i => is_root mask kinds i = true) (seq 0 (Z.to_nat (Z.min count 64))).

(** The references handed to the callback, in order. *)
Definition trace_values (count mask : Z) (kinds : list TurboJSValueKind) (values : list Z) : list Z :=
  (fun i => uwrap 64 (default 0 (values !! i))) <$> roots count mask kinds.

Definition TurboJS_TraceDeoptFrame (frame : option TurboJSDeoptFrame) : list Z :=
  match frame with
  | None => []
  | Some d =>
      trace_values (df_register_count d) (Z.land (df_live_register_mask d) (df_materialized_register_mask d)) (df_register_kinds d)
        (df_register_values d) ++
      trace_values (df_local_count d) (Z.land (df_live_local_mask d) (df_materialized_local_mask d)) (df_local_kinds d) (df_local_values d)
  end.

Section Relocate.
Context {W : Type} (relocate : Z -> W -> W * Z).

Definition relocate_value (i : nat) (s : W * list Z) : W * list Z :=
  let '(w, values) := s in
  let '(w, v) := relocate (uwrap 64 (default 0 (values !! i))) w in (w, <[i := swrap 64 v]> values).

Definition relocate_values (count mask : Z) (kinds : list TurboJSValueKind) (w : W) (values : list Z) : W * list Z :=
  foldl (fun s i => relocate_value i s) (w, values) (roots count mask kinds).

Definition TurboJS_RelocateDeoptFrame (frame : option TurboJSDeoptFrame) (w : W) : W * option TurboJSDeoptFrame :=
  match frame with
  | None => (w, None)
  | Some d =>
      let '(w, registers) := relocate_values (df_register_count d) (Z.land (df_live_register_mask d) (df_materialized_register_mask d))
                               (df_register_kinds d) w (df_register_values d) in
      let '(w, locals) := relocate_values (df_local_count d) (Z.land (df_live_local_mask d) (df_materialized_local_mask d))
                            (df_local_kinds d) w (df_local_values d) in
      (w, Some (mkDeoptFrame (df_bailout d) (df_register_count d) (df_local_count d) (df_stack_count d) (df_materialized_register_mask d)
                  (df_materialized_local_mask d) (df_live_register_mask d) (df_live_local_mask d) registers locals
                  (df_register_kinds d) (df_local_kinds d)))
  end.
End Relocate.
