(* ===== verification/BaselineAsm.v ===== *)
(** * What the emitters of the baseline compiler write

    [Emits e bs]: the emitter, if the buffer grows, appends the bytes [bs].
    [Encodes e i]: they decode to the instruction [i].  [Assembles e l]: they
    decode to the sequence [l]. *)

From S2P Require Import Prelude.
From S2P Require Import JitTypes.
From S2P Require Import IR.
From S2P Require Import IRVerify.
From S2P Require Import X64.
From S2P Require Import BaselineX64.

Definition Emits (e : Emit) (bs : list Z) : Prop := forall b b', e b = Some b' -> cb_bytes b' = cb_bytes b ++ bs.

Section Bytes.
Context (mem : Z -> bool).

Lemma reserve_bytes n b b' : reserve mem n b = Some b' -> cb_bytes b' = cb_bytes b.
Proof.
  unfold reserve. destruct (_ <=? _); [by intros [= <-]|]. generalize (double_until 64). intros grown. cbv zeta.
  destruct (mem _); [by intros [= <-]|done].
Qed.

Lemma emits_nil : Emits Some [].
Proof. intros b b' [= <-]. by rewrite app_nil_r. Qed.

Lemma emits_8 v : Emits (emit8 mem v) [v mod 256].
Proof.
  intros b b'. unfold emit8. destruct (reserve mem 1 b) as [c|] eqn:Hr; [|done]. intros [= <-]. simpl.
  by rewrite (reserve_bytes _ _ _ Hr).
Qed.

Lemma emits_eq e bs bs' : Emits e bs -> bs = bs' -> Emits e bs'.
Proof. by intros ? <-. Qed.

Lemma emits_seq e1 e2 bs1 bs2 : Emits e1 bs1 -> Emits e2 bs2 -> Emits (seq_emit e1 e2) (bs1 ++ bs2).
Proof.
  intros H1 H2 b b'. unfold seq_emit. destruct (e1 b) as [c|] eqn:Hc; [|done]. intros H%H2. by rewrite H, (H1 _ _ Hc), app_assoc.
Qed.

Lemma emits_all l bss : Forall2 Emits l bss -> Emits (emit_all l) (concat bss).
Proof.
  induction 1 as [|e bs l bss H _ IH]; [apply emits_nil|]. by apply emits_seq.
Qed.

Lemma shifted_byte v i : 0 <= i -> Z.shiftr v (i * 8) mod 256 = v / 256 ^ i mod 256.
Proof. intros Hi. rewrite Z.shiftr_div_pow2 by lia. f_equal. f_equal. rewrite Z.mul_comm, Z.pow_mul_r by lia. done. Qed.

Lemma le_bytes_div n v : le_bytes n v = (fun i => v / 256 ^ Z.of_nat i mod 256) <$> seq 0 n.
Proof.
  revert v. induction n as [|n IH]; intros v; [done|]. simpl. rewrite Z.div_1_r, IH. f_equal.
  rewrite <-fmap_S_seq, <-list_fmap_compose. apply list_fmap_ext. intros _ i _. unfold compose.
  rewrite Nat2Z.inj_succ, Z.pow_succ_r, Z.div_div by lia. done.
Qed.

Lemma emits_le n v e :
  e = emit_all ((fun i => emit8 mem (Z.shiftr v (Z.of_nat i * 8))) <$> seq 0 n) -> Emits e (le_bytes n v).
Proof.
  intros ->. rewrite le_bytes_div. replace ((fun i : nat => v / 256 ^ Z.of_nat i mod 256) <$> seq 0 n)
    with (concat ((fun i => [Z.shiftr v (Z.of_nat i * 8) mod 256]) <$> seq 0 n)).
  - apply emits_all. apply Forall2_fmap, Forall_Forall2_diag, Forall_forall. intros i _. apply emits_8.
  - induction (seq 0 n) as [|i l IH]; [done|]. rewrite !fmap_cons. cbn [concat app]. rewrite IH, shifted_byte by lia. done.
Qed.

Lemma emits_32 v : Emits (emit32 mem v) (le_bytes 4 (uwrap 32 v)).
Proof. by apply emits_le. Qed.
Lemma emits_64 v : Emits (emit64 mem v) (le_bytes 8 (uwrap 64 v)).
Proof. by apply emits_le. Qed.

Lemma patch32_bytes off v b pre old post :
  cb_bytes b = pre ++ old ++ post -> length pre = off -> length old = 4%nat ->
  cb_bytes (patch32 off v b) = pre ++ le_bytes 4 (uwrap 32 v) ++ post.
Proof.
  intros Hb Hp Ho. unfold patch32. cbn [cb_bytes]. rewrite Hb. rewrite take_app_length' by done. do 2 f_equal.
  rewrite app_assoc, drop_app_length' by (rewrite length_app; lia). done.
Qed.

(** A displacement over [body]. *)
Lemma emits_over body bs :
  Emits body bs -> Emits (over mem body) (le_bytes 4 (uwrap 32 (Z.of_nat (length bs))) ++ bs).
Proof.
  intros H b b'. unfold over. destruct (seq_emit _ _ b) as [c|] eqn:Hc; [|done]. intros [= <-].
  pose proof (emits_seq _ _ _ _ (emits_32 0) H _ _ Hc) as Hb. erewrite patch32_bytes; [|exact Hb|done|by rewrite length_le_bytes].
  do 4 f_equal. unfold cb_count. rewrite Hb, !length_app, length_le_bytes. lia.
Qed.

(** ** Structured code *)

(** [ASkip c a] jumps over [a] if [c] holds.  [AFork c1 a1 c2 a2 a3] is
    [jc1 L; a1; jc2 L; a2; jmp E; L: a3; E:]. *)
Inductive Asm :=
  | AEmpty
  | AIns (i : Instr)
  | ASeq (a b : Asm)
  | ASkip (c : Cond) (a : Asm)
  | AFork (c1 : Cond) (a1 : Asm) (c2 : Cond) (a2 a3 : Asm).

Definition encodes (bs : list Z) (i : Instr) : Prop := forall rest, decode (bs ++ rest) = Some (i, length bs).

Inductive asm_bytes : Asm -> list Z -> Prop :=
  | asm_empty : asm_bytes AEmpty []
  | asm_ins i bs : encodes bs i -> asm_bytes (AIns i) bs
  | asm_seq a b bs1 bs2 : asm_bytes a bs1 -> asm_bytes b bs2 -> asm_bytes (ASeq a b) (bs1 ++ bs2)
  | asm_skip c a j bs : encodes j (I_jcc c (Z.of_nat (length bs))) -> asm_bytes a bs -> asm_bytes (ASkip c a) (j ++ bs)
  | asm_fork c1 a1 c2 a2 a3 j1 b1 j2 b2 j3 b3 :
      encodes j1 (I_jcc c1 (Z.of_nat (length (b1 ++ j2 ++ b2 ++ j3)))) -> asm_bytes a1 b1 ->
      encodes j2 (I_jcc c2 (Z.of_nat (length (b2 ++ j3)))) -> asm_bytes a2 b2 ->
      encodes j3 (I_jmp (Z.of_nat (length b3))) -> asm_bytes a3 b3 ->
      asm_bytes (AFork c1 a1 c2 a2 a3) (j1 ++ b1 ++ j2 ++ b2 ++ j3 ++ b3).

(** Within 2^31 bytes of code the displacements fit. *)
Definition Assembles (e : Emit) (a : Asm) : Prop :=
  forall b b', e b = Some b' -> cb_count b' < 2 ^ 31 -> exists bs, cb_bytes b' = cb_bytes b ++ bs /\ asm_bytes a bs.

Lemma assembles_empty : Assembles Some AEmpty.
Proof. intros b b' [= <-] _. exists []. split; [by rewrite app_nil_r|constructor]. Qed.

Lemma assembles_ins e bs i : Emits e bs -> encodes bs i -> Assembles e (AIns i).
Proof. intros He Hi b b' H _. exists bs. split; [by apply He|by constructor]. Qed.

Lemma assembles_seq e1 e2 a1 a2 : Assembles e1 a1 -> Assembles e2 a2 -> Assembles (seq_emit e1 e2) (ASeq a1 a2).
Proof.
  intros H1 H2 b b'. unfold seq_emit. destruct (e1 b) as [c|] eqn:Hc; [|done]. intros H Hl.
  destruct (H2 _ _ H Hl) as (bs2&Hb2&A2). destruct (H1 _ _ Hc) as (bs1&Hb1&A1).
  { unfold cb_count in *. rewrite Hb2, length_app in Hl. lia. }
  exists (bs1 ++ bs2). split; [by rewrite Hb2, Hb1, app_assoc|by constructor].
Qed.

(** Bytes behind assembled code. *)
Lemma assembles_then e e' a bs i : Assembles e a -> Emits e' bs -> encodes bs i -> Assembles (seq_emit e e') (ASeq a (AIns i)).
Proof. eauto using assembles_seq, assembles_ins. Qed.

Lemma assembles_eq e e' a : (forall b, e' b = e b) -> Assembles e a -> Assembles e' a.
Proof. intros He H b b'. rewrite He. apply H. Qed.

Lemma seq_emit_assoc e1 e2 e3 b : seq_emit (seq_emit e1 e2) e3 b = seq_emit e1 (seq_emit e2 e3) b.
Proof. unfold seq_emit. by destruct (e1 b). Qed.

Lemma seq_emit_ext e e' e2 b : (forall b, e b = e' b) -> seq_emit e e2 b = seq_emit e' e2 b.
Proof. intros H. unfold seq_emit. by rewrite H. Qed.

Lemma assembles_then2 e e1 e2 a bs1 bs2 i :
  Assembles e a -> Emits e1 bs1 -> Emits e2 bs2 -> encodes (bs1 ++ bs2) i ->
  Assembles (seq_emit (seq_emit e e1) e2) (ASeq a (AIns i)).
Proof.
  intros H H1 H2 Hi. eapply assembles_eq; [apply seq_emit_assoc|]. eapply assembles_then; [done| |done]. by apply emits_seq.
Qed.

Lemma assembles_then3 e e1 e2 e3 a bs1 bs2 bs3 i :
  Assembles e a -> Emits e1 bs1 -> Emits e2 bs2 -> Emits e3 bs3 -> encodes (bs1 ++ bs2 ++ bs3) i ->
  Assembles (seq_emit (seq_emit (seq_emit e e1) e2) e3) (ASeq a (AIns i)).
Proof.
  intros H H1 H2 H3 Hi. eapply assembles_eq; [intros b; apply seq_emit_ext, seq_emit_assoc|].
  rewrite app_assoc in Hi. eapply assembles_then2; eauto. by apply emits_seq.
Qed.

Lemma assembles_then4 e e1 e2 e3 e4 a bs1 bs2 bs3 bs4 i :
  Assembles e a -> Emits e1 bs1 -> Emits e2 bs2 -> Emits e3 bs3 -> Emits e4 bs4 -> encodes (bs1 ++ bs2 ++ bs3 ++ bs4) i ->
  Assembles (seq_emit (seq_emit (seq_emit (seq_emit e e1) e2) e3) e4) (ASeq a (AIns i)).
Proof.
  intros H H1 H2 H3 H4 Hi. eapply assembles_eq.
  { intros b. apply seq_emit_ext. intros c. apply seq_emit_ext, seq_emit_assoc. }
  rewrite app_assoc in Hi. eapply assembles_then3; eauto. by apply emits_seq.
Qed.

Lemma assembles_all {A} (e : A -> Emit) (g : A -> Asm) l :
  (forall x, x ∈ l -> Assembles (e x) (g x)) -> Assembles (emit_all (e <$> l)) (foldr (fun x => ASeq (g x)) AEmpty l).
Proof.
  induction l as [|x l IH]; intros H; [apply assembles_empty|]. simpl. apply assembles_seq; [apply H; set_solver|].
  apply IH. intros y Hy. apply H. set_solver.
Qed.

(** ** Displacements *)

Lemma encodes_jump pre k d :
  (forall d0 d1 d2 d3 rest, imm32 (d0 :: d1 :: d2 :: d3 :: rest) = Some d ->
    decode (pre ++ d0 :: d1 :: d2 :: d3 :: rest) = Some (k d, (length pre + 4)%nat)) ->
  - 2 ^ 31 <= d < 2 ^ 31 -> encodes (pre ++ le_bytes 4 (uwrap 32 d)) (k d).
Proof.
  intros Hk Hd rest. destruct (le_bytes_4 (uwrap 32 d)) as (d0&d1&d2&d3&Hb). rewrite length_app, Hb, <-app_assoc. simpl.
  apply Hk. by apply imm32_cons.
Qed.
End Bytes.

(** A closed prefix before a 32-bit field. *)
Ltac prefix32 := intros d0 d1 d2 d3 rest Himm; lazy -[imm32]; rewrite Himm; reflexivity.

Lemma encodes_jcc (c : Cond) op d :
  (c = CondE /\ op = 132) \/ (c = CondNE /\ op = 133) -> - 2 ^ 31 <= d < 2 ^ 31 ->
  encodes ([15 mod 256] ++ [op mod 256] ++ le_bytes 4 (uwrap 32 d)) (I_jcc c d).
Proof.
  intros [[-> ->]|[-> ->]] Hd; rewrite app_assoc.
  - apply (encodes_jump _ (I_jcc CondE)); [prefix32|done].
  - apply (encodes_jump _ (I_jcc CondNE)); [prefix32|done].
Qed.

Lemma encodes_jmp d : - 2 ^ 31 <= d < 2 ^ 31 -> encodes ([233 mod 256] ++ le_bytes 4 (uwrap 32 d)) (I_jmp d).
Proof. apply (encodes_jump _ I_jmp). prefix32. Qed.

(** ** Jumps over code *)

Section Skips.
Context (mem : Z -> bool).

Lemma over_bytes body a b b' :
  Assembles body a -> over mem body b = Some b' -> cb_count b' < 2 ^ 31 ->
  exists bs, cb_bytes b' = cb_bytes b ++ le_bytes 4 (uwrap 32 (Z.of_nat (length bs))) ++ bs /\ asm_bytes a bs /\ Z.of_nat (length bs) < 2 ^ 31.
Proof.
  intros H. unfold over, seq_emit. destruct (emit32 mem 0 b) as [b1|] eqn:H1; [|done]. apply emits_32 in H1.
  destruct (body b1) as [b2|] eqn:H2; [|done]. intros [= <-] Hl.
  assert (exists t, cb_bytes b2 = cb_bytes b ++ le_bytes 4 (uwrap 32 0) ++ t /\ asm_bytes a t) as (t&Hb2&Ha).
  { destruct (H _ _ H2) as (t&Ht&Ha); [|exists t; by rewrite Ht, H1, app_assoc].
    revert Hl. unfold cb_count, patch32. cbn [cb_bytes]. rewrite !length_app, length_take, length_drop, length_le_bytes. lia. }
  exists t. assert (cb_count b2 - (Z.of_nat (length (cb_bytes b)) + 4) = Z.of_nat (length t)) as Hc.
  { unfold cb_count. rewrite Hb2, !length_app, length_le_bytes. lia. }
  rewrite Hc in *. erewrite patch32_bytes by (done || by rewrite length_le_bytes).
  split_and!; [done|done|]. revert Hl. unfold cb_count. erewrite patch32_bytes by (done || by rewrite length_le_bytes).
  rewrite !length_app. lia.
Qed.

Lemma assembles_skip e op c body a a' :
  (c = CondE /\ op = 132) \/ (c = CondNE /\ op = 133) -> Assembles e a -> Assembles body a' ->
  Assembles (seq_emit (seq_emit (seq_emit e (emit8 mem 15)) (emit8 mem op)) (over mem body)) (ASeq a (ASkip c a')).
Proof.
  intros Hop H H' b b'. unfold seq_emit. destruct (e b) as [b1|] eqn:H1; [|done].
  destruct (emit8 mem 15 b1) as [b2|] eqn:H2; [|done]. apply emits_8 in H2.
  destruct (emit8 mem op b2) as [b3|] eqn:H3; [|done]. apply emits_8 in H3.
  intros Ho Hl. destruct (over_bytes _ _ _ _ H' Ho Hl) as (bs&Hb&Ha&Hs).
  destruct (H _ _ H1) as (bs1&Hb1&Ha1).
  { unfold cb_count in *. rewrite Hb, H3, H2, !length_app in Hl. lia. }
  exists (bs1 ++ ([15 mod 256] ++ [op mod 256] ++ le_bytes 4 (uwrap 32 (Z.of_nat (length bs)))) ++ bs). split.
  - by rewrite Hb, H3, H2, Hb1, <-!app_assoc.
  - constructor; [done|]. constructor; [|done]. apply encodes_jcc; [done|lia].
Qed.
End Skips.

(** ** The emitters *)

Ltac emits :=
  unfold mov_rr, mov_imm64, store_base_disp32, load_base_disp32, load_slot, store_slot, mem_rbp_disp32, load_arg, binary_rr, imul_rr,
    movq_xmm_gpr, movq_gpr_xmm, scalar_f64_rr, compare_f64_rr, cvtsi2sd_xmm_gpr, cvttsd2si_gpr_xmm, rex;
  repeat match goal with
  | |- Emits (seq_emit _ _) _ => eapply emits_seq
  | |- Emits (emit8 _ _) _ => apply emits_8
  | |- Emits (emit32 _ _) _ => apply emits_32
  | |- Emits (emit64 _ _) _ => apply emits_64
  end.
Ltac closed_bytes := intros rest; lazy; reflexivity.

Section Encodings.
Context (mem : Z -> bool).

Lemma encodes_imm64 pre k v :
  (forall d0 d1 d2 d3 d4 d5 d6 d7 rest, imm64 (d0 :: d1 :: d2 :: d3 :: d4 :: d5 :: d6 :: d7 :: rest) = Some (uwrap 64 v) ->
    decode (pre ++ d0 :: d1 :: d2 :: d3 :: d4 :: d5 :: d6 :: d7 :: rest) = Some (k (uwrap 64 v), (length pre + 8)%nat)) ->
  encodes (pre ++ le_bytes 8 (uwrap 64 v)) (k (uwrap 64 v)).
Proof.
  intros Hk rest. pose proof (imm64_bytes v rest) as Hv. rewrite length_app, length_le_bytes, <-app_assoc.
  destruct (le_bytes 8 (uwrap 64 v)) as [|d0 [|d1 [|d2 [|d3 [|d4 [|d5 [|d6 [|d7 [|? ?]]]]]]]]] eqn:Hb; try done. by apply Hk.
Qed.

Ltac prefix64 := intros d0 d1 d2 d3 d4 d5 d6 d7 rest Himm; lazy -[imm64 uwrap]; rewrite Himm; reflexivity.

Lemma mov_imm64_assembles d v : d = 0 \/ d = 2 -> Assembles (mov_imm64 mem d v) (AIns (I_mov_imm64 (Z.to_nat d) (uwrap 64 v))).
Proof. intros [-> | ->]; (eapply assembles_ins; [emits|]); eapply encodes_imm64; prefix64. Qed.

(** Operands [base + d], at the registers the compiler uses. *)
Definition in_disp (d : Z) : Prop := - 2 ^ 31 <= d < 2 ^ 31.

Lemma rbp_load_assembles reg d : reg = 0 \/ reg = 1 -> in_disp d ->
  Assembles (mem_rbp_disp32 mem 139 reg d) (AIns (I_load (Z.to_nat reg) 5 d)).
Proof.
  intros [-> | ->] Hd; (eapply assembles_ins; [emits|]); apply (encodes_jump _ (I_load _ _)); [prefix32|done|prefix32|done].
Qed.

Lemma rbp_store_assembles d : in_disp d -> Assembles (mem_rbp_disp32 mem 137 0 d) (AIns (I_store 5 d 0)).
Proof. intros Hd. eapply assembles_ins; [emits|]. apply (encodes_jump _ (fun d => I_store _ d _)); [prefix32|done]. Qed.

Lemma deopt_store_assembles d : in_disp d -> Assembles (store_base_disp32 mem 9 0 d) (AIns (I_store 9 d 0)).
Proof. intros Hd. eapply assembles_ins; [emits|]. apply (encodes_jump _ (fun d => I_store _ d _)); [prefix32|done]. Qed.

Lemma load_arg_assembles arg : 0 <= arg < 2 ^ 16 -> Assembles (load_arg mem 0 arg) (AIns (I_load 0 11 (arg * 8))).
Proof.
  intros Ha. eapply assembles_ins; [emits|]. rewrite (uwrap_small 32 (arg * 8)) by (unfold is_u; lia).
  apply (encodes_jump _ (I_load _ _)); [prefix32|unfold in_disp; lia].
Qed.

End Encodings.

(** An instruction without immediate. *)
Ltac closed_ins := eapply assembles_ins; [emits|closed_bytes].

(** ** The code of the instructions *)

Declare Scope asm_scope.
Delimit Scope asm_scope with asm.
Infix "+>" := ASeq (at level 50, left associativity) : asm_scope.
Coercion AIns : Instr >-> Asm.
Local Open Scope asm_scope.

Definition a_all {A} (g : A -> Asm) (l : list A) : Asm := foldr (fun x => ASeq (g x)) AEmpty l.
Definition a_epilogue : Asm := I_leave +> I_ret.

Section Blocks.
Context (f : TurboJSIRFunction) (index : Z).

Definition a_bailout (status : Z) : Asm :=
  I_mov_imm64 0 (uwrap 64 index) +> I_store 9 0 0 +>
  a_all (fun i => I_load 0 5 (slot_disp i) +> I_store 9 (8 + i * 8) 0) (upto (f_register_count f)) +>
  a_all (fun i => I_load 0 5 (local_disp f i) +> I_store 9 (8 + (f_register_count f + i) * 8) 0) (upto (f_local_count f)) +>
  I_mov_imm32 0 status +> a_epilogue.

Definition a_poll : Asm := I_cmp32_at 8 0 +> ASkip CondE (a_bailout 4).
Definition a_check : Asm := I_movsxd 1 0 +> I_cmp 0 1 +> ASkip CondE (a_bailout 1).
Definition a_nonzero : Asm := I_test 1 1 +> ASkip CondNE (a_bailout 2).
Definition a_min : Asm := I_mov_imm64 2 (uwrap 64 INT32_MIN) +> I_cmp 0 2.
Definition a_minus_one : Asm := I_mov_imm64 2 (uwrap 64 (-1)) +> I_cmp 1 2.

Definition a_div : Asm := a_nonzero +> a_min +> ASkip CondNE (a_minus_one +> ASkip CondNE (a_bailout 3)) +> (I_cqo +> I_idiv 1).
Definition a_rem : Asm := a_nonzero +> a_min +> AFork CondNE a_minus_one CondNE (I_xor32 0 0) (I_cqo +> I_idiv 1 +> I_mov 0 2).

(** The instructions that are neither jumps nor calls. *)
Definition a_block (i : TurboJSIRInstruction) : Asm :=
  let load reg r : Asm := I_load reg 5 (slot_disp r) in
  let store : Asm := I_store 5 (slot_disp (in_destination i)) 0 in
  let operands := load 0%nat (in_left i) +> load 1%nat (in_right i) in
  let doubles := operands +> I_movq_to_xmm 0 0 +> I_movq_to_xmm 1 1 in
  let double op := doubles +> op +> I_movq_from_xmm 0 0 +> store in
  let compare predicate := doubles +> I_cmpsd 0 1 predicate +> I_movq_from_xmm 0 0 +> I_and32_imm 0 1 +> store in
  match in_opcode i with
  | TURBOJS_IR_NOP => I_nop
  | TURBOJS_IR_ARGUMENT => I_load 0 11 (in_immediate i * 8) +> store
  | TURBOJS_IR_CONSTANT_I64 | TURBOJS_IR_CONSTANT_F64 => I_mov_imm64 0 (uwrap 64 (in_immediate i)) +> store
  | TURBOJS_IR_ADD_I64 => operands +> I_add 0 1 +> store
  | TURBOJS_IR_SUB_I64 => operands +> I_sub 0 1 +> store
  | TURBOJS_IR_MUL_I64 => operands +> I_imul 0 1 +> store
  | TURBOJS_IR_ADD_I32_CHECKED => operands +> I_add 0 1 +> a_check +> store
  | TURBOJS_IR_SUB_I32_CHECKED => operands +> I_sub 0 1 +> a_check +> store
  | TURBOJS_IR_MUL_I32_CHECKED => operands +> I_imul 0 1 +> a_check +> store
  | TURBOJS_IR_ADD_F64 => double (I_addsd 0 1)
  | TURBOJS_IR_SUB_F64 => double (I_subsd 0 1)
  | TURBOJS_IR_MUL_F64 => double (I_mulsd 0 1)
  | TURBOJS_IR_DIV_F64 => double (I_divsd 0 1)
  | TURBOJS_IR_EQUAL_F64 => compare 0
  | TURBOJS_IR_LESS_THAN_F64 => compare 1
  | TURBOJS_IR_LESS_EQUAL_F64 => compare 2
  | TURBOJS_IR_I64_TO_F64 => load 0%nat (in_left i) +> I_cvtsi2sd 0 0 +> I_movq_from_xmm 0 0 +> store
  | TURBOJS_IR_F64_TO_I64_TRUNC => load 0%nat (in_left i) +> I_movq_to_xmm 0 0 +> I_cvttsd2si 0 0 +> store
  | TURBOJS_IR_DIV_I32_CHECKED => operands +> a_div +> store
  | TURBOJS_IR_REM_I32_CHECKED => operands +> a_rem +> store
  | TURBOJS_IR_RUNTIME_HELPER => a_bailout 5
  | TURBOJS_IR_LESS_THAN_I64 => operands +> I_cmp 0 1 +> I_setl 0 +> I_movzx8 0 0 +> store
  | TURBOJS_IR_LOCAL_GET => I_load 0 5 (local_disp f (in_immediate i)) +> store
  | TURBOJS_IR_LOCAL_SET => load 0%nat (in_left i) +> I_store 5 (local_disp f (in_immediate i)) 0
  | TURBOJS_IR_RETURN_I64 | TURBOJS_IR_RETURN_F64 => load 0%nat (in_left i) +> (I_store_at 10 0 +> I_xor32 0 0 +> a_epilogue)
  | _ => AEmpty
  end.

(** What precedes the displacement of a jump. *)
Definition a_jump (i : TurboJSIRInstruction) : Asm :=
  let poll := if in_target i <=? index then a_poll else AEmpty in
  match in_opcode i with
  | TURBOJS_IR_JUMP => poll
  | _ => poll +> (I_load 0 5 (slot_disp (in_left i)) +> I_test 0 0)
  end.
End Blocks.

(** ** The emitters write that code *)

Section Emitted.
Context (mem : Z -> bool) (f : TurboJSIRFunction) (index : Z).
Context (Hregs : 0 <= f_register_count f < 2 ^ 16) (Hlocals : 0 <= f_local_count f < 2 ^ 16).

Lemma upto_spec n i : i ∈ upto n <-> 0 <= i < n.
Proof.
  unfold upto. rewrite list_elem_of_fmap. setoid_rewrite elem_of_seq. split; [intros (k&->&Hk); lia|].
  intros Hi. exists (Z.to_nat i). lia.
Qed.

Lemma epilogue_assembles : Assembles (epilogue mem) a_epilogue.
Proof. apply assembles_seq; closed_ins. Qed.

Lemma mov_imm32_encodes v : 0 <= v < 2 ^ 31 -> encodes ([184 mod 256] ++ le_bytes 4 (uwrap 32 v)) (I_mov_imm32 0 v).
Proof.
  intros Hv. rewrite <-(uwrap_small 32 v) at 2 by (unfold is_u; lia).
  apply (encodes_jump _ (fun v => I_mov_imm32 0 (uwrap 32 v))); [|lia].
  intros d0 d1 d2 d3 rest Himm. lazy -[imm32 uwrap]. rewrite Himm. done.
Qed.

Lemma slot_in_disp r : 0 <= r < f_register_count f -> in_disp (slot_disp r).
Proof. unfold in_disp, slot_disp. lia. Qed.
Lemma local_in_disp l : 0 <= l < f_local_count f -> in_disp (local_disp f l).
Proof. unfold in_disp, local_disp. lia. Qed.

Lemma load_slot_assembles reg r :
  reg = 0 \/ reg = 1 -> 0 <= r < f_register_count f -> Assembles (load_slot mem reg r) (I_load (Z.to_nat reg) 5 (slot_disp r)).
Proof. intros Hr H. apply rbp_load_assembles; [done|by apply slot_in_disp]. Qed.

Lemma store_slot_assembles r : 0 <= r < f_register_count f -> Assembles (store_slot mem r 0) (I_store 5 (slot_disp r) 0).
Proof. intros H. by apply rbp_store_assembles, slot_in_disp. Qed.

Lemma bailout_assembles status :
  0 <= status < 2 ^ 31 -> Assembles (return_bailout_at mem f index status) (a_bailout f index status).
Proof.
  intros Hs. apply assembles_seq; [|apply epilogue_assembles]. eapply assembles_then2; [|emits..|by apply mov_imm32_encodes].
  repeat apply assembles_seq.
  - apply mov_imm64_assembles. by left.
  - apply deopt_store_assembles. done.
  - apply assembles_all. intros i Hi%upto_spec. apply assembles_seq; [by apply load_slot_assembles; [left|]|].
    apply deopt_store_assembles. unfold in_disp. lia.
  - apply assembles_all. intros i Hi%upto_spec. apply assembles_seq; [by apply rbp_load_assembles; [left|apply local_in_disp]|].
    apply deopt_store_assembles. unfold in_disp. lia.
Qed.

Lemma skip_bailout_assembles e op c a status :
  (c = CondE /\ op = 132) \/ (c = CondNE /\ op = 133) -> 0 <= status < 2 ^ 31 -> Assembles e a ->
  Assembles (seq_emit (seq_emit (seq_emit e (emit8 mem 15)) (emit8 mem op)) (over mem (return_bailout_at mem f index status)))
    (a +> ASkip c (a_bailout f index status)).
Proof. intros. apply assembles_skip; [done..|]. by apply bailout_assembles. Qed.

Lemma poll_assembles : Assembles (emit_safepoint_poll mem f index) (a_poll f index).
Proof. apply skip_bailout_assembles; [by left|lia|]. closed_ins. Qed.

Lemma check_assembles : Assembles (check_i32 mem f index) (a_check f index).
Proof.
  apply skip_bailout_assembles; [by left|lia|]. eapply assembles_then3; [|emits..|closed_bytes]. closed_ins.
Qed.

Lemma patch32_count off v b : (off + 4 <= length (cb_bytes b))%nat -> cb_count (patch32 off v b) = cb_count b.
Proof. intros H. unfold cb_count, patch32. cbn [cb_bytes]. rewrite !length_app, length_take, length_drop, length_le_bytes. lia. Qed.

Lemma let_Some {A B} (m : option A) (k : A -> option B) r :
  (let? x := m in k x) = Some r -> exists x, m = Some x /\ k x = Some r.
Proof. destruct m; [eauto|done]. Qed.

(** The parts of [emit_divrem_checked]. *)
Definition minus_one_bytes : list Z := [72; 186] ++ le_bytes 8 (uwrap 64 (-1)) ++ [72; 57; 209].

Lemma minus_one_asm : asm_bytes a_minus_one minus_one_bytes.
Proof. apply (asm_seq _ _ ([72; 186] ++ le_bytes 8 (uwrap 64 (-1))) [72; 57; 209]); constructor; closed_bytes. Qed.

Lemma nonzero_min_assembles :
  Assembles (seq_emit (seq_emit (seq_emit (seq_emit (seq_emit (seq_emit (rex mem true 1 0 1) (emit8 mem 133)) (emit8 mem 201))
    (emit8 mem 15)) (emit8 mem 133)) (over mem (return_bailout_at mem f index 2))) (seq_emit (mov_imm64 mem 2 INT32_MIN) (binary_rr mem 57 0 2)))
    (a_nonzero f index +> a_min).
Proof.
  apply assembles_seq; [|apply assembles_seq; [apply mov_imm64_assembles; by right|closed_ins]].
  apply skip_bailout_assembles; [by right|lia|]. closed_ins.
Qed.

Lemma quotient_asm : asm_bytes (I_cqo +> I_idiv 1) [72; 153; 72; 247; 249].
Proof. apply (asm_seq _ _ [72; 153] [72; 247; 249]); constructor; closed_bytes. Qed.
Lemma remainder_asm : asm_bytes (I_cqo +> I_idiv 1 +> I_mov 0 2) [72; 153; 72; 247; 249; 72; 137; 208].
Proof. apply (asm_seq _ _ [72; 153; 72; 247; 249] [72; 137; 208]); [apply quotient_asm|constructor; closed_bytes]. Qed.

Lemma seq_Some e1 e2 b r : seq_emit e1 e2 b = Some r -> exists c, e1 b = Some c /\ e2 c = Some r.
Proof. apply let_Some. Qed.

Lemma two_patches P M T b :
  let disp n := le_bytes 4 (uwrap 32 (Z.of_nat n)) in
  let P' := P ++ [0; 0; 0; 0] ++ M in
  cb_bytes b = P' ++ [0; 0; 0; 0] ++ T ->
  let b' := patch32 (length P) (cb_count b - (Z.of_nat (length P) + 4)) b in
  cb_bytes (patch32 (length P') (cb_count b' - (Z.of_nat (length P') + 4)) b') =
    P ++ disp (length M + 4 + length T)%nat ++ M ++ disp (length T) ++ T.
Proof.
  intros disp P' Hb b'.
  assert (cb_bytes b' = (P ++ disp (length M + 4 + length T)%nat ++ M) ++ [0; 0; 0; 0] ++ T) as Hb'.
  { unfold b'. rewrite (patch32_bytes _ _ _ P [0; 0; 0; 0] (M ++ [0; 0; 0; 0] ++ T)); [|by rewrite Hb; unfold P'; rewrite <-!app_assoc|done|done].
    rewrite <-!app_assoc. assert (cb_count b - (Z.of_nat (length P) + 4) = Z.of_nat (length M + 4 + length T)) as ->; [|done].
    unfold cb_count. rewrite Hb. unfold P'. rewrite !length_app. simpl. lia. }
  assert (length P' = length (P ++ disp (length M + 4 + length T)%nat ++ M)) as ->.
  { unfold P', disp. rewrite !length_app, length_le_bytes. done. }
  rewrite (patch32_bytes _ _ _ _ [0; 0; 0; 0] T Hb' eq_refl eq_refl). rewrite <-!app_assoc.
  match goal with |- context [uwrap 32 (cb_count b' - ?x)] => assert (cb_count b' - x = Z.of_nat (length T)) as -> end; [|done].
  unfold cb_count. rewrite Hb', !length_app. simpl. lia.
Qed.

Lemma emits_fmap {A} (e : A -> Emit) l : (forall x, exists bs, Emits (e x) bs) -> exists bs, Emits (emit_all (e <$> l)) bs.
Proof.
  intros H. induction l as [|x l [bs IH]]; [exists []; apply emits_nil|]. destruct (H x) as [bs1 H1]. exists (bs1 ++ bs).
  by apply emits_seq.
Qed.

Lemma bailout_emits status : exists bs, Emits (return_bailout_at mem f index status) bs.
Proof.
  unfold return_bailout_at. match goal with |- context [seq_emit (seq_emit _ (emit_all ?l1)) (emit_all ?l2)] =>
    assert (exists bs, Emits (emit_all l1) bs) as [bs1 H1] by (apply emits_fmap; intros x; eexists; emits);
    assert (exists bs, Emits (emit_all l2) bs) as [bs2 H2] by (apply emits_fmap; intros x; eexists; emits) end.
  eexists. unfold epilogue. emits; eassumption.
Qed.

Lemma divrem_bytes want b b' :
  emit_divrem_checked mem f index want b = Some b' -> cb_count b' < 2 ^ 31 ->
  exists N S Q, asm_bytes (a_nonzero f index +> a_min) N /\
    asm_bytes (if want then AIns (I_xor32 0 0) else a_bailout f index 3) S /\
    asm_bytes (if want then I_cqo +> I_idiv 1 +> I_mov 0 2 else I_cqo +> I_idiv 1) Q /\
    let jump n := [15; 133] ++ le_bytes 4 (uwrap 32 (Z.of_nat n)) in
    let J := if want then [233] ++ le_bytes 4 (uwrap 32 (Z.of_nat (length Q))) else [] in
    let tail := jump (length (S ++ J)) ++ S ++ J in
    cb_bytes b' = cb_bytes b ++ N ++ jump (length (minus_one_bytes ++ tail)) ++ minus_one_bytes ++ tail ++ Q.
Proof.
  unfold emit_divrem_checked. intros He Hl.
  apply let_Some in He as (b1&H1&He). apply let_Some in He as (b2&H2&He). apply let_Some in He as (b3&H3&He).
  apply let_Some in He as (b4&H4&He). apply let_Some in He as (b5&H5&He). apply let_Some in He as (b6&H6&He).
  apply seq_Some in H1 as (c1&H1&E1). apply seq_Some in H1 as (c0&H1&E0). apply emits_8 in E1. apply emits_8 in E0.
  eapply (emits_eq _ _ ([0;0;0;0] ++ minus_one_bytes ++ [15; 133])) in H2; [|emits|reflexivity].
  eapply (emits_eq _ _ [0;0;0;0]) in H3; [|emits|reflexivity].
  eapply (emits_eq _ _ [72; 153; 72; 247; 249]) in H6; [|emits|reflexivity].
  assert (cb_bytes b1 = cb_bytes c0 ++ [15; 133]) as Hb1 by (by rewrite E1, E0, <-app_assoc).
  assert (cb_bytes b3 = cb_bytes b2 ++ [0; 0; 0; 0]) as Hb3 by done.
  set (P := cb_bytes b1) in *.
  assert (exists S J, cb_bytes b5 = cb_bytes b2 ++ [0; 0; 0; 0] ++ S ++ J /\
    (if want then S = [49; 192] /\ J = [233; 0; 0; 0; 0] /\ cb_bytes b4 = cb_bytes b3 ++ [49; 192; 233]
     else J = [] /\ (cb_count b5 < 2 ^ 31 -> asm_bytes (a_bailout f index 3) S))) as (S&J&Hb5&HS).
  { destruct want.
    - eapply (emits_eq _ _ [49; 192; 233]) in H4; [|emits|reflexivity]. eapply (emits_eq _ _ [0; 0; 0; 0]) in H5; [|emits|reflexivity].
      exists [49; 192], [233; 0; 0; 0; 0]. split; [by rewrite H5, H4, H3, <-!app_assoc|done].
    - injection H5 as <-. destruct (bailout_emits 3) as [bs Hbs]. exists bs, []. rewrite app_nil_r.
      pose proof (Hbs _ _ H4) as Hb4. split; [by rewrite Hb4, H3, <-app_assoc|split; [done|]]. intros Hc.
      destruct (bailout_assembles 3 ltac:(lia) _ _ H4 Hc) as (bs'&Hbs'&Ha). rewrite Hb4 in Hbs'. by apply app_inv_head in Hbs' as <-. }
  rewrite H2 in H6, Hb5. rewrite (two_patches P (minus_one_bytes ++ [15; 133]) (S ++ J)) in H6 by done.
  set (D n := le_bytes 4 (uwrap 32 (Z.of_nat n))). fold (D (length (S ++ J))) in H6. set (M := minus_one_bytes ++ [15; 133]) in *.
  fold (D (length M + 4 + length (S ++ J))%nat) in H6.
  assert (exists J' Q, cb_bytes b' = cb_bytes c0 ++ [15; 133] ++ D (length M + 4 + length (S ++ J))%nat ++ M ++ D (length (S ++ J)) ++ S ++ J' ++ Q /\
    J' = (if want then [233] ++ D (length Q) else []) /\ length J' = length J /\
    asm_bytes (if want then I_cqo +> I_idiv 1 +> I_mov 0 2 else I_cqo +> I_idiv 1) Q /\
    asm_bytes (if want then AIns (I_xor32 0 0) else a_bailout f index 3) S) as (J'&Q&Hb'&HJ'&HJl&HQ&HS').
  { destruct want; [destruct HS as (->&->&Hb4)|destruct HS as (->&HS)].
    - apply let_Some in He as (b7&H7&[= <-]). eapply (emits_eq _ _ [72; 137; 208]) in H7; [|emits|reflexivity].
      exists ([233] ++ D 8%nat), [72; 153; 72; 247; 249; 72; 137; 208].
      rewrite (patch32_bytes _ _ _ (P ++ D (length M + 4 + 7)%nat ++ M ++ D 7%nat ++ [49; 192; 233]) [0; 0; 0; 0] [72; 153; 72; 247; 249; 72; 137; 208]).
      + split_and!; try done; [|apply remainder_asm|constructor; closed_bytes].
        assert (cb_count b7 - (Z.of_nat (length (cb_bytes b4)) + 4) = 8) as ->.
        { unfold cb_count. rewrite H7, H6, Hb4, H3, H2. unfold D, M. rewrite !length_app, !length_le_bytes. simpl. lia. }
        rewrite Hb1, <-!app_assoc. done.
      + by rewrite H7, H6, <-!app_assoc.
      + rewrite Hb4, H3, H2. unfold D, M. rewrite !length_app, !length_le_bytes. simpl. lia.
      + done.
    - injection He as <-. exists [], [72; 153; 72; 247; 249]. rewrite H6, Hb1, !app_nil_r, <-!app_assoc. split_and!; try done.
      + apply quotient_asm.
      + apply HS. revert Hl. unfold cb_count. rewrite H6, Hb5. unfold D, M. rewrite !length_app, !length_le_bytes. simpl. lia. }
  destruct (nonzero_min_assembles b c0) as (N&HN&AN); [by rewrite <-seq_emit_assoc| |].
  { revert Hl. unfold cb_count. rewrite Hb', !length_app. lia. }
  exists N, S, Q. split_and!; [done..|]. cbv zeta. unfold D in HJ'. rewrite <-HJ', Hb', HN.
  assert (length (minus_one_bytes ++ ([15; 133] ++ le_bytes 4 (uwrap 32 (Z.of_nat (length (S ++ J'))))) ++ S ++ J') =
    (length M + 4 + length (S ++ J))%nat) as ->.
  { unfold M. rewrite !length_app, length_le_bytes, HJl. lia. }
  assert (length (S ++ J') = length (S ++ J)) as -> by (rewrite !length_app, HJl; done).
  unfold D, M. rewrite <-!app_assoc. done.
Qed.

Lemma jne_encodes n : Z.of_nat n < 2 ^ 31 -> encodes ([15; 133] ++ le_bytes 4 (uwrap 32 (Z.of_nat n))) (I_jcc CondNE (Z.of_nat n)).
Proof. intros Hn. apply (encodes_jcc CondNE 133); [by right|lia]. Qed.

Lemma div_assembles : Assembles (emit_divrem_checked mem f index false) (a_div f index).
Proof.
  intros b b' He Hl. destruct (divrem_bytes _ _ _ He Hl) as (N&S&Q&HN&HS&HQ&Hb). cbv zeta in Hb. rewrite app_nil_r in Hb.
  set (j1 := [15; 133] ++ _) in Hb at 1. set (j2 := [15; 133] ++ _) in Hb at 1.
  exists ((N ++ (j1 ++ minus_one_bytes ++ (j2 ++ S))) ++ Q). split; [by rewrite Hb, <-!app_assoc|].
  unfold cb_count in Hl. rewrite Hb, !length_app in Hl.
  apply asm_seq; [|done]. apply asm_seq; [done|].
  apply asm_skip; [|apply asm_seq; [apply minus_one_asm|apply asm_skip; [|done]]]; apply jne_encodes; rewrite ?length_app; lia.
Qed.

Lemma rem_assembles : Assembles (emit_divrem_checked mem f index true) (a_rem f index).
Proof.
  intros b b' He Hl. destruct (divrem_bytes _ _ _ He Hl) as (N&S&Q&HN&HS&HQ&Hb). cbv beta zeta iota in Hb. set (J := [233] ++ le_bytes 4 (uwrap 32 (Z.of_nat (length Q)))) in *.
  set (j2 := [15; 133] ++ le_bytes 4 (uwrap 32 (Z.of_nat (length (S ++ J))))) in *.
  match type of Hb with context [N ++ ([15; 133] ++ ?d) ++ _] => set (j1 := [15; 133] ++ d) in * end.
  exists (N ++ (j1 ++ minus_one_bytes ++ j2 ++ S ++ J ++ Q)). split; [by rewrite Hb, <-!app_assoc|].
  unfold cb_count in Hl. rewrite Hb, !length_app in Hl.
  apply asm_seq; [done|].
  apply asm_fork; [apply jne_encodes|apply minus_one_asm|apply jne_encodes|done|apply encodes_jmp|done]; rewrite ?length_app; lia.
Qed.

(** ** The instructions *)

Ltac reg := first [assumption | by left | by right | lia].
Ltac assemble :=
  repeat match goal with
  | |- Assembles (check_i32 _ _ _) _ => apply check_assembles
  | |- Assembles (emit_divrem_checked _ _ _ false) _ => apply div_assembles
  | |- Assembles (emit_divrem_checked _ _ _ true) _ => apply rem_assembles
  | |- Assembles (return_bailout_at _ _ _ _) _ => apply bailout_assembles
  | |- Assembles (load_slot _ _ _) _ => apply load_slot_assembles
  | |- Assembles (store_slot _ _ _) _ => apply store_slot_assembles
  | |- Assembles (mov_imm64 _ _ _) _ => apply mov_imm64_assembles
  | |- Assembles (load_arg _ _ _) _ => apply load_arg_assembles
  | |- Assembles (mem_rbp_disp32 _ 139 _ _) _ => apply rbp_load_assembles
  | |- Assembles (mem_rbp_disp32 _ 137 _ _) _ => apply rbp_store_assembles
  | |- Assembles (epilogue _) _ => apply epilogue_assembles
  | |- Assembles (seq_emit (seq_emit (seq_emit (seq_emit _ (rex _ _ _ _ _)) _) _) (emit8 _ _)) (_ +> _) =>
      eapply assembles_then4; [|emits..|closed_bytes]
  | |- Assembles (seq_emit (seq_emit (seq_emit (rex _ _ _ _ _) _) (emit8 _ 49)) (emit8 _ _)) (_ +> _) =>
      eapply assembles_then2; [|emits..|closed_bytes]
  | |- Assembles (seq_emit (seq_emit (seq_emit _ (emit8 _ _)) (emit8 _ 49)) (emit8 _ _)) (_ +> _) =>
      eapply assembles_then2; [|emits..|closed_bytes]
  | |- Assembles (seq_emit (seq_emit (seq_emit _ _) _) (emit8 _ _)) (_ +> _) => eapply assembles_then3; [|emits..|closed_bytes]
  | |- Assembles (return_success _) _ => unfold return_success, a_epilogue
  | |- Assembles (seq_emit _ _) (_ +> _) => apply assembles_seq
  | |- Assembles _ (AIns _) => closed_ins
  end.

Lemma instruction_assembles hp i e :
  operands_ok hp f i -> f_argument_count f < 2 ^ 16 -> 0 <= in_left i -> 0 <= in_right i -> 0 <= in_destination i ->
  emit_instruction mem f index i = Some e -> Assembles e (a_block f index i).
Proof.
  intros [r Hv] Ha Hl Hr Hd. unfold emit_instruction, a_block. unfold verify_instruction, valid_register in Hv.
  destruct (in_opcode i) eqn:Hop; try done; intros [= <-]; repeat (case_match; [done|]); b2p.
  all: try (rewrite (uwrap_small 16 (in_immediate i)) by (unfold is_u; lia)).
  all: assemble; try apply local_in_disp; reg.
Qed.

(** A jump: its opcode bytes precede the displacement. *)
Definition jump_opcode (op : TurboJSIROpcode) : list Z :=
  match op with
  | TURBOJS_IR_JUMP => [233]
  | TURBOJS_IR_BRANCH_TRUE => [15; 133]
  | _ => [15; 132]
  end.

Definition jump_instr (op : TurboJSIROpcode) (rel : Z) : Instr :=
  match op with
  | TURBOJS_IR_JUMP => I_jmp rel
  | TURBOJS_IR_BRANCH_TRUE => I_jcc CondNE rel
  | _ => I_jcc CondE rel
  end.

Lemma jump_encodes op rel : in_disp rel -> encodes (jump_opcode op ++ le_bytes 4 (uwrap 32 rel)) (jump_instr op rel).
Proof.
  intros H. unfold jump_opcode, jump_instr.
  destruct op; lazymatch goal with
  | |- encodes _ (I_jmp _) => by apply encodes_jmp
  | |- encodes _ (I_jcc CondNE _) => apply (encodes_jcc CondNE 133); [by right|done]
  | |- _ => apply (encodes_jcc CondE 132); [by left|done]
  end.
Qed.

Lemma jump_assembles hp i e b b' :
  operands_ok hp f i -> 0 <= in_left i -> emit_jump mem f index i = Some e -> e b = Some b' -> cb_count b' < 2 ^ 31 ->
  exists bs, cb_bytes b' = cb_bytes b ++ bs ++ jump_opcode (in_opcode i) /\ asm_bytes (a_jump f index i) bs.
Proof.
  intros [r Hv] Hl. unfold emit_jump, a_jump. unfold verify_instruction, valid_register in Hv.
  set (poll := if in_target i <=? index then emit_safepoint_poll mem f index else Some).
  set (apoll := if in_target i <=? index then a_poll f index else AEmpty).
  assert (Assembles poll apoll) as Hp.
  { unfold poll, apoll. destruct (in_target i <=? index); [apply poll_assembles|apply assembles_empty]. }
  clearbody poll apoll.
  assert (forall e a k bs', Assembles e a -> Emits k bs' -> seq_emit e k b = Some b' -> cb_count b' < 2 ^ 31 ->
    exists bs, cb_bytes b' = cb_bytes b ++ bs ++ bs' /\ asm_bytes a bs) as Htail.
  { clear. intros e a k bs' Ha Hk (c&H1&H2)%seq_Some Hl. apply Hk in H2.
    destruct (Ha _ _ H1) as (bs&Hbs&Hasm). { unfold cb_count in *. rewrite H2, length_app in Hl. lia. }
    exists bs. by rewrite H2, Hbs, <-app_assoc. }
  destruct (in_opcode i); try done; intros [= <-] He Hc; repeat (case_match; [done|]); b2p.
  - eapply Htail; [exact Hp| |done..]. emits.
  - rewrite seq_emit_assoc in He. eapply Htail; [| |exact He|done]; [assemble; [exact Hp|reg..]|eapply emits_eq; [emits|done]].
  - rewrite seq_emit_assoc in He. eapply Htail; [| |exact He|done]; [assemble; [exact Hp|reg..]|eapply emits_eq; [emits|done]].
Qed.

Definition a_prologue (windows : bool) (frame : Z) : Asm :=
  I_push 5 +> I_mov 5 4 +> (if frame =? 0 then AEmpty else I_sub_imm 4 frame) +>
  (if windows then I_mov 11 1 +> I_mov 10 2 +> I_mov 0 9 +> I_mov 9 8 +> I_mov 8 0
   else I_mov 11 7 +> I_mov 10 6 +> I_mov 9 2 +> I_mov 8 1).

Lemma prologue_assembles windows frame : 0 <= frame < 2 ^ 31 -> Assembles (prologue mem windows frame) (a_prologue windows frame).
Proof.
  intros Hf. apply assembles_seq; [|destruct windows; repeat apply assembles_seq; closed_ins].
  apply assembles_seq.
  - eapply assembles_then3; [|emits..|closed_bytes]. closed_ins.
  - case_match; [apply assembles_empty|]. eapply assembles_ins; [emits|]. apply (encodes_jump _ (I_sub_imm 4)); [prefix32|lia].
Qed.
End Emitted.
