(* ===== verification/BaselineRun.v ===== *)
(** * What structured code computes

    [run_asm] runs the code of [BaselineAsm] without addresses; the machine
    fetching its bytes does the same ([asm_runs]).  On top of it, what each
    block of the baseline compiler does to a frame: registers and locals are
    the words below the frame pointer. *)

From S2P Require Import Prelude.
From S2P Require Import JitTypes.
From S2P Require Import Clutch.
From S2P Require Import IR.
From S2P Require Import IRVerify.
From S2P Require Import Float64.
From S2P Require Import IRInterp.
From S2P Require Import X64.
From S2P Require Import BaselineX64.
From S2P Require Import BaselineAsm.

Local Open Scope asm_scope.

(** ** The machine *)

Definition steps (code : list Z) (s s' : State) : Prop := exists n, run n code s = Running s'.
Definition returns_to (code : list Z) (s s' : State) : Prop := exists n, run n code s = Returned s'.

Lemma steps_refl code s : steps code s s.
Proof. by exists 0%nat. Qed.
Lemma steps_trans code s1 s2 s3 : steps code s1 s2 -> steps code s2 s3 -> steps code s1 s3.
Proof. intros [n Hn] [m Hm]. exists (n + m)%nat. by rewrite run_add, Hn. Qed.
Lemma steps_returns code s1 s2 s3 : steps code s1 s2 -> returns_to code s2 s3 -> returns_to code s1 s3.
Proof. intros [n Hn] [m Hm]. exists (n + m)%nat. by rewrite run_add, Hn. Qed.

Definition at_pc (pc : Z) (s : State) : State := mkMachine (st_gpr s) (st_xmm s) (st_flags s) (st_mem s) pc.

Lemma at_pc_at_pc p q s : at_pc p (at_pc q s) = at_pc p s.
Proof. done. Qed.

(** Jumps are not instructions of [run_asm]; a divide fault is [None]. *)
Definition exec_plain (i : Instr) (s : State) : option (State + State) :=
  match i with
  | I_jcc _ _ | I_jmp _ => None
  | _ =>
      match exec i 0 s with
      | inl s' => Some (inl s')
      | inr s' => if st_pc s' =? 0 then Some (inr s') else None
      end
  end.

Fixpoint run_asm (a : Asm) (s : State) : option (State + State) :=
  match a with
  | AEmpty => Some (inr s)
  | AIns i => exec_plain i s
  | ASeq a b => match run_asm a s with Some (inr s) => run_asm b s | r => r end
  | ASkip c a => if cond_holds c (st_flags s) then Some (inr s) else run_asm a s
  | AFork c1 a1 c2 a2 a3 =>
      if cond_holds c1 (st_flags s) then run_asm a3 s
      else match run_asm a1 s with
           | Some (inr s) => if cond_holds c2 (st_flags s) then run_asm a3 s else run_asm a2 s
           | r => r
           end
  end.

(** The position only enters the program counter. *)
Lemma exec_plain_at i s pc next s' :
  exec_plain i s = Some s' ->
  exec i next (at_pc pc s) = match s' with inl s' => inl (at_pc pc s') | inr s' => inr (at_pc next s') end.
Proof.
  unfold exec_plain. destruct i; try done; simpl; try (by intros [= <-]).
  unfold gpr. simpl. destruct (_ || _); [done|]. by intros [= <-].
Qed.

Lemma run_one code pre bs post i s :
  code = pre ++ bs ++ post -> encodes bs i ->
  run 1 code (at_pc (Z.of_nat (length pre)) s) =
    match exec i (Z.of_nat (length pre) + Z.of_nat (length bs)) (at_pc (Z.of_nat (length pre)) s) with
    | inl s => Returned s | inr s => Running s end.
Proof.
  intros -> He. simpl. rewrite (proj2 (Z.ltb_ge _ _)) by lia. rewrite Nat2Z.id, drop_app_length, He. done.
Qed.

(** What a run of [a] placed at [p] is, when it ends at [q]. *)
Definition placed_run (code : list Z) (p q : Z) (s : State) (r : State + State) : Prop :=
  match r with
  | inr s' => steps code (at_pc p s) (at_pc q s')
  | inl s' => exists pc, returns_to code (at_pc p s) (at_pc pc s')
  end.

Lemma placed_after code p q m s s1 r :
  steps code (at_pc p s) (at_pc m s1) -> placed_run code m q s1 r -> placed_run code p q s r.
Proof.
  intros H. destruct r; simpl; [intros (pc&Hr); exists pc; by eapply steps_returns|by apply steps_trans].
Qed.

Lemma plain_runs code pre bs post i s r :
  code = pre ++ bs ++ post -> encodes bs i -> exec_plain i s = Some r ->
  placed_run code (Z.of_nat (length pre)) (Z.of_nat (length (pre ++ bs))) s r.
Proof.
  intros Hc He Hx. pose proof (run_one _ _ _ _ _ s Hc He) as H1. rewrite (exec_plain_at _ _ _ _ _ Hx) in H1.
  rewrite length_app, Nat2Z.inj_add. destruct r; simpl; [|by exists 1%nat]. eexists. by exists 1%nat.
Qed.

Lemma jcc_runs code pre bs post c rel s :
  code = pre ++ bs ++ post -> encodes bs (I_jcc c rel) ->
  steps code (at_pc (Z.of_nat (length pre)) s)
    (at_pc (Z.of_nat (length (pre ++ bs)) + if cond_holds c (st_flags s) then rel else 0) s).
Proof.
  intros Hc He. exists 1%nat. rewrite (run_one _ _ _ _ _ s Hc He). simpl. unfold at_pc. do 2 f_equal. rewrite length_app. case_match; lia.
Qed.

Lemma jmp_runs code pre bs post rel s :
  code = pre ++ bs ++ post -> encodes bs (I_jmp rel) ->
  steps code (at_pc (Z.of_nat (length pre)) s) (at_pc (Z.of_nat (length (pre ++ bs)) + rel) s).
Proof.
  intros Hc He. exists 1%nat. rewrite (run_one _ _ _ _ _ s Hc He). simpl. unfold at_pc. do 2 f_equal. rewrite length_app. lia.
Qed.

(** Fetching the bytes of [a] runs [a]. *)
Lemma asm_runs a bs : asm_bytes a bs -> forall code pre post s r,
  code = pre ++ bs ++ post -> run_asm a s = Some r ->
  placed_run code (Z.of_nat (length pre)) (Z.of_nat (length (pre ++ bs))) s r.
Proof.
  induction 1 as [|i bs Hi|a b bs1 bs2 _ IH1 _ IH2|c a j bs Hj _ IH|c1 a1 c2 a2 a3 j1 b1 j2 b2 j3 b3 Hj1 _ IH1 Hj2 _ IH2 Hj3 _ IH3];
    intros code pre post s r Hc Hr; simpl in Hr.
  - injection Hr as <-. rewrite app_nil_r. apply steps_refl.
  - by eapply plain_runs.
  - rewrite app_assoc. destruct (run_asm a s) as [[s1|s1]|] eqn:H1; [| |done]; rewrite <-app_assoc in Hc.
    + injection Hr as <-. eapply IH1 in H1; [|exact Hc]. exact H1.
    + eapply IH1 in H1; [|exact Hc]. eapply placed_after; [exact H1|]. eapply IH2; [by rewrite Hc, app_assoc|done].
  - rewrite <-app_assoc in Hc. pose proof (jcc_runs _ _ _ _ _ _ s Hc Hj) as H1. rewrite app_assoc.
    destruct (cond_holds c (st_flags s)).
    + injection Hr as <-. simpl. by rewrite length_app, Nat2Z.inj_add.
    + rewrite Z.add_0_r in H1. eapply placed_after; [exact H1|]. eapply IH; [by rewrite Hc, app_assoc|done].
  - rewrite <-!app_assoc in Hc. pose proof (jcc_runs _ _ _ _ _ _ s Hc Hj1) as H1. rewrite !app_assoc.
    rewrite (app_assoc pre) in Hc.
    assert (forall s, run_asm a3 s = Some r ->
      placed_run code (Z.of_nat (length (((((pre ++ j1) ++ b1) ++ j2) ++ b2) ++ j3)))
        (Z.of_nat (length ((((((pre ++ j1) ++ b1) ++ j2) ++ b2) ++ j3) ++ b3))) s r) as H3.
    { intros s0 Hs0. eapply IH3; [by rewrite Hc, <-!app_assoc|done]. }
    destruct (cond_holds c1 (st_flags s)).
    + eapply placed_after; [exact H1|]. apply H3 in Hr. revert Hr. rewrite !length_app, !Nat2Z.inj_add. by rewrite <-!Z.add_assoc.
    + rewrite Z.add_0_r in H1. eapply placed_after; [exact H1|]. clear H1.
      destruct (run_asm a1 s) as [[s1|s1]|] eqn:H1; [| |done]; eapply IH1 in H1; [|exact Hc| |exact Hc]; [by injection Hr as <-|].
      eapply placed_after; [exact H1|]. rewrite app_assoc in Hc.
      pose proof (jcc_runs _ _ _ _ _ _ s1 Hc Hj2) as H2. rewrite app_assoc in Hc. destruct (cond_holds c2 (st_flags s1)).
      * eapply placed_after; [exact H2|]. apply H3 in Hr. revert Hr. rewrite !length_app, !Nat2Z.inj_add. by rewrite <-!Z.add_assoc.
      * rewrite Z.add_0_r in H2. eapply placed_after; [exact H2|]. eapply IH2 in Hr; [|exact Hc]. destruct r as [s2|s2]; [exact Hr|].
        eapply steps_trans; [exact Hr|]. rewrite app_assoc in Hc. pose proof (jmp_runs _ _ _ _ _ s2 Hc Hj3) as H4.
        revert H4. by rewrite (length_app _ b3), Nat2Z.inj_add.
Qed.

(** ** Frames *)

(** Where the call keeps its words: the frame pointer, and the pointers the
    prologue leaves in r8 to r11. *)
Record Layout := mkLayout { ly_frame : Z; ly_safepoint : Z; ly_deopt : Z; ly_result : Z; ly_arguments : Z }.

(** The registers the code changes, and the others. *)
Record Others := mkOthers { ot_rbx : Z; ot_rsp : Z; ot_rsi : Z; ot_rdi : Z; ot_high : list Z; ot_vectors : list Z }.

Section Frame.
Context (f : TurboJSIRFunction) (ly : Layout) (ot : Others).
Notation regs_n := (f_register_count f).
Notation cells_n := (f_register_count f + f_local_count f).

Definition machine (g0 g1 g2 x0 x1 : Z) (fl : Flags) (m : Z -> Z) : State :=
  mkMachine (g0 :: g1 :: g2 :: ot_rbx ot :: ot_rsp ot :: ly_frame ly :: ot_rsi ot :: ot_rdi ot :: ly_safepoint ly :: ly_deopt ly ::
             ly_result ly :: ly_arguments ly :: ot_high ot) (x0 :: x1 :: ot_vectors ot) fl m 0.

(** Register [k], or local [k - register_count]. *)
Definition cell (k : Z) : Z := ly_frame ly - 8 * (k + 1).

(** The lowest word. *)
Definition low : Z := ly_frame ly - 8 * cells_n.

(** The words [a .. a + 8 n) are addresses, and none of the frame or of the
    saved frame pointer. *)
Definition apart (a n : Z) : Prop := 0 <= a /\ a + 8 * n <= 2 ^ 64 /\ (a + 8 * n <= low \/ ly_frame ly + 8 <= a).

Record layout_ok (arguments : Z) : Prop := {
  lo_regs : 0 <= regs_n < 2 ^ 16;
  lo_locals : 0 <= f_local_count f < 2 ^ 16;
  lo_frame : 0 <= low /\ ly_frame ly < 2 ^ 64 - 8;
  lo_deopt : apart (ly_deopt ly) (1 + cells_n);
  lo_arguments : apart (ly_arguments ly) arguments;
  lo_safepoint : apart (ly_safepoint ly) 1;
  lo_result : 0 <= ly_result ly < 2 ^ 64
}.

(** The words of the frame are the registers and then the locals. *)
Definition framed (cells : list Z) (m : Z -> Z) : Prop :=
  forall k v, cells !! k = Some v -> m (cell (Z.of_nat k)) = uwrap 64 v.

(** Memory outside the frame. *)
Definition same_outside (m m' : Z -> Z) : Prop := forall a, a < low \/ ly_frame ly <= a -> m' a = m a.

Context (arguments_n : Z) (Hly : layout_ok arguments_n).

Lemma slot_address g0 g1 g2 x0 x1 fl m k : 0 <= k < cells_n ->
  address (machine g0 g1 g2 x0 x1 fl m) 5 (slot_disp k) = cell k.
Proof.
  intros Hk. destruct Hly. unfold address. change (gpr _ 5) with (ly_frame ly).
  replace (ly_frame ly + slot_disp k) with (cell k) by (unfold cell, slot_disp; lia).
  apply uwrap_small. unfold is_u, cell, low in *. lia.
Qed.

Lemma run_load_slot cells g0 g1 g2 x0 x1 fl m k v (second : bool) :
  framed cells m -> length cells = Z.to_nat cells_n -> cells !! Z.to_nat k = Some v -> 0 <= k ->
  run_asm (I_load (if second then 1 else 0)%nat 5 (slot_disp k)) (machine g0 g1 g2 x0 x1 fl m) =
    Some (inr (if second then machine g0 (uwrap 64 v) g2 x0 x1 fl m else machine (uwrap 64 v) g1 g2 x0 x1 fl m)).
Proof.
  intros Hf Hn Hv Hk. pose proof (lookup_lt_Some _ _ _ Hv). specialize (Hf _ _ Hv). rewrite Z2Nat.id in Hf by done.
  unfold run_asm, exec_plain, exec. rewrite slot_address by lia. rewrite <-Hf. by destruct second.
Qed.

Lemma run_store g0 g1 g2 x0 x1 fl m k : 0 <= k < cells_n ->
  run_asm (I_store 5 (slot_disp k) 0) (machine g0 g1 g2 x0 x1 fl m) =
    Some (inr (machine g0 g1 g2 x0 x1 fl (mem_update m (cell k) g0))).
Proof. intros Hk. unfold run_asm, exec_plain, exec. by rewrite slot_address. Qed.

Lemma framed_store cells m k v :
  framed cells m -> length cells = Z.to_nat cells_n -> 0 <= k < cells_n ->
  framed (<[Z.to_nat k := v]> cells) (mem_update m (cell k) (uwrap 64 v)).
Proof.
  intros Hf Hn Hk j w. unfold mem_update. intros [(<-&<-&_)|[Hne Hw]]%list_lookup_insert_Some.
  - by rewrite Z2Nat.id, Z.eqb_refl by lia.
  - rewrite (proj2 (Z.eqb_neq _ _)) by (unfold cell; lia). by apply Hf.
Qed.

Lemma same_outside_store m k v : 0 <= k < cells_n -> same_outside m (mem_update m (cell k) v).
Proof. intros Hk a Ha. unfold mem_update. rewrite (proj2 (Z.eqb_neq _ _)); [done|]. unfold cell, low in *. lia. Qed.

Lemma same_outside_trans m1 m2 m3 : same_outside m1 m2 -> same_outside m2 m3 -> same_outside m1 m3.
Proof. intros H1 H2 a Ha. by rewrite H2, H1. Qed.

(** ** Bailouts *)

(** Word [k] of the deoptimization buffer. *)
Definition deopt_word (k : Z) : Z := ly_deopt ly + 8 * k.

Lemma run_deopt_store g0 g1 g2 x0 x1 fl m k : 0 <= k <= cells_n ->
  run_asm (I_store 9 (8 * k) 0) (machine g0 g1 g2 x0 x1 fl m) =
    Some (inr (machine g0 g1 g2 x0 x1 fl (mem_update m (deopt_word k) g0))).
Proof.
  intros Hk. unfold run_asm, exec_plain, exec. unfold address. change (gpr (machine g0 g1 g2 x0 x1 fl m) 9) with (ly_deopt ly).
  fold (deopt_word k). rewrite uwrap_small; [done|]. destruct Hly as [_ _ _ Hd _ _ _]. unfold is_u, deopt_word, apart in *. lia.
Qed.

(** The cells are not words of the buffer. *)
Lemma cell_not_deopt j k : 0 <= j < cells_n -> 0 <= k <= cells_n -> cell j <> deopt_word k.
Proof. intros Hj Hk. destruct Hly as [_ _ _ Hd _ _ _]. unfold cell, deopt_word, apart, low in *. lia. Qed.

(** Copying the cells from [off] on. *)
Lemma run_dump cells off (disp dst : Z -> Z) l g1 g2 x0 x1 fl : length cells = Z.to_nat cells_n ->
  (forall i, i ∈ l -> 0 <= off + i < cells_n /\ disp i = slot_disp ((off + i)) /\ dst i = 8 * (1 + (off + i))) ->
  forall g0 m, framed cells m -> exists g0' m',
    run_asm (a_all (fun i => I_load 0 5 (disp i) +> I_store 9 (dst i) 0) l) (machine g0 g1 g2 x0 x1 fl m) =
      Some (inr (machine g0' g1 g2 x0 x1 fl m')) /\
    (forall i, i ∈ l -> m' (deopt_word (1 + (off + i))) = m (cell ((off + i)))) /\
    (forall a, (forall i, i ∈ l -> a <> deopt_word (1 + (off + i))) -> m' a = m a).
Proof.
  intros Hn. induction l as [|i l IH]; intros Hl g0 m Hf.
  - exists g0, m. split_and!; [done|intros i Hi; by apply not_elem_of_nil in Hi|done].
  - destruct (Hl i ltac:(set_solver)) as (Hi&Hd&Hs). cbn [a_all foldr run_asm].
    destruct (lookup_lt_is_Some_2 cells (Z.to_nat ((off + i))) ltac:(lia)) as [v Hv].
    rewrite Hd, Hs. change (exec_plain (I_load 0 5 (slot_disp ((off + i))))) with (run_asm (I_load 0 5 (slot_disp ((off + i))))).
    rewrite (run_load_slot cells _ _ _ _ _ _ _ _ v false) by (done || lia).
    change (exec_plain (I_store 9 (8 * (1 + (off + i))) 0)) with (run_asm (I_store 9 (8 * (1 + (off + i))) 0)).
    rewrite run_deopt_store by lia. set (m1 := mem_update m _ _).
    assert (forall j, 0 <= j < cells_n -> m1 (cell j) = m (cell j)) as Hsame.
    { intros j Hj. unfold m1, mem_update. rewrite (proj2 (Z.eqb_neq _ _)); [done|]. apply cell_not_deopt; lia. }
    destruct (IH ltac:(set_solver) (uwrap 64 v) m1) as (g0'&m'&Hrun&Hw&Ho).
    { intros k w Hk. rewrite Hsame; [by apply Hf|]. apply lookup_lt_Some in Hk. lia. }
    exists g0', m'. split; [exact Hrun|]. split.
    + intros j Hj. destruct (decide (j ∈ l)) as [Hjl|Hjl].
      * rewrite Hw by done. apply Hsame. apply Hl. set_solver.
      * assert (j = i) as -> by set_solver. rewrite Ho; [|intros k Hk; unfold deopt_word; destruct (decide (k = i)); [set_solver|lia]].
        unfold m1, mem_update. rewrite Z.eqb_refl. symmetry. rewrite <-(Z2Nat.id (off + i)) by lia. by apply Hf.
    + intros a Ha. rewrite Ho by (intros k Hk; apply Ha; set_solver). unfold m1, mem_update.
      rewrite (proj2 (Z.eqb_neq _ _)); [done|]. apply Ha. set_solver.
Qed.

(** The code of a status, and the buffer it leaves. *)
Definition dumped (index : Z) (cells : list Z) (m : Z -> Z) : Prop :=
  m (deopt_word 0) = uwrap 64 index /\ forall k v, cells !! k = Some v -> m (deopt_word (1 + Z.of_nat k)) = uwrap 64 v.

Lemma run_bailout cells index status g0 g1 g2 x0 x1 fl m :
  length cells = Z.to_nat cells_n -> framed cells m -> 
  exists s, run_asm (a_bailout f index status) (machine g0 g1 g2 x0 x1 fl m) = Some (inl s) /\
    gpr s 0 = status /\ dumped index cells (st_mem s).
Proof.
  intros Hn Hf. destruct Hly as [Hr Hlo _ _ _ _ _]. unfold a_bailout. cbn [run_asm].
  change (exec_plain (I_mov_imm64 0 (uwrap 64 index)) (machine g0 g1 g2 x0 x1 fl m)) with
    (Some (@inr State State (machine (uwrap 64 index) g1 g2 x0 x1 fl m))). cbv iota.
  change (exec_plain (I_store 9 0 0)) with (run_asm (I_store 9 (8 * 0) 0)). rewrite run_deopt_store by lia.
  set (m1 := mem_update m _ _).
  assert (framed cells m1) as Hf1.
  { intros k v Hk. unfold m1, mem_update. rewrite (proj2 (Z.eqb_neq _ _)); [by apply Hf|]. apply lookup_lt_Some in Hk. apply cell_not_deopt; lia. }
  destruct (run_dump cells 0 slot_disp (fun i => 8 + i * 8) (upto regs_n) g1 g2 x0 x1 fl Hn) with (uwrap 64 index) m1 as (g&m2&H2&W2&O2).
  { intros i Hi%upto_spec. split_and!; [lia..|f_equal; lia|lia]. } { done. }
  rewrite H2.
  assert (framed cells m2) as Hf2.
  { intros k v Hk. rewrite O2; [by apply Hf1|]. intros i Hi%upto_spec. apply lookup_lt_Some in Hk. apply cell_not_deopt; lia. }
  destruct (run_dump cells regs_n (local_disp f) (fun i => 8 + (regs_n + i) * 8) (upto (f_local_count f)) g1 g2 x0 x1 fl Hn) with g m2
    as (g'&m3&H3&W3&O3).
  { intros i Hi%upto_spec. split_and!; [lia..|unfold local_disp, slot_disp; lia|lia]. } { done. }
  rewrite H3. eexists. split; [reflexivity|]. split; [done|]. cbn [st_mem]. split.
  - simpl. rewrite O3 by (intros i Hi%upto_spec; unfold deopt_word; lia). rewrite O2 by (intros i Hi%upto_spec; unfold deopt_word; lia).
    unfold m1, mem_update. by rewrite Z.eqb_refl.
  - simpl. intros k v Hk. pose proof (lookup_lt_Some _ _ _ Hk). destruct (Z.lt_ge_cases (Z.of_nat k) regs_n).
    + rewrite O3 by (intros i Hi%upto_spec; unfold deopt_word; lia). rewrite <-(Z.add_0_l (Z.of_nat k)), W2 by (apply upto_spec; lia).
      by apply Hf1.
    + specialize (W3 (Z.of_nat k - regs_n) ltac:(apply upto_spec; lia)). replace (regs_n + (Z.of_nat k - regs_n)) with (Z.of_nat k) in W3 by lia.
      rewrite W3. by apply Hf2.
Qed.
End Frame.
