(* ===== verification/BaselineBlocks.v ===== *)
(** * The block of each IR instruction

    Every block of the baseline compiler, run on a frame that holds the
    registers and locals of an IR state, does what the IR instruction does
    ([block_runs]): it falls through with the next state in the frame, returns
    the result, or leaves through the bailout of the failed check with the
    state in the deoptimization buffer.  Arithmetic on 64-bit patterns is
    related to that on [int64_t] where C defines it. *)

From S2P Require Import Prelude.
From S2P Require Import JitTypes.
From S2P Require Import Clutch.
From S2P Require Import IR.
From S2P Require Import IRVerify.
From S2P Require Import Float64.
From S2P Require Import IRInterp.
From S2P Require Import EngineEmit.
From S2P Require Import X64.
From S2P Require Import BaselineX64.
From S2P Require Import BaselineAsm.
From S2P Require Import BaselineRun.

Local Open Scope asm_scope.

(** ** Patterns *)

Lemma double_of_pattern v : double_of_i64 (uwrap 64 v) = double_of_i64 v.
Proof. unfold double_of_i64, uwrap. by rewrite Z.mod_mod by lia. Qed.

Lemma swrap_small w z : 0 < w -> - 2 ^ (w - 1) <= z < 2 ^ (w - 1) -> swrap w z = z.
Proof.
  intros Hw Hz. unfold swrap. assert (2 ^ w = 2 * 2 ^ (w - 1)) as Hp by (rewrite <-Z.pow_succ_r by lia; f_equal; lia).
  rewrite Z.mod_small; lia.
Qed.

Lemma swrap_32_pattern v : swrap 32 (uwrap 64 v) = swrap 32 v.
Proof.
  unfold swrap, uwrap. f_equal. change (2 ^ 64) with (2 ^ 32 * 2 ^ 32).
  rewrite <-Zplus_mod_idemp_l. rewrite (Z.rem_mul_r v (2 ^ 32) (2 ^ 32)) by lia.
  rewrite (Z.mul_comm (2 ^ 32)), Z.mod_add, Z.mod_mod by lia. by rewrite Zplus_mod_idemp_l.
Qed.

Lemma uwrap_inj v w : in_i64 v = true -> in_i64 w = true -> uwrap 64 v = uwrap 64 w -> v = w.
Proof. intros Hv Hw H. rewrite <-(swrap_uwrap_i64 v Hv), <-(swrap_uwrap_i64 w Hw). by rewrite H. Qed.

Lemma uwrap_eqb v w : in_i64 v = true -> in_i64 w = true -> (uwrap 64 v =? uwrap 64 w) = (v =? w).
Proof.
  intros Hv Hw. destruct (Z.eqb_spec v w) as [->|Hne]; [apply Z.eqb_refl|]. apply Z.eqb_neq. intros H. by apply Hne, uwrap_inj.
Qed.

Lemma swrap_32_i32 v : (swrap 32 v =? v) = in_i32 v.
Proof.
  destruct (in_i32 v) eqn:Hv.
  - apply in_i32_spec in Hv. apply Z.eqb_eq. apply swrap_small; [lia|]. unfold INT32_MIN, INT32_MAX in Hv. lia.
  - apply Z.eqb_neq. intros H. assert (in_i32 v = true); [|congruence]. rewrite <-H. apply in_i32_spec.
    unfold swrap, INT32_MIN, INT32_MAX. pose proof (Z.mod_pos_bound (v + 2 ^ (32 - 1)) (2 ^ 32) ltac:(lia)). lia.
Qed.

Lemma pattern_add l r : uwrap 64 (uwrap 64 l + uwrap 64 r) = uwrap 64 (l + r).
Proof. by rewrite uwrap_add_l, uwrap_add_r. Qed.
Lemma pattern_sub l r : uwrap 64 (uwrap 64 l - uwrap 64 r) = uwrap 64 (l - r).
Proof. unfold uwrap. by rewrite Zminus_mod_idemp_l, Zminus_mod_idemp_r. Qed.

Lemma quot_in_i64 l r : in_i64 l = true -> r <> 0 -> ~ (l = INT64_MIN /\ r = -1) -> in_i64 (Z.quot l r) = true.
Proof.
  rewrite !in_i64_spec. unfold INT64_MIN, INT64_MAX. intros Hl Hr Hn.
  pose proof (Z.quot_rem' l r). pose proof (Z.rem_bound_abs l r Hr).
  destruct (Z.eq_dec r (-1)) as [->|]; [nia|]. destruct (Z.eq_dec r 1) as [->|]; [nia|].
  assert (Z.abs (Z.quot l r) <= Z.abs l / 2) as Hq.
  { rewrite <-Z.quot_abs by done. rewrite Z.quot_div_nonneg by lia. apply Z.div_le_compat_l; lia. }
  assert (Z.abs l / 2 <= 4611686018427387904) by (apply Z.div_le_upper_bound; lia). lia.
Qed.

Lemma rem_in_i64 l r : in_i64 l = true -> r <> 0 -> in_i64 (Z.rem l r) = true.
Proof.
  rewrite !in_i64_spec. unfold INT64_MIN, INT64_MAX. intros Hl Hr. destruct (Z.le_ge_cases 0 l).
  - pose proof (Z.rem_nonneg l r Hr H). pose proof (Z.rem_le l (Z.abs r) H ltac:(lia)). rewrite Z.rem_abs_r in * by done. lia.
  - pose proof (Z.rem_nonneg (-l) r Hr ltac:(lia)). pose proof (Z.rem_le (-l) (Z.abs r) ltac:(lia) ltac:(lia)).
    rewrite Z.rem_abs_r in * by done. rewrite Z.rem_opp_l in * by done. lia.
Qed.

(** The dividend [cqo] makes. *)
Lemma swrap_128 l : in_i64 l = true -> swrap 128 ((if l <? 0 then UINT64_MAX else 0) * 2 ^ 64 + uwrap 64 l) = l.
Proof.
  rewrite in_i64_spec. unfold INT64_MIN, INT64_MAX, UINT64_MAX. intros Hl. unfold uwrap, swrap.
  change (2 ^ (128 - 1)) with (2 ^ 127). destruct (Z.ltb_spec l 0).
  - rewrite <-(Z.mod_add l 1), (Z.mod_small (l + 1 * 2 ^ 64)) by lia.
    rewrite <-(Z.mod_add _ (-1)), Z.mod_small by lia. lia.
  - rewrite (Z.mod_small l) by lia. rewrite Z.mod_small by lia. lia.
Qed.

Lemma run_seq a b s s' r : run_asm a s = Some (inr s') -> run_asm b s' = r -> run_asm (a +> b) s = r.
Proof. intros Ha Hb. simpl. by rewrite Ha. Qed.

Lemma run_seq_exit a b s s' : run_asm a s = Some (inl s') -> run_asm (a +> b) s = Some (inl s').
Proof. intros Ha. simpl. by rewrite Ha. Qed.

(** Grouping the instructions between the operands and the store. *)
Lemma run_group2 o a b t s : run_asm (o +> a +> b +> t) s = run_asm (o +> (a +> b) +> t) s.
Proof. simpl. by destruct (run_asm o s) as [[]|]. Qed.
Lemma run_group3 o a b c t s : run_asm (o +> a +> b +> c +> t) s = run_asm (o +> (a +> b +> c) +> t) s.
Proof. simpl. by destruct (run_asm o s) as [[]|]. Qed.
Lemma run_group4 o a b c d t s : run_asm (o +> a +> b +> c +> d +> t) s = run_asm (o +> (a +> b +> c +> d) +> t) s.
Proof. simpl. by destruct (run_asm o s) as [[]|]. Qed.
Lemma run_group5 o a b c d e t s : run_asm (o +> a +> b +> c +> d +> e +> t) s = run_asm (o +> (a +> b +> c +> d +> e) +> t) s.
Proof. simpl. by destruct (run_asm o s) as [[]|]. Qed.

(** ** Operations on patterns *)

Section Operations.
Context (ly : Layout) (ot : Others) (l r b2 y0 y1 : Z) (fl : Flags) (m : Z -> Z).
Notation machine := (machine ly ot).
Notation operands := (machine (uwrap 64 l) (uwrap 64 r) b2 y0 y1 fl m).

(** Leaving [v] in rax. *)
Definition leaves (v : Z) (res : option (State + State)) : Prop :=
  exists b1 z0 z1 fl', res = Some (inr (machine (uwrap 64 v) b1 b2 z0 z1 fl' m)).

Lemma add_leaves : leaves (l + r) (run_asm (I_add 0 1) operands).
Proof. exists (uwrap 64 r), y0, y1, (add_flags (uwrap 64 l) (uwrap 64 r)). rewrite <-pattern_add. reflexivity. Qed.

Lemma sub_leaves : leaves (l - r) (run_asm (I_sub 0 1) operands).
Proof. exists (uwrap 64 r), y0, y1, (compare_flags (uwrap 64 l) (uwrap 64 r)). rewrite <-pattern_sub. reflexivity. Qed.

Lemma mul_leaves : in_i64 l = true -> in_i64 r = true -> leaves (l * r) (run_asm (I_imul 0 1) operands).
Proof.
  intros Hl Hr. do 4 eexists. unfold run_asm, exec_plain, exec. change (gpr operands 0) with (uwrap 64 l).
  change (gpr operands 1) with (uwrap 64 r). rewrite !swrap_uwrap_i64 by done. reflexivity.
Qed.

Lemma less_leaves : in_i64 l = true -> in_i64 r = true ->
  leaves (b2z (l <? r)) (run_asm (I_cmp 0 1 +> I_setl 0 +> I_movzx8 0 0) operands).
Proof.
  intros Hl Hr. exists (uwrap 64 r), y0, y1, (compare_flags (uwrap 64 l) (uwrap 64 r)).
  eapply (run_seq _ _ _ (machine (uwrap 64 l - uwrap 64 l mod 256 + b2z (l <? r)) (uwrap 64 r) b2 y0 y1 (compare_flags (uwrap 64 l) (uwrap 64 r)) m)).
  - eapply run_seq; [reflexivity|]. unfold run_asm, exec_plain, exec.
    change (st_flags _) with (compare_flags (uwrap 64 l) (uwrap 64 r)). rewrite cond_after_compare by (apply uwrap_is_u; lia).
    rewrite !swrap_uwrap_i64 by done. reflexivity.
  - unfold run_asm, exec_plain, exec. change (gpr _ 0) with (uwrap 64 l - uwrap 64 l mod 256 + b2z (l <? r)).
    replace ((uwrap 64 l - uwrap 64 l mod 256 + b2z (l <? r)) mod 256) with (uwrap 64 (b2z (l <? r))); [reflexivity|].
    assert (uwrap 64 l - uwrap 64 l mod 256 = uwrap 64 l / 256 * 256) as -> by (pose proof (Z.div_mod (uwrap 64 l) 256 ltac:(lia)); lia).
    rewrite Z.add_comm, Z.mod_add by lia. by destruct (l <? r).
Qed.

Definition to_doubles (op : Asm) : Asm := I_movq_to_xmm 0 0 +> I_movq_to_xmm 1 1 +> op +> I_movq_from_xmm 0 0.

Lemma double_leaves (op : Instr) g :
  In (op, g) [(I_addsd 0 1, f64_add); (I_subsd 0 1, f64_sub); (I_mulsd 0 1, f64_mul); (I_divsd 0 1, f64_div)] ->
  leaves (g l r) (run_asm (to_doubles op) operands).
Proof.
  intros Hop. exists (uwrap 64 r), (uwrap 64 (g l r)), (uwrap 64 r), fl.
  assert (g (uwrap 64 l) (uwrap 64 r) = g l r) as <-.
  { destruct Hop as [[= <- <-]|[[= <- <-]|[[= <- <-]|[[= <- <-]|[]]]]];
      unfold f64_add, f64_sub, f64_mul, f64_div; by rewrite !double_of_pattern. }
  destruct Hop as [[= <- <-]|[[= <- <-]|[[= <- <-]|[[= <- <-]|[]]]]]; reflexivity.
Qed.

Lemma compare_leaves p g : In (p, g) [(0, f64_eq); (1, f64_lt); (2, f64_le)] ->
  leaves (b2z (g l r)) (run_asm (to_doubles (I_cmpsd 0 1 p) +> I_and32_imm 0 1) operands).
Proof.
  intros Hp. assert (double_predicate p (uwrap 64 l) (uwrap 64 r) = g l r) as Hg.
  { destruct Hp as [[= <- <-]|[[= <- <-]|[[= <- <-]|[]]]]; unfold double_predicate; simpl;
      unfold f64_eq, f64_lt, f64_le; by rewrite !double_of_pattern. }
  set (b := if g l r then UINT64_MAX else 0).
  assert (run_asm (to_doubles (I_cmpsd 0 1 p)) operands = Some (inr (machine b (uwrap 64 r) b2 b (uwrap 64 r) fl m))) as Hd.
  { unfold b. rewrite <-Hg. reflexivity. }
  do 4 eexists. eapply run_seq; [exact Hd|]. unfold run_asm, exec_plain, exec. change (gpr _ 0) with b.
  replace (Z.land (uwrap 32 b) (uwrap 32 1)) with (uwrap 64 (b2z (g l r))) by (unfold b; by destruct (g l r)). reflexivity.
Qed.

Lemma to_double_leaves b1 : in_i64 l = true ->
  leaves (f64_of_i64 l) (run_asm (I_cvtsi2sd 0 0 +> I_movq_from_xmm 0 0) (machine (uwrap 64 l) b1 b2 y0 y1 fl m)).
Proof.
  intros Hl. do 4 eexists. eapply run_seq.
  - unfold run_asm, exec_plain, exec. change (gpr _ 0) with (uwrap 64 l). rewrite swrap_uwrap_i64 by done. reflexivity.
  - reflexivity.
Qed.

Lemma trunc_leaves b1 v : f64_trunc l = Some v ->
  leaves v (run_asm (I_movq_to_xmm 0 0 +> I_cvttsd2si 0 0) (machine (uwrap 64 l) b1 b2 y0 y1 fl m)).
Proof.
  intros Hv. assert (f64_trunc (uwrap 64 l) = Some v) as Ht by (rewrite <-Hv; unfold f64_trunc; by rewrite double_of_pattern).
  do 4 eexists. eapply run_seq; [reflexivity|]. unfold run_asm, exec_plain, exec. change (xmm _ 0) with (uwrap 64 l). rewrite Ht. reflexivity.
Qed.
End Operations.

(** ** Blocks *)

Section Blocks.
Context (f : TurboJSIRFunction) (ly : Layout) (ot : Others) (arguments : list Z).
Context (Hly : layout_ok f ly (Z.of_nat (length arguments))).
Notation regs_n := (f_register_count f).
Notation machine := (machine ly ot).
Notation cell := (cell ly).

(** An IR state: as many registers and locals as the function has, all
    [int64_t]. *)
Record sized (regs locals : list Z) : Prop := {
  sz_regs : length regs = Z.to_nat regs_n;
  sz_locals : length locals = Z.to_nat (f_local_count f);
  sz_values : Forall (fun v => in_i64 v = true) (regs ++ locals)
}.

Lemma sized_length regs locals : sized regs locals -> length (regs ++ locals) = Z.to_nat (regs_n + f_local_count f).
Proof. intros [H1 H2 _]. destruct Hly. rewrite length_app, H1, H2. lia. Qed.

Lemma sized_register regs locals r v : sized regs locals -> regs !! r = Some v -> in_i64 v = true.
Proof. intros [_ _ H] Hr. rewrite Forall_lookup in H. apply (H r). by apply lookup_app_l_Some. Qed.

Lemma sized_set_register regs locals r v : sized regs locals -> in_i64 v = true -> sized (<[r := v]> regs) locals.
Proof.
  intros [H1 H2 H3] Hv. split; [by rewrite length_insert|done|]. apply Forall_app in H3 as [H3 H4]. apply Forall_app. split; [|done].
  by apply Forall_insert.
Qed.

Lemma sized_set_local regs locals r v : sized regs locals -> in_i64 v = true -> sized regs (<[r := v]> locals).
Proof.
  intros [H1 H2 H3] Hv. split; [done|by rewrite length_insert|]. apply Forall_app in H3 as [H3 H4]. apply Forall_app. split; [done|].
  by apply Forall_insert.
Qed.

(** The state in the frame; outside the frame memory is [m0]. *)
Definition holds (m0 : Z -> Z) (regs locals : list Z) (s : State) : Prop :=
  exists g0 g1 g2 x0 x1 fl m, s = machine g0 g1 g2 x0 x1 fl m /\ framed ly (regs ++ locals) m /\ same_outside f ly m0 m.

(** Leaving through a bailout. *)
Definition bails (index status : Z) (regs locals : list Z) (r : option (State + State)) : Prop :=
  exists s, r = Some (inl s) /\ gpr s 0 = status /\ dumped ly index (regs ++ locals) (st_mem s).

Context (m0 : Z -> Z) (regs locals : list Z) (Hsz : sized regs locals).
Context (g0 g1 g2 x0 x1 : Z) (fl : Flags) (m : Z -> Z) (Hf : framed ly (regs ++ locals) m) (Ho : same_outside f ly m0 m).
Notation start := (machine g0 g1 g2 x0 x1 fl m).

Lemma load_register second r v a0 a1 a2 y0 y1 fl' : 0 <= r -> regs !! Z.to_nat r = Some v ->
  run_asm (I_load (if second : bool then 1 else 0)%nat 5 (slot_disp r)) (machine a0 a1 a2 y0 y1 fl' m) =
    Some (inr (if second then machine a0 (uwrap 64 v) a2 y0 y1 fl' m else machine (uwrap 64 v) a1 a2 y0 y1 fl' m)).
Proof.
  intros Hr Hv. eapply (run_load_slot f ly ot _ Hly (regs ++ locals)); [done|by apply sized_length| |done]. by apply lookup_app_l_Some.
Qed.

Lemma run_operands l r vl vr : 0 <= l -> 0 <= r -> regs !! Z.to_nat l = Some vl -> regs !! Z.to_nat r = Some vr ->
  run_asm (I_load 0 5 (slot_disp l) +> I_load 1 5 (slot_disp r)) start = Some (inr (machine (uwrap 64 vl) (uwrap 64 vr) g2 x0 x1 fl m)).
Proof.
  intros Hl Hr Hvl Hvr. eapply run_seq; [by apply (load_register false)|]. by rewrite (load_register true _ vr).
Qed.

(** A value in rax is stored to a register. *)
Lemma store_value a d v b1 b2 y0 y1 fl' :
  run_asm a start = Some (inr (machine (uwrap 64 v) b1 b2 y0 y1 fl' m)) -> 0 <= d < regs_n ->
  exists s, run_asm (a +> I_store 5 (slot_disp d) 0) start = Some (inr s) /\ holds m0 (<[Z.to_nat d := v]> regs) locals s.
Proof.
  intros Ha Hd. destruct Hly as [Hr Hlo _ _ _ _ _]. eexists. split; [eapply run_seq; [exact Ha|]; apply (run_store f ly ot _ Hly); lia|].
  do 7 eexists. split; [reflexivity|]. split.
  - rewrite <-insert_app_l by (rewrite (sz_regs _ _ Hsz); lia). apply (framed_store f); [done|by apply sized_length|lia].
  - eapply same_outside_trans; [exact Ho|]. apply same_outside_store. lia.
Qed.

Lemma bailout_runs index status a0 a1 a2 y0 y1 fl' :
  bails index status regs locals (run_asm (a_bailout f index status) (machine a0 a1 a2 y0 y1 fl' m)).
Proof.
  destruct (run_bailout f ly ot _ Hly (regs ++ locals) index status a0 a1 a2 y0 y1 fl' m) as (s&H1&H2&H3);
    [by apply sized_length|done|]. by exists s.
Qed.

(** The check of 32-bit results. *)
Lemma check_runs index v b1 b2 y0 y1 fl' : in_i64 v = true ->
  let r := run_asm (a_check f index) (machine (uwrap 64 v) b1 b2 y0 y1 fl' m) in
  if in_i32 v then exists b1' fl'', r = Some (inr (machine (uwrap 64 v) b1' b2 y0 y1 fl'' m)) else bails index 1 regs locals r.
Proof.
  intros Hv r. set (w := uwrap 64 (swrap 32 (uwrap 64 v))).
  assert (run_asm (I_movsxd 1 0 +> I_cmp 0 1) (machine (uwrap 64 v) b1 b2 y0 y1 fl' m) =
    Some (inr (machine (uwrap 64 v) w b2 y0 y1 (compare_flags (uwrap 64 v) w) m))) as Hc by reflexivity.
  assert (cond_holds CondE (compare_flags (uwrap 64 v) w) = in_i32 v) as Hz.
  { simpl. unfold w. rewrite swrap_32_pattern, uwrap_eqb, Z.eqb_sym; [apply swrap_32_i32|done|]. apply in_i32_i64, in_i32_spec.
    unfold swrap, INT32_MIN, INT32_MAX. pose proof (Z.mod_pos_bound (v + 2 ^ (32 - 1)) (2 ^ 32) ltac:(lia)). lia. }
  assert (r = if in_i32 v then Some (inr (machine (uwrap 64 v) w b2 y0 y1 (compare_flags (uwrap 64 v) w) m))
              else run_asm (a_bailout f index 1) (machine (uwrap 64 v) w b2 y0 y1 (compare_flags (uwrap 64 v) w) m)) as ->.
  { unfold r, a_check. eapply run_seq; [exact Hc|]. cbn [run_asm]. change (st_flags _) with (compare_flags (uwrap 64 v) w). by rewrite Hz. }
  destruct (in_i32 v); [by do 2 eexists|]. apply bailout_runs.
Qed.

(** Division. *)
Lemma quotient_runs l r b2 y0 y1 fl' : in_i64 l = true -> in_i64 r = true -> r <> 0 -> ~ (l = INT64_MIN /\ r = -1) ->
  run_asm (I_cqo +> I_idiv 1) (machine (uwrap 64 l) (uwrap 64 r) b2 y0 y1 fl' m) =
    Some (inr (machine (uwrap 64 (Z.quot l r)) (uwrap 64 r) (uwrap 64 (Z.rem l r)) y0 y1 fl' m)).
Proof.
  intros Hl Hr H0 Hn.
  eapply (run_seq _ _ _ (machine (uwrap 64 l) (uwrap 64 r) (if l <? 0 then UINT64_MAX else 0) y0 y1 fl' m)).
  - cbn -[uwrap swrap UINT64_MAX]. by rewrite swrap_uwrap_i64.
  - set (h := if l <? 0 then UINT64_MAX else 0). unfold run_asm, exec_plain, exec.
    change (gpr _ 2) with h. change (gpr _ 0) with (uwrap 64 l). change (gpr _ 1) with (uwrap 64 r).
    unfold h. rewrite swrap_128, (swrap_uwrap_i64 r), (proj2 (Z.eqb_neq r 0)), quot_in_i64 by done. reflexivity.
Qed.

Lemma nonzero_runs index l r b2 y0 y1 fl' : in_i64 r = true ->
  let s := machine (uwrap 64 l) (uwrap 64 r) b2 y0 y1 fl' m in
  if r =? 0 then bails index 2 regs locals (run_asm (a_nonzero f index) s)
  else exists fl'', run_asm (a_nonzero f index) s = Some (inr (machine (uwrap 64 l) (uwrap 64 r) b2 y0 y1 fl'' m)).
Proof.
  intros Hr s. set (fl'' := result_flags 64 (Z.land (uwrap 64 r) (uwrap 64 r))).
  assert (cond_holds CondNE fl'' = negb (r =? 0)) as Hz.
  { rewrite <-(uwrap_eqb r 0) by done. simpl. by rewrite Z.land_diag. }
  assert (run_asm (I_test 1 1) s = Some (inr (machine (uwrap 64 l) (uwrap 64 r) b2 y0 y1 fl'' m))) as Ht by reflexivity.
  assert (run_asm (a_nonzero f index) s = if negb (r =? 0) then Some (inr (machine (uwrap 64 l) (uwrap 64 r) b2 y0 y1 fl'' m))
    else run_asm (a_bailout f index 2) (machine (uwrap 64 l) (uwrap 64 r) b2 y0 y1 fl'' m)) as ->.
  { eapply run_seq; [exact Ht|]. cbn [run_asm]. change (st_flags _) with fl''. by rewrite Hz. }
  destruct (r =? 0); cbn [negb]; [apply bailout_runs|by exists fl''].
Qed.

Lemma min_runs l b1 b2 y0 y1 fl' : in_i64 l = true -> exists fl'',
  run_asm a_min (machine (uwrap 64 l) b1 b2 y0 y1 fl' m) = Some (inr (machine (uwrap 64 l) b1 (uwrap 64 INT32_MIN) y0 y1 fl'' m)) /\
  cond_holds CondNE fl'' = negb (l =? INT32_MIN).
Proof. intros Hl. eexists. split; [reflexivity|]. cbn -[uwrap]. by rewrite (uwrap_eqb l INT32_MIN). Qed.

Lemma minus_one_runs r b0 b2 y0 y1 fl' : in_i64 r = true -> exists fl'',
  run_asm a_minus_one (machine b0 (uwrap 64 r) b2 y0 y1 fl' m) = Some (inr (machine b0 (uwrap 64 r) (uwrap 64 (-1)) y0 y1 fl'' m)) /\
  cond_holds CondNE fl'' = negb (r =? -1).
Proof. intros Hl. eexists. split; [reflexivity|]. cbn -[uwrap]. by rewrite (uwrap_eqb r (-1)). Qed.

Lemma bails_seq index status a b s : bails index status regs locals (run_asm a s) -> bails index status regs locals (run_asm (a +> b) s).
Proof. intros (s'&H&Hs). exists s'. split; [by apply run_seq_exit|done]. Qed.

Lemma bails_after index status a b s s' :
  run_asm a s = Some (inr s') -> bails index status regs locals (run_asm b s') -> bails index status regs locals (run_asm (a +> b) s).
Proof. intros Ha Hb. simpl. by rewrite Ha. Qed.

(** The values that leave, or the quotient (remainder) in rax. *)
Definition divides (want : bool) (index l r : Z) (out : option (State + State)) : Prop :=
  if r =? 0 then bails index 2 regs locals out
  else if (l =? INT32_MIN) && (r =? -1) && negb want then bails index 3 regs locals out
  else l = INT64_MIN /\ r = -1 \/
    exists b1 b2 y0 y1 fl', out = Some (inr (machine (uwrap 64 (if want then Z.rem l r else Z.quot l r)) b1 b2 y0 y1 fl' m)).

Lemma special_after l r b2 y0 y1 fl' : in_i64 l = true -> in_i64 r = true -> r <> 0 ->
  l = INT64_MIN /\ r = -1 \/ run_asm (I_cqo +> I_idiv 1) (machine (uwrap 64 l) (uwrap 64 r) b2 y0 y1 fl' m) =
    Some (inr (machine (uwrap 64 (Z.quot l r)) (uwrap 64 r) (uwrap 64 (Z.rem l r)) y0 y1 fl' m)).
Proof.
  intros Hl Hr H0. destruct (decide (l = INT64_MIN)) as [->|]; [destruct (decide (r = -1)) as [->|]; [by left|]|];
    right; apply quotient_runs; naive_solver.
Qed.

Lemma div_runs index l r b2 y0 y1 fl' : in_i64 l = true -> in_i64 r = true ->
  divides false index l r (run_asm (a_div f index) (machine (uwrap 64 l) (uwrap 64 r) b2 y0 y1 fl' m)).
Proof.
  intros Hl Hr. unfold divides. pose proof (nonzero_runs index l r b2 y0 y1 fl' Hr) as Hnz. cbv zeta in Hnz.
  destruct (Z.eqb_spec r 0) as [H0|H0]; [by do 3 apply bails_seq|]. destruct Hnz as [fl1 Hnz].
  destruct (min_runs l (uwrap 64 r) b2 y0 y1 fl1 Hl) as (fl2&Hmin&Hc2).
  destruct (minus_one_runs r (uwrap 64 l) (uwrap 64 INT32_MIN) y0 y1 fl2 Hr) as (fl3&Hone&Hc3).
  set (s2 := machine (uwrap 64 l) (uwrap 64 r) (uwrap 64 INT32_MIN) y0 y1 fl2 m) in *.
  set (s3 := machine (uwrap 64 l) (uwrap 64 r) (uwrap 64 (-1)) y0 y1 fl3 m) in *.
  assert (run_asm (ASkip CondNE (a_minus_one +> ASkip CondNE (a_bailout f index 3))) s2 =
    if negb (l =? INT32_MIN) then Some (inr s2) else if negb (r =? -1) then Some (inr s3) else run_asm (a_bailout f index 3) s3) as Hskip.
  { cbn [run_asm]. change (st_flags s2) with fl2. rewrite Hc2. destruct (l =? INT32_MIN); [|done]. cbn [negb]. rewrite Hone.
    change (st_flags s3) with fl3. by rewrite Hc3. }
  assert (run_asm (a_nonzero f index +> a_min) (machine (uwrap 64 l) (uwrap 64 r) b2 y0 y1 fl' m) = Some (inr s2)) as Hhead
    by (eapply run_seq; [exact Hnz|exact Hmin]).
  destruct (Z.eqb_spec l INT32_MIN) as [Hm|Hm]; [destruct (Z.eqb_spec r (-1)) as [Hm1|Hm1]|]; cbn [negb andb] in *.
  - apply bails_seq. eapply bails_after; [exact Hhead|]. rewrite Hskip. apply bailout_runs.
  - destruct (special_after l r (uwrap 64 (-1)) y0 y1 fl3 Hl Hr H0) as [?|Hq]; [by left|right].
    do 5 eexists. eapply run_seq; [eapply run_seq; [exact Hhead|exact Hskip]|exact Hq].
  - destruct (special_after l r (uwrap 64 INT32_MIN) y0 y1 fl2 Hl Hr H0) as [?|Hq]; [by left|right].
    do 5 eexists. eapply run_seq; [eapply run_seq; [exact Hhead|exact Hskip]|exact Hq].
Qed.

Lemma rem_runs index l r b2 y0 y1 fl' : in_i64 l = true -> in_i64 r = true ->
  divides true index l r (run_asm (a_rem f index) (machine (uwrap 64 l) (uwrap 64 r) b2 y0 y1 fl' m)).
Proof.
  intros Hl Hr. unfold divides. pose proof (nonzero_runs index l r b2 y0 y1 fl' Hr) as Hnz. cbv zeta in Hnz.
  destruct (Z.eqb_spec r 0) as [H0|H0]; [by do 2 apply bails_seq|]. destruct Hnz as [fl1 Hnz]. rewrite andb_false_r.
  destruct (min_runs l (uwrap 64 r) b2 y0 y1 fl1 Hl) as (fl2&Hmin&Hc2).
  destruct (minus_one_runs r (uwrap 64 l) (uwrap 64 INT32_MIN) y0 y1 fl2 Hr) as (fl3&Hone&Hc3).
  set (s2 := machine (uwrap 64 l) (uwrap 64 r) (uwrap 64 INT32_MIN) y0 y1 fl2 m) in *.
  set (s3 := machine (uwrap 64 l) (uwrap 64 r) (uwrap 64 (-1)) y0 y1 fl3 m) in *.
  set (tail := I_cqo +> I_idiv 1 +> I_mov 0 2).
  assert (run_asm (AFork CondNE a_minus_one CondNE (I_xor32 0 0) tail) s2 =
    if negb (l =? INT32_MIN) then run_asm tail s2 else if negb (r =? -1) then run_asm tail s3 else run_asm (I_xor32 0 0) s3) as Hfork.
  { cbn [run_asm]. change (st_flags s2) with fl2. rewrite Hc2. destruct (l =? INT32_MIN); [|done]. cbn [negb]. rewrite Hone.
    change (st_flags s3) with fl3. by rewrite Hc3. }
  assert (run_asm (a_nonzero f index +> a_min) (machine (uwrap 64 l) (uwrap 64 r) b2 y0 y1 fl' m) = Some (inr s2)) as Hhead
    by (eapply run_seq; [exact Hnz|exact Hmin]).
  destruct (Z.eqb_spec l INT32_MIN) as [Hm|Hm]; [destruct (Z.eqb_spec r (-1)) as [Hm1|Hm1]|]; cbn [negb andb] in *.
  - right. assert (Z.rem l r = 0) as -> by (by rewrite Hm, Hm1). do 5 eexists. eapply run_seq; [exact Hhead|]. etransitivity; [exact Hfork|].
    unfold run_asm, exec_plain, exec. change (gpr s3 0) with (uwrap 64 l). rewrite Z.lxor_nilpotent. reflexivity.
  - destruct (special_after l r (uwrap 64 (-1)) y0 y1 fl3 Hl Hr H0) as [?|Hq]; [by left|right].
    do 5 eexists. eapply run_seq; [exact Hhead|]. etransitivity; [exact Hfork|]. eapply run_seq; [exact Hq|reflexivity].
  - destruct (special_after l r (uwrap 64 INT32_MIN) y0 y1 fl2 Hl Hr H0) as [?|Hq]; [by left|right].
    do 5 eexists. eapply run_seq; [exact Hhead|]. etransitivity; [exact Hfork|]. eapply run_seq; [exact Hq|reflexivity].
Qed.

(** ** The simulation of a step *)

(** The status of the check that fails. *)
Definition exit_status (i : TurboJSIRInstruction) (regs : list Z) : Z :=
  match in_opcode i with
  | TURBOJS_IR_RUNTIME_HELPER => 5
  | TURBOJS_IR_DIV_I32_CHECKED | TURBOJS_IR_REM_I32_CHECKED => if default 0 (regs !! Z.to_nat (in_right i)) =? 0 then 2 else 3
  | _ => 1
  end.

Definition simulates (i : TurboJSIRInstruction) (index : Z) (pc : nat) (out : StepOut) (res : option (State + State)) : Prop :=
  match out with
  | Next regs' locals' pc' => pc' = S pc /\ sized regs' locals' /\ exists s, res = Some (inr s) /\ holds m0 regs' locals' s
  | Halt (Result v) => in_i64 v = true /\ exists s, res = Some (inl s) /\ gpr s 0 = 0 /\ st_mem s (ly_result ly) = uwrap 64 v
  | Halt (Stop TURBOJS_IR_BAILOUT) => bails index (exit_status i regs) regs locals res
  | Halt _ => True
  end.

Lemma rd_eq l r v k : l !! Z.to_nat r = Some v -> rd l r k = k v.
Proof. intros H. unfold rd. by rewrite H. Qed.

Lemma register_value r : 0 <= r < regs_n -> exists v, regs !! Z.to_nat r = Some v /\ in_i64 v = true.
Proof.
  intros Hr. destruct (lookup_lt_is_Some_2 regs (Z.to_nat r)) as [v Hv]; [rewrite (sz_regs _ _ Hsz); lia|]. exists v. split; [done|].
  by eapply sized_register.
Qed.

(** The common end: the value in rax becomes that of the destination. *)
Lemma value_simulates i index pc a v b1 b2 y0 y1 fl' :
  run_asm a start = Some (inr (machine (uwrap 64 v) b1 b2 y0 y1 fl' m)) -> in_i64 v = true -> 0 <= in_destination i < regs_n ->
  simulates i index pc (wr regs (in_destination i) v (fun regs => Next regs locals (S pc)))
    (run_asm (a +> I_store 5 (slot_disp (in_destination i)) 0) start).
Proof.
  intros Ha Hv Hd. unfold wr. rewrite (proj2 (Nat.ltb_lt _ _)) by (rewrite (sz_regs _ _ Hsz); lia). simpl.
  destruct (store_value _ _ _ _ _ _ _ _ Ha Hd) as (s&Hs&Hh). split_and!; [done|by apply sized_set_register|by exists s].
Qed.

Lemma f64_in_i64 x : in_i64 (i64_of_double x) = true.
Proof. apply swrap_range. Qed.

Lemma b2z_in_i64 b : in_i64 (b2z b) = true.
Proof. by destruct b. Qed.


(** The operands, then an operation that leaves a value. *)
Lemma binary_simulates i index pc op vl vr v :
  regs !! Z.to_nat (in_left i) = Some vl -> regs !! Z.to_nat (in_right i) = Some vr ->
  0 <= in_left i -> 0 <= in_right i -> 0 <= in_destination i < regs_n -> in_i64 v = true ->
  leaves ly ot g2 m v (run_asm op (machine (uwrap 64 vl) (uwrap 64 vr) g2 x0 x1 fl m)) ->
  simulates i index pc (wr regs (in_destination i) v (fun regs => Next regs locals (S pc)))
    (run_asm (I_load 0 5 (slot_disp (in_left i)) +> I_load 1 5 (slot_disp (in_right i)) +> op +> I_store 5 (slot_disp (in_destination i)) 0) start).
Proof.
  intros Hl Hr H1 H2 Hd Hv (b1&z0&z1&fl'&Hop). eapply value_simulates; [|done|done]. eapply run_seq; [by apply run_operands|exact Hop].
Qed.

Lemma unary_simulates i index pc op vl v :
  regs !! Z.to_nat (in_left i) = Some vl -> 0 <= in_left i -> 0 <= in_destination i < regs_n -> in_i64 v = true ->
  leaves ly ot g2 m v (run_asm op (machine (uwrap 64 vl) g1 g2 x0 x1 fl m)) ->
  simulates i index pc (wr regs (in_destination i) v (fun regs => Next regs locals (S pc)))
    (run_asm (I_load 0 5 (slot_disp (in_left i)) +> op +> I_store 5 (slot_disp (in_destination i)) 0) start).
Proof.
  intros Hl H1 Hd Hv (b1&z0&z1&fl'&Hop). eapply value_simulates; [|done|done]. eapply run_seq; [by apply (load_register false)|exact Hop].
Qed.

Lemma checked_simulates i index pc op vl vr v :
  regs !! Z.to_nat (in_left i) = Some vl -> regs !! Z.to_nat (in_right i) = Some vr ->
  0 <= in_left i -> 0 <= in_right i -> 0 <= in_destination i < regs_n -> in_i64 v = true -> exit_status i regs = 1 ->
  leaves ly ot g2 m v (run_asm op (machine (uwrap 64 vl) (uwrap 64 vr) g2 x0 x1 fl m)) ->
  simulates i index pc
    (if in_i32 v then wr regs (in_destination i) v (fun regs => Next regs locals (S pc)) else Halt (Stop TURBOJS_IR_BAILOUT))
    (run_asm (I_load 0 5 (slot_disp (in_left i)) +> I_load 1 5 (slot_disp (in_right i)) +> op +> a_check f index +>
              I_store 5 (slot_disp (in_destination i)) 0) start).
Proof.
  intros Hl Hr H1 H2 Hd Hv He (b1&z0&z1&fl'&Hop).
  assert (run_asm (I_load 0 5 (slot_disp (in_left i)) +> I_load 1 5 (slot_disp (in_right i)) +> op) start =
    Some (inr (machine (uwrap 64 v) b1 g2 z0 z1 fl' m))) as Hrun by (eapply run_seq; [by apply run_operands|exact Hop]).
  pose proof (check_runs index v b1 g2 z0 z1 fl' Hv) as Hc. cbv zeta in Hc. destruct (in_i32 v).
  - destruct Hc as (b1'&fl''&Hc). eapply value_simulates; [|done|done]. eapply run_seq; [exact Hrun|exact Hc].
  - unfold simulates. rewrite He. apply bails_seq. eapply bails_after; [exact Hrun|exact Hc].
Qed.

Lemma checked_value v : (let? value := c_i64 v in if (value <? INT32_MIN) || (INT32_MAX <? value) then Some (inl tt) else Some (inr value)) =
  if in_i64 v then Some (if in_i32 v then inr v else inl tt) else None.
Proof.
  unfold c_i64. destruct (in_i64 v); [|done]. unfold in_i32. rewrite !Z.ltb_antisym.
  by destruct (INT32_MIN <=? v), (v <=? INT32_MAX).
Qed.

Lemma sum_simulates i index pc op vl vr v o :
  In o [TURBOJS_IR_ADD_I32_CHECKED; TURBOJS_IR_SUB_I32_CHECKED; TURBOJS_IR_MUL_I32_CHECKED] -> in_opcode i = o ->
  checked_i32 o vl vr = (if in_i64 v then Some (if in_i32 v then inr v else inl tt) else None) ->
  regs !! Z.to_nat (in_left i) = Some vl -> regs !! Z.to_nat (in_right i) = Some vr ->
  0 <= in_left i -> 0 <= in_right i -> 0 <= in_destination i < regs_n ->
  leaves ly ot g2 m v (run_asm op (machine (uwrap 64 vl) (uwrap 64 vr) g2 x0 x1 fl m)) ->
  simulates i index pc
    (match checked_i32 o vl vr with
     | None => Halt (Undef UB_arithmetic)
     | Some (inl _) => Halt (Stop TURBOJS_IR_BAILOUT)
     | Some (inr v) => wr regs (in_destination i) v (fun regs => Next regs locals (S pc))
     end)
    (run_asm (I_load 0 5 (slot_disp (in_left i)) +> I_load 1 5 (slot_disp (in_right i)) +> op +> a_check f index +>
              I_store 5 (slot_disp (in_destination i)) 0) start).
Proof.
  intros Hin Hop -> Hl Hr H1 H2 Hd Hlv. destruct (in_i64 v) eqn:Hv; [|done].
  assert (exit_status i regs = 1) as He by (unfold exit_status; rewrite Hop; simpl in Hin; by destruct Hin as [<-|[<-|[<-|[]]]]).
  pose proof (checked_simulates i index pc op vl vr v Hl Hr H1 H2 Hd Hv He Hlv) as H. by destruct (in_i32 v).
Qed.

Lemma division_value (want : bool) l r : checked_i32 (if want then TURBOJS_IR_REM_I32_CHECKED else TURBOJS_IR_DIV_I32_CHECKED) l r =
  if r =? 0 then Some (inl tt)
  else if (l =? INT32_MIN) && (r =? -1) && negb want then Some (inl tt)
  else if (l =? INT64_MIN) && (r =? -1) then None
  else Some (inr (if want then Z.rem l r else Z.quot l r)).
Proof.
  destruct want; unfold checked_i32, c_rem, c_div; simpl; destruct (r =? 0); try done; rewrite ?andb_false_r, ?andb_true_r; simpl;
    by destruct (l =? INT32_MIN), (l =? INT64_MIN), (r =? -1).
Qed.

Lemma division_simulates want i index pc vl vr :
  in_opcode i = (if want : bool then TURBOJS_IR_REM_I32_CHECKED else TURBOJS_IR_DIV_I32_CHECKED) ->
  regs !! Z.to_nat (in_left i) = Some vl -> regs !! Z.to_nat (in_right i) = Some vr ->
  0 <= in_left i -> 0 <= in_right i -> 0 <= in_destination i < regs_n ->
  simulates i index pc
    (match checked_i32 (in_opcode i) vl vr with
     | None => Halt (Undef UB_arithmetic)
     | Some (inl _) => Halt (Stop TURBOJS_IR_BAILOUT)
     | Some (inr v) => wr regs (in_destination i) v (fun regs => Next regs locals (S pc))
     end)
    (run_asm (I_load 0 5 (slot_disp (in_left i)) +> I_load 1 5 (slot_disp (in_right i)) +> (if want then a_rem f index else a_div f index) +>
              I_store 5 (slot_disp (in_destination i)) 0) start).
Proof.
  intros Hop Hl Hr H1 H2 Hd. pose proof (sized_register _ _ _ _ Hsz Hl) as Hil. pose proof (sized_register _ _ _ _ Hsz Hr) as Hir.
  pose proof (run_operands _ _ _ _ H1 H2 Hl Hr) as Hops.
  assert (divides want index vl vr (run_asm (if want then a_rem f index else a_div f index) (machine (uwrap 64 vl) (uwrap 64 vr) g2 x0 x1 fl m))) as Hdiv.
  { destruct want; [by apply rem_runs|by apply div_runs]. }
  assert (exit_status i regs = if vr =? 0 then 2 else 3) as Hst by (unfold exit_status; rewrite Hr, Hop; by destruct want).
  unfold divides in Hdiv. rewrite Hop, division_value. destruct (vr =? 0) eqn:H0; [|destruct ((vl =? INT32_MIN) && (vr =? -1) && negb want)].
  1-2: unfold simulates; rewrite Hst; apply bails_seq; by eapply bails_after.
  b2p. destruct ((vl =? INT64_MIN) && (vr =? -1)) eqn:Hov; [done|].
  destruct Hdiv as [[-> ->]|(b1&b2&z0&z1&fl'&Hdiv)]; [done|]. eapply value_simulates; [eapply run_seq; [exact Hops|exact Hdiv]| |done].
  destruct want; [by apply rem_in_i64|]. apply quot_in_i64; [done|done|]. intros [-> ->]. done.
Qed.

(** ** All blocks *)

(** The caller's arguments. *)
Definition arguments_in (m : Z -> Z) : Prop := forall k v, arguments !! k = Some v -> m (ly_arguments ly + 8 * Z.of_nat k) = uwrap 64 v.

Definition is_jump (i : TurboJSIRInstruction) : bool :=
  match in_opcode i with TURBOJS_IR_JUMP | TURBOJS_IR_BRANCH_TRUE | TURBOJS_IR_BRANCH_FALSE => true | _ => false end.

(** Fields within their C types. *)
Record typed (i : TurboJSIRInstruction) : Prop := {
  ty_left : 0 <= in_left i;
  ty_right : 0 <= in_right i;
  ty_destination : 0 <= in_destination i;
  ty_target : 0 <= in_target i;
  ty_immediate : in_i64 (in_immediate i) = true
}.

Lemma run_argument k v : arguments_in m0 -> arguments !! Z.to_nat k = Some v -> 0 <= k ->
  run_asm (I_load 0 11 (k * 8)) start = Some (inr (machine (uwrap 64 v) g1 g2 x0 x1 fl m)).
Proof.
  intros Ha Hv Hk. specialize (Ha _ _ Hv). rewrite Z2Nat.id in Ha by done. pose proof (lookup_lt_Some _ _ _ Hv).
  unfold run_asm, exec_plain, exec, address. change (gpr start 11) with (ly_arguments ly). destruct Hly as [Hr Hlo _ _ Har _ _].
  unfold apart, low in Har. rewrite uwrap_small by (unfold is_u; lia). change (st_mem start) with m.
  rewrite Ho by (unfold low; lia). rewrite (Z.mul_comm k), Ha. reflexivity.
Qed.

Lemma run_local_get l v : locals !! Z.to_nat l = Some v -> 0 <= l ->
  run_asm (I_load 0 5 (local_disp f l)) start = Some (inr (machine (uwrap 64 v) g1 g2 x0 x1 fl m)).
Proof.
  intros Hv Hl. destruct Hly as [Hr Hlo _ _ _ _ _]. replace (local_disp f l) with (slot_disp (regs_n + l)) by (unfold local_disp, slot_disp; lia).
  eapply (run_load_slot f ly ot _ Hly (regs ++ locals) _ _ _ _ _ _ _ _ v false); [done|by apply sized_length| |lia].
  rewrite lookup_app_r by (rewrite (sz_regs _ _ Hsz); lia). rewrite <-Hv. f_equal. rewrite (sz_regs _ _ Hsz). lia.
Qed.

Lemma local_set_simulates i index pc v :
  regs !! Z.to_nat (in_left i) = Some v -> 0 <= in_left i -> 0 <= in_immediate i < f_local_count f ->
  simulates i index pc (wr locals (in_immediate i) v (fun locals => Next regs locals (S pc)))
    (run_asm (I_load 0 5 (slot_disp (in_left i)) +> I_store 5 (local_disp f (in_immediate i)) 0) start).
Proof.
  intros Hv Hl Hi. destruct Hly as [Hr Hlo _ _ _ _ _]. set (k := in_immediate i) in *.
  replace (local_disp f k) with (slot_disp (regs_n + k)) by (unfold local_disp, slot_disp; lia).
  unfold wr. rewrite (proj2 (Nat.ltb_lt _ _)) by (rewrite (sz_locals _ _ Hsz); lia).
  unfold simulates. split; [done|]. split; [apply sized_set_local; [done|by eapply sized_register]|].
  eexists. split; [eapply run_seq; [by apply (load_register false)|]; apply (run_store f ly ot _ Hly); lia|].
  do 7 eexists. split; [reflexivity|]. split.
  - replace (regs ++ <[Z.to_nat k := v]> locals) with (<[Z.to_nat (regs_n + k) := v]> (regs ++ locals)).
    + apply (framed_store f); [done|by apply sized_length|lia].
    + rewrite insert_app_r_alt by (rewrite (sz_regs _ _ Hsz); lia). f_equal. f_equal. rewrite (sz_regs _ _ Hsz). lia.
  - eapply same_outside_trans; [exact Ho|]. apply same_outside_store. lia.
Qed.

Lemma return_simulates i index pc v :
  regs !! Z.to_nat (in_left i) = Some v -> 0 <= in_left i ->
  simulates i index pc (Halt (Result v)) (run_asm (I_load 0 5 (slot_disp (in_left i)) +> (I_store_at 10 0 +> I_xor32 0 0 +> a_epilogue)) start).
Proof.
  intros Hv Hl. split; [by eapply sized_register|]. eexists. split; [eapply run_seq; [by apply (load_register false)|]; reflexivity|].
  split; [cbn; by rewrite Z.lxor_nilpotent|]. cbn. unfold mem_update. by rewrite Z.eqb_refl.
Qed.

Lemma block_runs hp n1 n2 i index pc :
  operands_ok hp f i -> typed i -> arguments_in m0 -> Forall (fun v => in_i64 v = true) arguments ->
  f_argument_count f <= Z.of_nat (length arguments) -> is_call i = false -> is_jump i = false ->
  simulates i index pc (ir_step hp n1 n2 f arguments i regs locals pc) (run_asm (a_block f index i) start).
Proof.
  intros [b Hv] [Hl Hr Hd _ Himm] Ha Hat Hac Hcall Hjump. unfold ir_step, execute_step, a_block. unfold verify_instruction, valid_register in Hv.
  unfold is_call, is_jump in *. destruct (in_opcode i) eqn:Hop; try done;
    first [rewrite decide_True by done | rewrite decide_False by done]; repeat (case_match; [done|]); b2p;
    try (match goal with H : in_left i < _ |- _ =>
           destruct (register_value (in_left i) ltac:(lia)) as (vl&Hvl&Hil); try rewrite (rd_eq _ _ _ _ Hvl) end);
    try (match goal with H : in_right i < _ |- _ =>
           destruct (register_value (in_right i) ltac:(lia)) as (vr&Hvr&Hir); try rewrite (rd_eq _ _ _ _ Hvr) end).
  all: try (match goal with |- simulates _ _ _ (arith (c_i64 ?v) _) _ => unfold c_i64; destruct (in_i64 v) eqn:Hin; [|done]; cbn [arith] end).
  all: try (by eapply binary_simulates; eauto using add_leaves, sub_leaves, mul_leaves; lia).
  all: try (by eapply return_simulates).
  - split; [done|]. split; [done|]. eexists. split; [reflexivity|]. by do 7 eexists.
  - destruct (lookup_lt_is_Some_2 arguments (Z.to_nat (in_immediate i)) ltac:(lia)) as [v Hva]. rewrite (rd_eq _ _ _ _ Hva).
    eapply value_simulates; [by apply run_argument| |lia]. rewrite Forall_lookup in Hat. eauto.
  - by eapply value_simulates; [reflexivity| |lia].
  - by eapply value_simulates; [reflexivity| |lia].
  - rewrite run_group4. eapply binary_simulates; [done..|lia|apply f64_in_i64|]. apply (double_leaves _ _ _ _ _ _ _ _ _ _ f64_add). simpl; tauto.
  - rewrite run_group4. eapply binary_simulates; [done..|lia|apply f64_in_i64|]. apply (double_leaves _ _ _ _ _ _ _ _ _ _ f64_sub). simpl; tauto.
  - rewrite run_group4. eapply binary_simulates; [done..|lia|apply f64_in_i64|]. apply (double_leaves _ _ _ _ _ _ _ _ _ _ f64_mul). simpl; tauto.
  - rewrite run_group4. eapply binary_simulates; [done..|lia|apply f64_in_i64|]. apply (double_leaves _ _ _ _ _ _ _ _ _ _ f64_div). simpl; tauto.
  - rewrite run_group5. eapply binary_simulates; [done..|lia|apply b2z_in_i64|]. apply (compare_leaves _ _ _ _ _ _ _ _ _ 1 f64_lt). simpl; tauto.
  - rewrite run_group5. eapply binary_simulates; [done..|lia|apply b2z_in_i64|]. apply (compare_leaves _ _ _ _ _ _ _ _ _ 2 f64_le). simpl; tauto.
  - rewrite run_group5. eapply binary_simulates; [done..|lia|apply b2z_in_i64|]. apply (compare_leaves _ _ _ _ _ _ _ _ _ 0 f64_eq). simpl; tauto.
  - rewrite run_group2. eapply unary_simulates; [done|done|lia|apply f64_in_i64|]. by apply to_double_leaves.
  - destruct (f64_trunc vl) as [v|] eqn:Ht; [|done]. cbn [arith]. rewrite run_group2. eapply unary_simulates; [done|done|lia| |by apply trunc_leaves].
    unfold f64_trunc in Ht. repeat case_match; simplify_eq; try done; by apply c_i64_Some in Ht as [-> ?].
  - eapply sum_simulates; [| |apply checked_value|..|apply add_leaves]; simpl; tauto || done || lia.
  - eapply sum_simulates; [| |apply checked_value|..|apply sub_leaves]; simpl; tauto || done || lia.
  - eapply sum_simulates; [| |apply checked_value|..|by apply mul_leaves]; simpl; tauto || done || lia.
  - rewrite <-Hop. apply (division_simulates false); done || lia.
  - rewrite <-Hop. apply (division_simulates true); done || lia.
  - unfold simulates, exit_status. rewrite Hop. apply bailout_runs.
  - rewrite run_group3. eapply binary_simulates; [done..|lia|apply b2z_in_i64|]. by apply less_leaves.
  - destruct (lookup_lt_is_Some_2 locals (Z.to_nat (in_immediate i))) as [v Hvl]; [rewrite (sz_locals _ _ Hsz); lia|]. rewrite (rd_eq _ _ _ _ Hvl).
    eapply value_simulates; [by apply run_local_get| |lia]. destruct Hsz as [_ _ Hall]. apply Forall_app in Hall as [_ Hall].
    rewrite Forall_lookup in Hall. eauto.
  - apply local_set_simulates; done || lia.
Qed.
End Blocks.
