(* ===== verification/BaselineLayout.v ===== *)
(** * The code the baseline compiler generates

    For functions without native calls: after the prologue the blocks follow
    in the order of the instructions, and after patching every jump goes to
    the block of its target ([generate_layout]). *)

From S2P Require Import Prelude.
From S2P Require Import JitTypes.
From S2P Require Import Clutch.
From S2P Require Import IR.
From S2P Require Import IRVerify.
From S2P Require Import X64.
From S2P Require Import BaselineX64.
From S2P Require Import BaselineAsm.
From S2P Require Import BaselineRun.
From S2P Require Import BaselineBlocks.

(** ** Patches *)

Definition patch_bytes (off : nat) (v : Z) (bs : list Z) : list Z := take off bs ++ le_bytes 4 (uwrap 32 v) ++ drop (off + 4) bs.

Definition resolve (offsets : list Z) (bs : list Z) (patches : list (nat * Z)) : list Z :=
  foldl (fun bs '(off, target) => patch_bytes off (default 0 (offsets !! Z.to_nat target) - (Z.of_nat off + 4)) bs) bs patches.

Lemma apply_patches_bytes offsets patches c : cb_bytes (apply_patches offsets patches c) = resolve offsets (cb_bytes c) patches.
Proof. revert c. induction patches as [|[off t] patches IH]; intros c; [done|]. simpl. by rewrite IH. Qed.

Lemma patch_bytes_app off v bs t : (off + 4 <= length bs)%nat -> patch_bytes off v (bs ++ t) = patch_bytes off v bs ++ t.
Proof.
  intros H. unfold patch_bytes. rewrite take_app_le by lia. rewrite drop_app_le by lia. by rewrite <-!app_assoc.
Qed.

Lemma patch_bytes_end off v pre z : length pre = off -> length z = 4%nat -> patch_bytes off v (pre ++ z) = pre ++ le_bytes 4 (uwrap 32 v).
Proof.
  intros <- Hz. unfold patch_bytes. rewrite take_app_length, drop_ge by (rewrite length_app; lia). by rewrite app_nil_r.
Qed.

Lemma length_patch_bytes off v bs : (off + 4 <= length bs)%nat -> length (patch_bytes off v bs) = length bs.
Proof. intros H. unfold patch_bytes. rewrite !length_app, length_take, length_drop, length_le_bytes. lia. Qed.

Definition patches_within (n : nat) (patches : list (nat * Z)) : Prop := Forall (fun p => (p.1 + 4 <= n)%nat) patches.

Lemma resolve_app offsets patches bs t : patches_within (length bs) patches -> resolve offsets (bs ++ t) patches = resolve offsets bs patches ++ t.
Proof.
  revert bs. induction patches as [|[off tg] patches IH]; intros bs; [done|]. intros [Ho Hp]%Forall_cons. simpl in *.
  rewrite patch_bytes_app by done. apply IH. by rewrite length_patch_bytes.
Qed.

Lemma length_resolve offsets patches bs : patches_within (length bs) patches -> length (resolve offsets bs patches) = length bs.
Proof.
  revert bs. induction patches as [|[off tg] patches IH]; intros bs; [done|]. intros [Ho Hp]%Forall_cons. simpl in *.
  rewrite IH; rewrite length_patch_bytes by done; done.
Qed.

Lemma patches_within_mono n n' patches : (n <= n')%nat -> patches_within n patches -> patches_within n' patches.
Proof. intros Hn H. eapply Forall_impl; [exact H|]. intros p; simpl; lia. Qed.

(** ** Emitters only add code *)

Definition Grows (e : Emit) : Prop := forall b b', e b = Some b' -> cb_count b <= cb_count b'.

Section Grow.
Context (mem : Z -> bool).

Lemma grows_nop : Grows Some.
Proof. by intros b b' [= <-]. Qed.
Lemma grows_8 v : Grows (emit8 mem v).
Proof. intros b b' H%emits_8. unfold cb_count. rewrite H, length_app. lia. Qed.
Lemma grows_seq e1 e2 : Grows e1 -> Grows e2 -> Grows (seq_emit e1 e2).
Proof. intros H1 H2 b b' (c&Hc%H1&Hb%H2)%seq_Some. lia. Qed.
Lemma grows_all l : Forall Grows l -> Grows (emit_all l).
Proof. induction 1; [apply grows_nop|by apply grows_seq]. Qed.
Lemma patch32_grows off v b : cb_count b <= cb_count (patch32 off v b).
Proof. unfold cb_count, patch32. cbn [cb_bytes]. rewrite !length_app, length_take, length_drop, length_le_bytes. lia. Qed.
Lemma grows_32 v : Grows (emit32 mem v).
Proof. apply grows_all, Forall_fmap, Forall_true. intros. apply grows_8. Qed.
Lemma grows_64 v : Grows (emit64 mem v).
Proof. apply grows_all, Forall_fmap, Forall_true. intros. apply grows_8. Qed.
Lemma grows_over e : Grows e -> Grows (over mem e).
Proof.
  intros He b b' (c&Hc&[= <-])%let_Some. pose proof (patch32_grows (length (cb_bytes b)) (cb_count c - (Z.of_nat (length (cb_bytes b)) + 4)) c).
  apply (grows_seq _ _ (grows_32 0) He) in Hc. lia.
Qed.
End Grow.

Ltac grows :=
  repeat match goal with
  | |- Grows Some => apply grows_nop
  | |- Grows (emit8 _ _) => apply grows_8
  | |- Grows (emit32 _ _) => apply grows_32
  | |- Grows (emit64 _ _) => apply grows_64
  | |- Grows (over _ _) => apply grows_over
  | |- Grows (seq_emit _ _) => apply grows_seq
  | |- Grows (emit_all (_ <$> _)) => apply grows_all, Forall_fmap, Forall_true; intros ?; unfold compose
  | |- Grows (if ?b then _ else _) => destruct b
  | |- Grows (emit_divrem_checked _ _ _ _) => fail 1
  | |- Grows (return_bailout_at _ _ _ _) => unfold return_bailout_at, epilogue
  | |- Grows (?e _ _ _ _ _) => unfold e
  | |- Grows (?e _ _ _ _) => unfold e
  | |- Grows (?e _ _ _) => unfold e
  | |- Grows (?e _ _) => unfold e
  | |- Grows (?e _) => unfold e
  end.

Lemma grows_divrem mem f index want : Grows (emit_divrem_checked mem f index want).
Proof.
  intros b b' He. unfold emit_divrem_checked in He.
  apply let_Some in He as (b1&H1&He). apply let_Some in He as (b2&H2&He). apply let_Some in He as (b3&H3&He).
  apply let_Some in He as (b4&H4&He). apply let_Some in He as (b5&H5&He). apply let_Some in He as (b6&H6&He).
  match type of H1 with ?e _ = _ => assert (Grows e) as G1 by grows; apply G1 in H1 end.
  match type of H2 with ?e _ = _ => assert (Grows e) as G2 by grows; apply G2 in H2 end.
  apply grows_32 in H3.
  match type of H4 with ?e _ = _ => assert (Grows e) as G4 by grows; apply G4 in H4 end.
  match type of H5 with ?e _ = _ => assert (Grows e) as G5 by grows; apply G5 in H5 end.
  match type of H6 with ?e _ = _ => assert (Grows e) as G6 by grows; apply G6 in H6 end.
  pose proof (patch32_grows (length (cb_bytes b1)) (cb_count b5 - (Z.of_nat (length (cb_bytes b1)) + 4)) b5).
  match type of H6 with cb_count (patch32 ?o ?v ?c) <= _ => pose proof (patch32_grows o v c) end.
  destruct want; [|injection He as <-; lia]. apply let_Some in He as (b7&H7&[= <-]).
  match type of H7 with ?e _ = _ => assert (Grows e) as G7 by grows; apply G7 in H7 end.
  match goal with |- _ <= cb_count (patch32 ?o ?v ?c) => pose proof (patch32_grows o v c) end. lia.
Qed.

Lemma grows_instruction mem f index i e : emit_instruction mem f index i = Some e -> Grows e.
Proof. unfold emit_instruction. destruct (in_opcode i); intros [= <-]; grows; apply grows_divrem. Qed.

Lemma grows_jump mem f index i e : emit_jump mem f index i = Some e -> Grows e.
Proof. unfold emit_jump. destruct (in_opcode i); intros [= <-]; grows. Qed.

(** ** One block *)

Section Layout.
Context (mem : Z -> bool) (windows : bool) (hp : Heap) (sites_base : Z) (f : TurboJSIRFunction).
Context (Hregs : 0 <= f_register_count f < 2 ^ 16) (Hlocals : 0 <= f_local_count f < 2 ^ 16) (Hargs : f_argument_count f < 2 ^ 16).

Definition resolved (offsets : list Z) (s : BaselineState) : list Z := resolve offsets (cb_bytes (bs_code s)) (bs_patches s).

(** The bytes of instruction [i], which end at [last]. *)
Definition block_bytes (offsets : list Z) (index : Z) (i : TurboJSIRInstruction) (last : Z) (bs : list Z) : Prop :=
  if is_jump i then
    exists bs1, bs = bs1 ++ jump_opcode (in_opcode i) ++ le_bytes 4 (uwrap 32 (default 0 (offsets !! Z.to_nat (in_target i)) - last)) /\
      asm_bytes (a_jump f index i) bs1
  else asm_bytes (a_block f index i) bs.

Definition well_patched (s : BaselineState) : Prop := patches_within (length (cb_bytes (bs_code s))) (bs_patches s).

Lemma emit_jump_is_jump index i : (exists e, emit_jump mem f index i = Some e) <-> is_jump i = true.
Proof. unfold emit_jump, is_jump. destruct (in_opcode i); naive_solver. Qed.

Lemma compile_one_bytes index i s s' :
  operands_ok hp f i -> typed i -> is_call i = false -> well_patched s ->
  compile_one mem windows hp sites_base f index i s = Some (inr s') -> cb_count (bs_code s') < 2 ^ 31 ->
  well_patched s' /\ bs_offsets s' = bs_offsets s ++ [cb_count (bs_code s)] /\
  forall offsets, exists bs, resolved offsets s' = resolved offsets s ++ bs /\ block_bytes offsets index i (cb_count (bs_code s')) bs.
Proof.
  intros Hok Hty Hcall Hw. unfold compile_one. rewrite Hcall. destruct (emit_jump mem f index i) as [e|] eqn:He.
  - unfold compile_jump, emitting. cbn [bs_code]. destruct (e (bs_code s)) as [c|] eqn:Hc; [|done].
    destruct (emit32 mem 0 c) as [c'|] eqn:Hc'; [|done]. intros [= <-]. cbn [bs_set_code bs_code]. intros Hl.
    pose proof (emits_32 _ _ _ _ Hc') as Hb'.
    destruct (jump_assembles mem f index Hregs Hlocals hp i e _ _ Hok (ty_left _ Hty) He Hc) as (bs1&Hb&Ha).
    { unfold cb_count in *. rewrite Hb', length_app in Hl. lia. }
    set (op := jump_opcode (in_opcode i)) in *. set (z := le_bytes 4 (uwrap 32 0)) in *.
    assert (length z = 4%nat) as Hz by apply length_le_bytes.
    split_and!; [|done|].
    + unfold well_patched. cbn. rewrite Hb', length_app, Hz. apply Forall_app. split.
      * eapply patches_within_mono; [|exact Hw]. rewrite Hb, length_app. lia.
      * apply Forall_singleton. simpl. lia.
    + intros offsets. set (last := cb_count c') in *.
      set (d := le_bytes 4 (uwrap 32 (default 0 (offsets !! Z.to_nat (in_target i)) - last))).
      exists (bs1 ++ op ++ d). split.
      * unfold resolved, resolve. cbn [bs_code bs_patches bs_set_code]. rewrite foldl_app. fold (resolve offsets (cb_bytes c') (bs_patches s)).
        rewrite Hb'. rewrite Hb. rewrite <-(app_assoc (cb_bytes (bs_code s))). rewrite resolve_app by done.
        set (R := resolve offsets (cb_bytes (bs_code s)) (bs_patches s)).
        assert (length R = length (cb_bytes (bs_code s))) as HR by (by apply length_resolve).
        cbn [foldl]. change (foldl _ (cb_bytes (bs_code s)) (bs_patches s)) with R. rewrite (app_assoc R).
        rewrite patch_bytes_end; [|by rewrite !length_app, HR|done].
        rewrite <-!app_assoc. unfold d. replace last with (Z.of_nat (length (cb_bytes (bs_code s) ++ bs1 ++ op)) + 4); [done|].
        unfold last, cb_count. rewrite Hb', Hb, !length_app, Hz. lia.
      * unfold block_bytes. rewrite (proj1 (emit_jump_is_jump index i)) by eauto. by exists bs1.
  - destruct (emit_instruction mem f index i) as [e|] eqn:Hi; [|done]. unfold emitting. cbn [bs_code].
    destruct (e (bs_code s)) as [c|] eqn:Hc; [|done]. intros [= <-]. cbn [bs_set_code bs_code]. intros Hl.
    destruct (instruction_assembles mem f index Hregs Hlocals hp i e) with (bs_code s) c as (bs&Hb&Ha); try done; try apply Hty.
    assert (is_jump i = false) as Hj.
    { destruct (is_jump i) eqn:Hj; [|done]. apply (emit_jump_is_jump index) in Hj as [e' He']. congruence. }
    split_and!; [|done|].
    + eapply patches_within_mono; [|exact Hw]. cbn. rewrite Hb, length_app. lia.
    + intros offsets. exists bs. split; [|unfold block_bytes; by rewrite Hj]. unfold resolved. cbn. rewrite Hb. by apply resolve_app.
Qed.

Lemma compile_one_grows index i s s' : is_call i = false ->
  compile_one mem windows hp sites_base f index i s = Some (inr s') -> cb_count (bs_code s) <= cb_count (bs_code s').
Proof.
  intros Hcall. unfold compile_one. rewrite Hcall. destruct (emit_jump mem f index i) as [e|] eqn:He.
  - unfold compile_jump, emitting. cbn [bs_code]. destruct (e (bs_code s)) as [c|] eqn:Hc; [|done].
    destruct (emit32 mem 0 c) as [c'|] eqn:Hc'; [|done]. intros [= <-]. cbn. apply (grows_jump _ _ _ _ _ He) in Hc. apply grows_32 in Hc'. lia.
  - destruct (emit_instruction mem f index i) as [e|] eqn:Hi; [|done]. unfold emitting. cbn [bs_code].
    destruct (e (bs_code s)) as [c|] eqn:Hc; [|done]. intros [= <-]. by apply (grows_instruction _ _ _ _ _ Hi) in Hc.
Qed.

Lemma compile_loop_grows l : forall index s s', Forall (fun i => is_call i = false) l ->
  compile_loop mem windows hp sites_base f index l s = Some (inr s') -> cb_count (bs_code s) <= cb_count (bs_code s').
Proof.
  induction l as [|i l IH]; intros index s s' Hl; simpl; [by intros [= <-]|]. apply Forall_cons in Hl as [Hi Hl].
  destruct (compile_one _ _ _ _ _ _ _ _) as [[|s1]|] eqn:H1; [done| |done]. intros H. apply compile_one_grows in H1; [|done]. apply IH in H; [lia|done].
Qed.

(** What an instruction brings to the loop. *)
Definition plain_instruction (i : TurboJSIRInstruction) : Prop := operands_ok hp f i /\ typed i /\ is_call i = false.

(** The blocks of [l] in [code]: block [k] lies between [offs !! k] and
    [offs !! S k]. *)
Definition blocks_at (offsets : list Z) (index : Z) (l : list TurboJSIRInstruction) (offs code : list Z) : Prop :=
  forall k i, l !! k = Some i -> exists pre bs post, code = pre ++ bs ++ post /\ offs !! k = Some (Z.of_nat (length pre)) /\
    offs !! S k = Some (Z.of_nat (length (pre ++ bs))) /\ block_bytes offsets (index + Z.of_nat k) i (Z.of_nat (length (pre ++ bs))) bs.

Lemma compile_loop_bytes l : forall index s s', Forall plain_instruction l -> well_patched s ->
  compile_loop mem windows hp sites_base f index l s = Some (inr s') -> cb_count (bs_code s') < 2 ^ 31 ->
  well_patched s' /\ exists offs, bs_offsets s' = bs_offsets s ++ offs /\ length offs = length l /\
    (offs ++ [cb_count (bs_code s')]) !! 0%nat = Some (cb_count (bs_code s)) /\
    forall offsets, resolved offsets s `prefix_of` resolved offsets s' /\
      blocks_at offsets index l (offs ++ [cb_count (bs_code s')]) (resolved offsets s').
Proof.
  induction l as [|i l IH]; intros index s s' Hl Hw; simpl.
  - intros [= <-] _. split; [done|]. exists []. rewrite app_nil_r. split_and!; try done.
  - apply Forall_cons in Hl as [(Hok&Hty&Hcall) Hl]. destruct (compile_one _ _ _ _ _ _ _ _) as [[|s1]|] eqn:H1; [done| |done]. intros H Hc.
    assert (cb_count (bs_code s1) <= cb_count (bs_code s')) as Hle.
    { eapply compile_loop_grows; [|exact H]. eapply Forall_impl; [exact Hl|]. intros j Hj. apply Hj. }
    destruct (compile_one_bytes _ _ _ _ Hok Hty Hcall Hw H1 ltac:(lia)) as (Hw1&Ho1&Hb1).
    destruct (IH _ _ _ Hl Hw1 H Hc) as (Hw'&offs&Ho&Hlen&H0&Hb). split; [done|].
    exists (cb_count (bs_code s) :: offs). split_and!; [by rewrite Ho, Ho1, <-app_assoc|simpl; lia|done|].
    intros offsets. destruct (Hb1 offsets) as (bs&Hr1&Hbb). destruct (Hb offsets) as ([rest Hr]&Hbl).
    assert (length (resolved offsets s) = length (cb_bytes (bs_code s))) as Hls by (by apply length_resolve).
    assert (length (resolved offsets s1) = length (cb_bytes (bs_code s1))) as Hls1 by (by apply length_resolve).
    split; [exists (bs ++ rest); by rewrite Hr, Hr1, <-app_assoc|].
    intros [|k] j Hj; simpl in Hj.
    + injection Hj as <-. exists (resolved offsets s), bs, rest. rewrite <-Hr1. unfold cb_count in *.
      split_and!; [by rewrite Hr, Hr1, <-app_assoc|simpl; by rewrite Hls|simpl; by rewrite H0, Hls1|]. by rewrite Z.add_0_r, Hls1.
    + destruct (Hbl k j Hj) as (pre&bs'&post&Hcode&Hk1&Hk2&Hbb'). exists pre, bs', post. split_and!; try done.
      by replace (index + Z.of_nat (S k)) with (index + 1 + Z.of_nat k) by lia.
Qed.

(** ** The generated code *)

(** Positions of the blocks; the prologue ends where the first begins. *)
Record code_layout (code : list Z) (pos : nat -> Z) : Prop := {
  cl_prologue : exists bs post, code = bs ++ post /\ Z.of_nat (length bs) = pos 0%nat /\ asm_bytes (a_prologue windows (frame_size f)) bs;
  cl_block : forall k i, f_instructions f !! k = Some i ->
    exists pre bs post, code = pre ++ bs ++ post /\ Z.of_nat (length pre) = pos k /\ Z.of_nat (length (pre ++ bs)) = pos (S k) /\
      if is_jump i then
        exists bs1 bs2, bs = bs1 ++ bs2 /\ asm_bytes (a_jump f (Z.of_nat k) i) bs1 /\
          encodes bs2 (jump_instr (in_opcode i) (pos (Z.to_nat (in_target i)) - pos (S k)))
      else asm_bytes (a_block f (Z.of_nat k) i) bs
}.

Lemma frame_size_bound : 0 <= frame_size f < 2 ^ 31.
Proof.
  unfold frame_size, uwrap. set (n := f_register_count f + f_local_count f + _).
  assert (0 <= n < 2 ^ 18) as Hn by (unfold n, TURBOJS_CLUTCH_MAX_ARGUMENTS; case_match; lia).
  assert (0 <= Z.land (n * 8 + 15) (Z.lnot 15) <= n * 8 + 15) as Hb.
  { change (Z.lnot 15) with (Z.lnot (Z.ones 4)). rewrite <-Z.ldiff_land, Z.ldiff_ones_r by lia.
    rewrite Z.shiftl_mul_pow2, Z.shiftr_div_pow2 by lia. pose proof (Z.div_mod (n * 8 + 15) (2 ^ 4) ltac:(lia)).
    pose proof (Z.mod_pos_bound (n * 8 + 15) (2 ^ 4) ltac:(lia)). pose proof (Z.div_pos (n * 8 + 15) (2 ^ 4) ltac:(lia) ltac:(lia)). lia. }
  rewrite Z.mod_small by lia. lia.
Qed.

Lemma apply_patches_grows offsets patches c : cb_count c <= cb_count (apply_patches offsets patches c).
Proof.
  revert c. induction patches as [|[off t] patches IH]; intros c; simpl; [done|].
  etrans; [apply (patch32_grows off (default 0 (offsets !! Z.to_nat t) - (Z.of_nat off + 4)))|apply IH].
Qed.

Lemma jump_target i : plain_instruction i -> is_jump i = true -> (Z.to_nat (in_target i) < length (f_instructions f))%nat.
Proof.
  intros ([b Hv]&Hty&_) Hj. pose proof (ty_target _ Hty). unfold is_jump in Hj. unfold verify_instruction, f_instruction_count in Hv.
  destruct (in_opcode i); try done; repeat (case_match; [done|]); b2p; lia.
Qed.

Lemma generate_layout s :
  Forall plain_instruction (f_instructions f) ->
  generate mem windows hp sites_base f = Some (inr s) -> cb_count (bs_code s) < 2 ^ 31 ->
  exists pos, code_layout (cb_bytes (bs_code s)) pos.
Proof.
  intros Hl. unfold generate. destruct (prologue mem windows (frame_size f) empty_code) as [c|] eqn:Hp; [|done].
  destruct (compile_loop _ _ _ _ _ _ _ _) as [[|s1]|] eqn:H1; [done| |done]. intros [= <-]. cbn [bs_code]. intros Hc.
  set (offs := bs_offsets s1 ++ [cb_count (bs_code s1)]) in *.
  assert (cb_count (bs_code s1) < 2 ^ 31) as Hc1 by (pose proof (apply_patches_grows offs (bs_patches s1) (bs_code s1)); lia).
  assert (well_patched (bs_set_code c (mkBaseline empty_code [] [] [] []))) as Hw0 by constructor.
  destruct (compile_loop_bytes _ _ _ _ Hl Hw0 H1 Hc1) as (Hw&offs'&Ho&Hlen&H0&Hb).
  cbn [bs_offsets bs_set_code bs_code app] in Ho, H0. rewrite <-Ho in *. fold offs in Hb, H0.
  assert (cb_count c < 2 ^ 31) as Hcc.
  { apply compile_loop_grows in H1; [cbn in H1; lia|]. eapply Forall_impl; [exact Hl|]. intros j Hj. apply Hj. }
  destruct (prologue_assembles mem windows (frame_size f) frame_size_bound _ _ Hp Hcc) as (P&HP&AP). cbn in HP.
  destruct (Hb offs) as [[rest Hpre] Hbl].
  assert (cb_bytes (apply_patches offs (bs_patches s1) (bs_code s1)) = resolved offs s1) as Hfinal by apply apply_patches_bytes.
  assert (length (resolved offs s1) = length (cb_bytes (bs_code s1))) as Hlr by (by apply length_resolve).
  rewrite Hfinal. exists (fun k => default 0 (offs !! k)). split.
  - rewrite H0. exists P, rest. split_and!; [|unfold cb_count; simpl; by rewrite HP|done]. rewrite Hpre. unfold resolved. cbn. by rewrite HP.
  - intros k i Hk. destruct (Hbl k i Hk) as (pre&bs&post&Hcode&Hk1&Hk2&Hbb). exists pre, bs, post. rewrite Hk1, Hk2. cbn [default].
    split_and!; try done. unfold block_bytes in Hbb. destruct (is_jump i) eqn:Hj; [|exact Hbb]. destruct Hbb as (bs1&Hbs&Ha).
    exists bs1, (jump_opcode (in_opcode i) ++ le_bytes 4 (uwrap 32 (default 0 (offs !! Z.to_nat (in_target i)) - Z.of_nat (length (pre ++ bs))))).
    split_and!; [done|done|]. apply jump_encodes.
    assert (plain_instruction i) as Hpl by (rewrite Forall_lookup in Hl; eauto).
    destruct (lookup_lt_is_Some_2 _ _ (jump_target i Hpl Hj)) as [j Hjt].
    destruct (Hbl _ _ Hjt) as (pre'&bs'&post'&Hcode'&Ht&_). rewrite Ht. cbn [default].
    assert (length (resolved offs s1) = length (pre ++ bs ++ post)) as Hlen1 by (by rewrite Hcode).
    assert (length (resolved offs s1) = length (pre' ++ bs' ++ post')) as Hlen2 by (by rewrite Hcode').
    rewrite Hlr, !length_app in Hlen1, Hlen2. rewrite length_app. unfold cb_count in Hc1. unfold in_disp, id. lia.
Qed.
End Layout.
