(* ===== verification/BaselineCorrect.v ===== *)
(** * Correctness of the baseline compiler

    [baseline_correct]: for a verified function without native calls, the
    machine code of [TurboJS_BaselineCompile], invoked by
    [TurboJS_NativeInvoke], runs as the IR does: it returns the result, or it
    reports the bailout of the instruction that fails, with the registers and
    locals of that moment.  The code does not clear its frame: the IR starts
    with what the stack held. *)

From S2P Require Import Prelude.
From S2P Require Import JitTypes.
From S2P Require Import Clutch.
From S2P Require Import IR.
From S2P Require Import IRVerify.
From S2P Require Import Float64.
From S2P Require Import IRInterp.
From S2P Require Import EngineEmit.
From S2P Require Import Pipeline.
From S2P Require Import X64.
From S2P Require Import Vault.
From S2P Require Import BaselineX64.
From S2P Require Import BaselineNative.
From S2P Require Import BaselineAsm.
From S2P Require Import BaselineRun.
From S2P Require Import BaselineBlocks.
From S2P Require Import BaselineLayout.

Local Open Scope asm_scope.

(** ** The IR with safepoints *)

Section Reference.
Context (hp : Heap) (n1 n2 : Z -> list Z -> TurboJSIRStatus * Z) (f : TurboJSIRFunction) (arguments : list Z) (requested : bool).

(** A backward jump polls the safepoint. *)
Definition polls (pc : nat) (i : TurboJSIRInstruction) : bool := is_jump i && (in_target i <=? Z.of_nat pc).

Definition leaves_at_safepoint (s : IRState) : bool :=
  let '(_, _, pc) := s in match f_instructions f !! pc with Some i => requested && polls pc i | None => false end.

Definition native_goes (s s' : IRState) : Prop := leaves_at_safepoint s = false /\ ir_next hp n1 n2 f arguments s s'.

(** The status of the code (0 for a return) and the result. *)
Definition native_stops (s : IRState) (status : Z) (result : option Z) : Prop :=
  let '(regs, locals, pc) := s in
  exists i, f_instructions f !! pc = Some i /\
    if requested && polls pc i then status = 4 /\ result = None
    else match ir_step hp n1 n2 f arguments i regs locals pc with
         | Halt (Result v) => status = 0 /\ result = Some v
         | Halt (Stop TURBOJS_IR_BAILOUT) => status = exit_status i regs /\ result = None
         | _ => False
         end.
End Reference.

(** ** Jumps *)

Section Jumps.
Context (f : TurboJSIRFunction) (ly : Layout) (ot : Others) (arguments : list Z).
Context (Hly : layout_ok f ly (Z.of_nat (length arguments))) (m0 : Z -> Z).

Definition safepoint_requested : bool := negb (swrap 32 (m0 (ly_safepoint ly)) =? 0).

Lemma poll_runs regs locals index g0 g1 g2 x0 x1 fl m :
  sized f regs locals -> framed ly (regs ++ locals) m -> same_outside f ly m0 m ->
  let r := run_asm (a_poll f index) (machine ly ot g0 g1 g2 x0 x1 fl m) in
  if safepoint_requested then bails ly index 4 regs locals r
  else exists fl', r = Some (inr (machine ly ot g0 g1 g2 x0 x1 fl' m)).
Proof.
  intros Hsz Hf Ho r. set (l := swrap 32 (m0 (ly_safepoint ly))).
  set (fl' := mkFlags (l =? 0) (swrap 32 (l - 0) <? 0) (negb (in_i32 (l - 0)))).
  assert (run_asm (I_cmp32_at 8 0) (machine ly ot g0 g1 g2 x0 x1 fl m) = Some (inr (machine ly ot g0 g1 g2 x0 x1 fl' m))) as Hc.
  { unfold run_asm, exec_plain, exec. change (gpr _ 8) with (ly_safepoint ly). change (st_mem (machine ly ot g0 g1 g2 x0 x1 fl m)) with m.
    rewrite Ho; [done|]. destruct Hly as [_ _ _ _ _ Hs _]. unfold apart in Hs. lia. }
  assert (r = if l =? 0 then Some (inr (machine ly ot g0 g1 g2 x0 x1 fl' m))
              else run_asm (a_bailout f index 4) (machine ly ot g0 g1 g2 x0 x1 fl' m)) as ->.
  { eapply run_seq; [exact Hc|]. reflexivity. }
  unfold safepoint_requested. fold l. destruct (l =? 0); cbn [negb]; [by exists fl'|]. by eapply bailout_runs.
Qed.

(** The condition of a branch: the zero flag behind the test. *)
Lemma test_runs regs locals r v g0 g1 g2 x0 x1 fl m :
  sized f regs locals -> framed ly (regs ++ locals) m -> 0 <= r -> regs !! Z.to_nat r = Some v ->
  exists fl', run_asm (I_load 0 5 (slot_disp r) +> I_test 0 0) (machine ly ot g0 g1 g2 x0 x1 fl m) =
    Some (inr (machine ly ot (uwrap 64 v) g1 g2 x0 x1 fl' m)) /\ fl_zf fl' = (v =? 0).
Proof.
  intros Hsz Hf Hr Hv. eexists. split.
  - eapply run_seq; [by eapply (load_register f ly ot arguments Hly regs locals Hsz m Hf false)|reflexivity].
  - cbn -[uwrap]. rewrite Z.land_diag. rewrite <-(uwrap_eqb v 0); [done|by eapply sized_register|done].
Qed.

Lemma jump_block_runs regs locals hp i index g0 g1 g2 x0 x1 fl m :
  plain_instruction hp f i -> is_jump i = true ->
  sized f regs locals -> framed ly (regs ++ locals) m -> same_outside f ly m0 m ->
  let r := run_asm (a_jump f index i) (machine ly ot g0 g1 g2 x0 x1 fl m) in
  if safepoint_requested && (in_target i <=? index) then bails ly index 4 regs locals r
  else exists s, r = Some (inr s) /\ holds f ly ot m0 regs locals s /\
    (in_opcode i <> TURBOJS_IR_JUMP -> exists v, regs !! Z.to_nat (in_left i) = Some v /\ fl_zf (st_flags s) = (v =? 0)).
Proof.
  intros ([b Hv]&Hty&_) Hj Hsz Hf Ho. cbv zeta. unfold a_jump.
  set (poll := if in_target i <=? index then a_poll f index else AEmpty).
  assert (let r := run_asm poll (machine ly ot g0 g1 g2 x0 x1 fl m) in
    if safepoint_requested && (in_target i <=? index) then bails ly index 4 regs locals r
    else exists fl', r = Some (inr (machine ly ot g0 g1 g2 x0 x1 fl' m))) as Hp.
  { unfold poll. destruct (in_target i <=? index); [|rewrite andb_false_r; by exists fl]. rewrite andb_true_r. by apply poll_runs. }
  cbv zeta in Hp. clearbody poll.
  assert (in_opcode i <> TURBOJS_IR_JUMP -> 0 <= in_left i < f_register_count f) as Hleft.
  { intros Hne. pose proof (ty_left _ Hty). unfold is_jump in Hj. unfold verify_instruction, valid_register in Hv.
    revert Hj Hv Hne. destruct (in_opcode i); try done; intros _ Hv Hne; try done; repeat (case_match; [done|]); b2p; lia. }
  assert (in_opcode i <> TURBOJS_IR_JUMP ->
    let r := run_asm (poll +> (I_load 0 5 (slot_disp (in_left i)) +> I_test 0 0)) (machine ly ot g0 g1 g2 x0 x1 fl m) in
    if safepoint_requested && (in_target i <=? index) then bails ly index 4 regs locals r
    else exists s, r = Some (inr s) /\ holds f ly ot m0 regs locals s /\
      exists v, regs !! Z.to_nat (in_left i) = Some v /\ fl_zf (st_flags s) = (v =? 0)) as Hb.
  { intros Hne. cbv zeta. destruct (safepoint_requested && _); [by apply bails_seq|]. destruct Hp as [fl' Hp].
    destruct (register_value f regs locals Hsz (in_left i) (Hleft Hne)) as (v&Hrv&_).
    destruct (test_runs regs locals (in_left i) v g0 g1 g2 x0 x1 fl' m Hsz Hf) as (fl2&Ht&Hz); [by apply Hleft|done|].
    eexists. split; [eapply run_seq; [exact Hp|exact Ht]|]. split; [by do 7 eexists|by exists v]. }
  destruct (decide (in_opcode i = TURBOJS_IR_JUMP)) as [Hop|Hop].
  - rewrite Hop. destruct (safepoint_requested && _); [exact Hp|]. destruct Hp as [fl' Hp]. eexists. split; [exact Hp|]. split; [by do 7 eexists|done].
  - specialize (Hb Hop). cbv zeta in Hb. assert (forall A (x y : A), match in_opcode i with TURBOJS_IR_JUMP => x | _ => y end = y) as Hm
      by (intros; by destruct (in_opcode i)). rewrite Hm. destruct (safepoint_requested && _); [done|]. naive_solver.
Qed.
End Jumps.

(** ** The simulation *)

Section Simulation.
Context (hp : Heap) (n1 n2 : Z -> list Z -> TurboJSIRStatus * Z) (windows : bool) (f : TurboJSIRFunction) (ly : Layout) (ot : Others).
Context (arguments : list Z) (Hly : layout_ok f ly (Z.of_nat (length arguments))) (m0 : Z -> Z).
Context (code : list Z) (pos : nat -> Z) (Hcl : code_layout windows f code pos).
Context (Hplain : Forall (plain_instruction hp f) (f_instructions f)).
Context (Hin : arguments_in ly arguments m0) (Hty : Forall (fun v => in_i64 v = true) arguments).
Context (Hac : f_argument_count f <= Z.of_nat (length arguments)).
Notation requested := (safepoint_requested ly m0).

(** At the block of instruction [pc], with the IR state in the frame. *)
Definition corresponds (s : IRState) (st : State) : Prop :=
  let '(regs, locals, pc) := s in sized f regs locals /\ exists s, holds f ly ot m0 regs locals s /\ st = at_pc (pos pc) s.

Lemma plain_at pc i : f_instructions f !! pc = Some i -> plain_instruction hp f i.
Proof. intros H. rewrite Forall_lookup in Hplain. eauto. Qed.

(** The last instruction of a jump block. *)
Lemma jump_lands pc i pre bs1 bs2 post s v :
  code = pre ++ (bs1 ++ bs2) ++ post -> Z.of_nat (length (pre ++ bs1 ++ bs2)) = pos (S pc) -> is_jump i = true ->
  encodes bs2 (jump_instr (in_opcode i) (pos (Z.to_nat (in_target i)) - pos (S pc))) ->
  (in_opcode i <> TURBOJS_IR_JUMP -> fl_zf (st_flags s) = (v =? 0)) ->
  steps code (at_pc (Z.of_nat (length (pre ++ bs1))) s)
    (at_pc (pos (match in_opcode i with
                 | TURBOJS_IR_JUMP => Z.to_nat (in_target i)
                 | TURBOJS_IR_BRANCH_TRUE => if v =? 0 then S pc else Z.to_nat (in_target i)
                 | _ => if v =? 0 then Z.to_nat (in_target i) else S pc
                 end)) s).
Proof.
  intros Hc Hend Hj He Hz. assert (code = (pre ++ bs1) ++ bs2 ++ post) as Hc' by (by rewrite Hc, <-!app_assoc).
  rewrite app_assoc in Hend. unfold is_jump in Hj. revert Hj He Hz. destruct (in_opcode i); try done; intros _ He Hz; cbn [jump_instr] in He.
  - pose proof (jmp_runs _ _ _ _ _ s Hc' He) as H. rewrite Hend in H. by replace (pos (S pc) + (pos (Z.to_nat (in_target i)) - pos (S pc)))
      with (pos (Z.to_nat (in_target i))) in H by lia.
  - pose proof (jcc_runs _ _ _ _ _ _ s Hc' He) as H. rewrite Hend in H. cbn [cond_holds] in H. rewrite Hz in H by done.
    destruct (v =? 0); cbn [negb] in H; [by rewrite Z.add_0_r in H|].
    by replace (pos (S pc) + (pos (Z.to_nat (in_target i)) - pos (S pc))) with (pos (Z.to_nat (in_target i))) in H by lia.
  - pose proof (jcc_runs _ _ _ _ _ _ s Hc' He) as H. rewrite Hend in H. cbn [cond_holds] in H. rewrite Hz in H by done.
    destruct (v =? 0); [|by rewrite Z.add_0_r in H].
    by replace (pos (S pc) + (pos (Z.to_nat (in_target i)) - pos (S pc))) with (pos (Z.to_nat (in_target i))) in H by lia.
Qed.

(** The state when the code has returned. *)
Definition returned (s : IRState) (status : Z) (result : option Z) (st : State) : Prop :=
  let '(regs, locals, pc) := s in
  gpr st 0 = status /\
  match result with
  | Some v => in_i64 v = true /\ st_mem st (ly_result ly) = uwrap 64 v
  | None => dumped ly (Z.of_nat pc) (regs ++ locals) (st_mem st)
  end.

Lemma bails_returns pre bs post a pc regs locals status s :
  code = pre ++ bs ++ post -> asm_bytes a bs -> bails ly (Z.of_nat pc) status regs locals (run_asm a s) ->
  exists st, returns_to code (at_pc (Z.of_nat (length pre)) s) st /\ returned (regs, locals, pc) status None st.
Proof.
  intros Hc Ha (s'&Hr&Hg&Hd). destruct (asm_runs _ _ Ha _ _ _ _ _ Hc Hr) as (q&Hq). by eexists.
Qed.

Definition simulated (s : IRState) (st : State) : Prop :=
  (forall s', native_goes hp n1 n2 f arguments requested s s' -> exists st', steps code st st' /\ corresponds s' st') /\
  (forall status result, native_stops hp n1 n2 f arguments requested s status result ->
     exists st', returns_to code st st' /\ returned s status result st').

(** A jump: where the IR goes. *)
Lemma jump_step i regs locals pc v : is_jump i = true -> (in_opcode i <> TURBOJS_IR_JUMP -> regs !! Z.to_nat (in_left i) = Some v) ->
  ir_step hp n1 n2 f arguments i regs locals pc =
    Next regs locals (match in_opcode i with
                      | TURBOJS_IR_JUMP => Z.to_nat (in_target i)
                      | TURBOJS_IR_BRANCH_TRUE => if v =? 0 then S pc else Z.to_nat (in_target i)
                      | _ => if v =? 0 then Z.to_nat (in_target i) else S pc
                      end).
Proof.
  intros Hj Hv. unfold ir_step, execute_step. unfold is_jump in Hj. revert Hj Hv. destruct (in_opcode i); try done; intros _ Hv;
    (rewrite decide_False by done); try done; by rewrite (rd_eq _ _ _ _ (Hv ltac:(done))).
Qed.

Lemma jump_simulated i regs locals pc s :
  f_instructions f !! pc = Some i -> is_jump i = true -> sized f regs locals -> holds f ly ot m0 regs locals s ->
  simulated (regs, locals, pc) (at_pc (pos pc) s).
Proof.
  intros Hi Hj Hsz (g0&g1&g2&x0&x1&fl&m&Hsm&Hf&Ho). pose proof (plain_at _ _ Hi) as Hp.
  destruct (cl_block _ _ _ _ Hcl _ _ Hi) as (pre&bs&post&Hc&Hpre&Hend&Hb). rewrite Hj in Hb. destruct Hb as (bs1&bs2&->&Ha&He).
  pose proof (jump_block_runs f ly ot arguments Hly m0 regs locals hp i (Z.of_nat pc) g0 g1 g2 x0 x1 fl m Hp Hj Hsz Hf Ho) as Hr.
  cbv zeta in Hr. rewrite <-Hsm in Hr. rewrite <-Hpre. assert (code = pre ++ bs1 ++ bs2 ++ post) as Hc1 by (by rewrite Hc, <-app_assoc).
  split.
  - intros [[regs' locals'] pc'] (Hnl&j&Hj'&Hstep). rewrite Hi in Hj'. injection Hj' as <-.
    unfold leaves_at_safepoint, polls in Hnl. rewrite Hi, Hj in Hnl. cbn [andb] in Hnl. rewrite Hnl in Hr. destruct Hr as (s1&Hr&Hh&Hz).
    pose proof (asm_runs _ _ Ha _ _ _ _ _ Hc1 Hr) as Hs1. simpl in Hs1.
    assert (exists v, (in_opcode i <> TURBOJS_IR_JUMP -> regs !! Z.to_nat (in_left i) = Some v) /\
      (in_opcode i <> TURBOJS_IR_JUMP -> fl_zf (st_flags s1) = (v =? 0))) as (v&Hv&Hzf).
    { destruct (decide (in_opcode i = TURBOJS_IR_JUMP)) as [Hop|Hop]; [by exists 0|]. destruct (Hz Hop) as (v&?&?). by exists v. }
    rewrite (jump_step i regs locals pc v Hj Hv) in Hstep. injection Hstep as <- <- <-.
    eexists. split; [eapply steps_trans; [exact Hs1|by eapply jump_lands]|]. split; [done|]. by exists s1.
  - intros status result (j&Hj'&Hstop). rewrite Hi in Hj'. injection Hj' as <-. unfold polls in Hstop. rewrite Hj in Hstop. cbn [andb] in Hstop.
    destruct (requested && (in_target i <=? Z.of_nat pc)) eqn:Hq.
    + destruct Hstop as [-> ->]. by eapply bails_returns.
    + exfalso. destruct Hr as (s1&Hr&Hh&Hz).
      assert (exists v, in_opcode i <> TURBOJS_IR_JUMP -> regs !! Z.to_nat (in_left i) = Some v) as (v&Hv).
      { destruct (decide (in_opcode i = TURBOJS_IR_JUMP)) as [Hop|Hop]; [by exists 0|]. destruct (Hz Hop) as (v&?&?). by exists v. }
      by rewrite (jump_step i regs locals pc v Hj Hv) in Hstop.
Qed.

Lemma block_simulated i regs locals pc s :
  f_instructions f !! pc = Some i -> is_jump i = false -> sized f regs locals -> holds f ly ot m0 regs locals s ->
  simulated (regs, locals, pc) (at_pc (pos pc) s).
Proof.
  intros Hi Hj Hsz (g0&g1&g2&x0&x1&fl&m&Hsm&Hf&Ho). destruct (plain_at _ _ Hi) as (Hok&Hit&Hcall).
  destruct (cl_block _ _ _ _ Hcl _ _ Hi) as (pre&bs&post&Hc&Hpre&Hend&Hb). rewrite Hj in Hb.
  pose proof (block_runs f ly ot arguments Hly m0 regs locals Hsz g0 g1 g2 x0 x1 fl m Hf Ho hp n1 n2 i (Z.of_nat pc) pc Hok Hit Hin Hty Hac Hcall Hj) as Hr.
  rewrite <-Hsm in Hr. rewrite <-Hpre. split.
  - intros [[regs' locals'] pc'] (_&j&Hj'&Hstep). rewrite Hi in Hj'. injection Hj' as <-. simpl in Hstep. rewrite Hstep in Hr.
    destruct Hr as (Hpc&Hsz'&s'&Hr&Hh). pose proof (asm_runs _ _ Hb _ _ _ _ _ Hc Hr) as Hs. simpl in Hs.
    eexists. split; [exact Hs|]. split; [done|]. exists s'. split; [done|]. by rewrite Hend, Hpc.
  - intros status result (j&Hj'&Hstop). rewrite Hi in Hj'. injection Hj' as <-. unfold polls in Hstop. rewrite Hj, andb_false_r in Hstop.
    destruct (ir_step _ _ _ _ _ _ _ _ _) as [| [v|st|]]; [done| |destruct st; try done|done].
    + destruct Hstop as [-> ->]. destruct Hr as (Hv&s'&Hr&Hg&Hm). destruct (asm_runs _ _ Hb _ _ _ _ _ Hc Hr) as (q&Hq). by eexists.
    + destruct Hstop as [-> ->]. by eapply bails_returns.
Qed.

Lemma step_simulated s st : corresponds s st -> simulated s st.
Proof.
  destruct s as [[regs locals] pc]. intros (Hsz&s&Hh&->). destruct (f_instructions f !! pc) as [i|] eqn:Hi.
  - destruct (is_jump i) eqn:Hj; [by eapply jump_simulated|by eapply block_simulated].
  - split; [intros s' (_&j&Hj&_); congruence|intros status result (j&Hj&_); congruence].
Qed.

(** Runs of the IR are runs of the code. *)
Lemma run_simulated s s' status result st :
  rtc (native_goes hp n1 n2 f arguments requested) s s' -> native_stops hp n1 n2 f arguments requested s' status result ->
  corresponds s st -> sized f s'.1.1 s'.1.2 /\ exists st', returns_to code st st' /\ returned s' status result st'.
Proof.
  intros H Hstop. revert st. induction H as [s|s1 s2 s3 H12 _ IH]; intros st Hcor.
  - split; [destruct s as [[regs locals] pc]; apply Hcor|by apply step_simulated].
  - destruct (proj1 (step_simulated _ _ Hcor) _ H12) as (st2&Hs&Hcor2). destruct (IH Hstop _ Hcor2) as (Hsz&st'&Hr&Hret).
    split; [done|]. exists st'. split; [by eapply steps_returns|done].
Qed.
End Simulation.

(** ** Entering the code *)

Lemma write_words_out m base l a : (forall k, (k < length l)%nat -> a <> base + 8 * Z.of_nat k) -> write_words m base l a = m a.
Proof.
  revert m base. induction l as [|v l IH]; intros m base Ha; [done|]. simpl. rewrite IH.
  - unfold mem_update. rewrite (proj2 (Z.eqb_neq _ _)); [done|]. specialize (Ha 0%nat ltac:(simpl; lia)). lia.
  - intros k Hk. specialize (Ha (S k) ltac:(simpl; lia)). lia.
Qed.

Lemma write_words_in m base l k v : l !! k = Some v -> write_words m base l (base + 8 * Z.of_nat k) = uwrap 64 v.
Proof.
  revert m base k. induction l as [|w l IH]; intros m base k Hk; [done|]. destruct k as [|k]; simpl in *.
  - injection Hk as ->. rewrite write_words_out by (intros; lia). unfold mem_update. rewrite (proj2 (Z.eqb_eq _ _)) by lia. done.
  - rewrite <-(IH (mem_update m base (uwrap 64 w)) (base + 8) k Hk). f_equal. lia.
Qed.

(** Two arrays of words that do not overlap. *)
Definition disjoint_words (a n b k : Z) : Prop := a + 8 * n <= b \/ b + 8 * k <= a.

Definition entry_layout (sp : CallSpace) (safepoint : Z) : Layout :=
  mkLayout (sp_stack sp - 8) safepoint (sp_deopt sp) (sp_result sp) (sp_arguments sp).

(** What a caller provides: sixteen registers, the vector registers, memory
    words, room on the stack, and arrays apart from it and from each other. *)
Record space_ok (sp : CallSpace) (safepoint : Z) (f : TurboJSIRFunction) (arguments : list Z) : Prop := {
  so_registers : length (sp_registers sp) = 16%nat;
  so_vectors : (2 <= length (sp_vectors sp))%nat;
  so_memory : forall a, is_u 64 (sp_memory sp a);
  so_layout : layout_ok f (entry_layout sp safepoint) (Z.of_nat (length arguments));
  so_arguments_deopt : disjoint_words (sp_arguments sp) (Z.of_nat (length arguments)) (sp_deopt sp) (1 + f_register_count f + f_local_count f);
  so_safepoint_deopt : disjoint_words safepoint 1 (sp_deopt sp) (1 + f_register_count f + f_local_count f);
  so_safepoint_arguments : disjoint_words safepoint 1 (sp_arguments sp) (Z.of_nat (length arguments))
}.

(** What the stack holds where the frame will be. *)
Definition stale_words (sp : CallSpace) (from count : Z) : list Z :=
  (fun k => swrap 64 (sp_memory sp (sp_stack sp - 16 - 8 * (from + k)))) <$> upto count.
Definition stale_registers (sp : CallSpace) (f : TurboJSIRFunction) : list Z := stale_words sp 0 (f_register_count f).
Definition stale_locals (sp : CallSpace) (f : TurboJSIRFunction) : list Z := stale_words sp (f_register_count f) (f_local_count f).

Section Entry.
Context (sp : CallSpace) (safepoint : Z) (f : TurboJSIRFunction) (arguments : list Z) (Hsp : space_ok sp safepoint f arguments).
Notation slots := (Z.to_nat (1 + f_register_count f + f_local_count f)).
Notation ly := (entry_layout sp safepoint).

(** The memory behind the prologue, which has saved [rbp]. *)
Definition started_memory (rbp : Z) : Z -> Z := mem_update (entry_memory sp slots arguments) (ly_frame ly) rbp.

Lemma entry_memory_out a :
  (a < sp_arguments sp \/ sp_arguments sp + 8 * Z.of_nat (length arguments) <= a) ->
  (a < sp_deopt sp \/ sp_deopt sp + 8 * (1 + f_register_count f + f_local_count f) <= a) ->
  entry_memory sp slots arguments a = sp_memory sp a.
Proof.
  intros Ha Hd. destruct Hsp as [_ _ _ [Hr Hlo _ _ _ _ _] _ _ _]. unfold entry_memory. rewrite write_words_out.
  - apply write_words_out. intros k Hk. lia.
  - intros k Hk. rewrite length_replicate in Hk. lia.
Qed.

Lemma started_arguments rbp : arguments_in ly arguments (started_memory rbp).
Proof.
  intros k v Hk. pose proof (lookup_lt_Some _ _ _ Hk). destruct Hsp as [_ _ _ [Hr Hlo _ _ Har _ _] Had _ _]. unfold apart, disjoint_words in *.
  unfold started_memory, mem_update. cbn [ly_arguments entry_layout ly_frame] in *. unfold low in *. cbn [ly_frame entry_layout] in *.
  rewrite (proj2 (Z.eqb_neq _ _)) by lia.
  unfold entry_memory. rewrite write_words_out; [by apply write_words_in|]. intros j Hj. rewrite length_replicate in Hj. lia.
Qed.

Lemma started_safepoint rbp : started_memory rbp safepoint = sp_memory sp safepoint.
Proof.
  destruct Hsp as [_ _ _ [Hr Hlo _ _ _ Hs _] _ Hsd Hsa]. unfold apart, disjoint_words, low in *. cbn [ly_safepoint entry_layout ly_frame] in *.
  unfold started_memory, mem_update. cbn [ly_frame entry_layout]. rewrite (proj2 (Z.eqb_neq _ _)) by lia. apply entry_memory_out; lia.
Qed.

Lemma started_cell rbp k : 0 <= k < f_register_count f + f_local_count f ->
  started_memory rbp (cell ly k) = sp_memory sp (sp_stack sp - 16 - 8 * k).
Proof.
  intros Hk. destruct Hsp as [_ _ _ [Hr Hlo _ Hd Har _ _] _ _ _]. unfold apart, low in *. cbn [ly_arguments ly_deopt entry_layout ly_frame] in *.
  unfold started_memory, mem_update, cell. cbn [ly_frame entry_layout]. rewrite (proj2 (Z.eqb_neq _ _)) by lia.
  rewrite entry_memory_out by lia. f_equal. lia.
Qed.

Lemma frame_in_range : uwrap 64 (sp_stack sp - 8) = sp_stack sp - 8.
Proof. destruct Hsp as [_ _ _ [Hr Hlo Hfr _ _ _ _] _ _ _]. unfold low in Hfr. cbn [ly_frame entry_layout] in Hfr. apply uwrap_small. unfold is_u. lia. Qed.

Lemma sub_frame_runs g0 g1 g2 g3 g4 gs xs fl m frame : exists g4' fl',
  run_asm (if frame =? 0 then AEmpty else I_sub_imm 4 frame) (mkMachine (g0 :: g1 :: g2 :: g3 :: g4 :: gs) xs fl m 0) =
    Some (inr (mkMachine (g0 :: g1 :: g2 :: g3 :: g4' :: gs) xs fl' m 0)).
Proof. destruct (frame =? 0); [by do 2 eexists|]. do 2 eexists. reflexivity. Qed.

Lemma prologue_runs : exists ot g0 g1 g2 x0 x1 fl rbp,
  run_asm (a_prologue (sp_windows sp) (frame_size f)) (entry_state sp safepoint slots arguments) =
    Some (inr (machine ly ot g0 g1 g2 x0 x1 fl (started_memory rbp))).
Proof.
  pose proof frame_in_range as HU. destruct Hsp as [Hregs Hvecs _ _ _ _ _].
  destruct (sp_registers sp) as [|r0 [|r1 [|r2 [|r3 [|r4 [|r5 [|r6 [|r7 [|r8 [|r9 [|r10 [|r11 [|r12 [|r13 [|r14 [|r15 [|]]]]]]]]]]]]]]]]] eqn:Hr; try done.
  destruct (sp_vectors sp) as [|x0 [|x1 xs]] eqn:Hx; [simpl in Hvecs; lia..|].
  set (m := entry_memory sp slots arguments).
  destruct (sp_windows sp) eqn:Hw.
  - destruct (sub_frame_runs r0 (sp_arguments sp) (sp_result sp) r3 (sp_stack sp - 8)
      [sp_stack sp - 8; r6; r7; sp_deopt sp; safepoint; r10; r11; r12; r13; r14; r15] (x0 :: x1 :: xs) (sp_flags sp) (started_memory r5) (frame_size f))
      as (rsp&fl&Hsub).
    exists (mkOthers r3 rsp r6 r7 [r12; r13; r14; r15] xs), safepoint, (sp_arguments sp), (sp_result sp), x0, x1, fl, r5.
    eapply run_seq; [eapply run_seq; [|exact Hsub]|].
    + unfold entry_state, entry_registers. rewrite Hw, Hr, Hx. cbn -[uwrap Z.sub started_memory entry_memory]. rewrite HU. done.
    + reflexivity.
  - destruct (sub_frame_runs r0 safepoint (sp_deopt sp) r3 (sp_stack sp - 8)
      [sp_stack sp - 8; sp_result sp; sp_arguments sp; r8; r9; r10; r11; r12; r13; r14; r15] (x0 :: x1 :: xs) (sp_flags sp) (started_memory r5) (frame_size f))
      as (rsp&fl&Hsub).
    exists (mkOthers r3 rsp (sp_result sp) (sp_arguments sp) [r12; r13; r14; r15] xs), r0, safepoint, (sp_deopt sp), x0, x1, fl, r5.
    eapply run_seq; [eapply run_seq; [|exact Hsub]|].
    + unfold entry_state, entry_registers. rewrite Hw, Hr, Hx. cbn -[uwrap Z.sub started_memory entry_memory]. rewrite HU. done.
    + reflexivity.
Qed.

(** The frame holds what the stack held. *)
Lemma length_stale from count : length (stale_words sp from count) = Z.to_nat count.
Proof. unfold stale_words, upto. by rewrite !length_fmap, length_seq. Qed.

Lemma stale_lookup from count k v : stale_words sp from count !! k = Some v ->
  v = swrap 64 (sp_memory sp (sp_stack sp - 16 - 8 * (from + Z.of_nat k))).
Proof.
  unfold stale_words, upto. rewrite !list_lookup_fmap. intros H. apply fmap_Some in H as (z&Hz&->). apply fmap_Some in Hz as (j&Hj&->).
  apply lookup_seq in Hj as [-> _]. done.
Qed.

Lemma stale_sized : sized f (stale_registers sp f) (stale_locals sp f).
Proof.
  split; [apply length_stale|apply length_stale|]. apply Forall_app. split; apply Forall_fmap, Forall_true; intros x; apply swrap_range.
Qed.

Lemma stale_framed rbp : framed ly (stale_registers sp f ++ stale_locals sp f) (started_memory rbp).
Proof.
  intros k v Hk. pose proof (so_memory _ _ _ _ Hsp) as Hm. pose proof Hsp as [_ _ _ [Hr Hlo _ _ _ _ _] _ _ _].
  assert (v = swrap 64 (sp_memory sp (sp_stack sp - 16 - 8 * Z.of_nat k)) /\ Z.of_nat k < f_register_count f + f_local_count f) as [-> Hlt].
  { pose proof (lookup_lt_Some _ _ _ Hk) as Hlen. unfold stale_registers, stale_locals in *. rewrite length_app, !length_stale in Hlen. split; [|lia].
    apply lookup_app_Some in Hk as [Hk|[Hge Hk]]; apply stale_lookup in Hk as ->; [by rewrite Z.add_0_l|]. rewrite length_stale in *. do 3 f_equal. lia. }
  rewrite started_cell by lia. rewrite uwrap_swrap, uwrap_small by apply Hm. done.
Qed.
End Entry.

(** ** Invoking compiled functions *)

(** Fields within their C types. *)
Record function_typed (f : TurboJSIRFunction) : Prop := {
  ft_registers : 0 <= f_register_count f < 2 ^ 16;
  ft_locals : 0 <= f_local_count f < 2 ^ 16;
  ft_arguments : 0 <= f_argument_count f < 2 ^ 16;
  ft_count : f_instruction_count f <= UINT32_MAX;
  ft_instructions : Forall typed (f_instructions f)
}.

Lemma compiled_object mem windows hp base f n events :
  TurboJS_BaselineCompile mem windows hp base f = Some (BaselineCompiled n events) ->
  ir_accepted hp f /\ nf_argument_count n = f_argument_count f /\ nf_register_count n = f_register_count f /\
  nf_local_count n = f_local_count f /\ nf_bytecode_offsets n = in_bytecode_offset <$> f_instructions f /\
  exists s, generate (bm_code mem) windows hp base f = Some (inr s) /\ nf_code n = cb_bytes (bs_code s).
Proof.
  unfold TurboJS_BaselineCompile. destruct (TurboJS_IRVerify hp f) as [d|] eqn:Hv; [|done]. destruct (dg_status d) eqn:Hd; try done.
  pose proof (ir_verify_status_ok _ _ _ Hv Hd) as ->. apply ir_verify_ok_iff in Hv.
  repeat (case_match; try done). intros [= <- <-]. cbn. split_and!; eauto.
Qed.

(** The code fits the memory granted for it. *)
Lemma compiled_fits mem windows hp base f n events :
  TurboJS_BaselineCompile mem windows hp base f = Some (BaselineCompiled n events) ->
  exists size, bm_object mem size = true /\ Z.of_nat (length (nf_code n)) <= size.
Proof.
  unfold TurboJS_BaselineCompile. destruct (TurboJS_IRVerify hp f) as [d|]; [|done]. destruct (dg_status d); try done.
  repeat (case_match; try done). intros [= <- <-]. cbn. b2p. eexists. split; [eassumption|]. unfold cb_count.
  change (Z.lnot 4095) with (Z.lnot (Z.ones 12)). rewrite <-Z.ldiff_land, Z.ldiff_ones_r, Z.shiftl_mul_pow2, Z.shiftr_div_pow2 by lia.
  change (2 ^ 12) with 4096. Z.to_euclidean_division_equations. lia.
Qed.

Lemma accepted_plain hp f : ir_accepted hp f -> function_typed f -> callfree f -> Forall (plain_instruction hp f) (f_instructions f).
Proof.
  intros Ha [_ _ _ _ Ht] Hc. unfold callfree in Hc. rewrite Forall_lookup in *. intros k i Hi. split; [by eapply accepted_operands|].
  split; [eauto|]. destruct (Hc _ _ Hi) as [H1 H2]. unfold is_call. by destruct (in_opcode i).
Qed.

(** A call whose code returns. *)
Lemma invoke_returned fuel sp fn arguments st :
  nf_argument_count (fn_object fn) <= Z.of_nat (length arguments) ->
  let slots := Z.to_nat (1 + nf_register_count (fn_object fn) + nf_local_count (fn_object fn)) in
  run fuel (nf_code (fn_object fn)) (entry_state sp (fn_safepoint fn) slots arguments) = Returned st ->
  let rc := swrap 32 (gpr st 0) in
  let deopt := read_words (st_mem st) (sp_deopt sp) slots in
  TurboJS_NativeInvoke fuel sp fn arguments =
    Some (if rc =? 0 then TURBOJS_IR_OK else TURBOJS_IR_BAILOUT, swrap 64 (st_mem st (sp_result sp)),
          mkFunction (fn_object fn) deopt (last_bailout (fn_object fn) rc deopt) (fn_owned_safepoint fn) (fn_safepoint fn)).
Proof. intros Ha slots Hr rc deopt. unfold TurboJS_NativeInvoke. rewrite (proj2 (Z.ltb_ge _ _)) by done. fold slots. by rewrite Hr. Qed.

(** The words of the buffer. *)
Lemma dumped_words ly index cells m : dumped ly index cells m -> in_i64 index = true -> Forall (fun v => in_i64 v = true) cells ->
  read_words m (ly_deopt ly) (S (length cells)) = index :: cells.
Proof.
  intros [H0 Hk] Hi Hc. apply list_eq. intros [|k].
  - simpl. rewrite Z.add_0_r. unfold deopt_word in H0. rewrite Z.mul_0_r, Z.add_0_r in H0. by rewrite H0, swrap_uwrap_i64.
  - unfold read_words. rewrite list_lookup_fmap. destruct (decide (S k < S (length cells))%nat) as [Hlt|Hge].
    + rewrite lookup_seq_lt by done. simpl. destruct (lookup_lt_is_Some_2 cells k ltac:(lia)) as [v Hv]. rewrite Hv. f_equal.
      rewrite Forall_lookup in Hc. specialize (Hk _ _ Hv). unfold deopt_word in Hk.
      replace (8 * Z.of_nat (S k)) with (8 * (1 + Z.of_nat k)) by lia. rewrite Hk. apply swrap_uwrap_i64. eauto.
    + rewrite lookup_seq_ge by lia. simpl. symmetry. apply lookup_ge_None. lia.
Qed.

(** Entering through the prologue, the code reaches the end the IR reaches
    from the stale frame. *)
Lemma code_returns hp n1 n2 f sp safepoint code pos arguments s status result :
  code_layout (sp_windows sp) f code pos -> Forall (plain_instruction hp f) (f_instructions f) -> space_ok sp safepoint f arguments ->
  Forall (fun v => in_i64 v = true) arguments -> f_argument_count f <= Z.of_nat (length arguments) ->
  let requested := negb (swrap 32 (sp_memory sp safepoint) =? 0) in
  rtc (native_goes hp n1 n2 f arguments requested) (stale_registers sp f, stale_locals sp f, 0%nat) s ->
  native_stops hp n1 n2 f arguments requested s status result ->
  sized f s.1.1 s.1.2 /\ exists fuel st,
    run fuel code (entry_state sp safepoint (Z.to_nat (1 + f_register_count f + f_local_count f)) arguments) = Returned st /\
    returned (entry_layout sp safepoint) s status result st.
Proof.
  intros Hcl Hpl Hsp Hty Hac requested Hrun Hstop.
  destruct (prologue_runs sp safepoint f arguments Hsp) as (ot&g0&g1&g2&x0&x1&fl&rbp&Hp).
  destruct (cl_prologue _ _ _ _ Hcl) as (bs&post&Hc&Hpos&Ha). pose proof (asm_runs _ _ Ha code [] post _ _ Hc Hp) as Hs. cbn in Hs.
  rewrite Hpos in Hs.
  assert (safepoint_requested (entry_layout sp safepoint) (started_memory sp safepoint f arguments rbp) = requested) as Hreq
    by (unfold safepoint_requested; cbn [ly_safepoint entry_layout]; by rewrite started_safepoint).
  rewrite <-Hreq in Hrun, Hstop.
  destruct (run_simulated hp n1 n2 (sp_windows sp) f (entry_layout sp safepoint) ot arguments (so_layout _ _ _ _ Hsp)
    (started_memory sp safepoint f arguments rbp) code pos Hcl Hpl (started_arguments _ _ _ _ Hsp rbp) Hty Hac _ _ _ _
    (at_pc (pos 0%nat) (machine (entry_layout sp safepoint) ot g0 g1 g2 x0 x1 fl (started_memory sp safepoint f arguments rbp))) Hrun Hstop) as (Hsz&st&Hret&Hst).
  { split; [apply stale_sized|]. eexists. split; [|reflexivity]. do 7 eexists. split; [reflexivity|]. split; [by apply stale_framed|done]. }
  split; [done|]. destruct (steps_returns _ _ _ _ Hs Hret) as [fuel Hf]. by exists fuel, st.
Qed.

Lemma stop_status hp n1 n2 f arguments requested s status result : native_stops hp n1 n2 f arguments requested s status result ->
  match result with Some _ => status = 0 | None => 1 <= status <= 5 end.
Proof.
  destruct s as [[regs locals] pc]. intros (i&Hi&H). destruct (requested && polls pc i); [destruct H as [-> ->]; lia|].
  destruct (ir_step _ _ _ _ _ _ _ _ _) as [|[v|st|]]; [done|by destruct H as [-> ->]| |done]. destruct st; try done. destruct H as [-> ->].
  unfold exit_status. repeat case_match; lia.
Qed.

(** The frame and the bailout the buffer is read back as. *)
Lemma bailout_frame f n owned safepoint status registers locals pc i :
  sized f registers locals -> nf_register_count n = f_register_count f -> nf_bytecode_offsets n = in_bytecode_offset <$> f_instructions f ->
  f_instructions f !! pc = Some i -> Z.of_nat pc < 2 ^ 64 -> status <> 0 ->
  let deopt := Z.of_nat pc :: registers ++ locals in
  let d := TurboJS_NativeLastDeoptFrame (Some (mkFunction n deopt (last_bailout n status deopt) owned safepoint)) in
  df_register_values d = registers /\ df_local_values d = locals /\
  df_bailout d = mkBailoutInfo (bailout_reason status) (Z.of_nat pc) (in_bytecode_offset i).
Proof.
  intros [Hr Hl _] Hn Ho Hi Hpc Hs deopt d. split_and!.
  - subst d deopt. cbn -[Z.of_nat]. by rewrite Hn, drop_0, <-Hr, take_app_length.
  - subst d deopt. cbn -[Z.of_nat]. by rewrite Hn, <-Hr, drop_app_length.
  - subst d deopt. cbn -[Z.of_nat uwrap]. unfold last_bailout. rewrite (proj2 (Z.eqb_neq _ _)) by done. cbn -[Z.of_nat uwrap].
    unfold id. rewrite uwrap_small by (unfold is_u; lia). pose proof (lookup_lt_Some _ _ _ Hi).
    rewrite Ho, length_fmap, (proj2 (Z.ltb_lt _ _)), Nat2Z.id, list_lookup_fmap, Hi by lia. done.
Qed.

(** The call of a compiled function: its code ends as the IR does. *)
Lemma compiled_invocation hp n1 n2 mem base f n events sp fn arguments s status result :
  TurboJS_BaselineCompile mem (sp_windows sp) hp base f = Some (BaselineCompiled n events) ->
  callfree f -> function_typed f -> Z.of_nat (length (nf_code n)) < 2 ^ 31 ->
  fn_object fn = n -> space_ok sp (fn_safepoint fn) f arguments -> Forall (fun v => in_i64 v = true) arguments ->
  f_argument_count f <= Z.of_nat (length arguments) ->
  let requested := negb (swrap 32 (sp_memory sp (fn_safepoint fn)) =? 0) in
  rtc (native_goes hp n1 n2 f arguments requested) (stale_registers sp f, stale_locals sp f, 0%nat) s ->
  native_stops hp n1 n2 f arguments requested s status result ->
  sized f s.1.1 s.1.2 /\ exists fuel st, returned (entry_layout sp (fn_safepoint fn)) s status result st /\
    let deopt := read_words (st_mem st) (sp_deopt sp) (Z.to_nat (1 + f_register_count f + f_local_count f)) in
    TurboJS_NativeInvoke fuel sp fn arguments =
      Some (if status =? 0 then TURBOJS_IR_OK else TURBOJS_IR_BAILOUT, swrap 64 (st_mem st (sp_result sp)),
            BaselineNative.mkFunction n deopt (last_bailout n status deopt) (fn_owned_safepoint fn) (fn_safepoint fn)).
Proof.
  intros Hcomp Hcf Hft Hlen Hfn Hsp Hty Hac requested Hrun Hstop.
  destruct (compiled_object _ _ _ _ _ _ _ Hcomp) as (Hacc&Hna&Hnr&Hnl&Hno&gs&Hgen&Hcode).
  pose proof (accepted_plain _ _ Hacc Hft Hcf) as Hpl. rewrite Hcode in Hlen. pose proof Hft as [Hr Hlo Har Hcnt _].
  destruct (generate_layout (bm_code mem) (sp_windows sp) hp base f Hr Hlo ltac:(lia) gs Hpl Hgen Hlen) as [pos Hcl].
  destruct (code_returns _ _ _ _ _ _ _ _ _ _ _ _ Hcl Hpl Hsp Hty Hac Hrun Hstop) as (Hsz&fuel&st&Hret&Hst).
  split; [done|]. exists fuel, st. split; [done|].
  assert (swrap 32 (gpr st 0) = status) as Hrc.
  { pose proof (stop_status _ _ _ _ _ _ _ _ _ Hstop). destruct s as [[? ?] ?]. destruct Hst as [-> _]. apply swrap_small; [lia|destruct result; lia]. }
  rewrite <-Hcode, <-Hfn in Hret. rewrite <-Hnr, <-Hnl, <-Hfn in *. rewrite <-Hrc. apply invoke_returned; [by rewrite Hna|exact Hret].
Qed.


(** ** Examples *)

(** A stack full of [word], and a safepoint controller at rest. *)
Definition sample_safepoint : Z := 327680.
Definition sample_space (windows : bool) (word : Z) : CallSpace :=
  mkSpace windows 65536 131072 196608 262144 (replicate 16 0) [0; 0] (mkFlags false false false)
    (fun a => if a =? sample_safepoint then 0 else word).

Lemma sample_space_ok windows word f arguments :
  is_u 64 word -> 0 <= f_register_count f <= 64 -> 0 <= f_local_count f <= 64 -> (length arguments <= 64)%nat ->
  space_ok (sample_space windows word) sample_safepoint f arguments.
Proof.
  intros Hw Hr Hl Ha. split; cbn; try lia.
  - intros a. case_match; done.
  - split; unfold apart, low; cbn; unfold sample_safepoint; lia.
  - unfold disjoint_words. lia.
  - unfold disjoint_words, sample_safepoint. lia.
  - unfold disjoint_words, sample_safepoint. lia.
Qed.

Definition generous : BaselineMemory := mkBaselineMemory true true (fun _ => true) (fun size => size <? 2 ^ 31) true true.

(** [a + b] of 32-bit integers. *)
Definition sum_function : TurboJSIRFunction :=
  f_set_instructions (f_set_counts zero_function 3 2 0)
    [mkInstruction TURBOJS_IR_ARGUMENT 0 0 0 0 0 0; mkInstruction TURBOJS_IR_ARGUMENT 1 0 0 1 0 1;
     mkInstruction TURBOJS_IR_ADD_I32_CHECKED 2 0 1 0 0 2; mkInstruction TURBOJS_IR_RETURN_I64 0 2 0 0 0 3] 16.

Definition compiled (f : TurboJSIRFunction) (windows : bool) : option TurboJSNativeFunction :=
  match TurboJS_BaselineCompile generous windows empty_heap 0 f with Some (BaselineCompiled n _) => Some n | _ => None end.

(** The code of both calling conventions, run: the sum, and the overflow with
    the registers at that moment. *)
Definition invoke_sample (windows : bool) (f : TurboJSIRFunction) (arguments : list Z) : option (TurboJSIRStatus * Z * TurboJSDeoptFrame) :=
  let? n := compiled f windows in
  let? (st, r, fn) := TurboJS_NativeInvoke 1000 (sample_space windows 3735928559) (new_function n sample_safepoint) arguments in
  Some (st, r, TurboJS_NativeLastDeoptFrame (Some fn)).

Example sum_invoked windows :
  (exists d, invoke_sample windows sum_function [40; 2] = Some (TURBOJS_IR_OK, 42, d)) /\
  (exists d, invoke_sample windows sum_function [2147483647; 1] = Some (TURBOJS_IR_BAILOUT, 3735928559, d) /\
     df_bailout d = mkBailoutInfo TURBOJS_BAILOUT_INTEGER_OVERFLOW 2 2 /\ df_register_values d = [2147483647; 1; 3735928559] /\
     df_materialized_register_mask d = 3 /\ df_live_register_mask d = 3).
Proof. destruct windows; (split; [eexists; vm_compute; reflexivity|]); eexists; (split; [vm_compute; reflexivity|]); vm_compute; done. Qed.

(** Native code does not clear its frame: a local that is read before it is
    written holds what the stack held, where the interpreter reads 0. *)
Definition unwritten_local : TurboJSIRFunction :=
  f_set_instructions (f_set_counts zero_function 1 0 1)
    [mkInstruction TURBOJS_IR_LOCAL_GET 0 0 0 0 0 0; mkInstruction TURBOJS_IR_RETURN_I64 0 0 0 0 0 1] 16.

Example frame_not_cleared :
  TurboJS_IRExecute empty_heap (fun _ _ => (TURBOJS_IR_BAILOUT, 0)) (fun _ _ => (TURBOJS_IR_BAILOUT, 0)) unwritten_local [] = Result 0 /\
  exists d, invoke_sample false unwritten_local [] = Some (TURBOJS_IR_OK, 3735928559, d).
Proof. split; [vm_compute; reflexivity|]. eexists. vm_compute. reflexivity. Qed.

(** Tactics for concrete functions. *)
Ltac typed_function :=
  split; [by vm_compute..|]; repeat (apply Forall_cons; split; [split; by vm_compute|]); apply Forall_nil; done.
Lemma native_goes_step hp n1 n2 f arguments requested regs locals pc i regs' locals' pc' :
  f_instructions f !! pc = Some i -> requested && polls pc i = false -> ir_step hp n1 n2 f arguments i regs locals pc = Next regs' locals' pc' ->
  native_goes hp n1 n2 f arguments requested (regs, locals, pc) (regs', locals', pc').
Proof. intros Hi Hp Hs. split; [simpl; by rewrite Hi|by exists i]. Qed.

Ltac goes_to s := apply (rtc_l _ _ s); [eapply native_goes_step; [reflexivity|vm_compute; reflexivity..]|].

