(* ===== verification/BaselineLive.v ===== *)
(** * Liveness in the baseline compiler

    [compute_liveness] sweeps the instructions until nothing changes, for at
    most [4 n + 8] sweeps.  Here: the bound is always enough, the masks are
    exactly the registers and locals that some path reads before it writes
    them, and what the masks leave out does not influence the interpreter:
    [liveness_exact].  The masks are those of deoptimization frames and stack
    maps. *)

From S2P Require Import Prelude.
From S2P Require Import JitTypes.
From S2P Require Import Clutch.
From S2P Require Import IR.
From S2P Require Import IRVerify.
From S2P Require Import Float64.
From S2P Require Import IRInterp.
From S2P Require Import EngineEmit.
From S2P Require Import Pipeline.
From S2P Require Import Vault.
From S2P Require Import BaselineX64.
From S2P Require Import BaselineBlocks.
From S2P Require Import BaselineCorrect.

(** ** Slots and paths *)

(** A register or a local; its bit in a pair of masks. *)
Inductive Slot := Register (r : nat) | Local (l : nat).

Definition slot_bit (k : Slot) (m : Masks) : bool :=
  match k with Register r => Z.testbit m.1 (Z.of_nat r) | Local l => Z.testbit m.2 (Z.of_nat l) end.

Definition reads_slot (k : Slot) (i : TurboJSIRInstruction) : bool :=
  let ud := instruction_use_def i in slot_bit k (ud_use_r ud, ud_use_l ud).
Definition writes_slot (k : Slot) (i : TurboJSIRInstruction) : bool :=
  let ud := instruction_use_def i in slot_bit k (ud_def_r ud, ud_def_l ud).

(** Where the analysis lets control go. *)
Definition flows (pc : nat) (i : TurboJSIRInstruction) : list nat :=
  match in_opcode i with
  | TURBOJS_IR_JUMP => [Z.to_nat (in_target i)]
  | TURBOJS_IR_BRANCH_TRUE | TURBOJS_IR_BRANCH_FALSE => [Z.to_nat (in_target i); S pc]
  | TURBOJS_IR_RETURN_I64 => []
  | _ => [S pc]
  end.

(** Some path from [pc] reads the slot before it writes it. *)
Inductive live_at (instrs : list TurboJSIRInstruction) (k : Slot) : nat -> Prop :=
  | live_here pc i : instrs !! pc = Some i -> reads_slot k i = true -> live_at instrs k pc
  | live_later pc i q :
      instrs !! pc = Some i -> writes_slot k i = false -> q ∈ flows pc i -> live_at instrs k q -> live_at instrs k pc.

Lemma masks_ext m m' : (forall k, slot_bit k m = slot_bit k m') -> m = m'.
Proof.
  intros H. destruct m as [a b], m' as [a' b']. f_equal; apply Z.bits_inj'; intros n Hn.
  - specialize (H (Register (Z.to_nat n))). simpl in H. by rewrite Z2Nat.id in H.
  - specialize (H (Local (Z.to_nat n))). simpl in H. by rewrite Z2Nat.id in H.
Qed.

Lemma slot_bit_union k a b : slot_bit k (masks_union a b) = slot_bit k a || slot_bit k b.
Proof. destruct k; apply Z.lor_spec. Qed.

Lemma slot_bit_zero k : slot_bit k (0, 0) = false.
Proof. destruct k; apply Z.testbit_0_l. Qed.

Lemma slot_bit_in k i out : slot_bit k (live_in i out) = reads_slot k i || (slot_bit k out && negb (writes_slot k i)).
Proof. destruct k; unfold live_in, reads_slot, writes_slot, slot_bit; cbn [fst snd]; rewrite Z.lor_spec, Z.land_spec, Z.lnot_spec by lia; done. Qed.

Definition bit_at (k : Slot) (live : list Masks) (pc : nat) : bool := slot_bit k (masks_at live pc).

Lemma bit_at_ge k live pc : (length live <= pc)%nat -> bit_at k live pc = false.
Proof. intros H. unfold bit_at, masks_at. rewrite lookup_ge_None_2 by done. apply slot_bit_zero. Qed.

Lemma slot_bit_out k live pc i : slot_bit k (live_out live pc i) = existsb (bit_at k live) (flows pc i).
Proof.
  assert (slot_bit k (if (S pc <? length live)%nat then masks_at live (S pc) else (0, 0)) = bit_at k live (S pc)) as H.
  { case_match eqn:E; [done|]. apply Nat.ltb_ge in E. by rewrite bit_at_ge, slot_bit_zero. }
  unfold live_out, flows. destruct (in_opcode i); simpl; rewrite ?orb_false_r, ?slot_bit_union, ?H; try done; apply slot_bit_zero.
Qed.

(** ** The equation and its iterates *)

Section Iterates.
Context (instrs : list TurboJSIRInstruction) (k : Slot).
Let n := length instrs.

(** One application of the data-flow equation to a set of positions. *)
Definition transfer (live : nat -> bool) (pc : nat) : bool :=
  match instrs !! pc with
  | Some i => reads_slot k i || (existsb live (flows pc i) && negb (writes_slot k i))
  | None => false
  end.

Fixpoint iterate (m : nat) : nat -> bool :=
  match m with O => fun _ => false | S m => transfer (iterate m) end.

Lemma transfer_mono a b pc : (forall q, a q = true -> b q = true) -> transfer a pc = true -> transfer b pc = true.
Proof.
  intros H. unfold transfer. destruct (instrs !! pc) as [i|]; [|done]. rewrite !orb_true_iff, !andb_true_iff, !existsb_exists.
  intros [?|[(q&?&?) ?]]; [by left|right]. split; [exists q; auto|done].
Qed.

Lemma transfer_ext a b pc : (forall q, a q = b q) -> transfer a pc = transfer b pc.
Proof. intros H. apply eq_true_iff_eq. split; apply transfer_mono; intros q; by rewrite H. Qed.

Lemma iterate_mono m pc : iterate m pc = true -> iterate (S m) pc = true.
Proof. revert pc. induction m as [|m IH]; [done|]. intros pc. apply transfer_mono. exact IH. Qed.

Lemma iterate_range m pc : iterate m pc = true -> (pc < n)%nat.
Proof.
  destruct m as [|m]; [done|]. simpl. unfold transfer. destruct (instrs !! pc) eqn:E; [|done]. intros _. by apply lookup_lt_Some in E.
Qed.

Definition stable_at (m : nat) : Prop := forall pc, iterate (S m) pc = iterate m pc.

Lemma settled_S m : stable_at m -> stable_at (S m).
Proof. intros H pc. apply transfer_ext. exact H. Qed.

Definition stable_count (m : nat) : nat := length (filter (fun pc => iterate m pc = true) (seq 0 n)).

(** Either the iterates have settled or they have grown with every turn. *)
Lemma settled_or_grown m : stable_at m \/ (m <= stable_count m)%nat.
Proof.
  induction m as [|m [IH|IH]]; [right; lia|left; by apply settled_S|].
  destruct (decide (Forall (fun pc => iterate (S m) pc = iterate m pc) (seq 0 n))) as [Hf|Hf].
  - left. apply settled_S. intros pc. rewrite Forall_forall in Hf. destruct (decide (pc < n)%nat); [apply Hf, elem_of_seq; lia|].
    destruct (iterate (S m) pc) eqn:E1; [apply iterate_range in E1; lia|]. destruct (iterate m pc) eqn:E2; [apply iterate_range in E2; lia|done].
  - right. apply not_Forall_Exists, Exists_exists in Hf as (pc&Hpc&Hne); [|intros ?; solve_decision].
    cut (stable_count m < stable_count (S m))%nat; [lia|]. apply (filter_length_lt _ _ _ pc); [apply iterate_mono|done|..].
    + destruct (iterate (S m) pc) eqn:E; [done|]. destruct (iterate m pc) eqn:E2; [apply iterate_mono in E2|]; congruence.
    + intros E. apply iterate_mono in E as E'. congruence.
Qed.

Lemma iterates_settle : stable_at n.
Proof.
  destruct (settled_or_grown n) as [|H]; [done|]. intros pc.
  destruct (iterate n pc) eqn:E; [by apply iterate_mono|]. destruct (iterate (S n) pc) eqn:E2; [|done]. exfalso.
  pose proof (iterate_range _ _ E2) as Hr.
  cut (stable_count n < length (filter (fun _ : nat => True) (seq 0 n)))%nat.
  { intros Hc. pose proof (length_filter (fun _ : nat => True) (seq 0 n)). rewrite length_seq in *. lia. }
  apply (filter_length_lt _ _ _ pc); [done|apply elem_of_seq; lia|done|congruence].
Qed.

Lemma iterate_settled m pc : iterate m pc = true -> iterate n pc = true.
Proof.
  revert pc. induction m as [|m IH]; [done|]. intros pc H. rewrite <-iterates_settle. revert H. apply transfer_mono. exact IH.
Qed.

Lemma iterate_live m pc : iterate m pc = true -> live_at instrs k pc.
Proof.
  revert pc. induction m as [|m IH]; [done|]. intros pc. simpl. unfold transfer. destruct (instrs !! pc) as [i|] eqn:Hi; [|done].
  rewrite orb_true_iff, andb_true_iff, existsb_exists, negb_true_iff.
  intros [?|[(q&Hq&?) ?]]; [by eapply live_here|]. eapply live_later; [done..| |by apply IH]. by apply list_elem_of_In.
Qed.

Lemma live_iterate pc : live_at instrs k pc <-> iterate n pc = true.
Proof.
  split; [|apply iterate_live]. induction 1 as [pc i Hi Hu|pc i q Hi Hw Hq _ IH]; rewrite <-iterates_settle; simpl; unfold transfer; rewrite Hi.
  - by rewrite Hu.
  - rewrite Hw, andb_true_r. apply orb_true_iff. right. apply existsb_exists. exists q. split; [by apply list_elem_of_In|done].
Qed.
End Iterates.

(** ** The sweeps *)

Section Sweeps.
Context (instrs : list TurboJSIRInstruction).
Let n := length instrs.

(** Every bit that is set is live, and follows from the bits that are set. *)
Record justified (live : list Masks) : Prop := {
  jf_length : length live = n;
  jf_live k pc : bit_at k live pc = true -> live_at instrs k pc;
  jf_follows k pc : bit_at k live pc = true -> transfer instrs k (bit_at k live) pc = true
}.

(** The masks solve the equation. *)
Definition solved (live : list Masks) : Prop :=
  forall pc i, instrs !! pc = Some i -> live_in i (live_out live pc i) = masks_at live pc.

Lemma bit_new k live pc i : instrs !! pc = Some i -> slot_bit k (live_in i (live_out live pc i)) = transfer instrs k (bit_at k live) pc.
Proof. intros Hi. unfold transfer. by rewrite Hi, slot_bit_in, slot_bit_out. Qed.

Lemma bit_insert k live pc q new :
  (pc < length live)%nat -> bit_at k (<[pc := new]> live) q = if decide (q = pc) then slot_bit k new else bit_at k live q.
Proof.
  intros Hpc. unfold bit_at, masks_at. case_decide as E; [subst; by rewrite list_lookup_insert_eq|by rewrite list_lookup_insert_ne].
Qed.

Lemma transfer_live k live pc : (forall q, live q = true -> live_at instrs k q) -> transfer instrs k live pc = true -> live_at instrs k pc.
Proof.
  intros H Ht. rewrite live_iterate, <-iterates_settle. revert Ht. apply transfer_mono. intros q Hq. apply live_iterate. auto.
Qed.

Lemma justified_update live pc i :
  justified live -> instrs !! pc = Some i ->
  let live' := <[pc := live_in i (live_out live pc i)]> live in
  justified live' /\ forall k q, bit_at k live q = true -> bit_at k live' q = true.
Proof.
  intros [Hl Hlive Hf] Hi live'. pose proof (lookup_lt_Some _ _ _ Hi) as Hpc.
  assert (forall k q, bit_at k live q = true -> bit_at k live' q = true) as Hup.
  { intros k q Hq. unfold live'. rewrite bit_insert by (unfold n in *; lia). case_decide; [subst|done]. rewrite (bit_new _ _ _ _ Hi). auto. }
  split; [|done]. split.
  - unfold live'. by rewrite length_insert.
  - intros k q. unfold live'. rewrite bit_insert by (unfold n in *; lia). case_decide; [subst|auto].
    rewrite (bit_new _ _ _ _ Hi). apply transfer_live. auto.
  - intros k q Hq. apply (transfer_mono _ _ (bit_at k live)); [auto|]. revert Hq. unfold live'. rewrite bit_insert by (unfold n in *; lia).
    case_decide; [subst; by rewrite (bit_new _ _ _ _ Hi)|auto].
Qed.

Lemma masks_bits live live' pc : (forall k, bit_at k live pc = bit_at k live' pc) -> masks_at live pc = masks_at live' pc.
Proof. apply masks_ext. Qed.

(** A sweep from [pc] down: what it keeps and what it adds. *)
Lemma sweep_down pc live changed live' changed' :
  (pc <= n)%nat -> justified live -> live_sweep instrs pc live changed = (live', changed') ->
  justified live' /\ (forall k q, bit_at k live q = true -> bit_at k live' q = true) /\
  (forall k q, (q < pc)%nat -> transfer instrs k (bit_at k live) q = true -> bit_at k live' q = true) /\
  (changed' = false -> changed = false /\ live' = live /\ forall q i, (q < pc)%nat -> instrs !! q = Some i -> live_in i (live_out live q i) = masks_at live q) /\
  (changed = false -> solved live -> changed' = false).
Proof.
  revert live changed. induction pc as [|pc IH]; intros live changed Hpc Hj; simpl.
  { intros [= <- <-]. split; [done|]. split; [done|]. split; [intros; lia|]. split; [|done]. intros ->. split; [done|]. split; [done|]. intros; lia. }
  destruct (lookup_lt_is_Some_2 instrs pc) as [i Hi]; [unfold n in *; lia|]. rewrite Hi. case_decide as Hnew; intros Hs.
  - destruct (IH _ _ ltac:(lia) Hj Hs) as (H1&H2&H3&H4&H5). split; [done|]. split; [done|]. split; [|split; [|done]].
    + intros k q Hq Ht. destruct (decide (q = pc)) as [->|]; [|apply H3; [lia|done]]. apply H2.
      unfold bit_at. by rewrite <-Hnew, (bit_new _ _ _ _ Hi).
    + intros Hc. destruct (H4 Hc) as (->&->&Hq). split; [done|]. split; [done|]. intros q j Hlt Hj'.
      destruct (decide (q = pc)) as [->|]; [by simplify_eq|apply Hq; [lia|done]].
  - destruct (justified_update _ _ _ Hj Hi) as [Hj' Hup]. destruct (IH _ _ ltac:(lia) Hj' Hs) as (H1&H2&H3&H4&H5).
    split; [done|]. split; [auto|]. split; [|split].
    + intros k q Hq Ht. destruct (decide (q = pc)) as [->|].
      * apply H2. rewrite bit_insert, decide_True by (done || rewrite (jf_length _ Hj); unfold n in *; lia). by rewrite (bit_new _ _ _ _ Hi).
      * apply H3; [lia|]. revert Ht. apply transfer_mono. auto.
    + intros Hc. destruct (H4 Hc) as (?&_). done.
    + intros _ Hso. destruct Hnew. by apply Hso.
Qed.

(** Solved and justified masks are exact. *)
Lemma solved_exact live : justified live -> solved live -> forall k pc, bit_at k live pc = true <-> live_at instrs k pc.
Proof.
  intros Hj Hs k pc. split; [apply Hj|]. rewrite live_iterate. generalize (length instrs) as m. intros m. revert pc.
  induction m as [|m IH]; [done|]. intros pc H. simpl in H. pose proof (transfer_mono _ _ _ _ _ IH H) as H'. revert H'.
  destruct (instrs !! pc) as [i|] eqn:Hi; [|unfold transfer; by rewrite Hi]. rewrite <-(bit_new _ _ _ _ Hi), (Hs _ _ Hi). done.
Qed.

(** After as many sweeps as there are instructions the masks are solved. *)
Lemma covered_solved live : justified live -> (forall k pc, iterate instrs k n pc = true -> bit_at k live pc = true) -> solved live.
Proof.
  intros Hj Hc pc i Hi. apply masks_ext. intros k. rewrite (bit_new _ _ _ _ Hi). fold (bit_at k live pc). apply eq_true_iff_eq. split.
  - intros Ht. apply Hc, live_iterate. revert Ht. apply transfer_live. apply Hj.
  - apply Hj.
Qed.

Lemma loop_settles fuel live m :
  (n - m < fuel)%nat -> justified live -> (forall k pc, iterate instrs k m pc = true -> bit_at k live pc = true) ->
  exists live', live_loop fuel instrs live true = (live', false) /\ justified live' /\ solved live'.
Proof.
  revert live m. induction fuel as [|fuel IH]; intros live m Hfuel Hj Hc; [lia|]. simpl.
  destruct (live_sweep instrs (length instrs) live false) as [live' changed] eqn:Hs.
  destruct (sweep_down _ _ _ _ _ (le_n _) Hj Hs) as (Hj'&Hup&Hadd&Hno&Hyes). destruct changed.
  - destruct (decide (n <= m)%nat) as [Hm|Hm].
    + exfalso. enough (true = false) by done. apply Hyes; [done|]. apply covered_solved; [done|]. intros k pc Hi.
      apply Hc. clear -Hm Hi. induction Hm as [|m Hm IHm]; [done|]. by apply iterate_mono.
    + apply (IH _ (S m)); [lia|done|]. intros k pc Hi. apply Hadd.
      * by eapply iterate_range.
      * simpl in Hi. revert Hi. apply transfer_mono. auto.
  - exists live. destruct (Hno eq_refl) as (_&->&Hq). split; [by destruct fuel|]. split; [done|].
    intros pc i Hi. apply Hq; [by eapply lookup_lt_Some|done].
Qed.
End Sweeps.

(** ** What is not live does not matter *)

Lemma reg_bit_spec r q : 0 <= r < 64 -> Z.testbit (reg_bit r) (Z.of_nat q) = bool_decide (q = Z.to_nat r).
Proof.
  intros H. unfold reg_bit. rewrite (proj2 (Z.ltb_lt _ _)) by lia. rewrite Z.shiftl_1_l, Z.pow2_bits_eqb by lia.
  apply eq_true_iff_eq. rewrite Z.eqb_eq, bool_decide_eq_true. lia.
Qed.

Lemma local_bit_spec l q : 0 <= l < 64 -> Z.testbit (local_bit l) (Z.of_nat q) = bool_decide (q = Z.to_nat l).
Proof.
  intros H. unfold local_bit. rewrite (proj2 (Z.leb_le _ _)), (proj2 (Z.ltb_lt _ _)) by lia. cbn [andb].
  rewrite uwrap_small by (unfold is_u; lia). rewrite Z.shiftl_1_l, Z.pow2_bits_eqb by lia.
  apply eq_true_iff_eq. rewrite Z.eqb_eq, bool_decide_eq_true. lia.
Qed.

(** Two frames that agree on the live registers and locals. *)
Record frames_agree (live : list Masks) (pc : nat) (regs locals regs' locals' : list Z) : Prop := {
  ag_regs : length regs = length regs';
  ag_locals : length locals = length locals';
  ag_register r : bit_at (Register r) live pc = true -> regs !! r = regs' !! r;
  ag_local l : bit_at (Local l) live pc = true -> locals !! l = locals' !! l
}.

(** Steps that agree. *)
Definition step_agrees (live : list Masks) (a b : StepOut) : Prop :=
  match a, b with
  | Halt o, Halt o' => o = o'
  | Next regs locals pc, Next regs' locals' pc' => pc = pc' /\ frames_agree live pc regs locals regs' locals'
  | _, _ => False
  end.

Section Agreement.
Context (hp : Heap) (n1 n2 : Z -> list Z -> TurboJSIRStatus * Z) (f : TurboJSIRFunction) (live : list Masks).
Context (Hacc : ir_accepted hp f) (Hty : function_typed f) (Hcf : callfree f) (Hlocals : f_local_count f <= 64).
Context (Hs : solved (f_instructions f) live).

Lemma rd_agrees a b i k k' :
  a !! Z.to_nat i = b !! Z.to_nat i -> (forall v, step_agrees live (k v) (k' v)) -> step_agrees live (rd a i k) (rd b i k').
Proof. intros H Hk. unfold rd. rewrite H. case_match; [apply Hk|done]. Qed.

Lemma wr_agrees a b i v k k' :
  length a = length b -> step_agrees live (k (<[Z.to_nat i := v]> a)) (k' (<[Z.to_nat i := v]> b)) ->
  step_agrees live (wr a i v k) (wr b i v k').
Proof. intros H Hk. unfold wr. rewrite H. case_match; done. Qed.

Lemma arith_agrees v k k' : (forall x, step_agrees live (k x) (k' x)) -> step_agrees live (arith v k) (arith v k').
Proof. intros Hk. unfold arith. case_match; [apply Hk|done]. Qed.

Context (pc : nat) (i : TurboJSIRInstruction) (Hi : f_instructions f !! pc = Some i).
Context (regs locals regs' locals' : list Z) (Hag : frames_agree live pc regs locals regs' locals').

Lemma used_live k : reads_slot k i = true -> bit_at k live pc = true.
Proof. intros H. unfold bit_at. rewrite <-(Hs _ _ Hi), slot_bit_in, H. done. Qed.

Lemma kept_live k q : q ∈ flows pc i -> writes_slot k i = false -> bit_at k live q = true -> bit_at k live pc = true.
Proof.
  intros Hq Hw Hb. unfold bit_at. rewrite <-(Hs _ _ Hi), slot_bit_in, slot_bit_out, Hw, andb_true_r. apply orb_true_iff. right.
  apply existsb_exists. exists q. split; [by apply list_elem_of_In|done].
Qed.

(** A step that writes nothing, a register, or a local. *)
Lemma agrees_pass q : q ∈ flows pc i -> (forall k, writes_slot k i = false) -> frames_agree live q regs locals regs' locals'.
Proof.
  intros Hq Hw. destruct Hag as [H1 H2 H3 H4]. split; [done..|intros r Hr; apply H3|intros l Hl; apply H4]; by eapply kept_live.
Qed.

Lemma agrees_register q d v :
  q ∈ flows pc i -> (forall k, k <> Register d -> writes_slot k i = false) ->
  frames_agree live q (<[d := v]> regs) locals (<[d := v]> regs') locals'.
Proof.
  intros Hq Hw. destruct Hag as [H1 H2 H3 H4]. split; [by rewrite !length_insert|done| |].
  - intros r Hr. destruct (decide (r = d)) as [->|Hne].
    + destruct (decide (d < length regs)%nat); [by rewrite !list_lookup_insert_eq by lia|by rewrite !list_insert_ge, !lookup_ge_None_2 by lia].
    + rewrite !list_lookup_insert_ne by done. apply H3. eapply kept_live; [exact Hq| |done]. apply Hw. congruence.
  - intros l Hl. apply H4. eapply kept_live; [exact Hq| |done]. by apply Hw.
Qed.

Lemma agrees_local q d v :
  q ∈ flows pc i -> (forall k, k <> Local d -> writes_slot k i = false) ->
  frames_agree live q regs (<[d := v]> locals) regs' (<[d := v]> locals').
Proof.
  intros Hq Hw. destruct Hag as [H1 H2 H3 H4]. split; [done|by rewrite !length_insert| |].
  - intros r Hr. apply H3. eapply kept_live; [exact Hq| |done]. by apply Hw.
  - intros l Hl. destruct (decide (l = d)) as [->|Hne].
    + destruct (decide (d < length locals)%nat); [by rewrite !list_lookup_insert_eq by lia|by rewrite !list_insert_ge, !lookup_ge_None_2 by lia].
    + rewrite !list_lookup_insert_ne by done. apply H4. eapply kept_live; [exact Hq| |done]. apply Hw. congruence.
Qed.

(** The masks of an instruction speak of its operands. *)
Ltac read_operands :=
  pose proof (accepted_operands _ _ _ _ Hacc Hi) as [? Hv]; pose proof Hacc as [Hr64 _ _];
  unfold TURBOJS_IR_MAX_REGISTERS in Hr64;
  assert (typed i) as [? ? ? ? ?] by (eapply Forall_lookup_1; [apply Hty|exact Hi]);
  unfold verify_instruction, valid_register in Hv.

Ltac mask_bits :=
  unfold slot_bit; cbn [fst snd ud_use_r ud_use_l ud_def_r ud_def_l];
  rewrite ?Z.lor_spec, ?reg_bit_spec, ?local_bit_spec, ?Z.testbit_0_l by lia.

Ltac operand_used := mask_bits; rewrite ?orb_true_iff, !bool_decide_eq_true; tauto.

Ltac no_other_write Hop :=
  let k := fresh in let Hk := fresh in
  intros k Hk; unfold writes_slot, instruction_use_def; rewrite Hop; destruct k; mask_bits;
  try (apply bool_decide_eq_false; intros ->; by apply Hk); done.

Ltac no_write Hop :=
  let k := fresh in intros k; unfold writes_slot, instruction_use_def; rewrite Hop; destruct k; mask_bits; done.

Ltac next_instruction Hop := unfold flows; rewrite Hop; set_solver.

Ltac agreement Hop Hreg Hloc :=
  repeat first
    [ done
    | apply rd_agrees; [first [apply Hreg; operand_used|apply Hloc; operand_used]|intros ?]
    | apply arith_agrees; intros ?
    | apply wr_agrees; [done|]
    | progress cbv beta
    | case_match; [case_match; [done|]|done]
    | split; [done|];
      first [ apply agrees_register; [next_instruction Hop|no_other_write Hop]
            | apply agrees_local; [next_instruction Hop|no_other_write Hop]
            | apply agrees_pass; [repeat case_match; next_instruction Hop|no_write Hop] ] ].

Lemma step_agreement : step_agrees live (execute_step hp n1 n2 f i regs locals pc) (execute_step hp n1 n2 f i regs' locals' pc).
Proof.
  read_operands. pose proof (ag_regs _ _ _ _ _ _ Hag) as Hlr. pose proof (ag_locals _ _ _ _ _ _ Hag) as Hll.
  assert (forall r, reads_slot (Register (Z.to_nat r)) i = true -> regs !! Z.to_nat r = regs' !! Z.to_nat r) as Hreg.
  { intros r Hu. apply (ag_register _ _ _ _ _ _ Hag). by apply used_live. }
  assert (forall l, reads_slot (Local (Z.to_nat l)) i = true -> locals !! Z.to_nat l = locals' !! Z.to_nat l) as Hloc.
  { intros l Hu. apply (ag_local _ _ _ _ _ _ Hag). by apply used_live. }
  pose proof (Forall_lookup_1 _ _ _ _ Hcf Hi) as [Hc1 Hc2].
  unfold execute_step. unfold reads_slot, instruction_use_def in Hreg, Hloc.
  destruct (in_opcode i) eqn:Hop; cbv beta iota; try done;
    repeat (case_match; [done|]); b2p;
    agreement Hop Hreg Hloc.
Qed.
(** The machine that loads arguments where they occur. *)
Lemma ir_step_agreement arguments :
  step_agrees live (ir_step hp n1 n2 f arguments i regs locals pc) (ir_step hp n1 n2 f arguments i regs' locals' pc).
Proof.
  unfold ir_step. case_decide as Hop; [|apply step_agreement]. read_operands. rewrite Hop in Hv.
  repeat (case_match; [done|]). b2p. apply rd_agrees; [done|]. intros v. apply wr_agrees; [apply Hag|]. split; [done|].
  apply agrees_register; [next_instruction Hop|no_other_write Hop].
Qed.
End Agreement.

Lemma loop_agreement hp n1 n2 f live :
  ir_accepted hp f -> function_typed f -> callfree f -> f_local_count f <= 64 -> solved (f_instructions f) live ->
  forall fuel pc regs locals regs' locals', frames_agree live pc regs locals regs' locals' ->
  execute_loop hp n1 n2 fuel f regs locals pc = execute_loop hp n1 n2 fuel f regs' locals' pc.
Proof.
  intros Hacc Hty Hcf Hl Hs. induction fuel as [|fuel IH]; intros pc regs locals regs' locals' Hag; simpl;
    destruct (f_instructions f !! pc) as [i|] eqn:Hi; try done.
  pose proof (step_agreement hp n1 n2 f live Hacc Hty Hcf Hl Hs pc i Hi regs locals regs' locals' Hag) as H. unfold step_agrees in H.
  repeat case_match; try done. destruct H as [-> H]. by apply IH.
Qed.

Lemma run_agreement hp n1 n2 f live arguments :
  ir_accepted hp f -> function_typed f -> callfree f -> f_local_count f <= 64 -> solved (f_instructions f) live ->
  forall regs locals pc regs' locals' o, frames_agree live pc regs locals regs' locals' ->
  ir_run hp n1 n2 f arguments (regs, locals, pc) o -> ir_run hp n1 n2 f arguments (regs', locals', pc) o.
Proof.
  intros Hacc Hty Hcf Hl Hs regs locals pc regs' locals' o Hag (s'&Hgo&Hend).
  remember (regs, locals, pc) as s eqn:Es. revert regs locals pc regs' locals' Es Hag.
  induction Hgo as [s|s s1 s' Hn Hgo IH]; intros regs locals pc regs' locals' -> Hag.
  - eexists. split; [done|]. simpl in Hend |- *. destruct (f_instructions f !! pc) as [i|] eqn:Hi; [|done].
    pose proof (ir_step_agreement hp n1 n2 f live Hacc Hty Hcf Hl Hs pc i Hi regs locals regs' locals' Hag arguments) as H.
    rewrite Hend in H. unfold step_agrees in H. case_match; [done|by subst].
  - destruct Hn as (i&Hi&Hstep).
    pose proof (ir_step_agreement hp n1 n2 f live Hacc Hty Hcf Hl Hs pc i Hi regs locals regs' locals' Hag arguments) as H.
    rewrite Hstep in H. unfold step_agrees in H. case_match eqn:Hstep'; [|done]. destruct H as [<- H].
    destruct s1 as [[r1 l1] pc1]. simpl in *. eapply ir_run_after; [|by apply (IH Hend r1 l1 pc1)].
    apply rtc_once. exists i. split; [done|exact Hstep'].
Qed.

Lemma zero_justified instrs : justified instrs (replicate (length instrs) (0, 0)).
Proof.
  assert (forall k pc, bit_at k (replicate (length instrs) (0, 0)) pc = false) as H.
  { intros k pc. unfold bit_at, masks_at. destruct (replicate _ _ !! pc) as [m|] eqn:E; [|apply slot_bit_zero].
    apply lookup_replicate in E as [-> _]. apply slot_bit_zero. }
  split; [apply length_replicate|intros k pc Hb; by rewrite H in Hb..].
Qed.

Lemma liveness_solved f :
  exists live, compute_liveness f = Some live /\ justified (f_instructions f) live /\ solved (f_instructions f) live.
Proof.
  unfold compute_liveness.
  destruct (loop_settles (f_instructions f) (length (f_instructions f) * 4 + 8) (replicate (length (f_instructions f)) (0, 0)) 0)
    as (live&->&Hj&Hs); [lia|apply zero_justified|done|]. eauto.
Qed.

(** ** Functions that write before they read

    Nothing is live at the start, so the contents of the frame do not matter. *)
Definition initialized (f : TurboJSIRFunction) : Prop := forall k, ~ live_at (f_instructions f) k 0.

Definition initializedb (f : TurboJSIRFunction) : bool :=
  match compute_liveness f with Some live => bool_decide (masks_at live 0 = (0, 0)) | None => false end.

Lemma initializedb_spec f : initializedb f = true <-> initialized f.
Proof.
  unfold initializedb. destruct (liveness_solved f) as (live&->&Hj&Hs). rewrite bool_decide_eq_true.
  pose proof (solved_exact _ _ Hj Hs) as Hex. split.
  - intros H0 k Hk. apply Hex in Hk. unfold bit_at in Hk. by rewrite H0, slot_bit_zero in Hk.
  - intros H. apply masks_ext. intros k. rewrite slot_bit_zero. apply not_true_is_false. intros Hb. by apply (H k), Hex.
Qed.

Lemma initialized_run hp n1 n2 f arguments regs locals regs' locals' o :
  ir_accepted hp f -> function_typed f -> callfree f -> f_local_count f <= 64 -> initialized f ->
  length regs = length regs' -> length locals = length locals' ->
  ir_run hp n1 n2 f arguments (regs, locals, 0%nat) o -> ir_run hp n1 n2 f arguments (regs', locals', 0%nat) o.
Proof.
  intros Hacc Hty Hcf Hl Hin Hr Hll. destruct (liveness_solved f) as (live&_&Hj&Hs).
  apply (run_agreement _ _ _ _ live); try done. split; [done..| |]; intros r Hb; exfalso; by eapply Hin, (jf_live _ _ Hj).
Qed.


(** ** Examples *)

(** Counts register 0 down by register 1; register 2 is never read. *)
Definition countdown : TurboJSIRFunction :=
  f_set_instructions (f_set_counts zero_function 3 0 0)
    [mkInstruction TURBOJS_IR_CONSTANT_I64 0 0 0 5 0 0; mkInstruction TURBOJS_IR_CONSTANT_I64 1 0 0 1 0 1;
     mkInstruction TURBOJS_IR_SUB_I64 0 0 1 0 0 2; mkInstruction TURBOJS_IR_BRANCH_TRUE 0 0 0 0 2 3;
     mkInstruction TURBOJS_IR_RETURN_I64 0 1 0 0 0 4] 16.


(** A register read only as the argument of a native call is not live before
    the call, although the call's result depends on it. *)
Definition call_heap : Heap :=
  mkHeap (fun a => if a =? 600 then Some (mkCallSite 700 1 1 TURBOJS_NATIVE_ENTRY_INT32 0 0 0 no_hooks false 0 0 0 0 [2; 0; 0; 0]) else None)
    (fun _ => None) (fun a => if a =? 700 then Some (mkHandle 800 1 1 TURBOJS_NATIVE_ENTRY_INT32 TURBOJS_VALUE_I64) else None).
Definition caller : TurboJSIRFunction :=
  f_set_instructions (f_set_counts zero_function 3 0 0)
    [mkInstruction TURBOJS_IR_CONSTANT_I64 2 0 0 7 0 0; mkInstruction TURBOJS_IR_CALL_NATIVE_I64 0 0 0 600 0 1;
     mkInstruction TURBOJS_IR_RETURN_I64 0 0 0 0 0 2] 16.
Definition echo (_ : Z) (arguments : list Z) : TurboJSIRStatus * Z := (TURBOJS_IR_OK, default 0 (head arguments)).

Example call_argument_not_live :
  TurboJS_IRVerify call_heap caller = Some ok_diagnostic /\
  compute_liveness caller = Some [(1, 0); (1, 0); (1, 0)] /\
  execute_from call_heap echo echo caller [0; 0; 7] [] 1 = Result 7 /\
  execute_from call_heap echo echo caller [0; 0; 8] [] 1 = Result 8.
Proof. repeat split; vm_compute; reflexivity. Qed.
