(* ===== verification/PipelineNative.v ===== *)
(** * Optimized code that the baseline compiler takes over

    The baseline compiler is correct for functions of C type that write their
    registers and locals before they read them.  The IR the optimizing pipeline
    lowers a graph to is such a function: [optimized_typed].  And what the
    interpreter returns from a cleared frame, such a function returns from
    every frame: [interpreted_run]. *)

From S2P Require Import Prelude.
From S2P Require Import JitTypes.
From S2P Require Import IR.
From S2P Require Import IRVerify.
From S2P Require Import Float64.
From S2P Require Import IRInterp.
From S2P Require Import SSA.
From S2P Require Import SSAMem.
From S2P Require Import SSAOpt.
From S2P Require Import SSACorrect.
From S2P Require Import SSABuild.
From S2P Require Import EngineEmit.
From S2P Require Import Pipeline.
From S2P Require Import BaselineX64.
From S2P Require Import BaselineBlocks.
From S2P Require Import BaselineCorrect.
From S2P Require Import BaselineLive.

(** ** The interpreter as a run of the IR machine *)

Section Runs.
Context (hp : Heap) (n1 n2 : Z -> list Z -> TurboJSIRStatus * Z) (f : TurboJSIRFunction) (arguments : list Z).

Lemma loop_runs fuel regs locals pc r :
  execute_loop hp n1 n2 fuel f regs locals pc = Result r -> ir_run hp n1 n2 f arguments (regs, locals, pc) (Result r).
Proof.
  revert regs locals pc. induction fuel as [|fuel IH]; intros regs locals pc; simpl;
    destruct (f_instructions f !! pc) as [i|] eqn:Hi; try done.
  destruct (decide (in_opcode i = TURBOJS_IR_ARGUMENT)) as [Hop|Hop]; [unfold execute_step; by rewrite Hop|].
  assert (ir_step hp n1 n2 f arguments i regs locals pc = execute_step hp n1 n2 f i regs locals pc) as Hs
    by (unfold ir_step; by rewrite decide_False).
  destruct (execute_step _ _ _ _ _ _ _ _) as [regs' locals' pc'|o] eqn:Hstep; intros Hr.
  - apply (ir_run_after _ _ _ _ _ _ (regs', locals', pc')); [|by apply IH]. apply rtc_once. by exists i.
  - exists (regs, locals, pc). split; [done|]. simpl. rewrite Hi, Hs. by subst.
Qed.

Lemma prologue_runs_ir l : forall regs pc r, drop pc (f_instructions f) = l ->
  argument_prologue hp n1 n2 f arguments regs pc l = Result r -> ir_run hp n1 n2 f arguments (regs, zero_array, pc) (Result r).
Proof.
  induction l as [|i l IH]; intros regs pc r Hd; [done|]. simpl. case_decide as Hop; [|apply loop_runs].
  destruct (arguments !! Z.to_nat (in_immediate i)) as [v|] eqn:Hv; [|done]. destruct (_ <? _)%nat eqn:Hlt; [|done]. intros Hr.
  assert (f_instructions f !! pc = Some i) as Hi by (rewrite <-(Nat.add_0_r pc), <-lookup_drop, Hd; done).
  apply (ir_run_after _ _ _ _ _ _ (<[Z.to_nat (in_destination i) := v]> regs, zero_array, S pc)).
  - apply rtc_once. exists i. split; [done|]. unfold ir_step. rewrite decide_True by done. unfold rd, wr. by rewrite Hv, Hlt.
  - apply IH; [|done]. by rewrite <-Nat.add_1_r, <-drop_drop, Hd.
Qed.

Lemma execute_accepted r : TurboJS_IRExecute hp n1 n2 f arguments = Result r ->
  ir_accepted hp f /\ f_argument_count f <= Z.of_nat (length arguments) /\
  ir_run hp n1 n2 f arguments (zero_array, zero_array, 0%nat) (Result r).
Proof.
  unfold TurboJS_IRExecute. destruct (Z.ltb_spec (Z.of_nat (length arguments)) (f_argument_count f)); [done|].
  destruct (TurboJS_IRVerify hp f) as [d|] eqn:Hd; [|done]. case_decide as Hok; [|done]. intros Hr.
  split; [|split; [lia|by eapply prologue_runs_ir]]. apply ir_verify_ok_iff. rewrite Hd. f_equal. eauto using ir_verify_status_ok.
Qed.

(** A run has one outcome. *)
Lemma ir_run_unique s o o' : ir_run hp n1 n2 f arguments s o -> ir_run hp n1 n2 f arguments s o' -> o = o'.
Proof.
  assert (forall s s1, ir_next hp n1 n2 f arguments s s1 -> forall o, ir_run hp n1 n2 f arguments s o -> ir_run hp n1 n2 f arguments s1 o) as Hnext.
  { intros [[regs locals] pc] s1 (i&Hi&Hs) x (s'&Hgo&Hend). inversion Hgo as [|? s2 ? Hn Hgo']; subst.
    - simpl in Hend. rewrite Hi, Hs in Hend. done.
    - destruct Hn as (j&Hj&Hs2). exists s'. split; [|done]. simplify_eq. rewrite Hs in Hs2. destruct s1 as [[? ?] ?], s2 as [[? ?] ?]. simpl in *. by simplify_eq. }
  intros (s'&Hgo&Hend) H'. induction Hgo as [[[regs locals] pc]|x y z Hn Hgo IH]; [|by apply IH; [done|eapply Hnext]].
  destruct H' as (s2&Hgo&Hend'). inversion Hgo as [|? s3 ? Hn Hgo']; subst.
  - simpl in *. destruct (f_instructions f !! pc); congruence.
  - destruct Hn as (j&Hj&Hs3). simpl in Hend. rewrite Hj, Hs3 in Hend. done.
Qed.

(** What the interpreter returns, the function returns from every frame. *)
Lemma interpreted_run r regs locals :
  function_typed f -> callfree f -> f_local_count f <= 64 -> initialized f -> length regs = 64%nat -> length locals = 64%nat ->
  TurboJS_IRExecute hp n1 n2 f arguments = Result r -> ir_run hp n1 n2 f arguments (regs, locals, 0%nat) (Result r).
Proof.
  intros Hty Hcf Hl Hin Hr Hll (Hacc&_&Hrun)%execute_accepted. revert Hrun. by apply initialized_run.
Qed.
End Runs.

(** ** The lowered function *)

(** Every register an instruction reads was written before. *)
Definition writes_first (l : list TurboJSIRInstruction) : Prop :=
  forall pc i k, l !! pc = Some i -> reads_slot k i = true -> exists q j, (q < pc)%nat /\ l !! q = Some j /\ writes_slot k j = true.

Lemma writes_first_initialized f :
  Forall (fun i => is_jump i = false) (f_instructions f) -> writes_first (f_instructions f) -> initialized f.
Proof.
  intros Hj Hw k. enough (forall pc, live_at (f_instructions f) k pc ->
    ~ forall q j, (q < pc)%nat -> f_instructions f !! q = Some j -> writes_slot k j = false) as H.
  { intros Hl. apply (H _ Hl). intros; lia. }
  induction 1 as [pc i Hi Hu|pc i q Hi Hn Hq _ IH]; intros Hno.
  - destruct (Hw _ _ _ Hi Hu) as (q&j&Hq&Hj'&Hwr). by rewrite (Hno _ _ Hq Hj') in Hwr.
  - apply IH. assert (q = S pc) as ->.
    { pose proof (Forall_lookup_1 _ _ _ _ Hj Hi) as Hji. unfold is_jump in Hji. unfold flows in Hq. destruct (in_opcode i); set_solver. }
    intros p j Hp Hj'. destruct (decide (p = pc)) as [->|]; [by simplify_eq|]. apply (Hno p j); [lia|done].
Qed.

(** The state of the lowering. *)
Record lowered_ok (map : list Z) (out : TurboJSIRFunction) : Prop := {
  lo_count : 0 <= f_register_count out <= 64;
  lo_locals : f_local_count out = 0;
  lo_map : forall id m, map !! id = Some m -> m <> TURBOJS_IR_NO_REGISTER -> 0 <= m < f_register_count out;
  lo_jumps : Forall (fun i => is_jump i = false) (f_instructions out);
  lo_first : writes_first (f_instructions out);
  lo_written : forall r, 0 <= r < f_register_count out ->
    exists q j, f_instructions out !! q = Some j /\ writes_slot (Register (Z.to_nat r)) j = true;
  lo_typed : Forall (fun i => 0 <= in_left i /\ 0 <= in_right i /\ 0 <= in_destination i /\ 0 <= in_target i /\
                              (in_opcode i = TURBOJS_IR_ARGUMENT \/ in_i64 (in_immediate i) = true)) (f_instructions out)
}.

(** The registers an instruction of the lowered code reads. *)
Definition reads_only (out : TurboJSIRFunction) (i : TurboJSIRInstruction) : Prop :=
  forall k, reads_slot k i = true -> exists r, k = Register (Z.to_nat r) /\ 0 <= r < f_register_count out.

Lemma lowered_append map out map' out' i :
  lowered_ok map out -> f_instructions out' = f_instructions out ++ [i] -> f_local_count out' = f_local_count out ->
  f_register_count out <= f_register_count out' <= 64 ->
  (forall r, f_register_count out <= r < f_register_count out' -> writes_slot (Register (Z.to_nat r)) i = true) ->
  (forall id m, map' !! id = Some m -> map !! id = Some m \/ 0 <= m < f_register_count out') ->
  is_jump i = false -> reads_only out i ->
  0 <= in_left i -> 0 <= in_right i -> 0 <= in_destination i -> 0 <= in_target i ->
  in_opcode i = TURBOJS_IR_ARGUMENT \/ in_i64 (in_immediate i) = true -> lowered_ok map' out'.
Proof.
  intros [Hc Hl Hm Hj Hf Hw Ht] Hi Hlo Hcnt Hnew Hmap Hji Hr H1 H2 H3 H4 H5. split.
  - lia.
  - congruence.
  - intros id m Hid Hne. destruct (Hmap _ _ Hid) as [Hid'|]; [|done]. specialize (Hm _ _ Hid' Hne). lia.
  - rewrite Hi. apply Forall_app_2; [done|by constructor].
  - rewrite Hi. intros pc j k Hpc Hu. apply lookup_app_Some in Hpc as [Hpc|[Hge Hpc]].
    + destruct (Hf _ _ _ Hpc Hu) as (q&j'&Hq&Hj'&Hwr). exists q, j'. split; [done|]. split; [by apply lookup_app_l_Some|done].
    + apply list_lookup_singleton_Some in Hpc as [Hz <-]. destruct (Hr _ Hu) as (r&->&Hrr). destruct (Hw _ Hrr) as (q&j'&Hq&Hwr).
      exists q, j'. pose proof (lookup_lt_Some _ _ _ Hq). split; [lia|]. split; [by apply lookup_app_l_Some|done].
  - intros r Hrr. rewrite Hi. destruct (decide (r < f_register_count out)).
    + destruct (Hw r ltac:(lia)) as (q&j'&Hq&Hwr). exists q, j'. split; [by apply lookup_app_l_Some|done].
    + exists (length (f_instructions out)), i. split; [by apply list_lookup_middle|]. apply Hnew. lia.
  - rewrite Hi. apply Forall_app_2; [done|]. by constructor.
Qed.

Lemma mapped_written map out id : lowered_ok map out -> mapped map id <> TURBOJS_IR_NO_REGISTER -> 0 <= mapped map id < f_register_count out.
Proof.
  intros Hl. unfold mapped. destruct (id <? _); [|done]. destruct (map !! Z.to_nat id) as [m|] eqn:Hm; [|done]. simpl. by eapply lo_map.
Qed.

Definition lowered_opcode (op : TurboJSIROpcode) : bool :=
  match op with
  | TURBOJS_IR_ARGUMENT | TURBOJS_IR_CONSTANT_I64 | TURBOJS_IR_ADD_I64 | TURBOJS_IR_SUB_I64 | TURBOJS_IR_MUL_I64
  | TURBOJS_IR_LESS_THAN_I64 => true
  | _ => false
  end.

Lemma lower_define_ok mem v map out op l r imm map' out' :
  lowered_ok map out -> lower_define mem v map out op l r imm = Some (LowerNext map' out') -> lowered_opcode op = true ->
  op = TURBOJS_IR_ARGUMENT \/ in_i64 imm = true ->
  0 <= l -> 0 <= r -> (op <> TURBOJS_IR_ARGUMENT -> op <> TURBOJS_IR_CONSTANT_I64 -> 0 <= l < f_register_count out /\ 0 <= r < f_register_count out) ->
  lowered_ok map' out' /\ length (f_instructions out') = S (length (f_instructions out)).
Proof.
  intros Hl Hd Hop Himm Hl0 Hr0 Hlr. assert (f_local_count out' = f_local_count out) as Hlo.
  { revert Hd. unfold lower_define, TurboJS_IRAllocateRegister, TurboJS_IREmit. repeat case_match; intros; simplify_eq; done. }
  destruct (lower_define_next _ _ _ _ _ _ _ _ _ _ Hd) as (dst & Hi & _ & Hdst & Hlt & Hn & Hid & ->). pose proof (lo_count _ _ Hl) as Hc.
  unfold TURBOJS_IR_MAX_REGISTERS in *. split; [|rewrite Hi, length_app; simpl; lia].
  eapply lowered_append; [exact Hl|exact Hi|done|lia| | | | |simpl; lia..|done].
  - intros x Hx. replace x with dst by lia. unfold writes_slot, instruction_use_def.
    destruct op; try done; cbn; rewrite reg_bit_spec by lia; by apply bool_decide_eq_true.
  - intros id m Hm. rewrite list_lookup_insert in Hm. case_decide; simplify_eq; [right; lia|by left].
  - by destruct op.
  - intros k Hu. unfold reads_slot, instruction_use_def in Hu. 
    destruct op; try done; destruct k as [q|q]; cbn in Hu; try (by rewrite Z.testbit_0_l in Hu);
      destruct (Hlr ltac:(done) ltac:(done)); rewrite Z.lor_spec, !reg_bit_spec in Hu by lia;
      apply orb_true_iff in Hu as [Hu|Hu]; apply bool_decide_eq_true in Hu as ->; eauto.
Qed.

Lemma lower_value_ok arguments result rho mem v map out map' out' :
  (forall id, in_i64 (rho id) = true) -> meaningful arguments result rho v ->
  lowered_ok map out -> lower_value mem v map out = Some (LowerNext map' out') ->
  lowered_ok map' out' /\ (length (f_instructions out') <= S (length (f_instructions out)))%nat.
Proof.
  intros Hrho Hm Hl. unfold lower_value, is_opcode. destruct (v_removed v) eqn:Hrm; simpl; [intros; simplify_eq; split; [done|lia]|].
  destruct (Hm Hrm) as (He&_&_). unfold explains in He.
  assert (forall op l r imm, lower_define mem v map out op l r imm = Some (LowerNext map' out') -> lowered_opcode op = true ->
    op = TURBOJS_IR_ARGUMENT \/ in_i64 imm = true -> 0 <= l -> 0 <= r ->
    (op <> TURBOJS_IR_ARGUMENT -> op <> TURBOJS_IR_CONSTANT_I64 -> 0 <= l < f_register_count out /\ 0 <= r < f_register_count out) ->
    lowered_ok map' out' /\ (length (f_instructions out') <= S (length (f_instructions out)))%nat) as Hdef.
  { intros op l r imm Hd ? ? ? ? ?. destruct (lower_define_ok _ _ _ _ _ _ _ _ _ _ Hl Hd) as [? ?]; try done. split; [done|lia]. }
  pose proof (mapped_written map out (v_left v) Hl) as Hml. pose proof (mapped_written map out (v_right v) Hl) as Hmr.
  destruct (v_opcode v); simpl; try done; try (intros; simplify_eq; split; [done|lia]).
  - intros Hd. eapply Hdef; [exact Hd|done|by left|done..].
  - intros Hd. eapply Hdef; [exact Hd|done|right; by rewrite <-He|done..].
  - destruct (_ || _) eqn:Hb; [done|]. b2p. specialize (Hml ltac:(done)). specialize (Hmr ltac:(done)). intros Hd. eapply Hdef; [exact Hd|done|by right|lia..].
  - destruct (_ || _) eqn:Hb; [done|]. b2p. specialize (Hml ltac:(done)). specialize (Hmr ltac:(done)). intros Hd. eapply Hdef; [exact Hd|done|by right|lia..].
  - destruct (_ || _) eqn:Hb; [done|]. b2p. specialize (Hml ltac:(done)). specialize (Hmr ltac:(done)). intros Hd. eapply Hdef; [exact Hd|done|by right|lia..].
  - destruct (_ || _) eqn:Hb; [done|]. b2p. specialize (Hml ltac:(done)). specialize (Hmr ltac:(done)). intros Hd. eapply Hdef; [exact Hd|done|by right|lia..].
  - destruct (Z.eqb_spec (mapped map (v_left v)) TURBOJS_IR_NO_REGISTER) as [|Hne]; [done|].
    unfold TurboJS_IREmit. destruct (_ && _); [done|]. intros [= <- <-]. specialize (Hml Hne). pose proof (lo_count _ _ Hl).
    split; [|simpl; rewrite length_app; simpl; lia].
    eapply lowered_append; [exact Hl|done|done|simpl; lia|simpl; intros; lia|intros; by left|done| |simpl; lia|done|done|done|by right].
    intros k Hu. unfold reads_slot in Hu. destruct k as [q|q]; cbn in Hu; [|by rewrite Z.testbit_0_l in Hu].
    rewrite reg_bit_spec in Hu by lia. apply bool_decide_eq_true in Hu as ->. eauto.
Qed.

Lemma lower_values_ok arguments result rho mem :
  (forall id, in_i64 (rho id) = true) -> forall vs i map out final,
  Forall (meaningful arguments result rho) vs -> lowered_ok map out -> lower_values mem i vs map out = Some (inr final) ->
  exists map', lowered_ok map' final /\ (length (f_instructions final) <= length (f_instructions out) + length vs)%nat.
Proof.
  intros Hrho. induction vs as [|v vs IH]; intros i map out final Hm Hl; simpl; [intros [= <-]; exists map; split; [done|lia]|].
  apply Forall_cons in Hm as [Hmv Hm]. destruct (lower_value mem v map out) as [[map1 out1| |]|] eqn:Hv; try done.
  destruct (lower_value_ok _ _ _ _ _ _ _ _ _ Hrho Hmv Hl Hv) as [Hl1 Hlen]. intros H.
  destruct (IH _ _ _ _ Hm Hl1 H) as (map'&Hl'&Hlen'). exists map'. split; [done|]. simpl. lia.
Qed.

Lemma sound_meaningful arguments result rho vs : straight arguments result rho vs -> Forall (meaningful arguments result rho) vs.
Proof.
  intros Hs. apply Forall_lookup. intros k v Hv Hrm. destruct (s_operands _ _ _ _ Hs _ _ Hv Hrm) as [Ho1 Ho2].
  split; [by eapply s_explained|]. eauto using operand_nonneg.
Qed.

Lemma lowered_start next argument_count : lowered_ok empty_map (TurboJS_IRFunctionInit next argument_count).1.
Proof.
  split; try done.
  - intros id m [-> _]%lookup_replicate. done.
  - intros r Hr. simpl in Hr. lia.
Qed.

(** Lowering a graph that a run of 64-bit numbers explains. *)
Lemma lower_graph_typed arguments result rho hp mem next g argument_count d lowered :
  sound arguments result rho g -> (forall id, in_i64 (rho id) = true) -> 0 <= argument_count < 2 ^ 16 ->
  lower_graph hp mem next g argument_count = Some (d, lowered) -> dg_status d = TURBOJS_IR_OK ->
  function_typed lowered /\ initialized lowered /\ f_local_count lowered = 0.
Proof.
  intros [Hs _ _] Hrho Hac. unfold lower_graph. destruct (block_count g =? 1); cbn [negb]; [|by intros [= <- <-]].
  destruct (TurboJS_IRFunctionInit next argument_count) as [out n] eqn:Hinit. injection Hinit as <- _.
  destruct (lower_values _ _ _ _ _) as [[d'|final]|] eqn:Hlow; [|destruct (TurboJS_IRVerify hp final) as [d'|] eqn:Hver|]; try done.
  { intros [= <- <-] Hok. by apply lower_values_error in Hlow. }
  intros [= <- <-] Hok. assert (ir_accepted hp final) as Hacc by (apply ir_verify_ok_iff; rewrite Hver; f_equal; eauto using ir_verify_status_ok).
  destruct (lower_values_shape mem _ _ _ _ _ Hlow) as [Hfa _]. cbn in Hfa.
  destruct (lower_values_ok arguments result rho mem Hrho _ _ _ _ _ ltac:(by eapply sound_meaningful) (lowered_start next argument_count) Hlow)
    as (map'&[Hc Hl Hm Hj Hf Hw Ht]&Hlen).
  split; [|split; [by apply writes_first_initialized|done]]. pose proof (s_size _ _ _ _ Hs) as Hsz. cbn in Hlen.
  split; [lia|lia|lia| |].
  - unfold f_instruction_count, UINT32_MAX. unfold TURBOJS_SSA_NO_VALUE, UINT32_MAX in Hsz. lia.
  - apply Forall_lookup. intros pc i Hi. destruct (Forall_lookup_1 _ _ _ _ Ht Hi) as (H1&H2&H3&H4&H5). split; try done.
    destruct H5 as [Hop|]; [|done]. destruct (accepted_operands _ _ _ _ Hacc Hi) as [x Hv]. unfold verify_instruction in Hv. rewrite Hop in Hv.
    repeat (case_match; [done|]). b2p. apply in_i64_spec. unfold INT64_MIN, INT64_MAX. lia.
Qed.

(** The pipeline's output for a function of C type and a run of it. *)
Lemma optimized_typed hp native_i64 native_f64 baseline fuel mem next f feedback o arguments result :
  function_typed f -> Forall (fun v => in_i64 v = true) arguments ->
  straight_line f -> 2 * f_instruction_count f < UINT32_MAX ->
  TurboJS_OptimizingCompile hp baseline (S (S fuel)) mem next f feedback = Some (TURBOJS_IR_OK, Some o) ->
  TurboJS_IRExecute hp native_i64 native_f64 f arguments = Result result ->
  function_typed (of_lowered o) /\ initialized (of_lowered o) /\ f_local_count (of_lowered o) = 0.
Proof.
  intros Hty Hargs Hsl Hn Hc Hex.
  destruct (optimized_explained (fun x => in_i64 x = true) hp native_i64 native_f64 baseline fuel mem next f feedback o arguments result)
    as (rho & g & d & Hs & Hr & Hlow & Hd); try done.
  { eapply Forall_impl; [apply Hty|]. intros i Hi. apply Hi. }
  eapply lower_graph_typed; [exact Hs|exact Hr|apply (ft_arguments _ Hty)|exact Hlow|done].
Qed.
