(* ===== verification/EngineNative.v ===== *)
(** * From engine bytecode to machine code

    The translation to IR ([EngineCorrect]) and the baseline compiler
    ([BaselineCorrect]) composed: what the operand-stack machine of the
    bytecode computes is what the invoked machine code returns.

    [EngineCorrect] runs the IR on arrays of 64 registers and locals, the
    native frame has as many as the function declares; a verified function
    does not tell the difference ([ir_step_truncated]). *)

From S2P Require Import Prelude.
From S2P Require Import JitTypes.
From S2P Require Import Clutch.
From S2P Require Import IR.
From S2P Require Import IRVerify.
From S2P Require Import Float64.
From S2P Require Import IRInterp.
From S2P Require Import EngineOpcodes.
From S2P Require Import BytecodeCfg.
From S2P Require Import EngineToIR.
From S2P Require Import EngineScan.
From S2P Require Import EngineEmit.
From S2P Require Import EngineCorrect.
From S2P Require Import Pipeline.
From S2P Require Import X64.
From S2P Require Import Vault.
From S2P Require Import BaselineX64.
From S2P Require Import BaselineNative.
From S2P Require Import BaselineRun.
From S2P Require Import BaselineBlocks.
From S2P Require Import BaselineLayout.
From S2P Require Import BaselineCorrect.

(** ** Shorter arrays *)

Section Truncate.
Context (hp : Heap) (n1 n2 : Z -> list Z -> TurboJSIRStatus * Z) (f : TurboJSIRFunction) (args : list Z).
Context (Hplain : Forall (plain_instruction hp f) (f_instructions f)).
Context (Hregs : 0 <= f_register_count f <= 64) (Hlocals : 0 <= f_local_count f <= 64).
Notation cut_regs := (take (Z.to_nat (f_register_count f))).
Notation cut_locals := (take (Z.to_nat (f_local_count f))).

Definition truncated (s : IRState) : IRState := let '(regs, locals, pc) := s in (cut_regs regs, cut_locals locals, pc).
Definition truncated_out (o : StepOut) : StepOut :=
  match o with Next regs locals pc => Next (cut_regs regs) (cut_locals locals) pc | Halt o => Halt o end.

Lemma rd_cut n l i k k' : 0 <= i < n -> (forall v, truncated_out (k v) = k' v) -> truncated_out (rd l i k) = rd (take (Z.to_nat n) l) i k'.
Proof. intros Hi Hk. unfold rd. rewrite lookup_take_lt by lia. destruct (l !! Z.to_nat i); [apply Hk|done]. Qed.

Lemma wr_cut n l i v k k' : length l = 64%nat -> 0 <= n <= 64 -> 0 <= i < n ->
  (forall l, truncated_out (k l) = k' (take (Z.to_nat n) l)) -> truncated_out (wr l i v k) = wr (take (Z.to_nat n) l) i v k'.
Proof.
  intros Hl Hn Hi Hk. unfold wr. rewrite length_take. rewrite !(proj2 (Nat.ltb_lt _ _)) by lia. rewrite Hk. f_equal. rewrite take_insert. by rewrite decide_True by lia.
Qed.

Lemma arith_cut v k k' : (forall v, truncated_out (k v) = k' v) -> truncated_out (arith v k) = arith v k'.
Proof. intros H. destruct v; [apply H|done]. Qed.

Lemma rd_args i k k' : (forall v, truncated_out (k v) = k' v) -> truncated_out (rd args i k) = rd args i k'.
Proof. intros H. unfold rd. destruct (args !! Z.to_nat i); [apply H|done]. Qed.

Lemma ir_step_truncated i regs locals pc : plain_instruction hp f i -> length regs = 64%nat -> length locals = 64%nat ->
  truncated_out (ir_step hp n1 n2 f args i regs locals pc) = ir_step hp n1 n2 f args i (cut_regs regs) (cut_locals locals) pc.
Proof.
  intros ([b Hv]&[Hl Hr Hd Ht Hi]&Hc) Hlr Hll. unfold ir_step, execute_step. unfold verify_instruction, valid_register in Hv. unfold is_call in Hc.
  destruct (in_opcode i) eqn:Hop; try done; first [rewrite !decide_True by done | rewrite !decide_False by done];
    repeat (case_match; [done|]); b2p; try done;
    repeat first
      [ apply arith_cut; intros ?
      | apply rd_args; intros ?
      | apply wr_cut; [done|lia|lia|intros ?; done]
      | apply rd_cut; [lia|intros ?]
      | case_match; try done ].
  all: done.
Qed.

(** Steps keep the lengths. *)
Definition keeps (regs locals : list Z) (o : StepOut) : Prop :=
  match o with Next regs' locals' _ => length regs' = length regs /\ length locals' = length locals | Halt _ => True end.

Lemma rd_keeps regs locals l i k : (forall v, keeps regs locals (k v)) -> keeps regs locals (rd l i k).
Proof. intros H. unfold rd. destruct (l !! Z.to_nat i); [apply H|done]. Qed.
Lemma wr_keeps regs locals l i v k : (forall l', length l' = length l -> keeps regs locals (k l')) -> keeps regs locals (wr l i v k).
Proof. intros H. unfold wr. case_match; [apply H, length_insert|done]. Qed.
Lemma arith_keeps regs locals v k : (forall v, keeps regs locals (k v)) -> keeps regs locals (arith v k).
Proof. intros H. destruct v; [apply H|done]. Qed.

Lemma ir_step_keeps i regs locals pc : is_call i = false -> keeps regs locals (ir_step hp n1 n2 f args i regs locals pc).
Proof.
  intros Hc. unfold ir_step, execute_step. unfold is_call in Hc.
  destruct (in_opcode i); try done; first [rewrite decide_True by done | rewrite decide_False by done]; try done;
    repeat first
      [ apply arith_keeps; intros ?
      | apply wr_keeps; intros ? ?; done
      | apply rd_keeps; intros ?
      | case_match; try done ]; done.
Qed.

(** ** Runs *)

Definition full (s : IRState) : Prop := length s.1.1 = 64%nat /\ length s.1.2 = 64%nat.

Lemma next_truncated s s' : full s -> ir_next hp n1 n2 f args s s' -> full s' /\ ir_next hp n1 n2 f args (truncated s) (truncated s').
Proof.
  destruct s as [[regs locals] pc], s' as [[regs' locals'] pc']. intros [Hr Hl] (i&Hi&Hstep). cbn [fst snd] in *.
  assert (plain_instruction hp f i) as Hp by (rewrite Forall_lookup in Hplain; eauto).
  pose proof (ir_step_keeps i regs locals pc ltac:(apply Hp)) as Hk. pose proof (ir_step_truncated i regs locals pc Hp Hr Hl) as Ht.
  rewrite Hstep in Hk, Ht. destruct Hk as [Hk1 Hk2]. split; [split; cbn; congruence|]. exists i. split; [done|]. by rewrite <-Ht.
Qed.

Lemma run_truncated s s' : full s -> rtc (ir_next hp n1 n2 f args) s s' -> full s' /\ rtc (ir_next hp n1 n2 f args) (truncated s) (truncated s').
Proof.
  intros Hf H. induction H as [s|s1 s2 s3 H12 _ IH]; [by split|]. destruct (next_truncated _ _ Hf H12) as [Hf2 H2].
  destruct (IH Hf2) as [Hf3 H3]. split; [done|]. by eapply rtc_l.
Qed.

(** An end of the IR is one of the code, when no safepoint is requested. *)
Lemma ends_stops s o : full s -> ir_ends hp n1 n2 f args s o ->
  match o with
  | Result v => native_stops hp n1 n2 f args false (truncated s) 0 (Some v)
  | Stop TURBOJS_IR_BAILOUT => exists status, native_stops hp n1 n2 f args false (truncated s) status None
  | _ => True
  end.
Proof.
  destruct s as [[regs locals] pc]. intros [Hr Hl] He. cbn [fst snd] in *. unfold ir_ends in He.
  destruct (f_instructions f !! pc) as [i|] eqn:Hi; [|subst o; done].
  assert (plain_instruction hp f i) as Hp by (rewrite Forall_lookup in Hplain; eauto).
  pose proof (ir_step_truncated i regs locals pc Hp Hr Hl) as Ht. rewrite He in Ht. cbn [truncated_out] in Ht.
  destruct o as [v|st|]; [|destruct st; try done|done].
  - exists i. split; [done|]. cbn [andb]. by rewrite <-Ht.
  - eexists. exists i. split; [done|]. cbn [andb]. by rewrite <-Ht.
Qed.

Lemma goes_next s s' : rtc (ir_next hp n1 n2 f args) s s' -> rtc (native_goes hp n1 n2 f args false) s s'.
Proof.
  intros H. induction H as [s|s1 s2 s3 H12 _ IH]; [done|]. eapply rtc_l; [|exact IH]. split; [|done].
  destruct s1 as [[regs locals] pc]. simpl. by case_match.
Qed.
End Truncate.

(** ** The composition *)

(** Padding to 64 entries. *)
Definition pad (l : list Z) : list Z := l ++ replicate (64 - length l) 0.

Lemma length_pad l : (length l <= 64)%nat -> length (pad l) = 64%nat.
Proof. intros H. unfold pad. rewrite length_app, length_replicate. lia. Qed.

Lemma pad_full sp f : f_register_count f <= 64 -> f_local_count f <= 64 ->
  let s := (pad (stale_registers sp f), pad (stale_locals sp f), 0%nat) in
  full s /\ truncated f s = (stale_registers sp f, stale_locals sp f, 0%nat).
Proof.
  intros Hr Hl. assert (length (stale_registers sp f) = Z.to_nat (f_register_count f)) as Hrl by apply length_stale.
  assert (length (stale_locals sp f) = Z.to_nat (f_local_count f)) as Hll by apply length_stale.
  split; [split; apply length_pad; lia|]. unfold truncated, pad. by rewrite !take_app_length'.
Qed.

(** The invocation of compiled code ends as the IR does from what the stack
    holds. *)
Lemma native_runs mem base hp n1 n2 f n events sp fn args o :
  TurboJS_BaselineCompile mem (sp_windows sp) hp base f = Some (BaselineCompiled n events) ->
  callfree f -> function_typed f -> f_local_count f <= TURBOJS_IR_MAX_REGISTERS -> Z.of_nat (length (nf_code n)) < 2 ^ 31 ->
  fn_object fn = n -> space_ok sp (fn_safepoint fn) f args -> Forall (fun v => in_i64 v = true) args ->
  f_argument_count f <= Z.of_nat (length args) -> swrap 32 (sp_memory sp (fn_safepoint fn)) = 0 ->
  ir_run hp n1 n2 f args (pad (stale_registers sp f), pad (stale_locals sp f), 0%nat) o ->
  match o with
  | Result v => exists fuel fn', TurboJS_NativeInvoke fuel sp fn args = Some (TURBOJS_IR_OK, v, fn')
  | Stop TURBOJS_IR_BAILOUT => exists fuel r fn', TurboJS_NativeInvoke fuel sp fn args = Some (TURBOJS_IR_BAILOUT, r, fn')
  | _ => True
  end.
Proof.
  intros Hcomp Hcf Hft Hl64 Hlen Hfn Hsp Hty Hac Hsafe (s&Hgo&Hend).
  destruct (compiled_object _ _ _ _ _ _ _ Hcomp) as (Hacc&_). pose proof (accepted_plain _ _ Hacc Hft Hcf) as Hpl.
  pose proof Hft as [Hr Hlo _ Hcnt _]. destruct Hacc as [Hr64 _ _]. unfold TURBOJS_IR_MAX_REGISTERS in *.
  destruct (pad_full sp f ltac:(lia) ltac:(lia)) as [Hfull Htr].
  destruct (run_truncated hp n1 n2 f args Hpl ltac:(lia) ltac:(lia) _ _ Hfull Hgo) as [Hfs Hgs]. rewrite Htr in Hgs.
  apply goes_next in Hgs. pose proof (ends_stops hp n1 n2 f args Hpl ltac:(lia) ltac:(lia) _ _ Hfs Hend) as Hstop.
  assert (negb (swrap 32 (sp_memory sp (fn_safepoint fn)) =? 0) = false) as Hreq by (by rewrite Hsafe).
  destruct o as [v|st|]; [|destruct st; try done|done]; [|destruct Hstop as [status Hstop]].
  - rewrite <-Hreq in Hgs, Hstop. destruct (compiled_invocation _ _ _ _ _ _ _ _ _ _ _ _ _ _ Hcomp Hcf Hft Hlen Hfn Hsp Hty Hac Hgs Hstop)
      as (_&fuel&st&Hret&Hinv). exists fuel. eexists. rewrite Hinv. destruct (truncated f s) as [[? ?] ?]. destruct Hret as (_&Hv&Hm). cbn in Hm.
    by rewrite Hm, swrap_uwrap_i64.
  - pose proof (stop_status _ _ _ _ _ _ _ _ _ Hstop) as Hst. cbv iota in Hst. rewrite <-Hreq in Hgs, Hstop.
    destruct (compiled_invocation _ _ _ _ _ _ _ _ _ _ _ _ _ _ Hcomp Hcf Hft Hlen Hfn Hsp Hty Hac Hgs Hstop) as (_&fuel&st&_&Hinv).
    exists fuel. do 2 eexists. rewrite Hinv, (proj2 (Z.eqb_neq _ _)) by lia. done.
Qed.


(** ** Examples *)

