(* ===== verification/Helpers.v ===== *)
(** * Runtime helpers and native continuations (src/jit/runtime/helpers)

    Native code that reaches a runtime-helper instruction bails out; the
    resuming interpreter calls the helper through a table and continues,
    entering native code again for the straight-line segment up to the next
    helper or return.  Segments are compiled once and kept, in the Vault when
    one is attached and else in a private cache of 16 entries.

    A callback of the embedder is an address; [callback] gives its effect on
    the embedder's world of type [W].  Machine code is [native_run], the
    compiler behind [TurboJS_BaselineCompile] is [baseline], and [allocate]
    is the address the allocator gives a new function object beside those that
    live.  The vault a table points to is kept in the table. *)

From stdpp Require Import gmap.
From S2P Require Import Prelude.
From S2P Require Import JitTypes.
From S2P Require Import Clutch.
From S2P Require Import IR.
From S2P Require Import IRVerify.
From S2P Require Import IRInterp.
From S2P Require Import Deopt.
From S2P Require Import Vault.

(** ** Data *)

Definition TURBOJS_RUNTIME_HELPER_LIMIT : Z := 256.
Definition TURBOJS_CONTINUATION_CACHE_CAPACITY : nat := 16.

(** A callback address, 0 for NULL, and its opaque argument. *)
Record TurboJSRuntimeHelperEntry := mkHelperEntry { he_callback : Z; he_opaque : Z }.

Record TurboJSContinuationCacheEntry := mkContinuation {
  ce_function_id : Z;
  ce_function_revision : Z;
  ce_start_instruction : Z;
  ce_prologue_count : Z;
  ce_last_use : Z;
  ce_native : option TurboJSNativeFunction
}.

Record TurboJSContinuationCache := mkContinuationCache {
  cc_entries : list TurboJSContinuationCacheEntry;
  cc_clock : Z
}.

(** The [uint64_t] counters of the table. *)
Inductive HelperCounter :=
  | helper_calls | helper_exceptions | missing_helpers | native_continuation_compiles | native_continuation_entries
  | native_continuation_fallbacks | native_continuation_cache_hits | native_continuation_cache_misses
  | native_continuation_cache_evictions.

#[export] Instance HelperCounter_eq_dec : EqDecision HelperCounter.
Proof. solve_decision. Defined.

Record TurboJSRuntimeHelperTable := mkHelperTable {
  ht_entries : list TurboJSRuntimeHelperEntry;
  ht_rooting : TurboJSRootingHooks;
  ht_counters : HelperCounter -> Z;
  ht_cache : option TurboJSContinuationCache;
  ht_vault : option TurboJSCodeCache
}.

Definition ht_set_entries (es : list TurboJSRuntimeHelperEntry) (t : TurboJSRuntimeHelperTable) : TurboJSRuntimeHelperTable :=
  mkHelperTable es (ht_rooting t) (ht_counters t) (ht_cache t) (ht_vault t).
Definition ht_count (k : HelperCounter) (n : Z) (t : TurboJSRuntimeHelperTable) : TurboJSRuntimeHelperTable :=
  mkHelperTable (ht_entries t) (ht_rooting t)
    (fun j => if decide (j = k) then uwrap 64 (ht_counters t j + n) else ht_counters t j) (ht_cache t) (ht_vault t).
Definition ht_set_cache (c : option TurboJSContinuationCache) (t : TurboJSRuntimeHelperTable) : TurboJSRuntimeHelperTable :=
  mkHelperTable (ht_entries t) (ht_rooting t) (ht_counters t) c (ht_vault t).
Definition ht_set_vault (v : option TurboJSCodeCache) (t : TurboJSRuntimeHelperTable) : TurboJSRuntimeHelperTable :=
  mkHelperTable (ht_entries t) (ht_rooting t) (ht_counters t) (ht_cache t) v.

(** ** The table *)

Definition no_helper : TurboJSRuntimeHelperEntry := mkHelperEntry 0 0.
Definition zero_table : TurboJSRuntimeHelperTable :=
  mkHelperTable (replicate (Z.to_nat TURBOJS_RUNTIME_HELPER_LIMIT) no_helper) no_hooks (fun _ => 0) None None.

Definition TurboJS_RuntimeHelperTableInit (rooting : option TurboJSRootingHooks) : TurboJSRuntimeHelperTable :=
  mkHelperTable (ht_entries zero_table) (default no_hooks rooting) (ht_counters zero_table) None None.

Definition TurboJS_RuntimeHelperRegister (helper_id callback opaque : Z) (t : TurboJSRuntimeHelperTable)
    : TurboJSRuntimeHelperTable * TurboJSIRStatus :=
  if (callback =? 0) || (TURBOJS_RUNTIME_HELPER_LIMIT <=? helper_id) then (t, TURBOJS_IR_INVALID_ARGUMENT)
  else (ht_set_entries (<[Z.to_nat helper_id := mkHelperEntry callback opaque]> (ht_entries t)) t, TURBOJS_IR_OK).

Definition TurboJS_RuntimeHelperUnregister (helper_id : Z) (t : TurboJSRuntimeHelperTable) : TurboJSRuntimeHelperTable :=
  if TURBOJS_RUNTIME_HELPER_LIMIT <=? helper_id then t
  else ht_set_entries (<[Z.to_nat helper_id := no_helper]> (ht_entries t)) t.

(** The functions of the private cache are destroyed with it. *)
Definition TurboJS_RuntimeContinuationCacheDestroy (t : TurboJSRuntimeHelperTable) : TurboJSRuntimeHelperTable :=
  ht_set_cache None t.

Definition TurboJS_RuntimeHelperTableDestroy (t : TurboJSRuntimeHelperTable) : TurboJSRuntimeHelperTable := zero_table.

Definition TurboJS_RuntimeHelperContinuationCacheClear (t : TurboJSRuntimeHelperTable) : TurboJSRuntimeHelperTable :=
  TurboJS_RuntimeContinuationCacheDestroy t.

Definition TurboJS_RuntimeHelperAttachContinuationVault (vault : option TurboJSCodeCache) (t : TurboJSRuntimeHelperTable)
    : TurboJSRuntimeHelperTable :=
  ht_set_vault vault (TurboJS_RuntimeContinuationCacheDestroy t).

(** ** Segments *)

Definition is_straight_line_opcode (op : TurboJSIROpcode) : bool :=
  match op with
  | TURBOJS_IR_NOP | TURBOJS_IR_CONSTANT_I64 | TURBOJS_IR_CONSTANT_F64
  | TURBOJS_IR_ADD_I64 | TURBOJS_IR_SUB_I64 | TURBOJS_IR_MUL_I64
  | TURBOJS_IR_ADD_F64 | TURBOJS_IR_SUB_F64 | TURBOJS_IR_MUL_F64 | TURBOJS_IR_DIV_F64
  | TURBOJS_IR_LESS_THAN_F64 | TURBOJS_IR_LESS_EQUAL_F64 | TURBOJS_IR_EQUAL_F64
  | TURBOJS_IR_I64_TO_F64 | TURBOJS_IR_F64_TO_I64_TRUNC
  | TURBOJS_IR_ADD_I32_CHECKED | TURBOJS_IR_SUB_I32_CHECKED | TURBOJS_IR_MUL_I32_CHECKED
  | TURBOJS_IR_DIV_I32_CHECKED | TURBOJS_IR_REM_I32_CHECKED | TURBOJS_IR_LESS_THAN_I64
  | TURBOJS_IR_LOCAL_GET | TURBOJS_IR_LOCAL_SET | TURBOJS_IR_CALL_NATIVE_I64 | TURBOJS_IR_CALL_NATIVE_F64
  | TURBOJS_IR_RUNTIME_HELPER | TURBOJS_IR_RETURN_I64 | TURBOJS_IR_RETURN_F64 => true
  | _ => false
  end.

(** The instructions that end a segment. *)
Definition ends_segment (op : TurboJSIROpcode) : bool :=
  match op with
  | TURBOJS_IR_RUNTIME_HELPER | TURBOJS_IR_RETURN_I64 | TURBOJS_IR_RETURN_F64 => true
  | _ => false
  end.

(** The first loop: the status of a refused segment, or [None]. *)
Fixpoint check_segment (instrs : list TurboJSIRInstruction) : option TurboJSIRStatus :=
  match instrs with
  | [] => Some TURBOJS_IR_MISSING_RETURN
  | i :: instrs =>
      if negb (is_straight_line_opcode (in_opcode i)) then Some TURBOJS_IR_UNSUPPORTED
      else if ends_segment (in_opcode i) then None
      else check_segment instrs
  end.

(** The allocator's answers during one helper call: the boxing of the frame,
    the argument arrays, the private cache, the instructions of a segment and
    the nodes of the Vault; and the next instance id. *)
Record HelperMemory := mkHelperMemory {
  hm_box : nat -> bool;
  hm_arguments : bool;
  hm_cache : bool;
  hm_emit : Z -> bool;
  hm_compiled_arguments : bool;
  hm_nodes : NodeMemory;
  hm_next : Z
}.

(** A function under construction; [inl] is [goto fail]. *)
Definition Building := (TurboJSIRStatus + TurboJSIRFunction)%type.

Notation "'build!' x ':=' c 'in' k" :=
  (match c with inr x => k | inl st => inl st end) (at level 10, x pattern, c at level 100, k at level 200) : jit_scope.

Section Segments.
Context (mem : HelperMemory) (baseline : TurboJSIRFunction -> TurboJSIRStatus * TurboJSNativeFunction).

Definition append (i : TurboJSIRInstruction) (f : TurboJSIRFunction) : Building :=
  match TurboJS_IREmit (hm_emit mem (f_instruction_count f)) f i with
  | (f, TURBOJS_IR_OK) => inr f
  | (_, st) => inl st
  end.

Definition append_register (f : TurboJSIRFunction) : TurboJSIRStatus + (TurboJSIRFunction * Z) :=
  let '(f, r) := TurboJS_IRAllocateRegister f in
  if r =? TURBOJS_IR_NO_REGISTER then inl TURBOJS_IR_OUT_OF_MEMORY else inr (f, r).

(** Register [i] of the source is argument [i]. *)
Fixpoint load_registers (source : TurboJSIRFunction) (count : nat) (i : Z) (f : TurboJSIRFunction) : Building :=
  match count with
  | O => inr f
  | S count =>
      build! (f, _) := append_register f in
      build! f := append (mkInstruction TURBOJS_IR_ARGUMENT i 0 0 i 0 0) f in
      load_registers source count (i + 1)
        (TurboJS_IRFunctionSetRegisterKind f i (TurboJS_IRFunctionRegisterKind source i))
  end.

(** Local [i] of the source arrives in a register of its own and is stored. *)
Fixpoint load_locals (source : TurboJSIRFunction) (count : nat) (i : Z) (f : TurboJSIRFunction) : Building :=
  match count with
  | O => inr f
  | S count =>
      build! (f, temp) := append_register f in
      build! f := append (mkInstruction TURBOJS_IR_ARGUMENT temp 0 0 (f_register_count source + i) 0 0) f in
      build! f := append (mkInstruction TURBOJS_IR_LOCAL_SET 0 temp 0 i 0 0) f in
      let f := TurboJS_IRFunctionSetRegisterKind f temp (TurboJS_IRFunctionLocalKind source i) in
      load_locals source count (i + 1) (TurboJS_IRFunctionSetLocalKind f i (TurboJS_IRFunctionLocalKind source i))
  end.

(** The segment itself; a helper is followed by a return no run reaches. *)
Fixpoint copy_segment (instrs : list TurboJSIRInstruction) (f : TurboJSIRFunction) : Building :=
  match instrs with
  | [] => inr f
  | i :: instrs =>
      build! f := append i f in
      if ends_segment (in_opcode i) then
        if decide (in_opcode i = TURBOJS_IR_RUNTIME_HELPER)
        then append (mkInstruction TURBOJS_IR_RETURN_I64 0 (in_destination i) 0 0 0 (in_bytecode_offset i)) f
        else inr f
      else copy_segment instrs f
  end.

(** The IR of a segment and the length of its prologue. *)
Definition segment_ir (source : TurboJSIRFunction) (start : nat) : TurboJSIRStatus + (TurboJSIRFunction * Z) :=
  let f := (TurboJS_IRFunctionInit (hm_next mem) (uwrap 16 (f_register_count source + f_local_count source))).1 in
  let f := TurboJS_IRFunctionSetLocalCount f (f_local_count source) in
  build! f := load_registers source (Z.to_nat (f_register_count source)) 0 f in
  build! f := load_locals source (Z.to_nat (f_local_count source)) 0 f in
  let prologue := f_instruction_count f in
  build! f := copy_segment (drop start (f_instructions source)) f in
  inr (f, prologue).

(** [memcpy] of the registers and the locals. *)
Definition segment_arguments (source : TurboJSIRFunction) (registers locals : list Z) : list Z :=
  take (Z.to_nat (f_register_count source)) registers ++ take (Z.to_nat (f_local_count source)) locals.

(** The native function, its arguments and the length of the prologue. *)
Definition TurboJS_RuntimeCompileContinuationSegment (source : TurboJSIRFunction) (start : nat) (registers locals : list Z)
    : TurboJSIRStatus + (TurboJSNativeFunction * list Z * Z) :=
  if f_instruction_count source <=? Z.of_nat start then inl TURBOJS_IR_INVALID_ARGUMENT
  else if TURBOJS_IR_MAX_REGISTERS <? f_register_count source + f_local_count source then inl TURBOJS_IR_UNSUPPORTED
  else match check_segment (drop start (f_instructions source)) with
  | Some st => inl st
  | None =>
      build! (ir, prologue) := segment_ir source start in
      if negb (hm_compiled_arguments mem) then inl TURBOJS_IR_OUT_OF_MEMORY
      else match baseline ir with
           | (TURBOJS_IR_OK, n) => inr (n, segment_arguments source registers locals, prologue)
           | (st, _) => inl st
           end
  end.
End Segments.

(** ** The private cache *)

Definition no_continuation : TurboJSContinuationCacheEntry := mkContinuation 0 0 0 0 0 None.

Definition is_cached (id revision start : Z) (e : TurboJSContinuationCacheEntry) : bool :=
  bool_decide (is_Some (ce_native e)) && (ce_function_id e =? id) && (ce_function_revision e =? revision)
  && (ce_start_instruction e =? start).

(** The search loop: the slot of the segment, or the slot to replace. *)
Fixpoint search_cache (id revision start : Z) (i : nat) (victim : option (nat * TurboJSContinuationCacheEntry))
    (es : list TurboJSContinuationCacheEntry)
    : (nat * TurboJSContinuationCacheEntry) + option (nat * TurboJSContinuationCacheEntry) :=
  match es with
  | [] => inr victim
  | e :: es =>
      if is_cached id revision start e then inl (i, e)
      else
        let replace := match victim with
                       | None => true
                       | Some (_, v) => bool_decide (ce_native e = None) || (ce_last_use e <? ce_last_use v)
                       end in
        search_cache id revision start (S i) (if replace then Some (i, e) else victim) es
  end.

Definition get_cache (mem : HelperMemory) (t : TurboJSRuntimeHelperTable) : option TurboJSContinuationCache :=
  match ht_cache t with
  | Some c => Some c
  | None => if hm_cache mem then Some (mkContinuationCache (replicate TURBOJS_CONTINUATION_CACHE_CAPACITY no_continuation) 0) else None
  end.

(** ** Calling helpers *)

Definition boxed_result_to_i64 (b : TurboJSBoxedValue) : TurboJSIRStatus + Z :=
  match bx_tag b with
  | TURBOJS_BOXED_INT32 | TURBOJS_BOXED_INT64 | TURBOJS_BOXED_BOOLEAN => inr (bx_as b)
  | _ => inl TURBOJS_IR_UNSUPPORTED
  end.

Definition TurboJS_RuntimeHelperMaterializedMask (count : Z) : Z :=
  if 64 <=? count then UINT64_MAX else if count =? 0 then 0 else Z.shiftl 1 count - 1.

(** [registers[i] = values[i]] for every [i] below [count] the mask names. *)
Definition restore_values (count mask : Z) (values registers : list Z) : list Z :=
  imap (fun i v => if (Z.of_nat i <? count) && Z.testbit mask (Z.of_nat i) then default 0 (values !! i) else v) registers.

(** [calloc(count ? count : 1)] *)
Definition zeroed (count : Z) : list Z := replicate (Z.to_nat (if count =? 0 then 1 else count)) 0.

(** What the code acts on: the table, the embedder's world, the hook calls. *)
Record HelperState (W : Type) := mkHelperState {
  hs_table : TurboJSRuntimeHelperTable;
  hs_world : W;
  hs_roots : list RootEvent
}.
Arguments mkHelperState {W}.
Arguments hs_table {W}.
Arguments hs_world {W}.
Arguments hs_roots {W}.

Definition hs_update {W} (u : TurboJSRuntimeHelperTable -> TurboJSRuntimeHelperTable) (s : HelperState W) : HelperState W :=
  mkHelperState (u (hs_table s)) (hs_world s) (hs_roots s).
Definition hs_log {W} (events : list RootEvent) (s : HelperState W) : HelperState W :=
  mkHelperState (hs_table s) (hs_world s) (hs_roots s ++ events).
Definition hs_set_world {W} (w : W) (s : HelperState W) : HelperState W := mkHelperState (hs_table s) w (hs_roots s).

(** How a segment ends: a result, or a status with the state to go on from. *)
Inductive SegmentEnd :=
  | SegmentResult (r : Z)
  | SegmentStatus (st : TurboJSIRStatus) (registers locals : list Z) (pc : nat).

Section Runtime.
Context {W : Type}
  (callback : Z -> Z -> W -> TurboJSBoxedDeoptFrame -> TurboJSIRInstruction -> W * TurboJSIRStatus * TurboJSBoxedValue).
Context (hp : Heap) (native_i64 : Z -> list Z -> TurboJSIRStatus * Z).
Context (native_run : TurboJSNativeFunction -> list Z -> TurboJSIRStatus * Z * TurboJSDeoptFrame).
Context (baseline : TurboJSIRFunction -> TurboJSIRStatus * TurboJSNativeFunction).
Context (allocate : gmap Z TurboJSNativeFunction -> Z).

(** The frame a helper sees: every register and local is materialized. *)
Definition helper_frame (function : TurboJSIRFunction) (pc : nat) (i : TurboJSIRInstruction) (registers locals : list Z)
    (register_kinds local_kinds : list TurboJSValueKind) : TurboJSDeoptFrame :=
  let rmask := TurboJS_RuntimeHelperMaterializedMask (f_register_count function) in
  let lmask := TurboJS_RuntimeHelperMaterializedMask (f_local_count function) in
  mkDeoptFrame (mkBailoutInfo TURBOJS_BAILOUT_RUNTIME_HELPER (uwrap 32 (Z.of_nat pc)) (in_bytecode_offset i))
    (f_register_count function) (f_local_count function) 0 rmask lmask rmask lmask registers locals register_kinds local_kinds.

Definition TurboJS_RuntimeHelperInvokeAt (mem : HelperMemory) (function : TurboJSIRFunction) (pc : nat)
    (registers locals : list Z) (register_kinds local_kinds : list TurboJSValueKind) (s : HelperState W)
    : HelperState W * (TurboJSIRStatus + Z) :=
  match f_instructions function !! pc with
  | None => (s, inl TURBOJS_IR_INVALID_ARGUMENT)
  | Some i =>
      if negb (bool_decide (in_opcode i = TURBOJS_IR_RUNTIME_HELPER)) || (in_immediate i <? 0)
         || (TURBOJS_RUNTIME_HELPER_LIMIT <=? in_immediate i)
      then (s, inl TURBOJS_IR_INVALID_ARGUMENT)
      else
        let entry := default no_helper (ht_entries (hs_table s) !! Z.to_nat (uwrap 16 (in_immediate i))) in
        if he_callback entry =? 0 then (hs_update (ht_count missing_helpers 1) s, inl TURBOJS_IR_UNSUPPORTED)
        else
          match TurboJS_BoxDeoptFrameRooted (hm_box mem) (helper_frame function pc i registers locals register_kinds local_kinds)
                  (Some (ht_rooting (hs_table s))) with
          | (TURBOJS_IR_OK, Some boxed, retained) =>
              let s := hs_update (ht_count helper_calls 1) (hs_log retained s) in
              let '(w, st, boxed_result) := callback (he_callback entry) (he_opaque entry) (hs_world s) boxed i in
              let s := hs_set_world w s in
              let s := if decide (st = TURBOJS_IR_EXCEPTION) then hs_update (ht_count helper_exceptions 1) s else s in
              let r := match st with TURBOJS_IR_OK => boxed_result_to_i64 boxed_result | st => inl st end in
              (hs_log (TurboJS_BoxedDeoptFrameDestroy boxed) s, r)
          | (st, _, events) => (hs_log events s, inl st)
          end
  end.

(** ** Acquiring a segment *)

Definition count_compiled (t : TurboJSRuntimeHelperTable) : TurboJSRuntimeHelperTable :=
  ht_count native_continuation_compiles 1 (ht_count native_continuation_cache_misses 1 t).

(** The branch with a vault; [None]: a dangling function pointer. *)
Definition acquire_from_vault (mem : HelperMemory) (source : TurboJSIRFunction) (start : nat) (registers locals : list Z)
    (vault : TurboJSCodeCache) (t : TurboJSRuntimeHelperTable)
    : option (TurboJSRuntimeHelperTable * (TurboJSIRStatus + (TurboJSNativeFunction * Z))) :=
  let id := f_instance_id source in
  let revision := f_revision source in
  match TurboJS_CodeCacheLookupContinuation id revision (Z.of_nat start) vault with
  | (vault, Some (f, prologue)) =>
      let? n := v_natives vault !! f in
      Some (ht_count native_continuation_cache_hits 1 (ht_set_vault (Some vault) t), inr (n, prologue))
  | (vault, None) =>
      match TurboJS_RuntimeCompileContinuationSegment mem baseline source start registers locals with
      | inl st => Some (ht_set_vault (Some vault) t, inl st)
      | inr (n, _, prologue) =>
          let t := count_compiled t in
          let f := allocate (v_natives vault) in
          let before := c_set_natives (<[f := n]> (v_natives vault)) vault in
          match TurboJS_CodeCacheStoreContinuation (hm_nodes mem) id revision (Z.of_nat start) prologue f before with
          | (after, TURBOJS_IR_OK, Some f) =>
              let t := ht_count native_continuation_cache_evictions
                         (c_stats after continuation_evictions - c_stats before continuation_evictions) t in
              let? n := v_natives after !! f in
              Some (ht_set_vault (Some after) t, inr (n, prologue))
          | (after, st, _) => Some (ht_set_vault (Some after) t, inl st)
          end
      end
  end.

(** The branch without; [None]: no victim. *)
Definition acquire_from_cache (mem : HelperMemory) (source : TurboJSIRFunction) (start : nat) (registers locals : list Z)
    (t : TurboJSRuntimeHelperTable)
    : option (TurboJSRuntimeHelperTable * (TurboJSIRStatus + (TurboJSNativeFunction * Z))) :=
  match get_cache mem t with
  | None => Some (t, inl TURBOJS_IR_OUT_OF_MEMORY)
  | Some c =>
      let clock := uwrap 64 (cc_clock c + 1) in
      let keep es := ht_set_cache (Some (mkContinuationCache es clock)) t in
      let id := f_instance_id source in
      let revision := f_revision source in
      match search_cache id revision (Z.of_nat start) 0 None (cc_entries c) with
      | inl (i, e) =>
          let? n := ce_native e in
          let es := <[i := mkContinuation (ce_function_id e) (ce_function_revision e) (ce_start_instruction e)
                             (ce_prologue_count e) clock (ce_native e)]> (cc_entries c) in
          Some (ht_count native_continuation_cache_hits 1 (keep es), inr (n, ce_prologue_count e))
      | inr victim =>
          match TurboJS_RuntimeCompileContinuationSegment mem baseline source start registers locals with
          | inl st => Some (keep (cc_entries c), inl st)
          | inr (n, _, prologue) =>
              let? (i, v) := victim in
              let es := <[i := mkContinuation id revision (Z.of_nat start) prologue clock (Some n)]> (cc_entries c) in
              let t := count_compiled (keep es) in
              let t := if decide (ce_native v = None) then t else ht_count native_continuation_cache_evictions 1 t in
              Some (t, inr (n, prologue))
          end
      end
  end.

(** The native function, the arguments and the length of the prologue. *)
Definition TurboJS_RuntimeContinuationCacheAcquire (mem : HelperMemory) (source : TurboJSIRFunction) (start : nat)
    (registers locals : list Z) (t : TurboJSRuntimeHelperTable)
    : option (TurboJSRuntimeHelperTable * (TurboJSIRStatus + (TurboJSNativeFunction * Z * list Z))) :=
  if negb (hm_arguments mem) then Some (t, inl TURBOJS_IR_OUT_OF_MEMORY)
  else
    let? (t, r) := match ht_vault t with
                   | Some vault => acquire_from_vault mem source start registers locals vault t
                   | None => acquire_from_cache mem source start registers locals t
                   end in
    match r with
    | inl st => Some (t, inl st)
    | inr (n, prologue) => Some (t, inr (n, prologue, segment_arguments source registers locals))
    end.

(** ** Resuming *)

Definition try_native_continuation_segment (mem : HelperMemory) (function : TurboJSIRFunction) (pc : nat)
    (registers locals : list Z) (s : HelperState W) : option (HelperState W * SegmentEnd) :=
  let? (t, r) := TurboJS_RuntimeContinuationCacheAcquire mem function pc registers locals (hs_table s) in
  let s := hs_update (fun _ => t) s in
  match r with
  | inl _ => Some (hs_update (ht_count native_continuation_fallbacks 1) s, SegmentStatus TURBOJS_IR_UNSUPPORTED registers locals pc)
  | inr (n, prologue, arguments) =>
      let '(st, segment_result, frame) := native_run n arguments in
      let s := hs_update (ht_count native_continuation_entries 1) s in
      match st with
      | TURBOJS_IR_OK => Some (s, SegmentResult segment_result)
      | TURBOJS_IR_BAILOUT =>
          let index := bo_instruction_index (df_bailout frame) in
          if bool_decide (bo_reason (df_bailout frame) = TURBOJS_BAILOUT_RUNTIME_HELPER) && (prologue <=? index) then
            let source_offset := index - prologue in
            if Z.of_nat pc + source_offset <? f_instruction_count function then
              Some (s, SegmentStatus TURBOJS_IR_BAILOUT
                         (restore_values (f_register_count function) (df_materialized_register_mask frame) (df_register_values frame) registers)
                         (restore_values (f_local_count function) (df_materialized_local_mask frame) (df_local_values frame) locals)
                         (Z.to_nat (Z.of_nat pc + source_offset)))
            else Some (s, SegmentStatus TURBOJS_IR_INVALID_TARGET registers locals pc)
          else Some (s, SegmentStatus TURBOJS_IR_BAILOUT registers locals pc)
      | st => Some (s, SegmentStatus st registers locals pc)
      end
  end.

(** [registers[source]] for every source; [None] outside the array. *)
Definition clutch_arguments (registers : list Z) (sources : list Z) : option (list Z) :=
  mapM (fun r : Z => registers !! Z.to_nat r) sources.

Definition execute_clutch_call (i : TurboJSIRInstruction) (registers locals : list Z) (pc : nat) : StepOut :=
  if in_immediate i =? 0 then Halt (Stop TURBOJS_IR_BAILOUT)
  else match hp_site hp (in_immediate i) with
  | None => Halt (Undef UB_memory)
  | Some site =>
      if TURBOJS_CLUTCH_MAX_ARGUMENTS <? cs_argument_count site then Halt (Stop TURBOJS_IR_BAILOUT)
      else match clutch_arguments registers (take (Z.to_nat (cs_argument_count site)) (cs_argument_registers site)) with
      | None => Halt (Undef UB_memory)
      | Some arguments =>
          match TurboJS_ClutchCallSiteInvokeI64 native_i64 (hp_handle hp) site arguments with
          | (TURBOJS_IR_OK, Some v) => wr registers (in_destination i) v (fun registers => Next registers locals (S pc))
          | (TURBOJS_IR_OK, None) => Next registers locals (S pc)
          | (st, _) => Halt (Stop st)
          end
      end
  end.

(** The cases of the [switch] but the helper call. *)
Definition resume_step (i : TurboJSIRInstruction) (registers locals : list Z) (pc : nat) : StepOut :=
  let set v := wr registers (in_destination i) v (fun registers => Next registers locals (S pc)) in
  let binary (k : Z -> Z -> StepOut) := rd registers (in_left i) (fun l => rd registers (in_right i) (fun r => k l r)) in
  match in_opcode i with
  | TURBOJS_IR_NOP => Next registers locals (S pc)
  | TURBOJS_IR_CONSTANT_I64 | TURBOJS_IR_CONSTANT_F64 => set (in_immediate i)
  | TURBOJS_IR_ADD_I64 => binary (fun l r => arith (c_i64 (l + r)) set)
  | TURBOJS_IR_SUB_I64 => binary (fun l r => arith (c_i64 (l - r)) set)
  | TURBOJS_IR_MUL_I64 => binary (fun l r => arith (c_i64 (l * r)) set)
  | TURBOJS_IR_LESS_THAN_I64 => binary (fun l r => set (b2z (l <? r)))
  | TURBOJS_IR_LOCAL_GET => rd locals (in_immediate i) set
  | TURBOJS_IR_LOCAL_SET =>
      rd registers (in_left i) (fun v => wr locals (in_immediate i) v (fun locals => Next registers locals (S pc)))
  | TURBOJS_IR_JUMP => Next registers locals (Z.to_nat (in_target i))
  | TURBOJS_IR_BRANCH_TRUE =>
      rd registers (in_left i) (fun v => Next registers locals (if v =? 0 then S pc else Z.to_nat (in_target i)))
  | TURBOJS_IR_BRANCH_FALSE =>
      rd registers (in_left i) (fun v => Next registers locals (if v =? 0 then Z.to_nat (in_target i) else S pc))
  | TURBOJS_IR_CALL_NATIVE_I64 => execute_clutch_call i registers locals pc
  | TURBOJS_IR_RETURN_I64 | TURBOJS_IR_RETURN_F64 => rd registers (in_left i) (fun v => Halt (Result v))
  | _ => Halt (Stop TURBOJS_IR_UNSUPPORTED)
  end.

(** The [while] loop; [mem call] gives the allocator's answers during the
    [call]-th helper call. *)
Fixpoint resume_loop (fuel : nat) (mem : nat -> HelperMemory) (function : TurboJSIRFunction)
    (register_kinds local_kinds : list TurboJSValueKind) (registers locals : list Z) (pc call : nat) (s : HelperState W)
    : HelperState W * Outcome :=
  match f_instructions function !! pc with
  | None => (s, Stop TURBOJS_IR_MISSING_RETURN)
  | Some i =>
      match fuel with
      | O => (s, Stop TURBOJS_IR_EXECUTION_LIMIT)
      | S fuel =>
          let continue registers locals pc call s :=
            resume_loop fuel mem function register_kinds local_kinds registers locals pc call s in
          if decide (in_opcode i = TURBOJS_IR_RUNTIME_HELPER) then
            match TurboJS_RuntimeHelperInvokeAt (mem call) function pc registers locals register_kinds local_kinds s with
            | (s, inl st) => (s, Stop st)
            | (s, inr helper_value) =>
                if (Z.to_nat (in_destination i) <? length registers)%nat then
                  let registers := <[Z.to_nat (in_destination i) := helper_value]> registers in
                  match try_native_continuation_segment (mem call) function (S pc) registers locals s with
                  | None => (s, Undef UB_memory)
                  | Some (s, SegmentResult r) => (s, Result r)
                  | Some (s, SegmentStatus (TURBOJS_IR_UNSUPPORTED | TURBOJS_IR_BAILOUT) registers locals pc) =>
                      continue registers locals pc (S call) s
                  | Some (s, SegmentStatus st _ _ _) => (s, Stop st)
                  end
                else (s, Undef UB_memory)
            end
          else match resume_step i registers locals pc with
               | Halt o => (s, o)
               | Next registers locals pc => continue registers locals pc call s
               end
      end
  end.

(** [mem1], [mem2] answer the two [calloc]s. *)
Definition TurboJS_IRResumeWithRuntimeHelpers (mem1 mem2 : bool) (mem : nat -> HelperMemory) (function : TurboJSIRFunction)
    (native_frame : TurboJSDeoptFrame) (s : HelperState W) : HelperState W * Outcome :=
  let index := bo_instruction_index (df_bailout native_frame) in
  if negb (bool_decide (bo_reason (df_bailout native_frame) = TURBOJS_BAILOUT_RUNTIME_HELPER))
     || (f_instruction_count function <=? index) || negb (df_register_count native_frame =? f_register_count function)
     || negb (df_local_count native_frame =? f_local_count function)
  then (s, Stop TURBOJS_IR_INVALID_ARGUMENT)
  else match TurboJS_IRVerify hp function with
  | None => (s, Undef UB_memory)
  | Some d =>
      if negb (bool_decide (dg_status d = TURBOJS_IR_OK)) then (s, Stop TURBOJS_IR_INVALID_ARGUMENT)
      else if negb mem1 || negb mem2 then (s, Stop TURBOJS_IR_OUT_OF_MEMORY)
      else if 64 <? f_local_count function then (s, Undef UB_arithmetic)   (* UINT64_C(1) << 64 *)
      else
        resume_loop (step_limit function) mem function (df_register_kinds native_frame) (df_local_kinds native_frame)
          (restore_values (f_register_count function) (df_materialized_register_mask native_frame) (df_register_values native_frame)
             (zeroed (f_register_count function)))
          (restore_values (f_local_count function) (df_materialized_local_mask native_frame) (df_local_values native_frame)
             (zeroed (f_local_count function)))
          (Z.to_nat index) 0 s
  end.

Definition TurboJS_NativeInvokeWithRuntime (mem1 mem2 : bool) (mem : nat -> HelperMemory) (native_function : TurboJSNativeFunction)
    (function : TurboJSIRFunction) (arguments : list Z) (s : HelperState W) : HelperState W * Outcome :=
  let '(st, r, native_frame) := native_run native_function arguments in
  match st with
  | TURBOJS_IR_OK => (s, Result r)
  | TURBOJS_IR_BAILOUT =>
      if decide (bo_reason (df_bailout native_frame) = TURBOJS_BAILOUT_RUNTIME_HELPER)
      then TurboJS_IRResumeWithRuntimeHelpers mem1 mem2 mem function native_frame s
      else (s, Stop TURBOJS_IR_BAILOUT)
  | st => (s, Stop st)
  end.
End Runtime.
