(* ===== verification/Tiered.v ===== *)
(** * Tiered execution (src/jit/runtime/tiered_execution.c)

    A tiered function starts in the interpreter, is compiled by the baseline
    compiler into the Vault after a number of calls, and by the optimizing
    pipeline once its feedback is stable.  [TurboJS_TieredInvoke] composes the
    interpreter, the feedback vector, the pipeline and the Vault.

    Running machine code is the interface [NativeCode]; what its compiler owes
    its clients is [SoundBaseline], what the callable specializer owes them is
    [SoundSpecializer]. *)

From stdpp Require Import gmap.
From S2P Require Import Prelude.
From S2P Require Import JitTypes.
From S2P Require Import Clutch.
From S2P Require Import IR.
From S2P Require Import IRVerify.
From S2P Require Import IRInterp.
From S2P Require Import CallableSpecialize.
From S2P Require Import Feedback.
From S2P Require Import SSA.
From S2P Require Import SSADom.
From S2P Require Import SSAOpt.
From S2P Require Import SSABuild.
From S2P Require Import Pipeline.
From S2P Require Import Vault.
From S2P Require Import VaultTable.
From S2P Require Import VaultInv.
From S2P Require Import VaultOps.
From S2P Require Import VaultStore.
From S2P Require Import VaultRefine.
From S2P Require Import VaultCode.
From S2P Require Import EngineEmit.
From S2P Require Import BaselineCorrect.
From S2P Require Import BaselineLive.
From S2P Require Import PipelineNative.

(** ** Data *)

Inductive TurboJSTieredResult :=
  | TURBOJS_TIERED_INTERPRETED
  | TURBOJS_TIERED_BASELINE_COMPILED
  | TURBOJS_TIERED_BASELINE_NATIVE
  | TURBOJS_TIERED_OPTIMIZED_COMPILED
  | TURBOJS_TIERED_OPTIMIZED_NATIVE.

Record TurboJSTieredStats := mkTieredStats {
  interpreted_calls : Z;
  baseline_calls : Z;
  optimized_calls : Z;
  baseline_compilations : Z;
  optimized_compilations : Z;
  optimized_invalidations : Z
}.

(** The optimized function comes with its native object. *)
Record TurboJSTieredFunction := mkTiered {
  tf_cache_key : Z;
  tf_call_count : Z;
  tf_compile_threshold : Z;
  tf_optimization_threshold : Z;
  tf_compilation_attempted : bool;
  tf_optimization_attempted : bool;
  tf_feedback : TurboJSFeedbackVector;
  tf_optimization_policy : TurboJSOptimizationPolicy;
  tf_optimized : option (TurboJSOptimizedFunction * TurboJSNativeFunction);
  tf_stats : TurboJSTieredStats
}.

Definition zero_stats : TurboJSTieredStats := mkTieredStats 0 0 0 0 0 0.

Definition count_interpreted (s : TurboJSTieredStats) : TurboJSTieredStats :=
  mkTieredStats (uwrap 64 (interpreted_calls s + 1)) (baseline_calls s) (optimized_calls s) (baseline_compilations s)
    (optimized_compilations s) (optimized_invalidations s).
Definition count_baseline (s : TurboJSTieredStats) : TurboJSTieredStats :=
  mkTieredStats (interpreted_calls s) (uwrap 64 (baseline_calls s + 1)) (optimized_calls s) (baseline_compilations s)
    (optimized_compilations s) (optimized_invalidations s).
Definition count_optimized (s : TurboJSTieredStats) : TurboJSTieredStats :=
  mkTieredStats (interpreted_calls s) (baseline_calls s) (uwrap 64 (optimized_calls s + 1)) (baseline_compilations s)
    (optimized_compilations s) (optimized_invalidations s).
Definition count_baseline_compilation (s : TurboJSTieredStats) : TurboJSTieredStats :=
  mkTieredStats (interpreted_calls s) (baseline_calls s) (optimized_calls s) (uwrap 64 (baseline_compilations s + 1))
    (optimized_compilations s) (optimized_invalidations s).
Definition count_optimized_compilation (s : TurboJSTieredStats) : TurboJSTieredStats :=
  mkTieredStats (interpreted_calls s) (baseline_calls s) (optimized_calls s) (baseline_compilations s)
    (uwrap 64 (optimized_compilations s + 1)) (optimized_invalidations s).
Definition count_invalidation (s : TurboJSTieredStats) : TurboJSTieredStats :=
  mkTieredStats (interpreted_calls s) (baseline_calls s) (optimized_calls s) (baseline_compilations s)
    (optimized_compilations s) (uwrap 64 (optimized_invalidations s + 1)).

Definition tf_set_feedback (v : TurboJSFeedbackVector) (t : TurboJSTieredFunction) : TurboJSTieredFunction :=
  mkTiered (tf_cache_key t) (tf_call_count t) (tf_compile_threshold t) (tf_optimization_threshold t)
    (tf_compilation_attempted t) (tf_optimization_attempted t) v (tf_optimization_policy t) (tf_optimized t) (tf_stats t).
Definition tf_set_calls (n : Z) (t : TurboJSTieredFunction) : TurboJSTieredFunction :=
  mkTiered (tf_cache_key t) n (tf_compile_threshold t) (tf_optimization_threshold t)
    (tf_compilation_attempted t) (tf_optimization_attempted t) (tf_feedback t) (tf_optimization_policy t) (tf_optimized t) (tf_stats t).
Definition tf_set_attempts (compilation optimization : bool) (t : TurboJSTieredFunction) : TurboJSTieredFunction :=
  mkTiered (tf_cache_key t) (tf_call_count t) (tf_compile_threshold t) (tf_optimization_threshold t)
    compilation optimization (tf_feedback t) (tf_optimization_policy t) (tf_optimized t) (tf_stats t).
Definition tf_set_optimized (o : option (TurboJSOptimizedFunction * TurboJSNativeFunction)) (t : TurboJSTieredFunction)
    : TurboJSTieredFunction :=
  mkTiered (tf_cache_key t) (tf_call_count t) (tf_compile_threshold t) (tf_optimization_threshold t)
    (tf_compilation_attempted t) (tf_optimization_attempted t) (tf_feedback t) (tf_optimization_policy t) o (tf_stats t).
Definition tf_count (f : TurboJSTieredStats -> TurboJSTieredStats) (t : TurboJSTieredFunction) : TurboJSTieredFunction :=
  mkTiered (tf_cache_key t) (tf_call_count t) (tf_compile_threshold t) (tf_optimization_threshold t)
    (tf_compilation_attempted t) (tf_optimization_attempted t) (tf_feedback t) (tf_optimization_policy t) (tf_optimized t)
    (f (tf_stats t)).

(** ** Construction and destruction *)

Definition default_opt_threshold (baseline : Z) : Z :=
  let threshold := if UINT32_MAX / 4 <? baseline then UINT32_MAX else if negb (baseline =? 0) then baseline * 4 else 1000 in
  if threshold <? 1000 then 1000 else threshold.

Definition policy_set_minimum (n : Z) (p : TurboJSOptimizationPolicy) : TurboJSOptimizationPolicy :=
  mkPolicy n (maximum_bailouts p) (maximum_exceptions p) (require_stable_arguments p) (require_stable_result p).

Definition TurboJS_TieredFunctionInitAdvanced (cache_key baseline_threshold optimization_threshold : Z)
    (policy : option TurboJSOptimizationPolicy) : TurboJSTieredFunction :=
  let compile_threshold := if negb (baseline_threshold =? 0) then baseline_threshold else 100 in
  let optimization_threshold :=
    if negb (optimization_threshold =? 0) then optimization_threshold else default_opt_threshold compile_threshold in
  let policy := match policy with Some p => p | None => TurboJS_OptimizationPolicyDefault end in
  mkTiered cache_key 0 compile_threshold optimization_threshold false false (TurboJS_FeedbackVectorInit 0)
    (policy_set_minimum optimization_threshold policy) None zero_stats.

Definition TurboJS_TieredFunctionInit (cache_key compile_threshold : Z) : TurboJSTieredFunction :=
  TurboJS_TieredFunctionInitAdvanced cache_key compile_threshold 0 None.

Definition TurboJS_TieredFunctionInvalidateOptimized (t : TurboJSTieredFunction) : TurboJSTieredFunction :=
  match tf_optimized t with
  | None => t
  | Some _ => tf_count count_invalidation (tf_set_optimized None t)
  end.

Definition zero_policy : TurboJSOptimizationPolicy := mkPolicy 0 0 0 false false.
Definition zero_vector : TurboJSFeedbackVector :=
  mkVector (replicate (Z.to_nat TURBOJS_FEEDBACK_MAX_ARGUMENTS) empty_slot) empty_slot 0 0 0 0.

Definition TurboJS_TieredFunctionDestroy (t : TurboJSTieredFunction) : TurboJSTieredFunction :=
  mkTiered 0 0 0 0 false false zero_vector zero_policy None zero_stats.

Definition TurboJS_TieredFunctionGetStats (t : option TurboJSTieredFunction) : TurboJSTieredStats :=
  match t with Some t => tf_stats t | None => zero_stats end.

(** ** Running native code *)

(** [TurboJS_NativeInvoke]: the status, and the result with OK. *)
Class NativeCode := native_invoke : TurboJSNativeFunction -> list Z -> TurboJSIRStatus * Z.

(** What a call meets: allocator answers, the compiler and the specializer. *)
Record TieredCall := mkCall {
  tc_fuel : nat;
  tc_memory : CompileMemory;
  tc_next : Z;
  tc_nodes : NodeMemory;
  tc_baseline : TurboJSIRFunction -> TurboJSIRStatus * (Z * TurboJSNativeFunction);
  tc_specialize : TurboJSIRFunction -> option TurboJSIRFunction
}.

Record Invocation := mkInvocation {
  iv_function : TurboJSTieredFunction;
  iv_cache : TurboJSCodeCache;
  iv_status : TurboJSIRStatus;
  iv_result : option Z;
  iv_route : option TurboJSTieredResult
}.

(** The stages of [TurboJS_TieredInvoke]: a [return], or going on. *)
Inductive Stage :=
  | Done (i : Invocation)
  | Onward (t : TurboJSTieredFunction) (c : TurboJSCodeCache)
  | Fallback (t : TurboJSTieredFunction) (c : TurboJSCodeCache).

Section Invoke.
Context (hp : Heap) (native_i64 native_f64 : Z -> list Z -> TurboJSIRStatus * Z) `{NativeCode}.

Definition observe_success (r : Z) (t : TurboJSTieredFunction) : TurboJSTieredFunction :=
  tf_set_feedback (TurboJS_FeedbackObserveResult (tf_feedback t) r) t.
Definition observe_exception (t : TurboJSTieredFunction) : TurboJSTieredFunction :=
  tf_set_feedback (TurboJS_FeedbackObserveException (tf_feedback t)) t.
Definition observe_bailout (t : TurboJSTieredFunction) : TurboJSTieredFunction :=
  tf_set_feedback (TurboJS_FeedbackObserveBailout (tf_feedback t)) t.

(** [None]: the interpreter's behaviour is undefined. *)
Definition fallback_interpreter (ir : TurboJSIRFunction) (arguments : list Z) (t : TurboJSTieredFunction)
    (c : TurboJSCodeCache) : option Invocation :=
  match TurboJS_IRExecute hp native_i64 native_f64 ir arguments with
  | Result r =>
      Some (mkInvocation (tf_count count_interpreted (observe_success r t)) c TURBOJS_IR_OK (Some r)
              (Some TURBOJS_TIERED_INTERPRETED))
  | Stop TURBOJS_IR_EXCEPTION => Some (mkInvocation (observe_exception t) c TURBOJS_IR_EXCEPTION None None)
  | Stop st => Some (mkInvocation t c st None None)
  | Undef _ => None
  end.

(** [TurboJS_OptimizedInvoke] and what follows it. *)
Definition run_optimized (route : TurboJSTieredResult) (n : TurboJSNativeFunction) (arguments : list Z)
    (t : TurboJSTieredFunction) (c : TurboJSCodeCache) : Stage :=
  match native_invoke n arguments with
  | (TURBOJS_IR_OK, r) => Done (mkInvocation (tf_count count_optimized (observe_success r t)) c TURBOJS_IR_OK (Some r) (Some route))
  | (TURBOJS_IR_EXCEPTION, _) => Done (mkInvocation (observe_exception t) c TURBOJS_IR_EXCEPTION None None)
  | _ => Onward (TurboJS_TieredFunctionInvalidateOptimized (observe_bailout t)) c
  end.

Definition run_baseline (route : TurboJSTieredResult) (n : TurboJSNativeFunction) (arguments : list Z)
    (t : TurboJSTieredFunction) (c : TurboJSCodeCache) : Stage :=
  match native_invoke n arguments with
  | (TURBOJS_IR_OK, r) => Done (mkInvocation (tf_count count_baseline (observe_success r t)) c TURBOJS_IR_OK (Some r) (Some route))
  | (TURBOJS_IR_BAILOUT, _) => Fallback (observe_bailout t) c
  | (TURBOJS_IR_EXCEPTION, _) => Done (mkInvocation (observe_exception t) c TURBOJS_IR_EXCEPTION None None)
  | (st, _) => Done (mkInvocation t c st None None)
  end.

(** Lines 97 to 100: counters and feedback of the call. *)
Definition enter (arguments : list Z) (t : TurboJSTieredFunction) : TurboJSTieredFunction :=
  let t := tf_set_calls (sat_incr UINT32_MAX (tf_call_count t)) t in
  let v := if fv_argument_count (tf_feedback t) =? 0
           then TurboJS_FeedbackVectorInit (uwrap 16 (Z.of_nat (length arguments))) else tf_feedback t in
  tf_set_feedback (TurboJS_FeedbackObserveCall v (Some arguments)) t.

(** Lines 102 to 116. *)
Definition try_optimized (arguments : list Z) (t : TurboJSTieredFunction) (c : TurboJSCodeCache) : Stage :=
  match tf_optimized t with
  | Some (_, n) => run_optimized TURBOJS_TIERED_OPTIMIZED_NATIVE n arguments t c
  | None => Onward t c
  end.

(** Lines 118 to 142; [None]: the pipeline's behaviour is undefined. *)
Definition try_optimize (call : TieredCall) (ir : TurboJSIRFunction) (arguments : list Z) (t : TurboJSTieredFunction)
    (c : TurboJSCodeCache) : option Stage :=
  let report := TurboJS_EvaluateOptimization (Some (tf_feedback t)) (Some (tf_optimization_policy t)) in
  if negb (tf_optimization_attempted t) && bool_decide (rp_decision report = TURBOJS_OPTIMIZATION_ELIGIBLE) then
    let t := tf_set_attempts (tf_compilation_attempted t) true t in
    let? (st, o) := TurboJS_OptimizingCompile hp (fun ir => (tc_baseline call ir).1) (tc_fuel call) (tc_memory call)
                      (tc_next call) ir (Some (tf_feedback t)) in
    match st, o with
    | TURBOJS_IR_OK, Some o =>
        let n := (tc_baseline call (of_lowered o)).2.2 in
        let t := tf_count count_optimized_compilation (tf_set_optimized (Some (o, n)) t) in
        Some (run_optimized TURBOJS_TIERED_OPTIMIZED_COMPILED n arguments t c)
    | TURBOJS_IR_UNSUPPORTED, _ => Some (Onward t c)
    | st, _ => Some (Done (mkInvocation t c st None None))
    end
  else Some (Onward t c).

(** Lines 144 to 161; [None]: a dangling function pointer. *)
Definition try_baseline (arguments : list Z) (t : TurboJSTieredFunction) (c : TurboJSCodeCache) : option Stage :=
  let '(c, f) := TurboJS_CodeCacheLookup (tf_cache_key t) c in
  if f =? 0 then Some (Onward t c)
  else let? n := v_natives c !! f in Some (run_baseline TURBOJS_TIERED_BASELINE_NATIVE n arguments t c).

(** Lines 163 to 187. *)
Definition try_compile (call : TieredCall) (ir : TurboJSIRFunction) (arguments : list Z) (t : TurboJSTieredFunction)
    (c : TurboJSCodeCache) : option Stage :=
  if negb (tf_compilation_attempted t) && (tf_compile_threshold t <=? tf_call_count t) then
    let t := tf_set_attempts true (tf_optimization_attempted t) t in
    let '(c, st, r) := TurboJS_CodeCacheCompile (tc_baseline call) (tc_specialize call) (tc_nodes call) (tf_cache_key t) ir c in
    match st, r with
    | TURBOJS_IR_OK, Some f =>
        let? n := v_natives c !! f in
        Some (run_baseline TURBOJS_TIERED_BASELINE_COMPILED n arguments (tf_count count_baseline_compilation t) c)
    | TURBOJS_IR_UNSUPPORTED, _ => Some (Fallback t c)
    | st, _ => Some (Done (mkInvocation t c st None None))
    end
  else Some (Fallback t c).

(** Going on after a stage. *)
Definition continue_with (s : Stage) (ir : TurboJSIRFunction) (arguments : list Z)
    (k : TurboJSTieredFunction -> TurboJSCodeCache -> option Invocation) : option Invocation :=
  match s with
  | Done i => Some i
  | Onward t c => k t c
  | Fallback t c => fallback_interpreter ir arguments t c
  end.

Definition TurboJS_TieredInvoke (call : TieredCall) (ir : TurboJSIRFunction) (arguments : list Z)
    (t : TurboJSTieredFunction) (c : TurboJSCodeCache) : option Invocation :=
  if tf_cache_key t =? 0 then Some (mkInvocation t c TURBOJS_IR_INVALID_ARGUMENT None None)
  else
    continue_with (try_optimized arguments (enter arguments t) c) ir arguments (fun t c =>
    let? s := try_optimize call ir arguments t c in
    continue_with s ir arguments (fun t c =>
    let? s := try_baseline arguments t c in
    continue_with s ir arguments (fun t c =>
    let? s := try_compile call ir arguments t c in
    continue_with s ir arguments (fallback_interpreter ir arguments)))).
End Invoke.

(** ** What the compilers promise *)

Section Promises.
Context (hp : Heap) (native_i64 native_f64 : Z -> list Z -> TurboJSIRStatus * Z) `{NativeCode}.
Notation execute := (TurboJS_IRExecute hp native_i64 native_f64).

(** Arguments of C type, no more than a [uint16_t] counts. *)
Definition call_arguments (arguments : list Z) : Prop :=
  Forall (fun v => in_i64 v = true) arguments /\ Z.of_nat (length arguments) <= UINT16_MAX.

(** Native code agrees with an IR function: a run that returns OK returns the
    interpreter's result, wherever the call sites of the code point. *)
Definition agrees (ir : TurboJSIRFunction) (n : TurboJSNativeFunction) : Prop :=
  forall n' arguments r r', resited n n' -> call_arguments arguments -> execute ir arguments = Result r ->
    native_invoke n' arguments = (TURBOJS_IR_OK, r') -> r' = r.

(** The baseline compiler, for functions that make no native calls: its code
    computes what the IR computes from some contents of the frame, which the
    code does not clear. *)
Class SoundBaseline (baseline : TurboJSIRFunction -> TurboJSIRStatus * (Z * TurboJSNativeFunction)) : Prop :=
  baseline_runs : forall ir f n n' arguments, baseline ir = (TURBOJS_IR_OK, (f, n)) ->
    callfree ir -> function_typed ir -> f_local_count ir <= TURBOJS_IR_MAX_REGISTERS -> resited n n' ->
    call_arguments arguments -> f_argument_count ir <= Z.of_nat (length arguments) ->
    exists registers locals, length registers = 64%nat /\ length locals = 64%nat /\
      forall r r', ir_run hp native_i64 native_f64 ir arguments (registers, locals, 0%nat) (Result r) ->
        native_invoke n' arguments = (TURBOJS_IR_OK, r') -> r' = r.

(** Functions whose code does not depend on the frame it finds. *)
Record compilable (ir : TurboJSIRFunction) : Prop := {
  cp_callfree : callfree ir;
  cp_typed : function_typed ir;
  cp_locals : f_local_count ir <= TURBOJS_IR_MAX_REGISTERS;
  cp_initialized : initialized ir
}.

Lemma baseline_agrees baseline `{!SoundBaseline baseline} ir f n arguments r r' n' :
  compilable ir -> baseline ir = (TURBOJS_IR_OK, (f, n)) -> resited n n' -> call_arguments arguments ->
  execute ir arguments = Result r -> native_invoke n' arguments = (TURBOJS_IR_OK, r') -> r' = r.
Proof.
  intros [Hcf Hty Hl Hin] Hb Hr Hargs Hx. destruct (execute_accepted _ _ _ _ _ _ Hx) as (_&Hac&_).
  destruct (baseline_runs ir f n n' arguments) as (registers&locals&Hlr&Hll&Hrun); try done.
  apply Hrun. by apply interpreted_run.
Qed.

(** The callable specializer, on functions without control flow. *)
Class SoundSpecializer (specialize : TurboJSIRFunction -> option TurboJSIRFunction) : Prop :=
  specializer_agrees : forall ir ir', straight_line ir -> compilable ir -> specialize ir = Some ir' ->
    compilable ir' /\ forall arguments r, execute ir arguments = Result r -> execute ir' arguments = Result r.

Lemma agrees_resited ir n n' : resited n n' -> agrees ir n -> agrees ir n'.
Proof. intros Hr Ha m arguments r r' Hm. apply Ha. by etransitivity. Qed.

Lemma straight_callfree ir : straight_line ir -> callfree ir.
Proof.
  intros (body & ret & Hf & Hret & Hbody). unfold callfree. rewrite Hf. apply Forall_app. split.
  - eapply Forall_impl; [exact Hbody|]. intros i Hi. simpl in Hi. split; intros Heq; rewrite Heq in Hi; done.
  - apply Forall_singleton. by rewrite Hret.
Qed.

Lemma compile_native_agrees baseline specialize `{!SoundBaseline baseline} `{!SoundSpecializer specialize} ir f n :
  straight_line ir -> compilable ir -> compile_native baseline specialize ir = (TURBOJS_IR_OK, (f, n)) -> agrees ir n.
Proof.
  intros Hsl Hcp. unfold compile_native. destruct (baseline ir) as [st [f0 n0]] eqn:Hb. destruct st; try done.
  - intros [= <- <-] n' arguments r r' Hr Ha Hx. by eapply (baseline_agrees baseline).
  - destruct (specialize ir) as [ir'|] eqn:Hs; [|done]. intros Hb'. destruct (specializer_agrees ir ir' Hsl Hcp Hs) as [Hc Hex].
    intros n' arguments r r' Hr Ha Hx. eapply (baseline_agrees baseline); [exact Hc|exact Hb'|exact Hr|exact Ha|]. by apply Hex.
Qed.

(** ** Invocations *)

Context (outside : gmap Z TurboJSNativeFunction) (ir : TurboJSIRFunction) (key : Z).
Context (Hsl : straight_line ir) (Hcp : compilable ir) (Hsize : 2 * f_instruction_count ir < UINT32_MAX) (Hkey : key <> 0).

Definition code_for (k : Z) (n : TurboJSNativeFunction) : Prop := k = key -> agrees ir n.

Record tier_ok (t : TurboJSTieredFunction) (c : TurboJSCodeCache) : Prop := {
  to_key : tf_cache_key t = key;
  to_vault : vault_ok outside c;
  to_code : code_ok code_for c;
  to_optimized : forall o n, tf_optimized t = Some (o, n) -> agrees ir n
}.

Record call_ok (c : TurboJSCodeCache) (call : TieredCall) : Prop := {
  ca_fuel : exists fuel, tc_fuel call = S (S fuel);
  ca_baseline : SoundBaseline (tc_baseline call);
  ca_specialize : SoundSpecializer (tc_specialize call);
  ca_fresh : fresh_code c (compile_native (tc_baseline call) (tc_specialize call) ir)
}.

Lemma code_for_stable k n n' : resited n n' -> code_for k n -> code_for k n'.
Proof. intros Hr Hc Hk. eapply agrees_resited; [exact Hr|]. by apply Hc. Qed.

(** Administrative changes of the function. *)
Lemma tier_admin t t' c : tf_cache_key t' = tf_cache_key t -> tf_optimized t' = tf_optimized t -> tier_ok t c -> tier_ok t' c.
Proof. intros Hk Ho [T1 T2 T3 T4]. split; [congruence|done|done|]. by rewrite Ho. Qed.

Section Call.
Context (arguments : list Z) (Hargs : call_arguments arguments).

(** A finished call keeps the invariant, and OK comes with the interpreter's
    result. *)
Definition invocation_ok (i : Invocation) : Prop :=
  tier_ok (iv_function i) (iv_cache i) /\
  (iv_status i = TURBOJS_IR_OK -> is_Some (iv_result i)) /\
  (forall r r', execute ir arguments = Result r -> iv_status i = TURBOJS_IR_OK -> iv_result i = Some r' -> r' = r).

Definition stage_ok (c : TurboJSCodeCache) (s : Stage) : Prop :=
  match s with
  | Done i => invocation_ok i
  | Onward t c' => tier_ok t c' /\ v_natives c' = v_natives c
  | Fallback t c' => tier_ok t c'
  end.

Lemma failed_ok t c st : tier_ok t c -> st <> TURBOJS_IR_OK -> invocation_ok (mkInvocation t c st None None).
Proof. intros Ht Hst. split_and!; done. Qed.

Lemma native_ok t c n r route :
  tier_ok t c -> agrees ir n -> native_invoke n arguments = (TURBOJS_IR_OK, r) ->
  invocation_ok (mkInvocation t c TURBOJS_IR_OK (Some r) route).
Proof. intros Ht Ha Hn. split_and!; [done|by eauto|]. intros v v' Hx _ [= <-]. by eapply (Ha n). Qed.

Lemma fallback_ok t c i :
  tier_ok t c -> fallback_interpreter hp native_i64 native_f64 ir arguments t c = Some i -> invocation_ok i.
Proof.
  intros Ht. unfold fallback_interpreter. destruct (execute ir arguments) as [r|st|u] eqn:Hex; [| |done].
  - intros [= <-]. split_and!; [by eapply tier_admin; [| |exact Ht]|by eauto|]. simpl. congruence.
  - assert (Hx : tier_ok (observe_exception t) c) by (by eapply tier_admin; [| |exact Ht]).
    assert (st <> TURBOJS_IR_OK) by (intros ->; by apply execute_status in Hex).
    destruct st; intros [= <-]; by apply failed_ok.
Qed.

Lemma invalidate_optimized_ok t c : tier_ok t c -> tier_ok (TurboJS_TieredFunctionInvalidateOptimized t) c.
Proof.
  intros Ht. unfold TurboJS_TieredFunctionInvalidateOptimized. destruct (tf_optimized t) as [on|]; [|done].
  destruct Ht as [T1 T2 T3 T4]. by split.
Qed.

Lemma run_optimized_ok route n t c : tier_ok t c -> agrees ir n -> stage_ok c (run_optimized route n arguments t c).
Proof.
  intros Ht Ha. unfold run_optimized. destruct (native_invoke n arguments) as [st v] eqn:Hn.
  assert (Hon : stage_ok c (Onward (TurboJS_TieredFunctionInvalidateOptimized (observe_bailout t)) c)).
  { split; [|done]. apply invalidate_optimized_ok. by eapply tier_admin; [| |exact Ht]. }
  destruct st; try exact Hon.
  - eapply native_ok; [by eapply tier_admin; [| |exact Ht]|exact Ha|exact Hn].
  - apply failed_ok; [by eapply tier_admin; [| |exact Ht]|done].
Qed.

Lemma run_baseline_ok route n t c : tier_ok t c -> agrees ir n -> stage_ok c (run_baseline route n arguments t c).
Proof.
  intros Ht Ha. unfold run_baseline. destruct (native_invoke n arguments) as [st v] eqn:Hn.
  destruct st; try (by apply failed_ok).
  - eapply native_ok; [by eapply tier_admin; [| |exact Ht]|exact Ha|exact Hn].
  - simpl. by eapply tier_admin; [| |exact Ht].
  - apply failed_ok; [by eapply tier_admin; [| |exact Ht]|done].
Qed.

Lemma try_optimized_ok t c : tier_ok t c -> stage_ok c (try_optimized arguments t c).
Proof.
  intros Ht. unfold try_optimized. destruct (tf_optimized t) as [[o n]|] eqn:Ho; [|by split].
  apply run_optimized_ok; [done|]. by eapply to_optimized.
Qed.

Lemma try_optimize_ok call t c s :
  tier_ok t c -> call_ok c call -> try_optimize hp call ir arguments t c = Some s -> stage_ok c s.
Proof.
  intros Ht [(fuel & Hfuel) Hb _ _]. unfold try_optimize. destruct (_ && _); [|intros [= <-]; by split].
  set (t1 := tf_set_attempts _ true t). assert (Ht1 : tier_ok t1 c) by (by eapply tier_admin; [| |exact Ht]).
  rewrite Hfuel. destruct (TurboJS_OptimizingCompile _ _ _ _ _ _ _) as [[st o]|] eqn:Hc; [|done]. cbn.
  destruct st, o as [o|]; try (intros [= <-]; by apply failed_ok); try (intros [= <-]; split; [exact Ht1|done]).
  2: { apply optimized_delivered in Hc as [? ?]. done. }
  intros [= <-]. destruct (optimized_callfree _ _ _ _ _ _ _ _ Hc) as [Hcf Hbase].
  destruct (tc_baseline call (of_lowered o)) as [st [f n]] eqn:Hbl. simpl in Hbase. subst st.
  assert (Ha : agrees ir n).
  { intros n' args v v' Hr Ha Hx.
    destruct (optimized_typed hp native_i64 native_f64 _ fuel _ _ ir _ o args v (cp_typed _ Hcp) (proj1 Ha) Hsl Hsize Hc Hx) as (Hty&Hin&Hlo).
    eapply (baseline_agrees (tc_baseline call)); [split; [exact Hcf|exact Hty|by rewrite Hlo|exact Hin]|exact Hbl|exact Hr|exact Ha|].
    exact (optimized_result hp native_i64 native_f64 _ fuel _ _ ir _ o args v Hsl Hsize Hc Hx). }
  apply run_optimized_ok; [|exact Ha]. destruct Ht1 as [T1 T2 T3 T4]. split; try done. intros o' m [= <- <-]. exact Ha.
Qed.

Lemma lookup_natives c : v_natives (TurboJS_CodeCacheLookup key c).1 = v_natives c.
Proof.
  unfold TurboJS_CodeCacheLookup. destruct (key =? 0); [done|]. destruct (_ && _); by destruct (live_slot _ _) as [[? ?]|].
Qed.

Lemma try_baseline_ok t c s : tier_ok t c -> try_baseline arguments t c = Some s -> stage_ok c s.
Proof.
  intros Ht. pose proof Ht as [T1 T2 T3 T4]. unfold try_baseline. rewrite T1.
  pose proof (lookup_natives c) as Hn. pose proof (code_lookup code_for code_for_stable key c T3) as Hc'.
  destruct (TurboJS_CodeCacheLookup key c) as [c' f] eqn:Hl. destruct (lookup_step outside key c c' f T2 Hl) as (Hok' & Hcon & Hf & _).
  simpl in Hn, Hc'. assert (Ht' : tier_ok t c') by (by split). specialize (Hf Hkey).
  destruct (Z.eqb_spec f 0) as [->|Hne]; [intros [= <-]; by split|].
  destruct (contents (c_entries c) !! key) as [g|] eqn:Hg; simpl in Hf; [subst g|congruence].
  destruct (code_found outside code_for key f c T2 T3 Hkey Hg) as (n & Hnf & Hin). rewrite Hn, Hnf. cbn. intros [= <-].
  pose proof (run_baseline_ok TURBOJS_TIERED_BASELINE_NATIVE n t c' Ht' (Hin eq_refl)) as Hrun.
  destruct (run_baseline _ _ _ _ _) as [i|t2 c2|t2 c2]; [done| |done]. destruct Hrun as [? Heq]. split; [done|congruence].
Qed.

Lemma try_compile_ok call t c s :
  tier_ok t c -> call_ok c call -> try_compile call ir arguments t c = Some s -> stage_ok c s.
Proof.
  intros Ht [_ Hb Hsp Hfresh]. unfold try_compile. destruct (_ && _); [|intros [= <-]; exact Ht].
  set (t1 := tf_set_attempts true _ t). assert (Ht1 : tier_ok t1 c) by (by eapply tier_admin; [| |exact Ht]).
  pose proof Ht1 as [T1 T2 T3 T4]. rewrite T1.
  pose proof (code_compile outside code_for code_for_stable (tc_nodes call) (tc_baseline call) (tc_specialize call) key ir c T2 Hfresh) as Hcode.
  destruct (TurboJS_CodeCacheCompile _ _ _ _ _ _) as [[c' st] o] eqn:Hc.
  destruct (compile_step outside _ _ _ _ _ _ _ _ _ T2 Hfresh Hc) as [Hok' Hst].
  assert (Hcode' : code_ok code_for c').
  { apply Hcode; [|done]. intros f n Hcn _. by eapply compile_native_agrees. }
  assert (Ht' : tier_ok t1 c') by (by split).
  destruct st, o as [f|]; cbv beta iota zeta; try (intros [= <-]; by apply failed_ok); try (intros [= <-]; exact Ht').
  2: { by destruct Hst. }
  destruct Hst as [_ [Hm _]]. destruct (code_found outside code_for key f c' Hok' Hcode' Hkey Hm) as (n & Hnf & Hin).
  rewrite Hnf. cbn. intros [= <-].
  pose proof (run_baseline_ok TURBOJS_TIERED_BASELINE_COMPILED n (tf_count count_baseline_compilation t1) c') as Hrun.
  destruct (run_baseline _ _ _ _ _) as [i|t2 c2|t2 c2] eqn:Hrb; try (apply Hrun; [by eapply tier_admin; [| |exact Ht']|by apply Hin]).
  unfold run_baseline in Hrb. destruct (native_invoke n arguments) as [[] ?]; done.
Qed.

Lemma enter_ok t c : tier_ok t c -> tier_ok (enter arguments t) c.
Proof. intros Ht. by eapply tier_admin; [| |exact Ht]. Qed.

Lemma call_ok_natives c c' call : v_natives c' = v_natives c -> call_ok c call -> call_ok c' call.
Proof. intros Hn [H1 H2 H3 H4]. split; try done. unfold fresh_code. by rewrite Hn. Qed.

Lemma continue_ok c s k i :
  stage_ok c s -> continue_with hp native_i64 native_f64 s ir arguments k = Some i ->
  (forall t' c', tier_ok t' c' -> v_natives c' = v_natives c -> k t' c' = Some i -> invocation_ok i) -> invocation_ok i.
Proof.
  intros Hs Hc Hk. destruct s as [j|t c'|t c']; simpl in Hs, Hc.
  - by injection Hc as ->.
  - destruct Hs. by eapply Hk.
  - by eapply fallback_ok.
Qed.

Lemma invoke_ok call t c i :
  tier_ok t c -> call_ok c call -> TurboJS_TieredInvoke hp native_i64 native_f64 call ir arguments t c = Some i -> invocation_ok i.
Proof.
  intros Ht Hcall. unfold TurboJS_TieredInvoke. rewrite (to_key _ _ Ht), (proj2 (Z.eqb_neq _ _) Hkey). intros Hi.
  eapply continue_ok; [by apply try_optimized_ok, enter_ok|exact Hi|]. clear Hi. intros t1 c1 Ht1 Hn1 Hi. cbv beta in Hi.
  destruct (try_optimize _ _ _ _ _ _) as [s|] eqn:Hs; [|done].
  assert (Hcall1 : call_ok c1 call) by (by eapply call_ok_natives).
  eapply continue_ok; [by eapply try_optimize_ok|exact Hi|]. clear Hi Hs s. intros t2 c2 Ht2 Hn2 Hi. cbv beta in Hi.
  destruct (try_baseline _ _ _) as [s|] eqn:Hs; [|done].
  assert (Hcall2 : call_ok c2 call) by (by eapply call_ok_natives).
  eapply continue_ok; [by eapply try_baseline_ok|exact Hi|]. clear Hi Hs s. intros t3 c3 Ht3 Hn3 Hi. cbv beta in Hi.
  destruct (try_compile _ _ _ _ _) as [s|] eqn:Hs; [|done].
  assert (Hcall3 : call_ok c3 call) by (by eapply call_ok_natives).
  eapply continue_ok; [by eapply try_compile_ok|exact Hi|]. clear Hi. intros t4 c4 Ht4 _ Hi. by eapply fallback_ok.
Qed.
End Call.

(** ** Histories *)

(** Calls of the function, with other uses of the cache in between; the code
    others compile under this function's key must be for this function. *)
Inductive tier_run : TurboJSTieredFunction -> TurboJSCodeCache -> list (list Z * Invocation) ->
    TurboJSTieredFunction -> TurboJSCodeCache -> Prop :=
  | tier_run_nil t c : tier_run t c [] t c
  | tier_run_call t c call arguments i rest t' c' :
      call_arguments arguments -> call_ok c call -> TurboJS_TieredInvoke hp native_i64 native_f64 call ir arguments t c = Some i ->
      tier_run (iv_function i) (iv_cache i) rest t' c' -> tier_run t c ((arguments, i) :: rest) t' c'
  | tier_run_op t c op c1 a rest t' c' :
      op_fair c op -> op_code code_for op -> run_op op c = (c1, a) ->
      tier_run t c1 rest t' c' -> tier_run t c rest t' c'.

Lemma tier_run_ok t c trace t' c' :
  tier_run t c trace t' c' -> tier_ok t c ->
  tier_ok t' c' /\ Forall (fun '(arguments, i) => invocation_ok arguments i) trace.
Proof.
  induction 1 as [t c|t c call arguments i rest t' c' Hargs Hcall Hi _ IH|t c op c1 a rest t' c' Hfair Hcode Hrun _ IH]; intros Ht.
  - split; [done|constructor].
  - pose proof (invoke_ok arguments Hargs call t c i Ht Hcall Hi) as Hinv. destruct (IH (proj1 Hinv)) as [K1 K2].
    split; [done|]. by constructor.
  - apply IH. destruct Ht as [T1 T2 T3 T4]. destruct (op_refines outside op c c1 a T2 Hfair Hrun) as [K1 _].
    split; try done. exact (code_op outside code_for code_for_stable op c c1 a T2 Hfair Hcode Hrun T3).
Qed.

Lemma tier_start mem handles entries bytes c compile_threshold optimization_threshold policy :
  0 <= entries -> 0 <= bytes <= SIZE_MAX ->
  TurboJS_CodeCacheCreate mem outside handles entries bytes = Some c ->
  tier_ok (TurboJS_TieredFunctionInitAdvanced key compile_threshold optimization_threshold policy) c.
Proof.
  intros He Hb Hc. destruct (create_step outside mem handles entries bytes c He Hb Hc) as (Hok & _ & _).
  split; [done|done| |done]. intros s e n (Hs & Hl & _). unfold TurboJS_CodeCacheCreate in Hc.
  destruct (next_pow2 _) as [slots|]; [|done]. simpl in Hc. destruct mem; [|done]. injection Hc as <-. simpl in Hs.
  by apply lookup_replicate in Hs as [-> _].
Qed.
End Promises.

(** ** The callable specializer keeps its promise *)

Definition specializer (mem : SpecializeMemory) (hp : Heap) (address : nat -> Z) (next : Z) (ir : TurboJSIRFunction)
    : option TurboJSIRFunction :=
  match TurboJS_IRSpecializeCallableReferences mem hp address next ir with
  | Some (TURBOJS_IR_OK, ir', _) => Some ir'
  | _ => None
  end.

Lemma straight_numeric ir : straight_line ir -> Forall (fun i => numeric_opcode (in_opcode i) = true) (f_instructions ir).
Proof.
  intros (body & ret & Hf & Hret & Hbody). rewrite Hf. apply Forall_app. split; [|apply Forall_singleton; by rewrite Hret].
  eapply Forall_impl; [exact Hbody|]. intros i Hi. simpl in Hi. by destruct (in_opcode i).
Qed.

#[export] Instance specializer_sound hp native_i64 native_f64 mem heap address next :
  SoundSpecializer hp native_i64 native_f64 (specializer mem heap address next).
Proof.
  intros ir ir' Hsl [Hcf Hty Hl Hin] Hs. unfold specializer in Hs.
  destruct (TurboJS_IRSpecializeCallableReferences _ _ _ _ _) as [[[[] f] events]|] eqn:Hspec; try done. injection Hs as ->.
  destruct (specialization_copies _ _ _ _ _ _ _ (proj1 (ft_registers _ Hty)) (straight_numeric _ Hsl) Hspec) as [Hc _]. split.
  - pose proof Hc as [Hi Hr Ha Hlo]. destruct Hty as [T1 T2 T3 T4 T5]. unfold f_instruction_count in T4.
    split; [unfold callfree; by rewrite Hi|split; unfold f_instruction_count; congruence|lia|].
    unfold initialized. by rewrite Hi.
  - intros arguments r <-. by rewrite Hc.
Qed.

(** ** Transparency *)

Lemma tier_transparent hp native_i64 native_f64 `{!NativeCode} natives ir key
    mem handles entries bytes c0 compile_threshold optimization_threshold policy trace t c :
  straight_line ir -> compilable ir -> 2 * f_instruction_count ir < UINT32_MAX -> key <> 0 ->
  0 <= entries -> 0 <= bytes <= SIZE_MAX ->
  TurboJS_CodeCacheCreate mem natives handles entries bytes = Some c0 ->
  tier_run hp native_i64 native_f64 ir key
    (TurboJS_TieredFunctionInitAdvanced key compile_threshold optimization_threshold policy) c0 trace t c ->
  Forall (fun '(arguments, i) => iv_status i = TURBOJS_IR_OK ->
    exists r, iv_result i = Some r /\
      (forall v, TurboJS_IRExecute hp native_i64 native_f64 ir arguments = Result v -> r = v)) trace.
Proof.
  intros Hsl Hcp Hsize Hkey He Hb Hc Hrun.
  destruct (tier_run_ok hp native_i64 native_f64 natives ir key Hsl Hcp Hsize Hkey _ _ _ _ _ Hrun) as [_ Htrace].
  { by eapply tier_start. }
  eapply Forall_impl; [exact Htrace|]. intros [arguments i] (_ & Hsome & Hres) Hok. destruct (Hsome Hok) as [r Hr].
  exists r. split; [done|]. intros v Hv. by eapply Hres.
Qed.


(** ** Functions without arguments

    The feedback vector says it is uninitialised by an argument count of 0,
    which is also the count of a function without arguments. *)
Section NoArguments.
Context (hp : Heap) (native_i64 native_f64 : Z -> list Z -> TurboJSIRStatus * Z) `{NativeCode}.

(** Calls without arguments, each with its own compilers and allocator. *)
Fixpoint invoke_all (calls : list TieredCall) (ir : TurboJSIRFunction) (t : TurboJSTieredFunction) (c : TurboJSCodeCache)
    : option (TurboJSTieredFunction * TurboJSCodeCache) :=
  match calls with
  | [] => Some (t, c)
  | call :: calls =>
      let? i := TurboJS_TieredInvoke hp native_i64 native_f64 call ir [] t c in
      invoke_all calls ir (iv_function i) (iv_cache i)
  end.

Definition cold (t : TurboJSTieredFunction) : Prop :=
  tf_optimization_attempted t = false /\ tf_optimized t = None /\ fv_argument_count (tf_feedback t) = 0 /\
  2 <= minimum_executions (tf_optimization_policy t).

Definition stage_cold (s : Stage) : Prop :=
  match s with Done i => cold (iv_function i) | Onward t _ | Fallback t _ => cold t end.

Lemma run_baseline_cold route n t c : cold t -> stage_cold (run_baseline route n [] t c).
Proof. intros Ht. unfold run_baseline. by destruct (native_invoke n []) as [[] r]. Qed.

Lemma fallback_cold ir t c i : cold t -> fallback_interpreter hp native_i64 native_f64 ir [] t c = Some i -> cold (iv_function i).
Proof.
  intros Ht. unfold fallback_interpreter. destruct (TurboJS_IRExecute _ _ _ _ _) as [r|st|u]; [| |done].
  - by intros [= <-].
  - destruct st; by intros [= <-].
Qed.

Lemma continue_cold s ir k i :
  stage_cold s -> continue_with hp native_i64 native_f64 s ir [] k = Some i ->
  (forall t c, cold t -> k t c = Some i -> cold (iv_function i)) -> cold (iv_function i).
Proof.
  intros Hs Hc Hk. destruct s as [j|t c|t c]; simpl in *; [by injection Hc as <-|by eapply Hk|by eapply fallback_cold].
Qed.

Lemma try_baseline_cold t c s : cold t -> try_baseline [] t c = Some s -> stage_cold s.
Proof.
  intros Ht. unfold try_baseline. destruct (TurboJS_CodeCacheLookup _ _) as [c' f].
  destruct (f =? 0); [by intros [= <-]|]. destruct (v_natives c' !! f) as [n|]; [|done]. intros [= <-].
  by apply run_baseline_cold.
Qed.

Lemma try_compile_cold call ir t c s : cold t -> try_compile call ir [] t c = Some s -> stage_cold s.
Proof.
  intros Ht. unfold try_compile. destruct (_ && _); [|by intros [= <-]].
  destruct (TurboJS_CodeCacheCompile _ _ _ _ _ _) as [[c' st] [f|]]; destruct st; cbn; try by intros [= <-].
  destruct (v_natives c' !! f) as [n|]; [|done]. intros [= <-]. by apply run_baseline_cold.
Qed.

Lemma enter_cold t : cold t ->
  cold (enter [] t) /\ fv_execution_count (tf_feedback (enter [] t)) = 1.
Proof. intros (Ha & Ho & Hn & Hm). unfold enter, cold. cbn. rewrite Hn. by split_and!. Qed.

Lemma once_called_cold t :
  cold t -> fv_execution_count (tf_feedback t) = 1 ->
  rp_decision (TurboJS_EvaluateOptimization (Some (tf_feedback t)) (Some (tf_optimization_policy t)))
    = TURBOJS_OPTIMIZATION_TOO_COLD.
Proof.
  intros (_ & _ & Hn & Hm) He. unfold TurboJS_EvaluateOptimization. rewrite Hn, He. simpl.
  by rewrite (proj2 (Z.ltb_lt 1 _)) by lia.
Qed.

Lemma invoke_cold call ir t c i :
  cold t -> TurboJS_TieredInvoke hp native_i64 native_f64 call ir [] t c = Some i -> cold (iv_function i).
Proof.
  intros Ht. unfold TurboJS_TieredInvoke. destruct (_ =? 0); [by intros [= <-]|].
  destruct (enter_cold t Ht) as [He Hx]. destruct He as (Ha & Ho & Hn & Hm) eqn:Heq. clear Heq.
  unfold try_optimized. rewrite Ho. cbn [continue_with]. unfold try_optimize. rewrite once_called_cold by done.
  rewrite Ha. cbn [negb andb bool_decide]. rewrite bool_decide_eq_false_2 by done. cbn [continue_with].
  intros Hi. destruct (try_baseline _ _ _) as [s|] eqn:Hs; [|done].
  eapply continue_cold; [by eapply try_baseline_cold|exact Hi|]. clear Hi Hs s. intros t1 c1 Ht1 Hi. cbv beta in Hi.
  destruct (try_compile _ _ _ _ _) as [s|] eqn:Hs; [|done].
  eapply continue_cold; [by eapply try_compile_cold|exact Hi|]. clear Hi. intros t2 c2 Ht2 Hi. by eapply fallback_cold.
Qed.

Lemma default_opt_threshold_ge baseline : 1000 <= default_opt_threshold baseline.
Proof. unfold default_opt_threshold. set (x := if UINT32_MAX / 4 <? baseline then _ else _). destruct (Z.ltb_spec x 1000); lia. Qed.

Lemma invoke_all_cold : forall calls ir t c t' c', cold t -> invoke_all calls ir t c = Some (t', c') -> cold t'.
Proof.
  induction calls as [|call calls IH]; intros ir t c t' c' Ht; simpl; [by intros [= <- <-]|].
  destruct (TurboJS_TieredInvoke _ _ _ _ _ _ _ _) as [i|] eqn:Hi; [|done]. apply IH. by eapply invoke_cold.
Qed.
End NoArguments.

(** A function called without arguments is never optimized, however often
    it is called: its feedback is reset at every call, so with a threshold of
    at least two executions no call attempts optimization. *)
Theorem no_arguments_never_optimized hp native_i64 native_f64 `{!NativeCode} calls ir key
    compile_threshold optimization_threshold policy c t c' :
  optimization_threshold <> 1 -> 0 <= optimization_threshold ->
  invoke_all hp native_i64 native_f64 calls ir
    (TurboJS_TieredFunctionInitAdvanced key compile_threshold optimization_threshold policy) c = Some (t, c') ->
  tf_optimization_attempted t = false /\ tf_optimized t = None.
Proof.
  intros H1 H0 Hrun. apply invoke_all_cold in Hrun as (Ha & Ho & _); [done|]. split_and!; [done..|].
  cbn [TurboJS_TieredFunctionInitAdvanced policy_set_minimum tf_optimization_policy minimum_executions].
  destruct (Z.eqb_spec optimization_threshold 0); cbn [negb]; [|lia].
  etransitivity; [|apply default_opt_threshold_ge]. lia.
Qed.

(** *** Samples: a machine whose native code is a table of programs *)

#[export] Instance TurboJSIRInstruction_eq_dec : EqDecision TurboJSIRInstruction.
Proof. solve_decision. Defined.

Definition same_codeb (f g : TurboJSIRFunction) : bool :=
  bool_decide (f_instructions f = f_instructions g) && (f_register_count f =? f_register_count g)
  && (f_argument_count f =? f_argument_count g) && (f_local_count f =? f_local_count g).

Lemma same_codeb_spec f g : same_codeb f g = true -> same_code f g.
Proof. unfold same_codeb. intros H. b2p. by split. Qed.

Definition programs : list TurboJSIRFunction := [sample_function; of_lowered sample_optimized].

(** Code [k] of the machine runs program [k]. *)
Definition table_invoke : NativeCode := fun n arguments =>
  match programs !! Z.to_nat (nf_code_size n) with
  | Some p =>
      match TurboJS_IRExecute empty_heap no_native no_native p arguments with
      | Result r => (TURBOJS_IR_OK, r)
      | Stop st => (st, 0)
      | Undef _ => (TURBOJS_IR_EXCEPTION, 0)
      end
  | None => (TURBOJS_IR_EXCEPTION, 0)
  end.

Definition table_baseline (base : Z) (ir : TurboJSIRFunction) : TurboJSIRStatus * (Z * TurboJSNativeFunction) :=
  match list_find (fun p => same_codeb ir p = true) programs with
  | Some (k, _) => (TURBOJS_IR_OK, (base + Z.of_nat k, sample_native (Z.of_nat k) TURBOJS_VALUE_I64 []))
  | None => (TURBOJS_IR_UNSUPPORTED, (0, sample_native 0 TURBOJS_VALUE_I64 []))
  end.

Lemma table_baseline_sound base : @SoundBaseline empty_heap no_native no_native table_invoke (table_baseline base).
Proof.
  intros ir f n n' arguments Hb _ _ _ [sites ->] _ _. exists zero_array, zero_array. split; [done|]. split; [done|].
  intros r r' Hx Hn. unfold table_baseline in Hb.
  destruct (list_find _ _) as [[k p]|] eqn:Hf; [|done]. apply list_find_Some in Hf as (Hp & Hsc & _).
  apply same_codeb_spec in Hsc. injection Hb as <- <-. unfold native_invoke, table_invoke in Hn. simpl in Hn.
  rewrite Nat2Z.id, Hp, <-Hsc in Hn. destruct (TurboJS_IRExecute _ _ _ ir _) as [v|st|u] eqn:Hex; [|destruct st; try done|done].
  - injection Hn as ->. destruct (execute_accepted _ _ _ _ _ _ Hex) as (_&_&Hrun). pose proof (ir_run_unique _ _ _ _ _ _ _ _ Hx Hrun) as [= ->]. done.
  - by apply execute_status in Hex.
Qed.

Definition sample_call (base : Z) : TieredCall :=
  mkCall 2 all_granted 1 plenty (table_baseline base) (specializer generous_memory empty_heap site_address 2).
Definition sample_invoke (base : Z) (t : TurboJSTieredFunction) (c : TurboJSCodeCache) : option Invocation :=
  @TurboJS_TieredInvoke empty_heap no_native no_native table_invoke (sample_call base) sample_function [3; 4] t c.

(** Calls of the sample, each with a compiler at its own base address. *)
Fixpoint run_calls (bases : list Z) (t : TurboJSTieredFunction) (c : TurboJSCodeCache)
    : list (list Z * Invocation) * (TurboJSTieredFunction * TurboJSCodeCache) :=
  match bases with
  | [] => ([], (t, c))
  | base :: bases =>
      match sample_invoke base t c with
      | Some i => let '(trace, s) := run_calls bases (iv_function i) (iv_cache i) in (([3; 4], i) :: trace, s)
      | None => ([], (t, c))
      end
  end.

Fixpoint calls_fresh (bases : list Z) (t : TurboJSTieredFunction) (c : TurboJSCodeCache) : bool :=
  match bases with
  | [] => true
  | base :: bases =>
      (0 <? base) && bool_decide (v_natives c !! base = None) &&
      match sample_invoke base t c with Some i => calls_fresh bases (iv_function i) (iv_cache i) | None => true end
  end.

Lemma sample_compiled base : table_baseline base sample_function = (TURBOJS_IR_OK, (base + 0, sample_native 0 TURBOJS_VALUE_I64 [])).
Proof. reflexivity. Qed.

Lemma run_calls_run : forall bases t c, calls_fresh bases t c = true ->
  @tier_run empty_heap no_native no_native table_invoke sample_function 7 t c (run_calls bases t c).1
    (run_calls bases t c).2.1 (run_calls bases t c).2.2.
Proof.
  induction bases as [|base bases IH]; intros t c Hf; [constructor|]. cbn [run_calls calls_fresh] in *.
  apply andb_true_iff in Hf as [[H0%Z.ltb_lt Hn%bool_decide_eq_true]%andb_true_iff Hrest].
  destruct (sample_invoke base t c) as [i|] eqn:Hi; [|constructor]. specialize (IH _ _ Hrest).
  destruct (run_calls bases (iv_function i) (iv_cache i)) as [trace s]. simpl in *.
  eapply tier_run_call; [split; [by repeat constructor|done]| |exact Hi|exact IH]. split.
  - by exists O.
  - apply table_baseline_sound.
  - apply specializer_sound.
  - simpl. unfold compile_native. rewrite sample_compiled. intros _. simpl. rewrite Z.add_0_r. split; [lia|done].
Qed.

Definition first_state : TurboJSTieredFunction := TurboJS_TieredFunctionInitAdvanced 7 1 2 None.
Definition three_calls : list (list Z * Invocation) := (run_calls [100; 200; 300] first_state sample_cache).1.

(** Three calls: compiled by the baseline, then by the pipeline. *)
Example three_calls_routes :
  map (fun '(_, i) => (iv_status i, iv_result i, iv_route i)) three_calls =
  [(TURBOJS_IR_OK, Some 35, Some TURBOJS_TIERED_BASELINE_COMPILED);
   (TURBOJS_IR_OK, Some 35, Some TURBOJS_TIERED_OPTIMIZED_COMPILED);
   (TURBOJS_IR_OK, Some 35, Some TURBOJS_TIERED_OPTIMIZED_NATIVE)].
Proof. vm_compute. reflexivity. Qed.

Lemma sample_straight : straight_line sample_function.
Proof.
  exists (take 8 (f_instructions sample_function)), (instr TURBOJS_IR_RETURN_I64 0 7 0 0 0).
  split; [reflexivity|]. split; [reflexivity|]. repeat constructor.
Qed.


Lemma no_arguments_never_optimized_witness :
  match @invoke_all empty_heap no_native no_native table_invoke [sample_call 100; sample_call 200; sample_call 300]
          sample_function first_state sample_cache with
  | Some (t, _) => tf_optimization_attempted t = false /\ tf_optimized t = None
  | None => False
  end.
Proof.
  destruct (invoke_all _ _ _ _ _ _ _) as [[t c]|] eqn:Hrun; [|vm_compute in Hrun; discriminate].
  apply (@no_arguments_never_optimized empty_heap no_native no_native table_invoke
    [sample_call 100; sample_call 200; sample_call 300] sample_function 7 1 2 None sample_cache t c); [done|done|exact Hrun].
Defined.
