(* ===== verification/NativeTiers.v ===== *)
(** * The tiers on the machine

    [Tiered] takes native code and its compiler as interfaces.  Here both are
    the real ones: code is run by [TurboJS_NativeInvoke] on the machine of
    [X64], in a memory the embedder chooses for every call, and compiled by
    [TurboJS_BaselineCompile].  The instance of [SoundBaseline] turns
    [tiering_transparent] into [tiers_on_machine], from the calls of a tiered
    function down to the bytes that run. *)

From stdpp Require Import gmap.
From S2P Require Import Prelude.
From S2P Require Import JitTypes.
From S2P Require Import Clutch.
From S2P Require Import IR.
From S2P Require Import IRVerify.
From S2P Require Import IRInterp.
From S2P Require Import CallableSpecialize.
From S2P Require Import SSABuild.
From S2P Require Import Pipeline.
From S2P Require Import Vault.
From S2P Require Import VaultStore.
From S2P Require Import VaultRefine.
From S2P Require Import VaultCode.
From S2P Require Import EngineEmit.
From S2P Require Import X64.
From S2P Require Import OsrLoop.
From S2P Require Import BaselineX64.
From S2P Require Import BaselineNative.
From S2P Require Import BaselineRun.
From S2P Require Import BaselineCorrect.
From S2P Require Import BaselineLive.
From S2P Require Import PipelineNative.
From S2P Require Import EngineNative.
From S2P Require Import Tiered.

(** ** The machine as native code *)

(** Every call gets a memory; code that has not returned after [m_fuel]
    instructions has not answered OK. *)
Record Machine := mkMachine {
  m_fuel : nat;
  m_windows : bool;
  m_safepoint : Z;
  m_space : TurboJSNativeFunction -> list Z -> CallSpace
}.

Definition machine_code (m : Machine) : NativeCode := fun n arguments =>
  match TurboJS_NativeInvoke (m_fuel m) (m_space m n arguments) (new_function n (m_safepoint m)) arguments with
  | Some (st, r, _) => (st, r)
  | None => (TURBOJS_IR_EXECUTION_LIMIT, 0)
  end.

(** The memory of a call has room for the frame and the arrays, and no
    safepoint is requested. *)
Definition machine_ok (m : Machine) : Prop :=
  forall ir n arguments, nf_register_count n = f_register_count ir -> nf_local_count n = f_local_count ir ->
    0 <= f_register_count ir <= TURBOJS_IR_MAX_REGISTERS -> 0 <= f_local_count ir <= TURBOJS_IR_MAX_REGISTERS ->
    call_arguments arguments ->
    let sp := m_space m n arguments in
    space_ok sp (m_safepoint m) ir arguments /\ sp_windows sp = m_windows m /\ swrap 32 (sp_memory sp (m_safepoint m)) = 0.

(** The compiler with the allocator's answers; [address] is the new object's. *)
Definition machine_baseline (m : Machine) (mem : BaselineMemory) (hp : Heap) (base address : Z) (ir : TurboJSIRFunction)
    : TurboJSIRStatus * (Z * TurboJSNativeFunction) :=
  match TurboJS_BaselineCompile mem (m_windows m) hp base ir with
  | Some (BaselineCompiled n _) => (TURBOJS_IR_OK, (address, n))
  | Some (BaselineFailed st _) => (st, (0, sample_native 0 TURBOJS_VALUE_UNKNOWN []))
  | None => (TURBOJS_IR_EXCEPTION, (0, sample_native 0 TURBOJS_VALUE_UNKNOWN []))
  end.

(** Executable memory is granted in pieces of less than 2 GiB. *)
Definition memory_ok (mem : BaselineMemory) : Prop := forall size, bm_object mem size = true -> size < 2 ^ 31.

Lemma emitting_status e s st s' : emitting e s = Some (inl (st, s')) -> st <> TURBOJS_IR_OK.
Proof. unfold emitting. case_match; intros; by simplify_eq. Qed.

Lemma compile_one_status mem windows hp base f index i s st s' :
  compile_one mem windows hp base f index i s = Some (inl (st, s')) -> st <> TURBOJS_IR_OK.
Proof.
  unfold compile_one. case_match.
  - unfold compile_call. repeat (case_match; try done); intros; simplify_eq; try done; by eapply emitting_status.
  - case_match; [unfold compile_jump; case_match; [apply emitting_status|intros; by simplify_eq]|].
    case_match; [apply emitting_status|intros; by simplify_eq].
Qed.

Lemma generate_status mem windows hp base f st s : generate mem windows hp base f = Some (inl (st, s)) -> st <> TURBOJS_IR_OK.
Proof.
  assert (forall l index s0, compile_loop mem windows hp base f index l s0 = Some (inl (st, s)) -> st <> TURBOJS_IR_OK) as Hl.
  { induction l as [|i l IH]; intros index s0; simpl; [done|]. destruct (compile_one _ _ _ _ _ _ _ _) as [[[? ?]|?]|] eqn:H1; [|apply IH|done].
    intros [= <- <-]. by eapply compile_one_status. }
  unfold generate. case_match; [|intros; by simplify_eq].
  destruct (compile_loop _ _ _ _ _ _ _ _) as [[[? ?]|?]|] eqn:H1; intros; simplify_eq. by eapply Hl.
Qed.

Lemma failed_status mem windows hp base ir st events :
  TurboJS_BaselineCompile mem windows hp base ir = Some (BaselineFailed st events) -> st <> TURBOJS_IR_OK.
Proof.
  unfold TurboJS_BaselineCompile. destruct (TurboJS_IRVerify hp ir) as [d|]; [|done]. simpl.
  destruct (dg_status d) eqn:Hd; try (intros; by simplify_eq). case_match; [intros; by simplify_eq|]. case_match; [intros; by simplify_eq|].
  destruct (generate _ _ _ _ _) as [[[st' s]|s]|] eqn:Hg; simpl; [|repeat (case_match; try (intros; by simplify_eq))|done].
  intros [= <- _]. by eapply generate_status.
Qed.

Lemma compiled_size mem windows hp base f n events :
  TurboJS_BaselineCompile mem windows hp base f = Some (BaselineCompiled n events) -> 0 <= nf_code_size n.
Proof.
  unfold TurboJS_BaselineCompile. destruct (TurboJS_IRVerify hp f) as [d|]; [|done]. destruct (dg_status d); try done.
  repeat (case_match; try done). intros [= <- <-]. cbn. unfold cb_count. lia.
Qed.

(** ** Its promise *)

(** Retargeting call sites does not change the answer. *)
Lemma invoke_resited fuel sp safepoint n n' arguments : resited n n' ->
  (fun a => a.1) <$> TurboJS_NativeInvoke fuel sp (new_function n' safepoint) arguments =
  (fun a => a.1) <$> TurboJS_NativeInvoke fuel sp (new_function n safepoint) arguments.
Proof. intros [sites ->]. unfold TurboJS_NativeInvoke. cbn. repeat case_match; done. Qed.

(** Two invocations that return, return the same. *)
Lemma invoke_unique fuel fuel' sp fn arguments a b :
  TurboJS_NativeInvoke fuel sp fn arguments = Some a -> TurboJS_NativeInvoke fuel' sp fn arguments = Some b -> a = b.
Proof.
  unfold TurboJS_NativeInvoke. case_match; [congruence|].
  destruct (run fuel _ _) as [|s|] eqn:H1; try done. destruct (run fuel' _ _) as [|s'|] eqn:H2; try done.
  apply (run_more_fuel _ (Nat.max fuel fuel')) in H1; [|lia]. apply (run_more_fuel _ (Nat.max fuel fuel')) in H2; [|lia].
  rewrite H1 in H2. injection H2 as ->. congruence.
Qed.

#[export] Instance machine_sound m mem hp n1 n2 base address :
  machine_ok m -> memory_ok mem -> @SoundBaseline hp n1 n2 (machine_code m) (machine_baseline m mem hp base address).
Proof.
  intros Hm Hmem ir f n n' arguments Hb Hcf Hty Hl Hr Hargs Hac. unfold machine_baseline in Hb.
  destruct (TurboJS_BaselineCompile _ _ _ _ _) as [[st events|n0 events]|] eqn:Hcomp; [|injection Hb as _ <-|done].
  { exfalso. injection Hb as -> _. by apply failed_status in Hcomp. }
  destruct (compiled_object _ _ _ _ _ _ _ Hcomp) as (Hacc&Hna&Hnr&Hnl&_). pose proof Hty as [Hr0 Hl0 _ _ _].
  destruct (compiled_fits _ _ _ _ _ _ _ Hcomp) as (size&Hsize&Hfits). specialize (Hmem _ Hsize).
  pose proof Hr as [sites Hn'].
  destruct (Hm ir n' arguments) as (Hsp&Hwin&Hsafe); [by rewrite Hn'|by rewrite Hn'|destruct Hacc; lia|lia|done|].
  set (sp := m_space m n' arguments) in *.
  destruct (pad_full sp ir ltac:(apply Hacc) Hl) as [[Hf1 Hf2] _].
  exists (pad (stale_registers sp ir)), (pad (stale_locals sp ir)). split; [exact Hf1|]. split; [exact Hf2|]. intros r r' Hrun Hinv.
  rewrite <-Hwin in Hcomp. pose proof (native_runs mem base hp n1 n2 ir n0 events sp (new_function n0 (m_safepoint m)) arguments (Result r)
    Hcomp Hcf Hty Hl ltac:(lia) eq_refl Hsp (proj1 Hargs) Hac Hsafe Hrun) as (fuel&fn'&Hret).
  unfold native_invoke, machine_code in Hinv. fold sp in Hinv.
  pose proof (invoke_resited (m_fuel m) sp (m_safepoint m) n0 n' arguments Hr) as Hsame.
  destruct (TurboJS_NativeInvoke (m_fuel m) sp (new_function n' _) arguments) as [[[st v] fn2]|] eqn:H1; [|done].
  injection Hinv as -> ->. destruct (TurboJS_NativeInvoke (m_fuel m) sp (new_function n0 _) arguments) as [a|] eqn:H2; [|done].
  pose proof (invoke_unique _ _ _ _ _ _ _ H2 Hret) as ->. simpl in Hsame. by injection Hsame.
Qed.

(** ** Histories *)

(** What a call meets: the allocator's answers and the addresses of what it
    may allocate. *)
Record MachineCall := mkMachineCall {
  mc_sweeps : nat;
  mc_memory : CompileMemory;
  mc_next : Z;
  mc_nodes : NodeMemory;
  mc_baseline : BaselineMemory;
  mc_sites : Z;
  mc_address : Z;
  mc_specialize : SpecializeMemory;
  mc_specialized_sites : nat -> Z;
  mc_specialized : Z
}.

Definition tiered_call (m : Machine) (hp : Heap) (call : MachineCall) : TieredCall :=
  mkCall (S (S (mc_sweeps call))) (mc_memory call) (mc_next call) (mc_nodes call)
    (machine_baseline m (mc_baseline call) hp (mc_sites call) (mc_address call))
    (specializer (mc_specialize call) hp (mc_specialized_sites call) (mc_specialized call)).

(** Other users of the cache keep to keys of their own. *)
Definition foreign (key : Z) (op : VaultOp) : Prop := match op with DoCompile _ _ _ k _ => k <> key | _ => True end.

Section History.
Context (m : Machine) (hp : Heap) (native_i64 native_f64 : Z -> list Z -> TurboJSIRStatus * Z) (ir : TurboJSIRFunction) (key : Z).

(** Calls on the machine; a new object has an address of its own. *)
Inductive machine_run : TurboJSTieredFunction -> TurboJSCodeCache -> list (list Z * Invocation) ->
    TurboJSTieredFunction -> TurboJSCodeCache -> Prop :=
  | machine_run_nil t c : machine_run t c [] t c
  | machine_run_call t c call arguments i rest t' c' :
      call_arguments arguments -> memory_ok (mc_baseline call) -> mc_address call <> 0 -> v_natives c !! mc_address call = None ->
      @TurboJS_TieredInvoke hp native_i64 native_f64 (machine_code m) (tiered_call m hp call) ir arguments t c = Some i ->
      machine_run (iv_function i) (iv_cache i) rest t' c' -> machine_run t c ((arguments, i) :: rest) t' c'
  | machine_run_op t c op c1 a rest t' c' :
      op_fair c op -> foreign key op -> run_op op c = (c1, a) -> machine_run t c1 rest t' c' -> machine_run t c rest t' c'.

Lemma baseline_answer call f f' n : tc_baseline (tiered_call m hp call) f = (TURBOJS_IR_OK, (f', n)) ->
  f' = mc_address call /\ 0 <= nf_code_size n.
Proof.
  simpl. unfold machine_baseline. destruct (TurboJS_BaselineCompile _ _ _ _ _) as [[st events|n0 events]|] eqn:Hc; intros; simplify_eq.
  - by apply failed_status in Hc.
  - split; [done|]. by eapply compiled_size.
Qed.

(** A run on the machine is one of the tiers with sound compilers. *)
Lemma machine_tier_run t c trace t' c' : machine_ok m -> machine_run t c trace t' c' ->
  @tier_run hp native_i64 native_f64 (machine_code m) ir key t c trace t' c'.
Proof.
  intros Hm. induction 1 as [t c|t c call arguments i rest t' c' Hargs Hmem Ha Hfresh Hi _ IH|t c op c1 a rest t' c' Hfair Hforeign Hrun _ IH].
  - constructor.
  - eapply tier_run_call; [done| |exact Hi|exact IH]. split.
    + by exists (mc_sweeps call).
    + by apply machine_sound.
    + apply specializer_sound.
    + unfold fresh_code. intros Hok. destruct (compile_native _ _ _) as [st [f n]] eqn:Hc. cbn [fst snd] in *. subst st.
      assert (f = mc_address call /\ 0 <= nf_code_size n) as [-> Hsz]; [|done].
      unfold compile_native in Hc. destruct (tc_baseline _ ir) as [st [f0 n0]] eqn:Hb.
      destruct st; simplify_eq; [by eapply baseline_answer|]. destruct (tc_specialize _ ir); [by eapply baseline_answer|done].
  - eapply tier_run_op; [done| |exact Hrun|exact IH]. destruct op; try done. simpl in *. intros f n _ Hk. done.
Qed.
End History.

(** ** Transparency *)


(** ** Sample *)

(** Arrays far apart, a stack full of [word]. *)
Definition wide_space (windows : bool) (word : Z) : CallSpace :=
  mkSpace windows (2 ^ 24) (2 ^ 25) (2 ^ 26) (2 ^ 27) (replicate 16 0) [0; 0] (mkFlags false false false)
    (fun a => if a =? 2 ^ 28 then 0 else word).

Definition sample_machine (windows : bool) : Machine :=
  mkMachine 200 windows (2 ^ 28) (fun _ arguments => wide_space windows (Z.of_nat (length arguments) + 5)).

Lemma sample_machine_ok windows : machine_ok (sample_machine windows).
Proof.
  intros ir n arguments _ _ Hr Hl [_ Ha]. unfold TURBOJS_IR_MAX_REGISTERS, UINT16_MAX in *. cbn [m_space m_safepoint m_windows sample_machine].
  split; [|done]. split; cbn [sp_registers sp_vectors sp_memory sp_arguments sp_deopt wide_space]; try done.
  - intros a. case_match; unfold is_u; lia.
  - split; unfold apart, low; cbn; lia.
  - unfold disjoint_words. lia.
  - unfold disjoint_words. lia.
  - unfold disjoint_words. lia.
Qed.

Definition machine_sample (address : Z) : MachineCall :=
  mkMachineCall 0 all_granted 1 plenty generous 4096 address generous_memory site_address 2.

(** Calls of the sample function on the machine. *)
Fixpoint machine_calls (windows : bool) (addresses : list Z) (t : TurboJSTieredFunction) (c : TurboJSCodeCache)
    : list (list Z * Invocation) * (TurboJSTieredFunction * TurboJSCodeCache) :=
  match addresses with
  | [] => ([], (t, c))
  | address :: addresses =>
      match @TurboJS_TieredInvoke empty_heap no_native no_native (machine_code (sample_machine windows))
              (tiered_call (sample_machine windows) empty_heap (machine_sample address)) sample_function [3; 4] t c with
      | Some i => let '(trace, s) := machine_calls windows addresses (iv_function i) (iv_cache i) in (([3; 4], i) :: trace, s)
      | None => ([], (t, c))
      end
  end.

Definition machine_trace (windows : bool) : list (list Z * Invocation) := (machine_calls windows [100; 200; 300] first_state sample_cache).1.

(** Compiled by the baseline, then by the pipeline; all three run bytes. *)
Example machine_routes windows :
  map (fun '(_, i) => (iv_status i, iv_result i, iv_route i)) (machine_trace windows) =
  [(TURBOJS_IR_OK, Some 35, Some TURBOJS_TIERED_BASELINE_COMPILED);
   (TURBOJS_IR_OK, Some 35, Some TURBOJS_TIERED_OPTIMIZED_COMPILED);
   (TURBOJS_IR_OK, Some 35, Some TURBOJS_TIERED_OPTIMIZED_NATIVE)].
Proof. destruct windows; vm_compute; reflexivity. Qed.

Fixpoint machine_fresh (windows : bool) (addresses : list Z) (t : TurboJSTieredFunction) (c : TurboJSCodeCache) : bool :=
  match addresses with
  | [] => true
  | address :: addresses =>
      negb (address =? 0) && bool_decide (v_natives c !! address = None) &&
      match @TurboJS_TieredInvoke empty_heap no_native no_native (machine_code (sample_machine windows))
              (tiered_call (sample_machine windows) empty_heap (machine_sample address)) sample_function [3; 4] t c with
      | Some i => machine_fresh windows addresses (iv_function i) (iv_cache i)
      | None => true
      end
  end.

Lemma machine_calls_run windows : forall addresses t c, machine_fresh windows addresses t c = true ->
  machine_run (sample_machine windows) empty_heap no_native no_native sample_function 7 t c (machine_calls windows addresses t c).1
    (machine_calls windows addresses t c).2.1 (machine_calls windows addresses t c).2.2.
Proof.
  induction addresses as [|address addresses IH]; intros t c Hf; [constructor|]. cbn [machine_calls machine_fresh] in *.
  apply andb_true_iff in Hf as [[H0 Hn%bool_decide_eq_true]%andb_true_iff Hrest]. b2p.
  destruct (TurboJS_TieredInvoke _ _ _ _ _ _ _ _) as [i|] eqn:Hi; [|constructor]. specialize (IH _ _ Hrest).
  destruct (machine_calls windows addresses (iv_function i) (iv_cache i)) as [trace s]. simpl in *.
  eapply (machine_run_call _ _ _ _ _ _ t c (machine_sample address) [3; 4]); [|intros size; simpl; lia|exact H0|exact Hn|exact Hi|exact IH].
  split; [by repeat constructor|done].
Qed.

