(* ===== verification/HelpersCorrect.v ===== *)
(** * Native continuations are transparent

    Whatever the resuming interpreter of [Helpers] does with native segments
    and their caches, a function that returns when it is interpreted without
    them returns the same with them, after the same helper calls.

    What is asked of the code generator is [FaithfulNative]: machine code
    follows the IR it was compiled from up to a return or a runtime helper,
    or bails out for another reason. *)

From stdpp Require Import gmap.
From S2P Require Import Prelude.
From S2P Require Import JitTypes.
From S2P Require Import Clutch.
From S2P Require Import IR.
From S2P Require Import IRVerify.
From S2P Require Import IRInterp.
From S2P Require Import Deopt.
From S2P Require Import Pipeline.
From S2P Require Import Vault.
From S2P Require Import VaultInv.
From S2P Require Import VaultStore.
From S2P Require Import VaultRefine.
From S2P Require Import VaultCode.
From S2P Require Import Tiered.
From S2P Require Import Helpers.

(** ** What native code does *)

Inductive NativeEnd :=
  | Returned (r : Z)
  | AtHelper (registers locals : list Z) (pc : nat).

Section NativeSemantics.
Context (hp : Heap) (native_i64 native_f64 : Z -> list Z -> TurboJSIRStatus * Z).

(** Native code loads an argument wherever the instruction stands. *)
Definition native_step (ir : TurboJSIRFunction) (arguments : list Z) (i : TurboJSIRInstruction) (registers locals : list Z)
    (pc : nat) : StepOut :=
  if decide (in_opcode i = TURBOJS_IR_ARGUMENT) then
    match arguments !! Z.to_nat (in_immediate i) with
    | Some v => wr registers (in_destination i) v (fun registers => Next registers locals (S pc))
    | None => Halt (Undef UB_memory)
    end
  else execute_step hp native_i64 native_f64 ir i registers locals pc.

Fixpoint native_exec (fuel : nat) (ir : TurboJSIRFunction) (arguments registers locals : list Z) (pc : nat) : option NativeEnd :=
  match fuel with
  | O => None
  | S fuel =>
      match f_instructions ir !! pc with
      | None => None
      | Some i =>
          if decide (in_opcode i = TURBOJS_IR_RUNTIME_HELPER) then Some (AtHelper registers locals pc)
          else match native_step ir arguments i registers locals pc with
               | Next registers locals pc => native_exec fuel ir arguments registers locals pc
               | Halt (Result r) => Some (Returned r)
               | Halt _ => None
               end
      end
  end.

(** What an invocation may answer where the code ends like [e]. *)
Definition runs_as (ir : TurboJSIRFunction) (out : TurboJSIRStatus * Z * TurboJSDeoptFrame) (e : NativeEnd) : Prop :=
  match out with
  | (TURBOJS_IR_OK, r, _) => e = Returned r
  | (TURBOJS_IR_BAILOUT, _, frame) =>
      bo_reason (df_bailout frame) <> TURBOJS_BAILOUT_RUNTIME_HELPER \/
      exists registers locals pc, e = AtHelper registers locals pc /\ captures ir frame (mkConfig registers locals pc)
  | _ => False
  end.

(** An array of 64 cells that holds [values] first. *)
Definition padded (values : list Z) : list Z := values ++ replicate (64 - length values) 0.

(** The code generator's promise: from some contents of the frame, which the
    code does not clear.  Retargeted call sites are allowed for code without
    calls. *)
Class FaithfulNative (native_run : TurboJSNativeFunction -> list Z -> TurboJSIRStatus * Z * TurboJSDeoptFrame)
    (baseline : TurboJSIRFunction -> TurboJSIRStatus * TurboJSNativeFunction) : Prop := {
  faithful_runs : forall ir n n' arguments,
    baseline ir = (TURBOJS_IR_OK, n) -> n' = n \/ (callfree ir /\ resited n n') ->
    f_argument_count ir <= Z.of_nat (length arguments) ->
    exists registers locals,
      length registers = Z.to_nat (f_register_count ir) /\ length locals = Z.to_nat (f_local_count ir) /\
      forall fuel e, native_exec fuel ir arguments (padded registers) (padded locals) 0 = Some e -> runs_as ir (native_run n' arguments) e;
  faithful_size : forall ir n, baseline ir = (TURBOJS_IR_OK, n) -> 0 <= nf_code_size n
}.

(** ** Runs of native code *)

(** The code reaches the end [e] from a configuration. *)
Definition native_ends (ir : TurboJSIRFunction) (arguments registers locals : list Z) (pc : nat) (e : NativeEnd) : Prop :=
  exists fuel, native_exec fuel ir arguments registers locals pc = Some e.

Lemma native_next ir arguments registers locals pc i registers' locals' pc' e :
  f_instructions ir !! pc = Some i -> in_opcode i <> TURBOJS_IR_RUNTIME_HELPER ->
  native_step ir arguments i registers locals pc = Next registers' locals' pc' ->
  native_ends ir arguments registers' locals' pc' e -> native_ends ir arguments registers locals pc e.
Proof. intros Hi Hh Hs [fuel Hf]. exists (S fuel). simpl. by rewrite Hi, decide_False, Hs by done. Qed.

Lemma native_returned ir arguments registers locals pc i r :
  f_instructions ir !! pc = Some i -> in_opcode i <> TURBOJS_IR_RUNTIME_HELPER ->
  native_step ir arguments i registers locals pc = Halt (Result r) -> native_ends ir arguments registers locals pc (Returned r).
Proof. intros Hi Hh Hs. exists 1%nat. simpl. by rewrite Hi, decide_False, Hs by done. Qed.

Lemma native_at_helper ir arguments registers locals pc i :
  f_instructions ir !! pc = Some i -> in_opcode i = TURBOJS_IR_RUNTIME_HELPER ->
  native_ends ir arguments registers locals pc (AtHelper registers locals pc).
Proof. intros Hi Hh. exists 1%nat. simpl. by rewrite Hi, decide_True by done. Qed.

Lemma native_exec_more : forall fuel fuel' ir arguments registers locals pc e, (fuel <= fuel')%nat ->
  native_exec fuel ir arguments registers locals pc = Some e -> native_exec fuel' ir arguments registers locals pc = Some e.
Proof.
  induction fuel as [|fuel IH]; intros [|fuel'] ir arguments registers locals pc e Hle He; [done|done|lia|].
  simpl in *. destruct (f_instructions ir !! pc); [|done]. case_decide; [done|].
  destruct (native_step _ _ _ _ _ _) as [? ? ?|[]]; try done. apply IH; [lia|done].
Qed.

Lemma native_exec_unique fuel fuel' ir arguments registers locals pc e e' :
  native_exec fuel ir arguments registers locals pc = Some e -> native_exec fuel' ir arguments registers locals pc = Some e' -> e = e'.
Proof.
  intros H1 H2. apply (native_exec_more _ (Nat.max fuel fuel')) in H1, H2; [congruence|lia|lia].
Qed.

(** ** The arguments arrive *)

Lemma padded_length values : (length values <= 64)%nat -> length (padded values) = 64%nat.
Proof. intros H. unfold padded. rewrite length_app, length_replicate. lia. Qed.

(** The values that arrive cover what the array held. *)
Definition overlay (base values : list Z) : list Z := values ++ drop (length values) base.

Lemma overlay_insert base values v : (length values < length base)%nat ->
  <[length values := v]> (overlay base values) = overlay base (values ++ [v]).
Proof.
  intros H. unfold overlay. rewrite insert_app_r_alt, Nat.sub_diag by lia. rewrite <-app_assoc. f_equal.
  destruct (lookup_lt_is_Some_2 base (length values) H) as [x Hx]. rewrite (drop_S _ _ _ Hx), length_app, Nat.add_1_r. done.
Qed.

Lemma overlay_lookup base values k v : values !! k = Some v -> overlay base values !! k = Some v.
Proof. intros H. unfold overlay. rewrite lookup_app_l; [done|]. by eapply lookup_lt_Some. Qed.

Lemma overlay_length base values : (length values <= length base)%nat -> length (overlay base values) = length base.
Proof. intros H. unfold overlay. rewrite length_app, length_drop. lia. Qed.

Definition load_argument (i : Z) : TurboJSIRInstruction := mkInstruction TURBOJS_IR_ARGUMENT i 0 0 i 0 0.
Definition store_local (temp i : Z) : TurboJSIRInstruction := mkInstruction TURBOJS_IR_LOCAL_SET 0 temp 0 i 0 0.

Definition register_loads (from count : nat) : list TurboJSIRInstruction :=
  map (fun k => load_argument (Z.of_nat k)) (seq from count).
Definition local_loads (registers from count : nat) : list TurboJSIRInstruction :=
  concat (map (fun k => [load_argument (Z.of_nat (registers + k)); store_local (Z.of_nat (registers + k)) (Z.of_nat k)]) (seq from count)).

Lemma length_local_loads n : forall count from, length (local_loads n from count) = (2 * count)%nat.
Proof. induction count as [|count IH]; intros from; [done|]. unfold local_loads in *. simpl. rewrite IH. lia. Qed.

Context (base_registers base_locals : list Z) (Hbr : length base_registers = 64%nat) (Hbl : length base_locals = 64%nat).
Notation covered_registers := (overlay base_registers).
Notation covered_locals := (overlay base_locals).

Lemma run_load_argument ir arguments k q values locals v e :
  f_instructions ir !! q = Some (load_argument (Z.of_nat k)) -> length values = k -> (k < 64)%nat -> arguments !! k = Some v ->
  native_ends ir arguments (covered_registers (values ++ [v])) locals (S q) e -> native_ends ir arguments (covered_registers values) locals q e.
Proof.
  intros Hq Hk Hlt Hv He. eapply native_next; [exact Hq|done| |exact He].
  unfold native_step. rewrite decide_True by done. cbn [in_immediate in_destination load_argument].
  rewrite Nat2Z.id, Hv. unfold wr. cbn [in_destination load_argument]. rewrite Nat2Z.id, overlay_length by lia.
  rewrite (proj2 (Nat.ltb_lt _ _)) by lia. by rewrite <-Hk, overlay_insert by lia.
Qed.

Lemma run_register_loads ir arguments locals e : forall count from q rest,
  drop q (f_instructions ir) = register_loads from count ++ rest -> (from + count <= 64)%nat -> (from + count <= length arguments)%nat ->
  native_ends ir arguments (covered_registers (take (from + count) arguments)) locals (q + count) e ->
  native_ends ir arguments (covered_registers (take from arguments)) locals q e.
Proof.
  induction count as [|count IH]; intros from q rest Hd H64 Hlen He.
  { by rewrite !Nat.add_0_r in He. }
  simpl in Hd. assert (Hq : f_instructions ir !! q = Some (load_argument (Z.of_nat from))).
  { pose proof (lookup_of_drop (f_instructions ir) q) as H. by rewrite Hd in H. }
  destruct (lookup_lt_is_Some_2 arguments from ltac:(lia)) as [v Hv].
  eapply run_load_argument; [exact Hq|rewrite length_take; lia|lia|exact Hv|].
  rewrite <-(take_S_r _ _ _ Hv). eapply (IH (S from) (S q) rest).
  - rewrite <-Nat.add_1_r, <-drop_drop, Hd. done.
  - lia.
  - lia.
  - by rewrite !Nat.add_succ_comm.
Qed.

(** After the registers every local arrives in a register and is stored. *)
Lemma run_local_loads ir arguments locals n e : forall count from q rest,
  drop q (f_instructions ir) = local_loads n from count ++ rest -> (n + (from + count) <= 64)%nat -> arguments = take n arguments ++ locals ->
  (n <= length arguments)%nat -> (from + count <= length locals)%nat ->
  native_ends ir arguments (covered_registers (take (n + (from + count)) arguments)) (covered_locals (take (from + count) locals)) (q + 2 * count) e ->
  native_ends ir arguments (covered_registers (take (n + from) arguments)) (covered_locals (take from locals)) q e.
Proof.
  induction count as [|count IH]; intros from q rest Hd H64 Hargs Hn Hlen He.
  { by rewrite !Nat.add_0_r in He. }
  simpl in Hd. pose proof (lookup_of_drop (f_instructions ir) q) as Hq. rewrite Hd in Hq. simpl in Hq.
  assert (Hd1 : drop (S q) (f_instructions ir) = store_local (Z.of_nat (n + from)) (Z.of_nat from) :: local_loads n (S from) count ++ rest).
  { rewrite <-Nat.add_1_r, <-drop_drop, Hd. done. }
  pose proof (lookup_of_drop (f_instructions ir) (S q)) as Hq1. rewrite Hd1 in Hq1. simpl in Hq1.
  destruct (lookup_lt_is_Some_2 locals from ltac:(lia)) as [v Hv].
  assert (Hva : arguments !! (n + from)%nat = Some v).
  { rewrite Hargs, lookup_app_r by (rewrite length_take; lia). rewrite length_take, <-Hv. f_equal. lia. }
  eapply run_load_argument; [exact Hq|rewrite length_take; apply lookup_lt_Some in Hva; lia|lia|exact Hva|].
  rewrite <-(take_S_r _ _ _ Hva).
  eapply native_next; [exact Hq1|done| |].
  { unfold native_step. rewrite decide_False by done. unfold execute_step. cbn [in_opcode store_local in_left in_immediate].
    unfold rd. rewrite Nat2Z.id. erewrite (overlay_lookup _ _ _ v) by (rewrite lookup_take_lt by lia; exact Hva).
    unfold wr. rewrite Nat2Z.id, overlay_length by (rewrite length_take; lia). by rewrite (proj2 (Nat.ltb_lt _ _)) by lia. }
  assert (Hlt : length (take from locals) = from) by (rewrite length_take; lia).
  replace (<[from:=v]> (covered_locals (take from locals))) with (covered_locals (take (S from) locals)).
  2: { rewrite (take_S_r _ _ _ Hv). rewrite <-overlay_insert by lia. by rewrite Hlt. }
  rewrite <-Nat.add_succ_r. eapply (IH (S from) (S (S q)) rest); try done.
  - rewrite <-(Nat.add_1_r (S q)), <-drop_drop, Hd1. done.
  - lia.
  - lia.
  - replace (S from + count)%nat with (from + S count)%nat by lia. by replace (S (S q) + 2 * count)%nat with (q + 2 * S count)%nat by lia.
Qed.
End NativeSemantics.

(** ** The IR of a segment *)

(** The instructions of a segment, with the return that follows a helper. *)
Fixpoint segment_code (instrs : list TurboJSIRInstruction) : list TurboJSIRInstruction :=
  match instrs with
  | [] => []
  | i :: instrs =>
      if ends_segment (in_opcode i) then
        if decide (in_opcode i = TURBOJS_IR_RUNTIME_HELPER)
        then [i; mkInstruction TURBOJS_IR_RETURN_I64 0 (in_destination i) 0 0 0 (in_bytecode_offset i)]
        else [i]
      else i :: segment_code instrs
  end.

(** What building steps change. *)
Record grows (f f' : TurboJSIRFunction) (code : list TurboJSIRInstruction) (registers : Z) : Prop := {
  gw_code : f_instructions f' = f_instructions f ++ code;
  gw_registers : f_register_count f' = f_register_count f + registers;
  gw_arguments : f_argument_count f' = f_argument_count f;
  gw_locals : f_local_count f' = f_local_count f
}.

Lemma grows_refl f : grows f f [] 0.
Proof. split; try done; [by rewrite app_nil_r|lia]. Qed.

Lemma grows_trans f1 f2 f3 code1 code2 r1 r2 : grows f1 f2 code1 r1 -> grows f2 f3 code2 r2 -> grows f1 f3 (code1 ++ code2) (r1 + r2).
Proof.
  intros [A1 A2 A3 A4] [B1 B2 B3 B4]. split; [by rewrite B1, A1, app_assoc|rewrite B2, A2; lia|congruence|congruence].
Qed.

Section Building.
Context (mem : HelperMemory).

Lemma append_grows i f f' : append mem i f = inr f' -> grows f f' [i] 0.
Proof. unfold append, TurboJS_IREmit. destruct (_ && _); [done|]. intros [= <-]. split; cbn; try done. lia. Qed.

Lemma append_register_grows f f' r : append_register f = inr (f', r) -> grows f f' [] 1 /\ r = f_register_count f.
Proof.
  unfold append_register, TurboJS_IRAllocateRegister. destruct (_ <=? _); [done|].
  destruct (_ =? _); [done|]. intros [= <- <-]. split; [|done]. split; try done. cbn. by rewrite app_nil_r.
Qed.

Lemma register_kind_grows f r k : grows f (TurboJS_IRFunctionSetRegisterKind f r k) [] 0.
Proof. unfold TurboJS_IRFunctionSetRegisterKind. case_match; [|apply grows_refl]. split; cbn; try done; [by rewrite app_nil_r|lia]. Qed.

Lemma local_kind_grows f r k : grows f (TurboJS_IRFunctionSetLocalKind f r k) [] 0.
Proof. unfold TurboJS_IRFunctionSetLocalKind. case_match; [|apply grows_refl]. split; cbn; try done; [by rewrite app_nil_r|lia]. Qed.

Lemma load_registers_grows source : forall count i f f',
  load_registers mem source count (Z.of_nat i) f = inr f' -> grows f f' (register_loads i count) (Z.of_nat count).
Proof.
  induction count as [|count IH]; intros i f f' Hl; simpl in Hl.
  { injection Hl as <-. apply grows_refl. }
  destruct (append_register f) as [|[f1 r]] eqn:H1; [done|]. destruct (append mem _ f1) as [|f2] eqn:H2; [done|].
  apply append_register_grows in H1 as [H1 _]. apply append_grows in H2. replace (Z.of_nat i + 1) with (Z.of_nat (S i)) in Hl by lia.
  apply IH in Hl. pose proof (grows_trans _ _ _ _ _ _ _ (grows_trans _ _ _ _ _ _ _ (grows_trans _ _ _ _ _ _ _ H1 H2) (register_kind_grows _ _ _)) Hl) as G.
  simpl in G. replace (Z.of_nat (S count)) with (1 + 0 + 0 + Z.of_nat count) by lia. exact G.
Qed.

Lemma load_locals_grows source n : forall count i f f', f_register_count source = Z.of_nat n ->
  load_locals mem source count (Z.of_nat i) f = inr f' -> f_register_count f = Z.of_nat (n + i) ->
  grows f f' (local_loads n i count) (Z.of_nat count).
Proof.
  induction count as [|count IH]; intros i f f' Hn Hl Hr; simpl in Hl.
  { injection Hl as <-. apply grows_refl. }
  destruct (append_register f) as [|[f1 r]] eqn:H1; [done|]. destruct (append mem _ f1) as [|f2] eqn:H2; [done|].
  destruct (append mem _ f2) as [|f3] eqn:H3; [done|].
  apply append_register_grows in H1 as [H1 ->]. apply append_grows in H2, H3.
  replace (Z.of_nat i + 1) with (Z.of_nat (S i)) in Hl by lia.
  pose proof (grows_trans _ _ _ _ _ _ _ (grows_trans _ _ _ _ _ _ _ (grows_trans _ _ _ _ _ _ _ (grows_trans _ _ _ _ _ _ _ H1 H2) H3)
    (register_kind_grows f3 (f_register_count f) (TurboJS_IRFunctionLocalKind source (Z.of_nat i))))
    (local_kind_grows _ (Z.of_nat i) (TurboJS_IRFunctionLocalKind source (Z.of_nat i)))) as G. simpl in G.
  apply IH in Hl; [|done|rewrite (gw_registers _ _ _ _ G); lia].
  pose proof (grows_trans _ _ _ _ _ _ _ G Hl) as G'. simpl in G'.
  rewrite Hr, Hn in G'. replace (Z.of_nat n + Z.of_nat i) with (Z.of_nat (n + i)) in G' by lia.
  replace (Z.of_nat (S count)) with (1 + 0 + 0 + 0 + 0 + Z.of_nat count) by lia. exact G'.
Qed.

Lemma copy_segment_grows : forall instrs f f', copy_segment mem instrs f = inr f' -> grows f f' (segment_code instrs) 0.
Proof.
  induction instrs as [|i instrs IH]; intros f f' Hc; simpl in Hc.
  { injection Hc as <-. apply grows_refl. }
  destruct (append mem i f) as [|f1] eqn:H1; [done|]. apply append_grows in H1. simpl.
  destruct (ends_segment (in_opcode i)).
  - case_decide.
    + apply append_grows in Hc. exact (grows_trans _ _ _ _ _ _ _ H1 Hc).
    + injection Hc as <-. exact H1.
  - apply IH in Hc. exact (grows_trans _ _ _ _ _ _ _ H1 Hc).
Qed.

(** The code of a segment: the loads, then the copy. *)
Lemma segment_ir_code source start ir prologue rn ln :
  f_register_count source = Z.of_nat rn -> f_local_count source = Z.of_nat ln -> (rn + ln <= 64)%nat ->
  segment_ir mem source start = inr (ir, prologue) ->
  f_instructions ir = register_loads 0 rn ++ local_loads rn 0 ln ++ segment_code (drop start (f_instructions source)) /\
  prologue = Z.of_nat (rn + 2 * ln) /\ f_register_count ir = Z.of_nat (rn + ln) /\ f_local_count ir = Z.of_nat ln /\
  f_argument_count ir = Z.of_nat (rn + ln).
Proof.
  intros Hr Hl H64. unfold segment_ir. rewrite Hr, Hl, !Nat2Z.id. set (f0 := TurboJS_IRFunctionSetLocalCount _ _).
  destruct (load_registers _ _ _ _ f0) as [|f1] eqn:H1; [done|]. destruct (load_locals _ _ _ _ f1) as [|f2] eqn:H2; [done|].
  destruct (copy_segment _ _ f2) as [|f3] eqn:H3; [done|]. intros [= <- <-].
  apply (load_registers_grows source rn 0) in H1. apply (load_locals_grows source rn ln 0) in H2; [|done|].
  2: { rewrite (gw_registers _ _ _ _ H1). cbn. lia. }
  apply copy_segment_grows in H3. pose proof (grows_trans _ _ _ _ _ _ _ H1 H2) as H12.
  pose proof (grows_trans _ _ _ _ _ _ _ H12 H3) as G. destruct G as [G1 G2 G3 G4]. cbn in G1, G2, G3, G4.
  split; [by rewrite G1, <-app_assoc|]. split.
  { unfold f_instruction_count. rewrite (gw_code _ _ _ _ H12). cbn. f_equal. rewrite length_app, length_local_loads.
    unfold register_loads. by rewrite length_map, length_seq. }
  split; [rewrite G2; lia|]. split; [by rewrite G4|]. rewrite G3, uwrap_small; [lia|]. unfold is_u. lia.
Qed.
End Building.

(** ** Interpreted and native steps *)

Section Steps.
Context (hp : Heap) (native_i64 native_f64 : Z -> list Z -> TurboJSIRStatus * Z).
Context (source ir : TurboJSIRFunction).

(** Reads and writes inside the interpreter's arrays are reads and writes of
    the longer arrays. *)
Lemma rd_next (a b : list Z) i (k : Z -> StepOut) registers locals pc :
  rd a i k = Next registers locals pc -> exists v, k v = Next registers locals pc /\ forall k', rd (a ++ b) i k' = k' v.
Proof.
  unfold rd. destruct (a !! Z.to_nat i) as [v|] eqn:Hv; [|done]. intros Hk. exists v. split; [done|]. intros k'.
  rewrite lookup_app_l by (by eapply lookup_lt_Some). by rewrite Hv.
Qed.

Lemma wr_next (a b : list Z) i v (k : list Z -> StepOut) registers locals pc :
  wr a i v k = Next registers locals pc ->
  k (<[Z.to_nat i := v]> a) = Next registers locals pc /\ forall k', wr (a ++ b) i v k' = k' (<[Z.to_nat i := v]> a ++ b).
Proof.
  unfold wr. destruct (Nat.ltb_spec (Z.to_nat i) (length a)) as [Hlt|]; [|done]. intros Hk. split; [done|]. intros k'.
  rewrite length_app, (proj2 (Nat.ltb_lt _ _)) by lia. by rewrite insert_app_l.
Qed.

Lemma clutch_gather count registers tail : forall sources arguments,
  (Z.of_nat (length registers) <= count) -> clutch_arguments registers sources = Some arguments ->
  gather count (registers ++ tail) sources = Some arguments.
Proof.
  induction sources as [|r sources IH]; intros arguments Hc Ha; simpl in *; [done|].
  unfold clutch_arguments in *. simpl in Ha. destruct (registers !! Z.to_nat r) as [v|] eqn:Hr; [|done]. simpl in Ha.
  destruct (mapM _ sources) as [rest|] eqn:Hm; [|done]. injection Ha as <-. pose proof (lookup_lt_Some _ _ _ Hr) as Hlt.
  rewrite (proj2 (Z.leb_gt _ _)) by lia. rewrite (IH rest Hc eq_refl).
  rewrite lookup_app_l by done. by rewrite Hr.
Qed.
(** A step inside a segment. *)
Lemma segment_step arguments i registers locals pc q registers' locals' pc' tr tl :
  is_straight_line_opcode (in_opcode i) = true -> ends_segment (in_opcode i) = false ->
  Z.of_nat (length registers) <= f_register_count ir ->
  resume_step hp native_i64 i registers locals pc = Next registers' locals' pc' ->
  native_step hp native_i64 native_f64 ir arguments i (registers ++ tr) (locals ++ tl) q = Next (registers' ++ tr) (locals' ++ tl) (S q) /\
  pc' = S pc /\ length registers' = length registers /\ length locals' = length locals.
Proof.
  intros Hs He Hc Hr. unfold native_step. rewrite decide_False by (intros Ho; rewrite Ho in Hs; done).
  unfold resume_step in Hr. unfold execute_step.
  destruct (in_opcode i) eqn:Hop; try done; unfold arith in *;
    repeat match goal with
    | H : rd ?a _ _ = Next _ _ _ |- _ =>
        first [apply (rd_next a tr) in H as (? & H & ->) | apply (rd_next a tl) in H as (? & H & ->)]
    | H : wr ?a _ _ _ = Next _ _ _ |- _ =>
        first [apply (wr_next a tr) in H as (H & ->) | apply (wr_next a tl) in H as (H & ->)]
    | H : Next _ _ _ = Next _ _ _ |- _ => injection H as <- <- <-; by rewrite ?length_insert
    | H : match c_i64 ?v with _ => _ end = Next _ _ _ |- _ => destruct (c_i64 v); [|done]
    end.
  unfold execute_clutch_call in Hr. unfold call_native. destruct (_ =? 0); [done|].
  destruct (hp_site hp _) as [site|]; [|done]. destruct (_ <? _); [done|].
  destruct (clutch_arguments _ _) as [args|] eqn:Ha; [|done]. rewrite (clutch_gather _ _ tr _ _ Hc Ha). rewrite Hop.
  rewrite decide_False by done. destruct (TurboJS_ClutchCallSiteInvokeI64 _ _ _ _) as [[] [v|]]; try done.
  - apply (wr_next registers tr) in Hr as (Hr & ->). injection Hr as <- <- <-. by rewrite length_insert.
  - by injection Hr as <- <- <-.
Qed.

Lemma segment_return arguments i registers locals pc q r tr tl :
  in_opcode i = TURBOJS_IR_RETURN_I64 \/ in_opcode i = TURBOJS_IR_RETURN_F64 ->
  resume_step hp native_i64 i registers locals pc = Halt (Result r) ->
  native_step hp native_i64 native_f64 ir arguments i (registers ++ tr) (locals ++ tl) q = Halt (Result r).
Proof.
  intros Hop Hr. unfold native_step, resume_step, execute_step in *.
  destruct Hop as [Hop|Hop]; rewrite Hop in *; rewrite decide_False by done; unfold rd in *;
    (destruct (registers !! _) as [v|] eqn:Hv; [|done]; rewrite lookup_app_l by (by eapply lookup_lt_Some); by rewrite Hv).
Qed.
End Steps.

(** ** The state of a run *)

(** The interpreter's arrays; a function without locals never writes its
    spare cell. *)
Record sized (f : TurboJSIRFunction) (registers locals : list Z) : Prop := {
  sz_registers : length registers = length (zeroed (f_register_count f));
  sz_locals : length locals = length (zeroed (f_local_count f));
  sz_spare : f_local_count f = 0 -> locals = [0]
}.

Lemma length_zeroed count : 0 <= count -> length (zeroed count) = Nat.max 1 (Z.to_nat count).
Proof. intros H. unfold zeroed. rewrite length_replicate. destruct (Z.eqb_spec count 0) as [->|]; lia. Qed.

Lemma resume_step_sized hp native_i64 f i registers locals pc registers' locals' pc' :
  operands_ok hp f i -> sized f registers locals ->
  resume_step hp native_i64 i registers locals pc = Next registers' locals' pc' -> sized f registers' locals'.
Proof.
  intros [ret Hv] [S1 S2 S3] Hr. unfold resume_step, execute_clutch_call, rd, wr, arith in Hr. unfold verify_instruction in Hv.
  destruct (in_opcode i); repeat (case_match; try discriminate Hr); simplify_eq; split; rewrite ?length_insert; try done.
  intros Hl. b2p. lia.
Qed.

(** Two states of a run that differ in counters and caches only. *)
Record alike {W} (s1 s2 : HelperState W) : Prop := {
  al_entries : ht_entries (hs_table s1) = ht_entries (hs_table s2);
  al_rooting : ht_rooting (hs_table s1) = ht_rooting (hs_table s2);
  al_world : hs_world s1 = hs_world s2;
  al_roots : hs_roots s1 = hs_roots s2
}.

#[export] Instance alike_equivalence {W} : Equivalence (@alike W).
Proof.
  split.
  - by intros s.
  - intros s1 s2 []. by split.
  - intros s1 s2 s3 [] []. split; congruence.
Qed.

(** A helper call looks at the table's entries, its hooks and the world, and
    leaves the caches alone. *)
Lemma invoke_alike {W} callback mem f pc registers locals rk lk (s1 s2 s1' : HelperState W) r :
  alike s1 s2 -> TurboJS_RuntimeHelperInvokeAt callback mem f pc registers locals rk lk s1 = (s1', r) ->
  exists s2', TurboJS_RuntimeHelperInvokeAt callback mem f pc registers locals rk lk s2 = (s2', r) /\ alike s1' s2' /\
    ht_cache (hs_table s2') = ht_cache (hs_table s2) /\ ht_vault (hs_table s2') = ht_vault (hs_table s2) /\
    ht_cache (hs_table s1') = ht_cache (hs_table s1) /\ ht_vault (hs_table s1') = ht_vault (hs_table s1).
Proof.
  intros [A1 A2 A3 A4]. unfold TurboJS_RuntimeHelperInvokeAt. destruct (f_instructions f !! pc) as [i|].
  2: { intros [= <- <-]. by exists s2. }
  destruct (_ || _ || _). { intros [= <- <-]. by exists s2. }
  rewrite A1, A2. set (entry := default no_helper _). destruct (he_callback entry =? 0).
  { intros [= <- <-]. eexists. split; [done|]. split; [by split|]. done. }
  destruct (TurboJS_BoxDeoptFrameRooted _ _ _) as [[st [boxed|]] events].
  - destruct st; cbn [hs_world hs_update hs_log]; rewrite ?A3.
    2-11: intros [= <- <-]; eexists; (split; [done|]); (split; [split; cbn; congruence|done]).
    destruct (callback _ _ _ _ _) as [[w st] boxed_result]. intros [= <- <-]. eexists. split; [done|].
    case_decide; (split; [split; cbn; congruence|done]).
  - destruct st; intros [= <- <-]; eexists; (split; [done|]); (split; [split; cbn; congruence|done]).
Qed.

(** ** Runs without native code *)

Definition refuse (ir : TurboJSIRFunction) : TurboJSIRStatus * TurboJSNativeFunction :=
  (TURBOJS_IR_UNSUPPORTED, sample_native 0 TURBOJS_VALUE_I64 []).

(** No vault, and nothing in the private cache. *)
Definition plain (t : TurboJSRuntimeHelperTable) : Prop :=
  ht_vault t = None /\ forall c, ht_cache t = Some c -> Forall (fun e => ce_native e = None) (cc_entries c).

Lemma search_plain id revision start : forall es i v, Forall (fun e => ce_native e = None) es ->
  exists v', search_cache id revision start i v es = inr v'.
Proof.
  induction es as [|e es IH]; intros i v Hf; simpl; [by exists v|]. apply Forall_cons in Hf as [He Hf].
  unfold is_cached. rewrite He. simpl. by apply IH.
Qed.

Lemma compile_refused mem f start registers locals :
  exists st, TurboJS_RuntimeCompileContinuationSegment mem refuse f start registers locals = inl st.
Proof.
  unfold TurboJS_RuntimeCompileContinuationSegment. destruct (_ <=? _); [by eexists|]. destruct (_ <? _); [by eexists|].
  destruct (check_segment _); [by eexists|]. destruct (segment_ir _ _ _) as [|[ir p]]; [by eexists|].
  destruct (negb _); by eexists.
Qed.

Lemma plain_segment {W} native_run allocate mem f pc registers locals (s : HelperState W) : plain (hs_table s) ->
  exists s', try_native_continuation_segment native_run refuse allocate mem f pc registers locals s =
    Some (s', SegmentStatus TURBOJS_IR_UNSUPPORTED registers locals pc) /\ alike s s' /\ plain (hs_table s').
Proof.
  intros [Hv Hc]. unfold try_native_continuation_segment, TurboJS_RuntimeContinuationCacheAcquire. rewrite Hv.
  destruct (hm_arguments mem); cbn [negb].
  2: { eexists. split; [done|]. split; [by split|]. by split. }
  unfold acquire_from_cache. destruct (get_cache mem (hs_table s)) as [c|] eqn:Hg.
  2: { eexists. split; [done|]. split; [by split|]. by split. }
  assert (Hcc : Forall (fun e => ce_native e = None) (cc_entries c)).
  { unfold get_cache in Hg. destruct (ht_cache (hs_table s)) as [c0|]; [injection Hg as <-; by apply Hc|].
    destruct (hm_cache mem); [|done]. injection Hg as <-. repeat constructor. }
  destruct (search_plain (f_instance_id f) (f_revision f) (Z.of_nat pc) (cc_entries c) 0 None Hcc) as [v ->].
  destruct (compile_refused mem f pc registers locals) as [st ->]. eexists. split; [done|]. split; [by split|].
  split; [done|]. intros c' [= <-]. done.
Qed.

(** ** Interpreting a segment *)

Section Segment.
Context {W : Type}
  (callback : Z -> Z -> W -> TurboJSBoxedDeoptFrame -> TurboJSIRInstruction -> W * TurboJSIRStatus * TurboJSBoxedValue).
Context (hp : Heap) (native_i64 native_f64 : Z -> list Z -> TurboJSIRStatus * Z).
Context (native_run : TurboJSNativeFunction -> list Z -> TurboJSIRStatus * Z * TurboJSDeoptFrame).
Context (baseline : TurboJSIRFunction -> TurboJSIRStatus * TurboJSNativeFunction).
Context (allocate : gmap Z TurboJSNativeFunction -> Z) (mem : nat -> HelperMemory).
Context (f : TurboJSIRFunction) (rk lk : list TurboJSValueKind).
Context (Hacc : ir_accepted hp f) (Htyped : Forall dest_typed (f_instructions f)).
Context (Hregs : 0 <= f_register_count f) (Hlocs : 0 <= f_local_count f).
Notation loop b fuel := (resume_loop callback hp native_i64 native_run b allocate fuel mem f rk lk).
Notation ends := (native_ends hp native_i64 native_f64).

(** A run that interprets a segment: native code of the segment returns the
    run's result, or stands at the next helper where the run goes on. *)
Lemma segment_run ir arguments tr tl : forall instrs fuel registers locals pc call s s' r q,
  drop pc (f_instructions f) = instrs -> check_segment instrs = None -> drop q (f_instructions ir) = segment_code instrs ->
  Z.of_nat (length registers) <= f_register_count ir -> sized f registers locals ->
  loop refuse fuel registers locals pc call s = (s', Result r) ->
  (s' = s /\ ends ir arguments (registers ++ tr) (locals ++ tl) q (Returned r)) \/
  exists k fuel' registers' locals', (fuel' <= fuel)%nat /\ (pc + k < length (f_instructions f))%nat /\
    ends ir arguments (registers ++ tr) (locals ++ tl) q (AtHelper (registers' ++ tr) (locals' ++ tl) (q + k)) /\
    sized f registers' locals' /\ loop refuse fuel' registers' locals' (pc + k) call s = (s', Result r).
Proof.
  induction instrs as [|i instrs IH]; intros fuel registers locals pc call s s' r q Hd Hc Hq Hlen Hsz Hl; [done|].
  simpl in Hc, Hq. pose proof (lookup_of_drop (f_instructions f) pc) as Hi. rewrite Hd in Hi. simpl in Hi.
  assert (Hpc : (pc < length (f_instructions f))%nat) by (by eapply lookup_lt_Some).
  assert (Hqi : f_instructions ir !! q = Some i).
  { rewrite lookup_of_drop, Hq. destruct (ends_segment _); [|done]. by case_decide. }
  destruct (is_straight_line_opcode (in_opcode i)) eqn:Hs; [|done]. cbn [negb] in Hc.
  destruct (decide (in_opcode i = TURBOJS_IR_RUNTIME_HELPER)) as [Hh|Hh].
  { right. exists O, fuel, registers, locals. rewrite !Nat.add_0_r. split_and!; try done. by eapply native_at_helper. }
  destruct fuel as [|fuel]; cbn [resume_loop] in Hl; rewrite Hi in Hl; [done|]. rewrite decide_False in Hl by done.
  destruct (resume_step hp native_i64 i registers locals pc) as [registers1 locals1 pc1|o] eqn:Hr.
  - destruct (ends_segment (in_opcode i)) eqn:He.
    { exfalso. unfold resume_step, rd in Hr. destruct (in_opcode i); try done; by case_match. }
    destruct (segment_step hp native_i64 native_f64 ir arguments i registers locals pc q registers1 locals1 pc1 tr tl Hs He Hlen Hr)
      as (Hn & -> & L1 & L2).
    pose proof (accepted_operands _ _ _ _ Hacc Hi) as Hop. pose proof (resume_step_sized _ _ _ _ _ _ _ _ _ _ Hop Hsz Hr) as Hsz1.
    destruct (IH fuel registers1 locals1 (S pc) call s s' r (S q)) as [[-> Hend]|(k & fuel' & registers' & locals' & K1 & K2 & K3 & K4 & K5)]; try done.
    + by rewrite <-Nat.add_1_r, <-drop_drop, Hd.
    + by rewrite <-Nat.add_1_r, <-drop_drop, Hq.
    + by rewrite L1.
    + left. split; [done|]. by eapply native_next.
    + right. exists (S k), fuel', registers', locals'. rewrite !Nat.add_succ_r. split_and!; [lia|simpl in K2; lia| |done|done].
      by eapply native_next.
  - injection Hl as <- ->. left. split; [done|]. eapply native_returned; [done|done|].
    eapply segment_return; [|exact Hr]. unfold resume_step, execute_clutch_call, rd, wr, arith in Hr.
    destruct (in_opcode i); try done; try (by left); try (by right); repeat (case_match; try done).
Qed.
(** ** Compiled segments *)

(** [n] is the code of the segment of [f] that starts at [start], possibly
    with other call-site targets. *)
Definition compiled (start : Z) (prologue : Z) (n : TurboJSNativeFunction) : Prop :=
  exists m ir n0, (Z.to_nat start < length (f_instructions f))%nat /\ f_register_count f + f_local_count f <= TURBOJS_IR_MAX_REGISTERS /\
    check_segment (drop (Z.to_nat start) (f_instructions f)) = None /\ segment_ir m f (Z.to_nat start) = inr (ir, prologue) /\
    baseline ir = (TURBOJS_IR_OK, n0) /\ (n = n0 \/ (callfree ir /\ resited n0 n)).

Lemma compile_compiled m start registers locals n arguments prologue :
  TurboJS_RuntimeCompileContinuationSegment m baseline f start registers locals = inr (n, arguments, prologue) ->
  compiled (Z.of_nat start) prologue n.
Proof.
  unfold TurboJS_RuntimeCompileContinuationSegment, f_instruction_count. destruct (Z.leb_spec (Z.of_nat (length (f_instructions f))) (Z.of_nat start)); [done|].
  destruct (Z.ltb_spec TURBOJS_IR_MAX_REGISTERS (f_register_count f + f_local_count f)); [done|].
  destruct (check_segment _) eqn:Hc; [done|]. destruct (segment_ir _ _ _) as [|[ir p]] eqn:Hs; [done|]. destruct (negb _); [done|].
  destruct (baseline ir) as [st n0] eqn:Hb. destruct st; try done. intros [= <- <- <-]. exists m, ir, n0. rewrite Nat2Z.id.
  split_and!; try done; [lia|by left].
Qed.

Lemma segment_code_callfree : forall instrs,
  Forall (fun i => in_opcode i <> TURBOJS_IR_CALL_NATIVE_I64 /\ in_opcode i <> TURBOJS_IR_CALL_NATIVE_F64) instrs ->
  Forall (fun i => in_opcode i <> TURBOJS_IR_CALL_NATIVE_I64 /\ in_opcode i <> TURBOJS_IR_CALL_NATIVE_F64) (segment_code instrs).
Proof.
  induction 1 as [|i instrs Hi _ IH]; simpl; [constructor|]. destruct (ends_segment _); [|by constructor].
  case_decide; repeat constructor; try done; apply Hi.
Qed.

Lemma segment_callfree m start ir prologue :
  callfree f -> f_register_count f + f_local_count f <= TURBOJS_IR_MAX_REGISTERS -> segment_ir m f start = inr (ir, prologue) -> callfree ir.
Proof.
  intros Hcf H64 Hs. unfold TURBOJS_IR_MAX_REGISTERS in H64.
  destruct (segment_ir_code m f start ir prologue (Z.to_nat (f_register_count f)) (Z.to_nat (f_local_count f))) as (Hc & _); [lia|lia|lia|done|].
  unfold callfree. rewrite Hc. apply Forall_app. split; [apply Forall_map, Forall_true; done|]. apply Forall_app. split.
  - apply Forall_concat, Forall_map, Forall_true. intros k. by repeat constructor.
  - by apply segment_code_callfree, Forall_drop.
Qed.

(** Continuation code of other functions is not our concern. *)
Definition segment_of (id revision start prologue : Z) (n : TurboJSNativeFunction) : Prop :=
  id = f_instance_id f -> revision = f_revision f -> compiled start prologue n.

Lemma segment_of_stable : callfree f -> forall id revision start prologue n n',
  resited n n' -> segment_of id revision start prologue n -> segment_of id revision start prologue n'.
Proof.
  intros Hcf id revision start prologue n n' Hr Hs Hid Hrev. destruct (Hs Hid Hrev) as (m & ir & n0 & K1 & K2 & K3 & K4 & K5 & K6).
  exists m, ir, n0. split_and!; try done. right. split; [by eapply segment_callfree|].
  destruct K6 as [->|[_ Hn]]; [done|by etransitivity].
Qed.

(** ** The caches hold segments *)

Context (outside : gmap Z TurboJSNativeFunction).

Definition entry_ok (e : TurboJSContinuationCacheEntry) : Prop :=
  forall n, ce_native e = Some n -> segment_of (ce_function_id e) (ce_function_revision e) (ce_start_instruction e) (ce_prologue_count e) n.

Record caches_ok (t : TurboJSRuntimeHelperTable) : Prop := {
  ca_private : forall c, ht_cache t = Some c -> cc_entries c <> [] /\ Forall entry_ok (cc_entries c);
  ca_vault : forall c, ht_vault t = Some c -> callfree f /\ vault_ok outside c /\ continuations_ok segment_of c
}.

Lemma search_hit id revision start : forall es i v k e,
  search_cache id revision start i v es = inl (k, e) -> is_cached id revision start e = true /\ e ∈ es.
Proof.
  induction es as [|x es IH]; intros i v k e Hs; simpl in Hs; [done|].
  destruct (is_cached id revision start x) eqn:Hx; [injection Hs as <- <-; split; [done|by left]|].
  apply IH in Hs as [H1 H2]. split; [done|by right].
Qed.

Lemma search_victim id revision start : forall es i v v', search_cache id revision start i v es = inr v' ->
  es <> [] \/ is_Some v -> is_Some v'.
Proof.
  induction es as [|x es IH]; intros i v v' Hs Hn; simpl in Hs.
  { injection Hs as <-. by destruct Hn. }
  destruct (is_cached _ _ _ x); [done|]. apply IH in Hs; [done|]. right. destruct v as [[j y]|]; [|done]. by destruct (_ || _).
Qed.
(** ** Acquiring a segment *)

Context (Hid : f_instance_id f <> 0) (Hfaithful : FaithfulNative hp native_i64 native_f64 native_run baseline).
Context (Hallocate : forall m : gmap Z TurboJSNativeFunction, allocate m <> 0 /\ m !! allocate m = None).

(** What an acquisition gives: the table keeps its helpers and its caches are
    in order; the function is the code of the segment. *)
Record acquired (pc : nat) (t t' : TurboJSRuntimeHelperTable) (r : TurboJSIRStatus + (TurboJSNativeFunction * Z)) : Prop := {
  aq_entries : ht_entries t' = ht_entries t;
  aq_rooting : ht_rooting t' = ht_rooting t;
  aq_caches : caches_ok t';
  aq_code : match r with inr (n, prologue) => compiled (Z.of_nat pc) prologue n | inl _ => True end
}.

Lemma caches_set_vault t c : caches_ok t -> callfree f -> vault_ok outside c -> continuations_ok segment_of c -> caches_ok (ht_set_vault (Some c) t).
Proof. intros [C1 C2] H1 H2 H3. split; [exact C1|]. by intros c' [= <-]. Qed.

Lemma caches_set_private t es clock : caches_ok t -> es <> [] -> Forall entry_ok es ->
  caches_ok (ht_set_cache (Some (mkContinuationCache es clock)) t).
Proof. intros [C1 C2] H1 H2. split; [|exact C2]. by intros c' [= <-]. Qed.

Lemma caches_count k n t : caches_ok t -> caches_ok (ht_count k n t).
Proof. by intros [C1 C2]. Qed.

Lemma acquire_vault_ok m pc registers locals vault t : caches_ok t -> ht_vault t = Some vault ->
  exists t' r, acquire_from_vault baseline allocate m f pc registers locals vault t = Some (t', r) /\ acquired pc t t' r.
Proof.
  intros Hc Hv. destruct (ca_vault _ Hc vault Hv) as (Hcf & Hok & Hco). unfold acquire_from_vault.
  destruct (TurboJS_CodeCacheLookupContinuation _ _ _ vault) as [vault1 r] eqn:Hl.
  destruct (continuations_lookup outside segment_of (segment_of_stable Hcf) _ _ _ _ _ _ Hok Hco Hl) as (Hok1 & Hco1 & Hr).
  destruct r as [[g p]|].
  { destruct Hr as (n & -> & Hseg). do 2 eexists. split; [done|]. split; [done|done| |by apply Hseg].
    apply caches_count. by apply caches_set_vault. }
  destruct (TurboJS_RuntimeCompileContinuationSegment m baseline f pc registers locals) as [st|[[n arguments] p]] eqn:Hcomp.
  { do 2 eexists. split; [done|]. split; [done|done| |done]. by apply caches_set_vault. }
  pose proof (compile_compiled _ _ _ _ _ _ _ Hcomp) as Hseg. destruct (Hallocate (v_natives vault1)) as [Hf0 Hnew].
  assert (Hsz : 0 <= nf_code_size n).
  { destruct Hseg as (m' & ir & n0 & _ & _ & _ & _ & Hb & [->|[_ [sites ->]]]); exact (@faithful_size _ _ _ _ _ Hfaithful _ _ Hb). }
  destruct (TurboJS_CodeCacheStoreContinuation _ _ _ _ _ _ _) as [[after st] r] eqn:Hs.
  destruct (continuations_store outside segment_of (segment_of_stable Hcf) _ _ _ _ _ _ _ _ _ _ _ Hok1 Hnew Hf0 Hid Hsz Hr Hco1 (fun _ _ => Hseg) Hs)
    as (Hok2 & Hco2 & Hr2).
  destruct r as [g|].
  - destruct Hr2 as (-> & n' & Hn' & Hseg'). rewrite Hn'. do 2 eexists. split; [done|]. split; [done|done| |by apply Hseg'].
    apply caches_set_vault; try done. by do 3 apply caches_count.
  - destruct st; [done|..]; (do 2 eexists; split; [done|]; split; [done|done| |done]; apply caches_set_vault; try done; by do 2 apply caches_count).
Qed.

Lemma acquire_cache_ok m pc registers locals t : caches_ok t ->
  exists t' r, acquire_from_cache baseline m f pc registers locals t = Some (t', r) /\ acquired pc t t' r.
Proof.
  intros Hc. unfold acquire_from_cache. destruct (get_cache m t) as [c|] eqn:Hg.
  2: { do 2 eexists. split; [done|]. by split. }
  assert (Hcc : cc_entries c <> [] /\ Forall entry_ok (cc_entries c)).
  { unfold get_cache in Hg. destruct (ht_cache t) as [c0|] eqn:Ht; [injection Hg as <-; by apply (ca_private _ Hc)|].
    destruct (hm_cache m); [|done]. injection Hg as <-. split; [done|]. repeat constructor; done. }
  destruct Hcc as [Hne Hes]. set (clock := uwrap 64 (cc_clock c + 1)).
  destruct (search_cache _ _ _ _ _ _) as [[k e]|v] eqn:Hs.
  - apply search_hit in Hs as [Hcached Hin]. unfold is_cached in Hcached. b2p.
    match goal with H : is_Some (ce_native e) |- _ => destruct H as [n Hn] end. rewrite Hn.
    pose proof (proj1 (Forall_forall _ _) Hes e Hin) as He. do 2 eexists. split; [done|]. split; [done|done| |].
    + apply caches_count, caches_set_private; [done| |].
      { by destruct (cc_entries c), k. }
      apply Forall_insert; [done|]. intros n' Hn'. cbn in *. apply He. congruence.
    + pose proof (He n Hn) as Hseg. unfold segment_of in Hseg.
      match goal with H : ce_start_instruction e = _ |- _ => rewrite H in Hseg end. by apply Hseg.
  - destruct (TurboJS_RuntimeCompileContinuationSegment m baseline f pc registers locals) as [st|[[n arguments] p]] eqn:Hcomp.
    { do 2 eexists. split; [done|]. split; [done|done| |done]. by apply caches_set_private. }
    pose proof (compile_compiled _ _ _ _ _ _ _ Hcomp) as Hseg. apply search_victim in Hs as [[k w] ->]; [|by left].
    assert (Hkeep : caches_ok (count_compiled (ht_set_cache (Some (mkContinuationCache
      (<[k := mkContinuation (f_instance_id f) (f_revision f) (Z.of_nat pc) p clock (Some n)]> (cc_entries c)) clock)) t))).
    { do 2 apply caches_count. apply caches_set_private; [done|by destruct (cc_entries c), k|].
      apply Forall_insert; [done|]. intros n' [= <-] _ _. exact Hseg. }
    case_decide; (do 2 eexists; split; [done|]; split; [done|done| |exact Hseg]); [done|by apply caches_count].
Qed.

Lemma acquire_ok m pc registers locals t : caches_ok t ->
  exists t' r, TurboJS_RuntimeContinuationCacheAcquire baseline allocate m f pc registers locals t = Some (t', r) /\
    ht_entries t' = ht_entries t /\ ht_rooting t' = ht_rooting t /\ caches_ok t' /\
    match r with
    | inl _ => True
    | inr (n, prologue, arguments) => compiled (Z.of_nat pc) prologue n /\ arguments = segment_arguments f registers locals
    end.
Proof.
  intros Hc. unfold TurboJS_RuntimeContinuationCacheAcquire. destruct (hm_arguments m); cbn [negb].
  2: { do 2 eexists. by split. }
  assert (exists t' r, match ht_vault t with
                       | Some vault => acquire_from_vault baseline allocate m f pc registers locals vault t
                       | None => acquire_from_cache baseline m f pc registers locals t
                       end = Some (t', r) /\ acquired pc t t' r) as (t' & r & -> & [A1 A2 A3 A4]).
  { destruct (ht_vault t) as [vault|] eqn:Hv; [by apply acquire_vault_ok|by apply acquire_cache_ok]. }
  destruct r as [st|[n p]]; by do 2 eexists.
Qed.
(** ** Running a segment *)

Lemma restore_all count mask (values old new tail : list Z) :
  length old = length new -> Z.of_nat (length new) = count \/ (count = 0 /\ old = new) ->
  (forall j, 0 <= j < count -> Z.testbit mask j = true) ->
  (forall j : nat, Z.of_nat j < count -> values !! j = (new ++ tail) !! j) -> restore_values count mask values old = new.
Proof.
  intros Hlen Hc Hm Hv. apply list_eq. intros j. unfold restore_values. rewrite list_lookup_imap.
  destruct (old !! j) as [x|] eqn:Hx; simpl.
  2: { symmetry. apply lookup_ge_None. apply lookup_ge_None in Hx. lia. }
  pose proof (lookup_lt_Some _ _ _ Hx) as Hj. destruct Hc as [Hc|[-> ->]].
  - rewrite (proj2 (Z.ltb_lt _ _)), Hm, Hv by lia. simpl. rewrite lookup_app_l by lia.
    destruct (lookup_lt_is_Some_2 new j ltac:(lia)) as [y ->]. done.
  - rewrite (proj2 (Z.ltb_ge _ _)) by lia. done.
Qed.

(** The arrays the segment starts with: the interpreter's arrays and more. *)
Lemma segment_starts rn ln registers locals base_registers base_locals :
  length base_locals = ln ->
  f_register_count f = Z.of_nat rn -> f_local_count f = Z.of_nat ln -> (1 <= rn)%nat -> (rn + ln <= 64)%nat -> sized f registers locals ->
  length registers = rn /\ length (segment_arguments f registers locals) = (rn + ln)%nat /\
  (exists tr, overlay base_registers (segment_arguments f registers locals) = registers ++ tr) /\
  (exists tl, overlay (padded base_locals) (take ln locals) = locals ++ tl) /\
  segment_arguments f registers locals = take rn (segment_arguments f registers locals) ++ take ln locals.
Proof.
  intros Hbl Hr Hl H1 H64 [S1 S2 S3]. rewrite Hr, length_zeroed, Nat2Z.id in S1 by lia. rewrite Hl, length_zeroed, Nat2Z.id in S2 by lia.
  assert (Hlr : length registers = rn) by lia. unfold segment_arguments. rewrite Hr, Hl, !Nat2Z.id.
  rewrite (take_ge registers rn) by lia. split; [done|]. split; [rewrite length_app, length_take; lia|].
  split; [unfold overlay; rewrite <-app_assoc; by eexists|]. split.
  - destruct ln as [|ln].
    + rewrite S3 by done. destruct base_locals; [|done]. exists (replicate 63 0). done.
    + rewrite take_ge by lia. unfold overlay. by eexists.
  - by rewrite take_app_length'.
Qed.

Lemma use_segment fuel registers locals pc call s s' r prologue n :
  sized f registers locals -> 1 <= f_register_count f -> compiled (Z.of_nat pc) prologue n ->
  loop refuse fuel registers locals pc call s = (s', Result r) ->
  match native_run n (segment_arguments f registers locals) with
  | (TURBOJS_IR_OK, v, _) => v = r /\ s' = s
  | (TURBOJS_IR_BAILOUT, _, frame) =>
      bo_reason (df_bailout frame) <> TURBOJS_BAILOUT_RUNTIME_HELPER \/
      exists k fuel' registers' locals', (fuel' <= fuel)%nat /\ (pc + k < length (f_instructions f))%nat /\
        bo_instruction_index (df_bailout frame) = prologue + Z.of_nat k /\
        restore_values (f_register_count f) (df_materialized_register_mask frame) (df_register_values frame) registers = registers' /\
        restore_values (f_local_count f) (df_materialized_local_mask frame) (df_local_values frame) locals = locals' /\
        sized f registers' locals' /\ loop refuse fuel' registers' locals' (pc + k) call s = (s', Result r)
  | _ => False
  end.
Proof.
  intros Hsz H1 (m & ir & n0 & K1 & K2 & K3 & K4 & K5 & K6) Hl. rewrite Nat2Z.id in *. unfold TURBOJS_IR_MAX_REGISTERS in K2.
  set (rn := Z.to_nat (f_register_count f)). set (ln := Z.to_nat (f_local_count f)).
  assert (Hrn : f_register_count f = Z.of_nat rn) by lia. assert (Hln : f_local_count f = Z.of_nat ln) by lia.
  destruct (segment_ir_code m f pc ir prologue rn ln Hrn Hln ltac:(lia) K4) as (C1 & C2 & C3 & C4 & C5).
  assert (Hla : f_argument_count ir <= Z.of_nat (length (segment_arguments f registers locals))).
  { destruct (segment_starts rn ln registers locals [] (replicate ln 0) (length_replicate _ _) Hrn Hln ltac:(lia) ltac:(lia) Hsz) as (_ & L2 & _). lia. }
  destruct (@faithful_runs _ _ _ _ _ Hfaithful ir n0 n (segment_arguments f registers locals) K5 K6 Hla) as (br & bl & Hbr & Hbl & Hruns).
  rewrite C3, Nat2Z.id in Hbr. rewrite C4, Nat2Z.id in Hbl.
  destruct (segment_starts rn ln registers locals (padded br) bl Hbl Hrn Hln ltac:(lia) ltac:(lia) Hsz) as (L1 & L2 & [tr Htr] & [tl Htl] & L3).
  set (arguments := segment_arguments f registers locals) in *.
  assert (Hd2 : drop rn (f_instructions ir) = local_loads rn 0 ln ++ segment_code (drop pc (f_instructions f))).
  { rewrite C1. apply drop_app_length'. unfold register_loads. by rewrite length_map, length_seq. }
  assert (Hd3 : drop (rn + 2 * ln) (f_instructions ir) = segment_code (drop pc (f_instructions f))).
  { rewrite <-drop_drop, Hd2. apply drop_app_length'. by rewrite length_local_loads. }
  assert (Hstart : forall e, ends ir arguments (registers ++ tr) (locals ++ tl) (rn + 2 * ln) e -> ends ir arguments (padded br) (padded bl) 0 e).
  { intros e He. assert (length (padded br) = 64%nat) as Hpr by (apply padded_length; lia). assert (length (padded bl) = 64%nat) as Hpl by (apply padded_length; lia).
    eapply (run_register_loads _ _ _ (padded br) (padded bl) Hpr Hpl ir arguments (padded bl) e rn 0 0); [by rewrite C1|lia|lia|]. simpl.
    pose proof (run_local_loads hp native_i64 native_f64 (padded br) (padded bl) Hpr Hpl ir arguments (take ln locals) rn e ln 0 rn (segment_code (drop pc (f_instructions f)))) as Hloc.
    rewrite Nat.add_0_r in Hloc. apply Hloc; try done; try lia.
    - destruct Hsz as [_ S2 _]. rewrite Hln, length_zeroed, Nat2Z.id in S2 by lia. rewrite length_take. lia.
    - rewrite (take_ge (take ln locals)) by (rewrite length_take; lia). rewrite take_ge by lia. by rewrite Htr, Htl. }
  destruct (segment_run ir arguments tr tl _ fuel registers locals pc call s s' r (rn + 2 * ln)%nat eq_refl K3 Hd3 ltac:(lia) Hsz Hl)
    as [[-> Hend]|(k & fuel' & registers' & locals' & E1 & E2 & Hend & E4 & E5)].
  - apply Hstart in Hend as [ef Hend]. pose proof (Hruns ef _ Hend) as Hrun.
    destruct (native_run n arguments) as [[[] v] frame]; try done; cbn in Hrun; [by injection Hrun as ->|].
    left. destruct Hrun as [Hrun|(? & ? & ? & Hrun & _)]; [exact Hrun|discriminate Hrun].
  - apply Hstart in Hend as [ef Hend]. pose proof (Hruns ef _ Hend) as Hrun.
    destruct (native_run n arguments) as [[[] v] frame]; try done; cbn in Hrun.
    destruct Hrun as [Hrun|(r1 & l1 & p1 & [= <- <- <-] & Hcap)]; [by left|right].
    destruct Hcap as (_ & G1 & G2 & G3 & G4 & G5 & G6 & G7). cbn in G1, G6, G7. exists k, fuel', registers', locals'.
    destruct Hsz as [S1 S2 S3]. destruct E4 as [T1 T2 T3]. split_and!; try done.
    + rewrite G1. lia.
    + apply (restore_all _ _ _ _ _ tr); [congruence|left; lia| |]; intros j Hj; [apply G4; lia|apply G6; lia].
    + apply (restore_all _ _ _ _ _ tl); [congruence| |intros j Hj; apply G5; lia|intros j Hj; apply G7; lia].
      rewrite T2, Hln, length_zeroed, Nat2Z.id by lia. destruct (decide (ln = 0%nat)) as [Hz|]; [right|left; lia].
      split; [lia|]. by rewrite S3, T3 by lia.
Qed.
(** ** The simulation *)

Lemma caches_same t t' : ht_cache t' = ht_cache t -> ht_vault t' = ht_vault t -> caches_ok t -> caches_ok t'.
Proof. intros H1 H2 [C1 C2]. split; [by rewrite H1|by rewrite H2]. Qed.

Lemma plain_same t t' : ht_cache t' = ht_cache t -> ht_vault t' = ht_vault t -> plain t -> plain t'.
Proof. intros H1 H2 [P1 P2]. split; [by rewrite H2|by rewrite H1]. Qed.

(** A segment in the assisted run, where the plain run returns. *)
Lemma assisted_segment m fuel registers locals pc call s1 s1' s2 r :
  alike s1 s2 -> caches_ok (hs_table s2) -> sized f registers locals -> 1 <= f_register_count f ->
  loop refuse fuel registers locals pc call s1 = (s1', Result r) ->
  exists s2' e, try_native_continuation_segment native_run baseline allocate m f pc registers locals s2 = Some (s2', e) /\
    alike s1 s2' /\ caches_ok (hs_table s2') /\
    match e with
    | SegmentResult v => v = r /\ s1' = s1
    | SegmentStatus (TURBOJS_IR_UNSUPPORTED | TURBOJS_IR_BAILOUT) registers' locals' pc' =>
        sized f registers' locals' /\ exists fuel', (fuel' <= fuel)%nat /\ loop refuse fuel' registers' locals' pc' call s1 = (s1', Result r)
    | SegmentStatus _ _ _ _ => False
    end.
Proof.
  intros Ha Hc Hsz H1 Hl. unfold try_native_continuation_segment.
  destruct (acquire_ok m pc registers locals (hs_table s2) Hc) as (t' & x & -> & A1 & A2 & A3 & A4).
  assert (Hal : forall k, alike s1 (hs_update (ht_count k 1) (hs_update (fun _ => t') s2))).
  { intros k. destruct Ha. split; cbn; congruence. }
  destruct x as [st|[[n p] arguments]].
  { do 2 eexists. split; [done|]. split; [apply Hal|]. split; [by apply caches_count|]. split; [done|]. by exists fuel. }
  destruct A4 as [Hcomp ->]. pose proof (use_segment fuel registers locals pc call s1 s1' r p n Hsz H1 Hcomp Hl) as Hu.
  destruct (native_run n _) as [[[] v] frame]; try done.
  - do 2 eexists. split; [done|]. split; [apply Hal|]. split; [by apply caches_count|done].
  - destruct Hu as [Hu|(k & fuel' & registers' & locals' & U1 & U2 & U3 & U4 & U5 & U6 & U7)].
    + rewrite bool_decide_eq_false_2 by done. cbn [andb]. do 2 eexists. split; [done|]. split; [apply Hal|]. split; [by apply caches_count|].
      split; [done|]. by exists fuel.
    + assert (Hpc : Z.of_nat pc + (bo_instruction_index (df_bailout frame) - p) = Z.of_nat (pc + k)) by lia.
      rewrite Hpc, Nat2Z.id. unfold f_instruction_count. rewrite (proj2 (Z.ltb_lt _ _)) by lia.
      rewrite (proj2 (Z.leb_le p _)) by lia. rewrite andb_true_r. case_bool_decide.
      * do 2 eexists. split; [done|]. split; [apply Hal|]. split; [by apply caches_count|]. rewrite U4, U5. split; [done|]. by exists fuel'.
      * do 2 eexists. split; [done|]. split; [apply Hal|]. split; [by apply caches_count|]. split; [done|]. by exists fuel.
Qed.

Lemma resume_simulates : forall fuel fuel2 registers locals pc call s1 s1' s2 r, (fuel <= fuel2)%nat ->
  alike s1 s2 -> plain (hs_table s1) -> caches_ok (hs_table s2) -> sized f registers locals ->
  loop refuse fuel registers locals pc call s1 = (s1', Result r) ->
  exists s2', loop baseline fuel2 registers locals pc call s2 = (s2', Result r) /\ alike s1' s2' /\ caches_ok (hs_table s2').
Proof.
  induction fuel as [fuel IH] using lt_wf_ind. intros fuel2 registers locals pc call s1 s1' s2 r Hle Ha Hp Hc Hsz Hl.
  destruct fuel as [|fuel]; cbn [resume_loop] in Hl; destruct (f_instructions f !! pc) as [i|] eqn:Hi; try done.
  destruct fuel2 as [|fuel2]; [lia|]. cbn [resume_loop]. rewrite Hi.
  destruct (decide (in_opcode i = TURBOJS_IR_RUNTIME_HELPER)) as [Hh|Hh].
  2: { destruct (resume_step hp native_i64 i registers locals pc) as [registers1 locals1 pc1|o] eqn:Hr.
       - eapply (IH fuel); try done; try lia. eapply resume_step_sized; [by eapply accepted_operands|done|done].
       - injection Hl as <- ->. by exists s2. }
  destruct (TurboJS_RuntimeHelperInvokeAt callback (mem call) f pc registers locals rk lk s1) as [s1a [st|v]] eqn:Hinv; [done|].
  destruct (invoke_alike _ _ _ _ _ _ _ _ _ _ _ _ Ha Hinv) as (s2a & -> & Ha' & V1 & V2 & V3 & V4).
  destruct (_ <? _)%nat; [|done]. set (registers1 := <[_ := v]> registers) in *.
  assert (Hsz1 : sized f registers1 locals).
  { destruct Hsz. split; [by unfold registers1; rewrite length_insert|done|done]. }
  assert (H1 : 1 <= f_register_count f).
  { pose proof (proj1 (Forall_lookup _ _) Htyped _ _ Hi) as Hd. unfold dest_typed in Hd.
    destruct (accepted_operands _ _ _ _ Hacc Hi) as [ret Hok]. unfold verify_instruction in Hok. rewrite Hh in Hok.
    destruct (negb (valid_register f (in_destination i))) eqn:Hv; [done|]. unfold valid_register in Hv. b2p. lia. }
  destruct (plain_segment native_run allocate (mem call) f (S pc) registers1 locals s1a (plain_same _ _ V3 V4 Hp)) as (s1b & Hseg & Hab & Hpb).
  rewrite Hseg in Hl.
  assert (Halike : alike s1b s2a) by (etransitivity; [symmetry; exact Hab|exact Ha']).
  destruct (assisted_segment (mem call) fuel registers1 locals (S pc) (S call) s1b s1' s2a r Halike (caches_same _ _ V1 V2 Hc) Hsz1 H1 Hl)
    as (s2b & e & -> & Hal & Hcb & He).
  destruct e as [v'|st registers2 locals2 pc2].
  - destruct He as [-> ->]. by exists s2b.
  - destruct st; try done; destruct He as (Hsz2 & fuel' & Hf & Hl'); (eapply (IH fuel'); [lia|lia|exact Hal|exact Hpb|done|done|exact Hl']).
Qed.
End Segment.

(** The table without its caches. *)
Definition without_caches {W} (s : HelperState W) : HelperState W := hs_update (fun t => ht_set_vault None (ht_set_cache None t)) s.


(** ** A concrete run

    [h() + 10] is kept in a local over a second call of [h] and added to its
    result.  [h] (helper 5, callback 77) counts its calls. *)

Definition counting_function : TurboJSIRFunction :=
  f_set_identity (f_set_instructions (f_set_counts zero_function 3 0 1)
    [instr TURBOJS_IR_RUNTIME_HELPER 0 0 0 5 0; instr TURBOJS_IR_CONSTANT_I64 1 0 0 10 0; instr TURBOJS_IR_ADD_I64 2 0 1 0 0;
     instr TURBOJS_IR_LOCAL_SET 0 2 0 0 0; instr TURBOJS_IR_RUNTIME_HELPER 0 0 0 5 0; instr TURBOJS_IR_LOCAL_GET 1 0 0 0 0;
     instr TURBOJS_IR_ADD_I64 2 0 1 0 0; instr TURBOJS_IR_RETURN_I64 0 2 0 0 0] 16) 4 1.

Definition count_calls (_ _ w : Z) (_ : TurboJSBoxedDeoptFrame) (_ : TurboJSIRInstruction) : Z * TurboJSIRStatus * TurboJSBoxedValue :=
  (w + 1, TURBOJS_IR_OK, mkBoxed TURBOJS_BOXED_INT64 w).

Definition granting : HelperMemory := mkHelperMemory (fun _ => true) true true (fun _ => true) true plenty 9.
Definition first_frame : TurboJSDeoptFrame :=
  mkDeoptFrame (mkBailoutInfo TURBOJS_BAILOUT_RUNTIME_HELPER 0 0) 3 1 0 0 0 0 0 [0; 0; 0] [0] [] [].

(** A machine for a list of programs: code [k] is program [k]. *)
Section Machine.
Context (segments : list TurboJSIRFunction).

Definition segment_baseline (ir : TurboJSIRFunction) : TurboJSIRStatus * TurboJSNativeFunction :=
  match list_find (fun p => same_codeb ir p = true) segments with
  | Some (k, _) => (TURBOJS_IR_OK, sample_native (Z.of_nat k) TURBOJS_VALUE_I64 [])
  | None => (TURBOJS_IR_UNSUPPORTED, sample_native 0 TURBOJS_VALUE_I64 [])
  end.

Definition frame_at (p : TurboJSIRFunction) (reason : TurboJSBailoutReason) (registers locals : list Z) (pc : nat) : TurboJSDeoptFrame :=
  mkDeoptFrame (mkBailoutInfo reason (Z.of_nat pc) 0) (f_register_count p) (f_local_count p) 0 (-1) (-1) (-1) (-1) registers locals [] [].

Definition cleared (count : Z) : list Z := padded (replicate (Z.to_nat count) 0).

Definition segment_native (n : TurboJSNativeFunction) (arguments : list Z) : TurboJSIRStatus * Z * TurboJSDeoptFrame :=
  let p := default zero_function (segments !! Z.to_nat (nf_code_size n)) in
  match native_exec empty_heap no_native no_native 100 p arguments (cleared (f_register_count p)) (cleared (f_local_count p)) 0 with
  | Some (Returned r) => (TURBOJS_IR_OK, r, frame_at p TURBOJS_BAILOUT_NONE [] [] 0)
  | Some (AtHelper registers locals pc) => (TURBOJS_IR_BAILOUT, 0, frame_at p TURBOJS_BAILOUT_RUNTIME_HELPER registers locals pc)
  | None => (TURBOJS_IR_BAILOUT, 0, frame_at p TURBOJS_BAILOUT_SAFEPOINT_REQUESTED [] [] 0)
  end.

End Machine.

Lemma native_exec_same_code hp native_i64 native_f64 f g : same_code f g -> forall fuel arguments registers locals pc,
  native_exec hp native_i64 native_f64 fuel f arguments registers locals pc = native_exec hp native_i64 native_f64 fuel g arguments registers locals pc.
Proof.
  intros [Hi Hr _ _]. induction fuel as [|fuel IH]; intros arguments registers locals pc; simpl; [done|]. rewrite Hi.
  destruct (f_instructions g !! pc) as [i|]; [|done]. case_decide; [done|].
  assert (native_step hp native_i64 native_f64 f arguments i registers locals pc = native_step hp native_i64 native_f64 g arguments i registers locals pc) as ->.
  { unfold native_step, execute_step, call_native. by rewrite Hr. }
  destruct (native_step _ _ _ _ _ _ _ _ _); [apply IH|done].
Qed.

Lemma segment_faithful segments : FaithfulNative empty_heap no_native no_native (segment_native segments) (segment_baseline segments).
Proof.
  split; intros ir n.
  - intros n' arguments Hb Hn _. exists (replicate (Z.to_nat (f_register_count ir)) 0), (replicate (Z.to_nat (f_local_count ir)) 0).
    split; [apply length_replicate|]. split; [apply length_replicate|]. intros fuel e He.
    fold (cleared (f_register_count ir)) (cleared (f_local_count ir)) in He. unfold segment_baseline in Hb. destruct (list_find _ _) as [[k p]|] eqn:Hf; [|done].
    apply list_find_Some in Hf as (Hp & Hsc & _). apply same_codeb_spec in Hsc. injection Hb as <-.
    assert (nf_code_size n' = Z.of_nat k) as Hk by (by destruct Hn as [->|[_ [sites ->]]]). unfold segment_native. rewrite Hk, Nat2Z.id, Hp.
    change (default zero_function (Some p)) with p. rewrite (native_exec_same_code _ _ _ _ _ Hsc), (sc_registers _ _ Hsc), (sc_locals _ _ Hsc) in He.
    destruct (native_exec empty_heap no_native no_native 100 p arguments (cleared _) (cleared _) 0) as [[r|registers locals pc]|] eqn:Hx; unfold runs_as; cbn iota.
    + exact (native_exec_unique _ _ _ _ _ _ _ _ _ _ _ _ He Hx).
    + right. exists registers, locals, pc. split; [exact (native_exec_unique _ _ _ _ _ _ _ _ _ _ _ _ He Hx)|]. destruct Hsc as [_ Hr _ Hl].
      unfold captures. cbn. rewrite Hr, Hl. split_and!; try reflexivity; [discriminate|intros j Hj; apply Z.bits_m1; lia|intros j Hj; apply Z.bits_m1; lia].
    + by left.
  - unfold segment_baseline. destruct (list_find _ _) as [[k p]|]; [|done]. intros [= <-]. simpl. lia.
Qed.

(** The two segments of the sample. *)
Definition segments : list TurboJSIRFunction :=
  omap (fun start => match segment_ir granting counting_function start with inr (ir, _) => Some ir | inl _ => None end) [1; 5]%nat.

(** The next address after all that are in use. *)
Definition next_address (m : gmap Z TurboJSNativeFunction) : Z := 1 + foldr Z.max 0 (map fst (map_to_list m)).

Lemma next_address_fresh m : next_address m <> 0 /\ m !! next_address m = None.
Proof.
  unfold next_address. assert (H0 : forall l : list Z, 0 <= foldr Z.max 0 l) by (induction l; simpl; lia).
  pose proof (H0 (map fst (map_to_list m))). split; [lia|]. apply eq_None_not_Some. intros [x Hx]. apply elem_of_map_to_list in Hx.
  assert (Hm : forall (l : list Z) k, k ∈ l -> k <= foldr Z.max 0 l).
  { induction l as [|y l IH]; intros k Hk; [by apply not_elem_of_nil in Hk|]. apply elem_of_cons in Hk as [->|Hk]; simpl; [lia|]. specialize (IH k Hk). lia. }
  assert (Hin : 1 + foldr Z.max 0 (map fst (map_to_list m)) ∈ map fst (map_to_list m)) by (apply list_elem_of_fmap; eexists; split; [|exact Hx]; done).
  apply Hm in Hin. lia.
Qed.

Definition counting_vault : TurboJSCodeCache :=
  default (mkCache [] 0 0 0 0 0 0 0 (fun _ => 0) [] [] ∅ ∅) (TurboJS_CodeCacheCreate true ∅ ∅ 4 1000).
Definition counting_state : HelperState Z :=
  mkHelperState (TurboJS_RuntimeHelperAttachContinuationVault (Some counting_vault)
    (TurboJS_RuntimeHelperRegister 5 77 0 (TurboJS_RuntimeHelperTableInit None)).1) 0 [].

Lemma counting_caches : caches_ok (segment_baseline segments) counting_function ∅ (hs_table counting_state).
Proof.
  split; [done|]. intros c [= <-]. split; [|split].
  - repeat constructor; discriminate.
  - destruct (create_step ∅ true ∅ 4 1000 counting_vault) as (Hok & _); [lia|done|reflexivity|exact Hok].
  - intros s e n (Hs & Hl & _). change (c_entries counting_vault) with (replicate 8 empty_entry) in Hs.
    by apply lookup_replicate in Hs as [-> _].
Qed.


(** Both segments are compiled into the vault and entered. *)
Example counting_counters :
  match TurboJS_IRResumeWithRuntimeHelpers count_calls empty_heap no_native (segment_native segments) (segment_baseline segments) next_address true true
      (fun _ => granting) counting_function first_frame counting_state with
  | (s, o) => (o, map (ht_counters (hs_table s)) [helper_calls; native_continuation_compiles; native_continuation_entries; native_continuation_fallbacks])
  end = (Result 11, [2; 2; 2; 0]).
Proof. vm_compute. reflexivity. Qed.
